(* ===== verification/_CoqProject ===== *)
-Q . S2P
Prelude.v
StakingState.v
Solana.v
StakingInstruction.v
StakingProcessor.v
StakingLaws.v
StakingHandlers.v
StakingGovernance.v
StakingRuns.v
StakingModel.v
StakingCorrect.v
BotCore.v
ByteReader.v
LaunchLabCurve.v
LaunchLabAccounts.v
LaunchLabQuote.v
CpmmQuote.v
Text.v
Float64.v
FloatRound.v
Models.v
BotConfig.v
CopyLeader.v
CopyLeaderCorrect.v
Oms.v
OmsCorrect.v
Ownership.v
OwnershipCorrect.v
HaLease.v
HaLeaseCorrect.v
FeedCursor.v
Reconciliation.v
LedgerEvent.v
PositionBook.v
Ledger.v
LedgerReplay.v
LedgerJournal.v
LedgerCorrect.v
ExecLedger.v
ExecLedgerCorrect.v
AppState.v
AppStateCorrect.v
Dedup.v
PortfolioView.v
GlobalRisk.v
GlobalRiskCorrect.v
Risk.v
RiskCorrect.v
CopyEvent.v
FeePolicy.v
RpcPool.v
Executor.v
RpcPoolCorrect.v
BroadcastCorrect.v
ExecutorCorrect.v
ExecutorSafety.v
CopyPolicy.v
CopyOrdering.v
PumpCurve.v
PumpLayout.v
CopyStore.v
CopyRecovery.v
CopyBot.v
CopyBotCorrect.v
CopyEngine.v
CopyEngineFrame.v
CopyEngineSafety.v
CopyEngineOutcome.v
SniperSlippage.v
SniperEvent.v
SniperPipeline.v
SniperGates.v
SniperExits.v
LimitOrders.v
Plans.v
Payments.v
PlatformFee.v
Authorization.v
TenantRuntime.v
TenantGateway.v
