(* ===== verification/Prelude.v ===== *)
(** * Sniper-Bot-Copy-Trading-Bot: verified core

    The program is a Solana and Polymarket trading bot with a multi-tenant
    server around it, and an on-chain staking program.  This library models the
    parts that decide over money and over the life of orders, as they are
    written, and proves what makes them correct.  File and function names below
    are those under [src/].

    ** Files

    Shared:
    - [Prelude]: outcomes of Rust code ([Ok], [Err], panic), machine integers
      with checked and saturating operations, floor and ceiling quotients, and
      the tactics that take a successful run apart.
    - [BotCore]: the error type of the off-chain crates
      ([crates/core/src/error.rs]), checked [u128] steps, and state-passing
      computations with triples over them ([hoare]) and relations between the
      states before and after ([keeps]).
    - [Text]: Rust strings as Unicode scalar values, [trim], [f64] as an IEEE
      datum with [==].  [Float64]: the arithmetic of [f64], round to nearest
      even, with its signs; its order, as the order of a key, and what [min] and
      [max] guarantee; the casts between [f64] and integers and the unit
      conversions of [maths.rs].  [FloatRound]: a double is a whole number
      of units of 2^-1074, and a rounded sum lies on the same side of every
      double as the exact sum, so that sums of amounts never lose a summand.
    - [Models] ([crates/core/src/models.rs]): modules, venues, modes, trades,
      positions and their fill arithmetic; positions stay well formed.

    The staking program ([programs/staking-suite/src]):
    - [StakingState] is [state.rs] and [error.rs]: records, constants, reward,
      fee and cap arithmetic, addresses.  [Solana] is the runtime the program
      runs on: a store of accounts shared by all handlers, a state-and-error
      monad over it, cross-program calls, sysvars.  Everything that belongs to
      the SDK and to other programs is an operation of a type class; their
      documented behaviour is a class of laws.  [StakingInstruction] is
      [instruction.rs].  [StakingProcessor] is [processor.rs]: one definition
      per handler, with every guard and every call in the code's order.
    - [StakingLaws], [StakingHandlers], [StakingGovernance] and [StakingRuns]
      hold the lemmas: what each handler does to the store, the governance
      specification it refines, runs and their invariants.  [StakingModel] is a concrete runtime that satisfies
      the laws, so that no theorem is about nothing.  [StakingCorrect] states
      the properties: the vault covers the principals, supply stays under the
      cap, parameters change only after the timelock, the genesis mint happens
      once, the admin changes in two steps, each instruction's effect, and no
      instruction panics.

    LaunchLab and CPMM ([crates/solana-kit/src/venues]):
    - [ByteReader]: the bounds-checked cursor the decoders use, and what it
      means for a reader to read or to refuse an encoding.
    - [LaunchLabCurve] is [raydium_launchlab/curve.rs]: fees, the integer square
      root and the three curves.  [LaunchLabAccounts] is [accounts.rs]: the
      four decoders and the synthetic encoders; round trip and refusal.
      [LaunchLabQuote] is [adapter.rs] and [migration.rs]: the quotes are
      proved against the interface [CurveLaws], which each curve implements.
    - [CpmmQuote] is [raydium_cpmm/quote.rs]: both swap directions, duality,
      conservation, slippage bounds.

    Copy trading ([crates/module-copy/src]):
    - [CopyLeader] is [leader.rs]: the registry of followed wallets, in a state monad with a
      clock.  [CopyLeaderCorrect]: the transition log explains every status
      (the lifecycle is the relation [life_step]), a configuration sync
      converges and is idempotent, counters survive everything.
    - [CopyEvent] is [event.rs] down to the outcomes: the leader trade, its
      identities, its validation, the vocabulary of the pipeline.
    - [CopyPolicy] is [policy.rs] and [sizing.rs]: whether and how large to
      mirror, each proved against its full condition.  [CopyOrdering] is
      [event_ordering.rs]: an event against the newest slot of its leader.
    - [CopyStore] is the trait of [recovery.rs] with its rows: the class
      [CopyStore], its laws, and the store in memory that keeps them.
      [CopyRecovery] is [intent.rs] with the journal around a broadcast and the
      planning of [recovery.rs] and [reconcile.rs]: reconciliation sells exactly
      what the leader left.
    - [CopyBot] is the bookkeeping of the bot in [lib.rs] and [event.rs]: the
      state [CopyCore], the claim of an event, the terminal bookkeeping, the
      sync of the leaders, the recovery.  [CopyBotCorrect]: the journal has every
      decision, recovery settles, a restart does not trade an event again.
    - [CopyEngine] is the pipeline: [process_event] with its ten steps, the buys
      and sales of [mirror.rs] and [exit.rs], the sweeper, reconciliation and
      the loop of [lib.rs], over the record [CopyBot] that holds the parts the
      engine acts on.  [CopyEngineFrame]: what every stage leaves alone, once for
      all figures ([StateFrame]) and relations ([EngineFrame]).
      [CopyEngineSafety]: the ledger knows every transaction before it leaves, a
      bot in paper mode sends nothing, a claimed event is not acted on again while
      its key is remembered.  [CopyEngineOutcome]: a refused event has traded nothing, an opened
      position passed every gate, only the curve is ever traded; then a bot on a
      scripted network, the runs that show these theorems are about something,
      and the runs in which the engine does what its comments do not say.

    The sniper ([crates/module-sniper/src]):
    - [SniperSlippage] is its section of [config.rs] and [slippage.rs]: the three
      modes and their ceilings.  [SniperEvent] is [event.rs]: a launch, its
      identifiers, its validation and the order of its slots; the key of a
      launch names its mint and protocol.
    - [SniperPipeline] is [pipeline.rs]: the stages of an entry, whose histories
      are exactly the courses of [snipe_course], routes and fee budget.  [SniperGates] is
      [gates.rs]: a snapshot passes exactly when every gate does.
    - [SniperExits] is [exit_policy.rs] and the sweeper of [exit.rs], over a
      record of the calls it makes: the rungs of a ladder are decided in order,
      once each in one life of the engine, and a sweep sells only when a rule holds
      in figures ([rule_due]).
    - [LimitOrders] is [limit_orders.rs]: where identifiers are distinct, an order
      fires at most once, and when its price is reached.

    Transactions ([crates/solana-kit/src]):
    - [FeePolicy] is the fee and execution policy of [execute.rs] and its
      sections of [config.rs].  [RpcPool] is [tx.rs] (requests, built and signed
      transactions, the compute-budget instructions) and [rpc.rs] with its pool:
      routing, retries, error classes, confirmation, over the class
      [Network] of what the nodes answer.  [Executor] is [execute.rs]: gates,
      intent, fee, blockhash, signing, broadcast, confirmation, retry.
      A ghost trace records every transaction that leaves with the ledger as it
      was then.
    - [RpcPoolCorrect], [BroadcastCorrect], [ExecutorCorrect] hold the lemmas:
      what may leave, how outcomes are combined, how an attempt moves through
      the ledger; polling ends.  [ExecutorSafety] the properties: write-ahead,
      a second transaction leaves only after the code's verdict on the first, an
      intent that succeeded is not sent again until a failure of it is reported,
      every run settles its attempt, paper mode is silent; and the runs in which a
      verdict is wrong.
    - [PumpCurve] is the curve of [pump.rs] and [maths.rs]: quotes, the accounts
      and the plan of a trade.  [PumpLayout] is the rest of the trade in
      [pump.rs] with [layout.rs]: derived addresses, the context of a trade,
      default and learned layouts, the instructions.

    High availability ([crates/core/src/ha]):
    - [HaLease] is [lease.rs], the lease part of [store.rs] and of
      [runtime.rs]: the trait [HaStore] is the class [LeaseStore], its contract
      the laws [LeaseStoreLaws], the in-process store an instance, and the
      runtime's acquire, renew, fence, guarded and release are written against
      the class.  [HaLeaseCorrect]: the store keeps the laws; from the laws, for
      any interleaving of any number of workers, the fence is exclusive and a
      superseded worker stays out.
    - [FeedCursor] is [cursor.rs] and the cursor part of [runtime.rs]: replay
      suppression and gap accounting, and what the runtime's cache misses.

    Orders ([crates/core/src/oms.rs]):
    - [Oms]: the order state machine and the bounded in-memory ledger;
      [create] is split where it awaits.  [OmsCorrect]: invariants over all
      interleavings ([step]), one order per key when creates do not interleave,
      and the two ways it goes wrong when they do.

    Execution ownership ([crates/core/src/ownership.rs]):
    - [Ownership]: claims, epochs, permits, hand-off, the in-memory store and the
      runtime flags.  [OwnershipCorrect]: over any interleaving one execution has
      one active owner, a hand-off blocks resubmission for its grace, a worker
      that hangs lapses.

    Execution attempts ([crates/core/src/execution/mod.rs], [dedup.rs]):
    - [ExecLedger]: the life of one transaction attempt, the classification of
      failures, the process-wide ledger with its duplicate guard, eviction and
      restart policy.  [ExecLedgerCorrect]: an attempt in flight or landed
      refuses another over any run, only settled attempts are forgotten, a
      restart never re-sends what may have been sent, and what the sinks hear is
      a history of the state machine.
    - [Dedup]: the set of each namespace in front of a shared window.

    The ledger ([crates/core/src/accounting], [crates/core/src/reconciliation.rs]):
    - [LedgerEvent] is [event.rs] and [posting.rs], [PositionBook] is [book.rs],
      [Ledger] is [ledger.rs], [store.rs] and [recovery.rs]; the journal is the
      class [LedgerStore] with its laws.  [LedgerReplay], [LedgerJournal] hold
      the lemmas, [LedgerCorrect] the properties: each fact is booked once
      and the books are those of the events ([books_of]), nothing booked is lost, recovery rebuilds the memory exactly, postings and
      book agree, no figure is infinite.  [Reconciliation] compares positions
      with the venue.
    - [PortfolioView] is [view.rs]: the figures the risk engine and the
      dashboards read off the book.

    Risk ([crates/core/src/config.rs], [state.rs], [global_risk], [risk.rs]):
    - [BotConfig] is the two risk sections and what the state mirrors of the
      rest.  [AppState] is [state.rs]: switches, kill switch, flags of other
      replicas, positions, cooldown clocks, the day's result.  [AppStateCorrect]:
      an emergency stop reaches every replica, a stale row never lifts the kill
      switch, a merge never reopens a position, the bounds hold.
    - [GlobalRisk] is [kill_switch.rs], [decision.rs], [engine.rs] and
      [store.rs] of [global_risk].
      [GlobalRiskCorrect]: an accept is within every limit with the entries in
      flight counted (but for the number of positions), reservations live until released, an engaged switch
      refuses until released, the view is the book added up.
    - [Risk] is [risk.rs]: preflight, the entry check and its sizing, exits, the
      daily loss latch, copy and Polymarket checks.  [RiskCorrect]: every gate
      held for an entry that is allowed, its size is within every cap, a refusal
      keeps no reservation, the durable view only tightens, the kill switch
      flattens, the daily limit shuts the day.

    Billing ([crates/core/src/billing]):
    - [Plans] is [plan.rs], [subscription.rs], [entitlement.rs] and
      [usage_policy.rs]: what a tenant is entitled to, resolved row by row, is
      exactly its strongest active row, else its plan.
    - [Payments] is [payment.rs], [invoice.rs], [checkout.rs], [dunning.rs],
      [billing_state.rs], [provider_events.rs] and [reconciliation.rs]: the
      status machines, money refunded only after it was received, and the action of a
      reconciliation in closed form.
    - [PlatformFee] is [platform_fee.rs], [pricing.rs] and [usage.rs]: the fee
      and its balanced entry, prices that keep their history, usage counted
      once.

    Tenants ([crates/core/src/membership], [authorization], [tenant],
    [execution], [auth.rs], [crates/server/src/runtime_registry], [tenant],
    [tenant_config]):
    - [Authorization]: permissions, roles, the context of a request and its
      decision, deployment keys, the rate limiter.  Every decision is exact,
      scopes only narrow, another tenant is out of reach.
    - [TenantRuntime]: the registry of runtimes with leases, generations, fences,
      takeovers and the reaper.  A registry is a state of [registry_step]: one
      live runtime of a tenant, and a superseded one is fenced out for good.
    - [TenantGateway]: the configuration in force, the bindings and the chain of
      guards up to the context that is issued.  An admission binds what the tenant itself
      last put ([last_wallet]).  Each store read of an admission
      has a world of its own ([GatewayReads]); the gateway admits exactly what
      every stage allows on what it read ([gateway_exact]), and what changes
      between the reads is what the last theorems are about.

    ** How the parts interact

    The quotes of [LaunchLabQuote] call the curve of [LaunchLabCurve] that the
    [GlobalConfig] of [LaunchLabAccounts] names.  The staking handlers share
    one account store and call the token program through it.  An entry check
    ([Risk.check_entry]) reads the shared state ([AppState]), asks the global
    engine ([GlobalRisk.decide_with_reservation]), which brings the ledger up to
    date ([Ledger.refresh_from_store]) and computes the view
    ([PortfolioView.compute]) of its book ([PositionBook]), and keeps the
    reservation until the entry is done; the journal of the ledger, the journal
    of the risk engine and the durable view of other replicas are the classes
    [LedgerStore] and [RiskStore] and the record [GlobalRiskOracle].  Databases
    and the clock are arguments.

    A request of a tenant passes [Authorization.authorize] at the control plane
    and [TenantGateway.gateway_authorize] before an engine sees it; both read the
    plan through [Plans.limit_for], the gateway the fences of [TenantRuntime].

    The copy engine is where they meet.  An event claims its key in [AppState],
    is placed by [CopyOrdering], judged by [CopyPolicy], sized, checked by [Risk],
    claimed by [Ownership], and becomes an order of [PumpLayout] that [Executor]
    sends inside the journal of [CopyRecovery]; the fill is booked in [AppState],
    [Ledger] and the link of [CopyStore].  Its theorems are proved against what
    the parts promise ([EngineFrame]), not against their code.  One event, sweep
    or reconciliation is one step: the tasks of the process do not interleave
    inside it.

    ** Bounds and fuel

    Integers are [Z] with their width written out.  [ISQRT_FUEL] is 70: the
    Newton iteration of [isqrt] starts at a power of two above the root, halves
    its distance and needs fewer steps than that on every [u128]
    ([isqrt_run_correct]).  The eviction loops run on the length of the queue,
    which each turn shortens ([evict_enough], [evict_oldest_spec]).  The polling
    of a confirmation runs on [confirm_fuel], the number of polls that fit into
    the timeout; it ends before the fuel does ([confirm_terminates]).  Retries
    run on the number of attempts the policy allows.

    ** Not modelled

    Message texts, logging and metrics.  The borsh and SPL codecs, program
    derived addresses, signature checks and the database, which are not this
    repository's code: they are parameters with laws, or replies.  Redis and SQL
    stores; instants outside the range of chrono; Unicode case folding (the
    keyword lists of the launch screen).  The executor is modelled one run at a
    time: two runs of one process interleave in the code only at its awaits,
    where the ledger they share keeps them apart ([run_once_only] is over any
    quiet steps of the ledger in between).  The network clients, the HTTP
    handlers and SQL stores of the server, the front ends, the remaining venues
    (PumpSwap, Raydium, Meteora), the feeds of the sniper and its sale, and the
    Polymarket and Telegram modules, which are mostly calls of third-party
    services; provisioning, the ledger reconciliation and the LaunchLab event
    decoders.  Of the stores of the server the one in memory is modelled. *)
From stdpp Require Import prelude.
From Stdlib Require Import ZArith Lia.

#[local] Open Scope Z_scope.

(** * Outcomes

    Rust code returns [Ok], returns [Err], or panics (out-of-bounds slice,
    division by zero, failed [unwrap]).  A panic is an outcome of its own. *)

Inductive outcome (E A : Type) : Type :=
  | Ok (a : A)
  | Err (e : E)
  | Panic.
Arguments Ok {E A} a.
Arguments Err {E A} e.
Arguments Panic {E A}.

#[export] Instance outcome_ret {E} : MRet (outcome E) := fun A a => Ok a.

#[export] Instance outcome_bind {E} : MBind (outcome E) := fun A B k m =>
  match m with
  | Ok a => k a
  | Err e => Err e
  | Panic => Panic
  end.

#[export] Instance outcome_eq_dec {E A} `{EqDecision E, EqDecision A} :
  EqDecision (outcome E A).
Proof. solve_decision. Defined.

(** [Option::ok_or]. *)
Definition ok_or {E A} (o : option A) (e : E) : outcome E A :=
  match o with
  | Some a => Ok a
  | None => Err e
  end.

(** [Option::or]. *)
Definition option_or {A} (a b : option A) : option A :=
  match a with Some _ => a | None => b end.

Definition is_ok {E A} (m : outcome E A) : bool :=
  match m with
  | Ok _ => true
  | _ => false
  end.

(** A guard: [if bad { return Err(e) }]. *)
Definition reject_if {E} (bad : bool) (e : E) : outcome E unit :=
  if bad then Err e else Ok tt.

Lemma outcome_bind_Ok {E A B} (m : outcome E A) (k : A -> outcome E B) (b : B) :
  (m ≫= k) = Ok b <-> exists a, m = Ok a /\ k a = Ok b.
Proof.
  destruct m as [a|e|]; cbn; split; intros H; try (by destruct H as (? & ? & ?)).
  - by exists a.
  - by destruct H as (? & [= <-] & ?).
  - discriminate H.
  - discriminate H.
Qed.

Lemma ok_or_Ok {E A} (o : option A) (e : E) (a : A) :
  ok_or o e = Ok a <-> o = Some a.
Proof. destruct o; cbn; split; congruence. Qed.

Lemma reject_if_Ok {E} (bad : bool) (e : E) (u : unit) :
  reject_if bad e = Ok u <-> bad = false.
Proof. destruct u, bad; cbn; split; congruence. Qed.

(** * Machine integers

    A [w]-bit integer is its value in [Z]; the bounds are written out and
    every operation states what it does at them. *)

Definition u8_max : Z := 255.
Definition u16_max : Z := 65535.
Definition u32_max : Z := 4294967295.
Definition u64_max : Z := 18446744073709551615.
Definition u128_max : Z := 340282366920938463463374607431768211455.
Definition i64_min : Z := -9223372036854775808.
Definition i64_max : Z := 9223372036854775807.

(** [checked_*] on an unsigned type with maximum [mx]: [None] outside the
    range, never a wrapped value. *)
Definition checked_add (mx a b : Z) : option Z :=
  if a + b <=? mx then Some (a + b) else None.
Definition checked_sub (a b : Z) : option Z :=
  if b <=? a then Some (a - b) else None.
Definition checked_mul (mx a b : Z) : option Z :=
  if a * b <=? mx then Some (a * b) else None.

(** [saturating_*]. *)
Definition saturating_add (mx a b : Z) : Z := Z.min mx (a + b).
Definition saturating_sub (a b : Z) : Z := Z.max 0 (a - b).
Definition saturating_mul (mx a b : Z) : Z := Z.min mx (a * b).
Definition i64_saturating_add (a b : Z) : Z := Z.max i64_min (Z.min i64_max (a + b)).
Definition i64_saturating_sub (a b : Z) : Z := Z.max i64_min (Z.min i64_max (a - b)).

Definition in_u8 (z : Z) : Prop := 0 <= z <= u8_max.
Definition in_u16 (z : Z) : Prop := 0 <= z <= u16_max.
Definition in_u64 (z : Z) : Prop := 0 <= z <= u64_max.
Definition in_u128 (z : Z) : Prop := 0 <= z <= u128_max.
Definition in_i64 (z : Z) : Prop := i64_min <= z <= i64_max.

(** Unfold every machine bound, for [lia]. *)
Ltac unfold_bounds :=
  unfold in_u8, in_u16, in_u64, in_u128, in_i64, u8_max, u16_max, u32_max,
    u64_max, u128_max, i64_min, i64_max in *.
Ltac mlia := unfold_bounds; lia.

Lemma checked_add_Some mx a b r :
  checked_add mx a b = Some r <-> a + b <= mx /\ r = a + b.
Proof. unfold checked_add. destruct (Z.leb_spec (a + b) mx); (split; [intros Hr; simplify_eq; lia | intros [? ->]; solve [done | lia]]). Qed.
Lemma checked_sub_Some a b r :
  checked_sub a b = Some r <-> b <= a /\ r = a - b.
Proof. unfold checked_sub. destruct (Z.leb_spec b a); (split; [intros Hr; simplify_eq; lia | intros [? ->]; solve [done | lia]]). Qed.
Lemma checked_mul_Some mx a b r :
  checked_mul mx a b = Some r <-> a * b <= mx /\ r = a * b.
Proof. unfold checked_mul. destruct (Z.leb_spec (a * b) mx); (split; [intros Hr; simplify_eq; lia | intros [? ->]; solve [done | lia]]). Qed.

Lemma checked_add_fits mx a b : a + b <= mx -> checked_add mx a b = Some (a + b).
Proof. intros. by apply checked_add_Some. Qed.
Lemma checked_sub_fits a b : b <= a -> checked_sub a b = Some (a - b).
Proof. intros. by apply checked_sub_Some. Qed.
Lemma checked_mul_fits mx a b : a * b <= mx -> checked_mul mx a b = Some (a * b).
Proof. intros. by apply checked_mul_Some. Qed.

(** * Division

    Facts about floor and ceiling quotients that the fee, reward and curve
    computations share. *)

(** [(n + d - 1) / d], the ceiling quotient as the code writes it. *)
Definition cdiv (n d : Z) : Z := (n + d - 1) / d.

Lemma div_le_iff a b q : 0 < b -> q <= a / b <-> q * b <= a.
Proof.
  intros Hb. split; intros H.
  - pose proof (Z.mul_div_le a b Hb). nia.
  - apply Z.div_le_lower_bound; lia.
Qed.

Lemma div_lt_iff a b q : 0 < b -> a / b < q <-> a < q * b.
Proof. intros Hb. pose proof (div_le_iff a b q Hb). lia. Qed.

Lemma cdiv_le_iff n d q : 0 < d -> cdiv n d <= q <-> n <= q * d.
Proof.
  intros Hd. unfold cdiv.
  pose proof (div_le_iff (n + d - 1) d (q + 1) Hd). lia.
Qed.

Lemma cdiv_bounds n d : 0 < d -> (cdiv n d - 1) * d < n <= cdiv n d * d.
Proof.
  intros Hd.
  pose proof (cdiv_le_iff n d (cdiv n d) Hd).
  pose proof (cdiv_le_iff n d (cdiv n d - 1) Hd). lia.
Qed.

(** The quotient-and-remainder form of the ceiling. *)
Lemma cdiv_div_mod n d :
  0 < d -> cdiv n d = n / d + (if n mod d =? 0 then 0 else 1).
Proof.
  intros Hd.
  assert (Heq : forall q, cdiv n d <= q <-> n / d + (if n mod d =? 0 then 0 else 1) <= q).
  { intros q. rewrite cdiv_le_iff by done.
    pose proof (Z.div_mod n d ltac:(lia)). pose proof (Z.mod_pos_bound n d Hd).
    destruct (Z.eqb_spec (n mod d) 0); split; nia. }
  apply Z.le_antisymm; apply Heq; lia.
Qed.

Lemma cdiv_div n d : 0 < d -> n / d <= cdiv n d <= n / d + 1.
Proof. intros Hd. rewrite cdiv_div_mod by done. destruct (_ =? _); lia. Qed.

Lemma cdiv_nonneg n d : 0 <= n -> 0 < d -> 0 <= cdiv n d.
Proof. intros. apply Z.div_pos; lia. Qed.

(** Superadditivity of the floor, with its one-unit gap. *)
Lemma div_add_bounds a b d :
  0 < d -> a / d + b / d <= (a + b) / d <= a / d + b / d + 1.
Proof.
  intros Hd. split.
  - apply div_le_iff; [done|].
    pose proof (Z.mul_div_le a d Hd). pose proof (Z.mul_div_le b d Hd). lia.
  - enough ((a + b) / d < a / d + b / d + 2) by lia.
    apply div_lt_iff; [done|].
    pose proof (Z.mul_succ_div_gt a d Hd). pose proof (Z.mul_succ_div_gt b d Hd). lia.
Qed.

(** * Lists *)

Lemma filter_all {A} (P : A -> Prop) `{!forall x, Decision (P x)} (l : list A) :
  (forall x, x ∈ l -> P x) -> filter P l = l.
Proof.
  induction l as [|x l IH]; intros Hl; [done|].
  rewrite filter_cons_True, IH; [done| |]; intros; apply Hl; by constructor.
Qed.

Lemma filter_none {A} (P : A -> Prop) `{!forall x, Decision (P x)} (l : list A) :
  (forall x, x ∈ l -> ~ P x) -> filter P l = [].
Proof.
  induction l as [|x l IH]; intros Hl; [done|].
  rewrite filter_cons_False, IH; [done| |]; intros; apply Hl; by constructor.
Qed.

(** * Automation *)

(** Break hypotheses of the form [m = Ok _] down to the facts that made each
    step succeed. *)
Ltac inv_ok_step :=
  match goal with
  | H : (_ ≫= _) = Ok _ |- _ =>
      apply outcome_bind_Ok in H; destruct H as (? & ? & ?)
  | H : ok_or _ _ = Ok _ |- _ => apply ok_or_Ok in H
  | H : reject_if _ _ = Ok _ |- _ => apply reject_if_Ok in H
  | H : checked_add _ _ _ = Some _ |- _ => apply checked_add_Some in H; destruct H as [? ?]
  | H : checked_sub _ _ = Some _ |- _ => apply checked_sub_Some in H; destruct H as [? ?]
  | H : checked_mul _ _ _ = Some _ |- _ => apply checked_mul_Some in H; destruct H as [? ?]
  | H : Ok _ = Ok _ |- _ => injection H as H
  | H : Err _ = Ok _ |- _ => discriminate H
  | H : Panic = Ok _ |- _ => discriminate H
  | H : mret _ = Ok _ |- _ => injection H as H
  end.
Ltac inv_ok := repeat (inv_ok_step; simplify_eq).

(** Turn boolean comparisons in the context into arithmetic. *)
Ltac bool_to_prop :=
  repeat match goal with
  | H : (_ && _)%bool = true |- _ => apply andb_true_iff in H; destruct H as [? ?]
  | H : (_ || _)%bool = false |- _ => apply orb_false_iff in H; destruct H as [? ?]
  | H : negb _ = true |- _ => apply negb_true_iff in H
  | H : negb _ = false |- _ => apply negb_false_iff in H
  | H : (_ <=? _) = true |- _ => apply Z.leb_le in H
  | H : (_ <=? _) = false |- _ => apply Z.leb_gt in H
  | H : (_ <? _) = true |- _ => apply Z.ltb_lt in H
  | H : (_ <? _) = false |- _ => apply Z.ltb_ge in H
  | H : (_ =? _) = true |- _ => apply Z.eqb_eq in H
  | H : (_ =? _) = false |- _ => apply Z.eqb_neq in H
  | H : bool_decide _ = true |- _ => apply bool_decide_eq_true in H
  | H : bool_decide _ = false |- _ => apply bool_decide_eq_false in H
  end.

Create HintDb machine discriminated.
#[export] Hint Resolve cdiv_nonneg checked_add_fits checked_sub_fits checked_mul_fits : machine.
