(* ===== verification/StakingState.v ===== *)
(** The staking program's account state and its pure arithmetic:
    [programs/staking-suite/src/state.rs].  [Config], [PendingParams] and
    [StakeAccount] are the borsh records; [compute_reward], [compute_fee],
    [supply_headroom] and [fits_under_cap] the checked integer formulas every
    handler uses. *)
From stdpp Require Import prelude.
From Stdlib Require Import ZArith Lia.
From S2P Require Import Prelude.

#[local] Open Scope Z_scope.

(** A public key, as the integer its 32 bytes spell (big-endian);
    [Pubkey::default()] is all zeros. *)
Abbreviation Pubkey := Z (only parsing).
Definition Pubkey_default : Pubkey := 0.

(** ** Constants *)

Definition SECS_PER_YEAR : Z := 365 * 24 * 60 * 60.
Definition BPS : Z := 10000.
Definition MAX_FEE_BPS : Z := 1000.
Definition MAX_REWARD_RATE_BPS : Z := 10000.
Definition MAX_TIMELOCK_SECS : Z := 30 * 24 * 60 * 60.

(** The seeds, as bytes: ["staking-config"], ["staking-stake"], ["metadata"]. *)
Definition CONFIG_SEED : list Z :=
  [115; 116; 97; 107; 105; 110; 103; 45; 99; 111; 110; 102; 105; 103].
Definition STAKE_SEED : list Z :=
  [115; 116; 97; 107; 105; 110; 103; 45; 115; 116; 97; 107; 101].
Definition METADATA_SEED : list Z := [109; 101; 116; 97; 100; 97; 116; 97].

(** [metaqbxxUerdq28cj1RbAWkYQm3ybzjb6a8bt518x1s], base58-decoded. *)
Definition TOKEN_METADATA_PROGRAM_ID : Pubkey :=
  0x0b7065b1e3d17c45389d527f6b04c3cd58b86c731aa0fdb549b6d1bc03f82946.

Definition METADATA_NAME_MAX_LEN : Z := 32.
Definition METADATA_SYMBOL_MAX_LEN : Z := 10.
Definition METADATA_URI_MAX_LEN : Z := 200.

(** ** Records *)

Record PendingParams : Type := mkPendingParams {
  pp_active : bool;
  pp_queued_at : Z;        (* i64 *)
  pp_fee_bps : Z;          (* u16 *)
  pp_reward_rate_bps : Z;  (* u64 *)
  pp_min_stake : Z;        (* u64 *)
  pp_unstake_delay : Z;    (* i64 *)
  pp_timelock_secs : Z;    (* i64 *)
}.

(** [PendingParams::default()]. *)
Definition PendingParams_default : PendingParams := mkPendingParams false 0 0 0 0 0 0.

Record Config : Type := mkConfig {
  initialized : bool;
  admin : Pubkey;
  mint : Pubkey;
  vault : Pubkey;
  treasury : Pubkey;
  fee_bps : Z;             (* u16 *)
  reward_rate_bps : Z;     (* u64 *)
  min_stake : Z;           (* u64 *)
  unstake_delay : Z;       (* i64 *)
  decimals : Z;            (* u8 *)
  config_bump : Z;         (* u8 *)
  mint_bump : Z;           (* u8 *)
  paused : bool;
  pending_admin : Pubkey;
  timelock_secs : Z;       (* i64 *)
  pending : PendingParams;
  genesis_done : bool;
  max_supply : Z;          (* u64 *)
}.

Record StakeAccount : Type := mkStakeAccount {
  owner : Pubkey;
  amount : Z;              (* u64 *)
  staked_at : Z;           (* i64 *)
  reward_from : Z;         (* i64 *)
  pending_rewards : Z;     (* u64 *)
  bump : Z;                (* u8 *)
}.

#[export] Instance PendingParams_eq_dec : EqDecision PendingParams.
Proof. solve_decision. Defined.
#[export] Instance Config_eq_dec : EqDecision Config.
Proof. solve_decision. Defined.
#[export] Instance StakeAccount_eq_dec : EqDecision StakeAccount.
Proof. solve_decision. Defined.

(** ** Arithmetic *)

Definition compute_reward (amount rate_bps elapsed_secs : Z) : Z :=
  if (amount =? 0) || (rate_bps =? 0) || (elapsed_secs <=? 0) then 0
  else
    match checked_mul u128_max amount rate_bps ≫= fun v =>
          checked_mul u128_max v elapsed_secs with
    | None => u64_max
    | Some numerator =>
        let denominator := saturating_mul u128_max BPS SECS_PER_YEAR in
        Z.min (numerator / denominator) u64_max
    end.

Definition compute_fee (amount fee_bps : Z) : Z :=
  if fee_bps =? 0 then 0 else Z.min (amount * fee_bps / BPS) u64_max.

Definition supply_headroom (mint_supply max_supply : Z) : Z :=
  saturating_sub max_supply mint_supply.

Definition fits_under_cap (mint_supply amount max_supply : Z) : bool :=
  match checked_add u64_max mint_supply amount with
  | Some total => total <=? max_supply
  | None => false
  end.

(** [StakeAccount::accrued_rewards]. *)
Definition accrued_rewards (sa : StakeAccount) (rate_bps now : Z) : Z :=
  saturating_add u64_max
    (compute_reward sa.(amount) rate_bps (i64_saturating_sub now sa.(reward_from)))
    sa.(pending_rewards).

(** [StakeAccount::settle]. *)
Definition settle (sa : StakeAccount) (rate_bps now : Z) : StakeAccount :=
  let accrued :=
    compute_reward sa.(amount) rate_bps (i64_saturating_sub now sa.(reward_from)) in
  {| owner := sa.(owner);
     amount := sa.(amount);
     staked_at := sa.(staked_at);
     reward_from := now;
     pending_rewards := saturating_add u64_max sa.(pending_rewards) accrued;
     bump := sa.(bump) |}.

(** ** Well-formedness: the machine widths of the fields, and the program's
    own bounds on them *)

Record stake_account_wf (sa : StakeAccount) : Prop := {
  sa_wf_amount : in_u64 sa.(amount);
  sa_wf_staked_at : in_i64 sa.(staked_at);
  sa_wf_reward_from : in_i64 sa.(reward_from);
  sa_wf_pending : in_u64 sa.(pending_rewards);
}.

(** A position used by the concrete instances below. *)
Definition sample_stake : StakeAccount := mkStakeAccount 7 1000000 0 100 3 255.

(** The reward denominator, [10_000 * seconds per year]. *)
Definition reward_denominator : Z := BPS * SECS_PER_YEAR.

(** The reference formula: linear accrual, rounded down, saturated at [u64]. *)
Definition reward_spec (amount rate_bps elapsed_secs : Z) : Z :=
  Z.min u64_max (amount * rate_bps * Z.max 0 elapsed_secs / reward_denominator).

Lemma reward_denominator_pos : 0 < reward_denominator.
Proof. reflexivity. Qed.

Lemma saturating_denominator :
  saturating_mul u128_max BPS SECS_PER_YEAR = reward_denominator.
Proof. reflexivity. Qed.

(** An overflowing [u128] numerator divides down to more than [u64::MAX]. *)
Lemma overflow_saturates n : u128_max < n -> u64_max <= n / reward_denominator.
Proof.
  intros Hn. apply div_le_iff; [apply reward_denominator_pos|].
  change reward_denominator with 315360000000. mlia.
Qed.

(** The shape of the two checked multiplications, one step at a time. *)
Lemma checked_product a b c :
  1 <= c -> 0 <= a * b ->
  (checked_mul u128_max a b ≫= fun v => checked_mul u128_max v c)
  = if a * b * c <=? u128_max then Some (a * b * c) else None.
Proof.
  intros Hc Hab. unfold checked_mul.
  destruct (Z.leb_spec (a * b) u128_max); cbn; [done|].
  destruct (Z.leb_spec (a * b * c) u128_max); [|done]. nia.
Qed.

Lemma compute_reward_reference a r t :
  0 <= a -> 0 <= r -> compute_reward a r t = reward_spec a r t.
Proof.
  intros Ha Hr. unfold compute_reward, reward_spec.
  destruct ((a =? 0) || (r =? 0) || (t <=? 0)) eqn:Hzero.
  - assert (Hz : a * r * Z.max 0 t = 0).
    { destruct (Z.leb_spec t 0); [rewrite Z.max_l by lia; lia|].
      rewrite orb_false_r in Hzero.
      apply orb_true_iff in Hzero as [?%Z.eqb_eq | ?%Z.eqb_eq]; subst; lia. }
    rewrite Hz. reflexivity.
  - bool_to_prop. rewrite Z.max_r by lia.
    rewrite checked_product, saturating_denominator by nia.
    destruct (Z.leb_spec (a * r * t) u128_max) as [_|Hov]; [apply Z.min_comm|].
    apply overflow_saturates in Hov. lia.
Qed.

Lemma reward_spec_bounds a r t : 0 <= a -> 0 <= r -> in_u64 (reward_spec a r t).
Proof.
  intros. unfold reward_spec, in_u64. pose proof reward_denominator_pos.
  assert (0 <= a * r * Z.max 0 t / reward_denominator) by (apply Z.div_pos; nia).
  mlia.
Qed.

Lemma compute_reward_bounds a r t : 0 <= a -> 0 <= r -> in_u64 (compute_reward a r t).
Proof. intros. rewrite compute_reward_reference by done. by apply reward_spec_bounds. Qed.

Lemma accrued_bounds sa r t :
  stake_account_wf sa -> 0 <= r -> in_u64 (accrued_rewards sa r t).
Proof.
  intros [Ha _ _ Hp] Hr. unfold accrued_rewards, saturating_add.
  pose proof (compute_reward_bounds (amount sa) r (i64_saturating_sub t (reward_from sa))
    ltac:(unfold_bounds; lia) Hr). mlia.
Qed.

Lemma compute_reward_no_time a r t : t <= 0 -> compute_reward a r t = 0.
Proof.
  intros Ht. unfold compute_reward.
  replace (t <=? 0) with true by (symmetry; by apply Z.leb_le).
  by rewrite orb_true_r.
Qed.

Lemma i64_saturating_sub_diag n : i64_saturating_sub n n = 0.
Proof. unfold i64_saturating_sub. rewrite Z.sub_diag. reflexivity. Qed.

Lemma i64_saturating_sub_exact a b :
  in_i64 (a - b) -> i64_saturating_sub a b = a - b.
Proof. unfold i64_saturating_sub. mlia. Qed.

Lemma compute_fee_floor a f :
  0 <= a -> 0 <= f -> compute_fee a f = Z.min (a * f / BPS) u64_max.
Proof.
  intros Ha Hf. unfold compute_fee. destruct (Z.eqb_spec f 0) as [->|]; [|done].
  rewrite Z.mul_0_r. reflexivity.
Qed.

(** A fee is a share of the deposit: rounded down, never above it, never
    saturated. *)
Lemma compute_fee_exact a f :
  in_u64 a -> 0 <= f <= BPS ->
  compute_fee a f = a * f / BPS /\ 0 <= a * f / BPS <= a.
Proof.
  intros Ha Hf. rewrite compute_fee_floor by (unfold_bounds; lia).
  assert (0 < BPS) by reflexivity.
  assert (0 <= a * f / BPS) by (apply Z.div_pos; unfold_bounds; nia).
  assert (a * f / BPS <= a)
    by (apply Z.div_le_upper_bound; unfold_bounds; nia).
  rewrite Z.min_l by mlia. done.
Qed.

(** ** Properties *)

(** The reward formula of the program equals its reference: linear accrual
    [amount * rate * elapsed / (10_000 * seconds per year)] rounded down and
    saturated at [u64::MAX]; in particular the early saturation of the
    overflowing [u128] product changes no result, for every unsigned input and
    every elapsed time, negative ones included. *)
Theorem compute_reward_exact (amount rate_bps elapsed : Z)
  (Hamount : in_u64 amount) (Hrate : in_u64 rate_bps) :
  compute_reward amount rate_bps elapsed = reward_spec amount rate_bps elapsed.
Proof. apply compute_reward_reference; [apply Hamount | apply Hrate]. Qed.

Lemma compute_reward_exact_witness :
  compute_reward u64_max u64_max (SECS_PER_YEAR * 100)
  = reward_spec u64_max u64_max (SECS_PER_YEAR * 100).
Proof. apply (compute_reward_exact u64_max u64_max); vm_compute; split; discriminate. Defined.

(** Rewards are monotone in the principal, in the rate and in time. *)
Theorem compute_reward_monotone (a a' r r' t t' : Z)
  (Ha : 0 <= a <= a') (Hr : 0 <= r <= r') (Ht : t <= t') :
  compute_reward a r t <= compute_reward a' r' t'.
Proof.
  rewrite !compute_reward_reference by lia. unfold reward_spec.
  enough (a * r * Z.max 0 t / reward_denominator
          <= a' * r' * Z.max 0 t' / reward_denominator) by lia.
  apply Z.div_le_mono; [apply reward_denominator_pos|].
  apply Z.mul_le_mono_nonneg; nia.
Qed.

Lemma compute_reward_monotone_witness :
  compute_reward 1000000 1000 SECS_PER_YEAR <= compute_reward 2000000 1000 (2 * SECS_PER_YEAR).
Proof. apply compute_reward_monotone; vm_compute; try split; discriminate. Defined.

(** settling never changes what a staker can claim now: the accrual moved
    into [pending_rewards] is exactly the accrual the clock reset removes. *)
Theorem settle_preserves_accrued (sa : StakeAccount) (rate now : Z)
  (Hsa : stake_account_wf sa) (Hrate : in_u64 rate) :
  accrued_rewards (settle sa rate now) rate now = accrued_rewards sa rate now.
Proof.
  destruct Hsa as [Ha _ _ Hp]. unfold accrued_rewards, settle; cbn.
  rewrite i64_saturating_sub_diag, (compute_reward_no_time _ _ 0) by lia.
  pose proof (compute_reward_bounds (amount sa) rate
    (i64_saturating_sub now (reward_from sa)) (proj1 Ha) (proj1 Hrate)).
  unfold saturating_add. mlia.
Qed.

Lemma sample_stake_wf : stake_account_wf sample_stake.
Proof. split; vm_compute; split; discriminate. Qed.

Lemma settle_preserves_accrued_witness :
  accrued_rewards (settle sample_stake 1000 (100 + SECS_PER_YEAR)) 1000 (100 + SECS_PER_YEAR)
  = accrued_rewards sample_stake 1000 (100 + SECS_PER_YEAR).
Proof.
  apply settle_preserves_accrued; [exact sample_stake_wf | vm_compute; split; discriminate].
Defined.

(** settling at [t1] and claiming at [t2] pays at most what one claim at
    [t2] pays and at most one raw unit less: a top-up neither double-counts
    rewards nor loses more than the rounding of one division. *)
Theorem settle_then_accrue (sa : StakeAccount) (rate t1 t2 : Z)
  (Hsa : stake_account_wf sa) (Hrate : in_u64 rate)
  (Ht1 : in_i64 t1) (Ht2 : in_i64 t2) (Hspan : in_i64 (t2 - sa.(reward_from)))
  (Horder : sa.(reward_from) <= t1 <= t2) :
  let split := accrued_rewards (settle sa rate t1) rate t2 in
  let whole := accrued_rewards sa rate t2 in
  split <= whole <= split + 1.
Proof.
  destruct Hsa as [Ha _ _ Hp].
  unfold accrued_rewards, settle; cbn -[Z.add].
  rewrite !i64_saturating_sub_exact by (unfold_bounds; lia).
  rewrite !compute_reward_reference by (unfold_bounds; lia).
  unfold reward_spec, saturating_add.
  set (k := amount sa * rate). assert (Hk : 0 <= k) by (unfold k; unfold_bounds; nia).
  rewrite !Z.max_r by lia.
  replace (k * (t2 - reward_from sa))
    with (k * (t1 - reward_from sa) + k * (t2 - t1)) by lia.
  pose proof (div_add_bounds (k * (t1 - reward_from sa)) (k * (t2 - t1)) _
                reward_denominator_pos).
  assert (0 <= k * (t1 - reward_from sa) / reward_denominator)
    by (apply Z.div_pos; [nia | apply reward_denominator_pos]).
  assert (0 <= k * (t2 - t1) / reward_denominator)
    by (apply Z.div_pos; [nia | apply reward_denominator_pos]).
  mlia.
Qed.

Lemma settle_then_accrue_witness :
  let split := accrued_rewards (settle sample_stake 1000 1000) 1000 2000 in
  let whole := accrued_rewards sample_stake 1000 2000 in
  split <= whole <= split + 1.
Proof.
  apply settle_then_accrue; try exact sample_stake_wf; vm_compute; split; discriminate.
Defined.
