(* ===== verification/Solana.v ===== *)
(** The Solana runtime as the staking program sees it.

    Accounts live in one shared store, so an account passed twice in an
    instruction is one object.  Everything the program calls but does not
    define (PDA derivation, sysvars, SPL and system instruction builders,
    [invoke_signed], the borsh codecs) is a field of the class [Sdk]; what the
    theorems rely on about those calls is the class [SdkLaws]. *)
From stdpp Require Import prelude gmap.
From Stdlib Require Import ZArith Lia.
From S2P Require Import Prelude.
From S2P Require Import StakingState.

#[local] Open Scope Z_scope.

(** ** Program errors *)

(** [ProgramError]: the variants the program returns itself, and [SdkError]
    for any other one that comes out of the SDK or a cross-program call. *)
Inductive ProgramError : Type :=
  | Custom (code : Z)
  | MissingRequiredSignature
  | NotEnoughAccountKeys
  | SdkError (code : Z).

#[export] Instance ProgramError_eq_dec : EqDecision ProgramError.
Proof. solve_decision. Defined.

(** ** Accounts *)

Record Account : Type := mkAccount {
  lamports : Z;
  data : list Z;
  acc_owner : Pubkey;
}.

(** One entry of the [accounts] slice: which account, with which rights. *)
Record AccountInfo : Type := mkAccountInfo {
  key : Pubkey;
  is_signer : bool;
  is_writable : bool;
}.

(** [AccountMeta] and [Instruction] of the SDK. *)
Record AccountMeta : Type := mkAccountMeta {
  meta_pubkey : Pubkey;
  meta_is_signer : bool;
  meta_is_writable : bool;
}.
Definition meta_new (k : Pubkey) (signer : bool) : AccountMeta := mkAccountMeta k signer true.
Definition meta_new_readonly (k : Pubkey) (signer : bool) : AccountMeta :=
  mkAccountMeta k signer false.

Record Instruction : Type := mkInstruction {
  ix_program_id : Pubkey;
  ix_accounts : list AccountMeta;
  ix_data : list Z;
}.

Abbreviation World := (gmap Z Account) (only parsing).

(** ** The borsh codecs *)

Class Borsh (A : Type) : Type := {
  to_vec : A -> option (list Z);
  try_from_slice : list Z -> option A;
}.

(** What the derived codec of a type with machine widths [wf] guarantees:
    values it decodes are in range, values in range round-trip, and the bytes
    of a value are unique. *)
Class BorshLaws (A : Type) `{Borsh A} (wf : A -> Prop) : Prop := {
  borsh_decode_wf : forall b a, try_from_slice b = Some a -> wf a;
  borsh_encode : forall a, wf a -> exists b, to_vec a = Some b;
  borsh_roundtrip : forall a b, wf a -> to_vec a = Some b -> try_from_slice b = Some a;
  borsh_canonical : forall b a, try_from_slice b = Some a -> to_vec a = Some b;
}.

(** Every encoding of [A] has the same, positive length. *)
Class BorshSized (A : Type) `{Borsh A} : Prop := {
  borsh_same_size : forall a b a' b',
    to_vec a = Some b -> to_vec a' = Some b' -> length b = length b';
  borsh_size_pos : forall a b, to_vec a = Some b -> (0 < length b)%nat;
}.

(** ** SPL token states *)

Record TokenAccount : Type := mkTokenAccount {
  token_mint : Pubkey;
  token_owner : Pubkey;
  token_amount : Z;
}.
Record MintState : Type := mkMintState { supply : Z }.

(** ** The SDK *)

Class Sdk : Type := {
  Rent : Type;
  (** canonical program and sysvar ids *)
  spl_token_id : Pubkey;
  spl_associated_token_account_id : Pubkey;
  system_program_id : Pubkey;
  sysvar_clock_id : Pubkey;
  sysvar_rent_id : Pubkey;
  (** addresses *)
  pubkey_bytes : Pubkey -> list Z;
  find_program_address : list (list Z) -> Pubkey -> Pubkey * Z;
  get_associated_token_address : Pubkey -> Pubkey -> Pubkey;
  (** sysvars *)
  rent_from_account_info : Pubkey -> Account -> outcome ProgramError Rent;
  rent_get : outcome ProgramError Rent;
  minimum_balance : Rent -> Z -> Z;
  clock_unix_timestamp : Pubkey -> Account -> outcome ProgramError Z;
  (** SPL account states *)
  Mint_packed_len : Z;
  Mint_unpack : list Z -> option MintState;
  TokenAccount_unpack : list Z -> option TokenAccount;
  (** instruction builders: [from to lamports space owner], [program mint
      authority freeze decimals], [payer wallet mint program], [program source
      destination authority signers amount], [program mint account owner
      signers amount] *)
  create_account : Pubkey -> Pubkey -> Z -> Z -> Pubkey -> Instruction;
  initialize_mint2 : Pubkey -> Pubkey -> Pubkey -> option Pubkey -> Z ->
    outcome ProgramError Instruction;
  create_associated_token_account_idempotent :
    Pubkey -> Pubkey -> Pubkey -> Pubkey -> Instruction;
  token_transfer : Pubkey -> Pubkey -> Pubkey -> Pubkey -> list Pubkey -> Z ->
    outcome ProgramError Instruction;
  mint_to : Pubkey -> Pubkey -> Pubkey -> Pubkey -> list Pubkey -> Z ->
    outcome ProgramError Instruction;
  (** the cross-program call *)
  invoke_signed : Instruction -> list AccountInfo -> list (list (list Z)) -> World ->
    outcome ProgramError World;
  (** codecs *)
  borsh_Config :: Borsh Config;
  borsh_StakeAccount :: Borsh StakeAccount;
}.

(** ** Reading the store *)

Section Store.
Context `{Sdk}.

(** An address that holds nothing is an empty account of the system program. *)
Definition acct (w : World) (k : Pubkey) : Account :=
  default (mkAccount 0 [] system_program_id) (w !! k).

Definition data_len (w : World) (k : Pubkey) : Z := Z.of_nat (length (data (acct w k))).

(** The SPL states a key holds, when it is a token-program account. *)
Definition token_at (w : World) (k : Pubkey) : option TokenAccount :=
  if decide (acc_owner (acct w k) = spl_token_id)
  then TokenAccount_unpack (data (acct w k)) else None.
Definition mint_at (w : World) (k : Pubkey) : option MintState :=
  if decide (acc_owner (acct w k) = spl_token_id)
  then Mint_unpack (data (acct w k)) else None.
End Store.

(** ** The handler monad

    A handler reads and writes the store, and returns, fails or panics.  The
    runtime discards the store of a handler that does not return [Ok]. *)

Definition M (A : Type) : Type := World -> outcome ProgramError (A * World).

#[export] Instance M_ret : MRet M := fun A a w => Ok (a, w).
#[export] Instance M_bind : MBind M := fun A B k m w =>
  match m w with
  | Ok (a, w') => k a w'
  | Err e => Err e
  | Panic => Panic
  end.

(** A pure, fallible computation inside a handler. *)
Definition lift {A} (o : outcome ProgramError A) : M A := fun w =>
  match o with
  | Ok a => Ok (a, w)
  | Err e => Err e
  | Panic => Panic
  end.

Definition gets {A} (f : World -> A) : M A := fun w => Ok (f w, w).
Definition fail {A} (e : ProgramError) : M A := fun _ => Err e.

(** [if bad { return Err(e) }]. *)
Definition reject_when (bad : bool) (e : ProgramError) : M unit := lift (reject_if bad e).

(** [next_account_info(&mut iter)?]. *)
Definition next_account_info (ai : list AccountInfo) : M (AccountInfo * list AccountInfo) :=
  match ai with
  | [] => fail NotEnoughAccountKeys
  | a :: rest => mret (a, rest)
  end.

Section Calls.
Context `{Sdk}.

(** [account.data.borrow_mut()[..bytes.len()].copy_from_slice(&bytes)]: the
    slice panics when the account is shorter than [bytes]. *)
Definition write_prefix (k : Pubkey) (bytes : list Z) : M unit := fun w =>
  let a := acct w k in
  if (length bytes <=? length (data a))%nat
  then Ok (tt, <[k := mkAccount (lamports a) (bytes ++ drop (length bytes) (data a))
                        (acc_owner a)]> w)
  else Panic.

(** [invoke_signed(&ix, &accounts, &seeds)?]; [invoke] passes no seeds. *)
Definition cpi_signed (ix : Instruction) (accs : list AccountInfo)
    (seeds : list (list (list Z))) : M unit := fun w =>
  match invoke_signed ix accs seeds w with
  | Ok w' => Ok (tt, w')
  | Err e => Err e
  | Panic => Panic
  end.
Definition cpi (ix : Instruction) (accs : list AccountInfo) : M unit := cpi_signed ix accs [].
End Calls.

(** ** Reasoning about handlers *)

Lemma M_bind_Ok {A B} (m : M A) (k : A -> M B) w b w' :
  (m ≫= k) w = Ok (b, w') <-> exists a w1, m w = Ok (a, w1) /\ k a w1 = Ok (b, w').
Proof.
  unfold mbind, M_bind. destruct (m w) as [[a w1]|e|]; split; intros Hk.
  - by exists a, w1.
  - by destruct Hk as (? & ? & [= <- <-] & ?).
  - discriminate.
  - by destruct Hk as (? & ? & ? & ?).
  - discriminate.
  - by destruct Hk as (? & ? & ? & ?).
Qed.

Lemma M_ret_Ok {A} (a b : A) w w' :
  (mret a : M A) w = Ok (b, w') <-> b = a /\ w' = w.
Proof. unfold mret, M_ret. split; [by intros [= <- <-] | by intros [-> ->]]. Qed.

Lemma lift_Ok {A} (o : outcome ProgramError A) w a w' :
  lift o w = Ok (a, w') <-> o = Ok a /\ w' = w.
Proof.
  unfold lift. destruct o; split; intros Ho; try (by destruct Ho); try discriminate.
  - by injection Ho as <- <-.
  - destruct Ho as [[= <-] <-]. done.
Qed.

Lemma gets_Ok {A} (f : World -> A) w a w' :
  gets f w = Ok (a, w') <-> a = f w /\ w' = w.
Proof. unfold gets. split; [by intros [= <- <-] | by intros [-> ->]]. Qed.

Lemma fail_Ok {A} e w (a : A) w' : fail e w = Ok (a, w') <-> False.
Proof. done. Qed.

Lemma reject_when_Ok bad e w u w' :
  reject_when bad e w = Ok (u, w') <-> bad = false /\ w' = w.
Proof.
  unfold reject_when. rewrite lift_Ok, reject_if_Ok. done.
Qed.

Lemma next_account_info_Ok ai w a rest w' :
  next_account_info ai w = Ok ((a, rest), w') <-> ai = a :: rest /\ w' = w.
Proof.
  destruct ai; cbn; [by split; [|intros []]|].
  split; [by intros [= <- <- <-] | by intros [[= <- <-] ->]].
Qed.

Lemma cpi_signed_Ok `{Sdk} ix accs seeds w u w' :
  cpi_signed ix accs seeds w = Ok (u, w') <-> invoke_signed ix accs seeds w = Ok w'.
Proof.
  unfold cpi_signed. destruct u, (invoke_signed ix accs seeds w); by split; intros [= <-].
Qed.

Lemma write_prefix_Ok `{Sdk} k bytes w u w' :
  write_prefix k bytes w = Ok (u, w') <->
  (length bytes <= length (data (acct w k)))%nat /\
  w' = <[k := mkAccount (lamports (acct w k))
                (bytes ++ drop (length bytes) (data (acct w k)))
                (acc_owner (acct w k))]> w.
Proof.
  unfold write_prefix. destruct (Nat.leb_spec (length bytes) (length (data (acct w k))));
    destruct u; split; intros Hw.
  - by injection Hw as <-.
  - by destruct Hw as [_ ->].
  - discriminate.
  - lia.
Qed.

(** Take a successful handler apart, one step at a time. *)
Ltac inv_M_step :=
  match goal with
  | H : (_ ≫= _) _ = Ok (_, _) |- _ =>
      apply M_bind_Ok in H; destruct H as (? & ? & ? & ?)
  | H : lift _ _ = Ok (_, _) |- _ => apply lift_Ok in H; destruct H as [? ?]
  | H : gets _ _ = Ok (_, _) |- _ => apply gets_Ok in H; destruct H as [? ?]
  | H : reject_when _ _ _ = Ok (_, _) |- _ =>
      apply reject_when_Ok in H; destruct H as [? ?]
  | H : fail _ _ = Ok (_, _) |- _ => discriminate H
  | H : mret _ _ = Ok (_, _) |- _ => apply M_ret_Ok in H; destruct H as [? ?]
  | H : M_ret _ _ _ = Ok (_, _) |- _ => apply M_ret_Ok in H; destruct H as [? ?]
  | H : next_account_info _ _ = Ok (_, _) |- _ =>
      apply next_account_info_Ok in H; destruct H as [? ?]
  | H : cpi _ _ _ = Ok (_, _) |- _ => unfold cpi in H
  | H : cpi_signed _ _ _ _ = Ok (_, _) |- _ => apply cpi_signed_Ok in H
  | H : write_prefix _ _ _ = Ok (_, _) |- _ =>
      apply write_prefix_Ok in H; destruct H as [? ?]
  | H : (let '(_, _) := ?p in _) _ = Ok (_, _) |- _ =>
      first [is_var p; destruct p
            | rewrite (surjective_pairing p) in H; cbv beta iota in H]
  | H : Ok _ = Ok _ |- _ => injection H as H
  end.
Ltac inv_M := repeat (inv_M_step; simplify_eq).

Lemma acct_insert_eq `{Sdk} (w : World) k a : acct (<[k := a]> w) k = a.
Proof. unfold acct. by rewrite lookup_insert_eq. Qed.
Lemma acct_insert_ne `{Sdk} (w : World) k k' a :
  k <> k' -> acct (<[k := a]> w) k' = acct w k'.
Proof. intros. unfold acct. by rewrite lookup_insert_ne. Qed.

(** A handler that never panics, step by step. *)
Lemma bind_no_panic {A B} (m : M A) (k : A -> M B) w :
  m w <> Panic ->
  (forall a w1, m w = Ok (a, w1) -> k a w1 <> Panic) ->
  (m ≫= k) w <> Panic.
Proof.
  unfold mbind, M_bind. destruct (m w) as [[a w1]|e|]; intros Hm Hk; [by apply Hk|done|done].
Qed.
