(* ===== verification/StakingInstruction.v ===== *)
(** The staking program's errors ([error.rs]), its instruction set and the
    client-side instruction builders ([instruction.rs]).  Strings are byte
    strings: Rust's [str::len] and the borsh encoding both count bytes. *)
From stdpp Require Import prelude gmap strings.
From Stdlib Require Import ZArith Lia.
From S2P Require Import Prelude.
From S2P Require Import StakingState.
From S2P Require Import Solana.

#[local] Open Scope Z_scope.

(** ** error.rs *)

Inductive StakingError : Type :=
  | AlreadyInitialized
  | InvalidInstructionData
  | Unauthorized
  | BelowMinimum
  | CooldownActive
  | InsufficientStake
  | Overflow
  | InvalidAccount
  | Arithmetic
  | InvalidTokenProgram
  | InvalidSystemProgram
  | InvalidAssociatedTokenProgram
  | InvalidConfigAccount
  | InvalidStakeAccount
  | InvalidVault
  | InvalidMint
  | InvalidTreasury
  | InvalidStakerToken
  | Paused
  | FeeTooHigh
  | RewardRateTooHigh
  | NotPendingAdmin
  | UpdateAlreadyQueued
  | NoPendingUpdate
  | TimelockNotElapsed
  | TimelockOutOfRange
  | GenesisAlreadyDone
  | InvalidAmount
  | MaxSupplyExceeded
  | InvalidMaxSupply
  | MetadataAlreadyExists
  | InvalidMetadataProgram
  | MetadataFieldTooLong.

#[export] Instance StakingError_eq_dec : EqDecision StakingError.
Proof. solve_decision. Defined.

Definition CUSTOM_ERROR_BASE : Z := 6000.

Definition error_code (e : StakingError) : Z :=
  match e with
  | AlreadyInitialized => 0
  | InvalidInstructionData => 1
  | Unauthorized => 2
  | BelowMinimum => 3
  | CooldownActive => 4
  | InsufficientStake => 5
  | Overflow => 6
  | InvalidAccount => 7
  | Arithmetic => 8
  | InvalidTokenProgram => 9
  | InvalidSystemProgram => 10
  | InvalidAssociatedTokenProgram => 11
  | InvalidConfigAccount => 12
  | InvalidStakeAccount => 13
  | InvalidVault => 14
  | InvalidMint => 15
  | InvalidTreasury => 16
  | InvalidStakerToken => 17
  | Paused => 18
  | FeeTooHigh => 19
  | RewardRateTooHigh => 20
  | NotPendingAdmin => 21
  | UpdateAlreadyQueued => 22
  | NoPendingUpdate => 23
  | TimelockNotElapsed => 24
  | TimelockOutOfRange => 25
  | GenesisAlreadyDone => 26
  | InvalidAmount => 27
  | MaxSupplyExceeded => 28
  | InvalidMaxSupply => 29
  | MetadataAlreadyExists => 30
  | InvalidMetadataProgram => 31
  | MetadataFieldTooLong => 32
  end.

(** [impl From<StakingError> for ProgramError]. *)
Definition program_error (e : StakingError) : ProgramError :=
  Custom (CUSTOM_ERROR_BASE + error_code e).
Coercion program_error : StakingError >-> ProgramError.

(** ** instruction.rs *)

Inductive StakingInstruction : Type :=
  | Initialize (fee_bps reward_rate_bps min_stake unstake_delay decimals
                timelock_secs max_supply : Z)
  | Stake (amount : Z)
  | Unstake
  | Claim
  | UpdateParams (fee_bps reward_rate_bps min_stake unstake_delay timelock_secs : option Z)
  | ApplyParams
  | CancelParams
  | Pause
  | Unpause
  | TransferAdmin (new_admin : Pubkey)
  | AcceptAdmin
  | GenesisMint (amount : Z)
  | CreateTokenMetadata (name symbol uri : string).

(** The [Borsh] codec derived for [StakingInstruction] is a parameter. *)
Class StakingCodec : Type := borsh_StakingInstruction :: Borsh StakingInstruction.

Definition pack `{StakingCodec} (ix : StakingInstruction) : outcome StakingError (list Z) :=
  ok_or (to_vec ix) InvalidInstructionData.

Definition unpack `{StakingCodec} (data : list Z) : outcome StakingError StakingInstruction :=
  ok_or (try_from_slice data) InvalidInstructionData.

(** [str::len()] in bytes. *)
Definition byte_len (s : string) : Z := Z.of_nat (String.length s).

(** [str::is_empty()]. *)
Definition is_empty (s : string) : bool := byte_len s =? 0.

Definition validate_metadata_fields (name symbol uri : string) : outcome StakingError unit :=
  reject_if (is_empty name || (METADATA_NAME_MAX_LEN <? byte_len name)) MetadataFieldTooLong ;;
  reject_if (is_empty symbol || (METADATA_SYMBOL_MAX_LEN <? byte_len symbol))
    MetadataFieldTooLong ;;
  reject_if (is_empty uri || (METADATA_URI_MAX_LEN <? byte_len uri)) MetadataFieldTooLong.

(** ** PDAs ([state.rs]) *)

Section Pdas.
Context `{Sdk}.

Definition config_pda (program_id : Pubkey) : Pubkey * Z :=
  find_program_address [CONFIG_SEED] program_id.

Definition stake_pda (program_id staker : Pubkey) : Pubkey * Z :=
  find_program_address [STAKE_SEED; pubkey_bytes staker] program_id.

Definition metadata_pda (mint : Pubkey) : Pubkey * Z :=
  find_program_address
    [METADATA_SEED; pubkey_bytes TOKEN_METADATA_PROGRAM_ID; pubkey_bytes mint]
    TOKEN_METADATA_PROGRAM_ID.
End Pdas.

(** ** Client-side builders *)

Section Builders.
Context `{Sdk, StakingCodec}.

Definition stake_ix (program_id staker staker_token vault treasury : Pubkey) (amount : Z)
    : outcome StakingError Instruction :=
  data ← pack (Stake amount);
  Ok {| ix_program_id := program_id;
        ix_accounts :=
          [meta_new staker true; meta_new staker_token false; meta_new vault false;
           meta_new treasury false; meta_new (stake_pda program_id staker).1 false;
           meta_new_readonly (config_pda program_id).1 false;
           meta_new_readonly spl_token_id false;
           meta_new_readonly system_program_id false;
           meta_new_readonly sysvar_clock_id false];
        ix_data := data |}.

Definition unstake_ix (program_id staker staker_token vault mint : Pubkey)
    : outcome StakingError Instruction :=
  data ← pack Unstake;
  Ok {| ix_program_id := program_id;
        ix_accounts :=
          [meta_new staker true; meta_new staker_token false; meta_new vault false;
           meta_new mint false; meta_new (stake_pda program_id staker).1 false;
           meta_new_readonly (config_pda program_id).1 false;
           meta_new_readonly spl_token_id false;
           meta_new_readonly sysvar_clock_id false];
        ix_data := data |}.

Definition claim_ix (program_id staker staker_token vault mint : Pubkey)
    : outcome StakingError Instruction :=
  ix ← unstake_ix program_id staker staker_token vault mint;
  data ← pack Claim;
  Ok {| ix_program_id := ix.(ix_program_id);
        ix_accounts := ix.(ix_accounts);
        ix_data := data |}.

Definition admin_ix (program_id authority : Pubkey) (ix : StakingInstruction)
    : outcome StakingError Instruction :=
  data ← pack ix;
  Ok {| ix_program_id := program_id;
        ix_accounts :=
          [meta_new authority true; meta_new (config_pda program_id).1 false];
        ix_data := data |}.

Definition update_params_ix (program_id admin : Pubkey)
    (fee_bps reward_rate_bps min_stake unstake_delay timelock_secs : option Z)
    : outcome StakingError Instruction :=
  data ← pack (UpdateParams fee_bps reward_rate_bps min_stake unstake_delay timelock_secs);
  Ok {| ix_program_id := program_id;
        ix_accounts :=
          [meta_new admin true; meta_new (config_pda program_id).1 false;
           meta_new_readonly sysvar_clock_id false];
        ix_data := data |}.

Definition apply_params_ix (program_id : Pubkey) : outcome StakingError Instruction :=
  data ← pack ApplyParams;
  Ok {| ix_program_id := program_id;
        ix_accounts :=
          [meta_new (config_pda program_id).1 false;
           meta_new_readonly sysvar_clock_id false];
        ix_data := data |}.

Definition genesis_mint_ix (program_id admin mint recipient : Pubkey) (amount : Z)
    : outcome StakingError Instruction :=
  data ← pack (GenesisMint amount);
  Ok {| ix_program_id := program_id;
        ix_accounts :=
          [meta_new admin true; meta_new (config_pda program_id).1 false;
           meta_new mint false; meta_new recipient false;
           meta_new_readonly spl_token_id false];
        ix_data := data |}.

Definition create_token_metadata_ix (program_id admin mint : Pubkey)
    (name symbol uri : string) : outcome StakingError Instruction :=
  validate_metadata_fields name symbol uri ;;
  data ← pack (CreateTokenMetadata name symbol uri);
  Ok {| ix_program_id := program_id;
        ix_accounts :=
          [meta_new admin true; meta_new_readonly (config_pda program_id).1 false;
           meta_new_readonly mint false; meta_new (metadata_pda mint).1 false;
           meta_new_readonly TOKEN_METADATA_PROGRAM_ID false;
           meta_new_readonly system_program_id false;
           meta_new_readonly sysvar_rent_id false];
        ix_data := data |}.
End Builders.

(** ** Lemmas *)

Lemma validate_metadata_fields_Ok name symbol uri u :
  validate_metadata_fields name symbol uri = Ok u <->
  0 < byte_len name <= METADATA_NAME_MAX_LEN /\
  0 < byte_len symbol <= METADATA_SYMBOL_MAX_LEN /\
  0 < byte_len uri <= METADATA_URI_MAX_LEN.
Proof.
  unfold validate_metadata_fields, is_empty. destruct u.
  assert (forall s, 0 <= byte_len s) as Hpos by (intros; unfold byte_len; lia).
  pose proof (Hpos name); pose proof (Hpos symbol); pose proof (Hpos uri).
  split.
  - intros Hv. inv_ok. bool_to_prop. lia.
  - intros Hv. unfold reject_if.
    repeat match goal with
    | |- context [(?a =? 0) || (?b <? ?a)] =>
        replace ((a =? 0) || (b <? a)) with false by lia; cbn [mbind outcome_bind]
    end. done.
Qed.
