(* ===== verification/StakingProcessor.v ===== *)
(** The staking program's instruction handlers:
    [programs/staking-suite/src/processor.rs].  Each handler is the source
    function, guard for guard and call for call; [msg!] logging is left out. *)
From stdpp Require Import prelude gmap strings.
From Stdlib Require Import ZArith Lia.
From S2P Require Import Prelude.
From S2P Require Import StakingState.
From S2P Require Import Solana.
From S2P Require Import StakingInstruction.

#[local] Open Scope Z_scope.

Section Processor.
Context `{Sdk, StakingCodec}.

(** ** Serialisation helpers *)

Definition deserialize {T} `{Borsh T} (bytes : list Z) : outcome ProgramError T :=
  ok_or (try_from_slice bytes) (program_error InvalidInstructionData).

Definition serialize {T} `{Borsh T} (value : T) : outcome ProgramError (list Z) :=
  ok_or (to_vec value) (program_error InvalidInstructionData).

(** ** Account validation *)

Definition require_signer (info : AccountInfo) : M unit :=
  reject_when (negb info.(is_signer)) MissingRequiredSignature.

Definition require_address (info : AccountInfo) (expected : Pubkey) (err : StakingError)
    : M unit :=
  reject_when (negb (info.(key) =? expected)) err.

Definition require_owner (info : AccountInfo) (expected_owner : Pubkey) (err : StakingError)
    : M unit :=
  o ← gets (fun w => acc_owner (acct w info.(key)));
  reject_when (negb (o =? expected_owner)) err.

Definition load_config (program_id : Pubkey) (config_acc : AccountInfo) : M Config :=
  let '(expected, _) := config_pda program_id in
  require_address config_acc expected InvalidConfigAccount ;;
  require_owner config_acc program_id InvalidConfigAccount ;;
  len ← gets (fun w => data_len w config_acc.(key));
  reject_when (len =? 0) InvalidConfigAccount ;;
  bytes ← gets (fun w => data (acct w config_acc.(key)));
  config ← lift (deserialize (T := Config) bytes);
  reject_when (negb config.(initialized)) InvalidConfigAccount ;;
  mret config.

Definition require_staker_token (staker_token : AccountInfo) (staker mint : Pubkey) : M unit :=
  require_owner staker_token spl_token_id InvalidStakerToken ;;
  bytes ← gets (fun w => data (acct w staker_token.(key)));
  t ← lift (ok_or (TokenAccount_unpack bytes) (program_error InvalidStakerToken));
  reject_when (negb (t.(token_mint) =? mint)) InvalidStakerToken ;;
  reject_when (negb (t.(token_owner) =? staker)) InvalidStakerToken.

(** ** Parameter caps and config persistence *)

Definition validate_params (fee_bps reward_rate_bps : Z) : M unit :=
  reject_when (MAX_FEE_BPS <? fee_bps) FeeTooHigh ;;
  reject_when (MAX_REWARD_RATE_BPS <? reward_rate_bps) RewardRateTooHigh.

Definition validate_timelock (secs : Z) : M unit :=
  reject_when (negb ((0 <=? secs) && (secs <=? MAX_TIMELOCK_SECS))) TimelockOutOfRange.

Definition save_config (config_acc : AccountInfo) (config : Config) : M unit :=
  serialized ← lift (serialize config);
  len ← gets (fun w => data_len w config_acc.(key));
  reject_when (len <? Z.of_nat (length serialized)) InvalidConfigAccount ;;
  write_prefix config_acc.(key) serialized.

(** ** Handlers *)

Definition process_initialize (program_id : Pubkey) (accounts : list AccountInfo)
    (fee_bps reward_rate_bps min_stake unstake_delay decimals timelock_secs max_supply : Z)
    : M unit :=
  validate_params fee_bps reward_rate_bps ;;
  validate_timelock timelock_secs ;;
  reject_when (max_supply =? 0) InvalidMaxSupply ;;
  '(payer, ai) ← next_account_info accounts;
  '(config_acc, ai) ← next_account_info ai;
  '(mint_acc, ai) ← next_account_info ai;
  '(vault_acc, ai) ← next_account_info ai;
  '(treasury_acc, ai) ← next_account_info ai;
  '(treasury_wallet, ai) ← next_account_info ai;
  '(token_program, ai) ← next_account_info ai;
  '(assoc_program, ai) ← next_account_info ai;
  '(system_program_acc, ai) ← next_account_info ai;
  '(rent_acc, ai) ← next_account_info ai;
  require_signer payer ;;
  require_signer mint_acc ;;
  require_address token_program spl_token_id InvalidTokenProgram ;;
  require_address assoc_program spl_associated_token_account_id
    InvalidAssociatedTokenProgram ;;
  require_address system_program_acc system_program_id InvalidSystemProgram ;;
  let '(config_key, bump) := config_pda program_id in
  require_address config_acc config_key InvalidConfigAccount ;;
  (* reject re-initialisation *)
  config_state ← gets (fun w => acct w config_acc.(key));
  (if (acc_owner config_state =? program_id) && negb (Z.of_nat (length (data config_state)) =? 0)
   then existing ← lift (deserialize (T := Config) (data config_state));
        reject_when existing.(initialized) AlreadyInitialized
   else mret tt) ;;
  let expected_vault := get_associated_token_address config_key mint_acc.(key) in
  require_address vault_acc expected_vault InvalidVault ;;
  let expected_treasury :=
    get_associated_token_address treasury_wallet.(key) mint_acc.(key) in
  require_address treasury_acc expected_treasury InvalidTreasury ;;
  (* 1. the mint *)
  rent_state ← gets (fun w => acct w rent_acc.(key));
  rent ← lift (rent_from_account_info rent_acc.(key) rent_state);
  let mint_len := Mint_packed_len in
  let mint_rent := minimum_balance rent mint_len in
  cpi (create_account payer.(key) mint_acc.(key) mint_rent mint_len token_program.(key))
    [payer; mint_acc; system_program_acc] ;;
  init_mint ← lift (initialize_mint2 token_program.(key) mint_acc.(key) config_key None decimals);
  cpi init_mint [mint_acc; token_program] ;;
  (* 2. vault and treasury *)
  cpi (create_associated_token_account_idempotent payer.(key) config_key mint_acc.(key)
         token_program.(key))
    [payer; vault_acc; config_acc; mint_acc; system_program_acc; token_program; assoc_program] ;;
  cpi (create_associated_token_account_idempotent payer.(key) treasury_wallet.(key)
         mint_acc.(key) token_program.(key))
    [payer; treasury_acc; treasury_wallet; mint_acc; system_program_acc; token_program;
     assoc_program] ;;
  (* 3. the config *)
  let config :=
    {| initialized := true;
       admin := payer.(key);
       mint := mint_acc.(key);
       vault := vault_acc.(key);
       treasury := treasury_acc.(key);
       StakingState.fee_bps := fee_bps;
       StakingState.reward_rate_bps := reward_rate_bps;
       StakingState.min_stake := min_stake;
       StakingState.unstake_delay := unstake_delay;
       StakingState.decimals := decimals;
       config_bump := bump;
       mint_bump := bump;
       paused := false;
       pending_admin := Pubkey_default;
       StakingState.timelock_secs := timelock_secs;
       pending := PendingParams_default;
       genesis_done := false;
       StakingState.max_supply := max_supply |} in
  serialized ← lift (serialize config);
  let space := Z.of_nat (length serialized) in
  let lamports := minimum_balance rent space in
  cpi_signed (create_account payer.(key) config_key lamports space program_id)
    [payer; config_acc; system_program_acc] [[CONFIG_SEED; [bump]]] ;;
  write_prefix config_acc.(key) serialized.

(** The stake account a deposit works on: the loaded one, or a fresh one
    allocated by the system program ([process_stake], lines 602-645). *)
Definition load_or_create_stake (program_id : Pubkey)
    (staker stake_acc system_program_acc : AccountInfo) (stake_key stake_bump now : Z)
    : M StakeAccount :=
  len ← gets (fun w => data_len w stake_acc.(key));
  if 0 <? len then
    require_owner stake_acc program_id InvalidStakeAccount ;;
    bytes ← gets (fun w => data (acct w stake_acc.(key)));
    loaded ← lift (deserialize (T := StakeAccount) bytes);
    reject_when (negb (loaded.(owner) =? staker.(key))) Unauthorized ;;
    mret loaded
  else
    let template :=
      {| owner := staker.(key); amount := 0; staked_at := now; reward_from := now;
         pending_rewards := 0; bump := stake_bump |} in
    serialized ← lift (serialize template);
    rent ← lift rent_get;
    let space := Z.of_nat (length serialized) in
    let lamports := minimum_balance rent space in
    cpi_signed (create_account staker.(key) stake_key lamports space program_id)
      [staker; stake_acc; system_program_acc]
      [[STAKE_SEED; pubkey_bytes staker.(key); [stake_bump]]] ;;
    mret template.

(** The new position: settle, restart the cooldown when principal moves, add
    the net deposit (lines 647-655). *)
Definition deposit_position (sa : StakeAccount) (rate net now : Z)
    : outcome ProgramError StakeAccount :=
  let sa := settle sa rate now in
  let staked_at' := if 0 <? net then now else sa.(staked_at) in
  amount' ← ok_or (checked_add u64_max sa.(amount) net) (program_error Overflow);
  Ok {| owner := sa.(owner); amount := amount'; staked_at := staked_at';
        reward_from := sa.(reward_from); pending_rewards := sa.(pending_rewards);
        bump := sa.(bump) |}.

Definition process_stake (program_id : Pubkey) (accounts : list AccountInfo) (amount : Z)
    : M unit :=
  '(staker, ai) ← next_account_info accounts;
  '(staker_token, ai) ← next_account_info ai;
  '(vault_acc, ai) ← next_account_info ai;
  '(treasury_acc, ai) ← next_account_info ai;
  '(stake_acc, ai) ← next_account_info ai;
  '(config_acc, ai) ← next_account_info ai;
  '(token_program, ai) ← next_account_info ai;
  '(system_program_acc, ai) ← next_account_info ai;
  '(clock_acc, ai) ← next_account_info ai;
  require_signer staker ;;
  require_address token_program spl_token_id InvalidTokenProgram ;;
  require_address system_program_acc system_program_id InvalidSystemProgram ;;
  config ← load_config program_id config_acc;
  reject_when config.(paused) Paused ;;
  require_address vault_acc config.(vault) InvalidVault ;;
  require_address treasury_acc config.(treasury) InvalidTreasury ;;
  require_staker_token staker_token staker.(key) config.(mint) ;;
  reject_when (amount <? config.(min_stake)) BelowMinimum ;;
  let fee := compute_fee amount config.(fee_bps) in
  net ← lift (ok_or (checked_sub amount fee) (program_error Overflow));
  transfer_net ← lift (token_transfer token_program.(key) staker_token.(key) vault_acc.(key)
                         staker.(key) [] net);
  cpi transfer_net [staker_token; vault_acc; staker; token_program] ;;
  (if 0 <? fee then
     transfer_fee ← lift (token_transfer token_program.(key) staker_token.(key)
                            treasury_acc.(key) staker.(key) [] fee);
     cpi transfer_fee [staker_token; treasury_acc; staker; token_program]
   else mret tt) ;;
  clock_state ← gets (fun w => acct w clock_acc.(key));
  now ← lift (clock_unix_timestamp clock_acc.(key) clock_state);
  let '(stake_key, stake_bump) := stake_pda program_id staker.(key) in
  require_address stake_acc stake_key InvalidStakeAccount ;;
  sa ← load_or_create_stake program_id staker stake_acc system_program_acc
         stake_key stake_bump now;
  sa' ← lift (deposit_position sa config.(reward_rate_bps) net now);
  serialized ← lift (serialize sa');
  write_prefix stake_acc.(key) serialized.

(** The rewards that may still be minted ([process_unstake], lines 757-777). *)
Definition mintable_rewards (config : Config) (mint_acc : AccountInfo) (rewards : Z) : M Z :=
  if 0 <? rewards then
    require_owner mint_acc spl_token_id InvalidMint ;;
    bytes ← gets (fun w => data (acct w mint_acc.(key)));
    mint_state ← lift (ok_or (Mint_unpack bytes) (program_error InvalidMint));
    let headroom := supply_headroom mint_state.(supply) config.(max_supply) in
    mret (Z.min rewards headroom)
  else mret 0.

(** The position after a withdrawal or a claim (lines 798-806). *)
Definition withdrawn_position (sa : StakeAccount) (claim_only : bool) (now : Z) : StakeAccount :=
  if claim_only then
    {| owner := sa.(owner); amount := sa.(amount); staked_at := sa.(staked_at);
       reward_from := now; pending_rewards := 0; bump := sa.(bump) |}
  else
    {| owner := sa.(owner); amount := 0; staked_at := 0;
       reward_from := now; pending_rewards := 0; bump := sa.(bump) |}.

Definition process_unstake (program_id : Pubkey) (accounts : list AccountInfo)
    (claim_only : bool) : M unit :=
  '(staker, ai) ← next_account_info accounts;
  '(staker_token, ai) ← next_account_info ai;
  '(vault_acc, ai) ← next_account_info ai;
  '(mint_acc, ai) ← next_account_info ai;
  '(stake_acc, ai) ← next_account_info ai;
  '(config_acc, ai) ← next_account_info ai;
  '(token_program, ai) ← next_account_info ai;
  '(clock_acc, ai) ← next_account_info ai;
  require_signer staker ;;
  require_address token_program spl_token_id InvalidTokenProgram ;;
  config ← load_config program_id config_acc;
  require_address vault_acc config.(vault) InvalidVault ;;
  require_address mint_acc config.(mint) InvalidMint ;;
  require_staker_token staker_token staker.(key) config.(mint) ;;
  let '(stake_key, _) := stake_pda program_id staker.(key) in
  require_address stake_acc stake_key InvalidStakeAccount ;;
  require_owner stake_acc program_id InvalidStakeAccount ;;
  len ← gets (fun w => data_len w stake_acc.(key));
  reject_when (len =? 0) InvalidStakeAccount ;;
  bytes ← gets (fun w => data (acct w stake_acc.(key)));
  sa ← lift (deserialize (T := StakeAccount) bytes);
  reject_when (negb (sa.(owner) =? staker.(key))) Unauthorized ;;
  clock_state ← gets (fun w => acct w clock_acc.(key));
  now ← lift (clock_unix_timestamp clock_acc.(key) clock_state);
  let config_key := (config_pda program_id).1 in
  (if claim_only then mret tt else
     reject_when (sa.(amount) =? 0) InsufficientStake ;;
     reject_when (i64_saturating_sub now sa.(staked_at) <? config.(unstake_delay))
       CooldownActive ;;
     payout ← lift (token_transfer token_program.(key) vault_acc.(key) staker_token.(key)
                      config_key [] sa.(amount));
     cpi_signed payout [vault_acc; staker_token; config_acc; token_program]
       [[CONFIG_SEED; [config.(config_bump)]]]) ;;
  let rewards := accrued_rewards sa config.(reward_rate_bps) now in
  mintable ← mintable_rewards config mint_acc rewards;
  (if 0 <? mintable then
     mint_ix ← lift (mint_to token_program.(key) mint_acc.(key) staker_token.(key)
                       config_key [] mintable);
     cpi_signed mint_ix [mint_acc; staker_token; config_acc; token_program]
       [[CONFIG_SEED; [config.(config_bump)]]]
   else mret tt) ;;
  let sa' := withdrawn_position sa claim_only now in
  serialized ← lift (serialize sa');
  write_prefix stake_acc.(key) serialized.

(** *** Config updates.  A handler below loads the config, checks it, and
    saves a modified copy; [with_*] are the field assignments. *)

Definition with_pending (c : Config) (p : PendingParams) : Config :=
  mkConfig c.(initialized) c.(admin) c.(mint) c.(vault) c.(treasury) c.(fee_bps)
    c.(reward_rate_bps) c.(min_stake) c.(unstake_delay) c.(decimals) c.(config_bump)
    c.(mint_bump) c.(paused) c.(pending_admin) c.(timelock_secs) p c.(genesis_done)
    c.(max_supply).

Definition with_params (c : Config) (p : PendingParams) : Config :=
  mkConfig c.(initialized) c.(admin) c.(mint) c.(vault) c.(treasury) p.(pp_fee_bps)
    p.(pp_reward_rate_bps) p.(pp_min_stake) p.(pp_unstake_delay) c.(decimals) c.(config_bump)
    c.(mint_bump) c.(paused) c.(pending_admin) p.(pp_timelock_secs) c.(pending)
    c.(genesis_done) c.(max_supply).

Definition with_paused (c : Config) (b : bool) : Config :=
  mkConfig c.(initialized) c.(admin) c.(mint) c.(vault) c.(treasury) c.(fee_bps)
    c.(reward_rate_bps) c.(min_stake) c.(unstake_delay) c.(decimals) c.(config_bump)
    c.(mint_bump) b c.(pending_admin) c.(timelock_secs) c.(pending) c.(genesis_done)
    c.(max_supply).

Definition with_admins (c : Config) (adm padm : Pubkey) : Config :=
  mkConfig c.(initialized) adm c.(mint) c.(vault) c.(treasury) c.(fee_bps)
    c.(reward_rate_bps) c.(min_stake) c.(unstake_delay) c.(decimals) c.(config_bump)
    c.(mint_bump) c.(paused) padm c.(timelock_secs) c.(pending) c.(genesis_done)
    c.(max_supply).

Definition with_genesis_done (c : Config) : Config :=
  mkConfig c.(initialized) c.(admin) c.(mint) c.(vault) c.(treasury) c.(fee_bps)
    c.(reward_rate_bps) c.(min_stake) c.(unstake_delay) c.(decimals) c.(config_bump)
    c.(mint_bump) c.(paused) c.(pending_admin) c.(timelock_secs) c.(pending) true
    c.(max_supply).

Definition process_queue_update (program_id : Pubkey) (accounts : list AccountInfo)
    (fee_bps reward_rate_bps min_stake unstake_delay timelock_secs : option Z) : M unit :=
  '(admin_acc, ai) ← next_account_info accounts;
  '(config_acc, ai) ← next_account_info ai;
  '(clock_acc, ai) ← next_account_info ai;
  require_signer admin_acc ;;
  config ← load_config program_id config_acc;
  reject_when (negb (config.(admin) =? admin_acc.(key))) Unauthorized ;;
  reject_when config.(pending).(pp_active) UpdateAlreadyQueued ;;
  let new_fee := default config.(StakingState.fee_bps) fee_bps in
  let new_rate := default config.(StakingState.reward_rate_bps) reward_rate_bps in
  let new_min := default config.(StakingState.min_stake) min_stake in
  let new_delay := default config.(StakingState.unstake_delay) unstake_delay in
  let new_timelock := default config.(StakingState.timelock_secs) timelock_secs in
  validate_params new_fee new_rate ;;
  validate_timelock new_timelock ;;
  clock_state ← gets (fun w => acct w clock_acc.(key));
  now ← lift (clock_unix_timestamp clock_acc.(key) clock_state);
  save_config config_acc
    (with_pending config
       {| pp_active := true; pp_queued_at := now; pp_fee_bps := new_fee;
          pp_reward_rate_bps := new_rate; pp_min_stake := new_min;
          pp_unstake_delay := new_delay; pp_timelock_secs := new_timelock |}).

Definition process_apply_update (program_id : Pubkey) (accounts : list AccountInfo) : M unit :=
  '(config_acc, ai) ← next_account_info accounts;
  '(clock_acc, ai) ← next_account_info ai;
  config ← load_config program_id config_acc;
  reject_when (negb config.(pending).(pp_active)) NoPendingUpdate ;;
  clock_state ← gets (fun w => acct w clock_acc.(key));
  now ← lift (clock_unix_timestamp clock_acc.(key) clock_state);
  let eligible_at := i64_saturating_add config.(pending).(pp_queued_at) config.(timelock_secs) in
  reject_when (now <? eligible_at) TimelockNotElapsed ;;
  let p := config.(pending) in
  validate_params p.(pp_fee_bps) p.(pp_reward_rate_bps) ;;
  validate_timelock p.(pp_timelock_secs) ;;
  save_config config_acc (with_pending (with_params config p) PendingParams_default).

Definition process_cancel_update (program_id : Pubkey) (accounts : list AccountInfo) : M unit :=
  '(admin_acc, ai) ← next_account_info accounts;
  '(config_acc, ai) ← next_account_info ai;
  require_signer admin_acc ;;
  config ← load_config program_id config_acc;
  reject_when (negb (config.(admin) =? admin_acc.(key))) Unauthorized ;;
  reject_when (negb config.(pending).(pp_active)) NoPendingUpdate ;;
  save_config config_acc (with_pending config PendingParams_default).

Definition process_set_paused (program_id : Pubkey) (accounts : list AccountInfo) (b : bool)
    : M unit :=
  '(admin_acc, ai) ← next_account_info accounts;
  '(config_acc, ai) ← next_account_info ai;
  require_signer admin_acc ;;
  config ← load_config program_id config_acc;
  reject_when (negb (config.(admin) =? admin_acc.(key))) Unauthorized ;;
  save_config config_acc (with_paused config b).

Definition process_transfer_admin (program_id : Pubkey) (accounts : list AccountInfo)
    (new_admin : Pubkey) : M unit :=
  '(admin_acc, ai) ← next_account_info accounts;
  '(config_acc, ai) ← next_account_info ai;
  require_signer admin_acc ;;
  config ← load_config program_id config_acc;
  reject_when (negb (config.(admin) =? admin_acc.(key))) Unauthorized ;;
  reject_when (new_admin =? Pubkey_default) InvalidAccount ;;
  save_config config_acc (with_admins config config.(admin) new_admin).

Definition process_accept_admin (program_id : Pubkey) (accounts : list AccountInfo) : M unit :=
  '(pending_acc, ai) ← next_account_info accounts;
  '(config_acc, ai) ← next_account_info ai;
  require_signer pending_acc ;;
  config ← load_config program_id config_acc;
  reject_when ((config.(pending_admin) =? Pubkey_default)
               || negb (config.(pending_admin) =? pending_acc.(key))) NotPendingAdmin ;;
  save_config config_acc (with_admins config config.(pending_admin) Pubkey_default).

Definition process_genesis_mint (program_id : Pubkey) (accounts : list AccountInfo)
    (amount : Z) : M unit :=
  '(admin_acc, ai) ← next_account_info accounts;
  '(config_acc, ai) ← next_account_info ai;
  '(mint_acc, ai) ← next_account_info ai;
  '(recipient_acc, ai) ← next_account_info ai;
  '(token_program, ai) ← next_account_info ai;
  require_signer admin_acc ;;
  config ← load_config program_id config_acc;
  reject_when (negb (config.(admin) =? admin_acc.(key))) Unauthorized ;;
  reject_when (negb (token_program.(key) =? spl_token_id)) InvalidTokenProgram ;;
  reject_when (negb (mint_acc.(key) =? config.(mint))) InvalidMint ;;
  reject_when (negb recipient_acc.(is_writable)) InvalidStakerToken ;;
  reject_when (amount =? 0) InvalidAmount ;;
  reject_when config.(genesis_done) GenesisAlreadyDone ;;
  require_owner mint_acc spl_token_id InvalidMint ;;
  bytes ← gets (fun w => data (acct w mint_acc.(key)));
  mint_state ← lift (ok_or (Mint_unpack bytes) (program_error InvalidMint));
  reject_when (negb (fits_under_cap mint_state.(supply) amount config.(max_supply)))
    MaxSupplyExceeded ;;
  let config_key := (config_pda program_id).1 in
  mint_ix ← lift (mint_to token_program.(key) mint_acc.(key) recipient_acc.(key) config_key
                    [] amount);
  cpi_signed mint_ix [mint_acc; recipient_acc; config_acc; token_program]
    [[CONFIG_SEED; [config.(config_bump)]]] ;;
  save_config config_acc (with_genesis_done config).

(** *** Token metadata *)

Definition MPL_CREATE_METADATA_ACCOUNTS_V3 : Z := 33.

(** [str::as_bytes]. *)
Definition string_bytes (s : string) : list Z :=
  map (fun a => Z.of_nat (Ascii.nat_of_ascii a)) (String.list_ascii_of_string s).

(** [u32::to_le_bytes] and [u16::to_le_bytes]; [as u32] wraps. *)
Definition u32_le_bytes (n : Z) : list Z :=
  map (fun i => Z.land (Z.shiftr n (8 * i)) 255) [0; 1; 2; 3].
Definition u16_le_bytes (n : Z) : list Z :=
  map (fun i => Z.land (Z.shiftr n (8 * i)) 255) [0; 1].

Definition create_metadata_accounts_v3_data (name symbol uri : string) : list Z :=
  let put (d : list Z) (s : string) :=
    d ++ u32_le_bytes (byte_len s) ++ string_bytes s in
  let d := [MPL_CREATE_METADATA_ACCOUNTS_V3] in
  let d := put (put (put d name) symbol) uri in
  d ++ u16_le_bytes 0 ++ [0; 0; 0; 0; 0].

Definition process_create_token_metadata (program_id : Pubkey) (accounts : list AccountInfo)
    (name symbol uri : string) : M unit :=
  '(admin_acc, ai) ← next_account_info accounts;
  '(config_acc, ai) ← next_account_info ai;
  '(mint_acc, ai) ← next_account_info ai;
  '(metadata_acc, ai) ← next_account_info ai;
  '(metadata_program, ai) ← next_account_info ai;
  '(system_program_acc, ai) ← next_account_info ai;
  '(rent_acc, ai) ← next_account_info ai;
  require_signer admin_acc ;;
  config ← load_config program_id config_acc;
  reject_when (negb (config.(admin) =? admin_acc.(key))) Unauthorized ;;
  require_address mint_acc config.(mint) InvalidMint ;;
  require_address metadata_program TOKEN_METADATA_PROGRAM_ID InvalidMetadataProgram ;;
  require_address system_program_acc system_program_id InvalidSystemProgram ;;
  lift (match validate_metadata_fields name symbol uri with
        | Ok u => Ok u
        | Err e => Err (program_error e)
        | Panic => Panic
        end) ;;
  let '(expected_metadata, _) := metadata_pda mint_acc.(key) in
  require_address metadata_acc expected_metadata InvalidAccount ;;
  reject_when (negb metadata_acc.(is_writable)) InvalidAccount ;;
  meta ← gets (fun w => acct w metadata_acc.(key));
  reject_when ((0 <? lamports meta) || (0 <? Z.of_nat (length (data meta))))
    MetadataAlreadyExists ;;
  let config_key := (config_pda program_id).1 in
  let ix :=
    {| ix_program_id := TOKEN_METADATA_PROGRAM_ID;
       ix_accounts :=
         [meta_new metadata_acc.(key) false;
          meta_new_readonly mint_acc.(key) false;
          meta_new_readonly config_key true;
          meta_new admin_acc.(key) true;
          meta_new_readonly config_key false;
          meta_new_readonly system_program_acc.(key) false;
          meta_new_readonly rent_acc.(key) false];
       ix_data := create_metadata_accounts_v3_data name symbol uri |} in
  cpi_signed ix [metadata_acc; mint_acc; config_acc; admin_acc; system_program_acc; rent_acc]
    [[CONFIG_SEED; [config.(config_bump)]]].

(** ** Dispatch *)

Definition process_ix (program_id : Pubkey) (accounts : list AccountInfo)
    (ix : StakingInstruction) : M unit :=
  match ix with
  | Initialize fee rate min_s delay dec timelock cap =>
      process_initialize program_id accounts fee rate min_s delay dec timelock cap
  | Stake amount => process_stake program_id accounts amount
  | Unstake => process_unstake program_id accounts false
  | Claim => process_unstake program_id accounts true
  | UpdateParams fee rate min_s delay timelock =>
      process_queue_update program_id accounts fee rate min_s delay timelock
  | ApplyParams => process_apply_update program_id accounts
  | CancelParams => process_cancel_update program_id accounts
  | Pause => process_set_paused program_id accounts true
  | Unpause => process_set_paused program_id accounts false
  | TransferAdmin new_admin => process_transfer_admin program_id accounts new_admin
  | AcceptAdmin => process_accept_admin program_id accounts
  | GenesisMint amount => process_genesis_mint program_id accounts amount
  | CreateTokenMetadata name symbol uri =>
      process_create_token_metadata program_id accounts name symbol uri
  end.

Definition process_instruction (program_id : Pubkey) (accounts : list AccountInfo)
    (instruction_data : list Z) : M unit :=
  ix ← lift (match unpack instruction_data with
             | Ok ix => Ok ix
             | Err e => Err (program_error e)
             | Panic => Panic
             end);
  process_ix program_id accounts ix.
End Processor.
