(* ===== verification/StakingLaws.v ===== *)
(** What the staking program relies on about the runtime and the SPL
    programs ([SdkLaws]), and the shared lemmas on accounts, the config and
    stake positions that the governance and funds theorems use. *)
From stdpp Require Import prelude gmap strings.
From Stdlib Require Import ZArith Lia.
From S2P Require Import Prelude.
From S2P Require Import StakingState.
From S2P Require Import Solana.
From S2P Require Import StakingInstruction.
From S2P Require Import StakingProcessor.

#[local] Open Scope Z_scope.

(** The machine widths of a decoded [Config]. *)
Record config_widths (c : Config) : Prop := {
  cw_fee : in_u16 c.(fee_bps);
  cw_rate : in_u64 c.(reward_rate_bps);
  cw_min : in_u64 c.(min_stake);
  cw_delay : in_i64 c.(unstake_delay);
  cw_decimals : in_u8 c.(decimals);
  cw_bump : in_u8 c.(config_bump);
  cw_mint_bump : in_u8 c.(mint_bump);
  cw_timelock : in_i64 c.(timelock_secs);
  cw_cap : in_u64 c.(max_supply);
  cw_queued_at : in_i64 c.(pending).(pp_queued_at);
  cw_pfee : in_u16 c.(pending).(pp_fee_bps);
  cw_prate : in_u64 c.(pending).(pp_reward_rate_bps);
  cw_pmin : in_u64 c.(pending).(pp_min_stake);
  cw_pdelay : in_i64 c.(pending).(pp_unstake_delay);
  cw_ptimelock : in_i64 c.(pending).(pp_timelock_secs);
}.

(** A stored position: the machine widths, bump included. *)
Record stake_widths (sa : StakeAccount) : Prop := {
  sw_wf : stake_account_wf sa;
  sw_bump : in_u8 sa.(bump);
}.

(** The machine widths of the instruction's arguments, which the decoder
    guarantees. *)
Definition instruction_widths (ix : StakingInstruction) : Prop :=
  let opt (P : Z -> Prop) (o : option Z) := match o with Some z => P z | None => True end in
  match ix with
  | Initialize fee rate min_s delay dec timelock cap =>
      in_u16 fee /\ in_u64 rate /\ in_u64 min_s /\ in_i64 delay /\ in_u8 dec /\
      in_i64 timelock /\ in_u64 cap
  | Stake amount | GenesisMint amount => in_u64 amount
  | UpdateParams fee rate min_s delay timelock =>
      opt in_u16 fee /\ opt in_u64 rate /\ opt in_u64 min_s /\ opt in_i64 delay /\
      opt in_i64 timelock
  | _ => True
  end.

(** ** Documented behaviour of the runtime and of SPL token *)

(** [amount] tokens leave [src] and arrive at [dst]; every other token account
    and every mint is as before. *)
Definition tokens_moved `{Sdk} (w w' : World) (src dst : Pubkey) (amount : Z) : Prop :=
  (exists t, token_at w src = Some t /\ amount <= t.(token_amount)) /\
  (exists t, token_at w dst = Some t) /\
  (forall k, token_at w' k =
     (fun t => mkTokenAccount t.(token_mint) t.(token_owner)
                 (t.(token_amount) - (if decide (k = src) then amount else 0)
                                   + (if decide (k = dst) then amount else 0)))
     <$> token_at w k) /\
  (forall k, mint_at w' k = mint_at w k).

(** [amount] new tokens of [mint] arrive at [dst]. *)
Definition tokens_minted `{Sdk} (w w' : World) (mint dst : Pubkey) (amount : Z) : Prop :=
  (exists m, mint_at w mint = Some m) /\
  (forall k, mint_at w' k =
     (fun m => mkMintState (m.(supply) + (if decide (k = mint) then amount else 0)))
     <$> mint_at w k) /\
  (forall k, token_at w' k =
     (fun t => mkTokenAccount t.(token_mint) t.(token_owner)
                 (t.(token_amount) + (if decide (k = dst) then amount else 0)))
     <$> token_at w k).

Definition same_tokens `{Sdk} (w w' : World) : Prop :=
  (forall k, token_at w' k = token_at w k) /\ (forall k, mint_at w' k = mint_at w k).

Class SdkLaws `{Sdk, StakingCodec} : Prop := {
  (** the derived codecs *)
  laws_Config :: BorshLaws Config config_widths;
  laws_StakeAccount :: BorshLaws StakeAccount stake_widths;
  laws_instruction :: BorshLaws StakingInstruction instruction_widths;
  sized_Config :: BorshSized Config;
  sized_StakeAccount :: BorshSized StakeAccount;
  pda_bump_range : forall seeds p, in_u8 (find_program_address seeds p).2;
  (** ranges the SPL and sysvar decoders guarantee *)
  clock_range : forall k a t, clock_unix_timestamp k a = Ok t -> in_i64 t;
  token_range : forall b t, TokenAccount_unpack b = Some t -> in_u64 t.(token_amount);
  mint_range : forall b m, Mint_unpack b = Some m -> in_u64 m.(supply);
  (** what the builders address *)
  transfer_program : forall p s d a n ix, token_transfer p s d a [] n = Ok ix ->
    ix_program_id ix = p;
  mint_to_program : forall p m d a n ix, mint_to p m d a [] n = Ok ix -> ix_program_id ix = p;
  create_account_program : forall f t l s o,
    ix_program_id (create_account f t l s o) = system_program_id;
  (** SPL token's transfer and mint, the system program's account creation *)
  transfer_effect : forall s d a n ix accs seeds w w',
    token_transfer spl_token_id s d a [] n = Ok ix ->
    invoke_signed ix accs seeds w = Ok w' -> tokens_moved w w' s d n;
  mint_to_effect : forall m d a n ix accs seeds w w',
    mint_to spl_token_id m d a [] n = Ok ix ->
    invoke_signed ix accs seeds w = Ok w' -> tokens_minted w w' m d n;
  create_account_effect : forall f t l s o accs seeds w w',
    invoke_signed (create_account f t l s o) accs seeds w = Ok w' ->
    acc_owner (acct w t) = system_program_id /\
    data (acct w' t) = replicate (Z.to_nat s) 0 /\ acc_owner (acct w' t) = o /\
    (forall k, k <> t -> data (acct w' k) = data (acct w k) /\
                         acc_owner (acct w' k) = acc_owner (acct w k));
  init_mint_program : forall p m a f d ix, initialize_mint2 p m a f d = Ok ix ->
    ix_program_id ix = p;
  init_mint_effect : forall m a f d ix accs seeds w w',
    initialize_mint2 spl_token_id m a f d = Ok ix ->
    invoke_signed ix accs seeds w = Ok w' ->
    mint_at w' m = Some (mkMintState 0) /\ (forall k, token_at w' k = token_at w k);
  create_ata_program : forall f wl m p,
    ix_program_id (create_associated_token_account_idempotent f wl m p)
    = spl_associated_token_account_id;
  create_ata_effect : forall f wl m accs seeds w w',
    invoke_signed (create_associated_token_account_idempotent f wl m spl_token_id) accs seeds w
      = Ok w' ->
    (exists t, token_at w' (get_associated_token_address wl m) = Some t /\
               token_mint t = m /\ token_owner t = wl) /\
    (forall k, k <> get_associated_token_address wl m -> token_at w' k = token_at w k) /\
    (forall k t, token_at w k = Some t -> token_at w' k = Some t) /\
    (forall k, mint_at w' k = mint_at w k);
  mpl_effect : forall ix accs seeds w w',
    ix_program_id ix = TOKEN_METADATA_PROGRAM_ID ->
    invoke_signed ix accs seeds w = Ok w' -> same_tokens w w';
  spl_token_not_system : spl_token_id <> system_program_id;
  (** SDK calls return; they do not panic *)
  invoke_no_panic : forall ix accs seeds w, invoke_signed ix accs seeds w <> Panic;
  transfer_no_panic : forall p s d a n, token_transfer p s d a [] n <> Panic;
  mint_to_no_panic : forall p m d a n, mint_to p m d a [] n <> Panic;
  init_mint_no_panic : forall p m a f d, initialize_mint2 p m a f d <> Panic;
  clock_no_panic : forall k a, clock_unix_timestamp k a <> Panic;
  rent_no_panic : forall k a, rent_from_account_info k a <> Panic;
  rent_get_no_panic : rent_get <> Panic;
}.

(** What holds of the deployed program's id. *)
Class ProgramLaws `{Sdk} (program_id : Pubkey) : Prop := {
  (** no two derived addresses collide *)
  stake_pda_inj : forall a b, (stake_pda program_id a).1 = (stake_pda program_id b).1 -> a = b;
  stake_pda_not_config : forall a, (stake_pda program_id a).1 <> (config_pda program_id).1;
  (** the program is none of the programs it calls *)
  not_spl_token : program_id <> spl_token_id;
  not_system : program_id <> system_program_id;
  not_ata : program_id <> spl_associated_token_account_id;
  not_mpl : program_id <> TOKEN_METADATA_PROGRAM_ID;
  (** a called program cannot change the data or the owner of this one's accounts *)
  cpi_keeps_owned : forall ix accs seeds w w' k,
    invoke_signed ix accs seeds w = Ok w' -> ix_program_id ix <> program_id ->
    acc_owner (acct w k) = program_id ->
    data (acct w' k) = data (acct w k) /\ acc_owner (acct w' k) = program_id;
  (** nor make an account belong to it: only [create_account] assigns one *)
  cpi_no_new_owned : forall ix accs seeds w w' k,
    invoke_signed ix accs seeds w = Ok w' ->
    ix_program_id ix = spl_token_id \/ ix_program_id ix = spl_associated_token_account_id \/
    ix_program_id ix = TOKEN_METADATA_PROGRAM_ID ->
    acc_owner (acct w' k) = program_id -> acc_owner (acct w k) = program_id;
}.

(** ** The stored config and the stored positions *)

Section Views.
Context `{Sdk} (program_id : Pubkey).

(** The config the program accepts: owned by it, at its PDA, initialized. *)
Definition config_at (w : World) : option Config :=
  let k := (config_pda program_id).1 in
  if decide (acc_owner (acct w k) = program_id) then
    c ← try_from_slice (A := Config) (data (acct w k));
    if c.(initialized) then Some c else None
  else None.

(** The position the program accepts for [staker]. *)
Definition stake_at (w : World) (staker : Pubkey) : option StakeAccount :=
  let k := (stake_pda program_id staker).1 in
  if decide (acc_owner (acct w k) = program_id) then
    sa ← try_from_slice (A := StakeAccount) (data (acct w k));
    if decide (sa.(owner) = staker) then Some sa else None
  else None.

Definition staked_amount (w : World) (staker : Pubkey) : Z :=
  match stake_at w staker with
  | Some sa => sa.(amount)
  | None => 0
  end.
End Views.

(** ** Guards *)

(** Kept folded, so that inversion does not substitute the owner away. *)
Definition owned_by `{Sdk} (w : World) (k o : Pubkey) : Prop := acc_owner (acct w k) = o.

Section Guards.
Context `{Sdk}.
Implicit Types (w : World).

Lemma require_signer_Ok a w u w' :
  require_signer a w = Ok (u, w') <-> is_signer a = true /\ w' = w.
Proof. unfold require_signer. rewrite reject_when_Ok, negb_false_iff. done. Qed.

Lemma require_address_Ok a k (e : StakingError) w u w' :
  require_address a k e w = Ok (u, w') <-> key a = k /\ w' = w.
Proof.
  unfold require_address. rewrite reject_when_Ok, negb_false_iff, Z.eqb_eq. done.
Qed.

Lemma require_owner_Ok a k (e : StakingError) w u w' :
  require_owner a k e w = Ok (u, w') <-> owned_by w (key a) k /\ w' = w.
Proof.
  unfold require_owner, owned_by. split.
  - intros Hr. inv_M. bool_to_prop. done.
  - intros [Ho ->]. apply M_bind_Ok. eexists _, _. split; [by apply gets_Ok|].
    apply reject_when_Ok. by rewrite negb_false_iff, Z.eqb_eq.
Qed.

Lemma deserialize_Ok {T} `{Borsh T} b (a : T) :
  deserialize b = Ok a <-> try_from_slice b = Some a.
Proof. apply ok_or_Ok. Qed.

Lemma serialize_Ok {T} `{Borsh T} b (a : T) : serialize a = Ok b <-> to_vec a = Some b.
Proof. apply ok_or_Ok. Qed.

Lemma validate_params_Ok fee rate w u w' :
  validate_params fee rate w = Ok (u, w') ->
  fee <= MAX_FEE_BPS /\ rate <= MAX_REWARD_RATE_BPS /\ w' = w.
Proof. unfold validate_params. intros Hv. inv_M. bool_to_prop. done. Qed.

Lemma validate_timelock_Ok secs w u w' :
  validate_timelock secs w = Ok (u, w') -> 0 <= secs <= MAX_TIMELOCK_SECS /\ w' = w.
Proof. unfold validate_timelock. intros Hv. inv_M. bool_to_prop. done. Qed.
End Guards.

(** Take a successful handler apart, guards included. *)
Ltac inv_guard_step :=
  match goal with
  | H : require_signer _ _ = Ok (_, _) |- _ => apply require_signer_Ok in H; destruct H as [? ?]
  | H : require_address _ _ _ _ = Ok (_, _) |- _ =>
      apply require_address_Ok in H; destruct H as [? ?]
  | H : require_owner _ _ _ _ = Ok (_, _) |- _ =>
      apply require_owner_Ok in H; destruct H as [? ?]
  | H : deserialize _ = Ok _ |- _ => apply deserialize_Ok in H
  | H : serialize _ = Ok _ |- _ => apply serialize_Ok in H
  | H : validate_params _ _ _ = Ok (_, _) |- _ =>
      apply validate_params_Ok in H; destruct H as (? & ? & ?)
  | H : validate_timelock _ _ = Ok (_, _) |- _ =>
      apply validate_timelock_Ok in H; destruct H as (? & ?)
  end.
Ltac inv_handler :=
  repeat ((inv_M_step || inv_guard_step || inv_ok_step); simplify_eq); bool_to_prop.

(** ** Loading and saving *)

Section Lemmas.
Context `{Sdk, StakingCodec, !SdkLaws} (program_id : Pubkey).
Implicit Types (w : World) (c : Config).

Lemma load_config_Ok a w c w' :
  load_config program_id a w = Ok (c, w') ->
  w' = w /\ key a = (config_pda program_id).1 /\ config_at program_id w = Some c.
Proof.
  unfold load_config, config_at. destruct (config_pda program_id) as [k b].
  intros Hl. inv_handler. split_and!; [done|done|]. cbn.
  rewrite decide_True by done.
  match goal with Hd : try_from_slice _ = Some _, Hi : initialized _ = true |- _ =>
    cbn; rewrite Hd; cbn; by rewrite Hi end.
Qed.

Lemma require_staker_token_Ok a staker mnt w u w' :
  require_staker_token a staker mnt w = Ok (u, w') ->
  w' = w /\
  exists t, token_at w (key a) = Some t /\ token_mint t = mnt /\ token_owner t = staker.
Proof.
  unfold require_staker_token. intros Hr. inv_handler. split; [done|].
  eexists. split_and!; [|done..]. unfold token_at. by rewrite decide_True.
Qed.

Lemma config_at_Some w c :
  config_at program_id w = Some c ->
  let k := (config_pda program_id).1 in
  acc_owner (acct w k) = program_id /\ initialized c = true /\
  try_from_slice (data (acct w k)) = Some c.
Proof.
  unfold config_at. cbv zeta. case_decide as Ho; [|done].
  destruct (try_from_slice _) as [c'|]; cbn; [|done].
  destruct (initialized c') eqn:?; [|done]. by intros [= ->].
Qed.

Lemma config_at_widths w c : config_at program_id w = Some c -> config_widths c.
Proof. intros (_ & _ & Hd)%config_at_Some. by eapply borsh_decode_wf. Qed.

(** The store after an account's data is replaced by an encoding as long as
    the old one: the data is exactly that encoding. *)
Lemma write_same_size w k bytes old :
  data (acct w k) = old -> length bytes = length old ->
  bytes ++ drop (length bytes) old = bytes.
Proof. intros <- Hl. rewrite drop_ge by lia. apply app_nil_r. Qed.

Lemma save_config_Ok a c0 c w u w' :
  key a = (config_pda program_id).1 ->
  config_at program_id w = Some c0 -> config_widths c -> initialized c = true ->
  save_config a c w = Ok (u, w') ->
  config_at program_id w' = Some c /\
  (forall k, k <> key a -> acct w' k = acct w k) /\
  acc_owner (acct w' (key a)) = program_id.
Proof.
  intros Hk Hc Hwf Hi Hs. apply config_at_Some in Hc as (Ho & _ & Hd).
  unfold save_config in Hs. inv_handler.
  match goal with Hv : to_vec c = Some ?b |- _ => rename b into bytes, Hv into Henc end.
  rewrite <- Hk in Ho, Hd.
  assert (length bytes = length (data (acct w (key a)))) as Hlen.
  { eapply (borsh_same_size (A := Config)); [exact Henc|]. by eapply borsh_canonical. }
  erewrite write_same_size by done.
  split_and!.
  - unfold config_at. rewrite <- Hk, acct_insert_eq. cbn.
    rewrite decide_True by done.
    erewrite borsh_roundtrip by eauto; cbn. by rewrite Hi.
  - intros k Hne. by rewrite acct_insert_ne.
  - by rewrite acct_insert_eq.
Qed.

(** The views read only the data and the owner of their account. *)
Lemma config_at_ext w w' :
  let k := (config_pda program_id).1 in
  data (acct w' k) = data (acct w k) -> acc_owner (acct w' k) = acc_owner (acct w k) ->
  config_at program_id w' = config_at program_id w.
Proof. cbv zeta. intros Hd Ho. unfold config_at. by rewrite Hd, Ho. Qed.

Lemma stake_at_ext w w' s :
  let k := (stake_pda program_id s).1 in
  data (acct w' k) = data (acct w k) -> acc_owner (acct w' k) = acc_owner (acct w k) ->
  stake_at program_id w' s = stake_at program_id w s.
Proof. cbv zeta. intros Hd Ho. unfold stake_at. by rewrite Hd, Ho. Qed.

Lemma stake_at_Some w s sa :
  stake_at program_id w s = Some sa ->
  let k := (stake_pda program_id s).1 in
  acc_owner (acct w k) = program_id /\ owner sa = s /\
  try_from_slice (data (acct w k)) = Some sa.
Proof.
  unfold stake_at. cbv zeta. case_decide as Ho; [|done].
  destruct (try_from_slice _) as [c'|]; cbn; [|done].
  case_decide; [|done]. by intros [= ->].
Qed.

Lemma stake_at_intro w s sa :
  let k := (stake_pda program_id s).1 in
  acc_owner (acct w k) = program_id -> owner sa = s ->
  try_from_slice (data (acct w k)) = Some sa -> stake_at program_id w s = Some sa.
Proof.
  cbv zeta. intros Ho Hs Hd. unfold stake_at. rewrite decide_True by done.
  rewrite Hd; cbn. by rewrite decide_True.
Qed.

Lemma stake_at_widths w s sa :
  stake_at program_id w s = Some sa -> stake_widths sa.
Proof. intros (_ & _ & Hd)%stake_at_Some. by eapply borsh_decode_wf. Qed.

Lemma token_at_ext w w' k :
  data (acct w' k) = data (acct w k) -> acc_owner (acct w' k) = acc_owner (acct w k) ->
  token_at w' k = token_at w k.
Proof. intros Hd Ho. unfold token_at. by rewrite Hd, Ho. Qed.

Lemma mint_at_ext w w' k :
  data (acct w' k) = data (acct w k) -> acc_owner (acct w' k) = acc_owner (acct w k) ->
  mint_at w' k = mint_at w k.
Proof. intros Hd Ho. unfold mint_at. by rewrite Hd, Ho. Qed.
End Lemmas.

(** The config a handler loaded, given the stored one. *)
Ltac use_load Hc :=
  match goal with
  | H : load_config _ _ _ = Ok (?c', ?w1) |- _ =>
      let Hw := fresh "Hw" in let Hl := fresh "Hl" in let Hk := fresh "Hkey" in
      apply load_config_Ok in H; destruct H as (Hw & Hk & Hl); subst w1;
      rewrite Hc in Hl; injection Hl as <-
  end.

