(* ===== verification/StakingHandlers.v ===== *)
(** What a successful deposit, withdrawal or claim of the staking program did,
    as two records ([deposit] and [withdrawal]) that the governance and funds
    theorems read, and the lemmas that every successful handler run satisfies
    them. *)
From stdpp Require Import prelude gmap strings.
From Stdlib Require Import ZArith Lia.
From S2P Require Import Prelude.
From S2P Require Import StakingState.
From S2P Require Import Solana.
From S2P Require Import StakingInstruction.
From S2P Require Import StakingProcessor.
From S2P Require Import StakingLaws.

#[local] Open Scope Z_scope.

Create HintDb frame discriminated.

Definition signed_by (accounts : list AccountInfo) (s : Pubkey) : Prop :=
  exists a, a ∈ accounts /\ key a = s /\ is_signer a = true.

Ltac in_accounts := rewrite ?elem_of_cons; tauto.

Lemma signed_cons a rest s : key a = s -> is_signer a = true -> signed_by (a :: rest) s.
Proof. intros. exists a. split_and!; [in_accounts|done..]. Qed.

Section Records.
Context `{Sdk} (program_id : Pubkey).

(** A fresh position, as [process_stake] allocates it. *)
Definition fresh_position (staker : Pubkey) (now : Z) : StakeAccount :=
  mkStakeAccount staker 0 now now 0 (stake_pda program_id staker).2.

(** A deposit of [amount] by [staker]: the deposit's token account [src], the
    config [c], the time [now], the position before ([sa], fresh when there
    was none) and after ([sa']), and the store after the token transfers. *)
Record deposit (accounts : list AccountInfo) (amount : Z) (w w' : World)
    (staker src : Pubkey) (c : Config) (now : Z) (sa sa' : StakeAccount) (wv wt : World)
    : Prop := {
  dep_signed : signed_by accounts staker;
  dep_config : config_at program_id w = Some c;
  dep_open : paused c = false;
  dep_min : min_stake c <= amount;
  dep_src : exists t, token_at w src = Some t /\ token_mint t = mint c /\ token_owner t = staker;
  dep_fee : compute_fee amount (fee_bps c) <= amount;
  dep_net : tokens_moved w wv src (vault c) (amount - compute_fee amount (fee_bps c));
  dep_treasury :
    if 0 <? compute_fee amount (fee_bps c)
    then tokens_moved wv wt src (treasury c) (compute_fee amount (fee_bps c))
    else wt = wv;
  dep_now : in_i64 now;
  dep_before : stake_at program_id w staker = Some sa \/
               (stake_at program_id w staker = None /\ sa = fresh_position staker now);
  dep_position : deposit_position sa (reward_rate_bps c)
                   (amount - compute_fee amount (fee_bps c)) now = Ok sa';
  dep_after : stake_at program_id w' staker = Some sa';
  dep_others : forall s, s <> staker -> stake_at program_id w' s = stake_at program_id w s;
  dep_config' : config_at program_id w' = Some c;
  dep_tokens : same_tokens wt w';
}.

(** A withdrawal ([claim_only = false]) or a claim by [staker] into [dst]. *)
Record withdrawal (accounts : list AccountInfo) (claim_only : bool) (w w' : World)
    (staker dst : Pubkey) (c : Config) (now : Z) (sa : StakeAccount) (mintable : Z)
    (wp wm : World) : Prop := {
  wd_signed : signed_by accounts staker;
  wd_config : config_at program_id w = Some c;
  wd_dst : exists t, token_at w dst = Some t /\ token_mint t = mint c /\ token_owner t = staker;
  wd_before : stake_at program_id w staker = Some sa;
  wd_now : in_i64 now;
  wd_principal :
    if claim_only then wp = w
    else amount sa <> 0 /\ unstake_delay c <= i64_saturating_sub now (staked_at sa) /\
         tokens_moved w wp (vault c) dst (amount sa);
  wd_mintable :
    let rewards := accrued_rewards sa (reward_rate_bps c) now in
    (rewards <= 0 /\ mintable = 0) \/
    (exists m, mint_at wp (mint c) = Some m /\
               mintable = Z.min rewards (supply_headroom (supply m) (max_supply c)));
  wd_minted :
    if 0 <? mintable then tokens_minted wp wm (mint c) dst mintable else wm = wp;
  wd_after : stake_at program_id w' staker = Some (withdrawn_position sa claim_only now);
  wd_others : forall s, s <> staker -> stake_at program_id w' s = stake_at program_id w s;
  wd_config' : config_at program_id w' = Some c;
  wd_tokens : same_tokens wm w';
}.
End Records.

Section Frame.
Context `{Sdk, StakingCodec, !SdkLaws} (program_id : Pubkey) `{!ProgramLaws program_id}.
Implicit Types (w : World).

Lemma same_tokens_refl w : same_tokens w w.
Proof. done. Qed.
Lemma same_tokens_trans w1 w2 w3 : same_tokens w1 w2 -> same_tokens w2 w3 -> same_tokens w1 w3.
Proof. intros [Ha Hb] [Hc Hd]. split; intros k; [by rewrite Hc|by rewrite Hd]. Qed.

(** *** What a call to another program leaves alone *)

Lemma cpi_keeps_config ix accs seeds w w' c :
  invoke_signed ix accs seeds w = Ok w' -> ix_program_id ix <> program_id ->
  config_at program_id w = Some c -> config_at program_id w' = Some c.
Proof.
  intros Hi Hne Hc. pose proof (config_at_Some _ _ _ Hc) as (Ho & _ & _).
  destruct (cpi_keeps_owned _ _ _ _ _ _ Hi Hne Ho) as [Hd Ho'].
  rewrite <- Hc. apply config_at_ext; congruence.
Qed.

Lemma transfer_keeps_config s d a n ix accs seeds w w' c :
  token_transfer spl_token_id s d a [] n = Ok ix -> invoke_signed ix accs seeds w = Ok w' ->
  config_at program_id w = Some c -> config_at program_id w' = Some c.
Proof.
  intros Ht Hi. apply (cpi_keeps_config _ _ _ _ _ _ Hi).
  rewrite (transfer_program _ _ _ _ _ _ Ht). apply not_eq_sym, not_spl_token.
Qed.

Lemma mint_to_keeps_config m d a n ix accs seeds w w' c :
  mint_to spl_token_id m d a [] n = Ok ix -> invoke_signed ix accs seeds w = Ok w' ->
  config_at program_id w = Some c -> config_at program_id w' = Some c.
Proof.
  intros Ht Hi. apply (cpi_keeps_config _ _ _ _ _ _ Hi).
  rewrite (mint_to_program _ _ _ _ _ _ Ht). apply not_eq_sym, not_spl_token.
Qed.

Lemma create_keeps_config f t l s o accs seeds w w' c :
  invoke_signed (create_account f t l s o) accs seeds w = Ok w' ->
  config_at program_id w = Some c -> config_at program_id w' = Some c.
Proof.
  intros Hi. apply (cpi_keeps_config _ _ _ _ _ _ Hi).
  rewrite create_account_program. apply not_eq_sym, not_system.
Qed.

Lemma write_keeps_config k bytes w c :
  k <> (config_pda program_id).1 -> config_at program_id w = Some c ->
  config_at program_id (<[k := bytes]> w) = Some c.
Proof.
  intros Hne Hc. rewrite <- Hc. apply config_at_ext; by rewrite acct_insert_ne.
Qed.

Lemma cpi_keeps_stakes ix accs seeds w w' s :
  invoke_signed ix accs seeds w = Ok w' ->
  ix_program_id ix = spl_token_id \/ ix_program_id ix = spl_associated_token_account_id \/
  ix_program_id ix = TOKEN_METADATA_PROGRAM_ID ->
  stake_at program_id w' s = stake_at program_id w s.
Proof.
  intros Hi Hp. assert (ix_program_id ix <> program_id) as Hne.
  { pose proof not_spl_token; pose proof not_ata; pose proof not_mpl.
    by destruct Hp as [->|[->| ->]]; apply not_eq_sym. }
  set (k := (stake_pda program_id s).1).
  destruct (decide (acc_owner (acct w k) = program_id)) as [Ho|Ho].
  - destruct (cpi_keeps_owned _ _ _ _ _ _ Hi Hne Ho) as [Hd Ho'].
    apply stake_at_ext; fold k; congruence.
  - assert (acc_owner (acct w' k) <> program_id) as Ho'.
    { intros Ho'. apply Ho. eapply cpi_no_new_owned; eauto. }
    unfold stake_at. fold k. by rewrite !decide_False.
Qed.

Lemma transfer_keeps_stakes s d a n ix accs seeds w w' x :
  token_transfer spl_token_id s d a [] n = Ok ix -> invoke_signed ix accs seeds w = Ok w' ->
  stake_at program_id w' x = stake_at program_id w x.
Proof. intros Ht Hi. eapply cpi_keeps_stakes; [done|]. left. by eapply transfer_program. Qed.

Lemma mint_to_keeps_stakes m d a n ix accs seeds w w' x :
  mint_to spl_token_id m d a [] n = Ok ix -> invoke_signed ix accs seeds w = Ok w' ->
  stake_at program_id w' x = stake_at program_id w x.
Proof. intros Ht Hi. eapply cpi_keeps_stakes; [done|]. left. by eapply mint_to_program. Qed.

(** Creating an account of this program, or writing one, moves no token. *)
Lemma create_same_tokens f t l s accs seeds w w' :
  invoke_signed (create_account f t l s program_id) accs seeds w = Ok w' -> same_tokens w w'.
Proof.
  intros (Ho & _ & Ho' & Hk)%create_account_effect.
  assert (forall k, k <> t -> token_at w' k = token_at w k /\ mint_at w' k = mint_at w k)
    as Hoth.
  { intros k Hne. destruct (Hk k Hne). split; [by apply token_at_ext|by apply mint_at_ext]. }
  pose proof not_spl_token. pose proof spl_token_not_system.
  split; intros k; (destruct (decide (k = t)) as [->|]; [|by apply Hoth]);
    unfold token_at, mint_at; rewrite !decide_False by congruence; done.
Qed.

Lemma write_same_tokens k bytes w :
  acc_owner (acct w k) = program_id ->
  same_tokens w (<[k := mkAccount (lamports (acct w k)) bytes (acc_owner (acct w k))]> w).
Proof.
  intros Ho. pose proof not_spl_token.
  split; intros k'; unfold token_at, mint_at; destruct (decide (k' = k)) as [->|];
    rewrite ?acct_insert_eq, ?acct_insert_ne by done; cbn; [|done| |done];
    by rewrite !decide_False by congruence.
Qed.

(** Overwriting a position by one whose encoding has the same length. *)
Lemma write_stake w staker (sa' : StakeAccount) bytes old :
  let k := (stake_pda program_id staker).1 in
  acc_owner (acct w k) = program_id -> data (acct w k) = old ->
  to_vec sa' = Some bytes -> length bytes = length old ->
  stake_widths sa' -> owner sa' = staker ->
  let w' := <[k := mkAccount (lamports (acct w k)) (bytes ++ drop (length bytes) old)
                     (acc_owner (acct w k))]> w in
  stake_at program_id w' staker = Some sa' /\
  (forall s, s <> staker -> stake_at program_id w' s = stake_at program_id w s) /\
  same_tokens w w'.
Proof.
  cbv zeta. intros Ho Hd Henc Hlen Hwf Hown.
  erewrite write_same_size by done. split_and!.
  - apply stake_at_intro; rewrite ?acct_insert_eq; cbn; [done..|].
    by eapply borsh_roundtrip.
  - intros s Hne. apply stake_at_ext; rewrite acct_insert_ne; try done;
      by intros ?%stake_pda_inj%eq_sym.
  - by apply write_same_tokens.
Qed.

(** Every encoding of a position fits the account exactly. *)
Definition stake_sized w k : Prop :=
  forall (sa : StakeAccount) bytes, to_vec sa = Some bytes -> length bytes = length (data (acct w k)).

Lemma stake_sized_decoded w k (sa : StakeAccount) :
  try_from_slice (data (acct w k)) = Some sa -> stake_sized w k.
Proof.
  intros Hd sa' bytes Henc. eapply (borsh_same_size (A := StakeAccount)); [exact Henc|].
  by eapply borsh_canonical.
Qed.

Lemma stake_sized_allocated w k (sa : StakeAccount) bytes :
  to_vec sa = Some bytes -> data (acct w k) = replicate (Z.to_nat (Z.of_nat (length bytes))) 0 ->
  stake_sized w k.
Proof.
  intros Henc Hd sa' bytes' Henc'. rewrite Hd, Nat2Z.id, length_replicate.
  by eapply (borsh_same_size (A := StakeAccount)).
Qed.

Lemma empty_not_stake w s :
  data (acct w (stake_pda program_id s).1) = [] -> stake_at program_id w s = None.
Proof.
  intros Hd. destruct (stake_at program_id w s) as [sa|] eqn:Hs; [|done].
  apply stake_at_Some in Hs as (_ & _ & Hs). rewrite Hd in Hs.
  apply borsh_canonical in Hs. apply borsh_size_pos in Hs. cbn in Hs. lia.
Qed.

Lemma load_or_create_Ok staker stake_acc sys now w sa w' :
  let k := (stake_pda program_id (key staker)).1 in
  key stake_acc = k ->
  load_or_create_stake program_id staker stake_acc sys k (stake_pda program_id (key staker)).2
    now w = Ok (sa, w') ->
  (stake_at program_id w (key staker) = Some sa \/
   (stake_at program_id w (key staker) = None /\
    sa = fresh_position program_id (key staker) now)) /\
  acc_owner (acct w' k) = program_id /\ stake_sized w' k /\
  (forall s, s <> key staker -> stake_at program_id w' s = stake_at program_id w s) /\
  (forall c, config_at program_id w = Some c -> config_at program_id w' = Some c) /\
  same_tokens w w'.
Proof.
  cbv zeta. destruct stake_acc as [k0 sg wr]. cbn [key]. intros -> Hl.
  unfold load_or_create_stake in Hl. cbn [key] in Hl. inv_handler.
  match goal with Hl : (if ?b then _ else _) _ = Ok _ |- _ => destruct b eqn:Hlen end;
    inv_handler; cbn [key] in *.
  - match goal with Hd : try_from_slice _ = Some _ |- _ =>
      pose proof (stake_sized_decoded _ _ _ Hd) end.
    split_and!; [left; by apply stake_at_intro|done..].
  - match goal with Hi : invoke_signed _ _ _ _ = Ok _ |- _ =>
      pose proof (create_account_effect _ _ _ _ _ _ _ _ _ Hi) as (Hsys & Hd & Ho & Hoth);
      pose proof (create_same_tokens _ _ _ _ _ _ _ _ Hi);
      pose proof (fun c => create_keeps_config _ _ _ _ _ _ _ _ _ c Hi) end.
    assert (data (acct w (stake_pda program_id (key staker)).1) = []) as Hempty.
    { apply nil_length_inv. unfold data_len in Hlen. lia. }
    split_and!; [right|done| | |naive_solver|done].
    + split; [by apply empty_not_stake|done].
    + by eapply stake_sized_allocated.
    + intros s Hne. destruct (Hoth (stake_pda program_id s).1).
      { by intros ?%stake_pda_inj. }
      by apply stake_at_ext.
Qed.

(** *** The position a deposit computes *)

Lemma deposit_position_Ok sa rate net now sa' :
  deposit_position sa rate net now = Ok sa' ->
  amount sa' = amount sa + net /\ amount sa + net <= u64_max /\
  owner sa' = owner sa /\ bump sa' = bump sa /\ reward_from sa' = now /\
  pending_rewards sa' = accrued_rewards sa rate now /\
  staked_at sa' = (if 0 <? net then now else staked_at sa).
Proof.
  unfold deposit_position. cbn. intros Hd. inv_ok. cbn in *.
  split_and!; try done; try lia. unfold accrued_rewards, saturating_add. lia.
Qed.

Lemma deposit_position_widths sa rate net now sa' :
  stake_widths sa -> 0 <= rate -> 0 <= net -> in_i64 now ->
  deposit_position sa rate net now = Ok sa' -> stake_widths sa'.
Proof.
  intros [[] Hb] Hr Hnet Hnow (Ha & Hmax & _ & Hbump & Hrf & Hp & Hs)%deposit_position_Ok.
  pose proof (compute_reward_bounds (amount sa) rate (i64_saturating_sub now (reward_from sa))
    ltac:(unfold_bounds; lia) Hr).
  split; [split|by rewrite Hbump].
  - rewrite Ha. mlia.
  - rewrite Hs. by destruct (0 <? net).
  - by rewrite Hrf.
  - rewrite Hp. unfold accrued_rewards, saturating_add. mlia.
Qed.

Lemma fresh_widths s now : in_i64 now -> stake_widths (fresh_position program_id s now).
Proof. intros. split; [split; cbn; try done; mlia|]. apply pda_bump_range. Qed.

Lemma withdrawn_widths sa claim_only now :
  stake_widths sa -> in_i64 now -> stake_widths (withdrawn_position sa claim_only now).
Proof. intros [[] ?] ?. destruct claim_only; (split; [split|]); cbn; try done; mlia. Qed.

Lemma config_nonneg w c :
  config_at program_id w = Some c -> 0 <= fee_bps c /\ 0 <= reward_rate_bps c.
Proof. intros []%config_at_widths. unfold_bounds. lia. Qed.

(** A transfer the handler makes under a condition. *)
Lemma optional_transfer_Ok (b : bool) s d a n accs w u w' :
  (if b then ix ← lift (token_transfer spl_token_id s d a [] n); cpi ix accs
   else mret tt) w = Ok (u, w') ->
  (if b then tokens_moved w w' s d n else w' = w) /\
  (forall c, config_at program_id w = Some c -> config_at program_id w' = Some c) /\
  (forall x, stake_at program_id w' x = stake_at program_id w x).
Proof.
  intros Hb. destruct b; inv_handler; [|done]. split_and!.
  - by eapply transfer_effect.
  - intros. by eapply transfer_keeps_config.
  - intros. by eapply transfer_keeps_stakes.
Qed.

(** *** Successful deposits *)

Lemma process_stake_Ok accounts n w u w' c :
  config_at program_id w = Some c ->
  process_stake program_id accounts n w = Ok (u, w') ->
  exists staker src now sa sa' wv wt,
    deposit program_id accounts n w w' staker src c now sa sa' wv wt.
Proof.
  intros Hc Hp. unfold process_stake in Hp. inv_handler. use_load Hc. inv_handler.
  match goal with H : require_staker_token _ _ _ _ = Ok _ |- _ =>
    apply require_staker_token_Ok in H as (-> & Hsrc) end.
  match goal with Htp : key _ = spl_token_id |- _ => rewrite Htp in * end.
  match goal with Hv : key _ = vault c |- _ => rewrite Hv in * end.
  match goal with Ht : key _ = treasury c |- _ => rewrite Ht in * end.
  match goal with H : (if _ then _ else _) _ = Ok _ |- _ =>
    apply optional_transfer_Ok in H as (Hfee & Hcfg2 & Hst2) end.
  match goal with H : load_or_create_stake _ _ _ _ _ _ ?t ?w2 = Ok (?s, ?w3) |- _ =>
    rename s into sa, t into now, w2 into wt, w3 into wl;
    apply load_or_create_Ok in H as (Hbefore & Ho & Hsz & Hst3 & Hcfg3 & Htok3);
      [|done] end.
  match goal with H : deposit_position _ _ _ _ = Ok ?s, He : to_vec ?s = Some ?b |- _ =>
    rename s into sa', H into Hpos, b into bytes, He into Henc end.
  match goal with Ht : token_transfer _ _ _ _ _ _ = Ok _, Hi : invoke_signed _ _ _ _ = Ok ?x |- _ =>
    rename x into wv;
    pose proof (transfer_effect _ _ _ _ _ _ _ _ _ Ht Hi) as Hmv;
    pose proof (transfer_keeps_config _ _ _ _ _ _ _ _ _ _ Ht Hi Hc) as Hc1;
    pose proof (fun x => transfer_keeps_stakes _ _ _ _ _ _ _ _ _ x Ht Hi) as Hst1 end.
  match goal with Hk : key _ = (stake_pda _ _).1 |- _ => rewrite Hk in * end.
  pose proof (clock_range _ _ _ ltac:(eassumption)) as Hnow.
  pose proof (config_nonneg _ _ Hc) as [_ Hrate].
  pose proof (deposit_position_Ok _ _ _ _ _ Hpos) as (_ & _ & Hown & _).
  assert (owner sa = key a /\ stake_widths sa) as [Howner Hwid].
  { destruct Hbefore as [Hs|[_ ->]].
    - pose proof (stake_at_widths _ _ _ _ Hs). apply stake_at_Some in Hs as (_ & ? & _). done.
    - split; [done|by apply fresh_widths]. }
  edestruct (write_stake wl (key a) sa' bytes) as (Hs' & Hoth & Htok4); try done.
  - by apply (Hsz sa').
  - eapply deposit_position_widths; [exact Hwid|exact Hrate| |exact Hnow|exact Hpos]. lia.
  - by rewrite Hown.
  - exists (key a), (key a0), now, sa, sa', wv, wt. split; try done.
    + by apply signed_cons.
    + destruct Hbefore as [Hs|[Hs ->]]; [left|right]; by rewrite ?Hst2, ?Hst1 in Hs.
    + intros s Hne. by rewrite Hoth, Hst3, Hst2, Hst1.
    + apply write_keeps_config; [apply stake_pda_not_config|by auto].
    + by eapply same_tokens_trans.
Qed.

(** *** Successful withdrawals and claims *)

Lemma mintable_rewards_Ok c mint_acc rewards w m w' :
  mintable_rewards c mint_acc rewards w = Ok (m, w') ->
  w' = w /\
  ((rewards <= 0 /\ m = 0) \/
   exists ms, mint_at w (key mint_acc) = Some ms /\
              m = Z.min rewards (supply_headroom (supply ms) (max_supply c))).
Proof.
  unfold mintable_rewards. intros Hm.
  destruct (0 <? rewards) eqn:Hr; inv_handler; (split; [done|]).
  - right. eexists. split; [|done]. unfold mint_at. by rewrite decide_True.
  - by left.
Qed.

(** The principal leg of [process_unstake]. *)
Lemma principal_leg_Ok (claim_only : bool) sa delay now vlt dst auth accs seeds w u w' :
  (if claim_only then mret tt else
     reject_when (amount sa =? 0) InsufficientStake ;;
     reject_when (i64_saturating_sub now (staked_at sa) <? delay) CooldownActive ;;
     payout ← lift (token_transfer spl_token_id vlt dst auth [] (amount sa));
     cpi_signed payout accs seeds) w = Ok (u, w') ->
  (if claim_only then w' = w
   else amount sa <> 0 /\ delay <= i64_saturating_sub now (staked_at sa) /\
        tokens_moved w w' vlt dst (amount sa)) /\
  (forall c, config_at program_id w = Some c -> config_at program_id w' = Some c) /\
  (forall x, stake_at program_id w' x = stake_at program_id w x) /\
  (forall k, acc_owner (acct w k) = program_id ->
     data (acct w' k) = data (acct w k) /\ acc_owner (acct w' k) = program_id).
Proof.
  intros Hl. destruct claim_only; inv_handler; [by split_and!|].
  match goal with Ht : token_transfer _ _ _ _ _ _ = Ok _ |- _ => rename Ht into Htr end.
  split_and!; [done|done|by eapply transfer_effect| | |].
  - intros. by eapply transfer_keeps_config.
  - intros. by eapply transfer_keeps_stakes.
  - intros. eapply cpi_keeps_owned; [done| |done].
    rewrite (transfer_program _ _ _ _ _ _ Htr). apply not_eq_sym, not_spl_token.
Qed.

(** The reward leg. *)
Lemma mint_leg_Ok (b : bool) m d a n accs seeds w u w' :
  (if b then ix ← lift (mint_to spl_token_id m d a [] n); cpi_signed ix accs seeds
   else mret tt) w = Ok (u, w') ->
  (if b then tokens_minted w w' m d n else w' = w) /\
  (forall c, config_at program_id w = Some c -> config_at program_id w' = Some c) /\
  (forall x, stake_at program_id w' x = stake_at program_id w x) /\
  (forall k, acc_owner (acct w k) = program_id ->
     data (acct w' k) = data (acct w k) /\ acc_owner (acct w' k) = program_id).
Proof.
  intros Hl. destruct b; inv_handler; [|by split_and!].
  match goal with Ht : mint_to _ _ _ _ _ _ = Ok _ |- _ => rename Ht into Hmt end.
  split_and!; [by eapply mint_to_effect| | |].
  - intros. by eapply mint_to_keeps_config.
  - intros. by eapply mint_to_keeps_stakes.
  - intros. eapply cpi_keeps_owned; [done| |done].
    rewrite (mint_to_program _ _ _ _ _ _ Hmt). apply not_eq_sym, not_spl_token.
Qed.

Lemma process_unstake_Ok accounts claim_only w u w' c :
  config_at program_id w = Some c ->
  process_unstake program_id accounts claim_only w = Ok (u, w') ->
  exists staker dst now sa mintable wp wm,
    withdrawal program_id accounts claim_only w w' staker dst c now sa mintable wp wm.
Proof.
  intros Hc Hp. unfold process_unstake in Hp. inv_handler. use_load Hc. inv_handler.
  match goal with H : require_staker_token _ _ _ _ = Ok _ |- _ =>
    apply require_staker_token_Ok in H as (-> & Hdst) end.
  match goal with Htp : key _ = spl_token_id |- _ => rewrite Htp in * end.
  match goal with Hv : key _ = vault c |- _ => rewrite Hv in * end.
  match goal with H : mintable_rewards _ _ _ ?w1 = Ok (?m, _) |- _ =>
    rename w1 into wp, m into mintable; apply mintable_rewards_Ok in H as (-> & Hmintable) end.
  match goal with Hk : key _ = mint c |- _ => rewrite Hk in * end.
  match goal with Hk : key _ = (stake_pda _ _).1 |- _ => rewrite Hk in * end.
  match goal with Hd : try_from_slice _ = Some ?s, Hl : (if claim_only then _ else _) _ = Ok _ |- _ =>
    rename s into sa, Hd into Hdec;
    apply principal_leg_Ok in Hl as (Hprin & Hcfg1 & Hst1 & Hown1) end.
  match goal with Hl : (if 0 <? _ then _ else _) _ = Ok (_, ?w2) |- _ =>
    rename w2 into wm; apply mint_leg_Ok in Hl as (Hmint & Hcfg2 & Hst2 & Hown2) end.
  match goal with H : clock_unix_timestamp _ _ = Ok ?t |- _ =>
    rename t into now; pose proof (clock_range _ _ _ H) as Hnow end.
  match goal with He : to_vec (withdrawn_position _ _ _) = Some ?b |- _ =>
    rename b into bytes, He into Henc end.
  match goal with Hs : owner sa = key ?a |- _ => rename a into staker, Hs into Howner end.
  match goal with Ho : owned_by _ (stake_pda _ _).1 _ |- _ => rename Ho into Ho0 end.
  assert (stake_at program_id w (key staker) = Some sa) as Hbefore
    by (by apply stake_at_intro).
  destruct (Hown1 _ Ho0) as [Hd1 Ho1]. destruct (Hown2 _ Ho1) as [Hd2 Ho2].
  pose proof (stake_sized_decoded _ _ _ Hdec _ _ Henc) as Hlen.
  rewrite <- Hd1, <- Hd2 in Hlen.
  edestruct (write_stake _ _ _ _ _ Ho2 eq_refl Henc Hlen) as (Hs' & Hoth & Htok).
  - apply withdrawn_widths; [|done]. by eapply stake_at_widths.
  - by destruct claim_only.
  - exists (key staker), (key a0), now, sa, mintable, wp, wm. split; try done.
    + by apply signed_cons.
    + intros s Hne. by rewrite Hoth, Hst2, Hst1.
    + apply write_keeps_config; [apply stake_pda_not_config|by auto].
Qed.
End Frame.

#[export] Hint Resolve transfer_keeps_config mint_to_keeps_config create_keeps_config
  write_keeps_config same_tokens_refl : frame.
