(* ===== verification/StakingGovernance.v ===== *)
(** Governance of the staking program: what every instruction does to the
    stored [Config].  [gov_step] is the abstract specification (who signs,
    what must hold, what changes); the handlers refine it; the invariants of
    the config follow by induction on runs of transactions interleaved with
    the rest of the chain. *)
From stdpp Require Import prelude gmap strings.
From Stdlib Require Import ZArith Lia.
From S2P Require Import Prelude.
From S2P Require Import StakingState.
From S2P Require Import Solana.
From S2P Require Import StakingInstruction.
From S2P Require Import StakingProcessor.
From S2P Require Import StakingLaws.
From S2P Require Import StakingHandlers.

#[local] Open Scope Z_scope.

(** ** The invariant of a config *)

Record params_in_bounds (fee rate timelock : Z) : Prop := {
  pb_fee : fee <= MAX_FEE_BPS;
  pb_rate : rate <= MAX_REWARD_RATE_BPS;
  pb_timelock : 0 <= timelock <= MAX_TIMELOCK_SECS;
}.

Record config_wf (c : Config) : Prop := {
  wf_widths : config_widths c;
  wf_live : params_in_bounds c.(fee_bps) c.(reward_rate_bps) c.(timelock_secs);
  wf_pending : c.(pending).(pp_active) = true ->
    params_in_bounds c.(pending).(pp_fee_bps) c.(pending).(pp_reward_rate_bps)
      c.(pending).(pp_timelock_secs);
  wf_cap : 0 < c.(max_supply);
}.

(** The parameters an update can change. *)
Definition live_params (c : Config) : Z * Z * Z * Z * Z :=
  (c.(fee_bps), c.(reward_rate_bps), c.(min_stake), c.(unstake_delay), c.(timelock_secs)).
Definition queued_params (p : PendingParams) : Z * Z * Z * Z * Z :=
  (p.(pp_fee_bps), p.(pp_reward_rate_bps), p.(pp_min_stake), p.(pp_unstake_delay),
   p.(pp_timelock_secs)).

(** What no instruction changes after [Initialize]. *)
Definition identity (c : Config) : Pubkey * Pubkey * Pubkey * Z * Z * Z * Z :=
  (c.(mint), c.(vault), c.(treasury), c.(decimals), c.(config_bump), c.(mint_bump),
   c.(max_supply)).

(** The queued update of [UpdateParams] at time [now]: [None] keeps the live value. *)
Definition resolve_update (c : Config) (now : Z)
    (fee rate min_s delay timelock : option Z) : PendingParams :=
  {| pp_active := true; pp_queued_at := now;
     pp_fee_bps := default c.(fee_bps) fee;
     pp_reward_rate_bps := default c.(reward_rate_bps) rate;
     pp_min_stake := default c.(min_stake) min_s;
     pp_unstake_delay := default c.(unstake_delay) delay;
     pp_timelock_secs := default c.(timelock_secs) timelock |}.

(** ** The abstract specification

    [gov_step ix s now c c']: instruction [ix], signed by [s] and executed at
    [now], takes config [c] to [c']. *)

Inductive gov_step : StakingInstruction -> Pubkey -> Z -> Config -> Config -> Prop :=
  | gov_stake amount s now c : paused c = false -> gov_step (Stake amount) s now c c
  | gov_unstake s now c : gov_step Unstake s now c c
  | gov_claim s now c : gov_step Claim s now c c
  | gov_metadata name symbol uri now c :
      gov_step (CreateTokenMetadata name symbol uri) c.(admin) now c c
  | gov_queue fee rate min_s delay timelock now c :
      c.(pending).(pp_active) = false ->
      let p := resolve_update c now fee rate min_s delay timelock in
      params_in_bounds p.(pp_fee_bps) p.(pp_reward_rate_bps) p.(pp_timelock_secs) ->
      gov_step (UpdateParams fee rate min_s delay timelock) c.(admin) now c (with_pending c p)
  | gov_apply s now c :
      c.(pending).(pp_active) = true ->
      i64_saturating_add c.(pending).(pp_queued_at) c.(timelock_secs) <= now ->
      gov_step ApplyParams s now c
        (with_pending (with_params c c.(pending)) PendingParams_default)
  | gov_cancel now c :
      c.(pending).(pp_active) = true ->
      gov_step CancelParams c.(admin) now c (with_pending c PendingParams_default)
  | gov_pause now c : gov_step Pause c.(admin) now c (with_paused c true)
  | gov_unpause now c : gov_step Unpause c.(admin) now c (with_paused c false)
  | gov_transfer new_admin now c :
      new_admin <> Pubkey_default ->
      gov_step (TransferAdmin new_admin) c.(admin) now c (with_admins c c.(admin) new_admin)
  | gov_accept now c :
      c.(pending_admin) <> Pubkey_default ->
      gov_step AcceptAdmin c.(pending_admin) now c
        (with_admins c c.(pending_admin) Pubkey_default)
  | gov_genesis amount now c :
      c.(genesis_done) = false -> amount <> 0 ->
      gov_step (GenesisMint amount) c.(admin) now c (with_genesis_done c).

(** [ApplyParams] is the one instruction nobody needs to sign. *)
Definition needs_signer (ix : StakingInstruction) : bool :=
  match ix with ApplyParams => false | _ => true end.

(** The instructions that read the clock. *)
Definition reads_clock (ix : StakingInstruction) : bool :=
  match ix with
  | UpdateParams _ _ _ _ _ | ApplyParams => true
  | _ => false
  end.

(** *** Consequences of one abstract step *)

Lemma gov_step_wf ix s now c c' :
  gov_step ix s now c c' -> instruction_widths ix -> in_i64 now -> config_wf c -> config_wf c'.
Proof.
  intros Hstep Hix Hnow [[] Hlive Hpend Hcap].
  destruct Hstep; try (split; [split; assumption | assumption | assumption | assumption]).
  - (* queue *)
    cbn in Hix. destruct Hix as (? & ? & ? & ? & ?).
    split; [split; try assumption | assumption | by intros _ | assumption]; cbn;
      try assumption; by repeat (match goal with |- context [default _ ?o] => destruct o end; cbn).
  - (* apply *)
    specialize (Hpend ltac:(assumption)).
    split; [split; try assumption; cbn; mlia | assumption | discriminate | assumption].
  - (* cancel *)
    split; [split; try assumption; cbn; mlia | assumption | discriminate | assumption].
Qed.

Lemma gov_step_identity ix s now c c' : gov_step ix s now c c' -> identity c' = identity c.
Proof. by destruct 1. Qed.

Lemma gov_step_genesis_latch ix s now c c' :
  gov_step ix s now c c' -> genesis_done c = true -> genesis_done c' = true.
Proof. by destruct 1. Qed.

(** The live parameters change in one way only. *)
Lemma gov_step_params ix s now c c' :
  gov_step ix s now c c' -> live_params c' <> live_params c ->
  ix = ApplyParams /\ pp_active (pending c) = true /\
  i64_saturating_add (pp_queued_at (pending c)) (timelock_secs c) <= now /\
  live_params c' = queued_params (pending c).
Proof. destruct 1; intros Hne; try (by destruct Hne); by split_and!. Qed.

(** A queued update appears in one way only. *)
Lemma gov_step_pending ix s now c c' :
  gov_step ix s now c c' -> pp_active (pending c') = true ->
  (pending c' = pending c /\ live_params c' = live_params c) \/
  (exists fee rate min_s delay timelock,
     ix = UpdateParams fee rate min_s delay timelock /\ s = admin c /\
     pending c' = resolve_update c now fee rate min_s delay timelock /\
     live_params c' = live_params c).
Proof.
  destruct 1; intros Hact; try (by left); try discriminate Hact.
  right. by exists fee, rate, min_s, delay, timelock.
Qed.

(** The admin key changes hands in one way only. *)
Lemma gov_step_admin ix s now c c' :
  gov_step ix s now c c' -> admin c' <> admin c ->
  ix = AcceptAdmin /\ s = pending_admin c /\ admin c' = s.
Proof. destruct 1; intros Hne; try (by destruct Hne); by split_and!. Qed.

(** ** The handlers refine the specification *)

Section Refinement.
Context `{Sdk, StakingCodec, !SdkLaws} (program_id : Pubkey) `{!ProgramLaws program_id}.
Implicit Types (w : World) (c : Config) (accounts : list AccountInfo).

Definition clock_reads accounts w (now : Z) : Prop :=
  exists a, a ∈ accounts /\ clock_unix_timestamp (key a) (acct w (key a)) = Ok now.

(** What a successful instruction did to the config. *)
Definition governed (ix : StakingInstruction) accounts w w' c : Prop :=
  exists s now c',
    gov_step ix s now c c' /\ config_at program_id w' = Some c' /\
    (needs_signer ix = true -> signed_by accounts s) /\
    (reads_clock ix = true -> clock_reads accounts w now) /\ in_i64 now.

Lemma zero_in_i64 : in_i64 0.
Proof. mlia. Qed.

Lemma config_at_initialized w c : config_at program_id w = Some c -> initialized c = true.
Proof. by intros (_ & ? & _)%config_at_Some. Qed.

Lemma queue_update_governed accounts fee rate min_s delay timelock w u w' c :
  config_at program_id w = Some c -> config_wf c ->
  instruction_widths (UpdateParams fee rate min_s delay timelock) ->
  process_queue_update program_id accounts fee rate min_s delay timelock w = Ok (u, w') ->
  governed (UpdateParams fee rate min_s delay timelock) accounts w w' c.
Proof.
  intros Hc Hwf Hix Hp. unfold process_queue_update in Hp. inv_handler. use_load Hc.
  pose proof (clock_range _ _ _ ltac:(eassumption)) as Hnow.
  match type of Hnow with in_i64 ?t => set (now := t) in * end.
  assert (Hstep : gov_step (UpdateParams fee rate min_s delay timelock) (admin c) now c
    (with_pending c (resolve_update c now fee rate min_s delay timelock))).
  { by constructor. }
  pose proof (gov_step_wf _ _ _ _ _ Hstep Hix Hnow Hwf) as [Hw' _ _ _].
  match goal with H : save_config _ _ _ = Ok _ |- _ =>
    eapply save_config_Ok in H as (Hcfg & _ & _);
      [|eassumption..|exact Hw'|exact (config_at_initialized _ _ Hc)] end.
  eexists _, now, _. split_and!; [exact Hstep|exact Hcfg| | |done].
  - intros _. by apply signed_cons.
  - intros _. eexists. split; [|eassumption]. in_accounts.
Qed.

Lemma apply_update_governed accounts w u w' c :
  config_at program_id w = Some c -> config_wf c ->
  process_apply_update program_id accounts w = Ok (u, w') ->
  governed ApplyParams accounts w w' c.
Proof.
  intros Hc Hwf Hp. unfold process_apply_update in Hp. inv_handler. use_load Hc.
  bool_to_prop.
  pose proof (clock_range _ _ _ ltac:(eassumption)) as Hnow.
  match type of Hnow with in_i64 ?t => set (now := t) in * end.
  assert (Hstep : gov_step ApplyParams 0 now c
    (with_pending (with_params c (pending c)) PendingParams_default)).
  { by constructor. }
  pose proof (gov_step_wf _ _ _ _ _ Hstep I Hnow Hwf) as [Hw' _ _ _].
  match goal with H : save_config _ _ _ = Ok _ |- _ =>
    eapply save_config_Ok in H as (Hcfg & _ & _);
      [|eassumption..|exact Hw'|exact (config_at_initialized _ _ Hc)] end.
  eexists _, now, _. split_and!; [exact Hstep|exact Hcfg| | |done].
  - discriminate.
  - intros _. eexists. split; [|eassumption]. in_accounts.
Qed.

(** The handlers that neither read the clock nor call another program: all
    they do is check, then save [c']. *)
Lemma saved_governed ix accounts a s w u w' c c' :
  config_at program_id w = Some c -> config_wf c -> instruction_widths ix ->
  reads_clock ix = false -> gov_step ix s 0 c c' -> initialized c' = initialized c ->
  key a = (config_pda program_id).1 -> signed_by accounts s ->
  save_config a c' w = Ok (u, w') ->
  governed ix accounts w w' c.
Proof.
  intros Hc Hwf Hix Hclock Hstep Hini Hk Hsig Hs.
  pose proof (gov_step_wf _ _ _ _ _ Hstep Hix zero_in_i64 Hwf) as [Hw' _ _ _].
  eapply save_config_Ok in Hs as (Hcfg & _ & _);
    [|eassumption..|rewrite Hini; exact (config_at_initialized _ _ Hc)].
  eexists _, 0, _. split_and!; [exact Hstep|exact Hcfg|done| |apply zero_in_i64].
  rewrite Hclock. discriminate.
Qed.

Lemma governed_before ix accounts w w1 w' c :
  reads_clock ix = false -> governed ix accounts w1 w' c -> governed ix accounts w w' c.
Proof.
  intros Hr (s & now & c' & ? & ? & ? & _ & ?).
  exists s, now, c'. split_and!; [done..| |done]. rewrite Hr. discriminate.
Qed.

Lemma cancel_update_governed accounts w u w' c :
  config_at program_id w = Some c -> config_wf c ->
  process_cancel_update program_id accounts w = Ok (u, w') ->
  governed CancelParams accounts w w' c.
Proof.
  intros Hc Hwf Hp. unfold process_cancel_update in Hp. inv_handler. use_load Hc.
  bool_to_prop. eapply saved_governed; try eassumption; try done.
  - by constructor.
  - by apply signed_cons.
Qed.

Lemma set_paused_governed accounts b w u w' c :
  config_at program_id w = Some c -> config_wf c ->
  process_set_paused program_id accounts b w = Ok (u, w') ->
  governed (if b then Pause else Unpause) accounts w w' c.
Proof.
  intros Hc Hwf Hp. unfold process_set_paused in Hp. inv_handler. use_load Hc.
  bool_to_prop. eapply saved_governed; try eassumption; destruct b; try done.
  all: by constructor || by apply signed_cons.
Qed.

Lemma transfer_admin_governed accounts new_admin w u w' c :
  config_at program_id w = Some c -> config_wf c ->
  process_transfer_admin program_id accounts new_admin w = Ok (u, w') ->
  governed (TransferAdmin new_admin) accounts w w' c.
Proof.
  intros Hc Hwf Hp. unfold process_transfer_admin in Hp. inv_handler. use_load Hc.
  bool_to_prop. eapply saved_governed; try eassumption; try done.
  - by constructor.
  - by apply signed_cons.
Qed.

Lemma accept_admin_governed accounts w u w' c :
  config_at program_id w = Some c -> config_wf c ->
  process_accept_admin program_id accounts w = Ok (u, w') ->
  governed AcceptAdmin accounts w w' c.
Proof.
  intros Hc Hwf Hp. unfold process_accept_admin in Hp. inv_handler. use_load Hc.
  bool_to_prop. eapply saved_governed; try eassumption; try done.
  - by constructor.
  - by apply signed_cons.
Qed.

Lemma genesis_mint_governed accounts amount w u w' c :
  config_at program_id w = Some c -> config_wf c -> in_u64 amount ->
  process_genesis_mint program_id accounts amount w = Ok (u, w') ->
  governed (GenesisMint amount) accounts w w' c.
Proof.
  intros Hc Hwf Hamt Hp. unfold process_genesis_mint in Hp. inv_handler. use_load Hc.
  bool_to_prop.
  match goal with
  | Hk : key ?tp = spl_token_id, Ht : mint_to (key ?tp) _ _ _ _ _ = Ok _ |- _ =>
      rewrite Hk in Ht; eapply mint_to_keeps_config in Ht as Hc1; [|eassumption..]
  end.
  eapply governed_before; [done|]. eapply saved_governed; try eassumption; try done.
  - by constructor.
  - by apply signed_cons.
Qed.

Lemma stake_governed accounts n w u w' c :
  config_at program_id w = Some c ->
  process_stake program_id accounts n w = Ok (u, w') ->
  governed (Stake n) accounts w w' c.
Proof.
  intros Hc Hp. eapply (process_stake_Ok program_id) in Hp as (s & src & now & sa & sa' & wv & wt & []); [|done].
  exists s, now, c. split_and!; try done. by constructor.
Qed.

Lemma unstake_governed accounts (b : bool) w u w' c :
  config_at program_id w = Some c ->
  process_unstake program_id accounts b w = Ok (u, w') ->
  governed (if b then Claim else Unstake) accounts w w' c.
Proof.
  intros Hc Hp.
  eapply (process_unstake_Ok program_id) in Hp as (s & dst & now & sa & m & wp & wm & []); [|done].
  exists s, now, c. destruct b; split_and!; try done; constructor.
Qed.

Lemma metadata_governed accounts name symbol uri w u w' c :
  config_at program_id w = Some c ->
  process_create_token_metadata program_id accounts name symbol uri w = Ok (u, w') ->
  governed (CreateTokenMetadata name symbol uri) accounts w w' c.
Proof.
  intros Hc Hp. unfold process_create_token_metadata in Hp. inv_handler. use_load Hc.
  bool_to_prop.
  match goal with Hi : invoke_signed _ _ _ _ = Ok _ |- _ =>
    eapply (cpi_keeps_config program_id) in Hi; [|by apply not_eq_sym, not_mpl|eassumption] end.
  exists (admin c), 0, c. split_and!; [constructor|done| |done|apply zero_in_i64].
  intros _. by apply signed_cons.
Qed.

(** An initialized config cannot be initialized again. *)
Lemma initialize_refused accounts fee rate min_s delay dec timelock cap w u w' c :
  config_at program_id w = Some c ->
  process_initialize program_id accounts fee rate min_s delay dec timelock cap w
  = Ok (u, w') -> False.
Proof.
  intros Hc Hp. apply config_at_Some in Hc as (Ho & Hini & Hd).
  unfold process_initialize in Hp. inv_handler.
  match goal with Hk : key _ = (config_pda _).1 |- _ => rewrite !Hk in * end.
  match goal with Hb : (if ?b then _ else _) _ = Ok _ |- _ =>
    replace b with true in Hb; [inv_handler; congruence|] end.
  symmetry. rewrite Ho, Z.eqb_refl. cbn. apply negb_true_iff, Z.eqb_neq.
  intros Hz. apply borsh_canonical, borsh_size_pos in Hd. lia.
Qed.

Lemma process_ix_governed accounts ix w u w' c :
  config_at program_id w = Some c -> config_wf c -> instruction_widths ix ->
  process_ix program_id accounts ix w = Ok (u, w') ->
  governed ix accounts w w' c.
Proof.
  intros Hc Hwf Hix Hp. destruct ix; cbn [process_ix] in Hp.
  - by eapply initialize_refused in Hp.
  - by eapply stake_governed.
  - by apply (unstake_governed _ false _ _ _ _ Hc) in Hp.
  - by apply (unstake_governed _ true _ _ _ _ Hc) in Hp.
  - by eapply queue_update_governed.
  - by eapply apply_update_governed.
  - by eapply cancel_update_governed.
  - by apply (set_paused_governed _ true _ _ _ _ Hc Hwf) in Hp.
  - by apply (set_paused_governed _ false _ _ _ _ Hc Hwf) in Hp.
  - by eapply transfer_admin_governed.
  - by eapply accept_admin_governed.
  - by eapply genesis_mint_governed.
  - by eapply metadata_governed.
Qed.

(** *** Initialization *)

(** What a successful deployment leaves behind. *)
Record deployment accounts (params : Z * Z * Z * Z * Z) (cap : Z) w w' c : Prop := {
  dpl_config : config_at program_id w' = Some c;
  dpl_first : config_at program_id w = None;
  dpl_wf : config_wf c;
  dpl_signed : signed_by accounts (admin c);
  dpl_params : live_params c = params;
  dpl_cap : max_supply c = cap;
  dpl_pending : pending c = PendingParams_default;
  dpl_genesis : genesis_done c = false;
  dpl_open : paused c = false;
  dpl_mint : mint_at w' (mint c) = Some (mkMintState 0);
  dpl_vault : exists t, token_at w' (vault c) = Some t /\ token_mint t = mint c /\
                        token_owner t = (config_pda program_id).1;
  dpl_stakes : (forall s, stake_at program_id w s = None) ->
               forall s, stake_at program_id w' s = None;
}.

Lemma create_foreign_stakes f t l s o accs seeds w w' :
  o <> program_id -> invoke_signed (create_account f t l s o) accs seeds w = Ok w' ->
  (forall x, stake_at program_id w x = None) -> forall x, stake_at program_id w' x = None.
Proof.
  intros Hne (_ & _ & Ho & Hoth)%create_account_effect Hnone x.
  destruct (decide ((stake_pda program_id x).1 = t)) as [Heq|Hk].
  - unfold stake_at. rewrite Heq, decide_False by congruence. done.
  - rewrite <- (Hnone x). by apply stake_at_ext; apply Hoth.
Qed.

Lemma create_config_stakes f l s o accs seeds w w' x :
  invoke_signed (create_account f (config_pda program_id).1 l s o) accs seeds w = Ok w' ->
  stake_at program_id w' x = stake_at program_id w x.
Proof.
  intros (_ & _ & _ & Hoth)%create_account_effect.
  by apply stake_at_ext; apply Hoth, stake_pda_not_config.
Qed.

Lemma initialize_Ok accounts fee rate min_s delay dec timelock cap w u w' :
  instruction_widths (Initialize fee rate min_s delay dec timelock cap) ->
  process_initialize program_id accounts fee rate min_s delay dec timelock cap w
  = Ok (u, w') ->
  exists c, deployment accounts (fee, rate, min_s, delay, timelock) cap w w' c.
Proof.
  intros (? & ? & ? & ? & ? & ? & ?) Hp.
  assert (config_at program_id w = None) as Hnone.
  { destruct (config_at program_id w) eqn:Hc; [|done].
    exfalso. by eapply initialize_refused. }
  unfold process_initialize in Hp. inv_handler.
  match goal with Hb : (if ?b then _ else _) w = Ok (_, ?x) |- _ =>
    assert (x = w) as -> by (destruct b; by inv_handler); clear Hb end.
  (* name the steps *)
  match goal with He : to_vec ?c0 = Some ?b |- _ =>
    set (c := c0) in *; rename b into bytes, He into Henc end.
  match goal with Htp : key _ = spl_token_id |- _ => rewrite Htp in * end.
  match goal with Hk : key _ = (config_pda _).1 |- _ => rewrite Hk in * end.
  match goal with Hv : key _ = get_associated_token_address (config_pda _).1 _ |- _ =>
    rename Hv into Hvault end.
  match goal with Hi : invoke_signed (create_account _ _ _ _ spl_token_id) _ _ _ = Ok ?x |- _ =>
    rename x into w1, Hi into Hi1 end.
  match goal with Hi : initialize_mint2 _ _ _ _ _ = Ok ?ix,
      Hj : invoke_signed ?ix _ _ _ = Ok ?x |- _ =>
    rename x into w2, Hi into Hb2, Hj into Hi2 end.
  match goal with Hi : invoke_signed (create_associated_token_account_idempotent
      _ (config_pda _).1 _ _) _ _ w2 = Ok ?x |- _ => rename x into w3, Hi into Hi3 end.
  match goal with Hi : invoke_signed (create_associated_token_account_idempotent
      _ _ _ _) _ _ w3 = Ok ?x |- _ => rename x into w4, Hi into Hi4 end.
  match goal with Hi : invoke_signed (create_account _ _ _ _ program_id) _ _ w4 = Ok ?x |- _ =>
    rename x into w5, Hi into Hi5 end.
  (* their effects *)
  pose proof (init_mint_effect _ _ _ _ _ _ _ _ _ Hb2 Hi2) as [Hmint2 _].
  pose proof (create_ata_effect _ _ _ _ _ _ _ Hi3) as ((t & Ht & Htm & Hto) & _ & _ & Hmint3).
  pose proof (create_ata_effect _ _ _ _ _ _ _ Hi4) as (_ & _ & Htok4 & Hmint4).
  pose proof (create_same_tokens program_id _ _ _ _ _ _ _ _ Hi5) as [Htok5 Hmint5].
  pose proof (create_account_effect _ _ _ _ _ _ _ _ _ Hi5) as (_ & Hd & Ho & _).
  rewrite Nat2Z.id in Hd.
  pose proof (write_same_tokens program_id (config_pda program_id).1
    (bytes ++ drop (length bytes) (data (acct w5 (config_pda program_id).1))) w5 Ho)
    as [Htok6 Hmint6].
  assert (config_wf c) as Hwf.
  { split; [split| split | discriminate |]; cbn; try done; try apply pda_bump_range; try mlia. }
  exists c. split; try done.
  - erewrite write_same_size; [|done|by rewrite Hd, length_replicate].
    unfold config_at. rewrite acct_insert_eq. cbn. rewrite decide_True by done.
    by rewrite (borsh_roundtrip c bytes (wf_widths _ Hwf) Henc).
  - by apply signed_cons.
  - by rewrite Hmint6, Hmint5, Hmint4, Hmint3.
  - exists t. split_and!; [|done|done]. cbn. rewrite Hvault, Htok6, Htok5. by apply Htok4.
  - intros Hs s.
    rewrite (stake_at_ext program_id w5) by
      (rewrite acct_insert_ne; [done|by apply not_eq_sym, stake_pda_not_config]).
    rewrite (create_config_stakes _ _ _ _ _ _ _ _ _ Hi5).
    rewrite (cpi_keeps_stakes program_id _ _ _ _ _ _ Hi4) by
      (rewrite create_ata_program; tauto).
    rewrite (cpi_keeps_stakes program_id _ _ _ _ _ _ Hi3) by
      (rewrite create_ata_program; tauto).
    rewrite (cpi_keeps_stakes program_id _ _ _ _ _ _ Hi2) by
      (rewrite (init_mint_program _ _ _ _ _ _ Hb2); tauto).
    eapply create_foreign_stakes; [|exact Hi1|done]. by apply not_eq_sym, not_spl_token.
Qed.

(** Without a config, only [Initialize] succeeds. *)
Lemma undeployed_ix accounts ix w u w' :
  config_at program_id w = None -> process_ix program_id accounts ix w = Ok (u, w') ->
  exists fee rate min_s delay dec timelock cap,
    ix = Initialize fee rate min_s delay dec timelock cap.
Proof.
  intros Hn Hp. destruct ix; [by repeat eexists|exfalso..]; cbn [process_ix] in Hp;
    unfold process_stake, process_unstake, process_queue_update, process_apply_update,
      process_cancel_update, process_set_paused, process_transfer_admin,
      process_accept_admin, process_genesis_mint, process_create_token_metadata in Hp;
    inv_handler;
    match goal with H : load_config _ _ _ = Ok _ |- _ =>
      apply load_config_Ok in H as (-> & _ & H); congruence end.
Qed.
End Refinement.
