(* ===== verification/StakingRuns.v ===== *)
(** Runs of the staking program: transactions interleaved with the rest of
    the chain, from deployment on.  The invariants that hold at every
    reachable store: the config is within its bounds, the vault covers every
    set of positions, the mint is within its cap. *)
From stdpp Require Import prelude gmap strings.
From Stdlib Require Import ZArith Lia.
From S2P Require Import Prelude.
From S2P Require Import StakingState.
From S2P Require Import Solana.
From S2P Require Import StakingInstruction.
From S2P Require Import StakingProcessor.
From S2P Require Import StakingLaws.
From S2P Require Import StakingHandlers.
From S2P Require Import StakingGovernance.

#[local] Open Scope Z_scope.

(** One executed transaction: its accounts, its instruction data, the store
    it ran on. *)
Record Event : Type := mkEvent {
  ev_accounts : list AccountInfo;
  ev_data : list Z;
  ev_before : World;
}.

Section Runs.
Context `{Sdk, StakingCodec} (program_id : Pubkey).
Implicit Types (w : World) (c : Config).

(** A PDA has no private key: no transaction carries its signature. *)
Definition pda_silent (accounts : list AccountInfo) : Prop :=
  forall a, a ∈ accounts -> is_signer a = true -> key a <> (config_pda program_id).1.

Definition exec (accounts : list AccountInfo) (bytes : list Z) w w' : Prop :=
  pda_silent accounts /\
  process_instruction program_id accounts bytes w = Ok (tt, w').

(** The token account [k] holds [mint] for the config PDA. *)
Definition vault_held w (k mnt : Pubkey) (n : Z) : Prop :=
  exists t, token_at w k = Some t /\ token_mint t = mnt /\
            token_owner t = (config_pda program_id).1 /\ token_amount t = n.

(** What other programs do between two transactions of this one: they cannot
    touch its accounts; only the config PDA can take tokens out of the vault
    or mint, so the vault can only grow and the supply only shrink. *)
Definition env_step w w' : Prop :=
  config_at program_id w' = config_at program_id w /\
  (forall s, stake_at program_id w' s = stake_at program_id w s) /\
  (forall c, config_at program_id w = Some c ->
     (forall n, vault_held w (vault c) (mint c) n ->
        exists n', n <= n' /\ vault_held w' (vault c) (mint c) n') /\
     (forall m, mint_at w (mint c) = Some m ->
        exists m', mint_at w' (mint c) = Some m' /\ supply m' <= supply m)).

(** Before deployment: no config, no position. *)
Definition undeployed w : Prop :=
  config_at program_id w = None /\ forall s, stake_at program_id w s = None.

(** [run h w]: the store [w] is reached after the events [h], newest first. *)
Inductive run : list Event -> World -> Prop :=
  | run_init accounts bytes w w' :
      undeployed w -> exec accounts bytes w w' ->
      run [mkEvent accounts bytes w] w'
  | run_tx h w accounts bytes w' :
      run h w -> exec accounts bytes w w' ->
      run (mkEvent accounts bytes w :: h) w'
  | run_env h w w' : run h w -> env_step w w' -> run h w'.

(** The principal staked by a set of stakers. *)
Definition total_staked w (stakers : list Pubkey) : Z :=
  foldr (fun s acc => staked_amount program_id w s + acc) 0 stakers.

Definition solvent w c : Prop :=
  exists n, vault_held w (vault c) (mint c) n /\
    forall stakers, NoDup stakers -> total_staked w stakers <= n.

Definition under_cap w c : Prop :=
  exists m, mint_at w (mint c) = Some m /\ supply m <= max_supply c.

(** ** Sums of positions *)

Lemma total_staked_same w w' stakers :
  (forall s, s ∈ stakers -> stake_at program_id w' s = stake_at program_id w s) ->
  total_staked w' stakers = total_staked w stakers.
Proof.
  unfold total_staked. induction stakers as [|s rest IH]; intros Hs; cbn; [done|].
  rewrite IH by (intros; apply Hs; by right).
  unfold staked_amount. by rewrite Hs by left.
Qed.

(** Changing one staker's position changes a sum that contains it by as
    much, and no other. *)
Lemma total_staked_update w w' staker stakers :
  (forall s, s <> staker -> stake_at program_id w' s = stake_at program_id w s) ->
  NoDup stakers ->
  total_staked w' stakers = total_staked w stakers +
    (if decide (staker ∈ stakers)
     then staked_amount program_id w' staker - staked_amount program_id w staker else 0).
Proof.
  intros Hoth. unfold total_staked.
  induction 1 as [|s rest Hni Hnd IH]; cbn; [done|]. rewrite IH.
  destruct (decide (s = staker)) as [->|Hne].
  - rewrite (decide_False (P := staker ∈ rest)), decide_True by (done || by left). lia.
  - assert (staked_amount program_id w' s = staked_amount program_id w s) as ->
      by (unfold staked_amount; by rewrite Hoth).
    assert (staker ∈ s :: rest <-> staker ∈ rest) as Hiff.
    { split; [intros [?|?]%elem_of_cons; congruence || done | by right]. }
    destruct (decide (staker ∈ rest)); [rewrite decide_True by tauto|rewrite decide_False by tauto]; lia.
Qed.

(** A sum over all but one staker, from the sum with that staker added. *)
Lemma total_staked_without w staker stakers n :
  (forall l, NoDup l -> total_staked w l <= n) ->
  NoDup stakers -> staker ∉ stakers ->
  total_staked w stakers <= n - staked_amount program_id w staker.
Proof.
  intros Hall Hnd Hni. pose proof (Hall (staker :: stakers)) as Hc.
  unfold total_staked in *. cbn in Hc.
  specialize (Hc ltac:(by constructor)). lia.
Qed.
End Runs.

(** ** Every instruction keeps the vault solvent and the supply capped *)

Section Preservation.
Context `{Sdk, StakingCodec, !SdkLaws} (program_id : Pubkey) `{!ProgramLaws program_id}.
Implicit Types (w : World) (c : Config).

Lemma vault_moved w w' src dst n k mnt v :
  tokens_moved w w' src dst n -> vault_held program_id w k mnt v -> src <> k ->
  vault_held program_id w' k mnt (v + (if decide (k = dst) then n else 0)).
Proof.
  intros (_ & _ & Ht & _) (t & Hk & ? & ? & ?) Hne. eexists. rewrite Ht, Hk. cbn.
  split_and!; [done|done|done|]. cbn. rewrite (decide_False (P := k = src)) by congruence. lia.
Qed.

Lemma vault_paid w w' dst n k mnt v :
  tokens_moved w w' k dst n -> vault_held program_id w k mnt v -> dst <> k ->
  vault_held program_id w' k mnt (v - n).
Proof.
  intros (_ & _ & Ht & _) (t & Hk & ? & ? & ?) Hne. eexists. rewrite Ht, Hk. cbn.
  split_and!; [done|done|done|]. cbn. rewrite decide_True, decide_False by congruence. lia.
Qed.

Lemma vault_minted w w' m dst n k mnt v :
  tokens_minted w w' m dst n -> vault_held program_id w k mnt v ->
  vault_held program_id w' k mnt (v + (if decide (k = dst) then n else 0)).
Proof.
  intros (_ & _ & Ht) (t & Hk & ? & ? & ?). eexists. rewrite Ht, Hk. cbn.
  split_and!; [done|done|done|]. cbn. lia.
Qed.

Lemma vault_same w w' k mnt v :
  same_tokens w w' -> vault_held program_id w k mnt v -> vault_held program_id w' k mnt v.
Proof. intros [Ht _] (t & Hk & ?). exists t. by rewrite Ht. Qed.

(** The staker's token account is not the vault: the vault's owner, the
    config PDA, never signs. *)
Lemma staker_token_not_vault accounts w k mnt v s x :
  pda_silent program_id accounts -> signed_by accounts s ->
  vault_held program_id w k mnt v ->
  (exists t, token_at w x = Some t /\ token_mint t = mnt /\ token_owner t = s) -> x <> k.
Proof.
  intros Hpda (a & Ha & Hk & Hs) (t & Ht & _ & Ho & _) (t' & Ht' & _ & Ho') ->.
  rewrite Ht in Ht'. injection Ht' as <-. apply (Hpda a Ha Hs). congruence.
Qed.

Lemma deposit_solvent accounts n w w' staker src c now sa sa' wv wt :
  deposit program_id accounts n w w' staker src c now sa sa' wv wt ->
  pda_silent program_id accounts -> solvent program_id w c -> solvent program_id w' c.
Proof.
  intros [] Hpda (v & Hv & Hsum).
  set (fee := compute_fee n (fee_bps c)) in *.
  assert (src <> vault c) as Hne by (by eapply staker_token_not_vault).
  pose proof (vault_moved _ _ _ _ _ _ _ _ dep_net Hv Hne) as Hv1.
  rewrite decide_True in Hv1 by done.
  assert (exists v', v + (n - fee) <= v' /\ vault_held program_id wt (vault c) (mint c) v')
    as (v' & Hle & Hv2).
  { destruct (0 <? fee) eqn:Hf; bool_to_prop; subst.
    - eexists. split; [|by eapply vault_moved]. case_decide; lia.
    - eexists. split; [|done]. lia. }
  exists v'. split; [by eapply vault_same|]. intros l Hl.
  erewrite total_staked_update by done. specialize (Hsum l Hl).
  apply deposit_position_Ok in dep_position as (Ha & _).
  assert (staked_amount program_id w staker = amount sa) as Hb.
  { unfold staked_amount. by destruct dep_before as [->|[-> ->]]. }
  unfold staked_amount in *. rewrite dep_after. case_decide; lia.
Qed.

Lemma withdrawal_solvent accounts b w w' staker dst c now sa m wp wm :
  withdrawal program_id accounts b w w' staker dst c now sa m wp wm ->
  pda_silent program_id accounts -> solvent program_id w c -> solvent program_id w' c.
Proof.
  intros [] Hpda (v & Hv & Hsum).
  assert (dst <> vault c) as Hne by (by eapply staker_token_not_vault).
  assert (staked_amount program_id w staker = amount sa) as Hb
    by (unfold staked_amount; by rewrite wd_before).
  assert (vault_held program_id wp (vault c) (mint c) (v - (if b then 0 else amount sa)))
    as Hv1.
  { destruct b; [subst; by rewrite Z.sub_0_r|].
    destruct wd_principal as (_ & _ & ?). by eapply vault_paid. }
  assert (vault_held program_id wm (vault c) (mint c) (v - (if b then 0 else amount sa)))
    as Hv2.
  { destruct (0 <? m); [|by subst].
    pose proof (vault_minted _ _ _ _ _ _ _ _ wd_minted Hv1) as Hv2.
    by rewrite decide_False, Z.add_0_r in Hv2. }
  eexists. split; [by eapply vault_same|]. intros l Hl.
  erewrite total_staked_update by done.
  assert (staked_amount program_id w' staker = if b then amount sa else 0) as ->
    by (unfold staked_amount; rewrite wd_after; by destruct b).
  specialize (Hsum l Hl) as Hl'. destruct (decide (staker ∈ l)); [destruct b; lia|].
  destruct b; [lia|].
  pose proof (total_staked_without _ _ _ _ _ Hsum Hl ltac:(done)). lia.
Qed.

(** *** Supply *)

Lemma deposit_under_cap accounts n w w' staker src c now sa sa' wv wt :
  deposit program_id accounts n w w' staker src c now sa sa' wv wt ->
  under_cap w c -> under_cap w' c.
Proof.
  intros [] (m & Hm & Hle). exists m. split; [|done].
  destruct dep_tokens as [_ ->]. destruct dep_net as (_ & _ & _ & Hmint).
  destruct (0 <? _); [destruct dep_treasury as (_ & _ & _ & ->)|subst]; by rewrite Hmint.
Qed.

Lemma withdrawal_under_cap accounts b w w' staker dst c now sa m wp wm :
  withdrawal program_id accounts b w w' staker dst c now sa m wp wm ->
  under_cap w c -> under_cap w' c.
Proof.
  intros [] (ms & Hm & Hle).
  assert (mint_at wp (mint c) = Some ms) as Hm1.
  { destruct b; [by subst|]. destruct wd_principal as (_ & _ & _ & _ & _ & Hmint).
    by rewrite Hmint. }
  destruct wd_tokens as [_ Hlast]. unfold under_cap. rewrite Hlast.
  destruct (0 <? m) eqn:Hpos; [|subst; by exists ms].
  bool_to_prop. destruct wd_minted as (_ & Hmint & _). rewrite Hmint, Hm1. cbn.
  eexists. split; [done|]. cbn. rewrite decide_True by done.
  destruct wd_mintable as [[_ ->]|(ms' & Hm' & ->)]; [lia|].
  rewrite Hm1 in Hm'. injection Hm' as <-. unfold supply_headroom, saturating_sub in *. lia.
Qed.

(** *** The handlers that only rewrite the config *)

Definition config_only (ix : StakingInstruction) : bool :=
  match ix with
  | UpdateParams _ _ _ _ _ | ApplyParams | CancelParams | Pause | Unpause
  | TransferAdmin _ | AcceptAdmin => true
  | _ => false
  end.

Lemma save_config_frame a c w u w' :
  key a = (config_pda program_id).1 -> owned_by w (key a) program_id ->
  save_config a c w = Ok (u, w') ->
  same_tokens w w' /\ forall s, stake_at program_id w' s = stake_at program_id w s.
Proof.
  intros Hk Ho Hs. unfold save_config in Hs. inv_handler. split.
  - by apply (write_same_tokens program_id).
  - intros s. apply stake_at_ext; rewrite acct_insert_ne; try done;
      rewrite Hk; by apply not_eq_sym, stake_pda_not_config.
Qed.

Lemma load_config_owner a w c w' :
  load_config program_id a w = Ok (c, w') ->
  w' = w /\ key a = (config_pda program_id).1 /\ owned_by w (key a) program_id.
Proof.
  intros (-> & Hk & (Ho & _ & _)%config_at_Some)%load_config_Ok. by rewrite Hk.
Qed.

Lemma config_only_frame accounts ix w u w' :
  config_only ix = true -> process_ix program_id accounts ix w = Ok (u, w') ->
  same_tokens w w' /\ forall s, stake_at program_id w' s = stake_at program_id w s.
Proof.
  intros Hix Hp.
  destruct ix; try discriminate Hix; cbn [process_ix] in Hp;
    unfold process_queue_update, process_apply_update, process_cancel_update,
      process_set_paused, process_transfer_admin, process_accept_admin in Hp;
    inv_handler;
    match goal with H : load_config _ _ _ = Ok _ |- _ =>
      apply load_config_owner in H as (-> & ? & ?) end;
    by eapply save_config_frame.
Qed.

Lemma metadata_frame accounts name symbol uri w u w' :
  process_create_token_metadata program_id accounts name symbol uri w = Ok (u, w') ->
  same_tokens w w' /\ forall s, stake_at program_id w' s = stake_at program_id w s.
Proof.
  intros Hp. unfold process_create_token_metadata in Hp. inv_handler.
  match goal with H : load_config _ _ _ = Ok _ |- _ =>
    apply load_config_owner in H as (-> & _ & _) end.
  split; [eapply mpl_effect; [|eassumption]; done|].
  intros s. eapply (cpi_keeps_stakes program_id); [eassumption|]. by right; right.
Qed.

(** *** The genesis mint *)

Lemma genesis_Ok accounts n w u w' c :
  config_at program_id w = Some c ->
  process_genesis_mint program_id accounts n w = Ok (u, w') ->
  exists wm dst m, tokens_minted w wm (mint c) dst n /\ same_tokens wm w' /\
    mint_at w (mint c) = Some m /\ supply m + n <= max_supply c /\
    forall s, stake_at program_id w' s = stake_at program_id w s.
Proof.
  intros Hc Hp. unfold process_genesis_mint in Hp. inv_handler. use_load Hc. bool_to_prop.
  match goal with
  | Hk : key ?tp = spl_token_id, Hm : key _ = mint c, Ht : mint_to _ _ _ _ _ _ = Ok _,
    Hi : invoke_signed _ _ _ _ = Ok _ |- _ =>
      rewrite Hk, Hm in Ht; rewrite Hm in *;
      pose proof (mint_to_effect _ _ _ _ _ _ _ _ _ Ht Hi) as Hmt;
      pose proof (mint_to_keeps_config program_id _ _ _ _ _ _ _ _ _ _ Ht Hi Hc) as Hc1;
      pose proof (fun s => mint_to_keeps_stakes program_id _ _ _ _ _ _ _ _ _ s Ht Hi) as Hst
  end.
  apply config_at_Some in Hc1 as (Ho & _ & _).
  match goal with H : save_config ?a _ _ = Ok _ |- _ =>
    apply save_config_frame in H as [Htok Hst'];
      [|done|by match goal with Hk : key a = _ |- _ => rewrite Hk end] end.
  match goal with Hf : fits_under_cap _ _ _ = true |- _ =>
    unfold fits_under_cap in Hf;
    destruct (checked_add _ _ _) eqn:Hadd; [|discriminate];
    apply checked_add_Some in Hadd as [_ ->]; apply Z.leb_le in Hf end.
  eexists _, _, _. split_and!; [done|done| |eassumption|intros s; by rewrite Hst'].
  unfold mint_at. by rewrite decide_True.
Qed.

Lemma frame_solvent w w' c :
  same_tokens w w' -> (forall s, stake_at program_id w' s = stake_at program_id w s) ->
  solvent program_id w c -> solvent program_id w' c.
Proof.
  intros Ht Hst (v & Hv & Hsum). exists v. split; [by eapply vault_same|].
  intros l Hl. rewrite (total_staked_same program_id w) by done. by apply Hsum.
Qed.

Lemma frame_under_cap w w' c : same_tokens w w' -> under_cap w c -> under_cap w' c.
Proof. intros [_ Hm] (m & ? & ?). exists m. by rewrite Hm. Qed.

(** [solvent] and [under_cap] read only the identity of the config. *)
Lemma solvent_identity w c c' :
  identity c' = identity c -> solvent program_id w c -> solvent program_id w c'.
Proof. intros [= Hm Hv _ _ _ _ _]. unfold solvent. by rewrite Hm, Hv. Qed.
Lemma under_cap_identity w c c' :
  identity c' = identity c -> under_cap w c -> under_cap w c'.
Proof. intros [= Hm _ _ _ _ _ Hcap]. unfold under_cap. by rewrite Hm, Hcap. Qed.

(** *** All instructions *)

Lemma process_ix_funds accounts ix w u w' c :
  config_at program_id w = Some c -> instruction_widths ix ->
  pda_silent program_id accounts ->
  process_ix program_id accounts ix w = Ok (u, w') ->
  solvent program_id w c -> under_cap w c ->
  solvent program_id w' c /\ under_cap w' c.
Proof.
  intros Hc Hix Hpda Hp Hsol Hcap.
  destruct (config_only ix) eqn:Hco.
  { apply config_only_frame in Hp as [Ht Hst]; [|done].
    split; [by eapply frame_solvent|by eapply frame_under_cap]. }
  destruct ix; try discriminate Hco; cbn [process_ix] in Hp.
  - exfalso. by eapply initialize_refused.
  - eapply (process_stake_Ok program_id) in Hp as (? & ? & ? & ? & ? & ? & ? & Hd); [|done].
    split; [by eapply deposit_solvent|by eapply deposit_under_cap].
  - eapply (process_unstake_Ok program_id) in Hp as (? & ? & ? & ? & ? & ? & ? & Hd); [|done].
    split; [by eapply withdrawal_solvent|by eapply withdrawal_under_cap].
  - eapply (process_unstake_Ok program_id) in Hp as (? & ? & ? & ? & ? & ? & ? & Hd); [|done].
    split; [by eapply withdrawal_solvent|by eapply withdrawal_under_cap].
  - eapply genesis_Ok in Hp as (wm & dst & m & Hmt & Ht & Hm & Hle & Hst); [|done].
    split.
    + destruct Hsol as (v & Hv & Hsum).
      pose proof (vault_minted _ _ _ _ _ _ _ _ Hmt Hv) as Hv'.
      eexists. split; [by eapply vault_same|]. intros l Hl. specialize (Hsum l Hl).
      rewrite (total_staked_same program_id w) by done.
      cbn in Hix. unfold_bounds. case_decide; lia.
    + eapply frame_under_cap; [done|]. destruct Hmt as (_ & Hmint & _).
      unfold under_cap. rewrite Hmint, Hm. cbn. eexists. split; [done|]. cbn.
      rewrite decide_True by done. lia.
  - apply metadata_frame in Hp as [Ht Hst].
    split; [by eapply frame_solvent|by eapply frame_under_cap].
Qed.
End Preservation.

(** ** The invariants of a run *)

Section Reachable.
Context `{Sdk, StakingCodec, !SdkLaws} (program_id : Pubkey) `{!ProgramLaws program_id}.
Implicit Types (w : World) (c : Config) (e : Event).

Lemma process_instruction_Ok accounts bytes w u w' :
  process_instruction program_id accounts bytes w = Ok (u, w') ->
  exists ix, unpack bytes = Ok ix /\ instruction_widths ix /\
             process_ix program_id accounts ix w = Ok (u, w').
Proof.
  unfold process_instruction. intros Hp. inv_M.
  destruct (unpack bytes) eqn:Hu; try discriminate.
  match goal with H : Ok _ = Ok _ |- _ => injection H as -> | _ => idtac end.
  eexists. split_and!; [done| |done]. unfold unpack in Hu. apply ok_or_Ok in Hu.
  by eapply borsh_decode_wf.
Qed.

Lemma deployment_funds accounts ps cap w w' c :
  deployment program_id accounts ps cap w w' c -> undeployed program_id w ->
  solvent program_id w' c /\ under_cap w' c.
Proof.
  intros [] [_ Hs]. split.
  - destruct dpl_vault as (t & Ht & Hm & Ho). exists (token_amount t).
    split; [by exists t|]. intros l _. unfold total_staked.
    assert (0 <= token_amount t) as Hpos.
    { unfold token_at in Ht. case_decide; [|done]. by apply token_range in Ht as []. }
    induction l as [|s l IH]; cbn; [done|].
    assert (staked_amount program_id w' s = 0) as ->
      by (unfold staked_amount; by rewrite dpl_stakes). lia.
  - exists (mkMintState 0). split; [done|]. cbn. pose proof (wf_cap _ dpl_wf). lia.
Qed.

(** The state invariant. *)
Record invariant w c : Prop := {
  inv_config : config_at program_id w = Some c;
  inv_wf : config_wf c;
  inv_solvent : solvent program_id w c;
  inv_cap : under_cap w c;
}.

(** One transaction from a store that satisfies the invariant. *)
Lemma exec_step accounts bytes w w' c :
  invariant w c -> exec program_id accounts bytes w w' ->
  exists ix s now c',
    unpack bytes = Ok ix /\ gov_step ix s now c c' /\ invariant w' c' /\
    (needs_signer ix = true -> signed_by accounts s) /\
    (reads_clock ix = true -> clock_reads accounts w now).
Proof.
  intros [Hc Hwf Hsol Hcap] [Hpda Hp].
  apply process_instruction_Ok in Hp as (ix & Hu & Hix & Hp).
  pose proof (process_ix_funds program_id _ _ _ _ _ _ Hc Hix Hpda Hp Hsol Hcap) as [Hsol' Hcap'].
  eapply (process_ix_governed program_id) in Hp as (s & now & c' & Hstep & Hc' & ? & ? & ?);
    [|eassumption..].
  pose proof (gov_step_identity _ _ _ _ _ Hstep) as Hid.
  exists ix, s, now, c'. split_and!; [done|done|split|done|done].
  - done.
  - by eapply gov_step_wf.
  - by eapply solvent_identity.
  - by eapply under_cap_identity.
Qed.

(** The first transaction of a run deploys. *)
Lemma exec_deploy accounts bytes w w' :
  undeployed program_id w -> exec program_id accounts bytes w w' ->
  exists fee rate min_s delay dec timelock cap c,
    unpack bytes = Ok (Initialize fee rate min_s delay dec timelock cap) /\
    invariant w' c /\ pp_active (pending c) = false /\ genesis_done c = false.
Proof.
  intros Hun [Hpda Hp].
  apply process_instruction_Ok in Hp as (ix & Hu & Hix & Hp).
  pose proof (undeployed_ix program_id _ _ _ _ _ (proj1 Hun) Hp)
    as (fee & rate & min_s & delay & dec & timelock & cap & ->).
  apply initialize_Ok in Hp as (c & Hd); [|done|done].
  pose proof (deployment_funds _ _ _ _ _ _ Hd Hun) as [? ?]. destruct Hd.
  exists fee, rate, min_s, delay, dec, timelock, cap, c.
  split_and!; [done|by split|by rewrite dpl_pending|done].
Qed.

(** The rest of the chain preserves the invariant. *)
Lemma env_invariant w w' c : invariant w c -> env_step program_id w w' -> invariant w' c.
Proof.
  intros [Hc Hwf (v & Hv & Hsum) (m & Hm & Hle)] (Hc' & Hs & Henv).
  destruct (Henv c Hc) as [Hvault Hmint].
  destruct (Hvault _ Hv) as (v' & Hvle & Hv'). destruct (Hmint _ Hm) as (m' & Hm' & ?).
  split; [by rewrite Hc'|done| |].
  - exists v'. split; [done|]. intros l Hl.
    rewrite (total_staked_same program_id w) by done. specialize (Hsum l Hl). lia.
  - exists m'. split; [done|lia].
Qed.

Lemma env_step_config w w' c :
  env_step program_id w w' -> config_at program_id w' = Some c ->
  config_at program_id w = Some c.
Proof. by intros (-> & _). Qed.

Lemma run_invariant h w : run program_id h w -> exists c, invariant w c.
Proof.
  induction 1 as [accounts bytes w w' Hun He|h w accounts bytes w' Hr [c Hc] He
                 |h w w' Hr [c Hc] He].
  - destruct (exec_deploy _ _ _ _ Hun He) as (? & ? & ? & ? & ? & ? & ? & c & _ & ? & _).
    by exists c.
  - destruct (exec_step _ _ _ _ _ Hc He) as (? & ? & ? & c' & ? & ? & ? & _). by exists c'.
  - exists c. by eapply env_invariant.
Qed.

Lemma run_invariant_at h w c :
  run program_id h w -> config_at program_id w = Some c -> invariant w c.
Proof.
  intros Hr Hc. destruct (run_invariant _ _ Hr) as [c' Hi].
  pose proof (inv_config _ _ Hi). by simplify_eq.
Qed.

(** *** The history invariant *)

(** Event [e] queued the update now pending in [c]. *)
Definition queued_by e c : Prop :=
  exists cq fee rate min_s delay timelock now,
    config_at program_id (ev_before e) = Some cq /\
    unpack (ev_data e) = Ok (UpdateParams fee rate min_s delay timelock) /\
    signed_by (ev_accounts e) (admin cq) /\
    clock_reads (ev_accounts e) (ev_before e) now /\
    pending c = resolve_update cq now fee rate min_s delay timelock /\
    live_params c = live_params cq.

Definition is_genesis e : bool :=
  match unpack (ev_data e) with
  | Ok (GenesisMint _) => true
  | _ => false
  end.

Record history_invariant (h : list Event) c : Prop := {
  hi_pending : pp_active (pending c) = true -> exists e, e ∈ h /\ queued_by e c;
  hi_identity : forall e c0, e ∈ h -> config_at program_id (ev_before e) = Some c0 ->
                  identity c0 = identity c;
  hi_genesis : length (filter (fun e => is_genesis e = true) h)
               = if genesis_done c then 1%nat else 0%nat;
}.

Lemma gov_step_genesis ix s now c c' :
  gov_step ix s now c c' ->
  (exists n, ix = GenesisMint n /\ genesis_done c = false /\ genesis_done c' = true) \/
  ((forall n, ix <> GenesisMint n) /\ genesis_done c' = genesis_done c).
Proof. destruct 1; try (by right); left; by eexists. Qed.

Lemma history_step h c e ix s now c' :
  history_invariant h c -> config_at program_id (ev_before e) = Some c ->
  unpack (ev_data e) = Ok ix -> gov_step ix s now c c' ->
  (needs_signer ix = true -> signed_by (ev_accounts e) s) ->
  (reads_clock ix = true -> clock_reads (ev_accounts e) (ev_before e) now) ->
  history_invariant (e :: h) c'.
Proof.
  intros [Hp Hid Hg] Hc Hu Hstep Hsig Hclk. split.
  - intros Hact. destruct (gov_step_pending _ _ _ _ _ Hstep Hact) as [[Heq Hlive]|Hq].
    + rewrite Heq in Hact. destruct (Hp Hact) as (e' & He' & cq & fee & rate & min_s & delay
        & timelock & nowq & ? & ? & ? & ? & Hpq & Hlq).
      exists e'. split; [by right|]. exists cq, fee, rate, min_s, delay, timelock, nowq.
      split_and!; [done..|congruence|congruence].
    + destruct Hq as (fee & rate & min_s & delay & timelock & -> & -> & Hpq & Hlq).
      exists e. split; [by left|]. exists c, fee, rate, min_s, delay, timelock, now.
      split_and!; [done|done|by apply Hsig|by apply Hclk|done|done].
  - pose proof (gov_step_identity _ _ _ _ _ Hstep) as Hid'.
    intros e' c0 [->|He']%elem_of_cons Hc0; [congruence|].
    rewrite Hid'. by eapply Hid.
  - rewrite filter_cons.
    destruct (gov_step_genesis _ _ _ _ _ Hstep) as [(n & -> & Hf & ->)|[Hne ->]].
    + rewrite decide_True by (unfold is_genesis; by rewrite Hu). cbn. by rewrite Hg, Hf.
    + rewrite decide_False; [done|]. unfold is_genesis. rewrite Hu.
      destruct ix; try done. by destruct (Hne amount).
Qed.

Lemma run_history h w c :
  run program_id h w -> config_at program_id w = Some c -> history_invariant h c.
Proof.
  intros Hr. revert c.
  induction Hr as [accounts bytes w w' Hun He|h w accounts bytes w' Hr IH He
                  |h w w' Hr IH He]; intros c Hc.
  - destruct (exec_deploy _ _ _ _ Hun He)
      as (? & ? & ? & ? & ? & ? & ? & c' & Hu & Hi & Hpend & Hgen).
    pose proof (inv_config _ _ Hi). simplify_eq. split.
    + congruence.
    + intros e c0 [->|He0]%elem_of_cons Hc0; [|by apply elem_of_nil in He0].
      destruct Hun as [Hnone _]. cbn in Hc0. congruence.
    + rewrite filter_cons, decide_False; [by rewrite Hgen|].
      unfold is_genesis. cbn. by rewrite Hu.
  - destruct (run_invariant _ _ Hr) as [c0 Hi0].
    destruct (exec_step _ _ _ _ _ Hi0 He) as (ix & s & now & c' & Hu & Hstep & Hi & Hsig & Hclk).
    pose proof (inv_config _ _ Hi). simplify_eq.
    eapply history_step; [apply IH; apply Hi0|apply Hi0|done..].
  - apply IH. by eapply env_step_config.
Qed.
End Reachable.
