(* ===== verification/StakingModel.v ===== *)
(** A concrete runtime on which the staking theorems are exercised: cells for
    bytes, injective addresses, and a small system, token, associated-token
    and metadata program.  It satisfies [SdkLaws] and [ProgramLaws], so the
    hypotheses of the staking theorems can hold, and the handlers evaluate on
    it. *)
From stdpp Require Import prelude gmap strings countable.
From Stdlib Require Import ZArith Lia.
From S2P Require Import Prelude.
From S2P Require Import StakingState.
From S2P Require Import Solana.
From S2P Require Import StakingInstruction.
From S2P Require Import StakingProcessor.
From S2P Require Import StakingLaws.

#[local] Open Scope Z_scope.

(** ** Codecs: one cell per field *)

Definition bool_cell (b : bool) : Z := if b then 1 else 0.
Definition cell_bool (z : Z) : bool := negb (z =? 0).
Definition string_cell (s : string) : Z := Z.pos (encode s).
Definition cell_string (z : Z) : string := default EmptyString (decode (Z.to_pos z)).

Definition in_range (lo hi z : Z) : bool := (lo <=? z) && (z <=? hi).

Definition config_cells (c : Config) : list Z :=
  [bool_cell (initialized c); admin c; mint c; vault c; treasury c; fee_bps c;
   reward_rate_bps c; min_stake c; unstake_delay c; decimals c; config_bump c; mint_bump c;
   bool_cell (paused c); pending_admin c; timelock_secs c; bool_cell (pp_active (pending c));
   pp_queued_at (pending c); pp_fee_bps (pending c); pp_reward_rate_bps (pending c);
   pp_min_stake (pending c); pp_unstake_delay (pending c); pp_timelock_secs (pending c);
   bool_cell (genesis_done c); max_supply c].

Definition config_parse (b : list Z) : option Config :=
  match b with
  | [i; ad; m; v; t; fee; rate; mins; delay; dec; cb; mb; p; pa; tl; act; qa; pf; pr; pm; pd;
     pt; g; cap] =>
      Some (mkConfig (cell_bool i) ad m v t fee rate mins delay dec cb mb (cell_bool p) pa tl
              (mkPendingParams (cell_bool act) qa pf pr pm pd pt) (cell_bool g) cap)
  | _ => None
  end.

Definition config_ranges (c : Config) : bool :=
  in_range 0 u16_max (fee_bps c) && in_range 0 u64_max (reward_rate_bps c) &&
  in_range 0 u64_max (min_stake c) && in_range i64_min i64_max (unstake_delay c) &&
  in_range 0 u8_max (decimals c) && in_range 0 u8_max (config_bump c) &&
  in_range 0 u8_max (mint_bump c) && in_range i64_min i64_max (timelock_secs c) &&
  in_range 0 u64_max (max_supply c) && in_range i64_min i64_max (pp_queued_at (pending c)) &&
  in_range 0 u16_max (pp_fee_bps (pending c)) &&
  in_range 0 u64_max (pp_reward_rate_bps (pending c)) &&
  in_range 0 u64_max (pp_min_stake (pending c)) &&
  in_range i64_min i64_max (pp_unstake_delay (pending c)) &&
  in_range i64_min i64_max (pp_timelock_secs (pending c)).

Definition stake_cells (sa : StakeAccount) : list Z :=
  [owner sa; amount sa; staked_at sa; reward_from sa; pending_rewards sa; bump sa].

Definition stake_parse (b : list Z) : option StakeAccount :=
  match b with
  | [o; a; s; r; p; bm] => Some (mkStakeAccount o a s r p bm)
  | _ => None
  end.

Definition stake_ranges (sa : StakeAccount) : bool :=
  in_range 0 u64_max (amount sa) && in_range i64_min i64_max (staked_at sa) &&
  in_range i64_min i64_max (reward_from sa) && in_range 0 u64_max (pending_rewards sa) &&
  in_range 0 u8_max (bump sa).

Definition option_cells (o : option Z) : list Z :=
  match o with Some z => [1; z] | None => [0; 0] end.
Definition cell_option (t z : Z) : option Z := if t =? 0 then None else Some z.

Definition instruction_cells (ix : StakingInstruction) : list Z :=
  match ix with
  | Initialize fee rate mins delay dec tl cap => [0; fee; rate; mins; delay; dec; tl; cap]
  | Stake a => [1; a]
  | Unstake => [2]
  | Claim => [3]
  | UpdateParams fee rate mins delay tl =>
      4 :: option_cells fee ++ option_cells rate ++ option_cells mins ++ option_cells delay
        ++ option_cells tl
  | ApplyParams => [5]
  | CancelParams => [6]
  | Pause => [7]
  | Unpause => [8]
  | TransferAdmin k => [9; k]
  | AcceptAdmin => [10]
  | GenesisMint a => [11; a]
  | CreateTokenMetadata n s u => [12; string_cell n; string_cell s; string_cell u]
  end.

Definition instruction_parse (b : list Z) : option StakingInstruction :=
  match b with
  | [0; fee; rate; mins; delay; dec; tl; cap] =>
      Some (Initialize fee rate mins delay dec tl cap)
  | [1; a] => Some (Stake a)
  | [2] => Some Unstake
  | [3] => Some Claim
  | [4; t1; v1; t2; v2; t3; v3; t4; v4; t5; v5] =>
      Some (UpdateParams (cell_option t1 v1) (cell_option t2 v2) (cell_option t3 v3)
              (cell_option t4 v4) (cell_option t5 v5))
  | [5] => Some ApplyParams
  | [6] => Some CancelParams
  | [7] => Some Pause
  | [8] => Some Unpause
  | [9; k] => Some (TransferAdmin k)
  | [10] => Some AcceptAdmin
  | [11; a] => Some (GenesisMint a)
  | [12; n; s; u] => Some (CreateTokenMetadata (cell_string n) (cell_string s) (cell_string u))
  | _ => None
  end.

Definition option_range (lo hi : Z) (o : option Z) : bool :=
  match o with Some z => in_range lo hi z | None => true end.

Definition instruction_ranges (ix : StakingInstruction) : bool :=
  match ix with
  | Initialize fee rate mins delay dec tl cap =>
      in_range 0 u16_max fee && in_range 0 u64_max rate && in_range 0 u64_max mins &&
      in_range i64_min i64_max delay && in_range 0 u8_max dec && in_range i64_min i64_max tl &&
      in_range 0 u64_max cap
  | Stake a | GenesisMint a => in_range 0 u64_max a
  | UpdateParams fee rate mins delay tl =>
      option_range 0 u16_max fee && option_range 0 u64_max rate &&
      option_range 0 u64_max mins && option_range i64_min i64_max delay &&
      option_range i64_min i64_max tl
  | _ => true
  end.

(** A codec from cells, a parser and a range check: it decodes exactly the
    encodings of values in range. *)
Definition cell_codec {A} (cells : A -> list Z) (parse : list Z -> option A)
    (ranges : A -> bool) : Borsh A :=
  {| to_vec a := if ranges a then Some (cells a) else None;
     try_from_slice b :=
       match parse b with
       | Some a => if ranges a && bool_decide (cells a = b) then Some a else None
       | None => None
       end |}.

#[local] Instance borsh_config_cells : Borsh Config :=
  cell_codec config_cells config_parse config_ranges.
#[local] Instance borsh_stake_cells : Borsh StakeAccount :=
  cell_codec stake_cells stake_parse stake_ranges.
#[export] Instance cell_instruction_codec : StakingCodec :=
  cell_codec instruction_cells instruction_parse instruction_ranges.

(** ** Addresses *)

Definition model_system_id : Pubkey := 0.
Definition model_token_id : Pubkey := 101.
Definition model_ata_id : Pubkey := 103.
Definition model_clock_id : Pubkey := 105.
Definition model_rent_id : Pubkey := 107.
Definition model_program_id : Pubkey := 109.

(** Stake addresses are even; every other address of the model is odd. *)
Definition model_find_program_address (seeds : list (list Z)) (_ : Pubkey) : Pubkey * Z :=
  match seeds with
  | [_; [k]] => (2 * k, 255)
  | [_] => (1, 254)
  | _ => (3, 253)
  end.

Definition model_ata (wallet mnt : Pubkey) : Pubkey := 2 * (wallet * 1000 + mnt) + 1000001.

(** ** The called programs *)

Definition token_parse (b : list Z) : option TokenAccount :=
  match b with
  | [m; o; a] => if in_range 0 u64_max a then Some (mkTokenAccount m o a) else None
  | _ => None
  end.
Definition mint_parse (b : list Z) : option MintState :=
  match b with
  | [1; s] => if in_range 0 u64_max s then Some (mkMintState s) else None
  | _ => None
  end.

Definition model_acct (w : World) (k : Pubkey) : Account :=
  default (mkAccount 0 [] model_system_id) (w !! k).
Definition set_data (w : World) (k : Pubkey) (cells : list Z) : World :=
  let a := model_acct w k in <[k := mkAccount (lamports a) cells (acc_owner a)]> w.
Definition model_token_at (w : World) (k : Pubkey) : option TokenAccount :=
  let a := model_acct w k in if acc_owner a =? model_token_id then token_parse (data a) else None.
Definition model_mint_at (w : World) (k : Pubkey) : option MintState :=
  let a := model_acct w k in if acc_owner a =? model_token_id then mint_parse (data a) else None.
Definition set_balance (w : World) (k : Pubkey) (t : TokenAccount) (a : Z) : World :=
  set_data w k [token_mint t; token_owner t; a].

Definition do_create (f t l s o : Z) (w : World) : outcome ProgramError World :=
  let af := model_acct w f in
  let at_ := model_acct w t in
  if (acc_owner at_ =? model_system_id) && (Z.of_nat (length (data at_)) =? 0) && negb (f =? t)
     && (l <=? lamports af)
  then Ok (<[t := mkAccount (lamports at_ + l) (replicate (Z.to_nat s) 0) o]>
           (<[f := mkAccount (lamports af - l) (data af) (acc_owner af)]> w))
  else Err (SdkError 1).

Definition do_transfer (s d n : Z) (w : World) : outcome ProgramError World :=
  match model_token_at w s with
  | Some ts =>
      if in_range 0 (token_amount ts) n then
        let w1 := set_balance w s ts (token_amount ts - n) in
        match model_token_at w1 d with
        | Some td =>
            if token_amount td + n <=? u64_max
            then Ok (set_balance w1 d td (token_amount td + n)) else Err (SdkError 2)
        | None => Err (SdkError 3)
        end
      else Err (SdkError 1)
  | None => Err (SdkError 3)
  end.

Definition do_mint (m d n : Z) (w : World) : outcome ProgramError World :=
  match model_mint_at w m, model_token_at w d with
  | Some ms, Some td =>
      if (0 <=? n) && (supply ms + n <=? u64_max) && (token_amount td + n <=? u64_max)
      then Ok (set_balance (set_data w m [1; supply ms + n]) d td (token_amount td + n))
      else Err (SdkError 2)
  | _, _ => Err (SdkError 3)
  end.

Definition do_init_mint (m : Z) (w : World) : outcome ProgramError World :=
  let a := model_acct w m in
  if (acc_owner a =? model_token_id) && bool_decide (data a = [0; 0])
  then Ok (set_data w m [1; 0]) else Err (SdkError 4).

Definition do_create_ata (wl m : Z) (w : World) : outcome ProgramError World :=
  let k := model_ata wl m in
  match model_token_at w k with
  | Some t =>
      if (token_mint t =? m) && (token_owner t =? wl) then Ok w else Err (SdkError 5)
  | None =>
      let a := model_acct w k in
      if (acc_owner a =? model_system_id) && (Z.of_nat (length (data a)) =? 0)
      then Ok (<[k := mkAccount (lamports a) [m; wl; 0] model_token_id]> w)
      else Err (SdkError 5)
  end.

(** The metadata program claims its empty account and stores the fields. *)
Definition do_metadata (k : Pubkey) (fields : list Z) (w : World) : outcome ProgramError World :=
  let a := model_acct w k in
  if (acc_owner a =? model_system_id) && (Z.of_nat (length (data a)) =? 0)
  then Ok (<[k := mkAccount (lamports a) fields TOKEN_METADATA_PROGRAM_ID]> w)
  else Err (SdkError 6).

Definition model_invoke (ix : Instruction) (_ : list AccountInfo) (_ : list (list (list Z)))
    (w : World) : outcome ProgramError World :=
  let p := ix_program_id ix in
  let ks := map meta_pubkey (ix_accounts ix) in
  if p =? model_system_id then
    match ks, ix_data ix with
    | [f; t], [l; s; o] => do_create f t l s o w
    | _, _ => Err (SdkError 0)
    end
  else if p =? model_token_id then
    match ks, ix_data ix with
    | [s; d], [3; n] => do_transfer s d n w
    | [m; d], [7; n] => do_mint m d n w
    | [m], [20] => do_init_mint m w
    | _, _ => Err (SdkError 0)
    end
  else if p =? model_ata_id then
    match ks with
    | [wl; m] => do_create_ata wl m w
    | _ => Err (SdkError 0)
    end
  else if p =? TOKEN_METADATA_PROGRAM_ID then
    match ks with
    | k :: _ => do_metadata k (ix_data ix) w
    | [] => Err (SdkError 0)
    end
  else Err (SdkError 0).

Definition call (p : Pubkey) (ks : list Pubkey) (d : list Z) : Instruction :=
  mkInstruction p (map (fun k => meta_new k false) ks) d.

Definition model_clock (k : Pubkey) (a : Account) : outcome ProgramError Z :=
  if k =? model_clock_id then
    match data a with
    | [t] => if in_range i64_min i64_max t then Ok t else Err (SdkError 7)
    | _ => Err (SdkError 7)
    end
  else Err (SdkError 7).

#[export] Instance model_sdk : Sdk := {|
  Rent := unit;
  spl_token_id := model_token_id;
  spl_associated_token_account_id := model_ata_id;
  system_program_id := model_system_id;
  sysvar_clock_id := model_clock_id;
  sysvar_rent_id := model_rent_id;
  pubkey_bytes k := [k];
  find_program_address := model_find_program_address;
  get_associated_token_address := model_ata;
  rent_from_account_info k _ := if k =? model_rent_id then Ok tt else Err (SdkError 8);
  rent_get := Ok tt;
  minimum_balance _ n := n;
  clock_unix_timestamp := model_clock;
  Mint_packed_len := 2;
  Mint_unpack := mint_parse;
  TokenAccount_unpack := token_parse;
  create_account f t l s o := call model_system_id [f; t] [l; s; o];
  initialize_mint2 p m _ _ _ := Ok (call p [m] [20]);
  create_associated_token_account_idempotent _ wl m _ := call model_ata_id [wl; m] [];
  token_transfer p s d _ _ n := Ok (call p [s; d] [3; n]);
  mint_to p m d _ _ n := Ok (call p [m; d] [7; n]);
  invoke_signed := model_invoke;
  borsh_Config := borsh_config_cells;
  borsh_StakeAccount := borsh_stake_cells;
|}.

(** ** The laws *)

Lemma in_range_iff lo hi z : in_range lo hi z = true <-> lo <= z <= hi.
Proof. unfold in_range. lia. Qed.

Lemma cell_codec_laws {A} (cells : A -> list Z) parse ranges (wf : A -> Prop) :
  (forall a, ranges a = true <-> wf a) -> (forall a, parse (cells a) = Some a) ->
  @BorshLaws A (cell_codec cells parse ranges) wf.
Proof.
  intros Hr Hp. split; cbn.
  - intros b a. destruct (parse b); [|done]. destruct (ranges a0) eqn:?; [|done]. cbn.
    case_bool_decide; [|done]. intros [= <-]. by apply Hr.
  - intros a ->%Hr. by eexists.
  - intros a b Hwf. apply Hr in Hwf as Hw. rewrite Hw. intros [= <-].
    by rewrite Hp, Hw, bool_decide_true.
  - intros b a. destruct (parse b); [|done]. destruct (ranges a0) eqn:Hw; [|done]. cbn.
    case_bool_decide; [|done]. intros [= <-]. by rewrite Hw, H.
Qed.

Lemma cell_codec_sized {A} (cells : A -> list Z) parse ranges n :
  (forall a, length (cells a) = S n) -> @BorshSized A (cell_codec cells parse ranges).
Proof.
  intros Hl. split; cbn.
  - intros a b a' b'. destruct (ranges a), (ranges a'); intros; simplify_eq. by rewrite !Hl.
  - intros a b. destruct (ranges a); intros; simplify_eq. rewrite Hl. lia.
Qed.

Lemma cell_bool_cell b : cell_bool (bool_cell b) = b.
Proof. by destruct b. Qed.
Lemma cell_string_cell s : cell_string (string_cell s) = s.
Proof. unfold cell_string, string_cell. cbn [Z.to_pos]. by rewrite decode_encode. Qed.

Lemma option_range_iff lo hi o :
  option_range lo hi o = true <-> match o with Some z => lo <= z <= hi | None => True end.
Proof. destruct o; cbn; [apply in_range_iff|done]. Qed.

#[export] Instance model_config_laws : BorshLaws Config config_widths.
Proof.
  apply cell_codec_laws.
  - intros c. unfold config_ranges. rewrite !andb_true_iff, !in_range_iff.
    split; [intros ?; split; unfold_bounds; tauto | intros []; unfold_bounds; tauto].
  - intros [i ? ? ? ? ? ? ? ? ? ? ? p ? ? [act ? ? ? ? ? ?] g ?]. cbn.
    by rewrite !cell_bool_cell.
Qed.

#[export] Instance model_stake_laws : BorshLaws StakeAccount stake_widths.
Proof.
  apply cell_codec_laws; [|by intros []].
  intros sa. unfold stake_ranges. rewrite !andb_true_iff, !in_range_iff.
  split; [intros ?; split; [split|]; unfold_bounds; tauto | intros [[] ?]; unfold_bounds; tauto].
Qed.

#[export] Instance model_instruction_laws : BorshLaws StakingInstruction instruction_widths.
Proof.
  apply cell_codec_laws.
  - intros ix. destruct ix; cbn; try done;
      rewrite ?andb_true_iff, ?option_range_iff, ?in_range_iff; try done;
      unfold in_u16, in_u64, in_i64, in_u8; tauto.
  - intros ix. destruct ix; cbn; rewrite ?cell_string_cell; try done.
    by repeat match goal with o : option Z |- _ => destruct o; cbn end.
Qed.

Lemma model_token_at_eq w k : token_at w k = model_token_at w k.
Proof.
  unfold token_at, model_token_at. change (acct w k) with (model_acct w k). cbn.
  case_decide; destruct (Z.eqb_spec (acc_owner (model_acct w k)) model_token_id); done.
Qed.
Lemma model_mint_at_eq w k : mint_at w k = model_mint_at w k.
Proof.
  unfold mint_at, model_mint_at. change (acct w k) with (model_acct w k). cbn.
  case_decide; destruct (Z.eqb_spec (acc_owner (model_acct w k)) model_token_id); done.
Qed.

Lemma model_acct_insert w k a k' :
  model_acct (<[k := a]> w) k' = if decide (k' = k) then a else model_acct w k'.
Proof.
  unfold model_acct. case_decide as Hk; [subst; by rewrite lookup_insert_eq|].
  by rewrite lookup_insert_ne.
Qed.

Lemma token_parse_cells t :
  in_u64 (token_amount t) -> token_parse [token_mint t; token_owner t; token_amount t] = Some t.
Proof. intros Ha. cbn. apply in_range_iff in Ha. rewrite Ha. by destruct t. Qed.
Lemma token_parse_range b t : token_parse b = Some t -> in_u64 (token_amount t).
Proof.
  destruct b as [|m [|o [|a [|]]]]; cbn; try done.
  destruct (in_range 0 u64_max a) eqn:Ha; [|done]. intros [= <-]. by apply in_range_iff.
Qed.
Lemma mint_parse_range b m : mint_parse b = Some m -> in_u64 (supply m).
Proof.
  destruct b as [|[|[]|] [|o [|]]]; cbn; try done.
  destruct (in_range 0 u64_max o) eqn:Ha; [|done]. intros [= <-]. by apply in_range_iff.
Qed.
Lemma token_not_mint b t : token_parse b = Some t -> mint_parse b = None.
Proof. by destruct b as [|[|[]|] [|o [|a [|]]]]. Qed.
Lemma mint_not_token b m : mint_parse b = Some m -> token_parse b = None.
Proof. by destruct b as [|[|[]|] [|o [|a [|]]]]. Qed.

Lemma model_token_at_Some w k t :
  model_token_at w k = Some t ->
  acc_owner (model_acct w k) = model_token_id /\ token_parse (data (model_acct w k)) = Some t.
Proof.
  unfold model_token_at. cbn. destruct (Z.eqb_spec (acc_owner (model_acct w k)) model_token_id); done.
Qed.
Lemma model_mint_at_Some w k m :
  model_mint_at w k = Some m ->
  acc_owner (model_acct w k) = model_token_id /\ mint_parse (data (model_acct w k)) = Some m.
Proof.
  unfold model_mint_at. cbn. destruct (Z.eqb_spec (acc_owner (model_acct w k)) model_token_id); done.
Qed.

(** Setting the balance of a token account. *)
Lemma set_balance_tokens w k t a :
  model_token_at w k = Some t -> in_u64 a ->
  (forall k', model_token_at (set_balance w k t a) k' =
     if decide (k' = k) then Some (mkTokenAccount (token_mint t) (token_owner t) a)
     else model_token_at w k') /\
  (forall k', model_mint_at (set_balance w k t a) k' = model_mint_at w k').
Proof.
  intros [Ho Hp]%model_token_at_Some Ha.
  split; intros k'; unfold model_token_at, model_mint_at, set_balance, set_data; cbv zeta;
    rewrite !model_acct_insert; case_decide as Hk; try done; subst k'; cbn [acc_owner data];
    rewrite Ho, Z.eqb_refl.
  - apply in_range_iff in Ha. cbn. by rewrite Ha.
  - rewrite (token_not_mint _ _ Hp). cbn. by destruct (token_mint t) as [|[]|].
Qed.

Lemma set_supply_tokens w k m s :
  model_mint_at w k = Some m -> in_u64 s ->
  (forall k', model_mint_at (set_data w k [1; s]) k' =
     if decide (k' = k) then Some (mkMintState s) else model_mint_at w k') /\
  (forall k', model_token_at (set_data w k [1; s]) k' = model_token_at w k').
Proof.
  intros [Ho Hp]%model_mint_at_Some Ha.
  split; intros k'; unfold model_token_at, model_mint_at, set_data; cbv zeta;
    rewrite !model_acct_insert; case_decide as Hk; try done; subst k'; cbn [acc_owner data];
    rewrite Ho, Z.eqb_refl.
  - apply in_range_iff in Ha. cbn. by rewrite Ha.
  - by rewrite (mint_not_token _ _ Hp).
Qed.

Lemma model_token_range w k t : model_token_at w k = Some t -> in_u64 (token_amount t).
Proof. intros [_ Hp]%model_token_at_Some. by eapply token_parse_range. Qed.

Lemma TokenAccount_eta t : mkTokenAccount (token_mint t) (token_owner t) (token_amount t) = t.
Proof. by destruct t. Qed.

Lemma do_transfer_effect s d n w w' : do_transfer s d n w = Ok w' -> tokens_moved w w' s d n.
Proof.
  unfold do_transfer. destruct (model_token_at w s) as [ts|] eqn:Hs; [|done].
  destruct (in_range 0 (token_amount ts) n) eqn:Hn; [|done]. apply in_range_iff in Hn.
  pose proof (model_token_range _ _ _ Hs) as Hts.
  destruct (set_balance_tokens w s ts (token_amount ts - n) Hs ltac:(mlia)) as [Ht1 Hm1].
  set (w1 := set_balance w s ts (token_amount ts - n)) in *. cbv zeta.
  destruct (model_token_at w1 d) as [td|] eqn:Hd; [|done].
  destruct (token_amount td + n <=? u64_max) eqn:Hle; [|done]. intros [= <-]. bool_to_prop.
  pose proof (model_token_range _ _ _ Hd) as Htd.
  destruct (set_balance_tokens w1 d td (token_amount td + n) Hd ltac:(mlia)) as [Ht2 Hm2].
  unfold tokens_moved. setoid_rewrite model_token_at_eq. setoid_rewrite model_mint_at_eq.
  rewrite Ht1 in Hd. split_and!.
  - exists ts. split; [done|lia].
  - case_decide; [subst; by exists ts|by exists td].
  - intros k. rewrite Ht2, Ht1.
    repeat case_decide; simplify_eq/=; rewrite ?Hs, ?Hd; cbn; try (do 2 f_equal; lia);
      destruct (model_token_at w k) as [t|]; try done; cbn;
      rewrite ?Z.sub_0_r, ?Z.add_0_r, ?TokenAccount_eta; try done.
  - intros k. by rewrite Hm2, Hm1.
Qed.

Lemma do_mint_effect m d n w w' : do_mint m d n w = Ok w' -> tokens_minted w w' m d n.
Proof.
  unfold do_mint. destruct (model_mint_at w m) as [ms|] eqn:Hm; [|done].
  destruct (model_token_at w d) as [td|] eqn:Hd; [|done].
  destruct ((0 <=? n) && (supply ms + n <=? u64_max) && (token_amount td + n <=? u64_max)) eqn:Hb;
    [|done]. intros [= <-]. bool_to_prop.
  pose proof (model_token_range _ _ _ Hd) as Htd.
  assert (in_u64 (supply ms)) as Hms.
  { apply model_mint_at_Some in Hm as [_ Hp]. by eapply mint_parse_range. }
  destruct (set_supply_tokens w m ms (supply ms + n) Hm ltac:(mlia)) as [Hm1 Ht1].
  set (w1 := set_data w m [1; supply ms + n]) in *. rewrite <- Ht1 in Hd.
  destruct (set_balance_tokens w1 d td (token_amount td + n) Hd ltac:(mlia)) as [Ht2 Hm2].
  unfold tokens_minted. setoid_rewrite model_token_at_eq. setoid_rewrite model_mint_at_eq.
  rewrite Ht1 in Hd. split_and!; [by exists ms| |]; intros k.
  - rewrite Hm2, Hm1. case_decide as Hk; [subst; by rewrite Hm|].
    destruct (model_mint_at w k) as [[]|]; [|done]. cbn. by rewrite Z.add_0_r.
  - rewrite Ht2, Ht1. case_decide as Hk; [subst; by rewrite Hd|].
    destruct (model_token_at w k) as [t|]; [|done]. cbn. by rewrite Z.add_0_r, TokenAccount_eta.
Qed.

Lemma do_create_effect f t l s o w w' :
  do_create f t l s o w = Ok w' ->
  acc_owner (model_acct w t) = model_system_id /\
  data (model_acct w' t) = replicate (Z.to_nat s) 0 /\ acc_owner (model_acct w' t) = o /\
  (forall k, k <> t -> data (model_acct w' k) = data (model_acct w k) /\
                       acc_owner (model_acct w' k) = acc_owner (model_acct w k)).
Proof.
  unfold do_create. cbv zeta.
  match goal with |- (if ?b then _ else _) = _ -> _ => destruct b eqn:Hb end; [|done].
  intros [= <-]. bool_to_prop. split_and!; [done|by rewrite model_acct_insert, decide_True..|].
  intros k Hk. rewrite !model_acct_insert, decide_False by done. by case_decide; subst.
Qed.

Lemma do_init_mint_effect m w w' :
  do_init_mint m w = Ok w' ->
  model_mint_at w' m = Some (mkMintState 0) /\
  (forall k, model_token_at w' k = model_token_at w k).
Proof.
  unfold do_init_mint. cbv zeta.
  match goal with |- (if ?b then _ else _) = _ -> _ => destruct b eqn:Hb end; [|done].
  intros [= <-]. bool_to_prop. unfold model_mint_at, model_token_at, set_data. cbv zeta.
  split.
  - rewrite model_acct_insert, decide_True by done. cbn [acc_owner data].
    match goal with H : acc_owner _ = _ |- _ => by rewrite H end.
  - intros k. rewrite model_acct_insert. case_decide as Hk; [subst; cbn|done].
    match goal with H : data _ = _ |- _ => by rewrite H end.
Qed.

Lemma do_create_ata_effect wl m w w' :
  do_create_ata wl m w = Ok w' ->
  (exists t, model_token_at w' (model_ata wl m) = Some t /\ token_mint t = m /\ token_owner t = wl) /\
  (forall k, k <> model_ata wl m -> model_token_at w' k = model_token_at w k) /\
  (forall k t, model_token_at w k = Some t -> model_token_at w' k = Some t) /\
  (forall k, model_mint_at w' k = model_mint_at w k).
Proof.
  unfold do_create_ata. destruct (model_token_at w (model_ata wl m)) as [t|] eqn:Ht.
  - match goal with |- (if ?b then _ else _) = _ -> _ => destruct b eqn:Hb end; [|done].
    intros [= <-]. bool_to_prop. split_and!; [by exists t|done..].
  - match goal with |- (if ?b then _ else _) = _ -> _ => destruct b eqn:Hb end; [|done].
    intros [= <-]. bool_to_prop.
    assert (forall k, k <> model_ata wl m ->
      model_acct (<[model_ata wl m:=mkAccount (lamports (model_acct w (model_ata wl m)))
        [m; wl; 0] model_token_id]> w) k = model_acct w k) as Hne
      by (intros; by rewrite model_acct_insert, decide_False).
    split_and!.
    + exists (mkTokenAccount m wl 0). split_and!; [|done|done].
      unfold model_token_at. by rewrite model_acct_insert, decide_True.
    + intros k Hk. unfold model_token_at. by rewrite Hne.
    + intros k t Hk. destruct (decide (k = model_ata wl m)) as [->|Hn]; [congruence|].
      rewrite <- Hk. unfold model_token_at. by rewrite Hne.
    + intros k. destruct (decide (k = model_ata wl m)) as [->|Hn].
      * unfold model_mint_at. rewrite model_acct_insert, decide_True by done.
        cbn [acc_owner data].
        match goal with Ho : acc_owner _ = model_system_id |- _ => rewrite Ho end. cbn.
        by destruct m as [|[]|].
      * unfold model_mint_at. by rewrite Hne.
Qed.

(** Which of the model's programs a successful call ran. *)
Lemma model_invoke_cases ix accs seeds w w' :
  model_invoke ix accs seeds w = Ok w' ->
  (ix_program_id ix = model_system_id /\ exists f t l s o, do_create f t l s o w = Ok w') \/
  (ix_program_id ix = model_token_id /\
     ((exists s d n, do_transfer s d n w = Ok w') \/ (exists m d n, do_mint m d n w = Ok w') \/
      (exists m, do_init_mint m w = Ok w'))) \/
  (ix_program_id ix = model_ata_id /\ exists wl m, do_create_ata wl m w = Ok w') \/
  (ix_program_id ix = TOKEN_METADATA_PROGRAM_ID /\ exists k d, do_metadata k d w = Ok w').
Proof.
  unfold model_invoke. cbv zeta.
  destruct (Z.eqb_spec (ix_program_id ix) model_system_id) as [->|_].
  { intros Hi. left. split; [done|]. destruct (map _ _) as [|f [|t [|]]]; try done.
    destruct (ix_data ix) as [|l [|s [|o [|]]]]; try done. eauto 10. }
  destruct (Z.eqb_spec (ix_program_id ix) model_token_id) as [->|_].
  { intros Hi. right; left. split; [done|]. repeat (case_match; try discriminate Hi); eauto 10. }
  destruct (Z.eqb_spec (ix_program_id ix) model_ata_id) as [->|_].
  { intros Hi. right; right; left. split; [done|].
    destruct (map _ _) as [|f [|t [|]]]; try done. eauto. }
  destruct (Z.eqb_spec (ix_program_id ix) TOKEN_METADATA_PROGRAM_ID) as [->|_]; [|done].
  intros Hi. right; right; right. split; [done|].
  destruct (map _ _) as [|f rest]; [done|]. eauto.
Qed.

(** The token programs write only accounts of the token program or empty
    accounts of the system program. *)
Lemma set_data_frame w k cells o k' :
  acc_owner (model_acct w k) <> o ->
  (acc_owner (model_acct w k') = o ->
     data (model_acct (set_data w k cells) k') = data (model_acct w k') /\
     acc_owner (model_acct (set_data w k cells) k') = o).
Proof.
  intros Hne Ho. unfold set_data. cbv zeta. rewrite model_acct_insert.
  case_decide; [congruence|done].
Qed.
Lemma set_data_owner w k cells k' :
  acc_owner (model_acct (set_data w k cells) k') = acc_owner (model_acct w k').
Proof. unfold set_data. cbv zeta. rewrite model_acct_insert. by case_decide; subst. Qed.

(** [w] to [w'] keeps the data and ownership of every account of [p] and gives
    [p] no new account. *)
Definition keeps_program (p : Pubkey) (w w' : World) : Prop :=
  forall k, (acc_owner (model_acct w k) = p ->
               data (model_acct w' k) = data (model_acct w k) /\
               acc_owner (model_acct w' k) = p) /\
            (acc_owner (model_acct w' k) = p -> acc_owner (model_acct w k) = p).

Lemma keeps_program_trans p w1 w2 w3 :
  keeps_program p w1 w2 -> keeps_program p w2 w3 -> keeps_program p w1 w3.
Proof.
  intros H12 H23 k. destruct (H12 k) as [Ha Hb], (H23 k) as [Hc Hd]. split; [|by auto].
  intros Ho. destruct (Ha Ho) as [Hx Ho']. destruct (Hc Ho') as [Hy ?]. split; congruence.
Qed.

Lemma set_data_keeps p w k cells :
  acc_owner (model_acct w k) <> p -> keeps_program p w (set_data w k cells).
Proof. intros Hne k'. split; [by apply set_data_frame|by rewrite set_data_owner]. Qed.

Lemma claim_keeps p w k a :
  acc_owner (model_acct w k) <> p -> acc_owner a <> p -> keeps_program p w (<[k := a]> w).
Proof. intros Hk Ha k'. rewrite model_acct_insert. case_decide; [subst|]; by split. Qed.

Definition model_program_ids : list Pubkey :=
  [model_system_id; model_token_id; model_ata_id; TOKEN_METADATA_PROGRAM_ID].

Lemma token_account_keeps p w k t cells :
  model_token_at w k = Some t -> p <> model_token_id -> keeps_program p w (set_data w k cells).
Proof. intros [Ho _]%model_token_at_Some Hp. apply set_data_keeps. by rewrite Ho. Qed.

Lemma model_calls_keep p w w' :
  p ∉ model_program_ids ->
  (exists s d n, do_transfer s d n w = Ok w') \/ (exists m d n, do_mint m d n w = Ok w') \/
  (exists m, do_init_mint m w = Ok w') \/ (exists wl m, do_create_ata wl m w = Ok w') \/
  (exists k d, do_metadata k d w = Ok w') -> keeps_program p w w'.
Proof.
  intros Hp Hcall. assert (p <> model_system_id /\ p <> model_token_id /\
    p <> TOKEN_METADATA_PROGRAM_ID) as (Hsys & Htok & Hmpl).
  { split_and!; intros ->; apply Hp; unfold model_program_ids; rewrite !elem_of_cons; tauto. }
  destruct Hcall as [(s & d & n & Hc)|[(m & d & n & Hc)|[(m & Hc)|[(wl & m & Hc)|(k & d & Hc)]]]].
  - unfold do_transfer in Hc. destruct (model_token_at w s) eqn:Hs; [|done].
    destruct (in_range _ _ _); [|done]. cbv zeta in Hc.
    destruct (model_token_at _ d) eqn:Hd; [|done].
    destruct (_ <=? _); [|done]. injection Hc as <-.
    eapply keeps_program_trans; by eapply token_account_keeps.
  - unfold do_mint in Hc. destruct (model_mint_at w m) eqn:Hm; [|done].
    destruct (model_token_at w d) eqn:Hd; [|done].
    destruct (_ && _); [|done]. injection Hc as <-.
    apply model_mint_at_Some in Hm as [Ho _]. apply model_token_at_Some in Hd as [Hod _].
    eapply keeps_program_trans; apply set_data_keeps; rewrite ?set_data_owner; congruence.
  - unfold do_init_mint in Hc. cbv zeta in Hc.
    match type of Hc with (if ?b then _ else _) = _ => destruct b eqn:Hb end; [|done].
    injection Hc as <-. bool_to_prop. apply set_data_keeps. congruence.
  - unfold do_create_ata in Hc. destruct (model_token_at w _) eqn:Ht; cbv zeta in Hc;
      match type of Hc with (if ?b then _ else _) = _ => destruct b eqn:Hb end; try done;
      injection Hc as <-; bool_to_prop; [done|].
    apply claim_keeps; [congruence|done].
  - unfold do_metadata in Hc. cbv zeta in Hc.
    match type of Hc with (if ?b then _ else _) = _ => destruct b eqn:Hb end; [|done].
    injection Hc as <-. bool_to_prop. apply claim_keeps; [congruence|done].
Qed.

#[export] Instance model_laws : SdkLaws.
Proof.
  split; try exact _; try done; cbn.
  - by apply (cell_codec_sized _ _ _ 23).
  - by apply (cell_codec_sized _ _ _ 5).
  - intros [|? [|[|? [|]] []]] p; cbn; mlia.
  - intros k a t. unfold model_clock. destruct (_ =? _); [|done].
    destruct (data a) as [|z [|]]; try done. destruct (in_range _ _ _) eqn:Hr; [|done].
    intros [= <-]. by apply in_range_iff in Hr.
  - apply token_parse_range.
  - apply mint_parse_range.
  - by intros p s d a n ix [= <-].
  - by intros p m d a n ix [= <-].
  - intros s d a n ix accs seeds w w' [= <-] Hi. by apply do_transfer_effect.
  - intros m d a n ix accs seeds w w' [= <-] Hi. by apply do_mint_effect.
  - intros f t l s o accs seeds w w' Hi. by apply do_create_effect in Hi.
  - by intros p m a f d ix [= <-].
  - intros m a f d ix accs seeds w w' [= <-] Hi.
    apply do_init_mint_effect in Hi. setoid_rewrite model_token_at_eq.
    by rewrite model_mint_at_eq.
  - intros f wl m accs seeds w w' Hi.
    apply do_create_ata_effect in Hi. setoid_rewrite model_token_at_eq.
    by setoid_rewrite model_mint_at_eq.
  - intros ix accs seeds w w' Hp Hi.
    apply model_invoke_cases in Hi as [[Hs _]|[[Hs _]|[[Hs _]|(_ & k & d & Hd)]]];
      try (rewrite Hp in Hs; discriminate Hs).
    unfold do_metadata in Hd. cbv zeta in Hd.
    match type of Hd with (if ?b then _ else _) = _ => destruct b eqn:Hb end; [|done].
    injection Hd as <-. bool_to_prop. unfold same_tokens.
    setoid_rewrite model_token_at_eq. setoid_rewrite model_mint_at_eq.
    split; intros k'; unfold model_token_at, model_mint_at; rewrite model_acct_insert;
      case_decide; subst; try done; cbn [acc_owner];
      match goal with Ho : acc_owner _ = model_system_id |- _ => by rewrite Ho end.
  - intros ix accs seeds w Hi. unfold model_invoke in Hi.
    unfold do_create, do_transfer, do_mint, do_init_mint, do_create_ata, do_metadata in Hi.
    repeat (case_match; try discriminate Hi).
  - intros k a Hc. unfold model_clock in Hc. repeat (case_match; try discriminate Hc).
  - intros k a Hc. by destruct (_ =? _).
Qed.

#[export] Instance model_program_laws : ProgramLaws model_program_id.
Proof.
  assert (model_program_id ∉ model_program_ids) as Hp by 
    by (unfold model_program_ids; rewrite !elem_of_cons, elem_of_nil; intros [[=]|[[=]|[[=]|[[=]|[]]]]]).
  split; try done; cbn.
  - intros a b Hab. lia.
  - intros a Ha. lia.
  - intros ix accs seeds w w' k Hi Hne Ho.
    apply model_invoke_cases in Hi as [[_ (f & t & l & s & o & Hd)]|Hi].
    + apply do_create_effect in Hd as (Hsys & _ & _ & Hoth).
      destruct (decide (k = t)) as [->|Hk].
      * change (acct w t) with (model_acct w t) in Ho. rewrite Hsys in Ho. discriminate Ho.
      * destruct (Hoth k Hk) as [? Ho']. split; [done|]. by rewrite <- Ho.
    + apply (model_calls_keep _ _ _ Hp); [|done]. tauto.
  - intros ix accs seeds w w' k Hi Hids Ho.
    apply model_invoke_cases in Hi as [[Hs _]|Hi].
    + rewrite Hs in Hids. by destruct Hids as [|[]].
    + eapply (model_calls_keep _ _ _ Hp); [|done]. tauto.
Qed.
