(* ===== verification/StakingCorrect.v ===== *)
(** The staking program's correctness theorems, each applied to a concrete
    history of the program on the model runtime: deployment, genesis mint, a
    deposit, a queued and applied update, a pause, a withdrawal. *)
From stdpp Require Import prelude gmap strings.
From Stdlib Require Import ZArith Lia.
From S2P Require Import Prelude.
From S2P Require Import StakingState.
From S2P Require Import Solana.
From S2P Require Import StakingInstruction.
From S2P Require Import StakingProcessor.
From S2P Require Import StakingLaws.
From S2P Require Import StakingHandlers.
From S2P Require Import StakingGovernance.
From S2P Require Import StakingRuns.
From S2P Require Import StakingModel.

#[local] Open Scope Z_scope.

(** * The staking program never panics: on any accounts, any instruction data
    and any store, a handler returns a result.  The slice writes are the only
    panicking code; every account they write is long enough. *)

(** ** Steps that return *)

Section Steps.
Context `{Sdk}.

Lemma lift_no_panic {A} (o : outcome ProgramError A) w : o <> Panic -> lift o w <> Panic.
Proof. unfold lift. by destruct o. Qed.
Lemma ok_or_no_panic {E A} (o : option A) (e : E) : ok_or o e <> Panic.
Proof. by destruct o. Qed.
Lemma next_no_panic ai w : next_account_info ai w <> Panic.
Proof. by destruct ai. Qed.
Lemma reject_no_panic b e w : reject_when b e w <> Panic.
Proof. by destruct b. Qed.
Lemma gets_no_panic {A} (f : World -> A) w : gets f w <> Panic.
Proof. done. Qed.
Lemma write_no_panic k bytes w :
  (length bytes <= length (data (acct w k)))%nat -> write_prefix k bytes w <> Panic.
Proof. unfold write_prefix. by intros ->%Nat.leb_le. Qed.
Lemma cpi_no_panic `{StakingCodec, !SdkLaws} ix accs seeds w :
  cpi_signed ix accs seeds w <> Panic.
Proof.
  unfold cpi_signed. pose proof (invoke_no_panic ix accs seeds w).
  by destruct (invoke_signed ix accs seeds w).
Qed.
End Steps.

Create HintDb no_panic discriminated.
#[export] Hint Resolve ok_or_no_panic next_no_panic reject_no_panic gets_no_panic cpi_no_panic
  transfer_no_panic mint_to_no_panic init_mint_no_panic clock_no_panic rent_no_panic
  rent_get_no_panic lift_no_panic : no_panic.

(** Walk through a handler; what is left are the writes. *)
Ltac returns_step :=
  lazymatch goal with
  | |- (_ ≫= _) _ <> Panic => apply bind_no_panic; [|intros ? ? ?]
  | |- (let '(_, _) := ?p in _) _ <> Panic =>
      first [is_var p; destruct p | rewrite (surjective_pairing p); cbv beta iota]
  | |- (if ?b then _ else _) _ <> Panic => destruct b eqn:?
  | |- cpi _ _ _ <> Panic => unfold cpi
  | |- require_signer _ _ <> Panic => unfold require_signer
  | |- require_address _ _ _ _ <> Panic => unfold require_address
  | |- require_owner _ _ _ _ <> Panic => unfold require_owner
  | |- validate_params _ _ _ <> Panic => unfold validate_params
  | |- validate_timelock _ _ <> Panic => unfold validate_timelock
  | |- lift (deserialize _) _ <> Panic => unfold deserialize
  | |- lift (serialize _) _ <> Panic => unfold serialize
  | |- mret _ _ <> Panic => done
  | |- _ => solve [eauto 3 with no_panic]
  end.
Ltac returns := cbv zeta; repeat (returns_step; cbv beta zeta in * ).

Section Handlers.
Context `{Sdk, StakingCodec, !SdkLaws} (program_id : Pubkey) `{!ProgramLaws program_id}.
Implicit Types (w : World).

Lemma load_config_returns a w : load_config program_id a w <> Panic.
Proof. unfold load_config. returns. Qed.

Lemma save_config_returns a c w : save_config a c w <> Panic.
Proof.
  unfold save_config. returns.
  inv_handler. unfold data_len in *. apply write_no_panic. lia.
Qed.

Lemma staker_token_returns a s m w : require_staker_token a s m w <> Panic.
Proof. unfold require_staker_token. returns. Qed.

Lemma mintable_returns c a r w : mintable_rewards c a r w <> Panic.
Proof. unfold mintable_rewards. returns. Qed.

Lemma load_or_create_returns s a sys k b now w :
  load_or_create_stake program_id s a sys k b now w <> Panic.
Proof. unfold load_or_create_stake. returns. Qed.

Lemma deposit_returns sa rate net now : deposit_position sa rate net now <> Panic.
Proof. unfold deposit_position. cbv zeta. by destruct (checked_add _ _ _). Qed.

Lemma metadata_fields_return n s u : validate_metadata_fields n s u <> Panic.
Proof. unfold validate_metadata_fields. by repeat (case_match || destruct (_ || _); cbn). Qed.

Hint Resolve load_config_returns save_config_returns staker_token_returns mintable_returns
  load_or_create_returns deposit_returns metadata_fields_return : no_panic.

Lemma initialize_returns accounts fee rate min_s delay dec timelock cap w :
  process_initialize program_id accounts fee rate min_s delay dec timelock cap w <> Panic.
Proof.
  unfold process_initialize. returns.
  inv_handler. apply write_no_panic.
  match goal with Hi : invoke_signed (create_account _ _ _ _ program_id) _ _ _ = Ok _ |- _ =>
    apply create_account_effect in Hi as (_ & Hd & _ & _) end.
  match goal with Hk : key _ = (config_pda _).1 |- _ => rewrite Hk end.
  rewrite Hd, length_replicate. lia.
Qed.

Lemma stake_returns accounts n w : process_stake program_id accounts n w <> Panic.
Proof.
  unfold process_stake. returns.
  match goal with H : load_or_create_stake _ _ _ _ _ _ _ _ = Ok _ |- _ => rename H into Hload end.
  inv_handler. apply write_no_panic.
  apply (load_or_create_Ok program_id) in Hload as (_ & _ & Hsz & _); [|done].
  match goal with Hk : key _ = (stake_pda _ _).1 |- _ => rewrite Hk in * end.
  erewrite (Hsz _ _ ltac:(eassumption)). lia.
Qed.

Lemma unstake_returns accounts b w : process_unstake program_id accounts b w <> Panic.
Proof.
  unfold process_unstake. returns.
  match goal with H : mintable_rewards _ _ _ _ = Ok _ |- _ => rename H into Hmintable end.
  inv_handler. apply write_no_panic.
  apply mintable_rewards_Ok in Hmintable as (-> & _).
  match goal with Htp : key _ = spl_token_id |- _ => rewrite Htp in * end.
  match goal with Hl : (if b then _ else _) _ = Ok _ |- _ =>
    apply (principal_leg_Ok program_id) in Hl as (_ & _ & _ & Hown1) end.
  match goal with Hl : (if 0 <? _ then _ else _) _ = Ok _ |- _ =>
    apply (mint_leg_Ok program_id) in Hl as (_ & _ & _ & Hown2) end.
  match goal with Ho : owned_by _ ?k _, Hk : key _ = (stake_pda _ _).1 |- _ =>
    destruct (Hown1 _ Ho) as [Hd1 Ho1]; destruct (Hown2 _ Ho1) as [Hd2 _] end.
  rewrite Hd2, Hd1.
  match goal with Hd : try_from_slice _ = Some _, He : to_vec _ = Some _ |- _ =>
    rewrite (stake_sized_decoded _ _ _ Hd _ _ He) end. lia.
Qed.

Lemma process_ix_returns accounts ix w : process_ix program_id accounts ix w <> Panic.
Proof.
  destruct ix; cbn [process_ix];
    [apply initialize_returns|apply stake_returns|apply unstake_returns|apply unstake_returns|..];
    unfold process_queue_update, process_apply_update, process_cancel_update,
      process_set_paused, process_transfer_admin, process_accept_admin, process_genesis_mint,
      process_create_token_metadata; returns.
  apply lift_no_panic.
  match goal with |- context [validate_metadata_fields ?n ?s ?u] =>
    pose proof (metadata_fields_return n s u); by destruct (validate_metadata_fields n s u) end.
Qed.

Lemma process_instruction_returns accounts bytes w :
  process_instruction program_id accounts bytes w <> Panic.
Proof.
  unfold process_instruction. apply bind_no_panic; [|intros; apply process_ix_returns].
  apply lift_no_panic. unfold unpack. by destruct (try_from_slice bytes).
Qed.
End Handlers.

(** ** A concrete history *)

Module Scenario.
Definition pid : Pubkey := model_program_id.
Definition admin_key : Pubkey := 201.
Definition mint_key : Pubkey := 203.
Definition user_key : Pubkey := 205.
Definition heir_key : Pubkey := 207.
Definition config_key : Pubkey := 1.
Definition vault_key : Pubkey := model_ata config_key mint_key.
Definition user_token : Pubkey := model_ata user_key mint_key.
Definition user_stake : Pubkey := 2 * user_key.

Definition wallet : Account := mkAccount 1000 [] model_system_id.
Definition clock_account (t : Z) : Account := mkAccount 0 [t] model_system_id.

Definition genesis : World :=
  list_to_map [(admin_key, wallet); (user_key, wallet); (heir_key, wallet);
               (model_clock_id, clock_account 1000)].

Definition signer (k : Pubkey) : AccountInfo := mkAccountInfo k true true.
Definition other (k : Pubkey) : AccountInfo := mkAccountInfo k false true.

(** One transaction: who calls with what. *)
Definition Tx : Type := list AccountInfo * StakingInstruction.
Definition bytes (tx : Tx) : list Z := instruction_cells tx.2.
Definition execute (tx : Tx) (w : World) : World :=
  match process_instruction pid tx.1 (bytes tx) w with
  | Ok (_, w') => w'
  | _ => w
  end.

Definition deploy : Tx :=
  (signer admin_key :: other config_key :: signer mint_key ::
     map other [vault_key; user_token; user_key; model_token_id; model_ata_id;
                model_system_id; model_rent_id],
   Initialize 100 1000 10 50 6 100 1000000000).
Definition genesis_mint : Tx :=
  (signer admin_key :: map other [config_key; mint_key; user_token; model_token_id],
   GenesisMint 1000000).
Definition stake : Tx :=
  (signer user_key ::
     map other [user_token; vault_key; user_token; user_stake; config_key; model_token_id;
                model_system_id; model_clock_id],
   Stake 10000).
Definition queue : Tx :=
  (signer admin_key :: map other [config_key; model_clock_id],
   UpdateParams (Some 200) None None None None).
Definition apply_update : Tx := (map other [config_key; model_clock_id], ApplyParams).
Definition pause : Tx := (signer admin_key :: map other [config_key], Pause).
Definition nominate : Tx := (signer admin_key :: map other [config_key], TransferAdmin heir_key).
Definition accept : Tx := (signer heir_key :: map other [config_key], AcceptAdmin).
Definition unstake_accounts : list AccountInfo :=
  signer user_key ::
    map other [user_token; vault_key; mint_key; user_stake; config_key; model_token_id;
               model_clock_id].
Definition unstake : Tx := (unstake_accounts, Unstake).
Definition claim : Tx := (unstake_accounts, Claim).

Definition set_clock (t : Z) (w : World) : World := <[model_clock_id := clock_account t]> w.

Definition w1 : World := execute deploy genesis.
Definition w2 : World := execute genesis_mint w1.
Definition w3 : World := execute stake w2.
Definition w4 : World := execute queue w3.
Definition w5 : World := set_clock 40000000 w4.
Definition w6 : World := execute apply_update w5.
Definition w7 : World := execute pause w6.
Definition w8 : World := execute nominate w7.
Definition w9 : World := execute accept w8.

Definition config_of (w : World) : Config :=
  default (mkConfig false 0 0 0 0 0 0 0 0 0 0 0 false 0 0 PendingParams_default false 0)
    (config_at pid w).

Definition event (tx : Tx) (w : World) : Event := mkEvent tx.1 (bytes tx) w.
Definition history5 : list Event :=
  [event queue w3; event stake w2; event genesis_mint w1; event deploy genesis].
Definition history8 : list Event :=
  event nominate w7 :: event pause w6 :: event apply_update w5 :: history5.

(** The transactions of the history succeed. *)
Definition succeeds (tx : Tx) (w : World) : bool :=
  is_ok (process_instruction pid tx.1 (bytes tx) w)
  && forallb (fun a => negb (is_signer a && (key a =? config_key))) tx.1.
End Scenario.
Import Scenario.

Lemma scenario_exec tx w :
  succeeds tx w = true -> exec pid tx.1 (bytes tx) w (execute tx w).
Proof.
  unfold succeeds, execute, exec. intros [Hok Hs]%andb_true_iff. split.
  - intros a Ha Hsig Hk. rewrite forallb_forall in Hs.
    specialize (Hs a ltac:(by apply list_elem_of_In)). rewrite Hsig in Hs.
    change (config_pda pid).1 with config_key in Hk. rewrite Hk in Hs. discriminate Hs.
  - destruct (process_instruction _ _ _ _) as [[[] w']| |]; done.
Qed.

Lemma genesis_undeployed : undeployed pid genesis.
Proof.
  split; [by vm_compute|]. intros s. unfold stake_at.
  change (stake_pda pid s).1 with (2 * s). unfold acct.
  assert (genesis !! (2 * s) = None) as ->.
  { apply not_elem_of_list_to_map_1. cbn. rewrite !elem_of_cons, elem_of_nil.
    unfold admin_key, user_key, heir_key, model_clock_id. lia. }
  done.
Qed.

(** The clock moves on; nothing else does. *)
Lemma set_clock_env t w :
  negb (acc_owner (acct w model_clock_id) =? model_token_id) = true ->
  env_step pid w (set_clock t w).
Proof.
  intros Ho. bool_to_prop.
  assert (forall k, k <> model_clock_id -> acct (set_clock t w) k = acct w k) as Hne.
  { intros k Hk. apply acct_insert_ne. congruence. }
  assert (forall k, token_at (set_clock t w) k = token_at w k /\
                    mint_at (set_clock t w) k = mint_at w k) as Htok.
  { intros k. unfold token_at, mint_at.
    destruct (decide (k = model_clock_id)) as [->|Hk]; [|by rewrite Hne].
    unfold set_clock. rewrite acct_insert_eq. cbn [acc_owner].
    rewrite (decide_False (P := model_system_id = spl_token_id)) by done.
    assert (acc_owner (acct w model_clock_id) <> spl_token_id) by exact Ho.
    by rewrite !decide_False. }
  split_and!.
  - apply config_at_ext; by rewrite Hne.
  - intros s. apply stake_at_ext; rewrite Hne; try done;
      change (stake_pda pid s).1 with (2 * s); unfold model_clock_id; lia.
  - intros c _. split.
    + intros n (tk & Ht & ?). exists n. split; [lia|]. exists tk. by destruct (Htok (vault c)) as [-> _].
    + intros m Hm. exists m. by destruct (Htok (mint c)) as [_ ->].
Qed.

Lemma scenario_run5 : run pid history5 w5.
Proof.
  eapply run_env; [|by apply set_clock_env; vm_compute].
  do 3 (eapply run_tx; [|by apply scenario_exec; vm_compute]).
  eapply run_init; [apply genesis_undeployed|by apply scenario_exec; vm_compute].
Qed.

Lemma scenario_run8 : run pid history8 w8.
Proof.
  do 3 (eapply run_tx; [|by apply scenario_exec; vm_compute]). exact scenario_run5.
Qed.

Lemma scenario_config w : is_Some (config_at pid w) -> config_at pid w = Some (config_of w).
Proof. unfold config_of. by intros [c ->]. Qed.

(** ** Theorems over every history *)

Section Histories.
Context `{Sdk, StakingCodec, !SdkLaws} (program_id : Pubkey) `{!ProgramLaws program_id}.
Implicit Types (w : World) (c : Config).

(** C1: at every reachable store the vault holds at least the sum of the
    principals of any set of distinct stakers, so every staker can be paid
    back in full whatever the others did, whatever the admin did. *)
Theorem vault_solvency h w c stakers
  (Hrun : run program_id h w) (Hc : config_at program_id w = Some c)
  (Hset : NoDup stakers) :
  exists t, token_at w (vault c) = Some t /\ token_mint t = mint c /\
    token_owner t = (config_pda program_id).1 /\
    total_staked program_id w stakers <= token_amount t.
Proof.
  destruct (run_invariant_at _ _ _ _ Hrun Hc) as [_ _ (n & (t & ? & ? & ? & <-) & Hsum) _].
  exists t. split_and!; [done..|by apply Hsum].
Qed.

(** C3: at every reachable store the supply of the staked mint is at most
    the cap fixed at deployment, genesis mint and rewards included. *)
Theorem supply_within_cap h w c
  (Hrun : run program_id h w) (Hc : config_at program_id w = Some c) :
  exists m, mint_at w (mint c) = Some m /\ supply m <= max_supply c.
Proof. by destruct (run_invariant_at _ _ _ _ Hrun Hc). Qed.

(** C2: whenever a transaction changes the live parameters, it is
    [ApplyParams], the values are those of an [UpdateParams] transaction
    earlier in the history that the then admin signed, the timelock in force
    when they were queued has elapsed since, and the new values respect the
    hard caps. *)
Theorem params_change_after_timelock h w accounts bytes w' c c'
  (Hrun : run program_id h w) (Hexec : exec program_id accounts bytes w w')
  (Hc : config_at program_id w = Some c) (Hc' : config_at program_id w' = Some c')
  (Hchange : live_params c' <> live_params c) :
  unpack bytes = Ok ApplyParams /\
  params_in_bounds (fee_bps c') (reward_rate_bps c') (timelock_secs c') /\
  exists e cq fee rate min_s delay timelock queued_at now,
    e ∈ h /\ config_at program_id (ev_before e) = Some cq /\
    unpack (ev_data e) = Ok (UpdateParams fee rate min_s delay timelock) /\
    signed_by (ev_accounts e) (admin cq) /\
    clock_reads (ev_accounts e) (ev_before e) queued_at /\ clock_reads accounts w now /\
    i64_saturating_add queued_at (timelock_secs cq) <= now /\
    live_params c' = queued_params (resolve_update cq queued_at fee rate min_s delay timelock).
Proof.
  pose proof (run_invariant_at _ _ _ _ Hrun Hc) as Hi.
  destruct (exec_step _ _ _ _ _ _ Hi Hexec) as (ix & s & now & c2 & Hu & Hstep & Hi2 & _ & Hclk).
  pose proof (inv_config _ _ _ Hi2). simplify_eq.
  destruct (gov_step_params _ _ _ _ _ Hstep Hchange) as (-> & Hact & Htime & Hlive).
  pose proof (run_history _ _ _ _ Hrun Hc) as Hh.
  destruct (hi_pending _ _ _ Hh Hact) as (e & He & cq & fee & rate & min_s & delay & timelock
    & nowq & Hcq & Huq & Hsq & Hclkq & Hpq & Hlq).
  assert (timelock_secs cq = timelock_secs c) as Htl
    by (by injection Hlq).
  split_and!; [done|apply (wf_live _ (inv_wf _ _ _ Hi2))|].
  exists e, cq, fee, rate, min_s, delay, timelock, nowq, now.
  split_and!; try done; [by apply Hclk| |by rewrite Hlive, Hpq].
  rewrite Htl. rewrite Hpq in Htime. exact Htime.
Qed.

(** in any history the genesis mint succeeds at most once, and the
    identity of the deployment (mint, vault, treasury, bumps, decimals and
    the supply cap) is the one every earlier transaction ran with. *)
Theorem genesis_once_identity_fixed h w c
  (Hrun : run program_id h w) (Hc : config_at program_id w = Some c) :
  (length (filter (fun e => is_genesis e = true) h) <= 1)%nat /\
  forall e c0, e ∈ h -> config_at program_id (ev_before e) = Some c0 ->
    identity c0 = identity c.
Proof.
  destruct (run_history _ _ _ _ Hrun Hc) as [_ Hid Hg]. split; [|done].
  rewrite Hg. destruct (genesis_done c); lia.
Qed.

(** the admin key changes only by the two-step handover: [AcceptAdmin],
    signed by the key the previous admin had nominated. *)
Theorem admin_handover_two_step h w accounts bytes w' c c'
  (Hrun : run program_id h w) (Hexec : exec program_id accounts bytes w w')
  (Hc : config_at program_id w = Some c) (Hc' : config_at program_id w' = Some c')
  (Hchange : admin c' <> admin c) :
  unpack bytes = Ok AcceptAdmin /\ admin c' = pending_admin c /\
  signed_by accounts (pending_admin c) /\ pending_admin c' = Pubkey_default.
Proof.
  pose proof (run_invariant_at _ _ _ _ Hrun Hc) as Hi.
  destruct (exec_step _ _ _ _ _ _ Hi Hexec) as (ix & s & now & c2 & Hu & Hstep & Hi2 & Hsig & _).
  pose proof (inv_config _ _ _ Hi2). simplify_eq.
  destruct (gov_step_admin _ _ _ _ _ Hstep Hchange) as (-> & -> & Ha).
  split_and!; [done|done|by apply Hsig|]. by inversion Hstep.
Qed.

(** C33: every instruction the deployed program accepts is a step of the
    governance specification, signed by the key the specification names; the
    stored config stays well formed. *)
Theorem process_instruction_refines accounts bytes w w' c
  (Hc : config_at program_id w = Some c) (Hwf : config_wf c)
  (Hp : process_instruction program_id accounts bytes w = Ok (tt, w')) :
  exists ix s now c',
    unpack bytes = Ok ix /\ gov_step ix s now c c' /\ config_at program_id w' = Some c' /\
    config_wf c' /\ (needs_signer ix = true -> signed_by accounts s).
Proof.
  apply (process_instruction_Ok program_id) in Hp as (ix & Hu & Hix & Hp).
  destruct (process_ix_governed program_id _ _ _ _ _ _ Hc Hwf Hix Hp)
    as (s & now & c' & Hstep & Hc' & Hsig & _ & Hnow).
  exists ix, s, now, c'. split_and!; try done. by eapply gov_step_wf.
Qed.

(** a successful [Stake] moves exactly the net deposit into the vault
    and exactly the floor of the fee share into the treasury, adds the net
    to the staker's position, banks the rewards accrued so far, restarts the
    cooldown when principal was added, and touches no other position. *)
Theorem stake_effect accounts n w w' c
  (Hc : config_at program_id w = Some c) (Hwf : config_wf c) (Hn : in_u64 n)
  (Hp : process_stake program_id accounts n w = Ok (tt, w')) :
  let fee := n * fee_bps c / BPS in
  exists staker src now sa' wv wt,
    signed_by accounts staker /\ paused c = false /\ min_stake c <= n /\
    tokens_moved w wv src (vault c) (n - fee) /\
    (if 0 <? fee then tokens_moved wv wt src (treasury c) fee else wt = wv) /\
    same_tokens wt w' /\
    stake_at program_id w' staker = Some sa' /\
    amount sa' = staked_amount program_id w staker + (n - fee) /\
    reward_from sa' = now /\ (0 < n - fee -> staked_at sa' = now) /\
    (forall sa, stake_at program_id w staker = Some sa ->
       pending_rewards sa' = accrued_rewards sa (reward_rate_bps c) now) /\
    (forall s, s <> staker -> stake_at program_id w' s = stake_at program_id w s).
Proof.
  pose proof (wf_live _ Hwf) as [Hfee _ _]. destruct (wf_widths _ Hwf) as [[Hfee0 _]].
  destruct (compute_fee_exact n (fee_bps c) Hn) as [Hexact _].
  { unfold MAX_FEE_BPS, BPS in *. lia. }
  eapply (process_stake_Ok program_id) in Hp
    as (s & src & now & sa & sa' & wv & wt & []); [|done].
  cbv zeta. rewrite <- Hexact.
  apply deposit_position_Ok in dep_position as (Ha & _ & _ & _ & Hrf & Hpend & Hst).
  exists s, src, now, sa', wv, wt. split_and!; try done.
  - rewrite Ha. unfold staked_amount. by destruct dep_before as [->|[-> ->]].
  - intros Hpos. apply Z.ltb_lt in Hpos. by rewrite Hst, Hpos.
  - intros sa0 Hs0. rewrite Hpend. destruct dep_before as [Hb|[Hb _]]; congruence.
Qed.

(** a successful [Unstake] pays back exactly the staked principal from
    the vault to a token account of the staker, after the cooldown and
    whatever the pause flag says, mints the accrued rewards up to the supply
    headroom, empties the position, and touches no other position. *)
Theorem unstake_effect accounts w w' c
  (Hc : config_at program_id w = Some c)
  (Hp : process_unstake program_id accounts false w = Ok (tt, w')) :
  exists staker dst now sa minted wp wm,
    signed_by accounts staker /\ stake_at program_id w staker = Some sa /\
    0 < amount sa /\ unstake_delay c <= i64_saturating_sub now (staked_at sa) /\
    (exists t, token_at w dst = Some t /\ token_mint t = mint c /\ token_owner t = staker) /\
    tokens_moved w wp (vault c) dst (amount sa) /\
    0 <= minted <= Z.max 0 (accrued_rewards sa (reward_rate_bps c) now) /\
    (if 0 <? minted then tokens_minted wp wm (mint c) dst minted else wm = wp) /\
    same_tokens wm w' /\ staked_amount program_id w' staker = 0 /\
    (forall s, s <> staker -> stake_at program_id w' s = stake_at program_id w s).
Proof.
  eapply (process_unstake_Ok program_id) in Hp
    as (s & dst & now & sa & m & wp & wm & []); [|done].
  destruct wd_principal as (? & ? & ?).
  pose proof (sw_wf _ (stake_at_widths _ _ _ _ wd_before)) as Hsw.
  pose proof (accrued_bounds sa (reward_rate_bps c) now Hsw
    (proj2 (config_nonneg _ _ _ Hc))) as Hacc.
  exists s, dst, now, sa, m, wp, wm. split_and!; try done.
  - destruct Hsw. unfold_bounds. lia.
  - destruct wd_mintable as [[? ->]|(ms & _ & ->)]; [lia|].
    unfold supply_headroom, saturating_sub. unfold_bounds. lia.
  - destruct wd_mintable as [[? ->]|(ms & _ & ->)]; [lia|].
    unfold supply_headroom, saturating_sub. lia.
  - unfold staked_amount. by rewrite wd_after.
Qed.

(** a successful [Claim] leaves every principal, the cooldown and the
    vault's tokens as they were: all it does is mint the accrued rewards, up
    to the supply headroom, to a token account of the staker, and reset the
    accrual to now. *)
Theorem claim_effect accounts w w' c
  (Hc : config_at program_id w = Some c)
  (Hp : process_unstake program_id accounts true w = Ok (tt, w')) :
  exists staker dst now sa minted wm,
    signed_by accounts staker /\ stake_at program_id w staker = Some sa /\
    (if 0 <? minted then tokens_minted w wm (mint c) dst minted else wm = w) /\
    same_tokens wm w' /\
    (minted = 0 \/ exists m, mint_at w (mint c) = Some m /\
       minted = Z.min (accrued_rewards sa (reward_rate_bps c) now)
                  (supply_headroom (supply m) (max_supply c))) /\
    stake_at program_id w' staker =
      Some (mkStakeAccount (owner sa) (amount sa) (staked_at sa) now 0 (bump sa)) /\
    (forall s, s <> staker -> stake_at program_id w' s = stake_at program_id w s).
Proof.
  eapply (process_unstake_Ok program_id) in Hp
    as (s & dst & now & sa & m & wp & wm & []); [|done].
  subst wp. exists s, dst, now, sa, m, wm. split_and!; try done.
  destruct wd_mintable as [[_ ->]|Hm]; [by left|by right].
Qed.

(** C34: the program never panics: on any account list, any instruction
    bytes and any store it returns a result, so no input reaches an
    out-of-range slice. *)
Theorem process_instruction_total accounts bytes w :
  process_instruction program_id accounts bytes w <> Panic.
Proof. by apply process_instruction_returns. Qed.

(** a successful [Initialize] happens only where no config exists, and
    leaves a well-formed config with the requested parameters and cap, the
    payer as admin, an empty mint and a vault owned by the config PDA. *)
Theorem initialize_effect accounts fee rate min_s delay dec timelock cap w w'
  (Hix : instruction_widths (Initialize fee rate min_s delay dec timelock cap))
  (Hp : process_initialize program_id accounts fee rate min_s delay dec timelock cap w
        = Ok (tt, w')) :
  config_at program_id w = None /\
  exists c, config_at program_id w' = Some c /\ config_wf c /\
    signed_by accounts (admin c) /\
    live_params c = (fee, rate, min_s, delay, timelock) /\ max_supply c = cap /\
    pp_active (pending c) = false /\ genesis_done c = false /\ paused c = false /\
    mint_at w' (mint c) = Some (mkMintState 0) /\
    (exists t, token_at w' (vault c) = Some t /\ token_mint t = mint c /\
               token_owner t = (config_pda program_id).1).
Proof.
  apply (initialize_Ok program_id) in Hp as (c & []); [|done].
  split; [done|]. exists c. split_and!; try done. by rewrite dpl_pending.
Qed.
End Histories.

(** ** The theorems on the concrete history *)

Lemma vault_solvency_witness :
  total_staked pid w5 [user_key] = 9900 /\
  exists t, token_at w5 (vault (config_of w5)) = Some t /\ token_mint t = mint (config_of w5) /\
    token_owner t = (config_pda pid).1 /\ total_staked pid w5 [user_key] <= token_amount t.
Proof.
  split; [by vm_compute|].
  assert (config_at pid w5 = Some (config_of w5)) as Hc by by vm_compute.
  exact (vault_solvency pid history5 w5 _ [user_key] scenario_run5 Hc (NoDup_singleton _)).
Defined.

Lemma supply_within_cap_witness :
  exists m, mint_at w8 (mint (config_of w8)) = Some m /\ supply m <= max_supply (config_of w8).
Proof.
  assert (config_at pid w8 = Some (config_of w8)) as Hc by by vm_compute.
  exact (supply_within_cap pid history8 w8 _ scenario_run8 Hc).
Defined.

Lemma params_change_after_timelock_witness :
  fee_bps (config_of w6) = 200 /\
  unpack (bytes apply_update) = Ok ApplyParams.
Proof.
  split; [by vm_compute|].
  eapply (params_change_after_timelock pid history5 w5 apply_update.1 (bytes apply_update) w6
            (config_of w5) (config_of w6));
    [exact scenario_run5|by apply scenario_exec; vm_compute|by vm_compute|by vm_compute|].
  vm_compute. congruence.
Defined.

Lemma genesis_once_identity_fixed_witness :
  (length (filter (fun e => is_genesis e = true) history8) <= 1)%nat.
Proof.
  apply (genesis_once_identity_fixed pid history8 w8 (config_of w8));
    [exact scenario_run8|by vm_compute].
Defined.

Lemma admin_handover_two_step_witness :
  admin (config_of w9) = pending_admin (config_of w8) /\ pending_admin (config_of w8) = heir_key.
Proof.
  split; [|by vm_compute].
  assert (exec pid accept.1 (bytes accept) w8 w9) as He
    by (apply (scenario_exec accept w8); by vm_compute).
  assert (config_at pid w8 = Some (config_of w8)) as Hc by by vm_compute.
  assert (config_at pid w9 = Some (config_of w9)) as Hc' by by vm_compute.
  assert (admin (config_of w9) <> admin (config_of w8)) as Hne by (vm_compute; congruence).
  destruct (admin_handover_two_step pid history8 w8 _ _ w9 _ _ scenario_run8 He Hc Hc' Hne)
    as (_ & Ha & _).
  exact Ha.
Defined.

Lemma scenario_process tx w :
  is_ok (process_instruction pid tx.1 (bytes tx) w) = true ->
  process_instruction pid tx.1 (bytes tx) w = Ok (tt, execute tx w).
Proof. unfold execute. by destruct (process_instruction _ _ _ _) as [[[] w']| |]. Qed.

Lemma process_instruction_refines_witness :
  exists ix s now c',
    unpack (bytes queue) = Ok ix /\ gov_step ix s now (config_of w3) c' /\
    config_at pid w4 = Some c' /\ config_wf c' /\
    (needs_signer ix = true -> signed_by queue.1 s).
Proof.
  apply (process_instruction_refines pid queue.1 (bytes queue) w3 w4 (config_of w3)).
  - by vm_compute.
  - do 2 (split; try (vm_compute; done || (split; discriminate))).
  - apply scenario_process. by vm_compute.
Defined.

Lemma stake_effect_witness :
  exists staker src now sa' wv wt,
    signed_by stake.1 staker /\ paused (config_of w2) = false /\
    min_stake (config_of w2) <= 10000 /\
    tokens_moved w2 wv src (vault (config_of w2)) 9900 /\
    tokens_moved wv wt src (treasury (config_of w2)) 100 /\
    same_tokens wt w3 /\ stake_at pid w3 staker = Some sa' /\ reward_from sa' = now.
Proof.
  destruct (stake_effect pid stake.1 10000 w2 w3 (config_of w2))
    as (staker & src & now & sa' & wv & wt & ? & ? & ? & Hm & Ht & ? & ? & _ & ? & _).
  - by vm_compute.
  - do 2 (split; try (vm_compute; done || (split; discriminate))).
  - mlia.
  - by vm_compute.
  - exists staker, src, now, sa', wv, wt. split_and!; first [assumption | exact Hm | exact Ht].
Defined.

Lemma unstake_effect_witness :
  paused (config_of w9) = true /\
  exists staker dst sa wp,
    stake_at pid w9 staker = Some sa /\
    tokens_moved w9 wp (vault (config_of w9)) dst (amount sa) /\
    staked_amount pid (execute unstake w9) staker = 0.
Proof.
  split; [by vm_compute|].
  destruct (unstake_effect pid unstake.1 w9 (execute unstake w9) (config_of w9))
    as (staker & dst & now & sa & m & wp & wm & _ & ? & _ & _ & _ & ? & _ & _ & _ & ? & _);
    [by vm_compute|by vm_compute|].
  exists staker, dst, sa, wp. split_and!; assumption.
Defined.

Lemma claim_effect_witness :
  exists staker now sa,
    stake_at pid w9 staker = Some sa /\
    stake_at pid (execute claim w9) staker =
      Some (mkStakeAccount (owner sa) (amount sa) (staked_at sa) now 0 (bump sa)).
Proof.
  destruct (claim_effect pid claim.1 w9 (execute claim w9) (config_of w9))
    as (staker & dst & now & sa & m & wm & _ & ? & _ & _ & _ & ? & _);
    [by vm_compute|by vm_compute|].
  exists staker, now, sa. split; assumption.
Defined.

Lemma process_instruction_total_witness :
  process_instruction pid claim.1 [3] genesis <> Panic.
Proof. apply (process_instruction_total pid). Defined.

Lemma initialize_effect_witness :
  exists c, config_at pid w1 = Some c /\ config_wf c /\ max_supply c = 1000000000.
Proof.
  destruct (initialize_effect pid deploy.1 100 1000 10 50 6 100 1000000000 genesis w1)
    as (_ & c & ? & ? & _ & _ & ? & _).
  - repeat split; discriminate.
  - by vm_compute.
  - exists c. split_and!; assumption.
Defined.
