(* ===== verification/BotCore.v ===== *)
(** The error type the crates share ([core/src/error.rs]) and the checked
    integer steps the quoting code is written with.  An error is its variant;
    the text of its message is left out. *)
From stdpp Require Import prelude.
From Stdlib Require Import ZArith Lia.
From S2P Require Import Prelude.

#[local] Open Scope Z_scope.

(** The variants of [BotError] that the modelled code returns. *)
Inductive BotError : Type :=
  | Config
  | Db
  | Solana
  | Encoding
  | RiskRejected
  | NotFound
  | InvalidArgument
  | Unauthorized
  | ClaimRejected
  | OwnershipUnavailable
  | Other.

#[export] Instance BotError_eq_dec : EqDecision BotError.
Proof. solve_decision. Defined.

Abbreviation BotResult := (outcome BotError).

(** [u128] arithmetic that returns an error instead of wrapping. *)
Definition add128 (a b : Z) : BotResult Z := ok_or (checked_add u128_max a b) Solana.
Definition mul128 (a b : Z) : BotResult Z := ok_or (checked_mul u128_max a b) Solana.
Definition sub128 (a b : Z) : BotResult Z := ok_or (checked_sub a b) Solana.
Definition add64 (a b : Z) : BotResult Z := ok_or (checked_add u64_max a b) Solana.

(** [a / b]: Rust panics when [b] is zero. *)
Definition quot {E} (a b : Z) : outcome E Z := if b =? 0 then Panic else Ok (a / b).

(** [u64::try_from(v).map_err(..)]. *)
Definition try_u64 (v : Z) : BotResult Z := if v <=? u64_max then Ok v else Err Solana.

Lemma add128_Ok a b r : add128 a b = Ok r <-> a + b <= u128_max /\ r = a + b.
Proof. unfold add128. by rewrite ok_or_Ok, checked_add_Some. Qed.
Lemma mul128_Ok a b r : mul128 a b = Ok r <-> a * b <= u128_max /\ r = a * b.
Proof. unfold mul128. by rewrite ok_or_Ok, checked_mul_Some. Qed.
Lemma sub128_Ok a b r : sub128 a b = Ok r <-> b <= a /\ r = a - b.
Proof. unfold sub128. by rewrite ok_or_Ok, checked_sub_Some. Qed.
Lemma add64_Ok a b r : add64 a b = Ok r <-> a + b <= u64_max /\ r = a + b.
Proof. unfold add64. by rewrite ok_or_Ok, checked_add_Some. Qed.
Lemma quot_Ok {E} a b r : @quot E a b = Ok r <-> b <> 0 /\ r = a / b.
Proof.
  unfold quot. destruct (Z.eqb_spec b 0); split; intros Hq; try done.
  - by destruct Hq.
  - by injection Hq as <-.
  - by destruct Hq as [_ ->].
Qed.
Lemma try_u64_Ok v r : try_u64 v = Ok r <-> v <= u64_max /\ r = v.
Proof.
  unfold try_u64. destruct (Z.leb_spec v u64_max); split; intros Ht; try done.
  - by injection Ht as <-.
  - by destruct Ht as [_ ->].
  - lia.
Qed.

(** Take a successful checked computation apart, down to its arithmetic. *)
Ltac inv_calc_step :=
  match goal with
  | H : add128 _ _ = Ok _ |- _ => apply add128_Ok in H; destruct H as [? ?]
  | H : mul128 _ _ = Ok _ |- _ => apply mul128_Ok in H; destruct H as [? ?]
  | H : sub128 _ _ = Ok _ |- _ => apply sub128_Ok in H; destruct H as [? ?]
  | H : add64 _ _ = Ok _ |- _ => apply add64_Ok in H; destruct H as [? ?]
  | H : quot _ _ = Ok _ |- _ => apply quot_Ok in H; destruct H as [? ?]
  | H : try_u64 _ = Ok _ |- _ => apply try_u64_Ok in H; destruct H as [? ?]
  end.
Ltac inv_calc := repeat ((inv_calc_step || inv_ok_step); simplify_eq); bool_to_prop.

(** * State-passing code and how to reason about it.  A computation takes a state
    to a result and a state; [hoare P m Q] says what a computation started in a
    state of [P] leaves behind.  Every computation returns, so a triple is about
    what the code does, not only about what it would do if it returned. *)

Definition St (S A : Type) : Type := S -> A * S.

#[export] Instance St_ret {S} : MRet (St S) := fun A a s => (a, s).

#[export] Instance St_bind {S} : MBind (St S) := fun A B k m s => k (m s).1 (m s).2.

(** Read a part of the state, change it. *)
Definition gets {S A} (f : S -> A) : St S A := fun s => (f s, s).
Definition modify {S} (f : S -> S) : St S unit := fun s => (tt, f s).

Definition hoare {S A} (P : S -> Prop) (m : St S A) (Q : A -> S -> Prop) : Prop :=
  forall s, P s -> Q (m s).1 (m s).2.

Section Rules.
Context {S : Type}.

Lemma hoare_ret {A} (a : A) (Q : A -> S -> Prop) : hoare (Q a) (mret a) Q.
Proof. by intros s Hs. Qed.

Lemma hoare_bind {A B} (P : S -> Prop) (R : A -> S -> Prop) (Q : B -> S -> Prop)
    (m : St S A) (k : A -> St S B) :
  hoare P m R -> (forall a, hoare (R a) (k a) Q) -> hoare P (m ≫= k) Q.
Proof. intros Hm Hk s Hs. by apply Hk, Hm. Qed.

Lemma hoare_done {A} (a : A) (P : S -> Prop) (Q : A -> S -> Prop) :
  (forall s, P s -> Q a s) -> hoare P (mret a) Q.
Proof. intros HPQ s Hs. by apply HPQ. Qed.

Lemma hoare_seq {A B} (P R : S -> Prop) (Q : B -> S -> Prop) (m : St S A) (k : St S B) :
  hoare P m (fun _ => R) -> hoare R k Q -> hoare P (m ;; k) Q.
Proof. intros Hm Hk s Hs. by apply Hk, Hm. Qed.

Lemma hoare_gets {A} (f : S -> A) (Q : A -> S -> Prop) :
  hoare (fun s => Q (f s) s) (gets f) Q.
Proof. by intros s Hs. Qed.

Lemma hoare_modify (f : S -> S) (Q : unit -> S -> Prop) :
  hoare (fun s => Q tt (f s)) (modify f) Q.
Proof. by intros s Hs. Qed.

Lemma hoare_pre {A} (P P' : S -> Prop) (m : St S A) (Q : A -> S -> Prop) :
  (forall s, P' s -> P s) -> hoare P m Q -> hoare P' m Q.
Proof. intros HP Hm s Hs. by apply Hm, HP. Qed.

Lemma hoare_post {A} (P : S -> Prop) (m : St S A) (Q Q' : A -> S -> Prop) :
  (forall a s, Q a s -> Q' a s) -> hoare P m Q -> hoare P m Q'.
Proof. intros HQ Hm s Hs. by apply HQ, Hm. Qed.

Lemma hoare_and {A} (P P' : S -> Prop) (m : St S A) (Q Q' : A -> S -> Prop) :
  hoare P m Q -> hoare P' m Q' -> hoare (fun s => P s /\ P' s) m (fun a s => Q a s /\ Q' a s).
Proof. intros Hm Hm' s [? ?]. split; [by apply Hm|by apply Hm']. Qed.

(** A fact about the arguments alone. *)
Lemma hoare_pure {A} (p : Prop) (P : S -> Prop) (m : St S A) (Q : A -> S -> Prop) :
  (p -> hoare P m Q) -> hoare (fun s => p /\ P s) m Q.
Proof. intros Hm s [? ?]. by apply Hm. Qed.

(** What a computation does, when it does not matter what it returns. *)
Lemma hoare_skip {A B} (P : S -> Prop) (Q : B -> S -> Prop) (m : St S A) (k : A -> St S B) :
  hoare P m (fun _ => P) -> (forall a, hoare P (k a) Q) -> hoare P (m ≫= k) Q.
Proof. intros Hm Hk. by eapply hoare_bind. Qed.
End Rules.

(** Run a computation on a state it may change in part. *)
Definition zoom {S T A} (get : S -> T) (put : T -> S -> S) (m : St T A) : St S A :=
  fun s => let r := m (get s) in (r.1, put r.2 s).

(** ** Relations between the states before and after *)

(** Whatever state it starts in, the computation relates it to the one it
    leaves. *)
Definition keeps {S A} (R : S -> S -> Prop) (m : St S A) : Prop := forall s, R s (m s).2.

Section Keeps.
Context {S : Type} (R : S -> S -> Prop) `{!PreOrder R}.

Lemma keeps_ret {A} (a : A) : keeps R (mret a).
Proof. intros s. reflexivity. Qed.

Lemma keeps_gets {A} (f : S -> A) : keeps R (gets f).
Proof. intros s. reflexivity. Qed.

Lemma keeps_bind {A B} (m : St S A) (k : A -> St S B) :
  keeps R m -> (forall a, keeps R (k a)) -> keeps R (m ≫= k).
Proof. intros Hm Hk s. etrans; [apply Hm|apply Hk]. Qed.
End Keeps.
