(* ===== verification/ByteReader.v ===== *)
(** Little-endian byte layouts: the bounds-checked [Reader] and the
    [SyntheticWriter] of the account decoders
    ([venues/raydium_launchlab/accounts.rs]), with the law that reading a
    field consumes exactly the bytes that writing it produced. *)
From stdpp Require Import prelude.
From Stdlib Require Import ZArith Lia.
From S2P Require Import Prelude.
From S2P Require Import BotCore.

#[local] Open Scope Z_scope.

(** ** Integers and keys as bytes *)

(** [to_le_bytes] of an [n]-byte integer and [from_le_bytes]. *)
Fixpoint le_bytes (n : nat) (v : Z) : list Z :=
  match n with
  | O => []
  | S n => Z.land v 255 :: le_bytes n (Z.shiftr v 8)
  end.

Fixpoint from_le_bytes (b : list Z) : Z :=
  match b with
  | [] => 0
  | x :: rest => x + Z.shiftl (from_le_bytes rest) 8
  end.

(** A public key is the integer its 32 bytes spell, big-endian. *)
Definition pubkey_to_bytes (k : Z) : list Z := rev (le_bytes 32 k).
Definition pubkey_from_bytes (b : list Z) : Z := from_le_bytes (rev b).

Definition in_pubkey (k : Z) : Prop := 0 <= k < 2 ^ 256.

(** ** The reader: [data] and [pos] *)

Record ReaderState : Type := mkReader {
  rd_data : list Z;
  rd_pos : nat;
}.

Definition Reader (A : Type) : Type := ReaderState -> BotResult (A * ReaderState).

#[export] Instance Reader_ret : MRet Reader := fun A a r => Ok (a, r).
#[export] Instance Reader_bind : MBind Reader := fun A B k m r =>
  match m r with
  | Ok (a, r') => k a r'
  | Err e => Err e
  | Panic => Panic
  end.

Definition read_take (n : nat) : Reader (list Z) := fun r =>
  if (length r.(rd_data) <? r.(rd_pos) + n)%nat then Err Encoding
  else Ok (take n (drop r.(rd_pos) r.(rd_data)), mkReader r.(rd_data) (r.(rd_pos) + n)).

Definition read_u8 : Reader Z := b ← read_take 1; mret (from_le_bytes b).
Definition read_u16 : Reader Z := b ← read_take 2; mret (from_le_bytes b).
Definition read_u32 : Reader Z := b ← read_take 4; mret (from_le_bytes b).
Definition read_u64 : Reader Z := b ← read_take 8; mret (from_le_bytes b).
Definition read_pubkey : Reader Z := b ← read_take 32; mret (pubkey_from_bytes b).
Definition skip (n : nat) : Reader unit := read_take n ;; mret tt.

(** A pure, fallible step of a decoder, and the current position. *)
Definition reader_lift {A} (o : BotResult A) : Reader A := fun r =>
  match o with
  | Ok a => Ok (a, r)
  | Err e => Err e
  | Panic => Panic
  end.
Definition reader_pos : Reader nat := fun r => Ok (r.(rd_pos), r).

(** [Reader::new(&data[8..], ..)] and one decoder run over it. *)
Definition read_body {A} (m : Reader A) (data : list Z) : BotResult A :=
  match m (mkReader (drop 8 data) 0) with
  | Ok (a, _) => Ok a
  | Err e => Err e
  | Panic => Panic
  end.

Definition check_discriminator (data expected : list Z) : BotResult unit :=
  reject_if (length data <? 8)%nat Encoding ;;
  reject_if (negb (bool_decide (take 8 data = expected))) Encoding.

(** ** Integers *)

Lemma land_255 v : Z.land v 255 = v mod 2 ^ 8.
Proof. change 255 with (Z.ones 8). by apply Z.land_ones. Qed.

Lemma from_le_le_bytes n v : from_le_bytes (le_bytes n v) = v mod 2 ^ (8 * Z.of_nat n).
Proof.
  revert v. induction n as [|n IH]; intros v; cbn [le_bytes from_le_bytes].
  - change (2 ^ (8 * Z.of_nat 0)) with 1. by rewrite Z.mod_1_r.
  - rewrite IH, land_255, Z.shiftl_mul_pow2, Z.shiftr_div_pow2 by lia.
    replace (8 * Z.of_nat (S n)) with (8 + 8 * Z.of_nat n) by lia.
    rewrite Z.pow_add_r, Z.rem_mul_r by lia. lia.
Qed.

Lemma from_le_fits n v :
  0 <= v < 2 ^ (8 * Z.of_nat n) -> from_le_bytes (le_bytes n v) = v.
Proof. intros. by rewrite from_le_le_bytes, Z.mod_small. Qed.

Lemma length_le_bytes n v : length (le_bytes n v) = n.
Proof. revert v. induction n; intros; cbn; [done|]. by rewrite IHn. Qed.

Lemma from_le_range b :
  Forall (fun x => in_u8 x) b -> 0 <= from_le_bytes b < 2 ^ (8 * Z.of_nat (length b)).
Proof.
  induction 1 as [|x b Hx Hb IH]; cbn [from_le_bytes length]; [done|].
  replace (8 * Z.of_nat (S (length b))) with (8 + 8 * Z.of_nat (length b)) by lia.
  rewrite Z.shiftl_mul_pow2, Z.pow_add_r by lia. unfold_bounds.
  change (2 ^ 8) with 256. lia.
Qed.

(** ** What a reader consumes

    [reads m enc a]: wherever the bytes [enc] stand in the data, [m] started at
    them returns [a] and stops right after them. *)

Definition reads {A} (m : Reader A) (enc : list Z) (a : A) : Prop :=
  forall pre rest,
    m (mkReader (pre ++ enc ++ rest) (length pre))
    = Ok (a, mkReader (pre ++ enc ++ rest) (length pre + length enc)).

Lemma reads_ret {A} (a : A) : reads (mret a) [] a.
Proof. intros pre rest. cbn. by rewrite Nat.add_0_r. Qed.

Lemma reads_bind {A B} (m : Reader A) (k : A -> Reader B) e1 e2 a b :
  reads m e1 a -> reads (k a) e2 b -> reads (m ≫= k) (e1 ++ e2) b.
Proof.
  intros Hm Hk pre rest. unfold mbind, Reader_bind.
  rewrite <- (assoc_L (++)), (Hm pre (e2 ++ rest)).
  rewrite (assoc_L (++) pre e1), <- length_app, (Hk (pre ++ e1) rest).
  by rewrite !length_app, Nat.add_assoc.
Qed.

Lemma reads_bind_nil {A B} (m : Reader A) (k : A -> Reader B) e a b :
  reads m e a -> reads (k a) [] b -> reads (m ≫= k) e b.
Proof. intros Hm Hk. rewrite <- (app_nil_r e). by eapply reads_bind. Qed.

Lemma reads_take n e : length e = n -> reads (read_take n) e e.
Proof.
  intros <- pre rest. unfold read_take. cbn [rd_data rd_pos].
  rewrite !length_app, (proj2 (Nat.ltb_ge _ _)) by lia.
  by rewrite drop_app_length, take_app_length.
Qed.

Lemma reads_int (n : nat) v :
  0 <= v < 2 ^ (8 * Z.of_nat n) ->
  reads (b ← read_take n; mret (from_le_bytes b)) (le_bytes n v) v.
Proof.
  intros Hv. eapply reads_bind_nil; [apply reads_take, length_le_bytes|].
  rewrite from_le_fits by done. apply reads_ret.
Qed.

Lemma reads_u8 v : in_u8 v -> reads read_u8 (le_bytes 1 v) v.
Proof. intros. apply reads_int. mlia. Qed.
Lemma reads_u16 v : in_u16 v -> reads read_u16 (le_bytes 2 v) v.
Proof. intros. apply reads_int. mlia. Qed.
Lemma reads_u32 v : 0 <= v <= u32_max -> reads read_u32 (le_bytes 4 v) v.
Proof. intros. apply reads_int. mlia. Qed.
Lemma reads_u64 v : in_u64 v -> reads read_u64 (le_bytes 8 v) v.
Proof. intros. apply reads_int. mlia. Qed.

Lemma length_pubkey k : length (pubkey_to_bytes k) = 32%nat.
Proof. unfold pubkey_to_bytes. by rewrite length_rev, length_le_bytes. Qed.

Lemma reads_pubkey k : in_pubkey k -> reads read_pubkey (pubkey_to_bytes k) k.
Proof.
  intros Hk. eapply reads_bind_nil; [apply reads_take, length_pubkey|].
  unfold pubkey_from_bytes, pubkey_to_bytes. rewrite rev_involutive, from_le_fits by done.
  apply reads_ret.
Qed.

Lemma reads_skip n : reads (skip n) (replicate n 0) tt.
Proof. eapply reads_bind_nil; [apply reads_take, length_replicate|apply reads_ret]. Qed.

Lemma reads_lift {A} (o : BotResult A) a : o = Ok a -> reads (reader_lift o) [] a.
Proof. intros -> pre rest. cbn. by rewrite Nat.add_0_r. Qed.

Lemma reads_lift_bind {A B} (o : BotResult A) (k : A -> Reader B) a b :
  o = Ok a -> reads (k a) [] b -> reads (reader_lift o ≫= k) [] b.
Proof. intros Ho Hk. eapply (reads_bind _ _ [] []); [by apply reads_lift|done]. Qed.

(** [refuses m enc e]: on the bytes [enc], [m] returns the error [e]. *)
Definition refuses {A} (m : Reader A) (enc : list Z) (e : BotError) : Prop :=
  forall pre rest, m (mkReader (pre ++ enc ++ rest) (length pre)) = Err e.

Lemma refuses_bind {A B} (m : Reader A) (k : A -> Reader B) e1 e2 a e :
  reads m e1 a -> refuses (k a) e2 e -> refuses (m ≫= k) (e1 ++ e2) e.
Proof.
  intros Hm Hk pre rest. unfold mbind, Reader_bind.
  rewrite <- (assoc_L (++)), (Hm pre (e2 ++ rest)).
  rewrite (assoc_L (++) pre e1), <- length_app. apply (Hk (pre ++ e1) rest).
Qed.

Lemma refuses_bind_nil {A B} (m : Reader A) (k : A -> Reader B) enc a e :
  reads m enc a -> refuses (k a) [] e -> refuses (m ≫= k) enc e.
Proof. intros Hm Hk. rewrite <- (app_nil_r enc). by eapply refuses_bind. Qed.

Lemma refuses_lift {A B} (o : BotResult A) (k : A -> Reader B) e :
  o = Err e \/ (exists a, o = Ok a /\ refuses (k a) [] e) ->
  refuses (reader_lift o ≫= k) [] e.
Proof.
  intros [->|(a & -> & Hk)] pre rest; [done|].
  exact (refuses_bind (reader_lift (Ok a)) k [] [] a e (reads_lift _ _ eq_refl) Hk pre rest).
Qed.

Lemma read_body_refuses {A} (m : Reader A) disc body e :
  length disc = 8%nat -> refuses m body e -> read_body m (disc ++ body) = Err e.
Proof.
  intros Hd Hm. unfold read_body. rewrite <- Hd, drop_app_length.
  specialize (Hm [] []). cbn in Hm. rewrite app_nil_r in Hm. by rewrite Hm.
Qed.

Create HintDb reads discriminated.
#[export] Hint Resolve reads_u8 reads_u16 reads_u32 reads_u64 reads_pubkey reads_skip : reads.

(** Decoding a whole account: discriminator, then body. *)
Lemma read_body_reads {A} (m : Reader A) disc body a :
  length disc = 8%nat -> reads m body a -> read_body m (disc ++ body) = Ok a.
Proof.
  intros Hd Hm. unfold read_body. rewrite <- Hd, drop_app_length.
  specialize (Hm [] []). cbn in Hm. rewrite app_nil_r in Hm. by rewrite Hm.
Qed.

Lemma check_discriminator_app disc body :
  length disc = 8%nat -> check_discriminator (disc ++ body) disc = Ok tt.
Proof.
  intros Hd. unfold check_discriminator.
  rewrite length_app, (proj2 (Nat.ltb_ge _ _)) by lia. cbn.
  by rewrite <- Hd, take_app_length, bool_decide_true.
Qed.

(** A decoder that returns has found its fields within the account. *)
Lemma reader_bind_Ok {A B} (m : Reader A) (k : A -> Reader B) r b r' :
  (m ≫= k) r = Ok (b, r') <-> exists a r1, m r = Ok (a, r1) /\ k a r1 = Ok (b, r').
Proof.
  unfold mbind, Reader_bind. destruct (m r) as [[a r1]|e|]; split; intros Hk;
    try discriminate; try (by destruct Hk as (? & ? & ? & ?)).
  - by exists a, r1.
  - by destruct Hk as (? & ? & [= <- <-] & ?).
Qed.
Lemma reader_lift_Ok {A} (o : BotResult A) r a r' :
  reader_lift o r = Ok (a, r') <-> o = Ok a /\ r' = r.
Proof.
  unfold reader_lift. destruct o; split; intros Ho; try discriminate; try (by destruct Ho).
  - by injection Ho as <- <-.
  - by destruct Ho as [[= <-] ->].
Qed.

(** Reading bytes gives a non-negative integer and leaves the data alone. *)
Definition bytes_ok (r : ReaderState) : Prop := Forall (fun b => in_u8 b) r.(rd_data).

Lemma read_take_Ok n r b r' :
  bytes_ok r -> read_take n r = Ok (b, r') -> Forall (fun x => in_u8 x) b /\ bytes_ok r'.
Proof.
  unfold read_take, bytes_ok. intros Hb. destruct (_ <? _)%nat; [done|]. intros [= <- <-].
  split; [|done]. by apply Forall_take, Forall_drop.
Qed.

Lemma read_int_Ok n r v r' :
  bytes_ok r -> (b ← read_take n; mret (from_le_bytes b) : Reader Z) r = Ok (v, r') ->
  0 <= v /\ bytes_ok r'.
Proof.
  intros Hb (b & r1 & Ht & [= <- <-])%reader_bind_Ok.
  destruct (read_take_Ok _ _ _ _ Hb Ht) as [Hbs ?]. split; [|done].
  by destruct (from_le_range b Hbs).
Qed.

(** Walk through a decoder's integer reads, collecting their signs. *)
Ltac read_signs :=
  repeat match goal with
  | Hb : bytes_ok ?r, H : read_u64 ?r = Ok (?v, ?r') |- _ =>
      destruct (read_int_Ok 8 r v r' Hb H) as [? ?]; clear H Hb
  | Hb : bytes_ok ?r, H : read_u16 ?r = Ok (?v, ?r') |- _ =>
      destruct (read_int_Ok 2 r v r' Hb H) as [? ?]; clear H Hb
  | Hb : bytes_ok ?r, H : read_u8 ?r = Ok (?v, ?r') |- _ =>
      destruct (read_int_Ok 1 r v r' Hb H) as [? ?]; clear H Hb
  end.
