(* ===== verification/LaunchLabCurve.v ===== *)
(** The Raydium LaunchLab bonding-curve maths:
    [crates/solana-kit/src/venues/raydium_launchlab/curve.rs].  Each curve is a
    Module with the four operations of the source; the Newton square root is
    the source's loop. *)
From stdpp Require Import prelude.
From Stdlib Require Import ZArith Lia.
From S2P Require Import Prelude.
From S2P Require Import BotCore.

#[local] Open Scope Z_scope.

Definition RAYDIUM_LAUNCHLAB_FEE_RATE_DENOMINATOR : Z := 1000000.
Definition RAYDIUM_LAUNCHLAB_Q64 : Z := Z.shiftl 1 64.

(** ** Curve types and the state the curves read *)

Inductive CurveType : Type := ConstantProduct | FixedPrice | LinearPrice.

Definition CurveType_from_u8 (value : Z) : BotResult CurveType :=
  match value with
  | 0 => Ok ConstantProduct
  | 1 => Ok FixedPrice
  | 2 => Ok LinearPrice
  | _ => Err InvalidArgument
  end.

Definition CurveType_to_u8 (c : CurveType) : Z :=
  match c with
  | ConstantProduct => 0
  | FixedPrice => 1
  | LinearPrice => 2
  end.

(** All fields are [u64]. *)
Record CurveState : Type := mkCurveState {
  virtual_base : Z;
  virtual_quote : Z;
  real_base : Z;
  real_quote : Z;
  total_base_sell : Z;
  total_quote_fund_raising : Z;
}.

(** ** Shared arithmetic *)

Definition ceil_div (numerator denominator : Z) : BotResult Z :=
  if denominator =? 0 then Err Solana else
  if numerator =? 0 then Ok 0 else
  let quotient := numerator / denominator in
  if quotient =? 0 then Ok 1 else
  let remainder := numerator mod denominator in
  if 0 <? remainder then add128 quotient 1 else Ok quotient.

(** The Newton loop of [isqrt], on [fuel] iterations: [None] when the fuel runs
    out or [x + value / x] overflows [u128]. *)
Fixpoint newton (fuel : nat) (value x : Z) : option Z :=
  match fuel with
  | O => None
  | S fuel =>
      s ← checked_add u128_max x (value / x);
      let next := s / 2 in
      if x <=? next then Some x else newton fuel value next
  end.

(** The correction loop that follows it. *)
Fixpoint descend (fuel : nat) (value x : Z) : option Z :=
  match fuel with
  | O => None
  | S fuel =>
      if (0 <? x) && (value <? saturating_mul u128_max x x) then descend fuel value (x - 1)
      else Some x
  end.

(** The bit length of a positive [u128]: [128 - leading_zeros]. *)
Definition bit_length (value : Z) : Z := Z.log2 value + 1.

(** Iterations allowed to the Newton loop; [isqrt_correct] shows they suffice. *)
Definition ISQRT_FUEL : nat := 70.

Definition isqrt_run (value : Z) : option Z :=
  if value =? 0 then Some 0 else
  let x := Z.shiftl 1 ((bit_length value + 1) / 2) in
  x ← newton ISQRT_FUEL value x;
  descend ISQRT_FUEL value x.

Definition isqrt (value : Z) : Z := default 0 (isqrt_run value).

Definition total_fee_rate (protocol_fee_rate platform_fee_rate share_fee_rate
    creator_fee_rate : Z) : BotResult Z :=
  total ← add64 protocol_fee_rate platform_fee_rate;
  total ← add64 total share_fee_rate;
  total ← add64 total creator_fee_rate;
  if RAYDIUM_LAUNCHLAB_FEE_RATE_DENOMINATOR <? total then Err InvalidArgument
  else Ok total.

Definition calculate_fee (amount fee_rate : Z) : BotResult Z :=
  numerator ← mul128 amount fee_rate;
  let denominator := RAYDIUM_LAUNCHLAB_FEE_RATE_DENOMINATOR in
  v ← add128 numerator denominator;
  v ← sub128 v 1;
  quot v denominator.

Definition calculate_pre_fee (post_fee_amount fee_rate : Z) : BotResult Z :=
  if fee_rate =? 0 then Ok post_fee_amount else
  if RAYDIUM_LAUNCHLAB_FEE_RATE_DENOMINATOR <=? fee_rate then Err InvalidArgument else
  numerator ← mul128 post_fee_amount RAYDIUM_LAUNCHLAB_FEE_RATE_DENOMINATOR;
  let denominator := RAYDIUM_LAUNCHLAB_FEE_RATE_DENOMINATOR - fee_rate in
  v ← add128 numerator denominator;
  v ← sub128 v 1;
  quot v denominator.

(** All fields are [u128]. *)
Record FeeSplit : Type := mkFeeSplit {
  platform_fee : Z;
  share_fee : Z;
  protocol_fee : Z;
  creator_fee : Z;
}.

(** [FeeSplit::total]: plain [+], which panics on overflow. *)
Definition FeeSplit_total (s : FeeSplit) : outcome BotError Z :=
  let plus (m : outcome BotError Z) (b : Z) : outcome BotError Z :=
    a ← m; match checked_add u128_max a b with Some v => Ok v | None => Panic end in
  plus (plus (plus (Ok s.(platform_fee)) s.(share_fee)) s.(protocol_fee)) s.(creator_fee).

Definition split_fee (total_fee protocol_fee_rate platform_fee_rate share_fee_rate
    creator_fee_rate : Z) : BotResult FeeSplit :=
  rate ← total_fee_rate protocol_fee_rate platform_fee_rate share_fee_rate creator_fee_rate;
  if rate =? 0 then Ok (mkFeeSplit 0 0 0 0) else
  p ← mul128 total_fee platform_fee_rate;
  platform_fee ← quot p rate;
  s ← mul128 total_fee share_fee_rate;
  share_fee ← quot s rate;
  c ← mul128 total_fee creator_fee_rate;
  creator_fee ← quot c rate;
  v ← sub128 total_fee platform_fee;
  v ← sub128 v share_fee;
  protocol_fee ← sub128 v creator_fee;
  Ok (mkFeeSplit platform_fee share_fee protocol_fee creator_fee).

(** ** The three curves *)

Module ConstantProductCurve.

Definition buy_exact_in (state : CurveState) (amount_in : Z) : BotResult Z :=
  input_reserve ← add128 state.(virtual_quote) state.(real_quote);
  output_reserve ← sub128 state.(virtual_base) state.(real_base);
  numerator ← mul128 amount_in output_reserve;
  denominator ← add128 input_reserve amount_in;
  if denominator =? 0 then Err Solana else quot numerator denominator.

Definition buy_exact_out (state : CurveState) (amount_out : Z) : BotResult Z :=
  input_reserve ← add128 state.(virtual_quote) state.(real_quote);
  output_reserve ← sub128 state.(virtual_base) state.(real_base);
  numerator ← mul128 input_reserve amount_out;
  denominator ← sub128 output_reserve amount_out;
  ceil_div numerator denominator.

Definition sell_exact_in (state : CurveState) (amount_in : Z) : BotResult Z :=
  input_reserve ← sub128 state.(virtual_base) state.(real_base);
  output_reserve ← add128 state.(virtual_quote) state.(real_quote);
  numerator ← mul128 amount_in output_reserve;
  denominator ← add128 input_reserve amount_in;
  if denominator =? 0 then Err Solana else quot numerator denominator.

Definition sell_exact_out (state : CurveState) (amount_out : Z) : BotResult Z :=
  input_reserve ← sub128 state.(virtual_base) state.(real_base);
  output_reserve ← add128 state.(virtual_quote) state.(real_quote);
  numerator ← mul128 input_reserve amount_out;
  denominator ← sub128 output_reserve amount_out;
  ceil_div numerator denominator.

End ConstantProductCurve.

Module FixedPriceCurve.

Definition buy_exact_in (state : CurveState) (amount_in : Z) : BotResult Z :=
  numerator ← mul128 state.(virtual_base) amount_in;
  if state.(virtual_quote) =? 0 then Err Solana else quot numerator state.(virtual_quote).

Definition buy_exact_out (state : CurveState) (amount_out : Z) : BotResult Z :=
  numerator ← mul128 state.(virtual_quote) amount_out;
  if state.(virtual_base) =? 0 then Err Solana else ceil_div numerator state.(virtual_base).

Definition sell_exact_in (state : CurveState) (amount_in : Z) : BotResult Z :=
  numerator ← mul128 state.(virtual_quote) amount_in;
  if state.(virtual_base) =? 0 then Err Solana else quot numerator state.(virtual_base).

Definition sell_exact_out (state : CurveState) (amount_out : Z) : BotResult Z :=
  numerator ← mul128 state.(virtual_base) amount_out;
  if state.(virtual_quote) =? 0 then Err Solana else ceil_div numerator state.(virtual_quote).

End FixedPriceCurve.

Module LinearPriceCurve.

(** [/ u128::from(state.virtual_base)]: no check for zero. *)
Definition buy_exact_in (state : CurveState) (amount_in : Z) : BotResult Z :=
  new_quote ← add128 state.(real_quote) amount_in;
  v ← mul128 2 new_quote;
  v ← mul128 v RAYDIUM_LAUNCHLAB_Q64;
  term_inside_sqrt ← quot v state.(virtual_base);
  let sqrt_term := isqrt term_inside_sqrt in
  sub128 sqrt_term state.(real_base).

Definition buy_exact_out (state : CurveState) (amount_out : Z) : BotResult Z :=
  new_base ← add128 state.(real_base) amount_out;
  new_base_squared ← mul128 new_base new_base;
  numerator ← mul128 state.(virtual_base) new_base_squared;
  new_quote ← ceil_div numerator (2 * RAYDIUM_LAUNCHLAB_Q64);
  sub128 new_quote state.(real_quote).

Definition sell_exact_in (state : CurveState) (amount_in : Z) : BotResult Z :=
  new_base ← sub128 state.(real_base) amount_in;
  new_base_squared ← mul128 new_base new_base;
  numerator ← mul128 state.(virtual_base) new_base_squared;
  new_quote ← ceil_div numerator (2 * RAYDIUM_LAUNCHLAB_Q64);
  sub128 state.(real_quote) new_quote.

Definition sell_exact_out (state : CurveState) (amount_out : Z) : BotResult Z :=
  new_b ← sub128 state.(real_quote) amount_out;
  v ← mul128 2 new_b;
  v ← mul128 v RAYDIUM_LAUNCHLAB_Q64;
  term_inside_sqrt ← quot v state.(virtual_base);
  let sqrt_term := isqrt term_inside_sqrt in
  sub128 state.(real_base) sqrt_term.

End LinearPriceCurve.

(** ** The square root *)

Lemma sqrt_spec_iff v s q : 0 <= v -> s = Z.sqrt v -> 0 <= q -> (q <= s <-> q * q <= v).
Proof. intros Hv -> Hq. rewrite <- Z.sqrt_le_square by done. done. Qed.

(** One Newton step from above stays at or above the root. *)
Lemma newton_step_lower v x :
  0 < v -> 0 < x -> Z.sqrt v <= (x + v / x) / 2.
Proof.
  intros Hv Hx. set (s := Z.sqrt v).
  pose proof (Z.sqrt_spec v ltac:(lia)) as [Hs _]. fold s in Hs.
  apply Z.div_le_lower_bound; [lia|].
  assert (2 * s - x <= v / x) as Hq; [|lia].
  apply div_le_iff; [done|]. pose proof (Z.square_nonneg (s - x)). nia.
Qed.

(** From strictly above the root it at least halves the distance to it. *)
Lemma newton_step_halves v x :
  0 < v -> Z.sqrt v < x ->
  (x + v / x) / 2 - Z.sqrt v <= (x - Z.sqrt v) / 2.
Proof.
  intros Hv Hsx. set (s := Z.sqrt v) in *.
  pose proof (Z.sqrt_spec v ltac:(lia)) as [_ Hs]. fold s in Hs. cbn in Hs.
  pose proof (Z.sqrt_nonneg v) as Hnn. fold s in Hnn.
  assert (v / x <= s) as Hq.
  { enough (v / x < s + 1) by lia. apply div_lt_iff; nia. }
  replace ((x + v / x) / 2 - s) with ((x + v / x + (- s) * 2) / 2)
    by (rewrite Z.div_add by lia; lia).
  apply Z.div_le_mono; lia.
Qed.

Lemma sqrt_u128 v : v <= u128_max -> Z.sqrt v < 2 ^ 64.
Proof.
  intros Hv. destruct (Z.le_gt_cases 0 v); [|rewrite Z.sqrt_neg; lia].
  apply Z.sqrt_lt_square; mlia.
Qed.

Lemma div_sqrt_bound v : 0 < v <= u128_max -> v / Z.sqrt v <= 2 ^ 64 + 1.
Proof.
  intros Hv. pose proof (sqrt_u128 v ltac:(lia)).
  assert (0 < Z.sqrt v) by (apply Z.sqrt_pos; lia).
  pose proof (Z.sqrt_spec v ltac:(lia)) as [_ Hs]. cbn in Hs.
  assert (v <= Z.sqrt v * (Z.sqrt v + 2)) by lia.
  enough (v / Z.sqrt v < 2 ^ 64 + 2) by lia. apply div_lt_iff; [done|].
  apply Z.le_lt_trans with (Z.sqrt v * (Z.sqrt v + 2)); [done|].
  rewrite Z.mul_comm. apply Z.mul_lt_mono_pos_r; [done|].
  change (2 ^ 64) with 18446744073709551616 in *. lia.
Qed.

(** [n] steps from at most [2^n] above the root reach it. *)
Lemma newton_terminates n v x :
  0 < v <= u128_max -> Z.sqrt v <= x -> 0 < x <= 2 ^ 64 -> v / x <= 2 ^ 64 + 1 ->
  x - Z.sqrt v < 2 ^ Z.of_nat n ->
  newton (S n) v x = Some (Z.sqrt v).
Proof.
  intros Hv. revert x. induction n as [|n IH]; intros x Hsx Hx Hvx Hd.
  - assert (x = Z.sqrt v) as -> by (change (2 ^ Z.of_nat 0) with 1 in Hd; lia).
    pose proof (newton_step_lower v (Z.sqrt v) ltac:(lia) ltac:(lia)).
    cbn [newton]. rewrite checked_add_fits by mlia. cbn.
    by rewrite (proj2 (Z.leb_le _ _)).
  - pose proof (newton_step_lower v x ltac:(lia) ltac:(lia)) as Hlow.
    cbn [newton]. rewrite checked_add_fits by mlia. cbn [mbind option_bind].
    destruct (Z.leb_spec x ((x + v / x) / 2)) as [Hstop|Hgo].
    + f_equal. destruct (Z.eq_dec x (Z.sqrt v)) as [|Hne]; [done|].
      pose proof (newton_step_halves v x ltac:(lia) ltac:(lia)).
      pose proof (Z.div_lt (x - Z.sqrt v) 2 ltac:(lia) ltac:(lia)). lia.
    + assert (Z.sqrt v < x) by lia.
      pose proof (newton_step_halves v x ltac:(lia) ltac:(lia)) as Hh.
      assert (0 < Z.sqrt v) by (apply Z.sqrt_pos; lia).
      apply IH; [done|lia| |].
      * transitivity (v / Z.sqrt v); [apply Z.div_le_compat_l; lia|].
        by apply div_sqrt_bound.
      * rewrite Nat2Z.inj_succ, Z.pow_succ_r in Hd by lia.
        eapply Z.le_lt_trans; [exact Hh|]. apply div_lt_iff; lia.
Qed.

Lemma descend_root n v : 0 <= v <= u128_max -> descend (S n) v (Z.sqrt v) = Some (Z.sqrt v).
Proof.
  intros Hv. cbn [descend]. pose proof (Z.sqrt_spec v ltac:(lia)) as [Hs _].
  unfold saturating_mul.
  rewrite (proj2 (Z.ltb_ge v _)), andb_false_r by lia. done.
Qed.

(** The starting point: a power of two above the root. *)
Lemma newton_start v :
  0 < v <= u128_max ->
  let x := Z.shiftl 1 ((bit_length v + 1) / 2) in
  Z.sqrt v < x <= 2 ^ 64.
Proof.
  intros Hv. cbv zeta. rewrite Z.shiftl_1_l. unfold bit_length.
  pose proof (Z.log2_spec v ltac:(lia)) as [_ Hlog].
  assert (0 <= Z.log2 v < 128) as Hb.
  { split; [apply Z.log2_nonneg|]. apply Z.log2_lt_pow2; mlia. }
  set (e := (Z.log2 v + 1 + 1) / 2).
  assert (Z.log2 v + 1 <= 2 * e /\ e <= 64) as [He1 He2].
  { unfold e. pose proof (Z.mod_pos_bound (Z.log2 v + 1 + 1) 2 ltac:(lia)).
    pose proof (Z.div_mod (Z.log2 v + 1 + 1) 2 ltac:(lia)). lia. }
  split; [|apply Z.pow_le_mono_r; lia].
  apply Z.sqrt_lt_square; [lia|apply Z.pow_nonneg; lia|].
  eapply Z.lt_le_trans; [exact Hlog|].
  rewrite <- Z.pow_add_r by lia. apply Z.pow_le_mono_r; lia.
Qed.

Lemma isqrt_run_correct v : in_u128 v -> isqrt_run v = Some (Z.sqrt v).
Proof.
  intros Hv. unfold isqrt_run. destruct (Z.eqb_spec v 0) as [->|Hne]; [done|].
  assert (0 < v <= u128_max) as Hpos by mlia.
  pose proof (newton_start v Hpos) as [Hx1 Hx2]. cbv zeta in *.
  set (x := Z.shiftl 1 ((bit_length v + 1) / 2)) in *.
  assert (0 < Z.sqrt v) by (apply Z.sqrt_pos; lia).
  change ISQRT_FUEL with (S 69).
  rewrite (newton_terminates 69 v x); [by apply descend_root|done|lia|lia| |].
  - transitivity (v / Z.sqrt v); [apply Z.div_le_compat_l; lia|by apply div_sqrt_bound].
  - eapply Z.le_lt_trans with (2 ^ 64); [lia|]. done.
Qed.

Lemma isqrt_correct v : in_u128 v -> isqrt v = Z.sqrt v.
Proof. intros Hv. unfold isqrt. by rewrite isqrt_run_correct. Qed.

(** ** Ceilings and fees *)

Lemma ceil_div_Ok n d r :
  0 <= n -> 0 <= d -> ceil_div n d = Ok r -> 0 < d /\ r = cdiv n d.
Proof.
  intros Hn Hd. unfold ceil_div.
  destruct (Z.eqb_spec d 0) as [|Hd0]; [done|]. assert (0 < d) as Hpos by lia.
  rewrite cdiv_div_mod by done. pose proof (Z.mod_pos_bound n d Hpos).
  pose proof (Z.div_mod n d ltac:(lia)).
  destruct (Z.eqb_spec n 0) as [->|Hn0].
  { rewrite Z.div_0_l, Z.mod_0_l by lia. by intros [= <-]. }
  cbv zeta. destruct (Z.eqb_spec (n / d) 0) as [Hq|Hq].
  { intros [= <-]. destruct (Z.eqb_spec (n mod d) 0); [nia|]. lia. }
  destruct (0 <? n mod d) eqn:Hr; intros Hok; inv_calc;
    (lia || (destruct (Z.eqb_spec (n mod d) 0); lia)).
Qed.

Lemma ceil_div_le n d r c :
  0 <= n -> 0 <= d -> ceil_div n d = Ok r -> (r <= c <-> n <= c * d).
Proof. intros Hn Hd [Hpos ->]%ceil_div_Ok; [|done..]. by apply cdiv_le_iff. Qed.

Lemma calculate_fee_Ok amount rate f :
  calculate_fee amount rate = Ok f ->
  f = cdiv (amount * rate) RAYDIUM_LAUNCHLAB_FEE_RATE_DENOMINATOR.
Proof. unfold calculate_fee. intros Hf. inv_calc. done. Qed.

(** The fee is what keeps [amount - fee] at the floored complement. *)
Lemma amount_less_fee amount rate f :
  calculate_fee amount rate = Ok f ->
  amount - f = amount * (RAYDIUM_LAUNCHLAB_FEE_RATE_DENOMINATOR - rate)
               / RAYDIUM_LAUNCHLAB_FEE_RATE_DENOMINATOR.
Proof.
  intros ->%calculate_fee_Ok. set (D := RAYDIUM_LAUNCHLAB_FEE_RATE_DENOMINATOR).
  assert (0 < D) by done.
  apply Z.le_antisymm.
  - apply div_le_iff; [done|]. pose proof (cdiv_bounds (amount * rate) D ltac:(done)). lia.
  - enough (cdiv (amount * rate) D <= amount - amount * (D - rate) / D) by lia.
    apply cdiv_le_iff; [done|].
    pose proof (Z.mul_div_le (amount * (D - rate)) D ltac:(done)). lia.
Qed.

(** The gross-up is the least amount whose net covers [post]. *)
Lemma pre_fee_le post rate g p :
  0 <= rate -> calculate_pre_fee post rate = Ok g ->
  (g <= p <-> post <= p * (RAYDIUM_LAUNCHLAB_FEE_RATE_DENOMINATOR - rate)
                      / RAYDIUM_LAUNCHLAB_FEE_RATE_DENOMINATOR).
Proof.
  unfold calculate_pre_fee. set (D := RAYDIUM_LAUNCHLAB_FEE_RATE_DENOMINATOR).
  assert (0 < D) by done. intros Hr.
  destruct (Z.eqb_spec rate 0) as [->|Hne].
  { intros [= <-]. rewrite Z.sub_0_r, Z.div_mul by lia. done. }
  destruct (Z.leb_spec D rate); [done|]. intros Hg. inv_calc.
  change ((post * D + (D - rate) - 1) / (D - rate)) with (cdiv (post * D) (D - rate)).
  rewrite cdiv_le_iff, div_le_iff by lia. done.
Qed.

(** ** Properties *)

(** [isqrt] terminates on every [u128], without overflow in its Newton
    step, and returns the exact floor of the square root. *)
Theorem isqrt_exact v (Hv : in_u128 v) :
  exists r, isqrt_run v = Some r /\ isqrt v = r /\ r * r <= v < (r + 1) * (r + 1).
Proof.
  exists (Z.sqrt v). rewrite isqrt_run_correct, isqrt_correct by done. split_and!; try done.
  - apply Z.sqrt_spec. apply Hv.
  - apply Z.sqrt_spec. apply Hv.
Qed.

Lemma isqrt_exact_witness :
  exists r, isqrt_run u128_max = Some r /\ isqrt u128_max = r /\
    r * r <= u128_max < (r + 1) * (r + 1).
Proof. apply isqrt_exact. mlia. Defined.

Lemma total_fee_rate_sum a b c d r :
  total_fee_rate a b c d = Ok r ->
  r = a + b + c + d /\ r <= RAYDIUM_LAUNCHLAB_FEE_RATE_DENOMINATOR.
Proof. unfold total_fee_rate. intros Hr. inv_calc. case_match; inv_calc. lia. Qed.

(** the fee split loses nothing: the four parts add up to the total fee
    (the addition cannot overflow), the platform, share and creator parts are
    their floored shares, and the protocol keeps at least its own. *)
Theorem split_fee_complete total rp rf rs rc s
  (Ht : in_u128 total) (Hr : 0 <= rp /\ 0 <= rf /\ 0 <= rs /\ 0 <= rc)
  (Hpos : 0 < rp + rf + rs + rc) (Hs : split_fee total rp rf rs rc = Ok s) :
  let rate := rp + rf + rs + rc in
  FeeSplit_total s = Ok total /\
  platform_fee s = total * rf / rate /\ share_fee s = total * rs / rate /\
  creator_fee s = total * rc / rate /\ total * rp / rate <= protocol_fee s.
Proof.
  cbv zeta. destruct Hr as (? & ? & ? & ?). unfold split_fee in Hs.
  apply outcome_bind_Ok in Hs as (rate & [-> _]%total_fee_rate_sum & Hs).
  set (r := rp + rf + rs + rc) in *. destruct (Z.eqb_spec r 0); [lia|].
  assert (0 <= total) by apply Ht. inv_calc. cbn [platform_fee share_fee creator_fee protocol_fee].
  assert (0 <= total * rf / r /\ 0 <= total * rs / r /\ 0 <= total * rc / r /\
          0 <= total * rp / r) as (? & ? & ? & ?)
    by (split_and!; (apply Z.div_pos; [by apply Z.mul_nonneg_nonneg|lia])).
  assert (total * rf / r + total * rs / r + total * rc / r + total * rp / r <= total) as Hsum.
  { pose proof (div_add_bounds (total * rf) (total * rs) r ltac:(lia)).
    pose proof (div_add_bounds (total * rf + total * rs) (total * rc) r ltac:(lia)).
    pose proof (div_add_bounds (total * rf + total * rs + total * rc) (total * rp) r ltac:(lia)).
    replace (total * rf + total * rs + total * rc + total * rp) with (total * r) in * by (unfold r; ring).
    rewrite Z.div_mul in * by lia. lia. }
  split_and!; try done; try lia.
  unfold FeeSplit_total. cbn [platform_fee share_fee creator_fee protocol_fee].
  destruct Ht. repeat (cbn [mbind outcome_bind]; rewrite checked_add_fits by lia).
  f_equal. lia.
Qed.

Lemma split_fee_complete_witness :
  exists s, split_fee 1000001 2500 100 0 50 = Ok s /\ FeeSplit_total s = Ok 1000001.
Proof.
  eexists. split; [reflexivity|].
  refine (proj1 (split_fee_complete 1000001 2500 100 0 50 _ _ _ _ eq_refl)); mlia.
Defined.

(** on the constant-product curve the product of the reserves never
    decreases, whether buying or selling, and a trade never takes more than
    the reserve holds. *)
Theorem constant_product_invariant s a b c d
  (Hs : 0 <= virtual_quote s + real_quote s) (Ha : 0 <= a)
  (Hb : ConstantProductCurve.buy_exact_in s a = Ok b)
  (Hc : 0 <= c) (Hd : ConstantProductCurve.sell_exact_in s c = Ok d) :
  let quote := virtual_quote s + real_quote s in
  let base := virtual_base s - real_base s in
  quote * base <= (quote + a) * (base - b) /\ 0 <= b <= base /\
  quote * base <= (quote - d) * (base + c) /\ 0 <= d <= quote.
Proof.
  cbv zeta. unfold ConstantProductCurve.buy_exact_in, ConstantProductCurve.sell_exact_in in *.
  inv_calc. repeat case_match; inv_calc.
  set (q := virtual_quote s + real_quote s) in *. set (r := virtual_base s - real_base s) in *.
  assert (0 <= r) by lia.
  pose proof (Z.mul_div_le (a * r) (q + a) ltac:(lia)).
  pose proof (Z.mul_div_le (c * q) (r + c) ltac:(lia)).
  split_and!; try (apply Z.div_pos; nia); try (apply Z.div_le_upper_bound; nia); nia.
Qed.

Definition sample_curve : CurveState := mkCurveState 1073471847374405 30050573465 0 0 0 0.

Lemma constant_product_invariant_witness :
  0 <= 35720986411 <= 1073471847374405 /\ 0 <= 27 <= 30050573465.
Proof.
  assert (0 <= virtual_quote sample_curve + real_quote sample_curve) as Hs by (cbn; lia).
  assert (0 <= 1000000) as Ha by lia.
  assert (ConstantProductCurve.buy_exact_in sample_curve 1000000 = Ok 35720986411) as Hb
    by by vm_compute.
  assert (ConstantProductCurve.sell_exact_in sample_curve 1000000 = Ok 27) as Hd
    by by vm_compute.
  destruct (constant_product_invariant sample_curve 1000000 35720986411 1000000 27 Hs Ha Hb Ha Hd)
    as (_ & Hbuy & _ & Hsell).
  split; [exact Hbuy|exact Hsell].
Defined.
