(* ===== verification/LaunchLabAccounts.v ===== *)
(** The Raydium LaunchLab accounts: decoders and synthetic encoders of
    [crates/solana-kit/src/venues/raydium_launchlab/accounts.rs].  Accounts are
    byte lists; a decoder is a [Reader] over the bytes after the discriminator,
    field by field in the source's order. *)
From stdpp Require Import prelude.
From Stdlib Require Import ZArith Lia.
From S2P Require Import Prelude.
From S2P Require Import BotCore.
From S2P Require Import ByteReader.
From S2P Require Import LaunchLabCurve.

#[local] Open Scope Z_scope.

Definition RAYDIUM_LAUNCHLAB_ACC_DISC_POOL_STATE : list Z :=
  [247; 237; 227; 245; 215; 195; 222; 70].
Definition RAYDIUM_LAUNCHLAB_ACC_DISC_GLOBAL_CONFIG : list Z :=
  [149; 8; 156; 202; 160; 252; 176; 217].
Definition RAYDIUM_LAUNCHLAB_ACC_DISC_PLATFORM_CONFIG : list Z :=
  [160; 78; 128; 0; 248; 83; 230; 160].
Definition RAYDIUM_LAUNCHLAB_ACC_DISC_VESTING_RECORD : list Z :=
  [106; 243; 221; 205; 230; 126; 85; 83].

Definition RAYDIUM_LAUNCHLAB_POOL_STATE_LEN : nat := 429.
Definition RAYDIUM_LAUNCHLAB_GLOBAL_CONFIG_LEN : nat := 371.
Definition RAYDIUM_LAUNCHLAB_VESTING_RECORD_LEN : nat := 160.

Definition Pubkey_default : Z := 0.

(** ** Enumerations stored as one byte *)

Inductive LaunchLabPoolStatus : Type := Fund | Migrate | Trade.

Definition LaunchLabPoolStatus_from_u8 (value : Z) : BotResult LaunchLabPoolStatus :=
  match value with
  | 0 => Ok Fund
  | 1 => Ok Migrate
  | 2 => Ok Trade
  | _ => Err Encoding
  end.
Definition LaunchLabPoolStatus_to_u8 (s : LaunchLabPoolStatus) : Z :=
  match s with Fund => 0 | Migrate => 1 | Trade => 2 end.

Inductive LaunchLabMigrateType : Type := Amm | CpSwap.

Definition LaunchLabMigrateType_from_u8 (value : Z) : BotResult LaunchLabMigrateType :=
  match value with
  | 0 => Ok Amm
  | 1 => Ok CpSwap
  | _ => Err Encoding
  end.
Definition LaunchLabMigrateType_to_u8 (m : LaunchLabMigrateType) : Z :=
  match m with Amm => 0 | CpSwap => 1 end.

Inductive AmmCreatorFeeOn : Type := QuoteToken | BothToken.

Definition AmmCreatorFeeOn_from_u8 (value : Z) : BotResult AmmCreatorFeeOn :=
  match value with
  | 0 => Ok QuoteToken
  | 1 => Ok BothToken
  | _ => Err Encoding
  end.
Definition AmmCreatorFeeOn_to_u8 (f : AmmCreatorFeeOn) : Z :=
  match f with QuoteToken => 0 | BothToken => 1 end.

#[export] Instance LaunchLabPoolStatus_eq_dec : EqDecision LaunchLabPoolStatus.
Proof. solve_decision. Defined.
#[export] Instance LaunchLabMigrateType_eq_dec : EqDecision LaunchLabMigrateType.
Proof. solve_decision. Defined.

(** ** The account records *)

Record VestingSchedule : Type := mkVestingSchedule {
  vs_total_locked_amount : Z;  (* u64 *)
  vs_cliff_period : Z;  (* u64 *)
  vs_unlock_period : Z;  (* u64 *)
  vs_start_time : Z;  (* u64 *)
  vs_total_allocated_share : Z;  (* u64 *)
}.

Record PoolState : Type := mkPoolState {
  ps_epoch : Z;  (* u64 *)
  ps_auth_bump : Z;  (* u8 *)
  ps_status : LaunchLabPoolStatus;
  ps_base_decimals : Z;  (* u8 *)
  ps_quote_decimals : Z;  (* u8 *)
  ps_migrate_type : LaunchLabMigrateType;
  ps_supply : Z;  (* u64 *)
  ps_total_base_sell : Z;  (* u64 *)
  ps_virtual_base : Z;  (* u64 *)
  ps_virtual_quote : Z;  (* u64 *)
  ps_real_base : Z;  (* u64 *)
  ps_real_quote : Z;  (* u64 *)
  ps_total_quote_fund_raising : Z;  (* u64 *)
  ps_quote_protocol_fee : Z;  (* u64 *)
  ps_platform_fee : Z;  (* u64 *)
  ps_migrate_fee : Z;  (* u64 *)
  ps_vesting_schedule : VestingSchedule;
  ps_global_config : Z;  (* pubkey *)
  ps_platform_config : Z;  (* pubkey *)
  ps_base_mint : Z;  (* pubkey *)
  ps_quote_mint : Z;  (* pubkey *)
  ps_base_vault : Z;  (* pubkey *)
  ps_quote_vault : Z;  (* pubkey *)
  ps_creator : Z;  (* pubkey *)
  ps_token_program_flag : Z;  (* u8 *)
  ps_amm_creator_fee_on : AmmCreatorFeeOn;
  ps_platform_vesting_share : Z;  (* u64 *)
}.

Record GlobalConfig : Type := mkGlobalConfig {
  gc_epoch : Z;  (* u64 *)
  gc_curve_type : Z;  (* u8 *)
  gc_index : Z;  (* u16 *)
  gc_migrate_fee : Z;  (* u64 *)
  gc_trade_fee_rate : Z;  (* u64 *)
  gc_max_share_fee_rate : Z;  (* u64 *)
  gc_min_base_supply : Z;  (* u64 *)
  gc_max_lock_rate : Z;  (* u64 *)
  gc_min_base_sell_rate : Z;  (* u64 *)
  gc_min_base_migrate_rate : Z;  (* u64 *)
  gc_min_quote_fund_raising : Z;  (* u64 *)
  gc_quote_mint : Z;  (* pubkey *)
  gc_protocol_fee_owner : Z;  (* pubkey *)
  gc_migrate_fee_owner : Z;  (* pubkey *)
  gc_migrate_to_amm_wallet : Z;  (* pubkey *)
  gc_migrate_to_cpswap_wallet : Z;  (* pubkey *)
  gc_requires_platform_auth : Z;  (* u8 *)
}.

(** [PlatformConfig]: the fixed prefix that the decoder reads. *)
Record PlatformConfig : Type := mkPlatformConfig {
  pc_epoch : Z;  (* u64 *)
  pc_platform_fee_wallet : Z;  (* pubkey *)
  pc_platform_nft_wallet : Z;  (* pubkey *)
  pc_platform_scale : Z;  (* u64 *)
  pc_creator_scale : Z;  (* u64 *)
  pc_burn_scale : Z;  (* u64 *)
  pc_fee_rate : Z;  (* u64 *)
  pc_creator_fee_rate : Z;  (* u64 *)
  pc_transfer_fee_extension_auth : Z;  (* pubkey *)
  pc_platform_vesting_wallet : Z;  (* pubkey *)
  pc_platform_vesting_scale : Z;  (* u64 *)
  pc_platform_cp_creator : Z;  (* pubkey *)
  pc_cpswap_config : Z;  (* pubkey *)
}.

Record VestingAccount : Type := mkVestingAccount {
  va_epoch : Z;  (* u64 *)
  va_pool : Z;  (* pubkey *)
  va_beneficiary : Z;  (* pubkey *)
  va_claimed_amount : Z;  (* u64 *)
  va_token_share_amount : Z;  (* u64 *)
}.

(** ** Decoders *)

Definition read_vesting_schedule : Reader VestingSchedule :=
  total_locked_amount ← read_u64;
  cliff_period ← read_u64;
  unlock_period ← read_u64;
  start_time ← read_u64;
  total_allocated_share ← read_u64;
  mret (mkVestingSchedule total_locked_amount cliff_period unlock_period start_time total_allocated_share).

(** The body of [PoolState::decode], after the length check. *)
Definition read_pool_state : Reader PoolState :=
  epoch ← read_u64;
  auth_bump ← read_u8;
  status_raw ← read_u8;
  base_decimals ← read_u8;
  quote_decimals ← read_u8;
  migrate_type_raw ← read_u8;
  supply ← read_u64;
  total_base_sell ← read_u64;
  virtual_base ← read_u64;
  virtual_quote ← read_u64;
  real_base ← read_u64;
  real_quote ← read_u64;
  total_quote_fund_raising ← read_u64;
  quote_protocol_fee ← read_u64;
  platform_fee ← read_u64;
  migrate_fee ← read_u64;
  vesting_schedule ← read_vesting_schedule;
  global_config ← read_pubkey;
  platform_config ← read_pubkey;
  base_mint ← read_pubkey;
  quote_mint ← read_pubkey;
  base_vault ← read_pubkey;
  quote_vault ← read_pubkey;
  creator ← read_pubkey;
  token_program_flag ← read_u8;
  amm_creator_fee_on_raw ← read_u8;
  platform_vesting_share ← read_u64;
  skip 54 ;;
  reader_lift (reject_if (base_mint =? quote_mint) Encoding) ;;
  reader_lift (reject_if ((base_mint =? Pubkey_default) || (quote_mint =? Pubkey_default))
                 Encoding) ;;
  reader_lift (reject_if (supply <? total_base_sell) Encoding) ;;
  status ← reader_lift (LaunchLabPoolStatus_from_u8 status_raw);
  migrate_type ← reader_lift (LaunchLabMigrateType_from_u8 migrate_type_raw);
  amm_creator_fee_on ← reader_lift (AmmCreatorFeeOn_from_u8 amm_creator_fee_on_raw);
  mret (mkPoolState epoch auth_bump status base_decimals quote_decimals migrate_type supply total_base_sell virtual_base virtual_quote
    real_base real_quote total_quote_fund_raising quote_protocol_fee platform_fee migrate_fee vesting_schedule global_config
    platform_config base_mint quote_mint base_vault quote_vault creator token_program_flag amm_creator_fee_on platform_vesting_share).

Definition PoolState_decode (data : list Z) : BotResult PoolState :=
  check_discriminator data RAYDIUM_LAUNCHLAB_ACC_DISC_POOL_STATE ;;
  reject_if (negb (length data =? RAYDIUM_LAUNCHLAB_POOL_STATE_LEN)%nat) Encoding ;;
  read_body read_pool_state data.

Definition read_global_config : Reader GlobalConfig :=
  epoch ← read_u64;
  curve_type ← read_u8;
  index ← read_u16;
  migrate_fee ← read_u64;
  trade_fee_rate ← read_u64;
  max_share_fee_rate ← read_u64;
  min_base_supply ← read_u64;
  max_lock_rate ← read_u64;
  min_base_sell_rate ← read_u64;
  min_base_migrate_rate ← read_u64;
  min_quote_fund_raising ← read_u64;
  quote_mint ← read_pubkey;
  protocol_fee_owner ← read_pubkey;
  migrate_fee_owner ← read_pubkey;
  migrate_to_amm_wallet ← read_pubkey;
  migrate_to_cpswap_wallet ← read_pubkey;
  requires_platform_auth ← read_u8;
  skip 7 ;;
  skip (15 * 8) ;;
  reader_lift (reject_if (2 <? curve_type) Encoding) ;;
  reader_lift (reject_if (RAYDIUM_LAUNCHLAB_FEE_RATE_DENOMINATOR <=? trade_fee_rate) Encoding) ;;
  mret (mkGlobalConfig epoch curve_type index migrate_fee trade_fee_rate max_share_fee_rate min_base_supply max_lock_rate
    min_base_sell_rate min_base_migrate_rate min_quote_fund_raising quote_mint protocol_fee_owner migrate_fee_owner migrate_to_amm_wallet migrate_to_cpswap_wallet requires_platform_auth).

Definition GlobalConfig_decode (data : list Z) : BotResult GlobalConfig :=
  check_discriminator data RAYDIUM_LAUNCHLAB_ACC_DISC_GLOBAL_CONFIG ;;
  reject_if (negb (length data =? RAYDIUM_LAUNCHLAB_GLOBAL_CONFIG_LEN)%nat) Encoding ;;
  read_body read_global_config data.

(** [GlobalConfig::curve]. *)
Definition GlobalConfig_curve (c : GlobalConfig) : BotResult CurveType :=
  CurveType_from_u8 c.(gc_curve_type).

(** The fixed prefix of a [PlatformConfig], [FIXED_LEN] in the source. *)
Definition PLATFORM_CONFIG_FIXED_LEN : nat :=
  (8 + 8 + 2 * 32 + 3 * 8 + 8 + 64 + 256 + 256 + 32 + 8 + 32 + 32 + 8 + 32 + 108 + 4)%nat.

Definition read_platform_config (data_len : nat) : Reader PlatformConfig :=
  epoch ← read_u64;
  platform_fee_wallet ← read_pubkey;
  platform_nft_wallet ← read_pubkey;
  platform_scale ← read_u64;
  creator_scale ← read_u64;
  burn_scale ← read_u64;
  fee_rate ← read_u64;
  skip 64 ;;
  skip 256 ;;
  skip 256 ;;
  cpswap_config ← read_pubkey;
  creator_fee_rate ← read_u64;
  transfer_fee_extension_auth ← read_pubkey;
  platform_vesting_wallet ← read_pubkey;
  platform_vesting_scale ← read_u64;
  platform_cp_creator ← read_pubkey;
  skip 108 ;;
  curve_param_count ← read_u32;
  pos ← reader_pos;
  reader_lift (reject_if (Z.of_nat ((data_len - pos) / 8) <? curve_param_count) Encoding) ;;
  mret (mkPlatformConfig epoch platform_fee_wallet platform_nft_wallet platform_scale
    creator_scale burn_scale fee_rate creator_fee_rate transfer_fee_extension_auth
    platform_vesting_wallet platform_vesting_scale platform_cp_creator cpswap_config).

Definition PlatformConfig_decode (data : list Z) : BotResult PlatformConfig :=
  check_discriminator data RAYDIUM_LAUNCHLAB_ACC_DISC_PLATFORM_CONFIG ;;
  reject_if (length data <? PLATFORM_CONFIG_FIXED_LEN)%nat Encoding ;;
  read_body (read_platform_config (length data)) data.

Definition read_vesting_record : Reader VestingAccount :=
  epoch ← read_u64;
  pool ← read_pubkey;
  beneficiary ← read_pubkey;
  claimed_amount ← read_u64;
  token_share_amount ← read_u64;
  skip (8 * 8) ;;
  mret (mkVestingAccount epoch pool beneficiary claimed_amount token_share_amount).

Definition VestingAccount_decode (data : list Z) : BotResult VestingAccount :=
  check_discriminator data RAYDIUM_LAUNCHLAB_ACC_DISC_VESTING_RECORD ;;
  reject_if (negb (length data =? RAYDIUM_LAUNCHLAB_VESTING_RECORD_LEN)%nat) Encoding ;;
  read_body read_vesting_record data.

(** [VestingAccount::remaining]. *)
Definition VestingAccount_remaining (v : VestingAccount) : Z :=
  saturating_sub v.(va_token_share_amount) v.(va_claimed_amount).

(** ** Questions a decoded pool answers *)

Definition base_is_token_2022 (p : PoolState) : bool :=
  negb (Z.land p.(ps_token_program_flag) 1 =? 0).
Definition quote_is_token_2022 (p : PoolState) : bool :=
  negb (Z.land p.(ps_token_program_flag) 2 =? 0).
Definition is_curve_open (p : PoolState) : bool := bool_decide (p.(ps_status) = Fund).
Definition remaining_base (p : PoolState) : Z :=
  saturating_sub p.(ps_total_base_sell) p.(ps_real_base).
Definition remaining_quote_fund_raising (p : PoolState) : Z :=
  saturating_sub p.(ps_total_quote_fund_raising) p.(ps_real_quote).
Definition migratable_base (p : PoolState) : Z :=
  saturating_sub (saturating_sub p.(ps_supply) p.(ps_total_base_sell))
    p.(ps_vesting_schedule).(vs_total_locked_amount).

(** ** The synthetic encoders *)

(** [SyntheticPoolState]: the pool's fields, the enumerations as raw bytes. *)
Record SyntheticPoolState : Type := mkSyntheticPoolState {
  sy_epoch : Z;  (* u64 *)
  sy_auth_bump : Z;  (* u8 *)
  sy_status : Z;
  sy_base_decimals : Z;  (* u8 *)
  sy_quote_decimals : Z;  (* u8 *)
  sy_migrate_type : Z;
  sy_supply : Z;  (* u64 *)
  sy_total_base_sell : Z;  (* u64 *)
  sy_virtual_base : Z;  (* u64 *)
  sy_virtual_quote : Z;  (* u64 *)
  sy_real_base : Z;  (* u64 *)
  sy_real_quote : Z;  (* u64 *)
  sy_total_quote_fund_raising : Z;  (* u64 *)
  sy_quote_protocol_fee : Z;  (* u64 *)
  sy_platform_fee : Z;  (* u64 *)
  sy_migrate_fee : Z;  (* u64 *)
  sy_vesting_schedule : VestingSchedule;
  sy_global_config : Z;  (* pubkey *)
  sy_platform_config : Z;  (* pubkey *)
  sy_base_mint : Z;  (* pubkey *)
  sy_quote_mint : Z;  (* pubkey *)
  sy_base_vault : Z;  (* pubkey *)
  sy_quote_vault : Z;  (* pubkey *)
  sy_creator : Z;  (* pubkey *)
  sy_token_program_flag : Z;  (* u8 *)
  sy_amm_creator_fee_on : Z;
  sy_platform_vesting_share : Z;  (* u64 *)
}.

(** [SyntheticPoolState::encode]: the discriminator, then each field's bytes
    in the order the writer appends them. *)
Definition SyntheticPoolState_body (s : SyntheticPoolState) : list Z :=
  le_bytes 8 s.(sy_epoch) ++
  le_bytes 1 s.(sy_auth_bump) ++
  le_bytes 1 s.(sy_status) ++
  le_bytes 1 s.(sy_base_decimals) ++
  le_bytes 1 s.(sy_quote_decimals) ++
  le_bytes 1 s.(sy_migrate_type) ++
  le_bytes 8 s.(sy_supply) ++
  le_bytes 8 s.(sy_total_base_sell) ++
  le_bytes 8 s.(sy_virtual_base) ++
  le_bytes 8 s.(sy_virtual_quote) ++
  le_bytes 8 s.(sy_real_base) ++
  le_bytes 8 s.(sy_real_quote) ++
  le_bytes 8 s.(sy_total_quote_fund_raising) ++
  le_bytes 8 s.(sy_quote_protocol_fee) ++
  le_bytes 8 s.(sy_platform_fee) ++
  le_bytes 8 s.(sy_migrate_fee) ++
  le_bytes 8 s.(sy_vesting_schedule).(vs_total_locked_amount) ++
  le_bytes 8 s.(sy_vesting_schedule).(vs_cliff_period) ++
  le_bytes 8 s.(sy_vesting_schedule).(vs_unlock_period) ++
  le_bytes 8 s.(sy_vesting_schedule).(vs_start_time) ++
  le_bytes 8 s.(sy_vesting_schedule).(vs_total_allocated_share) ++
  pubkey_to_bytes s.(sy_global_config) ++
  pubkey_to_bytes s.(sy_platform_config) ++
  pubkey_to_bytes s.(sy_base_mint) ++
  pubkey_to_bytes s.(sy_quote_mint) ++
  pubkey_to_bytes s.(sy_base_vault) ++
  pubkey_to_bytes s.(sy_quote_vault) ++
  pubkey_to_bytes s.(sy_creator) ++
  le_bytes 1 s.(sy_token_program_flag) ++
  le_bytes 1 s.(sy_amm_creator_fee_on) ++
  le_bytes 8 s.(sy_platform_vesting_share) ++
  replicate 54 0.

Definition SyntheticPoolState_encode (s : SyntheticPoolState) : list Z :=
  RAYDIUM_LAUNCHLAB_ACC_DISC_POOL_STATE ++ SyntheticPoolState_body s.

(** [encode_synthetic_vesting_record]. *)
Definition encode_synthetic_vesting_record (pool beneficiary : Z) : list Z :=
  RAYDIUM_LAUNCHLAB_ACC_DISC_VESTING_RECORD ++
  le_bytes 8 0 ++ pubkey_to_bytes pool ++ pubkey_to_bytes beneficiary ++ le_bytes 8 0 ++
  le_bytes 8 1000000 ++ replicate (8 * 8) 0.

(** [encode_synthetic_global_config]; [fresh] are the four [Pubkey::new_unique()]
    it draws. *)
Definition encode_synthetic_global_config (curve_type quote_mint : Z) (fresh : list Z) : list Z :=
  RAYDIUM_LAUNCHLAB_ACC_DISC_GLOBAL_CONFIG ++
  le_bytes 8 0 ++ le_bytes 1 curve_type ++ le_bytes 2 0 ++ le_bytes 8 0 ++ le_bytes 8 2500 ++
  le_bytes 8 0 ++ le_bytes 8 0 ++ le_bytes 8 0 ++ le_bytes 8 0 ++ le_bytes 8 0 ++ le_bytes 8 0 ++
  pubkey_to_bytes quote_mint ++
  concat (map pubkey_to_bytes (take 4 fresh)) ++
  le_bytes 1 0 ++ replicate 7 0 ++ replicate (15 * 8) 0.

(** ** What a synthetic pool decodes to *)

Record synthetic_widths (s : SyntheticPoolState) : Prop := {
  sw_epoch : in_u64 s.(sy_epoch);
  sw_auth_bump : in_u8 s.(sy_auth_bump);
  sw_status : in_u8 s.(sy_status);
  sw_base_decimals : in_u8 s.(sy_base_decimals);
  sw_quote_decimals : in_u8 s.(sy_quote_decimals);
  sw_migrate_type : in_u8 s.(sy_migrate_type);
  sw_supply : in_u64 s.(sy_supply);
  sw_total_base_sell : in_u64 s.(sy_total_base_sell);
  sw_virtual_base : in_u64 s.(sy_virtual_base);
  sw_virtual_quote : in_u64 s.(sy_virtual_quote);
  sw_real_base : in_u64 s.(sy_real_base);
  sw_real_quote : in_u64 s.(sy_real_quote);
  sw_total_quote_fund_raising : in_u64 s.(sy_total_quote_fund_raising);
  sw_quote_protocol_fee : in_u64 s.(sy_quote_protocol_fee);
  sw_platform_fee : in_u64 s.(sy_platform_fee);
  sw_migrate_fee : in_u64 s.(sy_migrate_fee);
  sw_total_locked_amount : in_u64 s.(sy_vesting_schedule).(vs_total_locked_amount);
  sw_cliff_period : in_u64 s.(sy_vesting_schedule).(vs_cliff_period);
  sw_unlock_period : in_u64 s.(sy_vesting_schedule).(vs_unlock_period);
  sw_start_time : in_u64 s.(sy_vesting_schedule).(vs_start_time);
  sw_total_allocated_share : in_u64 s.(sy_vesting_schedule).(vs_total_allocated_share);
  sw_global_config : in_pubkey s.(sy_global_config);
  sw_platform_config : in_pubkey s.(sy_platform_config);
  sw_base_mint : in_pubkey s.(sy_base_mint);
  sw_quote_mint : in_pubkey s.(sy_quote_mint);
  sw_base_vault : in_pubkey s.(sy_base_vault);
  sw_quote_vault : in_pubkey s.(sy_quote_vault);
  sw_creator : in_pubkey s.(sy_creator);
  sw_token_program_flag : in_u8 s.(sy_token_program_flag);
  sw_amm_creator_fee_on : in_u8 s.(sy_amm_creator_fee_on);
  sw_platform_vesting_share : in_u64 s.(sy_platform_vesting_share);
}.

(** The checks a decoder makes on the raw fields. *)
Definition synthetic_valid (s : SyntheticPoolState) : bool :=
  negb (s.(sy_base_mint) =? s.(sy_quote_mint)) &&
  negb ((s.(sy_base_mint) =? Pubkey_default) || (s.(sy_quote_mint) =? Pubkey_default)) &&
  negb (s.(sy_supply) <? s.(sy_total_base_sell)) &&
  is_ok (LaunchLabPoolStatus_from_u8 s.(sy_status)) &&
  is_ok (LaunchLabMigrateType_from_u8 s.(sy_migrate_type)) &&
  is_ok (AmmCreatorFeeOn_from_u8 s.(sy_amm_creator_fee_on)).

(** The synthetic fixture of a decoded pool. *)
Definition synthetic_of (p : PoolState) : SyntheticPoolState :=
  mkSyntheticPoolState p.(ps_epoch) p.(ps_auth_bump) (LaunchLabPoolStatus_to_u8 p.(ps_status))
    p.(ps_base_decimals) p.(ps_quote_decimals)
    (LaunchLabMigrateType_to_u8 p.(ps_migrate_type)) p.(ps_supply) p.(ps_total_base_sell)
    p.(ps_virtual_base) p.(ps_virtual_quote) p.(ps_real_base) p.(ps_real_quote)
    p.(ps_total_quote_fund_raising) p.(ps_quote_protocol_fee) p.(ps_platform_fee)
    p.(ps_migrate_fee) p.(ps_vesting_schedule) p.(ps_global_config)
    p.(ps_platform_config) p.(ps_base_mint) p.(ps_quote_mint) p.(ps_base_vault)
    p.(ps_quote_vault) p.(ps_creator) p.(ps_token_program_flag)
    (AmmCreatorFeeOn_to_u8 p.(ps_amm_creator_fee_on)) p.(ps_platform_vesting_share).

(** ** Round trip *)

Lemma reads_vesting_bind {B} (k : VestingSchedule -> Reader B) v e b :
  in_u64 v.(vs_total_locked_amount) -> in_u64 v.(vs_cliff_period) ->
  in_u64 v.(vs_unlock_period) -> in_u64 v.(vs_start_time) ->
  in_u64 v.(vs_total_allocated_share) ->
  reads (k v) e b ->
  reads (read_vesting_schedule ≫= k)
    (le_bytes 8 v.(vs_total_locked_amount) ++ le_bytes 8 v.(vs_cliff_period) ++
     le_bytes 8 v.(vs_unlock_period) ++ le_bytes 8 v.(vs_start_time) ++
     le_bytes 8 v.(vs_total_allocated_share) ++ e) b.
Proof.
  intros ? ? ? ? ? Hk. rewrite !(assoc_L (++)). eapply reads_bind; [|exact Hk].
  rewrite <- !(assoc_L (++)). unfold read_vesting_schedule.
  do 4 (eapply reads_bind; [by eauto with reads|]; cbv beta).
  eapply reads_bind_nil; [by eauto with reads|]. destruct v. apply reads_ret.
Qed.

(** The fields of a decoder, one after the other. *)
Ltac reads_fields :=
  repeat (first [apply reads_vesting_bind; [assumption..|]
                | eapply reads_bind; [by eauto with reads|]]; cbv beta).

Lemma status_byte s : LaunchLabPoolStatus_from_u8 (LaunchLabPoolStatus_to_u8 s) = Ok s.
Proof. by destruct s. Qed.
Lemma migrate_byte m : LaunchLabMigrateType_from_u8 (LaunchLabMigrateType_to_u8 m) = Ok m.
Proof. by destruct m. Qed.
Lemma fee_on_byte f : AmmCreatorFeeOn_from_u8 (AmmCreatorFeeOn_to_u8 f) = Ok f.
Proof. by destruct f. Qed.

Lemma reads_vesting_refuses {B} (k : VestingSchedule -> Reader B) v e err :
  in_u64 v.(vs_total_locked_amount) -> in_u64 v.(vs_cliff_period) ->
  in_u64 v.(vs_unlock_period) -> in_u64 v.(vs_start_time) ->
  in_u64 v.(vs_total_allocated_share) ->
  refuses (k v) e err ->
  refuses (read_vesting_schedule ≫= k)
    (le_bytes 8 v.(vs_total_locked_amount) ++ le_bytes 8 v.(vs_cliff_period) ++
     le_bytes 8 v.(vs_unlock_period) ++ le_bytes 8 v.(vs_start_time) ++
     le_bytes 8 v.(vs_total_allocated_share) ++ e) err.
Proof.
  intros ? ? ? ? ? Hk. rewrite !(assoc_L (++)). eapply refuses_bind; [|exact Hk].
  rewrite <- !(assoc_L (++)), <- (app_nil_r (le_bytes 8 v.(vs_total_allocated_share))).
  pose proof (reads_vesting_bind mret v [] v) as Hr. cbv beta in Hr.
  intros pre rest. specialize (Hr ltac:(done) ltac:(done) ltac:(done) ltac:(done) ltac:(done)
    (reads_ret v) pre rest).
  rewrite <- Hr. unfold mbind, Reader_bind.
  by destruct (read_vesting_schedule _) as [[? ?]| |].
Qed.

Ltac refuses_fields :=
  repeat (first [apply reads_vesting_refuses; [assumption..|]
                | eapply refuses_bind; [by eauto with reads|]]; cbv beta).

(** A fixture in range decodes exactly when the decoder's checks hold, and then
    to the pool it encodes. *)
Lemma reads_pool_state p :
  let s := synthetic_of p in
  synthetic_widths s -> synthetic_valid s = true ->
  reads read_pool_state (SyntheticPoolState_body s) p.
Proof.
  cbv zeta. intros [] Hv. unfold synthetic_valid in Hv.
  apply andb_true_iff in Hv as [Hv _]. apply andb_true_iff in Hv as [Hv _].
  apply andb_true_iff in Hv as [Hv _]. apply andb_true_iff in Hv as [Hv Hsell].
  apply andb_true_iff in Hv as [Hmints Hzero].
  apply negb_true_iff in Hmints, Hzero, Hsell.
  unfold SyntheticPoolState_body, read_pool_state. reads_fields.
  eapply reads_bind_nil; [apply reads_skip|].
  eapply reads_lift_bind; [by rewrite Hmints|].
  eapply reads_lift_bind; [by rewrite Hzero|].
  eapply reads_lift_bind; [by rewrite Hsell|].
  eapply reads_lift_bind; [apply status_byte|].
  eapply reads_lift_bind; [apply migrate_byte|].
  eapply reads_lift_bind; [apply fee_on_byte|].
  destruct p. apply reads_ret.
Qed.

Lemma enum_refuses {A} (o : BotResult A) :
  o <> Panic -> (forall e, o = Err e -> e = Encoding) -> is_ok o = false -> o = Err Encoding.
Proof. destruct o as [| e |]; intros Hp He Hk; try done. by rewrite (He e). Qed.

Lemma byte_enums_refuse v :
  (is_ok (LaunchLabPoolStatus_from_u8 v) = false -> LaunchLabPoolStatus_from_u8 v = Err Encoding) /\
  (is_ok (LaunchLabMigrateType_from_u8 v) = false -> LaunchLabMigrateType_from_u8 v = Err Encoding) /\
  (is_ok (AmmCreatorFeeOn_from_u8 v) = false -> AmmCreatorFeeOn_from_u8 v = Err Encoding).
Proof. by destruct v as [|[|[]|]|]. Qed.

Lemma refuses_pool_state s :
  synthetic_widths s -> synthetic_valid s = false ->
  refuses read_pool_state (SyntheticPoolState_body s) Encoding.
Proof.
  intros [] Hv. unfold synthetic_valid in Hv.
  unfold SyntheticPoolState_body, read_pool_state. refuses_fields.
  eapply refuses_bind_nil; [apply reads_skip|]. cbv beta.
  destruct (byte_enums_refuse (sy_status s)) as (Hst & _ & _).
  destruct (byte_enums_refuse (sy_migrate_type s)) as (_ & Hmg & _).
  destruct (byte_enums_refuse (sy_amm_creator_fee_on s)) as (_ & _ & Hfo).
  apply refuses_lift. destruct (sy_base_mint s =? sy_quote_mint s); [by left|right; exists tt].
  split; [done|].
  apply refuses_lift.
  destruct ((sy_base_mint s =? Pubkey_default) || (sy_quote_mint s =? Pubkey_default));
    [by left|right; exists tt]. split; [done|].
  apply refuses_lift. destruct (sy_supply s <? sy_total_base_sell s); [by left|right; exists tt].
  split; [done|]. cbn [negb andb] in Hv.
  apply refuses_lift. destruct (LaunchLabPoolStatus_from_u8 (sy_status s)) as [st| |];
    [right; exists st; split; [done|]|left; by apply Hst..].
  apply refuses_lift. destruct (LaunchLabMigrateType_from_u8 (sy_migrate_type s)) as [mt| |];
    [right; exists mt; split; [done|]|left; by apply Hmg..].
  apply refuses_lift. destruct (AmmCreatorFeeOn_from_u8 (sy_amm_creator_fee_on s)) as [fo| |];
    [discriminate Hv|left; by apply Hfo..].
Qed.

Lemma length_body s : length (SyntheticPoolState_body s) = 421%nat.
Proof.
  unfold SyntheticPoolState_body.
  by rewrite !length_app, !length_le_bytes, !length_pubkey, length_replicate.
Qed.

Lemma decode_encode s :
  PoolState_decode (SyntheticPoolState_encode s)
  = read_body read_pool_state (SyntheticPoolState_encode s).
Proof.
  unfold PoolState_decode, SyntheticPoolState_encode.
  rewrite check_discriminator_app by done. cbn [mbind outcome_bind].
  by rewrite length_app, length_body.
Qed.

(** ** Properties *)

(** C40: decoding a pool account's bytes gives back the pool they encode, for
    every pool whose fields fit their widths and that the decoder's sanity
    checks accept. *)
Theorem pool_state_roundtrip p
  (Hw : synthetic_widths (synthetic_of p)) (Hv : synthetic_valid (synthetic_of p) = true) :
  PoolState_decode (SyntheticPoolState_encode (synthetic_of p)) = Ok p.
Proof.
  rewrite decode_encode. apply read_body_reads; [done|]. by apply reads_pool_state.
Qed.

(** An account with an unknown status, migration target or fee side, with
    equal or zero mints, or selling more than its supply, is refused with a
    typed error: no default value is made up. *)
Theorem pool_state_refuses s
  (Hw : synthetic_widths s) (Hv : synthetic_valid s = false) :
  PoolState_decode (SyntheticPoolState_encode s) = Err Encoding.
Proof.
  rewrite decode_encode. apply read_body_refuses; [done|]. by apply refuses_pool_state.
Qed.

(** A whole decoder, step by step. *)
Ltac inv_reader :=
  repeat match goal with
  | H : (_ ≫= _) _ = Ok (_, _) |- _ => apply reader_bind_Ok in H as (? & ? & ? & H)
  | H : reader_lift _ _ = Ok (_, _) |- _ => apply reader_lift_Ok in H as [? ?]
  | H : reject_if _ _ = Ok _ |- _ => apply reject_if_Ok in H
  | H : mret _ _ = Ok (_, _) |- _ => injection H as H
  end.

Lemma read_body_Ok {A} (m : Reader A) data a :
  read_body m data = Ok a -> exists r, m (mkReader (drop 8 data) 0) = Ok (a, r).
Proof.
  unfold read_body. destruct (m _) as [[a' r]| |]; intros [= <-]. by exists r.
Qed.

Lemma check_discriminator_Ok data disc u :
  check_discriminator data disc = Ok u -> take 8 data = disc.
Proof. unfold check_discriminator. intros Hc. inv_ok. bool_to_prop. done. Qed.

(** whatever the bytes, a pool that decodes came from an account of the
    exact length that starts with the pool discriminator, and satisfies the
    decoder's sanity checks. *)
Theorem pool_state_decode_sound data p (Hd : PoolState_decode data = Ok p) :
  length data = RAYDIUM_LAUNCHLAB_POOL_STATE_LEN /\
  take 8 data = RAYDIUM_LAUNCHLAB_ACC_DISC_POOL_STATE /\
  ps_base_mint p <> ps_quote_mint p /\
  ps_base_mint p <> Pubkey_default /\ ps_quote_mint p <> Pubkey_default /\
  ps_total_base_sell p <= ps_supply p.
Proof.
  unfold PoolState_decode in Hd. apply outcome_bind_Ok in Hd as ([] & Hdisc & Hd).
  apply outcome_bind_Ok in Hd as ([] & Hlen & Hd).
  apply check_discriminator_Ok in Hdisc. apply reject_if_Ok in Hlen.
  apply negb_false_iff, Nat.eqb_eq in Hlen.
  apply read_body_Ok in Hd as (r & Hd). unfold read_pool_state in Hd. inv_reader.
  subst. bool_to_prop. cbn. done.
Qed.

(** A configuration account that decodes names a curve the maths
    implements, and a trade fee below the denominator. *)
Theorem global_config_decode_sound data c
  (Hbytes : Forall (fun b => in_u8 b) data) (Hd : GlobalConfig_decode data = Ok c) :
  (exists ct, GlobalConfig_curve c = Ok ct) /\
  0 <= gc_trade_fee_rate c < RAYDIUM_LAUNCHLAB_FEE_RATE_DENOMINATOR.
Proof.
  unfold GlobalConfig_decode in Hd. apply outcome_bind_Ok in Hd as ([] & _ & Hd).
  apply outcome_bind_Ok in Hd as ([] & Hlen & Hd).
  apply read_body_Ok in Hd as (r & Hd). unfold read_global_config in Hd. inv_reader.
  assert (bytes_ok (mkReader (drop 8 data) 0)) as Hb by (by apply Forall_drop).
  read_signs. bool_to_prop. subst c. cbn. split; [|lia].
  unfold GlobalConfig_curve. cbn.
  match goal with H : ?ct <= 2, H0 : 0 <= ?ct |- _ =>
    assert (ct = 0 \/ ct = 1 \/ ct = 2) as [->|[->| ->]] by lia; by eexists end.
Qed.

(** ** Concrete accounts *)

(** [SyntheticPoolState::default()], the unique keys numbered. *)
Definition sample_pool : PoolState :=
  mkPoolState 0 254 Fund 6 9 CpSwap 1000000000000000 793100000000000 1073471847374405
    30050573465 0 0 85000000000 0 0 0 (mkVestingSchedule 0 0 0 0 0) 1 2 3 4 5 6 7 0
    QuoteToken 0.

Lemma sample_pool_widths : synthetic_widths (synthetic_of sample_pool).
Proof. split; cbn; first [mlia | unfold in_pubkey; lia]. Qed.

Lemma pool_state_roundtrip_witness :
  PoolState_decode (SyntheticPoolState_encode (synthetic_of sample_pool)) = Ok sample_pool.
Proof. apply pool_state_roundtrip; [exact sample_pool_widths|reflexivity]. Defined.

(** The same pool with status byte 7. *)
Definition sample_bad_status : SyntheticPoolState :=
  mkSyntheticPoolState 0 254 7 6 9 1 1000000000000000 793100000000000 1073471847374405
    30050573465 0 0 85000000000 0 0 0 (mkVestingSchedule 0 0 0 0 0) 1 2 3 4 5 6 7 0 0 0.

Lemma pool_state_refuses_witness :
  PoolState_decode (SyntheticPoolState_encode sample_bad_status) = Err Encoding.
Proof.
  apply pool_state_refuses; [|reflexivity].
  split; cbn; first [mlia | unfold in_pubkey; lia].
Defined.

Lemma pool_state_decode_sound_witness :
  length (SyntheticPoolState_encode (synthetic_of sample_pool)) = 429%nat.
Proof.
  apply (pool_state_decode_sound _ sample_pool). by vm_compute.
Defined.

Definition sample_config_bytes : list Z := encode_synthetic_global_config 2 9 [1; 2; 3; 4].
Definition sample_config : GlobalConfig :=
  mkGlobalConfig 0 2 0 0 2500 0 0 0 0 0 0 9 1 2 3 4 0.

Lemma global_config_decode_sound_witness :
  0 <= gc_trade_fee_rate sample_config < RAYDIUM_LAUNCHLAB_FEE_RATE_DENOMINATOR.
Proof.
  apply (global_config_decode_sound sample_config_bytes sample_config).
  - apply Forall_forall. intros b Hb.
    assert (forallb (fun x => (0 <=? x) && (x <=? 255)) sample_config_bytes = true) as Hall
      by by vm_compute.
    rewrite forallb_forall in Hall. specialize (Hall b ltac:(by apply list_elem_of_In)).
    bool_to_prop. mlia.
  - by vm_compute.
Defined.

(** *** The curve-parameter count is checked against eight bytes too many *)

(** A [PlatformConfig] account of exactly the fixed length, with no byte after
    the count, that declares one curve parameter. *)
Definition platform_config_no_params : list Z :=
  RAYDIUM_LAUNCHLAB_ACC_DISC_PLATFORM_CONFIG ++ replicate 932 0 ++ le_bytes 4 1.

(** The decoder accepts an account that declares one curve parameter and
    holds no byte of it: the remaining length is computed from the whole
    account but the position counts from after the discriminator. *)
Theorem platform_config_count_overrun :
  length platform_config_no_params = PLATFORM_CONFIG_FIXED_LEN /\
  is_ok (PlatformConfig_decode platform_config_no_params) = true.
Proof. by vm_compute. Qed.
