(* ===== verification/LaunchLabQuote.v ===== *)
(** Quoting on a LaunchLab pool
    ([venues/raydium_launchlab/adapter.rs]) and the migration decision
    ([migration.rs]).  The interface [CurveLaws] states what a curve promises
    to the quotes: each exact-output operation computes the least input whose
    exact-input result covers the output.  The three curves implement it; the
    quotes, fees included, inherit it. *)
From stdpp Require Import prelude.
From Stdlib Require Import ZArith Lia.
From S2P Require Import Prelude.
From S2P Require Import BotCore.
From S2P Require Import LaunchLabCurve.
From S2P Require Import LaunchLabAccounts.

#[local] Open Scope Z_scope.

(** ** The pool a quote reads *)

Record LaunchLabPool : Type := mkLaunchLabPool {
  pool : Z;
  state : PoolState;
  config : GlobalConfig;
}.

Definition curve_state (p : LaunchLabPool) : CurveState :=
  {| virtual_base := p.(state).(ps_virtual_base);
     virtual_quote := p.(state).(ps_virtual_quote);
     real_base := p.(state).(ps_real_base);
     real_quote := p.(state).(ps_real_quote);
     total_base_sell := p.(state).(ps_total_base_sell);
     total_quote_fund_raising := p.(state).(ps_total_quote_fund_raising) |}.

Definition curve_type (p : LaunchLabPool) : BotResult CurveType := GlobalConfig_curve p.(config).
Definition trade_fee_rate (p : LaunchLabPool) : Z := p.(config).(gc_trade_fee_rate).
Definition platform_fee_rate (platform_config : option PlatformConfig) : Z :=
  match platform_config with Some c => c.(pc_fee_rate) | None => 0 end.
Definition creator_fee_rate (platform_config : option PlatformConfig) : Z :=
  match platform_config with Some c => c.(pc_creator_fee_rate) | None => 0 end.

(** ** Quotes *)

Definition quote_buy (p : LaunchLabPool) (amount_in platform_rate creator_rate share_rate : Z)
    : BotResult Z :=
  let st := curve_state p in
  fee_rate ← total_fee_rate (trade_fee_rate p) platform_rate share_rate creator_rate;
  total_fee ← calculate_fee amount_in fee_rate;
  amount_less_fee ← sub128 amount_in total_fee;
  ct ← curve_type p;
  out ← match ct with
        | ConstantProduct => ConstantProductCurve.buy_exact_in st amount_less_fee
        | FixedPrice => FixedPriceCurve.buy_exact_in st amount_less_fee
        | LinearPrice => LinearPriceCurve.buy_exact_in st amount_less_fee
        end;
  try_u64 out.

Definition quote_buy_exact_out (p : LaunchLabPool)
    (amount_out platform_rate creator_rate share_rate : Z) : BotResult Z :=
  let st := curve_state p in
  ct ← curve_type p;
  amount_less_fee ← match ct with
        | ConstantProduct => ConstantProductCurve.buy_exact_out st amount_out
        | FixedPrice => FixedPriceCurve.buy_exact_out st amount_out
        | LinearPrice => LinearPriceCurve.buy_exact_out st amount_out
        end;
  fee_rate ← total_fee_rate (trade_fee_rate p) platform_rate share_rate creator_rate;
  gross ← calculate_pre_fee amount_less_fee fee_rate;
  try_u64 gross.

Definition quote_sell (p : LaunchLabPool) (amount_in platform_rate creator_rate share_rate : Z)
    : BotResult Z :=
  let st := curve_state p in
  ct ← curve_type p;
  gross ← match ct with
        | ConstantProduct => ConstantProductCurve.sell_exact_in st amount_in
        | FixedPrice => FixedPriceCurve.sell_exact_in st amount_in
        | LinearPrice => LinearPriceCurve.sell_exact_in st amount_in
        end;
  fee_rate ← total_fee_rate (trade_fee_rate p) platform_rate share_rate creator_rate;
  total_fee ← calculate_fee gross fee_rate;
  net ← sub128 gross total_fee;
  try_u64 net.

Definition quote_sell_exact_out (p : LaunchLabPool)
    (amount_out platform_rate creator_rate share_rate : Z) : BotResult Z :=
  let st := curve_state p in
  ct ← curve_type p;
  fee_rate ← total_fee_rate (trade_fee_rate p) platform_rate share_rate creator_rate;
  gross ← calculate_pre_fee amount_out fee_rate;
  needed ← match ct with
        | ConstantProduct => ConstantProductCurve.sell_exact_out st gross
        | FixedPrice => FixedPriceCurve.sell_exact_out st gross
        | LinearPrice => LinearPriceCurve.sell_exact_out st gross
        end;
  try_u64 needed.

(** ** Migration ([migration.rs]) *)

Inductive LaunchLabRoute : Type := Curve | Cpmm | AmmV4.
Inductive MigrationTarget : Type := LaunchLabCurveTarget | RaydiumCpmm | RaydiumAmmV4.

#[export] Instance LaunchLabRoute_eq_dec : EqDecision LaunchLabRoute.
Proof. solve_decision. Defined.

Record MigrationDecision : Type := mkMigrationDecision {
  route : LaunchLabRoute;
  target : MigrationTarget;
  md_migrate_type : LaunchLabMigrateType;
  md_status : LaunchLabPoolStatus;
  threshold_met : bool;
  liquidity : Z;
}.

Definition is_migrated (r : LaunchLabRoute) : bool := negb (bool_decide (r = Curve)).

Definition migratable_base_amount (p : PoolState) : Z :=
  saturating_sub (saturating_sub p.(ps_supply) p.(ps_total_base_sell))
    p.(ps_vesting_schedule).(vs_total_locked_amount).

Definition migration_liquidity (p : PoolState) : Z :=
  isqrt (saturating_mul u128_max (migratable_base_amount p) p.(ps_total_quote_fund_raising)).

Definition migration_liquidity_minimum (p : PoolState) : Z :=
  match p.(ps_migrate_type) with
  | Amm => 10 ^ Z.min p.(ps_base_decimals) 38
  | CpSwap => 100
  end.

Definition migration_threshold_met (p : PoolState) : bool :=
  migration_liquidity_minimum p <? migration_liquidity p.

Definition decide_route (p : PoolState) : MigrationDecision :=
  let liquidity := migration_liquidity p in
  let threshold_met := migration_threshold_met p in
  let '(r, t) :=
    match p.(ps_status) with
    | Fund | Migrate => (Curve, LaunchLabCurveTarget)
    | Trade =>
        match p.(ps_migrate_type) with
        | Amm => (AmmV4, RaydiumAmmV4)
        | CpSwap => (Cpmm, RaydiumCpmm)
        end
    end in
  {| route := r; target := t; md_migrate_type := p.(ps_migrate_type);
     md_status := p.(ps_status); threshold_met := threshold_met; liquidity := liquidity |}.

Definition decide_route_with_config (p : PoolState) (c : GlobalConfig)
    : BotResult MigrationDecision :=
  let decision := decide_route p in
  (if decide (decision.(route) = Curve) then _ ← GlobalConfig_curve c; mret tt else mret tt) ;;
  Ok decision.

(** [RaydiumLaunchLab::is_tradable] and [migration_target]. *)
Definition is_tradable (p : LaunchLabPool) : bool := is_curve_open p.(state).
Definition migration_target (p : LaunchLabPool) : MigrationTarget :=
  (decide_route p.(state)).(target).

(** [RaydiumLaunchLab::detect_pool]: the length test, then [decode().ok()]. *)
Definition detect_pool (data : list Z) : outcome BotError (option PoolState) :=
  if negb (length data =? RAYDIUM_LAUNCHLAB_POOL_STATE_LEN)%nat then Ok None
  else match PoolState_decode data with
       | Ok p => Ok (Some p) | Err _ => Ok None | Panic => Panic
       end.

(** The raw-byte questions of [migration.rs]. *)
Definition is_amm_migration (migrate_type : Z) : bool := migrate_type =? 0.
Definition is_cpmm_migration (migrate_type : Z) : bool := migrate_type =? 1.
Definition is_migrated_status (status : Z) : bool := status =? 2.
Definition is_awaiting_migration_status (status : Z) : bool := status =? 1.
Definition validate_status (status : Z) : BotResult unit :=
  if (status =? 0) || (status =? 1) || (status =? 2) then Ok tt else Err Encoding.

(** ** The interface of a curve *)

(** The pool's fields are [u64]. *)
Record curve_state_wf (s : CurveState) : Prop := {
  cs_vb : in_u64 s.(virtual_base);
  cs_vq : in_u64 s.(virtual_quote);
  cs_rb : in_u64 s.(real_base);
  cs_rq : in_u64 s.(real_quote);
}.

Class CurveOps : Type := {
  op_buy_in : CurveState -> Z -> BotResult Z;
  op_buy_out : CurveState -> Z -> BotResult Z;
  op_sell_in : CurveState -> Z -> BotResult Z;
  op_sell_out : CurveState -> Z -> BotResult Z;
}.

(** Buying [a] gives at least [o] exactly when [a] covers the price of [o];
    the same for selling. *)
Class CurveLaws (C : CurveOps) : Prop := {
  buy_dual : forall s a b o c, curve_state_wf s -> 0 <= a -> 0 <= o ->
    op_buy_in s a = Ok b -> op_buy_out s o = Ok c -> (o <= b <-> c <= a);
  sell_dual : forall s a b o c, curve_state_wf s -> 0 <= a -> 0 <= o ->
    op_sell_in s a = Ok b -> op_sell_out s o = Ok c -> (o <= b <-> c <= a);
  buy_nonneg : forall s a b, curve_state_wf s -> 0 <= a -> op_buy_in s a = Ok b -> 0 <= b;
  sell_nonneg : forall s a b, curve_state_wf s -> 0 <= a -> op_sell_in s a = Ok b -> 0 <= b;
}.

Definition curve_ops (ct : CurveType) : CurveOps :=
  match ct with
  | ConstantProduct =>
      {| op_buy_in := ConstantProductCurve.buy_exact_in;
         op_buy_out := ConstantProductCurve.buy_exact_out;
         op_sell_in := ConstantProductCurve.sell_exact_in;
         op_sell_out := ConstantProductCurve.sell_exact_out |}
  | FixedPrice =>
      {| op_buy_in := FixedPriceCurve.buy_exact_in;
         op_buy_out := FixedPriceCurve.buy_exact_out;
         op_sell_in := FixedPriceCurve.sell_exact_in;
         op_sell_out := FixedPriceCurve.sell_exact_out |}
  | LinearPrice =>
      {| op_buy_in := LinearPriceCurve.buy_exact_in;
         op_buy_out := LinearPriceCurve.buy_exact_out;
         op_sell_in := LinearPriceCurve.sell_exact_in;
         op_sell_out := LinearPriceCurve.sell_exact_out |}
  end.

(** ** The curves implement it *)

(** The constant product, either direction. *)
Lemma product_dual ri ro a o c :
  0 <= ri -> 0 < ri + a -> 0 <= o -> 0 <= ro - o -> ceil_div (ri * o) (ro - o) = Ok c ->
  (o <= a * ro / (ri + a) <-> c <= a).
Proof.
  intros Hri Hd Ho Hro Hc. rewrite div_le_iff by done.
  pose proof (ceil_div_le (ri * o) (ro - o) c a ltac:(nia) Hro Hc). lia.
Qed.

#[export] Instance constant_product_laws : CurveLaws (curve_ops ConstantProduct).
Proof.
  split; cbn; unfold ConstantProductCurve.buy_exact_in, ConstantProductCurve.buy_exact_out,
    ConstantProductCurve.sell_exact_in, ConstantProductCurve.sell_exact_out.
  - intros s a b o c [] Ha Ho Hb Hc. inv_calc. case_match; inv_calc.
    unfold_bounds. apply product_dual; lia || done.
  - intros s a b o c [] Ha Ho Hb Hc. inv_calc. case_match; inv_calc.
    unfold_bounds. apply product_dual; lia || done.
  - intros s a b [] Ha Hb. inv_calc. case_match; inv_calc. unfold_bounds.
    apply Z.div_pos; nia.
  - intros s a b [] Ha Hb. inv_calc. case_match; inv_calc. unfold_bounds.
    apply Z.div_pos; nia.
Qed.

#[export] Instance fixed_price_laws : CurveLaws (curve_ops FixedPrice).
Proof.
  split; cbn; unfold FixedPriceCurve.buy_exact_in, FixedPriceCurve.buy_exact_out,
    FixedPriceCurve.sell_exact_in, FixedPriceCurve.sell_exact_out.
  - intros s a b o c [] Ha Ho Hb Hc. inv_calc. repeat case_match; inv_calc. unfold_bounds.
    match goal with Hcd : ceil_div ?n ?d = Ok c |- _ =>
      pose proof (ceil_div_le n d c a ltac:(nia) ltac:(lia) Hcd) end.
    rewrite div_le_iff by lia. lia.
  - intros s a b o c [] Ha Ho Hb Hc. inv_calc. repeat case_match; inv_calc. unfold_bounds.
    match goal with Hcd : ceil_div ?n ?d = Ok c |- _ =>
      pose proof (ceil_div_le n d c a ltac:(nia) ltac:(lia) Hcd) end.
    rewrite div_le_iff by lia. lia.
  - intros s a b [] Ha Hb. inv_calc. case_match; inv_calc. unfold_bounds. apply Z.div_pos; nia.
  - intros s a b [] Ha Hb. inv_calc. case_match; inv_calc. unfold_bounds. apply Z.div_pos; nia.
Qed.

(** The square root under a quotient. *)
Lemma sqrt_div_le n d q :
  0 <= n <= u128_max -> 0 < d -> 0 <= q -> (q <= isqrt (n / d) <-> d * (q * q) <= n).
Proof.
  intros Hn Hd Hq. assert (in_u128 (n / d)) as Hr.
  { split; [apply Z.div_pos; lia|]. apply Z.div_le_upper_bound; nia. }
  rewrite isqrt_correct, <- Z.sqrt_le_square by (apply Hr || done).
  rewrite div_le_iff by done. split; nia.
Qed.

(** The area under the line up to base [q], against the quote [n]. *)
Lemma linear_dual vb n q r k :
  0 < vb -> 0 <= n -> 0 <= q -> 2 * n * RAYDIUM_LAUNCHLAB_Q64 <= u128_max ->
  ceil_div (vb * (q * q)) (2 * RAYDIUM_LAUNCHLAB_Q64) = Ok r -> k = n ->
  (q <= isqrt (2 * n * RAYDIUM_LAUNCHLAB_Q64 / vb) <-> r <= k).
Proof.
  intros Hvb Hn Hq Hmax Hc ->. assert (0 < RAYDIUM_LAUNCHLAB_Q64) as HQ by done.
  assert (0 <= 2 * n * RAYDIUM_LAUNCHLAB_Q64) by (apply Z.mul_nonneg_nonneg; lia).
  assert (0 <= vb * (q * q)) as Hsq by (apply Z.mul_nonneg_nonneg; [lia|apply Z.square_nonneg]).
  rewrite sqrt_div_le by done.
  rewrite (ceil_div_le (vb * (q * q)) (2 * RAYDIUM_LAUNCHLAB_Q64) r n Hsq ltac:(lia) Hc). lia.
Qed.

#[export] Instance linear_price_laws : CurveLaws (curve_ops LinearPrice).
Proof.
  split; cbn [op_buy_in op_buy_out op_sell_in op_sell_out curve_ops];
    unfold LinearPriceCurve.buy_exact_in, LinearPriceCurve.buy_exact_out,
      LinearPriceCurve.sell_exact_in, LinearPriceCurve.sell_exact_out.
  - intros s a b o c [Hvb _ Hrb Hrq] Ha Ho Hb Hc. inv_calc.
    unfold in_u64 in *.
    match goal with Hcd : ceil_div _ _ = Ok ?q |- _ =>
      pose proof (linear_dual (virtual_base s) (real_quote s + a) (real_base s + o) q
        (real_quote s + a) ltac:(lia) ltac:(lia) ltac:(lia) ltac:(done) Hcd eq_refl) end.
    lia.
  - intros s a b o c [Hvb _ Hrb Hrq] Ha Ho Hb Hc. inv_calc.
    unfold in_u64 in *.
    match goal with Hcd : ceil_div _ _ = Ok ?q |- _ =>
      pose proof (linear_dual (virtual_base s) (real_quote s - o) (real_base s - a) q
        (real_quote s - o) ltac:(lia) ltac:(lia) ltac:(lia) ltac:(done) Hcd eq_refl) end.
    lia.
  - intros s a b [] Ha Hb. inv_calc. lia.
  - intros s a b [] Ha Hb. inv_calc. lia.
Qed.

#[export] Instance curve_laws ct : CurveLaws (curve_ops ct).
Proof. destruct ct; exact _. Qed.

(** ** Quotes through the interface *)

Lemma total_fee_rate_Ok a b c d r :
  0 <= a -> 0 <= b -> 0 <= c -> 0 <= d -> total_fee_rate a b c d = Ok r ->
  r = a + b + c + d /\ 0 <= r <= RAYDIUM_LAUNCHLAB_FEE_RATE_DENOMINATOR.
Proof.
  unfold total_fee_rate. intros Ha Hb Hc Hd Hr. inv_calc. case_match; inv_calc. lia.
Qed.

Lemma quote_buy_ops p a f g h :
  quote_buy p a f g h =
  (fee_rate ← total_fee_rate (trade_fee_rate p) f h g;
   total_fee ← calculate_fee a fee_rate;
   net ← sub128 a total_fee;
   ct ← curve_type p;
   out ← @op_buy_in (curve_ops ct) (curve_state p) net;
   try_u64 out).
Proof.
  unfold quote_buy. cbv zeta.
  destruct (total_fee_rate _ _ _ _); [|done..]. cbn. destruct (calculate_fee _ _); [|done..]. cbn.
  destruct (sub128 _ _); [|done..]. cbn. by destruct (curve_type p) as [[]| |].
Qed.

Lemma quote_buy_exact_out_ops p a f g h :
  quote_buy_exact_out p a f g h =
  (ct ← curve_type p;
   net ← @op_buy_out (curve_ops ct) (curve_state p) a;
   fee_rate ← total_fee_rate (trade_fee_rate p) f h g;
   gross ← calculate_pre_fee net fee_rate;
   try_u64 gross).
Proof. unfold quote_buy_exact_out. by destruct (curve_type p) as [[]| |]. Qed.

Lemma quote_sell_ops p a f g h :
  quote_sell p a f g h =
  (ct ← curve_type p;
   gross ← @op_sell_in (curve_ops ct) (curve_state p) a;
   fee_rate ← total_fee_rate (trade_fee_rate p) f h g;
   total_fee ← calculate_fee gross fee_rate;
   net ← sub128 gross total_fee;
   try_u64 net).
Proof. unfold quote_sell. by destruct (curve_type p) as [[]| |]. Qed.

Lemma quote_sell_exact_out_ops p a f g h :
  quote_sell_exact_out p a f g h =
  (ct ← curve_type p;
   fee_rate ← total_fee_rate (trade_fee_rate p) f h g;
   gross ← calculate_pre_fee a fee_rate;
   needed ← @op_sell_out (curve_ops ct) (curve_state p) gross;
   try_u64 needed).
Proof. unfold quote_sell_exact_out. by destruct (curve_type p) as [[]| |]. Qed.

Lemma pre_fee_nonneg post rate g :
  0 <= post -> 0 <= rate -> calculate_pre_fee post rate = Ok g -> 0 <= g.
Proof.
  unfold calculate_pre_fee. intros Hp Hr. case_match; [by intros [= <-]|].
  case_match; [done|]. intros Hg. inv_calc. apply Z.div_pos; lia.
Qed.

Lemma net_nonneg a rate f n :
  0 <= a -> 0 <= rate -> calculate_fee a rate = Ok f -> sub128 a f = Ok n -> 0 <= n.
Proof. intros Ha Hr Hf Hn. inv_calc. lia. Qed.

(** A pool as it decodes: the curve fields and the fee rates are unsigned. *)
Record pool_wf (p : LaunchLabPool) : Prop := {
  pw_curve : curve_state_wf (curve_state p);
  pw_fee : 0 <= trade_fee_rate p;
}.

(** ** Properties *)

(** C36: the two buy quotes are exact inverses, fees included, on all three
    curves: paying [a] buys at least [o] base exactly when [a] is at least the
    exact-output quote of [o].  So the exact-output quote is enough, and one
    unit less is not. *)
Theorem quote_buy_dual p a o platform creator share b g
  (Hp : pool_wf p) (Ha : 0 <= a) (Ho : 0 <= o)
  (Hf : 0 <= platform /\ 0 <= creator /\ 0 <= share)
  (Hb : quote_buy p a platform creator share = Ok b)
  (Hg : quote_buy_exact_out p o platform creator share = Ok g) :
  o <= b <-> g <= a.
Proof.
  destruct Hp as [Hc Hr], Hf as (? & ? & ?).
  rewrite quote_buy_ops in Hb. rewrite quote_buy_exact_out_ops in Hg.
  apply outcome_bind_Ok in Hb as (rate & Hrate & Hb). rewrite Hrate in Hg.
  apply total_fee_rate_Ok in Hrate as [_ Hrate]; [|done..].
  destruct (curve_type p) as [ct| |]; [|inv_ok..]. cbn [mbind outcome_bind] in Hg.
  apply outcome_bind_Ok in Hb as (fee & Hfee & Hb).
  apply outcome_bind_Ok in Hb as (net & Hnet & Hb). cbn [mbind outcome_bind] in Hb.
  apply outcome_bind_Ok in Hb as (out & Hout & Hb). apply try_u64_Ok in Hb as [_ ->].
  apply outcome_bind_Ok in Hg as (cost & Hcost & Hg).
  apply outcome_bind_Ok in Hg as (gross & Hgross & Hg). apply try_u64_Ok in Hg as [_ ->].
  pose proof (net_nonneg _ _ _ _ Ha (proj1 Hrate) Hfee Hnet) as Hn.
  rewrite (buy_dual _ _ _ _ _ Hc Hn Ho Hout Hcost), (pre_fee_le _ _ _ _ (proj1 Hrate) Hgross).
  apply sub128_Ok in Hnet as [_ ->]. by rewrite (amount_less_fee _ _ _ Hfee).
Qed.

(** likewise for the two sell quotes: selling [a] base returns at least
    [o] quote exactly when [a] is at least the exact-output quote of [o]. *)
Theorem quote_sell_dual p a o platform creator share n g
  (Hp : pool_wf p) (Ha : 0 <= a) (Ho : 0 <= o)
  (Hf : 0 <= platform /\ 0 <= creator /\ 0 <= share)
  (Hn : quote_sell p a platform creator share = Ok n)
  (Hg : quote_sell_exact_out p o platform creator share = Ok g) :
  o <= n <-> g <= a.
Proof.
  destruct Hp as [Hc Hr], Hf as (? & ? & ?).
  rewrite quote_sell_ops in Hn. rewrite quote_sell_exact_out_ops in Hg.
  destruct (curve_type p) as [ct| |]; [|inv_ok..]. cbn [mbind outcome_bind] in Hn, Hg.
  apply outcome_bind_Ok in Hg as (rate & Hrate & Hg). rewrite Hrate in Hn.
  apply total_fee_rate_Ok in Hrate as [_ Hrate]; [|done..].
  apply outcome_bind_Ok in Hg as (pre & Hpre & Hg).
  apply outcome_bind_Ok in Hg as (need & Hneed & Hg). apply try_u64_Ok in Hg as [_ ->].
  apply outcome_bind_Ok in Hn as (gross & Hgross & Hn). cbn [mbind outcome_bind] in Hn.
  apply outcome_bind_Ok in Hn as (fee & Hfee & Hn).
  apply outcome_bind_Ok in Hn as (net & Hnet & Hn). apply try_u64_Ok in Hn as [_ ->].
  pose proof (pre_fee_nonneg _ _ _ Ho (proj1 Hrate) Hpre) as Hpn.
  rewrite <- (sell_dual _ _ _ _ _ Hc Ha Hpn Hgross Hneed), (pre_fee_le _ _ _ _ (proj1 Hrate) Hpre).
  apply sub128_Ok in Hnet as [_ ->]. by rewrite (amount_less_fee _ _ _ Hfee).
Qed.

(** the migration threshold test is exactly "the product of the two
    migrated amounts exceeds the square of the minimum liquidity": the floored
    square root decides nothing the exact comparison would not. *)
Theorem migration_threshold_exact p
  (Hs : in_u64 (ps_supply p)) (Hl : in_u64 (vs_total_locked_amount (ps_vesting_schedule p)))
  (Ht : in_u64 (ps_total_base_sell p)) (Hf : in_u64 (ps_total_quote_fund_raising p))
  (Hd : 0 <= ps_base_decimals p) :
  migration_threshold_met p = true <->
  (migration_liquidity_minimum p + 1) * (migration_liquidity_minimum p + 1)
    <= migratable_base_amount p * ps_total_quote_fund_raising p.
Proof.
  unfold migration_threshold_met, migration_liquidity.
  assert (0 <= migration_liquidity_minimum p) as Hmin.
  { unfold migration_liquidity_minimum. case_match; [apply Z.pow_nonneg; lia|lia]. }
  assert (in_u64 (migratable_base_amount p)) as Hm
    by (unfold migratable_base_amount, saturating_sub; mlia).
  assert (in_u128 (migratable_base_amount p * ps_total_quote_fund_raising p)) as Hprod
    by (unfold_bounds; nia).
  unfold saturating_mul. rewrite Z.min_r by apply Hprod.
  rewrite isqrt_correct, Z.ltb_lt by done.
  rewrite <- Z.le_succ_l, <- Z.sqrt_le_square by (apply Hprod || lia). done.
Qed.

(** A pool trades on its curve until the migration has landed, then on the
    venue its own migration type names; [is_tradable] holds only while it is
    fundraising, in which case the route is the curve. *)
Theorem decide_route_cases p :
  let d := decide_route p in
  (route d = Curve <-> ps_status p <> Trade) /\
  (route d = Cpmm <-> ps_status p = Trade /\ ps_migrate_type p = CpSwap) /\
  (route d = AmmV4 <-> ps_status p = Trade /\ ps_migrate_type p = Amm) /\
  (is_curve_open p = true -> route d = Curve) /\
  (is_migrated (route d) = true <-> ps_status p = Trade) /\
  threshold_met d = migration_threshold_met p.
Proof.
  unfold decide_route, is_curve_open, is_migrated. cbv zeta. rewrite bool_decide_eq_true.
  destruct (ps_status p), (ps_migrate_type p); cbn [route threshold_met];
    rewrite ?negb_true_iff, ?bool_decide_eq_false; intuition congruence.
Qed.

(** *** The linear curve on a flat slope *)

(** A decodable pool whose virtual base is zero, on the linear curve. *)
Definition flat_pool : PoolState :=
  mkPoolState 0 254 Fund 6 9 CpSwap 1000 1000 0 0 0 0 85000000000 0 0 0
    (mkVestingSchedule 0 0 0 0 0) 1 2 3 4 5 6 7 0 QuoteToken 0.
Definition linear_config : GlobalConfig := mkGlobalConfig 0 2 0 0 2500 0 0 0 0 0 0 9 1 2 3 4 0.
Definition flat_launchlab : LaunchLabPool := mkLaunchLabPool 11 flat_pool linear_config.

(** Quoting a buy or an exact-output sell on a linear pool with a zero
    virtual base divides by zero: accounts that the decoders accept make the
    quote panic instead of returning an error. *)
Theorem linear_zero_base_panics :
  PoolState_decode (SyntheticPoolState_encode (synthetic_of flat_pool)) = Ok flat_pool /\
  GlobalConfig_decode (encode_synthetic_global_config 2 9 [1; 2; 3; 4]) = Ok linear_config /\
  quote_buy flat_launchlab 1000 0 0 0 = Panic /\
  quote_sell_exact_out flat_launchlab 0 0 0 0 = Panic.
Proof. vm_compute. split_and!; reflexivity. Qed.

(** ** Concrete quotes *)

Definition sample_launchlab (curve : Z) : LaunchLabPool :=
  mkLaunchLabPool 11
    (mkPoolState 0 254 Fund 6 9 CpSwap 1000000000000000 793100000000000 1073471847374405
       30050573465 1000000 30000000 85000000000 0 0 0 (mkVestingSchedule 0 0 0 0 0)
       1 2 3 4 5 6 7 0 QuoteToken 0)
    (mkGlobalConfig 0 curve 0 0 2500 0 0 0 0 0 0 9 1 2 3 4 0).

Lemma sample_launchlab_wf curve : pool_wf (sample_launchlab curve).
Proof. split; [split|]; cbn; unfold trade_fee_rate; cbn; mlia. Qed.

Lemma quote_buy_dual_witness : 100000 <= 35590799182 <-> 4 <= 1000000.
Proof.
  apply (quote_buy_dual (sample_launchlab 0) 1000000 100000 100 50 0);
    [apply sample_launchlab_wf|lia|lia|lia|by vm_compute|by vm_compute].
Defined.

Lemma quote_sell_dual_witness : 10 <= 27 <-> 392553 <= 1000000.
Proof.
  apply (quote_sell_dual (sample_launchlab 0) 1000000 10 100 50 0);
    [apply sample_launchlab_wf|lia|lia|lia|by vm_compute|by vm_compute].
Defined.

Lemma migration_threshold_exact_witness :
  migration_threshold_met (state (sample_launchlab 0)) = true <->
  101 * 101 <= migratable_base_amount (state (sample_launchlab 0)) * 85000000000.
Proof. apply (migration_threshold_exact (state (sample_launchlab 0))); cbn; mlia. Defined.
