(* ===== verification/CpmmQuote.v ===== *)
(** The Raydium CPMM swap maths:
    [crates/solana-kit/src/venues/raydium_cpmm/quote.rs].  [u128] operands are
    integers in [Z]; every checked step is an error where it leaves the range. *)
From stdpp Require Import prelude.
From Stdlib Require Import ZArith Lia.
From S2P Require Import Prelude.
From S2P Require Import BotCore.

#[local] Open Scope Z_scope.

Definition RAYDIUM_CPMM_FEE_RATE_DENOMINATOR : Z := 1000000.

(** ** Rounded divisions *)

Definition ceil_div (amount numerator denominator : Z) : BotResult Z :=
  if denominator =? 0 then Err Solana else
  v ← mul128 amount numerator;
  v ← add128 v denominator;
  v ← sub128 v 1;
  quot v denominator.

Definition floor_div (amount numerator denominator : Z) : BotResult Z :=
  if denominator =? 0 then Err Solana else
  v ← mul128 amount numerator;
  quot v denominator.

Definition checked_ceil_div (amount denominator : Z) : BotResult Z :=
  if denominator =? 0 then Err Solana else
  let quotient := amount / denominator in
  let remainder := amount mod denominator in
  if negb (remainder =? 0) then add128 quotient 1 else Ok quotient.

(** ** Fees *)

Definition trading_fee (amount trade_fee_rate : Z) : BotResult Z :=
  ceil_div amount trade_fee_rate RAYDIUM_CPMM_FEE_RATE_DENOMINATOR.

Definition protocol_fee (amount protocol_fee_rate : Z) : BotResult Z :=
  floor_div amount protocol_fee_rate RAYDIUM_CPMM_FEE_RATE_DENOMINATOR.

Definition fund_fee (amount fund_fee_rate : Z) : BotResult Z :=
  floor_div amount fund_fee_rate RAYDIUM_CPMM_FEE_RATE_DENOMINATOR.

Definition creator_fee (amount creator_fee_rate : Z) : BotResult Z :=
  ceil_div amount creator_fee_rate RAYDIUM_CPMM_FEE_RATE_DENOMINATOR.

Definition split_creator_fee (total_fee trade_fee_rate creator_fee_rate : Z) : BotResult Z :=
  denominator ← add64 trade_fee_rate creator_fee_rate;
  floor_div total_fee creator_fee_rate denominator.

Definition calculate_pre_fee_amount (post_fee_amount fee_rate : Z) : BotResult Z :=
  if fee_rate =? 0 then Ok post_fee_amount else
  numerator ← mul128 post_fee_amount RAYDIUM_CPMM_FEE_RATE_DENOMINATOR;
  denominator ← sub128 RAYDIUM_CPMM_FEE_RATE_DENOMINATOR fee_rate;
  if denominator =? 0 then Err Solana else
  v ← add128 numerator denominator;
  v ← sub128 v 1;
  quot v denominator.

(** ** The constant product *)

Definition swap_base_input_without_fees
    (input_amount input_vault_amount output_vault_amount : Z) : BotResult Z :=
  numerator ← mul128 input_amount output_vault_amount;
  denominator ← add128 input_vault_amount input_amount;
  if denominator =? 0 then Err Solana else quot numerator denominator.

Definition swap_base_output_without_fees
    (output_amount input_vault_amount output_vault_amount : Z) : BotResult Z :=
  numerator ← mul128 input_vault_amount output_amount;
  denominator ← sub128 output_vault_amount output_amount;
  checked_ceil_div numerator denominator.

(** ** Swaps *)

(** All fields are [u128]. *)
Record SwapResult : Type := mkSwapResult {
  new_input_vault_amount : Z;
  new_output_vault_amount : Z;
  input_amount : Z;
  output_amount : Z;
  sr_trade_fee : Z;
  sr_protocol_fee : Z;
  sr_fund_fee : Z;
  sr_creator_fee : Z;
}.

(** The rates are [u64]. *)
Record FeeRates : Type := mkFeeRates {
  trade_fee_rate : Z;
  creator_fee_rate : Z;
  protocol_fee_rate : Z;
  fund_fee_rate : Z;
  creator_fee_on_input : bool;
}.

Definition swap_base_input (amount_in input_vault_amount output_vault_amount : Z)
    (fees : FeeRates) : BotResult SwapResult :=
  '(input_amount_less_fees, trade_fee, creator_on_input) ←
    (if fees.(creator_fee_on_input) then
       rate ← add64 fees.(trade_fee_rate) fees.(creator_fee_rate);
       total_fee ← trading_fee amount_in rate;
       creator_fee_amount ←
         split_creator_fee total_fee fees.(trade_fee_rate) fees.(creator_fee_rate);
       trade_fee ← sub128 total_fee creator_fee_amount;
       less ← sub128 amount_in total_fee;
       Ok (less, trade_fee, creator_fee_amount)
     else
       trade_fee ← trading_fee amount_in fees.(trade_fee_rate);
       less ← sub128 amount_in trade_fee;
       Ok (less, trade_fee, 0));
  protocol_fee ← protocol_fee trade_fee fees.(protocol_fee_rate);
  fund_fee ← fund_fee trade_fee fees.(fund_fee_rate);
  output_amount_swapped ←
    swap_base_input_without_fees input_amount_less_fees input_vault_amount output_vault_amount;
  '(output_amount, creator_fee_amount) ←
    (if fees.(creator_fee_on_input) then Ok (output_amount_swapped, creator_on_input)
     else
       c ← creator_fee output_amount_swapped fees.(creator_fee_rate);
       out ← sub128 output_amount_swapped c;
       Ok (out, c));
  new_input_vault_amount ← add128 input_vault_amount input_amount_less_fees;
  new_output_vault_amount ← sub128 output_vault_amount output_amount_swapped;
  Ok (mkSwapResult new_input_vault_amount new_output_vault_amount amount_in output_amount
        trade_fee protocol_fee fund_fee creator_fee_amount).

Definition swap_base_output (amount_out input_vault_amount output_vault_amount : Z)
    (fees : FeeRates) : BotResult SwapResult :=
  '(actual_output_amount, creator_on_output) ←
    (if fees.(creator_fee_on_input) then Ok (amount_out, 0)
     else
       out_with_creator_fee ← calculate_pre_fee_amount amount_out fees.(creator_fee_rate);
       c ← sub128 out_with_creator_fee amount_out;
       Ok (out_with_creator_fee, c));
  input_amount_swapped ←
    swap_base_output_without_fees actual_output_amount input_vault_amount output_vault_amount;
  '(input_amount, trade_fee, creator_fee_amount) ←
    (if fees.(creator_fee_on_input) then
       rate ← add64 fees.(trade_fee_rate) fees.(creator_fee_rate);
       with_fee ← calculate_pre_fee_amount input_amount_swapped rate;
       total_fee ← sub128 with_fee input_amount_swapped;
       c ← split_creator_fee total_fee fees.(trade_fee_rate) fees.(creator_fee_rate);
       trade_fee ← sub128 total_fee c;
       Ok (with_fee, trade_fee, c)
     else
       with_fee ← calculate_pre_fee_amount input_amount_swapped fees.(trade_fee_rate);
       trade_fee ← sub128 with_fee input_amount_swapped;
       Ok (with_fee, trade_fee, creator_on_output));
  protocol_fee ← protocol_fee trade_fee fees.(protocol_fee_rate);
  fund_fee ← fund_fee trade_fee fees.(fund_fee_rate);
  new_input_vault_amount ← add128 input_vault_amount input_amount_swapped;
  new_output_vault_amount ← sub128 output_vault_amount actual_output_amount;
  Ok (mkSwapResult new_input_vault_amount new_output_vault_amount input_amount amount_out
        trade_fee protocol_fee fund_fee creator_fee_amount).

(** ** Slippage bounds *)

Definition min_out_with_slippage_bps (expected_out slippage_bps : Z) : BotResult Z :=
  if 10000 <=? slippage_bps then Err InvalidArgument else
  numerator ← mul128 expected_out (saturating_sub 10000 slippage_bps);
  Ok (numerator / 10000 mod 2 ^ 64).

Definition max_in_with_slippage_bps (expected_in slippage_bps : Z) : BotResult Z :=
  if 10000 <=? slippage_bps then Err InvalidArgument else
  numerator ← mul128 expected_in (saturating_add u64_max 10000 slippage_bps);
  v ← add128 numerator (10000 - 1);
  value ← quot v 10000;
  try_u64 value.

Inductive CpmmSide : Type := Token0 | Token1.
Inductive QuoteSide : Type := Token0ToToken1 | Token1ToToken0.
Definition QuoteSide_from (side : CpmmSide) : QuoteSide :=
  match side with
  | Token0 => Token0ToToken1
  | Token1 => Token1ToToken0
  end.

(** ** Lemmas *)

Lemma cpmm_ceil_div_Ok a n d r : ceil_div a n d = Ok r -> d <> 0 /\ r = cdiv (a * n) d.
Proof. unfold ceil_div. case_match; [done|]. intros Hr. inv_calc. done. Qed.

Lemma floor_div_Ok a n d r : floor_div a n d = Ok r -> d <> 0 /\ r = a * n / d.
Proof. unfold floor_div. case_match; [done|]. intros Hr. inv_calc. done. Qed.

Lemma checked_ceil_div_Ok a d r :
  0 <= d -> checked_ceil_div a d = Ok r -> 0 < d /\ r = cdiv a d.
Proof.
  intros Hd. unfold checked_ceil_div. destruct (Z.eqb_spec d 0); [done|].
  rewrite cdiv_div_mod by lia.
  destruct (Z.eqb_spec (a mod d) 0); cbn; intros Hr; inv_calc; lia.
Qed.

Abbreviation D := RAYDIUM_CPMM_FEE_RATE_DENOMINATOR (only parsing).

(** What is left of [x] after a ceiled fee is the floored complement. *)
Lemma net_of_fee x rate f : ceil_div x rate D = Ok f -> x - f = x * (D - rate) / D.
Proof.
  intros [_ ->]%cpmm_ceil_div_Ok. assert (0 < D) by done.
  apply Z.le_antisymm.
  - apply div_le_iff; [done|]. pose proof (cdiv_bounds (x * rate) D ltac:(done)). lia.
  - enough (cdiv (x * rate) D <= x - x * (D - rate) / D) by lia.
    apply cdiv_le_iff; [done|].
    pose proof (Z.mul_div_le (x * (D - rate)) D ltac:(done)). lia.
Qed.

(** The grossed-up amount is the least that nets [post]. *)
Lemma cpmm_pre_fee_le post rate g x :
  0 <= rate -> calculate_pre_fee_amount post rate = Ok g ->
  (g <= x <-> post <= x * (D - rate) / D).
Proof.
  intros Hr. unfold calculate_pre_fee_amount. assert (0 < D) by done.
  destruct (Z.eqb_spec rate 0) as [->|].
  { intros [= <-]. rewrite Z.sub_0_r, Z.div_mul by done. done. }
  intros Hg. inv_calc. case_match; inv_calc.
  change ((post * D + (D - rate) - 1) / (D - rate)) with (cdiv (post * D) (D - rate)).
  rewrite cdiv_le_iff, div_le_iff by lia. done.
Qed.

Lemma cpmm_pre_fee_nonneg post rate g :
  0 <= post -> 0 <= rate -> calculate_pre_fee_amount post rate = Ok g -> post <= g.
Proof.
  intros Hp Hr. unfold calculate_pre_fee_amount. case_match; [intros [= <-]; lia|].
  intros Hg. inv_calc. case_match; inv_calc. apply div_le_iff; [lia|]. nia.
Qed.

(** The two constant-product operations invert each other. *)
Lemma cpmm_product_dual x ri ro b o c :
  0 <= ri -> 0 <= x -> 0 <= o ->
  swap_base_input_without_fees x ri ro = Ok b ->
  swap_base_output_without_fees o ri ro = Ok c -> (o <= b <-> c <= x).
Proof.
  intros Hri Hx Ho Hb Hc. unfold swap_base_input_without_fees, swap_base_output_without_fees in *.
  apply outcome_bind_Ok in Hc as (n & Hn & Hc). apply outcome_bind_Ok in Hc as (d & Hd & Hc).
  apply sub128_Ok in Hd as [Hle ->]. apply mul128_Ok in Hn as [_ ->].
  apply checked_ceil_div_Ok in Hc as [Hpos ->]; [|lia].
  inv_calc. case_match; inv_calc. rewrite div_le_iff, cdiv_le_iff by lia. lia.
Qed.

Lemma product_output x ri ro b :
  0 <= x -> 0 <= ri -> 0 <= ro -> swap_base_input_without_fees x ri ro = Ok b ->
  0 <= b /\ b * (ri + x) <= x * ro.
Proof.
  intros Hx Hri Hro Hb. unfold swap_base_input_without_fees in Hb. inv_calc.
  case_match; inv_calc. split; [apply Z.div_pos; nia|].
  rewrite Z.mul_comm. apply Z.mul_div_le. lia.
Qed.

(** ** The swap in two legs: what reaches the curve, what leaves it *)

Definition input_rate (fees : FeeRates) : Z :=
  if fees.(creator_fee_on_input) then fees.(trade_fee_rate) + fees.(creator_fee_rate)
  else fees.(trade_fee_rate).
Definition output_rate (fees : FeeRates) : Z :=
  if fees.(creator_fee_on_input) then 0 else fees.(creator_fee_rate).

(** The rates are unsigned. *)
Record rates_wf (fees : FeeRates) : Prop := {
  rw_trade : 0 <= fees.(trade_fee_rate);
  rw_creator : 0 <= fees.(creator_fee_rate);
  rw_protocol : 0 <= fees.(protocol_fee_rate);
  rw_fund : 0 <= fees.(fund_fee_rate);
}.

(** An exact-input swap: the net input reaches the curve, the net output leaves
    it, the rest are fees. *)
Record input_swap (x ri ro : Z) (fees : FeeRates) (r : SwapResult) (net swapped : Z) : Prop := {
  is_net : net = x * (D - input_rate fees) / D;
  is_net_nonneg : 0 <= net;
  is_swap : swap_base_input_without_fees net ri ro = Ok swapped;
  is_out : output_amount r = swapped * (D - output_rate fees) / D;
  is_in : input_amount r = x;
  is_new_in : new_input_vault_amount r = ri + net;
  is_new_out : new_output_vault_amount r = ro - swapped /\ swapped <= ro;
  is_fees : x = net + sr_trade_fee r + (if fees.(creator_fee_on_input) then sr_creator_fee r else 0);
  is_out_fee : swapped = output_amount r +
                 (if fees.(creator_fee_on_input) then 0 else sr_creator_fee r);
  is_protocol : sr_protocol_fee r = sr_trade_fee r * fees.(protocol_fee_rate) / D;
  is_fund : sr_fund_fee r = sr_trade_fee r * fees.(fund_fee_rate) / D;
  is_trade_nonneg : 0 <= sr_trade_fee r;
  is_creator_nonneg : 0 <= sr_creator_fee r;
}.

(** The input side of [swap_base_input]. *)
Lemma input_leg_Ok x fees net tf cf :
  rates_wf fees -> 0 <= x ->
  (if fees.(creator_fee_on_input) then
     rate ← add64 fees.(trade_fee_rate) fees.(creator_fee_rate);
     total_fee ← trading_fee x rate;
     c ← split_creator_fee total_fee fees.(trade_fee_rate) fees.(creator_fee_rate);
     trade_fee ← sub128 total_fee c;
     less ← sub128 x total_fee;
     Ok (less, trade_fee, c)
   else
     trade_fee ← trading_fee x fees.(trade_fee_rate);
     less ← sub128 x trade_fee;
     Ok (less, trade_fee, 0)) = Ok (net, tf, cf) ->
  net = x * (D - input_rate fees) / D /\ 0 <= net /\ 0 <= tf /\ 0 <= cf /\ x = net + tf + cf /\
  (fees.(creator_fee_on_input) = false -> cf = 0).
Proof.
  intros [] Hx Hl. assert (0 < D) by done. unfold input_rate, trading_fee, split_creator_fee in *.
  destruct (creator_fee_on_input fees); inv_calc.
  - match goal with Hf : ceil_div x _ D = Ok _ |- _ => rewrite <- (net_of_fee _ _ _ Hf);
      apply cpmm_ceil_div_Ok in Hf as [_ Hf] end.
    match goal with Hf : floor_div _ _ _ = Ok _ |- _ => apply floor_div_Ok in Hf as [? Hf] end.
    assert (0 <= cdiv (x * (trade_fee_rate fees + creator_fee_rate fees)) D)
      by (apply cdiv_nonneg; nia).
    assert (0 <= cf) by (subst cf; apply Z.div_pos; subst; nia).
    split_and!; lia || done.
  - match goal with Hf : ceil_div x _ D = Ok _ |- _ => rewrite <- (net_of_fee _ _ _ Hf);
      apply cpmm_ceil_div_Ok in Hf as [_ Hf] end.
    assert (0 <= cdiv (x * trade_fee_rate fees) D) by (apply cdiv_nonneg; nia).
    split_and!; lia || done.
Qed.

Lemma swap_base_input_Ok x ri ro fees r :
  rates_wf fees -> 0 <= x -> 0 <= ri -> 0 <= ro ->
  swap_base_input x ri ro fees = Ok r ->
  exists net swapped, input_swap x ri ro fees r net swapped.
Proof.
  intros Hw Hx Hri Hro Hr. assert (0 < D) by done. unfold swap_base_input in Hr.
  apply outcome_bind_Ok in Hr as ([[net tf] cf] & Hleg & Hr).
  destruct (input_leg_Ok _ _ _ _ _ Hw Hx Hleg) as (Hnet & Hn0 & Htf & Hcf & Hsum & Hcf0).
  clear Hleg. destruct Hw. unfold protocol_fee, fund_fee in Hr.
  apply outcome_bind_Ok in Hr as (pf & [_ Hpf]%floor_div_Ok & Hr).
  apply outcome_bind_Ok in Hr as (ff & [_ Hff]%floor_div_Ok & Hr).
  apply outcome_bind_Ok in Hr as (sw & Hsw & Hr).
  pose proof (product_output _ _ _ _ Hn0 Hri Hro Hsw) as [Hsw0 _].
  apply outcome_bind_Ok in Hr as ([out cf'] & Hout & Hr).
  inv_calc. exists net, sw. unfold output_rate, creator_fee in *.
  destruct (creator_fee_on_input fees) eqn:Hside; inv_calc.
  - split; cbn; rewrite ?Hside; try done; try lia.
    unfold output_rate. rewrite Hside, Z.sub_0_r, Z.div_mul by done. done.
  - match goal with Hf : ceil_div sw _ D = Ok _ |- _ =>
      pose proof (net_of_fee _ _ _ Hf) as Hnf; apply cpmm_ceil_div_Ok in Hf as [_ Hf] end.
    assert (0 <= cdiv (sw * creator_fee_rate fees) D) by (apply cdiv_nonneg; nia).
    specialize (Hcf0 eq_refl).
    split; cbn; rewrite ?Hside; try done; try lia.
    unfold output_rate. by rewrite Hside, <- Hnf.
Qed.

(** An exact-output swap. *)
Record output_swap (o ri ro : Z) (fees : FeeRates) (r : SwapResult) (actual swapped : Z) : Prop := {
  os_actual : forall x, actual <= x <-> o <= x * (D - output_rate fees) / D;
  os_actual_nonneg : o <= actual;
  os_swap : swap_base_output_without_fees actual ri ro = Ok swapped;
  os_in : forall x, input_amount r <= x <-> swapped <= x * (D - input_rate fees) / D;
  os_out : output_amount r = o;
  os_new_in : new_input_vault_amount r = ri + swapped;
  os_new_out : new_output_vault_amount r = ro - actual;
  os_fees : input_amount r = swapped + sr_trade_fee r +
              (if fees.(creator_fee_on_input) then sr_creator_fee r else 0);
}.

Lemma swap_base_output_Ok o ri ro fees r :
  rates_wf fees -> 0 <= o -> 0 <= ri -> 0 <= ro ->
  swap_base_output o ri ro fees = Ok r ->
  exists actual swapped, output_swap o ri ro fees r actual swapped.
Proof.
  intros [] Ho Hri Hro Hr. assert (0 < D) by done. unfold swap_base_output in Hr.
  apply outcome_bind_Ok in Hr as ([actual co] & Hact & Hr).
  apply outcome_bind_Ok in Hr as (sw & Hsw & Hr).
  apply outcome_bind_Ok in Hr as ([[x tf] cf] & Hin & Hr).
  inv_calc. exists actual, sw. unfold split_creator_fee in *.
  destruct (creator_fee_on_input fees) eqn:Hside; inv_calc.
  - split; cbn; rewrite ?Hside; try done; try lia.
    + intros y. unfold output_rate. rewrite Hside, Z.sub_0_r, Z.div_mul by done. done.
    + intros y. unfold input_rate. rewrite Hside. by apply cpmm_pre_fee_le; [lia|].
  - match goal with Hp : calculate_pre_fee_amount o _ = Ok ?g |- _ =>
      pose proof (cpmm_pre_fee_nonneg o (creator_fee_rate fees) g Ho ltac:(lia) Hp) end.
    split; cbn; rewrite ?Hside; try done; try lia.
    + intros y. unfold output_rate. rewrite Hside. by apply cpmm_pre_fee_le.
    + intros y. unfold input_rate. rewrite Hside. by apply cpmm_pre_fee_le.
Qed.

(** ** Properties *)

(** the two swap quotes are exact inverses, whichever side pays the
    creator fee: an exact-input swap of [x] delivers at least [o] exactly when
    [x] is at least the input the exact-output quote of [o] asks for. *)
Theorem swap_quotes_dual x o ri ro fees r s
  (Hw : rates_wf fees) (Hx : 0 <= x) (Ho : 0 <= o) (Hri : 0 <= ri) (Hro : 0 <= ro)
  (Hr : swap_base_input x ri ro fees = Ok r) (Hs : swap_base_output o ri ro fees = Ok s) :
  o <= output_amount r <-> input_amount s <= x.
Proof.
  destruct (swap_base_input_Ok _ _ _ _ _ Hw Hx Hri Hro Hr) as (net & out & []).
  destruct (swap_base_output_Ok _ _ _ _ _ Hw Ho Hri Hro Hs) as (act & need & []).
  rewrite is_out0, <- os_actual0, os_in0, <- is_net0.
  apply (cpmm_product_dual _ ri ro); done || lia.
Qed.

(** an exact-input swap never decreases the product of the reserves, pays
    out at most the reserve, and every unit of the input is accounted for:
    what reaches the pool plus the fees taken on the input; what leaves the
    pool is what the user receives plus the fee taken on the output. *)
Theorem swap_base_input_conserves x ri ro fees r
  (Hw : rates_wf fees) (Hx : 0 <= x) (Hri : 0 <= ri) (Hro : 0 <= ro)
  (Hr : swap_base_input x ri ro fees = Ok r) :
  ri * ro <= new_input_vault_amount r * new_output_vault_amount r /\
  0 <= new_output_vault_amount r <= ro /\
  input_amount r = x /\
  x = (new_input_vault_amount r - ri) + sr_trade_fee r +
      (if creator_fee_on_input fees then sr_creator_fee r else 0) /\
  ro - new_output_vault_amount r =
    output_amount r + (if creator_fee_on_input fees then 0 else sr_creator_fee r) /\
  0 <= sr_trade_fee r /\ 0 <= sr_creator_fee r /\
  (protocol_fee_rate fees + fund_fee_rate fees <= RAYDIUM_CPMM_FEE_RATE_DENOMINATOR ->
   sr_protocol_fee r + sr_fund_fee r <= sr_trade_fee r).
Proof.
  destruct (swap_base_input_Ok _ _ _ _ _ Hw Hx Hri Hro Hr) as (net & out & []).
  destruct is_new_out0 as [Hout Hle].
  pose proof (product_output _ _ _ _ is_net_nonneg0 Hri Hro is_swap0) as [? Hk].
  rewrite is_new_in0, Hout. split_and!; try lia.
  intros Hrates. rewrite is_protocol0, is_fund0.
  set (t := sr_trade_fee r) in *. assert (0 < D) by done.
  pose proof (div_add_bounds (t * protocol_fee_rate fees) (t * fund_fee_rate fees) D ltac:(done)).
  assert ((t * protocol_fee_rate fees + t * fund_fee_rate fees) / D <= t); [|lia].
  apply Z.div_le_upper_bound; [done|]. nia.
Qed.

(** an exact-output swap moves at least the requested amount out of the
    pool, never decreases the product of the reserves, and takes from the user
    what reaches the pool plus the input fees. *)
Theorem swap_base_output_conserves o ri ro fees s
  (Hw : rates_wf fees) (Ho : 0 <= o) (Hri : 0 <= ri) (Hro : 0 <= ro)
  (Hs : swap_base_output o ri ro fees = Ok s) :
  output_amount s = o /\ o <= ro - new_output_vault_amount s /\
  0 < new_output_vault_amount s /\
  ri * ro <= new_input_vault_amount s * new_output_vault_amount s /\
  input_amount s = (new_input_vault_amount s - ri) + sr_trade_fee s +
      (if creator_fee_on_input fees then sr_creator_fee s else 0).
Proof.
  destruct (swap_base_output_Ok _ _ _ _ _ Hw Ho Hri Hro Hs) as (act & need & []).
  unfold swap_base_output_without_fees in os_swap0.
  apply outcome_bind_Ok in os_swap0 as (n & [_ ->]%mul128_Ok & Hsw).
  apply outcome_bind_Ok in Hsw as (d & [Hle ->]%sub128_Ok & Hsw).
  apply checked_ceil_div_Ok in Hsw as [Hpos Hneed]; [|lia].
  pose proof (cdiv_bounds (ri * act) (ro - act) Hpos) as [_ Hb]. rewrite <- Hneed in Hb.
  rewrite os_new_in0, os_new_out0. split_and!; lia.
Qed.

(** the slippage bounds, exactly: the minimum output is the floor of the
    tolerated share of the expected output, the maximum input its ceiling,
    neither wraps, and both are on the expected side. *)
Theorem slippage_bounds_exact e bps m M
  (He : in_u64 e) (Hb : 0 <= bps)
  (Hm : min_out_with_slippage_bps e bps = Ok m)
  (HM : max_in_with_slippage_bps e bps = Ok M) :
  m * 10000 <= e * (10000 - bps) < (m + 1) * 10000 /\ 0 <= m <= e /\
  (M - 1) * 10000 < e * (10000 + bps) <= M * 10000 /\ e <= M <= u64_max.
Proof.
  unfold min_out_with_slippage_bps, max_in_with_slippage_bps in *.
  destruct (Z.leb_spec 10000 bps); [done|].
  unfold saturating_sub, saturating_add in *.
  rewrite Z.max_r in Hm by lia. rewrite Z.min_r in HM by mlia.
  inv_calc.
  set (q := e * (10000 - bps) / 10000) in *.
  assert (q * 10000 <= e * (10000 - bps) < (q + 1) * 10000) as Hq.
  { pose proof (Z.mul_div_le (e * (10000 - bps)) 10000 ltac:(lia)).
    pose proof (Z.mul_succ_div_gt (e * (10000 - bps)) 10000 ltac:(lia)). unfold q. lia. }
  assert (0 <= q <= e) by (unfold_bounds; nia).
  rewrite Z.mod_small by (unfold_bounds; lia).
  change ((e * (10000 + bps) + (10000 - 1)) / 10000)
    with ((e * (10000 + bps) + 9999) / 10000) in *.
  replace ((e * (10000 + bps) + 9999) / 10000) with (cdiv (e * (10000 + bps)) 10000) in *
    by (unfold cdiv; f_equal; lia).
  pose proof (cdiv_bounds (e * (10000 + bps)) 10000 ltac:(lia)).
  split_and!; try lia; unfold_bounds; nia.
Qed.

(** The floored minimum is looser than the tolerance asked for: with an
    expected output of one unit and a tolerance of one basis point the guard
    admits receiving nothing. *)
Theorem min_out_looser_than_requested :
  min_out_with_slippage_bps 1 1 = Ok 0 /\ 0 * 10000 < 1 * (10000 - 1).
Proof. split; reflexivity. Qed.

(** ** Concrete swaps *)

Definition sample_fees : FeeRates := mkFeeRates 2500 1000 120000 40000 false.

Lemma sample_fees_wf : rates_wf sample_fees.
Proof. split; cbn; lia. Qed.

Definition sample_in : SwapResult := mkSwapResult 1997500 1001252 1000000 997749 2500 300 100 999.
Definition sample_out : SwapResult :=
  mkSwapResult 1333779 1499499 334616 500000 837 100 33 501.

Lemma swap_quotes_dual_witness : 500000 <= 997749 <-> input_amount sample_out <= 1000000.
Proof.
  apply (swap_quotes_dual 1000000 500000 1000000 2000000 sample_fees sample_in sample_out);
    [exact sample_fees_wf|lia|lia|lia|lia|by vm_compute|by vm_compute].
Defined.

Lemma swap_base_input_conserves_witness :
  1000000 * 2000000 <= new_input_vault_amount sample_in * new_output_vault_amount sample_in.
Proof.
  refine (proj1 (swap_base_input_conserves 1000000 1000000 2000000 sample_fees sample_in _ _ _ _ _));
    [exact sample_fees_wf|lia|lia|lia|by vm_compute].
Defined.

Lemma swap_base_output_conserves_witness :
  500000 <= 2000000 - new_output_vault_amount sample_out.
Proof.
  refine (proj1 (proj2
    (swap_base_output_conserves 500000 1000000 2000000 sample_fees sample_out _ _ _ _ _)));
    [exact sample_fees_wf|lia|lia|lia|by vm_compute].
Defined.

Lemma slippage_bounds_exact_witness :
  990 * 10000 <= 1000 * (10000 - 100) < (990 + 1) * 10000.
Proof.
  refine (proj1 (slippage_bounds_exact 1000 100 990 1010 _ _ _ _)); [mlia|lia|by vm_compute|by vm_compute].
Defined.
