(* ===== verification/Text.v ===== *)
(** Text and floating-point numbers as the bot uses them: a Rust string is the
    list of its Unicode scalar values, [trim] strips Unicode white space at
    both ends, and an [f64] is an IEEE-754 datum compared with [==].  A Rust
    [HashMap] is iterated in an order of its own: [HashOrder]. *)
From stdpp Require Import prelude countable gmap.
From Stdlib Require Import ZArith Lia Ascii String SpecFloat.
From S2P Require Import Prelude.

#[local] Open Scope Z_scope.

Create HintDb text discriminated.

(** * Strings *)

Definition text : Type := list Z.

(** A literal of the source. *)
Definition lit (s : string) : text :=
  map (fun c => Z.of_N (N_of_ascii c)) (list_ascii_of_string s).

Arguments lit _%_string_scope.

(** [char::is_whitespace]: the [White_Space] property of Unicode. *)
Definition is_whitespace (c : Z) : bool :=
  ((9 <=? c) && (c <=? 13)) || (c =? 32) || (c =? 133) || (c =? 160) || (c =? 5760) ||
  ((8192 <=? c) && (c <=? 8202)) || (c =? 8232) || (c =? 8233) || (c =? 8239) ||
  (c =? 8287) || (c =? 12288).

(** [str::trim]. *)
Fixpoint trim_start (s : text) : text :=
  match s with
  | [] => []
  | c :: s' => if is_whitespace c then trim_start s' else s
  end.

Definition trim_end (s : text) : text := reverse (trim_start (reverse s)).

Definition trim (s : text) : text := trim_end (trim_start s).

Definition is_empty (s : text) : bool :=
  match s with [] => true | _ => false end.

(** [char::to_ascii_lowercase]. *)
Definition ascii_lower (c : Z) : Z := if (65 <=? c) && (c <=? 90) then c + 32 else c.

(** [str::strip_prefix]. *)
Fixpoint strip_prefix (p s : text) : option text :=
  match p, s with
  | [], _ => Some s
  | c :: p', d :: s' => if c =? d then strip_prefix p' s' else None
  | _ :: _, [] => None
  end.

(** * Trimming is idempotent *)

Lemma trim_start_idemp s : trim_start (trim_start s) = trim_start s.
Proof.
  induction s as [|c s IH]; [done|]. cbn. destruct (is_whitespace c) eqn:Hc; [done|].
  cbn. by rewrite Hc.
Qed.

Lemma trim_start_cons_inv s c s' : trim_start s = c :: s' -> is_whitespace c = false.
Proof.
  induction s as [|d s IH]; [done|]. cbn. destruct (is_whitespace d) eqn:Hd; [done|].
  intros [= <- _]. done.
Qed.

Lemma trim_start_snoc s c :
  is_whitespace c = false -> trim_start (s ++ [c]) = trim_start s ++ [c].
Proof.
  intros Hc. induction s as [|d s IH]; cbn; [by rewrite Hc|].
  destruct (is_whitespace d); [done|]. done.
Qed.

Lemma trim_end_cons c s : is_whitespace c = false -> trim_end (c :: s) = c :: trim_end s.
Proof.
  intros Hc. unfold trim_end. rewrite reverse_cons, trim_start_snoc by done.
  by rewrite reverse_snoc.
Qed.

Lemma trim_idemp s : trim (trim s) = trim s.
Proof.
  unfold trim. destruct (trim_start s) as [|c s'] eqn:Hs; [done|].
  pose proof (trim_start_cons_inv _ _ _ Hs) as Hc.
  rewrite trim_end_cons by done.
  assert (trim_start (c :: trim_end s') = c :: trim_end s') as ->
    by (cbn; by rewrite Hc).
  rewrite trim_end_cons by done. f_equal.
  unfold trim_end. by rewrite reverse_involutive, trim_start_idemp.
Qed.

(** * Iteration over a [HashMap] *)

(** Some order of the entries of a map, the same for equal maps. *)
Class HashOrder : Type :=
  hash_iter : forall {K} `{Countable K} {V}, gmap K V -> list (K * V).

Class HashOrderLaws `{HashOrder} : Prop :=
  hash_iter_perm : forall {K} `{Countable K} {V} (m : gmap K V), hash_iter m ≡ₚ map_to_list m.

Definition map_order : HashOrder := fun _ _ _ _ m => map_to_list m.

Lemma map_order_laws : HashOrderLaws (H := map_order).
Proof. intros K ? ? V m. reflexivity. Qed.

(** * Floating-point equality *)

Definition f64 : Type := spec_float.

(** [f64 == f64]: zeros of both signs are equal, a NaN equals nothing. *)
Definition f64_eq (a b : f64) : bool := SFeqb a b.

Definition option_f64_eq (a b : option f64) : bool :=
  match a, b with
  | Some x, Some y => f64_eq x y
  | None, None => true
  | _, _ => false
  end.

Definition is_nan (a : f64) : bool :=
  match a with S754_nan => true | _ => false end.

Lemma f64_eq_refl a : f64_eq a a = negb (is_nan a).
Proof.
  destruct a as [s|s| |s m e]; cbn; [done|by destruct s|done|].
  unfold f64_eq, SFeqb, SFcompare. destruct s;
    rewrite Z.compare_refl;
    fold (Pos.compare m m); by rewrite Pos.compare_refl.
Qed.

(** ** The maximum of an optional value: [map(|c| x > c).unwrap_or(true)]. *)
Definition raise_to (cur : option Z) (x : Z) : option Z :=
  match cur with
  | Some c => if c <? x then Some x else cur
  | None => Some x
  end.

Definition opt_le (a b : option Z) : Prop :=
  match a, b with
  | Some x, Some y => x <= y
  | None, _ => True
  | Some _, None => False
  end.

Lemma opt_le_refl a : opt_le a a.
Proof. destruct a; cbn; [lia|done]. Qed.

Lemma opt_le_trans a b c : opt_le a b -> opt_le b c -> opt_le a c.
Proof. destruct a, b, c; cbn; try done. lia. Qed.

Lemma opt_le_raise cur x : opt_le cur (raise_to cur x).
Proof. destruct cur; cbn; [|done]. destruct (Z.ltb_spec z x); cbn; lia. Qed.

Lemma raise_to_idemp cur x : raise_to (raise_to cur x) x = raise_to cur x.
Proof.
  destruct cur as [c|]; cbn; [destruct (Z.ltb_spec c x) as [H|H]; cbn|];
    rewrite ?Z.ltb_irrefl; try done.
  by rewrite (proj2 (Z.ltb_ge c x) H).
Qed.
#[export] Hint Resolve opt_le_refl opt_le_raise : text.

Lemma is_empty_false (s : text) : is_empty s = false <-> s <> [].
Proof. by destruct s. Qed.
