(* ===== verification/Float64.v ===== *)
(** The [f64] arithmetic of the off-chain crates: IEEE-754 binary64 with
    round-to-nearest-even, over [SpecFloat].  Signs of zero are kept; NaN
    payloads are not.  [f64::max] and [f64::min] return the other operand of a
    NaN; of two equal operands they return the first, a choice Rust leaves open
    for zeros of different sign. *)
From stdpp Require Import prelude.
From Stdlib Require Import ZArith Lia SpecFloat.
From S2P Require Import Prelude.
From S2P Require Import Text.

#[local] Open Scope Z_scope.

Definition prec : Z := 53.
Definition emax : Z := 1024.

Definition fadd (a b : f64) : f64 := SFadd prec emax a b.
Definition fsub (a b : f64) : f64 := SFsub prec emax a b.
Definition fmul (a b : f64) : f64 := SFmul prec emax a b.
Definition fdiv (a b : f64) : f64 := SFdiv prec emax a b.
Definition fneg (a : f64) : f64 := SFopp a.
Definition fabs (a : f64) : f64 := SFabs a.
Definition fltb (a b : f64) : bool := SFltb a b.
Definition fleb (a b : f64) : bool := SFleb a b.

Definition fzero : f64 := S754_zero false.

Definition is_finite (a : f64) : bool :=
  match a with
  | S754_zero _ | S754_finite _ _ _ => true
  | _ => false
  end.

(** [f64::max] and [f64::min]. *)
Definition fmax (a b : f64) : f64 :=
  if is_nan a then b else if is_nan b then a else if fltb a b then b else a.
Definition fmin (a b : f64) : f64 :=
  if is_nan a then b else if is_nan b then a else if fltb b a then b else a.

(** An integer as an [f64]; a decimal literal [n/d] is the correctly rounded
    quotient of the two (both exact in every use below). *)
Definition f_of_Z (z : Z) : f64 := binary_normalize prec emax z 0 false.
Definition f_lit (n d : Z) : f64 := fdiv (f_of_Z n) (f_of_Z d).

Definition fone : f64 := f_of_Z 1.

(** [f64::EPSILON], the gap above one. *)
Definition F64_EPSILON : f64 := f_lit 1 (2 ^ 52).

(** The datum as [serde] and [PartialEq] see it is [f64_eq]; two fields that
    hold the same bits are Leibniz equal here. *)
#[export] Instance f64_eq_dec : EqDecision f64.
Proof. intros a b. unfold Decision. decide equality; try apply (decide_rel (=)). Defined.

Create HintDb f64 discriminated.

(** * Signs *)

(** Not below zero and not NaN. *)
Definition nonneg (a : f64) : bool :=
  match a with
  | S754_zero _ | S754_infinity false | S754_finite false _ _ => true
  | _ => false
  end.

Lemma nonneg_leb a : nonneg a = fleb fzero a.
Proof. destruct a as [[]|[]| |[]]; done. Qed.

Lemma not_neg_nonneg a : is_nan a = false -> fltb a fzero = false -> nonneg a = true.
Proof. destruct a as [[]|[]| |[]]; done. Qed.

Lemma finite_not_nan a : is_finite a = true -> is_nan a = false.
Proof. by destruct a. Qed.

Lemma finite_nonneg a : is_finite a = true -> fltb a fzero = false -> nonneg a = true.
Proof. intros ??. apply not_neg_nonneg; [by apply finite_not_nan|done]. Qed.

Lemma fmax_zero_nonneg a : nonneg (fmax a fzero) = true.
Proof. destruct a as [[]|[]| |[]]; done. Qed.

Lemma fmin_nonneg a b :
  nonneg a = true -> nonneg b = true -> nonneg (fmin a b) = true.
Proof. unfold fmin. intros. by repeat case_match. Qed.

(** Rounding keeps the sign. *)
Definition sign_pos (a : f64) : Prop :=
  match a with
  | S754_zero s | S754_infinity s | S754_finite s _ _ => s = false
  | S754_nan => True
  end.

Lemma binary_round_aux_sign mx ex lx :
  sign_pos (binary_round_aux prec emax false mx ex lx).
Proof.
  unfold binary_round_aux.
  destruct (shr_fexp prec emax mx ex lx) as [mrs' e'] eqn:H1.
  destruct (shr_fexp prec emax _ e' loc_Exact) as [mrs'' e''] eqn:H2.
  destruct (shr_m mrs''); [done| |done].
  by case_match.
Qed.

Lemma binary_normalize_sign m e s :
  0 <= m -> (m = 0 -> s = false) -> sign_pos (binary_normalize prec emax m e s).
Proof.
  intros Hm Hs. unfold binary_normalize. destruct m as [|p|p]; [by apply Hs| |lia].
  unfold binary_round. destruct (shl_align p e _) as [mz ez].
  apply binary_round_aux_sign.
Qed.

Lemma sign_pos_nonneg a : is_nan a = false -> sign_pos a -> nonneg a = true.
Proof. destruct a as [[]|[]| |[]]; done. Qed.

(** A sum of two numbers that are not negative is not negative. *)
Lemma fadd_nonneg a b :
  is_nan (fadd a b) = false ->
  nonneg a = true -> nonneg b = true -> nonneg (fadd a b) = true.
Proof.
  intros Hn Ha Hb.
  destruct a as [sa|[]| |[] ma ea]; try done; destruct b as [sb|[]| |[] mb eb]; try done;
    cbn in Hn |- *.
  - by destruct sa, sb.
  - apply sign_pos_nonneg; [done|]. apply binary_normalize_sign; [|intros H0];
      unfold cond_Zopp in *; lia.
Qed.

Lemma round_aux_nonneg mx ex lx :
  is_nan (binary_round_aux prec emax false mx ex lx) = false ->
  nonneg (binary_round_aux prec emax false mx ex lx) = true.
Proof. intros Hn. apply sign_pos_nonneg; [done|]. apply binary_round_aux_sign. Qed.

(** The same for finite products and quotients. *)
Lemma fmul_nonneg a b :
  is_finite (fmul a b) = true ->
  nonneg a = true -> nonneg b = true -> nonneg (fmul a b) = true.
Proof.
  intros Hf Ha Hb.
  destruct a as [sa|[]| |[] ma ea]; try done; destruct b as [sb|[]| |[] mb eb]; try done.
  unfold fmul in *; cbn [SFmul xorb] in *. apply round_aux_nonneg, finite_not_nan, Hf.
Qed.

Lemma fdiv_nonneg a b :
  is_finite (fdiv a b) = true ->
  nonneg a = true -> nonneg b = true -> nonneg (fdiv a b) = true.
Proof.
  intros Hf Ha Hb.
  destruct a as [sa|[]| |[] ma ea]; try done; destruct b as [sb|[]| |[] mb eb]; try done.
  unfold fdiv in *; cbn [SFdiv xorb] in *.
  destruct (SFdiv_core_binary _ _ _ _ _ _) as [[mz ez] lz].
  apply round_aux_nonneg, finite_not_nan, Hf.
Qed.

(** An amount the code accepts: finite and not below zero. *)
Definition finite_nonneg_amount (v : f64) : bool := is_finite v && fleb fzero v.

Lemma finite_nonneg_amount_spec v :
  finite_nonneg_amount v = true <-> is_finite v = true /\ nonneg v = true.
Proof. unfold finite_nonneg_amount. by rewrite nonneg_leb, andb_true_iff. Qed.

Lemma amount_of_guard v :
  is_finite v = true -> fltb v fzero = false -> finite_nonneg_amount v = true.
Proof. intros. apply finite_nonneg_amount_spec. auto using finite_nonneg. Qed.

Lemma amount_add a b :
  is_finite (fadd a b) = true ->
  finite_nonneg_amount a = true -> finite_nonneg_amount b = true ->
  finite_nonneg_amount (fadd a b) = true.
Proof.
  rewrite !finite_nonneg_amount_spec. intros Hf [_ Ha] [_ Hb].
  eauto using fadd_nonneg, finite_not_nan.
Qed.

Lemma amount_mul a b :
  is_finite (fmul a b) = true ->
  finite_nonneg_amount a = true -> finite_nonneg_amount b = true ->
  finite_nonneg_amount (fmul a b) = true.
Proof. rewrite !finite_nonneg_amount_spec. intros Hf [_ Ha] [_ Hb]. auto using fmul_nonneg. Qed.

Lemma amount_div a b :
  is_finite (fdiv a b) = true ->
  finite_nonneg_amount a = true -> finite_nonneg_amount b = true ->
  finite_nonneg_amount (fdiv a b) = true.
Proof. rewrite !finite_nonneg_amount_spec. intros Hf [_ Ha] [_ Hb]. auto using fdiv_nonneg. Qed.

Lemma amount_max_zero a :
  is_finite (fmax a fzero) = true -> finite_nonneg_amount (fmax a fzero) = true.
Proof. rewrite finite_nonneg_amount_spec. split; [done|apply fmax_zero_nonneg]. Qed.

Lemma amount_max a b :
  finite_nonneg_amount a = true -> finite_nonneg_amount b = true ->
  finite_nonneg_amount (fmax a b) = true.
Proof. unfold fmax. intros. by repeat case_match. Qed.

Lemma amount_zero : finite_nonneg_amount fzero = true.
Proof. done. Qed.

#[export] Hint Resolve fmax_zero_nonneg fmin_nonneg finite_not_nan finite_nonneg
  amount_of_guard amount_add amount_mul amount_div amount_max_zero amount_max amount_zero : f64.

Lemma nonneg_finite_or_inf a :
  nonneg a = true -> is_finite a = true \/ a = S754_infinity false.
Proof. destruct a as [[]|[]| |[]]; cbn; auto; done. Qed.

Example f_lit_nano : f_lit 1 1000000000 = S754_finite false 4835703278458517 (-82).
Proof. vm_compute. reflexivity. Qed.

(** * Between [f64] and the integers: [v.round() as u64], [u as f64], and the
    amount conversions of [crates/core/src/maths.rs]. *)

(** [m * 2^e] rounded to an integer, halves away from zero. *)
Definition round_half_away (m e : Z) : Z :=
  if 0 <=? e then m * 2 ^ e else (2 * m + 2 ^ (- e)) / 2 ^ (1 - e).

(** [v.round() as u64]: the cast saturates, a NaN is zero. *)
Definition f_round_u64 (v : f64) : Z :=
  match v with
  | S754_finite false m e => Z.min u64_max (round_half_away (Zpos m) e)
  | S754_infinity false => u64_max
  | _ => 0
  end.

Definition LAMPORTS_PER_SOL : Z := 1000000000.

(** [u64::MAX as f64] is two to the 64. *)
Definition F_U64_MAX : f64 := f_of_Z u64_max.

(** [sol_to_lamports], [usd_to_micro] and [to_raw_amount] at their scale. *)
Definition to_units (scale : Z) (amount : f64) : Z :=
  if negb (is_finite amount) || fleb amount fzero then 0
  else
    let v := fmul amount (f_of_Z scale) in
    if fleb F_U64_MAX v then u64_max else f_round_u64 v.

Definition of_units (scale raw : Z) : f64 := fdiv (f_of_Z raw) (f_of_Z scale).

Definition sol_to_lamports (sol : f64) : Z := to_units LAMPORTS_PER_SOL sol.
Definition lamports_to_sol (lamports : Z) : f64 := of_units LAMPORTS_PER_SOL lamports.

(** Powers of ten up to the twenty-second are exact. *)
Definition to_raw_amount (amount : f64) (decimals : Z) : Z := to_units (10 ^ decimals) amount.
Definition from_raw_amount (raw decimals : Z) : f64 := of_units (10 ^ decimals) raw.

Lemma round_half_away_nonneg m e : 0 <= m -> 0 <= round_half_away m e.
Proof.
  intros Hm. unfold round_half_away. destruct (Z.leb_spec 0 e).
  - pose proof (Z.pow_pos_nonneg 2 e). nia.
  - pose proof (Z.pow_pos_nonneg 2 (- e)). pose proof (Z.pow_pos_nonneg 2 (1 - e)).
    apply Z.div_pos; nia.
Qed.

(** The result is within one half of the value. *)
Lemma round_half_away_near m e :
  e < 0 -> let k := 2 ^ (- e) in
  2 * (round_half_away m e * k) - k <= 2 * m < 2 * (round_half_away m e * k) + k.
Proof.
  intros He k. unfold round_half_away. destruct (Z.leb_spec 0 e); [lia|].
  assert (Hk : 0 < k) by (apply Z.pow_pos_nonneg; lia).
  replace (2 ^ (1 - e)) with (2 * k).
  2:{ unfold k. rewrite <- Z.pow_succ_r by lia. f_equal. lia. }
  fold k. pose proof (Z.mul_div_le (2 * m + k) (2 * k) ltac:(lia)).
  pose proof (Z.mul_succ_div_gt (2 * m + k) (2 * k) ltac:(lia)). nia.
Qed.

Lemma f_round_u64_range v : in_u64 (f_round_u64 v).
Proof.
  unfold f_round_u64. destruct v as [[]|[]| |[] m e]; try mlia.
  pose proof (round_half_away_nonneg (Zpos m) e). mlia.
Qed.

Lemma to_units_range scale v : in_u64 (to_units scale v).
Proof.
  unfold to_units. destruct (_ || _); [mlia|]. cbv zeta. destruct (fleb _ _); [mlia|].
  apply f_round_u64_range.
Qed.

(** * The order of [f64]: [<] and [<=] of two numbers are the lexicographic order
    of a key, so that chains of comparisons are arithmetic; what [f64::min],
    [f64::max] and [f64::clamp] guarantee. *)

(** * The key of a number *)

Definition fkey (a : f64) : Z * Z * Z :=
  match a with
  | S754_infinity true => (-2, 0, 0)
  | S754_finite true m e => (-1, -e, - Zpos m)
  | S754_zero _ | S754_nan => (0, 0, 0)
  | S754_finite false m e => (1, e, Zpos m)
  | S754_infinity false => (2, 0, 0)
  end.

Definition lex_lt (a b : Z * Z * Z) : Prop :=
  a.1.1 < b.1.1 \/ (a.1.1 = b.1.1 /\ (a.1.2 < b.1.2 \/ (a.1.2 = b.1.2 /\ a.2 < b.2))).

Lemma fcompare_key a b :
  is_nan a = false -> is_nan b = false ->
  match SFcompare a b with
  | Some Lt => lex_lt (fkey a) (fkey b)
  | Some Eq => fkey a = fkey b
  | Some Gt => lex_lt (fkey b) (fkey a)
  | None => False
  end.
Proof.
  intros Ha Hb. unfold lex_lt.
  destruct a as [[]|[]| |[] m1 e1]; try discriminate Ha;
    destruct b as [[]|[]| |[] m2 e2]; try discriminate Hb; cbn; try lia; try done;
    change (Pos.compare_cont Eq m1 m2) with (Pos.compare m1 m2);
    destruct (Z.compare_spec e1 e2); subst; cbn; try lia;
    destruct (Pos.compare_spec m1 m2); subst; cbn; try done; lia.
Qed.

Lemma fltb_key a b : is_nan a = false -> is_nan b = false ->
  fltb a b = true <-> lex_lt (fkey a) (fkey b).
Proof.
  intros Ha Hb. pose proof (fcompare_key a b Ha Hb) as Hc. unfold fltb, SFltb.
  destruct (SFcompare a b) as [[]|]; split; try done; unfold lex_lt in *; try lia.
  intros H. exfalso. rewrite Hc in H. lia.
Qed.

Lemma fleb_key a b : is_nan a = false -> is_nan b = false ->
  fleb a b = true <-> ~ lex_lt (fkey b) (fkey a).
Proof.
  intros Ha Hb. pose proof (fcompare_key a b Ha Hb) as Hc. unfold fleb, SFleb.
  destruct (SFcompare a b) as [[]|]; split; try done; unfold lex_lt in *; try lia.
  intros _. rewrite Hc. lia.
Qed.

(** A comparison that holds is between numbers. *)
Lemma fltb_numbers a b : fltb a b = true -> is_nan a = false /\ is_nan b = false.
Proof. destruct a as [[]|[]| |[]], b as [[]|[]| |[]]; done. Qed.

Lemma fleb_numbers a b : fleb a b = true -> is_nan a = false /\ is_nan b = false.
Proof. destruct a as [[]|[]| |[]], b as [[]|[]| |[]]; done. Qed.

(** * Chains *)

Lemma fleb_trans a b c : fleb a b = true -> fleb b c = true -> fleb a c = true.
Proof.
  intros H1 H2. destruct (fleb_numbers _ _ H1), (fleb_numbers _ _ H2).
  rewrite fleb_key in * by done. unfold lex_lt in *. lia.
Qed.

Lemma fltb_leb_trans a b c : fltb a b = true -> fleb b c = true -> fltb a c = true.
Proof.
  intros H1 H2. destruct (fltb_numbers _ _ H1), (fleb_numbers _ _ H2).
  rewrite fltb_key, fleb_key in * by done. unfold lex_lt in *. lia.
Qed.

Lemma fleb_ltb_trans a b c : fleb a b = true -> fltb b c = true -> fltb a c = true.
Proof.
  intros H1 H2. destruct (fleb_numbers _ _ H1), (fltb_numbers _ _ H2).
  rewrite fltb_key, fleb_key in * by done. unfold lex_lt in *. lia.
Qed.

Lemma fltb_leb a b : fltb a b = true -> fleb a b = true.
Proof.
  intros H1. destruct (fltb_numbers _ _ H1).
  rewrite fltb_key, fleb_key in * by done. unfold lex_lt in *. lia.
Qed.

Lemma fltb_irrefl a : fltb a a = false.
Proof.
  destruct (is_nan a) eqn:Hn; [by destruct a|].
  apply not_true_iff_false. rewrite fltb_key by done. unfold lex_lt. lia.
Qed.

Lemma fleb_refl a : is_nan a = false -> fleb a a = true.
Proof. intros. rewrite fleb_key by done. unfold lex_lt. lia. Qed.

(** Between numbers the order is total. *)
Lemma fltb_false a b :
  is_nan a = false -> is_nan b = false -> fltb a b = false -> fleb b a = true.
Proof. intros Ha Hb. rewrite <- not_true_iff_false, fltb_key, fleb_key by done. tauto. Qed.

Lemma fleb_false a b :
  is_nan a = false -> is_nan b = false -> fleb a b = false -> fltb b a = true.
Proof.
  intros Ha Hb. rewrite <- not_true_iff_false, fltb_key, fleb_key by done. unfold lex_lt. lia.
Qed.

Lemma fleb_fneg a b : fleb (fneg a) (fneg b) = fleb b a.
Proof.
  apply eq_true_iff_eq. split; intros H; destruct (fleb_numbers _ _ H) as [H1 H2];
    destruct a as [[]|[]| |[] m1 e1], b as [[]|[]| |[] m2 e2]; try done;
    rewrite fleb_key in * by done; unfold lex_lt in *; cbn in *; lia.
Qed.

(** * Minimum, maximum *)

Lemma fmin_nan a b : is_nan (fmin a b) = is_nan a && is_nan b.
Proof. unfold fmin. destruct (is_nan a) eqn:Ha; [done|]. repeat case_match; done. Qed.

Lemma fmax_nan a b : is_nan (fmax a b) = is_nan a && is_nan b.
Proof. unfold fmax. destruct (is_nan a) eqn:Ha; [done|]. repeat case_match; done. Qed.

Lemma fmin_le_l a b : is_nan a = false -> fleb (fmin a b) a = true.
Proof.
  intros Ha. unfold fmin. rewrite Ha.
  destruct (is_nan b) eqn:?; [by apply fleb_refl|].
  destruct (fltb b a) eqn:?; [by apply fltb_leb|by apply fleb_refl].
Qed.

Lemma fmin_le_r a b : is_nan b = false -> fleb (fmin a b) b = true.
Proof.
  intros Hb. unfold fmin. rewrite Hb.
  destruct (is_nan a) eqn:?; [by apply fleb_refl|].
  destruct (fltb b a) eqn:?; [by apply fleb_refl|by apply fltb_false].
Qed.

Lemma fmax_ge_l a b : is_nan a = false -> fleb a (fmax a b) = true.
Proof.
  intros Ha. unfold fmax. rewrite Ha.
  destruct (is_nan b) eqn:?; [by apply fleb_refl|].
  destruct (fltb a b) eqn:?; [by apply fltb_leb|by apply fleb_refl].
Qed.

Lemma fmax_ge_r a b : is_nan b = false -> fleb b (fmax a b) = true.
Proof.
  intros Hb. unfold fmax. rewrite Hb.
  destruct (is_nan a) eqn:?; [by apply fleb_refl|].
  destruct (fltb a b) eqn:?; [by apply fleb_refl|by apply fltb_false].
Qed.

(** A bound that holds of the minimum holds when more is taken into it. *)
Lemma fleb_fmin_r a b x : fleb a x = true -> fleb (fmin a b) x = true.
Proof.
  intros H. eapply fleb_trans; [apply fmin_le_l; by apply fleb_numbers in H as []|done].
Qed.

Lemma finite_between lo hi a :
  is_finite lo = true -> is_finite hi = true -> fleb lo a = true -> fleb a hi = true ->
  is_finite a = true.
Proof.
  intros Hl Hh H1 H2. destruct a as [|[]| |]; try done; [destruct lo as [|[]| |[]]|destruct hi as [|[]| |[]]]; done.
Qed.

(** * Products *)

Lemma shr_1_nonneg r : 0 <= shr_m r -> 0 <= shr_m (shr_1 r).
Proof. destruct r as [[|[]|[]] ? ?]; cbn; lia. Qed.

Lemma iter_shr_nonneg p : forall r, 0 <= shr_m r -> 0 <= shr_m (iter_pos shr_1 p r).
Proof. induction p as [p IH|p IH|]; intros r Hr; cbn; auto using shr_1_nonneg. Qed.

Lemma shr_fexp_nonneg m e l : 0 <= m -> 0 <= shr_m (shr_fexp prec emax m e l).1.
Proof.
  intros Hm. unfold shr_fexp.
  assert (Hr : 0 <= shr_m (shr_record_of_loc m l)) by (by destruct l as [|[]]).
  unfold shr. case_match; cbn [fst]; auto using iter_shr_nonneg.
Qed.

(** The rounding of a mantissa that is not negative is a number. *)
Lemma round_aux_number s m e l :
  0 <= m -> is_nan (binary_round_aux prec emax s m e l) = false.
Proof.
  intros Hm. unfold binary_round_aux.
  pose proof (shr_fexp_nonneg m e l Hm) as H1.
  destruct (shr_fexp prec emax m e l) as [r1 e1]. cbn [fst] in H1.
  match goal with |- context[shr_fexp prec emax ?m' e1 loc_Exact] =>
    assert (Hm' : 0 <= m') by (unfold round_nearest_even; repeat case_match; lia);
    pose proof (shr_fexp_nonneg m' e1 loc_Exact Hm') as H2;
    destruct (shr_fexp prec emax m' e1 loc_Exact) as [r2 e2]
  end.
  cbn [fst] in H2. destruct (shr_m r2); [done|by case_match|lia].
Qed.

Lemma fmul_number a b : is_finite a = true -> is_finite b = true -> is_nan (fmul a b) = false.
Proof.
  destruct a as [[]|[]| |sa ma ea]; try done; destruct b as [[]|[]| |sb mb eb]; try done.
  intros _ _. apply round_aux_number. lia.
Qed.

Lemma fmul_nonneg_number a b :
  is_finite a = true -> is_finite b = true -> nonneg a = true -> nonneg b = true ->
  fleb fzero (fmul a b) = true.
Proof.
  intros Ha Hb Na Nb. pose proof (fmul_number a b Ha Hb) as Hn. rewrite <- nonneg_leb.
  destruct a as [[]|[]| |[] ma ea]; try done; destruct b as [[]|[]| |[] mb eb]; try done.
  by apply round_aux_nonneg.
Qed.

#[export] Hint Resolve fleb_refl fmin_le_l fmin_le_r fmax_ge_l fmax_ge_r fleb_fmin_r : f64.
