(* ===== verification/FloatRound.v ===== *)
(** Rounding of sums: a double is a whole number of units of 2^-1074, an exact
    sum is one too, and the rounded sum lies on the same side of every double as
    the exact one.  From this: adding an amount that is not negative never
    lowers a number, a sum over a cap leaves a rest below the last summand. *)
From stdpp Require Import prelude.
From Stdlib Require Import ZArith Lia SpecFloat.
From S2P Require Import Prelude.
From S2P Require Import Text.
From S2P Require Import Float64.

#[local] Open Scope Z_scope.

Definition fmin_exp : Z := -1074.

(** A datum that is the encoding of a double. *)
Definition is_double (a : f64) : bool := valid_binary prec emax a.

(** A finite double in units of 2^-1074. *)
Definition units (m e : Z) : Z := m * 2 ^ (e - fmin_exp).

Definition fval (a : f64) : Z :=
  match a with
  | S754_finite false m e => units (Zpos m) e
  | S754_finite true m e => - units (Zpos m) e
  | _ => 0
  end.

(** * Digits and shifts *)

Lemma digits_bounds m :
  2 ^ (Zpos (digits2_pos m) - 1) <= Zpos m < 2 ^ Zpos (digits2_pos m).
Proof.
  induction m as [m IH|m IH|]; cbn [digits2_pos]; [| |done];
    rewrite Pos2Z.inj_succ; replace (Z.succ (Zpos (digits2_pos m)) - 1) with (Zpos (digits2_pos m)) by lia;
    rewrite Z.pow_succ_r by lia;
    rewrite (Z.pow_sub_r 2 _ 1) in IH by lia; change (2 ^ 1) with 2 in IH;
    assert (2 ^ Zpos (digits2_pos m) = 2 * (2 ^ Zpos (digits2_pos m) / 2)) by
      (rewrite <- Z_div_exact_full_2; [done|lia|];
       replace (Zpos (digits2_pos m)) with (Z.succ (Zpos (digits2_pos m) - 1)) by lia;
       rewrite Z.pow_succ_r by lia; rewrite Z.mul_comm; apply Z.mod_mul; lia); lia.
Qed.

Lemma digits_unique m d : 0 < d -> 2 ^ (d - 1) <= Zpos m < 2 ^ d -> Zpos (digits2_pos m) = d.
Proof.
  intros Hd Hm. pose proof (digits_bounds m) as Hb.
  destruct (Z.lt_trichotomy (Zpos (digits2_pos m)) d) as [Hlt|[Heq|Hlt]]; [|done|].
  - pose proof (Z.pow_le_mono_r 2 (Zpos (digits2_pos m)) (d - 1)). lia.
  - pose proof (Z.pow_le_mono_r 2 d (Zpos (digits2_pos m) - 1)). lia.
Qed.

(** The state of a right shift of [v] by [k] bits: the quotient, and whether
    anything was lost. *)
Definition shifted (v k : Z) (r : shr_record) : Prop :=
  shr_m r = v / 2 ^ k /\ (shr_r r || shr_s r = false <-> v mod 2 ^ k = 0).

Lemma shr_1_shifted v k r :
  0 <= v -> 0 <= k -> shifted v k r -> shifted v (k + 1) (shr_1 r).
Proof.
  intros Hv Hk [Hq Hl]. unfold shifted.
  assert (Hpow : 2 ^ (k + 1) = 2 ^ k * 2) by (rewrite Z.pow_add_r by lia; lia).
  assert (0 < 2 ^ k) by (apply Z.pow_pos_nonneg; lia).
  assert (Hdiv : v / 2 ^ (k + 1) = (v / 2 ^ k) / 2) by (rewrite Hpow, Z.div_div by lia; done).
  assert (Hmod : v mod 2 ^ (k + 1) = v mod 2 ^ k + 2 ^ k * ((v / 2 ^ k) mod 2)).
  { rewrite Hpow, Z.rem_mul_r by lia. done. }
  rewrite Hdiv, Hmod, <- Hq.
  pose proof (Z.mod_pos_bound v (2 ^ k) ltac:(lia)).
  rewrite <- Z.div2_div, Zmod_odd.
  destruct r as [m rr rs]; cbn [shr_m shr_r shr_s] in *.
  destruct m as [|[p|p|]|p];
    [..|assert (0 <= v / 2 ^ k) by (apply Z.div_pos; lia); lia]; cbn;
    (split; [done|]); rewrite ?Z.mul_0_r, ?Z.mul_1_r, ?Z.add_0_r; try done;
    split; intros Hz; try discriminate Hz; lia.
Qed.

Lemma iter_pos_comm {A} (f : A -> A) n x :
  SpecFloat.iter_pos f n (f x) = f (SpecFloat.iter_pos f n x).
Proof. revert x. induction n as [n IH|n IH|]; intros x; cbn; by rewrite ?IH. Qed.

Lemma iter_pos_succ {A} (f : A -> A) n x :
  SpecFloat.iter_pos f (Pos.succ n) x = f (SpecFloat.iter_pos f n x).
Proof.
  revert x. induction n as [n IH|n IH|]; intros x; [| |done].
  - change (Pos.succ n~1) with (xO (Pos.succ n)). cbn. by rewrite !IH, !iter_pos_comm.
  - change (Pos.succ n~0) with (xI n). cbn. by rewrite !iter_pos_comm.
Qed.

Lemma shr_shifted v n :
  0 <= v -> shifted v (Zpos n) (SpecFloat.iter_pos shr_1 n (Build_shr_record v false false)).
Proof.
  intros Hv. induction n as [|n IH] using Pos.peano_ind.
  - apply (shr_1_shifted v 0); [done|done|]. split; cbn; [by rewrite Z.div_1_r|].
    rewrite Z.mod_1_r. done.
  - rewrite iter_pos_succ, Pos2Z.inj_succ, <- Z.add_1_r. by apply shr_1_shifted.
Qed.

(** Shifting to the exponent of [v]. *)
Lemma shr_fexp_shifted v e :
  0 <= v -> e <= fexp prec emax (Zdigits2 v + e) ->
  exists r, shr_fexp prec emax v e loc_Exact = (r, fexp prec emax (Zdigits2 v + e))
    /\ shifted v (fexp prec emax (Zdigits2 v + e) - e) r.
Proof.
  intros Hv He. unfold shr_fexp, shr_record_of_loc.
  destruct (fexp prec emax (Zdigits2 v + e) - e) as [|n|n] eqn:Hn; [| |lia]; cbn [shr].
  - eexists. split; [f_equal; lia|]. split; cbn; [by rewrite Z.div_1_r|by rewrite Z.mod_1_r].
  - eexists. split; [f_equal; lia|]. by apply shr_shifted.
Qed.

Lemma round_even_cases r v k :
  shifted v k r ->
  let q' := round_nearest_even (shr_m r) (loc_of_shr_record r) in
  q' = v / 2 ^ k \/ (q' = v / 2 ^ k + 1 /\ v mod 2 ^ k <> 0).
Proof.
  intros [Hq Hl] q'. subst q'. rewrite Hq.
  destruct r as [m [] []]; cbn in *; [right|case_match; [left|right]|left|left]; auto;
    split; auto; intros Hz; by apply Hl in Hz.
Qed.

(** * Rounding a positive number of units *)

Definition shift_left (m : positive) (n : Z) : Z := Zpos m * 2 ^ n.

Lemma iter_xO m n : Zpos (Pos.iter xO m n) = shift_left m (Zpos n).
Proof.
  unfold shift_left. induction n as [|n IH] using Pos.peano_ind.
  - cbn [Pos.iter]. change (2 ^ 1) with 2. lia.
  - rewrite Pos.iter_succ, Pos2Z.inj_succ, Z.pow_succ_r by lia. lia.
Qed.

Lemma digits_shift m n k :
  0 <= n -> Zpos k = shift_left m n -> Zpos (digits2_pos k) = Zpos (digits2_pos m) + n.
Proof.
  intros Hn Hk. apply digits_unique; [lia|]. rewrite Hk. unfold shift_left.
  pose proof (digits_bounds m) as Hb. pose proof (Pos2Z.is_pos (digits2_pos m)).
  replace (Zpos (digits2_pos m) + n - 1) with ((Zpos (digits2_pos m) - 1) + n) by lia.
  rewrite !Z.pow_add_r by lia.
  assert (0 < 2 ^ n) by (apply Z.pow_pos_nonneg; lia). nia.
Qed.

(** Aligning to a lower exponent keeps the value and the digits' position. *)
Lemma shl_align_spec m e e' :
  exists mz ez, shl_align m e e' = (mz, ez) /\ ez = Z.min e e' /\
    Zpos mz = shift_left m (e - ez) /\
    Zpos (digits2_pos mz) + ez = Zpos (digits2_pos m) + e.
Proof.
  unfold shl_align. destruct (e' - e) as [|n|n] eqn:Hd.
  1,2: exists m, e; unfold shift_left; rewrite Z.sub_diag, Z.pow_0_r, Z.mul_1_r;
       repeat split; lia.
  eexists _, _. split; [reflexivity|].
  assert (e - e' = Zpos n) as He by lia.
  repeat split; [lia|by rewrite iter_xO, He|].
  rewrite (digits_shift m (Zpos n)); [lia|lia|apply iter_xO].
Qed.

Lemma fexp_max x : fexp prec emax x = Z.max (x - 53) fmin_exp.
Proof. reflexivity. Qed.

Lemma canonical_iff m e :
  canonical_mantissa prec emax m e = true <-> Z.max (Zpos (digits2_pos m) + e - 53) fmin_exp = e.
Proof. unfold canonical_mantissa. by rewrite fexp_max, Z.eqb_eq. Qed.

(** The second alignment of [binary_round_aux]: a mantissa of at most 53 digits
    stays, 2^53 becomes 2^52. *)
Lemma final_align q F :
  0 < q <= 2 ^ 53 -> (F = fmin_exp \/ 2 ^ 52 <= q) -> fmin_exp <= F ->
  exists m e, shr_fexp prec emax q F loc_Exact = (Build_shr_record (Zpos m) false false, e)
    /\ canonical_mantissa prec emax m e = true /\ units (Zpos m) e = units q F /\ F <= e.
Proof.
  intros Hq Hlow HF. destruct q as [|q|q]; [lia| |lia].
  unfold shr_fexp, shr_record_of_loc. cbn [Zdigits2]. rewrite fexp_max.
  destruct (decide (Zpos q = 2 ^ 53)) as [Hb|Hb].
  - assert (q = (2 ^ 53)%positive) as -> by lia. exists (2 ^ 52)%positive, (F + 1).
    replace (Z.max (Zpos (digits2_pos (2 ^ 53)) + F - 53) fmin_exp - F) with 1
      by (change (Zpos (digits2_pos (2 ^ 53))) with 54; unfold fmin_exp in *; lia).
    split; [reflexivity|]. rewrite canonical_iff.
    change (Zpos (digits2_pos (2 ^ 52))) with 53.
    split; [unfold fmin_exp in *; lia|]. split; [|lia]. unfold units.
    replace (F + 1 - fmin_exp) with (Z.succ (F - fmin_exp)) by lia.
    rewrite Z.pow_succ_r by lia. change (Zpos (2 ^ 53)) with (2 * Zpos (2 ^ 52)). lia.
  - assert (Hd : Z.max (Zpos (digits2_pos q) + F - 53) fmin_exp = F).
    { pose proof (digits_bounds q) as Hdb.
      assert (Zpos (digits2_pos q) - 1 < 53) by
        (apply (Z.pow_lt_mono_r_iff 2); lia).
      destruct Hlow as [->|Hlow]; [lia|].
      assert (52 < Zpos (digits2_pos q)) by (apply (Z.pow_lt_mono_r_iff 2); lia). lia. }
    exists q, F. rewrite Hd, Z.sub_diag. cbn [shr].
    split; [done|]. rewrite canonical_iff. split; [done|]. split; [done|lia].
Qed.

(** The mantissa that is left on the grid. *)
Lemma quotient_bounds m e :
  let F := fexp prec emax (Zdigits2 (Zpos m) + e) in
  e <= F ->
  Zpos m / 2 ^ (F - e) < 2 ^ 53 /\ (F = fmin_exp \/ 2 ^ 52 <= Zpos m / 2 ^ (F - e)).
Proof.
  intros F He. subst F. cbn [Zdigits2] in *. rewrite fexp_max in *.
  set (d := Zpos (digits2_pos m)) in *. set (F := Z.max (d + e - 53) fmin_exp) in *.
  pose proof (digits_bounds m) as Hd. fold d in Hd.
  assert (0 < 2 ^ (F - e)) by (apply Z.pow_pos_nonneg; lia). split.
  - apply div_lt_iff; [done|]. rewrite <- Z.pow_add_r by lia.
    pose proof (Z.pow_le_mono_r 2 d (53 + (F - e))). lia.
  - destruct (Z.max_spec (d + e - 53) fmin_exp) as [[? HF]|[? HF]]; fold F in HF; [by left|right].
    apply div_le_iff; [done|]. rewrite <- Z.pow_add_r by lia.
    replace (52 + (F - e)) with (d - 1) by lia. lia.
Qed.

(** What rounding does to [units m e]: it lands on the neighbour below or above
    on the grid of its exponent [F], and stays when it is on the grid. *)
Definition rounds_to (v : Z) (m : positive) (e : Z) : Prop :=
  exists q F, fmin_exp <= F /\ units q F <= v < units (q + 1) F
    /\ (F = fmin_exp \/ 2 ^ 52 <= q) /\ canonical_mantissa prec emax m e = true
    /\ (units (Zpos m) e = units q F \/ (units (Zpos m) e = units (q + 1) F /\ v <> units q F)).

Lemma round_spec s m e :
  fmin_exp <= e ->
  exists m' e', rounds_to (units (Zpos m) e) m' e' /\
    binary_round prec emax s m e =
      (if Z.leb e' (emax - prec) then S754_finite s m' e' else S754_infinity s).
Proof.
  intros He. unfold binary_round.
  set (F := Z.max (Zpos (digits2_pos m) + e - 53) fmin_exp).
  destruct (shl_align_spec m e F) as (mz & ez & Halign & Hez & Hval & Hdig).
  rewrite fexp_max. fold F. rewrite Halign.
  assert (HvF : fexp prec emax (Zdigits2 (Zpos mz) + ez) = F).
  { cbn [Zdigits2]. by rewrite fexp_max, Hdig. }
  unfold binary_round_aux.
  destruct (shr_fexp_shifted (Zpos mz) ez) as (r & Hshr & Hsh); [lia|lia|].
  rewrite Hshr, HvF in *.
  set (n := F - ez) in *. set (q := Zpos mz / 2 ^ n) in *.
  assert (Hn : 0 <= n) by lia.
  assert (Hpow : 0 < 2 ^ n) by (apply Z.pow_pos_nonneg; lia).
  assert (Hq : q * 2 ^ n <= Zpos mz < (q + 1) * 2 ^ n).
  { pose proof (Z.mul_div_le (Zpos mz) (2 ^ n) Hpow).
    pose proof (Z.mul_succ_div_gt (Zpos mz) (2 ^ n) Hpow). subst q. lia. }
  assert (Hunits : forall k, units k F = k * 2 ^ n * 2 ^ (ez - fmin_exp)).
  { intros k. unfold units. rewrite <- Z.mul_assoc, <- Z.pow_add_r by lia. do 2 f_equal. lia. }
  assert (Hv : units (Zpos m) e = Zpos mz * 2 ^ (ez - fmin_exp)).
  { rewrite Hval. unfold units, shift_left. rewrite <- Z.mul_assoc, <- Z.pow_add_r by lia.
    do 2 f_equal. lia. }
  assert (Hqb : q < 2 ^ 53 /\ (F = fmin_exp \/ 2 ^ 52 <= q)).
  { pose proof (quotient_bounds mz ez) as Hqb. rewrite HvF in Hqb. apply Hqb. lia. }
  destruct Hqb as [Hqb HFq].
  assert (0 < q) by (destruct HFq as [HF|]; [replace n with 0 in Hq by lia|]; lia).
  assert (Hgrid : units q F <= units (Zpos m) e < units (q + 1) F).
  { rewrite !Hunits, Hv. assert (0 < 2 ^ (ez - fmin_exp)) by (apply Z.pow_pos_nonneg; lia). nia. }
  pose proof (round_even_cases r _ _ Hsh) as Hcases. cbv zeta in Hcases. fold q in Hcases.
  set (q' := round_nearest_even _ _) in *.
  destruct (final_align q' F) as (m' & e' & Hfin & Hcan & Hu & HFe); [lia|lia|lia|].
  rewrite Hfin. exists m', e'. split; [|done].
  exists q, F. do 4 (split; [by auto; lia|]). rewrite Hu.
  destruct Hcases as [->|[-> Hne]]; [by left|right; split; [done|]].
  intros Heq. apply Hne. rewrite Hunits, Hv in Heq.
  assert (Hpos : 2 ^ (ez - fmin_exp) <> 0) by (apply Z.pow_nonzero; lia).
  apply (Z.mul_reg_r _ _ _ Hpos) in Heq. rewrite Heq. apply Z.mod_mul. lia.
Qed.

(** * Rounding respects every double *)

Lemma units_split m e F : F <= e -> fmin_exp <= F -> units m e = units (m * 2 ^ (e - F)) F.
Proof.
  intros. unfold units. rewrite <- Z.mul_assoc, <- Z.pow_add_r by lia. do 2 f_equal. lia.
Qed.

Lemma units_lt k l F : fmin_exp <= F -> units k F < units l F <-> k < l.
Proof.
  intros. unfold units. assert (0 < 2 ^ (F - fmin_exp)) by (apply Z.pow_pos_nonneg; lia). nia.
Qed.

Lemma units_le k l F : fmin_exp <= F -> units k F <= units l F <-> k <= l.
Proof.
  intros. unfold units. assert (0 < 2 ^ (F - fmin_exp)) by (apply Z.pow_pos_nonneg; lia). nia.
Qed.

(** A mantissa of at most 53 digits below the grid is below the grid's start. *)
Lemma units_below_grid m e q F :
  0 <= m < 2 ^ 53 -> fmin_exp <= e < F -> 2 ^ 52 <= q -> units m e < units q F.
Proof.
  intros Hm He Hq.
  replace (units q F) with (units (q * 2 ^ (F - e)) e) by (symmetry; apply units_split; lia).
  apply units_lt; [lia|].
  pose proof (Z.pow_le_mono_r 2 1 (F - e)). nia.
Qed.

Lemma rounds_to_ge v m e x ex :
  rounds_to v m e -> 0 <= x < 2 ^ 53 -> fmin_exp <= ex -> units x ex <= v ->
  units x ex <= units (Zpos m) e.
Proof.
  intros (q & F & HF & Hv & Hq & _ & Hr) Hx Hex Hle.
  enough (units x ex <= units q F) by (pose proof (units_le q (q + 1) F HF); lia).
  destruct (decide (ex < F)).
  - destruct Hq as [->|Hq]; [lia|]. pose proof (units_below_grid x ex q F). lia.
  - rewrite (units_split x ex F) in * by lia. rewrite units_le by done.
    assert (units (x * 2 ^ (ex - F)) F < units (q + 1) F) as Hlt by lia.
    apply units_lt in Hlt; [lia|done].
Qed.

Lemma rounds_to_le v m e x ex :
  rounds_to v m e -> 0 <= x < 2 ^ 53 -> fmin_exp <= ex -> v <= units x ex ->
  units (Zpos m) e <= units x ex.
Proof.
  intros (q & F & HF & Hv & Hq & _ & Hr) Hx Hex Hle.
  destruct (decide (ex < F)).
  - destruct Hq as [->|Hq]; [lia|]. pose proof (units_below_grid x ex q F). lia.
  - rewrite (units_split x ex F) in * by lia.
    destruct Hr as [->|[-> Hne]]; [lia|]. rewrite units_le by done.
    assert (units q F < units (x * 2 ^ (ex - F)) F) as Hlt by lia.
    apply units_lt in Hlt; [lia|done].
Qed.

(** * The order is the order of the values *)

Lemma canonical_bounds m e :
  canonical_mantissa prec emax m e = true ->
  0 < Zpos m < 2 ^ 53 /\ fmin_exp <= e /\ (e = fmin_exp \/ 2 ^ 52 <= Zpos m).
Proof.
  rewrite canonical_iff. intros Hc. pose proof (digits_bounds m) as Hd.
  assert (Zpos (digits2_pos m) <= 53) by lia.
  pose proof (Z.pow_le_mono_r 2 (Zpos (digits2_pos m)) 53).
  split; [lia|]. split; [lia|].
  destruct (decide (Zpos (digits2_pos m) = 53)) as [H53|]; [right|left; lia].
  rewrite H53 in Hd. exact (proj1 Hd).
Qed.

Lemma canonical_lex m1 e1 m2 e2 :
  canonical_mantissa prec emax m1 e1 = true -> canonical_mantissa prec emax m2 e2 = true ->
  (units (Zpos m1) e1 < units (Zpos m2) e2 <-> e1 < e2 \/ (e1 = e2 /\ Zpos m1 < Zpos m2)).
Proof.
  intros H1 H2. apply canonical_bounds in H1 as (Hm1 & He1 & Hc1).
  apply canonical_bounds in H2 as (Hm2 & He2 & Hc2).
  destruct (Z.lt_trichotomy e1 e2) as [Hlt|[->|Hlt]].
  - pose proof (units_below_grid (Zpos m1) e1 (Zpos m2) e2). lia.
  - rewrite units_lt by done. lia.
  - pose proof (units_below_grid (Zpos m2) e2 (Zpos m1) e1). lia.
Qed.

(** A finite double. *)
Definition number (a : f64) : bool := is_finite a && is_double a.

Lemma bounded_canonical m e : bounded prec emax m e = true -> canonical_mantissa prec emax m e = true.
Proof. unfold bounded. by intros [? _]%andb_true_iff. Qed.

Lemma number_not_nan a : number a = true -> is_nan a = false.
Proof. unfold number. intros [? _]%andb_true_iff. by apply finite_not_nan. Qed.

Lemma units_pos m e : 0 < units (Zpos m) e \/ e < fmin_exp.
Proof.
  destruct (decide (e < fmin_exp)); [by right|left]. unfold units.
  apply Z.mul_pos_pos; [done|]. apply Z.pow_pos_nonneg; lia.
Qed.

Lemma fleb_fval a b : number a = true -> number b = true -> fleb a b = true <-> fval a <= fval b.
Proof.
  intros Ha Hb. rewrite fleb_key by (by apply number_not_nan).
  unfold number, is_double in *. unfold lex_lt.
  destruct a as [[]|[]| |[] m1 e1]; try discriminate Ha;
    destruct b as [[]|[]| |[] m2 e2]; try discriminate Hb; cbn [fkey fval fst snd]; cbn in Ha, Hb;
    repeat match goal with
    | H : bounded prec emax ?m ?e = true |- _ =>
        let Hc := fresh in pose proof (bounded_canonical _ _ H) as Hc; clear H;
        pose proof (canonical_bounds _ _ Hc); destruct (units_pos m e); [|lia]
    end; try lia.
  - pose proof (canonical_lex m1 e1 m2 e2 ltac:(done) ltac:(done)). lia.
  - pose proof (canonical_lex m2 e2 m1 e1 ltac:(done) ltac:(done)). lia.
Qed.

(** * Sums *)

(** [r] is on the same side of every finite double as the value [z]. *)
Record rounded (z : Z) (r : f64) : Prop := mkRounded {
  rounded_double : is_double r = true;
  rounded_not_nan : is_nan r = false;
  rounded_ge : forall x, number x = true -> fval x <= z -> fleb x r = true;
  rounded_le : forall x, number x = true -> z <= fval x -> fleb r x = true;
}.

Lemma number_rounded a : number a = true -> rounded (fval a) a.
Proof.
  intros Ha. split; [by apply andb_true_iff in Ha as []|by apply number_not_nan| |];
    intros x Hx Hle; by apply fleb_fval.
Qed.

Lemma number_finite s m e :
  canonical_mantissa prec emax m e = true -> (e <=? emax - prec) = true ->
  number (S754_finite s m e) = true.
Proof. intros H1 H2. unfold number, is_double. cbn. unfold bounded. by rewrite H1, H2. Qed.

(** A number's own mantissa in units. *)
Lemma number_pos x :
  number x = true -> 0 < fval x ->
  exists m e, x = S754_finite false m e /\ fval x = units (Zpos m) e
    /\ 0 <= Zpos m < 2 ^ 53 /\ fmin_exp <= e <= emax - prec /\ canonical_mantissa prec emax m e = true.
Proof.
  intros Hx Hpos. unfold number, is_double in Hx.
  destruct x as [|[]| |[] m e]; try discriminate Hx; cbn [fval] in Hpos; try lia; cbn in Hx.
  - unfold bounded in Hx. apply andb_true_iff in Hx as [Hc _].
    apply canonical_bounds in Hc as (_ & ? & _). destruct (units_pos m e); lia.
  - unfold bounded in Hx. apply andb_true_iff in Hx as [Hc Hx]. apply Z.leb_le in Hx.
    pose proof (canonical_bounds _ _ Hc). exists m, e. repeat split; try done; lia.
Qed.

Lemma rounds_to_overflow v m e x ex :
  rounds_to v m e -> 0 <= x < 2 ^ 53 -> fmin_exp <= ex <= emax - prec ->
  v <= units x ex -> e <= emax - prec.
Proof.
  intros Hr Hx Hex Hle. pose proof (rounds_to_le v m e x ex Hr Hx ltac:(lia) Hle) as Hu.
  destruct Hr as (q & F & _ & _ & _ & Hc & _). apply canonical_bounds in Hc as (_ & _ & Hc).
  destruct (decide (e <= emax - prec)); [done|].
  pose proof (units_below_grid x ex (Zpos m) e). unfold emax, prec, fmin_exp in *. lia.
Qed.

Lemma binary_round_pos m e :
  fmin_exp <= e -> rounded (units (Zpos m) e) (binary_round prec emax false m e).
Proof.
  intros He. destruct (round_spec false m e He) as (m' & e' & Hr & ->).
  assert (Hc : canonical_mantissa prec emax m' e' = true) by (by destruct Hr as (?&?&?&?&?&?&?)).
  assert (Hge : forall x, number x = true -> fval x <= units (Zpos m) e ->
            fval x <= units (Zpos m') e').
  { intros x Hx Hle. destruct (decide (0 < fval x)) as [Hp|].
    - destruct (number_pos x Hx Hp) as (mx & ex & _ & Hfx & Hmx & Hex & _). rewrite Hfx in *.
      apply (rounds_to_ge _ _ _ _ _ Hr Hmx); lia.
    - destruct (canonical_bounds _ _ Hc) as (? & ? & _). destruct (units_pos m' e'); lia. }
  destruct (Z.leb e' (emax - prec)) eqn:Hov.
  - pose proof (number_finite false m' e' Hc Hov) as Hn.
    split; [by apply andb_true_iff in Hn as []|done| |]; intros x Hx Hle; apply fleb_fval; try done.
    + by apply Hge.
    + destruct (units_pos m e); [|lia].
      destruct (number_pos x Hx) as (mx & ex & _ & Heq & Hmx & Hex & _); [lia|].
      rewrite Heq in *. cbn [fval]. apply (rounds_to_le _ _ _ _ _ Hr Hmx); lia.
  - split; [done|done| |]; intros x Hx Hle.
    + unfold number in Hx. destruct x as [[]|[]| |[]]; done.
    + destruct (units_pos m e); [|lia].
      destruct (number_pos x Hx) as (mx & ex & _ & Heq & Hmx & Hex & _); [lia|].
      rewrite Heq in Hle. apply Z.leb_gt in Hov.
      pose proof (rounds_to_overflow _ m' e' _ ex Hr Hmx ltac:(lia) Hle). lia.
Qed.

(** Negation turns the picture round. *)
Lemma binary_round_neg m e :
  binary_round prec emax true m e = fneg (binary_round prec emax false m e).
Proof.
  unfold binary_round. destruct (shl_align _ _ _) as [mz ez]. unfold binary_round_aux.
  destruct (shr_fexp _ _ _ _ _) as [r1 e1]. destruct (shr_fexp _ _ _ _ _) as [r2 e2].
  destruct (shr_m r2) as [| |]; [done| |done]. by destruct (Z.leb _ _).
Qed.

Lemma fval_fneg a : fval (fneg a) = - fval a.
Proof. destruct a as [| | |[]]; cbn; lia. Qed.

Lemma fneg_fneg a : fneg (fneg a) = a.
Proof. destruct a; cbn; by rewrite ?negb_involutive. Qed.

Lemma number_fneg a : number (fneg a) = number a.
Proof. by destruct a. Qed.

Lemma rounded_fneg z r : rounded z r -> rounded (- z) (fneg r).
Proof.
  intros [Hd Hn Hge Hle]. split; [by destruct r|by destruct r| |]; intros x Hx Hz;
    rewrite <- (fneg_fneg x), fleb_fneg; [apply Hle|apply Hge]; rewrite ?number_fneg, ?fval_fneg;
    done || lia.
Qed.

Lemma binary_normalize_rounded m e s :
  fmin_exp <= e -> rounded (units m e) (binary_normalize prec emax m e s).
Proof.
  intros He. destruct m as [|p|p]; cbn [binary_normalize].
  - change (units 0 e) with (fval (S754_zero s)). by apply number_rounded.
  - by apply binary_round_pos.
  - rewrite binary_round_neg. change (Zneg p) with (- Zpos p).
    unfold units. rewrite Z.mul_opp_l. apply rounded_fneg. by apply binary_round_pos.
Qed.

(** A sum of numbers is its exact value, rounded. *)
Lemma fadd_rounded a b : number a = true -> number b = true -> rounded (fval a + fval b) (fadd a b).
Proof.
  intros Ha Hb. pose proof (number_rounded a Ha) as Ra. pose proof (number_rounded b Hb) as Rb.
  destruct a as [sa|[]| |sa ma ea]; try discriminate Ha;
    destruct b as [sb|[]| |sb mb eb]; try discriminate Hb.
  - assert (number (fadd (S754_zero sa) (S754_zero sb)) = true) as Hn by (by destruct sa, sb).
    apply number_rounded in Hn. by destruct sa, sb.
  - done.
  - cbn [fval] in *. by rewrite Z.add_0_r.
  - unfold fadd, SFadd.
    destruct (shl_align_spec ma ea (Z.min ea eb)) as (ma' & ea' & Hsa & Hea & Hva & _).
    destruct (shl_align_spec mb eb (Z.min ea eb)) as (mb' & eb' & Hsb & Heb & Hvb & _).
    rewrite Hsa, Hsb. cbn [fst].
    unfold number, is_double in Ha, Hb. cbn in Ha, Hb.
    apply bounded_canonical, canonical_bounds in Ha as (_ & Hfa & _).
    apply bounded_canonical, canonical_bounds in Hb as (_ & Hfb & _).
    assert (forall m m' e e', e' = Z.min ea eb -> e' <= e -> Zpos m' = shift_left m (e - e') ->
              units (Zpos m) e = units (Zpos m') (Z.min ea eb)) as Hu.
    { intros m m' e e' -> Hle ->. unfold shift_left. apply units_split; lia. }
    replace (_ + _) with (units (cond_Zopp sa (Zpos ma') + cond_Zopp sb (Zpos mb')) (Z.min ea eb));
      [apply binary_normalize_rounded; lia|].
    pose proof (Hu ma ma' ea ea') as Hua. pose proof (Hu mb mb' eb eb') as Hub.
    unfold units in *. destruct sa, sb; cbn [fval cond_Zopp]; unfold units; lia.
Qed.

Lemma fsub_fadd a b : fsub a b = fadd a (fneg b).
Proof.
  destruct a as [sa|[]| |sa ma ea], b as [sb|[]| |sb mb eb]; try done; by destruct sa, sb.
Qed.

Lemma fsub_rounded a b : number a = true -> number b = true -> rounded (fval a - fval b) (fsub a b).
Proof.
  intros Ha Hb. rewrite fsub_fadd. rewrite <- Z.add_opp_r, <- fval_fneg.
  apply fadd_rounded; by rewrite ?number_fneg.
Qed.

(** * What the programs use *)

Lemma fadd_ge_l a b :
  number a = true -> number b = true -> fleb fzero b = true -> fleb a (fadd a b) = true.
Proof.
  intros Ha Hb Hz. apply (rounded_ge _ _ (fadd_rounded a b Ha Hb)); [done|].
  apply fleb_fval in Hz; [|done..]. cbn [fval fzero] in Hz. lia.
Qed.

Lemma fadd_ge_r a b :
  number a = true -> number b = true -> fleb fzero a = true -> fleb b (fadd a b) = true.
Proof.
  intros Ha Hb Hz. apply (rounded_ge _ _ (fadd_rounded a b Ha Hb)); [done|].
  apply fleb_fval in Hz; [|done..]. cbn [fval fzero] in Hz. lia.
Qed.

(** The rest under a cap that a sum breaks is below the summand. *)
Lemma rest_below_summand cap a b :
  number cap = true -> number a = true -> number b = true ->
  fltb cap (fadd a b) = true -> fleb (fsub cap a) b = true.
Proof.
  intros Hc Ha Hb Hlt. apply (rounded_le _ _ (fsub_rounded cap a Hc Ha)); [done|].
  destruct (Z.le_gt_cases (fval cap - fval a) (fval b)) as [|Hgt]; [done|exfalso].
  assert (fleb (fadd a b) cap = true) as Hle
    by (apply (rounded_le _ _ (fadd_rounded a b Ha Hb)); [done|lia]).
  pose proof (fltb_leb_trans _ _ _ Hlt Hle) as Hbad. by rewrite fltb_irrefl in Hbad.
Qed.

Lemma number_add a b :
  number a = true -> number b = true -> is_finite (fadd a b) = true -> number (fadd a b) = true.
Proof.
  intros Ha Hb Hf. unfold number. rewrite Hf. exact (rounded_double _ _ (fadd_rounded a b Ha Hb)).
Qed.

(** * Products *)

Lemma zero_align F : fmin_exp <= F -> exists e, shr_fexp prec emax 0 F loc_Exact = (Build_shr_record 0 false false, e).
Proof.
  intros HF. unfold shr_fexp, shr_record_of_loc. cbn [Zdigits2]. rewrite fexp_max.
  destruct (Z.max (0 + F - 53) fmin_exp - F) eqn:?; [by eexists|lia|by eexists].
Qed.

Lemma binary_round_aux_double s m e :
  e <= fexp prec emax (Zdigits2 (Zpos m) + e) ->
  is_double (binary_round_aux prec emax s (Zpos m) e loc_Exact) = true.
Proof.
  intros He. unfold binary_round_aux.
  destruct (shr_fexp_shifted (Zpos m) e) as (r & Hshr & Hsh); [lia|done|].
  rewrite Hshr. pose proof (quotient_bounds m e He) as [Hq HF].
  pose proof (round_even_cases r _ _ Hsh) as Hcases. cbv zeta in Hcases.
  set (q' := round_nearest_even _ _) in *.
  set (F := fexp prec emax (Zdigits2 (Zpos m) + e)) in *.
  assert (fmin_exp <= F) by (subst F; rewrite fexp_max; lia).
  assert (0 <= Zpos m / 2 ^ (F - e)) by (apply Z.div_pos; [done|apply Z.pow_pos_nonneg; lia]).
  destruct (decide (q' = 0)) as [->|].
  - destruct (zero_align F) as [e' ->]; done.
  - destruct (final_align q' F) as (m' & e' & -> & Hc & _ & _); [lia|lia|done|]. cbn.
    destruct (Z.leb e' _) eqn:Hov; [|done]. unfold is_double. cbn. unfold bounded. by rewrite Hc, Hov.
Qed.

Lemma fmul_double a b : is_double a = true -> is_double b = true -> is_double (fmul a b) = true.
Proof.
  intros Ha Hb.
  destruct a as [sa|[]| |sa ma ea], b as [sb|[]| |sb mb eb]; try done.
  unfold fmul, SFmul. apply binary_round_aux_double. cbn [Zdigits2]. rewrite fexp_max.
  unfold is_double in Ha, Hb. cbn in Ha, Hb.
  apply bounded_canonical, canonical_iff in Ha. apply bounded_canonical, canonical_iff in Hb.
  assert (Zpos (digits2_pos ma) + Zpos (digits2_pos mb) - 1 <= Zpos (digits2_pos (ma * mb))).
  { pose proof (digits_bounds ma). pose proof (digits_bounds mb).
    pose proof (digits_bounds (ma * mb)) as [_ Hlt].
    enough (Zpos (digits2_pos ma) - 1 + (Zpos (digits2_pos mb) - 1) < Zpos (digits2_pos (ma * mb)))
      by lia.
    apply (Z.pow_lt_mono_r_iff 2); [lia|lia|]. rewrite Z.pow_add_r by lia.
    rewrite Pos2Z.inj_mul in Hlt. nia. }
  unfold fmin_exp in *. lia.
Qed.

Lemma fadd_double a b : is_double a = true -> is_double b = true -> is_double (fadd a b) = true.
Proof.
  intros Ha Hb.
  destruct (is_finite a) eqn:Fa, (is_finite b) eqn:Fb;
    [apply (rounded_double _ _ (fadd_rounded a b ltac:(unfold number; by rewrite Fa)
                                  ltac:(unfold number; by rewrite Fb)))|..];
    destruct a as [|[]| |], b as [|[]| |]; done.
Qed.

Lemma fmin_double a b : is_double a = true -> is_double b = true -> is_double (fmin a b) = true.
Proof. unfold fmin. intros. by repeat case_match. Qed.

Lemma fmax_double a b : is_double a = true -> is_double b = true -> is_double (fmax a b) = true.
Proof. unfold fmax. intros. by repeat case_match. Qed.

Lemma fneg_double a : is_double (fneg a) = is_double a.
Proof. by destruct a. Qed.

Lemma fsub_double a b : is_double a = true -> is_double b = true -> is_double (fsub a b) = true.
Proof. intros. rewrite fsub_fadd. apply fadd_double; by rewrite ?fneg_double. Qed.

#[export] Hint Resolve fmul_double fadd_double fmin_double fmax_double fsub_double : f64.

(** * Sums of amounts *)

(** A double that is finite and not below zero. *)
Definition amount (a : f64) : bool := number a && fleb fzero a.

Lemma fadd_finite_inv a b : is_finite (fadd a b) = true -> is_finite a = true /\ is_finite b = true.
Proof. by destruct a as [|[]| |], b as [|[]| |]. Qed.

Lemma amount_fadd a b :
  amount a = true -> amount b = true -> is_finite (fadd a b) = true -> amount (fadd a b) = true.
Proof.
  unfold amount. intros [Ha Ha0]%andb_true_iff [Hb Hb0]%andb_true_iff Hf.
  rewrite number_add by done. cbn. eapply fleb_trans; [exact Ha0|by apply fadd_ge_l].
Qed.

Lemma fold_fadd_finite l a : is_finite (fold_left fadd l a) = true -> is_finite a = true.
Proof.
  revert a. induction l as [|x l IH]; intros a Hf; [done|].
  apply IH in Hf. by apply fadd_finite_inv in Hf as [].
Qed.

(** A finite sum of amounts is above its start and above each of them. *)
Lemma fold_fadd_ge l a :
  amount a = true -> Forall (fun x => amount x = true) l -> is_finite (fold_left fadd l a) = true ->
  fleb a (fold_left fadd l a) = true /\ Forall (fun x => fleb x (fold_left fadd l a) = true) l.
Proof.
  revert a. induction l as [|x l IH]; intros a Ha Hl Hf; cbn [fold_left] in *.
  - split; [|by constructor]. apply fleb_refl, number_not_nan. by apply andb_true_iff in Ha as [].
  - apply Forall_cons in Hl as [Hx Hl]. pose proof (fold_fadd_finite _ _ Hf) as Hfx.
    destruct (IH (fadd a x) (amount_fadd a x Ha Hx Hfx) Hl Hf) as [Hge Hall].
    apply andb_true_iff in Ha as [Ha Ha0]. apply andb_true_iff in Hx as [Hx Hx0].
    split; [|constructor; [|done]]; (eapply fleb_trans; [|exact Hge]);
      [by apply fadd_ge_l|by apply fadd_ge_r].
Qed.

(** A sum of finite data is a number, canonical or not. *)
Lemma binary_round_number s m e : is_nan (binary_round prec emax s m e) = false.
Proof. unfold binary_round. destruct (shl_align _ _ _). by apply round_aux_number. Qed.

Lemma fadd_finite_number a b :
  is_finite a = true -> is_finite b = true -> is_nan (fadd a b) = false.
Proof.
  intros Ha Hb.
  destruct a as [sa|[]| |sa ma ea], b as [sb|[]| |sb mb eb]; try done; [by destruct sa, sb|].
  unfold fadd, SFadd, binary_normalize.
  destruct (_ + _) as [|p|p]; [done|apply binary_round_number..].
Qed.
