(* ===== verification/Models.v ===== *)
(** The shared data model of the off-chain crates
    ([crates/core/src/models.rs]): modules, venues, execution modes, trades,
    and the position record with its buy and sell bookkeeping.  Times are
    nanoseconds; [now] is [Utc::now()]. *)
From stdpp Require Import prelude countable strings.
From Stdlib Require Import ZArith Lia SpecFloat.
From S2P Require Import Prelude.
From S2P Require Import Text.
From S2P Require Import Float64.

#[local] Open Scope Z_scope.

(** * Enumerations *)

Inductive BotModule : Type := Sniper | Copy | Polymarket | Contract | Telegram.
Inductive ExecutionMode : Type := Paper | Simulate | Live.
Inductive Venue : Type :=
  | PumpFun | PumpSwap | RaydiumAmmV4 | RaydiumClmm | RaydiumCpmm
  | RaydiumLaunchLab | Jupiter | PolymarketClob | VenuePaper.
Inductive PositionSide : Type := Long | Short.
Inductive PositionStatus : Type := PosOpen | PosClosing | PosClosed | StoppedOut | PosFailed.
Inductive TradeSource : Type := SrcSniper | SrcCopy | SrcPolymarket | SrcManual | SrcRisk.

#[export] Instance BotModule_eq_dec : EqDecision BotModule.
Proof. solve_decision. Defined.
#[export] Instance ExecutionMode_eq_dec : EqDecision ExecutionMode.
Proof. solve_decision. Defined.
#[export] Instance Venue_eq_dec : EqDecision Venue.
Proof. solve_decision. Defined.
#[export] Instance PositionSide_eq_dec : EqDecision PositionSide.
Proof. solve_decision. Defined.
#[export] Instance PositionStatus_eq_dec : EqDecision PositionStatus.
Proof. solve_decision. Defined.
#[export] Instance TradeSource_eq_dec : EqDecision TradeSource.
Proof. solve_decision. Defined.

Definition BotModule_as_str (m : BotModule) : text :=
  match m with
  | Sniper => lit "sniper"
  | Copy => lit "copy"
  | Polymarket => lit "polymarket"
  | Contract => lit "contract"
  | Telegram => lit "telegram"
  end.

(** [BotModule::TRADING] and [FromStr]. *)
Definition BotModule_TRADING : list BotModule := [Sniper; Copy; Polymarket].

Definition BotModule_ALL : list BotModule := [Sniper; Copy; Polymarket; Contract; Telegram].

Definition BotModule_names (m : BotModule) : list text :=
  match m with
  | Sniper => [lit "sniper"; lit "1"; lit "module1"; lit "pump"; lit "pumpfun"]
  | Copy => [lit "copy"; lit "2"; lit "module2"; lit "copytrade"]
  | Polymarket => [lit "polymarket"; lit "poly"; lit "3"; lit "module3"]
  | Contract => [lit "contract"; lit "4"; lit "module4"; lit "staking"]
  | Telegram => [lit "telegram"; lit "tg"; lit "5"; lit "module5"]
  end.

Definition BotModule_parse (s : text) : option BotModule :=
  let name := map ascii_lower (trim s) in
  snd <$> list_find (fun m => name ∈ BotModule_names m) BotModule_ALL.

Definition ExecutionMode_as_str (m : ExecutionMode) : text :=
  match m with
  | Paper => lit "paper"
  | Simulate => lit "simulate"
  | Live => lit "LIVE"
  end.

Definition Venue_as_str (v : Venue) : text :=
  match v with
  | PumpFun => lit "pump.fun"
  | PumpSwap => lit "pumpswap"
  | RaydiumAmmV4 => lit "raydium-amm-v4"
  | RaydiumClmm => lit "raydium-clmm"
  | RaydiumCpmm => lit "raydium-cpmm"
  | RaydiumLaunchLab => lit "raydium-launchlab"
  | Jupiter => lit "jupiter"
  | PolymarketClob => lit "polymarket"
  | VenuePaper => lit "paper"
  end.

(** [Venue::parse]: the stored spelling and the snake-case aliases. *)
Definition Venue_parse (s : text) : option Venue :=
  if decide (s = lit "pump.fun") then Some PumpFun
  else if decide (s = lit "pumpswap") then Some PumpSwap
  else if decide (s = lit "raydium-amm-v4") then Some RaydiumAmmV4
  else if decide (s = lit "raydium-clmm") then Some RaydiumClmm
  else if decide (s = lit "raydium-cpmm" \/ s = lit "raydium_cpmm") then Some RaydiumCpmm
  else if decide (s = lit "raydium-launchlab" \/ s = lit "raydium_launchlab"
                  \/ s = lit "raydium_launch_lab") then Some RaydiumLaunchLab
  else if decide (s = lit "jupiter") then Some Jupiter
  else if decide (s = lit "polymarket") then Some PolymarketClob
  else if decide (s = lit "paper") then Some VenuePaper
  else None.

Lemma Venue_parse_as_str v : Venue_parse (Venue_as_str v) = Some v.
Proof. by destruct v. Qed.

#[export] Instance Venue_countable : Countable Venue :=
  inj_countable Venue_as_str Venue_parse Venue_parse_as_str.
#[export] Instance BotModule_countable : Countable BotModule.
Proof.
  refine (inj_countable'
    (fun m => match m with Sniper => 0 | Copy => 1 | Polymarket => 2 | Contract => 3 | Telegram => 4 end)
    (fun z => match z with 0 => Sniper | 1 => Copy | 2 => Polymarket | 3 => Contract | _ => Telegram end) _).
  by intros [].
Defined.
#[export] Instance ExecutionMode_countable : Countable ExecutionMode.
Proof.
  refine (inj_countable' (fun m => match m with Paper => 0 | Simulate => 1 | Live => 2 end)
    (fun z => match z with 0 => Paper | 1 => Simulate | _ => Live end) _).
  by intros [].
Defined.

Definition PositionStatus_is_terminal (s : PositionStatus) : bool :=
  match s with
  | PosClosed | StoppedOut | PosFailed => true
  | PosOpen | PosClosing => false
  end.

(** * Trades *)

Record Trade : Type := mkTrade {
  t_id : text;
  t_ts : Z;
  t_source : TradeSource;
  t_venue : Venue;
  t_mode : ExecutionMode;
  t_side : PositionSide;
  t_symbol : text;
  t_symbol_display : text;
  t_amount_in : f64;
  t_amount_out : f64;
  t_quote_symbol : text;
  t_price : f64;
  t_fee : f64;
  t_slippage_bps : Z;                (* u64 *)
  t_signature : option text;
  t_position_id : option text;
  t_note : option text;
  t_latency_ms : option Z;
}.

Definition is_buy (t : Trade) : bool :=
  match t.(t_side) with Long => true | Short => false end.

(** A decoded trade of a tracked wallet. *)
Record WalletTrade : Type := mkWalletTrade {
  wt_wallet : text;
  wt_signature : text;
  wt_slot : Z;                    (* u64 *)
  wt_block_time : option Z;
  wt_side : PositionSide;
  wt_mint : text;
  wt_symbol : option text;
  wt_token_amount : f64;
  wt_sol_amount : f64;
  wt_venue : Venue;
  wt_fee_sol : f64;
  wt_discriminator : option text;
  wt_observed_at : Z;
}.

(** * Positions *)

Record Position : Type := mkPosition {
  p_id : text;
  p_opened_at : Z;
  p_updated_at : Z;
  p_closed_at : option Z;
  p_source : TradeSource;
  p_venue : Venue;
  p_mode : ExecutionMode;
  p_status : PositionStatus;
  p_symbol : text;
  p_symbol_display : text;
  p_quote_symbol : text;
  p_qty : f64;
  p_avg_entry : f64;
  p_cost_basis : f64;
  p_realized_quote : f64;
  p_realized_pnl_quote : option f64;
  p_realized_at : option Z;
  p_last_mark : f64;
  p_stop_loss : option f64;
  p_take_profit : option f64;
  p_trailing_stop : option f64;
  p_trailing_high_water : option f64;
  p_max_hold_secs : option Z;
  p_entry_signature : option text;
  p_exit_signature : option text;
  p_entry_latency_ms : option Z;
  p_copied_wallet : option text;
  p_market_id : option text;
  p_outcome : option text;
  p_reason_closed : option text;
}.

Definition Position_new (now : Z) (id : text) (source : TradeSource) (venue : Venue)
    (mode : ExecutionMode) (symbol symbol_display quote_symbol : text) : Position :=
  {| p_id := id; p_opened_at := now; p_updated_at := now; p_closed_at := None;
     p_source := source; p_venue := venue; p_mode := mode; p_status := PosOpen;
     p_symbol := symbol; p_symbol_display := symbol_display; p_quote_symbol := quote_symbol;
     p_qty := fzero; p_avg_entry := fzero; p_cost_basis := fzero;
     p_realized_quote := fzero; p_realized_pnl_quote := Some fzero; p_realized_at := None;
     p_last_mark := fzero; p_stop_loss := None; p_take_profit := None;
     p_trailing_stop := None; p_trailing_high_water := None; p_max_hold_secs := None;
     p_entry_signature := None; p_exit_signature := None; p_entry_latency_ms := None;
     p_copied_wallet := None; p_market_id := None; p_outcome := None;
     p_reason_closed := None |}.

Definition unrealised (p : Position) : f64 :=
  if fleb p.(p_qty) fzero then fzero
  else fmul (fsub p.(p_last_mark) p.(p_avg_entry)) p.(p_qty).

Definition realised (p : Position) : f64 :=
  default (fsub p.(p_realized_quote) p.(p_cost_basis)) p.(p_realized_pnl_quote).

Definition total_pnl (p : Position) : f64 := fadd (realised p) (unrealised p).

Definition total_pnl_pct (p : Position) : f64 :=
  let lifecycle_basis :=
    default p.(p_cost_basis)
      ((fun pnl => fadd (fsub p.(p_realized_quote) pnl) p.(p_cost_basis)) <$> p.(p_realized_pnl_quote)) in
  if negb (is_finite lifecycle_basis) || fleb lifecycle_basis fzero then fzero
  else fmul (fdiv (total_pnl p) lifecycle_basis) (f_of_Z 100).

Definition notional (p : Position) : f64 := fmul p.(p_qty) p.(p_last_mark).

Definition accounting_state_is_finite (p : Position) : bool :=
  forallb is_finite [p.(p_qty); p.(p_avg_entry); p.(p_cost_basis); p.(p_realized_quote); p.(p_last_mark)]
  && fleb fzero p.(p_qty) && fleb fzero p.(p_avg_entry) && fleb fzero p.(p_cost_basis)
  && fleb fzero p.(p_realized_quote) && fleb fzero p.(p_last_mark)
  && match p.(p_realized_pnl_quote) with Some v => is_finite v | None => true end.

(** The argument guard [apply_buy] and [apply_sell] share. *)
Definition fill_refused (p : Position) (qty price quote : f64) : bool :=
  negb (accounting_state_is_finite p)
  || negb (is_finite qty) || fleb qty fzero
  || negb (is_finite price) || fltb price fzero
  || negb (is_finite quote) || fltb quote fzero.

Definition apply_buy (now : Z) (qty price quote_spent : f64) (p : Position) : Position :=
  if fill_refused p qty price quote_spent then p
  else
    let new_qty := fadd p.(p_qty) qty in
    let new_avg_entry := fdiv (fadd (fmul p.(p_avg_entry) p.(p_qty)) (fmul price qty)) new_qty in
    let new_cost_basis := fadd p.(p_cost_basis) quote_spent in
    if negb (is_finite new_qty) || negb (is_finite new_avg_entry) || negb (is_finite new_cost_basis)
    then p
    else
      {| p_id := p.(p_id); p_opened_at := p.(p_opened_at); p_updated_at := now;
         p_closed_at := p.(p_closed_at); p_source := p.(p_source); p_venue := p.(p_venue);
         p_mode := p.(p_mode); p_status := p.(p_status); p_symbol := p.(p_symbol);
         p_symbol_display := p.(p_symbol_display); p_quote_symbol := p.(p_quote_symbol);
         p_qty := new_qty; p_avg_entry := new_avg_entry; p_cost_basis := new_cost_basis;
         p_realized_quote := p.(p_realized_quote);
         p_realized_pnl_quote := p.(p_realized_pnl_quote); p_realized_at := p.(p_realized_at);
         p_last_mark := price; p_stop_loss := p.(p_stop_loss); p_take_profit := p.(p_take_profit);
         p_trailing_stop := p.(p_trailing_stop);
         p_trailing_high_water :=
           Some (match p.(p_trailing_high_water) with None => price | Some h => fmax h price end);
         p_max_hold_secs := p.(p_max_hold_secs); p_entry_signature := p.(p_entry_signature);
         p_exit_signature := p.(p_exit_signature); p_entry_latency_ms := p.(p_entry_latency_ms);
         p_copied_wallet := p.(p_copied_wallet); p_market_id := p.(p_market_id);
         p_outcome := p.(p_outcome); p_reason_closed := p.(p_reason_closed) |}.

(** The net realized result of the slice, and the position after it. *)
Definition apply_sell (now : Z) (qty price quote_received : f64) (p : Position) : f64 * Position :=
  if fill_refused p qty price quote_received then (fzero, p)
  else
    let qty := fmin qty p.(p_qty) in
    if fleb qty fzero then (fzero, p)
    else
      let prior_qty := p.(p_qty) in
      let cost_of_slice :=
        if fleb (fsub prior_qty F64_EPSILON) qty then p.(p_cost_basis)
        else fmul p.(p_cost_basis) (fdiv qty prior_qty) in
      let slice_pnl := fsub quote_received cost_of_slice in
      let new_realized_quote := fadd p.(p_realized_quote) quote_received in
      let left := fmax (fsub prior_qty qty) fzero in
      let new_qty := if fleb left F64_EPSILON then fzero else left in
      let new_cost_basis :=
        if fleb left F64_EPSILON then fzero
        else fmax (fsub p.(p_cost_basis) cost_of_slice) fzero in
      let new_realized_pnl := (fun pnl => fadd pnl slice_pnl) <$> p.(p_realized_pnl_quote) in
      if negb (is_finite cost_of_slice) || negb (is_finite slice_pnl)
         || negb (is_finite new_realized_quote) || negb (is_finite new_qty)
         || negb (is_finite new_cost_basis)
         || match new_realized_pnl with Some v => negb (is_finite v) | None => false end
      then (fzero, p)
      else
        (slice_pnl,
         {| p_id := p.(p_id); p_opened_at := p.(p_opened_at); p_updated_at := now;
            p_closed_at := p.(p_closed_at); p_source := p.(p_source); p_venue := p.(p_venue);
            p_mode := p.(p_mode); p_status := p.(p_status); p_symbol := p.(p_symbol);
            p_symbol_display := p.(p_symbol_display); p_quote_symbol := p.(p_quote_symbol);
            p_qty := new_qty; p_avg_entry := p.(p_avg_entry); p_cost_basis := new_cost_basis;
            p_realized_quote := new_realized_quote; p_realized_pnl_quote := new_realized_pnl;
            p_realized_at := Some now; p_last_mark := price; p_stop_loss := p.(p_stop_loss);
            p_take_profit := p.(p_take_profit); p_trailing_stop := p.(p_trailing_stop);
            p_trailing_high_water := p.(p_trailing_high_water);
            p_max_hold_secs := p.(p_max_hold_secs); p_entry_signature := p.(p_entry_signature);
            p_exit_signature := p.(p_exit_signature); p_entry_latency_ms := p.(p_entry_latency_ms);
            p_copied_wallet := p.(p_copied_wallet); p_market_id := p.(p_market_id);
            p_outcome := p.(p_outcome); p_reason_closed := p.(p_reason_closed) |}).

(** [Position::close]. *)
Definition Position_close (now : Z) (status : PositionStatus) (reason : text) (p : Position)
    : Position :=
  {| p_id := p.(p_id); p_opened_at := p.(p_opened_at); p_updated_at := now;
     p_closed_at := Some now; p_source := p.(p_source); p_venue := p.(p_venue);
     p_mode := p.(p_mode); p_status := status; p_symbol := p.(p_symbol);
     p_symbol_display := p.(p_symbol_display); p_quote_symbol := p.(p_quote_symbol);
     p_qty := p.(p_qty); p_avg_entry := p.(p_avg_entry); p_cost_basis := p.(p_cost_basis);
     p_realized_quote := p.(p_realized_quote); p_realized_pnl_quote := p.(p_realized_pnl_quote);
     p_realized_at := p.(p_realized_at); p_last_mark := p.(p_last_mark);
     p_stop_loss := p.(p_stop_loss); p_take_profit := p.(p_take_profit);
     p_trailing_stop := p.(p_trailing_stop); p_trailing_high_water := p.(p_trailing_high_water);
     p_max_hold_secs := p.(p_max_hold_secs); p_entry_signature := p.(p_entry_signature);
     p_exit_signature := p.(p_exit_signature); p_entry_latency_ms := p.(p_entry_latency_ms);
     p_copied_wallet := p.(p_copied_wallet); p_market_id := p.(p_market_id);
     p_outcome := p.(p_outcome); p_reason_closed := Some reason |}.

(** The exit levels an entry decision writes on a fresh position. *)
Definition with_exit_levels (stop_loss take_profit trailing_stop : option f64)
    (max_hold_secs : option Z) (p : Position) : Position :=
  {| p_id := p.(p_id); p_opened_at := p.(p_opened_at); p_updated_at := p.(p_updated_at);
     p_closed_at := p.(p_closed_at); p_source := p.(p_source); p_venue := p.(p_venue);
     p_mode := p.(p_mode); p_status := p.(p_status); p_symbol := p.(p_symbol);
     p_symbol_display := p.(p_symbol_display); p_quote_symbol := p.(p_quote_symbol);
     p_qty := p.(p_qty); p_avg_entry := p.(p_avg_entry); p_cost_basis := p.(p_cost_basis);
     p_realized_quote := p.(p_realized_quote); p_realized_pnl_quote := p.(p_realized_pnl_quote);
     p_realized_at := p.(p_realized_at); p_last_mark := p.(p_last_mark);
     p_stop_loss := stop_loss; p_take_profit := take_profit;
     p_trailing_stop := trailing_stop; p_trailing_high_water := p.(p_trailing_high_water);
     p_max_hold_secs := max_hold_secs; p_entry_signature := p.(p_entry_signature);
     p_exit_signature := p.(p_exit_signature); p_entry_latency_ms := p.(p_entry_latency_ms);
     p_copied_wallet := p.(p_copied_wallet); p_market_id := p.(p_market_id);
     p_outcome := p.(p_outcome); p_reason_closed := p.(p_reason_closed) |}.

(** * The position record of [models.rs] stays well formed under any sequence of
    fills: every accounting field is a finite number that is not below zero,
    and no fill touches what the position is about. *)

(** A fill as the modules report it. *)
Inductive PositionFill : Type :=
  | BuyFill (now : Z) (qty price quote : f64)
  | SellFill (now : Z) (qty price quote : f64).

Definition apply_position_fill (p : Position) (f : PositionFill) : Position :=
  match f with
  | BuyFill now qty price quote => apply_buy now qty price quote p
  | SellFill now qty price quote => (apply_sell now qty price quote p).2
  end.

(** What a fill never changes. *)
Definition position_identity (p : Position) :=
  (p.(p_id), p.(p_source), p.(p_venue), p.(p_mode), p.(p_status), p.(p_symbol),
   p.(p_quote_symbol), p.(p_opened_at), p.(p_closed_at)).

Lemma accounting_state_spec p :
  accounting_state_is_finite p = true <->
  finite_nonneg_amount p.(p_qty) = true /\
  finite_nonneg_amount p.(p_avg_entry) = true /\
  finite_nonneg_amount p.(p_cost_basis) = true /\
  finite_nonneg_amount p.(p_realized_quote) = true /\
  finite_nonneg_amount p.(p_last_mark) = true /\
  match p.(p_realized_pnl_quote) with Some v => is_finite v = true | None => True end.
Proof.
  unfold accounting_state_is_finite, finite_nonneg_amount; cbn.
  rewrite !andb_true_iff. destruct (p_realized_pnl_quote p); intuition.
Qed.

Lemma fill_accepted p qty price quote :
  fill_refused p qty price quote = false ->
  accounting_state_is_finite p = true /\ is_finite qty = true /\ fleb qty fzero = false /\
  finite_nonneg_amount price = true /\ finite_nonneg_amount quote = true.
Proof. unfold fill_refused. intros H. bool_to_prop. auto 10 with f64. Qed.

Lemma positive_amount q :
  is_finite q = true -> fleb q fzero = false -> finite_nonneg_amount q = true.
Proof. destruct q as [[]|[]| |[]]; done. Qed.

Lemma apply_buy_well_formed now qty price quote p :
  accounting_state_is_finite p = true ->
  accounting_state_is_finite (apply_buy now qty price quote p) = true.
Proof.
  intros Hp. unfold apply_buy. destruct (fill_refused _ _ _ _) eqn:Hr; [done|].
  apply fill_accepted in Hr as (_ & Hq & Hq0 & Hprice & Hquote).
  destruct (_ || _)%bool eqn:Hfin; [done|]. bool_to_prop.
  apply accounting_state_spec in Hp as (? & ? & ? & ? & ? & ?).
  apply accounting_state_spec; cbn.
  pose proof (positive_amount _ Hq Hq0).
  assert (finite_nonneg_amount (fadd (p_qty p) qty) = true) by auto with f64.
  repeat split; auto with f64.
  (* the new average: its two products are finite because their quotient is *)
  apply amount_div; [done| |done].
  apply finite_nonneg_amount_spec.
  assert (Hsum : is_finite (fadd (fmul (p_avg_entry p) (p_qty p)) (fmul price qty)) = true).
  { match goal with H : is_finite (fdiv ?n ?d) = true |- _ =>
      destruct n as [| | |], d as [| | |]; cbn in H |- *; done end. }
  split; [done|].
  assert (Hprods : is_finite (fmul (p_avg_entry p) (p_qty p)) = true /\
                   is_finite (fmul price qty) = true).
  { match goal with H : is_finite (fadd ?a ?b) = true |- _ =>
      destruct a as [|[]| |], b as [|[]| |]; cbn in H |- *; done end. }
  destruct Hprods.
  enough (finite_nonneg_amount (fadd (fmul (p_avg_entry p) (p_qty p)) (fmul price qty)) = true)
    as Hs by (by apply finite_nonneg_amount_spec in Hs as []).
  auto with f64.
Qed.

Lemma apply_sell_well_formed now qty price quote p :
  accounting_state_is_finite p = true ->
  accounting_state_is_finite (apply_sell now qty price quote p).2 = true.
Proof.
  intros Hp. unfold apply_sell. destruct (fill_refused _ _ _ _) eqn:Hr; [done|].
  apply fill_accepted in Hr as (_ & Hq & Hq0 & Hprice & Hquote).
  destruct (fleb (fmin _ _) _) eqn:Hm; [done|].
  destruct (_ || _)%bool eqn:Hfin; [done|]. bool_to_prop.
  apply accounting_state_spec in Hp as (? & ? & ? & ? & ? & ?).
  apply accounting_state_spec; cbn.
  repeat split; auto with f64.
  - destruct (fleb _ F64_EPSILON); auto with f64.
  - destruct (fleb _ F64_EPSILON); auto with f64.
  - destruct (p_realized_pnl_quote p); cbn in *; [by bool_to_prop|done].
Qed.

Lemma apply_position_fill_identity p f :
  position_identity (apply_position_fill p f) = position_identity p.
Proof.
  destruct f; cbn; [unfold apply_buy|unfold apply_sell]; by repeat case_match.
Qed.

(** C38: however many buys and sells are applied, in any order and with any
    amounts (negative, infinite, NaN, more than is held), a position keeps its
    quantity, average entry, cost basis, proceeds and mark finite and not below
    zero and its realized result finite; and it keeps its identity and status. *)
Theorem position_well_formed (fills : list PositionFill) (p : Position)
  (Hp : accounting_state_is_finite p = true) :
  let p' := fold_left apply_position_fill fills p in
  accounting_state_is_finite p' = true /\ position_identity p' = position_identity p.
Proof.
  cbn. revert p Hp. induction fills as [|f fills IH]; intros p Hp; [done|]. cbn [fold_left].
  destruct (IH (apply_position_fill p f)) as [Hwf Hid].
  - destruct f; [by apply apply_buy_well_formed|by apply apply_sell_well_formed].
  - by rewrite Hid, apply_position_fill_identity.
Qed.

Definition sample_position : Position :=
  Position_new 0 (lit "p-1") SrcSniper PumpFun Paper (lit "MINT") (lit "MINT") (lit "SOL").

Definition sample_position_fills : list PositionFill :=
  [BuyFill 1 (f_of_Z 100) (f_lit 1 100) fone;
   SellFill 2 (f_of_Z 40) (f_lit 2 100) (f_lit 8 10);
   SellFill 3 (f_of_Z 500) (f_lit 1 100) (S754_infinity false);
   SellFill 4 (f_of_Z 500) (f_lit 1 100) (f_lit 6 10)].

(** A buy, a partial exit, a refused fill and an oversized exit. *)
Lemma position_well_formed_witness :
  let p' := fold_left apply_position_fill sample_position_fills sample_position in
  (accounting_state_is_finite p' = true /\ position_identity p' = position_identity sample_position)
  /\ p'.(p_qty) = fzero /\ p'.(p_realized_at) = Some 4.
Proof.
  split; [|split; vm_compute; reflexivity].
  exact (position_well_formed sample_position_fills sample_position eq_refl).
Defined.
