(* ===== verification/BotConfig.v ===== *)
(** The parts of the configuration ([crates/core/src/config.rs]) that the state
    bus and the two risk engines read: the [risk] and [global_risk] sections
    with their defaults and derived limits, the execution gate, and the switches
    that are mirrored into the live configuration. *)
From stdpp Require Import prelude countable gmap strings.
From Stdlib Require Import ZArith Lia SpecFloat.
From S2P Require Import Prelude.
From S2P Require Import Text.
From S2P Require Import Float64.
From S2P Require Import Models.

#[local] Open Scope Z_scope.

(** * The [risk] section *)

Record RiskConfig : Type := mkRiskConfig {
  rc_kill_switch : bool;
  rc_max_open_positions : Z;
  rc_max_position_fraction : f64;
  rc_max_position_quote : f64;
  rc_daily_loss_limit_quote : f64;
  rc_max_consecutive_failures : Z;
  rc_default_stop_loss_pct : f64;
  rc_default_take_profit_pct : f64;
  rc_trailing_stop_pct : option f64;
  rc_max_hold_secs : option Z;
  rc_max_slippage_bps : Z;
  rc_min_sol_reserve : f64;
  rc_block_repeat_offender_creators : bool;
  rc_min_socials : Z;
  rc_min_creator_buy_sol : f64;
  rc_max_launch_market_cap_sol : f64;
  rc_reentry_cooldown_secs : Z;
  rc_copy_cooldown_secs : Z;
  rc_poly_min_liquidity_usd : f64;
  rc_poly_min_edge : f64;
  rc_poly_price_floor : f64;
  rc_poly_price_ceiling : f64;
  rc_sniper_max_position_quote : f64;
  rc_sniper_max_total_exposure_quote : f64;
  rc_sniper_max_concurrent_positions : Z;
  rc_sniper_max_pending_executions : Z;
  rc_sniper_token_cooldown_secs : Z;
  rc_sniper_failed_entry_cooldown_secs : Z;
  rc_sniper_daily_loss_limit_quote : f64;
  rc_sniper_emergency_disable : bool;
  rc_copy_max_position_quote : f64;
  rc_copy_max_total_exposure_quote : f64;
  rc_copy_max_concurrent_positions : Z;
  rc_copy_max_pending_executions : Z;
  rc_copy_failed_entry_cooldown_secs : Z;
  rc_copy_daily_loss_limit_quote : f64;
  rc_copy_max_leader_exposure_quote : f64;
  rc_copy_emergency_disable : bool;
  rc_poly_max_position_quote : f64;
  rc_poly_max_total_exposure_quote : f64;
  rc_poly_max_market_exposure_quote : f64;
  rc_poly_max_concurrent_positions : Z;
  rc_poly_max_open_orders : Z;
  rc_poly_daily_loss_limit_quote : f64;
  rc_poly_emergency_disable : bool;
}.

Definition RiskConfig_default : RiskConfig :=
  {| rc_kill_switch := false;
     rc_max_open_positions := 8;
     rc_max_position_fraction := f_lit 10 100;
     rc_max_position_quote := f_lit 5 10;
     rc_daily_loss_limit_quote := f_of_Z 2;
     rc_max_consecutive_failures := 5;
     rc_default_stop_loss_pct := f_lit 30 100;
     rc_default_take_profit_pct := fone;
     rc_trailing_stop_pct := Some (f_lit 25 100);
     rc_max_hold_secs := Some 3600;
     rc_max_slippage_bps := 3000;
     rc_min_sol_reserve := f_lit 5 100;
     rc_block_repeat_offender_creators := true;
     rc_min_socials := 0;
     rc_min_creator_buy_sol := fzero;
     rc_max_launch_market_cap_sol := f_of_Z 100;
     rc_reentry_cooldown_secs := 600;
     rc_copy_cooldown_secs := 120;
     rc_poly_min_liquidity_usd := f_of_Z 1000;
     rc_poly_min_edge := f_lit 3 100;
     rc_poly_price_floor := f_lit 2 100;
     rc_poly_price_ceiling := f_lit 98 100;
     rc_sniper_max_position_quote := fzero;
     rc_sniper_max_total_exposure_quote := fzero;
     rc_sniper_max_concurrent_positions := 0;
     rc_sniper_max_pending_executions := 2;
     rc_sniper_token_cooldown_secs := 0;
     rc_sniper_failed_entry_cooldown_secs := 120;
     rc_sniper_daily_loss_limit_quote := fzero;
     rc_sniper_emergency_disable := false;
     rc_copy_max_position_quote := fzero;
     rc_copy_max_total_exposure_quote := fzero;
     rc_copy_max_concurrent_positions := 0;
     rc_copy_max_pending_executions := 0;
     rc_copy_failed_entry_cooldown_secs := 0;
     rc_copy_daily_loss_limit_quote := fzero;
     rc_copy_max_leader_exposure_quote := fzero;
     rc_copy_emergency_disable := false;
     rc_poly_max_position_quote := fzero;
     rc_poly_max_total_exposure_quote := fzero;
     rc_poly_max_market_exposure_quote := fzero;
     rc_poly_max_concurrent_positions := 0;
     rc_poly_max_open_orders := 0;
     rc_poly_daily_loss_limit_quote := fzero;
     rc_poly_emergency_disable := false |}.

(** A module limit of zero inherits the generic one. *)
Definition own_or (own generic : f64) : f64 := if fltb fzero own then own else generic.
Definition own_limit_or (own generic : Z) : Z := if 0 <? own then own else generic.

Definition sniper_position_cap (c : RiskConfig) : f64 :=
  own_or c.(rc_sniper_max_position_quote) c.(rc_max_position_quote).
Definition sniper_position_limit (c : RiskConfig) : Z :=
  own_limit_or c.(rc_sniper_max_concurrent_positions) c.(rc_max_open_positions).
Definition copy_position_cap (c : RiskConfig) : f64 :=
  own_or c.(rc_copy_max_position_quote) c.(rc_max_position_quote).
Definition copy_position_limit (c : RiskConfig) : Z :=
  own_limit_or c.(rc_copy_max_concurrent_positions) c.(rc_max_open_positions).
Definition poly_position_cap (c : RiskConfig) : f64 :=
  own_or c.(rc_poly_max_position_quote) c.(rc_max_position_quote).
Definition poly_position_limit (c : RiskConfig) : Z :=
  own_limit_or c.(rc_poly_max_concurrent_positions) c.(rc_max_open_positions).

(** * The [global_risk] section *)

Record GlobalRiskConfig : Type := mkGlobalRiskConfig {
  gc_reference_asset : text;
  gc_reference_rates : gmap text f64;
  gc_capital_base_ref : f64;
  gc_max_portfolio_exposure_ref : f64;
  gc_max_wallet_exposure_ref : f64;
  gc_max_venue_exposure_ref : f64;
  gc_max_strategy_exposure_ref : f64;
  gc_max_asset_exposure_ref : f64;
  gc_max_open_positions : Z;
  gc_max_order_notional_ref : f64;
  gc_max_daily_loss_ref : f64;
  gc_max_drawdown_ref : f64;
  gc_max_drawdown_pct : f64;
  gc_killed_venues : list text;
  gc_killed_strategies : list text;
}.

Definition GlobalRiskConfig_default : GlobalRiskConfig :=
  {| gc_reference_asset := lit "USD";
     gc_reference_rates := {[lit "USDC" := fone]};
     gc_capital_base_ref := fzero;
     gc_max_portfolio_exposure_ref := fzero;
     gc_max_wallet_exposure_ref := fzero;
     gc_max_venue_exposure_ref := fzero;
     gc_max_strategy_exposure_ref := fzero;
     gc_max_asset_exposure_ref := fzero;
     gc_max_open_positions := 0;
     gc_max_order_notional_ref := fzero;
     gc_max_daily_loss_ref := fzero;
     gc_max_drawdown_ref := fzero;
     gc_max_drawdown_pct := fzero;
     gc_killed_venues := [];
     gc_killed_strategies := [] |}.

(** Unknown names are skipped here; validation refuses them. *)
Definition killed_venue_list (c : GlobalRiskConfig) : list Venue :=
  omap (fun v => Venue_parse (trim v)) c.(gc_killed_venues).

(** The tighter of the absolute figure and the fraction of the capital base. *)
Definition effective_drawdown_limit (c : GlobalRiskConfig) : option f64 :=
  let abs := if fltb fzero c.(gc_max_drawdown_ref) then Some c.(gc_max_drawdown_ref) else None in
  let pct := if fltb fzero c.(gc_max_drawdown_pct) && fltb fzero c.(gc_capital_base_ref)
             then Some (fmul c.(gc_capital_base_ref) c.(gc_max_drawdown_pct)) else None in
  match abs, pct with
  | Some a, Some p => Some (fmin a p)
  | Some a, None => Some a
  | None, Some p => Some p
  | None, None => None
  end.

Definition is_some {A} (o : option A) : bool := match o with Some _ => true | None => false end.

Definition needs_reference_rates (c : GlobalRiskConfig) : bool :=
  fltb fzero c.(gc_max_portfolio_exposure_ref)
  || fltb fzero c.(gc_max_wallet_exposure_ref)
  || fltb fzero c.(gc_max_venue_exposure_ref)
  || fltb fzero c.(gc_max_strategy_exposure_ref)
  || fltb fzero c.(gc_max_asset_exposure_ref)
  || fltb fzero c.(gc_max_order_notional_ref)
  || fltb fzero c.(gc_max_daily_loss_ref)
  || is_some (effective_drawdown_limit c).

(** * The live configuration *)

(** What the state bus reads and mirrors: the two risk sections, the execution
    mode and its hard gate, the module switches, the memory bounds. *)
Record BotConfig : Type := mkBotConfig {
  cf_risk : RiskConfig;
  cf_global_risk : GlobalRiskConfig;
  cf_mode : ExecutionMode;
  cf_allow_live_trading : bool;
  cf_sniper_enabled : bool;
  cf_copy_enabled : bool;
  cf_polymarket_enabled : bool;
  cf_telegram_enabled : bool;
  cf_contract_program_id : option text;
  cf_contract_dry_run : bool;
  cf_max_trades_in_memory : Z;
  cf_max_dedup_entries : Z;
}.

Definition ExecutionMode_is_live (m : ExecutionMode) : bool :=
  match m with Live => true | Paper | Simulate => false end.

Definition live_allowed (c : BotConfig) : bool := ExecutionMode_is_live c.(cf_mode) && c.(cf_allow_live_trading).

(** The assignments the state bus makes. *)
Definition with_kill_switch (on : bool) (r : RiskConfig) : RiskConfig :=
  {| rc_kill_switch := on;
     rc_max_open_positions := r.(rc_max_open_positions);
     rc_max_position_fraction := r.(rc_max_position_fraction);
     rc_max_position_quote := r.(rc_max_position_quote);
     rc_daily_loss_limit_quote := r.(rc_daily_loss_limit_quote);
     rc_max_consecutive_failures := r.(rc_max_consecutive_failures);
     rc_default_stop_loss_pct := r.(rc_default_stop_loss_pct);
     rc_default_take_profit_pct := r.(rc_default_take_profit_pct);
     rc_trailing_stop_pct := r.(rc_trailing_stop_pct);
     rc_max_hold_secs := r.(rc_max_hold_secs);
     rc_max_slippage_bps := r.(rc_max_slippage_bps);
     rc_min_sol_reserve := r.(rc_min_sol_reserve);
     rc_block_repeat_offender_creators := r.(rc_block_repeat_offender_creators);
     rc_min_socials := r.(rc_min_socials);
     rc_min_creator_buy_sol := r.(rc_min_creator_buy_sol);
     rc_max_launch_market_cap_sol := r.(rc_max_launch_market_cap_sol);
     rc_reentry_cooldown_secs := r.(rc_reentry_cooldown_secs);
     rc_copy_cooldown_secs := r.(rc_copy_cooldown_secs);
     rc_poly_min_liquidity_usd := r.(rc_poly_min_liquidity_usd);
     rc_poly_min_edge := r.(rc_poly_min_edge);
     rc_poly_price_floor := r.(rc_poly_price_floor);
     rc_poly_price_ceiling := r.(rc_poly_price_ceiling);
     rc_sniper_max_position_quote := r.(rc_sniper_max_position_quote);
     rc_sniper_max_total_exposure_quote := r.(rc_sniper_max_total_exposure_quote);
     rc_sniper_max_concurrent_positions := r.(rc_sniper_max_concurrent_positions);
     rc_sniper_max_pending_executions := r.(rc_sniper_max_pending_executions);
     rc_sniper_token_cooldown_secs := r.(rc_sniper_token_cooldown_secs);
     rc_sniper_failed_entry_cooldown_secs := r.(rc_sniper_failed_entry_cooldown_secs);
     rc_sniper_daily_loss_limit_quote := r.(rc_sniper_daily_loss_limit_quote);
     rc_sniper_emergency_disable := r.(rc_sniper_emergency_disable);
     rc_copy_max_position_quote := r.(rc_copy_max_position_quote);
     rc_copy_max_total_exposure_quote := r.(rc_copy_max_total_exposure_quote);
     rc_copy_max_concurrent_positions := r.(rc_copy_max_concurrent_positions);
     rc_copy_max_pending_executions := r.(rc_copy_max_pending_executions);
     rc_copy_failed_entry_cooldown_secs := r.(rc_copy_failed_entry_cooldown_secs);
     rc_copy_daily_loss_limit_quote := r.(rc_copy_daily_loss_limit_quote);
     rc_copy_max_leader_exposure_quote := r.(rc_copy_max_leader_exposure_quote);
     rc_copy_emergency_disable := r.(rc_copy_emergency_disable);
     rc_poly_max_position_quote := r.(rc_poly_max_position_quote);
     rc_poly_max_total_exposure_quote := r.(rc_poly_max_total_exposure_quote);
     rc_poly_max_market_exposure_quote := r.(rc_poly_max_market_exposure_quote);
     rc_poly_max_concurrent_positions := r.(rc_poly_max_concurrent_positions);
     rc_poly_max_open_orders := r.(rc_poly_max_open_orders);
     rc_poly_daily_loss_limit_quote := r.(rc_poly_daily_loss_limit_quote);
     rc_poly_emergency_disable := r.(rc_poly_emergency_disable) |}.

Definition with_risk (r : RiskConfig) (c : BotConfig) : BotConfig :=
  let 'mkBotConfig _ g m a sn co po te pid dry tr de := c in
  mkBotConfig r g m a sn co po te pid dry tr de.

Definition with_risk_kill (on : bool) (c : BotConfig) : BotConfig :=
  with_risk (with_kill_switch on c.(cf_risk)) c.

(** [config.<module>.enabled = enabled]; the contract module has no switch, it
    is forced to a dry run while its program is unknown. *)
Definition with_enabled (m : BotModule) (enabled : bool) (c : BotConfig) : BotConfig :=
  let 'mkBotConfig r g mo a sn co po te pid dry tr de := c in
  match m with
  | Sniper => mkBotConfig r g mo a enabled co po te pid dry tr de
  | Copy => mkBotConfig r g mo a sn enabled po te pid dry tr de
  | Polymarket => mkBotConfig r g mo a sn co enabled te pid dry tr de
  | Telegram => mkBotConfig r g mo a sn co po enabled pid dry tr de
  | Contract => mkBotConfig r g mo a sn co po te pid (dry || negb (is_some pid)) tr de
  end.
