(* ===== verification/CopyLeader.v ===== *)
(** The registry of copied wallets ([crates/module-copy/src/leader.rs]): the
    leaders, their lifecycle, the bounded transition history, the
    reconciliation with the configuration and the running counters.
    [Utc::now()] is a clock read; a registry operation is a function of the
    registry and of how often the clock has been read. *)
From stdpp Require Import prelude gmap list strings.
From Stdlib Require Import ZArith Lia.
From S2P Require Import Prelude.
From S2P Require Import Text.

#[local] Open Scope Z_scope.

(** * Data *)

Inductive LeaderStatus : Type := Active | Paused | Removed.

#[export] Instance LeaderStatus_eq_dec : EqDecision LeaderStatus.
Proof. solve_decision. Defined.

Definition LeaderStatus_as_str (s : LeaderStatus) : text :=
  match s with
  | Active => lit "active"
  | Paused => lit "paused"
  | Removed => lit "removed"
  end.

Definition LeaderStatus_parse (s : text) : option LeaderStatus :=
  if decide (s = lit "active") then Some Active
  else if decide (s = lit "paused") then Some Paused
  else if decide (s = lit "removed") then Some Removed
  else None.

(** [LeaderEvent]; the prefix keeps [EvPaused] apart from the status. *)
Inductive LeaderEvent : Type := EvFollowed | EvPaused | EvResumed | EvUnfollowed | EvRuleChanged.

#[export] Instance LeaderEvent_eq_dec : EqDecision LeaderEvent.
Proof. solve_decision. Defined.

Inductive LeaderError : Type :=
  | Unknown (address : text)
  | InvalidTransition (address : text) (from : LeaderStatus) (event : LeaderEvent)
  | EmptyAddress.

(** [CopyWallet] of [crates/core/src/config.rs]. *)
Record CopyWallet : Type := mkCopyWallet {
  cw_address : text;
  cw_label : option text;
  cw_fixed_sol : option f64;
  cw_fraction_of_their_size : f64;
  cw_max_sol : f64;
  cw_min_sol : f64;
  cw_buys_only : bool;
  cw_slippage_pct : option f64;
  cw_max_staleness_secs : Z;
  cw_paused : bool;
  cw_max_exposure_sol : f64;
  cw_max_open_positions : Z;
}.

(** [rule.paused = b]. *)
Definition with_paused (r : CopyWallet) (b : bool) : CopyWallet :=
  mkCopyWallet r.(cw_address) r.(cw_label) r.(cw_fixed_sol) r.(cw_fraction_of_their_size)
    r.(cw_max_sol) r.(cw_min_sol) r.(cw_buys_only) r.(cw_slippage_pct)
    r.(cw_max_staleness_secs) b r.(cw_max_exposure_sol) r.(cw_max_open_positions).

Record LeaderStats : Type := mkLeaderStats {
  events_seen : Z;                 (* u64 *)
  mirrored : Z;                    (* u64 *)
  rejected : Z;                    (* u64 *)
  last_event_at : option Z;
  last_slot : option Z;            (* u64 *)
  last_rejection : option text;
}.

Definition LeaderStats_default : LeaderStats := mkLeaderStats 0 0 0 None None None.

Record Leader : Type := mkLeader {
  l_address : text;
  l_label : text;
  l_status : LeaderStatus;
  l_rule : CopyWallet;
  l_source : text;
  l_followed_at : Z;
  l_status_since : Z;
  l_stats : LeaderStats;
}.

Definition is_active (l : Leader) : bool := bool_decide (l.(l_status) = Active).

(** The durable row of [copy_leaders]. *)
Record LeaderRecord : Type := mkLeaderRecord {
  rec_address : text;
  rec_label : text;
  rec_status : text;
  rec_source : text;
  rec_followed_at : Z;
  rec_status_since : Z;
  rec_events_seen : Z;             (* i64 *)
  rec_mirrored : Z;                (* i64 *)
  rec_rejected : Z;                (* i64 *)
  rec_last_event_at : option Z;
  rec_last_slot : option Z;        (* i64 *)
  rec_updated_at : Z;
}.

Definition Leader_record (now : Z) (l : Leader) : LeaderRecord :=
  {| rec_address := l.(l_address);
     rec_label := l.(l_label);
     rec_status := LeaderStatus_as_str l.(l_status);
     rec_source := l.(l_source);
     rec_followed_at := l.(l_followed_at);
     rec_status_since := l.(l_status_since);
     rec_events_seen := Z.min l.(l_stats).(events_seen) i64_max;
     rec_mirrored := Z.min l.(l_stats).(mirrored) i64_max;
     rec_rejected := Z.min l.(l_stats).(rejected) i64_max;
     rec_last_event_at := l.(l_stats).(last_event_at);
     rec_last_slot := (fun s => Z.min s i64_max) <$> l.(l_stats).(last_slot);
     rec_updated_at := now |}.

Record LeaderTransition : Type := mkLeaderTransition {
  t_address : text;
  t_event : LeaderEvent;
  t_reason : option text;
  t_at : Z;
}.

Definition TRANSITION_HISTORY : nat := 256.

(** [LeaderRegistry]: the map, the insertion order and the history, oldest
    first. *)
Record LeaderRegistry : Type := mkLeaderRegistry {
  leaders : gmap text Leader;
  order : list text;
  history : list LeaderTransition;
}.

Definition LeaderRegistry_new : LeaderRegistry := mkLeaderRegistry ∅ [] [].

(** * Rules and labels *)

Definition label_for (r : CopyWallet) : text :=
  match r.(cw_label) with
  | Some l => if is_empty (trim l) then take 8 r.(cw_address) else l
  | None => take 8 r.(cw_address)
  end.

(** [same_rule]: every field but [paused]. *)
Definition same_rule (a b : CopyWallet) : bool :=
  bool_decide (trim a.(cw_address) = trim b.(cw_address)) &&
  bool_decide (a.(cw_label) = b.(cw_label)) &&
  option_f64_eq a.(cw_fixed_sol) b.(cw_fixed_sol) &&
  f64_eq a.(cw_fraction_of_their_size) b.(cw_fraction_of_their_size) &&
  f64_eq a.(cw_max_sol) b.(cw_max_sol) &&
  f64_eq a.(cw_min_sol) b.(cw_min_sol) &&
  bool_decide (a.(cw_buys_only) = b.(cw_buys_only)) &&
  option_f64_eq a.(cw_slippage_pct) b.(cw_slippage_pct) &&
  (a.(cw_max_staleness_secs) =? b.(cw_max_staleness_secs)) &&
  f64_eq a.(cw_max_exposure_sol) b.(cw_max_exposure_sol) &&
  (a.(cw_max_open_positions) =? b.(cw_max_open_positions)).

(** * Queries *)

Definition len (r : LeaderRegistry) : nat := size r.(leaders).

Definition get (r : LeaderRegistry) (address : text) : option Leader :=
  r.(leaders) !! trim address.

Definition rule_for (r : LeaderRegistry) (address : text) : option (CopyWallet * LeaderStatus) :=
  (fun l => (l.(l_rule), l.(l_status))) <$> get r address.

Definition all (r : LeaderRegistry) : list Leader :=
  omap (fun a => r.(leaders) !! a) r.(order).

Definition active (r : LeaderRegistry) : list Leader :=
  List.filter is_active (all r).

(** [counts]: (active, paused, removed). *)
Definition count_leader (l : Leader) (c : nat * nat * nat) : nat * nat * nat :=
  let '(a, p, d) := c in
  match l.(l_status) with
  | Active => (S a, p, d)
  | Paused => (a, S p, d)
  | Removed => (a, p, S d)
  end.

Definition counts (r : LeaderRegistry) : nat * nat * nat :=
  map_fold (fun _ l c => count_leader l c) (0, 0, 0)%nat r.(leaders).

(** * The operations that change the registry *)

Record World : Type := mkWorld {
  reg : LeaderRegistry;
  ticks : nat;
}.

(** An operation returns its result and the new registry and clock count; an
    error leaves what was written before it in place. *)
Definition Op (A : Type) : Type := World -> A * World.

#[export] Instance Op_ret : MRet Op := fun A a w => (a, w).
#[export] Instance Op_bind : MBind Op := fun A B k m w => let '(a, w') := m w in k a w'.

(** [self.leaders.get_mut(address)] read, and the write through it. *)
Definition get_mut (address : text) : Op (option Leader) :=
  fun w => (w.(reg).(leaders) !! address, w).

Definition put (address : text) (l : Leader) : Op unit :=
  fun w => (tt, mkWorld (mkLeaderRegistry (<[address := l]> w.(reg).(leaders))
                           w.(reg).(order) w.(reg).(history)) w.(ticks)).

Definition order_push (address : text) : Op unit :=
  fun w => (tt, mkWorld (mkLeaderRegistry w.(reg).(leaders)
                           (w.(reg).(order) ++ [address]) w.(reg).(history)) w.(ticks)).

(** [while history.len() > TRANSITION_HISTORY { history.pop_front() }]. *)
Fixpoint pop_excess (h : list LeaderTransition) : list LeaderTransition :=
  if (TRANSITION_HISTORY <? length h)%nat
  then match h with [] => [] | _ :: h' => pop_excess h' end
  else h.

Definition push (address : text) (event : LeaderEvent) (reason : option text) (at_ : Z)
    : Op LeaderTransition := fun w =>
  let t := mkLeaderTransition address event reason at_ in
  (t, mkWorld (mkLeaderRegistry w.(reg).(leaders) w.(reg).(order)
                 (pop_excess (w.(reg).(history) ++ [t]))) w.(ticks)).

Section Operations.
Context (clock : nat -> Z).

Definition utc_now : Op Z := fun w => (clock w.(ticks), mkWorld w.(reg) (S w.(ticks))).

Definition initial_status (r : CopyWallet) : LeaderStatus :=
  if r.(cw_paused) then Paused else Active.

Definition follow (rule : CopyWallet) (source : text) (reason : option text)
    : Op (outcome LeaderError (option LeaderTransition)) :=
  let address := trim rule.(cw_address) in
  if is_empty address then mret (Err EmptyAddress)
  else
    now ← utc_now;
    let label := label_for rule in
    existing ← get_mut address;
    match existing with
    | Some l =>
        if decide (l.(l_status) = Removed) then
          put address (mkLeader l.(l_address) label (initial_status rule) rule source
                         l.(l_followed_at) now l.(l_stats)) ;;
          t ← push address EvFollowed reason now;
          mret (Ok (Some t))
        else if negb (same_rule l.(l_rule) rule) then
          put address (mkLeader l.(l_address) label l.(l_status) rule l.(l_source)
                         l.(l_followed_at) l.(l_status_since) l.(l_stats)) ;;
          t ← push address EvRuleChanged reason now;
          mret (Ok (Some t))
        else mret (Ok None)
    | None =>
        put address (mkLeader address label (initial_status rule) rule source now now
                       LeaderStats_default) ;;
        order_push address ;;
        t ← push address EvFollowed reason now;
        mret (Ok (Some t))
    end.

Definition transition_allowed (from : LeaderStatus) (event : LeaderEvent) : bool :=
  match from, event with
  | Active, EvPaused | Paused, EvResumed | Active, EvUnfollowed | Paused, EvUnfollowed => true
  | _, _ => false
  end.

Definition transition (address : text) (event : LeaderEvent) (to : LeaderStatus)
    (reason : option text) : Op (outcome LeaderError LeaderTransition) :=
  let address := trim address in
  leader ← get_mut address;
  match leader with
  | None => mret (Err (Unknown address))
  | Some l =>
      if negb (transition_allowed l.(l_status) event)
      then mret (Err (InvalidTransition address l.(l_status) event))
      else
        now ← utc_now;
        let rule :=
          if decide (event = EvPaused) then with_paused l.(l_rule) true
          else if decide (event = EvResumed) then with_paused l.(l_rule) false
          else l.(l_rule) in
        put address (mkLeader l.(l_address) l.(l_label) to rule l.(l_source)
                       l.(l_followed_at) now l.(l_stats)) ;;
        t ← push address event reason now;
        mret (Ok t)
  end.

Definition pause (address : text) (reason : option text) :=
  transition address EvPaused Paused reason.
Definition resume (address : text) (reason : option text) :=
  transition address EvResumed Active reason.
Definition unfollow (address : text) (reason : option text) :=
  transition address EvUnfollowed Removed reason.

(** ** [sync_from_config] *)

(** [if let Ok(t) = ... { out.push(t) }]: what a refused transition adds. *)
Definition pushed (o : outcome LeaderError LeaderTransition) : list LeaderTransition :=
  match o with Ok t => [t] | _ => [] end.

(** The pause or resume toggle of one configured wallet. *)
Definition sync_toggle (address : text) (wanted_paused : bool) : Op (list LeaderTransition) :=
  current ← get_mut address;
  match l_status <$> current, wanted_paused with
  | Some Active, true =>
      o ← pause address (Some (lit "config paused = true")); mret (pushed o)
  | Some Paused, false =>
      o ← resume address (Some (lit "config paused = false")); mret (pushed o)
  | _, _ => mret []
  end.

(** One iteration of the first loop: the transitions it pushes. *)
Definition sync_wallet (rule : CopyWallet) : Op (list LeaderTransition) :=
  let address := trim rule.(cw_address) in
  if is_empty address then mret []
  else
    o ← follow rule (lit "config") (Some (lit "config sync"));
    match o with
    | Ok followed =>
        toggled ← sync_toggle address rule.(cw_paused);
        mret (option_list followed ++ toggled)
    | _ => mret []
    end.

Fixpoint sync_wallets (wallets : list CopyWallet) : Op (list LeaderTransition) :=
  match wallets with
  | [] => mret []
  | rule :: rest =>
      out ← sync_wallet rule;
      out' ← sync_wallets rest;
      mret (out ++ out')
  end.

(** The addresses the first loop pushes on [configured]. *)
Definition configured (wallets : list CopyWallet) : list text :=
  List.filter (fun a => negb (is_empty a)) (map (fun r => trim r.(cw_address)) wallets).

(** The addresses of the leaders that disappeared from the configuration. *)
Definition gone (configured : list text) (r : LeaderRegistry) : list text :=
  List.filter (fun a => match r.(leaders) !! a with
                        | Some l => negb (bool_decide (l.(l_status) = Removed))
                        | None => false
                        end)
    (List.filter (fun a => negb (bool_decide (a ∈ configured))) r.(order)).

Fixpoint unfollow_all (addresses : list text) : Op (list LeaderTransition) :=
  match addresses with
  | [] => mret []
  | a :: rest =>
      o ← unfollow a (Some (lit "removed from config"));
      out ← unfollow_all rest;
      mret (pushed o ++ out)
  end.

Definition read_registry : Op LeaderRegistry := fun w => (w.(reg), w).

Definition sync_from_config (wallets : list CopyWallet) : Op (list LeaderTransition) :=
  out ← sync_wallets wallets;
  r ← read_registry;
  out' ← unfollow_all (gone (configured wallets) r);
  mret (out ++ out').

Definition from_config (wallets : list CopyWallet) (now_count : nat) : LeaderRegistry :=
  (sync_from_config wallets (mkWorld LeaderRegistry_new now_count)).2.(reg).
End Operations.

(** * Counters *)

(** What one durable row does to its leader. *)
Definition restore_leader (rec : LeaderRecord) (l : Leader) : Leader :=
  let st := l.(l_stats) in
  mkLeader l.(l_address) l.(l_label) l.(l_status) l.(l_rule) l.(l_source)
    (if rec.(rec_followed_at) <? l.(l_followed_at) then rec.(rec_followed_at)
     else l.(l_followed_at))
    l.(l_status_since)
    (mkLeaderStats
       (Z.max st.(events_seen) (Z.max rec.(rec_events_seen) 0))
       (Z.max st.(mirrored) (Z.max rec.(rec_mirrored) 0))
       (Z.max st.(rejected) (Z.max rec.(rec_rejected) 0))
       match rec.(rec_last_event_at) with
       | Some at_ => raise_to st.(last_event_at) at_
       | None => st.(last_event_at)
       end
       match rec.(rec_last_slot) with
       | Some slot => raise_to st.(last_slot) (Z.max slot 0)
       | None => st.(last_slot)
       end
       st.(last_rejection)).

Fixpoint restore (records : list LeaderRecord) : Op nat :=
  match records with
  | [] => mret 0%nat
  | rec :: rest =>
      leader ← get_mut (trim rec.(rec_address));
      match leader with
      | None => restore rest
      | Some l =>
          put (trim rec.(rec_address)) (restore_leader rec l) ;;
          applied ← restore rest;
          mret (S applied)
      end
  end.

(** [if let Some(l) = self.leaders.get_mut(address.trim()) { ... }]. *)
Definition on_stats (address : text) (f : LeaderStats -> LeaderStats) : Op unit :=
  leader ← get_mut (trim address);
  match leader with
  | None => mret tt
  | Some l =>
      put (trim address)
        (mkLeader l.(l_address) l.(l_label) l.(l_status) l.(l_rule) l.(l_source)
           l.(l_followed_at) l.(l_status_since) (f l.(l_stats)))
  end.

Definition note_event (address : text) (slot observed_at : Z) : Op unit :=
  on_stats address (fun st =>
    mkLeaderStats (saturating_add u64_max st.(events_seen) 1) st.(mirrored) st.(rejected)
      (raise_to st.(last_event_at) observed_at)
      (if 0 <? slot then raise_to st.(last_slot) slot else st.(last_slot))
      st.(last_rejection)).

Definition note_mirrored (address : text) : Op unit :=
  on_stats address (fun st =>
    mkLeaderStats st.(events_seen) (saturating_add u64_max st.(mirrored) 1) st.(rejected)
      st.(last_event_at) st.(last_slot) st.(last_rejection)).

Definition note_rejected (address reason : text) : Op unit :=
  on_stats address (fun st =>
    mkLeaderStats st.(events_seen) st.(mirrored) (saturating_add u64_max st.(rejected) 1)
      st.(last_event_at) st.(last_slot) (Some reason)).
