(* ===== verification/CopyLeaderCorrect.v ===== *)
(** Correctness of the leader registry: the transitions the operations return
    are a complete and legal log of what happened, the configuration is
    reached and is then stable, and counters never go back, a restart
    included. *)
From stdpp Require Import prelude gmap list strings.
From Stdlib Require Import ZArith Lia SpecFloat.
From S2P Require Import Prelude.
From S2P Require Import Text.
From S2P Require Import CopyLeader.

#[local] Open Scope Z_scope.

(** * The invariant and the log *)

Record stats_ok (st : LeaderStats) : Prop := {
  so_events : in_u64 st.(events_seen);
  so_mirrored : in_u64 st.(mirrored);
  so_rejected : in_u64 st.(rejected);
  so_slot s : st.(last_slot) = Some s -> in_u64 s;
}.

(** What a leader stored under [a] satisfies. *)
Record leader_ok (a : text) (l : Leader) : Prop := {
  lo_address : l.(l_address) = a;
  lo_rule : trim l.(l_rule).(cw_address) = a;
  lo_nonempty : a <> [];
  lo_stats : stats_ok l.(l_stats);
}.

Record registry_inv (r : LeaderRegistry) : Prop := {
  ri_order : NoDup r.(order);
  ri_keys a : a ∈ r.(order) <-> is_Some (r.(leaders) !! a);
  ri_leaders a l : r.(leaders) !! a = Some l -> leader_ok a l;
  ri_history : (length r.(history) <= TRANSITION_HISTORY)%nat;
}.

(** The lifecycle of one leader ([None]: not known). *)
Inductive life_step : option LeaderStatus -> LeaderEvent -> LeaderStatus -> Prop :=
  | life_follow s : s <> Removed -> life_step None EvFollowed s
  | life_refollow s : s <> Removed -> life_step (Some Removed) EvFollowed s
  | life_pause : life_step (Some Active) EvPaused Paused
  | life_resume : life_step (Some Paused) EvResumed Active
  | life_unfollow s : s <> Removed -> life_step (Some s) EvUnfollowed Removed
  | life_rule s : s <> Removed -> life_step (Some s) EvRuleChanged s.

(** A log explains how the statuses of all leaders changed. *)
Inductive replay : gmap text LeaderStatus -> list LeaderTransition ->
    gmap text LeaderStatus -> Prop :=
  | replay_nil m : replay m [] m
  | replay_cons m t ts s m' :
      life_step (m !! t.(t_address)) t.(t_event) s ->
      replay (<[t.(t_address) := s]> m) ts m' -> replay m (t :: ts) m'.

Definition statuses (r : LeaderRegistry) : gmap text LeaderStatus := l_status <$> r.(leaders).

(** The newest [TRANSITION_HISTORY] entries. *)
Definition recent (h : list LeaderTransition) : list LeaderTransition :=
  drop (length h - TRANSITION_HISTORY) h.

(** Nothing a leader has accumulated is ever lost. *)
Record leader_le (l l' : Leader) : Prop := {
  le_events : l.(l_stats).(events_seen) <= l'.(l_stats).(events_seen);
  le_mirrored : l.(l_stats).(mirrored) <= l'.(l_stats).(mirrored);
  le_rejected : l.(l_stats).(rejected) <= l'.(l_stats).(rejected);
  le_event_at : opt_le l.(l_stats).(last_event_at) l'.(l_stats).(last_event_at);
  le_slot : opt_le l.(l_stats).(last_slot) l'.(l_stats).(last_slot);
  le_followed : l'.(l_followed_at) <= l.(l_followed_at);
}.

Definition registry_le (r r' : LeaderRegistry) : Prop :=
  forall a l, r.(leaders) !! a = Some l ->
    exists l', r'.(leaders) !! a = Some l' /\ leader_le l l'.

#[export] Instance leader_le_preorder : PreOrder leader_le.
Proof.
  split.
  - intros l. split; (lia || apply opt_le_refl).
  - intros l1 l2 l3 [] []. split; (lia || by eapply opt_le_trans).
Qed.

#[export] Instance registry_le_preorder : PreOrder registry_le.
Proof.
  split.
  - intros r a l Hl. by exists l.
  - intros r1 r2 r3 H12 H23 a l1 Hl1. destruct (H12 a l1 Hl1) as (l2 & Hl2 & ?).
    destruct (H23 a l2 Hl2) as (l3 & ? & ?). exists l3. split; [done|by transitivity l2].
Qed.

(** A transition keeps counters and times: [leader_le] by reflexivity. *)
Lemma leader_le_kept l l' :
  l'.(l_stats) = l.(l_stats) -> l'.(l_followed_at) = l.(l_followed_at) -> leader_le l l'.
Proof. intros Hs Hf. split; rewrite ?Hs, ?Hf; (done || apply opt_le_refl). Qed.

Lemma registry_le_insert r a l o h :
  (forall l0, r.(leaders) !! a = Some l0 -> leader_le l0 l) ->
  registry_le r (mkLeaderRegistry (<[a := l]> r.(leaders)) o h).
Proof.
  intros Hle b l1 Hl1. destruct (decide (a = b)) as [<-|Hne]; cbn.
  - exists l. rewrite lookup_insert_eq. auto.
  - exists l1. by rewrite lookup_insert_ne.
Qed.

Record logged (r : LeaderRegistry) (ts : list LeaderTransition) (r' : LeaderRegistry) : Prop := {
  lg_inv : registry_inv r';
  lg_replay : replay (statuses r) ts (statuses r');
  lg_history : r'.(history) = recent (r.(history) ++ ts);
  lg_le : registry_le r r';
}.

Lemma replay_app m1 ts1 m2 ts2 m3 :
  replay m1 ts1 m2 -> replay m2 ts2 m3 -> replay m1 (ts1 ++ ts2) m3.
Proof. induction 1; [done|]. intros. cbn. econstructor; eauto. Qed.

Lemma pop_excess_recent h : pop_excess h = recent h.
Proof.
  unfold recent. induction h as [|t h IH]; [done|]. cbn [pop_excess].
  destruct (Nat.ltb_spec TRANSITION_HISTORY (length (t :: h))) as [H|H].
  - rewrite IH. cbn [length] in *.
    by replace (S (length h) - TRANSITION_HISTORY)%nat
      with (S (length h - TRANSITION_HISTORY)) by lia.
  - by replace (length (t :: h) - TRANSITION_HISTORY)%nat with 0%nat by lia.
Qed.

Lemma recent_short h : (length h <= TRANSITION_HISTORY)%nat -> recent h = h.
Proof. intros H. unfold recent. by replace (length h - TRANSITION_HISTORY)%nat with 0%nat by lia. Qed.

Lemma recent_length h : (length (recent h) <= TRANSITION_HISTORY)%nat.
Proof. unfold recent. rewrite length_drop. lia. Qed.

Lemma recent_app h1 h2 : recent (recent h1 ++ h2) = recent (h1 ++ h2).
Proof.
  unfold recent. rewrite !length_app, length_drop.
  destruct (decide (length h1 <= TRANSITION_HISTORY)%nat) as [H|H].
  - replace (length h1 - TRANSITION_HISTORY)%nat with 0%nat by lia. by rewrite Nat.sub_0_r.
  - rewrite <- (drop_app_le h1 h2 (length h1 - TRANSITION_HISTORY)) by lia.
    rewrite drop_drop. f_equal. lia.
Qed.

Lemma logged_refl r : registry_inv r -> logged r [] r.
Proof.
  intros Hi. split; [done|constructor| |done].
  rewrite app_nil_r, recent_short; [done|]. apply Hi.
Qed.

Lemma logged_trans r1 ts1 r2 ts2 r3 :
  logged r1 ts1 r2 -> logged r2 ts2 r3 -> logged r1 (ts1 ++ ts2) r3.
Proof.
  intros [I1 R1 H1 L1] [I2 R2 H2 L2]. split; [done|by eapply replay_app| |by transitivity r2].
  by rewrite H2, H1, recent_app, app_assoc.
Qed.

(** * The three ways an operation writes *)

Lemma inv_put r a l0 l h :
  registry_inv r -> r.(leaders) !! a = Some l0 -> leader_ok a l ->
  (length h <= TRANSITION_HISTORY)%nat ->
  registry_inv (mkLeaderRegistry (<[a := l]> r.(leaders)) r.(order) h).
Proof.
  intros [Ho Hk Hl Hh] H0 Hok Hlen. split; cbn; [done| | |done].
  - intros b. rewrite Hk, lookup_insert_is_Some'.
    split; [by right|intros [<-|?]; [by eexists|done]].
  - intros b l' [[<- <-]|[??]]%lookup_insert_Some; eauto.
Qed.

Lemma inv_add r a l h :
  registry_inv r -> r.(leaders) !! a = None -> leader_ok a l ->
  (length h <= TRANSITION_HISTORY)%nat ->
  registry_inv (mkLeaderRegistry (<[a := l]> r.(leaders)) (r.(order) ++ [a]) h).
Proof.
  intros [Ho Hk Hl Hh] H0 Hok Hlen. split; cbn; [| | |done].
  - apply NoDup_app. split_and!; [done| |apply NoDup_singleton].
    intros b Hb ->%list_elem_of_singleton. apply Hk in Hb as [? Hb]. congruence.
  - intros b. rewrite elem_of_app, list_elem_of_singleton, Hk, lookup_insert_is_Some'.
    split; intros [?|?]; auto.
  - intros b l' [[<- <-]|[??]]%lookup_insert_Some; eauto.
Qed.

(** A write that leaves the status alone needs no log entry. *)
Lemma logged_silent r a l0 l :
  registry_inv r -> r.(leaders) !! a = Some l0 -> leader_ok a l ->
  l.(l_status) = l0.(l_status) -> leader_le l0 l ->
  logged r [] (mkLeaderRegistry (<[a := l]> r.(leaders)) r.(order) r.(history)).
Proof.
  intros Hi H0 Hok Hs Hle. split; [| | |apply registry_le_insert; intros; simplify_eq; done].
  - by eapply inv_put; [|done..|apply Hi].
  - unfold statuses. cbn. rewrite fmap_insert, Hs, insert_id; [constructor|].
    by rewrite lookup_fmap, H0.
  - cbn. rewrite app_nil_r, recent_short; [done|apply Hi].
Qed.

(** A status change, and its entry. *)
Lemma logged_put r a l0 l t :
  registry_inv r -> r.(leaders) !! a = Some l0 -> leader_ok a l ->
  t.(t_address) = a -> life_step (Some l0.(l_status)) t.(t_event) l.(l_status) ->
  leader_le l0 l ->
  logged r [t]
    (mkLeaderRegistry (<[a := l]> r.(leaders)) r.(order) (pop_excess (r.(history) ++ [t]))).
Proof.
  intros Hi H0 Hok <- Hs Hle. rewrite pop_excess_recent.
  split; [|unfold statuses; cbn|done|apply registry_le_insert; intros; simplify_eq; done].
  - eapply inv_put; eauto using recent_length.
  - rewrite fmap_insert. econstructor; [|constructor]. by rewrite lookup_fmap, H0.
Qed.

(** A new leader, and its entry. *)
Lemma logged_add r a l t :
  registry_inv r -> r.(leaders) !! a = None -> leader_ok a l ->
  t.(t_address) = a -> t.(t_event) = EvFollowed -> l.(l_status) <> Removed ->
  logged r [t]
    (mkLeaderRegistry (<[a := l]> r.(leaders)) (r.(order) ++ [a])
       (pop_excess (r.(history) ++ [t]))).
Proof.
  intros Hi H0 Hok <- Hev Hs. rewrite pop_excess_recent.
  split; [|unfold statuses; cbn|done|apply registry_le_insert; intros; simplify_eq].
  - apply inv_add; auto using recent_length.
  - rewrite fmap_insert. econstructor; [|constructor]. rewrite lookup_fmap, H0, Hev. by constructor.
Qed.

(** * Every operation logs what it does *)

(** Run the monad's plumbing, leaving the data alone. *)
Ltac run_op :=
  cbv beta iota delta [mbind Op_bind mret Op_ret utc_now get_mut put push order_push read_registry];
  cbn [fst snd reg ticks leaders order history].

(** [logs m f]: started in a good registry, [m] ends in a good one, and the
    transitions [f] reads off its result explain the change. *)
Definition logs {A} (m : Op A) (f : A -> list LeaderTransition) : Prop :=
  forall w, registry_inv w.(reg) -> logged w.(reg) (f (m w).1) (m w).2.(reg).

Lemma logs_ret {A} (a : A) f : f a = [] -> logs (mret a) f.
Proof. intros Hf w Hi. cbn. rewrite Hf. by apply logged_refl. Qed.

(** What [follow] reports. *)
Definition followed (o : outcome LeaderError (option LeaderTransition)) : list LeaderTransition :=
  match o with Ok t => option_list t | _ => [] end.

Lemma logs_bind {A B} (m : Op A) (k : A -> Op B) f h :
  logs m f ->
  (forall a w, registry_inv w.(reg) ->
     exists ts, h (k a w).1 = f a ++ ts /\ logged w.(reg) ts (k a w).2.(reg)) ->
  logs (m ≫= k) h.
Proof.
  intros Hm Hk w Hi. specialize (Hm w Hi).
  change ((m ≫= k) w) with (let '(a, w') := m w in k a w').
  destruct (m w) as [a w1]. cbn in *.
  destruct (Hk a w1 (lg_inv _ _ _ Hm)) as (ts & -> & Hts). by eapply logged_trans.
Qed.

(** Sequencing two operations that return their transitions. *)
Lemma logs_app (m1 m2 : Op (list LeaderTransition)) :
  logs m1 id -> logs m2 id -> logs (o1 ← m1; o2 ← m2; mret (o1 ++ o2)) id.
Proof.
  intros H1 H2. eapply logs_bind; [done|]. intros a w Hi. specialize (H2 w Hi).
  unfold mbind, Op_bind. destruct (m2 w) as [b w2]. by exists b.
Qed.

Section Logged.
Context (clock : nat -> Z).

Lemma initial_status_live r : initial_status r <> Removed.
Proof. unfold initial_status. by destruct (cw_paused r). Qed.

Lemma stats_ok_default : stats_ok LeaderStats_default.
Proof. split; cbn; [mlia..|done]. Qed.

Lemma follow_logs rule source reason : logs (follow clock rule source reason) followed.
Proof.
  intros w Hi. unfold follow. destruct (is_empty (trim (cw_address rule))) eqn:He.
  { cbn. by apply logged_refl. }
  apply is_empty_false in He.
  run_op.
  destruct (leaders (reg w) !! trim (cw_address rule)) as [l|] eqn:Hl; run_op.
  - pose proof (ri_leaders _ Hi _ _ Hl) as [Ha Hr _ Hs].
    destruct (decide (l_status l = Removed)) as [Hrem|Hrem]; run_op.
    + eapply logged_put; [done..|by split|done| |by apply leader_le_kept]. rewrite Hrem. cbn.
      apply life_refollow, initial_status_live.
    + destruct (same_rule (l_rule l) rule); run_op; [by apply logged_refl|].
      eapply logged_put; [done..|by split|done|by constructor|by apply leader_le_kept].
  - apply logged_add; [done..| |done|done|apply initial_status_live].
    split; cbn; [done..|apply stats_ok_default].
Qed.

Lemma transition_allowed_life s e to :
  transition_allowed s e = true ->
  (e = EvPaused -> to = Paused) -> (e = EvResumed -> to = Active) ->
  (e = EvUnfollowed -> to = Removed) -> life_step (Some s) e to.
Proof. destruct s, e; cbn; intros; try done; naive_solver (constructor; done). Qed.

Lemma transition_logs address event to reason
  (Hp : event = EvPaused -> to = Paused) (Hr : event = EvResumed -> to = Active)
  (Hu : event = EvUnfollowed -> to = Removed) :
  logs (transition clock address event to reason) pushed.
Proof.
  intros w Hi. unfold transition. run_op.
  destruct (leaders (reg w) !! trim address) as [l|] eqn:Hl; run_op;
    [|by apply logged_refl].
  destruct (transition_allowed (l_status l) event) eqn:Hal; cbn [negb]; run_op;
    [|by apply logged_refl].
  pose proof (ri_leaders _ Hi _ _ Hl) as [Ha Hrule Hne Hs].
  eapply logged_put; [done..| |done| |by apply leader_le_kept].
  - split; cbn; [done| |done..]. by repeat case_decide.
  - by apply transition_allowed_life.
Qed.

Lemma pause_logs address reason : logs (pause clock address reason) pushed.
Proof. by apply transition_logs. Qed.
Lemma resume_logs address reason : logs (resume clock address reason) pushed.
Proof. by apply transition_logs. Qed.
Lemma unfollow_logs address reason : logs (unfollow clock address reason) pushed.
Proof. by apply transition_logs. Qed.

(** The last step of an operation wraps its transitions. *)
Lemma logs_map {A B} (m : Op A) (g : A -> B) f h :
  logs m f -> (forall a, h (g a) = f a) -> logs (a ← m; mret (g a)) h.
Proof.
  intros Hm Hg w Hi. specialize (Hm w Hi). run_op. destruct (m w) as [a w']. cbn in *.
  by rewrite Hg.
Qed.

Lemma sync_toggle_logs address wanted : logs (sync_toggle clock address wanted) id.
Proof.
  intros w Hi. unfold sync_toggle. run_op.
  destruct (l_status <$> leaders (reg w) !! address) as [[]|], wanted;
    first [by apply logged_refl
          |exact (logs_map _ _ _ id (pause_logs _ _) (fun _ => eq_refl) w Hi)
          |exact (logs_map _ _ _ id (resume_logs _ _) (fun _ => eq_refl) w Hi)].
Qed.

Lemma sync_wallet_logs rule : logs (sync_wallet clock rule) id.
Proof.
  unfold sync_wallet. destruct (is_empty (trim (cw_address rule))); [by apply logs_ret|].
  eapply logs_bind; [apply follow_logs|]. intros o w Hi.
  destruct o as [t|e|]; [|by exists []; split; [|apply logged_refl]..].
  pose proof (sync_toggle_logs (trim (cw_address rule)) (cw_paused rule) w Hi) as Ht.
  run_op. destruct (sync_toggle clock _ _ w) as [ts w']. by exists ts.
Qed.

Lemma sync_wallets_logs wallets : logs (sync_wallets clock wallets) id.
Proof.
  induction wallets as [|rule rest IH]; [by apply logs_ret|].
  apply logs_app; [apply sync_wallet_logs|done].
Qed.

Lemma unfollow_all_logs addresses : logs (unfollow_all clock addresses) id.
Proof.
  induction addresses as [|a rest IH]; [by apply logs_ret|]. cbn [unfollow_all].
  eapply logs_bind; [apply unfollow_logs|]. intros o w Hi. specialize (IH w Hi).
  run_op. destruct (unfollow_all clock rest w) as [ts w']. by exists ts.
Qed.

Lemma sync_from_config_logs wallets : logs (sync_from_config clock wallets) id.
Proof.
  unfold sync_from_config. eapply logs_bind; [apply sync_wallets_logs|]. intros out w Hi.
  pose proof (unfollow_all_logs (gone (configured wallets) (reg w)) w Hi) as Hu.
  run_op. destruct (unfollow_all clock _ w) as [ts w']. by exists ts.
Qed.

(** ** The operations on counters *)

Record record_ok (rec : LeaderRecord) : Prop := {
  ro_events : in_i64 rec.(rec_events_seen);
  ro_mirrored : in_i64 rec.(rec_mirrored);
  ro_rejected : in_i64 rec.(rec_rejected);
  ro_slot s : rec.(rec_last_slot) = Some s -> in_i64 s;
}.

Lemma raise_to_u64 cur x :
  (forall s, cur = Some s -> in_u64 s) -> in_u64 x ->
  forall s, raise_to cur x = Some s -> in_u64 s.
Proof.
  intros Hc Hx s. destruct cur as [c|]; cbn; [destruct (c <? x)|]; intros [= <-]; auto.
Qed.

Lemma restore_leader_ok rec a l : record_ok rec -> leader_ok a l -> leader_ok a (restore_leader rec l).
Proof.
  intros [??? Hslot] [? ? ? [??? Hs]]. split; cbn; [done..|]. split; cbn; [mlia..|].
  destruct (rec_last_slot rec) as [slot|]; [|done].
  apply raise_to_u64; [done|]. specialize (Hslot slot eq_refl). mlia.
Qed.

Lemma put_logs a l0 l w :
  registry_inv w.(reg) -> w.(reg).(leaders) !! a = Some l0 -> leader_ok a l ->
  l.(l_status) = l0.(l_status) -> leader_le l0 l -> logged w.(reg) [] (put a l w).2.(reg).
Proof. intros. by eapply logged_silent. Qed.

Lemma restore_leader_le rec l : leader_le l (restore_leader rec l).
Proof.
  split; cbn; try lia.
  - destruct (rec_last_event_at rec); [apply opt_le_raise|apply opt_le_refl].
  - destruct (rec_last_slot rec); [apply opt_le_raise|apply opt_le_refl].
  - destruct (Z.ltb_spec (rec_followed_at rec) (l_followed_at l)); lia.
Qed.

(** What a counter update promises. *)
Definition stats_update (f : LeaderStats -> LeaderStats) : Prop :=
  forall st, stats_ok st -> stats_ok (f st) /\
    st.(events_seen) <= (f st).(events_seen) /\ st.(mirrored) <= (f st).(mirrored) /\
    st.(rejected) <= (f st).(rejected) /\ opt_le st.(last_event_at) (f st).(last_event_at) /\
    opt_le st.(last_slot) (f st).(last_slot).

Lemma on_stats_logs address f : stats_update f -> logs (on_stats address f) (fun _ => []).
Proof.
  intros Hf w Hi. unfold on_stats. run_op.
  destruct (leaders (reg w) !! trim address) as [l|] eqn:Hl; [|by apply logged_refl].
  destruct (ri_leaders _ Hi _ _ Hl) as [??? Hs].
  destruct (Hf _ Hs) as (? & ? & ? & ? & ? & ?).
  eapply (put_logs (trim address)); [done..| |done|]; by split.
Qed.

Lemma restore_logs records : Forall record_ok records -> logs (restore records) (fun _ => []).
Proof.
  induction 1 as [|rec rest Hrec _ IH]; [by apply logs_ret|]. intros w Hi. cbn [restore].
  run_op. destruct (leaders (reg w) !! trim (rec_address rec)) as [l|] eqn:Hl; [|by apply IH].
  pose proof (put_logs _ _ (restore_leader rec l) w Hi Hl
    (restore_leader_ok rec _ _ Hrec (ri_leaders _ Hi _ _ Hl)) eq_refl
    (restore_leader_le rec l)) as Hp.
  pose proof (IH _ (lg_inv _ _ _ Hp)) as Hr. cbn [put snd fst] in Hp, Hr |- *.
  destruct (restore rest _) as [n w']. apply (logged_trans _ [] _ [] _ Hp Hr).
Qed.

(** * Sequences of operations *)

(** One call on the registry, and the transitions it returns. *)
Inductive Command : Type :=
  | CFollow (rule : CopyWallet) (source : text) (reason : option text)
  | CPause (address : text) (reason : option text)
  | CResume (address : text) (reason : option text)
  | CUnfollow (address : text) (reason : option text)
  | CSync (wallets : list CopyWallet)
  | CRestore (records : list LeaderRecord)
  | CNoteEvent (address : text) (slot observed_at : Z)
  | CNoteMirrored (address : text)
  | CNoteRejected (address reason : text).

Definition run (c : Command) : Op (list LeaderTransition) :=
  match c with
  | CFollow rule source reason => o ← follow clock rule source reason; mret (followed o)
  | CPause a reason => o ← pause clock a reason; mret (pushed o)
  | CResume a reason => o ← resume clock a reason; mret (pushed o)
  | CUnfollow a reason => o ← unfollow clock a reason; mret (pushed o)
  | CSync wallets => sync_from_config clock wallets
  | CRestore records => _ ← restore records; mret []
  | CNoteEvent a slot at_ => _ ← note_event a slot at_; mret []
  | CNoteMirrored a => _ ← note_mirrored a; mret []
  | CNoteRejected a reason => _ ← note_rejected a reason; mret []
  end.

Fixpoint run_all (cs : list Command) : Op (list LeaderTransition) :=
  match cs with
  | [] => mret []
  | c :: rest => ts ← run c; ts' ← run_all rest; mret (ts ++ ts')
  end.

(** Rows come from [i64] columns, a slot is a [u64]. *)
Definition command_ok (c : Command) : Prop :=
  match c with
  | CRestore records => Forall record_ok records
  | CNoteEvent _ slot _ => in_u64 slot
  | _ => True
  end.

Ltac stats_update :=
  intros st [????]; unfold saturating_add; cbn;
  split; [split; cbn; [mlia..|first [done|by apply raise_to_u64]]
         |split_and!; first [mlia|auto with text]].

Lemma note_event_update slot observed_at :
  in_u64 slot ->
  stats_update (fun st =>
    mkLeaderStats (saturating_add u64_max st.(events_seen) 1) st.(mirrored) st.(rejected)
      (raise_to st.(last_event_at) observed_at)
      (if 0 <? slot then raise_to st.(last_slot) slot else st.(last_slot))
      st.(last_rejection)).
Proof. intros ?. destruct (0 <? slot); stats_update. Qed.

Lemma run_logs c : command_ok c -> logs (run c) id.
Proof.
  destruct c; cbn [run command_ok]; intros Hc.
  - eapply logs_map; [apply follow_logs|done].
  - eapply logs_map; [apply pause_logs|done].
  - eapply logs_map; [apply resume_logs|done].
  - eapply logs_map; [apply unfollow_logs|done].
  - apply sync_from_config_logs.
  - eapply logs_map; [by apply restore_logs|done].
  - eapply logs_map; [by apply on_stats_logs, note_event_update|done].
  - eapply logs_map; [apply on_stats_logs|done]. stats_update.
  - eapply logs_map; [apply on_stats_logs|done]. stats_update.
Qed.

Lemma run_all_logs cs : Forall command_ok cs -> logs (run_all cs) id.
Proof.
  induction 1 as [|c rest Hc _ IH]; [by apply logs_ret|]. by apply logs_app; [apply run_logs|].
Qed.
End Logged.

(** * Listings and counts *)

Lemma registry_inv_new : registry_inv LeaderRegistry_new.
Proof.
  split; cbn; [by constructor| |done|lia]. intros a. rewrite lookup_empty.
  split; [by intros ?%elem_of_nil|by intros [? ?]].
Qed.

Lemma dom_order r : registry_inv r -> dom r.(leaders) = list_to_set (C := gset text) r.(order).
Proof.
  intros Hi. apply set_eq. intros a. rewrite elem_of_dom, elem_of_list_to_set.
  symmetry. apply Hi.
Qed.

Lemma len_order r : registry_inv r -> len r = length r.(order).
Proof.
  intros Hi. unfold len. rewrite <- size_dom, dom_order by done.
  apply size_list_to_set, Hi.
Qed.

Lemma all_addresses r : registry_inv r -> map l_address (all r) = r.(order).
Proof.
  intros Hi. unfold all.
  assert (forall o, (forall a, a ∈ o -> is_Some (leaders r !! a)) ->
    map l_address (omap (fun a => leaders r !! a) o) = o) as H.
  { intros o. induction o as [|a o IH]; intros Ho; [done|]. cbn.
    destruct (Ho a) as [l Hl]; [by left|]. rewrite Hl. cbn.
    f_equal; [by apply (lo_address _ _ (ri_leaders _ Hi _ _ Hl))|].
    apply IH. intros b Hb. apply Ho. by right. }
  apply H. intros a. apply Hi.
Qed.

Lemma counts_sum r : let '(a, p, d) := counts r in (a + p + d)%nat = len r.
Proof.
  unfold counts, len.
  apply (map_fold_weak_ind (fun (c : nat * nat * nat) (m : gmap text Leader) =>
    let '(a, p, d) := c in (a + p + d)%nat = size m)).
  - by rewrite map_size_empty.
  - intros i l m [[a p] d] Hi IH. rewrite map_size_insert_None by done.
    unfold count_leader. destruct (l_status l); lia.
Qed.

(** * Reconciliation with the configuration *)

(** The leader's rule is the configured one, up to the lifecycle flag and to
    what [==] on the fields identifies. *)
Definition rule_agrees (r configured : CopyWallet) : Prop :=
  same_rule r configured = true \/ exists p, r = with_paused configured p.

Definition unchanged_but (a : text) (r r' : LeaderRegistry) : Prop :=
  forall b, b <> a -> r'.(leaders) !! b = r.(leaders) !! b.

Lemma unchanged_but_insert a l r o h :
  unchanged_but a r (mkLeaderRegistry (<[a := l]> r.(leaders)) o h).
Proof. intros b Hb. cbn. by rewrite lookup_insert_ne. Qed.

Lemma unchanged_but_refl a r : unchanged_but a r r.
Proof. done. Qed.
#[local] Hint Resolve unchanged_but_insert unchanged_but_refl : core.

Lemma with_paused_self r : with_paused r r.(cw_paused) = r.
Proof. by destruct r. Qed.

Lemma rule_agrees_paused r c p : rule_agrees r c -> rule_agrees (with_paused r p) c.
Proof. intros [H|[q ->]]; [by left|right]. by exists p. Qed.

Section Reconcile.
Context (clock : nat -> Z).

Lemma follow_effect rule source reason w :
  is_empty (trim rule.(cw_address)) = false ->
  exists o w' l, follow clock rule source reason w = (Ok o, w') /\
    w'.(reg).(leaders) !! trim rule.(cw_address) = Some l /\
    l.(l_status) <> Removed /\ rule_agrees l.(l_rule) rule /\
    unchanged_but (trim rule.(cw_address)) w.(reg) w'.(reg).
Proof.
  intros He. unfold follow. rewrite He. run_op.
  assert (rule_agrees rule rule) as Hself
    by (right; exists (cw_paused rule); by rewrite with_paused_self).
  pose proof (initial_status_live rule) as Hlive.
  destruct (leaders (reg w) !! trim (cw_address rule)) as [l|] eqn:Hl.
  - destruct (decide (l_status l = Removed)) as [Hr|Hr]; [|destruct (same_rule (l_rule l) rule) eqn:Hs; cbn [negb]];
      run_op; eexists _, _, _; (split; [reflexivity|]); cbn [reg leaders].
    + rewrite lookup_insert_eq. split_and!; auto.
    + split_and!; [done..|by left|auto].
    + rewrite lookup_insert_eq. split_and!; auto.
  - eexists _, _, _. split; [reflexivity|]. cbn [reg leaders].
    rewrite lookup_insert_eq. split_and!; auto.
Qed.

Lemma transition_effect a event to reason l w :
  trim a = a -> w.(reg).(leaders) !! a = Some l -> transition_allowed l.(l_status) event = true ->
  exists t w' l' p, transition clock a event to reason w = (Ok t, w') /\
    w'.(reg).(leaders) !! a = Some l' /\ l'.(l_status) = to /\
    l'.(l_rule) = with_paused l.(l_rule) p /\ unchanged_but a w.(reg) w'.(reg).
Proof.
  intros Ha Hl Hal. unfold transition. rewrite Ha. run_op. rewrite Hl, Hal. cbn [negb]. run_op.
  eexists _, _, _, (if decide (event = EvPaused) then true else
                    if decide (event = EvResumed) then false else cw_paused (l_rule l)).
  split; [reflexivity|]. cbn [reg leaders]. rewrite lookup_insert_eq.
  split_and!; [done..| |auto]. cbn.
  repeat case_decide; [done..|by rewrite with_paused_self].
Qed.

Lemma sync_toggle_effect a wanted l rule w :
  trim a = a -> w.(reg).(leaders) !! a = Some l -> l.(l_status) <> Removed ->
  rule_agrees l.(l_rule) rule ->
  exists l', (sync_toggle clock a wanted w).2.(reg).(leaders) !! a = Some l' /\
    l'.(l_status) = (if wanted then Paused else Active) /\ rule_agrees l'.(l_rule) rule /\
    unchanged_but a w.(reg) (sync_toggle clock a wanted w).2.(reg).
Proof.
  intros Ha Hl Hlive Hrule. unfold sync_toggle. run_op. rewrite Hl. cbn [fmap option_fmap option_map].
  destruct (l_status l) eqn:Hs, wanted; try done;
    try (exists l; split_and!; auto; fail).
  - destruct (transition_effect a EvPaused Paused (Some (lit "config paused = true")) l w Ha Hl)
      as (t & w' & l' & p & Ht & ? & ? & Hr & ?); [by rewrite Hs|].
    unfold pause. rewrite Ht. exists l'. rewrite Hr. auto using rule_agrees_paused.
  - destruct (transition_effect a EvResumed Active (Some (lit "config paused = false")) l w Ha Hl)
      as (t & w' & l' & p & Ht & ? & ? & Hr & ?); [by rewrite Hs|].
    unfold resume. rewrite Ht. exists l'. rewrite Hr. auto using rule_agrees_paused.
Qed.

(** The leader of a configured rule, as the configuration wants it. *)
Definition configured_as (rule : CopyWallet) (r : LeaderRegistry) : Prop :=
  exists l, r.(leaders) !! trim rule.(cw_address) = Some l /\
    l.(l_status) = initial_status rule /\ rule_agrees l.(l_rule) rule.

Lemma sync_wallet_effect rule w :
  is_empty (trim rule.(cw_address)) = false ->
  configured_as rule (sync_wallet clock rule w).2.(reg) /\
  unchanged_but (trim rule.(cw_address)) w.(reg) (sync_wallet clock rule w).2.(reg).
Proof.
  intros He. unfold sync_wallet. rewrite He.
  destruct (follow_effect rule (lit "config") (Some (lit "config sync")) w He)
    as (o & w1 & l & Hf & Hl & Hlive & Hr & Hu).
  run_op. rewrite Hf. run_op.
  destruct (sync_toggle_effect _ (cw_paused rule) l rule w1 (trim_idemp _) Hl Hlive Hr)
    as (l' & Hl' & Hs' & Hr' & Hu').
  destruct (sync_toggle clock _ _ w1) as [ts w2]. cbn in *. split.
  - by exists l'.
  - intros b Hb. by rewrite Hu', Hu.
Qed.

(** The configuration's last word on an address. *)
Fixpoint last_rule (a : text) (wallets : list CopyWallet) : option CopyWallet :=
  match wallets with
  | [] => None
  | rule :: rest =>
      match last_rule a rest with
      | Some r => Some r
      | None => if decide (trim rule.(cw_address) = a) then Some rule else None
      end
  end.

Lemma last_rule_address a wallets r : last_rule a wallets = Some r -> trim r.(cw_address) = a.
Proof.
  induction wallets as [|rule rest IH]; [done|]. cbn.
  destruct (last_rule a rest); [done|]. case_decide; naive_solver.
Qed.

Lemma elem_of_configured a wallets :
  a ∈ configured wallets <-> a <> [] /\ is_Some (last_rule a wallets).
Proof.
  unfold configured. rewrite list_elem_of_In, filter_In, <- list_elem_of_In.
  assert (a ∈ map (fun r => trim (cw_address r)) wallets <-> is_Some (last_rule a wallets)) as ->.
  { induction wallets as [|rule rest IH]; cbn.
    - split; [by intros ?%elem_of_nil|by intros [? ?]].
    - rewrite elem_of_cons, IH. destruct (last_rule a rest) as [r|].
      + split; [by eexists|]. intros _. right. by eexists.
      + case_decide as Hd; split.
        * by eexists.
        * by left.
        * intros [->|[? ?]]; done.
        * by intros [? ?]. }
  destruct a; cbn; (split; [by intros [? ?]|intros [? ?]; done]).
Qed.

Lemma sync_wallets_cons rule rest w :
  (sync_wallets clock (rule :: rest) w).2 =
  (sync_wallets clock rest (sync_wallet clock rule w).2).2.
Proof.
  cbn [sync_wallets]. run_op. destruct (sync_wallet clock rule w) as [o1 w1]. cbn.
  by destruct (sync_wallets clock rest w1).
Qed.

Lemma sync_wallets_effect wallets w a :
  a <> [] ->
  match last_rule a wallets with
  | Some rule => configured_as rule (sync_wallets clock wallets w).2.(reg)
  | None => (sync_wallets clock wallets w).2.(reg).(leaders) !! a = w.(reg).(leaders) !! a
  end.
Proof.
  intros Ha. revert w. induction wallets as [|rule rest IH]; intros w; [done|].
  rewrite sync_wallets_cons. specialize (IH (sync_wallet clock rule w).2). cbn [last_rule].
  destruct (last_rule a rest) as [r|]; [done|].
  destruct (is_empty (trim (cw_address rule))) eqn:He.
  - assert (trim (cw_address rule) <> a) as Hne by (intros Heq; by destruct (trim _); subst).
    rewrite decide_False by done. rewrite IH. unfold sync_wallet. by rewrite He.
  - destruct (sync_wallet_effect rule w He) as [Hc Hu]. case_decide as Heq.
    + subst a. destruct Hc as (l & Hl & Hs & Hr). exists l.
      split_and!; [exact (eq_trans IH Hl)|done..].
    + exact (eq_trans IH (Hu a (not_eq_sym Heq))).
Qed.

Lemma unfollow_all_effect gs w :
  NoDup gs ->
  (forall a, a ∈ gs -> trim a = a /\
     exists l, w.(reg).(leaders) !! a = Some l /\ l.(l_status) <> Removed) ->
  forall a,
  if decide (a ∈ gs)
  then exists l', (unfollow_all clock gs w).2.(reg).(leaders) !! a = Some l' /\ l'.(l_status) = Removed
  else (unfollow_all clock gs w).2.(reg).(leaders) !! a = w.(reg).(leaders) !! a.
Proof.
  intros Hnd. revert w. induction Hnd as [|g gs Hg _ IH]; intros w Hw a;
    [by rewrite decide_False by (by intros ?%elem_of_nil)|].
  destruct (Hw g) as (Htrim & l & Hl & Hlive); [by left|].
  destruct (transition_effect g EvUnfollowed Removed (Some (lit "removed from config")) l w
    Htrim Hl) as (t & w1 & l1 & p & Ht & Hl1 & Hs1 & _ & Hu); [by destruct (l_status l)|].
  specialize (IH w1).
  assert ((unfollow_all clock (g :: gs) w).2 = (unfollow_all clock gs w1).2) as ->.
  { cbn [unfollow_all]. run_op. unfold unfollow. rewrite Ht.
    by destruct (unfollow_all clock gs w1). }
  assert (forall b, b ∈ gs -> trim b = b /\
    exists l0, leaders (reg w1) !! b = Some l0 /\ l_status l0 <> Removed) as Hw1.
  { intros b Hb. rewrite Hu by (intros ->; done). apply Hw. by right. }
  specialize (IH Hw1). destruct (decide (a = g)) as [->|Hne].
  - rewrite decide_True by (by left). specialize (IH g). rewrite decide_False in IH by done.
    exists l1. by rewrite IH.
  - specialize (IH a). destruct (decide (a ∈ gs)).
    + by rewrite decide_True by (by right).
    + rewrite decide_False by (by intros [?|?]%elem_of_cons). by rewrite IH, Hu.
Qed.

Lemma elem_of_gone a cs r :
  a ∈ gone cs r <-> a ∈ r.(order) /\ (a ∉ cs) /\
    exists l, r.(leaders) !! a = Some l /\ l.(l_status) <> Removed.
Proof.
  unfold gone. rewrite list_elem_of_In, filter_In, filter_In, <- list_elem_of_In,
    negb_true_iff, bool_decide_eq_false.
  destruct (leaders r !! a) as [l|].
  - rewrite negb_true_iff, bool_decide_eq_false. split.
    + intros [[? ?] ?]. split_and!; [done..|by exists l].
    + by intros (? & ? & ? & [= <-] & ?).
  - split; [by intros [_ ?]|by intros (_ & _ & ? & ? & _)].
Qed.

Lemma NoDup_gone cs r : NoDup r.(order) -> NoDup (gone cs r).
Proof.
  intros Hn. apply NoDup_ListNoDup. do 2 apply List.NoDup_filter. by apply NoDup_ListNoDup.
Qed.

Lemma sync_from_config_split wallets w :
  let w1 := (sync_wallets clock wallets w).2 in
  let g := gone (configured wallets) w1.(reg) in
  sync_from_config clock wallets w =
  ((sync_wallets clock wallets w).1 ++ (unfollow_all clock g w1).1, (unfollow_all clock g w1).2).
Proof.
  cbv zeta. unfold sync_from_config. run_op. destruct (sync_wallets clock wallets w) as [o w1].
  cbn. by destruct (unfollow_all clock _ w1).
Qed.

(** ** A reconciled registry stays as it is *)

(** No number of the rule is a NaN (the configuration is validated to hold
    finite numbers). *)
Definition no_nan (r : CopyWallet) : bool :=
  negb (is_nan r.(cw_fraction_of_their_size)) && negb (is_nan r.(cw_max_sol)) &&
  negb (is_nan r.(cw_min_sol)) && negb (is_nan r.(cw_max_exposure_sol)) &&
  negb (from_option is_nan false r.(cw_fixed_sol)) &&
  negb (from_option is_nan false r.(cw_slippage_pct)).

Lemma option_f64_eq_refl o : option_f64_eq o o = negb (from_option is_nan false o).
Proof. destruct o; [apply f64_eq_refl|done]. Qed.

Lemma same_rule_refl r p : no_nan r = true -> same_rule (with_paused r p) r = true.
Proof.
  unfold no_nan, same_rule. destruct r; cbn. intros H. bool_to_prop.
  rewrite !f64_eq_refl, !option_f64_eq_refl, !bool_decide_true, !Z.eqb_refl by done.
  repeat match goal with H : _ = false |- _ => rewrite H; clear H end. done.
Qed.

Lemma rule_agrees_same r c : no_nan c = true -> rule_agrees r c -> same_rule r c = true.
Proof. intros Hn [H|[p ->]]; [done|by apply same_rule_refl]. Qed.

Lemma sync_wallet_settled rule w :
  no_nan rule = true -> configured_as rule w.(reg) ->
  (sync_wallet clock rule w).1 = [] /\ (sync_wallet clock rule w).2.(reg) = w.(reg).
Proof.
  intros Hn (l & Hl & Hs & Hr%rule_agrees_same); [|done]. unfold sync_wallet.
  destruct (is_empty (trim (cw_address rule))) eqn:He; [done|].
  unfold follow. rewrite He. run_op. rewrite Hl.
  rewrite decide_False by (rewrite Hs; apply initial_status_live).
  rewrite Hr. cbn [negb]. run_op. unfold sync_toggle. run_op. rewrite Hl. cbn [fmap option_fmap option_map].
  rewrite Hs. unfold initial_status. by destruct (cw_paused rule).
Qed.

Lemma sync_wallets_settled wallets w :
  Forall (fun rule => is_empty (trim rule.(cw_address)) = false ->
            no_nan rule = true /\ configured_as rule w.(reg)) wallets ->
  (sync_wallets clock wallets w).1 = [] /\ (sync_wallets clock wallets w).2.(reg) = w.(reg).
Proof.
  intros H. revert w H. induction wallets as [|rule rest IH]; intros w H; [done|].
  apply Forall_cons in H as [Hrule Hrest].
  assert ((sync_wallet clock rule w).1 = [] /\ (sync_wallet clock rule w).2.(reg) = w.(reg))
    as [H1 H2].
  { destruct (is_empty (trim (cw_address rule))) eqn:He.
    - unfold sync_wallet. by rewrite He.
    - destruct (Hrule eq_refl). by apply sync_wallet_settled. }
  cbn [sync_wallets]. run_op. destruct (sync_wallet clock rule w) as [o1 w1]. cbn in *. subst o1.
  rewrite <- H2 in Hrest. destruct (IH w1 Hrest) as [H3 H4].
  destruct (sync_wallets clock rest w1) as [o2 w2]. cbn in *. subst o2. by rewrite H4.
Qed.

(** The registry after a sync, address by address. *)
Lemma sync_from_config_effect wallets w a :
  registry_inv w.(reg) -> a <> [] ->
  match last_rule a wallets with
  | Some rule => configured_as rule (sync_from_config clock wallets w).2.(reg)
  | None => forall l, (sync_from_config clock wallets w).2.(reg).(leaders) !! a = Some l ->
      l.(l_status) = Removed
  end.
Proof.
  intros Hi Ha. rewrite sync_from_config_split. cbn [fst snd].
  pose proof (lg_inv _ _ _ (sync_wallets_logs clock wallets w Hi)) as Hi1.
  pose proof (sync_wallets_effect wallets w a Ha) as Hw.
  set (w1 := (sync_wallets clock wallets w).2) in *.
  pose proof (unfollow_all_effect (gone (configured wallets) (reg w1)) w1
    (NoDup_gone _ _ (ri_order _ Hi1))) as Hu.
  assert (forall b, b ∈ gone (configured wallets) (reg w1) -> trim b = b /\
    exists l, leaders (reg w1) !! b = Some l /\ l_status l <> Removed) as Hg.
  { intros b (_ & _ & l & Hl & Hlive)%elem_of_gone. split; [|by exists l].
    rewrite <- (lo_rule _ _ (ri_leaders _ Hi1 _ _ Hl)) at 1. rewrite trim_idemp.
    apply (lo_rule _ _ (ri_leaders _ Hi1 _ _ Hl)). }
  specialize (Hu Hg a). destruct (last_rule a wallets) as [rule|] eqn:Hlast.
  - rewrite decide_False in Hu.
    + destruct Hw as (l & Hl & Hs & Hr). pose proof (last_rule_address _ _ _ Hlast) as <-.
      exists l. split_and!; [exact (eq_trans Hu Hl)|done..].
    + intros (_ & Hc & _)%elem_of_gone. apply Hc, elem_of_configured. split; [done|by eexists].
  - intros l Hl. case_decide as Hd; [destruct Hu as (l' & Hl' & ?); by pose proof (eq_trans (eq_sym Hl) Hl') as [= ->]|].
    pose proof (eq_trans (eq_sym Hu) Hl) as Hl1. destruct (decide (l_status l = Removed)) as [|Hlive]; [done|].
    destruct Hd. apply elem_of_gone. split_and!; [|by rewrite elem_of_configured, Hlast; intros [_ [? ?]]|by exists l].
    apply Hi1. by exists l.
Qed.

Lemma last_rule_unique wallets rule :
  NoDup (configured wallets) -> rule ∈ wallets ->
  is_empty (trim rule.(cw_address)) = false ->
  last_rule (trim rule.(cw_address)) wallets = Some rule.
Proof.
  intros Hnd Hin He. induction wallets as [|r rest IH]; [by apply elem_of_nil in Hin|].
  assert (configured (r :: rest) = (if is_empty (trim r.(cw_address)) then [] else [trim r.(cw_address)])
    ++ configured rest) as Hc
    by (unfold configured; cbn [map List.filter]; by destruct (is_empty (trim (cw_address r)))).
  rewrite Hc in Hnd. apply NoDup_app in Hnd as (_ & Hd & Hnd). cbn.
  apply elem_of_cons in Hin as [->|Hin]; [|by rewrite IH].
  rewrite He in Hd. destruct (last_rule _ rest) as [x|] eqn:Hx; [|by rewrite decide_True].
  destruct (Hd (trim (cw_address r))); [by apply list_elem_of_singleton|].
  apply elem_of_configured. rewrite Hx. split; [by apply is_empty_false|by eexists].
Qed.

Lemma gone_settled wallets r :
  registry_inv r ->
  (forall a l, a <> [] -> last_rule a wallets = None -> r.(leaders) !! a = Some l ->
     l.(l_status) = Removed) ->
  gone (configured wallets) r = [].
Proof.
  intros Hi H. apply elem_of_nil_inv. intros a (_ & Hc & l & Hl & Hlive)%elem_of_gone.
  assert (a <> []) as Ha by apply (ri_leaders _ Hi _ _ Hl).
  apply Hlive, (H a l Ha); [|done]. destruct (last_rule a wallets) eqn:Hx; [|done].
  destruct Hc. apply elem_of_configured. rewrite Hx. split; [done|by eexists].
Qed.
End Reconcile.

(** * Restart *)

Lemma restore_lookup records w (a : text) :
  (restore records w).2.(reg).(leaders) !! a =
  (fun l => fold_left (fun l rec => restore_leader rec l)
     (List.filter (fun rec => bool_decide (trim rec.(rec_address) = a)) records) l)
  <$> w.(reg).(leaders) !! a.
Proof.
  revert w. induction records as [|rec rest IH]; intros w; cbn [restore List.filter];
    [run_op; by destruct (leaders (reg w) !! a)|].
  run_op. destruct (leaders (reg w) !! trim (rec_address rec)) as [l|] eqn:Hl.
  - specialize (IH (put (trim (rec_address rec)) (restore_leader rec l) w).2). run_op.
    destruct (restore rest _) as [n w']. cbn in IH |- *. rewrite IH.
    case_bool_decide as Ha; [subst a|by rewrite lookup_insert_ne].
    rewrite lookup_insert_eq. rewrite Hl. done.
  - rewrite IH. case_bool_decide as Ha; [subst a; by rewrite Hl|done].
Qed.

(** The durable rows of a registry. *)
Definition records_of (now : Z) (r : LeaderRegistry) : list LeaderRecord :=
  map (Leader_record now) (all r).

Lemma records_for_address now r a l :
  registry_inv r -> r.(leaders) !! a = Some l ->
  List.filter (fun rec => bool_decide (trim rec.(rec_address) = a)) (records_of now r)
  = [Leader_record now l].
Proof.
  intros Hi Hl. unfold records_of, all.
  assert (a ∈ order r) as Hin by (apply Hi; by exists l).
  pose proof (ri_order _ Hi) as Hnd.
  assert (forall b, b ∈ order r -> exists lb, leaders r !! b = Some lb /\ leader_ok b lb) as Hall.
  { intros b [lb Hb]%(ri_keys _ Hi). exists lb. split; [done|by apply Hi]. }
  revert Hin Hnd Hall. generalize (order r) as o.
  assert (forall b lb, leader_ok b lb -> trim (rec_address (Leader_record now lb)) = b) as Haddr.
  { intros b lb [Hb Hr _ _]. cbn. rewrite Hb, <- Hr. apply trim_idemp. }
  assert (forall o, (forall b, b ∈ o -> exists lb, leaders r !! b = Some lb /\ leader_ok b lb) ->
    a ∉ o -> List.filter (fun rec => bool_decide (trim rec.(rec_address) = a))
      (map (Leader_record now) (omap (fun b => leaders r !! b) o)) = []) as Hnone.
  { intros o Ho. induction o as [|b o IH]; [done|]. intros [Hne Hni]%not_elem_of_cons.
    destruct (Ho b) as (lb & Hb & Hok); [by left|]. cbn [omap list_omap]. rewrite Hb. cbn [map List.filter].
    rewrite (Haddr _ _ Hok), bool_decide_false by done. apply IH; [|done].
    intros c Hc. apply Ho. by right. }
  intros o Hin Hnd Hall. induction o as [|b o IH]; [by apply elem_of_nil in Hin|].
  apply NoDup_cons in Hnd as [Hb Hnd]. destruct (Hall b) as (lb & Hlb & Hok); [by left|].
  assert (forall c, c ∈ o -> exists lc, leaders r !! c = Some lc /\ leader_ok c lc) as Ho
    by (intros c Hc; apply Hall; by right).
  cbn [omap list_omap]. rewrite Hlb. cbn [map List.filter]. rewrite (Haddr _ _ Hok).
  apply elem_of_cons in Hin as [<-|Hin].
  - rewrite bool_decide_true by done. rewrite Hnone by done. congruence.
  - rewrite bool_decide_false by (intros ->; done). by apply IH.
Qed.

(** * Properties *)

(** whatever calls are made on a registry, in whatever order, the
    transitions they return are a complete account: replayed on an empty
    registry through the lifecycle's legal steps they give every leader's
    status; the history holds the most recent of them; every leader is listed
    exactly once, and the three counts add up to the number of leaders. *)
Theorem registry_log_complete clock cs n (Hc : Forall command_ok cs) :
  let out := run_all clock cs (mkWorld LeaderRegistry_new n) in
  let r := reg out.2 in
  replay ∅ out.1 (statuses r) /\
  history r = recent out.1 /\
  NoDup (map l_address (all r)) /\ length (all r) = len r /\
  (let '(a, p, d) := counts r in (a + p + d)%nat = len r).
Proof.
  cbv zeta.
  destruct (run_all_logs clock cs Hc (mkWorld LeaderRegistry_new n) registry_inv_new)
    as [Hi Hr Hh _].
  pose proof (all_addresses _ Hi) as Hall. split_and!; [done|done| | |apply counts_sum].
  - rewrite Hall. apply Hi.
  - by rewrite len_order, <- Hall, length_map.
Qed.

(** counters, last-seen times and slots never decrease, a first-followed
    time never moves forward and no leader is ever forgotten, whatever calls
    follow: pauses, removals, re-follows, reloads and restores included. *)
Theorem counters_never_lost clock cs cs' n
  (Hc : Forall command_ok cs) (Hc' : Forall command_ok cs') :
  let w := (run_all clock cs (mkWorld LeaderRegistry_new n)).2 in
  registry_le (reg w) (reg (run_all clock cs' w).2).
Proof.
  pose proof (lg_inv _ _ _ (run_all_logs clock cs Hc (mkWorld LeaderRegistry_new n)
    registry_inv_new)) as Hi.
  exact (lg_le _ _ _ (run_all_logs clock cs' Hc' _ Hi)).
Qed.

(** a sync makes the registry what the configuration says: each configured
    wallet is followed under (its last occurrence's) rule, paused exactly when
    the rule says so, and every leader not configured is removed.  A second
    sync with the same configuration performs no transition and changes
    nothing. *)
Theorem sync_converges clock wallets w
  (Hi : registry_inv (reg w)) (Hn : Forall (fun r => no_nan r = true) wallets)
  (Hd : NoDup (configured wallets)) :
  let w' := (sync_from_config clock wallets w).2 in
  (forall a, a <> [] ->
     match last_rule a wallets with
     | Some rule => configured_as rule (reg w')
     | None => forall l, leaders (reg w') !! a = Some l -> l_status l = Removed
     end) /\
  (sync_from_config clock wallets w').1 = [] /\
  reg (sync_from_config clock wallets w').2 = reg w'.
Proof.
  cbv zeta. pose proof (fun a => sync_from_config_effect clock wallets w a Hi) as He.
  pose proof (lg_inv _ _ _ (sync_from_config_logs clock wallets w Hi)) as Hi'.
  set (w' := (sync_from_config clock wallets w).2) in *. split; [done|].
  assert (Forall (fun rule => is_empty (trim rule.(cw_address)) = false ->
            no_nan rule = true /\ configured_as rule (reg w')) wallets) as Hs.
  { apply Forall_forall. intros rule Hin Hne. split; [by rewrite Forall_forall in Hn; apply Hn|].
    specialize (He (trim (cw_address rule)) (proj1 (is_empty_false _) Hne)).
    by rewrite (last_rule_unique _ _ Hd Hin Hne) in He. }
  rewrite sync_from_config_split. cbn [fst snd].
  destruct (sync_wallets_settled clock wallets w' Hs) as [-> Hreg]. rewrite Hreg, gone_settled.
  - by split.
  - done.
  - intros a l Ha Hlast Hl. specialize (He a Ha). rewrite Hlast in He. by apply He.
Qed.

(** a restart keeps what a leader has accumulated: restoring the durable
    rows of the old registry into a freshly configured one gives each
    still-configured leader its counters back (capped at the [i64] column),
    its last event and slot, and the earlier of the two first-followed times,
    while status and rule stay as configured. *)
Theorem restart_keeps_counters old fresh now (a : text) l l0 k
  (Hi : registry_inv old) (Hl : leaders old !! a = Some l)
  (Hf : leaders fresh !! a = Some l0) (Hnew : l_stats l0 = LeaderStats_default) :
  exists l', leaders (reg (restore (records_of now old) (mkWorld fresh k)).2) !! a = Some l' /\
    l_status l' = l_status l0 /\ l_rule l' = l_rule l0 /\
    events_seen (l_stats l') = Z.min (events_seen (l_stats l)) i64_max /\
    mirrored (l_stats l') = Z.min (mirrored (l_stats l)) i64_max /\
    rejected (l_stats l') = Z.min (rejected (l_stats l)) i64_max /\
    last_event_at (l_stats l') = last_event_at (l_stats l) /\
    last_slot (l_stats l') = (fun s => Z.min s i64_max) <$> last_slot (l_stats l) /\
    l_followed_at l' = Z.min (l_followed_at l) (l_followed_at l0).
Proof.
  exists (restore_leader (Leader_record now l) l0).
  split.
  { rewrite restore_lookup, (records_for_address now old a l) by done. cbn [reg]. by rewrite Hf. }
  destruct (lo_stats _ _ (ri_leaders _ Hi _ _ Hl)) as [He Hm Hr Hs].
  unfold restore_leader. cbn. rewrite Hnew. cbn.
  split_and!; [done..|mlia|mlia|mlia|by destruct (last_event_at (l_stats l))| |].
  - destruct (last_slot (l_stats l)) as [s|]; [|done]. specialize (Hs s eq_refl).
    cbn. f_equal. mlia.
  - destruct (Z.ltb_spec (l_followed_at l) (l_followed_at l0)); lia.
Qed.

(** * Concrete registries *)

Definition sample_clock (n : nat) : Z := 1000 + Z.of_nat n.

Definition sample_wallet (address : text) (paused : bool) : CopyWallet :=
  mkCopyWallet address None None (S754_finite false 1 (-4)) (S754_finite false 1 (-2))
    (S754_zero false) false None 20 paused (S754_zero false) 0.

(** Follow two wallets, count, pause, then reload a configuration that keeps
    one of them (with stray white space) and adds a third. *)
Definition sample_commands : list Command :=
  [CSync [sample_wallet (lit "A") false; sample_wallet (lit "B") false];
   CNoteEvent (lit "A") 7 990; CNoteMirrored (lit "A"); CPause (lit "A") None;
   CSync [sample_wallet (lit " A ") false; sample_wallet (lit "C") true]].

Lemma sample_commands_ok : Forall command_ok sample_commands.
Proof. repeat constructor; done. Qed.

Definition sample_run : list LeaderTransition * World :=
  Eval vm_compute in run_all sample_clock sample_commands (mkWorld LeaderRegistry_new 0).

Lemma sample_run_eq :
  run_all sample_clock sample_commands (mkWorld LeaderRegistry_new 0) = sample_run.
Proof. by vm_compute. Qed.

Lemma sample_run_inv : registry_inv (reg sample_run.2).
Proof.
  rewrite <- sample_run_eq.
  exact (lg_inv _ _ _ (run_all_logs sample_clock sample_commands sample_commands_ok
    (mkWorld LeaderRegistry_new 0) registry_inv_new)).
Qed.

Definition sample_leader : Leader :=
  mkLeader (lit "A") (lit "A") Active (sample_wallet (lit "A") false) (lit "config") 1000 1004
    (mkLeaderStats 1 1 0 (Some 990) (Some 7) None).

Example sample_run_events :
  map (fun t => (t_address t, t_event t)) sample_run.1 =
    [(lit "A", EvFollowed); (lit "B", EvFollowed); (lit "A", EvPaused); (lit "A", EvResumed);
     (lit "C", EvFollowed); (lit "B", EvUnfollowed)] /\
  counts (reg sample_run.2) = (1, 1, 1)%nat.
Proof. by vm_compute. Qed.

Lemma registry_log_complete_witness :
  replay ∅ sample_run.1 (statuses (reg sample_run.2)) /\ len (reg sample_run.2) = 3%nat.
Proof.
  split; [|by vm_compute]. rewrite <- sample_run_eq.
  exact (proj1 (registry_log_complete sample_clock sample_commands 0 sample_commands_ok)).
Defined.

Lemma counters_never_lost_witness :
  let w := (run_all sample_clock (take 3 sample_commands) (mkWorld LeaderRegistry_new 0)).2 in
  registry_le (reg w) (reg (run_all sample_clock (drop 3 sample_commands) w).2).
Proof.
  refine (counters_never_lost sample_clock (take 3 sample_commands) (drop 3 sample_commands) 0 _ _);
    repeat constructor; done.
Defined.

Lemma sync_converges_witness :
  let wallets := [sample_wallet (lit "B") false; sample_wallet (lit "D") true] in
  let w' := (sync_from_config sample_clock wallets sample_run.2).2 in
  configured_as (sample_wallet (lit "B") false) (reg w') /\
  (sync_from_config sample_clock wallets w').1 = [].
Proof.
  cbv zeta.
  assert (Forall (fun r => no_nan r = true)
    [sample_wallet (lit "B") false; sample_wallet (lit "D") true]) as Hn
    by (repeat constructor; done).
  assert (NoDup (configured [sample_wallet (lit "B") false; sample_wallet (lit "D") true])) as Hd
    by (apply (bool_decide_unpack _); by vm_compute).
  destruct (sync_converges sample_clock
    [sample_wallet (lit "B") false; sample_wallet (lit "D") true] sample_run.2
    sample_run_inv Hn Hd) as (Hc & Hnil & _).
  split; [|exact Hnil]. exact (Hc (lit "B") ltac:(done)).
Defined.

Lemma restart_keeps_counters_witness :
  exists l', leaders (reg (restore (records_of 2000 (reg sample_run.2))
      (mkWorld (from_config sample_clock [sample_wallet (lit "A") true] 500) 0)).2) !! lit "A"
      = Some l' /\
    l_status l' = Paused /\ events_seen (l_stats l') = 1 /\ l_followed_at l' = 1000.
Proof.
  set (fresh := from_config sample_clock [sample_wallet (lit "A") true] 500).
  assert (leaders (reg sample_run.2) !! lit "A" = Some sample_leader) as Hl by by vm_compute.
  assert (leaders fresh !! lit "A" = Some (mkLeader (lit "A") (lit "A") Paused
    (sample_wallet (lit "A") true) (lit "config") 1500 1500 LeaderStats_default)) as Hf
    by by vm_compute.
  destruct (restart_keeps_counters (reg sample_run.2) fresh 2000 (lit "A") _ _ 0
    sample_run_inv Hl Hf eq_refl) as (l' & Hl' & Hs & _ & He & _ & _ & _ & _ & Hfo).
  exists l'. split; [exact Hl'|]. split; [exact Hs|]. split; [exact He|exact Hfo].
Defined.
