(* ===== verification/Oms.v ===== *)
(** The order ledger ([crates/core/src/oms.rs]): the order state machine, the
    bounded in-memory mirror with its idempotency index, and the operations on
    it.  The database is the environment: what it answers is an argument.
    [create] awaits between its duplicate check and its insertion, so it is
    written as the two atomic steps other tasks can run between. *)
From stdpp Require Import prelude gmap list strings pretty.
From Stdlib Require Import ZArith Lia.
From S2P Require Import Prelude.
From S2P Require Import BotCore.
From S2P Require Import Text.
From S2P Require Import Models.

#[local] Open Scope Z_scope.

(** * The state machine *)

Inductive OrderStatus : Type :=
  | Created | Validated | Queued | Submitted | Accepted | PartiallyFilled
  | Filled | Failed | Cancelled | Expired | StUnknown | Reconciled.

#[export] Instance OrderStatus_eq_dec : EqDecision OrderStatus.
Proof. solve_decision. Defined.

Definition OrderStatus_as_str (s : OrderStatus) : text :=
  match s with
  | Created => lit "created"
  | Validated => lit "validated"
  | Queued => lit "queued"
  | Submitted => lit "submitted"
  | Accepted => lit "accepted"
  | PartiallyFilled => lit "partially_filled"
  | Filled => lit "filled"
  | Failed => lit "failed"
  | Cancelled => lit "cancelled"
  | Expired => lit "expired"
  | StUnknown => lit "unknown"
  | Reconciled => lit "reconciled"
  end.

Definition OrderStatus_parse (s : text) : option OrderStatus :=
  if decide (s = lit "created") then Some Created
  else if decide (s = lit "validated") then Some Validated
  else if decide (s = lit "queued") then Some Queued
  else if decide (s = lit "submitted") then Some Submitted
  else if decide (s = lit "accepted") then Some Accepted
  else if decide (s = lit "partially_filled") then Some PartiallyFilled
  else if decide (s = lit "filled") then Some Filled
  else if decide (s = lit "failed") then Some Failed
  else if decide (s = lit "cancelled") then Some Cancelled
  else if decide (s = lit "expired") then Some Expired
  else if decide (s = lit "unknown") then Some StUnknown
  else if decide (s = lit "reconciled") then Some Reconciled
  else None.

Definition is_terminal (s : OrderStatus) : bool :=
  match s with
  | Filled | Failed | Cancelled | Expired | Reconciled => true
  | _ => false
  end.

Definition can_transition_to (s next : OrderStatus) : bool :=
  if is_terminal s then false
  else match s, next with
       | StUnknown, t => is_terminal t || bool_decide (t = Reconciled)
       | _, StUnknown => true
       | Created, (Validated | Queued | Submitted | Failed | Cancelled | Expired) => true
       | Validated, (Queued | Submitted | Failed | Cancelled | Expired) => true
       | Queued, (Submitted | Failed | Cancelled | Expired) => true
       | Submitted, (Accepted | PartiallyFilled | Filled | Failed | Cancelled | Expired) => true
       | Accepted, (PartiallyFilled | Filled | Failed | Cancelled | Expired) => true
       | PartiallyFilled, (PartiallyFilled | Filled | Failed | Cancelled | Expired) => true
       | _, Reconciled => true
       | _, _ => false
       end.

(** * Orders and the ledger *)

Section Ledger.
(** [serde_json::Value], the venue payload the ledger never looks into. *)
Context {Meta : Type}.

Record Order : Type := mkOrder {
  o_id : text;
  o_idempotency_key : text;
  o_module : BotModule;
  o_side : text;
  o_symbol : text;
  o_venue : text;
  o_mode : ExecutionMode;
  o_status : OrderStatus;
  o_qty : f64;
  o_price : option f64;
  o_external_id : option text;
  o_signature : option text;
  o_error : option text;
  o_meta : Meta;
  o_created_at : Z;
  o_updated_at : Z;
  o_submitted_at : option Z;
  o_finished_at : option Z;
}.

Record OrderDraft : Type := mkOrderDraft {
  d_idempotency_key : text;
  d_module : BotModule;
  d_side : text;
  d_symbol : text;
  d_venue : text;
  d_mode : ExecutionMode;
  d_qty : f64;
  d_price : option f64;
  d_meta : Meta;
}.

Record OrderManager : Type := mkOrderManager {
  orders : gmap text Order;
  by_idem : gmap text text;
  fifo : list text;
  cap : nat;
  id_counter : Z;                  (* AtomicU64 *)
}.

Definition OrderManager_new (cap : nat) : OrderManager :=
  mkOrderManager ∅ ∅ [] (Nat.max cap 64) 0.

(** [next_id]: [fetch_add] wraps; the id is ["ord_{millis}_{n}"]. *)
Definition order_id (millis n : Z) : text :=
  lit "ord_" ++ lit (pretty millis) ++ lit "_" ++ lit (pretty n).

Definition next_id (millis : Z) (m : OrderManager) : text * OrderManager :=
  (order_id millis m.(id_counter),
   mkOrderManager m.(orders) m.(by_idem) m.(fifo) m.(cap)
     ((m.(id_counter) + 1) mod (u64_max + 1))).

Definition get (id : text) (m : OrderManager) : option Order := m.(orders) !! id.

Definition get_by_key (key : text) (m : OrderManager) : option Order :=
  id ← m.(by_idem) !! key; get id m.

(** ** The mirror *)

Definition evictable (m : OrderManager) (id : text) : bool :=
  match m.(orders) !! id with
  | Some o => is_terminal o.(o_status)
  | None => true
  end.

(** One turn of the eviction loop: [None] is the [break] and the exit. *)
Definition evict_one (m : OrderManager) : option OrderManager :=
  if (length m.(fifo) <=? m.(cap))%nat then None
  else
    '(pos, evicted) ← list_find (fun id => evictable m id = true) m.(fifo);
    Some (mkOrderManager (delete evicted m.(orders))
            match m.(orders) !! evicted with
            | Some removed => delete removed.(o_idempotency_key) m.(by_idem)
            | None => m.(by_idem)
            end
            (delete pos m.(fifo)) m.(cap) m.(id_counter)).

(** The loop; [None] when the fuel ran out. *)
Fixpoint evict (fuel : nat) (m : OrderManager) : option OrderManager :=
  match evict_one m with
  | None => Some m
  | Some m' => match fuel with O => None | S f => evict f m' end
  end.

(** The insertion [insert_mirror] does before it evicts. *)
Definition insert_order (order : Order) (m : OrderManager) : OrderManager :=
  mkOrderManager (<[order.(o_id) := order]> m.(orders))
    (<[order.(o_idempotency_key) := order.(o_id)]> m.(by_idem))
    match m.(orders) !! order.(o_id) with
    | Some _ => m.(fifo)
    | None => m.(fifo) ++ [order.(o_id)]
    end
    m.(cap) m.(id_counter).

Definition insert_mirror (order : Order) (m : OrderManager) : OrderManager :=
  let m' := insert_order order m in
  default m' (evict (length m'.(fifo)) m').

(** ** [create] *)

(** What [insert_if_absent], and the [get_by_key] after a conflict, answer. *)
Inductive DbReply : Type :=
  | NoDatabase
  | Inserted
  | DbError
  | Conflict (existing : option Order).

(** Up to the duplicate check. *)
Definition create_check (draft : OrderDraft) (m : OrderManager) : BotResult (option Order) :=
  if Text.is_empty (trim draft.(d_idempotency_key)) then Err InvalidArgument
  else Ok (get_by_key draft.(d_idempotency_key) m).

Definition create_order (draft : OrderDraft) (id : text) (now : Z) : Order :=
  {| o_id := id;
     o_idempotency_key := draft.(d_idempotency_key);
     o_module := draft.(d_module);
     o_side := draft.(d_side);
     o_symbol := draft.(d_symbol);
     o_venue := draft.(d_venue);
     o_mode := draft.(d_mode);
     o_status := Created;
     o_qty := draft.(d_qty);
     o_price := draft.(d_price);
     o_external_id := None;
     o_signature := None;
     o_error := None;
     o_meta := draft.(d_meta);
     o_created_at := now;
     o_updated_at := now;
     o_submitted_at := None;
     o_finished_at := None |}.

(** After the database has answered. *)
Definition create_commit (order : Order) (reply : DbReply) (m : OrderManager)
    : Order * OrderManager :=
  match reply with
  | Conflict (Some existing) => (existing, insert_mirror existing m)
  | _ => (order, insert_mirror order m)
  end.

(** The two steps with nothing in between. *)
Definition create (draft : OrderDraft) (now millis : Z) (reply : DbReply) (m : OrderManager)
    : BotResult Order * OrderManager :=
  match create_check draft m with
  | Ok (Some existing) => (Ok existing, m)
  | Ok None =>
      let '(id, m') := next_id millis m in
      let '(o, m'') := create_commit (create_order draft id now) reply m' in
      (Ok o, m'')
  | Err e => (Err e, m)
  | Panic => (Panic, m)
  end.

(** ** [transition] and [attach_external] *)

Definition with_order (id : text) (o : Order) (m : OrderManager) : OrderManager :=
  mkOrderManager (<[id := o]> m.(orders)) m.(by_idem) m.(fifo) m.(cap) m.(id_counter).

Definition moved (o : Order) (to : OrderStatus) (reason : option text) (now : Z) : Order :=
  {| o_id := o.(o_id); o_idempotency_key := o.(o_idempotency_key); o_module := o.(o_module);
     o_side := o.(o_side); o_symbol := o.(o_symbol); o_venue := o.(o_venue);
     o_mode := o.(o_mode);
     o_status := to;
     o_qty := o.(o_qty); o_price := o.(o_price); o_external_id := o.(o_external_id);
     o_signature := o.(o_signature);
     o_error := match reason with
                | Some r => if decide (to = Failed) then Some r else o.(o_error)
                | None => o.(o_error)
                end;
     o_meta := o.(o_meta); o_created_at := o.(o_created_at);
     o_updated_at := now;
     o_submitted_at := if decide (to = Submitted)
                       then match o.(o_submitted_at) with None => Some now | s => s end
                       else o.(o_submitted_at);
     o_finished_at := if is_terminal to then Some now else o.(o_finished_at) |}.

Definition transition (id : text) (to : OrderStatus) (reason : option text) (now : Z)
    (m : OrderManager) : BotResult Order * OrderManager :=
  match m.(orders) !! id with
  | None => (Err NotFound, m)
  | Some o =>
      if negb (can_transition_to o.(o_status) to) then (Err InvalidArgument, m)
      else let o' := moved o to reason now in (Ok o', with_order id o' m)
  end.

Definition attached (o : Order) (external_id signature : option text) (now : Z) : Order :=
  {| o_id := o.(o_id); o_idempotency_key := o.(o_idempotency_key); o_module := o.(o_module);
     o_side := o.(o_side); o_symbol := o.(o_symbol); o_venue := o.(o_venue);
     o_mode := o.(o_mode); o_status := o.(o_status);
     o_qty := o.(o_qty); o_price := o.(o_price);
     o_external_id := match external_id with Some x => Some x | None => o.(o_external_id) end;
     o_signature := match signature with Some s => Some s | None => o.(o_signature) end;
     o_error := o.(o_error); o_meta := o.(o_meta); o_created_at := o.(o_created_at);
     o_updated_at := now;
     o_submitted_at := o.(o_submitted_at); o_finished_at := o.(o_finished_at) |}.

Definition attach_external (id : text) (external_id signature : option text) (now : Z)
    (m : OrderManager) : BotResult Order * OrderManager :=
  match m.(orders) !! id with
  | None => (Err NotFound, m)
  | Some o => let o' := attached o external_id signature now in (Ok o', with_order id o' m)
  end.

(** ** Recovery *)

(** [incomplete] without a database; the map's order is unspecified. *)
Definition incomplete (m : OrderManager) : list Order :=
  List.filter (fun o => negb (is_terminal o.(o_status))) (map snd (map_to_list m.(orders))).

Definition as_unknown (o : Order) (now : Z) : Order :=
  {| o_id := o.(o_id); o_idempotency_key := o.(o_idempotency_key); o_module := o.(o_module);
     o_side := o.(o_side); o_symbol := o.(o_symbol); o_venue := o.(o_venue);
     o_mode := o.(o_mode); o_status := StUnknown;
     o_qty := o.(o_qty); o_price := o.(o_price); o_external_id := o.(o_external_id);
     o_signature := o.(o_signature); o_error := o.(o_error); o_meta := o.(o_meta);
     o_created_at := o.(o_created_at); o_updated_at := now;
     o_submitted_at := o.(o_submitted_at); o_finished_at := o.(o_finished_at) |}.

(** [recover_from_db] on the rows [list_incomplete] returned, each with the
    time it is processed at. *)
Fixpoint recover_rows (rows : list (Order * Z)) (m : OrderManager) : nat * OrderManager :=
  match rows with
  | [] => (0%nat, m)
  | (o, now) :: rest =>
      let '(n, m') := recover_rows rest (insert_mirror (as_unknown o now) m) in
      (S n, m')
  end.

(** [reply] is [None] without a database, else what [list_incomplete] gave. *)
Definition recover_from_db (reply : option (BotResult (list (Order * Z)))) (m : OrderManager)
    : BotResult nat * OrderManager :=
  match reply with
  | None => (Ok 0%nat, m)
  | Some (Ok rows) => let '(n, m') := recover_rows rows m in (Ok n, m')
  | Some (Err e) => (Err e, m)
  | Some Panic => (Panic, m)
  end.
End Ledger.
