(* ===== verification/OmsCorrect.v ===== *)
(** Correctness of the order ledger: the state machine ends, the indexes stay
    consistent under any interleaving of tasks, live orders are never evicted,
    one order per intent when creates do not interleave, and what goes wrong
    when they do. *)
From stdpp Require Import prelude gmap list strings pretty relations.
From Stdlib Require Import ZArith Lia SpecFloat.
From S2P Require Import Prelude.
From S2P Require Import BotCore.
From S2P Require Import Text.
From S2P Require Import Models.
From S2P Require Import Oms.

#[local] Open Scope Z_scope.

(** * The state machine *)

(** Progress through the lifecycle. *)
Definition rank (s : OrderStatus) : nat :=
  match s with
  | Created => 0
  | Validated => 1
  | Queued => 2
  | Submitted => 3
  | Accepted => 4
  | PartiallyFilled => 5
  | StUnknown => 6
  | _ => 7
  end%nat.

Definition all_statuses : list OrderStatus :=
  [Created; Validated; Queued; Submitted; Accepted; PartiallyFilled; Filled; Failed; Cancelled;
   Expired; StUnknown; Reconciled].

Section Correct.
Context {Meta : Type}.
Abbreviation Order := (@Order Meta).
Abbreviation OrderManager := (@OrderManager Meta).
Implicit Types (o : Order) (m : OrderManager).

Definition live (o : Order) : Prop := is_terminal o.(o_status) = false.

(** * The ledger's invariant *)

Record ledger_inv (m : OrderManager) : Prop := {
  li_id id o : m.(orders) !! id = Some o -> o.(o_id) = id;
  li_nodup : NoDup m.(fifo);
  li_fifo id : id ∈ m.(fifo) <-> is_Some (m.(orders) !! id);
  li_idem k id : m.(by_idem) !! k = Some id ->
    exists o, m.(orders) !! id = Some o /\ o.(o_idempotency_key) = k;
}.

(** Every held order is the one its key leads to. *)
Definition keys_unique (m : OrderManager) : Prop :=
  forall id o, m.(orders) !! id = Some o -> m.(by_idem) !! o.(o_idempotency_key) = Some id.

(** An order with a known id carries the key it always had. *)
Definition same_key (o : Order) (m : OrderManager) : Prop :=
  forall o0, m.(orders) !! o.(o_id) = Some o0 -> o0.(o_idempotency_key) = o.(o_idempotency_key).

Lemma ledger_inv_new cap : ledger_inv (OrderManager_new cap).
Proof.
  split; cbn; try (intros *; by rewrite lookup_empty).
  - constructor.
  - intros id. rewrite lookup_empty. split; [by intros ?%elem_of_nil|by intros [? ?]].
Qed.

(** ** Eviction *)

Lemma evict_one_Some m m' :
  evict_one m = Some m' ->
  exists pos id, m.(fifo) !! pos = Some id /\ evictable m id = true /\
    (m.(cap) < length m.(fifo))%nat /\
    m' = mkOrderManager (delete id m.(orders))
           match m.(orders) !! id with
           | Some r => delete r.(o_idempotency_key) m.(by_idem)
           | None => m.(by_idem)
           end (delete pos m.(fifo)) m.(cap) m.(id_counter).
Proof.
  unfold evict_one. destruct (Nat.leb_spec (length (fifo m)) (cap m)); [done|].
  destruct (list_find _ _) as [[pos id]|] eqn:Hf; cbn; [|done]. intros [= <-].
  apply list_find_Some in Hf as (Hpos & He & _). by exists pos, id.
Qed.

Lemma evict_one_fifo m m' :
  evict_one m = Some m' -> length m.(fifo) = S (length m'.(fifo)).
Proof.
  intros (pos & id & Hpos & _ & _ & ->)%evict_one_Some. cbn.
  by rewrite (Permutation_length (delete_Permutation _ _ _ Hpos)).
Qed.

Lemma evict_enough fuel m : (length m.(fifo) <= fuel)%nat -> exists m', evict fuel m = Some m'.
Proof.
  revert m. induction fuel as [|fuel IH]; intros m Hf; cbn;
    (destruct (evict_one m) as [m'|] eqn:He; [|by eexists]).
  - apply evict_one_fifo in He. lia.
  - apply IH. apply evict_one_fifo in He. lia.
Qed.

(** What every eviction keeps, the loop keeps; and it ends at an exit. *)
Lemma evict_ind (P : OrderManager -> Prop) fuel m m' :
  (forall m1 m2, evict_one m1 = Some m2 -> P m1 -> P m2) ->
  evict fuel m = Some m' -> P m -> P m' /\ evict_one m' = None.
Proof.
  intros Hstep. revert m. induction fuel as [|fuel IH]; intros m; cbn;
    destruct (evict_one m) as [m1|] eqn:He; try done.
  - by intros [= <-] ?.
  - intros Hev HP. by eapply IH; [|eapply Hstep].
  - by intros [= <-] ?.
Qed.

Lemma insert_mirror_ind (P : OrderManager -> Prop) o m :
  (forall m1 m2, evict_one m1 = Some m2 -> P m1 -> P m2) ->
  P (insert_order o m) -> P (insert_mirror o m) /\ evict_one (insert_mirror o m) = None.
Proof.
  intros Hstep HP. unfold insert_mirror. set (m1 := insert_order o m) in *. cbv zeta.
  destruct (evict_enough (length (fifo m1)) m1) as [m2 Hm2]; [done|].
  rewrite Hm2. cbn. by eapply evict_ind.
Qed.

Lemma evict_one_inv m m' : evict_one m = Some m' -> ledger_inv m -> ledger_inv m'.
Proof.
  intros (pos & id & Hpos & _ & _ & ->)%evict_one_Some [Hid Hnd Hff Hidem].
  pose proof (delete_Permutation _ _ _ Hpos) as Hp.
  pose proof (fun x => elem_of_Permutation_proper x _ _ Hp) as Hel.
  rewrite Hp in Hnd. apply NoDup_cons in Hnd as [Hnin Hnd].
  assert (is_Some (orders m !! id)) as [r Hr] by (apply Hff; by eapply list_elem_of_lookup_2).
  rewrite Hr. split; cbn.
  - intros id' o [_ ?]%lookup_delete_Some. by apply Hid.
  - done.
  - intros id'. rewrite lookup_delete_is_Some, <- Hff, Hel, elem_of_cons.
    split; [|by intros [? [->|?]]]. intros Hin. split; [by intros ->|by right].
  - intros k id' [Hk Hb]%lookup_delete_Some. destruct (Hidem _ _ Hb) as (o & Ho & Hko).
    exists o. split; [|done]. apply lookup_delete_Some. split; [|done].
    intros ->. congruence.
Qed.

Lemma evict_one_unique m m' :
  evict_one m = Some m' -> ledger_inv m -> keys_unique m -> keys_unique m'.
Proof.
  intros (pos & id & Hpos & _ & _ & ->)%evict_one_Some Hi Hu id' o.
  cbn. intros [Hne Ho]%lookup_delete_Some. assert (is_Some (orders m !! id)) as [r Hr]
    by (apply Hi; by eapply list_elem_of_lookup_2).
  rewrite Hr. apply lookup_delete_Some. split; [|by apply Hu].
  intros Heq. pose proof (Hu _ _ Hr). pose proof (Hu _ _ Ho). congruence.
Qed.

Lemma evict_one_live m m' id o :
  evict_one m = Some m' -> live o -> m.(orders) !! id = Some o -> m'.(orders) !! id = Some o.
Proof.
  intros (pos & x & _ & He & _ & ->)%evict_one_Some Hl Ho. cbn.
  apply lookup_delete_Some. split; [|done]. intros ->. unfold evictable in He.
  rewrite Ho in He. unfold live in Hl. congruence.
Qed.

Lemma evict_one_subset m m' : evict_one m = Some m' -> m'.(orders) ⊆ m.(orders).
Proof. intros (pos & x & _ & _ & _ & ->)%evict_one_Some. cbn. apply delete_subseteq. Qed.

(** Why the loop stopped: under the bound, or nothing left to evict. *)
Lemma evict_one_None m :
  ledger_inv m -> evict_one m = None ->
  (length m.(fifo) <= m.(cap))%nat \/ forall id o, m.(orders) !! id = Some o -> live o.
Proof.
  intros Hi. unfold evict_one. destruct (Nat.leb_spec (length (fifo m)) (cap m)); [by left|].
  destruct (list_find _ _) as [[pos id]|] eqn:Hf; cbn; [done|]. intros _. right.
  intros id o Ho. apply list_find_None in Hf. rewrite Forall_forall in Hf.
  assert (id ∈ fifo m) as Hin by (apply Hi; by exists o).
  specialize (Hf id Hin). unfold evictable in Hf. rewrite Ho in Hf.
  unfold live. by destruct (is_terminal (o_status o)).
Qed.

(** ** Insertion *)

Lemma insert_order_inv o m : ledger_inv m -> same_key o m -> ledger_inv (insert_order o m).
Proof.
  intros [Hid Hnd Hff Hidem] Hk. split; cbn.
  - intros id o1 [[<- <-]|[_ ?]]%lookup_insert_Some; [done|by apply Hid].
  - destruct (orders m !! o_id o) eqn:Ho; [done|]. apply NoDup_app.
    split_and!; [done| |apply NoDup_singleton].
    intros x Hx ->%list_elem_of_singleton. apply Hff in Hx as [? ?]. congruence.
  - intros id. rewrite lookup_insert_is_Some'. destruct (orders m !! o_id o) as [o0|] eqn:Ho.
    + rewrite Hff. split; [by right|]. intros [<-|?]; [by exists o0|done].
    + rewrite elem_of_app, list_elem_of_singleton, Hff. split; intros [?|?]; auto.
  - intros k id [[<- <-]|[Hne Hb]]%lookup_insert_Some.
    + exists o. by rewrite lookup_insert_eq.
    + destruct (Hidem _ _ Hb) as (o1 & Ho1 & Hk1). exists o1. split; [|done].
      rewrite lookup_insert_ne; [done|]. intros Heq. subst id. apply Hne.
      by rewrite <- Hk1, (Hk _ Ho1).
Qed.

Lemma insert_order_unique o m :
  ledger_inv m -> keys_unique m -> same_key o m ->
  (m.(by_idem) !! o.(o_idempotency_key) = None \/
   m.(by_idem) !! o.(o_idempotency_key) = Some o.(o_id)) ->
  keys_unique (insert_order o m).
Proof.
  intros Hi Hu Hk Hnew id o1. cbn. intros [[<- <-]|[Hne Ho1]]%lookup_insert_Some;
    [by rewrite lookup_insert_eq|].
  rewrite lookup_insert_ne; [by apply Hu|]. intros Heq. pose proof (Hu _ _ Ho1) as H1.
  rewrite <- Heq in H1. destruct Hnew; congruence.
Qed.

(** The mirror after an insertion: consistent, every live order of before (and
    the new one if live) kept as it was, nothing made up, and within the bound
    unless every order held is live. *)
Record inserted (o : Order) (m m' : OrderManager) : Prop := {
  ins_inv : ledger_inv m';
  ins_live id o1 : (insert_order o m).(orders) !! id = Some o1 -> live o1 ->
    m'.(orders) !! id = Some o1;
  ins_subset : m'.(orders) ⊆ (insert_order o m).(orders);
  ins_bound : (length m'.(fifo) <= m'.(cap))%nat \/
    forall id o1, m'.(orders) !! id = Some o1 -> live o1;
}.

Lemma insert_mirror_inserted o m :
  ledger_inv m -> same_key o m -> inserted o m (insert_mirror o m).
Proof.
  intros Hi Hk. pose proof (insert_order_inv o m Hi Hk) as Hi1.
  destruct (insert_mirror_ind (fun m' => ledger_inv m' /\
    (forall id o1, (insert_order o m).(orders) !! id = Some o1 -> live o1 ->
       m'.(orders) !! id = Some o1) /\
    m'.(orders) ⊆ (insert_order o m).(orders)) o m) as [(H1 & H2 & H3) Hend].
  - intros m1 m2 He (J1 & J2 & J3). split_and!.
    + by eapply evict_one_inv.
    + intros id o1 Ho Hl. eapply evict_one_live; eauto.
    + etransitivity; [by eapply evict_one_subset|done].
  - done.
  - split; [done..|]. by apply evict_one_None.
Qed.

Lemma insert_mirror_unique o m :
  ledger_inv m -> keys_unique m -> same_key o m ->
  (m.(by_idem) !! o.(o_idempotency_key) = None \/
   m.(by_idem) !! o.(o_idempotency_key) = Some o.(o_id)) ->
  keys_unique (insert_mirror o m).
Proof.
  intros Hi Hu Hk Hnew.
  apply (insert_mirror_ind (fun m' => ledger_inv m' /\ keys_unique m')).
  - intros m1 m2 He [? ?]. split; [by eapply evict_one_inv|by eapply evict_one_unique].
  - split; [by apply insert_order_inv|by apply insert_order_unique].
Qed.

(** Rewriting an order in place, its id and key unchanged. *)
Lemma with_order_inv id o o' m :
  ledger_inv m -> m.(orders) !! id = Some o -> o'.(o_id) = o.(o_id) ->
  o'.(o_idempotency_key) = o.(o_idempotency_key) -> ledger_inv (with_order id o' m).
Proof.
  intros [Hid Hnd Hff Hidem] Ho Hido Hko. split; cbn; [|done| |].
  - intros id1 o1 [[<- <-]|[_ ?]]%lookup_insert_Some; [rewrite Hido|]; by apply Hid.
  - intros id1. rewrite Hff, lookup_insert_is_Some'. split; [by right|].
    intros [<-|?]; [by exists o|done].
  - intros k id1 Hb. destruct (Hidem _ _ Hb) as (o1 & Ho1 & Hk1).
    destruct (decide (id = id1)) as [<-|Hne].
    + exists o'. rewrite lookup_insert_eq. split; [done|]. congruence.
    + exists o1. by rewrite lookup_insert_ne.
Qed.

Lemma with_order_unique id o o' m :
  keys_unique m -> m.(orders) !! id = Some o ->
  o'.(o_idempotency_key) = o.(o_idempotency_key) -> keys_unique (with_order id o' m).
Proof.
  intros Hu Ho Hk id1 o1. cbn. intros [[<- <-]|[_ H1]]%lookup_insert_Some; [|by apply Hu].
  rewrite Hk. by apply Hu.
Qed.

(** * Tasks interleaving *)

(** The ledger and the creates that have passed their duplicate check but not
    yet reached their insertion. *)
Record System : Type := mkSystem {
  ledger : OrderManager;
  pending : list Order;
}.

(** What the environment promises of one commit: an id just made is new; a row
    the database returns for the key carries that key, and has always done. *)
Definition reply_ok (o : Order) (reply : @DbReply Meta) (m : OrderManager) : Prop :=
  match reply with
  | Conflict (Some existing) =>
      existing.(o_idempotency_key) = o.(o_idempotency_key) /\ same_key existing m
  | _ => m.(orders) !! o.(o_id) = None
  end.

(** The row a commit writes over the mirror, if the database returned one. *)
Definition row_of (reply : @DbReply Meta) : option Order :=
  match reply with Conflict existing => existing | _ => None end.

(** One atomic step of some task, labelled with the database row it writes. *)
Inductive step : option Order -> System -> System -> Prop :=
  | step_check d id now millis m m' p :
      create_check d m = Ok None -> next_id millis m = (id, m') ->
      step None (mkSystem m p) (mkSystem m' (create_order d id now :: p))
  | step_commit o reply m p1 p2 :
      reply_ok o reply m ->
      step (row_of reply) (mkSystem m (p1 ++ o :: p2))
        (mkSystem (create_commit o reply m).2 (p1 ++ p2))
  | step_transition id to reason now m p :
      step None (mkSystem m p) (mkSystem (transition id to reason now m).2 p)
  | step_attach id ext sig now m p :
      step None (mkSystem m p) (mkSystem (attach_external id ext sig now m).2 p).

Inductive reachable (cap : nat) : System -> Prop :=
  | reach_start : reachable cap (mkSystem (OrderManager_new cap) [])
  | reach_step row s s' : reachable cap s -> step row s s' -> reachable cap s'.

(** What one step may do to an order that is held: evict it when it is
    terminal (or the database's row of it is), move it along the state machine,
    note identifiers, or overwrite it with the database row of the same id. *)
Definition order_step (row : option Order) (o : Order) (after : option Order) : Prop :=
  match after with
  | None =>
      is_terminal o.(o_status) = true \/
      exists r, row = Some r /\ r.(o_id) = o.(o_id) /\ is_terminal r.(o_status) = true
  | Some o' =>
      o'.(o_idempotency_key) = o.(o_idempotency_key) /\
      (o' = o \/ o'.(o_status) = o.(o_status) \/
       can_transition_to o.(o_status) o'.(o_status) = true \/ row = Some o')
  end.

Lemma ledger_inv_counter m n :
  ledger_inv m -> ledger_inv (mkOrderManager m.(orders) m.(by_idem) m.(fifo) m.(cap) n).
Proof. by intros [????]. Qed.

Lemma committed o reply m :
  ledger_inv m -> reply_ok o reply m ->
  let r := match row_of reply with Some e => e | None => o end in
  same_key r m /\ r.(o_idempotency_key) = o.(o_idempotency_key) /\
  create_commit o reply m = (r, insert_mirror r m) /\
  (row_of reply = Some r \/ m.(orders) !! r.(o_id) = None).
Proof.
  intros Hi Hr. cbv zeta. destruct reply as [| | |[e|]]; cbn in *;
    try (split_and!; [intros o0 Ho0; congruence|done|done|by right]).
  destruct Hr as [Hk Hs]. split_and!; [done|done|done|by left].
Qed.

Lemma insert_mirror_order_step row o m id o0 :
  ledger_inv m -> same_key o m -> (row = Some o \/ m.(orders) !! o.(o_id) = None) ->
  m.(orders) !! id = Some o0 ->
  order_step row o0 ((insert_mirror o m).(orders) !! id).
Proof.
  intros Hi Hk Hrow Ho0. destruct (insert_mirror_inserted o m Hi Hk) as [_ Hlive Hsub _].
  destruct ((insert_mirror o m).(orders) !! id) as [o1|] eqn:Ho1; cbn.
  - eapply lookup_weaken in Ho1; [|done]. cbn in Ho1.
    apply lookup_insert_Some in Ho1 as [[<- <-]|[_ Ho1]].
    + split; [symmetry; by apply Hk|]. destruct Hrow as [->|?]; [auto|congruence].
    + assert (o1 = o0) as -> by congruence. auto.
  - destruct (is_terminal (o_status o0)) eqn:Ht; [by left|].
    destruct (decide (o_id o = id)) as [<-|Hne].
    + destruct Hrow as [->|?]; [|congruence]. right. exists o. split; [done|].
      split; [by rewrite (li_id _ Hi _ _ Ho0)|].
      destruct (is_terminal (o_status o)) eqn:Hto; [done|].
      rewrite (Hlive (o_id o) o) in Ho1; [done| |done]. cbn. by rewrite lookup_insert_eq.
    + rewrite (Hlive id o0) in Ho1; [done| |done]. cbn. by rewrite lookup_insert_ne.
Qed.

(** The two in-place operations, as one. *)
Lemma in_place m m' id o o' :
  ledger_inv m -> m.(orders) !! id = Some o -> m' = with_order id o' m ->
  o'.(o_id) = o.(o_id) -> o'.(o_idempotency_key) = o.(o_idempotency_key) ->
  (o'.(o_status) = o.(o_status) \/ can_transition_to o.(o_status) o'.(o_status) = true) ->
  ledger_inv m' /\ (keys_unique m -> keys_unique m') /\
  forall id1 o1, m.(orders) !! id1 = Some o1 -> order_step None o1 (m'.(orders) !! id1).
Proof.
  intros Hi Ho -> Hid Hk Hs. split_and!; [by eapply with_order_inv| |].
  - intros Hu. by eapply with_order_unique.
  - intros id1 o1 Ho1. cbn. destruct (decide (id = id1)) as [<-|Hne].
    + rewrite lookup_insert_eq. assert (o1 = o) as -> by congruence. split; [done|].
      destruct Hs; auto.
    + rewrite lookup_insert_ne, Ho1 by done. split; auto.
Qed.

Lemma unchanged_order_step row m id o :
  m.(orders) !! id = Some o -> order_step row o (m.(orders) !! id).
Proof. intros ->. split; auto. Qed.

Lemma transition_in_place id to reason now m :
  ledger_inv m ->
  let m' := (transition id to reason now m).2 in
  ledger_inv m' /\ (keys_unique m -> keys_unique m') /\
  forall id1 o1, m.(orders) !! id1 = Some o1 -> order_step None o1 (m'.(orders) !! id1).
Proof.
  intros Hi. unfold transition. destruct (orders m !! id) as [o|] eqn:Ho;
    [destruct (can_transition_to (o_status o) to) eqn:Hc; cbn [negb snd]|].
  - eapply in_place; eauto.
  - split_and!; eauto using unchanged_order_step.
  - split_and!; eauto using unchanged_order_step.
Qed.

Lemma attach_in_place id ext sig now m :
  ledger_inv m ->
  let m' := (attach_external id ext sig now m).2 in
  ledger_inv m' /\ (keys_unique m -> keys_unique m') /\
  forall id1 o1, m.(orders) !! id1 = Some o1 -> order_step None o1 (m'.(orders) !! id1).
Proof.
  intros Hi. unfold attach_external. destruct (orders m !! id) as [o|] eqn:Ho; cbn [snd].
  - eapply in_place; eauto.
  - split_and!; eauto using unchanged_order_step.
Qed.

Lemma step_effect row s s' :
  step row s s' -> ledger_inv s.(ledger) ->
  ledger_inv s'.(ledger) /\
  forall id o, s.(ledger).(orders) !! id = Some o ->
    order_step row o (s'.(ledger).(orders) !! id).
Proof.
  intros Hs Hi. destruct Hs as [d id now millis m m' p Hc Hn|o reply m p1 p2 Hr
    |id to reason now m p|id ext sig now m p]; cbn [ledger] in *.
  - unfold next_id in Hn. injection Hn as _ <-. split; [by apply ledger_inv_counter|].
    intros id1 o1. apply unchanged_order_step.
  - destruct (committed o reply m Hi Hr) as (Hsame & _ & -> & Hrow). split.
    + by apply ins_inv with (m := m) (o := match row_of reply with Some e => e | None => o end),
        insert_mirror_inserted.
    + intros id o0 Ho0. by apply insert_mirror_order_step.
  - split; by apply transition_in_place.
  - split; by apply attach_in_place.
Qed.

Lemma reachable_inv n s : reachable n s -> ledger_inv s.(ledger).
Proof. induction 1 as [|row s s' _ IH Hs]; [apply ledger_inv_new|by eapply step_effect]. Qed.

(** * Creates that do not interleave *)

Definition reply_for (d : @OrderDraft Meta) (now millis : Z) (reply : DbReply) (m : OrderManager) : Prop :=
  reply_ok (create_order d (next_id millis m).1 now) reply m.

Inductive atomic_step : OrderManager -> OrderManager -> Prop :=
  | atomic_create d now millis reply m :
      reply_for d now millis reply m -> atomic_step m (create d now millis reply m).2
  | atomic_transition id to reason now m : atomic_step m (transition id to reason now m).2
  | atomic_attach id ext sig now m : atomic_step m (attach_external id ext sig now m).2.

Lemma get_by_key_None m k : ledger_inv m -> get_by_key k m = None -> m.(by_idem) !! k = None.
Proof.
  intros Hi. unfold get_by_key, get. destruct (by_idem m !! k) as [id|] eqn:Hk; [|done].
  destruct (li_idem _ Hi _ _ Hk) as (o & Ho & _). cbn. by rewrite Ho.
Qed.

Lemma atomic_step_inv m m' :
  atomic_step m m' -> ledger_inv m -> keys_unique m -> ledger_inv m' /\ keys_unique m'.
Proof.
  intros Hs Hi Hu. destruct Hs as [d now millis reply m Hr|id to reason now m|id ext sig now m].
  - unfold create. destruct (create_check d m) as [[o|]| |] eqn:Hc; [done| |done|done].
    unfold reply_for in Hr. cbn [next_id fst] in Hr. cbn [next_id].
    set (o := create_order d _ now) in *.
    set (m1 := mkOrderManager (orders m) (by_idem m) (fifo m) (cap m) _) in *.
    assert (ledger_inv m1) as Hi1 by by apply ledger_inv_counter.
    destruct (committed o reply m1 Hi1 Hr) as (Hsame & Hk & -> & _).
    set (r := match row_of reply with Some e => e | None => o end) in *. cbn [snd]. split.
    + by apply ins_inv with (m := m1) (o := r), insert_mirror_inserted.
    + apply insert_mirror_unique; [done..|]. left. rewrite Hk. cbn.
      unfold create_check in Hc. destruct (Text.is_empty _); [done|].
      injection Hc as Hc. by apply get_by_key_None.
  - destruct (transition_in_place id to reason now m Hi) as (? & Hk & _). auto.
  - destruct (attach_in_place id ext sig now m Hi) as (? & Hk & _). auto.
Qed.

Lemma atomic_run_inv n m :
  rtc atomic_step (OrderManager_new n) m -> ledger_inv m /\ keys_unique m.
Proof.
  set (m0 := OrderManager_new n : OrderManager). intros Hr.
  assert (ledger_inv m0 /\ keys_unique m0) as H0.
  { split; [apply ledger_inv_new|]. intros id o. cbn. by rewrite lookup_empty. }
  clearbody m0. revert H0. induction Hr as [|m1 m2 m3 Hs _ IH]; [done|]. intros [? ?]. apply IH.
  by eapply atomic_step_inv.
Qed.

(** * Recovery *)

(** Neither the id nor the key of the order is in use. *)
Definition unused (m : OrderManager) (o : Order) : Prop :=
  m.(orders) !! o.(o_id) = None /\ m.(by_idem) !! o.(o_idempotency_key) = None.

Lemma insert_mirror_unused o m o' :
  ledger_inv m -> keys_unique m -> unused m o -> unused m o' ->
  o'.(o_id) <> o.(o_id) -> o'.(o_idempotency_key) <> o.(o_idempotency_key) ->
  unused (insert_mirror o m) o'.
Proof.
  intros Hi Hu [Ho Hk] [Ho' Hk'] Hid Hkey.
  assert (same_key o m) as Hs by (intros o0 ?; congruence).
  destruct (insert_mirror_inserted o m Hi Hs) as [Hi' _ Hsub _].
  assert (forall id x, (insert_mirror o m).(orders) !! id = Some x ->
    x = o /\ id = o_id o \/ m.(orders) !! id = Some x) as Hfrom.
  { intros id x Hx. eapply lookup_weaken in Hx; [|done]. cbn in Hx.
    apply lookup_insert_Some in Hx as [[<- <-]|[_ ?]]; auto. }
  split.
  - destruct (orders (insert_mirror o m) !! o_id o') as [x|] eqn:Hx; [|done].
    destruct (Hfrom _ _ Hx) as [[_ ?]|?]; congruence.
  - destruct (by_idem (insert_mirror o m) !! _) as [id|] eqn:Hb; [|done].
    destruct (li_idem _ Hi' _ _ Hb) as (x & Hx & Hkx).
    destruct (Hfrom _ _ Hx) as [[-> _]|Hm]; [congruence|].
    pose proof (Hu _ _ Hm). congruence.
Qed.

Lemma recover_rows_spec rows m :
  ledger_inv m -> keys_unique m ->
  (forall o now, (o, now) ∈ rows -> unused m o) ->
  NoDup (map (fun r => o_id r.1) rows) ->
  NoDup (map (fun r => o_idempotency_key r.1) rows) ->
  let '(n, m') := recover_rows rows m in
  n = length rows /\ ledger_inv m' /\ keys_unique m' /\
  (forall id o, m.(orders) !! id = Some o -> live o -> m'.(orders) !! id = Some o) /\
  (forall o now, (o, now) ∈ rows -> m'.(orders) !! o.(o_id) = Some (as_unknown o now)).
Proof.
  revert m. induction rows as [|[o now] rows IH]; intros m Hi Hu Hun Hnid Hnk; cbn [recover_rows].
  { split_and!; [done..|]. by intros ? ? ?%elem_of_nil. }
  cbn [map fst] in Hnid, Hnk. apply NoDup_cons in Hnid as [Hid Hnid].
  apply NoDup_cons in Hnk as [Hk Hnk].
  set (u := as_unknown o now). pose proof (Hun o now ltac:(by left)) as Huo.
  assert (same_key u m) as Hs by (intros o0 Ho0; destruct Huo; cbn in *; congruence).
  destruct (insert_mirror_inserted u m Hi Hs) as [Hi1 Hlive _ _].
  assert (keys_unique (insert_mirror u m)) as Hu1
    by (apply insert_mirror_unique; [done..|left; apply Huo]).
  specialize (IH (insert_mirror u m) Hi1 Hu1).
  destruct (recover_rows rows (insert_mirror u m)) as [n m'].
  destruct IH as (-> & Hi' & Hu' & Hkeep & Hrows); [| done..|].
  { intros o1 now1 H1. apply insert_mirror_unused; [done..|by eapply Hun; right| |].
    - intros Heq. apply Hid. apply list_elem_of_fmap. by exists (o1, now1).
    - intros Heq. apply Hk. apply list_elem_of_fmap. by exists (o1, now1). }
  split_and!; [done..| |].
  - intros id o1 Ho1 Hl. apply Hkeep; [|done]. apply Hlive; [|done]. cbn.
    rewrite lookup_insert_ne; [done|]. intros <-. destruct Huo. cbn in *. congruence.
  - intros o1 now1 [[= -> ->]|H1]%elem_of_cons; [|by apply Hrows].
    apply Hkeep; [|done]. apply (Hlive (o_id o) u); [|done]. cbn. by rewrite lookup_insert_eq.
Qed.

(** * Properties *)

(** the lifecycle ends: nothing leaves a terminal status, every other move
    is forward except a repeated partial fill, an order that has not ended can
    always be failed, and the stored label of a status reads back as it. *)
Theorem lifecycle_ends s t :
  (is_terminal s = true -> can_transition_to s t = false) /\
  (can_transition_to s t = true ->
     (rank s < rank t)%nat \/ s = PartiallyFilled /\ t = PartiallyFilled) /\
  (is_terminal s = false -> can_transition_to s Failed = true) /\
  OrderStatus_parse (OrderStatus_as_str s) = Some s.
Proof. destruct s, t; cbn [rank]; split_and!; try done; vm_compute; auto; try lia. Qed.

(** however the tasks interleave, the ledger's three indexes agree: the
    queue lists every held order once, an order sits under its id, and a key
    only ever leads to a held order that carries it. *)
Theorem ledger_consistent n s (Hr : reachable n s) :
  let m := ledger s in
  NoDup (fifo m) /\
  (forall id, id ∈ fifo m <-> is_Some (get id m)) /\
  (forall id o, get id m = Some o -> o_id o = id) /\
  (forall k o, get_by_key k m = Some o -> o_idempotency_key o = k /\ get (o_id o) m = Some o).
Proof.
  destruct (reachable_inv n s Hr) as [Hid Hnd Hff Hidem]. cbv zeta. split_and!; try done.
  unfold get_by_key, get. intros k o. destruct (by_idem (ledger s) !! k) as [id|] eqn:Hk; [|done].
  cbn. intros Ho. destruct (Hidem _ _ Hk) as (o1 & Ho1 & Hk1).
  assert (o1 = o) as -> by congruence. by rewrite (Hid _ _ Ho).
Qed.

(** no step of any task loses or rewinds an order, except where the
    database's row of it is written over the mirror: a live order is never
    evicted, its key never changes, and its status only moves as the state
    machine allows. *)
Theorem order_history n s row s' id o
  (Hr : reachable n s) (Hs : step row s s') (Ho : get id (ledger s) = Some o) :
  order_step row o (get id (ledger s')).
Proof. by apply (step_effect _ _ _ Hs (reachable_inv n s Hr)). Qed.

(** C37: as long as creates run one at a time, there is at most one held order
    per idempotency key, and a create that repeats the key of a held order
    returns that order and changes nothing. *)
Theorem one_order_per_key n m id o
  (Hr : rtc atomic_step (OrderManager_new n) m) (Ho : get id m = Some o) :
  (forall id' o', get id' m = Some o' ->
     o_idempotency_key o' = o_idempotency_key o -> id' = id) /\
  (forall d now millis reply,
     d_idempotency_key d = o_idempotency_key o -> trim (d_idempotency_key d) <> [] ->
     create d now millis reply m = (Ok o, m)).
Proof.
  destruct (atomic_run_inv n m Hr) as [Hi Hu]. unfold get in *. split.
  - intros id' o' Ho' Hk. pose proof (Hu _ _ Ho) as H1. pose proof (Hu _ _ Ho') as H2.
    rewrite Hk in H2. congruence.
  - intros d now millis reply Hk Hne. unfold create, create_check.
    destruct (Text.is_empty (trim (d_idempotency_key d))) eqn:He; [by destruct (trim _)|].
    unfold get_by_key, get. rewrite Hk, (Hu _ _ Ho). cbn. by rewrite Ho.
Qed.

(** Recording an order in a consistent ledger keeps it consistent, keeps
    every live order and invents none, and ends within the bound or with
    nothing but live orders. *)
Theorem mirror_bounded o m (Hi : ledger_inv m) (Hs : same_key o m) :
  inserted o m (insert_mirror o m).
Proof. by apply insert_mirror_inserted. Qed.

(** recovery into a fresh ledger loses no incomplete order, however many
    there are: each is held with status unknown, and found under its key. *)
Theorem recover_complete n rows
  (Hids : NoDup (map (fun r => o_id r.1) rows))
  (Hkeys : NoDup (map (fun r => o_idempotency_key r.1) rows)) :
  let '(r, m) := recover_from_db (Some (Ok rows)) (OrderManager_new n) in
  r = Ok (length rows) /\
  forall o now, (o, now) ∈ rows ->
    get (o_id o) m = Some (as_unknown o now) /\
    get_by_key (o_idempotency_key o) m = Some (as_unknown o now).
Proof.
  set (m0 := OrderManager_new n : OrderManager).
  assert (keys_unique m0) as Hu0 by (intros id o; cbn; by rewrite lookup_empty).
  pose proof (recover_rows_spec rows m0 (ledger_inv_new n) Hu0) as H.
  cbn [recover_from_db]. destruct (recover_rows rows m0) as [c m].
  destruct H as (-> & Hi & Hu & _ & Hrows); [by intros; split; cbn; rewrite lookup_empty|done..|].
  split; [done|]. intros o now Hin. pose proof (Hrows _ _ Hin) as Ho.
  split; [done|]. unfold get_by_key, get.
  pose proof (Hu _ _ Ho) as Hb. cbn in Hb. rewrite Hb. cbn. exact Ho.
Qed.
End Correct.

(** * Concrete ledgers *)

Definition sample_draft (key : text) : @OrderDraft unit :=
  mkOrderDraft key Sniper (lit "buy") (lit "TOKEN") (lit "pumpfun") Paper (S754_zero false) None tt.

Definition empty_ledger : @OrderManager unit := OrderManager_new 64.

(** Two tasks with the same intent, both past the duplicate check. *)
Definition first_order : @Order unit :=
  create_order (sample_draft (lit "k")) (order_id 100 0) 100.
Definition second_order : @Order unit :=
  create_order (sample_draft (lit "k")) (order_id 101 1) 101.
Definition racing : System :=
  mkSystem (next_id 101 (next_id 100 empty_ledger).2).2 [second_order; first_order].

Lemma racing_reachable : reachable 64 racing.
Proof.
  apply (reach_step 64 None (mkSystem (next_id 100 empty_ledger).2 [first_order])).
  - apply (reach_step 64 None (mkSystem empty_ledger [])); [apply reach_start|].
    by apply (step_check (sample_draft (lit "k")) (order_id 100 0) 100 100).
  - by apply (step_check (sample_draft (lit "k")) (order_id 101 1) 101 101).
Qed.

(** The first task records its order. *)
Definition one_committed : System :=
  mkSystem (create_commit first_order Inserted (ledger racing)).2 [second_order].

Lemma one_committed_step : step None racing one_committed.
Proof. by apply (step_commit first_order Inserted (ledger racing) [second_order] []). Qed.

Lemma one_committed_reachable : reachable 64 one_committed.
Proof. exact (reach_step 64 None racing one_committed racing_reachable one_committed_step). Qed.

(** ... and without a database so does the second. *)
Definition both_committed : System :=
  mkSystem (create_commit second_order NoDatabase (ledger one_committed)).2 [].

(** Two creates of one intent that interleave leave two live orders for its
    key when no database arbitrates. *)
Theorem racing_creates_duplicate :
  reachable 64 both_committed /\
  (exists o1 o2, get (order_id 100 0) (ledger both_committed) = Some o1 /\
     get (order_id 101 1) (ledger both_committed) = Some o2 /\
     o_idempotency_key o1 = o_idempotency_key o2 /\ live o1 /\ live o2) /\
  order_id 100 0 <> order_id 101 1.
Proof.
  split_and!; [|exists first_order, second_order; split_and!; by vm_compute|by vm_compute].
  apply (reach_step 64 None one_committed); [apply one_committed_reachable|].
  by apply (step_commit second_order NoDatabase (ledger one_committed) [] []).
Qed.

(** The first order is sent and filled while the second task still holds the
    row it read from the database. *)
Definition filled : System :=
  mkSystem
    (transition (order_id 100 0) Filled None 104
       (transition (order_id 100 0) Submitted None 103 (ledger one_committed)).2).2
    [second_order].

Lemma filled_reachable : reachable 64 filled.
Proof.
  eapply reach_step; [|apply step_transition].
  eapply reach_step; [apply one_committed_reachable|apply step_transition].
Qed.

(** A create that lost the race at the database writes the row it read over
    the mirror: an order that had been filled in between is created again. *)
Theorem stale_row_reopens_order :
  exists s', reachable 64 filled /\ step (Some first_order) filled s' /\
    option_map o_status (get (order_id 100 0) (ledger filled)) = Some Filled /\
    option_map o_status (get (order_id 100 0) (ledger s')) = Some Created.
Proof.
  exists (mkSystem (create_commit second_order (Conflict (Some first_order)) (ledger filled)).2 []).
  split_and!; [apply filled_reachable| |by vm_compute|by vm_compute].
  apply (step_commit second_order (Conflict (Some first_order)) (ledger filled) [] []).
  split; [done|]. intros o0 Ho0. by vm_compute in Ho0; simplify_eq.
Qed.

Lemma ledger_consistent_witness : NoDup (fifo (ledger both_committed)).
Proof.
  exact (proj1 (ledger_consistent 64 both_committed (proj1 racing_creates_duplicate))).
Defined.

Lemma order_history_witness :
  order_step None first_order (Some (moved first_order Submitted None 103)).
Proof.
  assert (get (order_id 100 0) (ledger one_committed) = Some first_order) as Ho by by vm_compute.
  exact (order_history 64 one_committed None
    (mkSystem (transition (order_id 100 0) Submitted None 103 (ledger one_committed)).2 [second_order])
    (order_id 100 0) first_order one_committed_reachable (step_transition _ _ _ _ _ _) Ho).
Defined.

Definition one_order : @OrderManager unit :=
  (create (sample_draft (lit "k")) 100 100 Inserted empty_ledger).2.

Lemma one_order_per_key_witness :
  create (sample_draft (lit "k")) 200 200 NoDatabase one_order = (Ok first_order, one_order).
Proof.
  assert (rtc atomic_step empty_ledger one_order) as Hr.
  { eapply rtc_l; [|reflexivity]. by apply atomic_create. }
  assert (get (order_id 100 0) one_order = Some first_order) as Ho by by vm_compute.
  exact (proj2 (one_order_per_key 64 one_order (order_id 100 0) first_order Hr Ho)
    (sample_draft (lit "k")) 200 200 NoDatabase eq_refl ltac:(done)).
Defined.

Lemma mirror_bounded_witness :
  inserted second_order one_order (insert_mirror second_order one_order).
Proof.
  assert (ledger_inv one_order) as Hi.
  { apply (reachable_inv 64 (mkSystem one_order [])).
    apply (reach_step 64 None (mkSystem (next_id 100 empty_ledger).2 [first_order])).
    - apply (reach_step 64 None (mkSystem empty_ledger [])); [apply reach_start|].
      by apply (step_check (sample_draft (lit "k")) (order_id 100 0) 100 100).
    - by apply (step_commit first_order Inserted (next_id 100 empty_ledger).2 [] []). }
  apply (mirror_bounded second_order one_order Hi). intros o0 Ho0. by vm_compute in Ho0.
Defined.

Lemma recover_complete_witness :
  let '(r, m) := recover_from_db (Some (Ok [(first_order, 300)])) (OrderManager_new 64) in
  r = Ok 1%nat /\
  forall o now, (o, now) ∈ [(first_order, 300)] ->
    get (o_id o) m = Some (as_unknown o now) /\
    get_by_key (o_idempotency_key o) m = Some (as_unknown o now).
Proof.
  apply (recover_complete 64 [(first_order, 300)]); apply NoDup_singleton.
Defined.
