(* ===== verification/Ownership.v ===== *)
(** Execution ownership ([crates/core/src/ownership.rs]): one logical intent is
    claimed by at most one replica.  The trait [ClaimStore] is the class of the
    same name, with its contract [ClaimStoreLaws]; [MemoryClaimStore] is the
    instance of this repository.  Times and durations are nanoseconds, every
    operation is given the store's clock; an [i64] epoch wraps as in a release
    build. *)
From stdpp Require Import prelude gmap list strings.
From Stdlib Require Import ZArith Lia.
From S2P Require Import Prelude.
From S2P Require Import BotCore.
From S2P Require Import Text.

#[local] Open Scope Z_scope.

Definition MAX_RENEWALS : Z := 40.

(** [i64] addition of a release build. *)
Definition wrap_i64 (z : Z) : Z := (z + 2 ^ 63) mod 2 ^ 64 - 2 ^ 63.

Lemma wrap_i64_id z : in_i64 z -> wrap_i64 z = z.
Proof. intros Hz. unfold wrap_i64. rewrite Z.mod_small; mlia. Qed.

(** * Claims *)

Inductive ClaimStatus : Type := Claimed | Released | HandedOff.

#[export] Instance ClaimStatus_eq_dec : EqDecision ClaimStatus.
Proof. solve_decision. Defined.

Definition ClaimStatus_as_str (s : ClaimStatus) : text :=
  match s with
  | Claimed => lit "claimed"
  | Released => lit "released"
  | HandedOff => lit "handed_off"
  end.

Definition ClaimStatus_parse (s : text) : option ClaimStatus :=
  if decide (s = lit "claimed") then Some Claimed
  else if decide (s = lit "released") then Some Released
  else if decide (s = lit "handed_off") then Some HandedOff
  else None.

Record ClaimRequest : Type := mkClaimRequest {
  cr_execution_id : text;
  cr_kind : text;
  cr_module : text;
  cr_strategy : text;
  cr_symbol : text;
}.

Record ExecutionClaim : Type := mkExecutionClaim {
  cl_execution_id : text;
  cl_kind : text;
  cl_module : text;
  cl_strategy : text;
  cl_symbol : text;
  cl_owner_id : text;
  cl_epoch : Z;                     (* i64 *)
  cl_status : ClaimStatus;
  cl_acquired_at : Z;
  cl_lease_until : Z;
  cl_takeover_count : Z;            (* i64 *)
  cl_previous_owner : option text;
}.

Inductive ClaimDecision : Type :=
  | Acquired (c : ExecutionClaim)
  | Rejected (owner_id : text) (epoch : Z) (status : ClaimStatus) (lease_until : Z).

Record StoreContext : Type := mkStoreContext {
  sc_owner_id : text;
  sc_lease : Z;
  sc_handoff_grace : Z;
}.

(** The row behind a claim: when it last changed and how long its lease is. *)
Record MemRow : Type := mkMemRow {
  row_claim : ExecutionClaim;
  row_updated_at : Z;
  row_lease_span : Z;
}.

(** * The interface *)

(** [rows] is the store's content, by execution id, and only states the laws. *)
Class ClaimStore (St : Type) : Type := {
  rows : St -> gmap text MemRow;
  store_claim (now : Z) (req : ClaimRequest) (ctx : StoreContext) (s : St)
    : BotResult ClaimDecision * St;
  store_renew (now : Z) (execution_id owner_id : text) (epoch : Z) (s : St) : BotResult bool * St;
  store_verify (now : Z) (execution_id owner_id : text) (epoch : Z) (s : St) : BotResult bool;
  store_release (now : Z) (execution_id owner_id : text) (epoch : Z) (mode : ClaimStatus) (s : St)
    : BotResult bool * St;
  store_get (execution_id : text) (s : St) : BotResult (option ExecutionClaim);
}.

(** [chrono::Duration::from_std(d).unwrap_or(default)]: a [TimeDelta] holds up
    to [i64::MAX] milliseconds. *)
Definition TIMEDELTA_MAX : Z := i64_max * 1000000.
Definition from_std (d default_ : Z) : Z := if d <=? TIMEDELTA_MAX then d else default_.
Definition SECOND : Z := 1000000000.

Definition reacquirable (now grace : Z) (row : MemRow) : bool :=
  let c := row.(row_claim) in
  match c.(cl_status) with
  | Claimed => c.(cl_lease_until) <=? now
  | Released => true
  | HandedOff => row.(row_updated_at) + from_std grace (900 * SECOND) <=? now
  end.

(** The claim an acquisition writes over the row it found. *)
Definition next_claim (now : Z) (req : ClaimRequest) (ctx : StoreContext) (previous : option MemRow)
    : ExecutionClaim :=
  let old := row_claim <$> previous in
  {| cl_execution_id := req.(cr_execution_id);
     cl_kind := req.(cr_kind);
     cl_module := req.(cr_module);
     cl_strategy := req.(cr_strategy);
     cl_symbol := req.(cr_symbol);
     cl_owner_id := ctx.(sc_owner_id);
     cl_epoch := match old with Some c => wrap_i64 (c.(cl_epoch) + 1) | None => 1 end;
     cl_status := Claimed;
     cl_acquired_at := now;
     cl_lease_until := now + from_std ctx.(sc_lease) (45 * SECOND);
     cl_takeover_count :=
       match old with
       | Some c => if decide (c.(cl_status) = Claimed)
                   then wrap_i64 (c.(cl_takeover_count) + 1) else c.(cl_takeover_count)
       | None => 0
       end;
     cl_previous_owner := cl_owner_id <$> old |}.

Definition next_row (now : Z) (req : ClaimRequest) (ctx : StoreContext) (previous : option MemRow)
    : MemRow :=
  mkMemRow (next_claim now req ctx previous) now ctx.(sc_lease).

(** The compare of the compare-and-set. *)
Definition owned_by (owner_id : text) (epoch : Z) (c : ExecutionClaim) : bool :=
  bool_decide (c.(cl_owner_id) = owner_id) && (c.(cl_epoch) =? epoch)
  && bool_decide (c.(cl_status) = Claimed).

Definition with_lease (until : Z) (c : ExecutionClaim) : ExecutionClaim :=
  mkExecutionClaim c.(cl_execution_id) c.(cl_kind) c.(cl_module) c.(cl_strategy) c.(cl_symbol)
    c.(cl_owner_id) c.(cl_epoch) c.(cl_status) c.(cl_acquired_at) until c.(cl_takeover_count)
    c.(cl_previous_owner).

Definition with_status (st : ClaimStatus) (c : ExecutionClaim) : ExecutionClaim :=
  mkExecutionClaim c.(cl_execution_id) c.(cl_kind) c.(cl_module) c.(cl_strategy) c.(cl_symbol)
    c.(cl_owner_id) c.(cl_epoch) st c.(cl_acquired_at) c.(cl_lease_until) c.(cl_takeover_count)
    c.(cl_previous_owner).

Definition renewed_row (now : Z) (row : MemRow) : MemRow :=
  mkMemRow (with_lease (now + from_std row.(row_lease_span) (45 * SECOND)) row.(row_claim)) now
    row.(row_lease_span).

Definition ended_row (now : Z) (mode : ClaimStatus) (row : MemRow) : MemRow :=
  mkMemRow (with_status mode row.(row_claim)) now row.(row_lease_span).

Class ClaimStoreLaws (St : Type) `{ClaimStore St} : Prop := {
  law_acquired now req ctx s s' c :
    store_claim now req ctx s = (Ok (Acquired c), s') ->
    let id := req.(cr_execution_id) in
    (forall row, rows s !! id = Some row -> reacquirable now ctx.(sc_handoff_grace) row = true) /\
    c = next_claim now req ctx (rows s !! id) /\
    rows s' = <[id := next_row now req ctx (rows s !! id)]> (rows s);
  law_rejected now req ctx s s' o e st l :
    store_claim now req ctx s = (Ok (Rejected o e st l), s') ->
    rows s' = rows s /\
    exists row, rows s !! req.(cr_execution_id) = Some row /\
      reacquirable now ctx.(sc_handoff_grace) row = false /\
      o = row.(row_claim).(cl_owner_id) /\ e = row.(row_claim).(cl_epoch) /\
      st = row.(row_claim).(cl_status) /\ l = row.(row_claim).(cl_lease_until);
  law_claim_error now req ctx s s' o :
    store_claim now req ctx s = (o, s') -> is_ok o = false -> rows s' = rows s;
  law_renew now id owner epoch s s' o :
    store_renew now id owner epoch s = (o, s') ->
    match o with
    | Ok true => exists row, rows s !! id = Some row /\ owned_by owner epoch row.(row_claim) = true /\
        now < row.(row_claim).(cl_lease_until) /\ rows s' = <[id := renewed_row now row]> (rows s)
    | _ => rows s' = rows s
    end;
  law_verify now id owner epoch s b :
    store_verify now id owner epoch s = Ok b ->
    (b = true <-> exists row, rows s !! id = Some row /\
       owned_by owner epoch row.(row_claim) = true /\ now < row.(row_claim).(cl_lease_until));
  law_release now id owner epoch mode s s' o :
    store_release now id owner epoch mode s = (o, s') ->
    match o with
    | Ok true => exists row, rows s !! id = Some row /\ owned_by owner epoch row.(row_claim) = true /\
        rows s' = <[id := ended_row now mode row]> (rows s)
    | _ => rows s' = rows s
    end;
  law_get id s o : store_get id s = Ok o -> o = row_claim <$> rows s !! id;
}.

(** * The in-memory store *)

(** Its mutex makes each operation one step; its clock is the argument [now]. *)
Record MemoryClaimStore : Type := mkMemoryClaimStore { mc_rows : gmap text MemRow }.

Definition MemoryClaimStore_new : MemoryClaimStore := mkMemoryClaimStore ∅.

Definition put_row (id : text) (row : MemRow) (s : MemoryClaimStore) : MemoryClaimStore :=
  mkMemoryClaimStore (<[id := row]> s.(mc_rows)).

Definition memory_claim (now : Z) (req : ClaimRequest) (ctx : StoreContext) (s : MemoryClaimStore)
    : BotResult ClaimDecision * MemoryClaimStore :=
  let id := req.(cr_execution_id) in
  match s.(mc_rows) !! id with
  | None =>
      let row := next_row now req ctx None in
      (Ok (Acquired row.(row_claim)), put_row id row s)
  | Some row =>
      let c := row.(row_claim) in
      if negb (reacquirable now ctx.(sc_handoff_grace) row)
      then (Ok (Rejected c.(cl_owner_id) c.(cl_epoch) c.(cl_status) c.(cl_lease_until)), s)
      else
        let row' := next_row now req ctx (Some row) in
        (Ok (Acquired row'.(row_claim)), put_row id row' s)
  end.

Definition memory_renew (now : Z) (id owner : text) (epoch : Z) (s : MemoryClaimStore)
    : BotResult bool * MemoryClaimStore :=
  match s.(mc_rows) !! id with
  | None => (Ok false, s)
  | Some row =>
      if negb (owned_by owner epoch row.(row_claim)) then (Ok false, s)
      else if row.(row_claim).(cl_lease_until) <=? now then (Ok false, s)
      else (Ok true, put_row id (renewed_row now row) s)
  end.

Definition memory_verify (now : Z) (id owner : text) (epoch : Z) (s : MemoryClaimStore)
    : BotResult bool :=
  Ok match s.(mc_rows) !! id with
     | Some row => owned_by owner epoch row.(row_claim)
                   && (now <? row.(row_claim).(cl_lease_until))
     | None => false
     end.

Definition memory_release (now : Z) (id owner : text) (epoch : Z) (mode : ClaimStatus)
    (s : MemoryClaimStore) : BotResult bool * MemoryClaimStore :=
  match s.(mc_rows) !! id with
  | None => (Ok false, s)
  | Some row =>
      if negb (owned_by owner epoch row.(row_claim)) then (Ok false, s)
      else (Ok true, put_row id (ended_row now mode row) s)
  end.

Definition memory_get (id : text) (s : MemoryClaimStore) : BotResult (option ExecutionClaim) :=
  Ok (row_claim <$> s.(mc_rows) !! id).

#[export] Instance MemoryClaimStore_store : ClaimStore MemoryClaimStore := {|
  rows := mc_rows;
  store_claim := memory_claim;
  store_renew := memory_renew;
  store_verify := memory_verify;
  store_release := memory_release;
  store_get := memory_get;
|}.

(** * The registry and its guards *)

Record OwnershipRegistry : Type := mkOwnershipRegistry {
  or_replica_id : text;
  or_lease : Z;
  or_handoff_grace : Z;
}.

(** [OwnershipRegistry::new]: floors of ten milliseconds and one second. *)
Definition OwnershipRegistry_new (replica_id : text) (lease handoff_grace : Z) : OwnershipRegistry :=
  mkOwnershipRegistry replica_id (Z.max lease 10000000) (Z.max handoff_grace SECOND).

Record ClaimGuard : Type := mkClaimGuard {
  gd_claim : ExecutionClaim;
  gd_lease : Z;
  gd_renewals : Z;                  (* u32 *)
  gd_done : bool;
}.

Inductive ClaimOutcome : Type :=
  | Owned (g : ClaimGuard)
  | OwnedByOther (owner_id : text) (epoch : Z) (status : ClaimStatus) (lease_until : Z).

Inductive Permit : Type :=
  | Unmanaged
  | PermitOwned (g : ClaimGuard)
  | Lost (owner_id : text).

Section Registry.
Context {St : Type} `{ClaimStore St}.

Definition request (execution_id kind module strategy symbol : text) : ClaimRequest :=
  mkClaimRequest execution_id kind module strategy symbol.

Definition claim (now : Z) (req : ClaimRequest) (r : OwnershipRegistry) (s : St)
    : BotResult ClaimOutcome * St :=
  let ctx := mkStoreContext r.(or_replica_id) r.(or_lease) r.(or_handoff_grace) in
  match store_claim now req ctx s with
  | (Ok (Acquired c), s') => (Ok (Owned (mkClaimGuard c r.(or_lease) 0 false)), s')
  | (Ok (Rejected o e st l), s') => (Ok (OwnedByOther o e st l), s')
  | (Err _, s') => (Err OwnershipUnavailable, s')
  | (Panic, s') => (Panic, s')
  end.

Definition fence (now : Z) (g : ClaimGuard) (s : St) : BotResult unit :=
  let c := g.(gd_claim) in
  match store_verify now c.(cl_execution_id) c.(cl_owner_id) c.(cl_epoch) s with
  | Ok true => Ok tt
  | Ok false => Err ClaimRejected
  | Err _ => Err OwnershipUnavailable
  | Panic => Panic
  end.

(** [ClaimGuard::renew]; [local] is the worker's own clock. *)
Definition guard_renew (now local : Z) (g : ClaimGuard) (s : St) : BotResult bool * ClaimGuard * St :=
  if g.(gd_done) then (Ok false, g, s)
  else if MAX_RENEWALS <=? g.(gd_renewals) then (Ok false, g, s)
  else
    let c := g.(gd_claim) in
    let g1 := mkClaimGuard c g.(gd_lease) (g.(gd_renewals) + 1) g.(gd_done) in
    match store_renew now c.(cl_execution_id) c.(cl_owner_id) c.(cl_epoch) s with
    | (Ok true, s') =>
        (Ok true,
         mkClaimGuard (with_lease (local + from_std g.(gd_lease) (45 * SECOND)) c) g.(gd_lease)
           (g.(gd_renewals) + 1) g.(gd_done), s')
    | (Ok false, s') => (Ok false, g1, s')
    | (Err _, s') => (Err OwnershipUnavailable, g1, s')
    | (Panic, s') => (Panic, g1, s')
    end.

(** [ClaimGuard::transition]. *)
Definition transition (now : Z) (mode : ClaimStatus) (g : ClaimGuard) (s : St)
    : bool * ClaimGuard * St :=
  if g.(gd_done) then (false, g, s)
  else
    let c := g.(gd_claim) in
    match store_release now c.(cl_execution_id) c.(cl_owner_id) c.(cl_epoch) mode s with
    | (Ok ok, s') => (ok, mkClaimGuard (with_status mode c) g.(gd_lease) g.(gd_renewals) true, s')
    | (_, s') => (false, mkClaimGuard c g.(gd_lease) g.(gd_renewals) true, s')
    end.

Definition complete (now : Z) (ambiguous : bool) (g : ClaimGuard) (s : St) : bool * ClaimGuard * St :=
  transition now (if ambiguous then HandedOff else Released) g s.

Definition guard_release (now : Z) (g : ClaimGuard) (s : St) : bool * ClaimGuard * St :=
  transition now Released g s.

Definition hand_off (now : Z) (g : ClaimGuard) (s : St) : bool * ClaimGuard * St :=
  transition now HandedOff g s.

(** ** Permits *)

Definition permit_acquire (now : Z) (registry : option OwnershipRegistry) (req : ClaimRequest) (s : St)
    : BotResult Permit * St :=
  match registry with
  | None => (Ok Unmanaged, s)
  | Some r =>
      match claim now req r s with
      | (Ok (Owned g), s') => (Ok (PermitOwned g), s')
      | (Ok (OwnedByOther o _ _ _), s') => (Ok (Lost o), s')
      | (Err e, s') => (Err e, s')
      | (Panic, s') => (Panic, s')
      end
  end.

Definition proceed (p : Permit) : bool := match p with Lost _ => false | _ => true end.

Definition permit_fence (now : Z) (p : Permit) (s : St) : BotResult unit :=
  match p with
  | PermitOwned g => fence now g s
  | Unmanaged | Lost _ => Ok tt
  end.

Definition permit_finish (now : Z) (ambiguous : bool) (p : Permit) (s : St) : Permit * St :=
  match p with
  | PermitOwned g => let r := complete now ambiguous g s in (PermitOwned r.1.2, r.2)
  | Unmanaged | Lost _ => (p, s)
  end.
End Registry.

(** * Runtime flags *)

Record RuntimeFlag : Type := mkRuntimeFlag {
  rf_flag : text;
  rf_enabled : bool;
  rf_reason : text;
  rf_updated_by : text;
  rf_updated_at : Z;
}.

Definition MemoryFlags : Type := gmap text RuntimeFlag.

Definition flags_write (now : Z) (flag : text) (enabled : bool) (reason updated_by : text)
    (m : MemoryFlags) : MemoryFlags :=
  <[flag := mkRuntimeFlag flag enabled reason updated_by now]> m.

Definition flags_read_all (m : MemoryFlags) : list RuntimeFlag := (map_to_list m).*2.
