(* ===== verification/OwnershipCorrect.v ===== *)
(** Correctness of execution ownership: the in-memory store keeps the contract,
    and from the contract alone, for any interleaving of any replicas, one
    intent has at most one active owner, an intent that was handed off to
    reconciliation stays closed for the grace period, and a worker that hangs
    loses its claim in bounded time. *)
From stdpp Require Import prelude gmap list strings relations.
From Stdlib Require Import ZArith Lia.
From S2P Require Import Prelude.
From S2P Require Import BotCore.
From S2P Require Import Text.
From S2P Require Import Ownership.

#[local] Open Scope Z_scope.

#[export] Instance MemoryClaimStore_laws : ClaimStoreLaws MemoryClaimStore.
Proof.
  split; cbn [store_claim store_renew store_verify store_release store_get rows MemoryClaimStore_store].
  - intros now req ctx s s' c. unfold memory_claim. destruct (mc_rows s !! _) as [row|] eqn:Hr.
    + destruct (reacquirable now _ row) eqn:Hq; [|done]. intros [= <- <-].
      cbv zeta. split; [|by split]. intros ? Hrow. by injection Hrow as <-.
    + intros [= <- <-]. split_and!; [by intros ? ?|done|done].
  - intros now req ctx s s' o e st l. unfold memory_claim. destruct (mc_rows s !! _) as [row|] eqn:Hr; [|done].
    destruct (reacquirable now _ row) eqn:Hq; [done|]. intros [= <- <- <- <- <-]. eauto 10.
  - intros now req ctx s s' o. unfold memory_claim. destruct (mc_rows s !! _) as [row|].
    + destruct (reacquirable now _ row); by intros [= <- <-].
    + by intros [= <- <-].
  - intros now id owner epoch s s' o. unfold memory_renew. destruct (mc_rows s !! id) as [row|] eqn:Hr.
    + destruct (owned_by owner epoch _) eqn:Ho; cbn [negb]; [|by intros [= <- <-]].
      destruct (Z.leb_spec (cl_lease_until (row_claim row)) now); intros [= <- <-]; [done|].
      by exists row.
    + by intros [= <- <-].
  - intros now id owner epoch s b. unfold memory_verify. intros [= <-].
    destruct (mc_rows s !! id) as [row|] eqn:Hr; [|naive_solver].
    rewrite andb_true_iff, Z.ltb_lt. naive_solver.
  - intros now id owner epoch mode s s' o. unfold memory_release. destruct (mc_rows s !! id) as [row|] eqn:Hr.
    + destruct (owned_by owner epoch _) eqn:Ho; cbn [negb]; intros [= <- <-]; [by exists row|done].
    + by intros [= <- <-].
  - intros id s o. by intros [= <-].
Qed.

Lemma owned_by_spec owner epoch c :
  owned_by owner epoch c = true <->
  c.(cl_owner_id) = owner /\ c.(cl_epoch) = epoch /\ c.(cl_status) = Claimed.
Proof. unfold owned_by. rewrite !andb_true_iff, !bool_decide_eq_true, Z.eqb_eq. tauto. Qed.

Section Protocol.
Context {St : Type} `{ClaimStore St} `{!ClaimStoreLaws St}.

(** One operation of some replica, at the store's time [now]; every claim asks
    for a handoff grace of at least [G]. *)
Inductive claim_step (G now : Z) : St -> St -> Prop :=
  | cs_claim req ctx s :
      G <= from_std ctx.(sc_handoff_grace) (900 * SECOND) ->
      claim_step G now s (store_claim now req ctx s).2
  | cs_renew id owner epoch s : claim_step G now s (store_renew now id owner epoch s).2
  | cs_release id owner epoch mode s : claim_step G now s (store_release now id owner epoch mode s).2.

Definition step_within (G lo hi : Z) (s s' : St) : Prop :=
  exists now, lo <= now < hi /\ claim_step G now s s'.

Definition any_step (s s' : St) : Prop := exists G now, claim_step G now s s'.

(** What a step does to the rows. *)
Lemma step_rows G now s s' :
  claim_step G now s s' ->
  rows s' = rows s \/
  (exists req ctx, G <= from_std ctx.(sc_handoff_grace) (900 * SECOND) /\
     (forall row, rows s !! req.(cr_execution_id) = Some row ->
        reacquirable now ctx.(sc_handoff_grace) row = true) /\
     rows s' = <[req.(cr_execution_id) := next_row now req ctx (rows s !! req.(cr_execution_id))]> (rows s)) \/
  (exists id row row', rows s !! id = Some row /\ row.(row_claim).(cl_status) = Claimed /\
     (row' = renewed_row now row \/ exists mode, row' = ended_row now mode row) /\
     rows s' = <[id := row']> (rows s)).
Proof.
  destruct 1 as [req ctx s HG|id owner epoch s|id owner epoch mode s].
  - destruct (store_claim now req ctx s) as [o s'] eqn:Hc. cbn. destruct o as [[c|o e st l]|err|].
    + apply law_acquired in Hc as (Hq & _ & Hv). right. left. eauto.
    + left. by apply law_rejected in Hc as [? _].
    + left. by eapply law_claim_error.
    + left. by eapply law_claim_error.
  - destruct (store_renew now id owner epoch s) as [o s'] eqn:Hc. cbn.
    apply law_renew in Hc. destruct o as [[]|err|]; [|by left..].
    destruct Hc as (row & Hr & (_ & _ & Hs)%owned_by_spec & _ & Hv). right. right. eauto 10.
  - destruct (store_release now id owner epoch mode s) as [o s'] eqn:Hc. cbn.
    apply law_release in Hc. destruct o as [[]|err|]; [|by left..].
    destruct Hc as (row & Hr & (_ & _ & Hs)%owned_by_spec & Hv). right. right. eauto 10.
Qed.

(** ** Epochs *)

Definition epochs_fit (s : St) : Prop :=
  forall id row, rows s !! id = Some row -> 0 <= row.(row_claim).(cl_epoch) <= i64_max.

Definition epoch_of (s : St) (id : text) : Z :=
  from_option (fun row => row.(row_claim).(cl_epoch)) 0 (rows s !! id).

(** No epoch is about to overflow: far from it, at one claim per nanosecond. *)
Definition room (s : St) : Prop := forall id, epoch_of s id < i64_max.

Lemma next_epoch now req ctx previous :
  (forall row, previous = Some row -> 0 <= row.(row_claim).(cl_epoch) < i64_max) ->
  (next_claim now req ctx previous).(cl_epoch)
  = from_option (fun row => row.(row_claim).(cl_epoch)) 0 previous + 1.
Proof.
  intros Hp. destruct previous as [row|]; cbn; [|done].
  apply wrap_i64_id. specialize (Hp row eq_refl). mlia.
Qed.

Lemma epoch_bound s id : epochs_fit s -> room s -> forall row, rows s !! id = Some row ->
  0 <= row.(row_claim).(cl_epoch) < i64_max.
Proof.
  intros Hf Hr row Hrow. specialize (Hr id). unfold epoch_of in Hr. rewrite Hrow in Hr. cbn in Hr.
  specialize (Hf _ _ Hrow). lia.
Qed.

Lemma insert_epochs s s' id row' :
  epochs_fit s -> rows s' = <[id := row']> (rows s) ->
  epoch_of s id <= row'.(row_claim).(cl_epoch) <= i64_max ->
  epochs_fit s' /\ (forall k, epoch_of s k <= epoch_of s' k) /\
  epoch_of s' id = row'.(row_claim).(cl_epoch).
Proof.
  intros Hf Hv Hb.
  assert (0 <= epoch_of s id).
  { unfold epoch_of. destruct (rows s !! id) as [row|] eqn:Hr; cbn; [|lia]. by apply Hf in Hr as []. }
  split; [|split].
  - intros k row. rewrite Hv. intros [[<- <-]|[_ Hk]]%lookup_insert_Some; [lia|by eapply Hf].
  - intros k. destruct (decide (id = k)) as [<-|Hne]; unfold epoch_of at 2; rewrite Hv.
    + rewrite lookup_insert_eq. cbn. lia.
    + by rewrite lookup_insert_ne.
  - unfold epoch_of. by rewrite Hv, lookup_insert_eq.
Qed.

Lemma step_epochs G now s s' :
  epochs_fit s -> room s -> claim_step G now s s' ->
  epochs_fit s' /\ forall id, epoch_of s id <= epoch_of s' id.
Proof.
  intros Hf Hr Hs. apply step_rows in Hs as [Hv|[(req & ctx & _ & _ & Hv)|(id & row & row' & Hrow & _ & Hrow' & Hv)]].
  - unfold epochs_fit, epoch_of. rewrite Hv. by split.
  - set (id := cr_execution_id req) in *.
    pose proof (epoch_bound s id Hf Hr) as Hb.
    destruct (insert_epochs s s' id _ Hf Hv) as (? & ? & _); [|done].
    cbn [next_row row_claim]. rewrite (next_epoch now req ctx _ Hb). unfold epoch_of.
    destruct (rows s !! id) as [row|]; cbn; [specialize (Hb row eq_refl); lia|mlia].
  - assert (He : row'.(row_claim).(cl_epoch) = row.(row_claim).(cl_epoch))
      by (by destruct Hrow' as [->|[mode ->]]).
    pose proof (Hf _ _ Hrow). destruct (insert_epochs s s' id row' Hf Hv) as (? & ? & _); [|done].
    unfold epoch_of. rewrite Hrow, He. cbn. lia.
Qed.

(** Runs in which no epoch reaches the end of [i64]. *)
Inductive run : St -> St -> Prop :=
  | run_refl s : run s s
  | run_step s1 s2 s3 : room s1 -> any_step s1 s2 -> run s2 s3 -> run s1 s3.

Lemma run_epochs s s' :
  run s s' -> epochs_fit s -> epochs_fit s' /\ forall id, epoch_of s id <= epoch_of s' id.
Proof.
  induction 1 as [s|s1 s2 s3 Hroom (G & now & Hstep) _ IH]; intros Hf; [by split|].
  destruct (step_epochs _ _ _ _ Hf Hroom Hstep) as [Hf2 Hle]. destruct (IH Hf2) as [Hf3 Hle'].
  split; [done|]. intros id. specialize (Hle id). specialize (Hle' id). lia.
Qed.

(** Passing the fence is owning the live claim. *)
Lemma claim_fence_Ok now g s :
  fence now g s = Ok tt <->
  exists b, store_verify now g.(gd_claim).(cl_execution_id) g.(gd_claim).(cl_owner_id)
      g.(gd_claim).(cl_epoch) s = Ok b /\ b = true.
Proof.
  unfold fence. destruct (store_verify _ _ _ _ _) as [[]|e|]; naive_solver.
Qed.

Lemma fence_row now g s :
  fence now g s = Ok tt ->
  exists row, rows s !! g.(gd_claim).(cl_execution_id) = Some row /\
    row.(row_claim).(cl_owner_id) = g.(gd_claim).(cl_owner_id) /\
    row.(row_claim).(cl_epoch) = g.(gd_claim).(cl_epoch) /\
    row.(row_claim).(cl_status) = Claimed /\ now < row.(row_claim).(cl_lease_until).
Proof.
  intros (b & Hv & ->)%claim_fence_Ok.
  apply law_verify in Hv. destruct (proj1 Hv eq_refl) as (row & Hr & Ho%owned_by_spec & Hl).
  exists row. naive_solver.
Qed.

(** C32: one intent has at most one active owner.  Two guards that both pass
    the fence of one execution hold the same epoch for the same owner; and once
    the execution has been claimed again, by anyone and after anything, a guard
    from before never passes the fence again, whatever the replicas do and
    whatever their clocks say. *)
Theorem one_active_owner (now1 : Z) (g : ClaimGuard) (s1 : St)
  (Hfit : epochs_fit s1) (Hheld : fence now1 g s1 = Ok tt) :
  (forall now' g', g'.(gd_claim).(cl_execution_id) = g.(gd_claim).(cl_execution_id) ->
     fence now' g' s1 = Ok tt ->
     g'.(gd_claim).(cl_owner_id) = g.(gd_claim).(cl_owner_id) /\
     g'.(gd_claim).(cl_epoch) = g.(gd_claim).(cl_epoch)) /\
  (forall s2 now2 req ctx c s3 s4 now4,
     run s1 s2 -> room s2 ->
     req.(cr_execution_id) = g.(gd_claim).(cl_execution_id) ->
     store_claim now2 req ctx s2 = (Ok (Acquired c), s3) ->
     run s3 s4 -> fence now4 g s4 <> Ok tt).
Proof.
  split.
  - intros now' g' Hid (row' & Hr' & ? & ? & _)%fence_row.
    apply fence_row in Hheld as (row & Hr & ? & ? & _). rewrite Hid, Hr in Hr'.
    injection Hr' as <-. split; congruence.
  - intros s2 now2 req ctx c s3 s4 now4 H12 Hroom Hreq Hclaim H34 H4.
    apply fence_row in Hheld as (row1 & Hr1 & _ & He1 & _).
    apply fence_row in H4 as (row4 & Hr4 & _ & He4 & _).
    destruct (run_epochs _ _ H12 Hfit) as [Hfit2 Hle12].
    apply law_acquired in Hclaim as (_ & -> & Hv). rewrite Hreq in Hv. cbv zeta in Hv.
    set (id := cl_execution_id (gd_claim g)) in *.
    pose proof (epoch_bound s2 id Hfit2 Hroom) as Hb.
    pose proof (next_epoch now2 req ctx (rows s2 !! id) Hb) as Hn.
    destruct (insert_epochs s2 s3 id _ Hfit2 Hv) as (Hfit3 & _ & He3).
    { cbn [next_row row_claim]. rewrite Hn. unfold epoch_of.
      destruct (rows s2 !! id) as [row|]; cbn; [specialize (Hb row eq_refl); lia|mlia]. }
    destruct (run_epochs _ _ H34 Hfit3) as [_ Hle34].
    specialize (Hle12 id). specialize (Hle34 id). cbn [next_row row_claim] in He3.
    rewrite He3, Hn in Hle34. unfold epoch_of in Hle12, Hle34. rewrite Hr1 in Hle12.
    rewrite Hr4 in Hle34. cbn in *. lia.
Qed.

(** ** Handing off *)

(** The row as the hand-off left it. *)
Definition handed_off_at (t : Z) (id : text) (s : St) : Prop :=
  exists row, rows s !! id = Some row /\ row.(row_claim).(cl_status) = HandedOff /\
    row.(row_updated_at) = t.

Lemma handed_off_step t id G s s' :
  handed_off_at t id s -> step_within G t (t + G) s s' -> handed_off_at t id s'.
Proof.
  intros (row & Hr & Hst & Hu) (now & Hnow & Hs).
  apply step_rows in Hs as [Hv|[(req & ctx & HG & Hq & Hv)|(id' & row' & row'' & Hr' & Hc & _ & Hv)]];
    unfold handed_off_at; rewrite Hv.
  - eauto.
  - destruct (decide (cr_execution_id req = id)) as [<-|Hne].
    + specialize (Hq row Hr). unfold reacquirable in Hq. rewrite Hst in Hq. bool_to_prop. lia.
    + exists row. by rewrite lookup_insert_ne.
  - assert (id' <> id) by (intros ->; rewrite Hr in Hr'; injection Hr' as <-; congruence).
    exists row. by rewrite lookup_insert_ne.
Qed.

(** an execution whose outcome is unknown is not sent twice.  Once its
    owner has handed it off, then for the whole grace period no replica can
    claim it and no guard of it passes the fence, whatever operations the
    replicas run in that time. *)
Theorem handoff_blocks_resubmission (now G : Z) (g g' : ClaimGuard) (s s1 s2 : St)
  (Hdone : complete now true g s = (true, g', s1))
  (Hrun : rtc (step_within G now (now + G)) s1 s2) :
  forall t, now <= t < now + G ->
    (forall req ctx c s3,
       req.(cr_execution_id) = g.(gd_claim).(cl_execution_id) ->
       G <= from_std ctx.(sc_handoff_grace) (900 * SECOND) ->
       store_claim t req ctx s2 <> (Ok (Acquired c), s3)) /\
    (forall g2, g2.(gd_claim).(cl_execution_id) = g.(gd_claim).(cl_execution_id) ->
       fence t g2 s2 <> Ok tt).
Proof.
  set (id := cl_execution_id (gd_claim g)).
  assert (H1 : handed_off_at now id s1).
  { unfold complete, transition in Hdone. destruct (gd_done g); [done|].
    destruct (store_release _ _ _ _ _ s) as [[ok|e|] s'] eqn:Hr; [|done..].
    injection Hdone as -> _ ->. apply law_release in Hr as (row & Hrow & _ & Hv).
    exists (ended_row now HandedOff row). unfold id. by rewrite Hv, lookup_insert_eq. }
  assert (H2 : handed_off_at now id s2)
    by (clear Hdone; induction Hrun; eauto using handed_off_step).
  destruct H2 as (row & Hr & Hst & Hu). intros t Ht. split.
  - intros req ctx c s3 Hid HG Hc. apply law_acquired in Hc as (Hq & _).
    rewrite Hid in Hq. specialize (Hq row Hr). unfold reacquirable in Hq. rewrite Hst in Hq.
    bool_to_prop. lia.
  - intros g2 Hid (row2 & Hr2 & _ & _ & Hc & _)%fence_row. rewrite Hid in Hr2.
    fold id in Hr2. rewrite Hr in Hr2. injection Hr2 as <-. congruence.
Qed.

(** ** Hung workers *)

(** The worker does nothing but renew, at the given instants. *)
Definition renew_at (x : ClaimGuard * St) (ts : Z * Z) : ClaimGuard * St :=
  let r := guard_renew ts.1 ts.2 x.1 x.2 in (r.1.2, r.2).

(** The claim's lease after some renewals. *)
Record leased (t0 span : Z) (id : text) (x : ClaimGuard * St) : Prop := {
  le_id : x.1.(gd_claim).(cl_execution_id) = id;
  le_count : 0 <= x.1.(gd_renewals) <= MAX_RENEWALS;
  le_row : exists row, rows x.2 !! id = Some row /\ row.(row_lease_span) = span /\
    row.(row_claim).(cl_lease_until)
      <= t0 + (1 + x.1.(gd_renewals)) * from_std span (45 * SECOND);
}.

Lemma leased_renew t0 span id x ts :
  0 <= from_std span (45 * SECOND) -> leased t0 span id x -> leased t0 span id (renew_at x ts).
Proof.
  intros Hspan [Hid Hn (row & Hr & Hsp & Hle)]. destruct x as [g s], ts as [now local]. cbn in *.
  unfold renew_at, guard_renew. cbn [fst snd].
  destruct (gd_done g); [split; cbn; eauto|].
  destruct (Z.leb_spec MAX_RENEWALS (gd_renewals g)); [split; cbn; eauto|].
  destruct (store_renew _ _ _ _ s) as [o s'] eqn:Hren. apply law_renew in Hren.
  destruct o as [[]|e|]; [destruct Hren as (row1 & Hr1 & _ & Hlt & Hv)|..];
    (split; cbn; [done|lia|]); [|exists row; rewrite Hren; split; [done|split; [done|nia]]..].
  rewrite Hid in Hr1, Hv. rewrite Hr in Hr1. injection Hr1 as <-.
  exists (renewed_row now row). rewrite Hv, lookup_insert_eq. split; [done|]. split; [done|].
  cbn. rewrite Hsp. nia.
Qed.

(** C39: a worker that hangs cannot keep an execution for ever.  However often
    and at whatever times it renews, from [MAX_RENEWALS + 1] lease lengths after
    its acquisition its guard no longer passes the fence, and no claim of
    another replica is turned away. *)
Theorem hung_worker_lapses (t0 : Z) (req : ClaimRequest) (r : OwnershipRegistry)
    (g : ClaimGuard) (s s1 : St) (renewals : list (Z * Z))
  (Hlease : 0 <= from_std r.(or_lease) (45 * SECOND))
  (Hown : claim t0 req r s = (Ok (Owned g), s1)) :
  let x := fold_left renew_at renewals (g, s1) in
  let deadline := t0 + (MAX_RENEWALS + 1) * from_std r.(or_lease) (45 * SECOND) in
  forall t, deadline <= t ->
    fence t x.1 x.2 <> Ok tt /\
    (fence t g x.2 <> Ok tt) /\
    (forall row, rows x.2 !! req.(cr_execution_id) = Some row ->
       row.(row_claim).(cl_status) = Claimed ->
       forall req' ctx' o e st l s',
         req'.(cr_execution_id) = req.(cr_execution_id) ->
         store_claim t req' ctx' x.2 <> (Ok (Rejected o e st l), s')).
Proof.
  cbv zeta. unfold claim in Hown.
  destruct (store_claim t0 req _ s) as [[[c|o e st l]|err|] s'] eqn:Hc; try done.
  injection Hown as <- <-. apply law_acquired in Hc as (_ & -> & Hv). cbv zeta in Hv.
  set (id := cr_execution_id req) in *.
  set (ctx := mkStoreContext (or_replica_id r) (or_lease r) (or_handoff_grace r)) in *.
  set (g := mkClaimGuard _ _ 0 false).
  assert (Hl : leased t0 (or_lease r) id (fold_left renew_at renewals (g, s'))).
  { assert (Hl0 : leased t0 (or_lease r) id (g, s')).
    { split; [done|by cbn|]. exists (next_row t0 req ctx (rows s !! id)). cbn.
      rewrite Hv, lookup_insert_eq. split; [done|]. split; [done|]. cbn. lia. }
    revert Hl0. generalize (g, s'). induction renewals as [|ts renewals IH]; intros x Hx; [done|].
    apply IH. by apply leased_renew. }
  destruct Hl as [Hid Hn (row & Hr & _ & Hle)].
  set (x := fold_left renew_at renewals (g, s')) in *. intros t Ht.
  assert (Hlapsed : row.(row_claim).(cl_lease_until) <= t) by (unfold MAX_RENEWALS in *; nia).
  assert (Hf : forall g2, g2.(gd_claim).(cl_execution_id) = id -> fence t g2 x.2 <> Ok tt).
  { intros g2 Hg2 (row2 & Hr2 & _ & _ & _ & Hlt)%fence_row. rewrite Hg2, Hr in Hr2.
    injection Hr2 as <-. lia. }
  split; [by apply Hf|]. split; [by apply Hf|].
  intros row2 Hr2 Hst req' ctx' o e st l s2 Hid' Hc. rewrite Hr in Hr2. injection Hr2 as <-.
  apply law_rejected in Hc as (_ & row3 & Hr3 & Hq & _). rewrite Hid', Hr in Hr3. injection Hr3 as <-.
  unfold reacquirable in Hq. rewrite Hst in Hq. bool_to_prop. lia.
Qed.
End Protocol.

(** A permit that was lost still passes its own fence: only [proceed] tells. *)
Theorem lost_permit_passes_fence {St : Type} `{ClaimStore St} now owner (s : St) :
  permit_fence now (Lost owner) s = Ok tt /\ proceed (Lost owner) = false.
Proof. done. Qed.

(** * Two replicas *)

Definition replica (name : text) : OwnershipRegistry :=
  OwnershipRegistry_new name (30 * SECOND) (900 * SECOND).

Definition snipe : ClaimRequest :=
  request (lit "snipe:MINT") (lit "entry") (lit "sniper") (lit "pump") (lit "MINT").

(** [A] claims at time 0, [B] takes the lapsed claim over 31 seconds later. *)
Definition store_A : MemoryClaimStore := (claim 0 snipe (replica (lit "A")) MemoryClaimStore_new).2.
Definition guard_of (o : BotResult ClaimOutcome) : ClaimGuard :=
  match o with
  | Ok (Owned g) => g
  | _ => mkClaimGuard (next_claim 0 snipe (mkStoreContext [] 0 0) None) 0 0 true
  end.
Definition guard_A : ClaimGuard := guard_of (claim 0 snipe (replica (lit "A")) MemoryClaimStore_new).1.
Definition context_B : StoreContext := mkStoreContext (lit "B") (30 * SECOND) (900 * SECOND).
Definition store_B : MemoryClaimStore := (store_claim (31 * SECOND) snipe context_B store_A).2.
Definition claim_B : ExecutionClaim :=
  next_claim (31 * SECOND) snipe context_B (rows store_A !! lit "snipe:MINT").

Lemma store_A_fits : epochs_fit store_A /\ room store_A.
Proof.
  assert (Hv : rows store_A = {[lit "snipe:MINT" :=
    next_row 0 snipe (mkStoreContext (lit "A") (30 * SECOND) (900 * SECOND)) None]}) by done.
  split.
  - intros id row. rewrite Hv. intros [_ <-]%lookup_singleton_Some. cbn. mlia.
  - intros id. unfold epoch_of. rewrite Hv.
    destruct (decide (lit "snipe:MINT" = id)) as [<-|Hne].
    + rewrite lookup_singleton_eq. cbn. mlia.
    + rewrite lookup_singleton_ne by done. cbn. mlia.
Qed.

Lemma one_active_owner_witness :
  fence SECOND guard_A store_A = Ok tt /\ fence (32 * SECOND) guard_A store_B <> Ok tt.
Proof.
  split; [vm_compute; reflexivity|].
  refine (proj2 (one_active_owner SECOND guard_A store_A (proj1 store_A_fits) _)
    store_A (31 * SECOND) snipe context_B claim_B store_B store_B (32 * SECOND)
    (run_refl _) (proj2 store_A_fits) _ _ (run_refl _)); vm_compute; reflexivity.
Defined.

(** [A] hands off at second 2; [B] tries in vain at second 40. *)
Definition store_handed : MemoryClaimStore := (complete (2 * SECOND) true guard_A store_A).2.
Definition guard_handed : ClaimGuard := (complete (2 * SECOND) true guard_A store_A).1.2.
Definition store_tried : MemoryClaimStore := (store_claim (40 * SECOND) snipe context_B store_handed).2.

Lemma handoff_blocks_resubmission_witness :
  complete (2 * SECOND) true guard_A store_A = (true, guard_handed, store_handed) /\
  forall c s3, store_claim (890 * SECOND) snipe context_B store_tried <> (Ok (Acquired c), s3).
Proof.
  assert (Hdone : complete (2 * SECOND) true guard_A store_A = (true, guard_handed, store_handed))
    by (vm_compute; reflexivity).
  split; [exact Hdone|]. intros c s3.
  assert (Hrun : rtc (step_within (900 * SECOND) (2 * SECOND) (2 * SECOND + 900 * SECOND))
                   store_handed store_tried).
  { apply rtc_once. exists (40 * SECOND). split; [unfold SECOND; lia|].
    apply (cs_claim (900 * SECOND) (40 * SECOND) snipe context_B). vm_compute. discriminate. }
  refine (proj1 (handoff_blocks_resubmission (2 * SECOND) (900 * SECOND) guard_A guard_handed
    store_A store_handed store_tried Hdone Hrun (890 * SECOND) _) snipe context_B c s3 _ _);
    [unfold SECOND; lia|vm_compute; reflexivity|vm_compute; discriminate].
Defined.

(** [A] renews every ten seconds for two hours, and is still timed out after
    forty-one leases. *)
Definition every_ten_seconds : list (Z * Z) :=
  map (fun n => (10 * SECOND * Z.of_nat n, 10 * SECOND * Z.of_nat n)) (seq 1 720).

Lemma hung_worker_lapses_witness :
  claim 0 snipe (replica (lit "A")) MemoryClaimStore_new = (Ok (Owned guard_A), store_A) /\
  fence (7200 * SECOND) guard_A (fold_left renew_at every_ten_seconds (guard_A, store_A)).2 <> Ok tt.
Proof.
  assert (Hown : claim 0 snipe (replica (lit "A")) MemoryClaimStore_new = (Ok (Owned guard_A), store_A))
    by (vm_compute; reflexivity).
  split; [exact Hown|].
  refine (proj1 (proj2 (hung_worker_lapses 0 snipe (replica (lit "A")) guard_A MemoryClaimStore_new
    store_A every_ten_seconds _ Hown (7200 * SECOND) _))); vm_compute; discriminate.
Defined.
