(* ===== verification/HaLease.v ===== *)
(** Singleton leases with fencing tokens ([crates/core/src/ha/lease.rs]) and
    the in-process store of the HA layer ([ha/store.rs]).  Times and durations
    are nanoseconds; every operation is given the store's clock.  The trait
    [HaStore] is the class [LeaseStore]; what it promises is [LeaseStoreLaws],
    and [MemoryHaStore] is the instance. *)
From stdpp Require Import prelude gmap list strings.
From Stdlib Require Import ZArith Lia.
From S2P Require Import Prelude.
From S2P Require Import BotCore.
From S2P Require Import Text.

#[local] Open Scope Z_scope.

(** * Roles *)

Inductive LeaseRole : Type :=
  | Reconciliation | Recovery | AccountingMaintenance | StateSync
  | Feed (name : text).

#[export] Instance LeaseRole_eq_dec : EqDecision LeaseRole.
Proof. solve_decision. Defined.

Definition LeaseRole_as_string (r : LeaseRole) : text :=
  match r with
  | Reconciliation => lit "reconciliation"
  | Recovery => lit "recovery"
  | AccountingMaintenance => lit "accounting_maintenance"
  | StateSync => lit "state_sync"
  | Feed name => lit "feed:" ++ name
  end.

Definition LeaseRole_parse (s : text) : option LeaseRole :=
  let s := trim s in
  if decide (s = lit "reconciliation") then Some Reconciliation
  else if decide (s = lit "recovery") then Some Recovery
  else if decide (s = lit "accounting_maintenance") then Some AccountingMaintenance
  else if decide (s = lit "state_sync") then Some StateSync
  else
    rest ← strip_prefix (lit "feed:") s;
    let name := trim rest in
    if is_empty name then None else Some (Feed name).

(** * Leases *)

Record Lease : Type := mkLease {
  ls_role : LeaseRole;
  ls_holder : text;
  ls_generation : Z;               (* i64 *)
  ls_acquired_at : Z;
  ls_expires_at : Z;
  ls_renewed_at : Z;
  ls_takeover_count : Z;           (* i64 *)
  ls_previous_holder : option text;
  ls_released : bool;
}.

Definition is_live (now : Z) (l : Lease) : bool :=
  negb l.(ls_released) && (now <? l.(ls_expires_at)).

Inductive LeaseDecision : Type :=
  | Acquired (l : Lease)
  | Rejected (holder : text) (generation expires_at : Z).

Inductive FenceError : Type :=
  | Fenced (role : text) (presented : Z) (actual : option (text * Z))
  | Expired (role : text) (presented : Z)
  | StoreUnavailable (role : text).

Record LeaseRequest : Type := mkLeaseRequest {
  rq_role : LeaseRole;
  rq_holder : text;
  rq_ttl : Z;
}.

(** [next_generation]: saturating on [i64]. *)
Definition next_generation (previous : option Z) : Z :=
  i64_saturating_add (default 0 previous) 1.

(** [renew_interval]: a third of the whole seconds, at least one second. *)
Definition NANOS : Z := 1000000000.
Definition renew_interval (ttl : Z) : Z := Z.max (Z.quot (Z.quot ttl NANOS) 3) 1 * NANOS.

(** * The interface *)

(** What the runtime calls on a store; the [view] is the leases it holds, by
    role key, and is only used to state the laws. *)
Class LeaseStore (S : Type) : Type := {
  view : S -> gmap text Lease;
  acquire_lease (now : Z) (req : LeaseRequest) (s : S) : BotResult LeaseDecision * S;
  renew_lease (now : Z) (role : LeaseRole) (holder : text) (generation ttl : Z) (s : S)
    : BotResult bool * S;
  verify_lease (now : Z) (role : LeaseRole) (holder : text) (generation : Z) (s : S)
    : BotResult bool;
  release_lease (now : Z) (role : LeaseRole) (holder : text) (generation : Z) (s : S)
    : BotResult bool * S;
  get_lease (role : LeaseRole) (s : S) : BotResult (option Lease);
}.

(** The lease a successful acquisition writes. *)
Definition granted (now : Z) (req : LeaseRequest) (previous : option Lease) : Lease :=
  let takeover :=
    match previous with
    | Some l => negb (bool_decide (l.(ls_holder) = req.(rq_holder))) && negb l.(ls_released)
    | None => false
    end in
  {| ls_role := req.(rq_role);
     ls_holder := req.(rq_holder);
     ls_generation := next_generation (ls_generation <$> previous);
     ls_acquired_at := now;
     ls_expires_at := now + req.(rq_ttl);
     ls_renewed_at := now;
     ls_takeover_count := from_option ls_takeover_count 0 previous + (if takeover then 1 else 0);
     ls_previous_holder := ls_holder <$> previous;
     ls_released := false |}.

Definition renewed (now ttl : Z) (l : Lease) : Lease :=
  {| ls_role := l.(ls_role); ls_holder := l.(ls_holder); ls_generation := l.(ls_generation);
     ls_acquired_at := l.(ls_acquired_at); ls_expires_at := now + ttl; ls_renewed_at := now;
     ls_takeover_count := l.(ls_takeover_count); ls_previous_holder := l.(ls_previous_holder);
     ls_released := l.(ls_released) |}.

Definition released (now : Z) (l : Lease) : Lease :=
  {| ls_role := l.(ls_role); ls_holder := l.(ls_holder); ls_generation := l.(ls_generation);
     ls_acquired_at := l.(ls_acquired_at); ls_expires_at := now;
     ls_renewed_at := l.(ls_renewed_at);
     ls_takeover_count := l.(ls_takeover_count); ls_previous_holder := l.(ls_previous_holder);
     ls_released := true |}.

(** [(holder, generation)] is the pair the lease was granted to. *)
Definition held_by (holder : text) (generation : Z) (l : Lease) : bool :=
  bool_decide (l.(ls_holder) = holder) && (l.(ls_generation) =? generation).

(** Somebody else's live lease stands in the way. *)
Definition blocks (now : Z) (holder : text) (l : Lease) : bool :=
  is_live now l && negb (bool_decide (l.(ls_holder) = holder)).

Class LeaseStoreLaws (S : Type) `{LeaseStore S} : Prop := {
  law_acquired now req s s' l :
    acquire_lease now req s = (Ok (Acquired l), s') ->
    let key := LeaseRole_as_string req.(rq_role) in
    (forall p, view s !! key = Some p -> blocks now req.(rq_holder) p = false) /\
    l = granted now req (view s !! key) /\ view s' = <[key := l]> (view s);
  law_rejected now req s s' h g e :
    acquire_lease now req s = (Ok (Rejected h g e), s') ->
    view s' = view s /\
    exists p, view s !! LeaseRole_as_string req.(rq_role) = Some p /\
      blocks now req.(rq_holder) p = true /\
      h = p.(ls_holder) /\ g = p.(ls_generation) /\ e = p.(ls_expires_at);
  law_acquire_error now req s s' o :
    acquire_lease now req s = (o, s') -> is_ok o = false -> view s' = view s;
  law_renew now role holder generation ttl s s' o :
    renew_lease now role holder generation ttl s = (o, s') ->
    let key := LeaseRole_as_string role in
    match o with
    | Ok true => exists l, view s !! key = Some l /\ held_by holder generation l = true /\
        is_live now l = true /\ view s' = <[key := renewed now ttl l]> (view s)
    | Ok false => view s' = view s /\ forall l, view s !! key = Some l ->
        held_by holder generation l && is_live now l = false
    | _ => view s' = view s
    end;
  law_verify now role holder generation s b :
    verify_lease now role holder generation s = Ok b ->
    (b = true <-> exists l, view s !! LeaseRole_as_string role = Some l /\
       held_by holder generation l = true /\ is_live now l = true);
  law_release now role holder generation s s' o :
    release_lease now role holder generation s = (o, s') ->
    let key := LeaseRole_as_string role in
    match o with
    | Ok true => exists l, view s !! key = Some l /\ held_by holder generation l = true /\
        view s' = <[key := released now l]> (view s)
    | _ => view s' = view s
    end;
  law_get role s o : get_lease role s = Ok o -> o = view s !! LeaseRole_as_string role;
}.

(** * The in-process store *)

(** The leases of [MemoryInner] and its availability switch; its clock is the
    argument [now] of every operation, its other maps are not about leases. *)
Record MemoryHaStore : Type := mkMemoryHaStore {
  leases : gmap text Lease;
  unavailable : bool;
}.

Definition MemoryHaStore_new : MemoryHaStore := mkMemoryHaStore ∅ false.

(** [guard]: a store that cannot be reached answers an error. *)
Definition guard_store {A} (s : MemoryHaStore) (k : BotResult A * MemoryHaStore)
    : BotResult A * MemoryHaStore :=
  if s.(unavailable) then (Err Db, s) else k.

Definition put_lease (key : text) (l : Lease) (s : MemoryHaStore) : MemoryHaStore :=
  mkMemoryHaStore (<[key := l]> s.(leases)) s.(unavailable).

Definition memory_acquire_lease (now : Z) (req : LeaseRequest) (s : MemoryHaStore)
    : BotResult LeaseDecision * MemoryHaStore :=
  guard_store s
    (let key := LeaseRole_as_string req.(rq_role) in
     let previous := s.(leases) !! key in
     match previous with
     | Some existing =>
         if is_live now existing && negb (bool_decide (existing.(ls_holder) = req.(rq_holder)))
         then (Ok (Rejected existing.(ls_holder) existing.(ls_generation)
                     existing.(ls_expires_at)), s)
         else let lease := granted now req previous in
              (Ok (Acquired lease), put_lease key lease s)
     | None => let lease := granted now req previous in
               (Ok (Acquired lease), put_lease key lease s)
     end).

Definition memory_renew_lease (now : Z) (role : LeaseRole) (holder : text) (generation ttl : Z)
    (s : MemoryHaStore) : BotResult bool * MemoryHaStore :=
  guard_store s
    (match s.(leases) !! LeaseRole_as_string role with
     | None => (Ok false, s)
     | Some l =>
         if negb (bool_decide (l.(ls_holder) = holder)) || negb (l.(ls_generation) =? generation)
            || l.(ls_released) || (l.(ls_expires_at) <=? now)
         then (Ok false, s)
         else (Ok true, put_lease (LeaseRole_as_string role) (renewed now ttl l) s)
     end).

Definition memory_verify_lease (now : Z) (role : LeaseRole) (holder : text) (generation : Z)
    (s : MemoryHaStore) : BotResult bool :=
  if s.(unavailable) then Err Db
  else Ok match s.(leases) !! LeaseRole_as_string role with
          | Some l => bool_decide (l.(ls_holder) = holder) && (l.(ls_generation) =? generation)
                      && is_live now l
          | None => false
          end.

Definition memory_release_lease (now : Z) (role : LeaseRole) (holder : text) (generation : Z)
    (s : MemoryHaStore) : BotResult bool * MemoryHaStore :=
  guard_store s
    (match s.(leases) !! LeaseRole_as_string role with
     | None => (Ok false, s)
     | Some l =>
         if negb (bool_decide (l.(ls_holder) = holder)) || negb (l.(ls_generation) =? generation)
            || l.(ls_released)
         then (Ok false, s)
         else (Ok true, put_lease (LeaseRole_as_string role) (released now l) s)
     end).

Definition memory_get_lease (role : LeaseRole) (s : MemoryHaStore) : BotResult (option Lease) :=
  if s.(unavailable) then Err Db else Ok (s.(leases) !! LeaseRole_as_string role).

#[export] Instance MemoryLeaseStore : LeaseStore MemoryHaStore := {
  view := leases;
  acquire_lease := memory_acquire_lease;
  renew_lease := memory_renew_lease;
  verify_lease := memory_verify_lease;
  release_lease := memory_release_lease;
  get_lease := memory_get_lease;
}.

(** * The runtime's use of a store ([ha/runtime.rs]) *)

Record LeaseGuard : Type := mkLeaseGuard {
  g_role : LeaseRole;
  g_holder : text;
  g_generation : Z;
}.

(** The part of [HaRuntime] that concerns leases: who it is, the configured
    time to live, and the leases it believes it holds. *)
Record HaRuntime : Type := mkHaRuntime {
  worker_id : text;
  lease_ttl : Z;
  inner_leases : gmap text Lease;
}.

Definition with_inner (m : gmap text Lease) (r : HaRuntime) : HaRuntime :=
  mkHaRuntime r.(worker_id) r.(lease_ttl) m.

Section Runtime.
Context {S : Type} `{LeaseStore S}.

Definition acquire (now : Z) (role : LeaseRole) (r : HaRuntime) (s : S)
    : BotResult (option LeaseGuard) * HaRuntime * S :=
  let req := mkLeaseRequest role r.(worker_id) r.(lease_ttl) in
  match acquire_lease now req s with
  | (Ok (Acquired lease), s') =>
      (Ok (Some (mkLeaseGuard role r.(worker_id) lease.(ls_generation))),
       with_inner (<[LeaseRole_as_string role := lease]> r.(inner_leases)) r, s')
  | (Ok (Rejected _ _ _), s') => (Ok None, r, s')
  | (Err e, s') => (Err e, r, s')
  | (Panic, s') => (Panic, r, s')
  end.

(** [renew]; [local] is the worker's own clock, which the cached copy uses (the
    code reads it twice in a row). *)
Definition renew (now local : Z) (g : LeaseGuard) (r : HaRuntime) (s : S)
    : bool * HaRuntime * S :=
  let key := LeaseRole_as_string g.(g_role) in
  match renew_lease now g.(g_role) g.(g_holder) g.(g_generation) r.(lease_ttl) s with
  | (Ok true, s') =>
      (true, with_inner (alter (renewed local r.(lease_ttl)) key r.(inner_leases)) r, s')
  | (Ok false, s') => (false, with_inner (delete key r.(inner_leases)) r, s')
  | (_, s') => (false, r, s')
  end.

(** [fence]: the second read only words the error. *)
Definition fence (now : Z) (g : LeaseGuard) (r : HaRuntime) (s : S)
    : outcome FenceError unit * HaRuntime :=
  let key := LeaseRole_as_string g.(g_role) in
  match verify_lease now g.(g_role) g.(g_holder) g.(g_generation) s with
  | Ok true => (Ok tt, r)
  | Ok false =>
      let actual :=
        match get_lease g.(g_role) s with
        | Ok (Some l) => Some (l.(ls_holder), l.(ls_generation))
        | _ => None
        end in
      let err :=
        match actual with
        | Some (holder, gen) =>
            if bool_decide (holder = g.(g_holder)) && (gen =? g.(g_generation))
            then Expired key g.(g_generation)
            else Fenced key g.(g_generation) actual
        | None => Fenced key g.(g_generation) actual
        end in
      (Err err, with_inner (delete key r.(inner_leases)) r)
  | Err _ => (Err (StoreUnavailable key), r)
  | Panic => (Panic, r)
  end.

(** [guarded]: [work] runs only after the fence. *)
Definition guarded {A} (now : Z) (g : LeaseGuard) (work : S -> A * S) (r : HaRuntime) (s : S)
    : outcome FenceError A * HaRuntime * S :=
  match fence now g r s with
  | (Ok _, r') => let '(a, s') := work s in (Ok a, r', s')
  | (Err e, r') => (Err e, r', s)
  | (Panic, r') => (Panic, r', s)
  end.

Definition release (now : Z) (g : LeaseGuard) (r : HaRuntime) (s : S)
    : bool * HaRuntime * S :=
  let '(o, s') := release_lease now g.(g_role) g.(g_holder) g.(g_generation) s in
  (match o with Ok b => b | _ => false end,
   with_inner (delete (LeaseRole_as_string g.(g_role)) r.(inner_leases)) r, s').

Definition held_role (role : LeaseRole) (r : HaRuntime) : bool :=
  bool_decide (is_Some (r.(inner_leases) !! LeaseRole_as_string role)).

(** One required role of [verify_required_leases]. *)
Definition verify_required (now : Z) (role : LeaseRole) (s : S) (r : HaRuntime) : HaRuntime :=
  let key := LeaseRole_as_string role in
  match r.(inner_leases) !! key with
  | None => r
  | Some lease =>
      match verify_lease now role lease.(ls_holder) lease.(ls_generation) s with
      | Ok true => r
      | _ => with_inner (delete key r.(inner_leases)) r
      end
  end.
End Runtime.
