(* ===== verification/HaLeaseCorrect.v ===== *)
(** Correctness of the lease protocol: the in-process store keeps the
    interface's laws, and from the laws alone, for any number of workers in any
    interleaving, at most one of them passes the fence of a role, a worker that
    has been superseded never passes it again, and cannot disturb its
    successor. *)
From stdpp Require Import prelude gmap list strings relations.
From Stdlib Require Import ZArith Lia.
From S2P Require Import Prelude.
From S2P Require Import BotCore.
From S2P Require Import Text.
From S2P Require Import HaLease.

#[local] Open Scope Z_scope.

(** * Role keys *)

Lemma LeaseRole_as_string_inj r1 r2 : LeaseRole_as_string r1 = LeaseRole_as_string r2 -> r1 = r2.
Proof. destruct r1, r2; try done. cbn. intros [= ->]. done. Qed.

Lemma trim_end_app p s : trim_end s <> [] -> trim_end (p ++ s) = p ++ trim_end s.
Proof.
  unfold trim_end. rewrite reverse_app. generalize (reverse s) as u. intros u Hu.
  assert (trim_start u <> []) as Hne by (intros Heq; by rewrite Heq in Hu).
  assert (trim_start (u ++ reverse p) = trim_start u ++ reverse p) as ->.
  { clear Hu. induction u as [|c u IH]; [done|]. cbn in *. destruct (is_whitespace c); auto. }
  by rewrite reverse_app, reverse_involutive.
Qed.

Lemma LeaseRole_roundtrip r :
  (forall name, r = Feed name -> name <> [] /\ trim name = name) ->
  LeaseRole_parse (LeaseRole_as_string r) = Some r.
Proof.
  intros Hr. destruct r as [| | | |name]; try by vm_compute.
  destruct (Hr name eq_refl) as [Hne Ht]. unfold LeaseRole_parse, LeaseRole_as_string.
  assert (trim_start name = name) as Hs by (rewrite <- Ht; unfold trim;
    destruct (trim_start name) as [|c s] eqn:Hc; [done|];
    rewrite trim_end_cons by (by eapply trim_start_cons_inv); cbn;
    by rewrite (trim_start_cons_inv _ _ _ Hc)).
  assert (trim_end name = name) as He by (unfold trim in Ht; by rewrite Hs in Ht).
  assert (trim (lit "feed:" ++ name) = lit "feed:" ++ name) as ->.
  { change (trim (lit "feed:" ++ name)) with (trim_end (lit "feed:" ++ name)).
    by rewrite trim_end_app, He by (by rewrite He). }
  rewrite !decide_False by done. cbn [strip_prefix lit].
  change (strip_prefix (lit "feed:") (lit "feed:" ++ name)) with (Some name).
  cbn [mbind option_bind]. rewrite Ht. by destruct name.
Qed.

(** * The in-process store keeps the laws *)

#[export] Instance MemoryLeaseStoreLaws : LeaseStoreLaws MemoryHaStore.
Proof.
  split; cbn [acquire_lease renew_lease verify_lease release_lease get_lease view MemoryLeaseStore].
  - intros now req s s' l. unfold memory_acquire_lease, guard_store.
    destruct (unavailable s); [done|].
    destruct (leases s !! _) as [p|] eqn:Hp; [destruct (is_live now p && _) eqn:Hb; [done|]|];
      intros [= <- <-]; cbv zeta; rewrite ?Hp; split_and!; try done; by intros p' [= <-].
  - intros now req s s' h g e. unfold memory_acquire_lease, guard_store.
    destruct (unavailable s); [done|].
    destruct (leases s !! _) as [p|] eqn:Hp; [|done]. destruct (is_live now p && _) eqn:Hb; [|done].
    intros [= <- <- <- <-]. split; [done|]. by exists p.
  - intros now req s s' o. unfold memory_acquire_lease, guard_store.
    destruct (unavailable s); [by intros [= <- <-]|].
    destruct (leases s !! _) as [p|]; [destruct (is_live now p && _)|]; by intros [= <- <-].
  - intros now role holder generation ttl s s' o. unfold memory_renew_lease, guard_store.
    destruct (unavailable s); [by intros [= <- <-]|].
    destruct (leases s !! _) as [l|] eqn:Hl; [|by intros [= <- <-]].
    assert (negb (bool_decide (ls_holder l = holder)) || negb (ls_generation l =? generation)
      || ls_released l || (ls_expires_at l <=? now) =
      negb (held_by holder generation l && is_live now l)) as ->.
    { unfold held_by, is_live. rewrite Z.leb_antisym.
      by destruct (bool_decide _), (_ =? _), (ls_released l), (now <? _). }
    destruct (held_by holder generation l && is_live now l) eqn:Hb; cbn [negb]; intros [= <- <-].
    + apply andb_true_iff in Hb as [? ?]. by exists l.
    + split; [done|]. by intros ? [= <-].
  - intros now role holder generation s b. unfold memory_verify_lease.
    destruct (unavailable s); [done|]. intros [= <-].
    destruct (leases s !! _) as [l|]; [|by split; [|intros (? & ? & _)]].
    fold (held_by holder generation l). rewrite andb_true_iff. split.
    + intros [? ?]. by exists l.
    + by intros (? & [= <-] & ? & ?).
  - intros now role holder generation s s' o. unfold memory_release_lease, guard_store.
    destruct (unavailable s); [by intros [= <- <-]|].
    destruct (leases s !! _) as [l|] eqn:Hl; [|by intros [= <- <-]].
    destruct (negb (bool_decide (ls_holder l = holder)) || negb (ls_generation l =? generation)
      || ls_released l) eqn:Hb; intros [= <- <-]; [done|].
    exists l. split; [done|]. split; [|done]. unfold held_by.
    by destruct (bool_decide _), (_ =? _).
  - intros role s o. unfold memory_get_lease. destruct (unavailable s); by intros [= <-].
Qed.

(** * Any store that keeps the laws *)

Section Protocol.
Context {S : Type} `{LeaseStoreLaws S}.
Implicit Types (s : S) (g : LeaseGuard) (r : HaRuntime).

(** One operation of some worker on the store. *)
Inductive store_step : S -> S -> Prop :=
  | step_acquire now req s : store_step s (acquire_lease now req s).2
  | step_renew now role holder generation ttl s :
      store_step s (renew_lease now role holder generation ttl s).2
  | step_release now role holder generation s :
      store_step s (release_lease now role holder generation s).2.

Definition generations_fit s : Prop :=
  forall key l, view s !! key = Some l -> 0 <= ls_generation l <= i64_max.

(** The fencing token a role is at. *)
Definition token s (key : text) : Z := from_option ls_generation 0 (view s !! key).

Lemma acquire_token now req s s' l :
  generations_fit s -> acquire_lease now req s = (Ok (Acquired l), s') ->
  generations_fit s' /\ (forall key, token s key <= token s' key) /\
  token s' (LeaseRole_as_string (rq_role req)) = ls_generation l /\
  ls_generation l = next_generation (ls_generation <$> view s !! LeaseRole_as_string (rq_role req)).
Proof.
  intros Hf Ha. apply law_acquired in Ha as (_ & -> & Hv). cbv zeta in Hv.
  set (key := LeaseRole_as_string (rq_role req)) in *. cbn [granted ls_generation] in *.
  assert (forall o, (forall l0, o = Some l0 -> 0 <= ls_generation l0 <= i64_max) ->
    from_option ls_generation 0 o <= next_generation (ls_generation <$> o) <= i64_max /\
    0 <= next_generation (ls_generation <$> o)) as Hnext.
  { intros o Ho. unfold next_generation, i64_saturating_add. destruct o as [l0|]; cbn.
    - specialize (Ho l0 eq_refl). mlia.
    - mlia. }
  destruct (Hnext (view s !! key) (Hf key)) as [[? ?] ?]. split_and!; [| | |done].
  - intros k l0. rewrite Hv. intros [[<- <-]|[_ ?]]%lookup_insert_Some; [|by eapply Hf].
    cbn. done.
  - intros k. unfold token. rewrite Hv. destruct (decide (key = k)) as [<-|Hne].
    + by rewrite lookup_insert_eq.
    + by rewrite lookup_insert_ne.
  - unfold token. rewrite Hv. by rewrite lookup_insert_eq.
Qed.

(** A write that keeps the token of the lease it replaces. *)
Lemma token_kept s s' key l l' :
  generations_fit s -> view s !! key = Some l -> view s' = <[key := l']> (view s) ->
  ls_generation l' = ls_generation l ->
  generations_fit s' /\ forall k, token s k <= token s' k.
Proof.
  intros Hf Hl Hv Hg. split.
  - intros k l0. rewrite Hv. intros [[<- <-]|[_ ?]]%lookup_insert_Some; [|by eapply Hf].
    rewrite Hg. by eapply Hf.
  - intros k. unfold token. rewrite Hv. destruct (decide (key = k)) as [<-|Hne].
    + rewrite lookup_insert_eq, Hl. cbn. lia.
    + by rewrite lookup_insert_ne.
Qed.

Lemma token_same s s' :
  generations_fit s -> view s' = view s ->
  generations_fit s' /\ forall k, token s k <= token s' k.
Proof. intros Hf Hv. unfold generations_fit, token. rewrite Hv. by split. Qed.

Lemma store_step_token s s' :
  generations_fit s -> store_step s s' ->
  generations_fit s' /\ forall key, token s key <= token s' key.
Proof.
  intros Hf Hs. destruct Hs as [now req s|now role holder generation ttl s|now role holder generation s].
  - destruct (acquire_lease now req s) as [o s'] eqn:Ha. cbn.
    destruct o as [[l|h g e]|err|].
    + by destruct (acquire_token _ _ _ _ _ Hf Ha) as (? & ? & _).
    + apply token_same; [done|]. by apply law_rejected in Ha as [? _].
    + apply token_same; [done|]. by apply law_acquire_error in Ha.
    + apply token_same; [done|]. by apply law_acquire_error in Ha.
  - destruct (renew_lease now role holder generation ttl s) as [o s'] eqn:Ha. cbn.
    apply law_renew in Ha. destruct o as [[]|err|]; [| |by apply token_same..].
    + destruct Ha as (l & Hl & _ & _ & Hv). by eapply token_kept.
    + apply token_same; [done|]. apply Ha.
  - destruct (release_lease now role holder generation s) as [o s'] eqn:Ha. cbn.
    apply law_release in Ha. destruct o as [[]|err|]; [|by apply token_same..].
    destruct Ha as (l & Hl & _ & Hv). by eapply token_kept.
Qed.

Lemma store_steps_token s s' :
  rtc store_step s s' -> generations_fit s ->
  generations_fit s' /\ forall key, token s key <= token s' key.
Proof.
  induction 1 as [|s1 s2 s3 H1 _ IH]; intros Hf; [by split|].
  destruct (store_step_token _ _ Hf H1) as [Hf2 Ht]. destruct (IH Hf2) as [Hf3 Ht'].
  split; [done|]. intros key. specialize (Ht key). specialize (Ht' key). lia.
Qed.

(** Passing the fence is holding the live lease. *)
Lemma fence_Ok now g r s r' :
  fence now g r s = (Ok tt, r') ->
  exists l, view s !! LeaseRole_as_string (g_role g) = Some l /\
    ls_holder l = g_holder g /\ ls_generation l = g_generation g /\ is_live now l = true.
Proof.
  unfold fence. destruct (verify_lease _ _ _ _ _) as [[]|e|] eqn:Hv; [|done..].
  intros _. destruct (proj1 (law_verify _ _ _ _ _ _ Hv) eq_refl) as (l & Hl & Hh & Hlive).
  exists l. unfold held_by in Hh. bool_to_prop. done.
Qed.

Lemma fence_token now g r s r' :
  fence now g r s = (Ok tt, r') -> token s (LeaseRole_as_string (g_role g)) = g_generation g.
Proof. intros (l & Hl & _ & Hg & _)%fence_Ok. unfold token. by rewrite Hl. Qed.

(** * Properties *)

(** C28: at no moment do two guards of one role both pass the fence: whoever
    passes is the one holder of the one current token. *)
Theorem lease_exclusive now g1 g2 r1 r2 s r1' r2'
  (Hrole : g_role g1 = g_role g2)
  (H1 : fence now g1 r1 s = (Ok tt, r1')) (H2 : fence now g2 r2 s = (Ok tt, r2')) :
  g1 = g2.
Proof.
  apply fence_Ok in H1 as (l1 & Hl1 & Hh1 & Hg1 & _).
  apply fence_Ok in H2 as (l2 & Hl2 & Hh2 & Hg2 & _).
  rewrite <- Hrole in Hl2. assert (l1 = l2) as <- by congruence.
  destruct g1, g2; cbn in *. congruence.
Qed.

(** C27: once a role has been acquired again, by anyone, a guard from before
    never passes the fence any more, whatever the workers do afterwards and
    whatever their clocks say (until the token saturates). *)
Theorem superseded_forever now1 g r1 r1' s1 s2 now2 req l s3 s4 now4 r4 r4'
  (Hfit : generations_fit s1) (Hheld : fence now1 g r1 s1 = (Ok tt, r1'))
  (H12 : rtc store_step s1 s2)
  (Hacq : acquire_lease now2 req s2 = (Ok (Acquired l), s3)) (Hrole : rq_role req = g_role g)
  (Hroom : token s2 (LeaseRole_as_string (g_role g)) < i64_max)
  (H34 : rtc store_step s3 s4) :
  fence now4 g r4 s4 <> (Ok tt, r4').
Proof.
  intros H4%fence_token. apply fence_token in Hheld.
  destruct (store_steps_token _ _ H12 Hfit) as [Hfit2 T12].
  destruct (acquire_token _ _ _ _ _ Hfit2 Hacq) as (Hfit3 & _ & T3 & Hl).
  destruct (store_steps_token _ _ H34 Hfit3) as [_ T34].
  rewrite Hrole in *. set (key := LeaseRole_as_string (g_role g)) in *.
  specialize (T12 key). specialize (T34 key).
  assert (ls_generation l = token s2 key + 1) as Hnext; [|lia].
  rewrite Hl. unfold token, next_generation, i64_saturating_add in *.
  destruct (view s2 !! key) as [l2|] eqn:Hl2; cbn in *; [|mlia].
  pose proof (Hfit2 _ _ Hl2). mlia.
Qed.

(** an acquisition takes a role only when no other worker's live lease
    stands in the way, and it is then the new guard that the fence accepts; a
    refusal changes nothing and names a live holder. *)
Theorem acquire_exact now role r s :
  match acquire now role r s with
  | (Ok (Some g), r', s') =>
      g_role g = role /\ g_holder g = worker_id r /\ held_role role r' = true /\
      (forall g' r2 r2', g_role g' = role -> g_holder g' <> worker_id r ->
         fence now g' r2 s <> (Ok tt, r2')) /\
      (forall b, 0 < lease_ttl r ->
         verify_lease now role (g_holder g) (g_generation g) s' = Ok b -> b = true)
  | (Ok None, r', s') =>
      r' = r /\ view s' = view s /\
      exists l, view s !! LeaseRole_as_string role = Some l /\ is_live now l = true /\
        ls_holder l <> worker_id r
  | (_, r', s') => r' = r /\ view s' = view s
  end.
Proof.
  unfold acquire. set (req := mkLeaseRequest role (worker_id r) (lease_ttl r)).
  destruct (acquire_lease now req s) as [[[l|h g e]|err|] s'] eqn:Ha.
  - apply law_acquired in Ha as (Hfree & -> & Hv). cbv zeta in Hfree, Hv.
    cbn [rq_role rq_holder req] in *. split_and!; [done|done| | |].
    + unfold held_role. apply bool_decide_eq_true. cbn. rewrite lookup_insert_eq. by eexists.
    + intros g' r2 r2' Hrole Hne (l & Hl & Hh & _ & Hlive)%fence_Ok.
      rewrite Hrole in Hl. specialize (Hfree l Hl). unfold blocks in Hfree.
      rewrite Hlive in Hfree. cbn in Hfree. bool_to_prop. congruence.
    + intros b Hpos Hver. apply (law_verify _ _ _ _ _ _ Hver). rewrite Hv.
      exists (granted now req (view s !! LeaseRole_as_string role)).
      rewrite lookup_insert_eq. split; [done|]. unfold held_by, is_live. cbn.
      rewrite bool_decide_true, Z.eqb_refl by done. split; [done|]. apply Z.ltb_lt. lia.
  - apply law_rejected in Ha as (Hv & l & Hl & Hb & _). split_and!; [done..|].
    unfold blocks in Hb. bool_to_prop. by exists l.
  - split; [done|]. by apply law_acquire_error in Ha.
  - split; [done|]. by apply law_acquire_error in Ha.
Qed.

(** a guard whose lease is gone does no harm: its renewal and its release
    are refused and leave every lease alone, its cached lease is dropped, and
    work behind the fence does not run. *)
Theorem stale_guard_harmless {A} now local g r s (work : S -> A * S)
  (Hstale : forall l, view s !! LeaseRole_as_string (g_role g) = Some l ->
     held_by (g_holder g) (g_generation g) l = false) :
  (let '(ok, r', s') := renew now local g r s in ok = false /\ view s' = view s) /\
  (let '(ok, r', s') := release now g r s in
     ok = false /\ view s' = view s /\ held_role (g_role g) r' = false) /\
  (let '(o, r', s') := guarded now g work r s in is_ok o = false /\ s' = s).
Proof.
  split_and!.
  - unfold renew. destruct (renew_lease _ _ _ _ _ _) as [o s'] eqn:Ho. apply law_renew in Ho.
    destruct o as [[]|e|]; [|by destruct Ho|done..].
    destruct Ho as (l & Hl & Hh & _). by rewrite (Hstale l Hl) in Hh.
  - unfold release. destruct (release_lease _ _ _ _ _) as [o s'] eqn:Ho. apply law_release in Ho.
    assert (held_role (g_role g) (with_inner
      (delete (LeaseRole_as_string (g_role g)) (inner_leases r)) r) = false) as Hd.
    { unfold held_role. apply bool_decide_eq_false. cbn. rewrite lookup_delete_eq. by intros [? ?]. }
    destruct o as [[]|e|]; [|done..].
    destruct Ho as (l & Hl & Hh & _). by rewrite (Hstale l Hl) in Hh.
  - unfold guarded. destruct (fence now g r s) as [[[]|e|] r'] eqn:Hf; [|done..].
    apply fence_Ok in Hf as (l & Hl & Hh & Hg & _). exfalso.
    specialize (Hstale l Hl). unfold held_by in Hstale.
    by rewrite bool_decide_true, Hg, Z.eqb_refl in Hstale.
Qed.
End Protocol.

(** * Two workers *)

Definition worker (name : text) : HaRuntime := mkHaRuntime name (45 * NANOS) ∅.

(** [w1] takes the reconciliation role; after it has expired [w2] does. *)
Definition store_w1 : MemoryHaStore := (acquire 0 Reconciliation (worker (lit "w1")) MemoryHaStore_new).2.
Definition guard_w1 : LeaseGuard := mkLeaseGuard Reconciliation (lit "w1") 1.
Definition request_w2 : LeaseRequest := mkLeaseRequest Reconciliation (lit "w2") (45 * NANOS).
Definition store_w2 : MemoryHaStore := (acquire_lease (46 * NANOS) request_w2 store_w1).2.
Definition lease_w2 : Lease :=
  mkLease Reconciliation (lit "w2") 2 (46 * NANOS) (91 * NANOS) (46 * NANOS) 1 (Some (lit "w1")) false.

Lemma store_w1_fits : generations_fit store_w1.
Proof.
  refine (proj1 (store_steps_token MemoryHaStore_new store_w1 _ _)).
  - eapply rtc_l; [|reflexivity].
    exact (step_acquire 0 (mkLeaseRequest Reconciliation (lit "w1") (45 * NANOS)) MemoryHaStore_new).
  - intros key l. cbn. by rewrite lookup_empty.
Qed.

Lemma lease_exclusive_witness : guard_w1 = mkLeaseGuard Reconciliation (lit "w1") 1.
Proof.
  apply (lease_exclusive 10 guard_w1 (mkLeaseGuard Reconciliation (lit "w1") 1)
    (worker (lit "w1")) (worker (lit "w1")) store_w1 (worker (lit "w1")) (worker (lit "w1")));
    by vm_compute.
Defined.

Lemma superseded_forever_witness :
  fence (47 * NANOS) guard_w1 (worker (lit "w1"))
    (renew_lease (46 * NANOS) Reconciliation (lit "w2") 2 (45 * NANOS) store_w2).2
  <> (Ok tt, worker (lit "w1")).
Proof.
  refine (superseded_forever 10 guard_w1 (worker (lit "w1")) (worker (lit "w1"))
    store_w1 store_w1 (46 * NANOS) request_w2 lease_w2 store_w2 _ (47 * NANOS)
    (worker (lit "w1")) (worker (lit "w1")) store_w1_fits _ (rtc_refl _ _) _ eq_refl _ _);
    [by vm_compute|by vm_compute|by vm_compute|].
  apply rtc_once. apply step_renew.
Defined.

Lemma stale_guard_harmless_witness :
  (release (47 * NANOS) guard_w1 (worker (lit "w1")) store_w2).1.1 = false.
Proof.
  assert (forall l, view store_w2 !! LeaseRole_as_string (g_role guard_w1) = Some l ->
    held_by (g_holder guard_w1) (g_generation guard_w1) l = false) as Hs.
  { intros l Hl. vm_compute in Hl. by injection Hl as <-. }
  pose proof (proj1 (proj2 (stale_guard_harmless (47 * NANOS) 0 guard_w1 (worker (lit "w1")) store_w2
    (fun s => (tt, s)) Hs))) as H.
  exact (proj1 H).
Defined.

(** While the lease of [w1] lives, [w2] is refused. *)
Lemma acquire_exact_witness :
  exists l, view store_w1 !! LeaseRole_as_string Reconciliation = Some l /\
    is_live 10 l = true /\ ls_holder l <> lit "w2".
Proof. exact (proj2 (proj2 (acquire_exact 10 Reconciliation (worker (lit "w2")) store_w1))). Defined.
