(* ===== verification/FeedCursor.v ===== *)
(** Durable feed cursors ([crates/core/src/ha/cursor.rs]) and how a worker
    reads and writes them ([HaRuntime::cursor], [offer] of [ha/runtime.rs]):
    replay suppression, gap detection, and what a cached cursor misses. *)
From stdpp Require Import prelude gmap list strings sorting.
From Stdlib Require Import ZArith Lia.
From S2P Require Import Prelude.
From S2P Require Import Text.

#[local] Open Scope Z_scope.

(** * Data *)

Inductive FeedId : Type :=
  | SniperLaunches | CopyLogs | CopyGeyser | PolymarketMarket | PolymarketUser.

Definition FeedId_ALL : list FeedId :=
  [SniperLaunches; CopyLogs; CopyGeyser; PolymarketMarket; PolymarketUser].

Definition FeedId_as_str (f : FeedId) : text :=
  match f with
  | SniperLaunches => lit "sniper_launches"
  | CopyLogs => lit "copy_logs"
  | CopyGeyser => lit "copy_geyser"
  | PolymarketMarket => lit "polymarket_market"
  | PolymarketUser => lit "polymarket_user"
  end.

Definition FeedId_parse (s : text) : option FeedId :=
  List.find (fun f => bool_decide (FeedId_as_str f = s)) FeedId_ALL.

Definition is_sequenced (f : FeedId) : bool :=
  match f with PolymarketUser | CopyGeyser => true | _ => false end.

Record FeedCursor : Type := mkFeedCursor {
  fc_feed : FeedId;
  fc_scope : text;
  fc_position : option Z;          (* u64 *)
  fc_token : option text;
  fc_last_event_at : option Z;
  fc_updated_at : Z;
  fc_processed_count : Z;
  fc_duplicate_count : Z;
  fc_gap_count : Z;
  fc_worker_id : text;
}.

Definition FeedCursor_new (feed : FeedId) (scope worker_id : text) (now : Z) : FeedCursor :=
  mkFeedCursor feed scope None None None now 0 0 0 worker_id.

Definition cursor_key (feed : FeedId) (scope : text) : text :=
  if is_empty scope then FeedId_as_str feed else FeedId_as_str feed ++ lit ":" ++ scope.

Definition key (c : FeedCursor) : text := cursor_key c.(fc_feed) c.(fc_scope).

Inductive GapStatus : Type := Detected | Backfilled | Accepted.

Record FeedGap : Type := mkFeedGap {
  fg_feed : FeedId;
  fg_scope : text;
  fg_from_position : Z;
  fg_to_position : Z;
  fg_detected_at : Z;
  fg_worker_id : text;
  fg_status : GapStatus;
}.

Definition FeedGap_len (g : FeedGap) : Z :=
  saturating_sub g.(fg_to_position) g.(fg_from_position) + 1.

Inductive CursorAdvance : Type :=
  | Advanced
  | Duplicate
  | Gap (g : FeedGap).

Definition should_process (a : CursorAdvance) : bool :=
  match a with Duplicate => false | _ => true end.

(** * [FeedCursor::offer] *)

Definition counted_duplicate (c : FeedCursor) : FeedCursor :=
  mkFeedCursor c.(fc_feed) c.(fc_scope) c.(fc_position) c.(fc_token) c.(fc_last_event_at)
    c.(fc_updated_at) c.(fc_processed_count) (c.(fc_duplicate_count) + 1) c.(fc_gap_count)
    c.(fc_worker_id).

Definition offer (position : Z) (event_at : option Z) (worker_id : text) (now : Z)
    (c : FeedCursor) : CursorAdvance * FeedCursor :=
  let advanced gap_count :=
    mkFeedCursor c.(fc_feed) c.(fc_scope) (Some position) c.(fc_token)
      (option_or event_at c.(fc_last_event_at)) now (c.(fc_processed_count) + 1)
      c.(fc_duplicate_count) gap_count worker_id in
  match c.(fc_position) with
  | Some last =>
      if position <=? last then (Duplicate, counted_duplicate c)
      else if last + 1 <? position then
        (Gap (mkFeedGap c.(fc_feed) c.(fc_scope) (last + 1) (position - 1) now worker_id Detected),
         advanced (c.(fc_gap_count) + 1))
      else (Advanced, advanced c.(fc_gap_count))
  | None => (Advanced, advanced c.(fc_gap_count))
  end.

Definition offer_token (token : text) (event_at : option Z) (worker_id : text) (now : Z)
    (c : FeedCursor) : CursorAdvance * FeedCursor :=
  if decide (c.(fc_token) = Some token) then (Duplicate, counted_duplicate c)
  else (Advanced,
        mkFeedCursor c.(fc_feed) c.(fc_scope) c.(fc_position) (Some token)
          (option_or event_at c.(fc_last_event_at)) now (c.(fc_processed_count) + 1)
          c.(fc_duplicate_count) c.(fc_gap_count) worker_id).

Definition rewind_to (position : option Z) (now : Z) (c : FeedCursor) : FeedCursor :=
  mkFeedCursor c.(fc_feed) c.(fc_scope) position c.(fc_token) c.(fc_last_event_at) now
    c.(fc_processed_count) c.(fc_duplicate_count) c.(fc_gap_count) c.(fc_worker_id).

(** * A worker's cursors *)

(** The store's cursors and journal of gaps, and one worker's cache. *)
Record CursorStore : Type := mkCursorStore {
  cs_cursors : gmap text FeedCursor;
  cs_gaps : list FeedGap;
}.

Record CursorCache : Type := mkCursorCache {
  cc_worker_id : text;
  cc_cursors : gmap text FeedCursor;
}.

(** [HaRuntime::cursor]: the cached one, else the stored one, else a new one. *)
Definition cursor (feed : FeedId) (scope : text) (now : Z) (s : CursorStore) (r : CursorCache)
    : FeedCursor * CursorCache :=
  let k := cursor_key feed scope in
  match r.(cc_cursors) !! k with
  | Some c => (c, r)
  | None =>
      let c := default (FeedCursor_new feed scope r.(cc_worker_id) now) (s.(cs_cursors) !! k) in
      (c, mkCursorCache r.(cc_worker_id) (<[k := c]> r.(cc_cursors)))
  end.

(** [HaRuntime::offer], with a store that answers. *)
Definition runtime_offer (feed : FeedId) (scope : text) (position : Z) (event_at : option Z)
    (now : Z) (s : CursorStore) (r : CursorCache) : CursorAdvance * CursorStore * CursorCache :=
  let '(c, r1) := cursor feed scope now s r in
  let '(advance, c') := offer position event_at r.(cc_worker_id) now c in
  let gaps := match advance with Gap g => s.(cs_gaps) ++ [g] | _ => s.(cs_gaps) end in
  let cursors := if should_process advance then <[key c' := c']> s.(cs_cursors)
                 else s.(cs_cursors) in
  (advance, mkCursorStore cursors gaps,
   mkCursorCache r1.(cc_worker_id) (<[key c' := c']> r1.(cc_cursors))).

(** [HaRuntime::replay_from]. *)
Definition replay_from (feed : FeedId) (scope : text) (position : option Z) (now : Z)
    (s : CursorStore) (r : CursorCache) : CursorStore * CursorCache :=
  let '(c, r1) := cursor feed scope now s r in
  let c' := rewind_to position now c in
  (mkCursorStore (<[key c' := c']> s.(cs_cursors)) s.(cs_gaps),
   mkCursorCache r1.(cc_worker_id) (<[key c' := c']> r1.(cc_cursors))).

(** * A run of offers *)

(** Offer the items of a feed one after the other. *)
Fixpoint offer_all (worker_id : text) (items : list (Z * option Z * Z)) (c : FeedCursor)
    : list (Z * CursorAdvance) * FeedCursor :=
  match items with
  | [] => ([], c)
  | (position, event_at, now) :: rest =>
      let '(a, c') := offer position event_at worker_id now c in
      let '(out, c'') := offer_all worker_id rest c' in
      ((position, a) :: out, c'')
  end.

(** The positions the caller processes, and the gaps it is told of. *)
Definition processed (out : list (Z * CursorAdvance)) : list Z :=
  map fst (List.filter (fun o => should_process o.2) out).

Definition gaps_of (out : list (Z * CursorAdvance)) : list FeedGap :=
  omap (fun o => match o.2 with Gap g => Some g | _ => None end) out.

Definition in_gap (n : Z) (g : FeedGap) : Prop := g.(fg_from_position) <= n <= g.(fg_to_position).

(** What one offer does to a cursor that has a position. *)
Lemma offer_cases position event_at worker_id now c last :
  c.(fc_position) = Some last ->
  let '(a, c') := offer position event_at worker_id now c in
  (position <= last /\ a = Duplicate /\ c' = counted_duplicate c) \/
  (last < position /\ c'.(fc_position) = Some position /\
   c'.(fc_processed_count) = c.(fc_processed_count) + 1 /\
   c'.(fc_duplicate_count) = c.(fc_duplicate_count) /\
   (a = Advanced /\ position = last + 1 /\ c'.(fc_gap_count) = c.(fc_gap_count) \/
    exists g, a = Gap g /\ g.(fg_from_position) = last + 1 /\ g.(fg_to_position) = position - 1 /\
      last + 1 < position /\ c'.(fc_gap_count) = c.(fc_gap_count) + 1)).
Proof.
  intros Hp. unfold offer. rewrite Hp.
  destruct (Z.leb_spec position last); [by left|].
  destruct (Z.ltb_spec (last + 1) position); right; (split_and!; [lia|done|done|done|]).
  - right. eexists. split_and!; [done|done|done|lia|done].
  - left. split_and!; [done|lia|done].
Qed.

Record accounted (base : Z) (c : FeedCursor) (out : list (Z * CursorAdvance)) (c' : FeedCursor)
    : Prop := {
  ac_position : exists final, c'.(fc_position) = Some final /\ base <= final /\
    (forall n, n ∈ processed out -> base < n <= final) /\
    (forall g n, g ∈ gaps_of out -> in_gap n g -> base < n <= final) /\
    (forall n, base < n <= final -> n ∈ processed out \/ exists g, g ∈ gaps_of out /\ in_gap n g);
  ac_sorted : StronglySorted Z.lt (processed out);
  ac_disjoint n g : n ∈ processed out -> g ∈ gaps_of out -> ~ in_gap n g;
  ac_processed : c'.(fc_processed_count) = c.(fc_processed_count) + Z.of_nat (length (processed out));
  ac_duplicates : c'.(fc_duplicate_count) =
    c.(fc_duplicate_count) + Z.of_nat (length out - length (processed out));
  ac_gaps : c'.(fc_gap_count) = c.(fc_gap_count) + Z.of_nat (length (gaps_of out));
}.

Lemma processed_length out : (length (processed out) <= length out)%nat.
Proof. unfold processed. rewrite length_map. apply filter_length_le. Qed.

Lemma offer_all_accounted worker_id items c base :
  c.(fc_position) = Some base ->
  let '(out, c') := offer_all worker_id items c in accounted base c out c'.
Proof.
  revert c base. induction items as [|[[position event_at] now] rest IH]; intros c base Hp;
    cbn [offer_all].
  { split; cbn; try lia; [|constructor|by intros ? ? ?%elem_of_nil].
    exists base. split_and!; [done|lia|by intros ? ?%elem_of_nil|by intros ? ? ?%elem_of_nil|intros n ?; lia]. }
  pose proof (offer_cases position event_at worker_id now c base Hp) as Hoff.
  destruct (offer position event_at worker_id now c) as [a c1].
  destruct Hoff as [(Hle & -> & ->)|(Hlt & Hp1 & Hn1 & Hd1 & Hcase)].
  - specialize (IH (counted_duplicate c) base Hp).
    destruct (offer_all worker_id rest (counted_duplicate c)) as [out c'].
    destruct IH as [Hpos Hs Hdis Hn Hd Hg]. pose proof (processed_length out) as Hlen.
    split; try done. rewrite Hd. unfold processed in *. cbn. cbn in Hlen. lia.
  - specialize (IH c1 position Hp1). destruct (offer_all worker_id rest c1) as [out c'].
    destruct IH as [(final & Hf & Hbf & Hproc & Hgap & Hcover) Hs Hdis Hn Hd Hg].
    assert (should_process a = true) as Ha by (destruct Hcase as [(-> & _)|(g & -> & _)]; done).
    assert (processed ((position, a) :: out) = position :: processed out) as Hpr
      by (unfold processed; cbn; by rewrite Ha).
    pose proof (processed_length out) as Hlen.
    assert (forall n, n ∈ processed out -> position < n) as Hafter by (intros n Hin; by apply Hproc).
    destruct Hcase as [(-> & Hnext & Hg1)|(g & -> & Hfrom & Hto & Hskip & Hg1)].
    + assert (gaps_of ((position, Advanced) :: out) = gaps_of out) as Hga by done.
      split; rewrite ?Hpr, ?Hga; cbn [length].
      * exists final. split_and!; [done|lia| | |].
        -- intros n [->|Hin]%elem_of_cons; [lia|]. specialize (Hproc n Hin). lia.
        -- intros g n Hin Hn'. specialize (Hgap g n Hin Hn'). lia.
        -- intros n Hn'. rewrite elem_of_cons. destruct (decide (n = position)) as [->|]; [by do 2 left|].
           destruct (Hcover n ltac:(lia)) as [?|?]; auto.
      * constructor; [done|]. by apply Forall_forall.
      * intros n g [->|Hin]%elem_of_cons Hin'; [|by apply Hdis].
        intros Hn'. specialize (Hgap g position Hin' Hn'). lia.
      * rewrite Hn, Hn1. lia.
      * rewrite Hd, Hd1. lia.
      * by rewrite Hg, Hg1.
    + assert (gaps_of ((position, Gap g) :: out) = g :: gaps_of out) as Hga by done.
      split; rewrite ?Hpr, ?Hga; cbn [length].
      * exists final. split_and!; [done|lia| | |].
        -- intros n [->|Hin]%elem_of_cons; [lia|]. specialize (Hproc n Hin). lia.
        -- intros g' n [->|Hin]%elem_of_cons Hn'; [unfold in_gap in Hn'; lia|].
           specialize (Hgap g' n Hin Hn'). lia.
        -- intros n Hn'. rewrite elem_of_cons. destruct (decide (n = position)) as [->|]; [by do 2 left|].
           destruct (decide (n < position)).
           ++ right. exists g. split; [by left|]. unfold in_gap. lia.
           ++ destruct (Hcover n ltac:(lia)) as [?|(g' & ? & ?)]; [auto|].
              right. exists g'. split; [by right|done].
      * constructor; [done|]. by apply Forall_forall.
      * intros n g' Hin [->|Hin']%elem_of_cons.
        -- unfold in_gap. apply elem_of_cons in Hin as [->|Hin]; [lia|]. specialize (Hafter n Hin). lia.
        -- apply elem_of_cons in Hin as [->|Hin]; [|by apply Hdis].
           intros Hn'. specialize (Hgap g' position Hin' Hn'). lia.
      * rewrite Hn, Hn1. lia.
      * rewrite Hd, Hd1. lia.
      * rewrite Hg, Hg1. lia.
Qed.

(** * Properties *)

(** from a cursor at some position, whatever a feed delivers and in
    whatever order, no position is processed twice or at or behind the cursor,
    and nothing is skipped silently: every position the cursor has passed was
    either processed or lies in exactly the reported gaps, and the three
    counters count. *)
Theorem cursor_accounts worker_id items c base
  (Hp : fc_position c = Some base) :
  let '(out, c') := offer_all worker_id items c in
  let ps := processed out in
  let gs := gaps_of out in
  exists final, fc_position c' = Some final /\ base <= final /\
    StronglySorted Z.lt ps /\
    (forall n, base < n <= final <-> n ∈ ps \/ exists g, g ∈ gs /\ in_gap n g) /\
    (forall n g, n ∈ ps -> g ∈ gs -> ~ in_gap n g) /\
    fc_processed_count c' = fc_processed_count c + Z.of_nat (length ps) /\
    fc_duplicate_count c' = fc_duplicate_count c + Z.of_nat (length out - length ps) /\
    fc_gap_count c' = fc_gap_count c + Z.of_nat (length gs).
Proof.
  pose proof (offer_all_accounted worker_id items c base Hp) as H.
  destruct (offer_all worker_id items c) as [out c'].
  destruct H as [(final & Hf & Hb & Hproc & Hgap & Hcover) Hs Hdis Hn Hd Hg].
  exists final. split_and!; try done. intros n. split; [apply Hcover|].
  intros [Hin|(g & Hin & Hn')]; [by apply Hproc|by eapply Hgap].
Qed.

Definition sample_cursor : FeedCursor :=
  snd (offer 41 None (lit "w1") 0 (FeedCursor_new PolymarketUser [] (lit "w1") 0)).

Definition sample_items : list (Z * option Z * Z) :=
  [(42, None, 1); (45, None, 2); (44, None, 3); (45, None, 4); (46, None, 5)].

Example sample_offers :
  map snd (fst (offer_all (lit "w1") sample_items sample_cursor)) =
  [Advanced; Gap (mkFeedGap PolymarketUser [] 43 44 2 (lit "w1") Detected); Duplicate; Duplicate;
   Advanced].
Proof. by vm_compute. Qed.

Lemma cursor_accounts_witness :
  exists final, fc_position (snd (offer_all (lit "w1") sample_items sample_cursor)) = Some final /\
    41 <= final.
Proof.
  assert (fc_position sample_cursor = Some 41) as Hp by done.
  destruct (cursor_accounts (lit "w1") sample_items sample_cursor 41 Hp) as (final & Hf & Hb & _).
  exists final. split; [exact Hf|exact Hb].
Defined.

(** The cache outlives the feed's lease: a worker that has held a feed, lost
    it to another and got it back continues from its own old cursor, processes
    again what the other has processed, and writes the older position back. *)
Theorem cached_cursor_replays :
  let s0 := mkCursorStore ∅ [] in
  let w1 := mkCursorCache (lit "w1") ∅ in
  let w2 := mkCursorCache (lit "w2") ∅ in
  let '(a1, s1, w1) := runtime_offer PolymarketUser [] 50 None 1 s0 w1 in
  let '(a2, s2, w2) := runtime_offer PolymarketUser [] 51 None 2 s1 w2 in
  let '(a3, s3, w2) := runtime_offer PolymarketUser [] 52 None 3 s2 w2 in
  let '(a4, s4, w1) := runtime_offer PolymarketUser [] 51 None 4 s3 w1 in
  a2 = Advanced /\ a4 = Advanced /\
  option_map fc_position (cs_cursors s3 !! cursor_key PolymarketUser []) = Some (Some 52) /\
  option_map fc_position (cs_cursors s4 !! cursor_key PolymarketUser []) = Some (Some 51).
Proof. vm_compute. done. Qed.
