(* ===== verification/Reconciliation.v ===== *)
(** The reconciliation engine ([crates/core/src/reconciliation.rs]): local
    records against what the venue or the chain reports.  The comparison
    functions are pure, as in the source. *)
From stdpp Require Import prelude strings.
From Stdlib Require Import ZArith Lia SpecFloat.
From S2P Require Import Prelude.
From S2P Require Import Text.
From S2P Require Import Float64.

#[local] Open Scope Z_scope.

(** * Data *)

Inductive ExternalState (T : Type) : Type :=
  | Observed (t : T)
  | Unavailable (reason : text).
Arguments Observed {T} t.
Arguments Unavailable {T} reason.

Definition is_available {T} (e : ExternalState T) : bool :=
  match e with Observed _ => true | Unavailable _ => false end.

Record BalanceObservation : Type := mkBalanceObservation {
  ob_raw_total : Z;                 (* u64 *)
  ob_ui_total : f64;
  ob_decimals : Z;                  (* u8 *)
  ob_accounts : nat;
}.

Record FillRecord : Type := mkFillRecord {
  fr_side : text;
  fr_qty : f64;
  fr_quote : f64;
}.

Record PositionSnapshot : Type := mkPositionSnapshot {
  sn_id : text;
  sn_qty : f64;
  sn_open : bool;
  sn_has_unresolved_execution : bool;
  sn_fills : list FillRecord;
}.

Record QuantityTolerance : Type := mkQuantityTolerance {
  qt_relative : f64;
  qt_dust : f64;
}.

Definition QuantityTolerance_default : QuantityTolerance :=
  mkQuantityTolerance (f_lit 1 100) (f_lit 1 1000000000).

Inductive ReconOutcome : Type :=
  | InSync
  | ExternalAhead (local external : f64)
  | LocalAhead (local external : f64)
  | QuantityMismatch (local external : f64)
  | BalanceMismatch (expected observed : f64)
  | MissingPosition
  | UnexpectedPosition (external : f64)
  | UnknownExecution
  | MissingTransaction
  | DuplicateExecution
  | StaleLocalState
  | ExternalStateUnavailable (reason : text)
  | RecoveryRequired (reason : text).

Definition is_divergent (o : ReconOutcome) : bool :=
  match o with
  | ExternalAhead _ _ | LocalAhead _ _ | QuantityMismatch _ _ | BalanceMismatch _ _
  | MissingPosition | UnexpectedPosition _ | DuplicateExecution | RecoveryRequired _ => true
  | _ => false
  end.

Definition is_inconclusive (o : ReconOutcome) : bool :=
  match o with
  | UnknownExecution | ExternalStateUnavailable _ | StaleLocalState => true
  | _ => false
  end.

Inductive LocalExecutionState : Type :=
  | SubmittedUnconfirmed | RecordedConfirmed | RecordedFailed | NoLocalRecord.
Inductive ExternalExecutionState : Type :=
  | Succeeded | FailedOnExternal | Pending | NotFound.

(** * Executions *)

Definition em_dash : text := [8212].

Definition classify_execution (local : LocalExecutionState)
    (external : ExternalState ExternalExecutionState) : ReconOutcome :=
  match external with
  | Unavailable reason => ExternalStateUnavailable reason
  | Observed observed =>
      match local, observed with
      | SubmittedUnconfirmed, Succeeded => InSync
      | SubmittedUnconfirmed, FailedOnExternal => InSync
      | SubmittedUnconfirmed, Pending => UnknownExecution
      | SubmittedUnconfirmed, NotFound => MissingTransaction
      | RecordedConfirmed, Succeeded => InSync
      | RecordedConfirmed, FailedOnExternal =>
          RecoveryRequired (lit "recorded confirmed but failed on chain")
      | RecordedConfirmed, Pending => StaleLocalState
      | RecordedConfirmed, NotFound =>
          RecoveryRequired (lit "recorded confirmed but externally unknown")
      | RecordedFailed, Succeeded =>
          RecoveryRequired (lit "recorded failed but confirmed externally " ++ em_dash ++ lit " money moved")
      | RecordedFailed, FailedOnExternal => InSync
      | RecordedFailed, Pending =>
          RecoveryRequired (lit "recorded failed but still pending externally")
      | RecordedFailed, NotFound => InSync
      | NoLocalRecord, Succeeded =>
          RecoveryRequired (lit "externally confirmed execution with no local record")
      | NoLocalRecord, FailedOnExternal => UnknownExecution
      | NoLocalRecord, Pending =>
          RecoveryRequired (lit "pending external execution with no local record")
      | NoLocalRecord, NotFound => InSync
      end
  end.

(** * Positions *)

(** [str::eq_ignore_ascii_case]. *)
Definition eq_ignore_ascii_case (a b : text) : bool :=
  bool_decide (map ascii_lower a = map ascii_lower b).

Definition is_exit_fill (f : FillRecord) : bool :=
  eq_ignore_ascii_case f.(fr_side) (lit "sell") && fltb fzero f.(fr_qty).

Definition qty_diff (local : PositionSnapshot) (o : BalanceObservation) : f64 :=
  fsub o.(ob_ui_total) local.(sn_qty).

Definition within_tolerance (local : PositionSnapshot) (o : BalanceObservation)
    (tol : QuantityTolerance) : bool :=
  fleb (fabs (qty_diff local o)) (fmax tol.(qt_dust) (fmul (fabs local.(sn_qty)) tol.(qt_relative))).

Definition compare_position (local : PositionSnapshot)
    (external : ExternalState BalanceObservation) (tol : QuantityTolerance) : ReconOutcome :=
  match external with
  | Unavailable reason => ExternalStateUnavailable reason
  | Observed o =>
      if negb local.(sn_open) then
        if fltb tol.(qt_dust) o.(ob_ui_total) then UnexpectedPosition o.(ob_ui_total) else InSync
      else if local.(sn_has_unresolved_execution) then UnknownExecution
      else if within_tolerance local o tol then InSync
      else if fleb o.(ob_ui_total) tol.(qt_dust) then
        if existsb is_exit_fill local.(sn_fills) then MissingPosition
        else RecoveryRequired (lit "position open locally, zero on-chain, no recorded exit fill")
      else if fltb fzero (qty_diff local o) then ExternalAhead local.(sn_qty) o.(ob_ui_total)
      else LocalAhead local.(sn_qty) o.(ob_ui_total)
  end.

(** * Profit and loss from fills *)

Record PnlReconstruction : Type := mkPnlReconstruction {
  pnl_open_qty : f64;
  pnl_avg_entry : f64;
  pnl_buy_cost : f64;
  pnl_sell_proceeds : f64;
  pnl_realized : f64;
  pnl_open_cost_basis : f64;
}.

(** The loop's variables. *)
Record PnlState : Type := mkPnlState {
  ps_open_qty : f64;
  ps_open_cost : f64;
  ps_buy_cost : f64;
  ps_sell_proceeds : f64;
  ps_realized : f64;
}.

Definition pnl_fill (s : PnlState) (f : FillRecord) : PnlState :=
  if negb (is_finite f.(fr_qty) && fltb fzero f.(fr_qty) && is_finite f.(fr_quote)) then s
  else if eq_ignore_ascii_case f.(fr_side) (lit "buy") then
    {| ps_open_qty := fadd s.(ps_open_qty) f.(fr_qty);
       ps_open_cost := fadd s.(ps_open_cost) f.(fr_quote);
       ps_buy_cost := fadd s.(ps_buy_cost) f.(fr_quote);
       ps_sell_proceeds := s.(ps_sell_proceeds);
       ps_realized := s.(ps_realized) |}
  else if eq_ignore_ascii_case f.(fr_side) (lit "sell") then
    let qty := fmin f.(fr_qty) s.(ps_open_qty) in
    if fleb qty fzero then s
    else
      let avg := if fltb fzero s.(ps_open_qty) then fdiv s.(ps_open_cost) s.(ps_open_qty) else fzero in
      let cost_of_sold := fmul avg qty in
      let proceeds := fmul f.(fr_quote) (fdiv qty f.(fr_qty)) in
      {| ps_open_qty := fsub s.(ps_open_qty) qty;
         ps_open_cost := fsub s.(ps_open_cost) cost_of_sold;
         ps_buy_cost := s.(ps_buy_cost);
         ps_sell_proceeds := fadd s.(ps_sell_proceeds) proceeds;
         ps_realized := fadd s.(ps_realized) (fsub proceeds cost_of_sold) |}
  else s.

Definition pnl_start : PnlState := mkPnlState fzero fzero fzero fzero fzero.

Definition reconstruct_pnl (fills : list FillRecord) : PnlReconstruction :=
  let s := fold_left pnl_fill fills pnl_start in
  {| pnl_open_qty := s.(ps_open_qty);
     pnl_avg_entry :=
       if fltb fzero s.(ps_open_qty) then fdiv s.(ps_open_cost) s.(ps_open_qty) else fzero;
     pnl_buy_cost := s.(ps_buy_cost);
     pnl_sell_proceeds := s.(ps_sell_proceeds);
     pnl_realized := s.(ps_realized);
     pnl_open_cost_basis := fmax s.(ps_open_cost) fzero |}.

(** * Theorems *)

(** What justifies each verdict on a position. *)
Definition justified (local : PositionSnapshot) (external : ExternalState BalanceObservation)
    (tol : QuantityTolerance) (out : ReconOutcome) : Prop :=
  match external with
  | Unavailable reason => out = ExternalStateUnavailable reason
  | Observed o =>
      let settled := local.(sn_open) = true /\ local.(sn_has_unresolved_execution) = false in
      let gone := settled /\ within_tolerance local o tol = false
                  /\ fleb o.(ob_ui_total) tol.(qt_dust) = true in
      let differs := settled /\ within_tolerance local o tol = false
                  /\ fleb o.(ob_ui_total) tol.(qt_dust) = false in
      match out with
      | InSync =>
          (local.(sn_open) = false /\ fltb tol.(qt_dust) o.(ob_ui_total) = false)
          \/ (settled /\ within_tolerance local o tol = true)
      | UnexpectedPosition e =>
          e = o.(ob_ui_total) /\ local.(sn_open) = false /\ fltb tol.(qt_dust) e = true
      | UnknownExecution => local.(sn_open) = true /\ local.(sn_has_unresolved_execution) = true
      | MissingPosition => gone /\ exists f, f ∈ local.(sn_fills) /\ is_exit_fill f = true
      | RecoveryRequired _ => gone /\ forall f, f ∈ local.(sn_fills) -> is_exit_fill f = false
      | ExternalAhead l e =>
          l = local.(sn_qty) /\ e = o.(ob_ui_total) /\ differs /\ fltb fzero (qty_diff local o) = true
      | LocalAhead l e =>
          l = local.(sn_qty) /\ e = o.(ob_ui_total) /\ differs /\ fltb fzero (qty_diff local o) = false
      | _ => False
      end
  end.

Lemma existsb_elem {A} (f : A -> bool) (l : list A) :
  existsb f l = true <-> exists x, x ∈ l /\ f x = true.
Proof.
  rewrite existsb_exists. by setoid_rewrite <- list_elem_of_In.
Qed.

Lemma existsb_elem_false {A} (f : A -> bool) (l : list A) :
  existsb f l = false -> forall x, x ∈ l -> f x = false.
Proof.
  intros Hf x Hx. apply not_true_iff_false. intros Ht.
  assert (existsb f l = true) by (apply existsb_elem; eauto). congruence.
Qed.

(** the position comparison gives a verdict exactly when it is justified,
    and at most one verdict is: an unreadable chain concludes nothing, an
    unsettled execution concludes nothing about an open position, a position is
    called missing only with an exit fill on record and needs recovery only
    without one, and the two directions of a difference carry both quantities. *)
Theorem compare_position_exact (local : PositionSnapshot)
    (external : ExternalState BalanceObservation) (tol : QuantityTolerance) :
  justified local external tol (compare_position local external tol) /\
  (is_available external = false -> is_inconclusive (compare_position local external tol) = true) /\
  (forall out, justified local external tol out ->
     (forall r, out <> RecoveryRequired r) -> out = compare_position local external tol).
Proof.
  destruct external as [o|reason]; cbn [justified is_available compare_position]; [|by auto].
  destruct (sn_open local); cbn [negb]; [|destruct (fltb (qt_dust tol) (ob_ui_total o)) eqn:He].
  - destruct (sn_has_unresolved_execution local).
    { split; [done|]. split; [done|]. intros []; naive_solver. }
    destruct (within_tolerance local o tol) eqn:Hw.
    { split; [naive_solver|]. split; [done|]. intros []; naive_solver. }
    destruct (fleb (ob_ui_total o) (qt_dust tol)) eqn:Hd.
    + destruct (existsb is_exit_fill (sn_fills local)) eqn:Hx.
      * apply existsb_elem in Hx. split; [naive_solver|]. split; [done|]. intros []; naive_solver.
      * pose proof (existsb_elem_false _ _ Hx) as Hno. split; [by auto|]. split; [done|].
        intros out Hj Hr. destruct out; try naive_solver.
        destruct Hj as (_ & f & Hf & Hxf). by rewrite (Hno f Hf) in Hxf.
    + destruct (fltb fzero (qty_diff local o)) eqn:Hq; (split; [naive_solver|]); (split; [done|]);
        intros []; naive_solver.
  - split; [done|]. split; [done|].
    intros [] Hj Hr; destruct_or?; destruct_and?; subst; done.
  - split; [by left|]. split; [done|].
    intros [] Hj Hr; destruct_or?; destruct_and?; subst; congruence.
Qed.

(** An execution is called in sync only when the local record and the chain
    agree on whether money moved; money that moved against the record, or
    without one, always needs recovery. *)
Theorem classify_money_safe (local : LocalExecutionState)
    (external : ExternalState ExternalExecutionState) :
  let out := classify_execution local external in
  (out = InSync ->
     (local = RecordedConfirmed -> external = Observed Succeeded) /\
     (external = Observed Succeeded -> local = RecordedConfirmed \/ local = SubmittedUnconfirmed) /\
     external <> Observed Pending /\ is_available external = true) /\
  (external = Observed Succeeded -> local = RecordedFailed \/ local = NoLocalRecord ->
     exists r, out = RecoveryRequired r) /\
  (is_available external = false -> is_inconclusive out = true).
Proof. destruct local, external as [[]|]; cbn; naive_solver. Qed.

(** Rules 2 and 3 of the comment on [compare_position] are applied the other way
    round: a closed position with an execution in flight is judged at once. *)
Theorem closed_with_unresolved_is_judged :
  compare_position
    {| sn_id := lit "p"; sn_qty := fzero; sn_open := false;
       sn_has_unresolved_execution := true; sn_fills := [] |}
    (Observed {| ob_raw_total := 5000000000; ob_ui_total := f_of_Z 5; ob_decimals := 9;
                 ob_accounts := 1 |})
    QuantityTolerance_default
  = UnexpectedPosition (f_of_Z 5).
Proof. vm_compute. reflexivity. Qed.
