(* ===== verification/LedgerEvent.v ===== *)
(** Accounting events and their double-entry expansion
    ([crates/core/src/accounting/event.rs] and [posting.rs]).  The SHA-256
    digest, [chrono]'s calendar and its largest instant belong to other
    packages: they are the class [LedgerLibs]. *)
From stdpp Require Import prelude countable strings pretty.
From Stdlib Require Import ZArith Lia SpecFloat.
From S2P Require Import Prelude.
From S2P Require Import Text.
From S2P Require Import Float64.
From S2P Require Import Models.

#[local] Open Scope Z_scope.

(** What the ledger uses of [sha2]/[hex] and [chrono]: the lower-case
    hexadecimal digest of a text, [%Y-%m-%d] of an instant, the last instant a
    [DateTime<Utc>] can hold (nanoseconds). *)
Class LedgerLibs : Type := {
  sha256_hex : text -> text;
  format_day : Z -> text;
  datetime_max : Z;
}.

(** * Events ([event.rs]) *)

Definition EVENT_ID_PREFIX : text := lit "led_".

Inductive EventKind : Type :=
  | Fill | Fee | Settlement | Deposit | Withdrawal | Transfer | FundingAdjustment | Correction.
Inductive EventSide : Type := Buy | Sell.

#[export] Instance EventKind_eq_dec : EqDecision EventKind.
Proof. solve_decision. Defined.
#[export] Instance EventSide_eq_dec : EqDecision EventSide.
Proof. solve_decision. Defined.

Definition EventKind_ALL : list EventKind :=
  [Fill; Fee; Settlement; Deposit; Withdrawal; Transfer; FundingAdjustment; Correction].

Definition EventKind_as_str (k : EventKind) : text :=
  match k with
  | Fill => lit "fill"
  | Fee => lit "fee"
  | Settlement => lit "settlement"
  | Deposit => lit "deposit"
  | Withdrawal => lit "withdrawal"
  | Transfer => lit "transfer"
  | FundingAdjustment => lit "funding_adjustment"
  | Correction => lit "correction"
  end.

Definition EventKind_parse (s : text) : option EventKind :=
  snd <$> list_find (fun k => EventKind_as_str k = s) EventKind_ALL.

Definition moves_inventory (k : EventKind) : bool :=
  match k with
  | Fill | Settlement | Correction => true
  | _ => false
  end.

Record AccountingEvent : Type := mkAccountingEvent {
  ev_kind : EventKind;
  ev_module : BotModule;
  ev_venue : Venue;
  ev_wallet : text;
  ev_strategy : text;
  ev_asset : text;
  ev_quote_asset : text;
  ev_side : option EventSide;
  ev_quantity : f64;
  ev_price : option f64;
  ev_quote_amount : f64;
  ev_fee : f64;
  ev_mode : ExecutionMode;
  ev_reference_id : text;
  ev_correlation_id : option text;
  ev_position_id : option text;
  ev_trade_id : option text;
  ev_counterparty_wallet : option text;
  ev_ts : Z;
  ev_detail : text;
}.

#[export] Instance AccountingEvent_eq_dec : EqDecision AccountingEvent.
Proof. solve_decision. Defined.

Definition bar : text := lit "|".

Section Identity.
Context {libs : LedgerLibs}.

Definition event_id_for (kind : EventKind) (module : BotModule) (venue : Venue)
    (wallet reference_id : text) : text :=
  EVENT_ID_PREFIX ++ take 40
    (sha256_hex (lit "ledger-event-v1|" ++ EventKind_as_str kind ++ bar ++ BotModule_as_str module
                 ++ bar ++ Venue_as_str venue ++ bar ++ trim wallet ++ bar ++ trim reference_id)).

Definition event_id (e : AccountingEvent) : text :=
  event_id_for e.(ev_kind) e.(ev_module) e.(ev_venue) e.(ev_wallet) e.(ev_reference_id).
End Identity.

Definition gross_quote (e : AccountingEvent) : f64 :=
  match e.(ev_side) with
  | Some Sell => fadd e.(ev_quote_amount) e.(ev_fee)
  | _ => e.(ev_quote_amount)
  end.

(** The two checks of the amount loop. *)
Definition check_amount (label : text) (v : f64) : outcome text unit :=
  reject_if (negb (is_finite v)) (label ++ lit " must be finite") ;;
  reject_if (fltb v fzero) (label ++ lit " must be >= 0").

Definition blank (o : option text) : bool := is_empty (trim (default [] o)).

Definition is_none {A} (o : option A) : bool := match o with None => true | Some _ => false end.

Definition validate_kind (e : AccountingEvent) : outcome text unit :=
  match e.(ev_kind) with
  | Fill | Settlement =>
      reject_if (is_none e.(ev_side)) (EventKind_as_str e.(ev_kind) ++ lit " requires a side") ;;
      reject_if (fleb e.(ev_quantity) fzero)
        (EventKind_as_str e.(ev_kind) ++ lit " requires quantity > 0")
  | Correction =>
      reject_if (is_none e.(ev_side)) (lit "correction requires a side") ;;
      reject_if (fleb e.(ev_quantity) fzero && fleb e.(ev_quote_amount) fzero)
        (lit "correction must move quantity or cash") ;;
      reject_if (blank e.(ev_correlation_id))
        (lit "correction must reference the finding / ticket it answers")
  | Transfer =>
      reject_if (blank e.(ev_counterparty_wallet)) (lit "transfer requires counterparty_wallet") ;;
      reject_if (fleb e.(ev_quote_amount) fzero) (lit "transfer requires quote_amount > 0")
  | Deposit | Withdrawal | FundingAdjustment =>
      reject_if (fleb e.(ev_quote_amount) fzero && fleb e.(ev_fee) fzero)
        (EventKind_as_str e.(ev_kind) ++ lit " requires quote_amount > 0")
  | Fee =>
      reject_if (fleb e.(ev_fee) fzero && fleb e.(ev_quote_amount) fzero)
        (lit "fee event requires fee > 0")
  end.

Definition validate (e : AccountingEvent) : outcome text unit :=
  reject_if (is_empty (trim e.(ev_wallet))) (lit "wallet must not be empty") ;;
  reject_if (is_empty (trim e.(ev_reference_id))) (lit "reference_id must not be empty") ;;
  reject_if (is_empty (trim e.(ev_asset))) (lit "asset must not be empty") ;;
  reject_if (is_empty (trim e.(ev_quote_asset))) (lit "quote_asset must not be empty") ;;
  check_amount (lit "quantity") e.(ev_quantity) ;;
  check_amount (lit "quote_amount") e.(ev_quote_amount) ;;
  check_amount (lit "fee") e.(ev_fee) ;;
  match e.(ev_price) with
  | Some p => reject_if (negb (is_finite p) || fltb p fzero) (lit "price must be finite and >= 0")
  | None => Ok tt
  end ;;
  validate_kind e.

(** * Fills of module trades *)

Definition filter_nonempty (o : option text) : option text :=
  s ← o; if is_empty s then None else Some s.

(** The trade's own reference: milliseconds are the floor of the instant. *)
Definition reference_for_trade (t : Trade) : text :=
  match filter_nonempty (trim <$> t.(t_signature)) with
  | Some sig => sig
  | None => lit "paper:" ++ t.(t_id) ++ lit "@" ++ lit (pretty (t.(t_ts) / 1000000))
  end.

Definition module_of_trade (s : TradeSource) : BotModule :=
  match s with
  | SrcCopy => Copy
  | SrcPolymarket => Polymarket
  | SrcSniper | SrcManual | SrcRisk => Sniper
  end.

Definition fill_event_for_trade (t : Trade) (wallet strategy : text)
    (reference correlation_id : option text) : AccountingEvent :=
  let buy := is_buy t in
  {| ev_kind := Fill;
     ev_module := module_of_trade t.(t_source);
     ev_venue := t.(t_venue);
     ev_wallet := wallet;
     ev_strategy := strategy;
     ev_asset := t.(t_symbol);
     ev_quote_asset := t.(t_quote_symbol);
     ev_side := Some (if buy then Buy else Sell);
     ev_quantity := if buy then t.(t_amount_out) else t.(t_amount_in);
     ev_price := Some t.(t_price);
     ev_quote_amount := if buy then t.(t_amount_in) else t.(t_amount_out);
     ev_fee := t.(t_fee);
     ev_mode := t.(t_mode);
     ev_reference_id :=
       default
         (default
           (default (reference_for_trade t) (filter_nonempty (trim <$> correlation_id)))
           (filter_nonempty (trim <$> t.(t_signature))))
         reference;
     ev_correlation_id := correlation_id;
     ev_position_id := t.(t_position_id);
     ev_trade_id := Some t.(t_id);
     ev_counterparty_wallet := None;
     ev_ts := t.(t_ts);
     ev_detail := default [] t.(t_note) |}.

(** * Postings ([posting.rs]) *)

Inductive Account : Type :=
  | Cash | Inventory | Fees | RealizedPnl | Equity | Funding | Adjustments.
Inductive EntrySide : Type := Debit | Credit.

#[export] Instance Account_eq_dec : EqDecision Account.
Proof. solve_decision. Defined.
#[export] Instance EntrySide_eq_dec : EqDecision EntrySide.
Proof. solve_decision. Defined.

Record Posting : Type := mkPosting {
  po_event_id : text;
  po_seq : Z;                       (* u32 *)
  po_account : Account;
  po_wallet : text;
  po_asset : text;
  po_side : EntrySide;
  po_amount : f64;
  po_quantity : f64;
  po_base_asset : option text;
}.

(** An entry is its lines. *)
Definition Entry : Type := list Posting.

Definition totals (e : Entry) : f64 * f64 :=
  fold_left (fun dc p =>
    match p.(po_side) with
    | Debit => (fadd dc.1 p.(po_amount), dc.2)
    | Credit => (dc.1, fadd dc.2 p.(po_amount))
    end) e (fzero, fzero).

Definition is_balanced (e : Entry) : bool :=
  let d := (totals e).1 in
  let c := (totals e).2 in
  let scale := fmax (fmax (fabs d) (fabs c)) fone in
  fleb (fabs (fsub d c)) (fmul (f_lit 1 1000000000) scale).

Definition flip_side (s : EntrySide) : EntrySide :=
  match s with Debit => Credit | Credit => Debit end.

(** One call of the [push] closure. *)
Record Line : Type := mkLine {
  ln_account : Account;
  ln_wallet : text;
  ln_side : EntrySide;
  ln_amount : f64;
  ln_quantity : f64;
  ln_base : option text;
}.

Definition push (id asset : text) (lines : Entry) (l : Line) : Entry :=
  if fleb (fabs l.(ln_amount)) fzero && fleb (fabs l.(ln_quantity)) fzero then lines
  else
    let negative := fltb l.(ln_amount) fzero in
    lines ++
      [{| po_event_id := id;
          po_seq := Z.of_nat (length lines);
          po_account := l.(ln_account);
          po_wallet := l.(ln_wallet);
          po_asset := asset;
          po_side := if negative then flip_side l.(ln_side) else l.(ln_side);
          po_amount := if negative then fneg l.(ln_amount) else l.(ln_amount);
          po_quantity := l.(ln_quantity);
          po_base_asset := l.(ln_base) |}].

(** The pushes of each kind, in order. *)
Definition expansion (e : AccountingEvent) (cost_of_slice : f64) : list Line :=
  let q := e.(ev_quote_amount) in
  let f := e.(ev_fee) in
  let w := e.(ev_wallet) in
  let cash a s v := mkLine a w s v fzero None in
  match e.(ev_kind) with
  | Fill | Settlement | Correction =>
      let cash_account := if decide (e.(ev_kind) = Correction) then Adjustments else Cash in
      match default Buy e.(ev_side) with
      | Buy =>
          [mkLine Inventory w Debit (fmax (fsub q f) fzero) e.(ev_quantity) (Some e.(ev_asset));
           cash Fees Debit f; cash cash_account Credit q]
      | Sell =>
          let c := fmax cost_of_slice fzero in
          [cash cash_account Debit q; cash Fees Debit f;
           mkLine Inventory w Credit c e.(ev_quantity) (Some e.(ev_asset));
           cash RealizedPnl Credit (fsub (fadd q f) c)]
      end
  | Fee =>
      let amount := if fltb fzero f then f else q in
      [cash Fees Debit amount; cash Cash Credit amount]
  | Deposit => [cash Cash Debit q; cash Equity Credit q]
  | Withdrawal => [cash Equity Debit q; cash Fees Debit f; cash Cash Credit (fadd q f)]
  | Transfer =>
      [mkLine Cash (default [] e.(ev_counterparty_wallet)) Debit q fzero None;
       cash Fees Debit f; cash Cash Credit (fadd q f)]
  | FundingAdjustment =>
      match e.(ev_side) with
      | Some Sell => [cash Funding Debit q; cash Cash Credit q]
      | _ => [cash Cash Debit q; cash Funding Credit q]
      end
  end.

Definition posting_bad (p : Posting) : bool :=
  negb (is_finite p.(po_amount)) || fltb p.(po_amount) fzero || negb (is_finite p.(po_quantity)).

Definition expand `{LedgerLibs} (e : AccountingEvent) (cost_of_slice : f64) : outcome text Entry :=
  validate e ;;
  let entry :=
    fold_left (push (event_id e) e.(ev_quote_asset)) (expansion e cost_of_slice) [] in
  reject_if (existsb posting_bad entry) (lit "posting amounts and quantities must be finite") ;;
  let dc := totals entry in
  reject_if (negb (is_finite dc.1) || negb (is_finite dc.2) || negb (is_balanced entry))
    (lit "expanded entry is non-finite or unbalanced") ;;
  mret entry.
