(* ===== verification/PositionBook.v ===== *)
(** The aggregated position book ([crates/core/src/accounting/book.rs]): one
    record per module, venue, wallet, strategy, asset, quote and mode, at
    running average cost, and the unattached cash per wallet and quote. *)
From stdpp Require Import prelude gmap strings.
From Stdlib Require Import ZArith Lia SpecFloat.
From S2P Require Import Prelude.
From S2P Require Import Text.
From S2P Require Import Float64.
From S2P Require Import Models.
From S2P Require Import LedgerEvent.

#[local] Open Scope Z_scope.

Record PositionKey : Type := mkPositionKey {
  k_module : BotModule;
  k_venue : Venue;
  k_wallet : text;
  k_strategy : text;
  k_asset : text;
  k_quote_asset : text;
  k_mode : ExecutionMode;
}.

#[export] Instance PositionKey_eq_dec : EqDecision PositionKey.
Proof. solve_decision. Defined.
#[export] Instance PositionKey_countable : Countable PositionKey.
Proof.
  refine (inj_countable'
    (fun k => (k.(k_module), k.(k_venue), k.(k_wallet), k.(k_strategy), k.(k_asset),
               k.(k_quote_asset), k.(k_mode)))
    (fun '(m, v, w, s, a, q, x) => mkPositionKey m v w s a q x) _).
  by intros [].
Defined.

Definition key_of (e : AccountingEvent) : PositionKey :=
  {| k_module := e.(ev_module); k_venue := e.(ev_venue); k_wallet := e.(ev_wallet);
     k_strategy := e.(ev_strategy); k_asset := e.(ev_asset);
     k_quote_asset := e.(ev_quote_asset); k_mode := e.(ev_mode) |}.

Definition PositionKey_as_string (k : PositionKey) : text :=
  BotModule_as_str k.(k_module) ++ bar ++ Venue_as_str k.(k_venue) ++ bar ++ k.(k_wallet)
  ++ bar ++ k.(k_strategy) ++ bar ++ k.(k_asset) ++ bar ++ k.(k_quote_asset)
  ++ bar ++ ExecutionMode_as_str k.(k_mode).

Record BookPosition : Type := mkBookPosition {
  b_key : PositionKey;
  b_qty : f64;
  b_cost_basis : f64;
  b_realized : f64;
  b_fees : f64;
  b_bought_quote : f64;
  b_sold_quote : f64;
  b_bought_qty : f64;
  b_sold_qty : f64;
  b_last_price : f64;
  b_opened_at : Z;
  b_updated_at : Z;
  b_event_count : Z;                (* u64 *)
  b_last_event_id : text;
  b_position_ids : list text;
}.

Definition BookPosition_new (key : PositionKey) (ts : Z) : BookPosition :=
  {| b_key := key; b_qty := fzero; b_cost_basis := fzero; b_realized := fzero; b_fees := fzero;
     b_bought_quote := fzero; b_sold_quote := fzero; b_bought_qty := fzero; b_sold_qty := fzero;
     b_last_price := fzero; b_opened_at := ts; b_updated_at := ts; b_event_count := 0;
     b_last_event_id := []; b_position_ids := [] |}.

(** [1e-12]. *)
Definition DUST : f64 := f_lit 1 1000000000000.

Definition avg_cost (p : BookPosition) : f64 :=
  if fltb fzero p.(b_qty) && fltb fzero p.(b_cost_basis)
  then fdiv p.(b_cost_basis) p.(b_qty) else fzero.

Definition is_open (p : BookPosition) : bool := fltb DUST p.(b_qty).

Definition usable_mark (mark : option f64) : option f64 :=
  m ← mark; if is_finite m && fltb fzero m then Some m else None.

Definition book_notional (mark : option f64) (p : BookPosition) : f64 :=
  fmul p.(b_qty) (default p.(b_last_price) (usable_mark mark)).

Definition exposure (mark : option f64) (p : BookPosition) : f64 :=
  if negb (is_open p) then fzero else fmax p.(b_cost_basis) (book_notional mark p).

Definition unrealized (mark : option f64) (p : BookPosition) : f64 :=
  if negb (is_open p) then fzero else fsub (book_notional mark p) p.(b_cost_basis).

Definition net_realized (p : BookPosition) : f64 := fsub p.(b_realized) p.(b_fees).

Definition cost_of (qty : f64) (p : BookPosition) : f64 :=
  fmul (avg_cost p) (fmax (fmin qty p.(b_qty)) fzero).

Inductive BookTransition : Type := TOpened | TIncreased | TReduced | TClosed | TCash.

#[export] Instance BookTransition_eq_dec : EqDecision BookTransition.
Proof. solve_decision. Defined.

Record BookEffect : Type := mkBookEffect {
  fx_key : PositionKey;
  fx_qty_before : f64;
  fx_qty_after : f64;
  fx_realized_delta : f64;
  fx_fee_delta : f64;
  fx_cost_of_slice : f64;
  fx_transition : BookTransition;
}.

Definition CashKey : Type := text * text.

Record PositionBook : Type := mkPositionBook {
  bk_positions : gmap PositionKey BookPosition;
  bk_cash : gmap CashKey f64;
  bk_standalone_fees : gmap CashKey f64;
}.

Definition PositionBook_new : PositionBook := mkPositionBook ∅ ∅ ∅.

Definition book_cost_of_slice (e : AccountingEvent) (bk : PositionBook) : f64 :=
  if negb (moves_inventory e.(ev_kind)) || negb (bool_decide (e.(ev_side) = Some Sell)) then fzero
  else
    match bk.(bk_positions) !! key_of e with
    | Some p => cost_of e.(ev_quantity) p
    | None => fzero
    end.

(** [*map.entry(k).or_insert(0.0) += v]. *)
Definition add_at `{Countable K} (k : K) (v : f64) (m : gmap K f64) : gmap K f64 :=
  <[k := fadd (default fzero (m !! k)) v]> m.

Arguments add_at : simpl never.

Definition cash_key (e : AccountingEvent) : CashKey := (e.(ev_wallet), e.(ev_quote_asset)).

Definition recipient_key (e : AccountingEvent) (to : text) : CashKey := (to, e.(ev_quote_asset)).

(** ** Events that move cash only *)

Definition fee_amount (e : AccountingEvent) : f64 :=
  if fltb fzero e.(ev_fee) then e.(ev_fee) else e.(ev_quote_amount).

Definition cash_delta (e : AccountingEvent) : f64 :=
  match e.(ev_kind) with
  | Deposit => e.(ev_quote_amount)
  | Withdrawal | Transfer => fneg (fadd e.(ev_quote_amount) e.(ev_fee))
  | FundingAdjustment =>
      match e.(ev_side) with
      | Some Sell => fneg e.(ev_quote_amount)
      | _ => e.(ev_quote_amount)
      end
  | Fee => fneg (fee_amount e)
  | Fill | Settlement | Correction => fzero
  end.

Definition apply_cash (e : AccountingEvent) (bk : PositionBook) : PositionBook :=
  let cash :=
    match e.(ev_kind), e.(ev_counterparty_wallet) with
    | Transfer, Some to => add_at (recipient_key e to) e.(ev_quote_amount) bk.(bk_cash)
    | _, _ => bk.(bk_cash)
    end in
  let fees :=
    if decide (e.(ev_kind) = Fee) then add_at (cash_key e) (fee_amount e) bk.(bk_standalone_fees)
    else bk.(bk_standalone_fees) in
  {| bk_positions := bk.(bk_positions);
     bk_cash := add_at (cash_key e) (cash_delta e) cash;
     bk_standalone_fees := fees |}.

Definition cash_effect (e : AccountingEvent) : BookEffect :=
  {| fx_key := key_of e; fx_qty_before := fzero; fx_qty_after := fzero;
     fx_realized_delta := fzero; fx_fee_delta := e.(ev_fee); fx_cost_of_slice := fzero;
     fx_transition := TCash |}.

(** ** Events that move inventory *)

(** The part of the update that depends on the side: quantity, cost basis,
    realized, bought and sold totals, and what the slice cost and realized. *)
Record Slice : Type := mkSlice {
  sl_qty : f64;
  sl_cost_basis : f64;
  sl_realized : f64;
  sl_bought_quote : f64;
  sl_sold_quote : f64;
  sl_bought_qty : f64;
  sl_sold_qty : f64;
  sl_realized_delta : f64;
  sl_cost : f64;
}.

Definition buy_slice (e : AccountingEvent) (p : BookPosition) : Slice :=
  {| sl_qty := fadd p.(b_qty) e.(ev_quantity);
     sl_cost_basis := fadd p.(b_cost_basis) (fmax (fsub e.(ev_quote_amount) e.(ev_fee)) fzero);
     sl_realized := p.(b_realized);
     sl_bought_quote := fadd p.(b_bought_quote) e.(ev_quote_amount);
     sl_sold_quote := p.(b_sold_quote);
     sl_bought_qty := fadd p.(b_bought_qty) e.(ev_quantity);
     sl_sold_qty := p.(b_sold_qty);
     sl_realized_delta := fzero;
     sl_cost := fzero |}.

Definition sell_slice (e : AccountingEvent) (p : BookPosition) : Slice :=
  let q := fmax (fmin e.(ev_quantity) p.(b_qty)) fzero in
  let cost := fmul (avg_cost p) q in
  let gross := fadd e.(ev_quote_amount) e.(ev_fee) in
  let delta := fsub gross cost in
  let left_cost := fmax (fsub p.(b_cost_basis) cost) fzero in
  let left_qty := fmax (fsub p.(b_qty) q) fzero in
  let flat := fleb left_qty DUST in
  {| sl_qty := if flat then fzero else left_qty;
     sl_cost_basis := if flat then fzero else left_cost;
     sl_realized := fadd p.(b_realized) delta;
     sl_bought_quote := p.(b_bought_quote);
     sl_sold_quote := fadd p.(b_sold_quote) e.(ev_quote_amount);
     sl_bought_qty := p.(b_bought_qty);
     sl_sold_qty := fadd p.(b_sold_qty) q;
     sl_realized_delta := delta;
     sl_cost := cost |}.

Definition event_slice (e : AccountingEvent) (p : BookPosition) : Slice :=
  match default Buy e.(ev_side) with
  | Buy => buy_slice e p
  | Sell => sell_slice e p
  end.

Definition next_last_price (e : AccountingEvent) (p : BookPosition) : f64 :=
  match usable_mark e.(ev_price) with
  | Some price => price
  | None =>
      if fltb fzero e.(ev_quantity) && fltb fzero e.(ev_quote_amount)
      then fdiv e.(ev_quote_amount) e.(ev_quantity) else p.(b_last_price)
  end.

Definition push_id (id : option text) (ids : list text) : list text :=
  match id with
  | Some x => if decide (x ∈ ids) then ids else ids ++ [x]
  | None => ids
  end.

Definition updated_position (e : AccountingEvent) (event_id : text) (p : BookPosition)
    : BookPosition :=
  let s := event_slice e p in
  {| b_key := p.(b_key);
     b_qty := s.(sl_qty);
     b_cost_basis := s.(sl_cost_basis);
     b_realized := s.(sl_realized);
     b_fees := fadd p.(b_fees) e.(ev_fee);
     b_bought_quote := s.(sl_bought_quote);
     b_sold_quote := s.(sl_sold_quote);
     b_bought_qty := s.(sl_bought_qty);
     b_sold_qty := s.(sl_sold_qty);
     b_last_price := next_last_price e p;
     b_opened_at := p.(b_opened_at);
     b_updated_at := Z.max e.(ev_ts) p.(b_updated_at);
     b_event_count := saturating_add u64_max p.(b_event_count) 1;
     b_last_event_id := event_id;
     b_position_ids := push_id e.(ev_position_id) p.(b_position_ids) |}.

Definition transition_of (before after : f64) : BookTransition :=
  match fltb DUST before, fltb DUST after with
  | false, true => TOpened
  | true, true => if fltb before after then TIncreased else TReduced
  | true, false | false, false => TClosed
  end.

Definition current_position (e : AccountingEvent) (bk : PositionBook) : BookPosition :=
  default (BookPosition_new (key_of e) e.(ev_ts)) (bk.(bk_positions) !! key_of e).

Definition inventory_effect (e : AccountingEvent) (p : BookPosition) : BookEffect :=
  let s := event_slice e p in
  {| fx_key := key_of e; fx_qty_before := p.(b_qty); fx_qty_after := s.(sl_qty);
     fx_realized_delta := s.(sl_realized_delta); fx_fee_delta := e.(ev_fee);
     fx_cost_of_slice := s.(sl_cost);
     fx_transition := transition_of p.(b_qty) s.(sl_qty) |}.

(** [PositionBook::apply]. *)
Definition book_apply (e : AccountingEvent) (event_id : text) (bk : PositionBook)
    : BookEffect * PositionBook :=
  if negb (moves_inventory e.(ev_kind)) then (cash_effect e, apply_cash e bk)
  else
    let p := current_position e bk in
    (inventory_effect e p,
     {| bk_positions := <[key_of e := updated_position e event_id p]> bk.(bk_positions);
        bk_cash := bk.(bk_cash);
        bk_standalone_fees := bk.(bk_standalone_fees) |}).

(** ** The dry run *)

(** Copy one key of a map into a fresh map. *)
Definition copy_key `{Countable K} {V} (k : K) (m : gmap K V) (acc : gmap K V) : gmap K V :=
  match m !! k with
  | Some v => <[k := v]> acc
  | None => acc
  end.

Definition candidate (e : AccountingEvent) (bk : PositionBook) : PositionBook :=
  {| bk_positions := copy_key (key_of e) bk.(bk_positions) ∅;
     bk_cash :=
       let cash := copy_key (cash_key e) bk.(bk_cash) ∅ in
       match e.(ev_kind), e.(ev_counterparty_wallet) with
       | Transfer, Some to => copy_key (recipient_key e to) bk.(bk_cash) cash
       | _, _ => cash
       end;
     bk_standalone_fees :=
       if decide (e.(ev_kind) = Fee) then copy_key (cash_key e) bk.(bk_standalone_fees) ∅ else ∅ |}.

Definition position_amounts (p : BookPosition) : list f64 :=
  [p.(b_qty); p.(b_cost_basis); p.(b_realized); p.(b_fees); p.(b_bought_quote);
   p.(b_sold_quote); p.(b_bought_qty); p.(b_sold_qty); p.(b_last_price)].

Definition finite_position (p : BookPosition) : bool := forallb is_finite (position_amounts p).

Definition map_all `{Countable K} {V} (f : V -> bool) (m : gmap K V) : bool :=
  bool_decide (map_Forall (fun _ v => f v = true) m).

Definition book_finite (bk : PositionBook) : bool :=
  map_all finite_position bk.(bk_positions) && map_all is_finite bk.(bk_cash)
  && map_all is_finite bk.(bk_standalone_fees).

Definition validate_apply (e : AccountingEvent) (event_id : text) (bk : PositionBook)
    : outcome text unit :=
  reject_if (negb (book_finite (book_apply e event_id (candidate e bk)).2))
    (lit "event arithmetic would make accounting state non-finite").

(** ** Reading the book *)

Definition by_position_id (id : text) (bk : PositionBook) : gmap PositionKey BookPosition :=
  filter (fun kp => id ∈ kp.2.(b_position_ids)) bk.(bk_positions).

Definition open_count (bk : PositionBook) : nat :=
  size (filter (fun kp => is_open kp.2 = true) bk.(bk_positions)).
