(* ===== verification/Ledger.v ===== *)
(** The global ledger ([crates/core/src/accounting/ledger.rs], [store.rs],
    [recovery.rs]).  Its write lock is held across a whole submission, so an
    operation is one step of the pair of the ledger and its journal.  The trait
    [LedgerStore] is the class of the same name, [LedgerStoreLaws] is what the
    ledger relies on, [MemoryLedgerStore] is the instance of this repository;
    [now] is [Utc::now()] in nanoseconds. *)
From stdpp Require Import prelude gmap strings sorting.
From Stdlib Require Import ZArith Lia SpecFloat.
From S2P Require Import Prelude.
From S2P Require Import Text.
From S2P Require Import Float64.
From S2P Require Import Models.
From S2P Require Import LedgerEvent.
From S2P Require Import PositionBook.

#[local] Open Scope Z_scope.

(** * The journal *)

Record StoredEvent : Type := mkStoredEvent {
  se_event_id : text;
  se_event : AccountingEvent;
  se_recorded_at : Z;
  se_replica_id : text;
}.

(** [None] is a store that could not answer; [Some false] an event already
    journaled.  [journal] is the store's content and [store_ok] its own
    consistency; both only state the laws. *)
Class LedgerStore (St : Type) : Type := {
  journal : St -> list StoredEvent;
  store_ok : St -> Prop;
  record_event (stored : StoredEvent) (entry : Entry) (s : St) : option bool * St;
  load_events (s : St) : option (list StoredEvent);
  upsert_position (p : BookPosition) (s : St) : bool * St;
}.

(** Replay order: the instant of recording, then the id. *)
Fixpoint text_leb (a b : text) : bool :=
  match a, b with
  | [], _ => true
  | _ :: _, [] => false
  | x :: a', y :: b' => (x <? y) || ((x =? y) && text_leb a' b')
  end.

Definition replay_le (a b : StoredEvent) : Prop :=
  a.(se_recorded_at) < b.(se_recorded_at) \/
  (a.(se_recorded_at) = b.(se_recorded_at) /\ text_leb a.(se_event_id) b.(se_event_id) = true).

#[export] Instance replay_le_dec : RelDecision replay_le.
Proof. intros a b. unfold replay_le. apply _. Defined.

Definition journaled_ids (l : list StoredEvent) : list text := map se_event_id l.

Class LedgerStoreLaws (St : Type) `{LedgerStore St} : Prop := {
  record_new stored entry s s' :
    store_ok s -> record_event stored entry s = (Some true, s') ->
    (stored.(se_event_id) ∉ journaled_ids (journal s)) /\ journal s' = journal s ++ [stored];
  record_known stored entry s s' :
    store_ok s -> record_event stored entry s = (Some false, s') ->
    (stored.(se_event_id) ∈ journaled_ids (journal s)) /\ journal s' = journal s;
  record_unavailable stored entry s s' :
    store_ok s -> record_event stored entry s = (None, s') -> journal s' = journal s;
  record_keeps_ok stored entry s : store_ok s -> store_ok (record_event stored entry s).2;
  load_sorted s l :
    store_ok s -> load_events s = Some l -> l = merge_sort replay_le (journal s);
  upsert_keeps p s :
    store_ok s -> store_ok (upsert_position p s).2 /\ journal (upsert_position p s).2 = journal s;
}.

(** ** The in-memory journal *)

Record MemoryLedgerStore : Type := mkMemoryLedgerStore {
  ms_events : list StoredEvent;
  ms_index : gmap text nat;
  ms_entries : gmap text Entry;
  ms_positions : gmap text BookPosition;
  ms_unavailable : bool;
}.

Definition MemoryLedgerStore_new : MemoryLedgerStore := mkMemoryLedgerStore [] ∅ ∅ ∅ false.

Definition set_unavailable (on : bool) (s : MemoryLedgerStore) : MemoryLedgerStore :=
  mkMemoryLedgerStore s.(ms_events) s.(ms_index) s.(ms_entries) s.(ms_positions) on.

Definition memory_record_event (stored : StoredEvent) (entry : Entry) (s : MemoryLedgerStore)
    : option bool * MemoryLedgerStore :=
  if s.(ms_unavailable) then (None, s)
  else
    match s.(ms_index) !! stored.(se_event_id) with
    | Some _ => (Some false, s)
    | None =>
        (Some true,
         {| ms_events := s.(ms_events) ++ [stored];
            ms_index := <[stored.(se_event_id) := length s.(ms_events)]> s.(ms_index);
            ms_entries := <[stored.(se_event_id) := entry]> s.(ms_entries);
            ms_positions := s.(ms_positions);
            ms_unavailable := s.(ms_unavailable) |})
    end.

Definition memory_load_events (s : MemoryLedgerStore) : option (list StoredEvent) :=
  if s.(ms_unavailable) then None else Some (merge_sort replay_le s.(ms_events)).

Definition memory_upsert_position (p : BookPosition) (s : MemoryLedgerStore)
    : bool * MemoryLedgerStore :=
  if s.(ms_unavailable) then (false, s)
  else (true, mkMemoryLedgerStore s.(ms_events) s.(ms_index) s.(ms_entries)
                (<[PositionKey_as_string p.(b_key) := p]> s.(ms_positions)) s.(ms_unavailable)).

#[export] Instance MemoryLedgerStore_store : LedgerStore MemoryLedgerStore := {|
  journal := ms_events;
  store_ok := fun s => forall id, is_Some (s.(ms_index) !! id) <-> id ∈ journaled_ids s.(ms_events);
  record_event := memory_record_event;
  load_events := memory_load_events;
  upsert_position := memory_upsert_position;
|}.

(** * The ledger *)

(** Net realized per day and quote, its running total and peak per quote. *)
Record RealizedSeries : Type := mkRealizedSeries {
  rs_by_day : gmap (text * text) f64;
  rs_total : gmap text f64;
  rs_peak : gmap text f64;
}.

Definition RealizedSeries_default : RealizedSeries := mkRealizedSeries ∅ ∅ ∅.

Inductive Applied : Type :=
  | New (effect : BookEffect)
  | Duplicate
  | Rejected (reason : text).

Record Inner : Type := mkInner {
  in_book : PositionBook;
  in_events : list StoredEvent;
  in_ids : gset text;
  in_canonical : gmap text AccountingEvent;
  in_entries : gmap text Entry;
  in_pending : list text;
  in_series : RealizedSeries;
  in_last_recorded_at : option Z;
}.

Definition Inner_new : Inner :=
  mkInner PositionBook_new [] ∅ ∅ ∅ [] RealizedSeries_default None.

Section GlobalLedger.
Context {libs : LedgerLibs}.

(** What an event takes from the realized result: its fee, or the amount of a
    stand-alone fee that names none. *)
Definition series_fee (e : AccountingEvent) : f64 :=
  if bool_decide (e.(ev_kind) = Fee) && fleb e.(ev_fee) fzero
  then e.(ev_quote_amount) else e.(ev_fee).

Definition day_key (e : AccountingEvent) : text * text :=
  (format_day e.(ev_ts), e.(ev_quote_asset)).

Definition fold_series (e : AccountingEvent) (fx : BookEffect) (s : RealizedSeries)
    : RealizedSeries :=
  let net := fsub fx.(fx_realized_delta) (series_fee e) in
  if f64_eq net fzero then s
  else
    let q := e.(ev_quote_asset) in
    let total := fadd (default fzero (s.(rs_total) !! q)) net in
    let peak := default fzero (s.(rs_peak) !! q) in
    {| rs_by_day := add_at (day_key e) net s.(rs_by_day);
       rs_total := <[q := total]> s.(rs_total);
       rs_peak := <[q := if fltb peak total then total else peak]> s.(rs_peak) |}.

Definition validate_series_update (s : RealizedSeries) (e : AccountingEvent) (cost : f64)
    : outcome text unit :=
  let realized_delta :=
    if moves_inventory e.(ev_kind) && bool_decide (e.(ev_side) = Some Sell)
    then fsub (gross_quote e) cost else fzero in
  let net := fsub realized_delta (series_fee e) in
  reject_if (negb (is_finite realized_delta) || negb (is_finite net))
    (lit "event arithmetic would make realized PnL non-finite") ;;
  if f64_eq net fzero then Ok tt
  else
    let day_total := fadd (default fzero (s.(rs_by_day) !! day_key e)) net in
    let total := fadd (default fzero (s.(rs_total) !! e.(ev_quote_asset))) net in
    let peak := fmax (default fzero (s.(rs_peak) !! e.(ev_quote_asset))) total in
    if is_finite day_total && is_finite total && is_finite peak then Ok tt
    else Err (lit "event arithmetic would make realized series non-finite").

(** The checks a submission and a replayed row go through, against the book and
    the series as they stand: the entry to store. *)
Definition check_event (e : AccountingEvent) (event_id : text) (bk : PositionBook)
    (series : RealizedSeries) : outcome text Entry :=
  let cost := book_cost_of_slice e bk in
  match expand e cost with
  | Ok entry =>
      validate_apply e event_id bk ;;
      validate_series_update series e cost ;;
      Ok entry
  | Err m => Err (lit "invalid accounting event: " ++ m)
  | Panic => Panic
  end.

(** Apply a checked event to everything kept in memory. *)
Definition book_event (stored : StoredEvent) (entry : Entry) (i : Inner) : BookEffect * Inner :=
  let e := stored.(se_event) in
  let id := stored.(se_event_id) in
  let r := book_apply e id i.(in_book) in
  (r.1,
   {| in_book := r.2;
      in_events := i.(in_events) ++ [stored];
      in_ids := {[id]} ∪ i.(in_ids);
      in_canonical := <[id := e]> i.(in_canonical);
      in_entries := <[id := entry]> i.(in_entries);
      in_pending := i.(in_pending);
      in_series := fold_series e r.1 i.(in_series);
      in_last_recorded_at := i.(in_last_recorded_at) |}).

Definition with_pending (ids : list text) (i : Inner) : Inner :=
  mkInner i.(in_book) i.(in_events) i.(in_ids) i.(in_canonical) i.(in_entries) ids
    i.(in_series) i.(in_last_recorded_at).

Definition with_last (at_ : Z) (i : Inner) : Inner :=
  mkInner i.(in_book) i.(in_events) i.(in_ids) i.(in_canonical) i.(in_entries) i.(in_pending)
    i.(in_series) (Some at_).

(** One microsecond after the last row, never before [now]. *)
Definition recorded_at (now : Z) (last : option Z) : Z :=
  match last with
  | Some t => if t + 1000 <=? datetime_max then Z.max now (t + 1000) else now
  | None => now
  end.

Section Store.
Context {St : Type} `{LedgerStore St}.

(** Journal rows in order until one write fails; the ids written. *)
Fixpoint flush_rows (rows : list (StoredEvent * Entry)) (s : St) : list text * St :=
  match rows with
  | [] => ([], s)
  | (stored, entry) :: rows' =>
      match record_event stored entry s with
      | (Some _, s') =>
          let r := flush_rows rows' s' in (stored.(se_event_id) :: r.1, r.2)
      | (None, s') => ([], s')
      end
  end.

Definition pending_rows (i : Inner) : list (StoredEvent * Entry) :=
  omap (fun id =>
    ev ← snd <$> list_find (fun e => e.(se_event_id) = id) i.(in_events);
    entry ← i.(in_entries) !! id;
    Some (ev, entry)) i.(in_pending).

Definition flush_pending_locked (i : Inner) (s : St) : nat * (Inner * St) :=
  let r := flush_rows (pending_rows i) s in
  (length r.1, (with_pending (filter (fun id => id ∉ r.1) i.(in_pending)) i, r.2)).

(** The snapshot of the touched position, written after the lock is released. *)
Definition snapshot_position (fx : BookEffect) (bk : PositionBook) (s : St) : St :=
  if decide (fx.(fx_transition) = TCash) then s
  else
    match bk.(bk_positions) !! fx.(fx_key) with
    | Some p => (upsert_position p s).2
    | None => s
    end.

(** [GlobalLedger::submit]. *)
Definition submit (replica : text) (now : Z) (e : AccountingEvent) (i : Inner) (s : St)
    : Applied * (Inner * St) :=
  match validate e with
  | Err reason => (Rejected reason, (i, s))
  | Panic => (Rejected [], (i, s))
  | Ok _ =>
      let id := event_id e in
      if decide (id ∈ i.(in_ids)) then (Duplicate, (i, s))
      else
        match check_event e id i.(in_book) i.(in_series) with
        | Err reason => (Rejected reason, (i, s))
        | Panic => (Rejected [], (i, s))
        | Ok entry =>
            let stored := mkStoredEvent id e (recorded_at now i.(in_last_recorded_at)) replica in
            let fl := if decide (i.(in_pending) = []) then (i, s)
                      else (flush_pending_locked i s).2 in
            let blocked := negb (bool_decide (fl.1.(in_pending) = [])) in
            let w := if blocked then (None, fl.2) else record_event stored entry fl.2 in
            match w.1 with
            | Some false => (Duplicate, (fl.1, w.2))
            | journaled =>
                let b0 := book_event stored entry fl.1 in
                let b := (b0.1, with_last stored.(se_recorded_at) b0.2) in
                let i' := match journaled with
                          | Some _ => b.2
                          | None => with_pending (b.2.(in_pending) ++ [id]) b.2
                          end in
                (New b.1, (i', snapshot_position b.1 i'.(in_book) w.2))
            end
        end
  end.

Definition flush_pending (i : Inner) (s : St) : nat * (Inner * St) := flush_pending_locked i s.

(** Rows applied, rows already known, rows refused. *)
Definition Tally : Type := nat * nat * nat.

Definition note_recorded (at_ : Z) (i : Inner) : Inner :=
  with_last (match i.(in_last_recorded_at) with Some last => Z.max last at_ | None => at_ end) i.

(** One row of [hydrate]. *)
Definition hydrate_row (acc : Tally * Inner) (stored : StoredEvent) : Tally * Inner :=
  let '((applied, dup, invalid), i0) := acc in
  let i := note_recorded stored.(se_recorded_at) i0 in
  let id := stored.(se_event_id) in
  if decide (id ∈ i.(in_ids)) then
    if decide (i.(in_canonical) !! id = Some stored.(se_event))
    then ((applied, S dup, invalid), i) else ((applied, dup, S invalid), i)
  else if negb (bool_decide (id = event_id stored.(se_event))) || negb (is_ok (validate stored.(se_event)))
  then ((applied, dup, S invalid), i)
  else
    match check_event stored.(se_event) id i.(in_book) i.(in_series) with
    | Ok entry => ((S applied, dup, invalid), (book_event stored entry i).2)
    | _ => ((applied, dup, S invalid), i)
    end.

Definition hydrate (rows : list StoredEvent) (i : Inner) : Tally * Inner :=
  fold_left hydrate_row rows ((O, O, O), i).

(** [refresh_from_store]. *)
Definition refresh_from_store (i : Inner) (s : St) : bool * Inner :=
  if negb (bool_decide (i.(in_pending) = [])) then (false, i)
  else
    match load_events s with
    | None => (false, i)
    | Some events =>
        let r := hydrate events i in
        (bool_decide (r.1.2 = O), r.2)
    end.

(** ** Recovery *)

Record AccountingRecoveryReport : Type := mkAccountingRecoveryReport {
  rr_journal_available : bool;
  rr_rebuilt : nat;
  rr_duplicates_skipped : nat;
  rr_invalid_events : nat;
  rr_pending_flushed : nat;
  rr_open_positions : nat;
  rr_gaps : list text;
}.

(** [1e-9], the quantity below which a module position counts as closed. *)
Definition GAP_DUST : f64 := f_lit 1 1000000000.

Definition is_gap (bk : PositionBook) (p : Position) : bool :=
  negb (PositionStatus_is_terminal p.(p_status) || fleb p.(p_qty) GAP_DUST)
  && bool_decide (by_position_id p.(p_id) bk = ∅).

Definition recover (module_positions : list Position) (i : Inner) (s : St)
    : AccountingRecoveryReport * (Inner * St) :=
  let h := match load_events s with
           | Some events => (true, hydrate events i)
           | None => (false, ((O, O, O), i))
           end in
  let fl := flush_pending h.2.2 s in
  let bk := fl.2.1.(in_book) in
  ({| rr_journal_available := h.1;
      rr_rebuilt := h.2.1.1.1;
      rr_duplicates_skipped := h.2.1.1.2;
      rr_invalid_events := h.2.1.2;
      rr_pending_flushed := fl.1;
      rr_open_positions := open_count bk;
      rr_gaps := map p_id (filter (fun p => is_gap bk p = true) module_positions) |},
   fl.2).
End Store.
End GlobalLedger.
