(* ===== verification/LedgerReplay.v ===== *)
(** What the ledger keeps in memory is the replay of the events it has booked:
    the lemmas behind the properties of [LedgerCorrect]. *)
From stdpp Require Import prelude gmap strings sorting.
From Stdlib Require Import ZArith Lia SpecFloat.
From S2P Require Import Prelude.
From S2P Require Import Text.
From S2P Require Import Float64.
From S2P Require Import Models.
From S2P Require Import LedgerEvent.
From S2P Require Import PositionBook.
From S2P Require Import Ledger.

#[local] Open Scope Z_scope.

(** * Locality of [book_apply] *)

(** The maps of two books agree at every key an event touches. *)
Record agree_on (e : AccountingEvent) (a b : PositionBook) : Prop := {
  ag_position : a.(bk_positions) !! key_of e = b.(bk_positions) !! key_of e;
  ag_cash : a.(bk_cash) !! cash_key e = b.(bk_cash) !! cash_key e;
  ag_to : forall to, e.(ev_kind) = Transfer -> e.(ev_counterparty_wallet) = Some to ->
    a.(bk_cash) !! recipient_key e to = b.(bk_cash) !! recipient_key e to;
  ag_fees : e.(ev_kind) = Fee ->
    a.(bk_standalone_fees) !! cash_key e = b.(bk_standalone_fees) !! cash_key e;
}.

Lemma copy_key_eq `{Countable K} {V} (k : K) (m acc : gmap K V) :
  acc !! k = None \/ acc !! k = m !! k -> copy_key k m acc !! k = m !! k.
Proof.
  unfold copy_key. intros Hacc. destruct (m !! k) eqn:Hk; [by rewrite lookup_insert_eq|].
  by destruct Hacc.
Qed.

Lemma copy_key_ne `{Countable K} {V} (k k' : K) (m acc : gmap K V) :
  k <> k' -> copy_key k m acc !! k' = acc !! k'.
Proof. unfold copy_key. intros. destruct (m !! k); [by rewrite lookup_insert_ne|done]. Qed.

Lemma copy_key_keeps `{Countable K} {V} (k k' : K) (m acc : gmap K V) :
  acc !! k' = m !! k' -> copy_key k m acc !! k' = m !! k'.
Proof.
  intros Hacc. destruct (decide (k = k')) as [<-|Hne].
  - apply copy_key_eq. by right.
  - by rewrite copy_key_ne.
Qed.

Lemma candidate_agrees e bk : agree_on e (candidate e bk) bk.
Proof.
  split.
  - apply copy_key_eq. left. apply lookup_empty.
  - unfold candidate; cbn.
    assert (Hc : copy_key (cash_key e) (bk_cash bk) ∅ !! cash_key e = bk_cash bk !! cash_key e)
      by (apply copy_key_eq; left; apply lookup_empty).
    destruct (ev_kind e), (ev_counterparty_wallet e); try done. by apply copy_key_keeps.
  - intros to Hk Hto. unfold candidate; cbn. rewrite Hk, Hto. apply copy_key_eq.
    unfold copy_key. destruct (bk_cash bk !! cash_key e) eqn:Hb; [|left; apply lookup_empty].
    destruct (decide (cash_key e = (recipient_key e to))) as [Heq|Hne].
    + right. by rewrite <- Heq, lookup_insert_eq.
    + left. rewrite lookup_insert_ne by done. apply lookup_empty.
  - intros Hk. unfold candidate; cbn. rewrite decide_True by done.
    apply copy_key_eq. left. apply lookup_empty.
Qed.

(** * Finiteness *)

Lemma map_all_true `{Countable K} {V} (f : V -> bool) (m : gmap K V) :
  map_all f m = true <-> forall k v, m !! k = Some v -> f v = true.
Proof. unfold map_all. by rewrite bool_decide_eq_true. Qed.

Lemma add_at_lookup `{Countable K} (k k' : K) v (m : gmap K f64) :
  add_at k v m !! k' =
  if decide (k = k') then Some (fadd (default fzero (m !! k)) v) else m !! k'.
Proof.
  unfold add_at. case_decide as Hk.
  - subst k'. apply lookup_insert_eq.
  - by apply lookup_insert_ne.
Qed.

(** Everything [f] says of the values an update writes, it says of the updated
    map, when it says it of the rest. *)
Lemma add_at_all `{Countable K} (f : f64 -> bool) (k : K) v (m m' : gmap K f64) :
  m !! k = m' !! k -> map_all f (add_at k v m) = true -> map_all f m' = true ->
  map_all f (add_at k v m') = true.
Proof.
  rewrite !map_all_true. intros Heq Ha Hm k' v'. rewrite add_at_lookup.
  case_decide as Hk; [|apply Hm]. subst k'. intros [= <-].
  apply (Ha k). rewrite add_at_lookup, decide_True by done. by rewrite Heq.
Qed.

Lemma apply_cash_finite e cand bk :
  agree_on e cand bk ->
  book_finite (apply_cash e cand) = true -> book_finite bk = true ->
  book_finite (apply_cash e bk) = true.
Proof.
  intros [_ Hcash Hto Hfees]. unfold book_finite, apply_cash; cbn.
  rewrite !andb_true_iff. intros [[_ Hc] Hf] [[Hp Hcb] Hfb]. split; [split; [done|]|].
  - clear Hf Hfees. set (T := fun b : PositionBook =>
      match ev_kind e, ev_counterparty_wallet e with
      | Transfer, Some to => add_at (recipient_key e to) (ev_quote_amount e) (bk_cash b)
      | _, _ => bk_cash b
      end) in *. change (map_all is_finite (add_at (cash_key e) (cash_delta e) (T cand)) = true) in Hc.
    change (map_all is_finite (add_at (cash_key e) (cash_delta e) (T bk)) = true).
    assert (Hkey : T cand !! cash_key e = T bk !! cash_key e).
    { unfold T. destruct (ev_kind e) eqn:Hk; try done. destruct (ev_counterparty_wallet e) eqn:Hw; [|done].
      rewrite !add_at_lookup. case_decide; [by rewrite (Hto _ eq_refl eq_refl)|exact Hcash]. }
    rewrite map_all_true in *. intros k v. rewrite add_at_lookup. case_decide as Hd.
    { intros [= <-]. apply (Hc (cash_key e)). rewrite add_at_lookup, decide_True by done.
      by rewrite Hkey. }
    unfold T. intros Hv. destruct (ev_kind e) eqn:Hk; try by apply (Hcb k).
    destruct (ev_counterparty_wallet e) as [to|] eqn:Hw; [|by apply (Hcb k)].
    rewrite add_at_lookup in Hv. case_decide as Hd'; [|by apply (Hcb k)].
    injection Hv as <-. apply (Hc k). rewrite add_at_lookup, decide_False by done.
    unfold T. rewrite add_at_lookup, decide_True by done. by rewrite (Hto _ eq_refl eq_refl).
  - destruct (decide (ev_kind e = Fee)) as [Hk|]; [|done].
    cbn in Hf. eapply add_at_all; [by apply Hfees|done|done].
Qed.

Lemma book_apply_finite e id cand bk :
  agree_on e cand bk ->
  book_finite (book_apply e id cand).2 = true -> book_finite bk = true ->
  book_finite (book_apply e id bk).2 = true.
Proof.
  intros Hag. unfold book_apply. destruct (moves_inventory (ev_kind e)) eqn:Hm; cbn.
  - unfold book_finite; cbn. rewrite !andb_true_iff. intros [[Hp _] _] [[Hpb Hcb] Hfb].
    split; [split; [|done]|done]. rewrite map_all_true in *. intros k v.
    assert (Hcur : current_position e cand = current_position e bk)
      by (unfold current_position; by rewrite (ag_position _ _ _ Hag)).
    destruct (decide (key_of e = k)) as [<-|Hne].
    + rewrite lookup_insert_eq. intros [= <-]. apply (Hp (key_of e)).
      by rewrite lookup_insert_eq, Hcur.
    + rewrite lookup_insert_ne by done. apply Hpb.
  - by apply apply_cash_finite.
Qed.

(** The dry run on the touched keys decides for the whole book. *)
Lemma validate_apply_finite e id bk u :
  validate_apply e id bk = Ok u -> book_finite bk = true ->
  book_finite (book_apply e id bk).2 = true.
Proof.
  unfold validate_apply. intros H. apply reject_if_Ok, negb_false_iff in H.
  intros Hb. eapply book_apply_finite; [apply candidate_agrees|exact H|exact Hb].
Qed.

(** * The dry run of the realized series *)

Definition is_zero (a : f64) : bool := match a with S754_zero _ => true | _ => false end.

(** Equal, up to the sign of zero. *)
Definition zeq (a b : f64) : Prop := a = b \/ (is_zero a = true /\ is_zero b = true).

Lemma zeq_refl a : zeq a a.
Proof. by left. Qed.
#[export] Hint Resolve zeq_refl : f64.

Lemma fsub_zeq a a' b b' : zeq a a' -> zeq b b' -> zeq (fsub a b) (fsub a' b').
Proof.
  intros [<-|[Ha Ha']] [<-|[Hb Hb']]; [by left|..];
    destruct a as [[]|[]| |], b as [[]|[]| |]; try done;
    try destruct a' as [[]|[]| |]; try done; try destruct b' as [[]|[]| |]; try done;
    unfold zeq; cbn; auto.
Qed.

Lemma zeq_eq_zero a b : zeq a b -> f64_eq a fzero = f64_eq b fzero.
Proof. intros [<-|[Ha Hb]]; [done|]. by destruct a, b. Qed.

Lemma f64_eq_zero a : f64_eq a fzero = true -> is_zero a = true.
Proof. by destruct a as [[]|[]| |[]]. Qed.

Lemma fmul_zero_clamped q :
  is_nan q = false -> is_zero (fmul fzero (fmax (fmin q fzero) fzero)) = true.
Proof. by destruct q as [[]|[]| |[]]. Qed.

(** The cost the checks use is the cost the book books. *)
Lemma slice_cost_matches e bk :
  moves_inventory e.(ev_kind) = true -> e.(ev_side) = Some Sell ->
  is_nan e.(ev_quantity) = false ->
  zeq (event_slice e (current_position e bk)).(sl_cost) (book_cost_of_slice e bk).
Proof.
  intros Hm Hs Hq. unfold book_cost_of_slice, event_slice. rewrite Hm, Hs, bool_decide_true by done.
  unfold current_position; cbn. destruct (bk_positions bk !! key_of e) as [p|]; [by left|]. cbn.
  right. split; [|done]. by apply fmul_zero_clamped.
Qed.

(** The realized result the series check computes, and the one the book books. *)
Definition checked_delta (e : AccountingEvent) (cost : f64) : f64 :=
  if moves_inventory e.(ev_kind) && bool_decide (e.(ev_side) = Some Sell)
  then fsub (gross_quote e) cost else fzero.

Lemma realized_delta_matches e id bk :
  is_nan e.(ev_quantity) = false ->
  zeq (book_apply e id bk).1.(fx_realized_delta) (checked_delta e (book_cost_of_slice e bk)).
Proof.
  intros Hq. unfold book_apply, checked_delta.
  destruct (moves_inventory (ev_kind e)) eqn:Hm; cbn; [|by left].
  case_bool_decide as Hs.
  - pose proof (slice_cost_matches e bk Hm Hs Hq) as Hc.
    unfold event_slice, gross_quote in *. rewrite Hs in *. cbn in *.
    by apply fsub_zeq; [left|].
  - unfold event_slice. destruct (ev_side e) as [[]|]; [by left|done|by left].
Qed.

Record series_finite (s : RealizedSeries) : Prop := {
  sf_by_day k v : s.(rs_by_day) !! k = Some v -> is_finite v = true;
  sf_total k v : s.(rs_total) !! k = Some v -> is_finite v = true;
  sf_peak k v : s.(rs_peak) !! k = Some v -> is_finite v = true;
}.

Section Replay.
Context {libs : LedgerLibs}.

Lemma fold_series_finite e id bk s u :
  is_nan e.(ev_quantity) = false ->
  validate_series_update s e (book_cost_of_slice e bk) = Ok u ->
  series_finite s -> series_finite (fold_series e (book_apply e id bk).1 s).
Proof.
  intros Hq Hv Hs. unfold validate_series_update in Hv.
  fold (checked_delta e (book_cost_of_slice e bk)) in Hv.
  pose proof (fsub_zeq _ _ _ _ (realized_delta_matches e id bk Hq) (zeq_refl (series_fee e))) as Hz.
  unfold fold_series. rewrite (zeq_eq_zero _ _ Hz).
  apply outcome_bind_Ok in Hv as (? & _ & Hv).
  destruct (f64_eq (fsub (checked_delta _ _) _) fzero) eqn:Hnz; [done|].
  destruct Hz as [Heq|[_ Hz]].
  2: { destruct (fsub (checked_delta e _) _) as [[]|[]| |]; done. }
  rewrite Heq. destruct (_ && _)%bool eqn:Hfin in Hv; [|done]. bool_to_prop.
  destruct Hs as [Hd Ht Hp]. split; cbn; intros k v.
  - rewrite add_at_lookup. case_decide; [|apply Hd]. intros [= <-]. done.
  - destruct (decide (ev_quote_asset e = k)) as [<-|]; [|rewrite lookup_insert_ne by done; apply Ht].
    rewrite lookup_insert_eq. intros [= <-]. done.
  - destruct (decide (ev_quote_asset e = k)) as [<-|]; [|rewrite lookup_insert_ne by done; apply Hp].
    rewrite lookup_insert_eq. intros [= <-]. case_match; [done|].
    destruct (rs_peak s !! ev_quote_asset e) eqn:Hpk; [by apply (Hp (ev_quote_asset e))|done].
Qed.

(** * Replay *)

(** An event the ledger would book in state [i], with the entry it stores. *)
Record accepts (i : Inner) (stored : StoredEvent) (entry : Entry) : Prop := {
  ac_fresh : stored.(se_event_id) ∉ i.(in_ids);
  ac_id : stored.(se_event_id) = event_id stored.(se_event);
  ac_valid : is_ok (validate stored.(se_event)) = true;
  ac_check : check_event stored.(se_event) stored.(se_event_id) i.(in_book) i.(in_series) = Ok entry;
}.

Inductive replayed : list StoredEvent -> Inner -> Prop :=
  | replayed_nil : replayed [] Inner_new
  | replayed_snoc rows i stored entry :
      replayed rows i -> accepts i stored entry ->
      replayed (rows ++ [stored]) (book_event stored entry i).2.

(** The ledger without its bookkeeping of the journal. *)
Definition memory_of (i : Inner) : Inner :=
  mkInner i.(in_book) i.(in_events) i.(in_ids) i.(in_canonical) i.(in_entries) [] i.(in_series) None.

Definition mem_inv (i : Inner) : Prop := replayed i.(in_events) (memory_of i).

Lemma mem_inv_new : mem_inv Inner_new.
Proof. constructor. Qed.

Lemma mem_inv_bookkeeping i i' : memory_of i' = memory_of i -> mem_inv i -> mem_inv i'.
Proof.
  unfold mem_inv. intros Heq H. rewrite Heq.
  assert (in_events i' = in_events i) as -> by (by injection Heq). exact H.
Qed.

Lemma accepts_memory i stored entry :
  accepts (memory_of i) stored entry <-> accepts i stored entry.
Proof. split; intros []; by split. Qed.

Lemma mem_inv_book stored entry i :
  mem_inv i -> accepts i stored entry -> mem_inv (book_event stored entry i).2.
Proof.
  intros Hi Ha. apply accepts_memory in Ha. exact (replayed_snoc _ _ _ _ Hi Ha).
Qed.

(** What an accepted event is. *)
Lemma expand_valid e cost entry :
  expand e cost = Ok entry ->
  exists u, validate e = Ok u /\
  entry = fold_left (push (event_id e) e.(ev_quote_asset)) (expansion e cost) [] /\
  existsb posting_bad entry = false /\ is_balanced entry = true /\
  is_finite (totals entry).1 = true /\ is_finite (totals entry).2 = true.
Proof.
  unfold expand. intros H. inv_ok. bool_to_prop. eauto 10.
Qed.

Lemma check_event_Ok e id bk s entry :
  check_event e id bk s = Ok entry ->
  expand e (book_cost_of_slice e bk) = Ok entry /\
  (exists u, validate_apply e id bk = Ok u) /\
  (exists u, validate_series_update s e (book_cost_of_slice e bk) = Ok u).
Proof.
  unfold check_event. destruct (expand _ _) as [entry'| |]; intros H; inv_ok. eauto.
Qed.

Lemma validate_quantity e u : validate e = Ok u -> is_nan e.(ev_quantity) = false.
Proof.
  unfold validate, check_amount. intros H. inv_ok. bool_to_prop. by apply finite_not_nan.
Qed.

Lemma accepts_quantity i stored entry :
  accepts i stored entry -> is_nan stored.(se_event).(ev_quantity) = false.
Proof.
  intros [_ _ Hv _]. destruct (validate _) as [u| |] eqn:Hval; [|done|done].
  by eapply validate_quantity.
Qed.

(** Lines are numbered, labelled and keep the sign convention. *)
Definition well_labelled (id asset : text) (entry : Entry) : Prop :=
  forall n p, entry !! n = Some p ->
    p.(po_event_id) = id /\ p.(po_asset) = asset /\ p.(po_seq) = Z.of_nat n.

Lemma push_labelled id asset entry l :
  well_labelled id asset entry -> well_labelled id asset (push id asset entry l).
Proof.
  unfold push. destruct (_ && _)%bool; [done|]. intros H n p Hn.
  apply lookup_app_Some in Hn as [Hn|[Hlen Hn]]; [by apply H|].
  apply list_lookup_singleton_Some in Hn as [Hz <-]. cbn. repeat split. lia.
Qed.

Lemma pushes_labelled id asset ls entry :
  well_labelled id asset entry -> well_labelled id asset (fold_left (push id asset) ls entry).
Proof.
  revert entry. induction ls as [|l ls IH]; intros entry H; [done|].
  apply IH. by apply push_labelled.
Qed.

(** * What replay establishes *)

(** A stored entry: balanced, finite, labelled lines of one event. *)
Record entry_ok (id : text) (e : AccountingEvent) (entry : Entry) : Prop := {
  eo_balanced : is_balanced entry = true;
  eo_lines : existsb posting_bad entry = false;
  eo_labels : well_labelled id e.(ev_quote_asset) entry;
}.

Lemma accepts_entry_ok i stored entry :
  accepts i stored entry -> entry_ok stored.(se_event_id) stored.(se_event) entry.
Proof.
  intros [_ Hid _ Hc]. apply check_event_Ok in Hc as (He & _).
  apply expand_valid in He as (u & _ & -> & Hb & Hbal & _ & _). split; [done..|].
  rewrite Hid. apply pushes_labelled. by intros n p.
Qed.

(** Everything the ledger's indexes say about one booked event. *)
Record indexed (i : Inner) (stored : StoredEvent) : Prop := {
  ix_id : stored.(se_event_id) = event_id stored.(se_event);
  ix_known : stored.(se_event_id) ∈ i.(in_ids);
  ix_canonical : i.(in_canonical) !! stored.(se_event_id) = Some stored.(se_event);
  ix_entry : exists entry, i.(in_entries) !! stored.(se_event_id) = Some entry /\
    entry_ok stored.(se_event_id) stored.(se_event) entry;
}.

Record sound_memory (rows : list StoredEvent) (i : Inner) : Prop := {
  sm_events : i.(in_events) = rows;
  sm_nodup : NoDup (journaled_ids rows);
  sm_ids : forall id, id ∈ i.(in_ids) <-> id ∈ journaled_ids rows;
  sm_indexed : forall st, st ∈ rows -> indexed i st;
  sm_book : i.(in_book) =
    fold_left (fun bk st => (book_apply st.(se_event) st.(se_event_id) bk).2) rows PositionBook_new;
  sm_book_finite : book_finite i.(in_book) = true;
  sm_series_finite : series_finite i.(in_series);
}.

Lemma sound_new : sound_memory [] Inner_new.
Proof.
  split; [done|apply NoDup_nil_2|set_solver|by intros ? ?%not_elem_of_nil|done|done|].
  split; intros k v; done.
Qed.

Lemma indexed_book stored entry i st :
  accepts i stored entry -> indexed i st -> indexed (book_event stored entry i).2 st.
Proof.
  intros Ha [Hid Hk Hc He].
  assert (stored.(se_event_id) <> st.(se_event_id))
    by (intros Heq; apply (ac_fresh _ _ _ Ha); by rewrite Heq).
  split; cbn; [done|set_solver|by rewrite lookup_insert_ne|].
  by rewrite lookup_insert_ne.
Qed.

Lemma indexed_booked stored entry i :
  accepts i stored entry -> indexed (book_event stored entry i).2 stored.
Proof.
  intros Ha. pose proof (accepts_entry_ok _ _ _ Ha). destruct Ha as [_ Hid _ _].
  split; cbn; [done|set_solver|by rewrite lookup_insert_eq|].
  rewrite lookup_insert_eq. eauto.
Qed.

Lemma sound_book rows i stored entry :
  sound_memory rows i -> accepts i stored entry ->
  sound_memory (rows ++ [stored]) (book_event stored entry i).2.
Proof.
  intros [Hev Hnd Hids Hix Hbk Hbf Hsf] Ha.
  pose proof (accepts_quantity _ _ _ Ha) as Hq. split.
  - cbn. by rewrite Hev.
  - unfold journaled_ids in *. rewrite map_app. apply NoDup_app. split; [done|]. split.
    + intros id Hin ->%list_elem_of_singleton. apply (ac_fresh _ _ _ Ha). by apply Hids.
    + apply NoDup_singleton.
  - intros id. cbn. unfold journaled_ids. rewrite map_app, elem_of_app, elem_of_union, Hids.
    cbn. set_solver.
  - intros st [Hst| ->%list_elem_of_singleton]%elem_of_app;
      [by apply indexed_book; auto|by apply indexed_booked].
  - cbn. by rewrite fold_left_app, <- Hbk.
  - destruct Ha as [_ _ _ Hc]. apply check_event_Ok in Hc as (_ & [u Hv] & _).
    by apply (validate_apply_finite _ _ _ _ Hv).
  - destruct Ha as [_ _ _ Hc]. apply check_event_Ok in Hc as (_ & _ & [u Hv]).
    cbn. by eapply fold_series_finite.
Qed.

Lemma replayed_sound rows i : replayed rows i -> sound_memory rows i.
Proof. induction 1; [apply sound_new|by apply sound_book]. Qed.

(** ** The books, from the events alone

    The position book, the realized series, the entries and the canonical
    payloads an empty ledger reaches when the events are booked in their order. *)
Definition Books : Type := PositionBook * RealizedSeries * gmap text Entry * gmap text AccountingEvent.

Definition books_new : Books := (PositionBook_new, RealizedSeries_default, ∅, ∅).

Definition replay_event (b : Books) (e : AccountingEvent) : Books :=
  let '(bk, series, entries, canonical) := b in
  let r := book_apply e (event_id e) bk in
  (r.2, fold_series e r.1 series,
   match expand e (book_cost_of_slice e bk) with
   | Ok entry => <[event_id e := entry]> entries
   | _ => entries
   end,
   <[event_id e := e]> canonical).

Definition books_of (events : list AccountingEvent) : Books := fold_left replay_event events books_new.

Lemma replayed_books rows i : replayed rows i ->
  books_of (map se_event rows) = (i.(in_book), i.(in_series), i.(in_entries), i.(in_canonical)).
Proof.
  unfold books_of. induction 1 as [|rows i stored entry _ IH [_ Hid _ Hc]]; [done|].
  rewrite map_app, fold_left_app, IH. cbn [map fold_left replay_event]. apply check_event_Ok in Hc as (He & _).
  rewrite He. cbn. by rewrite Hid.
Qed.

Lemma mem_inv_books i : mem_inv i ->
  books_of (map se_event i.(in_events)) = (i.(in_book), i.(in_series), i.(in_entries), i.(in_canonical)).
Proof. intros Hi. exact (replayed_books _ _ Hi). Qed.

Lemma mem_inv_sound i : mem_inv i -> sound_memory i.(in_events) (memory_of i).
Proof. apply replayed_sound. Qed.

(** * Hydration *)

Lemma hydrate_known acc i stored :
  stored.(se_event_id) ∈ i.(in_ids) ->
  i.(in_canonical) !! stored.(se_event_id) = Some stored.(se_event) ->
  hydrate_row (acc, i) stored
  = ((acc.1.1, S acc.1.2, acc.2), note_recorded stored.(se_recorded_at) i).
Proof.
  intros Hid Hc. destruct acc as [[a d] n]. unfold hydrate_row. cbn.
  by rewrite !decide_True.
Qed.

Lemma hydrate_accepted acc i stored entry :
  accepts i stored entry ->
  hydrate_row (acc, i) stored
  = ((S acc.1.1, acc.1.2, acc.2),
     (book_event stored entry (note_recorded stored.(se_recorded_at) i)).2).
Proof.
  intros [Hf Hid Hv Hc]. destruct acc as [[a d] n]. unfold hydrate_row. cbn in *.
  rewrite decide_False by done. rewrite bool_decide_true by done. rewrite Hv. cbn.
  by rewrite Hc.
Qed.

Lemma hydrate_row_mem_inv t i stored :
  mem_inv i -> mem_inv (hydrate_row (t, i) stored).2.
Proof.
  intros Hi. destruct t as [[a d] n]. unfold hydrate_row.
  assert (Hn : mem_inv (note_recorded (se_recorded_at stored) i))
    by exact (mem_inv_bookkeeping i (note_recorded _ i) eq_refl Hi).
  case_decide as Hin; [by case_decide|].
  destruct (_ || _)%bool eqn:Hg; [done|]. bool_to_prop.
  destruct (check_event _ _ _ _) as [entry| |] eqn:Hc; [|done|done].
  cbn. apply mem_inv_book; [done|]. by split.
Qed.

Lemma hydrate_mem_inv rows i : mem_inv i -> mem_inv (hydrate rows i).2.
Proof.
  unfold hydrate. generalize (O, O, O). revert i.
  induction rows as [|r rows IH]; intros i t Hi; [done|]. cbn [fold_left].
  destruct (hydrate_row (t, i) r) as [t' i'] eqn:Hr. apply IH.
  change i' with ((t', i').2). rewrite <- Hr. by apply hydrate_row_mem_inv.
Qed.

(** Hydrating an empty ledger with the events of a ledger rebuilds it. *)
Lemma hydrate_replayed rows i :
  replayed rows i ->
  (hydrate rows Inner_new).1 = (length rows, O, O) /\
  memory_of (hydrate rows Inner_new).2 = i.
Proof.
  unfold hydrate.
  induction 1 as [|rows i stored entry Hr [IH1 IH2] Ha]; [done|].
  rewrite fold_left_app. cbn [fold_left].
  destruct (fold_left hydrate_row rows (O, O, O, Inner_new)) as [t i'] eqn:Hf.
  cbn in IH1, IH2. subst t i. apply (proj1 (accepts_memory i' _ _)) in Ha.
  rewrite (hydrate_accepted _ _ _ _ Ha). cbn. split; [|done].
  rewrite length_app. cbn. do 2 f_equal. lia.
Qed.
End Replay.
