(* ===== verification/LedgerJournal.v ===== *)
(** The ledger against its journal: what a submission, a flush, a refresh and a
    recovery do to the pair, for any journal that keeps [LedgerStoreLaws]. *)
From stdpp Require Import prelude gmap strings sorting.
From Stdlib Require Import ZArith Lia SpecFloat.
From S2P Require Import Prelude.
From S2P Require Import Text.
From S2P Require Import Float64.
From S2P Require Import Models.
From S2P Require Import LedgerEvent.
From S2P Require Import PositionBook.
From S2P Require Import Ledger.
From S2P Require Import LedgerReplay.

#[local] Open Scope Z_scope.

Section Journal.
Context {libs : LedgerLibs}.

Section AnyStore.
Context {St : Type} `{LedgerStore St}.

(** The state a submission works on once it has retried the pending rows. *)
Definition retried (i : Inner) (s : St) : Inner * St :=
  if decide (i.(in_pending) = []) then (i, s) else (flush_pending_locked i s).2.

Lemma flush_memory (i : Inner) (s : St) : memory_of (flush_pending_locked i s).2.1 = memory_of i.
Proof. done. Qed.

Lemma retried_memory (i : Inner) (s : St) : memory_of (retried i s).1 = memory_of i.
Proof. unfold retried. case_decide; done. Qed.

Lemma accepts_same_memory i i' stored entry :
  memory_of i' = memory_of i -> accepts i stored entry -> accepts i' stored entry.
Proof. intros Heq Ha%accepts_memory. apply accepts_memory. by rewrite Heq. Qed.

(** What a submission that gets past the checks does. *)
Inductive submitted (stored : StoredEvent) (entry : Entry) (i : Inner) (s : St)
    : Applied -> Inner -> St -> Prop :=
  | sub_known s' :
      i.(in_pending) = [] -> record_event stored entry s = (Some false, s') ->
      submitted stored entry i s Duplicate i s'
  | sub_journaled s1 s' :
      i.(in_pending) = [] -> record_event stored entry s = (Some true, s1) ->
      (exists fx bk, s' = snapshot_position fx bk s1) ->
      submitted stored entry i s (New (book_event stored entry i).1)
        (with_last stored.(se_recorded_at) (book_event stored entry i).2) s'
  | sub_parked s1 s' :
      (i.(in_pending) = [] /\ record_event stored entry s = (None, s1)) \/
      (i.(in_pending) <> [] /\ s1 = s) ->
      (exists fx bk, s' = snapshot_position fx bk s1) ->
      submitted stored entry i s (New (book_event stored entry i).1)
        (with_pending (i.(in_pending) ++ [stored.(se_event_id)])
           (with_last stored.(se_recorded_at) (book_event stored entry i).2)) s'.

Definition stamp (replica : text) (now : Z) (e : AccountingEvent) (i : Inner) : StoredEvent :=
  mkStoredEvent (event_id e) e (recorded_at now i.(in_last_recorded_at)) replica.

Lemma submit_cases replica now e (i : Inner) (s : St) :
  let out := submit replica now e i s in
  (out.2 = (i, s) /\
    ((out.1 = Duplicate /\ event_id e ∈ i.(in_ids)) \/ exists reason, out.1 = Rejected reason))
  \/ exists entry, accepts i (stamp replica now e i) entry /\
     submitted (stamp replica now e i) entry (retried i s).1 (retried i s).2 out.1 out.2.1 out.2.2.
Proof.
  cbn. unfold submit. destruct (validate e) as [u|r|] eqn:Hv; [|left; cbn; eauto|left; cbn; eauto].
  case_decide as Hin; [left; cbn; auto|].
  destruct (check_event e _ _ _) as [entry|r|] eqn:Hc; [|left; cbn; eauto|left; cbn; eauto].
  right. exists entry. fold (stamp replica now e i) (retried i s).
  split; [split; cbn; by rewrite ?Hv|].
  destruct (retried i s) as [i1 s1]. cbn [fst snd].
  assert (Hpend : in_pending (book_event (stamp replica now e i) entry i1).2 = in_pending i1) by done.
  case_bool_decide as Hp; cbn [negb fst snd with_last in_pending].
  - destruct (record_event _ entry s1) as [[[]|] s2] eqn:Hr; cbn [fst snd].
    + eapply sub_journaled; [done|exact Hr|eauto].
    + by apply sub_known.
    + cbn [with_last in_pending]. rewrite Hpend. eapply sub_parked; [by left|eauto].
  - rewrite Hpend. eapply sub_parked; [by right|eauto].
Qed.

Lemma submitted_memory stored entry i s out i' s' :
  submitted stored entry i s out i' s' -> accepts i stored entry -> mem_inv i -> mem_inv i'.
Proof.
  intros Hsub Ha Hi. pose proof (mem_inv_book _ _ _ Hi Ha) as Hb.
  destruct Hsub; [done|..]; by eapply mem_inv_bookkeeping, Hb.
Qed.

Lemma submit_mem_inv replica now e (i : Inner) (s : St) :
  mem_inv i -> mem_inv (submit replica now e i s).2.1.
Proof.
  intros Hi. destruct (submit_cases replica now e i s) as [[-> _]|(entry & Ha & Hs)]; [done|].
  eapply submitted_memory; [exact Hs| |].
  - eapply accepts_same_memory; [apply retried_memory|exact Ha].
  - by eapply mem_inv_bookkeeping, Hi; apply retried_memory.
Qed.

Lemma flush_mem_inv (i : Inner) (s : St) : mem_inv i -> mem_inv (flush_pending i s).2.1.
Proof. by apply mem_inv_bookkeeping. Qed.

Lemma refresh_mem_inv (i : Inner) (s : St) : mem_inv i -> mem_inv (refresh_from_store i s).2.
Proof.
  intros Hi. unfold refresh_from_store. destruct (negb _); [done|].
  destruct (load_events s); [by apply hydrate_mem_inv|done].
Qed.

Lemma recover_mem_inv ps (i : Inner) (s : St) : mem_inv i -> mem_inv (recover ps i s).2.1.
Proof.
  intros Hi. unfold recover. apply flush_mem_inv. destruct (load_events s); [by apply hydrate_mem_inv|done].
Qed.

(** ** Steps

    [alone] is false when other replicas write to the same journal; a replica
    that is alone is also taken to run before the end of the calendar. *)

Definition before_end (i : Inner) : Prop :=
  forall t, i.(in_last_recorded_at) = Some t -> t + 1000 <= datetime_max.

Inductive ledger_step (alone : bool) : Inner * St -> Inner * St -> Prop :=
  | st_submit replica now e i s :
      (alone = true -> before_end i) ->
      ledger_step alone (i, s) (submit replica now e i s).2
  | st_flush i s : ledger_step alone (i, s) (flush_pending i s).2
  | st_refresh i s : ledger_step alone (i, s) ((refresh_from_store i s).2, s)
  | st_recover ps i s : ledger_step alone (i, s) (recover ps i s).2
  | st_outage i s s' : store_ok s' -> journal s' = journal s -> ledger_step alone (i, s) (i, s')
  | st_other i s s' stored :
      alone = false -> store_ok s' -> stored.(se_event_id) ∉ journaled_ids (journal s) ->
      journal s' = journal s ++ [stored] -> ledger_step alone (i, s) (i, s').

(** Reachable from an empty ledger on an empty journal. *)
Definition ledger_reachable (alone : bool) (x : Inner * St) : Prop :=
  exists s0, store_ok s0 /\ journal s0 = [] /\ rtc (ledger_step alone) (Inner_new, s0) x.

Lemma step_mem_inv alone x y : ledger_step alone x y -> mem_inv x.1 -> mem_inv y.1.
Proof.
  intros Hs Hm. destruct Hs; cbn [fst snd] in *;
    eauto using submit_mem_inv, flush_mem_inv, refresh_mem_inv, recover_mem_inv.
Qed.

(** Rule induction over reachable states, with the memory invariant at hand. *)
Lemma reachable_ind alone (P : Inner * St -> Prop) :
  (forall s0, store_ok s0 -> journal s0 = [] -> P (Inner_new, s0)) ->
  (forall x y, mem_inv x.1 -> P x -> ledger_step alone x y -> P y) ->
  forall x, ledger_reachable alone x -> mem_inv x.1 /\ P x.
Proof.
  intros H0 Hstep x (s0 & Hok & Hj & Hrtc).
  assert (Hinit : mem_inv (Inner_new, s0).1 /\ P (Inner_new, s0)) by (split; [apply mem_inv_new|auto]).
  revert Hinit. induction Hrtc as [|x y z Hxy _ IH]; [done|].
  intros [Hm HP]. apply IH. split; [by eapply step_mem_inv|by eapply Hstep].
Qed.

Lemma reachable_mem_inv alone x : ledger_reachable alone x -> mem_inv x.1.
Proof. intros Hr. by apply (reachable_ind alone (fun _ => True)) in Hr as []. Qed.
End AnyStore.

(** * Hydration, row by row *)

Lemma hydrate_row_keeps t i stored :
  let i' := (hydrate_row (t, i) stored).2 in
  i'.(in_pending) = i.(in_pending) /\
  i'.(in_last_recorded_at) = (note_recorded stored.(se_recorded_at) i).(in_last_recorded_at) /\
  (i'.(in_events) = i.(in_events) \/ i'.(in_events) = i.(in_events) ++ [stored]).
Proof.
  destruct t as [[a d] n]. unfold hydrate_row. case_decide; [case_decide; cbn; auto|].
  destruct (_ || _)%bool; [cbn; auto|]. destruct (check_event _ _ _ _); cbn; auto.
Qed.

Lemma hydrate_snoc rows r i :
  hydrate (rows ++ [r]) i = hydrate_row (hydrate rows i) r.
Proof. unfold hydrate. by rewrite fold_left_app. Qed.

Lemma hydrate_keeps rows i :
  let i' := (hydrate rows i).2 in
  i'.(in_pending) = i.(in_pending) /\
  (forall st, st ∈ i.(in_events) -> st ∈ i'.(in_events)) /\
  (forall st, st ∈ i'.(in_events) -> st ∈ i.(in_events) \/ st ∈ rows).
Proof.
  cbn. induction rows as [|r rows (IHp & IHk & IHe)] using rev_ind; [cbn; auto|].
  rewrite hydrate_snoc. destruct (hydrate rows i) as [t i'].
  destruct (hydrate_row_keeps t i' r) as (Hp & _ & He). cbn [snd] in *.
  split; [by rewrite Hp|]. destruct He as [-> | ->]; split; set_solver.
Qed.

(** Rows the ledger already holds change nothing. *)
Lemma hydrate_own rows i :
  mem_inv i -> (forall st, st ∈ rows -> st ∈ i.(in_events)) ->
  (forall st, st ∈ rows -> exists t, i.(in_last_recorded_at) = Some t /\ st.(se_recorded_at) <= t) ->
  hydrate rows i = ((O, length rows, O), i).
Proof.
  intros Hm. pose proof (mem_inv_sound _ Hm) as Hs.
  induction rows as [|r rows IH] using rev_ind; [done|]. intros Hin Hlast.
  rewrite hydrate_snoc, IH by set_solver.
  destruct (sm_indexed _ _ Hs r) as [_ Hk Hc _]; [set_solver|].
  rewrite hydrate_known by done. cbn. rewrite length_app, Nat.add_1_r. f_equal.
  destruct (Hlast r) as (t & Ht & Hle); [set_solver|].
  unfold note_recorded, with_last. rewrite Ht, Z.max_l by done. rewrite <- Ht. by destruct i.
Qed.

(** * Pending rows *)

Lemma find_event (events : list StoredEvent) st :
  NoDup (journaled_ids events) -> st ∈ events ->
  snd <$> list_find (fun e => e.(se_event_id) = st.(se_event_id)) events = Some st.
Proof.
  intros Hnd. induction events as [|x events IH]; [by intros ?%not_elem_of_nil|].
  apply NoDup_cons in Hnd as [Hx Hnd]. cbn.
  intros [->|Hin]%elem_of_cons; [by rewrite decide_True|].
  rewrite decide_False.
  - specialize (IH Hnd Hin). destruct (list_find _ events) as [[n y]|]; done.
  - intros Heq. apply Hx. rewrite Heq. apply list_elem_of_fmap. eauto.
Qed.

Lemma pending_rows_tail i tail :
  mem_inv i -> i.(in_pending) = journaled_ids tail ->
  (forall st, st ∈ tail -> st ∈ i.(in_events)) ->
  map fst (pending_rows i) = tail.
Proof.
  intros Hm Hp Hin. pose proof (mem_inv_sound _ Hm) as Hs.
  unfold pending_rows. rewrite Hp. clear Hp. induction tail as [|st tail IH]; [done|].
  cbn [journaled_ids map omap list_omap].
  rewrite (find_event _ st (sm_nodup _ _ Hs)) by set_solver. cbn [mbind option_bind].
  destruct (sm_indexed _ _ Hs st) as [_ _ _ (entry & He & _)]; [set_solver|].
  cbn in He. rewrite He. cbn. f_equal. apply IH. set_solver.
Qed.

Lemma ids_of_events (events : list StoredEvent) (ids : list text) :
  (forall id, id ∈ ids -> id ∈ journaled_ids events) ->
  exists tail, ids = journaled_ids tail /\ forall st, st ∈ tail -> st ∈ events.
Proof.
  induction ids as [|id ids IH]; intros H; [exists []; set_solver|].
  destruct IH as (tail & -> & Htail); [set_solver|].
  assert (Hid : id ∈ journaled_ids events) by set_solver.
  apply list_elem_of_fmap in Hid as (st & -> & Hst).
  exists (st :: tail). split; [done|]. set_solver.
Qed.

Section Laws.
Context {St : Type} `{LedgerStore St} `{!LedgerStoreLaws St}.

Lemma record_ids stored entry s o s' :
  store_ok s -> record_event stored entry s = (Some o, s') ->
  (forall id, id ∈ journaled_ids (journal s') <->
     id ∈ journaled_ids (journal s) \/ id = stored.(se_event_id)) /\
  (NoDup (journaled_ids (journal s)) -> NoDup (journaled_ids (journal s'))).
Proof.
  intros Hok Hr. destruct o.
  - apply record_new in Hr as [Hn ->]; [|done]. unfold journaled_ids in *. rewrite map_app. split.
    + intros id. rewrite elem_of_app. cbn. set_solver.
    + intros Hnd. apply NoDup_app. split; [done|]. split; [|apply NoDup_singleton].
      by intros id Hid ->%list_elem_of_singleton.
  - apply record_known in Hr as [Hk ->]; [|done]. split; [|done]. intros id. set_solver.
Qed.

(** A flush journals a prefix of the rows, in order. *)
Lemma flush_rows_prefix rows s :
  store_ok s ->
  let r := flush_rows rows s in
  store_ok r.2 /\
  exists done rest, rows = done ++ rest /\ r.1 = journaled_ids (map fst done) /\
  (forall id, id ∈ journaled_ids (journal r.2) <-> id ∈ journaled_ids (journal s) \/ id ∈ r.1) /\
  (NoDup (journaled_ids (journal s)) -> NoDup (journaled_ids (journal r.2))) /\
  (NoDup (journaled_ids (journal s ++ map fst rows)) -> journal r.2 = journal s ++ map fst done).
Proof.
  cbn. revert s. induction rows as [|[stored entry] rows IH]; intros s Hok.
  { split; [done|]. exists [], []. cbn. rewrite app_nil_r. set_solver. }
  pose proof (record_keeps_ok stored entry s Hok) as Hok1.
  cbn [flush_rows]. destruct (record_event stored entry s) as [[o|] s1] eqn:Hr.
  - destruct (record_ids _ _ _ _ _ Hok Hr) as [Hids Hnd].
    destruct (IH s1 Hok1) as (Hok2 & dn & rest & -> & Hd & Hj & Hn & Hsolo). split; [done|].
    exists ((stored, entry) :: dn), rest. cbn [fst snd map]. rewrite Hd. split; [done|].
    split; [done|]. split; [|split; [auto|]].
    + intros id. rewrite Hj, Hids, Hd. cbn. set_solver.
    + intros Hall. destruct o.
      * apply record_new in Hr as [_ Hj1]; [|done].
        rewrite Hsolo; rewrite Hj1; rewrite <- app_assoc; done.
      * apply record_known in Hr as [Hk _]; [|done]. exfalso.
        unfold journaled_ids in Hall. rewrite map_app in Hall. cbn in Hall.
        apply NoDup_app in Hall as (_ & Hdis & _). apply (Hdis _ Hk). set_solver.
  - split; [done|]. exists [], ((stored, entry) :: rows). cbn [fst snd map].
    apply record_unavailable in Hr as ->; [|done].
    rewrite app_nil_r. split; [done|]. split; [done|]. set_solver.
Qed.

Lemma snapshot_keeps fx bk s :
  store_ok s ->
  store_ok (snapshot_position fx bk s) /\ journal (snapshot_position fx bk s) = journal s.
Proof.
  unfold snapshot_position. intros. case_decide; [done|]. case_match; [by apply upsert_keeps|done].
Qed.

(** The journal after a submission that got past the checks. *)
Lemma submitted_journal stored entry i s out i' s' :
  store_ok s -> submitted stored entry i s out i' s' ->
  store_ok s' /\
  ((out = Duplicate /\ i' = i /\ journal s' = journal s /\
     stored.(se_event_id) ∈ journaled_ids (journal s)) \/
   (i.(in_pending) = [] /\ (stored.(se_event_id) ∉ journaled_ids (journal s)) /\
     journal s' = journal s ++ [stored] /\
     i' = with_last stored.(se_recorded_at) (book_event stored entry i).2) \/
   (journal s' = journal s /\
     i' = with_pending (i.(in_pending) ++ [stored.(se_event_id)])
            (with_last stored.(se_recorded_at) (book_event stored entry i).2))).
Proof.
  intros Hok Hsub.
  assert (Hkeep : forall o s1, record_event stored entry s = (o, s1) -> store_ok s1)
    by (intros o s1 Hr; pose proof (record_keeps_ok stored entry s Hok); by rewrite Hr in *).
  destruct Hsub as [s' Hpe Hr|s1 s' Hpe Hr (fx & bk & ->)|s1 s' Hpe (fx & bk & ->)].
  - split; [by eapply Hkeep|]. apply record_known in Hr as [Hk Hj]; [|done]. left. auto.
  - destruct (snapshot_keeps fx bk s1) as [? ->]; [by eapply Hkeep|]. split; [done|].
    apply record_new in Hr as [Hn ->]; [|done]. right. left. auto.
  - assert (store_ok s1 /\ journal s1 = journal s) as [Hok1 Hj].
    { destruct Hpe as [[_ Hr]|[_ ->]]; [|done]. split; [by eapply Hkeep|].
      by apply record_unavailable in Hr. }
    destruct (snapshot_keeps fx bk s1 Hok1) as [? ->]. split; [done|]. right. right. auto.
Qed.

(** ** Nothing booked is lost *)

Record covered (x : Inner * St) : Prop := {
  cv_ok : store_ok x.2;
  cv_events : forall st, st ∈ x.1.(in_events) ->
    st.(se_event_id) ∈ journaled_ids (journal x.2) \/ st.(se_event_id) ∈ x.1.(in_pending);
  cv_pending : forall id, id ∈ x.1.(in_pending) -> id ∈ journaled_ids x.1.(in_events);
  cv_nodup : NoDup (journaled_ids (journal x.2));
}.

Lemma flush_covered i s :
  mem_inv i -> covered (i, s) -> covered (flush_pending_locked i s).2.
Proof.
  intros Hm [Hok He Hp Hn]. cbn [fst snd] in *.
  destruct (ids_of_events _ _ Hp) as (tail & Htail & Hin).
  pose proof (pending_rows_tail _ _ Hm Htail Hin) as Hrows.
  destruct (flush_rows_prefix (pending_rows i) s Hok)
    as (Hok' & dn & rest & Hsplit & Hd & Hj & Hnd & _).
  unfold flush_pending_locked. split; cbn [fst snd with_pending in_events in_pending]; [done|..].
  - intros st Hst. rewrite Hj. destruct (He st Hst) as [|Hpen]; [by left; left|].
    destruct (decide (se_event_id st ∈ (flush_rows (pending_rows i) s).1)); [by left; right|].
    right. by apply list_elem_of_filter.
  - intros id [_ Hid]%list_elem_of_filter. auto.
  - auto.
Qed.

(** A flush takes every row, unless the journal does not answer for one of them. *)
Lemma flush_rows_stops rows s :
  (flush_rows rows s).1 = journaled_ids (map fst rows) \/
  exists stored entry s0, (stored, entry) ∈ rows /\
    record_event stored entry s0 = (None, (flush_rows rows s).2).
Proof.
  revert s. induction rows as [|[stored entry] rows IH]; intros s; [by left|]. cbn [flush_rows].
  destruct (record_event stored entry s) as [[o|] s1] eqn:Hr; cbn [fst snd].
  - destruct (IH s1) as [Hall|(st & en & s0 & Hin & Hst)].
    + left. cbn. f_equal. exact Hall.
    + right. exists st, en, s0. split; [by apply list_elem_of_further|done].
  - right. exists stored, entry, s. split; [apply list_elem_of_here|done].
Qed.

Lemma flush_empties i s :
  mem_inv i -> covered (i, s) ->
  let r := (flush_pending_locked i s).2 in
  r.1.(in_pending) = [] \/
  exists stored entry s0, stored ∈ i.(in_events) /\ stored.(se_event_id) ∈ i.(in_pending) /\
    record_event stored entry s0 = (None, r.2).
Proof.
  intros Hm [_ _ Hp _]. cbn [fst snd] in *. destruct (ids_of_events _ _ Hp) as (tail & Htail & Hin).
  pose proof (pending_rows_tail _ _ Hm Htail Hin) as Hrows.
  unfold flush_pending_locked. cbn [fst snd with_pending in_pending].
  destruct (flush_rows_stops (pending_rows i) s) as [Hall|(st & en & s0 & Hst & Hr)].
  - left. rewrite Hall, Hrows, Htail. destruct (filter _ _) as [|id l] eqn:Hf; [done|].
    assert (Hid : id ∈ id :: l) by apply list_elem_of_here. rewrite <- Hf in Hid.
    by apply list_elem_of_filter in Hid as [Hn Hid].
  - right. exists st, en, s0. assert (Hst' : st ∈ tail).
    { rewrite <- Hrows. apply list_elem_of_fmap. by exists (st, en). }
    split_and!; [by apply Hin| |done]. rewrite Htail. apply list_elem_of_fmap. by exists st.
Qed.

Lemma retried_covered i s : mem_inv i -> covered (i, s) -> covered (retried i s).
Proof. unfold retried. intros. case_decide; [done|]. by apply flush_covered. Qed.

Lemma submitted_covered stored entry i s out i' s' :
  submitted stored entry i s out i' s' -> covered (i, s) -> covered (i', s').
Proof.
  intros Hsub [Hok He Hp Hn]. cbn [fst snd] in *.
  destruct (submitted_journal _ _ _ _ _ _ _ Hok Hsub)
    as (Hok' & [(_ & -> & Hj & _)|[(Hpe & Hfr & Hj & ->)|(Hj & ->)]]).
  - split; cbn [fst snd]; by rewrite ?Hj.
  - split; cbn [fst snd with_last book_event in_events in_pending]; [done|..];
      unfold journaled_ids in *; rewrite ?Hj, ?map_app, ?Hpe.
    + intros st [Hst| ->%list_elem_of_singleton]%elem_of_app; rewrite elem_of_app;
        [|left; right; by apply list_elem_of_singleton].
      destruct (He st Hst) as [|Hx]; [by left; left|]. rewrite Hpe in Hx. by right.
    + by intros ? ?%not_elem_of_nil.
    + apply NoDup_app. split; [done|]. split; [|apply NoDup_singleton].
      by intros id Hid ->%list_elem_of_singleton.
  - split; cbn [fst snd with_last with_pending book_event in_events in_pending]; [done|..];
      rewrite ?Hj; [| |done].
    + intros st [Hst| ->%list_elem_of_singleton]%elem_of_app; [|set_solver].
      destruct (He st Hst); set_solver.
    + intros id [Hid| ->%list_elem_of_singleton]%elem_of_app;
        unfold journaled_ids in *; rewrite map_app; set_solver.
Qed.

Lemma load_perm s rows : store_ok s -> load_events s = Some rows -> rows ≡ₚ journal s.
Proof. intros Hok ->%load_sorted; [|done]. apply merge_sort_Permutation. Qed.

Lemma hydrate_covered rows i s :
  load_events s = Some rows -> covered (i, s) -> covered ((hydrate rows i).2, s).
Proof.
  intros Hl [Hok He Hp Hn]. destruct (hydrate_keeps rows i) as (Hpe & Hk & Hev).
  split; cbn [fst snd] in *; [done| | |done].
  - intros st Hst. rewrite Hpe. apply Hev in Hst as [Hst|Hst]; [auto|].
    left. rewrite (load_perm _ _ Hok Hl) in Hst. apply list_elem_of_fmap. eauto.
  - intros id. rewrite Hpe. intros (st & -> & Hst)%Hp%list_elem_of_fmap.
    apply list_elem_of_fmap. eauto.
Qed.

Lemma step_covered alone x y :
  mem_inv x.1 -> covered x -> ledger_step alone x y -> covered y.
Proof.
  intros Hm Hc Hstep. destruct Hstep as [replica now e i s _|i s|i s|ps i s|i s s' Hok Hj|i s s' st _ Hok Hn Hj];
    cbn [fst] in Hm.
  - destruct (submit_cases replica now e i s) as [[-> _]|(entry & Ha & Hs)]; [done|].
    apply submitted_covered in Hs; [by destruct (submit _ _ _ _ _) as [? []]|].
    rewrite <- surjective_pairing. by apply retried_covered.
  - by apply flush_covered.
  - unfold refresh_from_store. destruct (negb _); [done|].
    destruct (load_events s) eqn:Hl; [by eapply hydrate_covered|done].
  - unfold recover. destruct (load_events s) eqn:Hl; cbn [fst snd].
    + apply flush_covered; [by apply hydrate_mem_inv|by apply hydrate_covered].
    + by apply flush_covered.
  - destruct Hc as [_ He Hp Hd]. split; cbn [fst snd] in *; by rewrite ?Hj.
  - destruct Hc as [_ He Hp Hd]. unfold journaled_ids in *.
    split; cbn [fst snd] in *; unfold journaled_ids; rewrite ?Hj, ?map_app; [done| |done|].
    + intros x Hx. destruct (He x Hx); set_solver.
    + apply NoDup_app. split; [done|]. split; [|apply NoDup_singleton].
      by intros id Hid ->%list_elem_of_singleton.
Qed.

Lemma reachable_covered alone (x : Inner * St) : ledger_reachable alone x -> covered x.
Proof.
  intros Hr. apply (reachable_ind alone covered) in Hr as [_ ?]; [done| |].
  - intros s0 Hok Hj. split; cbn; rewrite ?Hj; [done|by intros ? ?%not_elem_of_nil..|apply NoDup_nil_2].
  - intros. by eapply step_covered.
Qed.

(** ** One replica, one journal

    The journal is a prefix of what was booked, in booking order; the parked
    events are the rest, in the same order. *)

Definition recorded_before (a b : StoredEvent) : Prop := a.(se_recorded_at) < b.(se_recorded_at).

Record in_step (x : Inner * St) : Prop := {
  is_ok_ : store_ok x.2;
  is_split : exists tail, x.1.(in_events) = journal x.2 ++ tail /\
    x.1.(in_pending) = journaled_ids tail;
  is_last : x.1.(in_last_recorded_at) = se_recorded_at <$> last x.1.(in_events);
  is_sorted : StronglySorted recorded_before x.1.(in_events);
}.

Lemma sorted_snoc l st :
  StronglySorted recorded_before l ->
  (forall x, last l = Some x -> recorded_before x st) ->
  StronglySorted recorded_before (l ++ [st]).
Proof.
  induction 1 as [|a l Hs IH Ha]; intros Hlast; cbn; [by repeat constructor|].
  assert (Hl : forall x, last l = Some x -> recorded_before x st).
  { intros x Hx. apply Hlast. destruct l; [done|exact Hx]. }
  constructor; [by apply IH|]. apply Forall_app. split; [done|]. constructor; [|done].
  destruct (last l) as [x|] eqn:Hx.
  - unfold recorded_before in *.
    assert (a.(se_recorded_at) < x.(se_recorded_at)).
    { rewrite Forall_forall in Ha. apply Ha. apply last_Some in Hx as [l' ->]. set_solver. }
    specialize (Hl x eq_refl). lia.
  - apply last_None in Hx as ->. by apply Hlast.
Qed.

Lemma sorted_last_max l x st :
  StronglySorted recorded_before l -> last l = Some x -> st ∈ l ->
  st.(se_recorded_at) <= x.(se_recorded_at).
Proof.
  intros Hs [l' ->]%last_Some Hst. apply elem_of_app in Hst as [Hst| ->%list_elem_of_singleton]; [|lia].
  pose proof (StronglySorted_app_1_elem_of _ _ _ st x Hs Hst) as Hb.
  unfold recorded_before in Hb. specialize (Hb ltac:(set_solver)). lia.
Qed.

Lemma text_leb_total a b : text_leb a b = true \/ text_leb b a = true.
Proof.
  revert b. induction a as [|x a IH]; intros [|y b]; cbn; auto.
  destruct (Z.ltb_spec x y); [auto|]. destruct (Z.ltb_spec y x); [auto|].
  assert (x = y) as -> by lia. rewrite Z.eqb_refl. cbn. apply IH.
Qed.

#[local] Instance replay_le_total : Total replay_le.
Proof.
  intros a b. unfold replay_le.
  destruct (Z.lt_trichotomy (se_recorded_at a) (se_recorded_at b)) as [|[Heq|]]; [auto| |auto].
  destruct (text_leb_total (se_event_id a) (se_event_id b)); [left|right]; auto.
Qed.

Lemma text_leb_trans a b c : text_leb a b = true -> text_leb b c = true -> text_leb a c = true.
Proof.
  revert b c. induction a as [|x a IH]; intros [|y b] [|z c]; cbn; try done.
  rewrite !orb_true_iff, !andb_true_iff, !Z.ltb_lt, !Z.eqb_eq.
  intros [|[-> ]] [|[-> ]]; try (left; lia). right. eauto.
Qed.

#[local] Instance replay_le_trans : Transitive replay_le.
Proof.
  intros a b c. unfold replay_le. intros [|[Hab ?]] [|[Hbc ?]]; try (left; lia).
  right. split; [lia|]. by eapply text_leb_trans.
Qed.

(** Replay order is booking order. *)
Lemma merge_sort_sorted l :
  StronglySorted recorded_before l -> merge_sort replay_le l = l.
Proof.
  intros Hs. apply (StronglySorted_unique_strong replay_le).
  - intros a b Ha Hb Hab Hba. rewrite merge_sort_Permutation in Ha.
    (* equal instants can only be the same row *)
    assert (Heq : se_recorded_at a = se_recorded_at b) by (destruct Hab as [|[]], Hba as [|[]]; lia).
    clear Hab Hba. induction Hs as [|x l Hs IH Hx]; [by apply not_elem_of_nil in Ha|].
    rewrite Forall_forall in Hx. unfold recorded_before in Hx.
    apply elem_of_cons in Ha as [->|Ha], Hb as [->|Hb]; [done|..].
    + specialize (Hx _ Hb). lia.
    + specialize (Hx _ Ha). lia.
    + auto.
  - apply StronglySorted_merge_sort; apply _.
  - induction Hs as [|x l Hs IH Hx]; constructor; [done|].
    eapply Forall_impl; [exact Hx|]. unfold recorded_before, replay_le. auto.
  - apply merge_sort_Permutation.
Qed.

Lemma filter_done (done_ rest : list text) :
  NoDup (done_ ++ rest) -> filter (fun id => id ∉ done_) (done_ ++ rest) = rest.
Proof.
  intros (_ & Hdis & _)%NoDup_app. rewrite filter_app, filter_none, filter_all; [done|..].
  - intros x Hx Hd. by apply (Hdis x).
  - auto.
Qed.

Lemma in_step_flush i s : mem_inv i -> in_step (i, s) -> in_step (flush_pending_locked i s).2.
Proof.
  intros Hm [Hok (tail & Hev & Hp) Hlast Hsort]. cbn [fst snd] in *.
  pose proof (mem_inv_sound _ Hm) as Hs.
  assert (Hin : forall st, st ∈ tail -> st ∈ in_events i) by (rewrite Hev; set_solver).
  pose proof (pending_rows_tail _ _ Hm Hp Hin) as Hrows.
  pose proof (sm_nodup _ _ Hs) as Hnd. rewrite Hev in Hnd.
  destruct (flush_rows_prefix (pending_rows i) s Hok)
    as (Hok' & dn & rest & Hsplit & Hd & _ & _ & Hsolo).
  rewrite Hrows in Hsolo. specialize (Hsolo Hnd).
  assert (Htail : tail = map fst dn ++ map fst rest) by (by rewrite <- map_app, <- Hsplit).
  unfold flush_pending_locked. split; cbn [fst snd with_pending in_events in_pending in_last_recorded_at];
    [done| |done|done].
  exists (map fst rest). rewrite Hsolo, <- app_assoc, <- Htail. split; [done|].
  rewrite Hd, Hp, Htail. unfold journaled_ids in *. rewrite map_app. apply filter_done.
  rewrite Htail, !map_app in Hnd. by apply NoDup_app in Hnd as (_ & _ & Hnd).
Qed.

Lemma recorded_at_later i now x :
  before_end i -> i.(in_last_recorded_at) = se_recorded_at <$> last i.(in_events) ->
  last i.(in_events) = Some x ->
  x.(se_recorded_at) < recorded_at now i.(in_last_recorded_at).
Proof.
  intros Hend Hlast Hx. rewrite Hx in Hlast. cbn in Hlast. specialize (Hend _ Hlast).
  rewrite Hlast. unfold recorded_at. destruct (Z.leb_spec (se_recorded_at x + 1000) datetime_max); lia.
Qed.

Lemma in_step_submitted stored entry i s out i' s' :
  submitted stored entry i s out i' s' -> accepts i stored entry -> mem_inv i ->
  (forall x, last i.(in_events) = Some x -> recorded_before x stored) ->
  in_step (i, s) -> in_step (i', s').
Proof.
  intros Hsub Ha Hm Hlater [Hok (tail & Hev & Hp) Hlast Hsort]. cbn [fst snd] in *.
  pose proof (mem_inv_sound _ Hm) as Hs.
  assert (Hfresh : stored.(se_event_id) ∉ journaled_ids (journal s)).
  { intros Hj. apply (ac_fresh _ _ _ Ha), (sm_ids _ _ Hs). rewrite Hev.
    unfold journaled_ids in *. rewrite map_app. set_solver. }
  destruct (submitted_journal _ _ _ _ _ _ _ Hok Hsub)
    as (Hok' & [(_ & _ & _ & Hk)|[(Hpe & _ & Hj & ->)|(Hj & ->)]]); [done|..].
  - assert (tail = []) as -> by (destruct tail; [done|by rewrite Hpe in Hp]).
    rewrite app_nil_r in Hev.
    split; cbn [fst snd with_last book_event in_events in_pending in_last_recorded_at];
      rewrite ?Hj, ?last_snoc; [done| |done|by apply sorted_snoc].
    exists []. by rewrite app_nil_r, Hev.
  - split; cbn [fst snd with_last with_pending book_event in_events in_pending in_last_recorded_at];
      rewrite ?Hj, ?last_snoc; [done| |done|by apply sorted_snoc].
    exists (tail ++ [stored]). unfold journaled_ids. rewrite map_app.
    by rewrite Hev, Hp, app_assoc.
Qed.

Lemma in_step_load i s rows :
  in_step (i, s) -> load_events s = Some rows -> rows = journal s.
Proof.
  intros [Hok (tail & Hev & _) _ Hsort] ->%load_sorted; [|done]. cbn [fst snd] in *.
  apply merge_sort_sorted. rewrite Hev in Hsort. by apply StronglySorted_app in Hsort as (_ & ? & _).
Qed.

Lemma hydrate_journal i s :
  mem_inv i -> in_step (i, s) ->
  hydrate (journal s) i = ((O, length (journal s), O), i).
Proof.
  intros Hm [_ (tail & Hev & _) Hlast Hsort]. cbn [fst snd] in *.
  apply hydrate_own; [done|rewrite Hev; set_solver|].
  intros st Hst. assert (Hin : st ∈ in_events i) by (rewrite Hev; set_solver).
  destruct (last (in_events i)) as [x|] eqn:Hx.
  - exists x.(se_recorded_at). split; [done|]. by eapply sorted_last_max.
  - apply last_None in Hx. rewrite Hx in Hin. by apply not_elem_of_nil in Hin.
Qed.

Lemma step_in_step x y :
  mem_inv x.1 -> in_step x -> ledger_step true x y -> in_step y.
Proof.
  intros Hm Hi Hstep.
  destruct Hstep as [replica now e i s Hend|i s|i s|ps i s|i s s' Hok Hj|i s s' st Hal _ _ _];
    cbn [fst] in Hm.
  - destruct (submit_cases replica now e i s) as [[-> _]|(entry & Ha & Hs)]; [done|].
    assert (Hret : in_step (retried i s))
      by (unfold retried; case_decide; [done|by apply in_step_flush]).
    assert (Hmem : memory_of (retried i s).1 = memory_of i) by apply retried_memory.
    assert (Hev : in_events (retried i s).1 = in_events i) by (by injection Hmem).
    destruct (submit replica now e i s) as [out [i' s']]. cbn [fst snd] in *.
    eapply in_step_submitted; [exact Hs| | | |by rewrite <- surjective_pairing].
    + by eapply accepts_same_memory.
    + by eapply mem_inv_bookkeeping.
    + rewrite Hev. intros x Hx. destruct Hi as [_ _ Hlast _]. cbn [fst snd] in Hlast.
      apply (recorded_at_later i now x); auto.
  - by apply in_step_flush.
  - unfold refresh_from_store. destruct (negb _); [done|].
    destruct (load_events s) as [rows|] eqn:Hl; [|done].
    by rewrite (in_step_load _ _ _ Hi Hl), (hydrate_journal _ _ Hm Hi).
  - unfold recover. destruct (load_events s) as [rows|] eqn:Hl; cbn [fst snd].
    + rewrite (in_step_load _ _ _ Hi Hl), (hydrate_journal _ _ Hm Hi). by apply in_step_flush.
    + by apply in_step_flush.
  - destruct Hi as [_ Hs Hl Hso]. split; cbn [fst snd] in *; by rewrite ?Hj.
  - done.
Qed.

Lemma reachable_in_step (x : Inner * St) : ledger_reachable true x -> in_step x.
Proof.
  intros Hr. apply (reachable_ind true in_step) in Hr as [_ ?]; [done| |].
  - intros s0 Hok Hj. split; cbn [fst snd]; [done|exists []; by rewrite Hj|done|constructor].
  - intros. by eapply step_in_step.
Qed.

(** The last instant seen by a hydration of sorted rows. *)
Lemma hydrate_last rows :
  StronglySorted recorded_before rows ->
  (hydrate rows Inner_new).2.(in_last_recorded_at) = se_recorded_at <$> last rows.
Proof.
  induction rows as [|r rows IH] using rev_ind; [done|]. intros Hs.
  pose proof Hs as (Hlt & Hs1 & _)%StronglySorted_app. specialize (IH Hs1).
  rewrite hydrate_snoc, last_snoc. destruct (hydrate rows Inner_new) as [t i'] eqn:Hh.
  destruct (hydrate_row_keeps t i' r) as (_ & Hl & _). cbn [snd] in *.
  rewrite Hl. unfold note_recorded, with_last. cbn. rewrite IH.
  destruct (last rows) as [x|] eqn:Hx; [|done]. cbn. f_equal.
  assert (recorded_before x r); [|unfold recorded_before in *; lia].
  apply Hlt; [|set_solver]. apply last_Some in Hx as [l' ->]. set_solver.
Qed.

(** A replica that restarts on its own journal has the memory it had. *)
Lemma hydrate_rebuilds i s :
  mem_inv i -> in_step (i, s) -> i.(in_pending) = [] ->
  hydrate (journal s) Inner_new = ((length i.(in_events), O, O), i).
Proof.
  intros Hm Hi Hp. destruct Hi as [_ (tail & Hev & Ht) Hlast Hsort]. cbn [fst snd] in *.
  assert (tail = []) as -> by (destruct tail; [done|by rewrite Hp in Ht]).
  rewrite app_nil_r in Hev. rewrite <- Hev.
  destruct (hydrate_replayed _ _ Hm) as [Htally Hmem].
  destruct (hydrate_keeps (in_events i) Inner_new) as (Hpe & _ & _).
  pose proof (hydrate_last _ Hsort) as Hl. rewrite <- Hlast in Hl.
  destruct (hydrate (in_events i) Inner_new) as [t i'] eqn:Hh. cbn [fst snd] in *.
  rewrite Htally. f_equal. destruct i, i'. unfold memory_of in Hmem. cbn in *.
  injection Hmem as -> -> -> -> -> ->. by subst.
Qed.
End Laws.
End Journal.
