(* ===== verification/LedgerCorrect.v ===== *)
(** What makes the global ledger correct: every fact is booked once, the books
    are the replay of the booked events, nothing booked is lost while the
    journal is down, a restart on the journal rebuilds the memory exactly, and
    no amount in it is ever infinite or NaN. *)
From stdpp Require Import prelude gmap strings sorting.
From Stdlib Require Import ZArith Lia SpecFloat.
From S2P Require Import Prelude.
From S2P Require Import Text.
From S2P Require Import Float64.
From S2P Require Import Models.
From S2P Require Import LedgerEvent.
From S2P Require Import PositionBook.
From S2P Require Import Ledger.
From S2P Require Import LedgerReplay.
From S2P Require Import LedgerJournal.
From S2P Require Import Reconciliation.

#[local] Open Scope Z_scope.

(** * The in-memory journal keeps the laws *)

#[export] Instance MemoryLedgerStore_laws : LedgerStoreLaws MemoryLedgerStore.
Proof.
  split.
  - intros stored entry s s' Hok Hr. cbn in *. unfold memory_record_event in Hr.
    destruct (ms_unavailable s); [done|]. destruct (ms_index s !! _) eqn:Hi; [done|].
    injection Hr as <-. split; [|done]. intros Hin. apply Hok in Hin as [? ?]. congruence.
  - intros stored entry s s' Hok Hr. cbn in *. unfold memory_record_event in Hr.
    destruct (ms_unavailable s); [done|]. destruct (ms_index s !! _) eqn:Hi; [|done].
    injection Hr as <-. split; [|done]. apply Hok. eauto.
  - intros stored entry s s' Hok Hr. cbn in *. unfold memory_record_event in Hr.
    destruct (ms_unavailable s); [by injection Hr as <-|]. by destruct (ms_index s !! _).
  - intros stored entry s Hok. cbn in *. unfold memory_record_event.
    destruct (ms_unavailable s); [done|]. destruct (ms_index s !! _) eqn:Hi; [done|].
    cbn. intros id. unfold journaled_ids in *. rewrite map_app, elem_of_app, <- Hok. cbn.
    rewrite list_elem_of_singleton.
    destruct (decide (se_event_id stored = id)) as [<-|Hne].
    + rewrite lookup_insert_eq. naive_solver.
    + rewrite lookup_insert_ne by done. naive_solver.
  - intros s l _ Hl. cbn in *. unfold memory_load_events in Hl.
    destruct (ms_unavailable s); [done|]. by injection Hl as <-.
  - intros p s Hok. cbn in *. unfold memory_upsert_position. by destruct (ms_unavailable s).
Qed.

(** * Postings and book *)

Lemma fmul_finite_inv a b : is_finite (fmul a b) = true -> is_finite a = true /\ is_finite b = true.
Proof. by destruct a as [| | |], b as [| | |]. Qed.

Lemma fsub_finite_r a b : is_finite (fsub a b) = true -> is_finite b = true.
Proof. by destruct a as [|[]| |], b as [|[]| |]. Qed.

Lemma avg_cost_nonneg p : is_finite (avg_cost p) = true -> nonneg (avg_cost p) = true.
Proof.
  unfold avg_cost. destruct (_ && _)%bool eqn:Hb; [|done]. bool_to_prop. intros Hf.
  assert (Hpos : forall x, fltb fzero x = true -> nonneg x = true) by (by intros [[]|[]| |[]]).
  apply fdiv_nonneg; auto.
Qed.

Lemma book_cost_nonneg e bk :
  is_finite (book_cost_of_slice e bk) = true ->
  fmax (book_cost_of_slice e bk) fzero = book_cost_of_slice e bk.
Proof.
  intros Hf. assert (Hn : nonneg (book_cost_of_slice e bk) = true).
  { revert Hf. unfold book_cost_of_slice. destruct (_ || _)%bool; [done|].
    destruct (bk_positions bk !! key_of e) as [p|]; [|done]. unfold cost_of. intros Hf.
    pose proof (fmul_finite_inv _ _ Hf) as [Ha _].
    apply fmul_nonneg; [done|by apply avg_cost_nonneg|apply fmax_zero_nonneg]. }
  by destruct (book_cost_of_slice e bk) as [[]|[]| |[]].
Qed.

Lemma book_cost_exact e bk :
  moves_inventory e.(ev_kind) = true -> e.(ev_side) = Some Sell ->
  fltb fzero e.(ev_quantity) = true ->
  (event_slice e (current_position e bk)).(sl_cost) = book_cost_of_slice e bk.
Proof.
  intros Hm Hs Hq. unfold book_cost_of_slice, event_slice. rewrite Hm, Hs, bool_decide_true by done.
  unfold current_position; cbn. destruct (bk_positions bk !! key_of e) as [p|]; [done|].
  cbn. by destruct (ev_quantity e) as [[]|[]| |[]].
Qed.

Section Correct.
Context {libs : LedgerLibs}.

(** The lines of a trade, from the figures the book reports. *)
Definition trade_lines (e : AccountingEvent) (fx : BookEffect) (cost_added : f64) : list Line :=
  let cash a s v := mkLine a e.(ev_wallet) s v fzero None in
  let contra := if decide (e.(ev_kind) = Correction) then Adjustments else Cash in
  match default Buy e.(ev_side) with
  | Buy =>
      [mkLine Inventory e.(ev_wallet) Debit cost_added e.(ev_quantity) (Some e.(ev_asset));
       cash Fees Debit e.(ev_fee); cash contra Credit e.(ev_quote_amount)]
  | Sell =>
      [cash contra Debit e.(ev_quote_amount); cash Fees Debit e.(ev_fee);
       mkLine Inventory e.(ev_wallet) Credit fx.(fx_cost_of_slice) e.(ev_quantity) (Some e.(ev_asset));
       cash RealizedPnl Credit fx.(fx_realized_delta)]
  end.

(** the postings and the position book never disagree.  Whenever an event
    that moves inventory passes the ledger's checks, the entry that is stored
    credits inventory with exactly the cost of the slice the book removes and
    books exactly the realized result the book books; a buy debits inventory
    with exactly what it adds to the cost basis. *)
Theorem entry_matches_book (e : AccountingEvent) (id : text) (bk : PositionBook)
    (s : RealizedSeries) (entry : Entry)
  (Hc : check_event e id bk s = Ok entry)
  (Hm : moves_inventory e.(ev_kind) = true)
  (Hq : fltb fzero e.(ev_quantity) = true) :
  let fx := (book_apply e id bk).1 in
  let bk' := (book_apply e id bk).2 in
  exists cost_added p',
    entry = fold_left (push (event_id e) e.(ev_quote_asset)) (trade_lines e fx cost_added) [] /\
    bk'.(bk_positions) !! key_of e = Some p' /\
    p'.(b_fees) = fadd (current_position e bk).(b_fees) e.(ev_fee) /\
    match default Buy e.(ev_side) with
    | Buy => p'.(b_cost_basis) = fadd (current_position e bk).(b_cost_basis) cost_added
    | Sell => p'.(b_realized) = fadd (current_position e bk).(b_realized) fx.(fx_realized_delta)
    end.
Proof.
  cbn zeta. pose proof Hc as (He & _ & [u Hv])%check_event_Ok.
  apply expand_valid in He as (_ & _ & -> & _).
  exists (fmax (fsub e.(ev_quote_amount) e.(ev_fee)) fzero), (updated_position e id (current_position e bk)).
  unfold book_apply. rewrite Hm. cbn [negb fst snd].
  split; [|split; [cbn [bk_positions]; by rewrite lookup_insert_eq|split; [done|]]].
  - f_equal. unfold expansion, trade_lines.
    destruct (ev_side e) as [[]|] eqn:Hs; cbn [default]; [by destruct (ev_kind e)| |by destruct (ev_kind e)].
    assert (Hfin : is_finite (book_cost_of_slice e bk) = true).
    { unfold validate_series_update in Hv. rewrite Hm, Hs, bool_decide_true in Hv by done.
      apply outcome_bind_Ok in Hv as (? & Hg & _). apply reject_if_Ok in Hg. bool_to_prop.
      by apply (fsub_finite_r (gross_quote e)). }
    rewrite (book_cost_nonneg _ _ Hfin). cbn [inventory_effect fx_cost_of_slice fx_realized_delta].
    rewrite (book_cost_exact _ _ Hm Hs Hq).
    assert ((event_slice e (current_position e bk)).(sl_realized_delta)
      = fsub (fadd (ev_quote_amount e) (ev_fee e)) (book_cost_of_slice e bk)) as ->.
    { rewrite <- (book_cost_exact _ _ Hm Hs Hq). unfold event_slice. by rewrite Hs. }
    by destruct (ev_kind e).
  - unfold updated_position, inventory_effect, event_slice. cbn.
    by destruct (ev_side e) as [[]|].
Qed.

Section Store.
Context {St : Type} `{LedgerStore St} `{!LedgerStoreLaws St}.

Lemma step_events_mono alone (x y : Inner * St) :
  ledger_step alone x y -> forall st, st ∈ x.1.(in_events) -> st ∈ y.1.(in_events).
Proof.
  intros Hs st Hst.
  destruct Hs as [replica now e i s _|i s|i s|ps i s|i s s' _ _|i s s' ? _ _ _ _]; cbn [fst snd] in *;
    try done.
  - destruct (submit_cases replica now e i s) as [[-> _]|(entry & _ & Hsub)]; [done|].
    assert (Hev : in_events (retried i s).1 = in_events i) by (unfold retried; by case_decide).
    destruct Hsub; cbn; rewrite Hev; set_solver.
  - unfold refresh_from_store. destruct (negb _); [done|].
    destruct (load_events s) as [rows|]; [|done]. by apply hydrate_keeps.
  - unfold recover. destruct (load_events s) as [rows|]; [|done]. cbn. by apply hydrate_keeps.
Qed.

Lemma steps_events_mono alone (x y : Inner * St) :
  rtc (ledger_step alone) x y -> forall st, st ∈ x.1.(in_events) -> st ∈ y.1.(in_events).
Proof. induction 1; [done|]. intros. eauto using step_events_mono. Qed.

Lemma submit_new_fresh replica now e (i : Inner) (s : St) fx :
  (submit replica now e i s).1 = New fx ->
  (event_id e ∉ i.(in_ids)) /\
  exists stored, stored.(se_event_id) = event_id e /\
    stored ∈ (submit replica now e i s).2.1.(in_events).
Proof.
  intros Hnew. destruct (submit_cases replica now e i s) as [[_ [[Hd _]|[r Hr]]]|(entry & Ha & Hs)];
    [congruence..|].
  split; [apply (ac_fresh _ _ _ Ha)|]. exists (stamp replica now e i). split; [done|].
  destruct Hs; [congruence|cbn; set_solver..].
Qed.

(** C29: every fact is booked exactly once, and the books are nothing but the
    booked events.  Over any sequence of submissions, flushes, refreshes,
    recoveries, journal outages and writes of other replicas: no event id is
    booked twice and the duplicate index holds exactly the booked ids; the
    position book, the realized series, the stored entries and the canonical
    payloads are those an empty ledger reaches by booking the events in their
    order; every entry balances and its lines carry its event and amounts that
    are finite and not below zero.  Once a submission has booked a fact, no later
    submission with the same identity books it again. *)
Theorem ledger_books_once (x : Inner * St) (Hx : ledger_reachable false x) :
  let i := x.1 in
  NoDup (journaled_ids i.(in_events)) /\
  (forall id, id ∈ i.(in_ids) <-> id ∈ journaled_ids i.(in_events)) /\
  (i.(in_book), i.(in_series), i.(in_entries), i.(in_canonical))
    = books_of (map se_event i.(in_events)) /\
  (forall st, st ∈ i.(in_events) ->
     st.(se_event_id) = event_id st.(se_event) /\
     i.(in_canonical) !! st.(se_event_id) = Some st.(se_event) /\
     exists entry, i.(in_entries) !! st.(se_event_id) = Some entry /\
       is_balanced entry = true /\ existsb posting_bad entry = false /\
       well_labelled st.(se_event_id) st.(se_event).(ev_quote_asset) entry) /\
  (forall replica now e fx y replica' now' e' fx',
     (submit replica now e i x.2).1 = New fx ->
     rtc (ledger_step false) (submit replica now e i x.2).2 y ->
     event_id e' = event_id e -> (submit replica' now' e' y.1 y.2).1 <> New fx').
Proof.
  pose proof (mem_inv_sound _ (reachable_mem_inv _ _ Hx)) as Hs. cbn zeta.
  split; [apply Hs|]. split; [apply Hs|].
  split; [symmetry; exact (mem_inv_books _ (reachable_mem_inv _ _ Hx))|]. split.
  - intros st Hst. destruct (sm_indexed _ _ Hs st Hst) as [? _ ? (entry & ? & [? ? ?])]. eauto 10.
  - intros replica now e fx y replica' now' e' fx' Hnew Hsteps Hid Hnew'.
    apply submit_new_fresh in Hnew as (_ & st & Hst & Hin).
    apply submit_new_fresh in Hnew' as [Hfresh _]. apply Hfresh. rewrite Hid, <- Hst.
    assert (Hy : ledger_reachable false y).
    { destruct Hx as (s0 & ? & ? & Hr). exists s0. repeat split; [done..|].
      etrans; [exact Hr|]. eapply rtc_l; [|exact Hsteps]. destruct x. by apply st_submit. }
    pose proof (mem_inv_sound _ (reachable_mem_inv _ _ Hy)) as Hsy.
    apply (sm_ids _ _ Hsy), list_elem_of_fmap. exists st. split; [done|].
    by eapply steps_events_mono.
Qed.

(** C30: nothing the ledger has booked is lost.  At every moment each booked
    event is in the durable journal or parked as pending, only booked events
    are parked, and the journal holds no fact twice, whatever fails and whatever
    other replicas write.  A flush leaves nothing parked, unless the journal did
    not take one of the parked events. *)
Theorem ledger_loses_nothing (x : Inner * St) (Hx : ledger_reachable false x) :
  (forall st, st ∈ x.1.(in_events) ->
     st.(se_event_id) ∈ journaled_ids (journal x.2) \/ st.(se_event_id) ∈ x.1.(in_pending)) /\
  (forall id, id ∈ x.1.(in_pending) -> id ∈ journaled_ids x.1.(in_events)) /\
  NoDup (journaled_ids (journal x.2)) /\
  (let y := (flush_pending x.1 x.2).2 in
   y.1.(in_pending) = [] \/
   exists stored entry s0, stored ∈ x.1.(in_events) /\ stored.(se_event_id) ∈ x.1.(in_pending) /\
     record_event stored entry s0 = (None, y.2)).
Proof.
  pose proof (reachable_covered _ _ Hx) as Hc. split_and!; [apply Hc..|].
  apply flush_empties; [by eapply reachable_mem_inv|]. by destruct x.
Qed.


(** no arithmetic the ledger accepts can poison it: at every moment every
    amount of every position, every cash and fee balance, and every realized
    total and peak is a finite number. *)
Theorem ledger_stays_finite (x : Inner * St) (Hx : ledger_reachable false x) :
  book_finite x.1.(in_book) = true /\ series_finite x.1.(in_series).
Proof.
  pose proof (mem_inv_sound _ (reachable_mem_inv _ _ Hx)) as Hs.
  split; [apply (sm_book_finite _ _ Hs)|apply (sm_series_finite _ _ Hs)].
Qed.

(** a submission changes the books if and only if it answers [New]: a
    rejected or duplicate event leaves book, events, entries, index and series as
    they were, and [New] adds exactly the submitted event with the effect and the
    entry its replay has. *)
Theorem submit_exact (replica : text) (now : Z) (e : AccountingEvent) (i : Inner) (s : St) :
  let out := submit replica now e i s in
  match out.1 with
  | New fx =>
      exists stored entry,
        stored.(se_event) = e /\ stored.(se_event_id) = event_id e /\
        (event_id e ∉ i.(in_ids)) /\ validate e = Ok tt /\
        check_event e (event_id e) i.(in_book) i.(in_series) = Ok entry /\
        fx = (book_apply e (event_id e) i.(in_book)).1 /\
        memory_of out.2.1 = memory_of (book_event stored entry i).2
  | _ => memory_of out.2.1 = memory_of i
  end.
Proof.
  cbn. destruct (submit_cases replica now e i s) as [[-> Hd]|(entry & Ha & Hs)].
  { by destruct Hd as [[-> _]|[r ->]]. }
  pose proof (retried_memory i s) as Hm.
  destruct (submit replica now e i s) as [out [i' s']]. cbn [fst snd] in *.
  destruct Hs as [| |]; [done|..].
  all: exists (stamp replica now e i), entry; destruct Ha as [Hf _ Hv Hc]; cbn in Hv, Hc.
  all: split; [done|]; split; [done|]; split; [exact Hf|].
  all: split; [by destruct (validate e) as [[]| |]|]; split; [exact Hc|].
  all: assert (in_book (retried i s).1 = in_book i) as Hb by (by injection Hm).
  all: split; [cbn; by rewrite Hb|].
  all: change (memory_of (book_event (stamp replica now e i) entry (retried i s).1).2
         = memory_of (book_event (stamp replica now e i) entry i).2).
  all: transitivity (memory_of (book_event (stamp replica now e i) entry (memory_of (retried i s).1)).2);
    [done|by rewrite Hm].
Qed.
End Store.
End Correct.

(** * A concrete run

    A digest that reads the reference back to front, one calendar day, the last
    instant of the year 262142. *)

#[local] Instance demo_libs : LedgerLibs := {|
  sha256_hex := fun s => reverse s;
  format_day := fun _ => lit "2024-05-01";
  datetime_max := 8210266876799999999999;
|}.

Inductive demo_op : Type :=
  | DoSubmit (now : Z) (e : AccountingEvent)
  | DoFlush
  | DoAvailable (on : bool).

Definition demo_apply (x : Inner * MemoryLedgerStore) (o : demo_op) : Inner * MemoryLedgerStore :=
  match o with
  | DoSubmit now e => (submit (lit "r1") now e x.1 x.2).2
  | DoFlush => (flush_pending x.1 x.2).2
  | DoAvailable on => (x.1, set_unavailable (negb on) x.2)
  end.

Definition demo_time_ok (x : Inner * MemoryLedgerStore) (o : demo_op) : bool :=
  match x.1.(in_last_recorded_at) with
  | Some t => t + 1000 <=? datetime_max
  | None => true
  end.

Fixpoint demo_run (x : Inner * MemoryLedgerStore) (os : list demo_op) : Inner * MemoryLedgerStore :=
  match os with
  | [] => x
  | o :: os' => demo_run (demo_apply x o) os'
  end.

Fixpoint demo_times_ok (x : Inner * MemoryLedgerStore) (os : list demo_op) : bool :=
  match os with
  | [] => true
  | o :: os' => demo_time_ok x o && demo_times_ok (demo_apply x o) os'
  end.

Lemma demo_step alone x o :
  demo_time_ok x o = true -> store_ok x.2 ->
  ledger_step alone x (demo_apply x o) /\ store_ok (demo_apply x o).2.
Proof.
  intros Ht Hok. destruct x as [i s]. cbn [fst snd] in *.
  assert (Hstep : ledger_step alone (i, s) (demo_apply (i, s) o)).
  { destruct o as [now e| |on]; [|apply st_flush|by apply st_outage].
    apply st_submit. intros _ t Hl. unfold demo_time_ok in Ht. cbn [fst] in Ht, Hl.
    rewrite Hl in Ht. by apply Z.leb_le. }
  split; [done|].
  destruct o as [now e| |on]; cbn [demo_apply fst snd]; [| |done].
  - destruct (submit_cases (lit "r1") now e i s) as [[-> _]|(entry & _ & Hs)]; [done|].
    apply submitted_journal in Hs as [Hs _]; [done|].
    unfold retried. case_decide; [done|]. by apply flush_rows_prefix.
  - by apply flush_rows_prefix.
Qed.

Lemma demo_reachable alone os x :
  ledger_reachable alone x -> store_ok x.2 -> demo_times_ok x os = true ->
  ledger_reachable alone (demo_run x os).
Proof.
  revert x. induction os as [|o os IH]; intros x Hx Hok Ht; [done|].
  apply andb_true_iff in Ht as [Ho Ht].
  destruct (demo_step alone x o Ho Hok) as [Hstep Hok']. apply IH; [|done..].
  destruct Hx as (s0 & ? & ? & Hr). exists s0. split; [done|split; [done|]].
  eapply rtc_r; [exact Hr|exact Hstep].
Qed.

Definition demo_event (k : EventKind) (side : option EventSide) (qty quote fee : f64)
    (reference : text) : AccountingEvent :=
  {| ev_kind := k; ev_module := Sniper; ev_venue := PumpFun; ev_wallet := lit "w";
     ev_strategy := lit "sniper"; ev_asset := lit "MINT"; ev_quote_asset := lit "SOL";
     ev_side := side; ev_quantity := qty; ev_price := None; ev_quote_amount := quote;
     ev_fee := fee; ev_mode := Paper; ev_reference_id := reference;
     ev_correlation_id := Some (lit "order-1"); ev_position_id := Some (lit "p-1");
     ev_trade_id := None; ev_counterparty_wallet := None; ev_ts := 1714521600000000000;
     ev_detail := [] |}.

Definition demo_buy : AccountingEvent :=
  demo_event Fill (Some Buy) (f_of_Z 100) (f_lit 11 10) (f_lit 1 10) (lit "sig-1").
Definition demo_sell : AccountingEvent :=
  demo_event Fill (Some Sell) (f_of_Z 40) (f_lit 8 10) fzero (lit "sig-2").
Definition demo_fee : AccountingEvent :=
  demo_event Fee None fzero fzero (f_lit 1 100) (lit "fee-1").

(** A buy, a sale parked while the journal is down, a repeat of it, and a fee
    that flushes the sale before it is written. *)
Definition demo_ops : list demo_op :=
  [DoSubmit 10 demo_buy; DoAvailable false; DoSubmit 20 demo_sell; DoSubmit 30 demo_sell;
   DoAvailable true; DoSubmit 40 demo_fee].

Definition demo_state : Inner * MemoryLedgerStore :=
  demo_run (Inner_new, MemoryLedgerStore_new) demo_ops.

Lemma demo_state_reachable alone : ledger_reachable alone demo_state.
Proof.
  assert (Hok : store_ok MemoryLedgerStore_new) by (intros id; cbn; split; [by intros []|set_solver]).
  apply demo_reachable; [|exact Hok|vm_compute; reflexivity].
  exists MemoryLedgerStore_new. split; [exact Hok|split; [done|constructor]].
Qed.

Lemma demo_state_booked : map (fun st => st.(se_event)) demo_state.1.(in_events) = [demo_buy; demo_sell; demo_fee].
Proof. vm_compute. reflexivity. Qed.

Lemma ledger_books_once_witness :
  ledger_reachable false demo_state /\ NoDup (journaled_ids demo_state.1.(in_events)).
Proof.
  split; [apply demo_state_reachable|].
  exact (proj1 (ledger_books_once demo_state (demo_state_reachable false))).
Defined.

Lemma ledger_loses_nothing_witness :
  ledger_reachable false demo_state /\ NoDup (journaled_ids (journal demo_state.2)).
Proof.
  split; [apply demo_state_reachable|].
  exact (proj1 (proj2 (proj2 (ledger_loses_nothing demo_state (demo_state_reachable false))))).
Defined.

(** After the outage nothing is pending and the journal answers. *)
Lemma demo_state_settled :
  demo_state.1.(in_pending) = [] /\ load_events demo_state.2 = Some (ms_events demo_state.2).
Proof. split; vm_compute; reflexivity. Qed.


Lemma ledger_stays_finite_witness :
  ledger_reachable false demo_state /\ book_finite demo_state.1.(in_book) = true.
Proof.
  split; [apply demo_state_reachable|].
  exact (proj1 (ledger_stays_finite demo_state (demo_state_reachable false))).
Defined.

(** The sale against the book after the buy. *)
Definition demo_book : PositionBook := (book_apply demo_buy (lit "led_1") PositionBook_new).2.

Definition demo_entry : Entry :=
  match check_event demo_sell (lit "led_2") demo_book RealizedSeries_default with
  | Ok entry => entry
  | _ => []
  end.

Lemma demo_entry_checked :
  check_event demo_sell (lit "led_2") demo_book RealizedSeries_default = Ok demo_entry.
Proof. vm_compute. reflexivity. Qed.

Lemma entry_matches_book_witness :
  length demo_entry = 3%nat /\
  let fx := (book_apply demo_sell (lit "led_2") demo_book).1 in
  let bk' := (book_apply demo_sell (lit "led_2") demo_book).2 in
  exists cost_added p',
    demo_entry = fold_left (push (event_id demo_sell) demo_sell.(ev_quote_asset))
                   (trade_lines demo_sell fx cost_added) [] /\
    bk'.(bk_positions) !! key_of demo_sell = Some p' /\
    p'.(b_fees) = fadd (current_position demo_sell demo_book).(b_fees) demo_sell.(ev_fee) /\
    p'.(b_realized) = fadd (current_position demo_sell demo_book).(b_realized) fx.(fx_realized_delta).
Proof.
  split; [vm_compute; reflexivity|].
  exact (entry_matches_book demo_sell (lit "led_2") demo_book RealizedSeries_default demo_entry
    demo_entry_checked eq_refl eq_refl).
Defined.

(** * Where the records part ways *)

(** A deposit that names only a fee is accepted: it posts nothing and moves no
    cash, and the realized series still loses the fee. *)
Theorem deposit_fee_unposted :
  let e := demo_event Deposit None fzero fzero fone (lit "dep-1") in
  let fx := (book_apply e (lit "led_1") PositionBook_new).1 in
  let bk := (book_apply e (lit "led_1") PositionBook_new).2 in
  check_event e (lit "led_1") PositionBook_new RealizedSeries_default = Ok [] /\
  bk.(bk_cash) !! cash_key e = Some fzero /\
  (fold_series e fx RealizedSeries_default).(rs_total) !! ev_quote_asset e = Some (fneg fone).
Proof. vm_compute. repeat split. Qed.

(** A sale of more than is held: the book removes what is held, the posting
    credits inventory with everything the event names. *)
Theorem oversell_posts_more_than_sold :
  let e := demo_event Fill (Some Sell) (f_of_Z 250) fone fzero (lit "sig-9") in
  let bk := (book_apply e (lit "led_9") demo_book).2 in
  (match check_event e (lit "led_9") demo_book RealizedSeries_default with
   | Ok entry => map po_quantity (filter (fun p => p.(po_account) = Inventory) entry)
   | _ => []
   end) = [f_of_Z 250] /\
  b_sold_qty <$> (bk.(bk_positions) !! key_of e) = Some (f_of_Z 100).
Proof. vm_compute. repeat split. Qed.

(** The same fills through the book and through [reconstruct_pnl], which the
    book's comment names as its convention: on a sale of more than is held the
    book realizes all the proceeds, the reconstruction only the share of the
    quantity that was held. *)
Theorem oversell_realized_differs :
  let buy := demo_event Fill (Some Buy) (f_of_Z 10) fone fzero (lit "a") in
  let sell := demo_event Fill (Some Sell) (f_of_Z 25) (f_lit 5 2) fzero (lit "b") in
  let bk1 := (book_apply buy (lit "a") PositionBook_new).2 in
  let bk2 := (book_apply sell (lit "b") bk1).2 in
  let fills := [{| fr_side := lit "buy"; fr_qty := f_of_Z 10; fr_quote := fone |};
                {| fr_side := lit "sell"; fr_qty := f_of_Z 25; fr_quote := f_lit 5 2 |}] in
  b_realized <$> (bk2.(bk_positions) !! key_of buy) = Some (f_lit 3 2) /\
  pnl_realized (reconstruct_pnl fills) = fzero.
Proof. vm_compute. repeat split. Qed.
