(* ===== verification/ExecLedger.v ===== *)
(** The execution lifecycle ([crates/core/src/execution/mod.rs]): the state
    machine of one transaction attempt, the classification of failures, the
    deterministic intent id, and the process-wide ledger that refuses a second
    attempt while the first may still land.  A sink only listens: what the
    ledger announces is kept as a list, oldest first.  [entered_at] feeds a
    histogram and nothing else, and is left out. *)
From stdpp Require Import prelude countable gmap list strings sorting.
From Stdlib Require Import ZArith Lia.
From S2P Require Import Prelude.
From S2P Require Import BotCore.
From S2P Require Import Text.
From S2P Require Import LedgerEvent.
From S2P Require Import Oms.

#[local] Open Scope Z_scope.

(** * The state machine *)

(** The prefix keeps the states apart from those of an order. *)
Inductive ExecutionState : Type :=
  | ExCreated | ExValidated | ExSubmitted | ExPending | ExConfirmed | ExFailed | ExExpired
  | ExReconciled.

#[export] Instance ExecutionState_eq_dec : EqDecision ExecutionState.
Proof. solve_decision. Defined.

Definition ExecutionState_ALL : list ExecutionState :=
  [ExCreated; ExValidated; ExSubmitted; ExPending; ExConfirmed; ExFailed; ExExpired; ExReconciled].

Definition ExecutionState_as_str (s : ExecutionState) : text :=
  match s with
  | ExCreated => lit "created"
  | ExValidated => lit "validated"
  | ExSubmitted => lit "submitted"
  | ExPending => lit "pending"
  | ExConfirmed => lit "confirmed"
  | ExFailed => lit "failed"
  | ExExpired => lit "expired"
  | ExReconciled => lit "reconciled"
  end.

Definition ExecutionState_parse (s : text) : option ExecutionState :=
  snd <$> list_find (fun st => ExecutionState_as_str st = trim s) ExecutionState_ALL.

Definition exec_is_terminal (s : ExecutionState) : bool := bool_decide (s = ExReconciled).

Definition is_settled (s : ExecutionState) : bool :=
  match s with ExConfirmed | ExFailed | ExExpired | ExReconciled => true | _ => false end.

Definition exec_is_ambiguous (s : ExecutionState) : bool :=
  match s with ExSubmitted | ExPending => true | _ => false end.

Definition is_live (s : ExecutionState) : bool :=
  match s with ExCreated | ExValidated | ExSubmitted | ExPending => true | _ => false end.

Definition exec_can_transition_to (s next : ExecutionState) : bool :=
  match s, next with
  | ExCreated, (ExValidated | ExFailed | ExExpired)
  | ExValidated, (ExSubmitted | ExConfirmed | ExFailed | ExExpired)
  | ExSubmitted, (ExPending | ExConfirmed | ExFailed | ExExpired | ExReconciled)
  | ExPending, (ExConfirmed | ExFailed | ExExpired | ExReconciled)
  | (ExConfirmed | ExFailed | ExExpired), ExReconciled => true
  | _, _ => false
  end.

(** The order status an execution state projects to. *)
Definition to_order_status (s : ExecutionState) : OrderStatus :=
  match s with
  | ExCreated => Created
  | ExValidated => Validated
  | ExSubmitted => Submitted
  | ExPending => Accepted
  | ExConfirmed => Filled
  | ExFailed => Failed
  | ExExpired => Expired
  | ExReconciled => Reconciled
  end.

(** * Failures *)

Inductive FailureClass : Type :=
  | SimulationRejected | BlockhashExpired | FcRejected | InsufficientFunds | RateLimited
  | TransportAmbiguous | ConfirmationTimeout | LandedFailed | PolicyVeto | FcDuplicate
  | FcInternal.

#[export] Instance FailureClass_eq_dec : EqDecision FailureClass.
Proof. solve_decision. Defined.

Definition FailureClass_ALL : list FailureClass :=
  [SimulationRejected; BlockhashExpired; FcRejected; InsufficientFunds; RateLimited;
   TransportAmbiguous; ConfirmationTimeout; LandedFailed; PolicyVeto; FcDuplicate; FcInternal].

Definition FailureClass_as_str (c : FailureClass) : text :=
  match c with
  | SimulationRejected => lit "simulation_rejected"
  | BlockhashExpired => lit "blockhash_expired"
  | FcRejected => lit "rejected"
  | InsufficientFunds => lit "insufficient_funds"
  | RateLimited => lit "rate_limited"
  | TransportAmbiguous => lit "transport_ambiguous"
  | ConfirmationTimeout => lit "confirmation_timeout"
  | LandedFailed => lit "landed_failed"
  | PolicyVeto => lit "policy_veto"
  | FcDuplicate => lit "duplicate"
  | FcInternal => lit "internal"
  end.

Definition FailureClass_parse (s : text) : option FailureClass :=
  snd <$> list_find (fun c => FailureClass_as_str c = trim s) FailureClass_ALL.

Definition class_is_ambiguous (c : FailureClass) : bool :=
  match c with TransportAmbiguous | ConfirmationTimeout => true | _ => false end.

Definition is_retryable_with_rebuild (c : FailureClass) : bool :=
  match c with BlockhashExpired | RateLimited => true | _ => false end.

Definition terminal_state (c : FailureClass) : ExecutionState :=
  match c with
  | BlockhashExpired => ExExpired
  | TransportAmbiguous | ConfirmationTimeout => ExPending
  | _ => ExFailed
  end.

(** [lower.contains(needle)]. *)
Fixpoint contains (needle s : text) : bool :=
  match strip_prefix needle s with
  | Some _ => true
  | None => match s with [] => false | _ :: s' => contains needle s' end
  end.

Definition DEFINITE : list text :=
  [lit "invalid"; lit "sanitize"; lit "rejected"; lit "not available";
   lit "signature verification"; lit "already processed"; lit "account not found";
   lit "program failed"; lit "custom program error"].

(** The rules in the code's order: the first one with a word in the message. *)
Definition classify_rules : list (list text * FailureClass) :=
  [([lit "blockhash"; lit "block height"], BlockhashExpired);
   ([lit "insufficient funds"; lit "insufficient lamports"; lit "insufficientfunds"],
    InsufficientFunds);
   ([lit "too many requests"; lit "toomanyrequests"; lit "rate limit"; lit "429"], RateLimited);
   ([lit "simulation"; lit "preflight"], SimulationRejected);
   (DEFINITE, FcRejected)].

Definition classify_message (err : text) : FailureClass :=
  let lower := map ascii_lower err in
  default TransportAmbiguous
    ((fun r : nat * (list text * FailureClass) => r.2.2) <$>
       list_find (fun r : list text * FailureClass =>
                    existsb (fun w => contains w lower) r.1 = true) classify_rules).

(** * Records *)

Definition INTENT_ID_VERSION : text := lit "v1".

(** [intent_id]: the first 32 digits of the digest of the joined parts. *)
Definition intent_id {libs : LedgerLibs} (parts : list text) : text :=
  lit "int_" ++ take 32 (sha256_hex (INTENT_ID_VERSION ++ concat (map (fun p => bar ++ p) parts))).

Record ExecutionIntent : Type := mkExecutionIntent {
  xi_intent_id : text;
  xi_module : text;
  xi_label : text;
  xi_wallet : text;
  xi_symbol : text;
}.

Record ExecutionRecord : Type := mkExecutionRecord {
  x_intent_id : text;
  x_module : text;
  x_label : text;
  x_wallet : text;
  x_symbol : text;
  x_state : ExecutionState;
  x_attempts : Z;                       (* u32 *)
  x_signature : option text;
  x_blockhash : option text;
  x_last_valid_block_height : option Z; (* u64 *)
  x_priority_fee : Z;                   (* u64 *)
  x_failure : option FailureClass;
  x_error : option text;
  x_created_at : Z;
  x_updated_at : Z;
}.

#[export] Instance ExecutionRecord_eq_dec : EqDecision ExecutionRecord.
Proof. solve_decision. Defined.

(** [ExecutionRecord::new]. *)
Definition ExecutionRecord_new (now : Z) (i : ExecutionIntent) : ExecutionRecord :=
  mkExecutionRecord i.(xi_intent_id) i.(xi_module) i.(xi_label) i.(xi_wallet) i.(xi_symbol)
    ExCreated 1 None None None 0 None None now now.

(** A previous attempt that provably never landed. *)
Definition can_rearm (r : ExecutionRecord) : bool :=
  match r.(x_state) with
  | ExFailed | ExExpired => true
  | ExReconciled => match r.(x_failure) with Some _ => true | None => false end
  | _ => false
  end.

Record ExecutionTransition : Type := mkExecutionTransition {
  xt_intent_id : text;
  xt_from : option ExecutionState;
  xt_to : ExecutionState;
  xt_attempt : Z;
  xt_signature : option text;
  xt_failure : option FailureClass;
  xt_reason : option text;
  xt_ts : Z;
}.

Inductive BeginOutcome : Type :=
  | Fresh (r : ExecutionRecord)
  | Rearmed (r : ExecutionRecord)
  | Duplicate (r : ExecutionRecord).

Definition is_duplicate (o : BeginOutcome) : bool :=
  match o with Duplicate _ => true | _ => false end.

(** * The ledger *)

Definition DEFAULT_LEDGER_CAP : Z := 10000.

Record ExecutionLedger : Type := mkExecutionLedger {
  records : gmap text ExecutionRecord;
  by_signature : gmap text text;
  x_fifo : list text;
  x_cap : Z;
  announced : list (ExecutionRecord * ExecutionTransition);
}.

Definition ExecutionLedger_new (cap : Z) : ExecutionLedger :=
  mkExecutionLedger ∅ ∅ [] (Z.max cap 64) [].

Definition set_records (rs : gmap text ExecutionRecord) (l : ExecutionLedger) : ExecutionLedger :=
  mkExecutionLedger rs l.(by_signature) l.(x_fifo) l.(x_cap) l.(announced).

(** [notify]. *)
Definition notify (r : ExecutionRecord) (t : ExecutionTransition) (l : ExecutionLedger)
    : ExecutionLedger :=
  mkExecutionLedger l.(records) l.(by_signature) l.(x_fifo) l.(x_cap) (l.(announced) ++ [(r, t)]).

(** ** Eviction *)

(** A queued intent that eviction may drop: settled, or unknown. *)
Definition evictable (rs : gmap text ExecutionRecord) (id : text) : bool :=
  match rs !! id with Some r => is_settled r.(x_state) | None => true end.

Definition drop_record (id : text) (l : ExecutionLedger) : ExecutionLedger :=
  match l.(records) !! id with
  | None => l
  | Some r =>
      mkExecutionLedger (delete id l.(records))
        (match r.(x_signature) with
         | Some sig => delete sig l.(by_signature)
         | None => l.(by_signature)
         end) l.(x_fifo) l.(x_cap) l.(announced)
  end.

Definition with_fifo (q : list text) (l : ExecutionLedger) : ExecutionLedger :=
  mkExecutionLedger l.(records) l.(by_signature) q l.(x_cap) l.(announced).

(** [while fifo.len() > cap]: each turn drops the oldest settled intent; when
    every one is live the bound gives way. *)
Fixpoint evict (excess : nat) (l : ExecutionLedger) : ExecutionLedger :=
  match excess with
  | O => l
  | S n =>
      match list_find (fun id => evictable l.(records) id = true) l.(x_fifo) with
      | None => l
      | Some (pos, id) => evict n (drop_record id (with_fifo (delete pos l.(x_fifo)) l))
      end
  end.

Definition evict_if_needed (l : ExecutionLedger) : ExecutionLedger :=
  evict (length l.(x_fifo) - Z.to_nat l.(x_cap)) l.

(** ** Starting an attempt *)

Definition rearmed (now : Z) (r : ExecutionRecord) : ExecutionRecord :=
  mkExecutionRecord r.(x_intent_id) r.(x_module) r.(x_label) r.(x_wallet) r.(x_symbol)
    ExCreated (saturating_add u32_max r.(x_attempts) 1) None None None r.(x_priority_fee)
    None None r.(x_created_at) now.

Definition begin (now : Z) (i : ExecutionIntent) (l : ExecutionLedger)
    : BotResult BeginOutcome * ExecutionLedger :=
  let id := i.(xi_intent_id) in
  if is_empty (trim id) then (Err InvalidArgument, l)
  else
    match l.(records) !! id with
    | Some existing =>
        if can_rearm existing then
          let r := rearmed now existing in
          let t := mkExecutionTransition r.(x_intent_id) (Some existing.(x_state)) ExCreated
                     r.(x_attempts) None None
                     (Some (lit "re-armed after " ++ ExecutionState_as_str existing.(x_state)))
                     now in
          (Ok (Rearmed r), notify r t (evict_if_needed (set_records (<[id := r]> l.(records)) l)))
        else (Ok (Duplicate existing), l)
    | None =>
        let r := ExecutionRecord_new now i in
        let t := mkExecutionTransition id None ExCreated 1 None None None now in
        let l := with_fifo (l.(x_fifo) ++ [id]) (set_records (<[id := r]> l.(records)) l) in
        (Ok (Fresh r), notify r t (evict_if_needed l))
    end.

(** ** Moving an attempt on *)

Definition submitted (now : Z) (signature : text) (blockhash : option text) (height : option Z)
    (fee : Z) (r : ExecutionRecord) : ExecutionRecord :=
  mkExecutionRecord r.(x_intent_id) r.(x_module) r.(x_label) r.(x_wallet) r.(x_symbol)
    r.(x_state) r.(x_attempts) (Some signature) blockhash height fee r.(x_failure) r.(x_error)
    r.(x_created_at) now.

Definition attach_submission (now : Z) (id signature : text) (blockhash : option text)
    (height : option Z) (fee : Z) (l : ExecutionLedger)
    : BotResult ExecutionRecord * ExecutionLedger :=
  match l.(records) !! id with
  | None => (Err NotFound, l)
  | Some r =>
      let r := submitted now signature blockhash height fee r in
      (Ok r,
       mkExecutionLedger (<[id := r]> l.(records))
         (if is_empty signature then l.(by_signature) else <[signature := id]> l.(by_signature))
         l.(x_fifo) l.(x_cap) l.(announced))
  end.

Definition with_fee (fee : Z) (r : ExecutionRecord) : ExecutionRecord :=
  mkExecutionRecord r.(x_intent_id) r.(x_module) r.(x_label) r.(x_wallet) r.(x_symbol)
    r.(x_state) r.(x_attempts) r.(x_signature) r.(x_blockhash) r.(x_last_valid_block_height) fee
    r.(x_failure) r.(x_error) r.(x_created_at) r.(x_updated_at).

Definition set_priority_fee (id : text) (fee : Z) (l : ExecutionLedger) : ExecutionLedger :=
  set_records (alter (with_fee fee) id l.(records)) l.

(** The record after [apply] accepted the move. *)
Definition moved (now : Z) (to : ExecutionState) (failure : option (FailureClass * text))
    (r : ExecutionRecord) : ExecutionRecord :=
  let '(f, e) :=
    match failure with
    | Some (c, err) => (Some c, Some err)
    | None => match to with
              | ExConfirmed | ExReconciled => (None, None)
              | _ => (r.(x_failure), r.(x_error))
              end
    end in
  mkExecutionRecord r.(x_intent_id) r.(x_module) r.(x_label) r.(x_wallet) r.(x_symbol)
    to r.(x_attempts) r.(x_signature) r.(x_blockhash) r.(x_last_valid_block_height)
    r.(x_priority_fee) f e r.(x_created_at) now.

Definition apply (now : Z) (id : text) (to : ExecutionState)
    (failure : option (FailureClass * text)) (reason : option text) (l : ExecutionLedger)
    : BotResult ExecutionRecord * ExecutionLedger :=
  match l.(records) !! id with
  | None => (Err NotFound, l)
  | Some r =>
      if negb (exec_can_transition_to r.(x_state) to) then (Err InvalidArgument, l)
      else
        let r' := moved now to failure r in
        let t := mkExecutionTransition r.(x_intent_id) (Some r.(x_state)) to r.(x_attempts)
                   r.(x_signature) r'.(x_failure) reason now in
        (Ok r', notify r' t (set_records (<[id := r']> l.(records)) l))
  end.

Definition exec_transition (now : Z) (id : text) (to : ExecutionState) (reason : option text)
    (l : ExecutionLedger) : BotResult ExecutionRecord * ExecutionLedger :=
  apply now id to None reason l.

Definition annotated (now : Z) (c : FailureClass) (error : text) (r : ExecutionRecord)
    : ExecutionRecord :=
  mkExecutionRecord r.(x_intent_id) r.(x_module) r.(x_label) r.(x_wallet) r.(x_symbol)
    r.(x_state) r.(x_attempts) r.(x_signature) r.(x_blockhash) r.(x_last_valid_block_height)
    r.(x_priority_fee) (Some c) (Some error) r.(x_created_at) now.

Definition fail (now : Z) (id : text) (c : FailureClass) (error : text) (l : ExecutionLedger)
    : BotResult ExecutionRecord * ExecutionLedger :=
  let target := terminal_state c in
  match l.(records) !! id with
  | Some r =>
      if decide (r.(x_state) = target) then
        let r' := annotated now c error r in
        (Ok r', set_records (<[id := r']> l.(records)) l)
      else apply now id target (Some (c, error)) (Some error) l
  | None => apply now id target (Some (c, error)) (Some error) l
  end.

(** The verdict of the chain on a signature. *)
Definition reconcile_signature (now : Z) (signature : text) (landed : bool) (detail : text)
    (l : ExecutionLedger) : option ExecutionRecord * ExecutionLedger :=
  match id ← l.(by_signature) !! signature; (fun r => (id, r)) <$> l.(records) !! id with
  | None => (None, l)
  | Some (id, current) =>
      if exec_is_terminal current.(x_state) then (Some current, l)
      else
        let failure := if landed then None else Some (LandedFailed, detail) in
        match apply now id ExReconciled failure (Some detail) l with
        | (Ok r, l') => (Some r, l')
        | (_, l') => (None, l')
        end
  end.

(** ** Reading and restarting *)

Definition get_by_signature (signature : text) (l : ExecutionLedger) : option ExecutionRecord :=
  id ← l.(by_signature) !! signature; l.(records) !! id.

Definition open `{HashOrder} (l : ExecutionLedger) : list ExecutionRecord :=
  filter (fun r => is_settled r.(x_state) = false) (map snd (hash_iter l.(records))).

(** [list]: the most recently updated first. *)
Definition newest_first (a b : ExecutionRecord) : Prop := b.(x_updated_at) <= a.(x_updated_at).

#[export] Instance newest_first_dec : RelDecision newest_first.
Proof. intros a b. unfold newest_first. apply _. Defined.

Definition list_recent `{HashOrder} (limit : nat) (l : ExecutionLedger) : list ExecutionRecord :=
  take limit (merge_sort newest_first (map snd (hash_iter l.(records)))).

Definition hydrate_row (acc : nat * ExecutionLedger) (r : ExecutionRecord) : nat * ExecutionLedger :=
  let l := acc.2 in
  match l.(records) !! r.(x_intent_id) with
  | Some _ => acc
  | None =>
      (S acc.1,
       mkExecutionLedger (<[r.(x_intent_id) := r]> l.(records))
         (match r.(x_signature) with
          | Some sig => <[sig := r.(x_intent_id)]> l.(by_signature)
          | None => l.(by_signature)
          end) (l.(x_fifo) ++ [r.(x_intent_id)]) l.(x_cap) l.(announced))
  end.

Definition hydrate (rows : list ExecutionRecord) (l : ExecutionLedger) : nat * ExecutionLedger :=
  let acc := fold_left hydrate_row rows (O, l) in (acc.1, evict_if_needed acc.2).

(** The em dash of the messages. *)
Definition em_dash : text := [8212].

(** What a restart does to one attempt that was still open. *)
Definition resolve_record (now : Z) (acc : list ExecutionRecord * ExecutionLedger)
    (r : ExecutionRecord) : list ExecutionRecord * ExecutionLedger :=
  match r.(x_state) with
  | ExCreated | ExValidated =>
      (acc.1, (fail now r.(x_intent_id) FcInternal
                 (lit "process restart before submission " ++ em_dash ++ lit " nothing was broadcast") acc.2).2)
  | ExSubmitted =>
      (acc.1 ++ [r], (fail now r.(x_intent_id) TransportAmbiguous
                        (lit "process restart during submission " ++ em_dash ++ lit " outcome unknown") acc.2).2)
  | ExPending => (acc.1 ++ [r], acc.2)
  | _ => acc
  end.

Definition resolve_after_restart `{HashOrder} (now : Z) (l : ExecutionLedger)
    : list ExecutionRecord * ExecutionLedger :=
  fold_left (resolve_record now) (open l) ([], l).
