(* ===== verification/ExecLedgerCorrect.v ===== *)
(** What the execution ledger guarantees: what it forgets, that an attempt in
    flight or landed blocks a second one, that a restart keeps the attempts
    whose outcome is unknown, that the announced transitions are the history
    of the records, and the one verdict that undoes the duplicate guard. *)
From stdpp Require Import prelude countable gmap list strings sorting.
From Stdlib Require Import ZArith Lia.
From S2P Require Import Prelude.
From S2P Require Import BotCore.
From S2P Require Import Text.
From S2P Require Import LedgerEvent.
From S2P Require Import Oms.
From S2P Require Import ExecLedger.

#[local] Open Scope Z_scope.

(** * Well-formed ledgers *)

Record ledger_inv (l : ExecutionLedger) : Prop := mkLedgerInv {
  li_key : forall id r, l.(records) !! id = Some r -> r.(x_intent_id) = id;
  li_nodup : NoDup l.(x_fifo);
  li_fifo : forall id, id ∈ l.(x_fifo) <-> is_Some (l.(records) !! id);
  li_attempts : forall id r, l.(records) !! id = Some r -> 1 <= r.(x_attempts) <= u32_max;
}.

Lemma exec_ledger_inv_new cap : ledger_inv (ExecutionLedger_new cap).
Proof.
  split; cbn; try (intros id r; by rewrite lookup_empty); [constructor|].
  intros id. rewrite lookup_empty. split; [by intros ?%elem_of_nil|by intros [? ?]].
Qed.

Lemma live_settled s : is_live s = negb (is_settled s).
Proof. by destruct s. Qed.

(** A change of one record that keeps its identity keeps the invariant. *)
Lemma ledger_inv_update l id r r' ann sigs :
  ledger_inv l -> l.(records) !! id = Some r -> r'.(x_intent_id) = r.(x_intent_id) ->
  1 <= r'.(x_attempts) <= u32_max ->
  ledger_inv (mkExecutionLedger (<[id := r']> l.(records)) sigs l.(x_fifo) l.(x_cap) ann).
Proof.
  intros [Hk Hn Hf Ha] Hr Hid Hat. split; cbn; [| |intros id'|].
  - intros id' x. rewrite lookup_insert. case_decide as He; subst; [|apply Hk].
    intros [= <-]. rewrite Hid. by apply Hk.
  - done.
  - rewrite Hf, lookup_insert. case_decide; subst; [|done]. rewrite Hr. split; by eexists.
  - intros id' x. rewrite lookup_insert. case_decide; [by intros [= <-]|apply Ha].
Qed.

(** ** Eviction *)

(** What [evict] leaves of a ledger. *)
Record trimmed (l l' : ExecutionLedger) : Prop := mkTrimmed {
  tr_records : l'.(records) ⊆ l.(records);
  tr_live : forall id r, l.(records) !! id = Some r -> is_settled r.(x_state) = false ->
              l'.(records) !! id = Some r;
  tr_fifo : sublist l'.(x_fifo) l.(x_fifo);
  tr_sigs : l'.(by_signature) ⊆ l.(by_signature);
  tr_cap : l'.(x_cap) = l.(x_cap);
  tr_announced : l'.(announced) = l.(announced);
}.

Lemma trimmed_refl l : trimmed l l.
Proof. by split. Qed.

Lemma trimmed_trans l1 l2 l3 : trimmed l1 l2 -> trimmed l2 l3 -> trimmed l1 l3.
Proof.
  intros [H1 H2 H3 H4 H5 H6] [G1 G2 G3 G4 G5 G6].
  split; try (by etrans); eauto.
Qed.

Lemma evict_one l pos id :
  ledger_inv l ->
  list_find (fun id => evictable l.(records) id = true) l.(x_fifo) = Some (pos, id) ->
  let l' := drop_record id (with_fifo (delete pos l.(x_fifo)) l) in
  ledger_inv l' /\ trimmed l l' /\ length l'.(x_fifo) = (length l.(x_fifo) - 1)%nat.
Proof.
  intros [Hk Hn Hf Ha] (Hpos & Hev & _)%list_find_Some.
  assert (Hin : id ∈ l.(x_fifo)) by (by eapply list_elem_of_lookup_2).
  destruct (proj1 (Hf id) Hin) as [r Hr].
  unfold evictable in Hev. rewrite Hr in Hev.
  unfold drop_record. cbn. rewrite Hr. cbn.
  assert (Hperm : l.(x_fifo) ≡ₚ id :: delete pos l.(x_fifo)) by (by apply delete_Permutation).
  assert (Hnd : NoDup (id :: delete pos l.(x_fifo))) by (by rewrite <- Hperm).
  assert (Hel : forall id', id' ∈ l.(x_fifo) <-> id' = id \/ id' ∈ delete pos l.(x_fifo)).
  { intros id'. rewrite <- elem_of_cons. generalize dependent (delete pos l.(x_fifo)).
    intros q Hq _. by rewrite Hq. }
  apply NoDup_cons in Hnd as [Hni Hnd].
  split; [|split].
  - split; cbn; [|done| |].
    + intros id' x [_ Hx]%lookup_delete_Some. by apply Hk.
    + intros id'. rewrite lookup_delete. case_decide as He; subst.
      * split; [done|by intros [? ?]].
      * rewrite <- Hf, Hel. split; [by right|by intros [->|?]].
    + intros id' x [_ Hx]%lookup_delete_Some. by eapply Ha.
  - split; cbn; [apply delete_subseteq| |apply sublist_delete| |done|done].
    + intros id' x Hx Hs. rewrite lookup_delete. case_decide; subst; [|done].
      rewrite Hr in Hx. simplify_eq. congruence.
    + destruct (x_signature r); [apply delete_subseteq|done].
  - rewrite length_delete by (by eexists). lia.
Qed.

Lemma evict_spec n l :
  ledger_inv l ->
  ledger_inv (evict n l) /\ trimmed l (evict n l)
  /\ ((length (evict n l).(x_fifo) <= length l.(x_fifo) - n)%nat
      \/ forall id r, (evict n l).(records) !! id = Some r -> is_settled r.(x_state) = false).
Proof.
  revert l. induction n as [|n IH]; intros l Hinv; cbn.
  { split_and!; [done|apply trimmed_refl|]. left. lia. }
  destruct (list_find _ _) as [[pos id]|] eqn:Hfind.
  - destruct (evict_one l pos id Hinv Hfind) as (Hi & Ht & Hlen).
    destruct (IH _ Hi) as (Hi' & Ht' & Hb). split_and!; [done|by eapply trimmed_trans|].
    destruct Hb as [Hb|Hb]; [left; lia|by right].
  - split_and!; [done|apply trimmed_refl|]. right. intros id r Hr.
    assert (Hin : id ∈ l.(x_fifo)) by (apply Hinv; by eexists).
    apply list_find_None in Hfind. rewrite Forall_forall in Hfind.
    specialize (Hfind id Hin). unfold evictable in Hfind. rewrite Hr in Hfind.
    by apply not_true_is_false.
Qed.

Lemma evict_if_needed_spec l :
  ledger_inv l ->
  ledger_inv (evict_if_needed l) /\ trimmed l (evict_if_needed l)
  /\ (Z.of_nat (length (evict_if_needed l).(x_fifo)) <= Z.max l.(x_cap) 0
      \/ forall id r, (evict_if_needed l).(records) !! id = Some r -> is_settled r.(x_state) = false).
Proof.
  intros Hinv. destruct (evict_spec (length l.(x_fifo) - Z.to_nat l.(x_cap)) l Hinv)
    as (H1 & H2 & H3).
  split_and!; [done|done|]. destruct H3 as [H3|H3]; [left|by right].
  unfold evict_if_needed. lia.
Qed.

(** * Operations *)

Inductive exec_op : Type :=
  | OpBegin (i : ExecutionIntent)
  | OpAttach (id signature : text) (blockhash : option text) (height : option Z) (fee : Z)
  | OpFee (id : text) (fee : Z)
  | OpMove (id : text) (to : ExecutionState) (reason : option text)
  | OpFail (id : text) (c : FailureClass) (error : text)
  | OpReconcile (signature : text) (landed : bool) (detail : text)
  | OpHydrate (rows : list ExecutionRecord)
  | OpRestart.

Definition row_ok (r : ExecutionRecord) : Prop := 1 <= r.(x_attempts) <= u32_max.

Definition op_ok (o : exec_op) : Prop :=
  match o with OpHydrate rows => Forall row_ok rows | _ => True end.

Section Runs.
Context `{HashOrder} `{!HashOrderLaws}.

Definition exec_run (now : Z) (o : exec_op) (l : ExecutionLedger) : ExecutionLedger :=
  match o with
  | OpBegin i => (begin now i l).2
  | OpAttach id sig bh h fee => (attach_submission now id sig bh h fee l).2
  | OpFee id fee => set_priority_fee id fee l
  | OpMove id to reason => (exec_transition now id to reason l).2
  | OpFail id c err => (fail now id c err l).2
  | OpReconcile sig landed detail => (reconcile_signature now sig landed detail l).2
  | OpHydrate rows => (hydrate rows l).2
  | OpRestart => (resolve_after_restart now l).2
  end.

(** ** One record *)

Lemma apply_cases now id to failure reason l :
  (is_ok (apply now id to failure reason l).1 = false /\ (apply now id to failure reason l).2 = l)
  \/ exists r, l.(records) !! id = Some r /\ exec_can_transition_to r.(x_state) to = true
     /\ (apply now id to failure reason l).1 = Ok (moved now to failure r)
     /\ (apply now id to failure reason l).2
        = notify (moved now to failure r)
            (mkExecutionTransition r.(x_intent_id) (Some r.(x_state)) to r.(x_attempts)
               r.(x_signature) (moved now to failure r).(x_failure) reason now)
            (set_records (<[id := moved now to failure r]> l.(records)) l).
Proof.
  unfold apply. destruct (records l !! id) as [r|] eqn:Hr; [|by left].
  destruct (exec_can_transition_to (x_state r) to) eqn:Hc; cbn [negb]; [|by left].
  right. by exists r.
Qed.

Lemma moved_id now to failure r : (moved now to failure r).(x_intent_id) = r.(x_intent_id).
Proof. unfold moved. by destruct failure as [[? ?]|], to. Qed.
Lemma moved_attempts now to failure r : (moved now to failure r).(x_attempts) = r.(x_attempts).
Proof. unfold moved. by destruct failure as [[? ?]|], to. Qed.
Lemma moved_state now to failure r : (moved now to failure r).(x_state) = to.
Proof. unfold moved. by destruct failure as [[? ?]|], to. Qed.

Lemma apply_inv now id to failure reason l :
  ledger_inv l -> ledger_inv (apply now id to failure reason l).2.
Proof.
  intros Hinv. destruct (apply_cases now id to failure reason l) as [[_ ->]|(r & Hr & _ & _ & ->)];
    [done|].
  refine (ledger_inv_update l id r _ _ _ Hinv Hr (moved_id _ _ _ _) _).
  rewrite moved_attempts. exact (li_attempts _ Hinv _ _ Hr).
Qed.

(** [apply] speaks about one intent only. *)
Lemma apply_other now id to failure reason l id' :
  id' <> id -> (apply now id to failure reason l).2.(records) !! id' = l.(records) !! id'.
Proof.
  intros Hne. destruct (apply_cases now id to failure reason l) as [[_ ->]|(r & _ & _ & _ & ->)];
    [done|]. cbn. by rewrite lookup_insert_ne by done.
Qed.

Lemma fail_cases now id c error l :
  (exists r, l.(records) !! id = Some r /\ r.(x_state) = terminal_state c
     /\ fail now id c error l
        = (Ok (annotated now c error r), set_records (<[id := annotated now c error r]> l.(records)) l))
  \/ fail now id c error l = apply now id (terminal_state c) (Some (c, error)) (Some error) l.
Proof.
  unfold fail. destruct (records l !! id) as [r|] eqn:Hr; [|by right].
  case_decide as Hs; [left|by right]. by exists r.
Qed.

Lemma fail_inv now id c error l : ledger_inv l -> ledger_inv (fail now id c error l).2.
Proof.
  intros Hinv. destruct (fail_cases now id c error l) as [(r & Hr & _ & Heq)|Heq];
    rewrite Heq; [|by apply apply_inv].
  refine (ledger_inv_update l id r (annotated now c error r) _ _ Hinv Hr eq_refl _).
  exact (li_attempts _ Hinv _ _ Hr).
Qed.

Lemma fail_other now id c error l id' :
  id' <> id -> (fail now id c error l).2.(records) !! id' = l.(records) !! id'.
Proof.
  intros Hne. destruct (fail_cases now id c error l) as [(r & _ & _ & Heq)|Heq];
    rewrite Heq; [|by apply apply_other]. cbn. by rewrite lookup_insert_ne by done.
Qed.

Lemma reconcile_cases now sig landed detail l :
  (reconcile_signature now sig landed detail l).2 = l
  \/ exists id, l.(by_signature) !! sig = Some id
     /\ (reconcile_signature now sig landed detail l).2
        = (apply now id ExReconciled (if landed then None else Some (LandedFailed, detail))
             (Some detail) l).2.
Proof.
  unfold reconcile_signature.
  destruct (by_signature l !! sig) as [id|]; cbn; [|by left].
  destruct (records l !! id) as [r|]; cbn; [|by left].
  destruct (exec_is_terminal (x_state r)); [by left|]. right. exists id. split; [done|].
  by destruct (apply now id ExReconciled _ (Some detail) l) as [[x|e|] l'].
Qed.

(** ** Starting and hydrating *)

Lemma insert_fresh_inv l id r :
  ledger_inv l -> l.(records) !! id = None -> r.(x_intent_id) = id -> row_ok r ->
  forall sigs, ledger_inv (mkExecutionLedger (<[id := r]> l.(records)) sigs (l.(x_fifo) ++ [id])
                             l.(x_cap) l.(announced)).
Proof.
  intros [Hk Hn Hf Ha] Hr Hid Hok sigs. split; cbn.
  - intros id' x. rewrite lookup_insert. case_decide; [by intros [= <-]; subst|apply Hk].
  - apply NoDup_app. split_and!; [done| |apply NoDup_singleton].
    intros x Hx ->%list_elem_of_singleton. apply Hf in Hx as [? ?]. congruence.
  - intros id'. rewrite elem_of_app, list_elem_of_singleton, Hf, lookup_insert.
    case_decide; subst; split; try by eexists.
    + by right.
    + by intros [?|?].
    + by left.
  - intros id' x. rewrite lookup_insert. case_decide; [by intros [= <-]|apply Ha].
Qed.

(** The two ways [begin] starts an attempt. *)
Definition started (now : Z) (i : ExecutionIntent) (l : ExecutionLedger) (r0 : ExecutionRecord)
    (fifo : list text) (o : BeginOutcome) (t : ExecutionTransition) : Prop :=
  (exists r, l.(records) !! i.(xi_intent_id) = Some r /\ can_rearm r = true
     /\ r0 = rearmed now r /\ fifo = l.(x_fifo) /\ o = Rearmed r0
     /\ xt_from t = Some r.(x_state))
  \/ (l.(records) !! i.(xi_intent_id) = None /\ r0 = ExecutionRecord_new now i
      /\ fifo = l.(x_fifo) ++ [i.(xi_intent_id)] /\ o = Fresh r0 /\ xt_from t = None).

Lemma begin_cases now i l :
  (exists o, begin now i l = (o, l) /\ (forall r, o <> Ok (Fresh r) /\ o <> Ok (Rearmed r))
     /\ forall r, l.(records) !! i.(xi_intent_id) = Some r -> can_rearm r = true ->
          is_empty (trim i.(xi_intent_id)) = true)
  \/ exists r0 rs fifo o t,
     o <> Duplicate r0 /\ begin now i l
     = (Ok o, notify r0 t (evict_if_needed (with_fifo fifo (set_records rs l))))
     /\ rs = <[i.(xi_intent_id) := r0]> l.(records)
     /\ started now i l r0 fifo o t
     /\ xt_to t = ExCreated /\ xt_intent_id t = r0.(x_intent_id) /\ xt_attempt t = r0.(x_attempts).
Proof.
  unfold begin. destruct (is_empty (trim (xi_intent_id i))) eqn:He.
  { left. eexists. split; [done|]. split; [done|]. done. }
  destruct (records l !! xi_intent_id i) as [r|] eqn:Hr.
  - destruct (can_rearm r) eqn:Hc.
    + right. eexists (rearmed now r), _, l.(x_fifo), _, _. split_and!; [|done|done| |done|done|done];
        [done|left]. by exists r.
    + left. eexists. split; [done|]. split; [done|]. intros r' [= <-]. congruence.
  - right. do 5 eexists. split_and!; [|reflexivity|done| |done|done|done]; [done|right]. done.
Qed.

Lemma begun_inv now i l r0 q o t :
  ledger_inv l -> started now i l r0 q o t ->
  ledger_inv (with_fifo q (set_records (<[i.(xi_intent_id) := r0]> l.(records)) l)).
Proof.
  intros Hinv [(r & Hr & _ & -> & -> & _)|(Hr & -> & -> & _)].
  - refine (ledger_inv_update l _ r (rearmed now r) _ _ Hinv Hr eq_refl _).
    pose proof (li_attempts _ Hinv _ _ Hr). cbn. unfold saturating_add, u32_max in *. lia.
  - refine (insert_fresh_inv l _ (ExecutionRecord_new now i) Hinv Hr eq_refl _ _).
    unfold row_ok. cbn. mlia.
Qed.

Lemma begin_inv now i l : ledger_inv l -> ledger_inv (begin now i l).2.
Proof.
  intros Hinv. destruct (begin_cases now i l) as [(o & -> & _)|(r0 & rs & q & o & t & _ & -> & -> & Hc & _)];
    [done|].
  pose proof (begun_inv now i l r0 q o t Hinv Hc) as Hi.
  destruct (evict_if_needed_spec _ Hi) as ([Hk Hn Hf Ha] & _ & _). by split.
Qed.

Lemma hydrate_row_spec acc r :
  ledger_inv acc.2 -> row_ok r ->
  ledger_inv (hydrate_row acc r).2 /\ acc.2.(records) ⊆ (hydrate_row acc r).2.(records).
Proof.
  intros Hinv Hok. unfold hydrate_row.
  destruct (records acc.2 !! x_intent_id r) as [r'|] eqn:Hr; [done|]. cbn. split.
  - by apply (insert_fresh_inv acc.2).
  - by apply insert_subseteq.
Qed.

Lemma hydrate_rows_spec rows acc :
  ledger_inv acc.2 -> Forall row_ok rows ->
  ledger_inv (fold_left hydrate_row rows acc).2
  /\ acc.2.(records) ⊆ (fold_left hydrate_row rows acc).2.(records).
Proof.
  revert acc. induction rows as [|r rows IH]; intros acc Hinv Hok; [done|].
  apply Forall_cons in Hok as [Hr Hok].
  destruct (hydrate_row_spec acc r Hinv Hr) as [Hi Hsub].
  destruct (IH _ Hi Hok) as [Hi' Hsub']. cbn. split; [done|by etrans].
Qed.

Lemma hydrate_rows_cap rows acc : (fold_left hydrate_row rows acc).2.(x_cap) = acc.2.(x_cap).
Proof.
  revert acc. induction rows as [|r rows IH]; intros acc; [done|]. cbn. rewrite IH.
  unfold hydrate_row. by destruct (records acc.2 !! x_intent_id r).
Qed.

Lemma hydrate_inv rows l : ledger_inv l -> Forall row_ok rows -> ledger_inv (hydrate rows l).2.
Proof.
  intros Hinv Hok. unfold hydrate. cbn. apply evict_if_needed_spec.
  by apply (hydrate_rows_spec rows (O, l)).
Qed.

Lemma resolve_record_inv now acc r :
  ledger_inv acc.2 -> ledger_inv (resolve_record now acc r).2.
Proof. intros Hinv. unfold resolve_record. destruct (x_state r); cbn; auto using fail_inv. Qed.

Lemma resolve_record_other now acc r id :
  r.(x_intent_id) <> id -> (resolve_record now acc r).2.(records) !! id = acc.2.(records) !! id.
Proof. intros Hne. unfold resolve_record. destruct (x_state r); cbn; auto using fail_other. Qed.

Lemma resolve_inv now l : ledger_inv l -> ledger_inv (resolve_after_restart now l).2.
Proof.
  unfold resolve_after_restart. generalize (open l). intros rs. generalize (@nil ExecutionRecord).
  revert l. induction rs as [|r rs IH]; intros l out Hinv; [done|]. cbn.
  destruct (resolve_record now (out, l) r) as [out' l'] eqn:He.
  apply IH. change l' with (out', l').2. rewrite <- He. by apply resolve_record_inv.
Qed.

Lemma run_inv now o l : ledger_inv l -> op_ok o -> ledger_inv (exec_run now o l).
Proof.
  intros Hinv Hok. destruct o as [i|id sig bh h fee|id fee|id to reason|id c err|sig landed d|rows|];
    cbn.
  - by apply begin_inv.
  - unfold attach_submission. destruct (records l !! id) as [r|] eqn:Hr; [|done].
    refine (ledger_inv_update l id r (submitted now sig bh h fee r) _ _ Hinv Hr eq_refl _).
    exact (li_attempts _ Hinv _ _ Hr).
  - unfold set_priority_fee. rewrite alter_alt. destruct (records l !! id) as [r|] eqn:Hr.
    + refine (ledger_inv_update l id r (with_fee fee r) _ _ Hinv Hr eq_refl _).
      exact (li_attempts _ Hinv _ _ Hr).
    + by destruct l.
  - by apply apply_inv.
  - by apply fail_inv.
  - destruct (reconcile_cases now sig landed d l) as [->|(id & _ & ->)]; [done|by apply apply_inv].
  - by apply hydrate_inv.
  - by apply resolve_inv.
Qed.

(** * The duplicate guard *)

(** What reports that the current attempt of [id] did not land: a definite
    failure, a verdict against a signature filed under [id], or a restart that
    finds the attempt not yet submitted. *)
Definition reports_failure (id : text) (o : exec_op) (l : ExecutionLedger) : Prop :=
  match o with
  | OpMove id' to _ => id' = id /\ (to = ExFailed \/ to = ExExpired)
  | OpFail id' c _ => id' = id /\ class_is_ambiguous c = false
  | OpReconcile sig landed _ => landed = false /\ l.(by_signature) !! sig = Some id
  | OpRestart => exists r, l.(records) !! id = Some r
                   /\ (r.(x_state) = ExCreated \/ r.(x_state) = ExValidated)
  | _ => False
  end.

(** The record of [id] blocks a new attempt, and is still attempt [n]. *)
Definition blocks (n : Z) (r : ExecutionRecord) : Prop := can_rearm r = false /\ r.(x_attempts) = n.

Definition blocked (n : Z) (id : text) (l : ExecutionLedger) : Prop :=
  exists r, l.(records) !! id = Some r /\ blocks n r.

Lemma moved_blocks n now to failure r :
  to <> ExFailed -> to <> ExExpired -> failure = None \/ to <> ExReconciled ->
  blocks n r -> blocks n (moved now to failure r).
Proof.
  intros Hf He Hr [_ Hn]. unfold blocks. rewrite moved_attempts. split; [|done].
  unfold can_rearm. rewrite moved_state. destruct to; try done.
  destruct Hr as [->|?]; [done|done].
Qed.

Lemma apply_blocked n now id0 id to failure reason l :
  (id = id0 -> to <> ExFailed /\ to <> ExExpired /\ (failure = None \/ to <> ExReconciled)) ->
  blocked n id0 l -> blocked n id0 (apply now id to failure reason l).2.
Proof.
  intros Hok (r & Hr & Hb). destruct (decide (id0 = id)) as [->|Hne].
  2:{ exists r. by rewrite apply_other by done. }
  destruct (Hok eq_refl) as (H1 & H2 & H3).
  destruct (apply_cases now id to failure reason l) as [[_ ->]|(r' & Hr' & _ & _ & ->)];
    [by exists r|].
  simplify_eq. exists (moved now to failure r). cbn. rewrite lookup_insert, decide_True by done.
  split; [done|by apply moved_blocks].
Qed.

Lemma fail_blocked n now id0 id c error l :
  (id = id0 -> class_is_ambiguous c = true) ->
  blocked n id0 l -> blocked n id0 (fail now id c error l).2.
Proof.
  intros Hok Hb. destruct (fail_cases now id c error l) as [(r & Hr & Hs & Heq)|Heq]; rewrite Heq.
  - destruct Hb as (r0 & Hr0 & Hc & Hn). unfold blocked. cbn.
    rewrite lookup_insert. case_decide; subst; [|by exists r0]. simplify_eq.
    eexists. split; [done|]. split; [|done]. cbn. specialize (Hok eq_refl).
    unfold can_rearm. cbn. rewrite Hs. by destruct c.
  - apply apply_blocked; [|done]. intros Hid. specialize (Hok Hid).
    destruct c; try done; split_and!; try done; by right.
Qed.

Lemma trimmed_blocked n id l l' :
  trimmed l l' -> blocked n id l -> is_Some (l'.(records) !! id) -> blocked n id l'.
Proof.
  intros Ht (r & Hr & Hb) [r' Hr']. exists r'. split; [done|].
  pose proof (lookup_weaken _ _ _ _ Hr' (tr_records _ _ Ht)). by simplify_eq.
Qed.

Lemma resolve_record_blocked n now id acc r :
  (r.(x_intent_id) = id -> r.(x_state) <> ExCreated /\ r.(x_state) <> ExValidated) ->
  blocked n id acc.2 -> blocked n id (resolve_record now acc r).2.
Proof.
  intros Hok Hb. unfold resolve_record. destruct (x_state r) eqn:Hs; cbn; try done.
  - apply fail_blocked; [|done]. intros Hid. by destruct (Hok Hid).
  - apply fail_blocked; [|done]. intros Hid. by destruct (Hok Hid).
  - by apply fail_blocked.
Qed.

Lemma elem_of_open l r :
  ledger_inv l -> r ∈ open l <-> is_settled r.(x_state) = false /\ l.(records) !! r.(x_intent_id) = Some r.
Proof.
  intros Hinv. unfold open. rewrite list_elem_of_filter, list_elem_of_fmap. split.
  - intros (Hs & [id r'] & -> & Hin). split; [done|]. cbn.
    rewrite hash_iter_perm, elem_of_map_to_list in Hin. by rewrite (li_key _ Hinv _ _ Hin).
  - intros [Hs Hr]. split; [done|]. exists (x_intent_id r, r). split; [done|].
    by rewrite hash_iter_perm, elem_of_map_to_list.
Qed.

Lemma resolve_blocked n now id l :
  ledger_inv l -> blocked n id l ->
  (forall r, l.(records) !! id = Some r -> r.(x_state) <> ExCreated /\ r.(x_state) <> ExValidated) ->
  blocked n id (resolve_after_restart now l).2.
Proof.
  intros Hinv Hb Hok. unfold resolve_after_restart.
  assert (Hall : Forall (fun r => r.(x_intent_id) = id ->
                   r.(x_state) <> ExCreated /\ r.(x_state) <> ExValidated) (open l)).
  { apply Forall_forall. intros r [_ Hr]%elem_of_open Hid; [|done]. apply Hok. by rewrite <- Hid. }
  revert Hall Hb. generalize (@nil ExecutionRecord) as out. generalize (open l) as rs.
  clear Hinv Hok. intros rs. revert l. induction rs as [|r rs IH]; intros l out Hall Hb; [done|].
  apply Forall_cons in Hall as [Hr Hall]. cbn.
  pose proof (resolve_record_blocked n now id (out, l) r Hr Hb) as Hb'.
  destruct (resolve_record now (out, l) r) as [out' l']. by apply IH.
Qed.

(** Nothing but a report of failure lets a blocked intent go. *)
Lemma run_blocked n now id o l :
  ledger_inv l -> op_ok o -> ~ reports_failure id o l ->
  is_Some ((exec_run now o l).(records) !! id) ->
  blocked n id l -> blocked n id (exec_run now o l).
Proof.
  intros Hinv Hok Hno Hin Hb.
  destruct o as [i|id' sig bh h fee|id' fee|id' to reason|id' c err|sig landed d|rows|];
    cbn in *.
  - destruct (begin_cases now i l) as [(o & Heq & _)|(r0 & rs & q & o & t & _ & Heq & -> & Hc & _)];
      rewrite Heq in *; [done|]. cbn in *.
    pose proof (begun_inv now i l r0 q o t Hinv Hc) as Hi.
    destruct (evict_if_needed_spec _ Hi) as (_ & Ht & _).
    refine (trimmed_blocked n id _ _ Ht _ Hin).
    destruct Hb as (r & Hr & Hb). unfold blocked. cbn. rewrite lookup_insert.
    case_decide as Hid; [|by exists r]. subst id.
    destruct Hc as [(r' & Hr' & Hcr & _)|(Hr' & _)]; [|congruence]. simplify_eq.
    destruct Hb. congruence.
  - destruct Hb as (r & Hr & Hb). unfold attach_submission, blocked.
    destruct (records l !! id') as [r'|] eqn:Hr'; cbn; [|by exists r].
    rewrite lookup_insert. case_decide; subst; [|by exists r]. simplify_eq. by eexists.
  - destruct Hb as (r & Hr & Hb). unfold blocked, set_priority_fee. cbn.
    destruct (decide (id = id')) as [->|Hne].
    + rewrite lookup_alter, decide_True by done. rewrite Hr. cbn. by eexists.
    + rewrite lookup_alter_ne by done. by exists r.
  - apply apply_blocked; [|done]. intros ->. split_and!; [tauto|tauto|by left].
  - apply fail_blocked; [|done]. intros ->. destruct (class_is_ambiguous c); [done|tauto].
  - destruct (reconcile_cases now sig landed d l) as [->|(id' & Hsig & ->)]; [done|].
    apply apply_blocked; [|done]. intros ->. split_and!; [done|done|].
    destruct landed; [by left|tauto].
  - unfold hydrate in *. cbn in *. destruct (hydrate_rows_spec rows (O, l) Hinv Hok) as [Hi Hsub].
    destruct (evict_if_needed_spec _ Hi) as (_ & Ht & _).
    refine (trimmed_blocked n id _ _ Ht _ Hin).
    destruct Hb as (r & Hr & Hb). exists r. split; [|done]. by eapply lookup_weaken.
  - apply resolve_blocked; [done|done|]. intros r Hr. split; intros Hs; apply Hno; eauto.
Qed.

(** One operation that reports no failure of [id] and leaves it on record. *)
Definition quiet_step (id : text) (l l' : ExecutionLedger) : Prop :=
  exists now o, op_ok o /\ ~ reports_failure id o l /\ l' = exec_run now o l
             /\ is_Some (l'.(records) !! id).

Lemma quiet_blocked n id l l' :
  ledger_inv l -> blocked n id l -> rtc (quiet_step id) l l' -> ledger_inv l' /\ blocked n id l'.
Proof.
  intros Hinv Hb Hsteps. revert Hinv Hb.
  induction Hsteps as [l|l l1 l2 (now & o & Hok & Hno & -> & Hin) _ IH]; intros Hinv Hb; [done|].
  apply IH; [by apply run_inv|by apply run_blocked].
Qed.

(** ** What a restart makes of the attempts it finds *)

Definition restarted (now : Z) (r : ExecutionRecord) : ExecutionRecord :=
  match r.(x_state) with
  | ExCreated | ExValidated =>
      moved now ExFailed
        (Some (FcInternal, lit "process restart before submission " ++ em_dash
                           ++ lit " nothing was broadcast")) r
  | ExSubmitted =>
      moved now ExPending
        (Some (TransportAmbiguous, lit "process restart during submission " ++ em_dash
                                   ++ lit " outcome unknown")) r
  | _ => r
  end.

Lemma fail_moves now id c error l r :
  l.(records) !! id = Some r -> r.(x_state) <> terminal_state c ->
  exec_can_transition_to r.(x_state) (terminal_state c) = true ->
  (fail now id c error l).2.(records)
  = <[id := moved now (terminal_state c) (Some (c, error)) r]> l.(records).
Proof.
  intros Hr Hne Hc. unfold fail, apply. rewrite Hr, decide_False by done. by rewrite Hc.
Qed.

Lemma resolve_record_effect now acc r :
  acc.2.(records) !! r.(x_intent_id) = Some r ->
  (resolve_record now acc r).2.(records) = <[r.(x_intent_id) := restarted now r]> acc.2.(records)
  /\ (resolve_record now acc r).1
     = acc.1 ++ (if exec_is_ambiguous r.(x_state) then [r] else []).
Proof.
  intros Hr. unfold resolve_record, restarted.
  destruct (x_state r) eqn:Hs; cbn; rewrite ?app_nil_r; split; try done;
    try (by rewrite insert_id);
    by rewrite (fail_moves _ _ _ _ _ r Hr) by (by rewrite Hs).
Qed.

Lemma resolve_effect now rs out l :
  NoDup (map x_intent_id rs) ->
  (forall r, r ∈ rs -> l.(records) !! r.(x_intent_id) = Some r) ->
  let res := fold_left (resolve_record now) rs (out, l) in
  (forall r, r ∈ rs -> res.2.(records) !! r.(x_intent_id) = Some (restarted now r))
  /\ (forall id, id ∉ map x_intent_id rs -> res.2.(records) !! id = l.(records) !! id)
  /\ res.1 = out ++ filter (fun r => exec_is_ambiguous r.(x_state) = true) rs.
Proof.
  revert out l. induction rs as [|r rs IH]; intros out l Hnd Hin; cbn.
  { split_and!; [by intros ? ?%elem_of_nil|done|by rewrite app_nil_r]. }
  apply NoDup_cons in Hnd as [Hni Hnd].
  destruct (resolve_record_effect now (out, l) r) as [Hrec Hout];
    [apply Hin; by left|].
  destruct (resolve_record now (out, l) r) as [out' l'] eqn:Hres. cbn in Hrec, Hout.
  assert (Hne : forall r', r' ∈ rs -> x_intent_id r' <> x_intent_id r).
  { intros r' Hr' Heq. apply Hni. rewrite <- Heq. by apply list_elem_of_fmap_2. }
  destruct (IH out' l' Hnd) as (H1 & H2 & H3).
  { intros r' Hr'. rewrite Hrec, lookup_insert_ne by (intros Heq; by apply (Hne r')).
    apply Hin. by right. }
  split_and!.
  - intros r' [->|Hr']%elem_of_cons; [|by apply H1].
    rewrite H2, Hrec by done. by rewrite lookup_insert, decide_True.
  - intros id [Hid Hids]%not_elem_of_cons. rewrite H2, Hrec by done.
    by rewrite lookup_insert_ne.
  - rewrite H3, Hout. by destruct (exec_is_ambiguous (x_state r)); cbn;
      rewrite <- ?app_assoc, ?app_nil_r.
Qed.

Lemma open_nodup l : ledger_inv l -> NoDup (map x_intent_id (open l)).
Proof.
  intros Hinv. unfold open.
  assert (Hk : forall kv, kv ∈ hash_iter l.(records) -> kv.1 = x_intent_id kv.2).
  { intros [k r]. rewrite hash_iter_perm, elem_of_map_to_list. intros Hr.
    cbn. symmetry. by apply (li_key _ Hinv). }
  assert (Hnd : NoDup (hash_iter l.(records)).*1).
  { rewrite hash_iter_perm. apply NoDup_fst_map_to_list. }
  revert Hk Hnd. generalize (hash_iter l.(records)) as kvs.
  induction kvs as [|[k r] kvs IH]; intros Hk Hnd; [constructor|].
  apply NoDup_cons in Hnd as [Hni Hnd].
  assert (IH' : NoDup (map x_intent_id (filter (fun r => is_settled r.(x_state) = false)
                                          (map snd kvs)))).
  { apply IH; [|done]. intros kv Hkv. apply Hk. by right. }
  cbn [map snd]. rewrite filter_cons. case_decide; [|done]. apply NoDup_cons. split; [|done].
  intros (r' & Heq & Hin)%list_elem_of_fmap. apply list_elem_of_filter in Hin as [_ Hin].
  apply list_elem_of_fmap in Hin as ([k' r''] & -> & Hin). cbn in Heq.
  apply Hni. apply list_elem_of_fmap. exists (k', r''). split; [|done]. cbn.
  pose proof (Hk (k, r) ltac:(by left)) as Hk1. pose proof (Hk (k', r'') ltac:(by right)) as Hk2.
  cbn in Hk1, Hk2. congruence.
Qed.

(** ** The announced transitions as a history *)

(** A reader of the announcements who keeps the last state of every intent and
    stops at an entry that does not follow from it. *)
Definition entry_follows (m : gmap text ExecutionState) (t : ExecutionTransition) : bool :=
  match t.(xt_from) with
  | None => bool_decide (t.(xt_to) = ExCreated) && (t.(xt_attempt) =? 1)
  | Some f =>
      bool_decide (m !! t.(xt_intent_id) = Some f)
      && (exec_can_transition_to f t.(xt_to)
          || (bool_decide (t.(xt_to) = ExCreated)
              && match f with ExFailed | ExExpired | ExReconciled => true | _ => false end))
  end.

Fixpoint replay (m : gmap text ExecutionState) (log : list (ExecutionRecord * ExecutionTransition))
    : option (gmap text ExecutionState) :=
  match log with
  | [] => Some m
  | (r, t) :: log' =>
      if entry_follows m t && bool_decide (r.(x_state) = t.(xt_to))
      then replay (<[t.(xt_intent_id) := t.(xt_to)]> m) log' else None
  end.

Lemma exec_replay_app m log log' :
  replay m (log ++ log') = m' ← replay m log; replay m' log'.
Proof.
  revert m. induction log as [|[r t] log IH]; intros m; [done|]. cbn.
  destruct (entry_follows m t && _); [apply IH|done].
Qed.

(** The reader knows the state of every intent on record. *)
Definition log_inv (l : ExecutionLedger) : Prop :=
  ledger_inv l
  /\ exists m, replay ∅ l.(announced) = Some m
     /\ forall id r, l.(records) !! id = Some r -> m !! id = Some r.(x_state).

Lemma log_inv_states l l' :
  log_inv l -> ledger_inv l' -> l'.(announced) = l.(announced) ->
  (forall id r, l'.(records) !! id = Some r ->
     exists r0, l.(records) !! id = Some r0 /\ r0.(x_state) = r.(x_state)) ->
  log_inv l'.
Proof.
  intros (_ & m & Hm & Hst) Hinv Ha Hr. split; [done|]. exists m. rewrite Ha. split; [done|].
  intros id r Hid. destruct (Hr id r Hid) as (r0 & Hr0 & <-). by apply Hst.
Qed.

Lemma log_inv_notify l l' r t :
  log_inv l -> ledger_inv l' -> l'.(announced) = l.(announced) ->
  l'.(records) ⊆ <[t.(xt_intent_id) := r]> l.(records) ->
  r.(x_state) = t.(xt_to) ->
  match t.(xt_from) with
  | None => t.(xt_to) = ExCreated /\ t.(xt_attempt) = 1
  | Some f =>
      (exists r0, l.(records) !! t.(xt_intent_id) = Some r0 /\ r0.(x_state) = f)
      /\ (exec_can_transition_to f t.(xt_to) = true
          \/ t.(xt_to) = ExCreated /\ (f = ExFailed \/ f = ExExpired \/ f = ExReconciled))
  end ->
  log_inv (notify r t l').
Proof.
  intros (_ & m & Hm & Hst) [Hk Hn Hf Hat] Ha Hsub Hs Hfrom. split; [by split|].
  exists (<[t.(xt_intent_id) := t.(xt_to)]> m). cbn. split.
  - rewrite Ha, exec_replay_app, Hm. cbn.
    assert (entry_follows m t = true) as ->; [|by rewrite Hs, bool_decide_true].
    unfold entry_follows. destruct (xt_from t) as [f|].
    + destruct Hfrom as [(r0 & Hr0 & <-) Hc]. rewrite (Hst _ _ Hr0), bool_decide_true by done. cbn.
      destruct Hc as [Hc|[Hc Hf']]; rewrite Hc; [done|].
      destruct Hf' as [Hf'|[Hf'|Hf']]; rewrite Hf'; apply orb_true_r.
    + destruct Hfrom as [-> ->]. done.
  - intros id r' Hr'. pose proof (lookup_weaken _ _ _ _ Hr' Hsub) as Hl.
    rewrite lookup_insert in Hl. rewrite lookup_insert. case_decide; [injection Hl as <-; by rewrite Hs|by apply Hst].
Qed.

Lemma log_inv_apply now id to failure reason l :
  log_inv l -> log_inv (apply now id to failure reason l).2.
Proof.
  intros Hl. pose proof (apply_inv now id to failure reason l (proj1 Hl)) as Hi.
  destruct (apply_cases now id to failure reason l) as [[_ Heq]|(r & Hr & Hc & _ & Heq)];
    rewrite Heq in *; [done|].
  pose proof (li_key _ (proj1 Hl) _ _ Hr) as Hid.
  apply (log_inv_notify l); [done| |done|cbn; by rewrite Hid|apply moved_state|].
  - destruct Hi as [Hk Hn Hf Ha]. by split.
  - cbn. rewrite Hid. split; [by exists r|by left].
Qed.

Lemma log_inv_fail now id c error l : log_inv l -> log_inv (fail now id c error l).2.
Proof.
  intros Hl. pose proof (fail_inv now id c error l (proj1 Hl)) as Hi.
  destruct (fail_cases now id c error l) as [(r & Hr & Hs & Heq)|Heq]; rewrite Heq in *;
    [|by apply log_inv_apply].
  apply (log_inv_states l); [done|done|done|]. cbn. intros id' r'.
  rewrite lookup_insert. case_decide; subst; [|by eauto].
  intros [= <-]. by exists r.
Qed.

Lemma log_inv_resolve now l : log_inv l -> log_inv (resolve_after_restart now l).2.
Proof.
  unfold resolve_after_restart. generalize (open l). intros rs. generalize (@nil ExecutionRecord).
  revert l. induction rs as [|r rs IH]; intros l out Hl; [done|]. cbn.
  assert (Hl' : log_inv (resolve_record now (out, l) r).2).
  { unfold resolve_record. destruct (x_state r); cbn; auto using log_inv_fail. }
  destruct (resolve_record now (out, l) r) as [out' l']. by apply IH.
Qed.

Lemma log_inv_run now o l :
  log_inv l -> (forall rows, o <> OpHydrate rows) -> log_inv (exec_run now o l).
Proof.
  intros Hl Hnh. assert (Hi : ledger_inv (exec_run now o l)).
  { apply run_inv; [by destruct Hl|]. destruct o as [| | | | | |rows|]; try done. by destruct (Hnh rows). }
  destruct o as [i|id sig bh h fee|id fee|id to reason|id c err|sig landed d|rows|]; cbn in *;
    [| | |by apply log_inv_apply|by apply log_inv_fail| |by destruct (Hnh rows)
     |by apply log_inv_resolve].
  - destruct (begin_cases now i l)
      as [(o & -> & _)|(r0 & rs & q & o & t & _ & Heq & -> & Hc & Hto & Hid & Hat)]; [done|].
    rewrite Heq. cbn [snd].
    destruct (evict_if_needed_spec _ (begun_inv now i l r0 q o t (proj1 Hl) Hc)) as (He & Ht & _).
    assert (Hxi : xt_intent_id t = xi_intent_id i).
    { rewrite Hid. destruct Hc as [(r & Hr & _ & -> & _)|(_ & -> & _)]; [|done].
      apply (li_key _ (proj1 Hl) _ _ Hr). }
    apply (log_inv_notify l); [done|done|apply Ht| | |].
    + rewrite Hxi. apply Ht.
    + rewrite Hto. by destruct Hc as [(r & Hr & _ & -> & _)|(_ & -> & _)].
    + rewrite Hxi. destruct Hc as [(r & Hr & Hcr & -> & _ & _ & ->)|(_ & -> & _ & _ & ->)].
      * split; [by exists r|]. right. split; [done|]. unfold can_rearm in Hcr.
        destruct (x_state r); try done; auto.
      * by rewrite Hat.
  - unfold attach_submission in *. destruct (records l !! id) as [r|] eqn:Hr; [|done].
    apply (log_inv_states l); [done|done|done|]. cbn. intros id' r'.
    rewrite lookup_insert. case_decide; subst; [|by eauto]. intros [= <-]. by exists r.
  - unfold set_priority_fee in *.
    apply (log_inv_states l); [done|done|done|]. cbn. intros id' r' Hr'.
    destruct (decide (id = id')) as [->|Hne].
    + rewrite lookup_alter, decide_True in Hr' by done.
      apply fmap_Some in Hr' as (r & Hr & ->). by exists r.
    + rewrite lookup_alter_ne in Hr' by done. by exists r'.
  - destruct (reconcile_cases now sig landed d l) as [->|(id & _ & ->)]; [done|by apply log_inv_apply].
Qed.

Lemma size_fifo l : ledger_inv l -> size l.(records) = length l.(x_fifo).
Proof.
  intros Hinv. rewrite <- (size_dom l.(records)).
  assert (dom l.(records) = list_to_set (C := gset text) l.(x_fifo)) as ->.
  { apply set_eq. intros id. rewrite elem_of_dom, elem_of_list_to_set. symmetry. apply Hinv. }
  apply size_list_to_set, Hinv.
Qed.

Lemma trimmed_live l l' id r :
  trimmed l l' -> l.(records) !! id = Some r -> is_settled r.(x_state) = false ->
  is_Some (l'.(records) !! id).
Proof. intros Ht Hr Hs. exists r. by apply Ht. Qed.

Lemma insert_is_Some {A} (m : gmap text A) k v id :
  is_Some (m !! id) -> is_Some (<[k := v]> m !! id).
Proof. intros Hid. rewrite lookup_insert. case_decide; [by eexists|done]. Qed.

Lemma apply_keeps now id0 id to failure reason l :
  is_Some (l.(records) !! id0) -> is_Some ((apply now id to failure reason l).2.(records) !! id0).
Proof.
  intros Hin. destruct (apply_cases now id to failure reason l) as [[_ ->]|(r & _ & _ & _ & ->)];
    [done|by apply insert_is_Some].
Qed.

Lemma fail_keeps now id0 id c error l :
  is_Some (l.(records) !! id0) -> is_Some ((fail now id c error l).2.(records) !! id0).
Proof.
  intros Hin. destruct (fail_cases now id c error l) as [(r & _ & _ & Heq)|Heq];
    rewrite Heq; [by apply insert_is_Some|by apply apply_keeps].
Qed.

Lemma resolve_keeps now id l :
  is_Some (l.(records) !! id) -> is_Some ((resolve_after_restart now l).2.(records) !! id).
Proof.
  unfold resolve_after_restart. generalize (open l). intros rs. generalize (@nil ExecutionRecord).
  revert l. induction rs as [|r rs IH]; intros l out Hin; [done|]. cbn.
  assert (Hin' : is_Some ((resolve_record now (out, l) r).2.(records) !! id)).
  { unfold resolve_record. destruct (x_state r); cbn; auto using fail_keeps. }
  destruct (resolve_record now (out, l) r) as [out' l']. by apply IH.
Qed.

(** What is in flight stays on record. *)
Lemma live_kept now o l id r :
  ledger_inv l -> op_ok o -> l.(records) !! id = Some r -> is_settled r.(x_state) = false ->
  is_Some ((exec_run now o l).(records) !! id).
Proof.
  intros Hinv Hok Hr Hs. assert (Hin : is_Some (l.(records) !! id)) by by exists r.
  destruct o as [i|id' sig bh h fee|id' fee|id' to reason|id' c err|sig landed d|rows|]; cbn in *.
  - destruct (begin_cases now i l) as [(o & -> & _)|(r0 & rs & q & o & t & _ & -> & -> & Hc & _)];
      [done|]. cbn [snd].
    destruct (evict_if_needed_spec _ (begun_inv now i l r0 q o t Hinv Hc)) as (_ & Ht & _).
    destruct (decide (xi_intent_id i = id)) as [Heq|Hne].
    + refine (trimmed_live _ _ id r0 Ht _ _).
      * cbn. by rewrite Heq, lookup_insert, decide_True.
      * by destruct Hc as [(r' & _ & _ & -> & _)|(_ & -> & _)].
    + refine (trimmed_live _ _ id r Ht _ Hs). cbn. by rewrite lookup_insert_ne.
  - unfold attach_submission. destruct (records l !! id'); [by apply insert_is_Some|done].
  - unfold set_priority_fee. cbn. destruct (decide (id = id')) as [->|Hne].
    + rewrite lookup_alter, decide_True, Hr by done. by eexists.
    + by rewrite lookup_alter_ne.
  - by apply apply_keeps.
  - by apply fail_keeps.
  - destruct (reconcile_cases now sig landed d l) as [->|(id' & _ & ->)]; [done|by apply apply_keeps].
  - unfold hydrate. cbn. destruct (hydrate_rows_spec rows (O, l) Hinv Hok) as [Hi Hsub].
    destruct (evict_if_needed_spec _ Hi) as (_ & Ht & _).
    refine (trimmed_live _ _ id r Ht _ Hs). by eapply lookup_weaken.
  - by apply resolve_keeps.
Qed.

(** A [begin] that starts an attempt, and a [hydrate], end with an eviction. *)
Lemma trims_bound now o l :
  ledger_inv l -> op_ok o ->
  (exists rows, o = OpHydrate rows) \/ (exists i, o = OpBegin i /\ (begin now i l).2 <> l) ->
  Z.of_nat (length (exec_run now o l).(x_fifo)) <= Z.max l.(x_cap) 0
  \/ forall id r, (exec_run now o l).(records) !! id = Some r -> is_settled r.(x_state) = false.
Proof.
  intros Hinv Hok [[rows ->]|(i & -> & Hne)]; cbn in *.
  - destruct (hydrate_rows_spec rows (O, l) Hinv Hok) as [Hi _].
    destruct (evict_if_needed_spec _ Hi) as (_ & _ & Hb).
    by rewrite hydrate_rows_cap in Hb.
  - destruct (begin_cases now i l) as [(o & Heq & _)|(r0 & rs & q & o & t & _ & Heq & -> & Hc & _)];
      rewrite Heq in *; [done|].
    by destruct (evict_if_needed_spec _ (begun_inv now i l r0 q o t Hinv Hc)) as (_ & _ & Hb).
Qed.

(** ** A fresh ledger after [hydrate] *)

Lemma hydrate_rows_fresh rows n l :
  NoDup (map x_intent_id rows) ->
  (forall r, r ∈ rows -> l.(records) !! r.(x_intent_id) = None) ->
  let acc := fold_left hydrate_row rows (n, l) in
  (forall r, r ∈ rows -> acc.2.(records) !! r.(x_intent_id) = Some r)
  /\ (forall id, id ∉ map x_intent_id rows -> acc.2.(records) !! id = l.(records) !! id)
  /\ length acc.2.(x_fifo) = (length l.(x_fifo) + length rows)%nat
  /\ acc.2.(x_cap) = l.(x_cap).
Proof.
  revert n l. induction rows as [|r rows IH]; intros n l Hnd Hnew; cbn [fold_left].
  { cbn. split_and!; [by intros ? ?%elem_of_nil|done|lia|done]. }
  apply NoDup_cons in Hnd as [Hni Hnd].
  assert (Hr : l.(records) !! x_intent_id r = None) by (apply Hnew; by left).
  destruct (hydrate_row (n, l) r) as [n1 l1] eqn:Hstep. unfold hydrate_row in Hstep.
  cbn in Hstep. rewrite Hr in Hstep. injection Hstep as <- <-.
  match goal with |- context [fold_left hydrate_row rows (S n, ?l0)] => set (l1 := l0) end.
  assert (Hl1 : l1.(records) = <[x_intent_id r := r]> l.(records)) by done.
  destruct (IH (S n) l1 Hnd) as (H1 & H2 & H3 & H4).
  { intros r' Hr'. rewrite Hl1, lookup_insert_ne; [apply Hnew; by right|].
    intros Heq. apply Hni. rewrite Heq. by apply list_elem_of_fmap_2. }
  split_and!.
  - intros r' [->|Hr']%elem_of_cons; [|by apply H1].
    rewrite H2, Hl1 by done. by rewrite lookup_insert, decide_True.
  - intros id [Hid Hids]%not_elem_of_cons. rewrite H2, Hl1 by done. by rewrite lookup_insert_ne.
  - rewrite H3. cbn. rewrite length_app. cbn. lia.
  - by rewrite H4.
Qed.

Lemma hydrate_fresh rows cap :
  NoDup (map x_intent_id rows) -> Forall row_ok rows ->
  Z.of_nat (length rows) <= Z.max cap 64 ->
  let l := (hydrate rows (ExecutionLedger_new cap)).2 in
  ledger_inv l
  /\ (forall r, r ∈ rows -> l.(records) !! r.(x_intent_id) = Some r)
  /\ (forall r, l.(records) !! r.(x_intent_id) = Some r -> r ∈ rows).
Proof.
  intros Hnd Hok Hcap l.
  assert (Hi : ledger_inv l) by (apply hydrate_inv; [apply exec_ledger_inv_new|done]).
  destruct (hydrate_rows_fresh rows O (ExecutionLedger_new cap) Hnd) as (H1 & H2 & H3 & H4).
  { intros r _. apply lookup_empty. }
  assert (Heq : l = (fold_left hydrate_row rows (O, ExecutionLedger_new cap)).2).
  { subst l. unfold hydrate, evict_if_needed. cbn [snd]. rewrite H3, H4. cbn.
    by replace (length rows - Z.to_nat (Z.max cap 64))%nat with 0%nat by lia. }
  split; [done|]. rewrite Heq. split; [done|]. intros r Hr.
  destruct (decide (r.(x_intent_id) ∈ map x_intent_id rows)) as [Hin|Hni].
  - apply list_elem_of_fmap in Hin as (r' & Hid & Hr'). rewrite Hid, H1 in Hr by done.
    by simplify_eq.
  - rewrite H2 in Hr by done. cbn in Hr. by rewrite lookup_empty in Hr.
Qed.

Lemma restarted_settled now r : is_settled r.(x_state) = true -> restarted now r = r.
Proof. unfold restarted. by destruct (x_state r). Qed.

Lemma restarted_rearm now r :
  can_rearm (restarted now r)
  = negb (exec_is_ambiguous r.(x_state)) && (is_live r.(x_state) || can_rearm r).
Proof. unfold restarted, can_rearm. destruct (x_state r) eqn:Hs; cbn; by rewrite ?Hs. Qed.

(** * Properties *)

(** While an attempt of an intent is in flight, or has landed, every
    further [begin] for that intent answers [Duplicate] and changes nothing,
    through any sequence of operations on the ledger that reports no failure
    of this attempt and leaves the intent on record. *)
Theorem duplicate_guard id l l' r
  (Hinv : ledger_inv l) (Hr : l.(records) !! id = Some r) (Hb : can_rearm r = false)
  (Hsteps : rtc (quiet_step id) l l') :
  exists r', l'.(records) !! id = Some r' /\ r'.(x_attempts) = r.(x_attempts)
    /\ forall now i, i.(xi_intent_id) = id -> is_empty (trim id) = false ->
         begin now i l' = (Ok (Duplicate r'), l').
Proof.
  destruct (quiet_blocked r.(x_attempts) id l l' Hinv) as (_ & r' & Hr' & Hc & Hn);
    [by exists r|done|].
  exists r'. split_and!; [done|done|]. intros now i <- He. unfold begin.
  by rewrite He, Hr', Hc.
Qed.

(** The ledger forgets settled attempts only: after any operation the
    invariant holds and every attempt that was in flight is still on record,
    and a [begin] or a [hydrate] leaves at most [cap] records unless every one
    left is in flight. *)
Theorem ledger_forgets_settled_only now o l (Hinv : ledger_inv l) (Hok : op_ok o) :
  ledger_inv (exec_run now o l)
  /\ (forall id r, l.(records) !! id = Some r -> is_live r.(x_state) = true ->
        is_Some ((exec_run now o l).(records) !! id))
  /\ ((exists rows, o = OpHydrate rows) \/ (exists i, o = OpBegin i /\ (begin now i l).2 <> l) ->
      Z.of_nat (size (exec_run now o l).(records)) <= Z.max l.(x_cap) 0
      \/ forall id r, (exec_run now o l).(records) !! id = Some r -> is_live r.(x_state) = true).
Proof.
  assert (Hi : ledger_inv (exec_run now o l)) by by apply run_inv.
  split_and!; [done| |].
  - intros id r Hr Hl. rewrite live_settled, negb_true_iff in Hl. by eapply live_kept.
  - intros Ho. rewrite (size_fifo _ Hi). destruct (trims_bound now o l Hinv Hok Ho) as [Hb|Hb];
      [by left|right]. intros id r Hr. rewrite live_settled, negb_true_iff. by eapply Hb.
Qed.

(** Starting again after a crash: of the durable rows, an attempt that had
    not been submitted is closed as failed, one whose submission may have
    reached the network stays blocked and is handed to reconciliation, and a
    settled one is kept as it was. *)
Theorem restart_policy now rows cap
  (Hnd : NoDup (map x_intent_id rows)) (Hok : Forall row_ok rows)
  (Hcap : Z.of_nat (length rows) <= Z.max cap 64) :
  let res := resolve_after_restart now (hydrate rows (ExecutionLedger_new cap)).2 in
  (forall r, r ∈ rows ->
     res.2.(records) !! r.(x_intent_id) = Some (restarted now r)
     /\ can_rearm (restarted now r)
        = negb (exec_is_ambiguous r.(x_state)) && (is_live r.(x_state) || can_rearm r))
  /\ res.1 ≡ₚ filter (fun r => exec_is_ambiguous r.(x_state) = true) rows.
Proof.
  destruct (hydrate_fresh rows cap Hnd Hok Hcap) as (Hi & Hrows & Hall).
  destruct (resolve_effect now (open (hydrate rows (ExecutionLedger_new cap)).2) []
              (hydrate rows (ExecutionLedger_new cap)).2) as (H1 & H2 & H3).
  { by apply open_nodup. }
  { intros r Hr. by apply elem_of_open. }
  cbn zeta. split.
  - intros r Hr. split; [|apply restarted_rearm].
    destruct (is_settled (x_state r)) eqn:Hs.
    + unfold resolve_after_restart. rewrite H2.
      * rewrite Hrows by done. by rewrite restarted_settled.
      * intros (r' & Heq & Hin)%list_elem_of_fmap. apply elem_of_open in Hin as [Hs' Hr']; [|done].
        rewrite <- Heq, Hrows in Hr' by done. congruence.
    + apply H1, elem_of_open; [done|]. split; [done|by apply Hrows].
  - unfold resolve_after_restart. rewrite H3. cbn [app].
    apply NoDup_Permutation; [apply NoDup_filter; by eapply NoDup_fmap_1, open_nodup
                             |apply NoDup_filter; by eapply NoDup_fmap_1|].
    intros r. rewrite !list_elem_of_filter, elem_of_open by done. split.
    + intros (Ha & _ & Hr). split; [done|]. by apply Hall in Hr.
    + intros (Ha & Hr). split_and!; [done| |by apply Hrows]. by destruct (x_state r).
Qed.

(** What the ledger announces is a history of what it holds: from an empty
    ledger, and without rows loaded from elsewhere, every announced transition
    starts where the last one of the same intent ended and is a move of the
    state machine (or re-arms an attempt that did not land), and the last one
    of every intent on record names its state. *)
Theorem announcements_are_history cap l
  (Hreach : rtc (fun a b => exists now o, (forall rows, o <> OpHydrate rows) /\ b = exec_run now o a)
              (ExecutionLedger_new cap) l) :
  exists m, replay ∅ l.(announced) = Some m
    /\ forall id r, l.(records) !! id = Some r -> m !! id = Some r.(x_state).
Proof.
  assert (Hl : log_inv l); [|apply Hl].
  remember (ExecutionLedger_new cap) as l0 eqn:Hl0.
  assert (Hinit : log_inv l0).
  { subst. split; [apply exec_ledger_inv_new|]. exists ∅. split; [done|]. intros id r.
    by rewrite lookup_empty. }
  clear Hl0. induction Hreach as [|a b c (now & o & Hno & ->) _ IH]; [done|].
  apply IH. by apply log_inv_run.
Qed.
End Runs.

(** * The verdict that undoes the guard *)

#[local] Instance listed_order : HashOrder := map_order.
#[local] Instance listed_order_laws : HashOrderLaws := map_order_laws.

Definition demo_intent : ExecutionIntent :=
  mkExecutionIntent (lit "int_1") (lit "copy") (lit "copy-MINT") (lit "wallet") (lit "MINT").

(** One attempt, signed with [sig] and broadcast without an answer. *)
Definition broadcast (now : Z) (sig : text) (l : ExecutionLedger) : ExecutionLedger :=
  fold_left (fun l o => exec_run now o l)
    [OpBegin demo_intent; OpAttach (lit "int_1") sig None None 0;
     OpMove (lit "int_1") ExValidated None; OpMove (lit "int_1") ExSubmitted None;
     OpFail (lit "int_1") TransportAmbiguous (lit "timeout")] l.

(** The first transaction expires unseen; the second one is in the air. *)
Definition second_in_flight : ExecutionLedger :=
  broadcast 3 (lit "sig2")
    (exec_run 2 (OpMove (lit "int_1") ExExpired None)
       (broadcast 1 (lit "sig1") (ExecutionLedger_new 64))).

(** A verdict on the signature of an earlier attempt is applied to the
    current one: with attempt 2 pending under its own signature, so that
    [begin] refuses a third attempt, the report that attempt 1 never landed
    closes attempt 2 and [begin] starts attempt 3. *)
Theorem stale_verdict_unblocks :
  let l := second_in_flight in
  let l' := (reconcile_signature 4 (lit "sig1") false (lit "not found") l).2 in
  (exists r, l.(records) !! lit "int_1" = Some r /\ r.(x_state) = ExPending
     /\ r.(x_signature) = Some (lit "sig2") /\ (begin 4 demo_intent l).1 = Ok (Duplicate r))
  /\ exists r, (begin 5 demo_intent l').1 = Ok (Rearmed r) /\ r.(x_attempts) = 3.
Proof. split; eexists; split_and!; vm_compute; reflexivity. Qed.

(** * Runs on which the properties apply *)

Definition first_in_flight : ExecutionLedger := broadcast 1 (lit "sig1") (ExecutionLedger_new 64).

Lemma first_in_flight_inv : ledger_inv first_in_flight.
Proof.
  unfold first_in_flight, broadcast. cbn [fold_left].
  repeat (apply run_inv; [|exact I]). apply exec_ledger_inv_new.
Qed.

Definition first_record : ExecutionRecord :=
  default (ExecutionRecord_new 0 demo_intent) (first_in_flight.(records) !! lit "int_1").

Lemma first_record_found :
  first_in_flight.(records) !! lit "int_1" = Some first_record /\ can_rearm first_record = false
  /\ first_record.(x_state) = ExPending.
Proof. by vm_compute. Qed.

Lemma duplicate_guard_witness :
  exists r', (exec_run 2 (OpFail (lit "int_1") ConfirmationTimeout (lit "late")) first_in_flight).(records)
         !! lit "int_1" = Some r' /\ r'.(x_attempts) = first_record.(x_attempts).
Proof.
  destruct (duplicate_guard (lit "int_1") first_in_flight
              (exec_run 2 (OpFail (lit "int_1") ConfirmationTimeout (lit "late")) first_in_flight)
              first_record first_in_flight_inv) as (r' & Hr' & Hn & _).
  - apply first_record_found.
  - apply first_record_found.
  - apply rtc_once. exists 2, (OpFail (lit "int_1") ConfirmationTimeout (lit "late")).
    split_and!; [done|by intros [_ ?]|done|]. vm_compute. by eexists.
  - by exists r'.
Defined.

Lemma ledger_forgets_settled_only_witness :
  ledger_inv (exec_run 2 OpRestart first_in_flight).
Proof. apply (ledger_forgets_settled_only 2 OpRestart first_in_flight first_in_flight_inv I). Defined.

(** Two rows of a crashed process: one only built, one in submission. *)
Definition crashed_built : ExecutionRecord :=
  moved 2 ExValidated None (ExecutionRecord_new 1 demo_intent).
Definition crashed_sending : ExecutionRecord :=
  moved 3 ExSubmitted None
    (submitted 2 (lit "sig") None None 0
       (ExecutionRecord_new 1 (mkExecutionIntent (lit "int_2") (lit "copy") (lit "copy-MINT")
                                 (lit "wallet") (lit "MINT")))).
Definition crashed_rows : list ExecutionRecord := [crashed_built; crashed_sending].

Lemma restart_policy_witness :
  let res := resolve_after_restart 9 (hydrate crashed_rows (ExecutionLedger_new 64)).2 in
  (exists r, res.2.(records) !! lit "int_1" = Some r /\ can_rearm r = true)
  /\ (exists r, res.2.(records) !! lit "int_2" = Some r /\ can_rearm r = false)
  /\ length res.1 = 1%nat.
Proof.
  destruct (restart_policy 9 crashed_rows 64) as [H1 H2].
  - apply (bool_decide_unpack _). vm_compute. exact I.
  - repeat (apply Forall_cons; split; [vm_compute; split; discriminate|]). constructor.
  - vm_compute. discriminate.
  - cbn zeta. split; [|split; [|by rewrite (Permutation_length H2)]].
    + destruct (H1 crashed_built (list_elem_of_here _ _)) as [Hr Hc].
      exists (restarted 9 crashed_built). split; [exact Hr|by rewrite Hc].
    + destruct (H1 crashed_sending (list_elem_of_further _ _ _ (list_elem_of_here _ _)))
        as [Hr Hc].
      exists (restarted 9 crashed_sending). split; [exact Hr|by rewrite Hc].
Defined.

Lemma announcements_are_history_witness :
  exists m, replay ∅ first_in_flight.(announced) = Some m /\ m !! lit "int_1" = Some ExPending.
Proof.
  destruct (announcements_are_history 64 first_in_flight) as (m & Hm & Hst).
  - unfold first_in_flight, broadcast. cbn [fold_left].
    repeat (eapply rtc_r; [|eexists 1, _; split; [|reflexivity]; by intros rows]).
    apply rtc_refl.
  - exists m. split; [exact Hm|]. by rewrite (Hst _ _ (proj1 first_record_found)).
Defined.
