(* ===== verification/AppState.v ===== *)
(** The shared state of one replica ([crates/core/src/state.rs]): module
    switches, the kill switch and the emergency halt, positions, realized
    results, cooldown clocks, and the exchange of runtime flags with the other
    replicas.  An operation takes the instant [now] (nanoseconds) at which it
    runs. *)
From stdpp Require Import prelude countable gmap strings sorting pretty.
From Stdlib Require Import ZArith Lia SpecFloat.
From S2P Require Import Prelude.
From S2P Require Import Text.
From S2P Require Import Float64.
From S2P Require Import Models.
From S2P Require Import BotConfig.
From S2P Require Import Ownership.
From S2P Require Import LedgerEvent.

#[local] Open Scope Z_scope.

(** [Iterator::sum] over [f64] starts from minus zero. *)
Definition fsum (l : list f64) : f64 := fold_left fadd l (S754_zero true).

(** Whole seconds of a span, towards zero. *)
Definition num_seconds (d : Z) : Z := Z.quot d SECOND.

(** * The bounded membership set *)

Record BoundedSet : Type := mkBoundedSet { bs_set : gset text; bs_order : list text }.

Definition BoundedSet_default : BoundedSet := mkBoundedSet ∅ [].

Definition bounded_contains (key : text) (s : BoundedSet) : bool := bool_decide (key ∈ s.(bs_set)).

(** [while self.order.len() > cap]: each turn takes one key off the queue. *)
Fixpoint evict_oldest (excess : nat) (s : BoundedSet) : BoundedSet :=
  match excess, s.(bs_order) with
  | S n, old :: rest => evict_oldest n (mkBoundedSet (s.(bs_set) ∖ {[old]}) rest)
  | _, _ => s
  end.

Definition bounded_insert (key : text) (cap : Z) (s : BoundedSet) : bool * BoundedSet :=
  let cap := Z.max cap 1 in
  if decide (key ∈ s.(bs_set)) then (false, s)
  else
    let s' := mkBoundedSet ({[key]} ∪ s.(bs_set)) (s.(bs_order) ++ [key]) in
    (true, evict_oldest (length s'.(bs_order) - Z.to_nat cap) s').

Definition bounded_remove (key : text) (s : BoundedSet) : bool * BoundedSet :=
  if decide (key ∈ s.(bs_set)) then
    (true, mkBoundedSet (s.(bs_set) ∖ {[key]})
             (match list_find (eq key) s.(bs_order) with
              | Some (i, _) => delete i s.(bs_order)
              | None => s.(bs_order)
              end))
  else (false, s).

(** * Cooldown clocks *)

Definition by_instant (a b : text * Z) : Prop := a.2 <= b.2.

#[export] Instance by_instant_dec : RelDecision by_instant.
Proof. intros a b. unfold by_instant. apply _. Defined.

Definition prune_ttl (cooldown_secs : Z) : Z :=
  Z.max (if 0 <? cooldown_secs then cooldown_secs else 600) 60.

(** [prune_timestamps]: entries older than the cooldown go, then the oldest
    beyond [cap].  The sort is stable over the order the map drains in. *)
Definition prune_timestamps `{HashOrder} (now cooldown_secs cap : Z) (m : gmap text Z)
    : gmap text Z :=
  let cutoff := now - prune_ttl cooldown_secs * SECOND in
  let kept := filter (fun kv => cutoff <= kv.2) m in
  let cap := Z.to_nat (Z.max cap 1) in
  if decide (cap < size kept)%nat
  then list_to_map (drop (size kept - cap) (merge_sort by_instant (hash_iter kept)))
  else kept.

(** * Modules *)

Record ModuleState : Type := mkModuleState {
  md_module : BotModule;
  md_enabled : bool;
  md_running : bool;
  md_degraded : bool;
  md_connected : bool;
  md_last_heartbeat : option Z;
  md_last_event : option Z;
  md_started_at : option Z;
  md_stopped_at : option Z;
  md_events_seen : Z;                (* u64, like the five below *)
  md_signals_generated : Z;
  md_orders_sent : Z;
  md_orders_filled : Z;
  md_orders_failed : Z;
  md_orders_rejected_by_risk : Z;
  md_realized_pnl : f64;
  md_unrealized_pnl : f64;
  md_consecutive_errors : Z;
  md_last_error : option text;
  md_last_error_at : option Z;
  md_detail : option text;
}.

Definition ModuleState_new (m : BotModule) : ModuleState :=
  mkModuleState m false false false false None None None None 0 0 0 0 0 0 fzero fzero 0 None None
    None.

(** Positions and results of one UTC day. *)
Record DailyStats : Type := mkDailyStats {
  dl_day : text;
  dl_realized_pnl : f64;
  dl_unrealized_pnl : f64;
  dl_buys : Z;
  dl_sells : Z;
  dl_wins : Z;
  dl_losses : Z;
  dl_loss_limit_tripped : bool;
  dl_loss_limit_tripped_at : option Z;
}.

Definition DailyStats_of (day : text) : DailyStats :=
  mkDailyStats day fzero fzero 0 0 0 0 false None.

Record FlagSyncReport : Type := mkFlagSyncReport {
  fs_kill_changed : bool;
  fs_modules_changed : Z;
  fs_skipped_stale : Z;
}.

Definition FlagSyncReport_default : FlagSyncReport := mkFlagSyncReport false 0 0.

(** * The state *)

Record AppState : Type := mkAppState {
  st_config : BotConfig;
  st_modules : gmap BotModule ModuleState;
  st_positions : gmap text Position;
  st_position_order : list text;
  st_trades : list Trade;
  st_kill_switch : bool;
  st_halted : bool;
  st_realized_pnl : gmap BotModule f64;
  st_daily : DailyStats;
  st_last_exit_at : gmap text Z;
  st_last_copy_at : gmap text Z;
  st_last_entry_attempt_at : gmap text Z;
  st_last_failed_entry_at : gmap text Z;
  st_daily_module_pnl : text * gmap BotModule f64;
  st_blocked_symbols : gset text;
  st_replica_id : text;
  st_flags_touched : gmap text Z;
  st_flags_writer : bool;
  st_published : list RuntimeFlag;     (* rows handed to the writer, in order *)
  st_seen_launches : BoundedSet;
  st_seen_signatures : BoundedSet;
  st_seen_copy_events : BoundedSet;
  st_counter : Z;                      (* AtomicU64 *)
}.

(** One assignment each. *)
Definition set_modules (m : gmap BotModule ModuleState) (s : AppState) : AppState :=
  let 'mkAppState a _ c d e f g h i j k l n o p q r t u v w x y := s in
  mkAppState a m c d e f g h i j k l n o p q r t u v w x y.
Definition set_config (c0 : BotConfig) (s : AppState) : AppState :=
  let 'mkAppState _ b c d e f g h i j k l n o p q r t u v w x y := s in
  mkAppState c0 b c d e f g h i j k l n o p q r t u v w x y.
Definition set_positions (ps : gmap text Position) (order : list text) (s : AppState) : AppState :=
  let 'mkAppState a b _ _ e f g h i j k l n o p q r t u v w x y := s in
  mkAppState a b ps order e f g h i j k l n o p q r t u v w x y.
Definition set_trades (ts : list Trade) (s : AppState) : AppState :=
  let 'mkAppState a b c d _ f g h i j k l n o p q r t u v w x y := s in
  mkAppState a b c d ts f g h i j k l n o p q r t u v w x y.
Definition set_kill_flag (on : bool) (s : AppState) : AppState :=
  let 'mkAppState a b c d e _ g h i j k l n o p q r t u v w x y := s in
  mkAppState a b c d e on g h i j k l n o p q r t u v w x y.
Definition set_halted (on : bool) (s : AppState) : AppState :=
  let 'mkAppState a b c d e f _ h i j k l n o p q r t u v w x y := s in
  mkAppState a b c d e f on h i j k l n o p q r t u v w x y.
Definition set_realized_pnl (m : gmap BotModule f64) (s : AppState) : AppState :=
  let 'mkAppState a b c d e f g _ i j k l n o p q r t u v w x y := s in
  mkAppState a b c d e f g m i j k l n o p q r t u v w x y.
Definition set_daily (dl : DailyStats) (s : AppState) : AppState :=
  let 'mkAppState a b c d e f g h _ j k l n o p q r t u v w x y := s in
  mkAppState a b c d e f g h dl j k l n o p q r t u v w x y.
Definition set_last_exit_at (m : gmap text Z) (s : AppState) : AppState :=
  let 'mkAppState a b c d e f g h i _ k l n o p q r t u v w x y := s in
  mkAppState a b c d e f g h i m k l n o p q r t u v w x y.
Definition set_last_copy_at (m : gmap text Z) (s : AppState) : AppState :=
  let 'mkAppState a b c d e f g h i j _ l n o p q r t u v w x y := s in
  mkAppState a b c d e f g h i j m l n o p q r t u v w x y.
Definition set_last_entry_attempt_at (m : gmap text Z) (s : AppState) : AppState :=
  let 'mkAppState a b c d e f g h i j k _ n o p q r t u v w x y := s in
  mkAppState a b c d e f g h i j k m n o p q r t u v w x y.
Definition set_last_failed_entry_at (m : gmap text Z) (s : AppState) : AppState :=
  let 'mkAppState a b c d e f g h i j k l _ o p q r t u v w x y := s in
  mkAppState a b c d e f g h i j k l m o p q r t u v w x y.
Definition set_daily_module_pnl (m : text * gmap BotModule f64) (s : AppState) : AppState :=
  let 'mkAppState a b c d e f g h i j k l n _ p q r t u v w x y := s in
  mkAppState a b c d e f g h i j k l n m p q r t u v w x y.
Definition set_blocked (b0 : gset text) (s : AppState) : AppState :=
  let 'mkAppState a b c d e f g h i j k l n o _ q r t u v w x y := s in
  mkAppState a b c d e f g h i j k l n o b0 q r t u v w x y.
Definition set_flags (touched : gmap text Z) (published : list RuntimeFlag) (s : AppState) : AppState :=
  let 'mkAppState a b c d e f g h i j k l n o p q _ t _ v w x y := s in
  mkAppState a b c d e f g h i j k l n o p q touched t published v w x y.

Definition set_seen_launches (seen : BoundedSet) (s : AppState) : AppState :=
  let 'mkAppState a b c d e f g h i j k l n o p q r t u _ w x y := s in
  mkAppState a b c d e f g h i j k l n o p q r t u seen w x y.

Definition set_seen_signatures (seen : BoundedSet) (s : AppState) : AppState :=
  let 'mkAppState a b c d e f g h i j k l n o p q r t u v _ x y := s in
  mkAppState a b c d e f g h i j k l n o p q r t u v seen x y.

Definition set_seen_copy_events (seen : BoundedSet) (s : AppState) : AppState :=
  let 'mkAppState a b c d e f g h i j k l n o p q r t u v w _ y := s in
  mkAppState a b c d e f g h i j k l n o p q r t u v w seen y.

Definition set_counter (z : Z) (s : AppState) : AppState :=
  let 'mkAppState a b c d e f g h i j k l n o p q r t u v w x _ := s in
  mkAppState a b c d e f g h i j k l n o p q r t u v w x z.

(** * Switches and flags *)

Definition kill_switch (s : AppState) : bool := s.(st_kill_switch) || s.(st_halted).

(** The row is stamped locally, and handed to the shared store when a writer is
    attached. *)
Definition publish_flag (now : Z) (flag : text) (enabled : bool) (reason : text) (s : AppState)
    : AppState :=
  set_flags (<[flag := now]> s.(st_flags_touched))
    (if s.(st_flags_writer)
     then s.(st_published) ++ [mkRuntimeFlag flag enabled reason s.(st_replica_id) now]
     else s.(st_published)) s.

Definition KILL_FLAG : text := lit "kill_switch".
Definition HALT_FLAG : text := lit "halted".
Definition MODULE_PREFIX : text := lit "module:".
Definition module_flag (m : BotModule) : text := MODULE_PREFIX ++ BotModule_as_str m.

Definition set_kill_switch (now : Z) (on : bool) (reason : text) (s : AppState) : AppState :=
  publish_flag now KILL_FLAG on reason
    (set_config (with_risk_kill on s.(st_config)) (set_kill_flag on s)).

(** What an emergency stop writes on a module that is registered. *)
Definition stopped_module (reason : text) (st : ModuleState) : ModuleState :=
  mkModuleState st.(md_module) false false st.(md_degraded) false st.(md_last_heartbeat)
    st.(md_last_event) st.(md_started_at) st.(md_stopped_at) st.(md_events_seen)
    st.(md_signals_generated) st.(md_orders_sent) st.(md_orders_filled) st.(md_orders_failed)
    st.(md_orders_rejected_by_risk) st.(md_realized_pnl) st.(md_unrealized_pnl)
    st.(md_consecutive_errors) st.(md_last_error) st.(md_last_error_at)
    (Some (lit "emergency stop: " ++ reason)).

Definition emergency_stop (now : Z) (reason : text) (s : AppState) : AppState :=
  let s := set_halted true (set_kill_flag true s) in
  let s := set_config
    (with_enabled Polymarket false
      (with_enabled Copy false
        (with_enabled Sniper false (with_risk_kill true s.(st_config))))) s in
  let s := set_modules
    (foldr (fun m => alter (stopped_module reason) m) s.(st_modules) BotModule_TRADING) s in
  let s := publish_flag now HALT_FLAG true reason (publish_flag now KILL_FLAG true reason s) in
  fold_left (fun s m => publish_flag now (module_flag m) false reason s) BotModule_TRADING s.

Definition clear_halt (now : Z) (s : AppState) : AppState :=
  publish_flag now HALT_FLAG false (lit "resume") (set_halted false s).

(** ** Modules *)

Definition module_state (m : BotModule) (s : AppState) : ModuleState :=
  default (ModuleState_new m) (s.(st_modules) !! m).

Definition is_enabled (m : BotModule) (s : AppState) : bool :=
  match s.(st_modules) !! m with Some st => st.(md_enabled) | None => false end.

Definition switched (now : Z) (enabled : bool) (st : ModuleState) : ModuleState :=
  if enabled then
    mkModuleState st.(md_module) true st.(md_running) st.(md_degraded) st.(md_connected)
      st.(md_last_heartbeat) st.(md_last_event) (Some now) None st.(md_events_seen)
      st.(md_signals_generated) st.(md_orders_sent) st.(md_orders_filled) st.(md_orders_failed)
      st.(md_orders_rejected_by_risk) st.(md_realized_pnl) st.(md_unrealized_pnl) 0
      st.(md_last_error) st.(md_last_error_at) st.(md_detail)
  else
    mkModuleState st.(md_module) false false false false st.(md_last_heartbeat) st.(md_last_event)
      st.(md_started_at) (Some now) st.(md_events_seen) st.(md_signals_generated)
      st.(md_orders_sent) st.(md_orders_filled) st.(md_orders_failed)
      st.(md_orders_rejected_by_risk) st.(md_realized_pnl) st.(md_unrealized_pnl)
      st.(md_consecutive_errors) st.(md_last_error) st.(md_last_error_at) st.(md_detail).

(** The previous value, and the state after. *)
Definition set_enabled_local (now : Z) (m : BotModule) (enabled : bool) (s : AppState)
    : bool * AppState :=
  let st := module_state m s in
  (st.(md_enabled),
   set_config (with_enabled m enabled s.(st_config))
     (set_modules (<[m := switched now enabled st]> s.(st_modules)) s)).

Definition set_enabled (now : Z) (m : BotModule) (enabled : bool) (s : AppState) : bool * AppState :=
  let r := set_enabled_local now m enabled s in
  (r.1, if Bool.eqb r.1 enabled then r.2
        else publish_flag now (module_flag m) enabled (lit "operator/gate") r.2).

Definition update_module (m : BotModule) (f : ModuleState -> ModuleState) (s : AppState) : AppState :=
  set_modules (<[m := f (module_state m s)]> s.(st_modules)) s.

Definition set_running (now : Z) (m : BotModule) (running connected : bool) (s : AppState) : AppState :=
  update_module m (fun st =>
    mkModuleState st.(md_module) st.(md_enabled) running (running && negb connected) connected
      (Some now) st.(md_last_event) st.(md_started_at) st.(md_stopped_at) st.(md_events_seen)
      st.(md_signals_generated) st.(md_orders_sent) st.(md_orders_filled) st.(md_orders_failed)
      st.(md_orders_rejected_by_risk) st.(md_realized_pnl) st.(md_unrealized_pnl)
      st.(md_consecutive_errors) st.(md_last_error) st.(md_last_error_at) st.(md_detail)) s.

Definition heartbeat (now : Z) (m : BotModule) (s : AppState) : AppState :=
  update_module m (fun st =>
    mkModuleState st.(md_module) st.(md_enabled) st.(md_running) st.(md_degraded) st.(md_connected)
      (Some now) st.(md_last_event) st.(md_started_at) st.(md_stopped_at) st.(md_events_seen)
      st.(md_signals_generated) st.(md_orders_sent) st.(md_orders_filled) st.(md_orders_failed)
      st.(md_orders_rejected_by_risk) st.(md_realized_pnl) st.(md_unrealized_pnl)
      st.(md_consecutive_errors) st.(md_last_error) st.(md_last_error_at) st.(md_detail)) s.

Definition set_detail (m : BotModule) (detail : text) (s : AppState) : AppState :=
  update_module m (fun st =>
    mkModuleState st.(md_module) st.(md_enabled) st.(md_running) st.(md_degraded) st.(md_connected)
      st.(md_last_heartbeat) st.(md_last_event) st.(md_started_at) st.(md_stopped_at)
      st.(md_events_seen) st.(md_signals_generated) st.(md_orders_sent) st.(md_orders_filled)
      st.(md_orders_failed) st.(md_orders_rejected_by_risk) st.(md_realized_pnl)
      st.(md_unrealized_pnl) st.(md_consecutive_errors) st.(md_last_error) st.(md_last_error_at)
      (Some detail)) s.

Definition failed_module (now : Z) (err : text) (st : ModuleState) : ModuleState :=
  mkModuleState st.(md_module) st.(md_enabled) st.(md_running) st.(md_degraded) st.(md_connected)
    st.(md_last_heartbeat) st.(md_last_event) st.(md_started_at) st.(md_stopped_at)
    st.(md_events_seen) st.(md_signals_generated) st.(md_orders_sent) st.(md_orders_filled)
    st.(md_orders_failed) st.(md_orders_rejected_by_risk) st.(md_realized_pnl)
    st.(md_unrealized_pnl) (saturating_add u32_max st.(md_consecutive_errors) 1) (Some err)
    (Some now) st.(md_detail).

(** [record_error]: past the limit the module is switched off. *)
Definition record_error (now : Z) (m : BotModule) (err : text) (s : AppState) : AppState :=
  let s := update_module m (failed_module now err) s in
  let limit := s.(st_config).(cf_risk).(rc_max_consecutive_failures) in
  if (0 <? limit) && (limit <=? (module_state m s).(md_consecutive_errors))
  then (set_enabled now m false s).2 else s.

Definition clear_error (m : BotModule) (s : AppState) : AppState :=
  set_modules (alter (fun st =>
    mkModuleState st.(md_module) st.(md_enabled) st.(md_running) st.(md_degraded)
      st.(md_connected) st.(md_last_heartbeat) st.(md_last_event) st.(md_started_at)
      st.(md_stopped_at) st.(md_events_seen) st.(md_signals_generated) st.(md_orders_sent)
      st.(md_orders_filled) st.(md_orders_failed) st.(md_orders_rejected_by_risk)
      st.(md_realized_pnl) st.(md_unrealized_pnl) 0 st.(md_last_error) st.(md_last_error_at)
      st.(md_detail)) m s.(st_modules)) s.

(** ** Flags of other replicas *)

Definition apply_remote_enabled (now : Z) (m : BotModule) (enabled : bool) (s : AppState)
    : bool * AppState :=
  let r := set_enabled_local now m enabled s in (negb (Bool.eqb r.1 enabled), r.2).

Definition apply_remote_kill (on : bool) (s : AppState) : bool * AppState :=
  if Bool.eqb s.(st_kill_switch) on then (false, s)
  else (true, set_config (with_risk_kill on s.(st_config)) (set_kill_flag on s)).

Definition apply_remote_halted (on : bool) (s : AppState) : bool * AppState :=
  if Bool.eqb s.(st_halted) on then (false, s) else (true, set_halted on s).

Definition remote_flag_is_current (flag : text) (remote_updated : Z) (s : AppState) : bool :=
  match s.(st_flags_touched) !! flag with
  | Some touched => touched <? remote_updated
  | None => true
  end.

Definition apply_kill_or_halt (flag : text) (on : bool) (s : AppState) : bool * AppState :=
  if decide (flag = KILL_FLAG) then apply_remote_kill on s else apply_remote_halted on s.

(** One row of [apply_flag_sync]. *)
Definition sync_flag (now : Z) (acc : FlagSyncReport * AppState) (f : RuntimeFlag)
    : FlagSyncReport * AppState :=
  let '(rep, s) := acc in
  let stale := mkFlagSyncReport rep.(fs_kill_changed) rep.(fs_modules_changed)
                 (rep.(fs_skipped_stale) + 1) in
  if decide (f.(rf_flag) = KILL_FLAG \/ f.(rf_flag) = HALT_FLAG) then
    if f.(rf_enabled) || remote_flag_is_current f.(rf_flag) f.(rf_updated_at) s then
      let r := apply_kill_or_halt f.(rf_flag) f.(rf_enabled) s in
      (mkFlagSyncReport (rep.(fs_kill_changed) || r.1) rep.(fs_modules_changed)
         rep.(fs_skipped_stale), r.2)
    else (stale, s)
  else
    match strip_prefix MODULE_PREFIX f.(rf_flag) ≫= BotModule_parse with
    | Some m =>
        if remote_flag_is_current f.(rf_flag) f.(rf_updated_at) s then
          let r := apply_remote_enabled now m f.(rf_enabled) s in
          if r.1 then (mkFlagSyncReport rep.(fs_kill_changed) (rep.(fs_modules_changed) + 1)
                         rep.(fs_skipped_stale), r.2)
          else (stale, r.2)
        else (stale, s)
    | None => (rep, s)
    end.

Definition apply_flag_sync (now : Z) (flags : list RuntimeFlag) (s : AppState)
    : FlagSyncReport * AppState :=
  fold_left (sync_flag now) flags (FlagSyncReport_default, s).

(** ** What may be sent *)

(** Under the kill switch live trading is only simulated. *)
Definition execution_mode (s : AppState) : ExecutionMode :=
  if kill_switch s && ExecutionMode_is_live s.(st_config).(cf_mode) then Simulate
  else s.(st_config).(cf_mode).

Inductive BroadcastRefusal : Type := RefusedByKillSwitch | BroadcastingDisabled.

Definition may_broadcast (s : AppState) : outcome BroadcastRefusal unit :=
  reject_if (kill_switch s) RefusedByKillSwitch ;;
  reject_if (negb (live_allowed s.(st_config))) BroadcastingDisabled.

(** * Positions *)

Definition upsert_position (p : Position) (s : AppState) : AppState :=
  set_positions (<[p.(p_id) := p]> s.(st_positions))
    (match s.(st_positions) !! p.(p_id) with
     | Some _ => s.(st_position_order)
     | None => s.(st_position_order) ++ [p.(p_id)]
     end) s.

(** [restore_positions]: how many were new. *)
Definition restore_positions (ps : list Position) (s : AppState) : nat * AppState :=
  fold_left (fun (acc : nat * AppState) p =>
    (match acc.2.(st_positions) !! p.(p_id) with Some _ => acc.1 | None => S acc.1 end,
     upsert_position p acc.2)) ps (O, s).

Definition with_updated_at (now : Z) (p : Position) : Position :=
  {| p_id := p.(p_id); p_opened_at := p.(p_opened_at); p_updated_at := now;
     p_closed_at := p.(p_closed_at); p_source := p.(p_source); p_venue := p.(p_venue);
     p_mode := p.(p_mode); p_status := p.(p_status); p_symbol := p.(p_symbol);
     p_symbol_display := p.(p_symbol_display); p_quote_symbol := p.(p_quote_symbol);
     p_qty := p.(p_qty); p_avg_entry := p.(p_avg_entry); p_cost_basis := p.(p_cost_basis);
     p_realized_quote := p.(p_realized_quote); p_realized_pnl_quote := p.(p_realized_pnl_quote);
     p_realized_at := p.(p_realized_at); p_last_mark := p.(p_last_mark);
     p_stop_loss := p.(p_stop_loss); p_take_profit := p.(p_take_profit);
     p_trailing_stop := p.(p_trailing_stop); p_trailing_high_water := p.(p_trailing_high_water);
     p_max_hold_secs := p.(p_max_hold_secs); p_entry_signature := p.(p_entry_signature);
     p_exit_signature := p.(p_exit_signature); p_entry_latency_ms := p.(p_entry_latency_ms);
     p_copied_wallet := p.(p_copied_wallet); p_market_id := p.(p_market_id);
     p_outcome := p.(p_outcome); p_reason_closed := p.(p_reason_closed) |}.

Definition with_position (now : Z) (id : text) (f : Position -> Position) (s : AppState)
    : option Position * AppState :=
  match s.(st_positions) !! id with
  | Some p =>
      let p' := with_updated_at now (f p) in
      (Some p', set_positions (<[id := p']> s.(st_positions)) s.(st_position_order) s)
  | None => (None, s)
  end.

Definition still_held (status : PositionStatus) : bool :=
  match status with PosOpen | PosClosing => true | _ => false end.

(** [merge_positions]: what was inserted and what was refreshed. *)
Definition merge_position (acc : nat * nat * AppState) (p : Position) : nat * nat * AppState :=
  let '((inserted, refreshed), s) := acc in
  match s.(st_positions) !! p.(p_id) with
  | None => ((S inserted, refreshed), upsert_position p s)
  | Some local =>
      if (local.(p_updated_at) <? p.(p_updated_at)) && still_held local.(p_status)
      then ((inserted, S refreshed), upsert_position p s) else acc
  end.

Definition merge_positions (rows : list Position) (s : AppState) : nat * nat * AppState :=
  fold_left merge_position rows ((O, O), s).

Definition source_of (m : BotModule) : option TradeSource :=
  match m with
  | Sniper => Some SrcSniper
  | Copy => Some SrcCopy
  | Polymarket => Some SrcPolymarket
  | Contract | Telegram => None
  end.

Section Iteration.
Context `{HashOrder}.

(** Newest first, then whatever the order list misses. *)
Definition all_positions (s : AppState) : list Position :=
  omap (fun id => s.(st_positions) !! id) (reverse s.(st_position_order)) ++
  map snd (filter (fun kp => kp.1 ∉ s.(st_position_order)) (hash_iter s.(st_positions))).

Definition open_positions (s : AppState) : list Position :=
  filter (fun p => PositionStatus_is_terminal p.(p_status) = false) (all_positions s).

Definition open_positions_for (m : BotModule) (s : AppState) : list Position :=
  match source_of m with
  | Some src => filter (fun p => p.(p_source) = src) (open_positions s)
  | None => []
  end.

Definition find_open (m : BotModule) (symbol : text) (s : AppState) : option Position :=
  src ← source_of m;
  snd <$> list_find (fun p => PositionStatus_is_terminal p.(p_status) = false
                              /\ p.(p_source) = src /\ p.(p_symbol) = symbol)
                    (map snd (hash_iter s.(st_positions))).

(** Exposure of one position: cost or marked value, whichever is larger. *)
Definition position_exposure (p : Position) : f64 := fmax p.(p_cost_basis) (notional p).

Definition open_exposure (m : BotModule) (s : AppState) : f64 :=
  fsum (map position_exposure (open_positions_for m s)).

(** The mark of a symbol is the mark of its latest open position; of positions
    updated at the same instant the one met last wins. *)
Definition mark_position (acc : gmap text (Z * f64)) (p : Position) : gmap text (Z * f64) :=
  if PositionStatus_is_terminal p.(p_status)
     || negb (is_finite p.(p_last_mark) && fltb fzero p.(p_last_mark)) then acc
  else
    match acc !! p.(p_symbol) with
    | Some (at_, _) =>
        if at_ <=? p.(p_updated_at)
        then <[p.(p_symbol) := (p.(p_updated_at), p.(p_last_mark))]> acc else acc
    | None => <[p.(p_symbol) := (p.(p_updated_at), p.(p_last_mark))]> acc
    end.

Definition marks (s : AppState) : gmap text f64 :=
  snd <$> fold_left mark_position (map snd (hash_iter s.(st_positions))) ∅.

(** ** Closing, and the cooldown clocks *)

Definition close_position (now : Z) (id : text) (status : PositionStatus) (reason : text)
    (s : AppState) : option Position * AppState :=
  match s.(st_positions) !! id with
  | None => (None, s)
  | Some p =>
      let p' := Position_close now status reason p in
      let s := set_positions (<[id := p']> s.(st_positions)) s.(st_position_order) s in
      let c := s.(st_config) in
      (Some p',
       set_last_exit_at
         (prune_timestamps now c.(cf_risk).(rc_reentry_cooldown_secs) c.(cf_max_dedup_entries)
            (<[p'.(p_symbol) := now]> s.(st_last_exit_at))) s)
  end.

(** The longest cooldown an entry attempt can still matter for. *)
Definition entry_attempt_ttl (s : AppState) : Z :=
  let r := s.(st_config).(cf_risk) in
  Z.max (Z.max r.(rc_sniper_token_cooldown_secs) r.(rc_sniper_failed_entry_cooldown_secs))
    r.(rc_copy_failed_entry_cooldown_secs).

Definition note_entry_attempt (now : Z) (symbol : text) (s : AppState) : AppState :=
  set_last_entry_attempt_at
    (prune_timestamps now (entry_attempt_ttl s) s.(st_config).(cf_max_dedup_entries)
       (<[symbol := now]> s.(st_last_entry_attempt_at))) s.

Definition note_failed_entry (now : Z) (symbol : text) (s : AppState) : AppState :=
  set_last_failed_entry_at
    (prune_timestamps now (entry_attempt_ttl s) s.(st_config).(cf_max_dedup_entries)
       (<[symbol := now]> s.(st_last_failed_entry_at))) s.

Definition copied_key (wallet mint : text) : text := wallet ++ lit ":" ++ mint.

Definition mark_copied (now : Z) (wallet mint : text) (s : AppState) : AppState :=
  let c := s.(st_config) in
  set_last_copy_at
    (prune_timestamps now c.(cf_risk).(rc_copy_cooldown_secs) c.(cf_max_dedup_entries)
       (<[copied_key wallet mint := now]> s.(st_last_copy_at))) s.
End Iteration.

(** A cooldown of [cooldown] seconds has run since the instant on record. *)
Definition cooled_down (now cooldown : Z) (at_ : option Z) : bool :=
  if cooldown <=? 0 then true
  else match at_ with None => true | Some t => cooldown <=? num_seconds (now - t) end.

Definition reentry_allowed (now : Z) (symbol : text) (s : AppState) : bool :=
  cooled_down now s.(st_config).(cf_risk).(rc_reentry_cooldown_secs) (s.(st_last_exit_at) !! symbol).

Definition copy_allowed (now : Z) (wallet mint : text) (s : AppState) : bool :=
  cooled_down now s.(st_config).(cf_risk).(rc_copy_cooldown_secs)
    (s.(st_last_copy_at) !! copied_key wallet mint).

(** ** First arrivals, and local ids *)

Definition mark_launch_seen (mint : text) (s : AppState) : bool * AppState :=
  let r := bounded_insert mint s.(st_config).(cf_max_dedup_entries) s.(st_seen_launches) in
  (r.1, set_seen_launches r.2 s).

Definition mark_signature_seen (sig : text) (s : AppState) : bool * AppState :=
  let r := bounded_insert sig s.(st_config).(cf_max_dedup_entries) s.(st_seen_signatures) in
  (r.1, set_seen_signatures r.2 s).

Definition forget_signature (sig : text) (s : AppState) : AppState :=
  set_seen_signatures (bounded_remove sig s.(st_seen_signatures)).2 s.

Definition mark_copy_event_seen (key : text) (s : AppState) : bool * AppState :=
  let r := bounded_insert key s.(st_config).(cf_max_dedup_entries) s.(st_seen_copy_events) in
  (r.1, set_seen_copy_events r.2 s).

Definition copy_event_seen (key : text) (s : AppState) : bool :=
  bounded_contains key s.(st_seen_copy_events).

(** [next_id]: [fetch_add] wraps. *)
Definition next_id (prefix : text) (s : AppState) : text * AppState :=
  (prefix ++ lit "-" ++ lit (pretty s.(st_counter)),
   set_counter ((s.(st_counter) + 1) mod (u64_max + 1)) s).

(** ** Symbols under reconciliation *)

Definition block_symbol (symbol : text) (s : AppState) : bool * AppState :=
  (negb (bool_decide (symbol ∈ s.(st_blocked_symbols))),
   set_blocked ({[symbol]} ∪ s.(st_blocked_symbols)) s).

Definition unblock_symbol (symbol : text) (s : AppState) : bool * AppState :=
  (bool_decide (symbol ∈ s.(st_blocked_symbols)),
   set_blocked (s.(st_blocked_symbols) ∖ {[symbol]}) s).

Definition set_blocked_symbols (symbols : list text) (s : AppState) : AppState :=
  set_blocked (list_to_set symbols) s.

(** * Trades and realized results *)

Section Days.
Context {libs : LedgerLibs}.

Definition today (now : Z) : text := format_day now.

Definition roll_day (now : Z) (d : DailyStats) : DailyStats :=
  if decide (d.(dl_day) = today now) then d else DailyStats_of (today now).

Definition bump (now : Z) (m : BotModule) (f : ModuleState -> ModuleState) (s : AppState) : AppState :=
  update_module m (fun st0 =>
    let st := f st0 in
    mkModuleState st.(md_module) st.(md_enabled) st.(md_running) st.(md_degraded)
      st.(md_connected) st.(md_last_heartbeat) (Some now) st.(md_started_at) st.(md_stopped_at)
      st.(md_events_seen) st.(md_signals_generated) st.(md_orders_sent) st.(md_orders_filled)
      st.(md_orders_failed) st.(md_orders_rejected_by_risk) st.(md_realized_pnl)
      st.(md_unrealized_pnl) st.(md_consecutive_errors) st.(md_last_error) st.(md_last_error_at)
      st.(md_detail)) s.

(** The six counters of a module. *)
Definition with_counts (events signals sent filled failed rejected : Z) (st : ModuleState)
    : ModuleState :=
  mkModuleState st.(md_module) st.(md_enabled) st.(md_running) st.(md_degraded) st.(md_connected)
    st.(md_last_heartbeat) st.(md_last_event) st.(md_started_at) st.(md_stopped_at)
    events signals sent filled failed rejected st.(md_realized_pnl) st.(md_unrealized_pnl)
    st.(md_consecutive_errors) st.(md_last_error) st.(md_last_error_at) st.(md_detail).

Definition incr (n : Z) : Z := saturating_add u64_max n 1.

Definition inc_events (now : Z) (m : BotModule) (n : Z) (s : AppState) : AppState :=
  bump now m (fun st => with_counts (saturating_add u64_max st.(md_events_seen) n)
    st.(md_signals_generated) st.(md_orders_sent) st.(md_orders_filled) st.(md_orders_failed)
    st.(md_orders_rejected_by_risk) st) s.

Definition inc_signals (now : Z) (m : BotModule) (s : AppState) : AppState :=
  bump now m (fun st => with_counts st.(md_events_seen) (incr st.(md_signals_generated))
    st.(md_orders_sent) st.(md_orders_filled) st.(md_orders_failed)
    st.(md_orders_rejected_by_risk) st) s.

Definition inc_orders_sent (now : Z) (m : BotModule) (s : AppState) : AppState :=
  bump now m (fun st => with_counts st.(md_events_seen) st.(md_signals_generated)
    (incr st.(md_orders_sent)) st.(md_orders_filled) st.(md_orders_failed)
    st.(md_orders_rejected_by_risk) st) s.

Definition inc_orders_failed (now : Z) (m : BotModule) (s : AppState) : AppState :=
  bump now m (fun st => with_counts st.(md_events_seen) st.(md_signals_generated)
    st.(md_orders_sent) st.(md_orders_filled) (incr st.(md_orders_failed))
    st.(md_orders_rejected_by_risk) st) s.

Definition inc_risk_rejected (now : Z) (m : BotModule) (s : AppState) : AppState :=
  bump now m (fun st => with_counts st.(md_events_seen) st.(md_signals_generated)
    st.(md_orders_sent) st.(md_orders_filled) st.(md_orders_failed)
    (incr st.(md_orders_rejected_by_risk)) st) s.

Definition with_orders_filled (n : Z) (st : ModuleState) : ModuleState :=
  with_counts st.(md_events_seen) st.(md_signals_generated) st.(md_orders_sent) n
    st.(md_orders_failed) st.(md_orders_rejected_by_risk) st.

Definition with_module_pnl (realized unrealized : f64) (st : ModuleState) : ModuleState :=
  mkModuleState st.(md_module) st.(md_enabled) st.(md_running) st.(md_degraded) st.(md_connected)
    st.(md_last_heartbeat) st.(md_last_event) st.(md_started_at) st.(md_stopped_at)
    st.(md_events_seen) st.(md_signals_generated) st.(md_orders_sent) st.(md_orders_filled)
    st.(md_orders_failed) st.(md_orders_rejected_by_risk) realized unrealized
    st.(md_consecutive_errors) st.(md_last_error) st.(md_last_error_at) st.(md_detail).

Definition set_unrealized (now : Z) (m : BotModule) (amount : f64) (s : AppState) : AppState :=
  bump now m (fun st => with_module_pnl st.(md_realized_pnl) amount st) s.

Definition record_trade (now : Z) (t : Trade) (s : AppState) : AppState :=
  let cap := Z.to_nat (Z.max s.(st_config).(cf_max_trades_in_memory) 64) in
  let trades := s.(st_trades) ++ [t] in
  let s := set_trades (drop (length trades - cap) trades) s in
  let d := roll_day now s.(st_daily) in
  let d := mkDailyStats d.(dl_day) d.(dl_realized_pnl) d.(dl_unrealized_pnl)
             (d.(dl_buys) + if is_buy t then 1 else 0) (d.(dl_sells) + if is_buy t then 0 else 1)
             d.(dl_wins) d.(dl_losses) d.(dl_loss_limit_tripped) d.(dl_loss_limit_tripped_at) in
  bump now (module_of_trade t.(t_source))
    (fun st => with_orders_filled (saturating_add u64_max st.(md_orders_filled) 1) st)
    (set_daily d s).

(** [*map.entry(m).or_insert(0.0) += amount]. *)
Definition add_to (m : BotModule) (amount : f64) (pnl : gmap BotModule f64) : gmap BotModule f64 :=
  <[m := fadd (default fzero (pnl !! m)) amount]> pnl.

Definition add_realized (now : Z) (m : BotModule) (amount : f64) (s : AppState) : AppState :=
  let s := set_realized_pnl (add_to m amount s.(st_realized_pnl)) s in
  let d := roll_day now s.(st_daily) in
  let d := mkDailyStats d.(dl_day) (fadd d.(dl_realized_pnl) amount) d.(dl_unrealized_pnl)
             d.(dl_buys) d.(dl_sells)
             (d.(dl_wins) + if fltb fzero amount then 1 else 0)
             (d.(dl_losses) + if fltb fzero amount then 0 else if fltb amount fzero then 1 else 0)
             d.(dl_loss_limit_tripped) d.(dl_loss_limit_tripped_at) in
  let s := set_daily d s in
  let per := s.(st_daily_module_pnl) in
  let per := if decide (per.1 = today now) then per else (today now, ∅) in
  let s := set_daily_module_pnl (per.1, add_to m amount per.2) s in
  bump now m (fun st => with_module_pnl (fadd st.(md_realized_pnl) amount) st.(md_unrealized_pnl) st) s.

Definition daily_realized (now : Z) (m : BotModule) (s : AppState) : f64 :=
  let per := s.(st_daily_module_pnl) in
  if decide (per.1 = today now) then default fzero (per.2 !! m) else fzero.

(** Whether this call is the one that trips the limit. *)
Definition mark_loss_limit_tripped (now : Z) (s : AppState) : bool * AppState :=
  let d := roll_day now s.(st_daily) in
  if d.(dl_loss_limit_tripped) then (false, set_daily d s)
  else
    (true, set_daily (mkDailyStats d.(dl_day) d.(dl_realized_pnl) d.(dl_unrealized_pnl)
       d.(dl_buys) d.(dl_sells) d.(dl_wins) d.(dl_losses) true (Some now)) s).

Definition clear_loss_limit (s : AppState) : AppState :=
  let d := s.(st_daily) in
  set_daily (mkDailyStats d.(dl_day) d.(dl_realized_pnl) d.(dl_unrealized_pnl) d.(dl_buys)
    d.(dl_sells) d.(dl_wins) d.(dl_losses) false None) s.

Definition daily_stats `{HashOrder} (now : Z) (s : AppState) : DailyStats :=
  let d := roll_day now s.(st_daily) in
  mkDailyStats d.(dl_day) d.(dl_realized_pnl) (fsum (map unrealised (open_positions s)))
    d.(dl_buys) d.(dl_sells) d.(dl_wins) d.(dl_losses) d.(dl_loss_limit_tripped)
    d.(dl_loss_limit_tripped_at).

(** [AppState::new]. *)
Definition initial_module (c : BotConfig) (m : BotModule) : ModuleState :=
  let st := ModuleState_new m in
  mkModuleState m
    (match m with
     | Sniper => c.(cf_sniper_enabled)
     | Copy => c.(cf_copy_enabled)
     | Polymarket => c.(cf_polymarket_enabled)
     | Contract => is_some c.(cf_contract_program_id)
     | Telegram => c.(cf_telegram_enabled)
     end) st.(md_running) st.(md_degraded) st.(md_connected) st.(md_last_heartbeat)
    st.(md_last_event) st.(md_started_at) st.(md_stopped_at) st.(md_events_seen)
    st.(md_signals_generated) st.(md_orders_sent) st.(md_orders_filled) st.(md_orders_failed)
    st.(md_orders_rejected_by_risk) st.(md_realized_pnl) st.(md_unrealized_pnl)
    st.(md_consecutive_errors) st.(md_last_error) st.(md_last_error_at) st.(md_detail).

Definition AppState_new (now : Z) (replica : text) (writer : bool) (c : BotConfig) : AppState :=
  mkAppState c (list_to_map (map (fun m => (m, initial_module c m)) BotModule_ALL)) ∅ [] []
    c.(cf_risk).(rc_kill_switch) false ∅ (DailyStats_of (today now)) ∅ ∅ ∅ ∅ (today now, ∅) ∅
    replica ∅ writer [] BoundedSet_default BoundedSet_default BoundedSet_default 1.
End Days.

(** * A concrete instance for the runs that show the risk theorems are about
    something: a digest that reads the reference back to front, days counted
    from the epoch, maps iterated in the order of their keys, a configuration
    and a state with one open position. *)

#[export] Instance demo_risk_libs : LedgerLibs := {|
  sha256_hex := fun s => reverse s;
  format_day := fun t => lit (pretty (t / (86400 * SECOND)));
  datetime_max := 8210266876799999999999;
|}.

#[export] Instance demo_order : HashOrder := map_order.
#[export] Instance demo_order_laws : HashOrderLaws := map_order_laws.

Definition demo_config : BotConfig :=
  mkBotConfig RiskConfig_default GlobalRiskConfig_default Live true true true true false None true
    1000 4096.

Definition demo_position : Position :=
  let p := Position_new 5 (lit "p-1") SrcSniper PumpFun Live (lit "MINT") (lit "MINT") (lit "SOL") in
  {| p_id := p.(p_id); p_opened_at := p.(p_opened_at); p_updated_at := p.(p_updated_at);
     p_closed_at := p.(p_closed_at); p_source := p.(p_source); p_venue := p.(p_venue);
     p_mode := p.(p_mode); p_status := PosOpen; p_symbol := p.(p_symbol);
     p_symbol_display := p.(p_symbol_display); p_quote_symbol := p.(p_quote_symbol);
     p_qty := f_of_Z 100; p_avg_entry := f_lit 1 1000; p_cost_basis := f_lit 1 10;
     p_realized_quote := p.(p_realized_quote); p_realized_pnl_quote := p.(p_realized_pnl_quote);
     p_realized_at := p.(p_realized_at); p_last_mark := f_lit 2 1000;
     p_stop_loss := p.(p_stop_loss); p_take_profit := p.(p_take_profit);
     p_trailing_stop := p.(p_trailing_stop); p_trailing_high_water := p.(p_trailing_high_water);
     p_max_hold_secs := p.(p_max_hold_secs); p_entry_signature := p.(p_entry_signature);
     p_exit_signature := p.(p_exit_signature); p_entry_latency_ms := p.(p_entry_latency_ms);
     p_copied_wallet := p.(p_copied_wallet); p_market_id := p.(p_market_id);
     p_outcome := p.(p_outcome); p_reason_closed := p.(p_reason_closed) |}.

Definition demo_closed : Position := Position_close 7 PosClosed (lit "sold") demo_position.

(** A replica that publishes its switches. *)
Definition demo_replica : AppState := AppState_new 1 (lit "r1") true demo_config.

Definition demo_holding : AppState := upsert_position demo_position demo_replica.
