(* ===== verification/AppStateCorrect.v ===== *)
(** What the shared state guarantees: every position it holds is seen, a stop
    that one replica publishes holds on every replica that reads it, a merge
    never brings back a closed position, the membership set stays within its
    bound, and a cooldown clock keeps what still gates. *)
From stdpp Require Import prelude countable gmap strings sorting.
From Stdlib Require Import ZArith Lia SpecFloat.
From S2P Require Import Prelude.
From S2P Require Import Text.
From S2P Require Import Float64.
From S2P Require Import Models.
From S2P Require Import BotConfig.
From S2P Require Import Ownership.
From S2P Require Import LedgerEvent.
From S2P Require Import AppState.

#[local] Open Scope Z_scope.

(** * Positions *)

Section Positions.
Context `{HashOrder} `{!HashOrderLaws}.

Lemma elem_of_hash_iter {K} `{Countable K} {V} (m : gmap K V) k v :
  (k, v) ∈ hash_iter m <-> m !! k = Some v.
Proof. rewrite (hash_iter_perm m). apply elem_of_map_to_list. Qed.

Lemma elem_of_values {K} `{Countable K} {V} (m : gmap K V) v :
  v ∈ map snd (hash_iter m) <-> exists k, m !! k = Some v.
Proof.
  change (map snd (hash_iter m)) with (snd <$> hash_iter m). rewrite list_elem_of_fmap. split.
  - intros ([k v'] & -> & Hin). exists k. by apply elem_of_hash_iter.
  - intros (k & Hk). exists (k, v). split; [done|]. by apply elem_of_hash_iter.
Qed.

(** The list of all positions is the values of the map. *)
Lemma elem_of_all_positions s p :
  p ∈ all_positions s <-> exists id, s.(st_positions) !! id = Some p.
Proof.
  unfold all_positions. rewrite elem_of_app, list_elem_of_omap.
  change (map snd ?l) with (snd <$> l). rewrite list_elem_of_fmap. split.
  - intros [(id & _ & Hid)|([id q] & -> & [_ Hin]%list_elem_of_filter)]; [eauto|].
    exists id. by apply elem_of_hash_iter.
  - intros (id & Hid). destruct (decide (id ∈ s.(st_position_order))) as [Hin|Hin].
    + left. exists id. split; [by apply elem_of_reverse|done].
    + right. exists (id, p). split; [done|]. apply list_elem_of_filter.
      split; [done|]. by apply elem_of_hash_iter.
Qed.

Lemma elem_of_open_positions_for m s p :
  p ∈ open_positions_for m s <->
    source_of m = Some p.(p_source) /\ PositionStatus_is_terminal p.(p_status) = false
    /\ exists id, s.(st_positions) !! id = Some p.
Proof.
  unfold open_positions_for. destruct (source_of m) as [src|].
  - rewrite list_elem_of_filter. unfold open_positions. rewrite list_elem_of_filter, elem_of_all_positions.
    naive_solver.
  - split; [by intros Hin%not_elem_of_nil|by intros [? _]].
Qed.
End Positions.

(** * The order list *)

(** Every position is listed once. *)
Record order_inv (s : AppState) : Prop := mkOrderInv {
  order_nodup : NoDup s.(st_position_order);
  order_complete : forall id, id ∈ s.(st_position_order) <-> is_Some (s.(st_positions) !! id);
}.

Lemma order_inv_upsert p s : order_inv s -> order_inv (upsert_position p s).
Proof.
  intros [Hn Hc]. unfold upsert_position. destruct s as [a b ps order e f g h i j k l n o q r t u v].
  cbn in *. split; cbn.
  - destruct (ps !! p_id p) eqn:Hp; [done|]. apply NoDup_app. split; [done|]. split.
    + intros id Hin ->%list_elem_of_singleton. apply Hc in Hin as [? ?]. congruence.
    + apply NoDup_singleton.
  - intros id. rewrite lookup_insert_is_Some'. destruct (ps !! p_id p) eqn:Hp.
    + rewrite Hc. split; [by right|]. intros [<-|?]; [eauto|done].
    + rewrite elem_of_app, list_elem_of_singleton, Hc. intuition congruence.
Qed.

(** merging the positions of other replicas never brings one back.  A local
    position that is closed or failed stays exactly as it is whatever the rows
    say; one that is held is either kept or replaced by a row that was updated
    later; and the order list still names every position once. *)
Theorem merge_never_resurrects rows s
  (Hinv : order_inv s) :
  let s' := (merge_positions rows s).2 in
  order_inv s'
  /\ (forall id p, s.(st_positions) !! id = Some p -> p.(p_id) = id ->
       exists p', s'.(st_positions) !! id = Some p' /\ p.(p_updated_at) <= p'.(p_updated_at)
         /\ (p' = p \/ (p' ∈ rows /\ still_held p.(p_status) = true
                        /\ p.(p_updated_at) < p'.(p_updated_at)))).
Proof.
  cbn zeta. unfold merge_positions. generalize (O, O). intros n0.
  revert n0 s Hinv. induction rows as [|r rows IH]; intros n0 s Hinv; cbn [fold_left].
  - split; [done|]. intros id p Hp _. exists p. split; [done|split; [lia|by left]].
  - destruct n0 as [i n].
    assert (Hstep : exists n1 s1, merge_position ((i, n), s) r = (n1, s1) /\ order_inv s1
      /\ (forall id p, s.(st_positions) !! id = Some p -> p.(p_id) = id ->
          s1.(st_positions) !! id = Some p
          \/ (s1.(st_positions) !! id = Some r /\ r.(p_id) = id /\ still_held p.(p_status) = true
              /\ p.(p_updated_at) < r.(p_updated_at)))).
    { unfold merge_position. destruct (st_positions s !! p_id r) as [local|] eqn:Hl.
      - destruct ((p_updated_at local <? p_updated_at r) && still_held (p_status local)) eqn:Hc.
        + bool_to_prop. eexists _, _. split; [reflexivity|]. split; [by apply order_inv_upsert|].
          intros id p Hp Hid. destruct (decide (p_id r = id)) as [He|He].
          * right. rewrite He, Hp in Hl. injection Hl as <-. subst id. destruct s. cbn.
            by rewrite <- He, lookup_insert_eq.
          * left. destruct s. cbn in *. by rewrite lookup_insert_ne.
        + eexists _, _. split; [reflexivity|]. split; [done|]. auto.
      - eexists _, _. split; [reflexivity|]. split; [by apply order_inv_upsert|].
        intros id p Hp Hid. left. destruct s. cbn in *. rewrite lookup_insert_ne; congruence. }
    destruct Hstep as (n1 & s1 & -> & Hinv1 & Hs1). destruct (IH n1 s1 Hinv1) as [Hi Hall].
    split; [done|]. intros id p Hp Hid. destruct (Hs1 id p Hp Hid) as [Hp1|(Hp1 & Hr & Hh & Hlt)].
    + destruct (Hall id p Hp1 Hid) as (p' & Hp' & Hle & Hcase). exists p'.
      split; [done|split; [done|]]. destruct Hcase as [->|(? & ? & ?)]; [by left|right].
      split; [by apply elem_of_cons; right|done].
    + destruct (Hall id r Hp1 Hr) as (p' & Hp' & Hle & Hcase). exists p'.
      split; [done|split; [lia|]]. right. split; [|split; [done|lia]].
      apply elem_of_cons. destruct Hcase as [->|(? & ? & ?)]; [by left|by right].
Qed.

(** * Flags of other replicas *)

(** The other replicas' kill rows can only be overridden by a newer one. *)
Lemma sync_flag_touched now acc f :
  (sync_flag now acc f).2.(st_flags_touched) = acc.2.(st_flags_touched).
Proof.
  destruct acc as [rep s]. unfold sync_flag. cbn [snd].
  case_decide; [destruct (_ || _); [|done]|].
  - unfold apply_kill_or_halt, apply_remote_kill, apply_remote_halted.
    case_decide; [destruct (Bool.eqb (st_kill_switch s) _)|destruct (Bool.eqb (st_halted s) _)];
      by destruct s.
  - destruct (_ ≫= BotModule_parse) as [m|]; [|done]. destruct (remote_flag_is_current _ _ _); [|done].
    unfold apply_remote_enabled, set_enabled_local. cbn [fst snd].
    destruct (negb _); cbn [snd]; by destruct s.
Qed.

Lemma kill_flag_not_halt : KILL_FLAG <> HALT_FLAG.
Proof. by vm_compute. Qed.

(** Only a row of its own flag moves the kill switch. *)
Lemma sync_flag_kill now acc f :
  (sync_flag now acc f).2.(st_kill_switch) =
    if decide (f.(rf_flag) = KILL_FLAG
               /\ (f.(rf_enabled) || remote_flag_is_current KILL_FLAG f.(rf_updated_at) acc.2) = true)
    then f.(rf_enabled) else acc.2.(st_kill_switch).
Proof.
  destruct acc as [rep s]. unfold sync_flag. cbn [snd].
  destruct (decide (rf_flag f = KILL_FLAG)) as [Hk|Hk].
  - rewrite (decide_True (P := rf_flag f = KILL_FLAG \/ _)) by auto. rewrite Hk.
    destruct (rf_enabled f || remote_flag_is_current KILL_FLAG (rf_updated_at f) s) eqn:Hc.
    + rewrite (decide_True (P := _ /\ _)) by auto. unfold apply_kill_or_halt.
      rewrite decide_True by done. unfold apply_remote_kill. cbn [snd].
      destruct (Bool.eqb (st_kill_switch s) (rf_enabled f)) eqn:He; cbn [snd].
      * by apply Bool.eqb_prop in He.
      * by destruct s.
    + by rewrite (decide_False (P := _ /\ _)) by (intros [_ ?]; congruence).
  - rewrite (decide_False (P := rf_flag f = KILL_FLAG /\ _)) by (by intros [? _]).
    destruct (decide (rf_flag f = KILL_FLAG \/ rf_flag f = HALT_FLAG)) as [Hh|Hh].
    + destruct (_ || _); [|done]. unfold apply_kill_or_halt. rewrite decide_False by done.
      unfold apply_remote_halted. destruct (Bool.eqb _ _); by destruct s.
    + destruct (_ ≫= BotModule_parse) as [m|]; [|done].
      destruct (remote_flag_is_current _ _ _); [|done].
      unfold apply_remote_enabled, set_enabled_local. cbn [fst snd].
      destruct (negb _); cbn [snd]; by destruct s.
Qed.

(** a stale row never lifts the kill switch.  However many rows of other
    replicas are applied, in whatever order, the switch stays on as long as every
    row that would switch it off is no newer than this replica's own last
    decision about it; and one row that switches it on is enough, however old. *)
Theorem kill_switch_survives_sync now rows t
  (Hoff : Forall (fun f => f.(rf_flag) = KILL_FLAG -> f.(rf_enabled) = false ->
            remote_flag_is_current KILL_FLAG f.(rf_updated_at) t = false) rows)
  (Hon : t.(st_kill_switch) = true
         \/ Exists (fun f => f.(rf_flag) = KILL_FLAG /\ f.(rf_enabled) = true) rows) :
  let t' := (apply_flag_sync now rows t).2 in
  kill_switch t' = true /\ may_broadcast t' = Err RefusedByKillSwitch
  /\ ExecutionMode_is_live (execution_mode t') = false.
Proof.
  cbn zeta. assert (Hk : (apply_flag_sync now rows t).2.(st_kill_switch) = true).
  { unfold apply_flag_sync. change t with (FlagSyncReport_default, t).2 in Hoff, Hon.
    revert Hoff Hon. generalize (FlagSyncReport_default, t). clear t.
    induction rows as [|f rows IH]; intros acc Hoff Hon; cbn [fold_left].
    - destruct Hon as [?|Hon]; [done|by inversion Hon].
    - apply Forall_cons in Hoff as [Hf Hoff]. apply IH.
      + eapply Forall_impl; [exact Hoff|]. intros f' Hf' H1 H2. unfold remote_flag_is_current in *.
        rewrite sync_flag_touched. by apply Hf'.
      + rewrite sync_flag_kill. case_decide as Hd.
        * destruct Hd as [Hfl Hcur]. destruct (rf_enabled f) eqn:He; [by left|].
          by rewrite (Hf Hfl eq_refl) in Hcur.
        * destruct Hon as [Hon|Hon]; [by left|]. apply Exists_cons in Hon as [[Hfl He]|Hon]; [|by right].
          destruct Hd. by rewrite He. }
  assert (Hks : kill_switch (apply_flag_sync now rows t).2 = true) by (unfold kill_switch; by rewrite Hk).
  split; [done|]. unfold may_broadcast, execution_mode. rewrite Hks. split; [done|].
  cbn [andb]. generalize (cf_mode (st_config (apply_flag_sync now rows t).2)). by intros [].
Qed.

(** * An emergency stop *)

Lemma module_flag_parse m : strip_prefix MODULE_PREFIX (module_flag m) ≫= BotModule_parse = Some m.
Proof. destruct m; vm_compute; reflexivity. Qed.

Lemma module_flag_fresh m : module_flag m <> KILL_FLAG /\ module_flag m <> HALT_FLAG.
Proof. destruct m; split; vm_compute; discriminate. Qed.

Lemma sync_module_row now acc f m :
  f.(rf_flag) = module_flag m -> remote_flag_is_current (module_flag m) f.(rf_updated_at) acc.2 = true ->
  (sync_flag now acc f).2 = (set_enabled_local now m f.(rf_enabled) acc.2).2.
Proof.
  intros Hf Hc. destruct acc as [rep s]. unfold sync_flag. cbn [snd] in *.
  destruct (module_flag_fresh m). rewrite Hf, decide_False by (intros [?|?]; congruence).
  rewrite module_flag_parse, Hc. unfold apply_remote_enabled. cbn [fst snd]. by destruct (negb _).
Qed.

Lemma is_enabled_set_local now m on m' s :
  is_enabled m' (set_enabled_local now m on s).2 = if decide (m = m') then on else is_enabled m' s.
Proof.
  unfold set_enabled_local, is_enabled. destruct s. cbn. case_decide as Hm.
  - subst. rewrite lookup_insert_eq. by destruct on.
  - by rewrite lookup_insert_ne.
Qed.

Lemma set_local_switches now m on s :
  (set_enabled_local now m on s).2.(st_kill_switch) = s.(st_kill_switch)
  /\ (set_enabled_local now m on s).2.(st_halted) = s.(st_halted)
  /\ (set_enabled_local now m on s).2.(st_flags_touched) = s.(st_flags_touched).
Proof. unfold set_enabled_local. by destruct s. Qed.

(** A module row, seen from the switches. *)
Definition stopped (done_ : list BotModule) (s : AppState) : Prop :=
  s.(st_kill_switch) = true /\ s.(st_halted) = true
  /\ forall m, m ∈ done_ -> is_enabled m s = false.

Lemma stopped_module_row now acc f m ms :
  f.(rf_flag) = module_flag m -> f.(rf_enabled) = false ->
  remote_flag_is_current (module_flag m) f.(rf_updated_at) acc.2 = true ->
  stopped ms acc.2 -> stopped (m :: ms) (sync_flag now acc f).2.
Proof.
  intros Hf Hon Hc (Hk & Hh & Hms). rewrite (sync_module_row now acc f m) by done. rewrite Hon.
  unfold stopped. destruct (set_local_switches now m false acc.2) as (-> & -> & _).
  split; [done|split; [done|]]. intros m' Hin. rewrite is_enabled_set_local.
  case_decide; [done|]. apply elem_of_cons in Hin as [->|Hin]; [done|by apply Hms].
Qed.

(** The rows an emergency stop publishes. *)
Definition stop_rows (now : Z) (reason : text) (replica : text) : list RuntimeFlag :=
  map (fun flag_on => mkRuntimeFlag flag_on.1 flag_on.2 reason replica now)
    ((KILL_FLAG, true) :: (HALT_FLAG, true) :: map (fun m => (module_flag m, false)) BotModule_TRADING).

Lemma emergency_stop_publishes now reason s :
  s.(st_flags_writer) = true ->
  (emergency_stop now reason s).(st_published) =
    s.(st_published) ++ stop_rows now reason s.(st_replica_id).
Proof. intros Hw. destruct s. cbn in *. rewrite Hw. cbn. by rewrite <- !app_assoc. Qed.

Lemma emergency_stop_local now reason s : stopped BotModule_TRADING (emergency_stop now reason s).
Proof.
  destruct s as [a mods]. split; [done|split; [done|]]. intros m Hin.
  change (match foldr (fun m => alter (stopped_module reason) m) mods BotModule_TRADING !! m with
          | Some st => md_enabled st | None => false end = false).
  assert (Hg : forall ms, m ∈ ms ->
    match foldr (fun m => alter (stopped_module reason) m) mods ms !! m with
    | Some st => md_enabled st | None => false end = false).
  { intros ms. induction ms as [|x ms IH]; intros Hx; [by apply not_elem_of_nil in Hx|]. cbn.
    destruct (decide (x = m)) as [->|Hne].
    - rewrite lookup_alter_eq. by destruct (_ !! m).
    - rewrite lookup_alter_ne by done. apply elem_of_cons in Hx as [->|Hx]; [done|by apply IH]. }
  by apply Hg.
Qed.

(** an emergency stop on one replica stops them all.  The replica that stops
    has its kill switch and its halt on and no trading module enabled, and the
    rows it hands to the shared store bring any other replica that applies them
    to the same state, whatever that replica's state was, provided it has not
    itself switched a trading module since. *)
Theorem emergency_stop_everywhere now reason s t now'
  (Hw : s.(st_flags_writer) = true)
  (Hcur : forall m, m ∈ BotModule_TRADING -> remote_flag_is_current (module_flag m) now t = true) :
  let s' := emergency_stop now reason s in
  exists rows, s'.(st_published) = s.(st_published) ++ rows
    /\ Forall (fun x => kill_switch x = true /\ may_broadcast x = Err RefusedByKillSwitch
                /\ forall m, m ∈ BotModule_TRADING -> is_enabled m x = false)
         [s'; (apply_flag_sync now' rows t).2].
Proof.
  intros s'. exists (stop_rows now reason s.(st_replica_id)).
  split; [by apply emergency_stop_publishes|].
  assert (Hst : forall x, stopped BotModule_TRADING x -> kill_switch x = true
    /\ may_broadcast x = Err RefusedByKillSwitch
    /\ forall m, m ∈ BotModule_TRADING -> is_enabled m x = false).
  { intros x (Hk & _ & Hm). assert (kill_switch x = true) as Hks by (unfold kill_switch; by rewrite Hk).
    split; [done|]. unfold may_broadcast. rewrite Hks. done. }
  apply Forall_cons. split; [apply Hst, emergency_stop_local|].
  apply Forall_cons. split; [apply Hst|apply Forall_nil_2].
  unfold apply_flag_sync, stop_rows. cbn [map fold_left].
  set (r0 := sync_flag now' (FlagSyncReport_default, t) _). set (r1 := sync_flag now' r0 _).
  assert (H0 : r0.2.(st_kill_switch) = true).
  { unfold r0. rewrite sync_flag_kill. cbn [rf_flag rf_enabled]. by rewrite decide_True. }
  assert (H1 : stopped [] r1.2).
  { split; [|split; [|by intros m Hin%not_elem_of_nil]].
    - unfold r1. rewrite sync_flag_kill, decide_False; [done|]. by intros [Hx%eq_sym%kill_flag_not_halt _].
    - unfold r1, sync_flag. destruct r0 as [rep x]. cbn [rf_flag rf_enabled].
      rewrite decide_True by auto. cbn [orb]. unfold apply_kill_or_halt.
      rewrite decide_False by (intros Hx%eq_sym; by apply kill_flag_not_halt).
      unfold apply_remote_halted. cbn [snd]. destruct (st_halted x) eqn:Hh; cbn [Bool.eqb snd]; [done|].
      by destruct x. }
  assert (Ht : forall m, m ∈ BotModule_TRADING -> forall acc : FlagSyncReport * AppState,
    acc.2.(st_flags_touched) = t.(st_flags_touched) ->
    remote_flag_is_current (module_flag m) now acc.2 = true).
  { intros m Hin acc Ha. unfold remote_flag_is_current. rewrite Ha. by apply Hcur. }
  assert (Hr1 : r1.2.(st_flags_touched) = t.(st_flags_touched)).
  { unfold r1, r0. by rewrite !sync_flag_touched. }
  assert (Hall : forall ms acc dn, (forall m, m ∈ ms -> m ∈ BotModule_TRADING) ->
    acc.2.(st_flags_touched) = t.(st_flags_touched) -> stopped dn acc.2 ->
    stopped (ms ++ dn)
      (fold_left (sync_flag now') (map (fun flag_on => mkRuntimeFlag flag_on.1 flag_on.2 reason
         s.(st_replica_id) now) (map (fun m => (module_flag m, false)) ms)) acc).2).
  { intros ms. induction ms as [|m ms IH]; intros acc dn Hms Ha Hd; [done|]. cbn [map fold_left].
    destruct (IH (sync_flag now' acc (mkRuntimeFlag (module_flag m) false reason s.(st_replica_id) now))
      (m :: dn)) as (Hk & Hh & Hm); [intros x Hx; apply Hms, elem_of_cons; by right|by rewrite sync_flag_touched| |].
    - apply stopped_module_row; [done|done| |done]. apply Ht; [|done]. apply Hms, elem_of_cons. by left.
    - split; [exact Hk|split; [exact Hh|]]. intros x Hx. apply Hm. clear - Hx. set_solver. }
  destruct (Hall BotModule_TRADING r1 [] ltac:(done) Hr1 H1) as (Hk & Hh & Hm).
  rewrite app_nil_r in Hm. by split; [|split].
Qed.

(** * The membership set *)

(** The queue names each member once, and is within [cap]. *)
Record bounded_inv (cap : Z) (s : BoundedSet) : Prop := mkBoundedInv {
  bounded_nodup : NoDup s.(bs_order);
  bounded_set : s.(bs_set) = list_to_set s.(bs_order);
  bounded_len : Z.of_nat (length s.(bs_order)) <= Z.max cap 1;
}.

Lemma evict_oldest_spec n s :
  NoDup s.(bs_order) -> s.(bs_set) = list_to_set s.(bs_order) ->
  let s' := evict_oldest n s in
  s'.(bs_order) = drop n s.(bs_order) /\ s'.(bs_set) = list_to_set s'.(bs_order).
Proof.
  revert s. induction n as [|n IH]; intros s Hn Hs; [by rewrite drop_0|].
  destruct s as [st [|x l]]; cbn in *; [done|].
  apply NoDup_cons in Hn as [Hx Hn].
  destruct (IH (mkBoundedSet (st ∖ {[x]}) l)) as [H1 H2]; cbn; [done| |done].
  rewrite Hs. set_solver.
Qed.

(** the membership set never grows past its bound and forgets its oldest
    members first.  Inserting keeps the invariant (the queue names each member
    once and is no longer than the bound), answers whether the key was new, and
    leaves the queue as the newest members with the key at its end; removing
    keeps the invariant and removes exactly the key. *)
Theorem bounded_set_ops key cap s
  (Hinv : bounded_inv cap s) :
  let ins := bounded_insert key cap s in
  let rem := bounded_remove key s in
  bounded_inv cap ins.2 /\ ins.1 = negb (bounded_contains key s) /\ bounded_contains key ins.2 = true
  /\ (ins.1 = true -> exists n, ins.2.(bs_order) = drop n s.(bs_order) ++ [key])
  /\ bounded_inv cap rem.2 /\ rem.1 = bounded_contains key s
  /\ (forall k, bounded_contains k rem.2 = bounded_contains k s && negb (bool_decide (k = key))).
Proof.
  destruct Hinv as [Hn Hs Hl]. destruct s as [st l]. cbn in *. subst st.
  unfold bounded_insert, bounded_remove, bounded_contains. cbn [bs_set bs_order].
  destruct (decide (key ∈ (list_to_set l : gset text))) as [Hin|Hin].
  - cbn. rewrite (bool_decide_eq_true_2 _ Hin).
    split; [done|split; [done|split; [done|split; [done|]]]].
    apply elem_of_list_to_set in Hin as Hin'.
    destruct (list_find (eq key) l) as [[i x]|] eqn:Hf.
    2:{ exfalso. apply list_find_None in Hf. rewrite Forall_forall in Hf. by apply (Hf key). }
    apply list_find_Some in Hf as (Hi & <- & _).
    assert (Hp : l ≡ₚ key :: delete i l) by (by apply delete_Permutation).
    assert (Hn' : NoDup (key :: delete i l)) by (by rewrite <- Hp). apply NoDup_cons in Hn' as [Hk Hn'].
    assert (Hmem : forall y, y ∈ l <-> y = key \/ y ∈ delete i l).
    { intros y. rewrite <- elem_of_cons. by rewrite <- Hp. }
    apply Permutation_length in Hp. cbn in Hp.
    split; [|split; [done|]].
    + split; cbn; [done| |].
      * apply set_eq. intros y. rewrite elem_of_difference, elem_of_singleton, !elem_of_list_to_set, Hmem.
        split; [tauto|]. intros Hy. split; [by right|]. by intros ->.
      * lia.
    + intros k. apply eq_true_iff_eq. rewrite andb_true_iff, negb_true_iff, !bool_decide_eq_true, bool_decide_eq_false.
      by rewrite elem_of_difference, elem_of_singleton.
  - rewrite (bool_decide_eq_false_2 _ Hin). cbn [fst snd].
    rewrite elem_of_list_to_set in Hin.
    assert (Hn1 : NoDup (l ++ [key])).
    { apply NoDup_app. split; [done|split; [|apply NoDup_singleton]].
      intros x Hx ->%list_elem_of_singleton. done. }
    set (n := (length (l ++ [key]) - Z.to_nat (Z.max cap 1))%nat).
    destruct (evict_oldest_spec n (mkBoundedSet ({[key]} ∪ list_to_set l) (l ++ [key])) Hn1) as [Ho Hset];
      [cbn; rewrite list_to_set_app_L; set_solver|]. cbn [bs_order] in Ho.
    assert (Hlen : (length (l ++ [key]) = length l + 1)%nat) by (rewrite length_app; cbn; lia).
    assert (Hdrop : drop n (l ++ [key]) = drop n l ++ [key]).
    { rewrite drop_app. replace (n - length l)%nat with O by lia. done. }
    split; [|split; [done|split; [|split; [|split; [done|split; [done|]]]]]].
    + split; [rewrite Ho; eapply sublist_NoDup; [exact Hn1|apply sublist_drop]|exact Hset|].
      rewrite Ho, length_drop. lia.
    + rewrite bool_decide_eq_true, Hset, Ho, Hdrop. set_solver.
    + intros _. exists n. by rewrite Ho.
    + intros k. apply eq_true_iff_eq. cbn [bs_set].
      rewrite andb_true_iff, negb_true_iff, !bool_decide_eq_true, bool_decide_eq_false, !elem_of_list_to_set.
      split; [intros Hk; split; [exact Hk|by intros ->]|by intros []].
Qed.

(** A member with at most [n] members after it. *)
Definition member_within (n : nat) (key : text) (s : BoundedSet) : Prop :=
  exists l1 l2, s.(bs_order) = l1 ++ key :: l2 /\ (length l2 <= n)%nat.

Lemma member_contained n key cap s : bounded_inv cap s -> member_within n key s -> bounded_contains key s = true.
Proof.
  intros [_ Hset _] (l1 & l2 & Ho & _). unfold bounded_contains. rewrite bool_decide_eq_true, Hset, Ho. set_solver.
Qed.

Lemma fresh_insert_last key cap s :
  bounded_inv cap s -> bounded_contains key s = false -> member_within 0 key (bounded_insert key cap s).2.
Proof.
  intros Hinv Hn. destruct (bounded_set_ops key cap s Hinv) as (_ & Hi & _ & Ho & _).
  rewrite Hn in Hi. destruct (Ho Hi) as [k Hk]. by exists (drop k s.(bs_order)), [].
Qed.

(** An insertion moves a member one place towards the end it is dropped from, and
    drops none that is not at the bound. *)
Lemma insert_keeps_member n key other cap s :
  bounded_inv cap s -> member_within n key s -> Z.of_nat (S n) < Z.max cap 1 ->
  member_within (S n) key (bounded_insert other cap s).2.
Proof.
  intros [Hnd Hset Hlen] (l1 & l2 & Ho & Hl2) Hn. unfold bounded_insert.
  destruct (decide (other ∈ bs_set s)) as [Hin|Hin]; cbn [snd]; [exists l1, l2; split; [done|lia]|].
  destruct s as [st l]. cbn [bs_set bs_order] in *. subst st l.
  set (order := l1 ++ key :: l2) in *. rewrite elem_of_list_to_set in Hin.
  destruct (evict_oldest_spec (length (order ++ [other]) - Z.to_nat (Z.max cap 1))
    (mkBoundedSet ({[other]} ∪ list_to_set order) (order ++ [other]))) as [Hd _]; cbn [bs_order bs_set].
  - apply NoDup_app. split_and!; [done|by intros x Hx ->%list_elem_of_singleton|apply NoDup_singleton].
  - rewrite list_to_set_app_L. set_solver.
  - cbn [bs_order] in Hd. unfold member_within. rewrite Hd.
    assert (Hk : (length (order ++ [other]) - Z.to_nat (Z.max cap 1) <= length l1)%nat).
    { unfold order in *. rewrite !length_app in *. cbn [length] in *. lia. }
    exists (drop (length (order ++ [other]) - Z.to_nat (Z.max cap 1)) l1), (l2 ++ [other]).
    unfold order at 2. rewrite <- app_assoc. rewrite drop_app_le by done. split; [done|].
    rewrite length_app. cbn. lia.
Qed.

(** * Cooldown clocks *)

Section Clocks.
Context `{HashOrder} `{!HashOrderLaws}.

Lemma num_seconds_old now t cd ttl :
  cd <= ttl -> 0 <= ttl -> t < now - ttl * SECOND -> cd <= num_seconds (now - t).
Proof.
  intros Hc Hz Ht. unfold num_seconds. etrans; [exact Hc|].
  apply Z.quot_le_lower_bound; [done|]. lia.
Qed.

(** pruning the cooldown clocks never opens a gate early.  The clocks that
    are left were there before and are no more than the bound; and as long as
    the clocks still within their time fit the bound, a cooldown of any length
    the clocks are kept for answers for every symbol exactly as it did before. *)
Theorem prune_keeps_gates now cooldown cap m :
  let m' := prune_timestamps now cooldown cap m in
  m' ⊆ m /\ Z.of_nat (size m') <= Z.max cap 1
  /\ ((size (filter (fun kv => (now - prune_ttl cooldown * SECOND <= kv.2)%Z) m) <= Z.to_nat (Z.max cap 1))%nat ->
      forall k cd, cd <= prune_ttl cooldown ->
        cooled_down now cd (m' !! k) = cooled_down now cd (m !! k)).
Proof.
  cbn zeta. unfold prune_timestamps.
  set (kept := filter (fun kv => now - prune_ttl cooldown * SECOND <= kv.2) m).
  set (n := Z.to_nat (Z.max cap 1)).
  set (sorted := merge_sort by_instant (hash_iter kept)).
  assert (Hperm : sorted ≡ₚ map_to_list kept).
  { unfold sorted. rewrite merge_sort_Permutation. apply hash_iter_perm. }
  assert (Hnd : NoDup sorted.*1).
  { rewrite Hperm. apply NoDup_fst_map_to_list. }
  assert (Hsub : kept ⊆ m) by (apply map_filter_subseteq).
  split; [|split].
  - case_decide; [|done]. etrans; [|exact Hsub]. apply map_subseteq_spec. intros k t Hk.
    apply elem_of_list_to_map_2 in Hk.
    apply elem_of_map_to_list. rewrite <- Hperm.
    rewrite <- (take_drop (size kept - n) sorted). apply elem_of_app. by right.
  - case_decide as Hc; [|lia]. rewrite map_size_list_to_map.
    + rewrite length_drop, Hperm, length_map_to_list. lia.
    + rewrite fmap_drop. eapply sublist_NoDup; [exact Hnd|apply sublist_drop].
  - intros Hfit k cd Hcd. rewrite decide_False by lia. unfold cooled_down.
    destruct (cd <=? 0); [done|].
    destruct (m !! k) as [t|] eqn:Hm.
    + destruct (decide (now - prune_ttl cooldown * SECOND <= t)) as [Hle|Hgt].
      * assert (kept !! k = Some t) as -> by (by apply map_lookup_filter_Some). done.
      * assert (kept !! k = None) as ->.
        { apply map_lookup_filter_None. right. intros t' Ht'. by simplify_eq. }
        symmetry. apply Z.leb_le. apply (num_seconds_old now t cd (prune_ttl cooldown)); [done| |lia].
        unfold prune_ttl. lia.
    + assert (kept !! k = None) as -> by (apply map_lookup_filter_None; auto). done.
Qed.
End Clocks.

(** * Concrete runs *)

Lemma demo_order_inv p : order_inv (upsert_position p demo_replica).
Proof.
  apply order_inv_upsert. split; [constructor|]. intros id. split.
  - by intros ?%not_elem_of_nil.
  - intros [? Hx]. change (st_positions demo_replica) with (∅ : gmap text Position) in Hx.
    by rewrite lookup_empty in Hx.
Qed.

Lemma merge_never_resurrects_witness :
  order_inv (upsert_position demo_closed demo_replica) /\
  exists p', (merge_positions [demo_position] (upsert_position demo_closed demo_replica)).2.(st_positions)
                !! lit "p-1" = Some p' /\ p'.(p_status) = PosClosed.
Proof.
  split; [apply demo_order_inv|].
  destruct (merge_never_resurrects [demo_position] (upsert_position demo_closed demo_replica)
    (demo_order_inv demo_closed)) as [_ Hall].
  destruct (Hall (lit "p-1") demo_closed) as (p' & Hp & _ & [->|(_ & Hh & _)]).
  - vm_compute. reflexivity.
  - vm_compute. reflexivity.
  - exists demo_closed. split; [exact Hp|reflexivity].
  - discriminate Hh.
Defined.

Definition demo_kill_row : RuntimeFlag := mkRuntimeFlag KILL_FLAG true (lit "ops") (lit "r2") 3.

Lemma kill_switch_survives_sync_witness :
  kill_switch demo_replica = false /\
  kill_switch (apply_flag_sync 9 [demo_kill_row] demo_replica).2 = true.
Proof.
  split; [vm_compute; reflexivity|].
  refine (proj1 (kill_switch_survives_sync 9 [demo_kill_row] demo_replica _ _)).
  - apply Forall_cons. split; [intros _ Hx; discriminate Hx|apply Forall_nil_2].
  - right. apply Exists_cons. left. split; reflexivity.
Defined.

Lemma emergency_stop_everywhere_witness :
  st_flags_writer demo_replica = true /\
  exists rows, (emergency_stop 4 (lit "panic") demo_replica).(st_published) = [] ++ rows
    /\ kill_switch (apply_flag_sync 9 rows demo_holding).2 = true.
Proof.
  split; [reflexivity|].
  destruct (emergency_stop_everywhere 4 (lit "panic") demo_replica demo_holding 9) as (rows & Hp & Hall).
  - reflexivity.
  - intros m _. vm_compute. reflexivity.
  - exists rows. split; [exact Hp|]. apply Forall_cons in Hall as [_ Hall].
    apply Forall_cons in Hall as [Hall _]. exact (proj1 Hall).
Defined.

Lemma bounded_set_ops_witness :
  bounded_inv 1 BoundedSet_default /\ bounded_inv 1 (bounded_insert (lit "a") 1 BoundedSet_default).2.
Proof.
  assert (Hinv : bounded_inv 1 BoundedSet_default).
  { split; [constructor|reflexivity|vm_compute; discriminate]. }
  split; [exact Hinv|]. exact (proj1 (bounded_set_ops (lit "a") 1 BoundedSet_default Hinv)).
Defined.

Lemma prune_keeps_gates_witness :
  prune_timestamps 100 600 1 {[lit "a" := 5]} ⊆ {[lit "a" := 5]}.
Proof. exact (proj1 (prune_keeps_gates (H0 := demo_order_laws) 100 600 1 {[lit "a" := 5]})). Defined.
