(* ===== verification/Dedup.v ===== *)
(** Restart-safe deduplication ([crates/core/src/dedup.rs]): the in-memory
    bounded set of every namespace in front of a shared window in Redis or
    Postgres.  The two backends are services: what the code asks of them is
    the class [KeyWindow], a failed call is [None].  The metrics are left
    out. *)
From stdpp Require Import prelude countable gmap strings.
From Stdlib Require Import ZArith Lia.
From S2P Require Import Prelude.
From S2P Require Import Text.
From S2P Require Import AppState.

#[local] Open Scope Z_scope.

Inductive DedupBackend : Type := BkMemory | BkRedis | BkPostgres.

#[export] Instance DedupBackend_eq_dec : EqDecision DedupBackend.
Proof. solve_decision. Defined.

Definition DedupBackend_as_str (b : DedupBackend) : text :=
  match b with
  | BkMemory => lit "memory"
  | BkRedis => lit "redis"
  | BkPostgres => lit "postgres"
  end.

Definition DedupBackend_parse (s : text) : DedupBackend :=
  if decide (s = lit "redis") then BkRedis
  else if decide (s = lit "postgres") then BkPostgres
  else BkMemory.

(** A shared set of keys: [SET NX PX], [INSERT .. ON CONFLICT DO NOTHING]. *)
Class KeyWindow (W : Type) : Type := {
  win_mark (now ttl : Z) (ns key : text) (w : W) : option bool * W;   (* created here? *)
  win_exists (now : Z) (ns key : text) (w : W) : option bool;
  win_forget (now : Z) (ns key : text) (w : W) : W;
}.

(** What the calls promise when they answer, in terms of the keys held. *)
Class KeyWindowLaws (W : Type) `{KeyWindow W} (held : text -> text -> W -> Prop) : Prop := {
  win_mark_created now ttl ns key w b w' :
    win_mark now ttl ns key w = (Some b, w') ->
    (b = true -> ~ held ns key w) /\ held ns key w' /\ (forall n k, held n k w -> held n k w');
  win_mark_again now ttl ns key w b w' :
    win_mark now ttl ns key w = (Some b, w') -> held ns key w -> b = false;
}.

Record DedupStore : Type := mkDedupStore {
  ds_backend : DedupBackend;
  ds_redis : bool;               (* the clients that were passed in *)
  ds_db : bool;
  ds_ttl : Z;
  ds_cap : Z;
  ds_l1 : gmap text BoundedSet;
}.

(** [DedupStore::new]: a backend without its client is the memory. *)
Definition DedupStore_new (backend : DedupBackend) (redis db : bool) (ttl cap : Z) : DedupStore :=
  mkDedupStore
    (match backend with
     | BkRedis => if redis then BkRedis else BkMemory
     | BkPostgres => if db then BkPostgres else BkMemory
     | BkMemory => BkMemory
     end) redis db ttl (Z.max cap 64) ∅.

Definition l1_of (ns : text) (d : DedupStore) : BoundedSet :=
  default BoundedSet_default (d.(ds_l1) !! ns).

Definition with_l1 (ns : text) (s : BoundedSet) (d : DedupStore) : DedupStore :=
  mkDedupStore d.(ds_backend) d.(ds_redis) d.(ds_db) d.(ds_ttl) d.(ds_cap)
    (<[ns := s]> d.(ds_l1)).

Section Store.
Context {R P : Type} `{KeyWindow R} `{KeyWindow P}.

Definition redis_ns : text := lit "dedup".

(** [redis_key]: the namespace is part of the key. *)
Definition redis_key (ns key : text) : text := redis_ns ++ lit ":" ++ ns ++ lit ":" ++ key.

(** A failed call keeps the verdict of the first layer. *)
Definition mark (now : Z) (ns key : text) (d : DedupStore) (r : R) (p : P)
    : bool * DedupStore * R * P :=
  let ins := bounded_insert key d.(ds_cap) (l1_of ns d) in
  let d := with_l1 ns ins.2 d in
  if negb ins.1 then (false, d, r, p)
  else
    match d.(ds_backend) with
    | BkMemory => (true, d, r, p)
    | BkRedis =>
        if d.(ds_redis) then
          let m := win_mark now d.(ds_ttl) [] (redis_key ns key) r in
          (default true m.1, d, m.2, p)
        else (true, d, r, p)
    | BkPostgres =>
        if d.(ds_db) then
          let m := win_mark now d.(ds_ttl) ns key p in
          (default true m.1, d, r, m.2)
        else (true, d, r, p)
    end.

Definition dedup_contains (now : Z) (ns key : text) (d : DedupStore) (r : R) (p : P) : bool :=
  match d.(ds_l1) !! ns with
  | Some s => bounded_contains key s
  | None => false
  end
  || match d.(ds_backend) with
     | BkMemory => false
     | BkRedis => d.(ds_redis) && default false (win_exists now [] (redis_key ns key) r)
     | BkPostgres => d.(ds_db) && default false (win_exists now ns key p)
     end.

Definition forget (now : Z) (ns key : text) (d : DedupStore) (r : R) (p : P)
    : DedupStore * R * P :=
  let d := match d.(ds_l1) !! ns with
           | Some s => with_l1 ns (bounded_remove key s).2 d
           | None => d
           end in
  match d.(ds_backend) with
  | BkMemory => (d, r, p)
  | BkRedis => (d, if d.(ds_redis) then win_forget now [] (redis_key ns key) r else r, p)
  | BkPostgres => (d, r, if d.(ds_db) then win_forget now ns key p else p)
  end.

Definition dedup_len (ns : text) (d : DedupStore) : nat :=
  match d.(ds_l1) !! ns with Some s => length s.(bs_order) | None => O end.
End Store.
