(* ===== verification/PortfolioView.v ===== *)
(** The portfolio view ([crates/core/src/accounting/view.rs]): exposure, results
    and fees of the book in reference units, per venue, wallet, strategy, asset
    and module, and what could not be converted.  Sums run in the order the maps
    are iterated in. *)
From stdpp Require Import prelude countable gmap strings sorting.
From Stdlib Require Import ZArith Lia SpecFloat.
From S2P Require Import Prelude.
From S2P Require Import Text.
From S2P Require Import Float64.
From S2P Require Import Models.
From S2P Require Import BotConfig.
From S2P Require Import LedgerEvent.
From S2P Require Import PositionBook.
From S2P Require Import Ledger.
From S2P Require Import AppState.

#[local] Open Scope Z_scope.

Record PortfolioInputs : Type := mkPortfolioInputs {
  pi_marks : gmap text f64;
  pi_rates : gmap text f64;
  pi_capital_base_ref : f64;
  pi_day : text;
}.

(** A rate that is not a positive number is no rate. *)
Definition rate (input : PortfolioInputs) (quote_asset : text) : option f64 :=
  usable_mark (input.(pi_rates) !! quote_asset).

Record ExposureSlice : Type := mkExposureSlice {
  es_exposure_ref : f64;
  es_unrealized_ref : f64;
  es_realized_ref : f64;
  es_fees_ref : f64;
  es_open_positions : Z;
}.

Definition ExposureSlice_default : ExposureSlice := mkExposureSlice fzero fzero fzero fzero 0.

Definition net_ref (s : ExposureSlice) : f64 :=
  fsub (fadd s.(es_realized_ref) s.(es_unrealized_ref)) s.(es_fees_ref).

Definition slice_add (a b : ExposureSlice) : ExposureSlice :=
  mkExposureSlice (fadd a.(es_exposure_ref) b.(es_exposure_ref))
    (fadd a.(es_unrealized_ref) b.(es_unrealized_ref))
    (fadd a.(es_realized_ref) b.(es_realized_ref)) (fadd a.(es_fees_ref) b.(es_fees_ref))
    (a.(es_open_positions) + b.(es_open_positions)).

Definition add_slice (k : text) (s : ExposureSlice) (m : gmap text ExposureSlice)
    : gmap text ExposureSlice :=
  <[k := slice_add (default ExposureSlice_default (m !! k)) s]> m.

Record NativeSlice : Type := mkNativeSlice {
  na_exposure : f64;
  na_unrealized : f64;
  na_realized : f64;
  na_fees : f64;
  na_realized_today : f64;
  na_open_positions : Z;
}.

Definition NativeSlice_default : NativeSlice :=
  mkNativeSlice fzero fzero fzero fzero fzero 0.

Record PortfolioView : Type := mkPortfolioView {
  pv_total_exposure_ref : f64;
  pv_realized_ref : f64;
  pv_unrealized_ref : f64;
  pv_fees_ref : f64;
  pv_net_pnl_ref : f64;
  pv_realized_today_ref : f64;
  pv_peak_realized_ref : f64;
  pv_cumulative_realized_ref : f64;
  pv_open_positions : Z;
  pv_capital_base_ref : f64;
  pv_utilization : f64;
  pv_by_venue : gmap text ExposureSlice;
  pv_by_wallet : gmap text ExposureSlice;
  pv_by_strategy : gmap text ExposureSlice;
  pv_by_asset : gmap text ExposureSlice;
  pv_by_module : gmap text ExposureSlice;
  pv_native : gmap text NativeSlice;
  pv_missing_rates : list text;
  pv_missing_daily_loss_rates : list text;
  pv_missing_drawdown_rates : list text;
}.

Definition PortfolioView_empty (capital : f64) : PortfolioView :=
  mkPortfolioView fzero fzero fzero fzero fzero fzero fzero fzero 0 capital fzero
    ∅ ∅ ∅ ∅ ∅ ∅ [] [] [].

(** [if !missing.contains(q) { missing.push(q) }]. *)
Definition note_missing (bad : bool) (q : text) (l : list text) : list text :=
  if bad && negb (bool_decide (q ∈ l)) then l ++ [q] else l.

Definition open_unit (p : BookPosition) : Z := if is_open p then 1 else 0.

Definition native_position (exposure unrealized : f64) (p : BookPosition) (n : NativeSlice)
    : NativeSlice :=
  mkNativeSlice (fadd n.(na_exposure) exposure) (fadd n.(na_unrealized) unrealized)
    (fadd n.(na_realized) p.(b_realized)) (fadd n.(na_fees) p.(b_fees)) n.(na_realized_today)
    (n.(na_open_positions) + open_unit p).

Definition position_slice (r exposure unrealized : f64) (p : BookPosition) : ExposureSlice :=
  mkExposureSlice (fmul exposure r) (fmul unrealized r) (fmul p.(b_realized) r)
    (fmul p.(b_fees) r) (open_unit p).

Definition at_native (q : text) (f : NativeSlice -> NativeSlice) (m : gmap text NativeSlice)
    : gmap text NativeSlice :=
  <[q := f (default NativeSlice_default (m !! q))]> m.

(** One turn of the loop over the positions. *)
Definition view_position (input : PortfolioInputs) (v : PortfolioView) (p : BookPosition)
    : PortfolioView :=
  let k := p.(b_key) in
  let mark := input.(pi_marks) !! k.(k_asset) in
  let e := exposure mark p in
  let u := unrealized mark p in
  let native := at_native k.(k_quote_asset) (native_position e u p) v.(pv_native) in
  match rate input k.(k_quote_asset) with
  | None =>
      mkPortfolioView v.(pv_total_exposure_ref) v.(pv_realized_ref) v.(pv_unrealized_ref)
        v.(pv_fees_ref) v.(pv_net_pnl_ref) v.(pv_realized_today_ref) v.(pv_peak_realized_ref)
        v.(pv_cumulative_realized_ref) v.(pv_open_positions) v.(pv_capital_base_ref)
        v.(pv_utilization) v.(pv_by_venue) v.(pv_by_wallet) v.(pv_by_strategy) v.(pv_by_asset)
        v.(pv_by_module) native
        (note_missing (is_open p) k.(k_quote_asset) v.(pv_missing_rates))
        v.(pv_missing_daily_loss_rates) v.(pv_missing_drawdown_rates)
  | Some r =>
      let s := position_slice r e u p in
      mkPortfolioView (fadd v.(pv_total_exposure_ref) s.(es_exposure_ref))
        (fadd v.(pv_realized_ref) s.(es_realized_ref))
        (fadd v.(pv_unrealized_ref) s.(es_unrealized_ref))
        (fadd v.(pv_fees_ref) s.(es_fees_ref)) v.(pv_net_pnl_ref) v.(pv_realized_today_ref)
        v.(pv_peak_realized_ref) v.(pv_cumulative_realized_ref)
        (v.(pv_open_positions) + open_unit p) v.(pv_capital_base_ref) v.(pv_utilization)
        (add_slice (Venue_as_str k.(k_venue)) s v.(pv_by_venue))
        (add_slice k.(k_wallet) s v.(pv_by_wallet))
        (add_slice k.(k_strategy) s v.(pv_by_strategy))
        (add_slice k.(k_asset) s v.(pv_by_asset))
        (add_slice (BotModule_as_str k.(k_module)) s v.(pv_by_module)) native
        v.(pv_missing_rates) v.(pv_missing_daily_loss_rates) v.(pv_missing_drawdown_rates)
  end.

Definition with_fees (fees : f64) (by_wallet : gmap text ExposureSlice)
    (native : gmap text NativeSlice) (v : PortfolioView) : PortfolioView :=
  let 'mkPortfolioView te re un _ np rt pk cu op cb ut ven _ str ass mo _ mr md mw := v in
  mkPortfolioView te re un fees np rt pk cu op cb ut ven by_wallet str ass mo native mr md mw.

Definition native_fee (fee : f64) (n : NativeSlice) : NativeSlice :=
  mkNativeSlice n.(na_exposure) n.(na_unrealized) n.(na_realized) (fadd n.(na_fees) fee)
    n.(na_realized_today) n.(na_open_positions).

Definition slice_fee (fee : f64) (s : ExposureSlice) : ExposureSlice :=
  mkExposureSlice s.(es_exposure_ref) s.(es_unrealized_ref) s.(es_realized_ref)
    (fadd s.(es_fees_ref) fee) s.(es_open_positions).

(** Stand-alone fees, per wallet and quote. *)
Definition view_fee (input : PortfolioInputs) (v : PortfolioView) (wf : CashKey * f64)
    : PortfolioView :=
  let '((wallet, quote), fee) := wf in
  let native := at_native quote (native_fee fee) v.(pv_native) in
  match rate input quote with
  | Some r =>
      with_fees (fadd v.(pv_fees_ref) (fmul fee r))
        (<[wallet := slice_fee (fmul fee r)
                       (default ExposureSlice_default (v.(pv_by_wallet) !! wallet))]>
           v.(pv_by_wallet)) native v
  | None => with_fees v.(pv_fees_ref) v.(pv_by_wallet) native v
  end.

Definition native_today (net : f64) (n : NativeSlice) : NativeSlice :=
  mkNativeSlice n.(na_exposure) n.(na_unrealized) n.(na_realized) n.(na_fees)
    (fadd n.(na_realized_today) net) n.(na_open_positions).

Definition with_today (today_ref : f64) (native : gmap text NativeSlice) (missing : list text)
    (v : PortfolioView) : PortfolioView :=
  let 'mkPortfolioView te re un fe np _ pk cu op cb ut ven wal str ass mo _ mr _ mw := v in
  mkPortfolioView te re un fe np today_ref pk cu op cb ut ven wal str ass mo native mr missing mw.

(** The realized result of the day. *)
Definition view_day (input : PortfolioInputs) (v : PortfolioView)
    (row : (text * text) * f64) : PortfolioView :=
  let '((day, quote), net) := row in
  if decide (day = input.(pi_day)) then
    let native := at_native quote (native_today net) v.(pv_native) in
    match rate input quote with
    | Some r => with_today (fadd v.(pv_realized_today_ref) (fmul net r)) native
                  v.(pv_missing_daily_loss_rates) v
    | None => with_today v.(pv_realized_today_ref) native
                (note_missing (negb (f64_eq net fzero)) quote v.(pv_missing_daily_loss_rates)) v
    end
  else v.

Definition with_drawdown (peak cumulative : f64) (missing : list text) (v : PortfolioView)
    : PortfolioView :=
  let 'mkPortfolioView te re un fe np rt _ _ op cb ut ven wal str ass mo na mr md _ := v in
  mkPortfolioView te re un fe np rt peak cumulative op cb ut ven wal str ass mo na mr md missing.

(** The cumulative result, and its peak. *)
Definition view_total (input : PortfolioInputs) (v : PortfolioView) (row : text * f64)
    : PortfolioView :=
  let '(quote, total) := row in
  match rate input quote with
  | Some r => with_drawdown v.(pv_peak_realized_ref)
                (fadd v.(pv_cumulative_realized_ref) (fmul total r))
                v.(pv_missing_drawdown_rates) v
  | None => with_drawdown v.(pv_peak_realized_ref) v.(pv_cumulative_realized_ref)
              (note_missing (negb (f64_eq total fzero)) quote v.(pv_missing_drawdown_rates)) v
  end.

Definition view_peak (input : PortfolioInputs) (v : PortfolioView) (row : text * f64)
    : PortfolioView :=
  let '(quote, peak) := row in
  match rate input quote with
  | Some r => with_drawdown (fadd v.(pv_peak_realized_ref) (fmul peak r))
                v.(pv_cumulative_realized_ref) v.(pv_missing_drawdown_rates) v
  | None => with_drawdown v.(pv_peak_realized_ref) v.(pv_cumulative_realized_ref)
              (note_missing (negb (f64_eq peak fzero)) quote v.(pv_missing_drawdown_rates)) v
  end.

Definition text_le (a b : text) : Prop := text_leb a b = true.

#[export] Instance text_le_dec : RelDecision text_le.
Proof. intros a b. unfold text_le. apply _. Defined.

Definition finish_view (open : nat) (v : PortfolioView) : PortfolioView :=
  mkPortfolioView v.(pv_total_exposure_ref) v.(pv_realized_ref) v.(pv_unrealized_ref)
    v.(pv_fees_ref)
    (fsub (fadd v.(pv_realized_ref) v.(pv_unrealized_ref)) v.(pv_fees_ref))
    v.(pv_realized_today_ref) v.(pv_peak_realized_ref) v.(pv_cumulative_realized_ref)
    (Z.of_nat open) v.(pv_capital_base_ref)
    (if fltb fzero v.(pv_capital_base_ref)
     then fdiv v.(pv_total_exposure_ref) v.(pv_capital_base_ref) else fzero)
    v.(pv_by_venue) v.(pv_by_wallet) v.(pv_by_strategy) v.(pv_by_asset) v.(pv_by_module)
    v.(pv_native) (merge_sort text_le v.(pv_missing_rates))
    (merge_sort text_le v.(pv_missing_daily_loss_rates))
    (merge_sort text_le v.(pv_missing_drawdown_rates)).

(** [PortfolioView::compute]. *)
Definition compute `{HashOrder} (bk : PositionBook) (series : RealizedSeries)
    (input : PortfolioInputs) : PortfolioView :=
  let v := PortfolioView_empty (fmax input.(pi_capital_base_ref) fzero) in
  let v := fold_left (view_position input) (map snd (hash_iter bk.(bk_positions))) v in
  let v := fold_left (view_fee input) (hash_iter bk.(bk_standalone_fees)) v in
  let v := fold_left (view_day input) (hash_iter series.(rs_by_day)) v in
  let v := fold_left (view_total input) (hash_iter series.(rs_total)) v in
  let v := fold_left (view_peak input) (hash_iter series.(rs_peak)) v in
  finish_view (open_count bk) v.

Definition drawdown_ref (v : PortfolioView) : f64 :=
  fmax (fsub v.(pv_peak_realized_ref)
         (fadd v.(pv_cumulative_realized_ref) v.(pv_unrealized_ref))) fzero.
