(* ===== verification/GlobalRisk.v ===== *)
(** The global risk engine ([crates/core/src/global_risk/decision.rs],
    [engine.rs], [store.rs]): one decision per candidate entry over the book of
    the global ledger, the kill switches and the entries still in flight.  The
    journal of decisions and switches and the cluster-wide reservations are the
    trait [RiskStore]; message texts are left out. *)
From stdpp Require Import prelude countable gmap strings pretty.
From Stdlib Require Import ZArith Lia SpecFloat.
From S2P Require Import Prelude.
From S2P Require Import Text.
From S2P Require Import Float64.
From S2P Require Import Models.
From S2P Require Import BotConfig.
From S2P Require Import Ownership.
From S2P Require Import LedgerEvent.
From S2P Require Import PositionBook.
From S2P Require Import Ledger.
From S2P Require Import AppState.
From S2P Require Import PortfolioView.

#[local] Open Scope Z_scope.

(** * Per-venue and per-strategy kill switches
    ([crates/core/src/global_risk/kill_switch.rs]): pinned by the configuration,
    engaged by an operator, restored after a restart. *)

Inductive KillScope : Type :=
  | ScopeVenue (v : Venue)
  | ScopeStrategy (label : text).

#[export] Instance KillScope_eq_dec : EqDecision KillScope.
Proof. solve_decision. Defined.
#[export] Instance KillScope_countable : Countable KillScope.
Proof.
  refine (inj_countable'
    (fun k => match k with ScopeVenue v => inl v | ScopeStrategy s => inr s end)
    (fun x => match x with inl v => ScopeVenue v | inr s => ScopeStrategy s end) _).
  by intros [].
Defined.

Definition KillScope_as_string (k : KillScope) : text :=
  match k with
  | ScopeVenue v => lit "venue:" ++ Venue_as_str v
  | ScopeStrategy s => lit "strategy:" ++ s
  end.

Definition KillScope_parse (s0 : text) : option KillScope :=
  let s := trim s0 in
  match strip_prefix (lit "venue:") s with
  | Some v => ScopeVenue <$> Venue_parse (trim v)
  | None =>
      match strip_prefix (lit "strategy:") s with
      | Some st => if is_empty (trim st) then None else Some (ScopeStrategy (trim st))
      | None => None
      end
  end.

Record KillSwitchState : Type := mkKillSwitchState {
  ks_scope : KillScope;
  ks_configured : bool;
  ks_engaged : bool;
  ks_reason : text;
  ks_actor : text;
  ks_updated_at : Z;
}.

Definition switch_active (st : KillSwitchState) : bool := st.(ks_configured) || st.(ks_engaged).

Record KillSwitchEvent : Type := mkKillSwitchEvent {
  ke_scope : KillScope;
  ke_action : text;
  ke_reason : text;
  ke_actor : text;
  ke_replica_id : text;
  ke_ts : Z;
}.

Inductive SwitchOutcome : Type := SwitchChanged | SwitchUnchanged | PinnedByConfig.

#[export] Instance SwitchOutcome_eq_dec : EqDecision SwitchOutcome.
Proof. solve_decision. Defined.

Record KillSwitches : Type := mkKillSwitches { sw : gmap KillScope KillSwitchState }.

Definition KillSwitches_new : KillSwitches := mkKillSwitches ∅.

Definition unpinned (st : KillSwitchState) : KillSwitchState :=
  mkKillSwitchState st.(ks_scope) false st.(ks_engaged) st.(ks_reason) st.(ks_actor)
    st.(ks_updated_at).

(** One scope the configuration lists. *)
Definition pin (now : Z) (m : gmap KillScope KillSwitchState) (scope : KillScope)
    : gmap KillScope KillSwitchState :=
  let st := default (mkKillSwitchState scope false false [] (lit "config") now) (m !! scope) in
  <[scope := mkKillSwitchState st.(ks_scope) true st.(ks_engaged)
               (if is_empty st.(ks_reason) then lit "configured" else st.(ks_reason))
               st.(ks_actor) st.(ks_updated_at)]> m.

Definition config_scopes (venues : list Venue) (strategies : list text) : list KillScope :=
  map ScopeVenue venues ++ map ScopeStrategy strategies.

Definition apply_config (now : Z) (venues : list Venue) (strategies : list text)
    (k : KillSwitches) : KillSwitches :=
  let m := fold_left (pin now) (config_scopes venues strategies) (unpinned <$> k.(sw)) in
  mkKillSwitches (filter (fun kv => switch_active kv.2 = true) m).

(** One stored switch; one that is not engaged is passed over. *)
Definition restore_switch (acc : nat * gmap KillScope KillSwitchState) (st : KillSwitchState)
    : nat * gmap KillScope KillSwitchState :=
  if negb st.(ks_engaged) then acc
  else
    let entry := default st (acc.2 !! st.(ks_scope)) in
    let replace := is_empty entry.(ks_reason) || negb entry.(ks_configured) in
    (S acc.1,
     <[st.(ks_scope) :=
         mkKillSwitchState entry.(ks_scope) entry.(ks_configured) true
           (if replace then st.(ks_reason) else entry.(ks_reason))
           (if replace then st.(ks_actor) else entry.(ks_actor))
           (if replace then st.(ks_updated_at) else entry.(ks_updated_at))]> acc.2).

Definition restore_switches (states : list KillSwitchState) (k : KillSwitches)
    : nat * KillSwitches :=
  let r := fold_left restore_switch states (O, k.(sw)) in (r.1, mkKillSwitches r.2).

Definition engage_switch (now : Z) (scope : KillScope) (reason actor : text) (k : KillSwitches)
    : SwitchOutcome * KillSwitches :=
  let st := default (mkKillSwitchState scope false false [] [] now) (k.(sw) !! scope) in
  if st.(ks_engaged) then (SwitchUnchanged, mkKillSwitches (<[scope := st]> k.(sw)))
  else
    (SwitchChanged,
     mkKillSwitches
       (<[scope := mkKillSwitchState st.(ks_scope) st.(ks_configured) true reason actor now]>
          k.(sw))).

Definition release_switch (scope : KillScope) (k : KillSwitches) : SwitchOutcome * KillSwitches :=
  match k.(sw) !! scope with
  | None => (SwitchUnchanged, k)
  | Some st =>
      if st.(ks_configured) then (PinnedByConfig, k)
      else if negb st.(ks_engaged) then (SwitchUnchanged, k)
      else (SwitchChanged, mkKillSwitches (delete scope k.(sw)))
  end.

Definition active_switch (scope : KillScope) (k : KillSwitches) : option KillSwitchState :=
  st ← k.(sw) !! scope; if switch_active st then Some st else None.

Definition venue_killed (v : Venue) (k : KillSwitches) : option KillSwitchState :=
  active_switch (ScopeVenue v) k.
Definition strategy_killed (label : text) (k : KillSwitches) : option KillSwitchState :=
  active_switch (ScopeStrategy label) k.

Definition get_switch (scope : KillScope) (k : KillSwitches) : option KillSwitchState :=
  k.(sw) !! scope.

(** * Vocabulary ([decision.rs]) *)

Inductive GlobalRejectReason : Type :=
  | GlobalKillSwitch | VenueKillSwitch | StrategyKillSwitch | ReferenceRateMissing
  | MaxOpenPositions | OrderNotional | PortfolioExposure | WalletExposure | VenueExposure
  | StrategyExposure | AssetExposure | DailyLoss | Drawdown | InvalidRequest | InvalidPortfolio.

#[export] Instance GlobalRejectReason_eq_dec : EqDecision GlobalRejectReason.
Proof. solve_decision. Defined.

Definition reason_is_kill_switch (r : GlobalRejectReason) : bool :=
  match r with GlobalKillSwitch | VenueKillSwitch | StrategyKillSwitch => true | _ => false end.

Definition reason_is_exposure_limit (r : GlobalRejectReason) : bool :=
  match r with
  | MaxOpenPositions | OrderNotional | PortfolioExposure | WalletExposure | VenueExposure
  | StrategyExposure | AssetExposure => true
  | _ => false
  end.

Record GlobalRiskRequest : Type := mkGlobalRiskRequest {
  gr_module : BotModule;
  gr_venue : Venue;
  gr_wallet : text;
  gr_strategy : text;
  gr_asset : text;
  gr_quote_asset : text;
  gr_requested_quote : f64;
  gr_mode : ExecutionMode;
}.

Record DecisionSnapshot : Type := mkDecisionSnapshot {
  ds_requested_ref : f64;
  ds_rate : f64;
  ds_portfolio_ref : f64;
  ds_wallet_ref : f64;
  ds_venue_ref : f64;
  ds_strategy_ref : f64;
  ds_asset_ref : f64;
  ds_open_positions : Z;
  ds_realized_today_ref : f64;
  ds_drawdown_ref : f64;
  ds_capital_base_ref : f64;
}.

Definition empty_snapshot (capital : f64) : DecisionSnapshot :=
  mkDecisionSnapshot fzero fzero fzero fzero fzero fzero fzero 0 fzero fzero capital.

(** [gd_reason] is [None] on an accept. *)
Record GlobalRiskDecision : Type := mkGlobalRiskDecision {
  gd_decision_id : text;
  gd_ts : Z;
  gd_request : GlobalRiskRequest;
  gd_reason : option GlobalRejectReason;
  gd_snapshot : DecisionSnapshot;
  gd_replica_id : text;
}.

Definition accepted (d : GlobalRiskDecision) : bool := is_none d.(gd_reason).

(** * The journal and the shared reservations ([store.rs]) *)

Definition OrganizationId : Type := Z.

Record RiskEntryReservation : Type := mkRiskEntryReservation {
  rv_reservation_id : text;
  rv_module : BotModule;
  rv_organization : option OrganizationId;
  rv_venue : Venue;
  rv_wallet : text;
  rv_strategy : text;
  rv_asset : text;
  rv_quote_asset : text;
  rv_requested_quote : f64;
  rv_requested_ref : f64;
  rv_expires_at : Z;
}.

Class RiskStore (St : Type) : Type := {
  record_decision (d : GlobalRiskDecision) (s : St) : bool * St;
  upsert_kill_switch (st : KillSwitchState) (s : St) : bool * St;
  append_kill_switch_event (e : KillSwitchEvent) (s : St) : bool * St;
  load_kill_switches (s : St) : option (list KillSwitchState);
  has_distributed_entry_reservations (s : St) : bool;
  acquire_entry_admission (s : St) : bool;
  active_entry_reservations (s : St) : option (list RiskEntryReservation);
  create_entry_reservation (r : RiskEntryReservation) (s : St) : bool * St;
  release_entry_reservation (id : text) (s : St) : St;
}.

(** The in-memory journal: one row per scope, the newest [cap] decisions. *)
Record MemoryRiskStore : Type := mkMemoryRiskStore {
  mr_decisions : list GlobalRiskDecision;
  mr_switches : list KillSwitchState;
  mr_events : list KillSwitchEvent;
  mr_cap : Z;
  mr_unavailable : bool;
}.

Definition MemoryRiskStore_new (cap : Z) : MemoryRiskStore :=
  mkMemoryRiskStore [] [] [] (Z.max cap 1) false.

Definition memory_record_decision (d : GlobalRiskDecision) (s : MemoryRiskStore)
    : bool * MemoryRiskStore :=
  if s.(mr_unavailable) then (false, s)
  else
    let l := s.(mr_decisions) ++ [d] in
    (true, mkMemoryRiskStore (drop (length l - Z.to_nat s.(mr_cap)) l) s.(mr_switches)
             s.(mr_events) s.(mr_cap) s.(mr_unavailable)).

Fixpoint upsert_row (st : KillSwitchState) (l : list KillSwitchState) : list KillSwitchState :=
  match l with
  | [] => [st]
  | x :: l' => if decide (x.(ks_scope) = st.(ks_scope)) then st :: l' else x :: upsert_row st l'
  end.

Definition memory_upsert_kill_switch (st : KillSwitchState) (s : MemoryRiskStore)
    : bool * MemoryRiskStore :=
  if s.(mr_unavailable) then (false, s)
  else (true, mkMemoryRiskStore s.(mr_decisions) (upsert_row st s.(mr_switches)) s.(mr_events)
                s.(mr_cap) s.(mr_unavailable)).

Definition memory_append_event (e : KillSwitchEvent) (s : MemoryRiskStore) : bool * MemoryRiskStore :=
  if s.(mr_unavailable) then (false, s)
  else (true, mkMemoryRiskStore s.(mr_decisions) s.(mr_switches) (s.(mr_events) ++ [e])
                s.(mr_cap) s.(mr_unavailable)).

Definition memory_load_kill_switches (s : MemoryRiskStore) : option (list KillSwitchState) :=
  if s.(mr_unavailable) then None else Some s.(mr_switches).

#[export] Instance MemoryRiskStore_store : RiskStore MemoryRiskStore := {|
  record_decision := memory_record_decision;
  upsert_kill_switch := memory_upsert_kill_switch;
  append_kill_switch_event := memory_append_event;
  load_kill_switches := memory_load_kill_switches;
  has_distributed_entry_reservations := fun _ => false;
  acquire_entry_admission := fun _ => true;
  active_entry_reservations := fun _ => Some [];
  create_entry_reservation := fun _ s => (true, s);
  release_entry_reservation := fun _ s => s;
|}.

(** * The engine ([engine.rs]) *)

Record DecisionContext : Type := mkDecisionContext {
  cx_global_kill : bool;
  cx_marks : gmap text f64;
}.

Definition RECENT_DECISIONS : nat := 256.

Definition limit_ok (v : f64) : bool := is_finite v && fleb fzero v.

Definition rate_ok (ar : text * f64) : Prop :=
  is_empty (trim ar.1) = false /\ is_finite ar.2 = true /\ fltb fzero ar.2 = true.

Definition global_risk_config_is_valid (c : GlobalRiskConfig) : bool :=
  negb (is_empty (trim c.(gc_reference_asset)))
  && forallb limit_ok
       [c.(gc_capital_base_ref); c.(gc_max_portfolio_exposure_ref);
        c.(gc_max_wallet_exposure_ref); c.(gc_max_venue_exposure_ref);
        c.(gc_max_strategy_exposure_ref); c.(gc_max_asset_exposure_ref);
        c.(gc_max_order_notional_ref); c.(gc_max_daily_loss_ref); c.(gc_max_drawdown_ref)]
  && is_finite c.(gc_max_drawdown_pct)
  && (fleb fzero c.(gc_max_drawdown_pct) && fleb c.(gc_max_drawdown_pct) fone)
  && bool_decide (map_Forall (fun a r => rate_ok (a, r)) c.(gc_reference_rates)).

Record ReservedEntry : Type := mkReservedEntry {
  re_module : BotModule;
  re_organization : option OrganizationId;
  re_wallet : text;
  re_venue : text;
  re_strategy : text;
  re_asset : text;
  re_quote_asset : text;
  re_requested_quote : f64;
  re_requested_ref : f64;
  re_expires_at : Z;
  re_distributed : bool;
}.

(** A reservation lease: released at most once. *)
Record ReservationLease : Type := mkReservationLease {
  le_id : text;
  le_distributed : bool;
  le_released : bool;
}.

Record GlobalRiskEngine (LSt RSt : Type) : Type := mkGlobalRiskEngine {
  ge_config : GlobalRiskConfig;
  ge_ledger : Inner;
  ge_ledger_store : LSt;
  ge_switches : KillSwitches;
  ge_store : RSt;
  ge_portfolio_ready : bool;
  ge_replica_id : text;
  ge_seq : Z;
  ge_recent : list GlobalRiskDecision;
  ge_entries : gmap text ReservedEntry;
}.
Arguments mkGlobalRiskEngine {LSt RSt}.
Arguments ge_config {LSt RSt}. Arguments ge_ledger {LSt RSt}. Arguments ge_ledger_store {LSt RSt}.
Arguments ge_switches {LSt RSt}. Arguments ge_store {LSt RSt}.
Arguments ge_portfolio_ready {LSt RSt}. Arguments ge_replica_id {LSt RSt}.
Arguments ge_seq {LSt RSt}. Arguments ge_recent {LSt RSt}. Arguments ge_entries {LSt RSt}.

(** The quote asset a venue settles in. *)
Definition quote_asset_for (v : Venue) : text :=
  match v with PolymarketClob => lit "USDC" | _ => lit "SOL" end.

Section Checks.

(** ** Checks that need no portfolio *)

Definition untrimmed (s : text) : bool := is_empty (trim s) || negb (bool_decide (trim s = s)).

Definition entry_checks (req : GlobalRiskRequest) (ctx : DecisionContext) (k : KillSwitches)
    (c : GlobalRiskConfig) : outcome GlobalRejectReason unit :=
  reject_if (negb (is_finite req.(gr_requested_quote)) || fleb req.(gr_requested_quote) fzero)
    InvalidRequest ;;
  reject_if (existsb untrimmed
    [req.(gr_wallet); req.(gr_strategy); req.(gr_asset); req.(gr_quote_asset)]) InvalidRequest ;;
  reject_if ctx.(cx_global_kill) GlobalKillSwitch ;;
  reject_if (is_some (venue_killed req.(gr_venue) k)) VenueKillSwitch ;;
  reject_if (is_some (strategy_killed req.(gr_strategy) k)) StrategyKillSwitch ;;
  reject_if (negb (global_risk_config_is_valid c)) InvalidPortfolio.

(** The limits that need figures of the whole deployment. *)
Definition aggregate_limits_enabled (c : GlobalRiskConfig) : bool :=
  existsb (fltb fzero)
    [c.(gc_max_portfolio_exposure_ref); c.(gc_max_wallet_exposure_ref);
     c.(gc_max_venue_exposure_ref); c.(gc_max_strategy_exposure_ref);
     c.(gc_max_asset_exposure_ref); c.(gc_max_daily_loss_ref); c.(gc_max_drawdown_ref);
     c.(gc_max_drawdown_pct)]
  || (0 <? c.(gc_max_open_positions)).

Definition with_request (r requested_ref : f64) (d : DecisionSnapshot) : DecisionSnapshot :=
  mkDecisionSnapshot requested_ref r d.(ds_portfolio_ref) d.(ds_wallet_ref) d.(ds_venue_ref)
    d.(ds_strategy_ref) d.(ds_asset_ref) d.(ds_open_positions) d.(ds_realized_today_ref)
    d.(ds_drawdown_ref) d.(ds_capital_base_ref).

(** A tenant's decision: the order notional, and no aggregate limit may be on. *)
Definition tenant_notional (c : GlobalRiskConfig) (req : GlobalRiskRequest) (d : DecisionSnapshot)
    : outcome GlobalRejectReason unit * DecisionSnapshot :=
  if fltb fzero c.(gc_max_order_notional_ref) then
    match c.(gc_reference_rates) !! req.(gr_quote_asset) with
    | None => (Err ReferenceRateMissing, d)
    | Some r =>
        let requested_ref := fmul req.(gr_requested_quote) r in
        (reject_if (negb (is_finite requested_ref)) InvalidRequest ;;
         reject_if (fltb c.(gc_max_order_notional_ref) requested_ref) OrderNotional,
         with_request r requested_ref d)
    end
  else (Ok tt, d).

Definition tenant_checks (c : GlobalRiskConfig) (req : GlobalRiskRequest) (d : DecisionSnapshot)
    : outcome GlobalRejectReason unit * DecisionSnapshot :=
  let r := tenant_notional c req d in
  (r.1 ;; reject_if (aggregate_limits_enabled c) InvalidPortfolio, r.2).

(** ** The snapshot *)

Definition slice_exposure (k : text) (m : gmap text ExposureSlice) : f64 :=
  match m !! k with Some s => s.(es_exposure_ref) | None => fzero end.

(** The figures of the book. *)
Definition book_snapshot (c : GlobalRiskConfig) (input : PortfolioInputs) (v : PortfolioView)
    (req : GlobalRiskRequest) : DecisionSnapshot :=
  let r := default fzero (rate input req.(gr_quote_asset)) in
  mkDecisionSnapshot (fmul req.(gr_requested_quote) r) r v.(pv_total_exposure_ref)
    (slice_exposure req.(gr_wallet) v.(pv_by_wallet))
    (slice_exposure (Venue_as_str req.(gr_venue)) v.(pv_by_venue))
    (slice_exposure req.(gr_strategy) v.(pv_by_strategy))
    (slice_exposure req.(gr_asset) v.(pv_by_asset))
    v.(pv_open_positions) v.(pv_realized_today_ref) (drawdown_ref v) c.(gc_capital_base_ref).

Definition add_when (b : bool) (x total : f64) : f64 := if b then fadd total x else total.

(** An accepted entry that is still in flight; a tenant's is not counted. *)
Definition add_reserved (now : Z) (req : GlobalRiskRequest) (d : DecisionSnapshot)
    (e : ReservedEntry) : DecisionSnapshot :=
  if (e.(re_expires_at) <=? now) || is_some e.(re_organization) then d
  else
    let x := e.(re_requested_ref) in
    mkDecisionSnapshot d.(ds_requested_ref) d.(ds_rate) (fadd d.(ds_portfolio_ref) x)
      (add_when (bool_decide (e.(re_wallet) = req.(gr_wallet))) x d.(ds_wallet_ref))
      (add_when (bool_decide (e.(re_venue) = Venue_as_str req.(gr_venue))) x d.(ds_venue_ref))
      (add_when (bool_decide (e.(re_strategy) = req.(gr_strategy))) x d.(ds_strategy_ref))
      (add_when (bool_decide (e.(re_asset) = req.(gr_asset))) x d.(ds_asset_ref))
      (saturating_add u64_max d.(ds_open_positions) 1) d.(ds_realized_today_ref)
      d.(ds_drawdown_ref) d.(ds_capital_base_ref).

Definition snapshot_finite (d : DecisionSnapshot) : bool :=
  forallb is_finite
    [d.(ds_rate); d.(ds_portfolio_ref); d.(ds_wallet_ref); d.(ds_venue_ref); d.(ds_strategy_ref);
     d.(ds_asset_ref); d.(ds_realized_today_ref); d.(ds_drawdown_ref); d.(ds_capital_base_ref)].

(** ** The limits *)

Fixpoint check_caps (requested_ref : f64) (caps : list (f64 * f64 * GlobalRejectReason))
    : outcome GlobalRejectReason unit :=
  match caps with
  | [] => Ok tt
  | (limit, current, reason) :: rest =>
      reject_if (fltb fzero limit && fltb limit (fadd current requested_ref)) reason ;;
      check_caps requested_ref rest
  end.

Definition exposure_caps (c : GlobalRiskConfig) (d : DecisionSnapshot)
    : list (f64 * f64 * GlobalRejectReason) :=
  [(c.(gc_max_portfolio_exposure_ref), d.(ds_portfolio_ref), PortfolioExposure);
   (c.(gc_max_wallet_exposure_ref), d.(ds_wallet_ref), WalletExposure);
   (c.(gc_max_venue_exposure_ref), d.(ds_venue_ref), VenueExposure);
   (c.(gc_max_strategy_exposure_ref), d.(ds_strategy_ref), StrategyExposure);
   (c.(gc_max_asset_exposure_ref), d.(ds_asset_ref), AssetExposure)].

Definition request_key (req : GlobalRiskRequest) : PositionKey :=
  mkPositionKey req.(gr_module) req.(gr_venue) req.(gr_wallet) req.(gr_strategy) req.(gr_asset)
    req.(gr_quote_asset) req.(gr_mode).

Definition rates_present (c : GlobalRiskConfig) (v : PortfolioView) (r : option f64)
    : outcome GlobalRejectReason unit :=
  reject_if (needs_reference_rates c && (is_none r || bool_decide (v.(pv_missing_rates) <> [])))
    ReferenceRateMissing ;;
  reject_if (fltb fzero c.(gc_max_daily_loss_ref)
             && bool_decide (v.(pv_missing_daily_loss_rates) <> [])) ReferenceRateMissing ;;
  reject_if (is_some (effective_drawdown_limit c)
             && bool_decide (v.(pv_missing_drawdown_rates) <> [])) ReferenceRateMissing.

Definition limit_checks (c : GlobalRiskConfig) (bk : PositionBook) (v : PortfolioView)
    (r : option f64) (req : GlobalRiskRequest) (d : DecisionSnapshot)
    : outcome GlobalRejectReason unit :=
  reject_if (is_some r && negb (is_finite d.(ds_requested_ref))) InvalidRequest ;;
  reject_if (negb (snapshot_finite d)) InvalidPortfolio ;;
  rates_present c v r ;;
  let already_open :=
    match bk.(bk_positions) !! request_key req with Some p => is_open p | None => false end in
  reject_if ((0 <? c.(gc_max_open_positions)) && negb already_open
             && (c.(gc_max_open_positions) <=? v.(pv_open_positions))) MaxOpenPositions ;;
  reject_if (fltb fzero c.(gc_max_order_notional_ref)
             && fltb c.(gc_max_order_notional_ref) d.(ds_requested_ref)) OrderNotional ;;
  check_caps d.(ds_requested_ref) (exposure_caps c d) ;;
  reject_if (fltb fzero c.(gc_max_daily_loss_ref)
             && fleb d.(ds_realized_today_ref) (fneg c.(gc_max_daily_loss_ref))) DailyLoss ;;
  reject_if (match effective_drawdown_limit c with
             | Some limit => fleb limit d.(ds_drawdown_ref)
             | None => false
             end) Drawdown.
End Checks.

(** ** Decisions *)

Section Decisions.
Context {libs : LedgerLibs} `{HashOrder} {LSt RSt : Type} `{LedgerStore LSt} `{RiskStore RSt}.

Definition set_engine (ledger : Inner) (ready : bool) (seq : Z) (g : GlobalRiskEngine LSt RSt) : GlobalRiskEngine LSt RSt :=
  mkGlobalRiskEngine g.(ge_config) ledger g.(ge_ledger_store) g.(ge_switches) g.(ge_store) ready
    g.(ge_replica_id) seq g.(ge_recent) g.(ge_entries).
Definition set_entries (entries : gmap text ReservedEntry) (st : RSt) (g : GlobalRiskEngine LSt RSt) : GlobalRiskEngine LSt RSt :=
  mkGlobalRiskEngine g.(ge_config) g.(ge_ledger) g.(ge_ledger_store) g.(ge_switches) st
    g.(ge_portfolio_ready) g.(ge_replica_id) g.(ge_seq) g.(ge_recent) entries.
Definition set_switches (k : KillSwitches) (st : RSt) (g : GlobalRiskEngine LSt RSt) : GlobalRiskEngine LSt RSt :=
  mkGlobalRiskEngine g.(ge_config) g.(ge_ledger) g.(ge_ledger_store) k st
    g.(ge_portfolio_ready) g.(ge_replica_id) g.(ge_seq) g.(ge_recent) g.(ge_entries).

Definition decision_id (req : GlobalRiskRequest) (ts seq : Z) : text :=
  lit "grd_" ++ take 32
    (sha256_hex (lit "global-risk-decision-v1|" ++ BotModule_as_str req.(gr_module) ++ bar
       ++ Venue_as_str req.(gr_venue) ++ bar ++ req.(gr_wallet) ++ bar ++ req.(gr_strategy) ++ bar
       ++ req.(gr_asset) ++ bar ++ lit (pretty (ts / 1000000)) ++ bar ++ lit (pretty seq))).

Definition portfolio_inputs (now : Z) (ctx : DecisionContext) (c : GlobalRiskConfig)
    : PortfolioInputs :=
  mkPortfolioInputs ctx.(cx_marks) c.(gc_reference_rates) c.(gc_capital_base_ref) (format_day now).

(** The ledger brought up to date with the journal, when a limit needs it:
    whether its figures can be trusted. *)
Definition refresh_ledger (g : GlobalRiskEngine LSt RSt) : bool * GlobalRiskEngine LSt RSt :=
  if aggregate_limits_enabled g.(ge_config) then
    let r := refresh_from_store g.(ge_ledger) g.(ge_ledger_store) in
    let ready := g.(ge_portfolio_ready) && r.1 in
    (ready && r.1 && bool_decide (r.2.(in_pending) = []),
     set_engine r.2 ready g.(ge_seq) g)
  else (true, g).

Definition deployment_snapshot (now : Z) (req : GlobalRiskRequest) (ctx : DecisionContext)
    (g : GlobalRiskEngine LSt RSt) : DecisionSnapshot :=
  let input := portfolio_inputs now ctx g.(ge_config) in
  let v := compute g.(ge_ledger).(in_book) g.(ge_ledger).(in_series) input in
  fold_left (add_reserved now req) (map snd (hash_iter g.(ge_entries)))
    (book_snapshot g.(ge_config) input v req).

Definition deployment_checks (now : Z) (req : GlobalRiskRequest) (ctx : DecisionContext)
    (g : GlobalRiskEngine LSt RSt) : outcome GlobalRejectReason unit * DecisionSnapshot :=
  let c := g.(ge_config) in
  let input := portfolio_inputs now ctx c in
  let v := compute g.(ge_ledger).(in_book) g.(ge_ledger).(in_series) input in
  let d := deployment_snapshot now req ctx g in
  (limit_checks c g.(ge_ledger).(in_book) v (rate input req.(gr_quote_asset)) req d, d).

Definition rejection {A} (r : outcome GlobalRejectReason A) : option GlobalRejectReason :=
  match r with Ok _ => None | Err reason => Some reason | Panic => Some InvalidRequest end.

(** What is decided, the figures, and the engine after. *)
Definition evaluate (now : Z) (req : GlobalRiskRequest) (ctx : DecisionContext)
    (include_portfolio : bool) (g : GlobalRiskEngine LSt RSt)
    : outcome GlobalRejectReason unit * DecisionSnapshot * GlobalRiskEngine LSt RSt :=
  let c := g.(ge_config) in
  let d := empty_snapshot (if include_portfolio then c.(gc_capital_base_ref) else fzero) in
  match entry_checks req ctx g.(ge_switches) c with
  | Ok _ =>
      if include_portfolio then
        let f := refresh_ledger g in
        if f.1 then (deployment_checks now req ctx f.2, f.2)
        else (Err InvalidPortfolio, d, f.2)
      else (tenant_checks c req d, g)
  | refused => (refused, d, g)
  end.

Definition decide_inner (now : Z) (req : GlobalRiskRequest) (ctx : DecisionContext)
    (include_portfolio : bool) (g0 : GlobalRiskEngine LSt RSt) : GlobalRiskDecision * GlobalRiskEngine LSt RSt :=
  let id := decision_id req now g0.(ge_seq) in
  let g := set_engine g0.(ge_ledger) g0.(ge_portfolio_ready)
             ((g0.(ge_seq) + 1) mod (u64_max + 1)) g0 in
  let r := evaluate now req ctx include_portfolio g in
  (mkGlobalRiskDecision id now req (rejection r.1.1) r.1.2 g.(ge_replica_id), r.2).

(** The ring of recent decisions, and the journal. *)
Definition record (d : GlobalRiskDecision) (g : GlobalRiskEngine LSt RSt) : GlobalRiskEngine LSt RSt :=
  let recent := (if decide (RECENT_DECISIONS <= length g.(ge_recent))%nat
                 then drop 1 g.(ge_recent) else g.(ge_recent)) ++ [d] in
  mkGlobalRiskEngine g.(ge_config) g.(ge_ledger) g.(ge_ledger_store) g.(ge_switches)
    (record_decision d g.(ge_store)).2 g.(ge_portfolio_ready) g.(ge_replica_id) g.(ge_seq)
    recent g.(ge_entries).

Definition global_decide (now : Z) (req : GlobalRiskRequest) (ctx : DecisionContext) (g : GlobalRiskEngine LSt RSt)
    : GlobalRiskDecision * GlobalRiskEngine LSt RSt :=
  let r := decide_inner now req ctx true g in (r.1, record r.1 r.2).

(** A tenant's decision without a reservation. *)
Definition decide_tenant (now : Z) (req : GlobalRiskRequest) (ctx : DecisionContext) (g : GlobalRiskEngine LSt RSt)
    : GlobalRiskDecision * GlobalRiskEngine LSt RSt :=
  let r := decide_inner now req ctx false g in (r.1, record r.1 r.2).

(** ** Reservations *)

Definition RESERVATION_SECS : Z := 300.

Definition reservation_record (d : GlobalRiskDecision) (req : GlobalRiskRequest)
    (organization : option OrganizationId) (expires_at : Z) : RiskEntryReservation :=
  mkRiskEntryReservation d.(gd_decision_id) req.(gr_module) organization req.(gr_venue)
    req.(gr_wallet) req.(gr_strategy) req.(gr_asset) req.(gr_quote_asset)
    req.(gr_requested_quote) d.(gd_snapshot).(ds_requested_ref) expires_at.

Definition reserved_entry (d : GlobalRiskDecision) (req : GlobalRiskRequest)
    (organization : option OrganizationId) (expires_at : Z) (distributed : bool) : ReservedEntry :=
  mkReservedEntry req.(gr_module) organization req.(gr_wallet) (Venue_as_str req.(gr_venue))
    req.(gr_strategy) req.(gr_asset) req.(gr_quote_asset) req.(gr_requested_quote)
    d.(gd_snapshot).(ds_requested_ref) expires_at distributed.

(** [reserve_decision], for an accepted decision. *)
Definition reserve_decision (d : GlobalRiskDecision) (req : GlobalRiskRequest)
    (organization : option OrganizationId) (expires_at : Z) (g : GlobalRiskEngine LSt RSt)
    : ReservationLease * GlobalRiskEngine LSt RSt :=
  let distributed := has_distributed_entry_reservations g.(ge_store) in
  let id := d.(gd_decision_id) in
  (mkReservationLease id distributed false,
   set_entries (<[id := reserved_entry d req organization expires_at distributed]> g.(ge_entries))
     g.(ge_store) g).

Definition installed (now : Z) (entries : gmap text ReservedEntry) (r : RiskEntryReservation)
    : gmap text ReservedEntry :=
  if r.(rv_expires_at) <=? now then entries
  else
    <[r.(rv_reservation_id) :=
        mkReservedEntry r.(rv_module) r.(rv_organization) r.(rv_wallet)
          (Venue_as_str r.(rv_venue)) r.(rv_strategy) r.(rv_asset) r.(rv_quote_asset)
          r.(rv_requested_quote) r.(rv_requested_ref) r.(rv_expires_at) true]> entries.

Definition install_distributed_reservations (now : Z) (active : list RiskEntryReservation)
    (g : GlobalRiskEngine LSt RSt) : GlobalRiskEngine LSt RSt :=
  set_entries
    (fold_left (installed now) active (filter (fun kv => kv.2.(re_distributed) = false) g.(ge_entries)))
    g.(ge_store) g.

Definition refused (reason : GlobalRejectReason) (d : GlobalRiskDecision) : GlobalRiskDecision :=
  mkGlobalRiskDecision d.(gd_decision_id) d.(gd_ts) d.(gd_request) (Some reason) d.(gd_snapshot)
    d.(gd_replica_id).

Definition reservation_failure (now : Z) (req : GlobalRiskRequest) (ctx : DecisionContext)
    (include_portfolio : bool) (g : GlobalRiskEngine LSt RSt)
    : GlobalRiskDecision * GlobalRiskEngine LSt RSt :=
  let r := decide_inner now req ctx include_portfolio g in
  let d := refused InvalidPortfolio r.1 in (d, record d r.2).

(** Decide and reserve, under the admission gate: [organization] is [None] for
    the deployment ([decide_with_reservation]) and the tenant otherwise
    ([decide_tenant_with_reservation]). *)
Definition reserve_accepted (now : Z) (req : GlobalRiskRequest)
    (organization : option OrganizationId) (d : GlobalRiskDecision) (g : GlobalRiskEngine LSt RSt)
    : GlobalRiskDecision * option ReservationLease * GlobalRiskEngine LSt RSt :=
  if negb (accepted d) then (d, None, g)
  else
    let expires_at := now + RESERVATION_SECS * SECOND in
    let c := if has_distributed_entry_reservations g.(ge_store)
             then create_entry_reservation (reservation_record d req organization expires_at)
                    g.(ge_store)
             else (true, g.(ge_store)) in
    let g := set_entries g.(ge_entries) c.2 g in
    if c.1 then
      let r := reserve_decision d req organization expires_at g in (d, Some r.1, r.2)
    else (refused InvalidPortfolio d, None, g).

Definition decide_with_reservation (now : Z) (req : GlobalRiskRequest) (ctx : DecisionContext)
    (organization : option OrganizationId) (g : GlobalRiskEngine LSt RSt)
    : GlobalRiskDecision * option ReservationLease * GlobalRiskEngine LSt RSt :=
  let include_portfolio := is_none organization in
  let fail := let r := reservation_failure now req ctx include_portfolio g in (r.1, None, r.2) in
  let run g :=
    let r := decide_inner now req ctx include_portfolio g in
    let v := reserve_accepted now req organization r.1 r.2 in
    (v.1.1, v.1.2, record v.1.1 v.2) in
  if has_distributed_entry_reservations g.(ge_store) then
    if acquire_entry_admission g.(ge_store) then
      match active_entry_reservations g.(ge_store) with
      | Some active => run (install_distributed_reservations now active g)
      | None => fail
      end
    else fail
  else run g.

(** [ReservationLease::release_now]; dropping a lease does the same, with the
    call to the store left to a spawned task. *)
Definition release_lease (l : ReservationLease) (g : GlobalRiskEngine LSt RSt)
    : ReservationLease * GlobalRiskEngine LSt RSt :=
  if l.(le_released) then (l, g)
  else
    (mkReservationLease l.(le_id) l.(le_distributed) true,
     set_entries (delete l.(le_id) g.(ge_entries))
       (if l.(le_distributed) then release_entry_reservation l.(le_id) g.(ge_store)
        else g.(ge_store)) g).

(** Count, exposure and a duplicate among the other entries in flight of one
    module and tenant. *)
Definition entry_in_scope (now : Z) (module : BotModule) (organization : option OrganizationId)
    (exclude_id : option text) (kv : text * ReservedEntry) : bool :=
  negb (bool_decide (exclude_id = Some kv.1)) && negb (kv.2.(re_expires_at) <=? now)
  && bool_decide (kv.2.(re_module) = module) && bool_decide (kv.2.(re_organization) = organization).

Definition reserved_entry_usage (now : Z) (module : BotModule)
    (organization : option OrganizationId) (quote_asset asset : text) (exclude_id : option text)
    (g : GlobalRiskEngine LSt RSt) : Z * f64 * bool :=
  let mine := map snd (filter (fun kv => entry_in_scope now module organization exclude_id kv = true)
                         (hash_iter g.(ge_entries))) in
  (Z.of_nat (length mine),
   fold_left fadd (map re_requested_quote (filter (fun e => e.(re_quote_asset) = quote_asset) mine))
     fzero,
   existsb (fun e => bool_decide (e.(re_asset) = asset)) mine).

(** ** Switches, configuration *)

Definition update_config (now : Z) (c : GlobalRiskConfig) (g : GlobalRiskEngine LSt RSt)
    : GlobalRiskEngine LSt RSt :=
  mkGlobalRiskEngine c g.(ge_ledger) g.(ge_ledger_store)
    (apply_config now (killed_venue_list c) c.(gc_killed_strategies) g.(ge_switches))
    g.(ge_store) g.(ge_portfolio_ready) g.(ge_replica_id) g.(ge_seq) g.(ge_recent) g.(ge_entries).

Definition GlobalRiskEngine_new (now : Z) (c : GlobalRiskConfig) (ledger : Inner)
    (ledger_store : LSt) (store : RSt) (replica_id : text) : GlobalRiskEngine LSt RSt :=
  mkGlobalRiskEngine c ledger ledger_store
    (apply_config now (killed_venue_list c) c.(gc_killed_strategies) KillSwitches_new)
    store true replica_id 1 [] ∅.

Definition set_portfolio_ready (ready : bool) (g : GlobalRiskEngine LSt RSt)
    : GlobalRiskEngine LSt RSt := set_engine g.(ge_ledger) ready g.(ge_seq) g.

Definition restore (g : GlobalRiskEngine LSt RSt) : nat * GlobalRiskEngine LSt RSt :=
  match load_kill_switches g.(ge_store) with
  | Some states =>
      let r := restore_switches states g.(ge_switches) in (r.1, set_switches r.2 g.(ge_store) g)
  | None => (O, g)
  end.

Definition persist_switch (now : Z) (scope : KillScope) (action reason actor : text)
    (g : GlobalRiskEngine LSt RSt) : GlobalRiskEngine LSt RSt :=
  let st := default (mkKillSwitchState scope false false reason actor now)
              (get_switch scope g.(ge_switches)) in
  let s := (upsert_kill_switch st g.(ge_store)).2 in
  let s := (append_kill_switch_event
              (mkKillSwitchEvent scope action reason actor g.(ge_replica_id) now) s).2 in
  set_switches g.(ge_switches) s g.

Definition engage (now : Z) (scope : KillScope) (reason actor : text)
    (g : GlobalRiskEngine LSt RSt) : SwitchOutcome * GlobalRiskEngine LSt RSt :=
  let r := engage_switch now scope reason actor g.(ge_switches) in
  let g := set_switches r.2 g.(ge_store) g in
  (r.1, if decide (r.1 = SwitchChanged) then persist_switch now scope (lit "engage") reason actor g
        else g).

Definition release_scope (now : Z) (scope : KillScope) (reason actor : text)
    (g : GlobalRiskEngine LSt RSt) : SwitchOutcome * GlobalRiskEngine LSt RSt :=
  let r := release_switch scope g.(ge_switches) in
  let g := set_switches r.2 g.(ge_store) g in
  (r.1, if decide (r.1 = SwitchChanged) then persist_switch now scope (lit "release") reason actor g
        else g).
End Decisions.
