(* ===== verification/GlobalRiskCorrect.v ===== *)
(** What the global risk engine guarantees: the portfolio view is the sum of
    the book's priced positions, an accepted entry is within every limit with
    the entries in flight counted, a reservation lives until it is released, and
    an engaged kill switch refuses until an operator releases it. *)
From stdpp Require Import prelude countable gmap strings sorting.
From Stdlib Require Import ZArith Lia SpecFloat.
From S2P Require Import Prelude.
From S2P Require Import Text.
From S2P Require Import Float64.
From S2P Require Import FloatRound.
From S2P Require Import Models.
From S2P Require Import BotConfig.
From S2P Require Import Ownership.
From S2P Require Import LedgerEvent.
From S2P Require Import PositionBook.
From S2P Require Import Ledger.
From S2P Require Import AppState.
From S2P Require Import PortfolioView.
From S2P Require Import GlobalRisk.

#[local] Open Scope Z_scope.

(** * The view against its reference *)

Definition is_priced (input : PortfolioInputs) (p : BookPosition) : Prop :=
  is_some (rate input p.(b_key).(k_quote_asset)) = true.

#[export] Instance is_priced_dec input p : Decision (is_priced input p) := decide (_ = true).

Definition exposure_ref (input : PortfolioInputs) (p : BookPosition) : f64 :=
  fmul (exposure (input.(pi_marks) !! p.(b_key).(k_asset)) p)
    (default fzero (rate input p.(b_key).(k_quote_asset))).

(** The exposure of the priced positions that satisfy [Q], added up in order. *)
Definition sum_exposure (input : PortfolioInputs) (Q : BookPosition -> Prop)
    `{!forall p, Decision (Q p)} (start : f64) (l : list BookPosition) : f64 :=
  fold_left fadd (map (exposure_ref input) (filter (fun p => is_priced input p /\ Q p) l)) start.

Lemma slice_exposure_add k k' s m :
  slice_exposure k (add_slice k' s m) =
    if decide (k' = k) then fadd (slice_exposure k m) s.(es_exposure_ref) else slice_exposure k m.
Proof.
  unfold slice_exposure, add_slice. case_decide as Hk.
  - subst. rewrite lookup_insert_eq. by destruct (m !! k).
  - by rewrite lookup_insert_ne.
Qed.

(** Each figure of the view after the loop over the positions. *)
Definition view_figures (v : PortfolioView) (w ven str ass : text) : f64 * f64 * f64 * f64 * f64 :=
  (v.(pv_total_exposure_ref), slice_exposure w v.(pv_by_wallet), slice_exposure ven v.(pv_by_venue),
   slice_exposure str v.(pv_by_strategy), slice_exposure ass v.(pv_by_asset)).

Definition of_wallet (w : text) (p : BookPosition) : Prop := p.(b_key).(k_wallet) = w.
Definition of_venue (ven : text) (p : BookPosition) : Prop := Venue_as_str p.(b_key).(k_venue) = ven.
Definition of_strategy (s : text) (p : BookPosition) : Prop := p.(b_key).(k_strategy) = s.
Definition of_asset (a : text) (p : BookPosition) : Prop := p.(b_key).(k_asset) = a.
#[export] Instance of_wallet_dec w p : Decision (of_wallet w p) := decide (_ = _).
#[export] Instance of_venue_dec w p : Decision (of_venue w p) := decide (_ = _).
#[export] Instance of_strategy_dec w p : Decision (of_strategy w p) := decide (_ = _).
#[export] Instance of_asset_dec w p : Decision (of_asset w p) := decide (_ = _).

Lemma sum_exposure_cons input Q `{!forall p, Decision (Q p)} start p l :
  sum_exposure input Q start (p :: l) =
    sum_exposure input Q
      (if decide (is_priced input p /\ Q p) then fadd start (exposure_ref input p) else start) l.
Proof. unfold sum_exposure. rewrite filter_cons. by case_decide. Qed.

Lemma decide_priced {A} input p Q `{!Decision Q} (x y : A) :
  is_priced input p ->
  (if decide (is_priced input p /\ Q) then x else y) = if decide Q then x else y.
Proof. intros Hp. destruct (decide Q); [by rewrite decide_True|rewrite decide_False; tauto]. Qed.

Lemma decide_unpriced {A} input p Q `{!Decision Q} (x y : A) :
  ~ is_priced input p -> (if decide (is_priced input p /\ Q) then x else y) = y.
Proof. intros Hp. rewrite decide_False; tauto. Qed.

Lemma view_positions_figures input w ven str ass l v :
  view_figures (fold_left (view_position input) l v) w ven str ass =
    (sum_exposure input (fun _ => True) v.(pv_total_exposure_ref) l,
     sum_exposure input (of_wallet w) (slice_exposure w v.(pv_by_wallet)) l,
     sum_exposure input (of_venue ven) (slice_exposure ven v.(pv_by_venue)) l,
     sum_exposure input (of_strategy str) (slice_exposure str v.(pv_by_strategy)) l,
     sum_exposure input (of_asset ass) (slice_exposure ass v.(pv_by_asset)) l).
Proof.
  revert v. induction l as [|p l IH]; intros v; [done|].
  cbn [fold_left]. rewrite IH, !sum_exposure_cons. clear IH.
  assert (Hp : is_priced input p <-> rate input p.(b_key).(k_quote_asset) <> None).
  { unfold is_priced. destruct (rate _ _); cbn; split; congruence. }
  unfold view_position. destruct (rate input p.(b_key).(k_quote_asset)) as [r|] eqn:Hr.
  - cbn [pv_total_exposure_ref pv_by_wallet pv_by_venue pv_by_strategy pv_by_asset].
    rewrite !slice_exposure_add. cbn [es_exposure_ref position_slice].
    assert (He : exposure_ref input p = fmul (exposure (pi_marks input !! k_asset (b_key p)) p) r)
      by (unfold exposure_ref; by rewrite Hr).
    rewrite <- He. rewrite !decide_priced by (by apply Hp). rewrite (decide_True (P := True)) by done. reflexivity.
  - rewrite !decide_unpriced by (by intros ?%Hp). done.
Qed.

(** The other loops leave the exposures alone. *)
Lemma figures_fold {A} (f : PortfolioView -> A -> PortfolioView) w ven str ass l v :
  (forall v x, view_figures (f v x) w ven str ass = view_figures v w ven str ass) ->
  view_figures (fold_left f l v) w ven str ass = view_figures v w ven str ass.
Proof. intros Hf. revert v. induction l as [|x l IH]; intros v; [done|]. cbn. by rewrite IH, Hf. Qed.

Lemma slice_exposure_fee k w fee m :
  slice_exposure k (<[w := slice_fee fee (default ExposureSlice_default (m !! w))]> m) =
    slice_exposure k m.
Proof.
  unfold slice_exposure. destruct (decide (w = k)) as [->|].
  - rewrite lookup_insert_eq. by destruct (m !! k).
  - by rewrite lookup_insert_ne.
Qed.

Lemma compute_figures `{HashOrder} bk series input w ven str ass :
  view_figures (compute bk series input) w ven str ass =
  view_figures (fold_left (view_position input) (map snd (hash_iter bk.(bk_positions)))
    (PortfolioView_empty (fmax input.(pi_capital_base_ref) fzero))) w ven str ass.
Proof.
  unfold compute.
  transitivity (view_figures
    (fold_left (view_peak input) (hash_iter series.(rs_peak))
      (fold_left (view_total input) (hash_iter series.(rs_total))
        (fold_left (view_day input) (hash_iter series.(rs_by_day))
          (fold_left (view_fee input) (hash_iter bk.(bk_standalone_fees))
            (fold_left (view_position input) (map snd (hash_iter bk.(bk_positions)))
              (PortfolioView_empty (fmax input.(pi_capital_base_ref) fzero))))))) w ven str ass);
    [done|].
  rewrite (figures_fold (view_peak input)), (figures_fold (view_total input)),
    (figures_fold (view_day input)), (figures_fold (view_fee input)); [done|..]; intros v.
  - intros [[wallet quote] fee]. unfold view_fee. destruct v, (rate input quote); [|done].
    unfold view_figures; cbn. by rewrite slice_exposure_fee.
  - intros [[day quote] net]. unfold view_day. case_decide; [|done]. by destruct v, (rate input quote).
  - intros [quote total]. unfold view_total. by destruct v, (rate input quote).
  - intros [quote peak]. unfold view_peak. by destruct v, (rate input quote).
Qed.

(** * Entries in flight *)

Definition in_flight (now : Z) (e : ReservedEntry) : Prop :=
  (e.(re_expires_at) <=? now) || is_some e.(re_organization) = false.

#[export] Instance in_flight_dec now e : Decision (in_flight now e) := decide (_ = false).

(** The references of the entries in flight that satisfy [Q]. *)
Definition flight_refs (now : Z) (Q : ReservedEntry -> bool) (l : list ReservedEntry) : list f64 :=
  map re_requested_ref (filter (fun e => in_flight now e /\ Q e = true) l).

Lemma flight_refs_cons now Q e l :
  flight_refs now Q (e :: l) =
    if decide (in_flight now e /\ Q e = true) then e.(re_requested_ref) :: flight_refs now Q l
    else flight_refs now Q l.
Proof. unfold flight_refs. rewrite filter_cons. by case_decide. Qed.

Definition same_wallet (req : GlobalRiskRequest) (e : ReservedEntry) : bool :=
  bool_decide (e.(re_wallet) = req.(gr_wallet)).
Definition same_venue (req : GlobalRiskRequest) (e : ReservedEntry) : bool :=
  bool_decide (e.(re_venue) = Venue_as_str req.(gr_venue)).
Definition same_strategy (req : GlobalRiskRequest) (e : ReservedEntry) : bool :=
  bool_decide (e.(re_strategy) = req.(gr_strategy)).
Definition same_asset (req : GlobalRiskRequest) (e : ReservedEntry) : bool :=
  bool_decide (e.(re_asset) = req.(gr_asset)).

(** The exposure figures, each with the entries that count towards it. *)
Definition exposure_figures (req : GlobalRiskRequest)
    : list ((DecisionSnapshot -> f64) * (ReservedEntry -> bool)) :=
  [(ds_portfolio_ref, fun _ => true); (ds_wallet_ref, same_wallet req);
   (ds_venue_ref, same_venue req); (ds_strategy_ref, same_strategy req);
   (ds_asset_ref, same_asset req)].

Lemma add_reserved_figure now req f Q d e :
  (f, Q) ∈ exposure_figures req ->
  f (add_reserved now req d e) =
    if decide (in_flight now e /\ Q e = true) then fadd (f d) e.(re_requested_ref) else f d.
Proof.
  intros Hin. unfold exposure_figures in Hin. unfold add_reserved.
  destruct (decide (in_flight now e)) as [Hl|Hl]; pose proof Hl as Hb; unfold in_flight in Hb.
  - rewrite Hb. rewrite !elem_of_cons in Hin.
    assert (Hif : forall (b : bool) (x y : f64), (if decide (in_flight now e /\ b = true) then x else y) = if b then x else y).
    { intros [] x y; [by rewrite decide_True|by rewrite decide_False by (by intros [? ?])]. }
    rewrite Hif.
    destruct Hin as [[= -> ->]|[[= -> ->]|[[= -> ->]|[[= -> ->]|[[= -> ->]|Hin]]]]];
      [..|by apply not_elem_of_nil in Hin]; done.
  - apply not_false_iff_true in Hb. rewrite Hb. rewrite decide_False; [done|by intros [? ?]].
Qed.

Lemma add_reserved_figures now req f Q l d :
  (f, Q) ∈ exposure_figures req ->
  f (fold_left (add_reserved now req) l d) = fold_left fadd (flight_refs now Q l) (f d).
Proof.
  intros Hin. revert d. induction l as [|e l IH]; intros d; [done|].
  cbn [fold_left]. rewrite IH, flight_refs_cons, (add_reserved_figure now req f Q) by done.
  by case_decide.
Qed.

(** * Decisions *)

Section Engine.
Context {libs : LedgerLibs} `{HashOrder} {LSt RSt : Type} `{LedgerStore LSt} `{RiskStore RSt}.

Implicit Types g : GlobalRiskEngine LSt RSt.

(** What a decision leaves as it was. *)
Record same_frame g g' : Prop := mkSameFrame {
  sf_config : g'.(ge_config) = g.(ge_config);
  sf_switches : g'.(ge_switches) = g.(ge_switches);
  sf_entries : g'.(ge_entries) = g.(ge_entries);
  sf_store : g'.(ge_store) = g.(ge_store);
}.

Lemma refresh_frame g : same_frame g (refresh_ledger g).2.
Proof. unfold refresh_ledger. destruct (aggregate_limits_enabled _); done. Qed.

Lemma evaluate_frame now req ctx include g : same_frame g (evaluate now req ctx include g).2.
Proof.
  unfold evaluate. destruct (entry_checks _ _ _ _) as [|e|]; [|done|done].
  destruct include; [|done]. destruct (refresh_ledger g).1; apply refresh_frame.
Qed.

Lemma decide_inner_frame now req ctx include g : same_frame g (decide_inner now req ctx include g).2.
Proof.
  unfold decide_inner. cbn [snd].
  match goal with |- context [evaluate _ _ _ _ ?x] =>
    destruct (evaluate_frame now req ctx include x) as [? ? ? ?] end.
  split; done.
Qed.

Lemma rejection_None {A} (r : outcome GlobalRejectReason A) : rejection r = None <-> exists a, r = Ok a.
Proof. destruct r; cbn; split; try done; [eauto|by intros []..]. Qed.

(** The engine whose entries a decision counts: the reservations of the whole
    deployment are installed first where the store shares them. *)
Definition gate_engine (now : Z) g : option (GlobalRiskEngine LSt RSt) :=
  if has_distributed_entry_reservations g.(ge_store) then
    if acquire_entry_admission g.(ge_store) then
      (fun active => install_distributed_reservations now active g)
        <$> active_entry_reservations g.(ge_store)
    else None
  else Some g.

Lemma gate_frame now g g0 :
  gate_engine now g = Some g0 ->
  g0.(ge_config) = g.(ge_config) /\ g0.(ge_switches) = g.(ge_switches)
  /\ g0.(ge_ledger) = g.(ge_ledger) /\ g0.(ge_ledger_store) = g.(ge_ledger_store)
  /\ g0.(ge_store) = g.(ge_store) /\ g0.(ge_portfolio_ready) = g.(ge_portfolio_ready).
Proof.
  unfold gate_engine. destruct (has_distributed_entry_reservations _); [|by intros [= <-]].
  destruct (acquire_entry_admission _); [|done].
  destruct (active_entry_reservations _); [|done]. by intros [= <-].
Qed.

(** How a decision that is accepted and reserved went. *)
Lemma decide_accepted_inv now req ctx org g d lease g' :
  decide_with_reservation now req ctx org g = (d, lease, g') -> accepted d = true ->
  exists g0, gate_engine now g = Some g0 /\
  let r := decide_inner now req ctx (is_none org) g0 in
  d = r.1 /\ g'.(ge_ledger) = r.2.(ge_ledger) /\ g'.(ge_config) = g.(ge_config)
  /\ g'.(ge_switches) = g.(ge_switches)
  /\ exists shared, lease = Some (mkReservationLease d.(gd_decision_id) shared false) /\
       g'.(ge_entries) =
         <[d.(gd_decision_id) := reserved_entry d req org (now + RESERVATION_SECS * SECOND) shared]>
           g0.(ge_entries).
Proof.
  unfold decide_with_reservation. intros He Ha.
  assert (Hrun : exists g0, gate_engine now g = Some g0 /\
     (let r := decide_inner now req ctx (is_none org) g0 in
      let v := reserve_accepted now req org r.1 r.2 in
      (v.1.1, v.1.2, record v.1.1 v.2)) = (d, lease, g')).
  { unfold gate_engine. destruct (has_distributed_entry_reservations _).
    - destruct (acquire_entry_admission _); [destruct (active_entry_reservations _) as [a|]|].
      + eexists. split; [reflexivity|exact He].
      + injection He as <- <- <-. done.
      + injection He as <- <- <-. done.
    - eexists. split; [reflexivity|exact He]. }
  clear He. destruct Hrun as (g0 & Hg0 & He). exists g0. split; [done|].
  destruct (gate_frame now g g0 Hg0) as (Hc & Hs & _). cbn zeta in He |- *.
  destruct (decide_inner_frame now req ctx (is_none org) g0) as [Fc Fs Fe Fst].
  destruct (decide_inner now req ctx (is_none org) g0) as [d0 g1] eqn:Hd. cbn [fst snd] in *.
  unfold reserve_accepted in He. destruct (accepted d0) eqn:Hacc; cbn [negb] in He.
  - set (c := if has_distributed_entry_reservations _ then _ else _) in He.
    destruct c as [ok st'] eqn:Hst. cbn [fst snd] in He. destruct ok; [|injection He as <- <- <-; done].
    cbn in He. injection He as <- <- <-. cbn.
    split; [done|]. split; [done|]. split; [congruence|]. split; [congruence|].
    eexists. by rewrite Fe.
  - cbn in He. injection He as <- <- <-. congruence.
Qed.

(** The checks a deployment-wide accept passed. *)
Lemma evaluate_Ok now req ctx g u d g' :
  evaluate now req ctx true g = (Ok u, d, g') ->
  entry_checks req ctx g.(ge_switches) g.(ge_config) = Ok tt
  /\ refresh_ledger g = (true, g') /\ d = deployment_snapshot now req ctx g'
  /\ let input := portfolio_inputs now ctx g'.(ge_config) in
     limit_checks g'.(ge_config) g'.(ge_ledger).(in_book)
       (compute g'.(ge_ledger).(in_book) g'.(ge_ledger).(in_series) input)
       (rate input req.(gr_quote_asset)) req d = Ok tt.
Proof.
  unfold evaluate. destruct (entry_checks _ _ _ _) as [[]|e|]; [|done|done].
  destruct (refresh_ledger g) as [ok g1]; cbn [fst snd]. destruct ok; [|done].
  unfold deployment_checks. intros [= Hl <- <-]. destruct u. done.
Qed.

Lemma entry_checks_Ok req ctx k c :
  entry_checks req ctx k c = Ok tt ->
  is_finite req.(gr_requested_quote) = true /\ fltb fzero req.(gr_requested_quote) = true
  /\ ctx.(cx_global_kill) = false /\ venue_killed req.(gr_venue) k = None
  /\ strategy_killed req.(gr_strategy) k = None /\ global_risk_config_is_valid c = true.
Proof.
  unfold entry_checks. intros. inv_ok. bool_to_prop.
  destruct (venue_killed _ _); [done|]. destruct (strategy_killed _ _); [done|].
  repeat split; try done. apply fleb_false; [by apply finite_not_nan|done|done].
Qed.

Lemma check_caps_Ok r caps :
  check_caps r caps = Ok tt ->
  Forall (fun lc => fltb fzero lc.1.1 = true -> fltb lc.1.1 (fadd lc.1.2 r) = false) caps.
Proof.
  induction caps as [|[[limit current] reason] caps IH]; intros Hc; [constructor|].
  cbn in Hc. inv_ok. constructor; [|by auto]. cbn. intros Hl. by rewrite Hl in *.
Qed.

Lemma valid_config_limits c :
  global_risk_config_is_valid c = true ->
  Forall (fun v => is_nan v = false)
    [c.(gc_max_portfolio_exposure_ref); c.(gc_max_wallet_exposure_ref);
     c.(gc_max_venue_exposure_ref); c.(gc_max_strategy_exposure_ref);
     c.(gc_max_asset_exposure_ref); c.(gc_max_order_notional_ref); c.(gc_max_daily_loss_ref);
     c.(gc_max_drawdown_ref)].
Proof.
  unfold global_risk_config_is_valid. intros Hv. bool_to_prop.
  repeat match goal with
  | H : forallb _ (_ :: _) = true |- _ => cbn [forallb] in H
  | H : (_ && _)%bool = true |- _ => apply andb_true_iff in H; destruct H as [? ?]
  | H : limit_ok _ = true |- _ => unfold limit_ok in H
  end.
  repeat constructor; by apply finite_not_nan.
Qed.


Lemma requested_finite now req ctx g' :
  is_finite req.(gr_requested_quote) = true ->
  let input := portfolio_inputs now ctx g'.(ge_config) in
  let d := deployment_snapshot now req ctx g' in
  is_some (rate input req.(gr_quote_asset)) && negb (is_finite d.(ds_requested_ref)) = false ->
  is_finite d.(ds_requested_ref) = true.
Proof.
  intros Hf input d. assert (Hd : d.(ds_requested_ref) = fmul req.(gr_requested_quote)
    (default fzero (rate input req.(gr_quote_asset)))).
  { unfold d, deployment_snapshot. generalize (map snd (hash_iter g'.(ge_entries))). intros l.
    set (d0 := book_snapshot _ _ _ _). change (fmul _ _) with d0.(ds_requested_ref).
    clearbody d0. clear. revert d0. induction l as [|e l IH]; intros d0; [done|]. cbn.
    rewrite IH. unfold add_reserved. by destruct (_ || _). }
  rewrite Hd. destruct (rate input _) as [r|]; cbn.
  - intros Hn. by apply negb_false_iff in Hn.
  - intros _. by destruct (gr_requested_quote req).
Qed.

(** What a deployment-wide accept says of its snapshot. *)
Lemma accepted_snapshot now req ctx g d lease g' :
  decide_with_reservation now req ctx None g = (d, lease, g') -> accepted d = true ->
  exists g0 g1, gate_engine now g = Some g0 /\ g1.(ge_entries) = g0.(ge_entries)
    /\ g1.(ge_config) = g.(ge_config) /\ g1.(ge_ledger) = g'.(ge_ledger)
    /\ entry_checks req ctx g.(ge_switches) g.(ge_config) = Ok tt
    /\ d.(gd_snapshot) = deployment_snapshot now req ctx g1
    /\ let input := portfolio_inputs now ctx g.(ge_config) in
       limit_checks g.(ge_config) g1.(ge_ledger).(in_book)
         (compute g1.(ge_ledger).(in_book) g1.(ge_ledger).(in_series) input)
         (rate input req.(gr_quote_asset)) req d.(gd_snapshot) = Ok tt.
Proof.
  intros Hd Ha. destruct (decide_accepted_inv _ _ _ _ _ _ _ _ Hd Ha) as (g0 & Hg & -> & Hl & _).
  destruct (gate_frame now g g0 Hg) as (Hc & Hs & _).
  unfold accepted in Ha. unfold decide_inner in *. cbn [is_none fst snd gd_reason gd_snapshot] in *.
  match type of Ha with context [evaluate now req ctx true ?x] => set (gx := x) in * end.
  pose proof (evaluate_frame now req ctx true gx) as [Fc Fs Fe Fst].
  destruct (evaluate now req ctx true gx) as [[r s] g1] eqn:He. cbn [fst snd] in *.
  destruct r as [u|e|]; [|done|done].
  destruct (evaluate_Ok _ _ _ _ _ _ _ He) as (Hen & _ & -> & Hlim).
  exists g0, g1. cbn in Fc, Fs, Fe, Hen. rewrite Fc in Hlim. rewrite Hc, Hs in *.
  repeat split; done || congruence.
Qed.

(** What the snapshot of an accepted decision counts: the book, and every entry in
    flight. *)
Lemma accepted_figures now req ctx g d lease g' f Q :
  decide_with_reservation now req ctx None g = (d, lease, g') -> accepted d = true ->
  (f, Q) ∈ exposure_figures req ->
  let input := portfolio_inputs now ctx g.(ge_config) in
  exists g0, gate_engine now g = Some g0
  /\ f d.(gd_snapshot) =
     fold_left fadd (flight_refs now Q (map snd (hash_iter g0.(ge_entries))))
       (f (book_snapshot g.(ge_config) input
             (compute g'.(ge_ledger).(in_book) g'.(ge_ledger).(in_series) input) req)).
Proof.
  intros Hd Ha HQ input. destruct (accepted_snapshot _ _ _ _ _ _ _ Hd Ha) as (g0 & g1 & Hg & He & Hc & Hl & _ & Hs & _).
  exists g0. split; [done|]. rewrite Hs. unfold deployment_snapshot.
  rewrite (add_reserved_figures now req f Q) by done. unfold input. by rewrite He, Hl, Hc.
Qed.

Lemma positions_within c bk series input r req s :
  limit_checks c bk (compute bk series input) r req s = Ok tt ->
  0 < c.(gc_max_open_positions) ->
  (exists p, bk.(bk_positions) !! request_key req = Some p /\ is_open p = true)
  \/ Z.of_nat (open_count bk) < c.(gc_max_open_positions).
Proof.
  unfold limit_checks. intros Hlim Hmax. inv_ok. apply Z.ltb_lt in Hmax.
  match goal with H : (0 <? _) && _ && _ = false |- _ => rewrite Hmax in H; cbn [andb] in H; rename H into Hp end.
  destruct (bk_positions bk !! request_key req) as [p|]; [destruct (is_open p) eqn:Ho; [left; by exists p|]|]; right.
  all: cbn [negb andb] in Hp; apply Z.leb_gt in Hp; exact Hp.
Qed.

(** A drawdown below the effective limit is below each of the two limits. *)
Lemma drawdown_within c x :
  (forall limit, effective_drawdown_limit c = Some limit -> fleb limit x = false) ->
  (fltb fzero c.(gc_max_drawdown_ref) = true -> fleb c.(gc_max_drawdown_ref) x = false)
  /\ (fltb fzero c.(gc_max_drawdown_pct) = true -> fltb fzero c.(gc_capital_base_ref) = true ->
       fleb (fmul c.(gc_capital_base_ref) c.(gc_max_drawdown_pct)) x = false).
Proof.
  unfold effective_drawdown_limit. set (p := fmul _ _).
  assert (Hboth : forall a, fleb (fmin a p) x = false ->
    (is_nan a = false -> fleb a x = false) /\ (is_nan p = false -> fleb p x = false)).
  { intros a Hm. split; intros Hnan; apply not_true_is_false; intros Hle;
      [pose proof (fleb_trans _ _ _ (fmin_le_l a p Hnan) Hle)|pose proof (fleb_trans _ _ _ (fmin_le_r a p Hnan) Hle)];
      congruence. }
  assert (Hnum : forall a, fltb fzero a = true -> is_nan a = false) by (by intros []).
  destruct (fltb fzero (gc_max_drawdown_ref c)) eqn:Ha, (fltb fzero (gc_max_drawdown_pct c)) eqn:Hp,
    (fltb fzero (gc_capital_base_ref c)); cbn [andb]; intros Hx; split; intros; try done; try by apply Hx.
  - apply (Hboth _ (Hx _ eq_refl)). by apply Hnum.
  - apply not_true_is_false. intros Hle. destruct (Hboth _ (Hx _ eq_refl)) as [_ Hr].
    rewrite Hr in Hle; [done|]. by destruct p.
Qed.

(** The limits that checks which passed put on the snapshot. *)
Lemma within_limits c bk v r req s :
  global_risk_config_is_valid c = true ->
  (is_some r && negb (is_finite s.(ds_requested_ref)) = false -> is_finite s.(ds_requested_ref) = true) ->
  limit_checks c bk v r req s = Ok tt ->
  Forall (fun lc => fltb fzero lc.1.1 = true ->
    fleb (fadd lc.1.2 s.(ds_requested_ref)) lc.1.1 = true) (exposure_caps c s)
  /\ (fltb fzero c.(gc_max_order_notional_ref) = true ->
       fleb s.(ds_requested_ref) c.(gc_max_order_notional_ref) = true)
  /\ (fltb fzero c.(gc_max_daily_loss_ref) = true ->
       fltb (fneg c.(gc_max_daily_loss_ref)) s.(ds_realized_today_ref) = true)
  /\ (forall limit, effective_drawdown_limit c = Some limit ->
       fleb limit s.(ds_drawdown_ref) = false).
Proof.
  intros Hvalid Hr Hlim. apply valid_config_limits in Hvalid.
  unfold limit_checks in Hlim. inv_ok.
  match goal with H : check_caps _ _ = Ok ?u |- _ => destruct u; apply check_caps_Ok in H; rename H into Hcaps end.
  specialize (Hr ltac:(done)).
  match goal with H : negb (snapshot_finite s) = false |- _ => apply negb_false_iff in H; rename H into Hfin end.
  unfold snapshot_finite in Hfin. cbn [forallb] in Hfin. 
  repeat match goal with H : (is_finite _ && _)%bool = true |- _ => apply andb_true_iff in H; destruct H as [? ?] end.
  rewrite !Forall_cons in Hvalid. destruct Hvalid as (? & ? & ? & ? & ? & ? & ? & _).
  split; [|split; [|split]].
  - unfold exposure_caps in *. rewrite !Forall_cons in *. cbn [fst snd] in *.
    repeat match goal with H : _ /\ _ |- _ => destruct H end.
    repeat split; try (by constructor); intros Hp;
      (apply fltb_false; [done|by apply fadd_finite_number|auto]).
  - intros Hp. apply fltb_false; [done|by apply finite_not_nan|].
    match goal with H : (fltb fzero (gc_max_order_notional_ref c) && _) = false |- _ =>
      by rewrite Hp in H end.
  - intros Hp. apply fleb_false; [by apply finite_not_nan|by destruct (gc_max_daily_loss_ref c)|].
    match goal with H : (fltb fzero (gc_max_daily_loss_ref c) && fleb _ _) = false |- _ =>
      by rewrite Hp in H end.
  - intros limit Hl. match goal with H : match effective_drawdown_limit c with _ => _ end = false |- _ =>
      by rewrite Hl in H end.
Qed.

(** C26: a deployment-wide accept is within every limit of the configuration.  No kill
    switch covers the request.  The five exposures are the book's plus, one by one,
    those of the entries in flight that share the wallet, venue, strategy or asset;
    with the request on top, each stays within its cap where one is set.  The order
    itself is under the notional limit, the day's loss short of the loss limit, the
    drawdown short of both its limits.  The position is open already or there are
    fewer than the limit of open positions in the book; entries in flight are not
    among those ([open_position_cap_misses_reservations]). *)
Theorem accepted_within_limits now req ctx g d lease g'
  (Hd : decide_with_reservation now req ctx None g = (d, lease, g'))
  (Ha : accepted d = true) :
  let c := g.(ge_config) in
  let s := d.(gd_snapshot) in
  let input := portfolio_inputs now ctx c in
  let bk := g'.(ge_ledger).(in_book) in
  let within cap figure := fltb fzero cap = true -> fleb (fadd figure s.(ds_requested_ref)) cap = true in
  ctx.(cx_global_kill) = false
  /\ venue_killed req.(gr_venue) g.(ge_switches) = None
  /\ strategy_killed req.(gr_strategy) g.(ge_switches) = None
  /\ (forall f Q, (f, Q) ∈ exposure_figures req ->
        exists g0, gate_engine now g = Some g0
        /\ f s = fold_left fadd (flight_refs now Q (map snd (hash_iter g0.(ge_entries))))
                  (f (book_snapshot c input (compute bk g'.(ge_ledger).(in_series) input) req)))
  /\ within c.(gc_max_portfolio_exposure_ref) s.(ds_portfolio_ref)
  /\ within c.(gc_max_wallet_exposure_ref) s.(ds_wallet_ref)
  /\ within c.(gc_max_venue_exposure_ref) s.(ds_venue_ref)
  /\ within c.(gc_max_strategy_exposure_ref) s.(ds_strategy_ref)
  /\ within c.(gc_max_asset_exposure_ref) s.(ds_asset_ref)
  /\ (fltb fzero c.(gc_max_order_notional_ref) = true ->
       fleb s.(ds_requested_ref) c.(gc_max_order_notional_ref) = true)
  /\ (fltb fzero c.(gc_max_daily_loss_ref) = true ->
       fltb (fneg c.(gc_max_daily_loss_ref)) s.(ds_realized_today_ref) = true)
  /\ (fltb fzero c.(gc_max_drawdown_ref) = true -> fleb c.(gc_max_drawdown_ref) s.(ds_drawdown_ref) = false)
  /\ (fltb fzero c.(gc_max_drawdown_pct) = true -> fltb fzero c.(gc_capital_base_ref) = true ->
       fleb (fmul c.(gc_capital_base_ref) c.(gc_max_drawdown_pct)) s.(ds_drawdown_ref) = false)
  /\ (0 < c.(gc_max_open_positions) ->
       (exists p, bk.(bk_positions) !! request_key req = Some p /\ is_open p = true)
       \/ Z.of_nat (open_count bk) < c.(gc_max_open_positions)).
Proof.
  cbv zeta. destruct (accepted_snapshot _ _ _ _ _ _ _ Hd Ha)
    as (g0 & g1 & _ & _ & Hc & Hl & Hen & Hs & Hlim).
  apply entry_checks_Ok in Hen as (Hq & _ & Hk & Hv & Hst & Hvalid). rewrite Hl in Hlim.
  pose proof (positions_within _ _ _ _ _ _ _ Hlim) as Hpos.
  cbv zeta in Hlim. eapply within_limits in Hlim as (Hcaps & Hn & Hloss & Hdd); [|exact Hvalid|].
  2:{ intros Hr. rewrite Hs. apply requested_finite; [done|]. by rewrite <- Hs, Hc. }
  apply drawdown_within in Hdd as [Hd1 Hd2]. unfold exposure_caps in Hcaps. rewrite !Forall_cons in Hcaps.
  destruct Hcaps as (? & ? & ? & ? & ? & _). split_and!; try done.
  intros f Q HQ. by eapply accepted_figures.
Qed.

(** no entry in flight is left out.  If a deployment-wide decision is
    accepted, every reservation that is neither expired nor a tenant's is
    counted in the exposure of the portfolio, and in the exposure of its wallet,
    venue, strategy and asset when the request shares it: each figure of the
    decision is at least that reservation and at least the book's own figure,
    in the arithmetic of doubles. *)
Theorem accepted_counts_in_flight `{!HashOrderLaws} now req ctx g g0 d lease g' f Q
  (Hd : decide_with_reservation now req ctx None g = (d, lease, g'))
  (Ha : accepted d = true)
  (Hg : gate_engine now g = Some g0)
  (Hres : map_Forall (fun _ e => amount e.(re_requested_ref) = true) g0.(ge_entries))
  (HQ : (f, Q) ∈ exposure_figures req) :
  let input := portfolio_inputs now ctx g.(ge_config) in
  let book := book_snapshot g.(ge_config) input
    (compute g'.(ge_ledger).(in_book) g'.(ge_ledger).(in_series) input) req in
  amount (f book) = true ->
  fleb (f book) (f d.(gd_snapshot)) = true
  /\ (forall id e, g0.(ge_entries) !! id = Some e -> in_flight now e -> Q e = true ->
       fleb e.(re_requested_ref) (f d.(gd_snapshot)) = true).
Proof.
  intros input book Hbook.
  destruct (accepted_snapshot _ _ _ _ _ _ _ Hd Ha) as (g0' & g1 & Hg' & He & Hc & Hl & _ & Hs & Hlim).
  rewrite Hg in Hg'. injection Hg' as <-.
  assert (Hfin : is_finite (f (gd_snapshot d)) = true).
  { cbn zeta in Hlim. unfold limit_checks in Hlim. inv_ok.
    match goal with H : negb (snapshot_finite _) = false |- _ => apply negb_false_iff in H; rename H into Hf end.
    unfold snapshot_finite in Hf. cbn [forallb] in Hf.
    repeat match goal with H : (is_finite _ && _)%bool = true |- _ => apply andb_true_iff in H; destruct H as [? ?] end.
    unfold exposure_figures in HQ. rewrite !elem_of_cons in HQ.
    destruct HQ as [[= -> ->]|[[= -> ->]|[[= -> ->]|[[= -> ->]|[[= -> ->]|HQ]]]]];
      [done..|by apply not_elem_of_nil in HQ]. }
  assert (Hfold : f (gd_snapshot d) =
            fold_left fadd (flight_refs now Q (map snd (hash_iter g0.(ge_entries)))) (f book)).
  { destruct (accepted_figures _ _ _ _ _ _ _ f Q Hd Ha HQ) as (g0' & Hg' & Hf). rewrite Hg in Hg'. by injection Hg' as <-. }
  assert (Hel : forall id e, g0.(ge_entries) !! id = Some e <-> (id, e) ∈ hash_iter g0.(ge_entries)).
  { intros id e. rewrite <- elem_of_map_to_list. by rewrite (hash_iter_perm g0.(ge_entries)). }
  rewrite Hfold in Hfin |- *.
  destruct (fold_fadd_ge (flight_refs now Q (map snd (hash_iter g0.(ge_entries)))) _ Hbook)
    as [Hge Hall]; [|done|].
  - unfold flight_refs. apply Forall_fmap. apply Forall_forall. intros e [_ Hin]%list_elem_of_filter.
    apply list_elem_of_fmap in Hin as ([id e'] & -> & Hin). apply Hel in Hin. exact (Hres id e' Hin).
  - split; [done|]. intros id e Hin Hlive HQe.
    apply (proj1 (Forall_forall _ _) Hall). unfold flight_refs. apply list_elem_of_fmap.
    exists e. split; [done|]. apply list_elem_of_filter. split; [done|].
    apply list_elem_of_fmap. exists (id, e). split; [done|]. by apply Hel.
Qed.

(** what an accept reserves, and for how long.  The reservation carries the
    request and its value, runs out 300 seconds later, and stays until its lease
    is released; releasing removes exactly it, and releasing again changes
    nothing. *)
Theorem reservation_lifecycle now req ctx org g d lease g'
  (Hd : decide_with_reservation now req ctx org g = (d, lease, g'))
  (Ha : accepted d = true) :
  exists l e, lease = Some l /\ g'.(ge_entries) !! l.(le_id) = Some e
    /\ e.(re_module) = req.(gr_module) /\ e.(re_organization) = org
    /\ e.(re_wallet) = req.(gr_wallet) /\ e.(re_asset) = req.(gr_asset)
    /\ e.(re_requested_quote) = req.(gr_requested_quote)
    /\ e.(re_requested_ref) = d.(gd_snapshot).(ds_requested_ref)
    /\ e.(re_expires_at) = now + 300 * SECOND
    /\ let r := release_lease l g' in
       r.2.(ge_entries) = delete l.(le_id) g'.(ge_entries)
       /\ release_lease r.1 r.2 = (r.1, r.2).
Proof.
  destruct (decide_accepted_inv _ _ _ _ _ _ _ _ Hd Ha)
    as (g0 & _ & _ & _ & _ & _ & shared & -> & He).
  eexists _, _. split; [done|]. rewrite He. cbn [le_id].
  split; [apply lookup_insert_eq|]. repeat (split; [done|]).
  cbn. by rewrite He.
Qed.

(** * Kill switches over time *)

(** What happens to an engine between two decisions. *)
Inductive engine_op : Type :=
  | OpDecide (now : Z) (req : GlobalRiskRequest) (ctx : DecisionContext) (org : option OrganizationId)
  | OpReleaseLease (l : ReservationLease)
  | OpUpdateConfig (now : Z) (c : GlobalRiskConfig)
  | OpReady (on : bool)
  | OpRestore
  | OpEngage (now : Z) (scope : KillScope) (reason actor : text)
  | OpReleaseScope (now : Z) (scope : KillScope) (reason actor : text).

Definition apply_op (g : GlobalRiskEngine LSt RSt) (o : engine_op) : GlobalRiskEngine LSt RSt :=
  match o with
  | OpDecide now req ctx org => (decide_with_reservation now req ctx org g).2
  | OpReleaseLease l => (release_lease l g).2
  | OpUpdateConfig now c => update_config now c g
  | OpReady on => set_portfolio_ready on g
  | OpRestore => (restore g).2
  | OpEngage now scope reason actor => (engage now scope reason actor g).2
  | OpReleaseScope now scope reason actor => (release_scope now scope reason actor g).2
  end.

Definition run_ops (ops : list engine_op) g : GlobalRiskEngine LSt RSt := fold_left apply_op ops g.

Definition releases (k : KillScope) (o : engine_op) : Prop :=
  match o with OpReleaseScope _ scope _ _ => scope = k | _ => False end.

(** An operator holds the switch of [k]. *)
Definition held (k : KillScope) (m : gmap KillScope KillSwitchState) : Prop :=
  exists st, m !! k = Some st /\ st.(ks_engaged) = true.

Lemma held_pin now k m scope : held k m -> held k (pin now m scope).
Proof.
  intros (st & Hm & He). unfold held, pin. destruct (decide (scope = k)) as [->|].
  - rewrite lookup_insert_eq, Hm. by eexists.
  - rewrite lookup_insert_ne by done. eauto.
Qed.

Lemma held_apply_config now venues strategies k s :
  held k s.(sw) -> held k (apply_config now venues strategies s).(sw).
Proof.
  intros Hk. unfold apply_config. cbn [sw].
  assert (Hu : held k (unpinned <$> s.(sw))).
  { destruct Hk as (st & Hm & He). exists (unpinned st). by rewrite lookup_fmap, Hm. }
  revert Hu. generalize (unpinned <$> s.(sw)). generalize (config_scopes venues strategies).
  intros l. induction l as [|x l IH]; intros m Hm; cbn; [|by apply IH, held_pin].
  destruct Hm as (st & Hm & He). exists st. split; [|done].
  apply map_lookup_filter_Some. split; [done|]. unfold switch_active. cbn. by rewrite He, orb_true_r.
Qed.

Lemma held_restore states k acc : held k acc.2 -> held k (fold_left restore_switch states acc).2.
Proof.
  revert acc. induction states as [|st states IH]; intros acc Hk; [done|].
  cbn [fold_left]. apply IH. unfold restore_switch. destruct (ks_engaged st); cbn; [|done].
  destruct Hk as (x & Hx & He). unfold held. destruct (decide (ks_scope st = k)) as [->|].
  - rewrite lookup_insert_eq. by eexists.
  - rewrite lookup_insert_ne by done. eauto.
Qed.

Lemma held_engage now scope reason actor k s :
  held k s.(sw) -> held k (engage_switch now scope reason actor s).2.(sw).
Proof.
  intros (x & Hx & He). unfold engage_switch, held. destruct (decide (scope = k)) as [->|].
  - rewrite Hx. cbn. rewrite He. cbn. rewrite lookup_insert_eq. eauto.
  - case_match; cbn; rewrite lookup_insert_ne by done; eauto.
Qed.

Lemma held_engaged now k reason actor s : held k (engage_switch now k reason actor s).2.(sw).
Proof.
  unfold engage_switch, held. destruct (ks_engaged (default _ (sw s !! k))) eqn:He; cbn;
    rewrite lookup_insert_eq; eauto.
Qed.

Lemma engage_switches now scope reason actor g :
  (engage now scope reason actor g).2.(ge_switches) =
    (engage_switch now scope reason actor g.(ge_switches)).2.
Proof. unfold engage. cbn [snd]. by case_decide. Qed.

Lemma held_release scope k s :
  scope <> k -> held k s.(sw) -> held k (release_switch scope s).2.(sw).
Proof.
  intros Hne (x & Hx & He). unfold release_switch, held.
  destruct (sw s !! scope); [|eauto]. destruct (ks_configured k0); [eauto|].
  destruct (ks_engaged k0); cbn; [|eauto]. rewrite lookup_delete_ne by done. eauto.
Qed.

Lemma decide_switches now req ctx org g :
  (decide_with_reservation now req ctx org g).2.(ge_switches) = g.(ge_switches).
Proof.
  assert (Hrun : forall g0, g0.(ge_switches) = g.(ge_switches) ->
    (reserve_accepted now req org (decide_inner now req ctx (is_none org) g0).1
       (decide_inner now req ctx (is_none org) g0).2).2.(ge_switches) = g.(ge_switches)).
  { intros g0 Hs. destruct (decide_inner_frame now req ctx (is_none org) g0) as [_ Fs _ _].
    rewrite <- Hs, <- Fs. unfold reserve_accepted. destruct (accepted _); [|done]. cbn [negb].
    destruct (if has_distributed_entry_reservations _ then _ else _) as [[] st']; done. }
  assert (Hfail : (reservation_failure now req ctx (is_none org) g).2.(ge_switches) = g.(ge_switches)).
  { unfold reservation_failure. cbn. apply (sf_switches _ _ (decide_inner_frame now req ctx (is_none org) g)). }
  unfold decide_with_reservation. destruct (has_distributed_entry_reservations _).
  - destruct (acquire_entry_admission _); [|exact Hfail].
    destruct (active_entry_reservations _); [|exact Hfail]. by apply Hrun.
  - by apply Hrun.
Qed.

Lemma held_step k g o :
  ~ releases k o -> held k g.(ge_switches).(sw) -> held k (apply_op g o).(ge_switches).(sw).
Proof.
  intros Hne Hk. destruct o as [now req ctx org|l|now c|on| |now scope reason actor|now scope reason actor];
    cbn [apply_op releases] in *.
  - by rewrite decide_switches.
  - unfold release_lease. by destruct (le_released l).
  - by apply held_apply_config.
  - done.
  - unfold restore. destruct (load_kill_switches _); [|done]. cbn. by apply held_restore.
  - rewrite engage_switches. by apply held_engage.
  - unfold release_scope. cbn [snd]. case_decide; cbn; by apply held_release.
Qed.

Lemma held_active k s : held k s.(sw) -> is_some (active_switch k s) = true.
Proof.
  intros (st & Hm & He). unfold active_switch. rewrite Hm. cbn. unfold switch_active.
  by rewrite He, orb_true_r.
Qed.

(** The switches that cover a request. *)
Definition covers (k : KillScope) (req : GlobalRiskRequest) : Prop :=
  k = ScopeVenue req.(gr_venue) \/ k = ScopeStrategy req.(gr_strategy).

Lemma covered_refused now req ctx org g k :
  covers k req -> is_some (active_switch k g.(ge_switches)) = true ->
  accepted (decide_with_reservation now req ctx org g).1.1 = false.
Proof.
  intros Hc Hk. destruct (accepted _) eqn:Ha; [exfalso|done].
  destruct (decide_with_reservation now req ctx org g) as [[d lease] g'] eqn:Hd. cbn [fst] in Ha.
  destruct (decide_accepted_inv _ _ _ _ _ _ _ _ Hd Ha) as (g0 & Hg & -> & _).
  destruct (gate_frame now g g0 Hg) as (_ & Hs & _).
  unfold accepted, decide_inner, evaluate in Ha. cbn [fst gd_reason ge_switches set_engine] in Ha.
  destruct (entry_checks _ _ _ _) as [[]|e|] eqn:He; [|done|done].
  apply entry_checks_Ok in He as (_ & _ & _ & Hv & Hst & _).
  cbn [ge_switches set_engine] in Hv, Hst. rewrite Hs in Hv, Hst.
  unfold venue_killed, strategy_killed in *.
  destruct Hc as [-> | ->]; [by rewrite Hv in Hk|by rewrite Hst in Hk].
Qed.

Lemma reserve_refused now req org d g :
  accepted (reserve_accepted now req org d g).1.1 = false ->
  (reserve_accepted now req org d g).1.2 = None.
Proof.
  unfold reserve_accepted. destruct (accepted d) eqn:Hd; cbn [negb]; [|done].
  destruct (if has_distributed_entry_reservations _ then _ else _) as [[] st']; cbn; [|done].
  intros Hx. by rewrite Hx in Hd.
Qed.

Lemma refused_reserves_nothing now req ctx org g :
  accepted (decide_with_reservation now req ctx org g).1.1 = false ->
  (decide_with_reservation now req ctx org g).1.2 = None.
Proof.
  unfold decide_with_reservation. destruct (has_distributed_entry_reservations _).
  - destruct (acquire_entry_admission _); [|done].
    destruct (active_entry_reservations _); [|done]. apply reserve_refused.
  - apply reserve_refused.
Qed.

(** A refusal leaves the entries in flight as they were, where the store does
    not share them. *)
Lemma refused_entries now req ctx org g :
  has_distributed_entry_reservations g.(ge_store) = false ->
  accepted (decide_with_reservation now req ctx org g).1.1 = false ->
  (decide_with_reservation now req ctx org g).2.(ge_entries) = g.(ge_entries).
Proof.
  intros Hd. unfold decide_with_reservation. rewrite Hd. cbn [fst snd].
  destruct (decide_inner_frame now req ctx (is_none org) g) as [_ _ Fe Fst].
  rewrite <- Fe. unfold reserve_accepted. rewrite Fst, Hd.
  destruct (accepted (decide_inner now req ctx (is_none org) g).1) eqn:Ha; cbn [negb fst snd];
    intros Hx; [by rewrite Hx in Ha|done].
Qed.

(** an engaged kill switch stays engaged.  Once an operator engages the
    switch of a venue or of a strategy, every later decision on it is refused
    and reserves nothing, whatever happens in between (decisions, releases of
    leases, reloads of the configuration, restores from the journal, other
    switches), until an operator releases that very switch. *)
Theorem engaged_scope_refuses k now0 reason actor g ops now req ctx org
  (Hops : Forall (fun o => ~ releases k o) ops)
  (Hc : covers k req) :
  let g1 := run_ops ops (engage now0 k reason actor g).2 in
  let v := decide_with_reservation now req ctx org g1 in
  accepted v.1.1 = false /\ v.1.2 = None.
Proof.
  intros g1 v. assert (Hk : held k g1.(ge_switches).(sw)).
  { unfold g1, run_ops. assert (Hh : held k (engage now0 k reason actor g).2.(ge_switches).(sw)).
    { rewrite engage_switches. apply held_engaged. }
    revert Hh. generalize (engage now0 k reason actor g).2. intros g0 Hh.
    revert g0 Hh. induction Hops as [|o ops Ho Hops' IH]; intros g0 Hh; [done|].
    cbn. apply IH. by apply held_step. }
  pose proof (covered_refused now req ctx org g1 k Hc (held_active _ _ Hk)) as Ha. fold v in Ha.
  split; [done|]. by apply refused_reserves_nothing.
Qed.

(** The configuration holds the switch of [k]. *)
Definition pinned (k : KillScope) (m : gmap KillScope KillSwitchState) : Prop :=
  exists st, m !! k = Some st /\ st.(ks_configured) = true.

Lemma pinned_pins now k l m : pinned k m -> pinned k (fold_left (pin now) l m).
Proof.
  revert m. induction l as [|x l IH]; intros m Hm; [done|]. cbn. apply IH. unfold pin, pinned.
  destruct (decide (x = k)) as [->|]; [rewrite lookup_insert_eq; eauto|by rewrite lookup_insert_ne].
Qed.

Lemma pinned_listed now k l m : k ∈ l -> pinned k (fold_left (pin now) l m).
Proof.
  revert m. induction l as [|x l IH]; intros m Hin; [by apply not_elem_of_nil in Hin|].
  cbn. apply elem_of_cons in Hin as [<-|Hin]; [|by apply IH].
  apply pinned_pins. unfold pin, pinned. rewrite lookup_insert_eq. eauto.
Qed.

(** a switch the configuration lists cannot be released by an operator, and
    it is active from the moment the configuration is applied. *)
Theorem configured_scope_pinned k now c g now' reason actor req ctx org
  (Hin : k ∈ config_scopes (killed_venue_list c) c.(gc_killed_strategies)) :
  let g1 := update_config now c g in
  let r := release_scope now' k reason actor g1 in
  r.1 = PinnedByConfig /\ r.2.(ge_switches) = g1.(ge_switches)
  /\ (covers k req -> accepted (decide_with_reservation now' req ctx org r.2).1.1 = false).
Proof.
  intros g1 r. assert (Hk : pinned k g1.(ge_switches).(sw)).
  { unfold g1, update_config, apply_config. cbn [ge_switches sw].
    destruct (pinned_listed now k _ (unpinned <$> (ge_switches g).(sw)) Hin) as (st & Hf & Hcf).
    exists st. split; [|done].
    apply map_lookup_filter_Some. split; [done|]. unfold switch_active. cbn. by rewrite Hcf. }
  destruct Hk as (st & Hk & Hcf).
  assert (Hr : r = (PinnedByConfig, set_switches g1.(ge_switches) g1.(ge_store) g1)).
  { unfold r, release_scope, release_switch. by rewrite Hk, Hcf. }
  rewrite Hr. split; [done|split; [done|]]. intros Hc. apply (covered_refused _ _ _ _ _ k Hc).
  unfold active_switch. cbn [ge_switches set_switches snd]. rewrite Hk. cbn.
  unfold switch_active. by rewrite Hcf.
Qed.

(** the view of the portfolio is the book, added up.  Its total exposure, and
    the exposure of each wallet, venue, strategy and asset, is the sum of the
    exposures (converted at the reference rate) of exactly the positions that
    have a rate and belong there, in the order the book is iterated. *)
Theorem view_is_book_sum bk series input w ven str ass :
  let v := compute bk series input in
  let l := map snd (hash_iter bk.(bk_positions)) in
  v.(pv_total_exposure_ref) = sum_exposure input (fun _ => True) fzero l
  /\ slice_exposure w v.(pv_by_wallet) = sum_exposure input (of_wallet w) fzero l
  /\ slice_exposure ven v.(pv_by_venue) = sum_exposure input (of_venue ven) fzero l
  /\ slice_exposure str v.(pv_by_strategy) = sum_exposure input (of_strategy str) fzero l
  /\ slice_exposure ass v.(pv_by_asset) = sum_exposure input (of_asset ass) fzero l.
Proof.
  intros v l. pose proof (compute_figures bk series input w ven str ass) as Hf.
  rewrite view_positions_figures in Hf. unfold view_figures in Hf.
  apply pair_eq in Hf as [Hf H5]. apply pair_eq in Hf as [Hf H4]. apply pair_eq in Hf as [Hf H3].
  apply pair_eq in Hf as [Hf H2]. auto.
Qed.
End Engine.

(** * A concrete run *)

Definition demo_global_config (portfolio_cap : f64) (max_open : Z) : GlobalRiskConfig :=
  {| gc_reference_asset := lit "USD";
     gc_reference_rates := {[lit "SOL" := f_of_Z 2]};
     gc_capital_base_ref := f_of_Z 1000;
     gc_max_portfolio_exposure_ref := portfolio_cap;
     gc_max_wallet_exposure_ref := fzero;
     gc_max_venue_exposure_ref := fzero;
     gc_max_strategy_exposure_ref := fzero;
     gc_max_asset_exposure_ref := fzero;
     gc_max_open_positions := max_open;
     gc_max_order_notional_ref := f_of_Z 50;
     gc_max_daily_loss_ref := f_of_Z 30;
     gc_max_drawdown_ref := fzero;
     gc_max_drawdown_pct := fzero;
     gc_killed_venues := [];
     gc_killed_strategies := [] |}.

Definition demo_request (asset : text) : GlobalRiskRequest :=
  mkGlobalRiskRequest Sniper PumpFun (lit "w") (lit "sniper") asset (lit "SOL") (f_of_Z 20) Live.

Definition demo_ctx : DecisionContext := mkDecisionContext false ∅.

Definition demo_engine (portfolio_cap : f64) (max_open : Z)
    : GlobalRiskEngine MemoryLedgerStore MemoryRiskStore :=
  GlobalRiskEngine_new 0 (demo_global_config portfolio_cap max_open) Inner_new
    MemoryLedgerStore_new (MemoryRiskStore_new 16) (lit "r1").

Definition demo_decide (now : Z) (asset : text) (g : GlobalRiskEngine MemoryLedgerStore MemoryRiskStore)
    : GlobalRiskDecision * option ReservationLease * GlobalRiskEngine MemoryLedgerStore MemoryRiskStore :=
  decide_with_reservation now (demo_request asset) demo_ctx None g.

(** A cap of 100 and two entries of 40: the third is refused. *)
Definition demo_first := demo_decide 10 (lit "A") (demo_engine (f_of_Z 100) 0).
Definition demo_second := demo_decide 20 (lit "B") demo_first.2.
Definition demo_third := demo_decide 30 (lit "C") demo_second.2.

Example demo_third_refused :
  (demo_first.1.1.(gd_reason), demo_second.1.1.(gd_reason), demo_third.1.1.(gd_reason)) =
    (None, None, Some PortfolioExposure).
Proof. vm_compute. reflexivity. Qed.

Lemma split3 {A B C} (x : A * B * C) : x = (x.1.1, x.1.2, x.2).
Proof. by destruct x as [[? ?] ?]. Qed.

Lemma demo_accepted : accepted demo_first.1.1 = true /\ accepted demo_second.1.1 = true.
Proof. split; vm_compute; reflexivity. Qed.

Lemma accepted_within_limits_witness :
  accepted demo_second.1.1 = true /\ cx_global_kill demo_ctx = false.
Proof.
  split; [exact (proj2 demo_accepted)|].
  exact (proj1 (accepted_within_limits 20 (demo_request (lit "B")) demo_ctx demo_first.2 _ _ _
    (split3 demo_second) (proj2 demo_accepted))).
Defined.

Lemma reservation_lifecycle_witness :
  accepted demo_first.1.1 = true /\
  exists l e, demo_first.1.2 = Some l /\ demo_first.2.(ge_entries) !! l.(le_id) = Some e.
Proof.
  split; [exact (proj1 demo_accepted)|].
  destruct (reservation_lifecycle 10 (demo_request (lit "A")) demo_ctx None
    (demo_engine (f_of_Z 100) 0) _ _ _ (split3 demo_first) (proj1 demo_accepted))
    as (l & e & Hl & He & _).
  exists l, e. split; [exact Hl|exact He].
Defined.

Lemma accepted_counts_in_flight_witness :
  accepted demo_second.1.1 = true /\
  fleb (ds_portfolio_ref (book_snapshot (ge_config demo_first.2)
          (portfolio_inputs 20 demo_ctx (ge_config demo_first.2))
          (compute demo_second.2.(ge_ledger).(in_book) demo_second.2.(ge_ledger).(in_series)
             (portfolio_inputs 20 demo_ctx (ge_config demo_first.2))) (demo_request (lit "B"))))
    demo_second.1.1.(gd_snapshot).(ds_portfolio_ref) = true.
Proof.
  split; [exact (proj2 demo_accepted)|].
  refine (proj1 (accepted_counts_in_flight 20 (demo_request (lit "B")) demo_ctx demo_first.2
    demo_first.2 _ _ _ ds_portfolio_ref (fun _ => true) (split3 demo_second) (proj2 demo_accepted)
    _ _ _ _)); [vm_compute; reflexivity| |by constructor|vm_compute; reflexivity].
  apply (bool_decide_unpack (map_Forall (fun _ e => amount e.(re_requested_ref) = true)
    demo_first.2.(ge_entries))). vm_compute. exact I.
Defined.

Lemma engaged_scope_refuses_witness :
  Forall (fun o => ~ releases (ScopeVenue PumpFun) o)
    [OpRestore; OpReleaseScope 6 (ScopeStrategy (lit "sniper")) (lit "done") (lit "op")] /\
  accepted (decide_with_reservation 10 (demo_request (lit "A")) demo_ctx None
    (run_ops [OpRestore; OpReleaseScope 6 (ScopeStrategy (lit "sniper")) (lit "done") (lit "op")]
       (engage 5 (ScopeVenue PumpFun) (lit "outage") (lit "op") (demo_engine (f_of_Z 100) 0)).2)).1.1
    = false.
Proof.
  assert (Hops : Forall (fun o => ~ releases (ScopeVenue PumpFun) o)
    [OpRestore; OpReleaseScope 6 (ScopeStrategy (lit "sniper")) (lit "done") (lit "op")])
    by (apply Forall_cons; split; [by intros []|]; apply Forall_cons; split; [done|apply Forall_nil_2]).
  split; [exact Hops|].
  exact (proj1 (engaged_scope_refuses (ScopeVenue PumpFun) 5 (lit "outage") (lit "op")
    (demo_engine (f_of_Z 100) 0) _ 10 (demo_request (lit "A")) demo_ctx None Hops (or_introl eq_refl))).
Defined.

Lemma configured_scope_pinned_witness :
  ScopeStrategy (lit "sniper") ∈ config_scopes [] [lit "sniper"] /\
  (release_scope 6 (ScopeStrategy (lit "sniper")) (lit "done") (lit "op")
    (update_config 5 (let c := demo_global_config fzero 0 in
       mkGlobalRiskConfig c.(gc_reference_asset) c.(gc_reference_rates) c.(gc_capital_base_ref)
         fzero fzero fzero fzero fzero 0 fzero fzero fzero fzero [] [lit "sniper"])
       (demo_engine fzero 0))).1 = PinnedByConfig.
Proof.
  assert (Hin : ScopeStrategy (lit "sniper") ∈ config_scopes [] [lit "sniper"]) by (apply elem_of_cons; by left).
  split; [exact Hin|].
  refine (proj1 (configured_scope_pinned (ScopeStrategy (lit "sniper")) 5 _ (demo_engine fzero 0) 6
    (lit "done") (lit "op") (demo_request (lit "A")) demo_ctx None _)).
  exact Hin.
Defined.

(** the cap on open positions does not count the entries in flight, although
    the snapshot of the decision does: with a cap of one position and nothing
    open, two entries are accepted and reserved one after the other; the second
    decision's own snapshot shows the position that fills the cap. *)
Theorem open_position_cap_misses_reservations :
  let first := demo_decide 10 (lit "A") (demo_engine fzero 1) in
  let second := demo_decide 20 (lit "B") first.2 in
  accepted first.1.1 = true /\ accepted second.1.1 = true
  /\ second.1.1.(gd_snapshot).(ds_open_positions) = 1
  /\ size second.2.(ge_entries) = 2%nat.
Proof. vm_compute. repeat split; reflexivity. Qed.
