(* ===== verification/Risk.v ===== *)
(** The risk engine every entry and exit goes through
    ([crates/core/src/risk.rs]), over the shared state and the global engine.
    The durable view of other replicas is the trait [GlobalRiskOracle], read at
    the instant of the check; the open rows of the process-wide execution ledger
    ([ExecLedger.open]) are an argument.  Messages are left out: a rejection is its code. *)
From stdpp Require Import prelude countable gmap strings.
From Stdlib Require Import ZArith Lia SpecFloat.
From S2P Require Import Prelude.
From S2P Require Import Text.
From S2P Require Import Float64.
From S2P Require Import Models.
From S2P Require Import BotConfig.
From S2P Require Import Ownership.
From S2P Require Import LedgerEvent.
From S2P Require Import ExecLedger.
From S2P Require Import Ledger.
From S2P Require Import AppState.
From S2P Require Import GlobalRisk.

#[local] Open Scope Z_scope.

(** * The durable view *)

Inductive RealizedPnlRead : Type := PnlKnown (v : f64) | PnlUnavailable | PnlIncomplete.

Record GlobalRiskOracle : Type := mkGlobalRiskOracle {
  count_open_for : option OrganizationId -> BotModule -> option Z;
  realized_today_status_for : option OrganizationId -> RealizedPnlRead;
  realized_today_status_for_module : option OrganizationId -> BotModule -> RealizedPnlRead;
  has_open_symbol_for : OrganizationId -> BotModule -> text -> option bool;
  open_exposure_for : OrganizationId -> BotModule -> option f64;
}.

Definition status_of_read (r : option f64) : RealizedPnlRead :=
  match r with Some v => PnlKnown v | None => PnlUnavailable end.

(** The trait's default methods over [count_open] and [realized_today]: a
    tenant is never answered with deployment-wide figures. *)
Definition default_oracle (count_open : BotModule -> option Z) (realized_today : option f64)
    : GlobalRiskOracle :=
  let realized o := if is_some (A := OrganizationId) o then None else realized_today in
  {| count_open_for := fun o m => if is_some o then None else count_open m;
     realized_today_status_for := fun o => status_of_read (realized o);
     realized_today_status_for_module := fun o _ => status_of_read (realized o);
     has_open_symbol_for := fun _ _ _ => None;
     open_exposure_for := fun _ _ => None |}.

(** * Decisions *)

Inductive RiskVerdict : Type := Allow | AllowReduced | Reject.

Inductive RiskCode : Type :=
  | RcKillSwitch | RcModuleDisabled | RcDailyLossLimit | RcInvalidSize | RcSlippageCap
  | RcMaxOpenPositions | RcDuplicateSymbol | RcReentryCooldown | RcInsufficientBalance
  | RcExposureCap | RcVenueCheck | RcSniperEmergencyDisabled | RcSniperDailyLoss
  | RcSniperPendingCap | RcSniperTokenCooldown | RcSniperFailedEntryCooldown
  | RcCopyEmergencyDisabled | RcCopyDailyLoss | RcCopyPendingCap | RcCopyFailedEntryCooldown
  | RcCopyLeaderExposure | RcCopyCooldown | RcStaleSignal | RcPolyEmergencyDisabled
  | RcPolyDailyLoss | RcPolyOpenOrderCap | RcPolyMarketExposure | RcGlobalKillSwitch
  | RcGlobalExposure | RcGlobalDailyLoss | RcGlobalDrawdown | RcGlobalUnavailable.

#[export] Instance RiskVerdict_eq_dec : EqDecision RiskVerdict.
Proof. solve_decision. Defined.
#[export] Instance RiskCode_eq_dec : EqDecision RiskCode.
Proof. solve_decision. Defined.

Definition from_global (r : GlobalRejectReason) : RiskCode :=
  match r with
  | GlobalKillSwitch | VenueKillSwitch | StrategyKillSwitch => RcGlobalKillSwitch
  | MaxOpenPositions | OrderNotional | PortfolioExposure | WalletExposure | VenueExposure
  | StrategyExposure | AssetExposure => RcGlobalExposure
  | DailyLoss => RcGlobalDailyLoss
  | Drawdown => RcGlobalDrawdown
  | ReferenceRateMissing | InvalidRequest | InvalidPortfolio => RcGlobalUnavailable
  end.

Definition code_is_exposure_limit (c : RiskCode) : bool :=
  match c with
  | RcMaxOpenPositions | RcExposureCap | RcDailyLossLimit | RcSniperDailyLoss | RcSniperPendingCap
  | RcCopyDailyLoss | RcCopyPendingCap | RcCopyLeaderExposure | RcPolyDailyLoss
  | RcPolyOpenOrderCap | RcPolyMarketExposure | RcGlobalExposure | RcGlobalDailyLoss
  | RcGlobalDrawdown => true
  | _ => false
  end.

Record RiskDecision : Type := mkRiskDecision {
  rd_verdict : RiskVerdict;
  rd_code : option RiskCode;
  rd_sized_quote : f64;
  rd_requested_quote : f64;
  rd_stop_loss : option f64;
  rd_take_profit : option f64;
  rd_trailing_stop_pct : option f64;
  rd_max_hold_secs : option Z;
  rd_reservation : option ReservationLease;
}.

Definition allowed (d : RiskDecision) : bool :=
  match d.(rd_verdict) with Reject => false | _ => true end.

(** The exit levels of a decision, written on a fresh position. *)
Definition apply_to (d : RiskDecision) (p : Position) : Position :=
  with_exit_levels (option_or d.(rd_stop_loss) p.(p_stop_loss))
    (option_or d.(rd_take_profit) p.(p_take_profit))
    (option_or p.(p_trailing_stop) d.(rd_trailing_stop_pct))
    (option_or p.(p_max_hold_secs) d.(rd_max_hold_secs)) p.

Definition rd_reject (code : RiskCode) (requested : f64) : RiskDecision :=
  mkRiskDecision Reject (Some code) fzero requested None None None None None.

Inductive ExitRule : Type :=
  | StopLoss | TakeProfit | TrailingStop | MaxHoldTime | ExitKillSwitch | Manual | MirrorExit
  | StalePosition.

#[export] Instance ExitRule_eq_dec : EqDecision ExitRule.
Proof. solve_decision. Defined.

Definition ExitRule_as_str (r : ExitRule) : text :=
  match r with
  | StopLoss => lit "stop_loss"
  | TakeProfit => lit "take_profit"
  | TrailingStop => lit "trailing_stop"
  | MaxHoldTime => lit "max_hold_time"
  | ExitKillSwitch => lit "kill_switch"
  | Manual => lit "manual"
  | MirrorExit => lit "mirror_exit"
  | StalePosition => lit "stale_position"
  end.

(** [xd_rule] is [None] on a hold; the fraction is of the position. *)
Record ExitDecision : Type := mkExitDecision {
  xd_rule : option ExitRule;
  xd_fraction : f64;
}.

Definition hold : ExitDecision := mkExitDecision None fzero.

(** [f64::clamp]. *)
Definition fclamp (v lo hi : f64) : f64 :=
  let v := if fltb v lo then lo else v in if fltb hi v then hi else v.

Definition exit_with (rule : ExitRule) (fraction : f64) : ExitDecision :=
  mkExitDecision (Some rule) (fclamp fraction fzero fone).

Definition forced (rule : ExitRule) : ExitDecision := exit_with rule fone.

Definition should_exit (d : ExitDecision) : bool := is_some d.(xd_rule).

(** * Requests *)

Record EntryRequest : Type := mkEntryRequest {
  er_module : BotModule;
  er_venue : Venue;
  er_symbol : text;
  er_requested_quote : f64;
  er_available_quote : f64;
  er_slippage_bps : Z;
  er_price : option f64;
  er_fair_value : option f64;
  er_liquidity : option f64;
  er_wallet : text;
  er_strategy : text;
}.

Definition label_or_module (label : text) (m : BotModule) : text :=
  if is_empty (trim label) then BotModule_as_str m else trim label.

Definition wallet_label (r : EntryRequest) : text := label_or_module r.(er_wallet) r.(er_module).
Definition strategy_label (r : EntryRequest) : text :=
  label_or_module r.(er_strategy) r.(er_module).

Definition global_request (s : AppState) (r : EntryRequest) : GlobalRiskRequest :=
  mkGlobalRiskRequest r.(er_module) r.(er_venue) (wallet_label r) (strategy_label r)
    r.(er_symbol) (quote_asset_for r.(er_venue)) r.(er_requested_quote) (execution_mode s).

Definition starts_with (prefix s : text) : bool := is_some (strip_prefix prefix s).

Definition is_sniper_entry (x : ExecutionRecord) : bool :=
  bool_decide (x.(x_module) = BotModule_as_str Sniper) && starts_with (lit "snipe") x.(x_label).

Definition is_copy_entry (x : ExecutionRecord) : bool :=
  bool_decide (x.(x_module) = BotModule_as_str Copy) && starts_with (lit "copy-") x.(x_label)
  && negb (starts_with (lit "copy-exit") x.(x_label)).

Definition pending_of (f : ExecutionRecord -> bool) (open : list ExecutionRecord) : Z :=
  Z.of_nat (length (filter (fun x => f x = true) open)).

Section RiskEngine.
Context {libs : LedgerLibs} `{HashOrder}.
Context (tenant : option OrganizationId) (oracle : option GlobalRiskOracle).

(** ** The durable view can only tighten *)

Definition effective_pnl (read : GlobalRiskOracle -> RealizedPnlRead) (local : f64) : option f64 :=
  match oracle with
  | None => if is_some tenant then None else Some local
  | Some o =>
      match read o with
      | PnlKnown v => Some (fmin local v)
      | PnlUnavailable => if is_some tenant then None else Some local
      | PnlIncomplete => None
      end
  end.

Definition effective_realized (local : f64) : option f64 :=
  effective_pnl (fun o => realized_today_status_for o tenant) local.

Definition effective_module_realized (m : BotModule) (local : f64) : option f64 :=
  effective_pnl (fun o => realized_today_status_for_module o tenant m) local.

Definition effective_open_count (m : BotModule) (local : Z) : option Z :=
  match tenant with
  | Some org => o ← oracle; scoped ← count_open_for o (Some org) m; Some (Z.max local scoped)
  | None =>
      match o ← oracle; count_open_for o None m with
      | Some global => Some (Z.max local global)
      | None => Some local
      end
  end.

Definition effective_has_open_symbol (m : BotModule) (symbol : text) (local : bool) : option bool :=
  match tenant with
  | Some org => o ← oracle; scoped ← has_open_symbol_for o org m symbol; Some (local || scoped)
  | None => Some local
  end.

Definition effective_open_exposure (m : BotModule) (local : f64) : option f64 :=
  match tenant with
  | Some org => o ← oracle; scoped ← open_exposure_for o org m; Some (fmax local scoped)
  | None => Some local
  end.

(** ** Preflight *)

(** A daily loss limit against a result that may be unavailable. *)
Definition loss_check (limit : f64) (realized : option f64) (code : RiskCode)
    : outcome RiskCode unit :=
  if fltb fzero limit then
    v ← ok_or realized RcGlobalUnavailable;
    reject_if (fleb v (fneg limit)) code
  else Ok tt.

Definition module_preflight (now : Z) (m : BotModule) (s : AppState) : outcome RiskCode unit :=
  let c := s.(st_config).(cf_risk) in
  let realized := effective_module_realized m (daily_realized now m s) in
  match m with
  | Sniper =>
      reject_if c.(rc_sniper_emergency_disable) RcSniperEmergencyDisabled ;;
      loss_check c.(rc_sniper_daily_loss_limit_quote) realized RcSniperDailyLoss
  | Copy =>
      reject_if c.(rc_copy_emergency_disable) RcCopyEmergencyDisabled ;;
      loss_check c.(rc_copy_daily_loss_limit_quote) realized RcCopyDailyLoss
  | Polymarket =>
      reject_if c.(rc_poly_emergency_disable) RcPolyEmergencyDisabled ;;
      loss_check c.(rc_poly_daily_loss_limit_quote) realized RcPolyDailyLoss
  | Contract | Telegram => Ok tt
  end.

Definition preflight_coded (now : Z) (m : BotModule) (s : AppState) : outcome RiskCode unit :=
  let daily := daily_stats now s in
  reject_if (kill_switch s) RcKillSwitch ;;
  reject_if (negb (is_enabled m s)) RcModuleDisabled ;;
  reject_if (negb (is_some tenant) && daily.(dl_loss_limit_tripped)) RcDailyLossLimit ;;
  loss_check s.(st_config).(cf_risk).(rc_daily_loss_limit_quote)
    (effective_realized daily.(dl_realized_pnl)) RcDailyLossLimit ;;
  module_preflight now m s.

(** ** Entry checks *)

(** A size that is not a positive number, a balance that is not one. *)
Definition request_sanity (r : EntryRequest) : outcome RiskCode unit :=
  reject_if (negb (fltb fzero r.(er_requested_quote)) || negb (is_finite r.(er_requested_quote)))
    RcInvalidSize ;;
  reject_if (negb (is_finite r.(er_available_quote)) || fltb r.(er_available_quote) fzero)
    RcInsufficientBalance.

Definition position_limit (c : RiskConfig) (m : BotModule) : Z :=
  match m with
  | Sniper => Z.min (sniper_position_limit c) c.(rc_max_open_positions)
  | Copy => Z.min (copy_position_limit c) c.(rc_max_open_positions)
  | Polymarket => Z.min (poly_position_limit c) c.(rc_max_open_positions)
  | Contract | Telegram => c.(rc_max_open_positions)
  end.

Definition position_cap (c : RiskConfig) (m : BotModule) : f64 :=
  match m with
  | Sniper => fmin (sniper_position_cap c) c.(rc_max_position_quote)
  | Copy => fmin (copy_position_cap c) c.(rc_max_position_quote)
  | Polymarket => fmin (poly_position_cap c) c.(rc_max_position_quote)
  | Contract | Telegram => c.(rc_max_position_quote)
  end.

(** The envelope of the open exposure, tightened by the module's own cap. *)
Definition tighten (own envelope : f64) : f64 :=
  if fltb fzero own then fmin envelope own else envelope.

Definition exposure_cap (c : RiskConfig) (m : BotModule) : f64 :=
  let envelope := fmax (fmul c.(rc_max_position_quote) (f_of_Z c.(rc_max_open_positions)))
                    c.(rc_max_position_quote) in
  match m with
  | Sniper => tighten c.(rc_sniper_max_total_exposure_quote) envelope
  | Copy => tighten c.(rc_copy_max_total_exposure_quote) envelope
  | Polymarket => tighten c.(rc_poly_max_total_exposure_quote) envelope
  | Contract | Telegram => envelope
  end.

(** Less than [cooldown] seconds since the instant on record; zero is off. *)
Definition cooling_down (now cooldown : Z) (at_ : option Z) : bool :=
  (0 <? cooldown) &&
  match at_ with Some t => num_seconds (now - t) <? cooldown | None => false end.

Definition sniper_throttle (now : Z) (execs : list ExecutionRecord) (symbol : text) (s : AppState)
    : outcome RiskCode unit :=
  let c := s.(st_config).(cf_risk) in
  reject_if (cooling_down now c.(rc_sniper_failed_entry_cooldown_secs)
               (s.(st_last_failed_entry_at) !! symbol)) RcSniperFailedEntryCooldown ;;
  reject_if (cooling_down now c.(rc_sniper_token_cooldown_secs)
               (s.(st_last_entry_attempt_at) !! symbol)) RcSniperTokenCooldown ;;
  reject_if ((0 <? c.(rc_sniper_max_pending_executions))
             && (c.(rc_sniper_max_pending_executions) <=? pending_of is_sniper_entry execs))
    RcSniperPendingCap.

Definition copy_throttle (now : Z) (execs : list ExecutionRecord) (symbol : text) (s : AppState)
    : outcome RiskCode unit :=
  let c := s.(st_config).(cf_risk) in
  reject_if (cooling_down now c.(rc_copy_failed_entry_cooldown_secs)
               (s.(st_last_failed_entry_at) !! symbol)) RcCopyFailedEntryCooldown ;;
  reject_if ((0 <? c.(rc_copy_max_pending_executions))
             && (c.(rc_copy_max_pending_executions) <=? pending_of is_copy_entry execs))
    RcCopyPendingCap.

Definition throttle (now : Z) (execs : list ExecutionRecord) (r : EntryRequest) (s : AppState)
    : outcome RiskCode unit :=
  match r.(er_module) with
  | Sniper => sniper_throttle now execs r.(er_symbol) s
  | Copy => copy_throttle now execs r.(er_symbol) s
  | Polymarket | Contract | Telegram => Ok tt
  end.

(** Other entries in flight: how many, their exposure, one on the same symbol. *)
Definition Usage : Type := Z * f64 * bool.

(** Steps 3 to 6c: slippage, position count, duplicate symbol, cooldowns. *)
Definition admission_checks (now : Z) (execs : list ExecutionRecord) (r : EntryRequest)
    (u : Usage) (s : AppState) : outcome RiskCode unit :=
  let c := s.(st_config).(cf_risk) in
  let open := open_positions_for r.(er_module) s in
  reject_if (c.(rc_max_slippage_bps) <? r.(er_slippage_bps)) RcSlippageCap ;;
  durable ← ok_or (effective_open_count r.(er_module) (Z.of_nat (length open)))
              RcGlobalUnavailable;
  reject_if (position_limit c r.(er_module) <=? saturating_add u64_max durable u.1.1)
    RcMaxOpenPositions ;;
  held ← ok_or (effective_has_open_symbol r.(er_module) r.(er_symbol)
                  (existsb (fun p => bool_decide (p.(p_symbol) = r.(er_symbol))) open || u.2))
           RcGlobalUnavailable;
  reject_if held RcDuplicateSymbol ;;
  reject_if (negb (reentry_allowed now r.(er_symbol) s)) RcReentryCooldown ;;
  throttle now execs r s.

Definition is_polymarket (v : Venue) : bool :=
  match v with PolymarketClob => true | _ => false end.

(** What the wallet can spend: the SOL reserve stays. *)
Definition spendable_of (c : RiskConfig) (r : EntryRequest) : f64 :=
  fsub r.(er_available_quote) (if is_polymarket r.(er_venue) then fzero else c.(rc_min_sol_reserve)).

(** The size caps: request, position, fraction of the balance, exposure left,
    balance. *)
Definition capped_size (c : RiskConfig) (m : BotModule) (requested spendable exposure : f64) : f64 :=
  let fraction_cap := fmul spendable (fclamp c.(rc_max_position_fraction) fzero fone) in
  let sized := fmin (fmin requested (position_cap c m)) fraction_cap in
  let cap := exposure_cap c m in
  let sized := if fltb cap (fadd exposure sized) then fmax (fsub cap exposure) fzero else sized in
  if fltb spendable sized then spendable else sized.

(** Steps 7 and 8. *)
Definition size_entry (r : EntryRequest) (u : Usage) (s : AppState) : outcome RiskCode f64 :=
  let c := s.(st_config).(cf_risk) in
  let spendable := spendable_of c r in
  reject_if (fleb spendable fzero) RcInsufficientBalance ;;
  durable ← ok_or (effective_open_exposure r.(er_module) (open_exposure r.(er_module) s))
              RcGlobalUnavailable;
  let exposure := fadd durable u.1.2 in
  reject_if (negb (is_finite exposure) || fltb exposure fzero) RcGlobalUnavailable ;;
  let sized := capped_size c r.(er_module) r.(er_requested_quote) spendable exposure in
  reject_if (fleb sized fzero) RcExposureCap ;;
  Ok sized.

(** Step 9: what the Polymarket order book needs. *)
Definition price_check (c : RiskConfig) (price : option f64) : outcome RiskCode unit :=
  match price with
  | None => Ok tt
  | Some p =>
      reject_if (negb (fltb fzero p && fltb p fone)) RcVenueCheck ;;
      reject_if (fltb p c.(rc_poly_price_floor) || fltb c.(rc_poly_price_ceiling) p) RcVenueCheck
  end.

Definition liquidity_check (c : RiskConfig) (liquidity : option f64) : outcome RiskCode unit :=
  match liquidity with
  | None => Ok tt
  | Some l =>
      reject_if (negb (is_finite l) || fltb l fzero) RcVenueCheck ;;
      reject_if (fltb l c.(rc_poly_min_liquidity_usd)) RcVenueCheck
  end.

Definition fair_check (fair : option f64) : outcome RiskCode unit :=
  match fair with
  | None => Ok tt
  | Some f => reject_if (negb (is_finite f) || negb (fleb fzero f && fleb f fone)) RcVenueCheck
  end.

Definition edge_check (c : RiskConfig) (price fair : option f64) : outcome RiskCode unit :=
  match price, fair with
  | Some p, Some f => reject_if (fltb (fsub f p) c.(rc_poly_min_edge)) RcVenueCheck
  | _, _ => Ok tt
  end.

Definition venue_checks (c : RiskConfig) (r : EntryRequest) : outcome RiskCode unit :=
  if is_polymarket r.(er_venue) then
    price_check c r.(er_price) ;;
    liquidity_check c r.(er_liquidity) ;;
    fair_check r.(er_fair_value) ;;
    edge_check c r.(er_price) r.(er_fair_value)
  else Ok tt.

(** [1e-12]. *)
Definition SIZE_EPSILON : f64 := f_lit 1 1000000000000.

Definition finite_filter (v : option f64) : option f64 :=
  x ← v; if is_finite x then Some x else None.

(** Step 10: the decision, with the exit levels of a quoted price. *)
Definition approve (c : RiskConfig) (r : EntryRequest) (sized : f64)
    (reservation : option ReservationLease) : RiskDecision :=
  let requested := r.(er_requested_quote) in
  mkRiskDecision
    (if fltb (fabs (fsub sized requested)) SIZE_EPSILON then Allow else AllowReduced)
    None sized requested
    (finite_filter ((fun p => fmul p (fsub fone c.(rc_default_stop_loss_pct))) <$> r.(er_price)))
    (finite_filter ((fun p => fmul p (fadd fone c.(rc_default_take_profit_pct))) <$> r.(er_price)))
    c.(rc_trailing_stop_pct) c.(rc_max_hold_secs) reservation.

(** ** The whole check *)

Context {LSt RSt : Type} `{LedgerStore LSt} `{RiskStore RSt}.

(** Step 2b: the global engine, which reserves what it accepts. *)
Definition global_gate (now : Z) (r : EntryRequest) (s : AppState) (g : GlobalRiskEngine LSt RSt)
    : outcome RiskCode (option ReservationLease) * GlobalRiskEngine LSt RSt :=
  let ctx := mkDecisionContext (kill_switch s) (marks s) in
  let v := decide_with_reservation now (global_request s r) ctx tenant g in
  (match v.1.1.(gd_reason) with
   | None => Ok v.1.2
   | Some reason => Err (from_global reason)
   end, v.2).

Definition lease_usage (now : Z) (r : EntryRequest) (lease : option ReservationLease)
    (g : GlobalRiskEngine LSt RSt) : Usage :=
  reserved_entry_usage now r.(er_module) tenant (quote_asset_for r.(er_venue)) r.(er_symbol)
    (le_id <$> lease) g.

(** Steps 3 to 9: the size the entry may have. *)
Definition entry_size (now : Z) (execs : list ExecutionRecord) (r : EntryRequest)
    (u : Usage) (s : AppState) : outcome RiskCode f64 :=
  admission_checks now execs r u s ;;
  sized ← size_entry r u s;
  venue_checks s.(st_config).(cf_risk) r ;;
  Ok sized.

Definition rejected_as {A} (o : outcome RiskCode A) : RiskCode :=
  match o with Err c => c | _ => RcGlobalUnavailable end.

(** A lease that is not handed on is dropped, which releases it. *)
Definition drop_lease (lease : option ReservationLease) (g : GlobalRiskEngine LSt RSt)
    : GlobalRiskEngine LSt RSt :=
  match lease with Some l => (release_lease l g).2 | None => g end.

(** [RiskEngine::check_entry]. *)
Definition check_entry (now : Z) (execs : list ExecutionRecord) (r : EntryRequest) (s : AppState)
    (g : GlobalRiskEngine LSt RSt) : RiskDecision * GlobalRiskEngine LSt RSt :=
  let requested := r.(er_requested_quote) in
  match preflight_coded now r.(er_module) s ;; request_sanity r with
  | Ok _ =>
      let v := global_gate now r s g in
      match v.1 with
      | Ok lease =>
          match entry_size now execs r (lease_usage now r lease v.2) s with
          | Ok sized => (approve s.(st_config).(cf_risk) r sized lease, v.2)
          | refused => (rd_reject (rejected_as refused) requested, drop_lease lease v.2)
          end
      | refused => (rd_reject (rejected_as refused) requested, v.2)
      end
  | refused => (rd_reject (rejected_as refused) requested, g)
  end.

(** ** Exits *)

(** The first price rule that fires, in the code's order. *)
Definition stop_level (c : RiskConfig) (p : Position) : f64 :=
  default (fmul p.(p_avg_entry) (fsub fone c.(rc_default_stop_loss_pct))) p.(p_stop_loss).

Definition profit_level (c : RiskConfig) (p : Position) : f64 :=
  default (fmul p.(p_avg_entry) (fadd fone c.(rc_default_take_profit_pct))) p.(p_take_profit).

Definition high_water (p : Position) (mark : f64) : f64 :=
  fmax (default p.(p_avg_entry) p.(p_trailing_high_water)) mark.

Definition stop_hit (c : RiskConfig) (p : Position) (mark : f64) : bool :=
  fltb fzero (stop_level c p) && fleb mark (stop_level c p).

Definition profit_hit (c : RiskConfig) (p : Position) (mark : f64) : bool :=
  fltb fzero (profit_level c p) && fleb (profit_level c p) mark.

Definition trail_hit (c : RiskConfig) (p : Position) (mark : f64) : bool :=
  match option_or p.(p_trailing_stop) c.(rc_trailing_stop_pct) with
  | Some pct =>
      let hwm := high_water p mark in
      fltb p.(p_avg_entry) hwm && fleb mark (fmul hwm (fsub fone pct))
  | None => false
  end.

Definition age_secs (now : Z) (p : Position) : Z := num_seconds (now - p.(p_opened_at)).

Definition hold_expired (now : Z) (c : RiskConfig) (p : Position) : bool :=
  match option_or p.(p_max_hold_secs) c.(rc_max_hold_secs) with
  | Some max_hold => max_hold <=? age_secs now p
  | None => false
  end.

Definition check_exit (now : Z) (p : Position) (mark : f64) (s : AppState) : ExitDecision :=
  let c := s.(st_config).(cf_risk) in
  if kill_switch s then exit_with ExitKillSwitch fone
  else if fleb p.(p_qty) fzero then hold
  else if negb (is_finite mark && fltb fzero mark) then hold
  else if stop_hit c p mark then exit_with StopLoss fone
  else if profit_hit c p mark then exit_with TakeProfit fone
  else if trail_hit c p mark then exit_with TrailingStop fone
  else if hold_expired now c p then exit_with MaxHoldTime fone
  else hold.

Definition exit_mark (p : Position) : f64 :=
  if fltb fzero p.(p_last_mark) then p.(p_last_mark) else p.(p_avg_entry).

Definition positions_to_close (now : Z) (m : BotModule) (s : AppState)
    : list (Position * ExitDecision) :=
  filter (fun pd => should_exit pd.2 = true)
    (map (fun p => (p, check_exit now p (exit_mark p) s)) (open_positions_for m s)).

(** ** The daily loss latch *)

Definition disable_trading (now : Z) (s : AppState) : AppState :=
  fold_left (fun s m => (set_enabled now m false s).2) BotModule_TRADING s.

Definition book_pnl (now : Z) (m : BotModule) (pnl : f64) (s0 : AppState) : AppState :=
  let s := add_realized now m pnl s0 in
  if is_some tenant then s
  else
    let limit := s.(st_config).(cf_risk).(rc_daily_loss_limit_quote) in
    if fleb limit fzero then s
    else
      let daily := daily_stats now s in
      match effective_realized daily.(dl_realized_pnl) with
      | None => s
      | Some realized =>
          if fleb realized (fneg limit) && negb daily.(dl_loss_limit_tripped) then
            let t := mark_loss_limit_tripped now s in
            if t.1 then disable_trading now t.2 else t.2
          else s
      end.

(** ** Copy trades and Polymarket orders *)

Definition leader_exposure (leader : text) (s : AppState) : f64 * Z :=
  let mine := filter (fun p => p.(p_copied_wallet) = Some leader) (open_positions_for Copy s) in
  (fsum (map position_exposure mine), Z.of_nat (length mine)).

Definition leader_cap (generic rule : f64) : f64 :=
  if fltb fzero rule then if fltb fzero generic then fmin generic rule else rule else generic.

Definition leader_checks (c : RiskConfig) (leader : text) (requested : f64)
    (leader_caps : option (f64 * Z)) (s : AppState) : outcome RiskCode unit :=
  if fltb fzero requested then
    let e := leader_exposure leader s in
    let '(rule_cap, rule_open_cap) := default (fzero, 0) leader_caps in
    let cap := leader_cap c.(rc_copy_max_leader_exposure_quote) rule_cap in
    reject_if (fltb fzero cap && fltb cap (fadd e.1 requested)) RcCopyLeaderExposure ;;
    reject_if ((0 <? rule_open_cap) && (rule_open_cap <=? e.2)) RcCopyLeaderExposure
  else Ok tt.

Definition check_copy_coded (now : Z) (t : WalletTrade) (c : RiskConfig) (requested : f64)
    (leader_caps : option (f64 * Z)) (s : AppState) : outcome RiskCode unit :=
  preflight_coded now Copy s ;;
  reject_if (negb (is_finite t.(wt_sol_amount)) || fleb t.(wt_sol_amount) fzero) RcInvalidSize ;;
  reject_if (negb (is_finite requested) || fltb requested fzero) RcInvalidSize ;;
  reject_if (negb (copy_allowed now t.(wt_wallet) t.(wt_mint) s)) RcCopyCooldown ;;
  reject_if (Z.max c.(rc_copy_cooldown_secs) 30 <? num_seconds (now - t.(wt_observed_at)))
    RcStaleSignal ;;
  leader_checks c t.(wt_wallet) requested leader_caps s.

Definition check_polymarket_coded (now : Z) (c : RiskConfig) (requested : f64) (open_orders : Z)
    (resting market : f64) (s : AppState) : outcome RiskCode unit :=
  preflight_coded now Polymarket s ;;
  reject_if (negb (is_finite requested) || fleb requested fzero) RcInvalidSize ;;
  reject_if (negb (is_finite resting) || fltb resting fzero
             || negb (is_finite market) || fltb market fzero) RcInvalidSize ;;
  reject_if ((0 <? c.(rc_poly_max_open_orders)) && (c.(rc_poly_max_open_orders) <=? open_orders))
    RcPolyOpenOrderCap ;;
  reject_if (fltb fzero c.(rc_poly_max_total_exposure_quote)
             && fltb c.(rc_poly_max_total_exposure_quote)
                  (fadd (fadd (open_exposure Polymarket s) (fmax resting fzero)) requested))
    RcExposureCap ;;
  reject_if (fltb fzero c.(rc_poly_max_market_exposure_quote)
             && fltb c.(rc_poly_max_market_exposure_quote) (fadd (fmax market fzero) requested))
    RcPolyMarketExposure.
End RiskEngine.

(** ** Launch screening *)

Inductive LaunchFeed : Type := LfPumpPortal | LfSolanaLogs | LfTransactionSubscribe | LfManual.

#[export] Instance LaunchFeed_eq_dec : EqDecision LaunchFeed.
Proof. solve_decision. Defined.

Definition LaunchFeed_display (f : LaunchFeed) : text :=
  match f with
  | LfPumpPortal => lit "pumpportal"
  | LfSolanaLogs => lit "logsSubscribe"
  | LfTransactionSubscribe => lit "transactionSubscribe"
  | LfManual => lit "manual"
  end.

Record TokenLaunch : Type := mkTokenLaunch {
  tl_mint : text;
  tl_name : text;
  tl_symbol : text;
  tl_uri : option text;
  tl_creator : text;
  tl_pool : text;
  tl_initial_buy_sol : f64;
  tl_market_cap_sol : f64;
  tl_market_cap_usd : option f64;
  tl_total_supply : option f64;
  tl_slot : option Z;
  tl_signature : option text;
  tl_tx_type : option text;
  tl_observed_at : Z;
  tl_feed : LaunchFeed;
  tl_socials : option (list (option text));   (* website, twitter, telegram *)
}.

Definition social_count (socials : list (option text)) : Z :=
  Z.of_nat (length (filter (fun v => blank v = false) socials)).

Inductive LaunchRefusal : Type :=
  | NoMint | BadInitialBuy | BadMarketCap | InitialBuyTooSmall | MarketCapTooLarge | TooFewSocials
  | CreatorDenied | RepeatOffender | KeywordHit (word : text) | LaunchTooOld.

Definition check_launch (l : TokenLaunch) (c : RiskConfig) : outcome LaunchRefusal unit :=
  reject_if (is_empty (trim l.(tl_mint))) NoMint ;;
  reject_if (negb (is_finite l.(tl_initial_buy_sol)) || fltb l.(tl_initial_buy_sol) fzero)
    BadInitialBuy ;;
  reject_if (negb (is_finite l.(tl_market_cap_sol)) || fltb l.(tl_market_cap_sol) fzero)
    BadMarketCap ;;
  reject_if (fltb fzero c.(rc_min_creator_buy_sol)
             && fltb l.(tl_initial_buy_sol) c.(rc_min_creator_buy_sol)) InitialBuyTooSmall ;;
  reject_if (fltb fzero c.(rc_max_launch_market_cap_sol)
             && fltb c.(rc_max_launch_market_cap_sol) l.(tl_market_cap_sol)) MarketCapTooLarge ;;
  reject_if ((0 <? c.(rc_min_socials))
             && (match l.(tl_socials) with Some v => social_count v | None => 0 end
                 <? c.(rc_min_socials))) TooFewSocials.

Section Lists.
(** [str::to_lowercase]: the Unicode tables are the standard library's. *)
Context (to_lowercase : text -> text).

Definition keyword_hit (haystack : text) (words : list text) : option text :=
  let h := to_lowercase haystack in
  snd <$> list_find (fun w => contains w h = true)
    (filter (fun w => is_empty w = false) (map (fun w => to_lowercase (trim w)) words)).

Definition check_launch_with_lists (l : TokenLaunch) (c : RiskConfig)
    (creator_denylist keyword_denylist known_bad_creators : list text) (now_age_secs max_age_secs : Z)
    : outcome LaunchRefusal unit :=
  check_launch l c ;;
  reject_if (bool_decide (l.(tl_creator) ∈ creator_denylist)) CreatorDenied ;;
  reject_if (c.(rc_block_repeat_offender_creators)
             && bool_decide (l.(tl_creator) ∈ known_bad_creators)) RepeatOffender ;;
  match keyword_hit (l.(tl_name) ++ lit " " ++ l.(tl_symbol)) keyword_denylist with
  | Some hit => Err (KeywordHit hit)
  | None => Ok tt
  end ;;
  reject_if ((0 <? max_age_secs) && (max_age_secs <? now_age_secs)) LaunchTooOld.
End Lists.
