(* ===== verification/RiskCorrect.v ===== *)
(** What the risk engine guarantees: an entry that is allowed passed every
    gate and its size is within every cap, a refused one keeps no reservation,
    the durable view can only refuse more, the exit rules fire in their order,
    and a tripped daily limit stays shut for the day. *)
From stdpp Require Import prelude countable gmap strings.
From Stdlib Require Import ZArith Lia SpecFloat.
From S2P Require Import Prelude.
From S2P Require Import Text.
From S2P Require Import Float64.
From S2P Require Import FloatRound.
From S2P Require Import Models.
From S2P Require Import BotConfig.
From S2P Require Import Ownership.
From S2P Require Import LedgerEvent.
From S2P Require Import Ledger.
From S2P Require Import AppState.
From S2P Require Import AppStateCorrect.
From S2P Require Import GlobalRisk.
From S2P Require Import GlobalRiskCorrect.
From S2P Require Import Risk.

#[local] Open Scope Z_scope.

(** * Sizes *)

Lemma fpos_not_nan a : fltb fzero a = true -> is_nan a = false.
Proof. by intros []%fltb_numbers. Qed.

(** Cutting a size to the exposure that is left never raises it. *)
Lemma cut_to_exposure cap expo s :
  is_double cap = true -> number expo = true -> is_double s = true ->
  fltb cap (fadd expo s) = true -> fltb fzero (fmax (fsub cap expo) fzero) = true ->
  fmax (fsub cap expo) fzero = fsub cap expo /\ fleb (fsub cap expo) s = true.
Proof.
  intros Hc He Hs Hlt Hpos.
  assert (Hmax : fmax (fsub cap expo) fzero = fsub cap expo).
  { unfold fmax in *. repeat case_match; try done. }
  split; [done|]. rewrite Hmax in Hpos.
  pose proof (fltb_numbers _ _ Hlt) as [Hnc Hns]. apply fpos_not_nan in Hpos as Hnp.
  unfold number in He. apply andb_true_iff in He as [Hfe Hde].
  assert (Hfs : is_finite s = true \/ s = S754_infinity false).
  { destruct s as [|[]| |]; cbn; auto; destruct expo as [|[]| |]; try done;
      destruct cap as [|[]| |]; done. }
  destruct Hfs as [Hfs| ->]; [|by destruct (fsub cap expo) as [[]|[]| |[]]].
  assert (Hfc : is_finite cap = true).
  { destruct cap as [|[]| |]; try done.
    - by destruct expo as [|[]| |].
    - by destruct (fadd expo s) as [|[]| |]. }
  apply rest_below_summand; unfold number; rewrite ?Hfc, ?Hfe, ?Hfs; done.
Qed.

(** The figures of the configuration and of the request are doubles. *)
Definition sizing_doubles (c : RiskConfig) (m : BotModule) (requested spendable exposure : f64)
    : Prop :=
  is_double requested = true /\ is_double exposure = true /\ is_double (position_cap c m) = true
  /\ is_double (exposure_cap c m) = true
  /\ is_double (fmul spendable (fclamp c.(rc_max_position_fraction) fzero fone)) = true.

(** A bound, if it is a number at all. *)
Definition within (s cap : f64) : Prop := is_nan cap = false -> fleb s cap = true.

Lemma capped_size_within c m requested spendable exposure :
  sizing_doubles c m requested spendable exposure ->
  fltb fzero requested = true -> is_finite exposure = true ->
  let s := capped_size c m requested spendable exposure in
  let cap := exposure_cap c m in
  fleb s fzero = false ->
  fltb fzero s = true /\ fleb s requested = true /\ within s (position_cap c m)
  /\ within s (fmul spendable (fclamp c.(rc_max_position_fraction) fzero fone))
  /\ within s spendable
  /\ exists s0, fleb s s0 = true
       /\ (fltb cap (fadd exposure s0) = false \/ s0 = fsub cap exposure).
Proof.
  intros (Hdr & Hde & Hdp & Hdc & Hdf) Hreq Hfe s cap Hpos.
  set (frac := fmul spendable _) in *. set (pc := position_cap c m) in *.
  set (s0 := fmin (fmin requested pc) frac).
  set (s1 := if fltb cap (fadd exposure s0) then fmax (fsub cap exposure) fzero else s0).
  assert (Hs : s = if fltb spendable s1 then spendable else s1) by done.
  pose proof (fpos_not_nan _ Hreq) as Hnr.
  assert (Hn0 : is_nan s0 = false) by (unfold s0; by rewrite !fmin_nan, Hnr).
  assert (Hn1 : is_nan s1 = false).
  { unfold s1. destruct (fltb cap (fadd exposure s0)); [|exact Hn0].
    rewrite fmax_nan. apply andb_false_r. }
  assert (Hns : is_nan s = false).
  { rewrite Hs. destruct (fltb spendable s1) eqn:Hsp; [|exact Hn1].
    exact (proj1 (fltb_numbers _ _ Hsp)). }
  assert (Hs0 : fltb fzero s = true) by (by apply fleb_false).
  assert (Hs1 : fleb s s1 = true).
  { rewrite Hs. destruct (fltb spendable s1) eqn:Hsp; [by apply fltb_leb|by apply fleb_refl]. }
  assert (Hcut : fleb s1 s0 = true
            /\ (fltb cap (fadd exposure s1) = false \/ s1 = fsub cap exposure)).
  { pose proof (fltb_leb_trans _ _ _ Hs0 Hs1) as Hp1. unfold s1 in *.
    destruct (fltb cap (fadd exposure s0)) eqn:Hov; [|split; [by apply fleb_refl|by left]].
    assert (number exposure = true) as Hne by (unfold number; by rewrite Hfe).
    assert (is_double s0 = true) as Hd0 by (unfold s0; auto with f64).
    destruct (cut_to_exposure cap exposure s0 Hdc Hne Hd0 Hov Hp1) as [-> Hle]. auto. }
  destruct Hcut as [H10 Hcut]. pose proof (fleb_trans _ _ _ Hs1 H10) as Hs00.
  split; [done|]. split; [|split; [|split; [|split]]].
  - eapply fleb_trans; [exact Hs00|]. unfold s0. auto with f64.
  - intros Hnp. eapply fleb_trans; [exact Hs00|]. unfold s0. auto with f64.
  - intros Hnf. eapply fleb_trans; [exact Hs00|]. unfold s0. auto with f64.
  - intros Hnsp. rewrite Hs. destruct (fltb spendable s1) eqn:?; [by apply fleb_refl|by apply fltb_false].
  - by exists s1.
Qed.

(** * Entries *)

Section Entries.
Context {libs : LedgerLibs} `{HashOrder}.
Context (tenant : option OrganizationId) (oracle : option GlobalRiskOracle).
Context {LSt RSt : Type} `{LedgerStore LSt} `{RiskStore RSt}.

Lemma approve_allowed c r sized lease : allowed (approve c r sized lease) = true.
Proof. unfold approve, allowed. cbn [rd_verdict]. by destruct (fltb _ SIZE_EPSILON). Qed.

(** How a run of [check_entry] that allows went. *)
Lemma check_entry_inv now execs r s (g : GlobalRiskEngine LSt RSt) d g' :
  check_entry tenant oracle now execs r s g = (d, g') -> allowed d = true ->
  preflight_coded tenant oracle now r.(er_module) s = Ok tt /\ request_sanity r = Ok tt
  /\ exists lease sized, global_gate tenant now r s g = (Ok lease, g')
       /\ entry_size tenant oracle now execs r (lease_usage tenant now r lease g') s = Ok sized
       /\ d = approve s.(st_config).(cf_risk) r sized lease.
Proof.
  unfold check_entry. intros He Ha.
  destruct (preflight_coded _ _ _ _ _) as [[]|c|] eqn:Hp; cbn [mbind outcome_bind] in He;
    [|by injection He as <- <-|by injection He as <- <-].
  destruct (request_sanity r) as [[]|c|] eqn:Hs; [|by injection He as <- <-|by injection He as <- <-].
  destruct (global_gate tenant now r s g) as [v g1] eqn:Hg. cbn [fst snd] in He.
  destruct v as [lease|c|]; [|by injection He as <- <-|by injection He as <- <-].
  destruct (entry_size _ _ _ _ _ _ _) as [sized|c|] eqn:Hz;
    [|by injection He as <- <-|by injection He as <- <-].
  injection He as <- <-. eauto 10.
Qed.

Lemma preflight_inv now m s :
  preflight_coded tenant oracle now m s = Ok tt <->
  kill_switch s = false /\ is_enabled m s = true
  /\ (tenant = None -> (daily_stats now s).(dl_loss_limit_tripped) = false)
  /\ loss_check s.(st_config).(cf_risk).(rc_daily_loss_limit_quote)
       (effective_realized tenant oracle (daily_stats now s).(dl_realized_pnl)) RcDailyLossLimit = Ok tt
  /\ module_preflight tenant oracle now m s = Ok tt.
Proof.
  unfold preflight_coded. destruct (kill_switch s); cbn; [naive_solver|].
  destruct (is_enabled m s); cbn; [|naive_solver].
  destruct tenant as [org|]; cbn.
  - destruct (loss_check _ _ _) as [[]|c|]; cbn; naive_solver.
  - destruct (dl_loss_limit_tripped _); cbn; [naive_solver|].
    destruct (loss_check _ _ _) as [[]|c|]; cbn; naive_solver.
Qed.

(** A loss limit that is on: the result is known and above it. *)
Lemma loss_check_Ok limit realized c :
  loss_check limit realized c = Ok tt <->
  (fltb fzero limit = true -> exists v, realized = Some v /\ fleb v (fneg limit) = false).
Proof.
  unfold loss_check. destruct (fltb fzero limit); [|by split].
  destruct realized as [v|]; cbn.
  - unfold reject_if. split.
    + destruct (fleb v (fneg limit)) eqn:Hv; [done|]. eauto.
    + intros Hx. destruct (Hx eq_refl) as (v' & [= <-] & Hv). by rewrite Hv.
  - split; [done|]. intros Hx. by destruct (Hx eq_refl) as (? & ? & ?).
Qed.

Lemma request_sanity_Ok r :
  request_sanity r = Ok tt <->
  fltb fzero r.(er_requested_quote) = true /\ is_finite r.(er_requested_quote) = true
  /\ is_finite r.(er_available_quote) = true /\ fltb r.(er_available_quote) fzero = false.
Proof.
  unfold request_sanity, reject_if. generalize (fltb fzero r.(er_requested_quote)).
  generalize (is_finite r.(er_requested_quote)). generalize (is_finite r.(er_available_quote)).
  generalize (fltb r.(er_available_quote) fzero). intros [] [] [] []; cbn; split; try done; by intros (?&?&?&?).
Qed.

Lemma admission_inv now execs r u s :
  admission_checks tenant oracle now execs r u s = Ok tt ->
  let open := open_positions_for r.(er_module) s in
  er_slippage_bps r <= rc_max_slippage_bps s.(st_config).(cf_risk)
  /\ (exists n, effective_open_count tenant oracle r.(er_module) (Z.of_nat (length open)) = Some n
       /\ saturating_add u64_max n u.1.1 < position_limit s.(st_config).(cf_risk) r.(er_module))
  /\ effective_has_open_symbol tenant oracle r.(er_module) r.(er_symbol)
       (existsb (fun p => bool_decide (p.(p_symbol) = r.(er_symbol))) open || u.2) = Some false
  /\ reentry_allowed now r.(er_symbol) s = true
  /\ throttle now execs r s = Ok tt.
Proof. unfold admission_checks. intros. inv_ok. bool_to_prop. subst. eauto 10. Qed.

Lemma size_entry_inv r u s sized :
  size_entry tenant oracle r u s = Ok sized ->
  exists durable,
    effective_open_exposure tenant oracle r.(er_module) (open_exposure r.(er_module) s) = Some durable
    /\ is_finite (fadd durable u.1.2) = true
    /\ sized = capped_size s.(st_config).(cf_risk) r.(er_module) r.(er_requested_quote)
                 (spendable_of s.(st_config).(cf_risk) r) (fadd durable u.1.2)
    /\ fleb sized fzero = false.
Proof. unfold size_entry. intros. inv_ok. bool_to_prop. eauto 10. Qed.

Lemma global_gate_Ok now r s (g : GlobalRiskEngine LSt RSt) lease g' :
  global_gate tenant now r s g = (Ok lease, g') ->
  exists gd, decide_with_reservation now (global_request s r)
               (mkDecisionContext (kill_switch s) (marks s)) tenant g = (gd, lease, g')
    /\ accepted gd = true.
Proof.
  unfold global_gate. destruct (decide_with_reservation _ _ _ _ _) as [[gd l] g1]. cbn.
  destruct (gd_reason gd) eqn:Hr; [done|]. intros [= <- <-].
  exists gd. split; [done|]. unfold accepted. by rewrite Hr.
Qed.

(** C24: an entry that is allowed passed every gate.  The kill switch is off, the
    module is enabled and the daily limit has not tripped; the module's own
    limits hold; the global engine accepted the request, and its reservation is
    the one handed on; the slippage is within bounds; counting the positions that
    are open and the entries in flight there is room for one more; the symbol is
    neither held nor being bought, and its cooldowns have run out; the venue's
    own checks hold. *)
Theorem check_entry_gates now execs r s (g : GlobalRiskEngine LSt RSt) d g'
  (He : check_entry tenant oracle now execs r s g = (d, g')) (Ha : allowed d = true) :
  let m := r.(er_module) in
  let c := s.(st_config).(cf_risk) in
  let open := open_positions_for m s in
  let u := lease_usage tenant now r d.(rd_reservation) g' in
  kill_switch s = false /\ is_enabled m s = true
  /\ (tenant = None -> (daily_stats now s).(dl_loss_limit_tripped) = false)
  /\ (fltb fzero c.(rc_daily_loss_limit_quote) = true ->
       exists v, effective_realized tenant oracle (daily_stats now s).(dl_realized_pnl) = Some v
         /\ fleb v (fneg c.(rc_daily_loss_limit_quote)) = false)
  /\ module_preflight tenant oracle now m s = Ok tt
  /\ (exists gd, decide_with_reservation now (global_request s r)
         (mkDecisionContext false (marks s)) tenant g = (gd, d.(rd_reservation), g')
         /\ accepted gd = true)
  /\ r.(er_slippage_bps) <= c.(rc_max_slippage_bps)
  /\ (exists n, effective_open_count tenant oracle m (Z.of_nat (length open)) = Some n
       /\ saturating_add u64_max n u.1.1 < position_limit c m)
  /\ effective_has_open_symbol tenant oracle m r.(er_symbol)
       (existsb (fun p => bool_decide (p.(p_symbol) = r.(er_symbol))) open || u.2) = Some false
  /\ reentry_allowed now r.(er_symbol) s = true
  /\ throttle now execs r s = Ok tt
  /\ venue_checks c r = Ok tt.
Proof.
  destruct (check_entry_inv _ _ _ _ _ _ _ He Ha) as (Hp & _ & lease & sized & Hg & Hz & ->).
  apply preflight_inv in Hp as (Hk & Hen & Ht & Hl & Hm).
  apply global_gate_Ok in Hg as (gd & Hg & Hacc). rewrite Hk in Hg.
  unfold entry_size in Hz. inv_ok.
  repeat match goal with u : unit |- _ => destruct u end.
  match goal with H : admission_checks _ _ _ _ _ _ _ = Ok _ |- _ =>
    destruct (admission_inv _ _ _ _ _ H) as (? & ? & ? & ? & ?) end.
  rewrite loss_check_Ok in Hl. eauto 20.
Qed.

(** C25: the size of an entry that is allowed.  It is a positive number, at most
    what was asked, within the position cap of the module, within the allowed
    fraction of what the wallet can spend, and within what it can spend; and
    the exposure of the module, with the entries in flight, stays within its cap
    by it: it is at most a size whose sum with the exposure does not exceed the
    cap, or at most the rest that is left under the cap. *)
Theorem check_entry_size now execs r s (g : GlobalRiskEngine LSt RSt) d g'
  (He : check_entry tenant oracle now execs r s g = (d, g')) (Ha : allowed d = true)
  (Hdbl : forall exposure,
     effective_open_exposure tenant oracle r.(er_module) (open_exposure r.(er_module) s) = Some exposure ->
     sizing_doubles s.(st_config).(cf_risk) r.(er_module) r.(er_requested_quote)
       (spendable_of s.(st_config).(cf_risk) r)
       (fadd exposure (lease_usage tenant now r d.(rd_reservation) g').1.2)) :
  let c := s.(st_config).(cf_risk) in
  let m := r.(er_module) in
  let sized := d.(rd_sized_quote) in
  fltb fzero sized = true /\ fleb sized r.(er_requested_quote) = true
  /\ within sized (position_cap c m)
  /\ within sized (fmul (spendable_of c r) (fclamp c.(rc_max_position_fraction) fzero fone))
  /\ within sized (spendable_of c r)
  /\ exists exposure s0,
       effective_open_exposure tenant oracle m (open_exposure m s) = Some exposure
       /\ let e := fadd exposure (lease_usage tenant now r d.(rd_reservation) g').1.2 in
          fleb sized s0 = true
          /\ (fltb (exposure_cap c m) (fadd e s0) = false \/ s0 = fsub (exposure_cap c m) e).
Proof.
  destruct (check_entry_inv _ _ _ _ _ _ _ He Ha) as (_ & Hr & lease & sized & _ & Hz & ->).
  apply request_sanity_Ok in Hr as (Hpos & _). cbn [rd_sized_quote rd_reservation approve] in *.
  unfold entry_size in Hz. inv_ok.
  match goal with H : size_entry _ _ _ _ _ = Ok _ |- _ =>
    apply size_entry_inv in H as (durable & Hd & Hf & -> & Hs) end.
  destruct (capped_size_within _ _ _ _ _ (Hdbl durable Hd) Hpos Hf Hs)
    as (? & ? & ? & ? & ? & s0 & ? & ?).
  eauto 15.
Qed.

(** a refused entry has no size, names its reason and keeps no reservation:
    every entry in flight afterwards was in flight before, when the store does
    not share reservations between replicas. *)
Theorem check_entry_refused now execs r s (g : GlobalRiskEngine LSt RSt) d g'
  (He : check_entry tenant oracle now execs r s g = (d, g')) (Ha : allowed d = false) :
  d.(rd_verdict) = Reject /\ d.(rd_sized_quote) = fzero /\ d.(rd_reservation) = None
  /\ (exists code, d.(rd_code) = Some code)
  /\ (has_distributed_entry_reservations g.(ge_store) = false ->
       forall id e, g'.(ge_entries) !! id = Some e -> g.(ge_entries) !! id = Some e).
Proof.
  unfold check_entry in He.
  assert (Hgate : forall res g1, global_gate tenant now r s g = (res, g1) ->
    has_distributed_entry_reservations g.(ge_store) = false ->
    match res with
    | Ok (Some l) => l.(le_released) = false
        /\ exists e, g1.(ge_entries) = <[l.(le_id) := e]> g.(ge_entries)
    | Ok None => False
    | _ => g1.(ge_entries) = g.(ge_entries)
    end).
  { intros res g1 Hg Hd. destruct res as [lease|e|].
    - apply global_gate_Ok in Hg as (gd & Hg & Hacc).
      destruct (decide_accepted_inv _ _ _ _ _ _ _ _ Hg Hacc)
        as (g0 & Hgate & _ & _ & _ & _ & shared & -> & Hent).
      unfold gate_engine in Hgate. rewrite Hd in Hgate. injection Hgate as <-. split; [done|eauto].
    - unfold global_gate in Hg. injection Hg as Hr <-.
      apply refused_entries; [done|]. unfold accepted. by destruct (gd_reason _).
    - unfold global_gate in Hg. injection Hg as Hr <-. by destruct (gd_reason _). }
  destruct (_ ;; request_sanity r) as [u|c|]; [|by injection He as <- <-; eauto 10..].
  destruct (global_gate tenant now r s g) as [res g1] eqn:Hg. specialize (Hgate _ _ eq_refl).
  cbn [fst snd] in He. destruct res as [lease|c|].
  - destruct (entry_size _ _ _ _ _ _ _) as [sized|c|]; injection He as <- <-;
      [by rewrite approve_allowed in Ha|..];
      (split; [done|split; [done|split; [done|split; [by eexists|]]]]); intros Hd id e;
      specialize (Hgate Hd); destruct lease as [l|]; try done; destruct Hgate as (Hl & e' & He');
      unfold drop_lease, release_lease; rewrite Hl; cbn; rewrite He';
      intros [Hne Hin]%lookup_delete_Some; by rewrite lookup_insert_ne in Hin.
  - injection He as <- <-. split; [done|split; [done|split; [done|split; [by eexists|]]]].
    intros Hd id e. by rewrite Hgate.
  - injection He as <- <-. split; [done|split; [done|split; [done|split; [by eexists|]]]].
    intros Hd id e. by rewrite Hgate.
Qed.
End Entries.

(** * The durable view *)

Section Oracle.
Context {libs : LedgerLibs} `{HashOrder} {LSt RSt : Type} `{LedgerStore LSt} `{RiskStore RSt}.

(** a tenant is never admitted on local figures.  If an entry of a tenant is
    allowed, there is a durable view and it answered for that tenant: the number
    of its open positions leaves room, it does not hold the symbol, its exposure
    is known, and where a daily limit is set its realized result of the day is
    known and above the limit. *)
Theorem tenant_needs_durable_view org oracle now execs r s (g : GlobalRiskEngine LSt RSt) d g'
  (He : check_entry (Some org) oracle now execs r s g = (d, g')) (Ha : allowed d = true) :
  let m := r.(er_module) in
  let limit := s.(st_config).(cf_risk).(rc_daily_loss_limit_quote) in
  exists o count exposure, oracle = Some o
    /\ count_open_for o (Some org) m = Some count
    /\ saturating_add u64_max (Z.max (Z.of_nat (length (open_positions_for m s))) count)
         (lease_usage (Some org) now r d.(rd_reservation) g').1.1
       < position_limit s.(st_config).(cf_risk) m
    /\ has_open_symbol_for o org m r.(er_symbol) = Some false
    /\ open_exposure_for o org m = Some exposure
    /\ (fltb fzero limit = true -> exists v,
         realized_today_status_for o (Some org) = PnlKnown v /\ fleb v (fneg limit) = false).
Proof.
  destruct (check_entry_inv _ _ _ _ _ _ _ _ _ He Ha) as (Hp & _ & lease & sized & _ & Hz & ->).
  apply preflight_inv in Hp as (_ & _ & _ & Hl & _). rewrite loss_check_Ok in Hl.
  unfold entry_size in Hz. inv_ok. repeat match goal with u : unit |- _ => destruct u end.
  match goal with H : admission_checks _ _ _ _ _ _ _ = Ok _ |- _ =>
    destruct (admission_inv _ _ _ _ _ _ _ H) as (_ & (n & Hn & Hroom) & Hs & _ & _) end.
  match goal with H : size_entry _ _ _ _ _ = Ok _ |- _ =>
    apply size_entry_inv in H as (durable & Hd & _) end.
  unfold effective_open_count, effective_has_open_symbol, effective_open_exposure in *.
  destruct oracle as [o|]; [|done]. cbn [mbind option_bind] in *.
  destruct (count_open_for o (Some org) _) as [count|] eqn:Hc; [|done]. injection Hn as <-.
  destruct (has_open_symbol_for o org _ _) as [[]|] eqn:Hh; [|
    |done]; [injection Hs as Hs; by rewrite orb_true_r in Hs|].
  destruct (open_exposure_for o org _) as [exposure|] eqn:Hx; [|done].
  exists o, count, exposure. repeat split; try done. intros Hpos.
  destruct (Hl Hpos) as (v & Hv & Hgt). unfold effective_realized, effective_pnl in Hv. cbn in Hv.
  destruct (realized_today_status_for o (Some org)) as [w| |]; [|done|done]. injection Hv as <-.
  exists w. split; [done|]. destruct (fleb w _) eqn:Hw; [|done].
  rewrite (fleb_trans _ _ _ (fmin_le_r _ w (proj1 (fleb_numbers _ _ Hw))) Hw) in Hgt. done.
Qed.

(** A loss limit that holds of the tighter of two results holds of the local one. *)
Lemma loss_check_local limit local read o code :
  loss_check limit (effective_pnl None (Some o) read local) code = Ok tt ->
  loss_check limit (effective_pnl None None read local) code = Ok tt.
Proof.
  rewrite !loss_check_Ok. intros Hx Hp. destruct (Hx Hp) as (v & Hv & Hgt). exists local.
  split; [done|]. unfold effective_pnl in Hv. destruct (read o) as [w| |]; [|by injection Hv as <-|done].
  injection Hv as <-. destruct (fleb local _) eqn:Hl; [|done].
  by rewrite (fleb_fmin_r _ w _ Hl) in Hgt.
Qed.

Lemma module_preflight_local now m o s :
  module_preflight None (Some o) now m s = Ok tt -> module_preflight None None now m s = Ok tt.
Proof.
  unfold module_preflight, effective_module_realized.
  destruct m; try done; intros Hx; apply outcome_bind_Ok in Hx as (u & Hu & Hl);
    rewrite Hu; cbn [mbind outcome_bind]; exact (loss_check_local _ _ _ _ _ Hl).
Qed.

(** for the operator the durable view can only refuse more.  An entry that
    is allowed with a durable view is allowed without one, with the same size,
    the same exit levels and the same reservation. *)
Theorem oracle_only_tightens o now execs r s (g : GlobalRiskEngine LSt RSt) d g'
  (He : check_entry None (Some o) now execs r s g = (d, g')) (Ha : allowed d = true) :
  check_entry None None now execs r s g = (d, g').
Proof.
  destruct (check_entry_inv _ _ _ _ _ _ _ _ _ He Ha) as (Hp & Hr & lease & sized & Hg & Hz & ->).
  assert (Hp' : preflight_coded None None now r.(er_module) s = Ok tt).
  { apply preflight_inv in Hp as (Hk & Hen & Ht & Hl & Hm). apply preflight_inv.
    repeat (split; [done|]). split; [exact (loss_check_local _ _ _ _ _ Hl)|by apply module_preflight_local in Hm]. }
  assert (Hz' : entry_size None None now execs r (lease_usage None now r lease g') s = Ok sized).
  { revert Hz. unfold entry_size. intros Hz. apply outcome_bind_Ok in Hz as ([] & Hadm & Hz).
    assert (Hadm' : admission_checks None None now execs r (lease_usage None now r lease g') s = Ok tt).
    { destruct (admission_inv _ _ _ _ _ _ _ Hadm) as (Hslip & (n & Hn & Hlt) & Hheld & Hre & Hth).
      unfold admission_checks. rewrite (proj2 (Z.ltb_ge _ _) Hslip). cbn [reject_if mbind outcome_bind].
      unfold effective_open_count in *. cbn [mbind option_bind ok_or outcome_bind] in Hn |- *.
      rewrite (proj2 (Z.leb_gt _ _)). 2:{ eapply Z.le_lt_trans; [|exact Hlt].
        unfold saturating_add. destruct (count_open_for o None _); injection Hn as <-; lia. }
      cbn [reject_if mbind outcome_bind]. unfold effective_has_open_symbol in *.
      apply (inj Some) in Hheld. cbn [ok_or mbind outcome_bind]. rewrite Hheld, Hre. cbn. exact Hth. }
    rewrite Hadm'. exact Hz. }
  unfold check_entry. rewrite Hp', Hr. cbn [mbind outcome_bind].
  rewrite Hg. cbn [fst snd].
  by rewrite Hz'.
Qed.
End Oracle.

(** * Exits *)

Section Exits.
Context {libs : LedgerLibs} `{HashOrder}.

(** the exit rules, in their order.  Off the kill switch, a position with a
    quantity and a usable mark is closed exactly when its mark is at or below the
    stop, at or above the target, has fallen from its high by the trailing
    share, or is held too long; the stop wins over the target, the target over
    the trailing stop, that over the time; and a position that is closed is
    closed whole. *)
Theorem check_exit_rules now p mark s
  (Hk : kill_switch s = false) (Hq : fleb p.(p_qty) fzero = false)
  (Hm : is_finite mark && fltb fzero mark = true) :
  let c := s.(st_config).(cf_risk) in
  let x := check_exit now p mark s in
  (should_exit x = true <->
     stop_hit c p mark = true \/ profit_hit c p mark = true \/ trail_hit c p mark = true
     \/ hold_expired now c p = true)
  /\ (x.(xd_rule) = Some StopLoss <-> stop_hit c p mark = true)
  /\ (x.(xd_rule) = Some TakeProfit <-> stop_hit c p mark = false /\ profit_hit c p mark = true)
  /\ (should_exit x = true -> x.(xd_fraction) = fone).
Proof.
  intros c x. subst x. unfold check_exit. rewrite Hk, Hq, Hm. cbn [negb]. fold c.
  destruct (stop_hit c p mark), (profit_hit c p mark), (trail_hit c p mark), (hold_expired now c p);
    cbn; split; try (split; [|split]); try split; try done; intros; try done; try tauto;
    repeat match goal with H : _ \/ _ |- _ => destruct H end; try done; by destruct_and?.
Qed.

(** the kill switch flattens the book.  While it is on, the positions a module
    is told to close are exactly its open positions, each of them whole. *)
Theorem kill_switch_closes_everything `{!HashOrderLaws} now m s
  (Hk : kill_switch s = true) :
  (forall id p, s.(st_positions) !! id = Some p -> source_of m = Some p.(p_source) ->
     PositionStatus_is_terminal p.(p_status) = false ->
     (p, mkExitDecision (Some ExitKillSwitch) fone) ∈ positions_to_close now m s)
  /\ (forall p x, (p, x) ∈ positions_to_close now m s ->
     x = mkExitDecision (Some ExitKillSwitch) fone
     /\ PositionStatus_is_terminal p.(p_status) = false /\ source_of m = Some p.(p_source)
     /\ exists id, s.(st_positions) !! id = Some p).
Proof.
  assert (Hx : forall p, check_exit now p (exit_mark p) s = mkExitDecision (Some ExitKillSwitch) fone).
  { intros p. unfold check_exit. rewrite Hk. reflexivity. }
  unfold positions_to_close. split.
  - intros id p Hp Hsrc Hst. apply list_elem_of_filter. split; [done|].
    apply list_elem_of_fmap. exists p. split; [by rewrite Hx|].
    apply elem_of_open_positions_for. eauto.
  - intros p x [_ Hin]%list_elem_of_filter. apply list_elem_of_fmap in Hin as (q & [= -> ->] & Hin).
    apply elem_of_open_positions_for in Hin as (? & ? & ?). by rewrite Hx.
Qed.
End Exits.

(** * The daily loss latch *)

Section Latch.
Context {libs : LedgerLibs} `{HashOrder}.

Lemma set_enabled_daily now m on s : (set_enabled now m on s).2.(st_daily) = s.(st_daily).
Proof.
  unfold set_enabled, set_enabled_local, publish_flag. cbn [fst snd].
  destruct (Bool.eqb _ _); by destruct s.
Qed.

Lemma is_enabled_set now m on m' s :
  is_enabled m' (set_enabled now m on s).2 = if decide (m = m') then on else is_enabled m' s.
Proof.
  rewrite <- (is_enabled_set_local now m on m' s). unfold set_enabled. cbn [snd].
  destruct (Bool.eqb _ _); [done|]. unfold publish_flag. by destruct (set_enabled_local now m on s).2.
Qed.

Lemma disable_trading_spec now s :
  (disable_trading now s).(st_daily) = s.(st_daily)
  /\ forall m, m ∈ BotModule_TRADING -> is_enabled m (disable_trading now s) = false.
Proof.
  unfold disable_trading.
  assert (Hg : forall (ms : list BotModule) (s : AppState) (dn : list BotModule),
    (forall m, m ∈ dn -> is_enabled m s = false) ->
    let s' := fold_left (fun s m => (set_enabled now m false s).2) ms s in
    s'.(st_daily) = s.(st_daily) /\ forall m, m ∈ ms \/ m ∈ dn -> is_enabled m s' = false).
  { intros ms. induction ms as [|x ms IH]; intros s0 dn Hd; cbn [fold_left].
    - split; [done|]. intros m [Hm|Hm]; [by apply not_elem_of_nil in Hm|by apply Hd].
    - destruct (IH (set_enabled now x false s0).2 (x :: dn)) as [H1 H2].
      + intros m Hm. rewrite is_enabled_set. case_decide; [done|].
        apply elem_of_cons in Hm as [->|Hm]; [done|by apply Hd].
      + rewrite H1, set_enabled_daily. split; [done|]. intros m Hm. apply H2.
        rewrite !elem_of_cons in *. tauto. }
  destruct (Hg BotModule_TRADING s []) as [H1 H2]; [by intros m Hm%not_elem_of_nil|].
  split; [done|]. intros m Hm. apply H2. by left.
Qed.

Lemma add_realized_daily now m pnl s :
  (add_realized now m pnl s).(st_daily).(dl_day) = today now
  /\ (add_realized now m pnl s).(st_daily).(dl_loss_limit_tripped)
     = (roll_day now s.(st_daily)).(dl_loss_limit_tripped)
  /\ (add_realized now m pnl s).(st_config) = s.(st_config).
Proof.
  unfold add_realized, bump, update_module. destruct s. cbn. split; [|done].
  unfold roll_day. case_decide; [done|reflexivity].
Qed.

Lemma preflight_tripped oracle now m s :
  s.(st_daily).(dl_day) = today now -> s.(st_daily).(dl_loss_limit_tripped) = true ->
  exists code, preflight_coded None oracle now m s = Err code.
Proof.
  intros Hday Ht. unfold preflight_coded. destruct (kill_switch s); [by eexists|]. cbn.
  destruct (is_enabled m s); [|by eexists]. cbn.
  unfold roll_day. rewrite decide_True by done. rewrite Ht. by eexists.
Qed.

Lemma preflight_disabled oracle now m s :
  is_enabled m s = false -> exists code, preflight_coded None oracle now m s = Err code.
Proof.
  intros Hm. unfold preflight_coded. destruct (kill_switch s); [by eexists|].
  cbn [reject_if mbind outcome_bind]. rewrite Hm. by eexists.
Qed.

Lemma mark_tripped now s :
  s.(st_daily).(dl_day) = today now -> s.(st_daily).(dl_loss_limit_tripped) = false ->
  exists t, mark_loss_limit_tripped now s = (true, t) /\ t.(st_daily).(dl_day) = today now
    /\ t.(st_daily).(dl_loss_limit_tripped) = true.
Proof.
  intros Hday Ht. unfold mark_loss_limit_tripped, roll_day. rewrite decide_True, Ht by done.
  eexists. split; [reflexivity|]. by destruct s.
Qed.

(** the daily loss limit shuts trading.  When the result booked brings the
    day's loss to the limit, no entry of any module passes preflight for the rest
    of that day, even if a module is enabled again; and when it is this result
    that trips it, every trading module is switched off, and stays off on later
    days too until something enables it. *)
Theorem loss_limit_shuts_the_day oracle oracle' now now' m pnl s v
  (Hlim : fltb fzero s.(st_config).(cf_risk).(rc_daily_loss_limit_quote) = true)
  (Hv : effective_realized None oracle
          (daily_stats now (add_realized now m pnl s)).(dl_realized_pnl) = Some v)
  (Hloss : fleb v (fneg s.(st_config).(cf_risk).(rc_daily_loss_limit_quote)) = true) :
  let s' := book_pnl None oracle now m pnl s in
  (forall m', today now' = today now -> exists code, preflight_coded None oracle' now' m' s' = Err code)
  /\ ((roll_day now s.(st_daily)).(dl_loss_limit_tripped) = false ->
      forall m', m' ∈ BotModule_TRADING ->
        is_enabled m' s' = false
        /\ exists code, preflight_coded None oracle' now' m' s' = Err code).
Proof.
  cbn zeta. destruct (add_realized_daily now m pnl s) as (Hday & Htrip & Hcfg).
  unfold book_pnl. cbn [is_some]. set (s1 := add_realized now m pnl s) in *. rewrite Hcfg.
  assert (Hpos : fleb (rc_daily_loss_limit_quote (cf_risk (st_config s))) fzero = false).
  { destruct (fleb _ fzero) eqn:Hle; [|done].
    pose proof (fltb_leb_trans _ _ _ Hlim Hle) as Hbad. by rewrite fltb_irrefl in Hbad. }
  rewrite Hpos, Hv, Hloss. cbn [andb].
  assert (Hd : (daily_stats now s1).(dl_loss_limit_tripped) = s1.(st_daily).(dl_loss_limit_tripped)).
  { unfold daily_stats, roll_day. cbn. by rewrite decide_True. }
  rewrite Hd. destruct (dl_loss_limit_tripped (st_daily s1)) eqn:Ht; cbn [negb].
  - split; [|congruence]. intros m' Hsame. apply preflight_tripped; congruence.
  - destruct (mark_tripped now s1 Hday Ht) as (t & -> & Htd & Htt). cbn [fst snd].
    destruct (disable_trading_spec now t) as [Hdl Hoff]. split.
    + intros m' Hsame. apply preflight_tripped; rewrite Hdl; congruence.
    + intros _ m' Hm'. split; [by apply Hoff|]. by apply preflight_disabled, Hoff.
Qed.
End Latch.

(** * Concrete runs *)

Definition demo_entry : EntryRequest :=
  {| er_module := Sniper; er_venue := PumpFun; er_symbol := lit "MINT";
     er_requested_quote := f_lit 7 10; er_available_quote := f_of_Z 10; er_slippage_bps := 100;
     er_price := None; er_fair_value := None; er_liquidity := None; er_wallet := lit "w";
     er_strategy := lit "sniper" |}.

Definition demo_engine_100 : GlobalRiskEngine MemoryLedgerStore MemoryRiskStore :=
  demo_engine (f_of_Z 100) 0.

Definition demo_tenant_engine : GlobalRiskEngine MemoryLedgerStore MemoryRiskStore :=
  GlobalRiskEngine_new 0 GlobalRiskConfig_default Inner_new MemoryLedgerStore_new
    (MemoryRiskStore_new 16) (lit "r1").

Definition demo_durable : GlobalRiskOracle :=
  mkGlobalRiskOracle (fun _ _ => Some 2) (fun _ => PnlKnown fzero) (fun _ _ => PnlKnown fzero)
    (fun _ _ _ => Some false) (fun _ _ => Some fzero).

Definition demo_check (tenant : option OrganizationId) (oracle : option GlobalRiskOracle)
    (s : AppState) (g : GlobalRiskEngine MemoryLedgerStore MemoryRiskStore)
    : RiskDecision * GlobalRiskEngine MemoryLedgerStore MemoryRiskStore :=
  check_entry tenant oracle 10 [] demo_entry s g.

(** 0.7 asked, 0.5 allowed. *)
Definition demo_allowed := demo_check None None demo_replica demo_engine_100.
Definition demo_durable_allowed := demo_check None (Some demo_durable) demo_replica demo_engine_100.
Definition demo_tenant_allowed := demo_check (Some 7) (Some demo_durable) demo_replica demo_tenant_engine.
Definition demo_refused := demo_check None None demo_holding demo_engine_100.

Example demo_allowed_size :
  (demo_allowed.1.(rd_verdict), demo_allowed.1.(rd_sized_quote)) = (AllowReduced, f_lit 5 10).
Proof. vm_compute. reflexivity. Qed.

Example demo_refused_code : demo_refused.1.(rd_code) = Some RcDuplicateSymbol.
Proof. vm_compute. reflexivity. Qed.

Lemma demo_verdicts :
  allowed demo_allowed.1 = true /\ allowed demo_durable_allowed.1 = true
  /\ allowed demo_tenant_allowed.1 = true /\ allowed demo_refused.1 = false.
Proof. repeat split; vm_compute; reflexivity. Qed.

Lemma check_entry_gates_witness :
  allowed demo_allowed.1 = true /\ kill_switch demo_replica = false.
Proof.
  split; [exact (proj1 demo_verdicts)|].
  exact (proj1 (check_entry_gates None None 10 [] demo_entry demo_replica demo_engine_100 _ _
    (surjective_pairing demo_allowed) (proj1 demo_verdicts))).
Defined.

Lemma check_entry_size_witness :
  allowed demo_allowed.1 = true /\ fltb fzero demo_allowed.1.(rd_sized_quote) = true.
Proof.
  split; [exact (proj1 demo_verdicts)|].
  refine (proj1 (check_entry_size None None 10 [] demo_entry demo_replica demo_engine_100 _ _
    (surjective_pairing demo_allowed) (proj1 demo_verdicts) _)).
  intros e [= <-]. vm_compute. repeat split.
Defined.

Lemma check_entry_refused_witness :
  allowed demo_refused.1 = false /\ demo_refused.1.(rd_reservation) = None.
Proof.
  split; [exact (proj2 (proj2 (proj2 demo_verdicts)))|].
  exact (proj1 (proj2 (proj2 (check_entry_refused None None 10 [] demo_entry demo_holding
    demo_engine_100 _ _ (surjective_pairing demo_refused) (proj2 (proj2 (proj2 demo_verdicts))))))).
Defined.

Lemma tenant_needs_durable_view_witness :
  allowed demo_tenant_allowed.1 = true /\ exists o, Some demo_durable = Some o.
Proof.
  split; [exact (proj1 (proj2 (proj2 demo_verdicts)))|].
  destruct (tenant_needs_durable_view 7 (Some demo_durable) 10 [] demo_entry demo_replica
    demo_tenant_engine _ _ (surjective_pairing demo_tenant_allowed) (proj1 (proj2 (proj2 demo_verdicts))))
    as (o & _ & _ & Ho & _).
  exists o. exact Ho.
Defined.

Lemma oracle_only_tightens_witness :
  allowed demo_durable_allowed.1 = true /\
  check_entry None None 10 [] demo_entry demo_replica demo_engine_100 =
    (demo_durable_allowed.1, demo_durable_allowed.2).
Proof.
  split; [exact (proj1 (proj2 demo_verdicts))|].
  exact (oracle_only_tightens demo_durable 10 [] demo_entry demo_replica demo_engine_100 _ _
    (surjective_pairing demo_durable_allowed) (proj1 (proj2 demo_verdicts))).
Defined.

(** The mark has doubled: the target of 100% is reached. *)
Lemma check_exit_rules_witness :
  kill_switch demo_holding = false /\
  (check_exit 20 demo_position (f_lit 2 1000) demo_holding).(xd_rule) = Some TakeProfit.
Proof.
  split; [vm_compute; reflexivity|].
  refine (proj2 (proj1 (proj2 (proj2 (check_exit_rules 20 demo_position (f_lit 2 1000) demo_holding
    _ _ _)))) _); [vm_compute; reflexivity..|].
  split; vm_compute; reflexivity.
Defined.

Definition demo_stopped : AppState := emergency_stop 9 (lit "panic") demo_holding.

Lemma kill_switch_closes_everything_witness :
  kill_switch demo_stopped = true /\
  (demo_position, mkExitDecision (Some ExitKillSwitch) fone) ∈ positions_to_close 20 Sniper demo_stopped.
Proof.
  assert (Hk : kill_switch demo_stopped = true) by (vm_compute; reflexivity).
  split; [exact Hk|].
  refine (proj1 (kill_switch_closes_everything (H0 := demo_order_laws) 20 Sniper demo_stopped Hk)
    (lit "p-1") demo_position _ _ _); vm_compute; reflexivity.
Defined.

(** A loss of two, the limit of the day. *)
Lemma loss_limit_shuts_the_day_witness :
  fleb (fneg (f_of_Z 2)) (fneg (f_of_Z 2)) = true /\
  is_enabled Copy (book_pnl None None 20 Sniper (fneg (f_of_Z 2)) demo_replica) = false.
Proof.
  split; [vm_compute; reflexivity|].
  refine (proj1 (proj2 (loss_limit_shuts_the_day None None 20 30 Sniper (fneg (f_of_Z 2)) demo_replica
    (fneg (f_of_Z 2)) _ _ _) _ Copy _)); [vm_compute; reflexivity..|].
  apply elem_of_cons. right. apply elem_of_cons. by left.
Defined.
