(* ===== verification/CopyEvent.v ===== *)
(** A leader's trade as the copy pipeline sees it
    ([crates/module-copy/src/event.rs], [event_dedup.rs] and the journal row of
    [mirror.rs]): the event with its identities, its validation, and the
    vocabulary of stages, rejections and outcomes.  The human detail of a
    rejection is left out.  Times are nanoseconds. *)
From stdpp Require Import prelude countable gmap strings.
From Stdlib Require Import ZArith Lia.
From S2P Require Import Prelude.
From S2P Require Import Text.
From S2P Require Import Float64.
From S2P Require Import Models.
From S2P Require Import BotConfig.
From S2P Require Import Ownership.
From S2P Require Import LedgerEvent.
From S2P Require Import ExecLedger.
From S2P Require Import AppState.
From S2P Require Import GlobalRisk.
From S2P Require Import Risk.

#[local] Open Scope Z_scope.

(** * Sources and defects *)

Inductive EventSource : Type :=
  | PumpPortal | LogsPoll | TransactionSubscribe | Replay | Manual.

#[export] Instance EventSource_eq_dec : EqDecision EventSource.
Proof. solve_decision. Defined.

Definition EventSource_ALL : list EventSource :=
  [PumpPortal; LogsPoll; TransactionSubscribe; Replay; Manual].

#[export] Instance EventSource_countable : Countable EventSource.
Proof.
  refine (inj_countable'
    (fun s => match s with PumpPortal => 0 | LogsPoll => 1 | TransactionSubscribe => 2
                         | Replay => 3 | Manual => 4 end)%nat
    (fun n => nth n EventSource_ALL Manual) _). by intros [].
Defined.

Definition EventSource_as_str (s : EventSource) : text :=
  match s with
  | PumpPortal => lit "pumpportal"
  | LogsPoll => lit "logs_poll"
  | TransactionSubscribe => lit "transaction_subscribe"
  | Replay => lit "replay"
  | Manual => lit "manual"
  end.

Definition EventSource_from_feed (feed : text) : EventSource :=
  let f := map ascii_lower (trim feed) in
  if decide (f = lit "pumpportal") then PumpPortal
  else if decide (f ∈ [lit "logs_poll"; lit "logs"; lit "poll"]) then LogsPoll
  else if decide (f ∈ [lit "transaction_subscribe"; lit "geyser"]) then TransactionSubscribe
  else if decide (f = lit "replay") then Replay
  else Manual.

Definition may_execute (s : EventSource) : bool := negb (bool_decide (s = Replay)).

Definition EventSource_parse (s : text) : option EventSource :=
  snd <$> list_find (fun x => EventSource_as_str x = s) EventSource_ALL.

Inductive EventDefect : Type :=
  | EmptyLeader | EmptySignature | EmptyMint | MintIsLeader | NonFiniteAmount | NegativeAmount
  | EdZeroSize | InvalidFee | FutureTimestamp | ForeignVenue.

Definition EventDefect_as_str (d : EventDefect) : text :=
  match d with
  | EmptyLeader => lit "empty_leader"
  | EmptySignature => lit "empty_signature"
  | EmptyMint => lit "empty_mint"
  | MintIsLeader => lit "mint_is_leader"
  | NonFiniteAmount => lit "non_finite_amount"
  | NegativeAmount => lit "negative_amount"
  | EdZeroSize => lit "zero_size"
  | InvalidFee => lit "invalid_fee"
  | FutureTimestamp => lit "future_timestamp"
  | ForeignVenue => lit "foreign_venue"
  end.

Definition FUTURE_SKEW_TOLERANCE_SECS : Z := 60.

(** * The event *)

Record LeaderTradeEvent : Type := mkLeaderTradeEvent {
  e_event_id : text;
  e_leader : text;
  e_signature : text;
  e_slot : Z;                     (* u64, 0 when the source had none *)
  e_block_time : option Z;
  e_side : PositionSide;
  e_mint : text;
  e_symbol : option text;
  e_venue : Venue;
  e_token_amount : f64;
  e_sol_amount : f64;
  e_fee_sol : f64;
  e_discriminator : option text;
  e_source : EventSource;
  e_source_sequence : Z;          (* u64, 0 when not numbered *)
  e_observed_at : Z;
}.

(** [str::trim_start_matches]: the prefix goes as often as it is there. *)
Fixpoint trim_start_matches_fuel (fuel : nat) (p s : text) : text :=
  match fuel with
  | O => s
  | S n => match strip_prefix p s with
           | Some s' => trim_start_matches_fuel n p s'
           | None => s
           end
  end.

Definition trim_start_matches (p s : text) : text :=
  trim_start_matches_fuel (S (length s)) p s.

Definition PositionSide_as_str (s : PositionSide) : text :=
  match s with Long => lit "long" | Short => lit "short" end.

Definition colon : text := lit ":".

Section Events.
Context {libs : LedgerLibs}.

Definition compute_event_id (leader signature mint : text) (side : PositionSide) : text :=
  lit "cev_" ++ trim_start_matches (lit "int_")
    (intent_id [lit "copy-event"; trim leader; trim signature; trim mint; PositionSide_as_str side]).

Definition from_wallet_trade (t : WalletTrade) (source : EventSource) (sequence : Z)
    : LeaderTradeEvent :=
  mkLeaderTradeEvent
    (compute_event_id t.(wt_wallet) t.(wt_signature) t.(wt_mint) t.(wt_side))
    t.(wt_wallet) t.(wt_signature) t.(wt_slot) t.(wt_block_time) t.(wt_side) t.(wt_mint)
    t.(wt_symbol) t.(wt_venue) t.(wt_token_amount) t.(wt_sol_amount) t.(wt_fee_sol)
    t.(wt_discriminator) source sequence t.(wt_observed_at).
End Events.

Definition to_wallet_trade (e : LeaderTradeEvent) : WalletTrade :=
  mkWalletTrade e.(e_leader) e.(e_signature) e.(e_slot) e.(e_block_time) e.(e_side) e.(e_mint)
    e.(e_symbol) e.(e_token_amount) e.(e_sol_amount) e.(e_venue) e.(e_fee_sol)
    e.(e_discriminator) e.(e_observed_at).

Definition side_str (e : LeaderTradeEvent) : text :=
  match e.(e_side) with Long => lit "buy" | Short => lit "sell" end.

Definition event_is_buy (e : LeaderTradeEvent) : bool := bool_decide (e.(e_side) = Long).

Definition dedup_key (e : LeaderTradeEvent) : text :=
  lit "copy:" ++ trim e.(e_signature) ++ colon ++ trim e.(e_leader) ++ colon
  ++ trim e.(e_mint) ++ colon ++ side_str e.

(** [event_dedup::key_from_parts]. *)
Definition key_from_parts (signature leader mint side : text) : text :=
  lit "copy:" ++ trim signature ++ colon ++ trim leader ++ colon ++ trim mint ++ colon ++ trim side.

Definition event_at (e : LeaderTradeEvent) : Z := default e.(e_observed_at) e.(e_block_time).

Definition event_age_secs (now : Z) (e : LeaderTradeEvent) : Z := num_seconds (now - event_at e).

Definition MILLISECOND : Z := 1000000.

Definition detection_lag_ms (e : LeaderTradeEvent) : option Z :=
  (fun bt => Z.quot (e.(e_observed_at) - bt) MILLISECOND) <$> e.(e_block_time).

Definition is_stale (now max_age_secs : Z) (e : LeaderTradeEvent) : bool :=
  (0 <? max_age_secs) && (max_age_secs <? event_age_secs now e).

(** [LeaderTradeEvent::validate]. *)
Definition event_validate (now : Z) (e : LeaderTradeEvent) : outcome EventDefect unit :=
  reject_if (is_empty (trim e.(e_leader))) EmptyLeader ;;
  reject_if (is_empty (trim e.(e_signature))) EmptySignature ;;
  reject_if (is_empty (trim e.(e_mint))) EmptyMint ;;
  reject_if (bool_decide (trim e.(e_mint) = trim e.(e_leader))) MintIsLeader ;;
  reject_if (negb (is_finite e.(e_token_amount)) || negb (is_finite e.(e_sol_amount)))
    NonFiniteAmount ;;
  reject_if (fltb e.(e_token_amount) fzero || fltb e.(e_sol_amount) fzero) NegativeAmount ;;
  reject_if (f64_eq e.(e_token_amount) fzero && f64_eq e.(e_sol_amount) fzero) EdZeroSize ;;
  reject_if (negb (is_finite e.(e_fee_sol)) || fltb e.(e_fee_sol) fzero) InvalidFee ;;
  reject_if (match e.(e_block_time) with
             | Some bt => now + FUTURE_SKEW_TOLERANCE_SECS * SECOND <? bt
             | None => false
             end) FutureTimestamp ;;
  reject_if (bool_decide (e.(e_venue) = PolymarketClob)) ForeignVenue.

(** * Stages *)

Inductive CopyStage : Type :=
  | CsReceived | CsValidated | CsLeaderResolved | CsDeduplicated | CsOrdered | CsPolicyPassed
  | CsSized | CsRiskApproved | CsOwnershipClaimed | CsSubmitted | CsFilled | CsExitMirrored
  | CsRejected | CsFailed | CsAmbiguous.

#[export] Instance CopyStage_eq_dec : EqDecision CopyStage.
Proof. solve_decision. Defined.

Definition CopyStage_as_str (s : CopyStage) : text :=
  match s with
  | CsReceived => lit "RECEIVED"
  | CsValidated => lit "VALIDATED"
  | CsLeaderResolved => lit "LEADER_RESOLVED"
  | CsDeduplicated => lit "DEDUPLICATED"
  | CsOrdered => lit "ORDERED"
  | CsPolicyPassed => lit "POLICY_PASSED"
  | CsSized => lit "SIZED"
  | CsRiskApproved => lit "RISK_APPROVED"
  | CsOwnershipClaimed => lit "OWNERSHIP_CLAIMED"
  | CsSubmitted => lit "SUBMITTED"
  | CsFilled => lit "FILLED"
  | CsExitMirrored => lit "EXIT_MIRRORED"
  | CsRejected => lit "REJECTED"
  | CsFailed => lit "FAILED"
  | CsAmbiguous => lit "AMBIGUOUS"
  end.

Definition stage_is_terminal (s : CopyStage) : bool :=
  match s with
  | CsFilled | CsExitMirrored | CsRejected | CsFailed | CsAmbiguous => true
  | _ => false
  end.

Definition opened_exposure (s : CopyStage) : bool :=
  match s with CsFilled | CsAmbiguous => true | _ => false end.

(** * Rejections *)

Inductive RejectReason : Type :=
  | RrInvalidEvent | RrDuplicateEvent | RrOutOfOrder | RrLeaderUnknown | RrLeaderPaused
  | RrLeaderRemoved | RrReplayOnly | RrSellsNotMirrored | RrMirrorExitsDisabled
  | RrNoPositionToExit | RrVenueDisabled | RrBelowLeaderMin | RrStaleEvent | RrSymbolGated
  | RrSniperHolds | RrAlreadyMirroring | RrZeroSize | RrDustSize | RrBalanceUnavailable
  | RrKillSwitch | RrStrategyDisabled | RrCopyCooldown | RrLeaderExposure | RrExposureLimit
  | RrSlippageLimit | RrRiskRejected | RrOwnershipUnavailable | RrOwnershipLost
  | RrExecutionFailed.

#[export] Instance RejectReason_eq_dec : EqDecision RejectReason.
Proof. solve_decision. Defined.

Definition RejectReason_as_str (r : RejectReason) : text :=
  match r with
  | RrInvalidEvent => lit "INVALID_EVENT"
  | RrDuplicateEvent => lit "DUPLICATE_EVENT"
  | RrOutOfOrder => lit "OUT_OF_ORDER"
  | RrLeaderUnknown => lit "LEADER_UNKNOWN"
  | RrLeaderPaused => lit "LEADER_PAUSED"
  | RrLeaderRemoved => lit "LEADER_REMOVED"
  | RrReplayOnly => lit "REPLAY_ONLY"
  | RrSellsNotMirrored => lit "SELLS_NOT_MIRRORED"
  | RrMirrorExitsDisabled => lit "MIRROR_EXITS_DISABLED"
  | RrNoPositionToExit => lit "NO_POSITION_TO_EXIT"
  | RrVenueDisabled => lit "VENUE_DISABLED"
  | RrBelowLeaderMin => lit "BELOW_LEADER_MIN"
  | RrStaleEvent => lit "STALE_EVENT"
  | RrSymbolGated => lit "SYMBOL_GATED"
  | RrSniperHolds => lit "SNIPER_HOLDS"
  | RrAlreadyMirroring => lit "ALREADY_MIRRORING"
  | RrZeroSize => lit "ZERO_SIZE"
  | RrDustSize => lit "DUST_SIZE"
  | RrBalanceUnavailable => lit "BALANCE_UNAVAILABLE"
  | RrKillSwitch => lit "KILL_SWITCH"
  | RrStrategyDisabled => lit "STRATEGY_DISABLED"
  | RrCopyCooldown => lit "COPY_COOLDOWN"
  | RrLeaderExposure => lit "LEADER_EXPOSURE"
  | RrExposureLimit => lit "EXPOSURE_LIMIT"
  | RrSlippageLimit => lit "SLIPPAGE_LIMIT"
  | RrRiskRejected => lit "RISK_REJECTED"
  | RrOwnershipUnavailable => lit "OWNERSHIP_UNAVAILABLE"
  | RrOwnershipLost => lit "OWNERSHIP_LOST"
  | RrExecutionFailed => lit "EXECUTION_FAILED"
  end.

(** [from_risk_code]: the label the pipeline puts on a risk code. *)
Definition from_risk_code (code : option RiskCode) : RejectReason :=
  match code with
  | Some (RcKillSwitch | RcGlobalKillSwitch) => RrKillSwitch
  | Some (RcModuleDisabled | RcCopyEmergencyDisabled) => RrStrategyDisabled
  | Some RcSlippageCap => RrSlippageLimit
  | Some RcCopyCooldown => RrCopyCooldown
  | Some RcCopyLeaderExposure => RrLeaderExposure
  | Some RcStaleSignal => RrStaleEvent
  | Some c => if code_is_exposure_limit c then RrExposureLimit else RrRiskRejected
  | None => RrRiskRejected
  end.

Definition is_routine (r : RejectReason) : bool :=
  match r with
  | RrDuplicateEvent | RrLeaderUnknown | RrSellsNotMirrored | RrMirrorExitsDisabled
  | RrNoPositionToExit | RrBelowLeaderMin | RrAlreadyMirroring | RrCopyCooldown
  | RrOwnershipLost | RrReplayOnly => true
  | _ => false
  end.

Record Rejection : Type := mkRejection { rj_reason : RejectReason; rj_stage : CopyStage }.

#[export] Instance Rejection_eq_dec : EqDecision Rejection.
Proof. solve_decision. Defined.

(** * Outcomes *)

Record CopyOutcome : Type := mkCopyOutcome {
  co_event_id : text;
  co_stage : CopyStage;
  co_rejection : option Rejection;
  co_intent_id : option text;
  co_position_id : option text;
  co_requested_sol : option f64;
  co_sized_sol : option f64;
  co_signature : option text;
}.

Definition fails (r : RejectReason) : bool :=
  match r with
  | RrExecutionFailed | RrBalanceUnavailable | RrOwnershipUnavailable => true
  | _ => false
  end.

(** [CopyOutcome::rejected]. *)
Definition outcome_rejected (event_id : text) (r : Rejection) : CopyOutcome :=
  mkCopyOutcome event_id (if fails r.(rj_reason) then CsFailed else CsRejected) (Some r)
    None None None None None.

(** ** The journal row ([db/copy.rs], [mirror::journal_record]) *)

Record CopyEventRecord : Type := mkCopyEventRecord {
  cr_event_id : text;
  cr_leader : text;
  cr_signature : text;
  cr_slot : Z;
  cr_mint : text;
  cr_side : text;
  cr_venue : text;
  cr_token_amount : f64;
  cr_sol_amount : f64;
  cr_source : text;
  cr_source_sequence : Z;
  cr_event_at : option Z;
  cr_observed_at : Z;
  cr_stage : text;
  cr_reject_reason : option text;
  cr_intent_id : option text;
  cr_position_id : option text;
  cr_created_at : Z;
  cr_updated_at : Z;
}.

Definition journal_record (now : Z) (e : LeaderTradeEvent) (o : CopyOutcome) : CopyEventRecord :=
  mkCopyEventRecord e.(e_event_id) e.(e_leader) e.(e_signature) e.(e_slot) e.(e_mint)
    (side_str e) (Venue_as_str e.(e_venue)) e.(e_token_amount) e.(e_sol_amount)
    (EventSource_as_str e.(e_source)) e.(e_source_sequence) e.(e_block_time) e.(e_observed_at)
    (CopyStage_as_str o.(co_stage))
    ((fun r => RejectReason_as_str r.(rj_reason)) <$> o.(co_rejection))
    o.(co_intent_id) o.(co_position_id) now now.
