(* ===== verification/FeePolicy.v ===== *)
(** Priority fees ([crates/solana-kit/src/fees.rs]) and the [execution] section
    of the configuration they come from ([crates/core/src/config.rs]).  Fees are
    [u64] micro-lamports, durations nanoseconds.  The sampler behind the
    adaptive mode asks the network; what it does with the sample is here, the
    call is in [Executor].  Metrics are left out. *)
From stdpp Require Import prelude countable gmap list strings.
From Stdlib Require Import ZArith Lia.
From S2P Require Import Prelude.
From S2P Require Import Text.
From S2P Require Import Models.
From S2P Require Import BotConfig.

#[local] Open Scope Z_scope.

(** * The [execution] section *)

Record ExecutionConfig : Type := mkExecutionConfig {
  xc_mode : ExecutionMode;
  xc_allow_live_trading : bool;
  xc_use_jito : bool;
  xc_jito_block_engine_url : text;
  xc_jito_tip_lamports : Z;
  xc_jito_race : bool;
  xc_jito_dynamic_tip_percentile : Z;         (* u8 *)
  xc_priority_fee_micro_lamports : Z;
  xc_compute_unit_limit : Z;
  xc_confirm_timeout_ms : Z;
  xc_confirm_poll_ms : Z;
  xc_send_retries : Z;                        (* u32 *)
  xc_simulate_first : bool;
  xc_abort_on_simulation_failure : bool;
  xc_broadcast_fanout : bool;
  xc_fee_mode : text;
  xc_fee_min_micro_lamports : Z;
  xc_fee_max_micro_lamports : Z;
  xc_fee_emergency_max_micro_lamports : Z;
  xc_fee_percentile : Z;                      (* u8 *)
  xc_fee_escalation_pct : Z;
  xc_fee_oracle_ttl_ms : Z;
  xc_max_blockhash_age_ms : Z;
}.

Definition ExecutionConfig_default : ExecutionConfig :=
  mkExecutionConfig Paper false false (lit "https://mainnet.block-engine.jito.wtf") 1000000 false 0
    250000 400000 60000 1000 2 true true false (lit "fixed") 0 5000000 20000000 75 50 2000 20000.

(** [ExecutionConfig::live_allowed]. *)
Definition xc_live_allowed (c : ExecutionConfig) : bool :=
  ExecutionMode_is_live c.(xc_mode) && c.(xc_allow_live_trading).

Definition fee_adaptive (c : ExecutionConfig) : bool :=
  bool_decide (map ascii_lower (trim c.(xc_fee_mode)) = lit "adaptive").

(** * The policy *)

Definition MILLIS : Z := 1000000.

Record FeePolicy : Type := mkFeePolicy {
  fp_adaptive : bool;
  fp_min_micro_lamports : Z;
  fp_max_micro_lamports : Z;
  fp_emergency_max_micro_lamports : Z;
  fp_percentile : Z;
  fp_escalation_pct : Z;
  fp_oracle_ttl : Z;
  fp_max_blockhash_age : Z;
}.

(** [FeePolicy::from_config]. *)
Definition fee_policy_of (c : ExecutionConfig) : FeePolicy :=
  let mn := c.(xc_fee_min_micro_lamports) in
  let mx := Z.max c.(xc_fee_max_micro_lamports) mn in
  mkFeePolicy (fee_adaptive c) mn mx (Z.max c.(xc_fee_emergency_max_micro_lamports) mx)
    (Z.max 1 (Z.min c.(xc_fee_percentile) 100)) c.(xc_fee_escalation_pct)
    (c.(xc_fee_oracle_ttl_ms) * MILLIS) (Z.max c.(xc_max_blockhash_age_ms) 1 * MILLIS).

Definition FeePolicy_default : FeePolicy := fee_policy_of ExecutionConfig_default.

(** [u64::clamp]; the standard library asserts [min <= max]. *)
Definition zclamp (lo hi x : Z) : Z := if x <? lo then lo else if hi <? x then hi else x.

Definition fee_clamp (p : FeePolicy) (fee : Z) : Z :=
  zclamp p.(fp_min_micro_lamports) p.(fp_max_micro_lamports) fee.

(** The increase of one retry. *)
Definition bump_fee (p : FeePolicy) (fee : Z) : Z :=
  let bump := saturating_mul u64_max fee p.(fp_escalation_pct) / 100 in
  saturating_add u64_max fee (Z.max bump (if 0 <? p.(fp_escalation_pct) then 1 else 0)).

(** [n] retries; the loop returns as soon as the maximum is reached. *)
Fixpoint escalate_n (p : FeePolicy) (n : nat) (fee : Z) : Z :=
  match n with
  | O => Z.min fee p.(fp_max_micro_lamports)
  | S n =>
      let fee := bump_fee p fee in
      if p.(fp_max_micro_lamports) <=? fee then p.(fp_max_micro_lamports)
      else escalate_n p n fee
  end.

(** [escalate]: [for _ in 1..attempt.max(1)]. *)
Definition escalate (p : FeePolicy) (base attempt : Z) : Z :=
  escalate_n p (Z.to_nat (Z.max attempt 1 - 1)) base.

(** [percentile_of]: the nearest rank. *)
Definition percentile_of (p : FeePolicy) (sorted : list Z) : option Z :=
  match sorted with
  | [] => None
  | _ =>
      let n := Z.of_nat (length sorted) in
      let rank := cdiv (p.(fp_percentile) * n) 100 in
      sorted !! Z.to_nat (zclamp 1 n rank - 1)
  end.

Definition would_refuse (p : FeePolicy) (requested : Z) : bool :=
  (p.(fp_emergency_max_micro_lamports) <? requested)
  || (p.(fp_emergency_max_micro_lamports) <? fee_clamp p requested).

Definition max_payable (p : FeePolicy) (requested attempts : Z) : Z :=
  let base := fee_clamp p requested in
  if p.(fp_adaptive) then Z.max base p.(fp_max_micro_lamports)
  else Z.max (escalate p base (Z.max attempts 1)) base.

Inductive FeeSource : Type := FsRequested | FsAdaptive | FsEscalated.

Record FeeDecision : Type := mkFeeDecision {
  fd_requested : Z;
  fd_fee : Z;
  fd_source : FeeSource;
  fd_clamped : bool;
  fd_refused : bool;
  fd_attempt : Z;
}.

(** The adaptive quote only raises. *)
Definition quoted_fee (p : FeePolicy) (requested : Z) (oracle : option Z) : Z * FeeSource :=
  match oracle with
  | Some q => if p.(fp_adaptive) && (requested <? q) then (q, FsAdaptive)
              else (requested, FsRequested)
  | None => (requested, FsRequested)
  end.

Definition escalated_fee (p : FeePolicy) (attempt : Z) (f : Z * FeeSource) : Z * FeeSource :=
  if (1 <? attempt) && (0 <? p.(fp_escalation_pct)) then
    let e := escalate p f.1 attempt in
    if negb (e =? f.1) then (e, FsEscalated) else f
  else f.

Definition decide_fee (p : FeePolicy) (requested : Z) (oracle : option Z) (attempt : Z)
    : FeeDecision :=
  let f := escalated_fee p attempt (quoted_fee p requested oracle) in
  let clamped_fee := fee_clamp p f.1 in
  mkFeeDecision requested clamped_fee f.2 (negb (clamped_fee =? f.1))
    (would_refuse p requested || (p.(fp_emergency_max_micro_lamports) <? clamped_fee)) attempt.

(** * What the policy guarantees *)

Record policy_ok (p : FeePolicy) : Prop := mkPolicyOk {
  po_min : 0 <= p.(fp_min_micro_lamports);
  po_max : p.(fp_min_micro_lamports) <= p.(fp_max_micro_lamports) <= u64_max;
  po_emergency : p.(fp_max_micro_lamports) <= p.(fp_emergency_max_micro_lamports);
  po_percentile : 1 <= p.(fp_percentile) <= 100;
  po_escalation : 0 <= p.(fp_escalation_pct);
}.

Lemma fee_policy_of_ok c :
  in_u64 c.(xc_fee_min_micro_lamports) -> in_u64 c.(xc_fee_max_micro_lamports) ->
  0 <= c.(xc_fee_escalation_pct) -> policy_ok (fee_policy_of c).
Proof. intros ? ? ?. split; cbn; mlia. Qed.

Lemma zclamp_range lo hi x : lo <= hi -> lo <= zclamp lo hi x <= hi.
Proof. unfold zclamp. destruct (Z.ltb_spec x lo), (Z.ltb_spec hi x); lia. Qed.

Lemma zclamp_mono lo hi x y : lo <= hi -> x <= y -> zclamp lo hi x <= zclamp lo hi y.
Proof.
  unfold zclamp. destruct (Z.ltb_spec x lo), (Z.ltb_spec hi x), (Z.ltb_spec y lo), (Z.ltb_spec hi y); lia.
Qed.

Lemma zclamp_id lo hi x : lo <= x <= hi -> zclamp lo hi x = x.
Proof. unfold zclamp. destruct (Z.ltb_spec x lo), (Z.ltb_spec hi x); lia. Qed.

Section Policy.
Context (p : FeePolicy) (Hp : policy_ok p).

Lemma bump_fee_ge f : 0 <= f <= u64_max -> f <= bump_fee p f <= u64_max.
Proof using Hp.
  destruct Hp as [? ? ? ? Hesc]. intros Hf. unfold bump_fee, saturating_add.
  assert (0 <= saturating_mul u64_max f (fp_escalation_pct p) / 100).
  { apply Z.div_pos; [|lia]. unfold saturating_mul, u64_max. nia. }
  destruct (0 <? fp_escalation_pct p); mlia.
Qed.

Lemma bump_fee_mono f g : 0 <= f <= g -> bump_fee p f <= bump_fee p g.
Proof using Hp.
  destruct Hp as [? ? ? ? Hesc]. intros Hf. unfold bump_fee, saturating_add, saturating_mul.
  assert (Z.min u64_max (f * fp_escalation_pct p) / 100
          <= Z.min u64_max (g * fp_escalation_pct p) / 100).
  { apply Z.div_le_mono; [lia|]. nia. }
  lia.
Qed.

Lemma escalate_n_le_max n f : escalate_n p n f <= p.(fp_max_micro_lamports).
Proof using.
  clear Hp. revert f. induction n as [|n IH]; intros f; cbn; [lia|].
  destruct (Z.leb_spec (fp_max_micro_lamports p) (bump_fee p f)); [lia|apply IH].
Qed.

Lemma escalate_n_ge n f :
  0 <= f <= u64_max -> Z.min f p.(fp_max_micro_lamports) <= escalate_n p n f.
Proof using Hp.
  revert f. induction n as [|n IH]; intros f Hf; cbn; [lia|].
  pose proof (bump_fee_ge f Hf).
  destruct (Z.leb_spec (fp_max_micro_lamports p) (bump_fee p f)); [lia|].
  etrans; [|apply IH; lia]. lia.
Qed.

Lemma escalate_n_mono n m f g :
  (n <= m)%nat -> 0 <= f <= g -> g <= u64_max -> escalate_n p n f <= escalate_n p m g.
Proof using Hp.
  revert m f g. induction n as [|n IH]; intros m f g Hnm Hf Hg.
  - cbn. etrans; [|apply escalate_n_ge; lia]. lia.
  - destruct m as [|m]; [lia|]. cbn.
    pose proof (bump_fee_mono f g Hf). pose proof (bump_fee_ge f). pose proof (bump_fee_ge g).
    destruct (Z.leb_spec (fp_max_micro_lamports p) (bump_fee p f)),
      (Z.leb_spec (fp_max_micro_lamports p) (bump_fee p g)); try lia.
    + apply escalate_n_le_max.
    + apply IH; lia.
Qed.

Lemma escalated_fee_le attempt f :
  (escalated_fee p attempt f).1 <= Z.max f.1 p.(fp_max_micro_lamports).
Proof using.
  clear Hp. unfold escalated_fee. destruct (_ && _); [|lia].
  destruct (negb _); cbn; [|lia]. pose proof (escalate_n_le_max (Z.to_nat (Z.max attempt 1 - 1)) f.1).
  unfold escalate. lia.
Qed.
End Policy.

(** The rank of a percentile is inside the sample. *)
Lemma percentile_of_elem p sorted :
  sorted <> [] -> exists fee, percentile_of p sorted = Some fee /\ fee ∈ sorted.
Proof.
  intros Hne. destruct sorted as [|x l]; [done|]. unfold percentile_of.
  set (n := Z.of_nat (length (x :: l))).
  assert (1 <= n) by (unfold n; cbn [length]; lia).
  pose proof (zclamp_range 1 n (cdiv (fp_percentile p * n) 100) ltac:(lia)).
  destruct (lookup_lt_is_Some_2 (x :: l) (Z.to_nat (zclamp 1 n (cdiv (fp_percentile p * n) 100) - 1)))
    as [fee Hfee]; [unfold n in *; lia|].
  exists fee. split; [done|by eapply list_elem_of_lookup_2].
Qed.

(** The fee of an attempt stays within the configured bounds: it lies
    between the minimum and the maximum, an attempt that is not refused pays
    at most the emergency limit, it is refused exactly when the request itself
    is above that limit, and no attempt of an execution pays more than
    [max_payable] said it could, whatever the oracle quotes. *)
Theorem fee_within_limits c requested oracle attempt attempts
    (Hmin : in_u64 c.(xc_fee_min_micro_lamports)) (Hmax : in_u64 c.(xc_fee_max_micro_lamports))
    (Hesc : 0 <= c.(xc_fee_escalation_pct)) (Hreq : in_u64 requested)
    (Hattempt : 1 <= attempt <= attempts) :
  let p := fee_policy_of c in
  let d := decide_fee p requested oracle attempt in
  p.(fp_min_micro_lamports) <= d.(fd_fee) <= p.(fp_max_micro_lamports)
  /\ (d.(fd_refused) = false -> d.(fd_fee) <= p.(fp_emergency_max_micro_lamports))
  /\ (d.(fd_refused) = true <-> p.(fp_emergency_max_micro_lamports) < requested)
  /\ d.(fd_fee) <= max_payable p requested attempts.
Proof.
  intros p d. assert (Hp : policy_ok p) by (by apply fee_policy_of_ok).
  pose proof Hp as [Hp0 [Hp1 Hp1'] Hp2 _ _].
  assert (Hrange : p.(fp_min_micro_lamports) <= d.(fd_fee) <= p.(fp_max_micro_lamports))
    by (by apply zclamp_range).
  split_and!; [lia|lia|lia| |].
  - unfold d, decide_fee. cbn [fd_refused]. rewrite orb_true_iff. unfold would_refuse.
    rewrite orb_true_iff, !Z.ltb_lt.
    pose proof (zclamp_range _ _ requested Hp1).
    pose proof (zclamp_range _ _ (escalated_fee p attempt (quoted_fee p requested oracle)).1 Hp1).
    unfold fee_clamp. lia.
  - unfold max_payable. destruct (fp_adaptive p) eqn:Had; [lia|].
    unfold d, decide_fee. cbn [fd_fee].
    assert (Hq : quoted_fee p requested oracle = (requested, FsRequested))
      by (unfold quoted_fee; by rewrite Had; destruct oracle).
    rewrite Hq. unfold escalated_fee. cbn [fst]. destruct (_ && _); [|cbn [fst]; lia].
    unfold escalate.
    set (e := escalate_n p (Z.to_nat (Z.max attempt 1 - 1)) requested).
    assert (He : fee_clamp p e <= Z.max (escalate_n p (Z.to_nat (Z.max (Z.max attempts 1) 1 - 1)) (fee_clamp p requested)) (fee_clamp p requested)).
    { pose proof (escalate_n_le_max p (Z.to_nat (Z.max attempt 1 - 1)) requested) as He.
      fold e in He. pose proof (zclamp_range _ _ requested Hp1) as Hr. fold (fee_clamp p requested) in Hr.
      destruct (Z.ltb_spec e (fp_min_micro_lamports p)) as [Hlt|Hge].
      { unfold fee_clamp at 1, zclamp. rewrite (proj2 (Z.ltb_lt _ _) Hlt). lia. }
      unfold fee_clamp at 1. rewrite zclamp_id by lia.
      destruct (Z.le_gt_cases requested (fee_clamp p requested)) as [Hle|Hgt].
      - etrans; [|apply Z.le_max_l]. apply escalate_n_mono; [done|lia|unfold in_u64 in *; lia|lia].
      - etrans; [|apply Z.le_max_r]. unfold fee_clamp, zclamp in *.
        destruct (Z.ltb_spec requested (fp_min_micro_lamports p)); [lia|].
        destruct (Z.ltb_spec (fp_max_micro_lamports p) requested); lia. }
    destruct (negb _); cbn [fst]; [done|lia].
Qed.

Lemma fee_within_limits_witness :
  in_u64 0 /\ in_u64 5000000 /\ 0 <= 50 /\ in_u64 300000 /\ 1 <= 3 <= 5
  /\ let p := fee_policy_of ExecutionConfig_default in
     let d := decide_fee p 300000 (Some 9000000) 3 in
     p.(fp_min_micro_lamports) <= d.(fd_fee) <= p.(fp_max_micro_lamports)
     /\ (d.(fd_refused) = false -> d.(fd_fee) <= p.(fp_emergency_max_micro_lamports))
     /\ (d.(fd_refused) = true <-> p.(fp_emergency_max_micro_lamports) < 300000)
     /\ d.(fd_fee) <= max_payable p 300000 5.
Proof.
  split_and!; [mlia..|].
  apply (fee_within_limits ExecutionConfig_default 300000 (Some 9000000) 3 5); cbn; mlia.
Defined.
