(* ===== verification/RpcPool.v ===== *)
(** The RPC layer ([crates/solana-kit/src/provider.rs] and the retrying, the
    broadcast, the confirmation and the blockhash cache of [rpc.rs]).  A node
    is reached through the class [Network]; what the code does with the
    answers, to which node it goes next and when it stops is here.  Durations
    and instants are nanoseconds.  Labels, metrics and the account cache are
    left out; the redaction of messages is an argument. *)
From stdpp Require Import prelude countable gmap list strings sorting.
From Stdlib Require Import ZArith Lia.
From S2P Require Import Prelude.
From S2P Require Import BotCore.
From S2P Require Import ByteReader.
From S2P Require Import Text.
From S2P Require Import ExecLedger.
From S2P Require Import FeePolicy.

#[local] Open Scope Z_scope.

(** * Transactions as the executor handles them ([crates/solana-kit/src/tx.rs]):
    the request a module makes, the digest of its logical content, the signed
    transaction, and the tip a bundle carries.  Compiling and signing belong to
    the SDK; a signed transaction is known by its first signature.  A public key
    is the integer its bytes spell. *)

(** * Instructions *)

Record AccountMeta : Type := mkAccountMeta {
  am_pubkey : Z;
  am_is_signer : bool;
  am_is_writable : bool;
}.

Record Instruction : Type := mkInstruction {
  ix_program_id : Z;
  ix_accounts : list AccountMeta;
  ix_data : list Z;
}.

Definition SYSTEM_PROGRAM : Z := 0.

(** The eight tip accounts, decoded from base 58. *)
Definition JITO_TIP_ACCOUNTS : list Z :=
  [0x78521cb179cebb8589b556a2d5ec94d2498682fdf9bb2af5ad64e491cc4153da;
   0xf187ec87d1f745cb3a03384a26a69eda0ca2d1aa0f41e42416377e91ff5b5d31;
   0xb14e0de55e9fba86396ebfd548cff8c92011eac7b75baa9b2d9c6a86f5a17141;
   0x88f1ffa3a2dfe617bdc4e3573251a322e3fcae81e5a457390e64751c00a465e2;
   0xbc2b57065ef1dd665430be606ba6596c0295301badef8b5afc41014150f41274;
   0x89077d55a5bb1330763eb767f55ec077b41a0d075f7de1d73fbaca3c63d55471;
   0xbf971b59108b5b85a04fb093f1e21b4e3fd4c4c8f487dd09b95752769f0dd8c3;
   0x2026101ec20328964a32abab136c5405b91f3ae38ee4f64cb6bde879b86838d2].

(** * Requests *)

(** Lookup tables and the tenant metadata are opaque. *)
Record TxRequest : Type := mkTxRequest {
  tr_instructions : list Instruction;
  tr_compute_unit_limit : Z;             (* u32 *)
  tr_priority_fee_micro_lamports : Z;
  tr_jito_tip_lamports : Z;
  tr_wrap_sol_lamports : Z;
  tr_unwrap_sol : bool;
  tr_post_unwrap_instructions : list Instruction;
  tr_lookup_tables : list Z;
  tr_blockhash : option text;
  tr_extra_signers : list Z;
  tr_label : text;
  tr_intent_id : option text;
  tr_module : text;
  tr_symbol : text;
  tr_tenant : option text;
}.

(** [TxRequest::new]. *)
Definition TxRequest_new (label : text) : TxRequest :=
  mkTxRequest [] 400000 0 0 0 false [] [] None [] label None (lit "solana") [] None.

Definition with_fee_and_tip (fee tip : Z) (blockhash : option text) (r : TxRequest) : TxRequest :=
  mkTxRequest r.(tr_instructions) r.(tr_compute_unit_limit) fee tip r.(tr_wrap_sol_lamports)
    r.(tr_unwrap_sol) r.(tr_post_unwrap_instructions) r.(tr_lookup_tables) blockhash
    r.(tr_extra_signers) r.(tr_label) r.(tr_intent_id) r.(tr_module) r.(tr_symbol) r.(tr_tenant).

Definition with_instruction (ix : Instruction) (r : TxRequest) : TxRequest :=
  mkTxRequest (r.(tr_instructions) ++ [ix]) r.(tr_compute_unit_limit)
    r.(tr_priority_fee_micro_lamports) r.(tr_jito_tip_lamports) r.(tr_wrap_sol_lamports)
    r.(tr_unwrap_sol) r.(tr_post_unwrap_instructions) r.(tr_lookup_tables) r.(tr_blockhash)
    r.(tr_extra_signers) r.(tr_label) r.(tr_intent_id) r.(tr_module) r.(tr_symbol) r.(tr_tenant).

Definition with_intent_id (id : text) (r : TxRequest) : TxRequest :=
  mkTxRequest r.(tr_instructions) r.(tr_compute_unit_limit)
    r.(tr_priority_fee_micro_lamports) r.(tr_jito_tip_lamports) r.(tr_wrap_sol_lamports)
    r.(tr_unwrap_sol) r.(tr_post_unwrap_instructions) r.(tr_lookup_tables) r.(tr_blockhash)
    r.(tr_extra_signers) r.(tr_label) (Some id) r.(tr_module) r.(tr_symbol) r.(tr_tenant).

Definition tx_attributed (module symbol : text) (r : TxRequest) : TxRequest :=
  mkTxRequest r.(tr_instructions) r.(tr_compute_unit_limit)
    r.(tr_priority_fee_micro_lamports) r.(tr_jito_tip_lamports) r.(tr_wrap_sol_lamports)
    r.(tr_unwrap_sol) r.(tr_post_unwrap_instructions) r.(tr_lookup_tables) r.(tr_blockhash)
    r.(tr_extra_signers) r.(tr_label) r.(tr_intent_id) module symbol r.(tr_tenant).

(** ** The digest *)

(** UTF-8 of one scalar value. *)
Definition utf8_char (c : Z) : list Z :=
  if c <? 128 then [c]
  else if c <? 2048 then [192 + c / 64; 128 + c mod 64]
  else if c <? 65536 then [224 + c / 4096; 128 + c / 64 mod 64; 128 + c mod 64]
  else [240 + c / 262144; 128 + c / 4096 mod 64; 128 + c / 64 mod 64; 128 + c mod 64].

Definition utf8 (s : text) : list Z := flat_map utf8_char s.

Definition meta_bytes (m : AccountMeta) : list Z :=
  pubkey_to_bytes m.(am_pubkey) ++ [Z.b2z m.(am_is_signer); Z.b2z m.(am_is_writable)].

Definition instruction_bytes (ix : Instruction) : list Z :=
  pubkey_to_bytes ix.(ix_program_id)
  ++ le_bytes 4 (Z.of_nat (length ix.(ix_accounts)))
  ++ flat_map meta_bytes ix.(ix_accounts)
  ++ le_bytes 4 (Z.of_nat (length ix.(ix_data)))
  ++ ix.(ix_data).

(** What [intent_digest] hashes: neither fee, tip nor blockhash. *)
Definition intent_bytes (r : TxRequest) : list Z :=
  utf8 r.(tr_label) ++ [0]
  ++ le_bytes 4 r.(tr_compute_unit_limit)
  ++ le_bytes 8 r.(tr_wrap_sol_lamports)
  ++ [Z.b2z r.(tr_unwrap_sol)]
  ++ flat_map pubkey_to_bytes r.(tr_extra_signers)
  ++ flat_map instruction_bytes (r.(tr_instructions) ++ r.(tr_post_unwrap_instructions)).

(** * Signed transactions *)

Definition PACKET_DATA_SIZE : Z := 1232.

Record BuiltTx : Type := mkBuiltTx {
  bt_signature : text;
  bt_size : Z;
  bt_account_count : Z;
  bt_blockhash : text;
  bt_last_valid_block_height : option Z;
  bt_label : text;
  bt_instructions : list Instruction;    (* empty when signed elsewhere *)
  bt_intent_id : text;
  bt_module : text;
  bt_symbol : text;
  bt_tenant : option text;
}.

(** [BuiltTx::from_signed], past the serialization: what is too large for a
    packet is refused. *)
Definition from_signed (label signature : text) (size account_count : Z) (blockhash : text)
    (last_valid : option Z) : option BuiltTx :=
  if PACKET_DATA_SIZE <? size then None
  else Some (mkBuiltTx signature size account_count blockhash last_valid label [] [] [] [] None).

(** [Executor::jito_tip_for]: the transfer to a tip account.  A slice shorter
    than eight bytes cannot occur: the length is checked first. *)
Definition tip_of (ix : Instruction) : option Z :=
  if negb (ix.(ix_program_id) =? SYSTEM_PROGRAM) then None
  else if (length ix.(ix_data) <? 12)%nat || negb (nth 0 ix.(ix_data) 0 =? 2) then None
  else
    match ix.(ix_accounts) !! 1%nat with
    | Some m => if bool_decide (m.(am_pubkey) ∈ JITO_TIP_ACCOUNTS)
                then Some (from_le_bytes (take 8 (drop 4 ix.(ix_data))))
                else None
    | None => None
    end.

Definition jito_tip_for (b : BuiltTx) : Z :=
  default 0 (head (omap tip_of b.(bt_instructions))).

(** ** Writable accounts *)

Definition add_new (out : list Z) (k : Z) : list Z :=
  if bool_decide (k ∈ out) then out else out ++ [k].

(** [writable_accounts]: in order of first appearance. *)
Definition writable_accounts (r : TxRequest) : list Z :=
  fold_left add_new
    (map am_pubkey (filter (fun m => m.(am_is_writable) = true)
       (flat_map ix_accounts (r.(tr_instructions) ++ r.(tr_post_unwrap_instructions))))) [].

(** Requests that differ in fee, tip and blockhash only are one intent. *)
Lemma intent_bytes_ignores_attempt fee tip bh r :
  intent_bytes (with_fee_and_tip fee tip bh r) = intent_bytes r.
Proof. done. Qed.

Lemma fold_add_new_nodup l out : NoDup out -> NoDup (fold_left add_new l out).
Proof.
  revert out. induction l as [|k l IH]; intros out Hn; [done|]. cbn. apply IH.
  unfold add_new. case_bool_decide; [done|].
  apply NoDup_app. split_and!; [done| |apply NoDup_singleton].
  intros x Hx ->%list_elem_of_singleton. done.
Qed.

Lemma writable_accounts_nodup r : NoDup (writable_accounts r).
Proof. apply fold_add_new_nodup. constructor. Qed.

(** * What a failure means *)

Inductive RpcErrorClass : Type :=
  | RcTimeout
  | RcRateLimited (retry_after : option Z)
  | RcTransport
  | RcUnavailable
  | RcBlockhash
  | RcPermanent.

#[export] Instance RpcErrorClass_eq_dec : EqDecision RpcErrorClass.
Proof. solve_decision. Defined.

Definition retryable (c : RpcErrorClass) : bool :=
  match c with RcTimeout | RcRateLimited _ | RcTransport | RcUnavailable => true | _ => false end.

Definition needs_rebuild (c : RpcErrorClass) : bool :=
  match c with RcBlockhash => true | _ => false end.

Definition provider_fault (c : RpcErrorClass) : bool :=
  match c with RcTimeout | RcRateLimited _ | RcTransport | RcUnavailable => true | _ => false end.

(** [ambiguous]: the node may have executed the request. *)
Definition rpc_ambiguous (c : RpcErrorClass) : bool :=
  match c with RcTimeout | RcTransport => true | _ => false end.

Definition rpc_retry_after (c : RpcErrorClass) : option Z :=
  match c with RcRateLimited r => r | _ => None end.

Definition SECS : Z := 1000000000.

(** The first occurrence of a word and what follows it. *)
Fixpoint after (needle s : text) : option text :=
  match strip_prefix needle s with
  | Some rest => Some rest
  | None => match s with [] => None | _ :: s' => after needle s' end
  end.

Definition is_digit (c : Z) : bool := (48 <=? c) && (c <=? 57).

Fixpoint digits_of (s : text) (acc : option Z) : option Z :=
  match s with
  | c :: s' => if is_digit c then digits_of s' (Some (default 0 acc * 10 + (c - 48))) else acc
  | [] => acc
  end.

Fixpoint skip_separators (s : text) : text :=
  match s with
  | c :: s' => if bool_decide (c ∈ [32; 61; 58]) then skip_separators s' else s
  | [] => []
  end.

(** [parse_retry_after]: at most two minutes. *)
Definition parse_retry_after (m : text) : option Z :=
  rest ← after (lit "retry-after") m;
  secs ← digits_of (skip_separators rest) None;
  if secs <=? u64_max then Some (Z.min secs 120 * SECS) else None.

Definition mentions (words : list text) (m : text) : bool := existsb (fun w => contains w m) words.

Definition BLOCKHASH_WORDS : list text :=
  [lit "blockhash"; lit "block height exceeded"; lit "blockhashnotfound"].

Definition message_mentions_blockhash (m : text) : bool :=
  mentions BLOCKHASH_WORDS (map ascii_lower m).

(** [classify_message] of [provider.rs], its rules in order. *)
Definition rpc_classify_message (msg : text) : RpcErrorClass :=
  let m := map ascii_lower msg in
  if mentions [lit "429"; lit "too many requests"; lit "rate limit"; lit "rate-limit"; lit "quota";
               lit "throttl"] m then RcRateLimited (parse_retry_after m)
  else if message_mentions_blockhash m then RcBlockhash
  else if mentions [lit "timed out"; lit "timeout"; lit "deadline"; lit "operation timed out"] m
  then RcTimeout
  else if mentions [lit "502"; lit "503"; lit "504"; lit "bad gateway"; lit "service unavailable";
                    lit "gateway timeout"; lit "unavailable"; lit "overloaded"; lit "unhealthy";
                    lit "slots behind"; lit "node is behind"; lit "internal error";
                    lit "not yet available"] m then RcUnavailable
  else if mentions [lit "connection"; lit "reset by peer"; lit "refused"; lit "broken pipe";
                    lit "dns error"; lit "failed to lookup"; lit "tls"; lit "certificate";
                    lit "unexpected eof"; lit "channel closed"; lit "incomplete message";
                    lit "error sending request"; lit "hyper::error"] m then RcTransport
  else RcPermanent.

Definition max_permanent (c : RpcErrorClass) : RpcErrorClass :=
  match c with RcRateLimited _ | RcBlockhash => c | _ => RcPermanent end.

(** * The retry policy *)

Record RetryPolicy : Type := mkRetryPolicy {
  rp_max_retries : Z;          (* u32 *)
  rp_base : Z;
  rp_max : Z;
  rp_jitter : bool;
  rp_rate_limit_cooldown : Z;
}.

Definition RetryPolicy_default : RetryPolicy :=
  mkRetryPolicy 3 (50 * MILLIS) (2000 * MILLIS) true (1000 * MILLIS).

(** [RetryPolicy::legacy]. *)
Definition RetryPolicy_legacy (max_retries : Z) : RetryPolicy :=
  mkRetryPolicy max_retries (50 * MILLIS) (1600 * MILLIS) false (1000 * MILLIS).

Definition max_attempts (p : RetryPolicy) : Z :=
  Z.max (saturating_add u32_max p.(rp_max_retries) 1) 1.

(** The largest [Duration]. *)
Definition DURATION_MAX : Z := u64_max * SECS + 999999999.

(** [delay]; [sample] is the random [u64].  The microseconds of the envelope
    are below [u64::MAX]. *)
Definition delay (p : RetryPolicy) (attempt : Z) (retry_after : option Z) (sample : Z) : Z :=
  let exp := Z.min (Z.max (attempt - 1) 0) 20 in
  let grown := p.(rp_base) * 2 ^ exp in
  let raw := Z.min (if grown <=? DURATION_MAX then grown else p.(rp_max)) p.(rp_max) in
  let delay :=
    if p.(rp_jitter) then
      let raw_us := raw / 1000 in
      if raw_us =? 0 then 0 else Z.max (sample mod (raw_us + 1)) (raw_us / 8) * 1000
    else raw in
  match retry_after with Some floor => Z.max delay floor | None => delay end.

(** * Providers *)

Record Provider : Type := mkProvider {
  pv_label : text;
  pv_consecutive_failures : Z;
  pv_total_failures : Z;
  pv_total_ok : Z;
  pv_cooldown_until : option Z;
  pv_last_error : option text;
  pv_last_failure_class : option RpcErrorClass;
}.

Definition Provider_new (label : text) : Provider := mkProvider label 0 0 0 None None None.

Definition cooldown_remaining (now : Z) (p : Provider) : Z :=
  match p.(pv_cooldown_until) with Some until => Z.max (until - now) 0 | None => 0 end.

Definition is_healthy (now : Z) (p : Provider) : bool := cooldown_remaining now p =? 0.

(** Never shortens a cooldown. *)
Definition set_cooldown (now d : Z) (p : Provider) : Provider :=
  let until := now + d in
  mkProvider p.(pv_label) p.(pv_consecutive_failures) p.(pv_total_failures) p.(pv_total_ok)
    (Some (match p.(pv_cooldown_until) with
           | Some cur => if until <? cur then cur else until
           | None => until
           end)) p.(pv_last_error) p.(pv_last_failure_class).

Record ProviderPool : Type := mkProviderPool {
  pl_providers : list Provider;
  pl_failure_threshold : Z;
  pl_cooldown : Z;
  pl_retry : RetryPolicy;
}.

(** [ProviderPool::new] over the distinct endpoints, whose labels are given. *)
Definition ProviderPool_new (labels : list text) (threshold cooldown : Z) (retry : RetryPolicy)
    : option ProviderPool :=
  match labels with
  | [] => None
  | _ => Some (mkProviderPool (map Provider_new labels) (Z.max threshold 1) cooldown retry)
  end.

(** The indices a call visits: its origin, then the others in order. *)
Definition order_from (pool : ProviderPool) (origin : nat) : list nat :=
  let n := length pool.(pl_providers) in
  let origin := Nat.min origin (n - 1) in
  origin :: filter (fun i => i <> origin) (seq 0 n).

Definition healthy_at (now : Z) (pool : ProviderPool) (i : nat) : bool :=
  match pool.(pl_providers) !! i with Some p => is_healthy now p | None => false end.

Definition remaining_at (now : Z) (pool : ProviderPool) (i : nat) : Z :=
  match pool.(pl_providers) !! i with Some p => cooldown_remaining now p | None => 0 end.

(** [Iterator::min_by_key]: the first of the smallest. *)
Fixpoint min_by_key (key : nat -> Z) (l : list nat) : option nat :=
  match l with
  | [] => None
  | i :: l' =>
      match min_by_key key l' with
      | Some j => if key j <? key i then Some j else Some i
      | None => Some i
      end
  end.

Definition untried (pool : ProviderPool) (origin : nat) (tried : list nat) : list nat :=
  filter (fun i => i ∉ tried) (order_from pool origin).

Definition route (now : Z) (pool : ProviderPool) (origin : nat) (tried : list nat) : option nat :=
  match list_find (fun i => healthy_at now pool i = true) (untried pool origin tried) with
  | Some (_, i) => Some i
  | None => min_by_key (remaining_at now pool) (untried pool origin tried)
  end.

Definition has_healthy_untried (now : Z) (pool : ProviderPool) (origin : nat) (tried : list nat)
    : bool :=
  existsb (healthy_at now pool) (untried pool origin tried).

Definition update_provider (i : nat) (f : Provider -> Provider) (pool : ProviderPool)
    : ProviderPool :=
  let i := Nat.min i (length pool.(pl_providers) - 1) in
  mkProviderPool (alter f i pool.(pl_providers)) pool.(pl_failure_threshold) pool.(pl_cooldown)
    pool.(pl_retry).

Definition succeeded (p : Provider) : Provider :=
  mkProvider p.(pv_label) 0 p.(pv_total_failures) (p.(pv_total_ok) + 1) None p.(pv_last_error)
    p.(pv_last_failure_class).

Definition record_success (i : nat) (pool : ProviderPool) : ProviderPool :=
  update_provider i succeeded pool.

Definition failed (class : RpcErrorClass) (error : text) (p : Provider) : Provider :=
  mkProvider p.(pv_label) (p.(pv_consecutive_failures) + 1) (p.(pv_total_failures) + 1)
    p.(pv_total_ok) p.(pv_cooldown_until) (Some error) (Some class).

(** A rate limit cools down at once, another fault of the provider after the
    threshold. *)
Definition tripped (now : Z) (pool : ProviderPool) (class : RpcErrorClass) (p : Provider)
    : Provider :=
  match class with
  | RcRateLimited retry_after =>
      set_cooldown now (Z.max (default 0 retry_after) pool.(pl_retry).(rp_rate_limit_cooldown)) p
  | _ =>
      if provider_fault class && (pool.(pl_failure_threshold) <=? p.(pv_consecutive_failures))
      then set_cooldown now pool.(pl_cooldown) p
      else p
  end.

Definition record_failure (now : Z) (i : nat) (class : RpcErrorClass) (error : text)
    (pool : ProviderPool) : ProviderPool :=
  update_provider i (fun p => tripped now pool class (failed class error p)) pool.

(** * The network *)

Inductive TxValue : Type :=
  | TvNull                                              (* [result: null] *)
  | TvUndecodable
  | TvSeen (slot : Z) (err : option text) (logs : list text) (fee : Z).

Record SimulationResult : Type := mkSimulationResult {
  sm_error : option text;
  sm_logs : list text;
  sm_units_consumed : Z;
}.

Inductive RpcMethod : Type :=
  | SendTransaction (b : BuiltTx)
  | GetTransaction (signature : text)
  | GetBlockHeight
  | GetLatestBlockhash
  | SimulateTransaction (b : BuiltTx)
  | GetRecentPrioritizationFees (accounts : list Z)
  | IsBlockhashValid (blockhash : text).

Definition reply (m : RpcMethod) : Type :=
  match m with
  | SendTransaction _ => text
  | GetTransaction _ => TxValue
  | GetBlockHeight => Z
  | GetLatestBlockhash => text * Z
  | SimulateTransaction _ => SimulationResult
  | GetRecentPrioritizationFees _ => list Z
  | IsBlockhashValid _ => bool
  end.

Definition method_name (m : RpcMethod) : text :=
  match m with
  | SendTransaction _ => lit "sendTransaction"
  | GetTransaction _ => lit "getTransaction"
  | GetBlockHeight => lit "getBlockHeight"
  | GetLatestBlockhash => lit "getLatestBlockhash"
  | SimulateTransaction _ => lit "simulateTransaction"
  | GetRecentPrioritizationFees _ => lit "getRecentPrioritizationFees"
  | IsBlockhashValid _ => lit "isBlockhashValid"
  end.

(** What a block engine answers to a bundle. *)
Inductive BundleReply : Type :=
  | BrPostFailed (error : text)
  | BrBodyFailed (error : text)
  | BrStatus (status body : text)        (* not a success *)
  | BrNotJson (error : text)
  | BrError (error : text)
  | BrAccepted.

(** The clock, the random numbers, one call to one node with its failure
    classified, the block engine, the tip floor (the number in the wanted
    bucket, when the payload has one), and the compiling and signing of a
    request. *)
Class Network (W : Type) : Type := {
  net_now : W -> Z;
  net_sleep : Z -> W -> W;
  net_rand : W -> Z * W;
  net_call : forall m : RpcMethod, nat -> W -> (reply m + RpcErrorClass * text) * W;
  net_bundle : text -> BuiltTx -> W -> BundleReply * W;
  net_tip_floor : text -> text -> W -> option f64 * W;
  net_build : TxRequest -> W -> (BuiltTx + text) * W;
}.

(** What happens on the wire: a signed transaction leaves for a node or in a
    bundle and gets an answer, a transaction is declared dead. *)
Inductive WireEvent : Type :=
  | Left (signature : text) (provider : nat) (answer : option (RpcErrorClass * text))
  | LeftByBundle (signature : text) (answer : BundleReply)
  | Expired (signature : text).

Record Blockhash : Type := mkBlockhash {
  bh_blockhash : text;
  bh_last_valid_block_height : Z;
  bh_fetched_at : Z;
}.

(** The state behind an [Rpc] handle. *)
Record Wire (W : Type) : Type := mkWire {
  wr_pool : ProviderPool;
  wr_blockhash : option Blockhash;
  wr_net : W;
  wr_log : list WireEvent;
}.
Arguments mkWire {W} _ _ _ _.
Arguments wr_pool {W} _.
Arguments wr_blockhash {W} _.
Arguments wr_net {W} _.
Arguments wr_log {W} _.

Section Rpc.
Context {W : Type} `{Network W} (sanitize : text -> text).

Definition with_pool (f : ProviderPool -> ProviderPool) (w : Wire W) : Wire W :=
  mkWire (f w.(wr_pool)) w.(wr_blockhash) w.(wr_net) w.(wr_log).
Definition with_blockhash (b : option Blockhash) (w : Wire W) : Wire W :=
  mkWire w.(wr_pool) b w.(wr_net) w.(wr_log).
Definition with_net (n : W) (w : Wire W) : Wire W :=
  mkWire w.(wr_pool) w.(wr_blockhash) n w.(wr_log).
Definition with_log (e : WireEvent) (w : Wire W) : Wire W :=
  mkWire w.(wr_pool) w.(wr_blockhash) w.(wr_net) (w.(wr_log) ++ [e]).

Definition wire_now (w : Wire W) : Z := net_now w.(wr_net).

(** A computation of the network. *)
Definition on_net {A} (f : W -> A * W) : St (Wire W) A :=
  fun w => let r := f w.(wr_net) in (r.1, with_net r.2 w).

(** ** Classified retries *)

Record RpcFailure : Type := mkRpcFailure {
  rf_class : RpcErrorClass;
  rf_message : text;
  rf_attempts : Z;
}.

(** The provider of the next attempt and the list of those tried: once all of
    them have been, the list starts over. *)
Definition next_provider (origin : nat) (tried : list nat) (w : Wire W) : nat * list nat :=
  match route (wire_now w) w.(wr_pool) origin tried with
  | Some i => (i, tried)
  | None => (default origin (route (wire_now w) w.(wr_pool) origin []), [])
  end.

Definition backoff (origin : nat) (tried : list nat) (attempt : Z) (class : RpcErrorClass)
    : St (Wire W) unit :=
  fun w =>
    if provider_fault class && has_healthy_untried (wire_now w) w.(wr_pool) origin tried
    then (tt, w)
    else
      let r := net_rand w.(wr_net) in
      let d := delay w.(wr_pool).(pl_retry) attempt (rpc_retry_after class) r.1 in
      (tt, with_net (if d =? 0 then r.2 else net_sleep d r.2) w).

(** [retry_classified]: one attempt, then [budget] more while the failure is
    worth it. *)
Fixpoint retry_loop {A} (what : text) (op : nat -> St (Wire W) (A + RpcErrorClass * text))
    (origin : nat) (budget : nat) (attempt : Z) (tried : list nat) (w : Wire W)
    : (A + RpcFailure) * Wire W :=
  let nx := next_provider origin tried w in
  let r := op nx.1 w in
  match r.1 with
  | inl v => (inl v, with_pool (record_success nx.1) r.2)
  | inr (class, raw) =>
      let message := sanitize raw in
      let w := with_pool (record_failure (wire_now r.2) nx.1 class message) r.2 in
      let attempt := attempt + 1 in
      let tried := nx.2 ++ [nx.1] in
      match budget with
      | S budget =>
          if retryable class then
            retry_loop what op origin budget attempt tried (backoff origin tried attempt class w).2
          else (inr (mkRpcFailure class (what ++ lit ": " ++ message) attempt), w)
      | O => (inr (mkRpcFailure class (what ++ lit ": " ++ message) attempt), w)
      end
  end.

Definition retry_classified {A} (what : text) (op : nat -> St (Wire W) (A + RpcErrorClass * text))
    (origin : nat) : St (Wire W) (A + RpcFailure) :=
  fun w => retry_loop what op origin (Z.to_nat (max_attempts w.(wr_pool).(pl_retry) - 1)) 0 [] w.

(** One request to one provider. *)
Definition call (m : RpcMethod) (i : nat) : St (Wire W) (reply m + RpcErrorClass * text) :=
  on_net (net_call m i).

(** [retry]: the failure as the text of a [BotError]. *)
Definition retry (m : RpcMethod) (origin : nat) : St (Wire W) (reply m + text) :=
  fun w =>
    let r := retry_classified (method_name m) (call m) origin w in
    (match r.1 with inl v => inl v | inr f => inr (lit "rpc error: " ++ f.(rf_message)) end, r.2).

(** ** Broadcast *)

(** The bytes leave with every attempt, whatever comes back. *)
Definition send_once (b : BuiltTx) (i : nat) : St (Wire W) (text + RpcErrorClass * text) :=
  fun w =>
    let r := call (SendTransaction b) i w in
    (r.1, with_log (Left b.(bt_signature) i
                      (match r.1 with inl _ => None | inr f => Some f end)) r.2).

Definition send_transaction_classified (b : BuiltTx) (origin : nat)
    : St (Wire W) (text + RpcFailure) :=
  retry_classified (lit "sendTransaction") (send_once b) origin.

(** ** Blockhashes *)

(** [Rpc::from_pool]: one second. *)
Definition BLOCKHASH_CACHE_AGE : Z := SECS.

Definition cached_blockhash (w : Wire W) : option Blockhash :=
  b ← w.(wr_blockhash);
  if wire_now w - b.(bh_fetched_at) <=? BLOCKHASH_CACHE_AGE then Some b else None.

Definition fetch_blockhash (origin : nat) : St (Wire W) (Blockhash + text) :=
  r ← retry GetLatestBlockhash origin;
  match r with
  | inl (h, height) =>
      now ← gets wire_now;
      let b := mkBlockhash h height now in
      modify (with_blockhash (Some b)) ;; mret (inl b)
  | inr e => mret (inr e)
  end.

Definition latest_blockhash (origin : nat) (force_refresh : bool) : St (Wire W) (Blockhash + text) :=
  c ← gets cached_blockhash;
  match c with
  | Some b => if force_refresh then fetch_blockhash origin else mret (inl b)
  | None => fetch_blockhash origin
  end.

Definition fresh_blockhash (origin : nat) (max_age : Z) : St (Wire W) (Blockhash + text) :=
  c ← gets cached_blockhash;
  now ← gets wire_now;
  match c with
  | Some b => if now - b.(bh_fetched_at) <=? max_age then mret (inl b)
              else latest_blockhash origin true
  | None => latest_blockhash origin true
  end.

Definition invalidate_blockhash : St (Wire W) unit := modify (with_blockhash None).

(** ** Confirmation *)

Inductive ConfirmOutcome : Type :=
  | CoConfirmed (slot : Z) (logs : list text) (fee : Z)
  | CoFailed (error : text) (logs : list text)
  | CoTimeout
  | CoExpired (last_valid_block_height block_height : Z).

(** [ConfirmOutcome::is_ambiguous]. *)
Definition confirm_ambiguous (c : ConfirmOutcome) : bool :=
  match c with CoTimeout => true | _ => false end.

(** [get_transaction]: [None] for a signature the node does not know. *)
Definition get_transaction (origin : nat) (signature : text)
    : St (Wire W) (option ConfirmOutcome + text) :=
  r ← retry (GetTransaction signature) origin;
  mret (match r with
        | inl TvNull => inl None
        | inl TvUndecodable => inr (lit "rpc error: getTransaction decode")
        | inl (TvSeen slot err logs fee) =>
            inl (Some (match err with
                       | Some e => CoFailed e logs
                       | None => CoConfirmed slot logs fee
                       end))
        | inr e => if contains (lit "not found") e || contains (lit "Not found") e
                   then inl None else inr e
        end).

Definition HEIGHT_INTERVAL : Z := 1500 * MILLIS.

(** The expiry test of one poll: its verdict and the time of the last height
    sample.  An error of the second look counts as not seen. *)
Definition expiry_check (origin : nat) (signature : text) (lvbh : option Z)
    (last_height_check : option Z) : St (Wire W) (option ConfirmOutcome * option Z) :=
  match lvbh with
  | None => mret (None, last_height_check)
  | Some limit =>
      now ← gets wire_now;
      if match last_height_check with Some t => HEIGHT_INTERVAL <=? now - t | None => true end then
        h ← retry GetBlockHeight origin;
        match h with
        | inl height =>
            if limit <? height then
              again ← get_transaction origin signature;
              match again with
              | inl (Some o) => mret (Some o, Some now)
              | _ => modify (with_log (Expired signature)) ;;
                     mret (Some (CoExpired limit height), Some now)
              end
            else mret (None, Some now)
        | inr _ => mret (None, Some now)
        end
      else mret (None, last_height_check)
  end.

Definition wire_sleep (d : Z) : St (Wire W) unit := modify (fun w => with_net (net_sleep d w.(wr_net)) w).

(** The polling loop; every turn but the last sleeps. *)
Fixpoint confirm_loop (fuel : nat) (origin : nat) (signature : text) (lvbh : option Z)
    (deadline poll : Z) (last_height_check : option Z) : St (Wire W) ConfirmOutcome :=
  match fuel with
  | O => mret CoTimeout
  | S fuel =>
      now ← gets wire_now;
      if deadline <? now then mret CoTimeout
      else
        t ← get_transaction origin signature;
        match t with
        | inl (Some o) => mret o
        | inl None =>
            v ← expiry_check origin signature lvbh last_height_check;
            match v.1 with
            | Some o => mret o
            | None => wire_sleep poll ;;
                      confirm_loop fuel origin signature lvbh deadline poll v.2
            end
        | inr _ => wire_sleep poll ;;
                   confirm_loop fuel origin signature lvbh deadline poll last_height_check
        end
  end.

(** As many turns as fit before the deadline, and one that sees it passed. *)
Definition confirm_fuel (timeout poll : Z) : nat := Z.to_nat (timeout / Z.max poll 1 + 2).

Definition confirm_tracked (origin : nat) (signature : text) (lvbh : option Z) (timeout poll : Z)
    : St (Wire W) ConfirmOutcome :=
  now ← gets wire_now;
  confirm_loop (confirm_fuel timeout poll) origin signature lvbh (now + timeout) poll None.

(** ** Other requests *)

Definition is_blockhash_valid (origin : nat) (blockhash : text) : St (Wire W) (bool + text) :=
  retry (IsBlockhashValid blockhash) origin.

Definition rpc_simulate (origin : nat) (b : BuiltTx) : St (Wire W) (SimulationResult + text) :=
  retry (SimulateTransaction b) origin.

(** Sorted in ascending order. *)
Definition recent_prioritization_fees (origin : nat) (accounts : list Z)
    : St (Wire W) (list Z + text) :=
  r ← retry (GetRecentPrioritizationFees accounts) origin;
  mret (match r with inl fees => inl (merge_sort Z.le fees) | inr e => inr e end).

(** [failover]: the next provider, while there is one. *)
Definition failover (pool : ProviderPool) (origin : nat) : option nat :=
  if (S origin <? length pool.(pl_providers))%nat then Some (S origin) else None.
End Rpc.
