(* ===== verification/Executor.v ===== *)
(** The executor ([crates/solana-kit/src/execute.rs]): build, simulate,
    broadcast and confirm one transaction, with the execution ledger as its
    duplicate guard and the retry of the whole cycle on a definite failure.
    The result drops the timings.  [xs_trace] records each thing that happens
    on the wire together with the ledger as it is at that moment; the code
    keeps no such record.  The numbers inside the reasons handed to the ledger
    are left out. *)
From stdpp Require Import prelude countable gmap list strings pretty.
From Stdlib Require Import ZArith Lia.
From S2P Require Import Prelude.
From S2P Require Import BotCore.
From S2P Require Import Text.
From S2P Require Import Float64.
From S2P Require Import Models.
From S2P Require Import BotConfig.
From S2P Require Import LedgerEvent.
From S2P Require Import ExecLedger.
From S2P Require Import FeePolicy.
From S2P Require Import RpcPool.

#[local] Open Scope Z_scope.

(** * Results *)

Inductive ExecStatus : Type :=
  | EsConfirmed | EsSent | EsPaperFilled | EsSimulationFailed | EsSendFailed | EsSendUnknown
  | EsLandedFailed | EsSkipped.

#[export] Instance ExecStatus_eq_dec : EqDecision ExecStatus.
Proof. solve_decision. Defined.

(** [ExecStatus::is_ambiguous]. *)
Definition status_is_ambiguous (s : ExecStatus) : bool :=
  match s with EsSent | EsSendUnknown => true | _ => false end.

Record ExecutionResult : Type := mkExecutionResult {
  r_signature : text;
  r_status : ExecStatus;
  r_label : text;
  r_tx_size : Z;
  r_logs : list text;
  r_error : option text;
  r_paper : bool;
  r_attempts : Z;                       (* u8 *)
  r_intent_id : text;
  r_state : ExecutionState;
  r_failure : option FailureClass;
  r_priority_fee : Z;
}.

(** [ExecutionResult::empty]. *)
Definition empty_result (label intent_id : text) (paper : bool) : ExecutionResult :=
  mkExecutionResult [] EsSkipped label 0 [] None paper 0 intent_id ExCreated None 0.

(** [ExecutionResult::succeeded]. *)
Definition status_succeeded (s : ExecStatus) : bool :=
  match s with EsConfirmed | EsSent | EsSendUnknown | EsPaperFilled => true | _ => false end.

Definition result_succeeded (r : ExecutionResult) : bool := status_succeeded r.(r_status).

(** What left the process. *)
Definition broadcast_signature (r : ExecutionResult) : option text :=
  let left := (0 <? r.(r_attempts))
              && match r.(r_status) with EsSimulationFailed | EsSkipped => false | _ => true end in
  if negb r.(r_paper) && left && negb (is_empty r.(r_signature)) then Some r.(r_signature) else None.

(** [ExecutionResult::is_duplicate]. *)
Definition result_is_duplicate (r : ExecutionResult) : bool :=
  bool_decide (r.(r_failure) = Some FcDuplicate).

(** * Broadcast failures *)

Inductive SendFailure : Type := Definite | Ambiguous.

#[export] Instance SendFailure_eq_dec : EqDecision SendFailure.
Proof. solve_decision. Defined.

Definition DEFINITE_SEND : list text :=
  [lit "blockhash"; lit "block height"; lit "too many requests"; lit "toomanyrequests";
   lit "rate limit"; lit "429"; lit "invalid"; lit "sanitize"; lit "insufficient funds";
   lit "rejected"; lit "simulation"; lit "not available"].

(** A rejection wins over a timeout, and the default is ambiguous, so the
    second list of words decides nothing. *)
Definition classify_send_error (err : text) : SendFailure :=
  if mentions DEFINITE_SEND (map ascii_lower err) then Definite else Ambiguous.

Record SendError : Type := mkSendError {
  se_message : text;
  se_failure : SendFailure;
  se_class : FailureClass;
}.

(** What a node's rejection is when its words say nothing. *)
Definition rejection_class (message : text) : FailureClass :=
  match classify_message message with TransportAmbiguous => FcRejected | c => c end.

(** [SendError::from_rpc]. *)
Definition from_rpc (class : RpcErrorClass) (message : text) : SendError :=
  match class with
  | RcTimeout | RcTransport => mkSendError message Ambiguous TransportAmbiguous
  | RcRateLimited _ => mkSendError message Definite RateLimited
  | RcBlockhash => mkSendError message Definite BlockhashExpired
  | RcPermanent => mkSendError message Definite (rejection_class message)
  | RcUnavailable =>
      match classify_send_error message with
      | Definite => mkSendError message Definite FcRejected
      | Ambiguous => mkSendError message Ambiguous TransportAmbiguous
      end
  end.

(** [SendError::from_text]. *)
Definition from_text (message : text) : SendError :=
  match classify_send_error message with
  | Ambiguous => mkSendError message Ambiguous TransportAmbiguous
  | Definite => mkSendError message Definite (rejection_class message)
  end.

(** [SendError::combine]. *)
Definition combine_errors (primary failover : SendError) : SendError :=
  let ambiguous := bool_decide (primary.(se_failure) = Ambiguous)
                   || bool_decide (failover.(se_failure) = Ambiguous) in
  mkSendError
    (lit "send failed on both endpoints: primary=" ++ primary.(se_message) ++ lit ", failover="
       ++ failover.(se_message))
    (if ambiguous then Ambiguous else Definite)
    (if ambiguous then TransportAmbiguous
     else if bool_decide (primary.(se_class) = BlockhashExpired)
             || bool_decide (failover.(se_class) = BlockhashExpired) then BlockhashExpired
     else failover.(se_class)).

(** * Policy *)

Inductive BroadcastMode : Type := BmRpc | BmJito | BmJitoThenRpc | BmRace.

#[export] Instance BroadcastMode_eq_dec : EqDecision BroadcastMode.
Proof. solve_decision. Defined.

Record ExecPolicy : Type := mkExecPolicy {
  ep_mode : ExecutionMode;
  ep_broadcast : BroadcastMode;
  ep_simulate_first : bool;
  ep_abort_on_simulation_failure : bool;
  ep_confirm_timeout : Z;
  ep_confirm_poll_interval : Z;
  ep_max_attempts : Z;                    (* u8 *)
  ep_jito_url : option text;
  ep_min_priority_fee : Z;
  ep_fanout : bool;
}.

Definition ExecPolicy_default : ExecPolicy :=
  mkExecPolicy Paper BmRpc true true (30 * SECS) (400 * MILLIS) 2 None 0 false.

Definition exec_policy_from_config (c : ExecutionConfig) : ExecPolicy :=
  mkExecPolicy
    (if ExecutionMode_is_live c.(xc_mode) && negb c.(xc_allow_live_trading) then Simulate
     else c.(xc_mode))
    (if c.(xc_use_jito) then if c.(xc_jito_race) then BmRace else BmJitoThenRpc else BmRpc)
    c.(xc_simulate_first) c.(xc_abort_on_simulation_failure) (c.(xc_confirm_timeout_ms) * MILLIS)
    (Z.max c.(xc_confirm_poll_ms) 50 * MILLIS) (zclamp 1 5 c.(xc_send_retries))
    (if c.(xc_use_jito) then Some c.(xc_jito_block_engine_url) else None) 0
    c.(xc_broadcast_fanout).

(** ** Dynamic tips *)

Record DynamicTipPolicy : Type := mkDynamicTipPolicy {
  dt_url : text;
  dt_percentile : Z;                      (* u8 *)
  dt_min_tip : Z;
  dt_max_tip : Z;
  dt_cache_ttl : Z;
}.

Definition jito_default (percentile : Z) : DynamicTipPolicy :=
  mkDynamicTipPolicy (lit "https://bundles.jito.wtf/api/v1/bundles/tip_floor") percentile 1000
    10000000 (15 * SECS).

Definition tip_floor_bucket (percentile : Z) : text :=
  if percentile <=? 25 then lit "landed_tips_25th_percentile"
  else if percentile <=? 50 then lit "landed_tips_50th_percentile"
  else if percentile <=? 75 then lit "landed_tips_75th_percentile"
  else if percentile <=? 95 then lit "landed_tips_95th_percentile"
  else lit "landed_tips_99th_percentile".

(** [extract_tip_floor_value], past the JSON. *)
Definition tip_floor_value (value : option f64) (min_tip max_tip : Z) : option Z :=
  v ← value;
  if negb (is_finite v) || fltb v fzero then None
  else Some (zclamp min_tip max_tip (f_round_u64 v)).

Definition dynamic_tip_from_config (c : ExecutionConfig) : option DynamicTipPolicy :=
  if negb c.(xc_use_jito) || (c.(xc_jito_dynamic_tip_percentile) =? 0) then None
  else Some (jito_default c.(xc_jito_dynamic_tip_percentile)).

(** * The executor *)

(** The tenant guard answers with the reason of a denial. *)
Record TenantGuard : Type := mkTenantGuard {
  tg_authorize : TxRequest -> option text;
  tg_authorize_prebuilt : BuiltTx -> option text;
}.

Record Executor : Type := mkExecutor {
  ex_wallet : text;
  ex_origin : nat;
  ex_policy : ExecPolicy;
  ex_fee_policy : FeePolicy;
  ex_guard : option TenantGuard;
  ex_dynamic_tip : option DynamicTipPolicy;
}.

Definition is_paper (e : Executor) : bool := negb (ExecutionMode_is_live e.(ex_policy).(ep_mode)).

(** The state the executors of a process share. *)
Record Exec (W : Type) : Type := mkExec {
  xs_ledger : ExecutionLedger;
  xs_wire : Wire W;
  xs_fee_sample : option (Z * list Z);
  xs_tip_sample : option (Z * Z);
  xs_trace : list (ExecutionLedger * WireEvent);
}.
Arguments mkExec {W} _ _ _ _ _.
Arguments xs_ledger {W} _.
Arguments xs_wire {W} _.
Arguments xs_fee_sample {W} _.
Arguments xs_tip_sample {W} _.
Arguments xs_trace {W} _.

Section Executor.
Context {W : Type} `{Network W} {libs : LedgerLibs} (sanitize : text -> text)
  (digest_hex : list Z -> text).

Definition exec_now (x : Exec W) : Z := wire_now x.(xs_wire).

Definition quiet (w : Wire W) : Wire W := mkWire w.(wr_pool) w.(wr_blockhash) w.(wr_net) [].

(** A computation of the RPC layer; its events go to the trace. *)
Definition on_wire {A} (m : St (Wire W) A) : St (Exec W) A := fun x =>
  let r := m (quiet x.(xs_wire)) in
  (r.1, mkExec x.(xs_ledger) (quiet r.2) x.(xs_fee_sample) x.(xs_tip_sample)
          (x.(xs_trace) ++ map (pair x.(xs_ledger)) r.2.(wr_log))).

Definition on_ledger {A} (f : Z -> ExecutionLedger -> A * ExecutionLedger) : St (Exec W) A :=
  fun x => let r := f (exec_now x) x.(xs_ledger) in
           (r.1, mkExec r.2 x.(xs_wire) x.(xs_fee_sample) x.(xs_tip_sample) x.(xs_trace)).

Definition set_fee_sample (s : option (Z * list Z)) (x : Exec W) : Exec W :=
  mkExec x.(xs_ledger) x.(xs_wire) s x.(xs_tip_sample) x.(xs_trace).
Definition set_tip_sample (s : option (Z * Z)) (x : Exec W) : Exec W :=
  mkExec x.(xs_ledger) x.(xs_wire) x.(xs_fee_sample) s x.(xs_trace).

(** [mark], [mark_failed]: an error of the ledger is logged and forgotten. *)
Definition mark (id : text) (to : ExecutionState) (reason : text) : St (Exec W) unit :=
  on_ledger (fun now l => (tt, (exec_transition now id to (Some reason) l).2)).

Definition mark_failed (id : text) (class : FailureClass) (err : text) : St (Exec W) unit :=
  on_ledger (fun now l => (tt, (fail now id class err l).2)).

Definition state_in (id : text) (l : ExecutionLedger) : ExecutionState :=
  match l.(records) !! id with Some r => r.(x_state) | None => ExCreated end.

Definition state_of (id : text) : St (Exec W) ExecutionState :=
  gets (fun x => state_in id x.(xs_ledger)).

(** ** Fees and tips *)

(** [FeeOracle::quote]; a stale sample is kept when the node does not answer. *)
Definition oracle_quote (e : Executor) (accounts : list Z) : St (Exec W) (option Z) :=
  x ← gets id;
  let stale := match x.(xs_fee_sample) with
               | Some (t, _) => e.(ex_fee_policy).(fp_oracle_ttl) <? exec_now x - t
               | None => true
               end in
  (if stale then
     r ← on_wire (recent_prioritization_fees sanitize e.(ex_origin) (take 128 accounts));
     match r with
     | inl sorted => now ← gets exec_now; modify (set_fee_sample (Some (now, sorted)))
     | inr _ => mret tt
     end
   else mret tt) ;;
  gets (fun x => s ← x.(xs_fee_sample); percentile_of e.(ex_fee_policy) s.2).

(** [TipFloorSampler::stale_or_none]: up to ten times its age. *)
Definition stale_tip (p : DynamicTipPolicy) (x : Exec W) : option Z :=
  s ← x.(xs_tip_sample);
  if exec_now x - s.1 <? p.(dt_cache_ttl) * 10 then Some s.2 else None.

(** [TipFloorSampler::tip]. *)
Definition sample_tip (p : DynamicTipPolicy) : St (Exec W) (option Z) :=
  x ← gets id;
  match (s ← x.(xs_tip_sample); if exec_now x - s.1 <? p.(dt_cache_ttl) then Some s.2 else None) with
  | Some tip => mret (Some tip)
  | None =>
      v ← on_wire (on_net (net_tip_floor p.(dt_url) (tip_floor_bucket p.(dt_percentile))));
      match tip_floor_value v p.(dt_min_tip) p.(dt_max_tip) with
      | Some tip => now ← gets exec_now; modify (set_tip_sample (Some (now, tip))) ;; mret (Some tip)
      | None => gets (stale_tip p)
      end
  end.

Definition resolve_jito_tip (e : Executor) (requested : Z) : St (Exec W) Z :=
  if 0 <? requested then mret requested
  else
    match e.(ex_dynamic_tip) with
    | Some p => t ← sample_tip p; mret (default p.(dt_min_tip) t)
    | None => mret requested
    end.

(** ** Broadcast *)

Definition BroadcastResult : Type := text + SendError.

Definition rpc_result (r : text + RpcFailure) : BroadcastResult :=
  match r with inl s => inl s | inr f => inr (from_rpc f.(rf_class) f.(rf_message)) end.

(** Every endpoint at once: they answer in some order, the first acceptance
    wins.  The sends that are still under way then count as unanswered. *)
Fixpoint fanout_loop (b : BuiltTx) (endpoints : list nat) (last_err : option SendError)
    (any_ambiguous : bool) : St (Wire W) BroadcastResult :=
  match endpoints with
  | [] =>
      let err := default (from_text (lit "fanout: no endpoints configured")) last_err in
      mret (inr (if any_ambiguous
                 then mkSendError err.(se_message) Ambiguous TransportAmbiguous else err))
  | i :: rest =>
      r ← send_transaction_classified sanitize b i;
      match rpc_result r with
      | inl s =>
          modify (fun w => foldl (fun w j => with_log (Left b.(bt_signature) j (Some (RcTimeout, []))) w)
                             w rest) ;;
          mret (inl s)
      | inr e => fanout_loop b rest (Some e)
                   (any_ambiguous || bool_decide (e.(se_failure) = Ambiguous))
      end
  end.

(** The primary and the chain of its failovers. *)
Definition endpoints_from (origin : nat) (pool : ProviderPool) : list nat :=
  origin :: seq (S origin) (length pool.(pl_providers) - S origin).

Definition broadcast_fanout (e : Executor) (b : BuiltTx) : St (Wire W) BroadcastResult :=
  eps ← gets (fun w => endpoints_from e.(ex_origin) w.(wr_pool));
  fanout_loop b eps None false.

Definition broadcast_rpc (e : Executor) (b : BuiltTx) : St (Wire W) BroadcastResult :=
  if e.(ex_policy).(ep_fanout) then broadcast_fanout e b
  else
    r ← send_transaction_classified sanitize b e.(ex_origin);
    match rpc_result r with
    | inl s => mret (inl s)
    | inr primary =>
        next ← gets (fun w => failover w.(wr_pool) e.(ex_origin));
        match next with
        | Some j =>
            r ← send_transaction_classified sanitize b j;
            mret (match rpc_result r with
                  | inl s => inl s
                  | inr f => inr (combine_errors primary f)
                  end)
        | None => mret (inr primary)
        end
    end.

(** The message of a bundle that was not accepted. *)
Definition bundle_error (r : BundleReply) : option text :=
  match r with
  | BrPostFailed e => Some (lit "http error: jito bundle post: " ++ e)
  | BrBodyFailed e => Some (lit "http error: jito bundle body: " ++ e)
  | BrStatus status body => Some (lit "http error: jito bundle http " ++ status ++ lit ": " ++ take 300 body)
  | BrNotJson e => Some (lit "encoding error: jito bundle json: " ++ e)
  | BrError e => Some (lit "solana error: jito bundle error: " ++ e)
  | BrAccepted => None
  end.

Definition broadcast_jito (e : Executor) (b : BuiltTx) (tip : Z) : St (Wire W) BroadcastResult :=
  match e.(ex_policy).(ep_jito_url) with
  | None => mret (inr (from_text (lit "config error: jito broadcast requested but no jito_url is set")))
  | Some url =>
      if tip =? 0 then
        mret (inr (from_text
          (lit "invalid argument: jito bundles require a tip; set jito_tip_lamports > 0")))
      else
        r ← on_net (net_bundle url b);
        modify (with_log (LeftByBundle b.(bt_signature) r)) ;;
        mret (match bundle_error r with
              | None => inl b.(bt_signature)
              | Some m => inr (from_text m)
              end)
  end.

(** Both routes are awaited; the error reported is the one of the RPC route. *)
Definition broadcast_race (e : Executor) (b : BuiltTx) (tip : Z) : St (Wire W) BroadcastResult :=
  jito ← broadcast_jito e b tip;
  rpc ← broadcast_rpc e b;
  mret (match jito, rpc with
        | inl s, _ => inl s
        | inr _, inl s => inl s
        | inr _, inr rpc_err => inr rpc_err
        end).

Definition broadcast_jito_then_rpc (e : Executor) (b : BuiltTx) (tip : Z)
    : St (Wire W) BroadcastResult :=
  r ← broadcast_jito e b tip;
  match r with
  | inl s => mret (inl s)
  | inr _ => broadcast_rpc e b
  end.

Definition broadcast (e : Executor) (b : BuiltTx) (tip : Z) : St (Wire W) BroadcastResult :=
  match e.(ex_policy).(ep_broadcast) with
  | BmRpc => broadcast_rpc e b
  | BmJito => broadcast_jito e b tip
  | BmJitoThenRpc => broadcast_jito_then_rpc e b tip
  | BmRace => broadcast_race e b tip
  end.

(** ** Results along the way *)

Definition duplicate_result (e : Executor) (label : text) (r : ExecutionRecord) : ExecutionResult :=
  mkExecutionResult (default [] r.(x_signature)) EsSkipped label 0 []
    (Some (lit "duplicate execution refused")) (is_paper e) 0 r.(x_intent_id) r.(x_state)
    (Some FcDuplicate) r.(x_priority_fee).

(** [veto_result] of the tenant guard. *)
Definition veto_result (label deny signature : text) : ExecutionResult :=
  mkExecutionResult signature EsSkipped label 0 [] (Some deny) false 0 [] ExFailed (Some PolicyVeto) 0.

(** After the bytes have left: the signature to confirm and whether the send
    was ambiguous, or the definite failure. *)
Definition after_send (id signature : text) (send : BroadcastResult)
    : St (Exec W) (text * bool + SendError) :=
  match send with
  | inl s => mark id ExPending (lit "accepted") ;; mret (inl (s, false))
  | inr err =>
      match err.(se_failure) with
      | Definite => mark_failed id err.(se_class) err.(se_message) ;; mret (inr err)
      | Ambiguous =>
          mark_failed id TransportAmbiguous err.(se_message) ;; mret (inl (signature, true))
      end
  end.

Record Verdict : Type := mkVerdict {
  v_status : ExecStatus;
  v_error : option text;
  v_logs : list text;
  v_failure : option FailureClass;
}.

(** What the chain said, with the timeout worded by the caller. *)
Definition conclude (id : text) (was_ambiguous : bool) (timeout_msg : text) (o : ConfirmOutcome)
    : St (Exec W) Verdict :=
  match o with
  | CoConfirmed _ logs _ =>
      mark id ExConfirmed (lit "confirmed") ;; mret (mkVerdict EsConfirmed None logs None)
  | CoTimeout =>
      mark_failed id ConfirmationTimeout timeout_msg ;;
      mret (mkVerdict (if was_ambiguous then EsSendUnknown else EsSent) (Some timeout_msg) []
              (Some ConfirmationTimeout))
  | CoExpired _ _ =>
      let msg := lit "blockhash expired before the transaction landed" in
      mark_failed id BlockhashExpired msg ;;
      mret (mkVerdict EsSendFailed (Some msg) [] (Some BlockhashExpired))
  | CoFailed error logs =>
      mark_failed id LandedFailed error ;;
      mret (mkVerdict EsLandedFailed (Some error) logs (Some LandedFailed))
  end.

Definition settle (e : Executor) (id signature : text) (lvbh : option Z) (was_ambiguous : bool)
    (timeout_msg : text) : St (Exec W) Verdict :=
  o ← on_wire (confirm_tracked sanitize e.(ex_origin) signature lvbh
                 e.(ex_policy).(ep_confirm_timeout) e.(ex_policy).(ep_confirm_poll_interval));
  conclude id was_ambiguous timeout_msg o.

(** ** One attempt *)

Definition timeout_text (was_ambiguous : bool) : text :=
  if was_ambiguous
  then lit "broadcast failed ambiguously and confirmation timed out; the transaction may still land"
  else lit "confirmation timed out; the transaction may still land".

Definition is_jito_mode (m : BroadcastMode) : bool :=
  match m with BmRpc => false | _ => true end.

Definition priced_quote (e : Executor) (req : TxRequest) : St (Exec W) (option Z) :=
  if e.(ex_fee_policy).(fp_adaptive) && negb (is_paper e)
  then oracle_quote e (writable_accounts req) else mret None.

Definition tip_for (e : Executor) (req : TxRequest) : St (Exec W) Z :=
  if is_jito_mode e.(ex_policy).(ep_broadcast) && (req.(tr_jito_tip_lamports) =? 0)
  then resolve_jito_tip e 0 else mret req.(tr_jito_tip_lamports).

(** The blockhash to sign with, and its expiry when it was fetched here.  A
    retry never reuses a pinned one. *)
Definition blockhash_for (e : Executor) (req : TxRequest) (attempt : Z)
    : St (Exec W) (text * option Z + text) :=
  match (if 1 <? attempt then None else req.(tr_blockhash)) with
  | Some h => mret (inl (h, None))
  | None =>
      r ← on_wire (fresh_blockhash sanitize e.(ex_origin) e.(ex_fee_policy).(fp_max_blockhash_age));
      mret (match r with
            | inl b => inl (b.(bh_blockhash), Some b.(bh_last_valid_block_height))
            | inr err => inr err
            end)
  end.

(** The failed simulation that stops the attempt. *)
Definition simulate_stage (e : Executor) (b : BuiltTx) : St (Exec W) (option (text * list text)) :=
  if e.(ex_policy).(ep_simulate_first) then
    r ← on_wire (rpc_simulate sanitize e.(ex_origin) b);
    mret (match r with
          | inl sim =>
              match sim.(sm_error) with
              | Some err => if e.(ex_policy).(ep_abort_on_simulation_failure)
                            then Some (err, sim.(sm_logs)) else None
              | None => None
              end
          | inr _ => None
          end)
  else mret None.

(** From the signed transaction to the result of the attempt. *)
Definition broadcast_stage (e : Executor) (id : text) (b : BuiltTx) (tip fee attempt : Z)
    (label : text) (lvbh : option Z) : St (Exec W) ExecutionResult :=
  mark id ExSubmitted (lit "broadcast") ;;
  send ← on_wire (broadcast e b tip);
  after ← after_send id b.(bt_signature) send;
  match after with
  | inr err =>
      mret (mkExecutionResult b.(bt_signature) EsSendFailed label b.(bt_size) []
              (Some err.(se_message)) false attempt id (terminal_state err.(se_class))
              (Some err.(se_class)) fee)
  | inl (signature, was_ambiguous) =>
      v ← settle e id signature lvbh was_ambiguous (timeout_text was_ambiguous);
      s ← state_of id;
      mret (mkExecutionResult signature v.(v_status) label b.(bt_size) v.(v_logs) v.(v_error) false
              attempt id s v.(v_failure) fee)
  end.

Definition signed_stage (e : Executor) (id : text) (b : BuiltTx) (tip fee attempt : Z)
    (label : text) (fetched_height : option Z) : St (Exec W) ExecutionResult :=
  let lvbh := option_or b.(bt_last_valid_block_height) fetched_height in
  on_ledger (fun now l => (tt, (attach_submission now id b.(bt_signature) (Some b.(bt_blockhash))
                                  lvbh fee l).2)) ;;
  mark id ExValidated (lit "built") ;;
  stop ← simulate_stage e b;
  match stop with
  | Some (err, logs) =>
      mark_failed id SimulationRejected err ;;
      mret (mkExecutionResult b.(bt_signature) EsSimulationFailed label b.(bt_size) logs (Some err)
              (is_paper e) attempt id ExFailed (Some SimulationRejected) fee)
  | None =>
      if is_paper e then
        mark id ExConfirmed (lit "paper fill (not broadcast)") ;;
        mret (mkExecutionResult b.(bt_signature) EsPaperFilled label b.(bt_size) [] None true 1 id
                ExConfirmed None fee)
      else broadcast_stage e id b tip fee attempt label lvbh
  end.

(** [run_once]: an error is the text of a [BotError]. *)
Definition run_once (e : Executor) (req : TxRequest) (id : text) (attempt : Z)
    : St (Exec W) (ExecutionResult + text) :=
  quote ← priced_quote e req;
  let d := decide_fee e.(ex_fee_policy) req.(tr_priority_fee_micro_lamports) quote attempt in
  if d.(fd_refused) then
    let reason := lit "priority fee exceeds emergency limit" in
    mark_failed id PolicyVeto reason ;;
    mret (inl (mkExecutionResult [] EsSkipped req.(tr_label) 0 [] (Some reason) (is_paper e) attempt
                 id ExFailed (Some PolicyVeto) d.(fd_fee)))
  else
    on_ledger (fun _ l => (tt, set_priority_fee id d.(fd_fee) l)) ;;
    tip ← tip_for e req;
    bh ← blockhash_for e req attempt;
    match bh with
    | inr err => mret (inr err)
    | inl (hash, height) =>
        built ← on_wire (on_net (net_build (with_fee_and_tip d.(fd_fee) tip (Some hash) req)));
        match built with
        | inr err => mret (inr err)
        | inl b =>
            r ← signed_stage e id b tip d.(fd_fee) attempt req.(tr_label) height;
            mret (inl r)
        end
    end.

(** ** The run *)

(** [resolve_intent]. *)
Definition derived_id (e : Executor) (req : TxRequest) : text :=
  intent_id [e.(ex_wallet); req.(tr_label); digest_hex (intent_bytes req)].

Definition resolve_id (now : Z) (e : Executor) (req : TxRequest) (l : ExecutionLedger) : text :=
  let derived := derived_id e req in
  let fresh := match l.(records) !! derived with
               | Some r => if negb (is_live r.(x_state)) && negb (can_rearm r)
                           then intent_id [derived; lit (pretty (now / MILLIS))] else derived
               | None => derived
               end in
  let id := match req.(tr_intent_id) with
            | Some i => if negb (is_empty (trim i)) then trim i else fresh
            | None => fresh
            end in
  if (96 <? length (utf8 id))%nat then intent_id [id] else id.

Definition resolve_intent (e : Executor) (req : TxRequest) : St (Exec W) ExecutionIntent :=
  gets (fun x =>
    mkExecutionIntent (resolve_id (exec_now x) e req x.(xs_ledger))
      (if is_empty (trim req.(tr_module)) then lit "solana" else req.(tr_module))
      req.(tr_label) e.(ex_wallet) req.(tr_symbol)).

Definition begin_error : text := lit "invalid argument: execution intent_id must not be empty".

Definition begin_intent (i : ExecutionIntent) : St (Exec W) (BeginOutcome + text) :=
  r ← on_ledger (fun now l => begin now i l);
  mret (match r with Ok o => inl o | _ => inr begin_error end).

Definition mentions_any (words : list text) (msg : text) : bool :=
  existsb (fun w => contains w msg) words.

Definition is_transient (msg : text) : bool :=
  mentions_any [lit "blockhash"; lit "timeout"; lit "TooManyRequests"; lit "429"] msg.

(** The class under which an attempt that died while building is recorded. *)
Definition recorded_class (msg : text) : FailureClass :=
  let class := classify_message msg in
  if is_transient msg then
    match class with BlockhashExpired | RateLimited => class | _ => FcInternal end
  else match class with TransportAmbiguous => FcInternal | _ => class end.

(** Whether the result of an attempt asks for another one. *)
Definition retry_class (r : ExecutionResult) : option FailureClass :=
  match r.(r_failure), r.(r_status) with
  | Some c, EsSendFailed => if is_retryable_with_rebuild c then Some c else None
  | _, _ => None
  end.

(** One attempt: a result to hand on, or a reason to try again. *)
Definition attempt_once (e : Executor) (req : TxRequest) (id : text) (attempt : Z) (last : bool)
    : St (Exec W) (option (ExecutionResult + text)) :=
  o ← run_once e req id attempt;
  match o with
  | inl r =>
      mret (match retry_class r with
            | Some _ => if last then Some (inl r) else None
            | None => Some (inl r)
            end)
  | inr msg =>
      s ← state_of id;
      (if is_live s then mark_failed id (recorded_class msg) msg else mret tt) ;;
      mret (if is_transient msg && negb last then None else Some (inr msg))
  end.

(** [more] attempts remain after this one.  The last one always returns, so
    nothing follows the loop. *)
Fixpoint attempts_loop (e : Executor) (req : TxRequest) (i : ExecutionIntent) (more : nat)
    (attempt : Z) : St (Exec W) (ExecutionResult + text) :=
  r ← attempt_once e req i.(xi_intent_id) attempt (match more with O => true | S _ => false end);
  match r, more with
  | Some o, _ => mret o
  | None, O => mret (inr (lit "all attempts failed"))
  | None, S more =>
      on_wire invalidate_blockhash ;;
      again ← begin_intent i;
      match again with
      | inr err => mret (inr err)
      | inl (Duplicate rec) => mret (inl (duplicate_result e req.(tr_label) rec))
      | inl _ => attempts_loop e req i more (attempt + 1)
      end
  end.

Definition below_minimum (e : Executor) (req : TxRequest) (id : text) : ExecutionResult :=
  mkExecutionResult [] EsSkipped req.(tr_label) 0 []
    (Some (lit "priority fee is below the configured minimum")) (is_paper e) 0 id ExFailed
    (Some PolicyVeto) 0.

Definition denied (e : Executor) (req : TxRequest) : option text :=
  g ← e.(ex_guard); g.(tg_authorize) req.

(** [Executor::run]. *)
Definition run (e : Executor) (req : TxRequest) : St (Exec W) (ExecutionResult + text) :=
  match denied e req with
  | Some deny => mret (inl (veto_result req.(tr_label) deny []))
  | None =>
      i ← resolve_intent e req;
      if req.(tr_priority_fee_micro_lamports) <? e.(ex_policy).(ep_min_priority_fee)
      then mret (inl (below_minimum e req i.(xi_intent_id)))
      else
        started ← begin_intent i;
        match started with
        | inr err => mret (inr err)
        | inl (Duplicate rec) => mret (inl (duplicate_result e req.(tr_label) rec))
        | inl _ => attempts_loop e req i (Z.to_nat (Z.max e.(ex_policy).(ep_max_attempts) 1 - 1)) 1
        end
  end.

(** ** Transactions signed elsewhere *)

Definition prebuilt_intent (e : Executor) (b : BuiltTx) : ExecutionIntent :=
  mkExecutionIntent
    (if is_empty (trim b.(bt_intent_id)) then intent_id [lit "prebuilt"; b.(bt_signature)]
     else trim b.(bt_intent_id))
    (if is_empty b.(bt_module) then lit "solana" else b.(bt_module))
    b.(bt_label) e.(ex_wallet) b.(bt_symbol).

(** The route of a prebuilt transaction: without its instructions it cannot be
    bundled. *)
Definition broadcast_prebuilt (e : Executor) (b : BuiltTx) : St (Wire W) BroadcastResult :=
  match e.(ex_policy).(ep_broadcast) with
  | BmRpc => broadcast_rpc e b
  | m =>
      match b.(bt_instructions) with
      | [] => broadcast_rpc e b
      | _ =>
          let tip := jito_tip_for b in
          match m with
          | BmRace => broadcast_race e b tip
          | BmJitoThenRpc => broadcast_jito_then_rpc e b tip
          | _ => broadcast_jito e b tip
          end
      end
  end.

(** A result of [send_prebuilt] before anything was broadcast. *)
Definition unsent (b : BuiltTx) (id : text) (state : ExecutionState) (class : FailureClass)
    (msg : text) : ExecutionResult :=
  mkExecutionResult b.(bt_signature) EsSendFailed b.(bt_label) b.(bt_size) [] (Some msg) false 0 id
    state (Some class) 0.

Definition prebuilt_stage (e : Executor) (b : BuiltTx) (id : text) : St (Exec W) ExecutionResult :=
  mark id ExSubmitted (lit "broadcast") ;;
  send ← on_wire (broadcast_prebuilt e b);
  after ← after_send id b.(bt_signature) send;
  match after with
  | inr err =>
      mret (mkExecutionResult b.(bt_signature) EsSendFailed b.(bt_label) b.(bt_size) []
              (Some err.(se_message)) false 1 id (terminal_state err.(se_class))
              (Some err.(se_class)) 0)
  | inl (signature, was_ambiguous) =>
      v ← settle e id signature b.(bt_last_valid_block_height) was_ambiguous
            (lit "confirmation timed out");
      s ← state_of id;
      mret (mkExecutionResult signature v.(v_status) b.(bt_label) b.(bt_size) v.(v_logs)
              v.(v_error) false 1 id s v.(v_failure) 0)
  end.

Definition denied_prebuilt (e : Executor) (b : BuiltTx) : option text :=
  g ← e.(ex_guard); g.(tg_authorize_prebuilt) b.

Definition paper_prebuilt (b : BuiltTx) : ExecutionResult :=
  mkExecutionResult b.(bt_signature) EsPaperFilled b.(bt_label) b.(bt_size) [] None true 1 []
    ExConfirmed None 0.

(** [Executor::send_prebuilt]. *)
Definition send_prebuilt (e : Executor) (b : BuiltTx) : St (Exec W) (ExecutionResult + text) :=
  match denied_prebuilt e b with
  | Some deny => mret (inl (veto_result b.(bt_label) deny b.(bt_signature)))
  | None =>
      if is_paper e then mret (inl (paper_prebuilt b))
      else
        let i := prebuilt_intent e b in
        let id := i.(xi_intent_id) in
        started ← begin_intent i;
        match started with
        | inr err => mret (inr err)
        | inl (Duplicate rec) => mret (inl (duplicate_result e b.(bt_label) rec))
        | inl _ =>
            on_ledger (fun now l => (tt, (attach_submission now id b.(bt_signature)
              (Some b.(bt_blockhash)) b.(bt_last_valid_block_height) 0 l).2)) ;;
            mark id ExValidated (lit "prebuilt") ;;
            valid ← on_wire (is_blockhash_valid sanitize e.(ex_origin) b.(bt_blockhash));
            match valid with
            | inr error =>
                let msg := lit "prebuilt transaction blockhash validity check failed; transaction not broadcast: " ++ error in
                mark_failed id FcInternal msg ;; mret (inl (unsent b id ExFailed FcInternal msg))
            | inl false =>
                let msg := lit "prebuilt transaction blockhash expired before it was sent" in
                mark_failed id BlockhashExpired msg ;;
                mret (inl (unsent b id ExExpired BlockhashExpired msg))
            | inl true => r ← prebuilt_stage e b id; mret (inl r)
            end
        end
  end.
End Executor.
