(* ===== verification/RpcPoolCorrect.v ===== *)
(** What the RPC layer does: where a call goes, how often a transaction leaves
    and what its failure is worth, when a transaction is declared dead. *)
From stdpp Require Import prelude countable gmap list strings sorting.
From Stdlib Require Import ZArith Lia.
From S2P Require Import Prelude.
From S2P Require Import Text.
From S2P Require Import BotCore.
From S2P Require Import ExecLedger.
From S2P Require Import FeePolicy.
From S2P Require Import RpcPool.

#[local] Open Scope Z_scope.

(** * Routing *)

Lemma order_from_elem pool origin i :
  pool.(pl_providers) <> [] ->
  (i ∈ order_from pool origin) <-> (i < length pool.(pl_providers))%nat.
Proof.
  intros Hne. assert (0 < length pool.(pl_providers))%nat by (destruct (pl_providers pool); [done|cbn; lia]).
  unfold order_from. rewrite elem_of_cons, list_elem_of_filter, elem_of_seq. split.
  - intros [->|[_ ?]]; lia.
  - intros Hi. destruct (decide (i = Nat.min origin (length (pl_providers pool) - 1)));
      [by left|right; split; [done|lia]].
Qed.

Lemma order_from_nodup pool origin : NoDup (order_from pool origin).
Proof.
  unfold order_from. apply NoDup_cons. split.
  - rewrite list_elem_of_filter. tauto.
  - apply NoDup_filter, NoDup_seq.
Qed.

Lemma min_by_key_spec key l :
  match min_by_key key l with
  | Some i => i ∈ l /\ forall j, j ∈ l -> key i <= key j
  | None => l = []
  end.
Proof.
  induction l as [|i l IH]; cbn; [done|].
  destruct (min_by_key key l) as [j|].
  - destruct IH as [Hj Hmin]. destruct (Z.ltb_spec (key j) (key i)).
    + split; [by right|]. intros k [->|Hk]%elem_of_cons; [lia|by apply Hmin].
    + split; [by left|]. intros k [->|Hk]%elem_of_cons; [lia|]. specialize (Hmin k Hk). lia.
  - subst. split; [by left|]. intros k ->%list_elem_of_singleton. lia.
Qed.

(** An attempt goes to a provider this call has not tried, as long as one
    is left: to a healthy one if there is one, else to the one that recovers
    soonest.  Only when every provider has been tried is there no route. *)
Theorem route_spec now pool origin tried (Hne : pool.(pl_providers) <> []) :
  match route now pool origin tried with
  | Some i =>
      (i < length pool.(pl_providers))%nat /\ (i ∉ tried)
      /\ (has_healthy_untried now pool origin tried = true -> healthy_at now pool i = true)
      /\ (forall j, (j < length pool.(pl_providers))%nat -> j ∉ tried ->
            healthy_at now pool i = true \/ remaining_at now pool i <= remaining_at now pool j)
  | None => forall j, (j < length pool.(pl_providers))%nat -> (j ∈ tried)
  end.
Proof.
  assert (Hin : forall i, i ∈ untried pool origin tried <-> (i < length (pl_providers pool))%nat /\ i ∉ tried).
  { intros i. unfold untried. rewrite list_elem_of_filter, order_from_elem by done. tauto. }
  unfold route. destruct (list_find _ _) as [[k i]|] eqn:Hf.
  - apply list_find_Some in Hf as (Hk & Hh & _). apply list_elem_of_lookup_2, Hin in Hk as [? ?].
    split_and!; [done|done|done|]. intros. by left.
  - apply list_find_None in Hf. rewrite Forall_forall in Hf.
    pose proof (min_by_key_spec (remaining_at now pool) (untried pool origin tried)) as Hm.
    destruct (min_by_key _ _) as [i|].
    + destruct Hm as [Hi Hmin]. apply Hin in Hi as Hi'. destruct Hi' as [? ?].
      split_and!; [done|done| |].
      * unfold has_healthy_untried. intros [j [Hj ?]]%existsb_exists.
        apply list_elem_of_In in Hj. by destruct (Hf j Hj).
      * intros j ? ?. right. by apply Hmin, Hin.
    + intros j Hj. destruct (decide (j ∈ tried)) as [|Hn]; [done|].
      assert (Hj' : j ∈ untried pool origin tried) by (by apply Hin). rewrite Hm in Hj'.
      by apply not_elem_of_nil in Hj'.
Qed.

(** * The events of a call *)

Section Rpc.
Context {W : Type} `{Network W} (sanitize : text -> text).

(** The log grows by events of [P]; the retry policy stays. *)
Record grows (P : WireEvent -> Prop) (w w' : Wire W) : Prop := mkGrows {
  gr_retry : w'.(wr_pool).(pl_retry) = w.(wr_pool).(pl_retry);
  gr_log : exists es, w'.(wr_log) = w.(wr_log) ++ es /\ Forall P es;
}.

Lemma grows_refl P w : grows P w w.
Proof. split; [done|]. exists []. by rewrite app_nil_r. Qed.

Lemma grows_trans P w1 w2 w3 : grows P w1 w2 -> grows P w2 w3 -> grows P w1 w3.
Proof.
  intros [Hr1 (es1 & Hl1 & Hp1)] [Hr2 (es2 & Hl2 & Hp2)]. split; [congruence|].
  exists (es1 ++ es2). rewrite Hl2, Hl1, <- app_assoc. split; [done|by apply Forall_app].
Qed.

Definition emits {A} (P : WireEvent -> Prop) (m : St (Wire W) A) : Prop :=
  forall w, grows P w (m w).2.

(** A computation that leaves no trace. *)
Definition silent {A} (m : St (Wire W) A) : Prop := emits (fun _ => False) m.

Lemma emits_weaken {A} (P Q : WireEvent -> Prop) (m : St (Wire W) A) :
  (forall e, P e -> Q e) -> emits P m -> emits Q m.
Proof.
  intros HPQ Hm w. destruct (Hm w) as [Hr (es & Hl & Hp)]. split; [done|].
  exists es. split; [done|]. by eapply Forall_impl.
Qed.

Lemma silent_emits {A} P (m : St (Wire W) A) : silent m -> emits P m.
Proof. by apply emits_weaken. Qed.

Lemma emits_ret {A} P (a : A) : emits P (mret a).
Proof. intros w. apply grows_refl. Qed.

Lemma emits_gets {A} P (f : Wire W -> A) : emits P (gets f).
Proof. intros w. apply grows_refl. Qed.

Lemma emits_bind {A B} P (m : St (Wire W) A) (k : A -> St (Wire W) B) :
  emits P m -> (forall a, emits P (k a)) -> emits P (m ≫= k).
Proof. intros Hm Hk w. eapply grows_trans; [apply Hm|]. apply (Hk (m w).1). Qed.

Lemma emits_log P e : P e -> emits P (modify (with_log e)).
Proof. intros He w. split; [done|]. exists [e]. by split; [|constructor]. Qed.

Lemma emits_on_net {A} P (f : W -> A * W) : emits P (on_net f).
Proof. intros w. split; [done|]. exists []. by rewrite app_nil_r. Qed.

Lemma emits_modify P (f : Wire W -> Wire W) :
  (forall w, (f w).(wr_pool).(pl_retry) = w.(wr_pool).(pl_retry) /\ (f w).(wr_log) = w.(wr_log)) ->
  emits P (modify f).
Proof. intros Hf w. destruct (Hf w) as [Hr Hl]. split; [done|]. exists []. by rewrite app_nil_r. Qed.

Lemma grows_pool P f w w' :
  (forall p, (f p).(pl_retry) = p.(pl_retry)) -> grows P w w' -> grows P w (with_pool f w').
Proof. intros Hf [Hr Hl]. split; [cbn; by rewrite Hf|done]. Qed.

Lemma emits_backoff P origin tried attempt class : emits P (backoff origin tried attempt class).
Proof.
  intros w. unfold backoff. destruct (_ && _); [apply grows_refl|].
  split; [done|]. exists []. by rewrite app_nil_r.
Qed.

Lemma emits_retry_loop {A} P what (op : nat -> St (Wire W) (A + RpcErrorClass * text)) origin :
  (forall i, emits P (op i)) ->
  forall budget attempt tried, emits P (retry_loop sanitize what op origin budget attempt tried).
Proof.
  intros Hop. induction budget as [|budget IH]; intros attempt tried w; cbn -[backoff];
    pose proof (Hop (next_provider origin tried w).1 w) as Hg;
    destruct (op _ w) as [[v|[class raw]] w'] eqn:Ho; cbn -[backoff] in *;
    try (by apply grows_pool).
  destruct (retryable class); [|by apply grows_pool].
  eapply grows_trans; [|apply IH]. eapply grows_trans; [|apply emits_backoff].
  by apply grows_pool.
Qed.

Lemma silent_retry m origin : silent (retry sanitize m origin).
Proof.
  intros w. unfold retry, retry_classified. cbn.
  apply (emits_retry_loop (fun _ => False) (method_name m) (call m) origin).
  intros i. apply emits_on_net.
Qed.

Create HintDb wire discriminated.
#[local] Hint Resolve emits_ret emits_gets emits_on_net silent_retry : wire.

(** Walk a computation whose steps are all known. *)
Ltac emits_step :=
  match goal with
  | |- silent _ => unfold silent
  | |- emits _ (mbind _ _) => apply emits_bind; [|intros ?]
  | |- emits _ (mret _) => apply emits_ret
  | |- emits _ (gets _) => apply emits_gets
  | |- emits _ (on_net _) => apply emits_on_net
  | |- emits _ (retry _ _ _) => apply silent_emits, silent_retry
  | |- emits _ (match ?x with _ => _ end) => destruct x
  | |- emits _ (let _ := _ in _) => cbv zeta
  end.
Ltac emits := repeat emits_step.

Lemma silent_blockhash origin max_age : silent (fresh_blockhash sanitize origin max_age).
Proof.
  unfold fresh_blockhash, latest_blockhash, fetch_blockhash.
  emits; apply emits_modify; intros w; by destruct w.
Qed.

Lemma silent_latest origin force : silent (latest_blockhash sanitize origin force).
Proof.
  unfold latest_blockhash, fetch_blockhash. emits; apply emits_modify; intros w; by destruct w.
Qed.

Lemma silent_get_transaction origin sig : silent (get_transaction sanitize origin sig).
Proof. unfold get_transaction. emits. Qed.

Lemma silent_invalidate : silent invalidate_blockhash.
Proof. apply emits_modify. by intros w. Qed.

Lemma silent_fees origin keys : silent (recent_prioritization_fees sanitize origin keys).
Proof. unfold recent_prioritization_fees. emits. Qed.

(** ** Broadcast *)

(** The answers of the attempts of one broadcast through one handle. *)
Record answered (b : BuiltTx) (budget : nat) (r : text + RpcFailure) (es : list WireEvent) : Prop :=
  mkAnswered {
  an_events : exists early i last,
    es = map (fun a : nat * (RpcErrorClass * text) => Left b.(bt_signature) a.1 (Some a.2)) early
         ++ [Left b.(bt_signature) i last]
    /\ (length early <= budget)%nat
    /\ Forall (fun a => retryable a.2.1 = true) early
    /\ match r, last with
       | inl _, None => True
       | inr f, Some (class, raw) =>
           f.(rf_class) = class /\ f.(rf_message) = lit "sendTransaction" ++ lit ": " ++ sanitize raw
       | _, _ => False
       end;
}.

Lemma send_loop b origin budget attempt tried w :
  let r := retry_loop sanitize (lit "sendTransaction") (send_once b) origin budget attempt tried w in
  r.2.(wr_pool).(pl_retry) = w.(wr_pool).(pl_retry)
  /\ exists es, r.2.(wr_log) = w.(wr_log) ++ es /\ answered b budget r.1 es.
Proof.
  revert attempt tried w. induction budget as [|budget IH]; intros attempt tried w; cbn -[backoff lit].
  all: unfold send_once, call, on_net; cbn -[backoff lit].
  all: set (i := (next_provider origin tried w).1).
  all: destruct (net_call (SendTransaction b) i (wr_net w)) as [[v|[class raw]] n]; cbn -[backoff lit].
  1,3: split; [done|]; eexists; split; [done|]; split; exists [], i, None;
    split_and!; [done|cbn; lia|by apply Forall_nil|done].
  - split; [done|]. eexists. split; [done|]. split. exists [], i, (Some (class, raw)).
    split_and!; [done|cbn; lia|by apply Forall_nil|done|done].
  - destruct (retryable class) eqn:Hc; cbn -[backoff lit].
    2:{ split; [done|]. eexists. split; [done|]. split. exists [], i, (Some (class, raw)).
        split_and!; [done|cbn; lia|by apply Forall_nil|done|done]. }
    match goal with |- context[retry_loop _ _ _ _ budget ?a ?t (backoff ?o ?t' ?k ?c ?w1).2] =>
      destruct (IH a t (backoff o t' k c w1).2) as (Hr & es & Hl & [(early & j & last & -> & Hlen & Hall & Hlast)]);
      pose proof (emits_backoff (fun _ => False) o t' k c w1) as [Hbr (es0 & Hbl & Hno)]
    end.
    assert (Hes0 : es0 = []) by (destruct es0; [done|by apply Forall_cons in Hno as [[] _]]). subst es0.
    rewrite app_nil_r in Hbl. rewrite Hbl in Hl. cbn in Hl, Hbr.
    split; [etrans; [exact Hr|exact Hbr]|]. eexists. split; [etrans; [exact Hl|by rewrite <- app_assoc]|]. split.
    exists ((i, (class, raw)) :: early), j, last. split_and!; [done|cbn; lia| |done].
    by constructor.
Qed.

Lemma send_spec b origin w :
  let r := send_transaction_classified sanitize b origin w in
  r.2.(wr_pool).(pl_retry) = w.(wr_pool).(pl_retry)
  /\ exists es, r.2.(wr_log) = w.(wr_log) ++ es
     /\ answered b (Z.to_nat (max_attempts w.(wr_pool).(pl_retry) - 1)) r.1 es.
Proof. apply send_loop. Qed.

(** ** Confirmation *)

(** Only a transaction that was seen comes from a lookup. *)
Definition seen (o : ConfirmOutcome) : Prop :=
  match o with CoConfirmed _ _ _ | CoFailed _ _ => True | CoTimeout | CoExpired _ _ => False end.

Lemma get_transaction_seen origin sig w o :
  (get_transaction sanitize origin sig w).1 = inl (Some o) -> seen o.
Proof.
  unfold get_transaction, mbind, St_bind, mret, St_ret. intros Hx. cbn [fst] in Hx.
  match type of Hx with (match ?x with _ => _ end) = _ => destruct x as [v|e] end.
  - destruct v as [| |slot err logs fee]; [discriminate Hx|discriminate Hx|].
    by destruct err; injection Hx as <-.
  - destruct (contains _ e || contains _ e); discriminate Hx.
Qed.

(** A verdict of the confirmation: the log holds the death it declares. *)
Definition declared (sig : text) (o : option ConfirmOutcome) (w w' : Wire W) : Prop :=
  w'.(wr_pool).(pl_retry) = w.(wr_pool).(pl_retry)
  /\ w'.(wr_log) = w.(wr_log) ++ match o with Some (CoExpired _ _) => [Expired sig] | _ => [] end.

Lemma silent_declared {A} sig (m : St (Wire W) A) w : silent m -> declared sig None w (m w).2.
Proof.
  intros Hm. destruct (Hm w) as [Hr (es & Hl & Hno)]. split; [done|].
  by destruct es; [|apply Forall_cons in Hno as [[] _]].
Qed.

Lemma declared_trans sig o w1 w2 w3 :
  declared sig None w1 w2 -> declared sig o w2 w3 -> declared sig o w1 w3.
Proof.
  intros [Hr1 Hl1] [Hr2 Hl2]. split; [congruence|]. rewrite Hl2, Hl1. by rewrite app_nil_r.
Qed.

Lemma declared_seen sig o w w' :
  seen o -> declared sig None w w' -> declared sig (Some o) w w'.
Proof. by destruct o. Qed.

Lemma declared_sleep sig d w : declared sig None w (wire_sleep d w).2.
Proof. split; [done|]. by rewrite app_nil_r. Qed.

Lemma expiry_check_spec origin sig lvbh last w :
  let r := expiry_check sanitize origin sig lvbh last w in declared sig r.1.1 w r.2.
Proof.
  unfold expiry_check. destruct lvbh as [limit|]; [|by apply (silent_declared sig (mret tt) w (emits_ret _ tt))].
  unfold mbind, St_bind, gets. cbn [fst snd].
  match goal with |- context[if ?c then _ else _] => destruct c end; [|by apply (silent_declared sig (mret tt) w (emits_ret _ tt))].
  pose proof (silent_declared sig _ w (silent_retry GetBlockHeight origin)) as Hh.
  destruct (retry sanitize GetBlockHeight origin w) as [[height|e] w1]; cbn [fst snd] in *; [|done].
  destruct (limit <? height); [|done].
  pose proof (silent_declared sig _ w1 (silent_get_transaction origin sig)) as Hg.
  pose proof (get_transaction_seen origin sig w1) as Hseen.
  assert (Hdead : declared sig (Some (CoExpired limit height)) w (with_log (Expired sig) (get_transaction sanitize origin sig w1).2)).
  { eapply declared_trans; [exact Hh|]. destruct Hg as [Hr Hl]. split; [done|].
    cbn. by rewrite Hl, app_nil_r. }
  destruct (get_transaction sanitize origin sig w1) as [[[o|]|e] w2]; cbn [fst snd] in *; [|done|done].
  cbn. eapply declared_trans; [exact Hh|]. by apply declared_seen; [apply Hseen|].
Qed.

Lemma confirm_loop_spec fuel : forall origin sig lvbh deadline poll last w,
  let r := confirm_loop sanitize fuel origin sig lvbh deadline poll last w in
  declared sig (Some r.1) w r.2.
Proof.
  induction fuel as [|fuel IH]; intros origin sig lvbh deadline poll last w.
  { by apply (silent_declared sig (mret tt) w (emits_ret _ tt)). }
  cbn [confirm_loop]. unfold mbind, St_bind, gets. cbn [fst snd].
  destruct (deadline <? wire_now w); [by apply (silent_declared sig (mret tt) w (emits_ret _ tt))|].
  pose proof (silent_declared sig _ w (silent_get_transaction origin sig)) as Hg.
  pose proof (get_transaction_seen origin sig w) as Hseen.
  destruct (get_transaction sanitize origin sig w) as [[[o|]|e] w1]; cbn [fst snd] in *.
  - by apply declared_seen; [apply Hseen|].
  - pose proof (expiry_check_spec origin sig lvbh last w1) as Hx.
    destruct (expiry_check sanitize origin sig lvbh last w1) as [[[o|] t] w2]; cbn [fst snd] in *.
    + by eapply declared_trans.
    + eapply declared_trans; [exact Hg|]. eapply declared_trans; [exact Hx|].
      eapply declared_trans; [apply (declared_sleep sig poll w2)|]. apply IH.
  - eapply declared_trans; [exact Hg|].
    eapply declared_trans; [apply (declared_sleep sig poll w1)|]. apply IH.
Qed.

Lemma confirm_spec origin sig lvbh timeout poll w :
  let r := confirm_tracked sanitize origin sig lvbh timeout poll w in
  declared sig (Some r.1) w r.2.
Proof. apply confirm_loop_spec. Qed.
End Rpc.

(** * The confirmation ends *)

(** The clock does not run backwards, and a sleep takes its time. *)
Class NetworkClock (W : Type) `{Network W} : Prop := {
  clock_sleep : forall d w, net_now w + Z.max d 0 <= net_now (net_sleep d w);
  clock_rand : forall w, net_now w <= net_now (net_rand w).2;
  clock_call : forall m i w, net_now w <= net_now (net_call m i w).2;
}.

Section Clock.
Context {W : Type} `{NetworkClock W} (sanitize : text -> text).

Definition advances {A} (m : St (Wire W) A) : Prop := forall w, wire_now w <= wire_now (m w).2.

Lemma advances_ret {A} (a : A) : advances (mret a).
Proof. intros w. apply Z.le_refl. Qed.

Lemma advances_gets {A} (f : Wire W -> A) : advances (gets f).
Proof. intros w. apply Z.le_refl. Qed.

Lemma advances_log e : advances (modify (with_log (W := W) e)).
Proof. intros w. apply Z.le_refl. Qed.

Lemma advances_bind {A B} (m : St (Wire W) A) (k : A -> St (Wire W) B) :
  advances m -> (forall a, advances (k a)) -> advances (m ≫= k).
Proof. intros Hm Hk w. etrans; [apply Hm|]. apply (Hk (m w).1). Qed.

Lemma advances_sleep d : advances (wire_sleep (W := W) d).
Proof. intros w. pose proof (clock_sleep d w.(wr_net)). unfold wire_sleep, wire_now. cbn. lia. Qed.

Lemma advances_backoff origin tried attempt class : advances (backoff (W := W) origin tried attempt class).
Proof.
  intros w. unfold backoff. destruct (_ && _); [apply Z.le_refl|]. unfold wire_now. cbn.
  pose proof (clock_rand w.(wr_net)). destruct (delay _ _ _ _ =? 0); [done|].
  match goal with |- context[net_sleep ?d ?n] => pose proof (clock_sleep d n) end. lia.
Qed.

Lemma advances_retry_loop m what origin budget attempt tried :
  advances (retry_loop sanitize what (call m) origin budget attempt tried).
Proof.
  revert attempt tried. induction budget as [|budget IH]; intros attempt tried w; cbn -[backoff].
  all: set (i := (next_provider origin tried w).1); pose proof (clock_call m i w.(wr_net)) as Hc.
  all: unfold call, on_net; cbn -[backoff]; destruct (net_call m i (wr_net w)) as [[v|[class raw]] n];
    cbn -[backoff] in *; try done.
  destruct (retryable class); [|done].
  etrans; [|apply IH]. etrans; [|apply advances_backoff]. exact Hc.
Qed.

Lemma advances_retry m origin : advances (retry sanitize m origin).
Proof. intros w. apply (advances_retry_loop m (method_name m) origin). Qed.

Lemma advances_get_transaction origin sig : advances (get_transaction sanitize origin sig).
Proof.
  apply advances_bind; [apply (advances_retry (GetTransaction sig))|intros ?; apply advances_ret].
Qed.

Lemma advances_expiry origin sig lvbh last : advances (expiry_check sanitize origin sig lvbh last).
Proof.
  unfold expiry_check. destruct lvbh as [limit|]; [|apply advances_ret].
  apply advances_bind; [apply advances_gets|intros now].
  match goal with |- context[if ?c then _ else _] => destruct c end; [|apply advances_ret].
  apply advances_bind; [apply (advances_retry GetBlockHeight)|intros [height|err]; [|apply advances_ret]].
  destruct (limit <? height); [|apply advances_ret].
  apply advances_bind; [apply advances_get_transaction|intros [[o|]|err]]; try apply advances_ret.
  all: by apply advances_bind; [apply advances_log|intros ?; apply advances_ret].
Qed.

(** The turns that are left. *)
Definition turns (deadline poll : Z) (w : Wire W) : Z :=
  if deadline <? wire_now w then 1 else (deadline - wire_now w) / poll + 2.

Lemma turns_slept deadline poll w w' :
  1 <= poll -> wire_now w + poll <= wire_now w' -> wire_now w <= deadline ->
  turns deadline poll w' <= turns deadline poll w - 1.
Proof.
  intros Hp Hw Hd. unfold turns. destruct (Z.ltb_spec deadline (wire_now w)); [lia|].
  assert (0 <= (deadline - wire_now w) / poll) by (apply Z.div_pos; lia).
  destruct (Z.ltb_spec deadline (wire_now w')); [lia|].
  assert (Hm : (deadline - wire_now w') / poll <= (deadline - wire_now w + (-1) * poll) / poll)
    by (apply Z.div_le_mono; lia).
  rewrite Z.div_add in Hm by lia. lia.
Qed.

Lemma turns_pos deadline poll w : 1 <= poll -> 1 <= turns deadline poll w.
Proof.
  intros Hp. unfold turns. destruct (Z.ltb_spec deadline (wire_now w)); [lia|].
  assert (0 <= (deadline - wire_now w) / poll) by (apply Z.div_pos; lia). lia.
Qed.

Lemma confirm_loop_more origin sig lvbh deadline poll (Hp : 1 <= poll) n :
  forall m last w, turns deadline poll w <= Z.of_nat n -> (n <= m)%nat ->
    confirm_loop sanitize m origin sig lvbh deadline poll last w
    = confirm_loop sanitize n origin sig lvbh deadline poll last w.
Proof.
  induction n as [|n IH]; intros m last w Hn Hm.
  { pose proof (turns_pos deadline poll w Hp). lia. }
  destruct m as [|m]; [lia|]. cbn [confirm_loop]. unfold mbind, St_bind, gets. cbn [fst snd].
  destruct (Z.ltb_spec deadline (wire_now w)) as [|Hd]; [done|].
  pose proof (advances_get_transaction origin sig w) as Hg.
  assert (Hslept : forall w', wire_now w <= wire_now w' -> turns deadline poll (wire_sleep poll w').2 <= Z.of_nat n).
  { intros w' Hw'. pose proof (clock_sleep poll w'.(wr_net)) as Hs.
    assert (turns deadline poll (wire_sleep poll w').2 <= turns deadline poll w - 1); [|lia].
    apply turns_slept; [done| |done]. unfold wire_sleep, wire_now in *. cbn. lia. }
  destruct (get_transaction sanitize origin sig w) as [[[o|]|err] w1]; cbn [fst snd] in *; [done| |].
  - pose proof (advances_expiry origin sig lvbh last w1) as Hx.
    destruct (expiry_check sanitize origin sig lvbh last w1) as [[[o|] t] w2]; cbn [fst snd] in *; [done|].
    apply IH; [|lia]. apply Hslept. lia.
  - apply IH; [|lia]. by apply Hslept.
Qed.

(** C35: The confirmation ends, whatever the nodes answer: with a clock that does
    not run backwards and a poll interval of at least one nanosecond, the turns
    that fit before the deadline, and the one that sees it passed, are all the
    loop ever takes. *)
Theorem confirm_terminates origin sig lvbh timeout poll w fuel
  (Hpoll : 1 <= poll) (Htimeout : 0 <= timeout) (Hfuel : (confirm_fuel timeout poll <= fuel)%nat) :
  confirm_loop sanitize fuel origin sig lvbh (wire_now w + timeout) poll None w
  = confirm_tracked sanitize origin sig lvbh timeout poll w.
Proof.
  unfold confirm_tracked, mbind, St_bind, gets. cbn [fst snd].
  apply confirm_loop_more; [done| |done]. unfold turns, confirm_fuel.
  assert (0 <= timeout / poll) by (apply Z.div_pos; lia).
  destruct (Z.ltb_spec (wire_now w + timeout) (wire_now w)); [lia|].
  replace (wire_now w + timeout - wire_now w) with timeout by lia.
  rewrite (Z.max_l poll 1) by lia. lia.
Qed.
End Clock.

(** * A scripted network *)

(** The answers still to come of the nodes to a send and to a lookup, and of
    the block engine; when they run out, a send is accepted and a transaction
    is not found.  [dm_built] counts the transactions signed. *)
Record Demo : Type := mkDemo {
  dm_clock : Z;
  dm_height : Z;
  dm_built : nat;
  dm_sends : list (RpcErrorClass * text);
  dm_lookups : list (TxValue + RpcErrorClass * text);
  dm_bundles : list BundleReply;
}.

Definition demo_call (m : RpcMethod) (i : nat) (w : Demo) : (reply m + RpcErrorClass * text) * Demo :=
  match m with
  | SendTransaction b =>
      match w.(dm_sends) with
      | [] => (inl b.(bt_signature), w)
      | f :: rest => (inr f, mkDemo w.(dm_clock) w.(dm_height) w.(dm_built) rest w.(dm_lookups) w.(dm_bundles))
      end
  | GetTransaction _ =>
      match w.(dm_lookups) with
      | [] => (inl TvNull, w)
      | a :: rest => (a, mkDemo w.(dm_clock) w.(dm_height) w.(dm_built) w.(dm_sends) rest w.(dm_bundles))
      end
  | GetBlockHeight => (inl w.(dm_height), w)
  | GetLatestBlockhash => (inl (lit "hash", 150), w)
  | SimulateTransaction _ => (inl (mkSimulationResult None [] 0), w)
  | GetRecentPrioritizationFees _ => (inl [], w)
  | IsBlockhashValid _ => (inl true, w)
  end.

(** Every transaction has a signature of its own. *)
Definition demo_signature (n : nat) : text := lit "sig" ++ [Z.of_nat n + 48].

#[export] Instance demo_network : Network Demo := {|
  net_now := dm_clock;
  net_sleep d w := mkDemo (w.(dm_clock) + Z.max d 0) w.(dm_height) w.(dm_built) w.(dm_sends) w.(dm_lookups) w.(dm_bundles);
  net_rand w := (0, w);
  net_call := demo_call;
  net_bundle _ _ w :=
    match w.(dm_bundles) with
    | [] => (BrAccepted, w)
    | r :: rest => (r, mkDemo w.(dm_clock) w.(dm_height) w.(dm_built) w.(dm_sends) w.(dm_lookups) rest)
    end;
  net_tip_floor _ _ w := (None, w);
  net_build r w :=
    (inl (mkBuiltTx (demo_signature w.(dm_built)) 200 2 (default [] r.(tr_blockhash)) None r.(tr_label) [] [] [] [] None),
     mkDemo w.(dm_clock) w.(dm_height) (S w.(dm_built)) w.(dm_sends) w.(dm_lookups) w.(dm_bundles));
|}.

#[export] Instance demo_clock : NetworkClock Demo.
Proof.
  split.
  - intros d w. cbn. lia.
  - intros w. apply Z.le_refl.
  - intros m i w. destruct m; cbn; try apply Z.le_refl;
      [destruct (dm_sends w)|destruct (dm_lookups w)]; apply Z.le_refl.
Qed.

Definition demo_pool (retries : Z) : ProviderPool :=
  mkProviderPool [Provider_new (lit "a"); Provider_new (lit "b")] 3 (30 * SECS)
    (mkRetryPolicy retries (50 * MILLIS) (2000 * MILLIS) false (1000 * MILLIS)).

Lemma route_spec_witness :
  match route 0 (demo_pool 0) 1 [1%nat] with
  | Some i => (i < 2)%nat /\ i = 0%nat
  | None => False
  end.
Proof.
  pose proof (route_spec 0 (demo_pool 0) 1 [1%nat] ltac:(done)) as Hr.
  destruct (route 0 (demo_pool 0) 1 [1%nat]) as [i|] eqn:Hi; [|by vm_compute in Hi].
  split; [apply Hr|]. vm_compute in Hi. congruence.
Defined.

Lemma confirm_terminates_witness :
  (confirm_tracked (fun t => t) 0 (lit "sig0") None (2 * SECS) (400 * MILLIS)
     (mkWire (demo_pool 0) None (mkDemo 0 0 0 [] [] []) [])).1 = CoTimeout.
Proof.
  rewrite <- (confirm_terminates (fun t => t) 0 (lit "sig0") None (2 * SECS) (400 * MILLIS)
    (mkWire (demo_pool 0) None (mkDemo 0 0 0 [] [] []) []) 100); [by vm_compute|by vm_compute|by vm_compute|].
  apply Nat.leb_le. by vm_compute.
Defined.
