(* ===== verification/BroadcastCorrect.v ===== *)
(** What one broadcast leaves on the wire ([broadcast_*] of
    [crates/solana-kit/src/execute.rs]): which sends are still undecided after
    it, and what its error says about them. *)
From stdpp Require Import prelude countable gmap list strings.
From Stdlib Require Import ZArith Lia.
From S2P Require Import Prelude.
From S2P Require Import Text.
From S2P Require Import BotCore.
From S2P Require Import BotConfig.
From S2P Require Import ExecLedger.
From S2P Require Import FeePolicy.
From S2P Require Import RpcPool.
From S2P Require Import Executor.
From S2P Require Import RpcPoolCorrect.

#[local] Open Scope Z_scope.

(** * Events *)

(** The signature of a transaction that left, if the event is a send. *)
Definition left_sig (ev : WireEvent) : option text :=
  match ev with Left s _ _ | LeftByBundle s _ => Some s | Expired _ => None end.

(** Nothing but sends of one signature. *)
Definition only (sig : text) (ev : WireEvent) : Prop := left_sig ev = Some sig.

Section Events.
Context (sanitize : text -> text).

(** The answer to a send that proves, by the code's own classification, that
    the transaction cannot land. *)
Definition refused (ev : WireEvent) : Prop :=
  match ev with
  | Left _ _ (Some (class, raw)) =>
      (from_rpc class (lit "sendTransaction" ++ lit ": " ++ sanitize raw)).(se_failure) = Definite
  | LeftByBundle _ r =>
      match bundle_error r with Some m => classify_send_error m = Definite | None => False end
  | _ => False
  end.

(** The RPC layer itself tried again at once, with the same bytes. *)
Definition retried (rp : RetryPolicy) (ev : WireEvent) (later : list WireEvent) : Prop :=
  1 <= rp.(rp_max_retries)
  /\ match ev with
     | Left s _ (Some (class, _)) =>
         retryable class = true /\ exists next rest, later = next :: rest /\ left_sig next = Some s
     | _ => False
     end.

(** What became of a send by the time [later] has happened. *)
Definition resolved (rp : RetryPolicy) (ev : WireEvent) (later : list WireEvent) : Prop :=
  match left_sig ev with
  | Some s => refused ev \/ retried rp ev later \/ Expired s ∈ later
  | None => True
  end.

(** Every send is resolved by the end. *)
Fixpoint closed (rp : RetryPolicy) (es : list WireEvent) : Prop :=
  match es with [] => True | ev :: rest => resolved rp ev rest /\ closed rp rest end.

(** Before another transaction leaves, every earlier send was resolved. *)
Definition orderly (rp : RetryPolicy) (es : list WireEvent) : Prop :=
  forall pre ev mid ev' post s s',
    es = pre ++ ev :: mid ++ ev' :: post -> left_sig ev = Some s -> left_sig ev' = Some s' ->
    s' <> s -> resolved rp ev mid.

Context (rp : RetryPolicy).

Lemma resolved_app ev mid more : resolved rp ev mid -> resolved rp ev (mid ++ more).
Proof.
  unfold resolved. destruct (left_sig ev) as [s|] eqn:Hs; [|done].
  intros [?|[[Hb Hr]|?]]; [by left| |right; right; apply elem_of_app; by left].
  right; left. split; [done|]. destruct ev as [s' i [[class raw]|]| |]; try done.
  destruct Hr as (? & next & rest & -> & ?). by split; [|exists next, (rest ++ more)].
Qed.

Lemma closed_app es1 es2 : closed rp es1 -> closed rp es2 -> closed rp (es1 ++ es2).
Proof.
  induction es1 as [|ev es1 IH]; [done|]. intros [Hr Hc] H2. split; [by apply resolved_app|by apply IH].
Qed.

(** Once its death is declared, a transaction is closed. *)
Lemma only_closed sig es : Forall (only sig) es -> closed rp (es ++ [Expired sig]).
Proof.
  induction 1 as [|ev es Hev Hes IH]; [by repeat split|]. split; [|done].
  unfold resolved. rewrite Hev. right; right. apply elem_of_app. right. by left.
Qed.

Lemma closed_at pre ev mid : closed rp (pre ++ ev :: mid) -> resolved rp ev mid.
Proof. induction pre as [|e pre IH]; [by intros [? _]|]. intros [_ ?]. by apply IH. Qed.

Lemma orderly_nil : orderly rp [].
Proof. intros pre ev mid ev' post s s' Hes. by destruct pre. Qed.

(** Two sends of a list that holds one signature only carry the same one. *)
Lemma only_two sig pre ev mid ev' post s s' :
  Forall (only sig) (pre ++ ev :: mid ++ ev' :: post) ->
  left_sig ev = Some s -> left_sig ev' = Some s' -> s' = s.
Proof.
  intros [_ [Hev [_ [Hev' _]%Forall_cons]%Forall_app]%Forall_cons]%Forall_app H1 H2.
  unfold only in *. congruence.
Qed.

Lemma orderly_app sig es1 es2 :
  closed rp es1 -> orderly rp es1 -> Forall (only sig) es2 -> orderly rp (es1 ++ es2).
Proof.
  intros Hc Ho Hs pre ev mid ev' post s s' Hes H1 H2 Hne.
  apply app_eq_inv in Hes as [(k & -> & Hk)|(k & -> & ->)];
    [|by destruct Hne; eapply only_two].
  destruct k as [|e k]; [cbn in Hk; subst es2; destruct Hne; by eapply (only_two sig [])|].
  injection Hk as <- Hk. symmetry in Hk.
  apply app_eq_inv in Hk as [(k2 & -> & Hk)|(k2 & -> & _)];
    [|by apply resolved_app; eapply closed_at].
  destruct k2 as [|e k2]; [rewrite app_nil_r in Hc; by eapply closed_at|].
  injection Hk as <- _. by eapply Ho.
Qed.

Lemma closed_orderly_only sig es : Forall (only sig) es -> orderly rp es.
Proof. by apply (orderly_app sig [] es); [|apply orderly_nil]. Qed.
End Events.

(** What the node of an RPC handle does in every answer: [sendTransaction]
    returns the first signature of the transaction it was given. *)
Class NetworkLaws (W : Type) `{Network W} : Prop := {
  net_echo : forall b i w s, (net_call (SendTransaction b) i w).1 = inl s -> s = b.(bt_signature);
}.

(** The class of a definite failure: not ambiguous, and not that of a refused
    duplicate. *)
Definition definite_class (c : FailureClass) : bool :=
  match c with TransportAmbiguous | ConfirmationTimeout | FcDuplicate => false | _ => true end.

Lemma classify_message_cases m :
  definite_class (classify_message m) = true \/ classify_message m = TransportAmbiguous.
Proof.
  unfold classify_message. destruct (list_find _ _) as [[k [ws c]]|] eqn:Hf; [|by right]. left. cbn.
  apply list_find_Some in Hf as (Hk & _). revert Hk.
  do 5 (destruct k as [|k]; [by intros [= <- <-]|]). by destruct k.
Qed.

Lemma rejection_definite m : definite_class (rejection_class m) = true.
Proof.
  unfold rejection_class. destruct (classify_message_cases m) as [Hc|Hc]; [|by rewrite Hc].
  by destruct (classify_message m).
Qed.

Definition consistent (err : SendError) : Prop :=
  err.(se_failure) = Definite -> definite_class err.(se_class) = true.

Lemma from_rpc_consistent class m : consistent (from_rpc class m).
Proof.
  destruct class; cbn; try done; [by destruct (classify_send_error m)|].
  intros _. apply rejection_definite.
Qed.

Lemma from_text_consistent m : consistent (from_text m).
Proof.
  unfold from_text, consistent. destruct (classify_send_error m); [|done].
  intros _. apply rejection_definite.
Qed.

Lemma from_text_failure m : (from_text m).(se_failure) = classify_send_error m.
Proof. unfold from_text. by destruct (classify_send_error m). Qed.

Lemma combine_consistent a b : consistent a -> consistent b -> consistent (combine_errors a b).
Proof.
  unfold consistent, combine_errors. cbn. intros Ha Hb.
  destruct (se_failure a), (se_failure b); cbn; try done. intros _.
  repeat case_bool_decide; cbn; first [done|by apply Hb].
Qed.

Lemma combine_definite a b :
  (combine_errors a b).(se_failure) = Definite ->
  a.(se_failure) = Definite /\ b.(se_failure) = Definite.
Proof. unfold combine_errors. cbn. by destruct (se_failure a), (se_failure b). Qed.

Section Broadcast.
Context {W : Type} `{Network W} (sanitize : text -> text).

(** [m] sends [b] and nothing else, and relates its result to what it sent. *)
Definition ships {A} (b : BuiltTx) (m : St (Wire W) A)
    (Q : RetryPolicy -> A -> list WireEvent -> Prop) : Prop :=
  forall w,
    (m w).2.(wr_pool).(pl_retry) = w.(wr_pool).(pl_retry)
    /\ exists es, (m w).2.(wr_log) = w.(wr_log) ++ es /\ Forall (only b.(bt_signature)) es
       /\ Q w.(wr_pool).(pl_retry) (m w).1 es.

(** Where [fair] holds, an error that is called definite leaves no send
    undecided, and the signature returned is that of the transaction. *)
Definition outcome (fair : Prop) (b : BuiltTx) (rp : RetryPolicy) (r : BroadcastResult)
    (es : list WireEvent) : Prop :=
  match r with
  | inl s => fair -> s = b.(bt_signature)
  | inr err => consistent err /\ (fair -> err.(se_failure) = Definite -> closed sanitize rp es)
  end.

Definition delivers (fair : Prop) (b : BuiltTx) (m : St (Wire W) BroadcastResult) : Prop :=
  ships b m (outcome fair b).

Lemma ships_ret {A} b (Q : RetryPolicy -> A -> list WireEvent -> Prop) a :
  (forall rp, Q rp a []) -> ships b (mret a) Q.
Proof.
  intros HQ w. split; [done|]. exists []. rewrite app_nil_r. by split_and!; [|apply Forall_nil|].
Qed.

Lemma ships_gets {A} b (f : Wire W -> A) :
  ships b (gets f) (fun _ _ es => es = []).
Proof. intros w. split; [done|]. exists []. rewrite app_nil_r. by split_and!; [|apply Forall_nil|]. Qed.

Lemma ships_bind {A B} b (m : St (Wire W) A) (k : A -> St (Wire W) B)
    (Q : RetryPolicy -> A -> list WireEvent -> Prop) (R : A -> RetryPolicy -> B -> list WireEvent -> Prop) T :
  ships b m Q -> (forall a, ships b (k a) (R a)) ->
  (forall rp a c es1 es2, Q rp a es1 -> R a rp c es2 -> T rp c (es1 ++ es2)) ->
  ships b (m ≫= k) T.
Proof.
  intros Hm Hk HT w. destruct (Hm w) as (Hr1 & es1 & Hl1 & Ho1 & HQ).
  destruct (Hk (m w).1 (m w).2) as (Hr2 & es2 & Hl2 & Ho2 & HR).
  unfold mbind, St_bind. split; [congruence|]. exists (es1 ++ es2).
  rewrite Hl2, Hl1, <- app_assoc. split_and!; [done|by apply Forall_app|].
  eapply HT; [done|]. by rewrite <- Hr1.
Qed.

Lemma ships_post {A} b (m : St (Wire W) A) (Q T : RetryPolicy -> A -> list WireEvent -> Prop) :
  ships b m Q -> (forall rp a es, Q rp a es -> T rp a es) -> ships b m T.
Proof.
  intros Hm HT w. destruct (Hm w) as (Hr & es & Hl & Ho & HQ). split; [done|].
  exists es. split_and!; [done|done|by apply HT].
Qed.

Lemma delivers_error fair b err : consistent err -> delivers fair b (mret (inr err)).
Proof. intros Hc. by apply ships_ret. Qed.

(** ** Through one handle *)

Lemma retry_loop_value {A} (Q : A -> Prop) what (op : nat -> St (Wire W) (A + RpcErrorClass * text))
    origin :
  (forall i w v, (op i w).1 = inl v -> Q v) ->
  forall budget attempt tried w v,
    (retry_loop sanitize what op origin budget attempt tried w).1 = inl v -> Q v.
Proof.
  intros Hop. induction budget as [|budget IH]; intros attempt tried w v; cbn -[backoff].
  all: pose proof (Hop (next_provider origin tried w).1 w) as Hv.
  all: destruct (op _ w) as [[v'|[class raw]] w'] eqn:Ho; cbn -[backoff] in *.
  1,3: intros [= <-]; by apply Hv.
  - done.
  - destruct (retryable class); [apply IH|done].
Qed.

Lemma retries_closed b rp early i class raw :
  Forall (fun a : nat * (RpcErrorClass * text) => retryable a.2.1 = true) early ->
  (early <> [] -> 1 <= rp.(rp_max_retries)) ->
  refused sanitize (Left b.(bt_signature) i (Some (class, raw))) ->
  closed sanitize rp (map (fun a => Left b.(bt_signature) a.1 (Some a.2)) early
                        ++ [Left b.(bt_signature) i (Some (class, raw))]).
Proof.
  intros Hall Hlen Hr. assert (1 <= rp.(rp_max_retries) \/ early = []) as [Hrp| ->];
    [destruct early; [by right|left; by apply Hlen]| |by subst; repeat split; left].
  clear Hlen. induction Hall as [|[j [c m]] early Hc _ IH]; [by repeat split; left|].
  split; [|done]. right; left. split; [done|]. split; [done|].
  destruct early as [|a early]; cbn; by do 2 eexists.
Qed.

Context (fair : Prop) {Hlaw : fair -> NetworkLaws W}.

Lemma delivers_send b origin :
  ships b (send_transaction_classified sanitize b origin) (fun rp r => outcome fair b rp (rpc_result r)).
Proof.
  intros w. destruct (send_spec sanitize b origin w) as (Hr & es & Hl & [(early & i & last & -> & Hlen & Hall & Hlast)]).
  split; [done|]. eexists. split_and!; [done| |].
  - apply Forall_app. split; [|by repeat constructor]. apply Forall_fmap, Forall_true. by intros [? ?].
  - destruct (send_transaction_classified sanitize b origin w) as [[s|f] w'] eqn:Hs; cbn in *.
    + intros Hfair. destruct (Hlaw Hfair) as [Hecho].
      eapply (retry_loop_value (fun s => s = bt_signature b)); [|by unfold send_transaction_classified, retry_classified in Hs; rewrite Hs].
      intros j v s'. by apply Hecho.
    + destruct last as [[class raw]|]; [|done]. destruct Hlast as [-> ->].
      split; [apply from_rpc_consistent|]. intros _ Hd. apply retries_closed; [done| |done].
      intros Hne. destruct early; [done|]. cbn in Hlen.
      unfold max_attempts, saturating_add, u32_max in Hlen. lia.
Qed.

(** The sends that a fan-out leaves behind. *)
Lemma ships_abandoned b rest :
  ships b (modify (fun w => foldl (fun w j => with_log (Left b.(bt_signature) j (Some (RcTimeout, []))) w)
                              w rest)) (fun _ _ _ => True).
Proof.
  intros w. unfold modify. cbn [fst snd].
  induction rest as [|j rest IH] using rev_ind.
  { split; [done|]. exists []. rewrite app_nil_r. by split_and!; [|apply Forall_nil|]. }
  rewrite foldl_app. destruct IH as (Hr & es & Hl & Ho & _). split; [done|].
  exists (es ++ [Left b.(bt_signature) j (Some (RcTimeout, []))]). cbn. rewrite Hl, <- app_assoc.
  split_and!; [done| |done]. apply Forall_app. split; [done|]. by apply Forall_singleton.
Qed.

Definition fanout_post (b : BuiltTx) (ambiguous : bool) (rp : RetryPolicy) (r : BroadcastResult)
    (es : list WireEvent) : Prop :=
  outcome fair b rp r es
  /\ forall err, r = inr err -> err.(se_failure) = Definite -> ambiguous = false.

Lemma delivers_fanout_loop b eps last ambiguous :
  (forall err, last = Some err -> consistent err) ->
  ships b (fanout_loop sanitize b eps last ambiguous) (fanout_post b ambiguous).
Proof.
  revert last ambiguous. induction eps as [|i eps IH]; intros last ambiguous Hlast; cbn [fanout_loop].
  - assert (Hc : consistent (default (from_text (lit "fanout: no endpoints configured")) last))
      by (destruct last; [by apply Hlast|apply from_text_consistent]).
    apply ships_ret. intros rp. split.
    + by destruct ambiguous.
    + intros err [= <-]. by destruct ambiguous.
  - eapply (ships_bind _ _ _ _ (fun r rp c es =>
              match rpc_result r with
              | inl s => c = inl s
              | inr err => fanout_post b (ambiguous || bool_decide (err.(se_failure) = Ambiguous)) rp c es
              end)); [apply delivers_send|intros r|].
    + assert (Hcons : forall err, rpc_result r = inr err -> consistent err).
      { destruct r as [s|f]; [done|]. intros err [= <-]. apply from_rpc_consistent. }
      destruct (rpc_result r) as [s|err].
      * eapply (ships_bind _ _ _ _ (fun _ _ c _ => c = inl s));
          [apply ships_abandoned|intros ?; by apply ships_ret|done].
      * apply IH. intros err' [= <-]. by apply Hcons.
    + intros rp r c es1 es2 H1 H2. cbn beta in *. destruct (rpc_result r) as [s|err].
      * subst c. split; [done|by intros err [=]].
      * destruct H1 as [Hc1 Hcl1], H2 as [Ho2 Hd2]. split; [|intros err' Herr Hd;
          by destruct (orb_false_elim _ _ (Hd2 err' Herr Hd))].
        destruct c as [s|err']; [done|]. destruct Ho2 as [Hc2 Hcl2]. split; [done|].
        intros Hf Hd. specialize (Hd2 err' eq_refl Hd). apply orb_false_elim in Hd2 as [_ Ha].
        apply closed_app; [|by apply Hcl2]. apply Hcl1; [done|].
        destruct (se_failure err); [done|]. by rewrite bool_decide_eq_true_2 in Ha.
Qed.

Lemma delivers_rpc e b : delivers fair b (broadcast_rpc sanitize e b).
Proof.
  unfold broadcast_rpc. destruct (ep_fanout (ex_policy e)).
  - unfold broadcast_fanout. eapply ships_bind; [apply ships_gets|intros eps|].
    + eapply delivers_fanout_loop. intros err. by discriminate.
    + intros rp eps c es1 es2 -> [? _]. done.
  - eapply (ships_bind _ _ _ _ (fun r rp c es =>
              match rpc_result r with
              | inl s => c = inl s
              | inr err => consistent err ->
                           outcome fair b rp c es
                           /\ forall err', c = inr err' -> err'.(se_failure) = Definite ->
                                err.(se_failure) = Definite
              end)); [apply delivers_send|intros r|].
    + destruct (rpc_result r) as [s|err]; [by apply ships_ret|].
      eapply (ships_bind _ _ _ _ (fun next rp c es => consistent err -> outcome fair b rp c es
                           /\ forall err', c = inr err' -> err'.(se_failure) = Definite ->
                                err.(se_failure) = Definite)); [apply ships_gets|intros [j|]|].
      * eapply (ships_bind _ _ _ _ (fun r' rp c es => es = [] /\ c = match rpc_result r' with
                  | inl s => inl s | inr f => inr (combine_errors err f) end));
          [apply delivers_send|intros r'; by apply ships_ret|].
        intros rp r' c es1 es2 H1 [-> ->] Hc. cbn beta in *. rewrite app_nil_r.
        destruct (rpc_result r') as [s|f]; [by split|]. destruct H1 as [Hf Hcl]. split.
        { split; [by apply combine_consistent|]. intros Hfair [_ Hd]%combine_definite. by apply Hcl. }
        intros err' [= <-] [? _]%combine_definite. done.
      * apply ships_ret. intros rp Hc. split; [by split|]. by intros err' [= <-].
      * intros rp next c es1 es2 ->. done.
    + intros rp r c es1 es2 H1 H2. cbn beta in *. destruct (rpc_result r) as [s|err]; [by subst|].
      destruct H1 as [Hc Hcl]. destruct (H2 Hc) as [Ho Hd]. destruct c as [s|err']; [done|].
      destruct Ho as [? Hcl2]. split; [done|]. intros Hf Hdef. apply closed_app; [|by apply Hcl2].
      apply Hcl; [done|by eapply Hd].
Qed.

Lemma ships_bundle b url :
  ships b (r ← on_net (net_bundle url b); modify (with_log (LeftByBundle b.(bt_signature) r)) ;;
           mret (match bundle_error r with None => inl b.(bt_signature) | Some m => inr (from_text m) end))
    (outcome fair b).
Proof.
  intros w. unfold mbind, St_bind, on_net, modify, mret, St_ret. cbn [fst snd].
  destruct (net_bundle url b (wr_net w)) as [r n]. cbn [fst snd].
  split; [done|]. exists [LeftByBundle b.(bt_signature) r].
  split_and!; [done|by apply Forall_singleton|].
  destruct (bundle_error r) as [m|] eqn:He; cbn -[from_text]; [|done].
  split; [apply from_text_consistent|]. intros _ Hd. split; [|done]. left. cbn -[classify_send_error].
  by rewrite He, <- from_text_failure.
Qed.

Lemma delivers_jito e b tip : delivers fair b (broadcast_jito e b tip).
Proof.
  unfold broadcast_jito. destruct (ep_jito_url (ex_policy e)) as [url|];
    [|apply delivers_error, from_text_consistent].
  destruct (tip =? 0); [apply delivers_error, from_text_consistent|]. apply ships_bundle.
Qed.

(** ** Every mode *)

(** The modes in which a transaction takes one route. *)
Definition single_route (e : Executor) : Prop :=
  match e.(ex_policy).(ep_broadcast) with BmRpc | BmJito => True | _ => False end.

Definition routed (e : Executor) (b : BuiltTx) := outcome (single_route e /\ fair) b.

Lemma delivers_routed e b m : delivers fair b m -> ships b m (routed e b).
Proof.
  intros Hm. eapply ships_post; [exact Hm|]. intros rp [s|err] es; cbn.
  - intros Hs [_ ?]. by apply Hs.
  - intros [? Hc]. split; [done|]. intros [_ ?]. by apply Hc.
Qed.

(** On the other routes only the failure class matters. *)
Lemma routed_both e b rp r es :
  ~ single_route e -> match r with inl _ => True | inr err => consistent err end -> routed e b rp r es.
Proof. intros Hn Hr. destruct r; cbn; [by intros [? _]|]. split; [done|by intros [? _]]. Qed.

Lemma ships_race e b tip : ~ single_route e -> ships b (broadcast_race sanitize e b tip) (routed e b).
Proof.
  intros Hn. unfold broadcast_race.
  eapply (ships_bind _ _ _ _ (fun _ => routed e b)); [apply delivers_jito|intros jito|].
  2:{ intros rp jito c es1 es2 _ H2. apply routed_both; [done|]. destruct c; [done|]. by destruct H2. }
  eapply (ships_bind _ _ _ _ (fun rpc _ c _ => c = match jito, rpc with
        | inl s, _ => inl s | inr _, inl s => inl s | inr _, inr err => inr err end));
    [apply delivers_rpc|intros rpc; apply ships_ret; by destruct jito, rpc|].
  cbn beta. intros rp rpc c es1 es2 H1 ->. apply routed_both; [done|]. destruct jito; [done|].
  destruct rpc; [done|]. by destruct H1.
Qed.

Lemma ships_jito_then_rpc e b tip :
  ~ single_route e -> ships b (broadcast_jito_then_rpc sanitize e b tip) (routed e b).
Proof.
  intros Hn. unfold broadcast_jito_then_rpc.
  eapply (ships_bind _ _ _ _ (fun _ => routed e b)); [apply delivers_jito|intros [s|err]|].
  - apply ships_ret. intros rp. by apply routed_both.
  - apply delivers_routed, delivers_rpc.
  - cbn beta. intros rp r c es1 es2 _ H2. apply routed_both; [done|]. destruct c; [done|]. by destruct H2.
Qed.

Lemma ships_broadcast e b tip : ships b (broadcast sanitize e b tip) (routed e b).
Proof.
  unfold broadcast. destruct (ep_broadcast (ex_policy e)) eqn:Hm.
  - apply delivers_routed, delivers_rpc.
  - apply delivers_routed, delivers_jito.
  - apply ships_jito_then_rpc. unfold single_route. rewrite Hm. tauto.
  - apply ships_race. unfold single_route. rewrite Hm. tauto.
Qed.

Lemma ships_prebuilt e b : ships b (broadcast_prebuilt sanitize e b) (routed e b).
Proof.
  unfold broadcast_prebuilt. destruct (ep_broadcast (ex_policy e)) eqn:Hm;
    [apply delivers_routed, delivers_rpc|..]; destruct (bt_instructions b);
    try apply delivers_routed, delivers_rpc.
  - apply delivers_routed, delivers_jito.
  - apply ships_jito_then_rpc. unfold single_route. rewrite Hm. tauto.
  - apply ships_race. unfold single_route. rewrite Hm. tauto.
Qed.
End Broadcast.
