(* ===== verification/ExecutorCorrect.v ===== *)
(** What a run of the executor guarantees: nothing leaves the process before
    the ledger knows it, the result and the ledger agree, and a second
    transaction leaves only when the first one is out of the way.  A run is one
    sequence of steps; other runs are before or after it. *)
From stdpp Require Import prelude countable gmap list strings pretty.
From Stdlib Require Import ZArith Lia.
From S2P Require Import Prelude.
From S2P Require Import BotCore.
From S2P Require Import Text.
From S2P Require Import Models.
From S2P Require Import BotConfig.
From S2P Require Import LedgerEvent.
From S2P Require Import ExecLedger.
From S2P Require Import ExecLedgerCorrect.
From S2P Require Import FeePolicy.
From S2P Require Import RpcPool.
From S2P Require Import Executor.
From S2P Require Import RpcPoolCorrect.
From S2P Require Import BroadcastCorrect.

#[local] Open Scope Z_scope.

(** * One record of the ledger *)

(** The state of a record, and its signature when that matters. *)
Definition is_in (s : ExecutionState) (sig : option text) (r : ExecutionRecord) : Prop :=
  r.(x_state) = s /\ match sig with Some g => r.(x_signature) = Some g | None => True end.

Definition has (id : text) (R : ExecutionRecord -> Prop) (l : ExecutionLedger) : Prop :=
  ledger_inv l /\ exists r, l.(records) !! id = Some r /\ R r.

Lemma has_weaken id (R R' : ExecutionRecord -> Prop) l :
  (forall r, R r -> R' r) -> has id R l -> has id R' l.
Proof. intros HR (Hi & r & Hr & ?). split; [done|]. exists r. auto. Qed.

Lemma moved_signature now to failure r : (moved now to failure r).(x_signature) = r.(x_signature).
Proof. unfold moved. by destruct failure as [[? ?]|], to. Qed.

Lemma apply_has now id to failure reason s sig l :
  exec_can_transition_to s to = true -> has id (is_in s sig) l ->
  has id (is_in to sig) (apply now id to failure reason l).2.
Proof.
  intros Hs (Hi & r & Hr & Hst & Hsig). split; [by apply apply_inv|].
  unfold apply. rewrite Hr, Hst, Hs. cbn. exists (moved now to failure r).
  rewrite lookup_insert, decide_True by done. split; [done|].
  split; [apply moved_state|]. destruct sig; [|done]. by rewrite moved_signature.
Qed.

Lemma fail_has now id c err s sig l :
  s = terminal_state c \/ exec_can_transition_to s (terminal_state c) = true ->
  has id (is_in s sig) l -> has id (is_in (terminal_state c) sig) (fail now id c err l).2.
Proof.
  intros Hs Hl. unfold fail. destruct Hl as (Hi & r & Hr & Hst & Hsig). rewrite Hr.
  destruct (decide (x_state r = terminal_state c)) as [He|Hne].
  - cbn. split.
    + refine (ledger_inv_update l id r (annotated now c err r) _ _ Hi Hr eq_refl _).
      exact (li_attempts _ Hi _ _ Hr).
    + exists (annotated now c err r). cbn. rewrite lookup_insert, decide_True by done.
      split; [done|]. split; [done|]. by destruct sig.
  - eapply apply_has; [|by split; [|exists r]]. destruct Hs as [Hs|]; [|done]. by destruct Hne; rewrite Hst.
Qed.

Lemma attach_has now id sig bh h fee s l :
  has id (is_in s None) l -> has id (is_in s (Some sig)) (attach_submission now id sig bh h fee l).2.
Proof.
  intros (Hi & r & Hr & Hst & _). unfold attach_submission. rewrite Hr. cbn. split.
  - refine (ledger_inv_update l id r (submitted now sig bh h fee r) _ _ Hi Hr eq_refl _).
    exact (li_attempts _ Hi _ _ Hr).
  - eexists. cbn. rewrite lookup_insert, decide_True by done. by split.
Qed.

Lemma fee_has id fee s l : has id (is_in s None) l -> has id (is_in s None) (set_priority_fee id fee l).
Proof.
  intros (Hi & r & Hr & Hst & _). unfold set_priority_fee, set_records. split.
  - rewrite alter_alt, Hr. refine (ledger_inv_update l id r (with_fee fee r) _ _ Hi Hr eq_refl _).
    exact (li_attempts _ Hi _ _ Hr).
  - exists (with_fee fee r). cbn. by rewrite lookup_alter, decide_True, Hr.
Qed.

(** A [begin] either refuses and changes nothing, or leaves the attempt
    created; it refuses nothing that may be re-armed. *)
Lemma begin_spec now i l :
  ledger_inv l ->
  let id := i.(xi_intent_id) in
  match begin now i l with
  | (Ok (Duplicate r), l') => l' = l /\ l.(records) !! id = Some r /\ can_rearm r = false
  | (Ok _, l') => has id (is_in ExCreated None) l' /\ is_empty (trim id) = false
                  /\ forall r, l.(records) !! id = Some r -> can_rearm r = true
  | (_, l') => l' = l /\ is_empty (trim id) = true
  end.
Proof.
  intros Hi id. destruct (begin now i l) as [o l'] eqn:Hb.
  assert (Hi' : ledger_inv l') by (replace l' with (begin now i l).2 by (by rewrite Hb); by apply begin_inv).
  unfold begin in Hb. fold id in Hb. destruct (is_empty (trim id)) eqn:He; [injection Hb as <- <-; by split|].
  assert (Hlive : forall q r, r.(x_state) = ExCreated -> ledger_inv (with_fifo q (set_records (<[id := r]> l.(records)) l)) ->
    (evict_if_needed (with_fifo q (set_records (<[id := r]> l.(records)) l))).(records) !! id = Some r).
  { intros q r Hst Hq. apply (tr_live _ _ (proj1 (proj2 (evict_if_needed_spec _ Hq)))).
    - cbn. by rewrite lookup_insert, decide_True.
    - by rewrite Hst. }
  destruct (records l !! id) as [r|] eqn:Hr; [destruct (can_rearm r) eqn:Hc|];
    injection Hb as <- <-; [|by split_and!|].
  - split_and!; [|done|by intros ? [= <-]]. split; [done|].
    exists (rearmed now r). split; [|by split]. apply (Hlive l.(x_fifo)); [done|].
    refine (begun_inv now i l (rearmed now r) l.(x_fifo) (Rearmed (rearmed now r)) (mkExecutionTransition id (Some r.(x_state)) ExCreated 1 None None None now) Hi _).
    left. by exists r.
  - split_and!; [|done|done]. split; [done|].
    exists (ExecutionRecord_new now i). split; [|by split]. apply (Hlive (l.(x_fifo) ++ [id])); [done|].
    refine (begun_inv now i l (ExecutionRecord_new now i) _ (Fresh (ExecutionRecord_new now i)) (mkExecutionTransition id None ExCreated 1 None None None now) Hi _).
    by right.
Qed.

(** * The trace of a run *)

(** A transaction leaves while its attempt is on record as submitted under its
    own signature. *)
Definition write_ahead (id : text) (p : ExecutionLedger * WireEvent) : Prop :=
  match left_sig p.2 with
  | Some s => exists r, p.1.(records) !! id = Some r /\ r.(x_state) = ExSubmitted
                        /\ r.(x_signature) = Some s
  | None => True
  end.

(** The states a result of a run may leave on record. *)
Definition final_states (s : ExecStatus) : list ExecutionState :=
  match s with
  | EsConfirmed | EsPaperFilled => [ExConfirmed]
  | EsSent | EsSendUnknown => [ExPending]
  | EsSendFailed => [ExFailed; ExExpired]
  | EsSimulationFailed | EsLandedFailed | EsSkipped => [ExFailed]
  end.

Lemma definite_state c :
  definite_class c = true -> terminal_state c ∈ [ExFailed; ExExpired].
Proof. destruct c; cbn; try done; intros _; set_solver. Qed.

Section Run.
Context {W : Type} `{Network W} {libs : LedgerLibs} (sanitize : text -> text)
  (digest_hex : list Z -> text).
Context (fair : Prop) {Hlaw : fair -> NetworkLaws W} (e : Executor) (id : text) (rp : RetryPolicy)
  (t0 : list (ExecutionLedger * WireEvent)).

Definition sound : Prop := single_route e /\ fair.

(** The events since the start: what holds of every run, what holds between two
    attempts, and while one transaction is out. *)
Record told (es : list (ExecutionLedger * WireEvent)) : Prop := mkTold {
  to_ahead : Forall (write_ahead id) es;
  to_orderly : sound -> orderly sanitize rp (map snd es);
}.

Record settled_so_far (es : list (ExecutionLedger * WireEvent)) : Prop := mkSettled {
  se_told : told es;
  se_closed : sound -> closed sanitize rp (map snd es);
}.

Definition out (sig : text) (es : list (ExecutionLedger * WireEvent)) : Prop :=
  exists es1 es2, es = es1 ++ es2 /\ settled_so_far es1 /\ Forall (write_ahead id) es2
                  /\ (sound -> Forall (only sig) (map snd es2)).

Lemma out_told sig es : out sig es -> told es.
Proof.
  intros (es1 & es2 & -> & [[Ha Ho] Hc] & Ha2 & Hs). split; [by apply Forall_app|].
  intros Hsd. rewrite map_app. eapply orderly_app; eauto.
Qed.

Lemma settled_out sig es : settled_so_far es -> out sig es.
Proof. intros Hs. exists es, []. rewrite app_nil_r. by split_and!; [| |apply Forall_nil|intros _; apply Forall_nil]. Qed.

(** A death declared last resolves nothing that had to be resolved before. *)
Lemma orderly_snoc es s : orderly sanitize rp es -> orderly sanitize rp (es ++ [Expired s]).
Proof.
  intros Ho pre ev mid ev' post s1 s2 Heq H1 H2 Hne.
  destruct post as [|p post _] using rev_ind.
  - change (pre ++ ev :: mid ++ [ev']) with (pre ++ [ev] ++ mid ++ [ev']) in Heq.
    rewrite !app_assoc in Heq. by apply app_inj_tail in Heq as [_ <-].
  - replace (pre ++ ev :: mid ++ ev' :: post ++ [p]) with ((pre ++ ev :: mid ++ ev' :: post) ++ [p])
      in Heq by (rewrite <- app_assoc; cbn; by rewrite <- app_assoc).
    apply app_inj_tail in Heq as [Heq _]. by eapply Ho.
Qed.

Lemma out_expired sig es l : out sig es -> settled_so_far (es ++ [(l, Expired sig)]).
Proof.
  intros Hout. pose proof (out_told _ _ Hout) as [Ha Ho].
  destruct Hout as (es1 & es2 & -> & [[Ha1 Ho1] Hc1] & Ha2 & Hs). split; [split|].
  - apply Forall_app. split; [done|]. by apply Forall_singleton.
  - intros Hsd. rewrite map_app. by apply orderly_snoc, Ho.
  - intros Hsd. rewrite !map_app, <- app_assoc. apply closed_app; [by apply Hc1|].
    by apply only_closed, Hs.
Qed.

(** ** Assertions on the state of the executors *)

Definition holds (R : ExecutionRecord -> Prop)
    (P : list (ExecutionLedger * WireEvent) -> Prop) (x : Exec W) : Prop :=
  has id R x.(xs_ledger) /\ x.(xs_wire).(wr_pool).(pl_retry) = rp
  /\ exists es, x.(xs_trace) = t0 ++ es /\ P es.

Lemma holds_weaken (R R' : ExecutionRecord -> Prop) (P P' : _ -> Prop) x :
  (forall r, R r -> R' r) -> (forall es, P es -> P' es) -> holds R P x -> holds R' P' x.
Proof.
  intros HR HP (Hl & Hp & es & Ht & Hes). split; [by eapply has_weaken|]. split; [done|]. eauto.
Qed.

Lemma hoare_ledger {A} R R' P (f : Z -> ExecutionLedger -> A * ExecutionLedger) :
  (forall now l, has id R l -> has id R' (f now l).2) ->
  hoare (holds R P) (on_ledger f) (fun _ => holds R' P).
Proof. intros Hf x (Hl & Hp & Ht). split; [by apply Hf|done]. Qed.

Lemma hoare_mark s sig to reason P :
  exec_can_transition_to s to = true ->
  hoare (holds (is_in s sig) P) (mark id to reason) (fun _ => holds (is_in to sig) P).
Proof. intros Hs. apply hoare_ledger. intros now l Hl. cbn. by eapply apply_has. Qed.

Lemma hoare_mark_failed s sig c err P :
  s = terminal_state c \/ exec_can_transition_to s (terminal_state c) = true ->
  hoare (holds (is_in s sig) P) (mark_failed id c err) (fun _ => holds (is_in (terminal_state c) sig) P).
Proof. intros Hs. apply hoare_ledger. intros now l Hl. cbn. by eapply fail_has. Qed.

Lemma hoare_silent {A} R P (m : St (Wire W) A) :
  silent m -> hoare (holds R P) (on_wire m) (fun _ => holds R P).
Proof.
  intros Hm x (Hl & Hp & es & Ht & Hes). destruct (Hm (quiet x.(xs_wire))) as [Hr (es' & Hlog & Hno)].
  assert (es' = []) as -> by (destruct es'; [done|by apply Forall_cons in Hno as [[] _]]).
  unfold on_wire. cbn in *. split; [done|]. split; [exact (eq_trans Hr Hp)|].
  exists es. rewrite Hlog. cbn. by rewrite app_nil_r.
Qed.

Lemma hoare_state_of R P s :
  (forall r, R r -> r.(x_state) = s) ->
  hoare (holds R P) (state_of id) (fun s' x => s' = s /\ holds R P x).
Proof.
  intros HR x Hx. split; [|done]. destruct Hx as ((_ & r & Hr & HRr) & _).
  unfold state_of, gets, state_in. cbn. rewrite Hr. by apply HR.
Qed.

(** ** Steps that change nothing the assertions see *)

Definition neutral {A} (m : St (Exec W) A) : Prop :=
  forall R P, hoare (holds R P) m (fun _ => holds R P).

Lemma neutral_ret {A} (a : A) : neutral (mret a).
Proof. intros R P x Hx. exact Hx. Qed.

Lemma neutral_gets {A} (f : Exec W -> A) : neutral (gets f).
Proof. intros R P x Hx. exact Hx. Qed.

Lemma neutral_bind {A B} (m : St (Exec W) A) (k : A -> St (Exec W) B) :
  neutral m -> (forall a, neutral (k a)) -> neutral (m ≫= k).
Proof. intros Hm Hk R P. eapply hoare_bind; [apply Hm|intros a; apply Hk]. Qed.

Lemma neutral_silent {A} (m : St (Wire W) A) : silent m -> neutral (on_wire m).
Proof. intros Hm R P. by apply hoare_silent. Qed.

Lemma neutral_fee_sample s : neutral (modify (set_fee_sample s)).
Proof. intros R P x Hx. exact Hx. Qed.

Lemma neutral_tip_sample s : neutral (modify (set_tip_sample s)).
Proof. intros R P x Hx. exact Hx. Qed.

Lemma silent_on_net {A} (f : W -> A * W) : silent (on_net f).
Proof. apply emits_on_net. Qed.

Create HintDb neutral discriminated.
#[local] Hint Resolve neutral_ret neutral_gets neutral_fee_sample neutral_tip_sample neutral_silent
  silent_fees silent_blockhash silent_retry silent_on_net : neutral.

Ltac neutral_step :=
  match goal with
  | |- neutral (mbind _ _) => apply neutral_bind; [|intros ?]
  | |- neutral (match ?x with _ => _ end) => destruct x
  | |- neutral (let _ := _ in _) => cbv zeta
  | |- _ => solve [eauto with neutral]
  end.
Ltac neutral := repeat neutral_step.

Lemma neutral_quote req : neutral (priced_quote sanitize e req).
Proof. unfold priced_quote, oracle_quote. neutral. Qed.

Lemma neutral_tip req : neutral (tip_for e req).
Proof.
  unfold tip_for, resolve_jito_tip, sample_tip. neutral.
Qed.

Lemma neutral_blockhash req attempt : neutral (blockhash_for sanitize e req attempt).
Proof. unfold blockhash_for. neutral. Qed.

Lemma neutral_simulate b : neutral (simulate_stage sanitize e b).
Proof.
  unfold simulate_stage. destruct (ep_simulate_first _); [|apply neutral_ret].
  apply neutral_bind; [|intros ?; apply neutral_ret]. apply neutral_silent, (silent_retry _ (SimulateTransaction b)).
Qed.

Lemma neutral_build req : neutral (on_wire (on_net (net_build req))).
Proof. neutral. Qed.

Lemma neutral_invalidate : neutral (on_wire invalidate_blockhash).
Proof. apply neutral_silent, silent_invalidate. Qed.

Lemma neutral_valid h : neutral (on_wire (is_blockhash_valid sanitize e.(ex_origin) h)).
Proof. apply neutral_silent, (silent_retry _ (IsBlockhashValid h)). Qed.

(** ** Broadcast and confirmation *)

Lemma hoare_send b (m : St (Wire W) BroadcastResult) :
  ships b m (outcome sanitize sound b) ->
  hoare (holds (is_in ExSubmitted (Some b.(bt_signature))) settled_so_far) (on_wire m)
    (fun r x => match r with
                | inl s => holds (is_in ExSubmitted None) (out s) x
                | inr err => consistent err
                    /\ holds (is_in ExSubmitted None)
                         (match err.(se_failure) with
                          | Definite => settled_so_far
                          | Ambiguous => out b.(bt_signature)
                          end) x
                end).
Proof.
  intros Hm x (Hl & Hp & es & Ht & Hes).
  destruct (Hm (quiet x.(xs_wire))) as (Hr & es2 & Hlog & Honly & Ho). cbn in Hr, Hlog, Ho.
  assert (Ha2 : Forall (write_ahead id) (map (pair x.(xs_ledger)) es2)).
  { apply Forall_fmap. eapply Forall_impl; [exact Honly|]. intros ev Hev. unfold write_ahead. cbn.
    rewrite Hev. destruct Hl as (_ & r & Hrec & Hst & Hsig). by exists r. }
  assert (Hsnd : map snd (map (pair x.(xs_ledger)) es2) = es2).
  { rewrite map_map. cbn. apply map_id. }
  assert (Hgrow : forall (Q : _ -> Prop), (Q (es ++ map (pair x.(xs_ledger)) es2)) ->
            holds (is_in ExSubmitted None) Q (on_wire m x).2).
  { intros Q HQ. unfold on_wire. split; [eapply has_weaken; [|exact Hl]; by intros r [? _]|].
    split; [exact (eq_trans Hr Hp)|]. eexists. cbn. rewrite Hlog. cbn. by rewrite Ht, <- app_assoc. }
  assert (Hout : forall s, (sound -> s = b.(bt_signature)) ->
            out s (es ++ map (pair x.(xs_ledger)) es2)).
  { intros s Hs. exists es, (map (pair x.(xs_ledger)) es2). split_and!; [done|done|done|].
    intros Hsd. by rewrite Hsnd, Hs. }
  change (on_wire m x).1 with (m (quiet x.(xs_wire))).1.
  destruct (m (quiet x.(xs_wire))).1 as [s|err]; [by apply Hgrow, Hout|].
  destruct Ho as [Hc Hcl]. split; [done|]. apply Hgrow.
  destruct (se_failure err) eqn:Hd; [|by apply Hout]. rewrite Hp in Hcl.
  split; [by apply out_told with b.(bt_signature), Hout|]. intros Hsd. rewrite map_app, Hsnd.
  apply closed_app; [by apply Hes|by apply Hcl].
Qed.

Lemma hoare_after_send sig send :
  hoare (fun x => match send with
                  | inl s => holds (is_in ExSubmitted None) (out s) x
                  | inr err => consistent err
                      /\ holds (is_in ExSubmitted None)
                           (match err.(se_failure) with
                            | Definite => settled_so_far
                            | Ambiguous => out sig
                            end) x
                  end)
    (after_send id sig send)
    (fun r x => match r with
                | inl (s, _) => holds (is_in ExPending None) (out s) x
                | inr err => definite_class err.(se_class) = true
                    /\ holds (is_in (terminal_state err.(se_class)) None) settled_so_far x
                end).
Proof.
  unfold after_send. destruct send as [s|err].
  - eapply hoare_seq; [by apply hoare_mark|by apply hoare_done].
  - apply hoare_pure. intros Hc. unfold consistent in Hc. destruct (se_failure err).
    + eapply hoare_seq; [apply hoare_mark_failed|].
      * right. specialize (Hc eq_refl). by destruct (se_class err).
      * apply hoare_done. intros x Hx. split; [by apply Hc|done].
    + eapply hoare_seq; [apply hoare_mark_failed; by right|by apply hoare_done].
Qed.

(** The trace after a result: only after a failed send may another follow. *)
Definition told_by (s : ExecStatus) : list (ExecutionLedger * WireEvent) -> Prop :=
  if decide (s = EsSendFailed) then settled_so_far else told.

Lemma settled_told_by s es : settled_so_far es -> told_by s es.
Proof. unfold told_by. intros Hs. case_decide; [done|by apply Hs]. Qed.

Lemma hoare_confirm s lvbh :
  hoare (holds (is_in ExPending None) (out s))
    (on_wire (confirm_tracked sanitize e.(ex_origin) s lvbh e.(ex_policy).(ep_confirm_timeout)
                e.(ex_policy).(ep_confirm_poll_interval)))
    (fun o => holds (is_in ExPending None)
                (match o with CoExpired _ _ => settled_so_far | _ => told end)).
Proof.
  intros x (Hl & Hp & es & Ht & Hes).
  match goal with |- context[on_wire ?m] => set (c := m) end.
  destruct (confirm_spec sanitize e.(ex_origin) s lvbh e.(ex_policy).(ep_confirm_timeout)
              e.(ex_policy).(ep_confirm_poll_interval) (quiet x.(xs_wire))) as [Hr Hlog].
  fold c in Hr, Hlog. cbn in Hr. change (on_wire c x).1 with (c (quiet x.(xs_wire))).1.
  split; [done|]. split; [exact (eq_trans Hr Hp)|]. unfold on_wire. cbn. rewrite Hlog. cbn.
  destruct (c (quiet (xs_wire x))).1; cbn; rewrite ?app_nil_r; eexists; rewrite Ht, <- ?app_assoc;
    (split; [done|]).
  1-3: by eapply out_told. by apply out_expired.
Qed.

Definition concluded (v : Verdict) (x : Exec W) : Prop :=
  v.(v_failure) <> Some FcDuplicate
  /\ exists st, st ∈ final_states v.(v_status) /\ holds (is_in st None) (told_by v.(v_status)) x.

Lemma hoare_settle s lvbh amb msg :
  hoare (holds (is_in ExPending None) (out s)) (settle sanitize e id s lvbh amb msg) concluded.
Proof.
  eapply hoare_bind; [apply hoare_confirm|]. intros [slot logs fee|error logs| |limit height].
  - eapply hoare_seq; [by apply hoare_mark|]. apply hoare_done. intros x Hx. split; [done|].
    exists ExConfirmed. split; [by left|done].
  - eapply hoare_seq; [by apply hoare_mark_failed; right|]. apply hoare_done. intros x Hx.
    split; [done|]. exists ExFailed. split; [by left|done].
  - eapply hoare_seq; [by apply hoare_mark_failed; left|]. apply hoare_done. intros x Hx.
    split; [done|]. exists ExPending. destruct amb; (split; [by left|done]).
  - eapply hoare_seq; [by apply hoare_mark_failed; right|]. apply hoare_done. intros x Hx.
    split; [done|]. exists ExExpired. split; [by right; left|done].
Qed.

(** The result of an attempt and the ledger agree. *)
Definition finished (r : ExecutionResult) (x : Exec W) : Prop :=
  r.(r_intent_id) = id /\ r.(r_failure) <> Some FcDuplicate
  /\ r.(r_state) ∈ final_states r.(r_status)
  /\ holds (is_in r.(r_state) None) (told_by r.(r_status)) x.

(** From the broadcast to the verdict, in a run and for a prebuilt
    transaction alike. *)
Definition deliver (b : BuiltTx) (m : St (Wire W) BroadcastResult) (lvbh : option Z)
    (msg : bool -> text) (failed : SendError -> ExecutionResult)
    (done : text -> Verdict -> ExecutionState -> ExecutionResult) : St (Exec W) ExecutionResult :=
  mark id ExSubmitted (lit "broadcast") ;;
  send ← on_wire m;
  after ← after_send id b.(bt_signature) send;
  match after with
  | inr err => mret (failed err)
  | inl (s, amb) =>
      v ← settle sanitize e id s lvbh amb (msg amb);
      st ← state_of id;
      mret (done s v st)
  end.

Lemma hoare_deliver b m lvbh msg failed done :
  ships b m (outcome sanitize sound b) ->
  (forall err x, definite_class err.(se_class) = true ->
     holds (is_in (terminal_state err.(se_class)) None) settled_so_far x -> finished (failed err) x) ->
  (forall s v st x, v.(v_failure) <> Some FcDuplicate -> st ∈ final_states v.(v_status) ->
     holds (is_in st None) (told_by v.(v_status)) x -> finished (done s v st) x) ->
  hoare (holds (is_in ExValidated (Some b.(bt_signature))) settled_so_far)
    (deliver b m lvbh msg failed done) finished.
Proof.
  intros Hm Hfailed Hdone. eapply hoare_seq; [by apply hoare_mark|].
  eapply hoare_bind; [by apply hoare_send|]. intros send.
  eapply hoare_bind; [apply hoare_after_send|]. intros [[s amb]|err].
  - eapply hoare_bind; [apply hoare_settle|]. intros v x (Hv & st & Hst & Hx).
    destruct (hoare_state_of (is_in st None) (told_by (v_status v)) st (fun r Hr => proj1 Hr) x Hx)
      as [Heq Hx']. unfold mbind, St_bind. rewrite Heq. by apply Hdone.
  - apply hoare_done. intros x [Hc Hx]. by apply Hfailed.
Qed.

Lemma finished_intro r x :
  r.(r_intent_id) = id -> r.(r_failure) <> Some FcDuplicate ->
  r.(r_state) ∈ final_states r.(r_status) -> holds (is_in r.(r_state) None) settled_so_far x ->
  finished r x.
Proof.
  intros Hi Hf Hs Hx. split_and!; [done|done|done|].
  eapply holds_weaken; [done| |exact Hx]. apply settled_told_by.
Qed.

(** ** One attempt *)

Lemma hoare_broadcast_stage b tip fee attempt label lvbh :
  hoare (holds (is_in ExValidated (Some b.(bt_signature))) settled_so_far)
    (broadcast_stage sanitize e id b tip fee attempt label lvbh) finished.
Proof.
  unfold broadcast_stage.
  pose proof (hoare_deliver b (broadcast sanitize e b tip) lvbh timeout_text
           (fun err => mkExecutionResult b.(bt_signature) EsSendFailed label b.(bt_size) []
              (Some err.(se_message)) false attempt id (terminal_state err.(se_class))
              (Some err.(se_class)) fee)
           (fun s v st => mkExecutionResult s v.(v_status) label b.(bt_size) v.(v_logs) v.(v_error)
              false attempt id st v.(v_failure) fee)) as Hd.
  cbv beta delta [deliver] in Hd. apply Hd; clear Hd.
  - by apply ships_broadcast.
  - intros err x Hc Hx. apply finished_intro; [done| |by apply definite_state|exact Hx].
    cbn. intros [= Hd]. by rewrite Hd in Hc.
  - intros s v st x Hf Hst Hx. by split_and!.
Qed.

Lemma hoare_signed_stage b tip fee attempt label height :
  hoare (holds (is_in ExCreated None) settled_so_far)
    (signed_stage sanitize e id b tip fee attempt label height) finished.
Proof.
  eapply hoare_seq; [apply hoare_ledger; intros now l; cbn; apply attach_has|].
  eapply hoare_seq; [by apply hoare_mark|].
  eapply hoare_bind; [apply neutral_simulate|]. intros [[err logs]|].
  - eapply hoare_seq; [apply hoare_mark_failed; by right|]. apply hoare_done. intros x Hx.
    apply finished_intro; [done|done|by left|]. by eapply holds_weaken; [|done|exact Hx]; intros r [? _].
  - destruct (is_paper e); [|apply hoare_broadcast_stage].
    eapply hoare_seq; [apply hoare_mark; done|]. apply hoare_done. intros x Hx.
    apply finished_intro; [done|done|by left|]. by eapply holds_weaken; [|done|exact Hx]; intros r [? _].
Qed.

Lemma hoare_run_once req attempt :
  hoare (holds (is_in ExCreated None) settled_so_far) (run_once sanitize e req id attempt)
    (fun o x => match o with
                | inl r => finished r x
                | inr _ => holds (is_in ExCreated None) settled_so_far x
                end).
Proof.
  unfold run_once. eapply hoare_bind; [apply neutral_quote|]. intros quote. cbv zeta.
  destruct (fd_refused _).
  { eapply hoare_seq; [apply hoare_mark_failed; by right|]. apply hoare_done. intros x Hx.
    apply finished_intro; [done|done|by left|exact Hx]. }
  eapply hoare_seq; [apply hoare_ledger; intros now l; cbn; apply fee_has|].
  eapply hoare_bind; [apply neutral_tip|]. intros tip.
  eapply hoare_bind; [apply neutral_blockhash|]. intros [[hash height]|err]; [|by apply hoare_done].
  eapply hoare_bind; [apply neutral_build|]. intros [b|err]; [|by apply hoare_done].
  eapply hoare_bind; [apply hoare_signed_stage|]. intros r. by apply hoare_done.
Qed.

Lemma recorded_class_definite msg : definite_class (recorded_class msg) = true.
Proof.
  unfold recorded_class. destruct (classify_message_cases msg) as [Hc|Hc].
  - by destruct (is_transient msg), (classify_message msg).
  - rewrite Hc. by destruct (is_transient msg).
Qed.

(** What a run that started an attempt hands back. *)
Definition handed (o : ExecutionResult + text) (x : Exec W) : Prop :=
  match o with
  | inl r => finished r x
  | inr _ => exists st, st ∈ [ExFailed; ExExpired] /\ holds (is_in st None) settled_so_far x
  end.

(** An attempt that asks for another one left a record that may be re-armed. *)
Definition again (x : Exec W) : Prop :=
  exists st, st ∈ [ExFailed; ExExpired] /\ holds (is_in st None) settled_so_far x.

Lemma finished_retry r c x : finished r x -> retry_class r = Some c -> again x.
Proof.
  intros (_ & _ & Hst & Hx) Hc. unfold retry_class in Hc.
  destruct (r_failure r) as [f|]; [|done]. destruct (r_status r) eqn:Hs; try done.
  exists (r_state r). by split.
Qed.

Lemma hoare_attempt_once req attempt last :
  hoare (holds (is_in ExCreated None) settled_so_far)
    (attempt_once sanitize e req id attempt last)
    (fun o x => match o with
                | Some o => handed o x
                | None => last = false /\ again x
                end).
Proof.
  eapply hoare_bind; [apply hoare_run_once|]. intros [r|msg].
  - apply hoare_done. intros x Hx. destruct (retry_class r) eqn:Hc; [|done].
    destruct last; [done|]. split; [done|by eapply finished_retry].
  - eapply hoare_bind; [apply (hoare_state_of _ _ ExCreated); by intros r [? _]|]. intros st.
    apply hoare_pure. intros ->. cbn [is_live].
    eapply hoare_seq.
    { apply hoare_mark_failed. right. pose proof (recorded_class_definite msg) as Hd.
      by destruct (recorded_class msg). }
    apply hoare_done. intros x Hx.
    assert (Hg : again x).
    { eexists. split; [apply definite_state, (recorded_class_definite msg)|exact Hx]. }
    destruct (is_transient msg && negb last) eqn:Ht; [|done].
    apply andb_true_iff in Ht as [_ Hl]. by apply negb_true_iff in Hl.
Qed.

Lemma begin_again i :
  i.(xi_intent_id) = id -> is_empty (trim id) = false ->
  hoare again (begin_intent i)
    (fun o x => match o with
                | inl (Fresh _ | Rearmed _) => holds (is_in ExCreated None) settled_so_far x
                | _ => False
                end).
Proof.
  intros Hid Hne x (st & Hst & (Hi & r & Hr & Hs & _) & Hp & Ht).
  pose proof (begin_spec (exec_now x) i x.(xs_ledger) Hi) as Hb.
  cbv zeta in Hb. rewrite Hid in Hb.
  unfold begin_intent, on_ledger, mbind, St_bind, mret, St_ret. cbn [fst snd].
  destruct (begin (exec_now x) i (xs_ledger x)) as [o l']. cbn [fst snd].
  destruct o as [[r'|r'|r']|err|]; try (destruct Hb as (_ & Hb); congruence).
  - destruct Hb as (Hh & _). exact (conj Hh (conj Hp Ht)).
  - destruct Hb as (Hh & _). exact (conj Hh (conj Hp Ht)).
  - destruct Hb as (_ & Hr' & Hc). assert (r = r') as <- by congruence. unfold can_rearm in Hc.
    rewrite Hs in Hc. apply elem_of_cons in Hst as [->|Hst]; [done|]. by apply list_elem_of_singleton in Hst as ->.
Qed.

Lemma hoare_attempts_loop req i :
  i.(xi_intent_id) = id -> is_empty (trim id) = false ->
  forall more attempt,
    hoare (holds (is_in ExCreated None) settled_so_far)
      (attempts_loop sanitize e req i more attempt) handed.
Proof.
  intros Hid Hne. induction more as [|more IH]; intros attempt; cbn [attempts_loop]; rewrite Hid;
    (eapply hoare_bind; [apply hoare_attempt_once|]); intros [o|]; try by apply hoare_done.
  - by apply hoare_done; intros x [? _].
  - apply hoare_pure. intros _. eapply hoare_bind with (R := fun _ => again).
    + intros x (st & Hst & Hx). exists st. split; [done|]. by apply neutral_invalidate.
    + intros []. eapply hoare_bind; [by apply begin_again|].
      intros [[r|r|r]|err]; try apply IH; by intros x [].
Qed.

(** ** A prebuilt transaction *)

Lemma hoare_prebuilt_stage b :
  hoare (holds (is_in ExValidated (Some b.(bt_signature))) settled_so_far)
    (prebuilt_stage sanitize e b id) finished.
Proof.
  unfold prebuilt_stage.
  pose proof (hoare_deliver b (broadcast_prebuilt sanitize e b) b.(bt_last_valid_block_height)
           (fun _ => lit "confirmation timed out")
           (fun err => mkExecutionResult b.(bt_signature) EsSendFailed b.(bt_label) b.(bt_size) []
              (Some err.(se_message)) false 1 id (terminal_state err.(se_class))
              (Some err.(se_class)) 0)
           (fun s v st => mkExecutionResult s v.(v_status) b.(bt_label) b.(bt_size) v.(v_logs)
              v.(v_error) false 1 id st v.(v_failure) 0)) as Hd.
  cbv beta delta [deliver] in Hd. apply Hd; clear Hd.
  - by apply ships_prebuilt.
  - intros err x Hc Hx. apply finished_intro; [done| |by apply definite_state|exact Hx].
    cbn. intros [= Hd]. by rewrite Hd in Hc.
  - intros s v st x Hf Hst Hx. by split_and!.
Qed.

(** What follows the [begin] of [send_prebuilt]. *)
Definition prebuilt_rest (b : BuiltTx) : St (Exec W) (ExecutionResult + text) :=
  on_ledger (fun now l => (tt, (attach_submission now id b.(bt_signature)
    (Some b.(bt_blockhash)) b.(bt_last_valid_block_height) 0 l).2)) ;;
  mark id ExValidated (lit "prebuilt") ;;
  valid ← on_wire (is_blockhash_valid sanitize e.(ex_origin) b.(bt_blockhash));
  match valid with
  | inr error =>
      let msg := lit "prebuilt transaction blockhash validity check failed; transaction not broadcast: " ++ error in
      mark_failed id FcInternal msg ;; mret (inl (unsent b id ExFailed FcInternal msg))
  | inl false =>
      let msg := lit "prebuilt transaction blockhash expired before it was sent" in
      mark_failed id BlockhashExpired msg ;;
      mret (inl (unsent b id ExExpired BlockhashExpired msg))
  | inl true => r ← prebuilt_stage sanitize e b id; mret (inl r)
  end.

Lemma hoare_prebuilt_rest b :
  hoare (holds (is_in ExCreated None) settled_so_far) (prebuilt_rest b) handed.
Proof.
  eapply hoare_seq; [apply hoare_ledger; intros now l; cbn; apply attach_has|].
  eapply hoare_seq; [by apply hoare_mark|].
  eapply hoare_bind; [apply neutral_valid|]. intros [[]|error].
  - eapply hoare_bind; [apply hoare_prebuilt_stage|]. intros r. by apply hoare_done.
  - eapply hoare_seq; [apply hoare_mark_failed; by right|]. apply hoare_done. intros x Hx.
    apply finished_intro; [done|done|by right; left|].
    by eapply holds_weaken; [|done|exact Hx]; intros r [? _].
  - eapply hoare_seq; [apply hoare_mark_failed; by right|]. apply hoare_done. intros x Hx.
    apply finished_intro; [done|done|by left|].
    by eapply holds_weaken; [|done|exact Hx]; intros r [? _].
Qed.
End Run.

(** * From the start *)

Section Start.
Context {W : Type} `{Network W} {libs : LedgerLibs} (sanitize : text -> text)
  (digest_hex : list Z -> text).

(** A computation that begins the intent [i] and goes on unless it is refused. *)
Definition guarded (i : ExecutionIntent) (dup : ExecutionRecord -> ExecutionResult)
    (go : St (Exec W) (ExecutionResult + text)) : St (Exec W) (ExecutionResult + text) :=
  started ← begin_intent i;
  match started with
  | inr err => mret (inr err)
  | inl (Duplicate rec) => mret (inl (dup rec))
  | inl _ => go
  end.

(** Nothing was done, and why. *)
Definition refused_start (id : text) (dup : ExecutionRecord -> ExecutionResult) (x : Exec W)
    (o : ExecutionResult + text) : Prop :=
  match o with
  | inl r => exists rec, r = dup rec /\ x.(xs_ledger).(records) !! id = Some rec
                         /\ can_rearm rec = false
  | inr _ => is_empty (trim id) = true
  end.

Lemma guarded_cases fair e i dup go x :
  let id := i.(xi_intent_id) in
  let Post := handed sanitize fair e id x.(xs_wire).(wr_pool).(pl_retry) x.(xs_trace) in
  ledger_inv x.(xs_ledger) ->
  (is_empty (trim id) = false ->
   hoare (holds id x.(xs_wire).(wr_pool).(pl_retry) x.(xs_trace) (is_in ExCreated None)
            (settled_so_far sanitize fair e id x.(xs_wire).(wr_pool).(pl_retry))) go Post) ->
  let o := guarded i dup go x in
  (o.2 = x /\ refused_start id dup x o.1)
  \/ (Post o.1 o.2 /\ is_empty (trim id) = false
      /\ forall r, x.(xs_ledger).(records) !! id = Some r -> can_rearm r = true).
Proof.
  intros id Post Hi Hgo. pose proof (begin_spec (exec_now x) i x.(xs_ledger) Hi) as Hb. cbv zeta in Hb.
  fold id in Hb. unfold guarded, begin_intent, on_ledger, mbind, St_bind, mret, St_ret. cbn [fst snd].
  destruct (begin (exec_now x) i (xs_ledger x)) as [o l']. cbn [fst snd].
  destruct x as [l w f t tr]. cbn in *.
  assert (Hstart : has id (is_in ExCreated None) l' ->
    holds id w.(wr_pool).(pl_retry) tr (is_in ExCreated None)
      (settled_so_far sanitize fair e id w.(wr_pool).(pl_retry)) (mkExec l' w f t tr)).
  { intros Hh. split; [exact Hh|]. split; [done|]. exists []. rewrite app_nil_r. split; [done|].
    split; [split|]; [by apply Forall_nil|intros _; apply orderly_nil|done]. }
  destruct o as [[r|r|r]|err|]; cbn.
  - right. destruct Hb as (Hh & Hne & Hre). split_and!; [|done|done]. by apply (Hgo Hne), Hstart.
  - right. destruct Hb as (Hh & Hne & Hre). split_and!; [|done|done]. by apply (Hgo Hne), Hstart.
  - left. destruct Hb as (-> & Hr & Hc). split; [done|]. by exists r.
  - left. by destruct Hb as (-> & ?).
  - left. by destruct Hb as (-> & ?).
Qed.

(** The id of a run and what it hands back once it began. *)
Definition run_id (e : Executor) (req : TxRequest) (x : Exec W) : text :=
  resolve_id digest_hex (exec_now x) e req x.(xs_ledger).

Definition vetoed (e : Executor) (req : TxRequest) (id : text) (o : ExecutionResult + text) : Prop :=
  (exists deny, denied e req = Some deny /\ o = inl (veto_result req.(tr_label) deny []))
  \/ (req.(tr_priority_fee_micro_lamports) < e.(ex_policy).(ep_min_priority_fee)
      /\ o = inl (below_minimum e req id)).

Definition handed_from (fair : Prop) (e : Executor) (id : text) (x : Exec W)
    : ExecutionResult + text -> Exec W -> Prop :=
  handed sanitize fair e id x.(xs_wire).(wr_pool).(pl_retry) x.(xs_trace).

Lemma run_cases (fair : Prop) `{Hlaw : fair -> NetworkLaws W} e req x :
  ledger_inv x.(xs_ledger) ->
  let id := run_id e req x in
  let o := run sanitize digest_hex e req x in
  (o.2 = x /\ (vetoed e req id o.1
               \/ refused_start id (duplicate_result e req.(tr_label)) x o.1))
  \/ (handed_from fair e id x o.1 o.2 /\ is_empty (trim id) = false
      /\ forall r, x.(xs_ledger).(records) !! id = Some r -> can_rearm r = true).
Proof.
  intros Hi id o. subst o. unfold run. destruct (denied e req) as [deny|] eqn:Hd.
  { left. split; [done|]. left. left. by exists deny. }
  unfold mbind at 1, St_bind at 1. unfold resolve_intent, gets. cbn [fst snd]. fold (run_id e req x).
  destruct (Z.ltb_spec (tr_priority_fee_micro_lamports req) (ep_min_priority_fee (ex_policy e))).
  { left. split; [done|]. left. by right. }
  match goal with |- context[begin_intent ?i0] => set (i := i0) end.
  destruct (guarded_cases fair e i (duplicate_result e req.(tr_label))
              (attempts_loop sanitize e req i (Z.to_nat (Z.max e.(ex_policy).(ep_max_attempts) 1 - 1)) 1)
              x Hi) as [[Hx Ho]|Hp].
  - intros Hne. by apply hoare_attempts_loop.
  - left. split; [exact Hx|]. right. exact Ho.
  - right. exact Hp.
Qed.

Definition prebuilt_id (e : Executor) (b : BuiltTx) : text := (prebuilt_intent e b).(xi_intent_id).

Lemma prebuilt_cases (fair : Prop) `{Hlaw : fair -> NetworkLaws W} e b x :
  ledger_inv x.(xs_ledger) ->
  let id := prebuilt_id e b in
  let o := send_prebuilt sanitize e b x in
  (o.2 = x /\ ((exists deny, denied_prebuilt e b = Some deny
                            /\ o.1 = inl (veto_result b.(bt_label) deny b.(bt_signature)))
               \/ (is_paper e = true /\ o.1 = inl (paper_prebuilt b))
               \/ refused_start id (duplicate_result e b.(bt_label)) x o.1))
  \/ (is_paper e = false /\ handed_from fair e id x o.1 o.2 /\ is_empty (trim id) = false
      /\ forall r, x.(xs_ledger).(records) !! id = Some r -> can_rearm r = true).
Proof.
  intros Hi id o. subst o. unfold send_prebuilt.
  destruct (denied_prebuilt e b) as [deny|] eqn:Hd.
  { left. split; [done|]. left. by exists deny. }
  destruct (is_paper e) eqn:Hpap; [by left; split; [|right; left]|].
  destruct (guarded_cases fair e (prebuilt_intent e b) (duplicate_result e b.(bt_label))
              (prebuilt_rest sanitize e id b) x Hi) as [[Hx Ho]|Hp].
  - intros Hne. by apply hoare_prebuilt_rest.
  - left. split; [exact Hx|]. right; right. exact Ho.
  - right. split; [done|]. exact Hp.
Qed.

Lemma handed_told fair e id (x : Exec W) o y :
  handed_from fair e id x o y ->
  ledger_inv y.(xs_ledger)
  /\ exists es, y.(xs_trace) = x.(xs_trace) ++ es
               /\ told sanitize fair e id x.(xs_wire).(wr_pool).(pl_retry) es.
Proof.
  unfold handed_from. intros Ho.
  assert (Hh : exists R P, holds id x.(xs_wire).(wr_pool).(pl_retry) x.(xs_trace) R P y
             /\ forall es, P es -> told sanitize fair e id x.(xs_wire).(wr_pool).(pl_retry) es).
  { destruct o as [r|msg].
    - destruct Ho as (_ & _ & _ & Hx). do 2 eexists. split; [exact Hx|]. intros es.
      unfold told_by. case_decide; [by intros [? _]|done].
    - destruct Ho as (st & _ & Hx). do 2 eexists. split; [exact Hx|]. by intros es [? _]. }
  destruct Hh as (R & P & ((Hi & _) & _ & es & Ht & Hes) & Hto). split; [done|].
  exists es. split; [done|by apply Hto].
Qed.

Lemma unchanged_told fair e id (x y : Exec W) :
  y = x -> ledger_inv x.(xs_ledger) ->
  ledger_inv y.(xs_ledger)
  /\ exists es, y.(xs_trace) = x.(xs_trace) ++ es
               /\ told sanitize fair e id x.(xs_wire).(wr_pool).(pl_retry) es.
Proof.
  intros -> Hi. split; [done|]. exists []. rewrite app_nil_r. split; [done|].
  split; [by apply Forall_nil|intros _; apply orderly_nil].
Qed.

Lemma run_told (fair : Prop) `{Hlaw : fair -> NetworkLaws W} e req x :
  ledger_inv x.(xs_ledger) ->
  let y := (run sanitize digest_hex e req x).2 in
  ledger_inv y.(xs_ledger)
  /\ exists es, y.(xs_trace) = x.(xs_trace) ++ es
               /\ told sanitize fair e (run_id e req x) x.(xs_wire).(wr_pool).(pl_retry) es.
Proof.
  intros Hi y. destruct (run_cases fair e req x Hi) as [[Hx _]|[Hp _]];
    [by apply unchanged_told|by eapply handed_told].
Qed.
End Start.
