(* ===== verification/ExecutorSafety.v ===== *)
(** The guarantees of the executor, and the inputs on which it does not keep
    what it means to: two transactions of one intent in the air at once. *)
From stdpp Require Import prelude countable gmap list strings pretty.
From Stdlib Require Import ZArith Lia.
From S2P Require Import Prelude.
From S2P Require Import BotCore.
From S2P Require Import Text.
From S2P Require Import Models.
From S2P Require Import BotConfig.
From S2P Require Import LedgerEvent.
From S2P Require Import ExecLedger.
From S2P Require Import ExecLedgerCorrect.
From S2P Require Import FeePolicy.
From S2P Require Import RpcPool.
From S2P Require Import Executor.
From S2P Require Import RpcPoolCorrect.
From S2P Require Import BroadcastCorrect.
From S2P Require Import ExecutorCorrect.

#[local] Open Scope Z_scope.

Section Properties.
Context {W : Type} `{Network W} {libs : LedgerLibs} (sanitize : text -> text)
  (digest_hex : list Z -> text).

(** ** What leaves a paper executor *)

Definition unsent_by {A} (m : St (Exec W) A) : Prop :=
  forall x, (m x).2.(xs_trace) = x.(xs_trace).

Lemma unsent_bind {A B} (m : St (Exec W) A) (k : A -> St (Exec W) B) :
  unsent_by m -> (forall a, unsent_by (k a)) -> unsent_by (m ≫= k).
Proof. intros Hm Hk x. unfold mbind, St_bind. by rewrite Hk, Hm. Qed.

Lemma unsent_ret {A} (a : A) : unsent_by (mret a).
Proof. by intros x. Qed.

Lemma unsent_gets {A} (f : Exec W -> A) : unsent_by (gets f).
Proof. by intros x. Qed.

Lemma unsent_ledger {A} (f : Z -> ExecutionLedger -> A * ExecutionLedger) : unsent_by (on_ledger f).
Proof. by intros x. Qed.

Lemma unsent_silent {A} (m : St (Wire W) A) : silent m -> unsent_by (on_wire m).
Proof.
  intros Hm x. destruct (Hm (quiet x.(xs_wire))) as [_ (es & Hlog & Hno)].
  assert (es = []) as -> by (destruct es; [done|by apply Forall_cons in Hno as [[] _]]).
  unfold on_wire. cbn in *. by rewrite Hlog, app_nil_r.
Qed.

Lemma unsent_fee_sample s : unsent_by (modify (set_fee_sample s)).
Proof. by intros x. Qed.

Lemma unsent_tip_sample s : unsent_by (modify (set_tip_sample s)).
Proof. by intros x. Qed.

Create HintDb unsent discriminated.
#[local] Hint Resolve unsent_ret unsent_gets unsent_ledger unsent_fee_sample unsent_tip_sample
  unsent_silent silent_fees silent_blockhash silent_invalidate silent_on_net : unsent.

Ltac unsent_step :=
  match goal with
  | |- unsent_by (mbind _ _) => apply unsent_bind; [|intros ?]
  | |- unsent_by (match ?x with _ => _ end) => destruct x
  | |- unsent_by (let _ := _ in _) => cbv zeta
  | |- unsent_by (mark _ _ _) => apply unsent_ledger
  | |- unsent_by (mark_failed _ _ _) => apply unsent_ledger
  | |- _ => solve [eauto with unsent]
  end.
Ltac unsent := repeat unsent_step.

Lemma unsent_signed_stage e id b tip fee attempt label height :
  is_paper e = true -> unsent_by (signed_stage sanitize e id b tip fee attempt label height).
Proof.
  intros Hp. unfold signed_stage. rewrite Hp. unfold simulate_stage.
  unsent. apply unsent_silent, (silent_retry _ (SimulateTransaction b)).
Qed.

Lemma unsent_run_once e req id attempt :
  is_paper e = true -> unsent_by (run_once sanitize e req id attempt).
Proof.
  intros Hp. unfold run_once, priced_quote, oracle_quote, tip_for, resolve_jito_tip, sample_tip,
    blockhash_for. unsent. by apply unsent_signed_stage.
Qed.

Lemma unsent_attempts e req i more attempt :
  is_paper e = true -> unsent_by (attempts_loop sanitize e req i more attempt).
Proof.
  intros Hp. revert attempt. induction more as [|more IH]; intros attempt; cbn [attempts_loop].
  all: apply unsent_bind; [|intros ?].
  1,3: unfold attempt_once; apply unsent_bind; [by apply unsent_run_once|intros ?]; unfold state_of; unsent.
  all: unfold begin_intent; unsent; apply IH.
Qed.

Lemma unsent_run e req : is_paper e = true -> unsent_by (run sanitize digest_hex e req).
Proof.
  intros Hpaper. unfold run, resolve_intent, begin_intent. unsent; by apply unsent_attempts.
Qed.

Lemma unsent_prebuilt e b : is_paper e = true -> unsent_by (send_prebuilt sanitize e b).
Proof.
  intros Hpaper x. unfold send_prebuilt. destruct (denied_prebuilt e b); [done|]. by rewrite Hpaper.
Qed.

(** ** What the ledger knows *)

Lemma run_ahead e req x :
  ledger_inv x.(xs_ledger) ->
  let y := (run sanitize digest_hex e req x).2 in
  ledger_inv y.(xs_ledger)
  /\ exists es, y.(xs_trace) = x.(xs_trace) ++ es
               /\ Forall (write_ahead (run_id digest_hex e req x)) es.
Proof.
  intros Hinv. assert (Hno : False -> NetworkLaws W) by tauto.
  destruct (run_told sanitize digest_hex False e req x Hinv) as (Hi & es & Ht & Hes).
  split; [done|]. exists es. split; [done|apply Hes].
Qed.

Lemma prebuilt_ahead e b x :
  ledger_inv x.(xs_ledger) ->
  let y := (send_prebuilt sanitize e b x).2 in
  ledger_inv y.(xs_ledger)
  /\ exists es, y.(xs_trace) = x.(xs_trace) ++ es /\ Forall (write_ahead (prebuilt_id e b)) es.
Proof.
  intros Hinv. assert (Hno : False -> NetworkLaws W) by tauto.
  destruct (prebuilt_cases sanitize False e b x Hinv) as [[Hx _]|(_ & Hp & _)].
  - destruct (unchanged_told sanitize False e (prebuilt_id e b) x _ Hx Hinv) as (Hi & es & Ht & Hes).
    split; [done|]. exists es. split; [done|apply Hes].
  - destruct (handed_told sanitize False e (prebuilt_id e b) x _ _ Hp) as (Hi & es & Ht & Hes).
    split; [done|]. exists es. split; [done|apply Hes].
Qed.

(** * Properties *)

(** An executor that is not live sends nothing: neither a run nor a
    prebuilt transaction leaves anything on the wire. *)
Theorem paper_never_sends e (Hpaper : is_paper e = true) :
  (forall req x, (run sanitize digest_hex e req x).2.(xs_trace) = x.(xs_trace))
  /\ forall b x, (send_prebuilt sanitize e b x).2.(xs_trace) = x.(xs_trace).
Proof.
  split; [intros req x; by apply unsent_run|intros b x; by apply unsent_prebuilt].
Qed.

(** C4: Nothing leaves the process before the ledger knows it: whenever a run
    or a prebuilt send puts a transaction on the wire, by any route and however
    often it is retried, the ledger holds the attempt of this intent as
    submitted under the signature of that very transaction. *)
Theorem write_ahead_log e x (Hinv : ledger_inv x.(xs_ledger)) :
  (forall req, let y := (run sanitize digest_hex e req x).2 in
     ledger_inv y.(xs_ledger)
     /\ exists es, y.(xs_trace) = x.(xs_trace) ++ es
                  /\ Forall (write_ahead (run_id digest_hex e req x)) es)
  /\ (forall b, let y := (send_prebuilt sanitize e b x).2 in
     ledger_inv y.(xs_ledger)
     /\ exists es, y.(xs_trace) = x.(xs_trace) ++ es /\ Forall (write_ahead (prebuilt_id e b)) es).
Proof.
  split; intros q; [by apply run_ahead|by apply prebuilt_ahead].
Qed.

Lemma begin_blocked now i l r :
  is_empty (trim i.(xi_intent_id)) = false -> l.(records) !! i.(xi_intent_id) = Some r ->
  can_rearm r = false -> begin now i l = (Ok (Duplicate r), l).
Proof. intros Hne Hr Hc. unfold begin. by rewrite Hne, Hr, Hc. Qed.

(** What a run may answer, and the record it leaves: [o] from the state [x] to
    the state [y]. *)
Definition run_contract (e : Executor) (req : TxRequest) (x y : Exec W)
    (o : ExecutionResult + text) : Prop :=
  let id := run_id digest_hex e req x in
  (y = x /\ (vetoed e req id o \/ refused_start id (duplicate_result e req.(tr_label)) x o))
  \/ (forall r, x.(xs_ledger).(records) !! id = Some r -> can_rearm r = true)
     /\ exists rec, y.(xs_ledger).(records) !! id = Some rec
        /\ match o with
           | inl r => r.(r_intent_id) = id /\ r.(r_failure) <> Some FcDuplicate
                      /\ r.(r_state) = rec.(x_state) /\ rec.(x_state) ∈ final_states r.(r_status)
           | inr _ => rec.(x_state) ∈ [ExFailed; ExExpired]
           end.

(** C7: The answer of a run and the ledger agree.  Either nothing changed,
    because the run was denied, underpriced, unnamed or a duplicate of an
    attempt that is in flight or landed; or there was no such attempt, and
    afterwards the record of the intent is in the state the result reports:
    confirmed for a confirmation or a paper fill, pending when the outcome is
    unknown, failed or expired when the transaction did not land, and never
    pending after an error. *)
Theorem run_settles e req x (Hinv : ledger_inv x.(xs_ledger)) :
  let o := run sanitize digest_hex e req x in run_contract e req x o.2 o.1.
Proof.
  assert (Hno : False -> NetworkLaws W) by tauto. cbv zeta.
  destruct (run_cases sanitize digest_hex False e req x Hinv) as [?|(Hp & _ & Hre)]; [by left|right].
  split; [exact Hre|]. destruct (run sanitize digest_hex e req x) as [[r|msg] y]; cbn in *.
  - destruct Hp as (Hid & Hf & Hst & (_ & rec & Hr & Hs & _) & _). exists rec.
    split; [exact Hr|]. rewrite <- Hs in Hst. by split_and!.
  - destruct Hp as (st & Hst & (_ & rec & Hr & Hs & _) & _). exists rec. split; [exact Hr|].
    by rewrite Hs.
Qed.

(** C5: In the modes with a single route, RPC (with failover or fan-out) or Jito, and
    with nodes that echo the signature they are given, a run puts a transaction with
    another signature on the wire only after a verdict on every earlier one: the
    answer to it was, by the code's own classification, a definite refusal, or the
    RPC layer itself passed on to the next attempt with the same bytes, or the
    transaction was declared expired before the second one left.  That the earlier
    transaction cannot land any more does not follow: a retry hides a doubt
    ([retry_hides_doubt]), a failed lookup counts as an expiry
    ([failed_lookup_declares_death]), and in the modes with two routes one refusal
    hides what the other route did ([second_route_hides_doubt]). *)
Theorem second_send_after_verdict e req x `{!NetworkLaws W}
  (Hroute : single_route e) (Hinv : ledger_inv x.(xs_ledger)) :
  exists es, (run sanitize digest_hex e req x).2.(xs_trace) = x.(xs_trace) ++ es
    /\ orderly sanitize x.(xs_wire).(wr_pool).(pl_retry) (map snd es).
Proof.
  destruct (run_told sanitize digest_hex True (Hlaw := fun _ => _) e req x Hinv) as (_ & es & Ht & [_ Ho]).
  exists es. split; [done|]. by apply Ho.
Qed.

(** C6: At most once: after a run of a pinned intent that succeeded or whose
    outcome is unknown, and through any operations on the ledger that report no
    failure of it and leave it on record, every further run of that intent, by
    any executor that lets the request through, sends nothing, changes nothing
    and answers with the record it found.  A failure reported in between (a
    reconciliation that finds it) arms the intent again, as intended; that such a
    report can be about an older attempt is shown by [stale_verdict_unblocks]. *)
Theorem run_once_only `{HashOrder} `{!HashOrderLaws} e req x e' req' x' id r
  (Hinv : ledger_inv x.(xs_ledger))
  (Hpin : req.(tr_intent_id) = Some id) (Hpin' : req'.(tr_intent_id) = Some id)
  (Hid : is_empty (trim id) = false)
  (Hrun : (run sanitize digest_hex e req x).1 = inl r) (Hok : result_succeeded r = true)
  (Hquiet : rtc (quiet_step r.(r_intent_id)) (run sanitize digest_hex e req x).2.(xs_ledger) x'.(xs_ledger))
  (Hallow : denied e' req' = None)
  (Hprice : e'.(ex_policy).(ep_min_priority_fee) <= req'.(tr_priority_fee_micro_lamports)) :
  exists rec, x'.(xs_ledger).(records) !! r.(r_intent_id) = Some rec
    /\ run sanitize digest_hex e' req' x' = (inl (duplicate_result e' req'.(tr_label) rec), x').
Proof.
  assert (Hno : False -> NetworkLaws W) by tauto.
  assert (Hsame : run_id digest_hex e' req' x' = run_id digest_hex e req x).
  { unfold run_id, resolve_id. by rewrite Hpin, Hpin', Hid. }
  destruct (run_cases sanitize digest_hex False e req x Hinv) as [[_ Ho]|(Hp & Hne & _)]; rewrite Hrun in *.
  { exfalso. destruct Ho as [[(d & _ & [= ->])|(_ & [= ->])]|(rec & -> & _)]; by cbn in Hok. }
  destruct Hp as (Hrid & _ & Hst & (Hi & rec & Hr & Hs & _) & _). rewrite Hrid in *.
  assert (Hb : blocked rec.(x_attempts) (run_id digest_hex e req x)
                 (run sanitize digest_hex e req x).2.(xs_ledger)).
  { exists rec. split; [exact Hr|]. split; [|done]. unfold can_rearm. rewrite Hs.
    unfold result_succeeded in Hok. destruct (r_status r); try done;
      apply list_elem_of_singleton in Hst; by rewrite Hst. }
  destruct (quiet_blocked _ _ _ _ Hi Hb Hquiet) as (_ & rec' & Hr' & Hc & _).
  exists rec'. split; [exact Hr'|]. unfold run. rewrite Hallow.
  unfold mbind at 1, St_bind at 1. unfold resolve_intent, gets. cbn [fst snd].
  fold (run_id digest_hex e' req' x'). rewrite Hsame.
  destruct (Z.ltb_spec (tr_priority_fee_micro_lamports req') (ep_min_priority_fee (ex_policy e'))); [lia|].
  match goal with |- context[begin_intent ?i0] => set (i := i0) end.
  unfold begin_intent, on_ledger, mbind, St_bind, mret, St_ret. cbn [fst snd].
  rewrite (begin_blocked (exec_now x') i (xs_ledger x') rec' Hne Hr' Hc). cbn [fst snd]. by destruct x'.
Qed.
End Properties.

(** * A scripted run *)

#[local] Instance demo_libs : LedgerLibs := {|
  sha256_hex t := t;
  format_day _ := [];
  datetime_max := 8210298412799999;
|}.

Definition demo_exec (retries : Z) (net : Demo) : Exec Demo :=
  mkExec (ExecutionLedger_new 64) (mkWire (demo_pool retries) None net []) None None [].

Definition demo_executor (mode : BroadcastMode) (attempts : Z) : Executor :=
  mkExecutor (lit "wallet") 0
    (mkExecPolicy Live mode true true (30 * SECS) (400 * MILLIS) attempts (Some (lit "url")) 0 false)
    (mkFeePolicy false 0 5000000 20000000 75 50 (2000 * MILLIS) (20000 * MILLIS)) None None.

Definition demo_request : TxRequest :=
  mkTxRequest [] 400000 0 1000 0 false [] [] None [] (lit "copy") (Some (lit "int_1")) (lit "copy")
    (lit "MINT") None.

Definition demo_run (mode : BroadcastMode) (retries : Z) (net : Demo)
    : (ExecutionResult + text) * Exec Demo :=
  run (fun t => t) (fun _ => []) (demo_executor mode 2) demo_request (demo_exec retries net).

(** ** Two transactions in the air *)

Definition late_hash : RpcErrorClass * text := (RcBlockhash, lit "Blockhash not found").
Definition no_answer : RpcErrorClass * text := (RcTimeout, lit "attempt timed out").

(** The block engine does not answer and the node refuses. *)
Definition half_refused : Demo :=
  mkDemo 0 0 0 [late_hash; late_hash] [] [BrPostFailed (lit "operation timed out")].

(** With two routes the error of the RPC route decides alone: a bundle whose
    post was not answered may still land, but when the node then refuses the
    same transaction for its blockhash the send counts as definitely failed,
    and the next attempt sends another transaction.  [sig0] was neither refused
    by the block engine nor declared expired. *)
Theorem second_route_hides_doubt :
  let start := [LeftByBundle (lit "sig0") (BrPostFailed (lit "operation timed out"));
                Left (lit "sig0") 0 (Some late_hash); Left (lit "sig0") 1 (Some late_hash);
                LeftByBundle (lit "sig1") BrAccepted] in
  ~ refused (fun t => t) (LeftByBundle (lit "sig0") (BrPostFailed (lit "operation timed out")))
  /\ map snd (demo_run BmJitoThenRpc 0 half_refused).2.(xs_trace) = start
  /\ map snd (demo_run BmRace 0 half_refused).2.(xs_trace) = start ++ [Left (lit "sig1") 0 None].
Proof. split_and!; [by vm_compute|by vm_compute|by vm_compute]. Qed.

(** One node does not answer and the next one refuses. *)
Definition first_unanswered : Demo := mkDemo 0 0 0 [no_answer; late_hash; late_hash] [] [].

(** The RPC layer reports the class of its last attempt only: a send that was
    not answered and is then refused by another node for its blockhash counts as
    definitely failed, and the next attempt sends another transaction. *)
Theorem retry_hides_doubt :
  rpc_ambiguous no_answer.1 = true
  /\ exists i j, map snd (demo_run BmRpc 1 first_unanswered).2.(xs_trace)
     = [Left (lit "sig0") 0 (Some no_answer); Left (lit "sig0") i (Some late_hash);
        Left (lit "sig0") j (Some late_hash); Left (lit "sig1") 0 None].
Proof. split; [done|]. do 2 eexists. by vm_compute. Qed.

(** The transaction is not visible yet, its blockhash is over, and the second
    look at it fails. *)
Definition lookup_lost : Demo :=
  mkDemo 0 1000 0 [] [inl TvNull; inr (RcPermanent, lit "internal error"); inl (TvSeen 7 None [] 5000)] [].

(** The second look of the confirmation exists because the transaction may have
    landed in one of the last valid blocks; when that look fails, its failure
    counts as not found, the accepted transaction is declared expired, and
    another one is sent. *)
Theorem failed_lookup_declares_death :
  map snd (demo_run BmRpc 0 lookup_lost).2.(xs_trace)
  = [Left (lit "sig0") 0 None; Expired (lit "sig0"); Left (lit "sig1") 0 None].
Proof. by vm_compute. Qed.

(** * Runs on which the properties apply *)

#[local] Instance demo_laws : NetworkLaws Demo.
Proof.
  split. intros b i w s Hs. cbn in Hs. by destruct (dm_sends w); [injection Hs as <-|].
Qed.

#[local] Instance listed_order : HashOrder := map_order.
#[local] Instance listed_order_laws : HashOrderLaws := map_order_laws.

Lemma demo_ledger_inv retries net : ledger_inv (demo_exec retries net).(xs_ledger).
Proof. apply exec_ledger_inv_new. Qed.

(** Refused twice for its blockhash, then sent again. *)
Definition refused_once : Demo := mkDemo 0 0 0 [late_hash; late_hash] [] [].

Lemma paper_never_sends_witness :
  let e := mkExecutor (lit "wallet") 0 ExecPolicy_default (mkFeePolicy false 0 5 20 75 50 1 1) None None in
  is_paper e = true
  /\ (run (fun t => t) (fun _ => []) e demo_request (demo_exec 0 refused_once)).2.(xs_trace) = [].
Proof.
  split; [reflexivity|].
  exact (proj1 (paper_never_sends (fun t => t) (fun _ => [])
    (mkExecutor (lit "wallet") 0 ExecPolicy_default (mkFeePolicy false 0 5 20 75 50 1 1) None None) eq_refl)
    demo_request (demo_exec 0 refused_once)).
Defined.

Lemma write_ahead_log_witness :
  length (demo_run BmRpc 0 refused_once).2.(xs_trace) = 3%nat
  /\ ledger_inv (demo_run BmRpc 0 refused_once).2.(xs_ledger).
Proof.
  split; [by vm_compute|].
  exact (proj1 (proj1 (write_ahead_log (fun t => t) (fun _ => []) (demo_executor BmRpc 2)
    (demo_exec 0 refused_once) (demo_ledger_inv 0 refused_once)) demo_request)).
Defined.

Lemma run_settles_witness :
  run_contract (fun _ => []) (demo_executor BmRpc 2) demo_request (demo_exec 0 refused_once)
    (demo_run BmRpc 0 refused_once).2 (demo_run BmRpc 0 refused_once).1.
Proof.
  exact (run_settles (fun t => t) (fun _ => []) (demo_executor BmRpc 2) demo_request
           (demo_exec 0 refused_once) (demo_ledger_inv 0 refused_once)).
Defined.

Lemma second_send_after_verdict_witness :
  exists es, (demo_run BmRpc 0 refused_once).2.(xs_trace) = [] ++ es
    /\ orderly (fun t => t) (demo_pool 0).(pl_retry) (map snd es).
Proof.
  exact (second_send_after_verdict (fun t => t) (fun _ => []) (demo_executor BmRpc 2) demo_request
           (demo_exec 0 refused_once) I (demo_ledger_inv 0 refused_once)).
Defined.

Lemma run_once_only_witness :
  exists r rec, (demo_run BmRpc 0 refused_once).1 = inl r
    /\ run (fun t => t) (fun _ => []) (demo_executor BmRace 1) demo_request (demo_run BmRpc 0 refused_once).2
       = (inl (duplicate_result (demo_executor BmRace 1) (lit "copy") rec), (demo_run BmRpc 0 refused_once).2).
Proof.
  destruct (demo_run BmRpc 0 refused_once).1 as [r|msg] eqn:Hr; [|by vm_compute in Hr].
  exists r. assert (Hok : result_succeeded r = true) by (by vm_compute in Hr; injection Hr as <-).
  destruct (run_once_only (fun t => t) (fun _ => []) (demo_executor BmRpc 2) demo_request
              (demo_exec 0 refused_once) (demo_executor BmRace 1) demo_request
              (demo_run BmRpc 0 refused_once).2 (lit "int_1") r
              (demo_ledger_inv 0 refused_once) eq_refl eq_refl eq_refl Hr Hok (rtc_refl _ _) eq_refl)
    as (rec & _ & Hrun); [by vm_compute|].
  exists rec. split; [done|exact Hrun].
Defined.
