(* ===== verification/CopyPolicy.v ===== *)
(** Whether and how large to mirror ([crates/module-copy/src/policy.rs],
    [sizing.rs] and [CopyConfig] of [core/src/config.rs]): the policy over one
    leader event, and the size that is then asked of the risk engine. *)
From stdpp Require Import prelude list strings.
From Stdlib Require Import ZArith Lia.
From S2P Require Import Prelude.
From S2P Require Import Text.
From S2P Require Import Float64.
From S2P Require Import Models.
From S2P Require Import LedgerEvent.
From S2P Require Import AppState.
From S2P Require Import Risk.
From S2P Require Import CopyLeader.
From S2P Require Import CopyEvent.

#[local] Open Scope Z_scope.

(** * Configuration *)

Record CopyConfig : Type := mkCopyConfig {
  cc_enabled : bool;
  cc_wallets : list CopyWallet;
  cc_feed : text;
  cc_poll_interval_ms : Z;
  cc_poll_signature_limit : Z;
  cc_slippage_pct : f64;
  cc_mirror_exits : bool;
  cc_full_exit_on_their_exit : bool;
  cc_skip_if_sniper_holds : bool;
  cc_max_token_age_secs : option Z;
  cc_decode_pumpfun : bool;
  cc_decode_pumpswap : bool;
  cc_decode_raydium : bool;
  cc_decode_jupiter : bool;
  cc_max_event_age_secs : Z;
  cc_strict_ordering : bool;
  cc_max_sol_per_trade : f64;
  cc_max_balance_fraction : f64;
  cc_min_mirror_sol : f64;
  cc_reconcile_interval_secs : Z;
  cc_reconcile_auto_exit : bool;
  cc_recovery_lookback_hours : Z;
}.

Definition CopyConfig_default : CopyConfig :=
  mkCopyConfig false [] (lit "pumpportal") 2000 25 (f_of_Z 20) true true false None true true true
    true 30 false fzero fzero fzero 60 false 24.

(** * Policy *)

Record PolicyContext : Type := mkPolicyContext {
  pc_now : Z;
  pc_symbol_blocked : bool;
  pc_sniper_holds : bool;
  pc_holding : bool;
  pc_held_qty : f64;
}.

(** [PolicyContext::clean]. *)
Definition PolicyContext_clean (now : Z) : PolicyContext := mkPolicyContext now false false false fzero.

Record EntryPlan : Type := mkEntryPlan {
  en_rule : CopyWallet;
  en_slippage_pct : f64;
  en_observed_age_secs : Z;
  en_event_age_secs : Z;
}.

Record ExitPlan : Type := mkExitPlan {
  xp_rule : CopyWallet;
  xp_fraction : f64;
}.

Inductive PolicyVerdict : Type :=
  | Enter (plan : EntryPlan)
  | Exit (plan : ExitPlan)
  | Skip (r : Rejection).

Definition venue_enabled (cfg : CopyConfig) (v : Venue) : bool :=
  match v with
  | PumpFun => cfg.(cc_decode_pumpfun)
  | PumpSwap => cfg.(cc_decode_pumpswap)
  | RaydiumAmmV4 | RaydiumClmm | RaydiumCpmm | RaydiumLaunchLab => cfg.(cc_decode_raydium)
  | Jupiter => cfg.(cc_decode_jupiter)
  | VenuePaper => true
  | PolymarketClob => false
  end.

(** [f64::clamp(0.0, 1.0)]: NaN stays. *)
Definition clamp01 (x : f64) : f64 :=
  if fltb x fzero then fzero else if fltb fone x then fone else x.

Definition policy_skip (r : RejectReason) : PolicyVerdict := Skip (mkRejection r CsPolicyPassed).
Definition leader_skip (r : RejectReason) : PolicyVerdict := Skip (mkRejection r CsLeaderResolved).

Definition exit_fraction (e : LeaderTradeEvent) (cfg : CopyConfig) (held : f64) : f64 :=
  if cfg.(cc_full_exit_on_their_exit) then fone
  else if fltb fzero held && fltb fzero e.(e_token_amount)
       then clamp01 (fdiv e.(e_token_amount) held)
       else fone.

Definition evaluate_exit (e : LeaderTradeEvent) (rule : CopyWallet) (cfg : CopyConfig)
    (ctx : PolicyContext) : PolicyVerdict :=
  if negb cfg.(cc_mirror_exits) then policy_skip RrMirrorExitsDisabled
  else if rule.(cw_buys_only) then policy_skip RrSellsNotMirrored
  else if negb ctx.(pc_holding) then policy_skip RrNoPositionToExit
  else Exit (mkExitPlan rule (exit_fraction e cfg ctx.(pc_held_qty))).

Definition observed_age (now : Z) (e : LeaderTradeEvent) : Z := num_seconds (now - e.(e_observed_at)).

(** [policy::evaluate]. *)
Definition evaluate (e : LeaderTradeEvent) (leader : option (CopyWallet * LeaderStatus))
    (cfg : CopyConfig) (ctx : PolicyContext) : PolicyVerdict :=
  match leader with
  | None => leader_skip RrLeaderUnknown
  | Some (rule, status) =>
      if bool_decide (status = Removed) then leader_skip RrLeaderRemoved
      else if negb (may_execute e.(e_source)) then policy_skip RrReplayOnly
      else if negb (event_is_buy e) then evaluate_exit e rule cfg ctx
      else if bool_decide (status = Paused) then leader_skip RrLeaderPaused
      else if negb (venue_enabled cfg e.(e_venue)) then policy_skip RrVenueDisabled
      else if fltb e.(e_sol_amount) rule.(cw_min_sol) then policy_skip RrBelowLeaderMin
      else if (0 <? rule.(cw_max_staleness_secs))
              && (rule.(cw_max_staleness_secs) <? observed_age ctx.(pc_now) e)
      then policy_skip RrStaleEvent
      else if is_stale ctx.(pc_now) cfg.(cc_max_event_age_secs) e then policy_skip RrStaleEvent
      else if ctx.(pc_symbol_blocked) then policy_skip RrSymbolGated
      else if cfg.(cc_skip_if_sniper_holds) && ctx.(pc_sniper_holds) then policy_skip RrSniperHolds
      else if ctx.(pc_holding) then policy_skip RrAlreadyMirroring
      else Enter (mkEntryPlan rule (default cfg.(cc_slippage_pct) rule.(cw_slippage_pct))
                    (observed_age ctx.(pc_now) e) (event_age_secs ctx.(pc_now) e))
  end.

(** * Sizing *)

Inductive SizingMode : Type := Fixed | Proportional.
Inductive SizeClamp : Type := RuleMaxSol | GlobalMaxPerTrade | BalanceFraction.
Inductive SizingError : Type :=
  | SeNonFinite
  | SeNonPositive
  | SeDust (requested floor : f64).

Record SizeDecision : Type := mkSizeDecision {
  sd_mode : SizingMode;
  sd_leader_sol : f64;
  sd_base_sol : f64;
  sd_requested_sol : f64;
  sd_clamps : list SizeClamp;
}.

(** [SizeDecision::ratio]. *)
Definition size_ratio (d : SizeDecision) : f64 :=
  if fltb fzero d.(sd_leader_sol) then fdiv d.(sd_requested_sol) d.(sd_leader_sol) else fzero.

Definition base_size (rule : CopyWallet) (leader_sol : f64) : SizingMode * f64 :=
  match rule.(cw_fixed_sol) with
  | Some f => if fltb fzero f then (Fixed, f)
              else (Proportional, fmul leader_sol (fmax rule.(cw_fraction_of_their_size) fzero))
  | None => (Proportional, fmul leader_sol (fmax rule.(cw_fraction_of_their_size) fzero))
  end.

Definition rule_size (rule : CopyWallet) (leader_sol : f64) : SizingMode * f64 * bool :=
  let '(mode, base) := base_size rule leader_sol in
  if fltb fzero rule.(cw_max_sol) && fltb rule.(cw_max_sol) base
  then (mode, rule.(cw_max_sol), true) else (mode, base, false).

(** A cap that may reduce the size: the size and the caps that did. *)
Definition cap_size (cap : option f64) (c : SizeClamp) (s : f64 * list SizeClamp)
    : f64 * list SizeClamp :=
  match cap with
  | Some m => if fltb m s.1 then (m, s.2 ++ [c]) else s
  | None => s
  end.

Definition positive (x : f64) : option f64 := if fltb fzero x then Some x else None.

(** The share of a known balance. *)
Definition balance_cap (cfg : CopyConfig) (available : option f64) : option f64 :=
  if fltb fzero cfg.(cc_max_balance_fraction) then
    avail ← available;
    if is_finite avail && fleb fzero avail
    then Some (fmul avail (fmin cfg.(cc_max_balance_fraction) fone)) else None
  else None.

Definition size_mirror (rule : CopyWallet) (cfg : CopyConfig) (leader_sol : f64)
    (available : option f64) : SizeDecision + SizingError :=
  if negb (is_finite leader_sol) then inr SeNonFinite
  else
    let '(mode, size, capped) := rule_size rule leader_sol in
    if negb (is_finite size) then inr SeNonFinite
    else
      let s := cap_size (positive cfg.(cc_max_sol_per_trade)) GlobalMaxPerTrade
                 (size, if capped then [RuleMaxSol] else []) in
      let s := cap_size (balance_cap cfg available) BalanceFraction s in
      if negb (is_finite s.1) then inr SeNonFinite
      else if fleb s.1 fzero then inr SeNonPositive
      else if fltb fzero cfg.(cc_min_mirror_sol) && fltb s.1 cfg.(cc_min_mirror_sol)
      then inr (SeDust s.1 cfg.(cc_min_mirror_sol))
      else inl (mkSizeDecision mode leader_sol (base_size rule leader_sol).2 s.1 s.2).

(** * What is mirrored *)

(** The events worth an entry, as one condition. *)
Definition worth_entering (e : LeaderTradeEvent) (rule : CopyWallet) (cfg : CopyConfig)
    (ctx : PolicyContext) : Prop :=
  may_execute e.(e_source) = true
  /\ venue_enabled cfg e.(e_venue) = true
  /\ fltb e.(e_sol_amount) rule.(cw_min_sol) = false
  /\ (rule.(cw_max_staleness_secs) <= 0
      \/ observed_age ctx.(pc_now) e <= rule.(cw_max_staleness_secs))
  /\ (cfg.(cc_max_event_age_secs) <= 0
      \/ event_age_secs ctx.(pc_now) e <= cfg.(cc_max_event_age_secs))
  /\ ctx.(pc_symbol_blocked) = false
  /\ (cfg.(cc_skip_if_sniper_holds) = true -> ctx.(pc_sniper_holds) = false)
  /\ ctx.(pc_holding) = false.

Definition worth_exiting (e : LeaderTradeEvent) (rule : CopyWallet) (cfg : CopyConfig)
    (ctx : PolicyContext) : Prop :=
  may_execute e.(e_source) = true /\ cfg.(cc_mirror_exits) = true
  /\ rule.(cw_buys_only) = false /\ ctx.(pc_holding) = true.

Lemma evaluate_exit_spec e rule cfg ctx :
  match evaluate_exit e rule cfg ctx with
  | Exit plan => cfg.(cc_mirror_exits) = true /\ rule.(cw_buys_only) = false
                 /\ ctx.(pc_holding) = true
                 /\ plan = mkExitPlan rule (exit_fraction e cfg ctx.(pc_held_qty))
  | Enter _ => False
  | Skip _ => ~ (cfg.(cc_mirror_exits) = true /\ rule.(cw_buys_only) = false
                 /\ ctx.(pc_holding) = true)
  end.
Proof.
  unfold evaluate_exit. destruct (cc_mirror_exits cfg), (cw_buys_only rule), (pc_holding ctx); cbn;
    intuition congruence.
Qed.

(** A limit of zero or less is off. *)
Lemma limit_off limit age :
  (0 <? limit) && (limit <? age) = false <-> limit <= 0 \/ age <= limit.
Proof. rewrite andb_false_iff, !Z.ltb_ge. tauto. Qed.

(** The policy mirrors exactly what the configuration asks for.  A buy is
    entered exactly when its leader is active and the event passes every rule,
    under the rule's slippage or else the configured one; a sell is exited
    exactly when its leader is followed, a paused one included, exits are
    mirrored and the mint is held; anything else is skipped. *)
Theorem policy_exact e leader cfg ctx :
  match evaluate e leader cfg ctx with
  | Enter plan =>
      exists rule, leader = Some (rule, Active) /\ e.(e_side) = Long /\ worth_entering e rule cfg ctx
        /\ plan = mkEntryPlan rule (default cfg.(cc_slippage_pct) rule.(cw_slippage_pct))
                    (observed_age ctx.(pc_now) e) (event_age_secs ctx.(pc_now) e)
  | Exit plan =>
      exists rule status, leader = Some (rule, status) /\ status <> Removed /\ e.(e_side) = Short
        /\ worth_exiting e rule cfg ctx
        /\ plan = mkExitPlan rule (exit_fraction e cfg ctx.(pc_held_qty))
  | Skip _ =>
      forall rule status, leader = Some (rule, status) ->
        ~ (status = Active /\ e.(e_side) = Long /\ worth_entering e rule cfg ctx)
        /\ ~ (status <> Removed /\ e.(e_side) = Short /\ worth_exiting e rule cfg ctx)
  end.
Proof.
  destruct leader as [[rule status]|]; [|done]. unfold evaluate, event_is_buy.
  case_bool_decide as Hrem; [subst; intros r s [= <- <-]; intuition congruence|].
  destruct (may_execute (e_source e)) eqn:Hx; cbn [negb];
    [|intros r s [= <- <-]; unfold worth_entering, worth_exiting; intuition congruence].
  case_bool_decide as Hb; cbn [negb].
  2:{ pose proof (evaluate_exit_spec e rule cfg ctx) as Hs.
      assert (Hsh : e_side e = Short) by (by destruct (e_side e)).
      destruct (evaluate_exit e rule cfg ctx) as [?|plan|rj]; [done| |].
      - destruct Hs as (? & ? & ? & ->). exists rule, status. by split_and!.
      - intros r s [= <- <-]. split; [intuition congruence|]. intros (_ & _ & _ & ? & ? & ?). by apply Hs. }
  assert (Hno : forall P : Prop, (P -> False) -> forall r s, Some (rule, status) = Some (r, s) ->
            (status = Active -> worth_entering e rule cfg ctx -> P) ->
            ~ (s = Active /\ e_side e = Long /\ worth_entering e r cfg ctx)
            /\ ~ (s <> Removed /\ e_side e = Short /\ worth_exiting e r cfg ctx)).
  { intros P HP r s [= <- <-] Hw. split; [intros (? & _ & ?); by apply HP, Hw|intuition congruence]. }
  unfold is_stale.
  case_bool_decide as Hp; [intros r s Hrs; eapply (Hno False); [done|done|congruence]|].
  assert (Ha : status = Active) by (by destruct status).
  destruct (venue_enabled cfg (e_venue e)) eqn:Hv; cbn [negb];
    [|intros r s Hrs; eapply (Hno False); [done|done|intros _ Hw; destruct Hw; intuition congruence]].
  destruct (fltb (e_sol_amount e) (cw_min_sol rule)) eqn:Hm;
    [intros r s Hrs; eapply (Hno False); [done|done|intros _ Hw; destruct Hw; intuition congruence]|].
  destruct ((0 <? cw_max_staleness_secs rule) && _) eqn:Hst.
  { intros r s Hrs; eapply (Hno False); [done|done|]. intros _ (_ & _ & _ & Hl & _).
    apply limit_off in Hl. congruence. }
  destruct ((0 <? cc_max_event_age_secs cfg) && _) eqn:Hag.
  { intros r s Hrs; eapply (Hno False); [done|done|]. intros _ (_ & _ & _ & _ & Hl & _).
    apply limit_off in Hl. congruence. }
  apply limit_off in Hst, Hag.
  destruct (pc_symbol_blocked ctx) eqn:Hb'.
  { intros r s Hrs; eapply (Hno False); [done|done|]. unfold worth_entering. intuition congruence. }
  destruct (cc_skip_if_sniper_holds cfg && pc_sniper_holds ctx) eqn:Hsn.
  { apply andb_true_iff in Hsn as [Hs1 Hs2].
    intros r s Hrs; eapply (Hno False); [done|done|]. unfold worth_entering.
    intros _ (_ & _ & _ & _ & _ & _ & Hf & _). specialize (Hf Hs1). congruence. }
  destruct (pc_holding ctx) eqn:Hh.
  { intros r s Hrs; eapply (Hno False); [done|done|]. unfold worth_entering. intuition congruence. }
  exists rule. subst status. split_and!; [done|done| |done].
  split_and!; try done. intros Hc. rewrite Hc in Hsn. exact Hsn.
Qed.

(** ** The size *)

(** The caps in force. *)
Definition caps (rule : CopyWallet) (cfg : CopyConfig) (available : option f64) : list f64 :=
  omap id [positive rule.(cw_max_sol); positive cfg.(cc_max_sol_per_trade); balance_cap cfg available].

(** A member of the list that no other one is below. *)
Definition is_least (m : f64) (l : list f64) : Prop := m ∈ l /\ forall x, x ∈ l -> fleb m x = true.

Lemma is_least_singleton x : is_nan x = false -> is_least x [x].
Proof. intros Hn. split; [by left|]. intros y ->%list_elem_of_singleton. by apply fleb_refl. Qed.

(** One more candidate. *)
Lemma is_least_step m l c :
  is_least m l -> is_nan c = false ->
  is_least (if fltb c m then c else m) (l ++ [c]).
Proof.
  intros [Hm Hle] Hc. assert (Hn : is_nan m = false) by (by apply fleb_numbers with m, Hle).
  destruct (fltb c m) eqn:Hlt; split.
  - apply elem_of_app. right. by left.
  - intros x [Hx| ->%list_elem_of_singleton]%elem_of_app; [|by apply fleb_refl].
    eapply fleb_trans; [by apply fltb_leb|by apply Hle].
  - apply elem_of_app. by left.
  - intros x [Hx| ->%list_elem_of_singleton]%elem_of_app; [by apply Hle|]. by apply fltb_false.
Qed.

Lemma cap_least m cs l cap c :
  is_least m l -> (forall x, cap = Some x -> is_nan x = false) ->
  is_least (cap_size cap c (m, cs)).1 (l ++ omap id [cap]).
Proof.
  intros Hl Hn. destruct cap as [x|]; cbn; [|by rewrite app_nil_r].
  pose proof (is_least_step m l x Hl (Hn x eq_refl)) as Hs. by destruct (fltb x m).
Qed.

Lemma positive_number x y : positive x = Some y -> is_nan y = false.
Proof. unfold positive. destruct (fltb fzero x) eqn:Hp; [|done]. intros [= <-]. by apply fltb_numbers in Hp as [_ ?]. Qed.

Lemma rule_size_least rule sol :
  is_nan (base_size rule sol).2 = false ->
  is_least (rule_size rule sol).1.2 ([(base_size rule sol).2] ++ omap id [positive rule.(cw_max_sol)]).
Proof.
  intros Hn. pose proof (cap_least (base_size rule sol).2 [] [(base_size rule sol).2]
    (positive rule.(cw_max_sol)) RuleMaxSol (is_least_singleton _ Hn)
    (fun x => positive_number _ x)) as Hc.
  unfold rule_size, positive in *. destruct (base_size rule sol) as [mode base]. cbn in *.
  destruct (fltb fzero (cw_max_sol rule)); cbn in *; [|done].
  by destruct (fltb (cw_max_sol rule) base).
Qed.

Lemma balance_cap_nonneg cfg available c : balance_cap cfg available = Some c -> fleb fzero c = true.
Proof.
  unfold balance_cap. destruct (fltb fzero (cc_max_balance_fraction cfg)) eqn:Hf; [|done].
  destruct available as [avail|]; [|done]. cbn.
  destruct (is_finite avail && fleb fzero avail) eqn:Ha; [|done]. intros [= <-].
  apply andb_true_iff in Ha as [Ha Hn]. pose proof (fltb_numbers _ _ Hf) as [_ Hnum].
  assert (Hpos : nonneg (fmin (cc_max_balance_fraction cfg) fone) = true).
  { apply fmin_nonneg; [|done]. rewrite nonneg_leb. by apply fltb_leb. }
  apply fmul_nonneg_number; [done| |by rewrite nonneg_leb|done].
  eapply (finite_between fzero fone); [done|done|by rewrite <- nonneg_leb|by apply fmin_le_r].
Qed.

Lemma positive_nonneg x c : positive x = Some c -> fleb fzero c = true.
Proof. unfold positive. destruct (fltb fzero x) eqn:Hx; [|done]. intros [= <-]. by apply fltb_leb. Qed.

(** A cap that is not negative keeps the size finite. *)
Lemma cap_finite cap c s :
  (forall x, cap = Some x -> fleb fzero x = true) -> is_finite s.1 = true ->
  is_finite (cap_size cap c s).1 = true.
Proof.
  intros Hc Hs. destruct cap as [x|]; [|done]. cbn. destruct (fltb x s.1) eqn:Hlt; [|done]. cbn.
  eapply (finite_between fzero s.1); [done|done|by apply Hc|by apply fltb_leb].
Qed.

(** The inputs the arithmetic can use. *)
Definition usable (rule : CopyWallet) (leader_sol : f64) : Prop :=
  is_finite leader_sol = true /\ is_finite (rule_size rule leader_sol).1.2 = true.

(** The size asked for is the largest that the rule, the caps in force and
    the balance allow: it is one of them and none is below it, it is a positive
    number and not under the floor.  When there is no size, the error says which
    of these failed. *)
Theorem mirror_size_exact rule cfg sol available :
  let l := (base_size rule sol).2 :: caps rule cfg available in
  match size_mirror rule cfg sol available with
  | inl d =>
      usable rule sol /\ is_least d.(sd_requested_sol) l
      /\ is_finite d.(sd_requested_sol) = true /\ fltb fzero d.(sd_requested_sol) = true
      /\ (fltb fzero cfg.(cc_min_mirror_sol) = true ->
          fleb cfg.(cc_min_mirror_sol) d.(sd_requested_sol) = true)
  | inr SeNonFinite => ~ usable rule sol
  | inr SeNonPositive => usable rule sol /\ exists m, is_least m l /\ fleb m fzero = true
  | inr (SeDust m floor) =>
      usable rule sol /\ is_least m l /\ fltb fzero m = true
      /\ floor = cfg.(cc_min_mirror_sol) /\ fltb m floor = true
  end.
Proof.
  intros l. unfold size_mirror, usable.
  destruct (is_finite sol) eqn:Hsol; cbn [negb]; [|by intros [? _]].
  assert (Hbase : is_finite (rule_size rule sol).1.2 = true -> is_nan (base_size rule sol).2 = false).
  { unfold rule_size. destruct (base_size rule sol) as [mode base]. cbn.
    destruct (fltb fzero (cw_max_sol rule) && fltb (cw_max_sol rule) base) eqn:Hc; cbn.
    - intros _. apply andb_true_iff in Hc as [_ Hc]. by apply fltb_numbers in Hc as [_ ?].
    - apply finite_not_nan. }
  pose proof (rule_size_least rule sol) as Hrule.
  destruct (rule_size rule sol) as [[mode size] capped]. cbn [fst snd] in *.
  destruct (is_finite size) eqn:Hsize; cbn [negb]; [|by intros (_ & ?)].
  specialize (Hrule (Hbase eq_refl)).
  set (s1 := cap_size (positive (cc_max_sol_per_trade cfg)) GlobalMaxPerTrade
               (size, if capped then [RuleMaxSol] else [])).
  assert (Hf1 : is_finite s1.1 = true) by (apply cap_finite; [apply positive_nonneg|done]).
  pose proof (cap_least size (if capped then [RuleMaxSol] else []) _ (positive cfg.(cc_max_sol_per_trade))
                GlobalMaxPerTrade Hrule (fun x => positive_number _ x)) as Hl1. fold s1 in Hl1.
  set (s2 := cap_size (balance_cap cfg available) BalanceFraction s1).
  assert (Hf2 : is_finite s2.1 = true) by (apply cap_finite; [apply balance_cap_nonneg|done]).
  assert (Hl2 : is_least s2.1 l).
  { subst s2 l. destruct s1 as [m1 c1]. unfold caps.
    match goal with |- is_least _ ?l' => replace l' with
      (([(base_size rule sol).2] ++ omap id [positive (cw_max_sol rule)])
         ++ omap id [positive (cc_max_sol_per_trade cfg)] ++ omap id [balance_cap cfg available]) end.
    - rewrite app_assoc. apply cap_least; [done|]. intros x Hx.
      by apply balance_cap_nonneg, fleb_numbers in Hx as [_ ?].
    - by destruct (positive (cw_max_sol rule)), (positive (cc_max_sol_per_trade cfg)), (balance_cap cfg available). }
  rewrite Hf2. cbn [negb].
  destruct (fleb s2.1 fzero) eqn:Hz; [by split; [|exists s2.1]|].
  assert (Hpos : fltb fzero s2.1 = true) by (apply fleb_false; [by apply finite_not_nan|done|done]).
  destruct (fltb fzero (cc_min_mirror_sol cfg)) eqn:Hm; cbn [andb];
    [|by split_and!].
  destruct (fltb s2.1 (cc_min_mirror_sol cfg)) eqn:Hd; [by split_and!|].
  split_and!; try done. cbn. intros _. apply fltb_false; [by apply finite_not_nan| |done].
  by apply fltb_numbers in Hm as [_ ?].
Qed.
