(* ===== verification/CopyOrdering.v ===== *)
(** The order of a leader's events
    ([crates/module-copy/src/event_ordering.rs]): one cursor per leader, the
    classification of an event against it, and the gaps in the numbering of a
    source.  [prev + 1] wraps: the release build does not check overflow. *)
From stdpp Require Import prelude countable gmap strings.
From Stdlib Require Import ZArith Lia.
From S2P Require Import Prelude.
From S2P Require Import Text.
From S2P Require Import Float64.
From S2P Require Import Models.
From S2P Require Import CopyEvent.

#[local] Open Scope Z_scope.

(** * Data *)

Inductive OrderingVerdict : Type :=
  | InOrder
  | SameSlot
  | UnknownSlot
  | OutOfOrder (newest_slot behind_by : Z).

Definition OrderingVerdict_as_str (v : OrderingVerdict) : text :=
  match v with
  | InOrder => lit "in_order"
  | SameSlot => lit "same_slot"
  | UnknownSlot => lit "unknown_slot"
  | OutOfOrder _ _ => lit "out_of_order"
  end.

Definition is_out_of_order (v : OrderingVerdict) : bool :=
  match v with OutOfOrder _ _ => true | _ => false end.

Record OrderingReport : Type := mkOrderingReport {
  or_verdict : OrderingVerdict;
  or_sequence_gap : Z;
  or_reject : bool;
}.

Record LeaderCursor : Type := mkLeaderCursor {
  lc_last_slot : Z;
  lc_last_signature : text;
  lc_last_seen_at : option Z;
  lc_last_sequence : gmap EventSource Z;
  lc_observed : Z;
  lc_out_of_order : Z;
  lc_gaps : Z;
}.

Definition LeaderCursor_default : LeaderCursor := mkLeaderCursor 0 [] None ∅ 0 0 0.

Record OrderingTracker : Type := mkOrderingTracker {
  ot_cursors : gmap text LeaderCursor;
  ot_strict : bool;
}.

Definition OrderingTracker_new (strict : bool) : OrderingTracker := mkOrderingTracker ∅ strict.

Definition set_strict (strict : bool) (t : OrderingTracker) : OrderingTracker :=
  mkOrderingTracker t.(ot_cursors) strict.

Definition cursor (leader : text) (t : OrderingTracker) : option LeaderCursor :=
  t.(ot_cursors) !! trim leader.

(** [entry(..).or_default()]. *)
Definition entry_of (leader : text) (t : OrderingTracker) : LeaderCursor :=
  default LeaderCursor_default (cursor leader t).

Definition put_cursor (leader : text) (c : LeaderCursor) (t : OrderingTracker) : OrderingTracker :=
  mkOrderingTracker (<[trim leader := c]> t.(ot_cursors)) t.(ot_strict).

(** * Operations *)

Definition with_mark (slot : Z) (signature : text) (c : LeaderCursor) : LeaderCursor :=
  mkLeaderCursor slot signature c.(lc_last_seen_at) c.(lc_last_sequence) c.(lc_observed)
    c.(lc_out_of_order) c.(lc_gaps).

(** [seed]: only raises the mark. *)
Definition seed (leader : text) (slot : Z) (signature : text) (t : OrderingTracker)
    : OrderingTracker :=
  let c := entry_of leader t in
  put_cursor leader (if c.(lc_last_slot) <? slot then with_mark slot signature c else c) t.

Definition ordering_forget (leader : text) (t : OrderingTracker) : OrderingTracker :=
  mkOrderingTracker (delete (trim leader) t.(ot_cursors)) t.(ot_strict).

Definition u64_mod : Z := 2 ^ 64.

(** The gap before a numbered delivery. *)
Definition sequence_gap (prev : option Z) (seq : Z) : Z :=
  match prev with
  | Some p => if (p + 1) mod u64_mod <? seq then (seq - p - 1) mod u64_mod else 0
  | None => 0
  end.

(** The part of [observe] before the slot is looked at. *)
Definition noted (e : LeaderTradeEvent) (c : LeaderCursor) : LeaderCursor * Z :=
  let numbered := 0 <? e.(e_source_sequence) in
  let gap := if numbered then sequence_gap (c.(lc_last_sequence) !! e.(e_source)) e.(e_source_sequence)
             else 0 in
  (mkLeaderCursor c.(lc_last_slot) c.(lc_last_signature)
     (match c.(lc_last_seen_at) with
      | Some t => if t <? e.(e_observed_at) then Some e.(e_observed_at) else Some t
      | None => Some e.(e_observed_at)
      end)
     (if numbered
      then <[e.(e_source) := Z.max (default 0 (c.(lc_last_sequence) !! e.(e_source)))
                               e.(e_source_sequence)]> c.(lc_last_sequence)
      else c.(lc_last_sequence))
     (saturating_add u64_max c.(lc_observed) 1) c.(lc_out_of_order)
     (saturating_add u64_max c.(lc_gaps) gap), gap).

Definition counted_late (c : LeaderCursor) : LeaderCursor :=
  mkLeaderCursor c.(lc_last_slot) c.(lc_last_signature) c.(lc_last_seen_at) c.(lc_last_sequence)
    c.(lc_observed) (saturating_add u64_max c.(lc_out_of_order) 1) c.(lc_gaps).

(** The slot against the mark. *)
Definition classify (e : LeaderTradeEvent) (c : LeaderCursor) : OrderingVerdict * LeaderCursor :=
  if e.(e_slot) =? 0 then (UnknownSlot, c)
  else if (c.(lc_last_slot) =? 0) || (c.(lc_last_slot) <? e.(e_slot))
  then (InOrder, with_mark e.(e_slot) e.(e_signature) c)
  else if e.(e_slot) =? c.(lc_last_slot) then (SameSlot, c)
  else (OutOfOrder c.(lc_last_slot) (c.(lc_last_slot) - e.(e_slot)), counted_late c).

Definition observe (e : LeaderTradeEvent) (t : OrderingTracker) : OrderingReport * OrderingTracker :=
  let n := noted e (entry_of e.(e_leader) t) in
  let r := classify e n.1 in
  (mkOrderingReport r.1 n.2 (t.(ot_strict) && is_out_of_order r.1), put_cursor e.(e_leader) r.2 t).

(** * The mark is the newest slot *)

Inductive ordering_op : Type :=
  | OoObserve (e : LeaderTradeEvent)
  | OoSeed (leader : text) (slot : Z) (signature : text)
  | OoForget (leader : text)
  | OoStrict (strict : bool).

Definition ordering_step (t : OrderingTracker) (o : ordering_op) : OrderingTracker :=
  match o with
  | OoObserve e => (observe e t).2
  | OoSeed l s g => seed l s g t
  | OoForget l => ordering_forget l t
  | OoStrict b => set_strict b t
  end.

Definition ordering_run (ops : list ordering_op) (strict : bool) : OrderingTracker :=
  fold_left ordering_step ops (OrderingTracker_new strict).

(** The slots of a leader since it was last forgotten; the newest operation
    comes first. *)
Fixpoint slots_of (leader : text) (rev_ops : list ordering_op) : list Z :=
  match rev_ops with
  | [] => []
  | OoObserve e :: ops => if decide (trim e.(e_leader) = trim leader)
                          then e.(e_slot) :: slots_of leader ops else slots_of leader ops
  | OoSeed l s _ :: ops => if decide (trim l = trim leader) then s :: slots_of leader ops
                           else slots_of leader ops
  | OoForget l :: ops => if decide (trim l = trim leader) then [] else slots_of leader ops
  | OoStrict _ :: ops => slots_of leader ops
  end.

Definition newest (leader : text) (ops : list ordering_op) : Z :=
  foldr Z.max 0 (slots_of leader (reverse ops)).

Definition ordering_op_ok (o : ordering_op) : Prop :=
  match o with
  | OoObserve e => 0 <= e.(e_slot)
  | OoSeed _ s _ => 0 <= s
  | _ => True
  end.

Lemma cursor_put leader leader' c t :
  cursor leader (put_cursor leader' c t)
  = if decide (trim leader' = trim leader) then Some c else cursor leader t.
Proof. unfold cursor, put_cursor. cbn. by rewrite lookup_insert. Qed.

Lemma classify_slot e c :
  0 <= e.(e_slot) -> 0 <= c.(lc_last_slot) ->
  (classify e c).2.(lc_last_slot) = Z.max e.(e_slot) c.(lc_last_slot).
Proof.
  intros He Hc. unfold classify.
  destruct (Z.eqb_spec (e_slot e) 0); [cbn; lia|].
  destruct (Z.eqb_spec (lc_last_slot c) 0); cbn [orb]; [cbn; lia|].
  destruct (Z.ltb_spec (lc_last_slot c) (e_slot e)); [cbn; lia|].
  destruct (Z.eqb_spec (e_slot e) (lc_last_slot c)); cbn; lia.
Qed.

Lemma newest_nonneg leader ops : 0 <= newest leader ops.
Proof. unfold newest. induction (slots_of _ _); cbn; lia. Qed.

Lemma mark_is_newest ops strict leader :
  Forall ordering_op_ok ops ->
  (entry_of leader (ordering_run ops strict)).(lc_last_slot) = newest leader ops.
Proof.
  induction ops as [|o ops IH] using rev_ind; intros Hok; [done|].
  apply Forall_app in Hok as [Hops [Ho _]%Forall_cons].
  specialize (IH Hops). unfold ordering_run. rewrite fold_left_app. cbn [fold_left].
  fold (ordering_run ops strict). unfold newest. rewrite reverse_snoc.
  assert (Hput : forall l c, (entry_of leader (put_cursor l c (ordering_run ops strict))).(lc_last_slot)
            = if decide (trim l = trim leader) then c.(lc_last_slot) else newest leader ops).
  { intros l c. unfold entry_of. rewrite cursor_put. by case_decide. }
  pose proof (newest_nonneg leader ops) as Hnn.
  destruct o as [e|l s g|l|b]; cbn [ordering_step slots_of].
  - unfold observe. cbn [snd]. rewrite Hput. case_decide as Hl; [|done]. cbn [foldr].
    assert (He : entry_of (e_leader e) (ordering_run ops strict) = entry_of leader (ordering_run ops strict))
      by (unfold entry_of, cursor; by rewrite Hl).
    rewrite classify_slot; [|exact Ho|]; cbn [noted fst lc_last_slot]; rewrite He, IH; [reflexivity|lia].
  - unfold seed. rewrite Hput. case_decide as Hl; [|done]. cbn [foldr].
    assert (He : entry_of l (ordering_run ops strict) = entry_of leader (ordering_run ops strict))
      by (unfold entry_of, cursor; by rewrite Hl).
    rewrite He. fold (newest leader ops). destruct (Z.ltb_spec (lc_last_slot (entry_of leader (ordering_run ops strict))) s);
      cbn; lia.
  - unfold entry_of, cursor, ordering_forget. cbn. case_decide as Hl.
    + by rewrite Hl, lookup_delete, decide_True.
    + rewrite lookup_delete_ne by done. exact IH.
  - exact IH.
Qed.

(** Whatever the feeds deliver and in whatever order, an event is classified
    against the newest slot known for its leader since the leader was last
    dropped, restarts included: in order exactly when it is newer than all of
    them, and refused exactly when ordering is strict and it is older than the
    newest. *)
Theorem ordering_exact ops strict e (Hops : Forall ordering_op_ok ops) (Hslot : 0 < e.(e_slot)) :
  let t := ordering_run ops strict in
  let m := newest e.(e_leader) ops in
  let r := (observe e t).1 in
  (r.(or_verdict) = InOrder <-> m < e.(e_slot))
  /\ (r.(or_verdict) = SameSlot <-> m = e.(e_slot))
  /\ (r.(or_verdict) = OutOfOrder m (m - e.(e_slot)) <-> e.(e_slot) < m)
  /\ (r.(or_reject) = true <-> t.(ot_strict) = true /\ e.(e_slot) < m).
Proof.
  intros t m r. pose proof (mark_is_newest ops strict e.(e_leader) Hops) as Hm.
  fold t in Hm. fold m in Hm. pose proof (newest_nonneg e.(e_leader) ops). subst r. unfold observe. cbn.
  unfold classify. cbn [noted fst lc_last_slot]. rewrite Hm.
  destruct (Z.eqb_spec (e_slot e) 0); [lia|].
  destruct (Z.eqb_spec m 0); cbn [orb].
  { cbn. rewrite andb_false_r. split_and!; split; try done; try lia. }
  destruct (Z.ltb_spec m (e_slot e)); [cbn; rewrite andb_false_r; split_and!; split; try done; try lia|].
  destruct (Z.eqb_spec (e_slot e) m); cbn; rewrite ?andb_false_r, ?andb_true_r;
    split_and!; split; try done; try lia; try (intros; split; [done|lia]); by intros [].
Qed.

(** ** Gaps *)

(** A newer delivery reports exactly the ones that are missing, an older or
    repeated one none; the counter is not at its end. *)
Lemma sequence_gap_exact p s :
  0 <= p < u64_max -> 0 < s <= u64_max -> sequence_gap (Some p) s = Z.max (s - p - 1) 0.
Proof.
  intros Hp Hs. unfold sequence_gap, u64_mod, u64_max in *.
  rewrite (Z.mod_small (p + 1)) by lia. destruct (Z.ltb_spec (p + 1) s); [|lia].
  rewrite Z.mod_small by lia. lia.
Qed.

(** At the end of the counter [prev + 1] wraps to zero, and whatever comes next
    counts as that many missing deliveries. *)
Lemma sequence_gap_wraps s : 0 < s <= u64_max -> sequence_gap (Some u64_max) s = s.
Proof.
  intros Hs. unfold sequence_gap. change ((u64_max + 1) mod u64_mod) with 0.
  destruct (Z.ltb_spec 0 s); [|lia].
  assert (He : s - u64_max - 1 = s + (-1) * u64_mod) by (unfold u64_max, u64_mod; lia).
  rewrite He, Z.mod_add by done. apply Z.mod_small. unfold u64_max, u64_mod in *. lia.
Qed.

Definition demo_event (signature : text) (slot seq at_ : Z) : LeaderTradeEvent :=
  mkLeaderTradeEvent (lit "cev_1") (lit "whale") signature slot None Long (lit "MINT") None PumpFun
    fone fone fzero None PumpPortal seq at_.

(** In strict mode the event that is refused still advances what its leader's
    cursor knows: the delivery number, the counters and the last sighting.  Only
    the slot stays. *)
Theorem refused_event_advances_cursor :
  let t := ordering_run [OoObserve (demo_event (lit "a") 100 1 10)] true in
  let o := observe (demo_event (lit "b") 90 5 20) t in
  o.1 = mkOrderingReport (OutOfOrder 100 10) 3 true
  /\ (lc_last_slot <$> cursor (lit "whale") o.2) = Some 100
  /\ (lc_observed <$> cursor (lit "whale") o.2) = Some 2
  /\ ((fun c => c.(lc_last_sequence) !! PumpPortal) <$> cursor (lit "whale") o.2) = Some (Some 5)
  /\ (lc_last_seen_at <$> cursor (lit "whale") o.2) = Some (Some 20).
Proof. split_and!; by vm_compute. Qed.

Lemma ordering_exact_witness :
  (observe (demo_event (lit "b") 90 0 20)
     (ordering_run [OoSeed (lit "whale") 100 (lit "a")] true)).1.(or_reject) = true.
Proof.
  apply (ordering_exact [OoSeed (lit "whale") 100 (lit "a")] true (demo_event (lit "b") 90 0 20));
    [|reflexivity|split; [reflexivity|by vm_compute]].
  by repeat constructor.
Defined.
