(* ===== verification/PumpCurve.v ===== *)
(** The pump.fun bonding curve: the integer quotes of [crates/core/src/maths.rs],
    the [Global] and [BondingCurve] accounts of [crates/solana-kit/src/pump.rs]
    (offsets in [consts.rs]) and the plans of a buy and a sell.  A public key is
    the integer its bytes spell; unchecked arithmetic wraps as in a release
    build. *)
From stdpp Require Import prelude list strings.
From Stdlib Require Import ZArith Lia.
From S2P Require Import Prelude.
From S2P Require Import BotCore.
From S2P Require Import ByteReader.
From S2P Require Import Text.
From S2P Require Import Float64.

#[local] Open Scope Z_scope.

(** * Percentages *)

Definition BPS_DENOM : Z := 10000.

Definition apply_pct_u64 (value : Z) (pct : f64) : Z :=
  if negb (is_finite pct) then value
  else
    let v := fmul (f_of_Z value) (fadd fone (fdiv pct (f_of_Z 100))) in
    if fleb v fzero then 0 else if fleb F_U64_MAX v then u64_max else f_round_u64 v.

Definition minus_pct_u64 (value : Z) (pct : f64) : Z :=
  if negb (is_finite pct) then value
  else
    let v := fmul (f_of_Z value) (fsub fone (fdiv pct (f_of_Z 100))) in
    if fleb v fzero then 0 else f_round_u64 v.

(** * The constant product with a fee

    [constant_product_out] and its inverse; a denominator of zero is the one of
    basis points. *)

Definition u128_wrap (z : Z) : Z := z mod 2 ^ 128.

Definition fee_den (fee_denominator : Z) : Z :=
  if fee_denominator =? 0 then BPS_DENOM else fee_denominator.

Definition constant_product_out (amount_in reserve_in reserve_out fee_numerator fee_denominator : Z)
    : Z :=
  if (amount_in =? 0) || (reserve_in =? 0) || (reserve_out =? 0) then 0
  else
    let den := fee_den fee_denominator in
    let after_fee := saturating_mul u128_max amount_in (u128_wrap (den - fee_numerator)) / den in
    let numerator := saturating_mul u128_max after_fee reserve_out in
    let denominator := u128_wrap (reserve_in + after_fee) in
    if denominator =? 0 then 0 else Z.min u64_max (numerator / denominator).

Definition constant_product_in (amount_out reserve_in reserve_out fee_numerator fee_denominator : Z)
    : Z :=
  if (amount_out =? 0) || (reserve_in =? 0) || (reserve_out =? 0) || (reserve_out <=? amount_out)
  then u64_max
  else
    let den := fee_den fee_denominator in
    let numerator := u128_wrap (saturating_mul u128_max reserve_in amount_out * den) in
    let denominator := u128_wrap ((reserve_out - amount_out) * u128_wrap (den - fee_numerator)) in
    if denominator =? 0 then u64_max
    else Z.min u64_max (u128_wrap (numerator / denominator + 1)).

(** * Quotes of the curve *)

Definition pump_get_buy_cost (tokens_out vs vt : Z) : option Z :=
  if tokens_out =? 0 then Some 0
  else if vt <=? tokens_out then None
  else
    numerator ← checked_mul u128_max vs tokens_out;
    denominator ← checked_sub vt tokens_out;
    if denominator =? 0 then None
    else
      let cost := numerator / denominator in
      let cost := if negb (numerator mod denominator =? 0) then cost + 1 else cost in
      if u64_max <? cost then None else Some cost.

Definition pump_get_tokens_for_sol (sol_in vs vt : Z) : option Z :=
  if sol_in =? 0 then Some 0
  else
    numerator ← checked_mul u128_max vt sol_in;
    denominator ← checked_add u128_max vs sol_in;
    if denominator =? 0 then None
    else
      let tokens := numerator / denominator in
      if u64_max <? tokens then None else Some tokens.

Definition pump_get_sol_for_tokens (tokens_in vs vt : Z) : option Z :=
  if tokens_in =? 0 then Some 0
  else
    numerator ← checked_mul u128_max vs tokens_in;
    denominator ← checked_add u128_max vt tokens_in;
    let sol := numerator / denominator in
    if u64_max <? sol then None else Some sol.

Definition PUMP_TOKEN_DECIMALS : Z := 6.

Definition pump_spot_price_sol (vs vt : Z) : f64 :=
  if vt =? 0 then fzero
  else fdiv (lamports_to_sol vs) (from_raw_amount vt PUMP_TOKEN_DECIMALS).

Definition pump_market_cap_sol (vs vt : Z) : f64 :=
  fmul (pump_spot_price_sol vs vt) (f_of_Z 1000000000).

(** * Accounts *)

(** [data.get(off..off + n)]. *)
Definition slice (off n : nat) (data : list Z) : option (list Z) :=
  if (off + n <=? length data)%nat then Some (take n (drop off data)) else None.

Definition read_u64 (data : list Z) (off : nat) : Z :=
  match slice off 8 data with Some b => from_le_bytes b | None => 0 end.

(** [Pubkey::default()] is zero. *)
Definition read_pubkey (data : list Z) (off : nat) : Z :=
  match slice off 32 data with Some b => pubkey_from_bytes b | None => 0 end.

Definition flag_at (data : list Z) (off : nat) : option bool :=
  (fun b => negb (b =? 0)) <$> data !! off.

Definition optional_u64 (data : list Z) (off : nat) : option Z :=
  (fun _ => read_u64 data off) <$> slice off 8 data.

Definition PUMP_ACC_DISC_GLOBAL : list Z := [167; 232; 232; 177; 200; 108; 114; 127].
Definition PUMP_ACC_DISC_BONDING_CURVE : list Z := [23; 183; 248; 55; 96; 216; 172; 96].

Definition BC_OFF_VIRTUAL_TOKEN_RESERVES : nat := 8.
Definition BC_OFF_VIRTUAL_SOL_RESERVES : nat := 16.
Definition BC_OFF_REAL_TOKEN_RESERVES : nat := 24.
Definition BC_OFF_REAL_SOL_RESERVES : nat := 32.
Definition BC_OFF_TOKEN_TOTAL_SUPPLY : nat := 40.
Definition BC_OFF_COMPLETE : nat := 48.
Definition BC_OFF_CREATOR : nat := 49.
Definition BC_OFF_IS_MAYHEM_MODE : nat := 81.
Definition BC_OFF_IS_CASHBACK_COIN : nat := 82.
Definition BC_OFF_QUOTE_MINT : nat := 83.
Definition BC_OFF_CREATOR_FEE_BPS : nat := 115.
Definition BC_OFF_CAN_EDIT_CREATOR_FEE : nat := 123.
Definition BC_OFF_IS_HOLDER_REWARD : nat := 124.
Definition BONDING_CURVE_MIN_LEN : nat := 81.
Definition BONDING_CURVE_FULL_LEN : nat := 151.
Definition BONDING_CURVE_V2_LEN : nat := 125.

(** So11111111111111111111111111111111111111112. *)
Definition WSOL_MINT : Z := 0x069b8857feab8184fb687f634618c035dac439dc1aeb3b5598a0f00000000001.

Record BondingCurveState : Type := mkBondingCurveState {
  bc_virtual_token_reserves : Z;
  bc_virtual_sol_reserves : Z;
  bc_real_token_reserves : Z;
  bc_real_sol_reserves : Z;
  bc_token_total_supply : Z;
  bc_complete : bool;
  bc_creator : Z;
  bc_is_mayhem_mode : option bool;
  bc_cashback_enabled : option bool;
  bc_quote_mint : option Z;
  bc_creator_fee_bps : option Z;
  bc_can_edit_creator_fee : option bool;
  bc_is_holder_reward : option bool;
  bc_raw_len : nat;
}.

Definition BondingCurveState_parse (data : list Z) : BotResult BondingCurveState :=
  reject_if (length data <? BONDING_CURVE_MIN_LEN)%nat Solana ;;
  reject_if (negb (bool_decide (take 8 data = PUMP_ACC_DISC_BONDING_CURVE))) Solana ;;
  match flag_at data BC_OFF_COMPLETE with
  | None => Panic
  | Some complete =>
      Ok (mkBondingCurveState
        (read_u64 data BC_OFF_VIRTUAL_TOKEN_RESERVES) (read_u64 data BC_OFF_VIRTUAL_SOL_RESERVES)
        (read_u64 data BC_OFF_REAL_TOKEN_RESERVES) (read_u64 data BC_OFF_REAL_SOL_RESERVES)
        (read_u64 data BC_OFF_TOKEN_TOTAL_SUPPLY) complete (read_pubkey data BC_OFF_CREATOR)
        (flag_at data BC_OFF_IS_MAYHEM_MODE) (flag_at data BC_OFF_IS_CASHBACK_COIN)
        (_ ← slice BC_OFF_QUOTE_MINT 32 data;
         let k := read_pubkey data BC_OFF_QUOTE_MINT in if k =? 0 then None else Some k)
        (optional_u64 data BC_OFF_CREATOR_FEE_BPS)
        (flag_at data BC_OFF_CAN_EDIT_CREATOR_FEE) (flag_at data BC_OFF_IS_HOLDER_REWARD)
        (length data))
  end.

Definition quote_mint_or_wsol (c : BondingCurveState) : Z :=
  match c.(bc_quote_mint) with
  | Some k => if k =? 0 then WSOL_MINT else k
  | None => WSOL_MINT
  end.

Definition is_v2 (c : BondingCurveState) : bool := (BONDING_CURVE_V2_LEN <=? c.(bc_raw_len))%nat.
Definition needs_extend (c : BondingCurveState) : bool :=
  (c.(bc_raw_len) <? BONDING_CURVE_FULL_LEN)%nat.

Definition spot_price_sol (c : BondingCurveState) : f64 :=
  pump_spot_price_sol c.(bc_virtual_sol_reserves) c.(bc_virtual_token_reserves).
Definition market_cap_sol (c : BondingCurveState) : f64 :=
  pump_market_cap_sol c.(bc_virtual_sol_reserves) c.(bc_virtual_token_reserves).
Definition buy_cost (tokens_out : Z) (c : BondingCurveState) : option Z :=
  pump_get_buy_cost tokens_out c.(bc_virtual_sol_reserves) c.(bc_virtual_token_reserves).
Definition tokens_for_sol (sol_in : Z) (c : BondingCurveState) : option Z :=
  pump_get_tokens_for_sol sol_in c.(bc_virtual_sol_reserves) c.(bc_virtual_token_reserves).
Definition sol_for_tokens (tokens_in : Z) (c : BondingCurveState) : option Z :=
  pump_get_sol_for_tokens tokens_in c.(bc_virtual_sol_reserves) c.(bc_virtual_token_reserves).

Definition curve_progress (c : BondingCurveState) : f64 :=
  if c.(bc_token_total_supply) =? 0 then fzero
  else fdiv (f_of_Z (saturating_sub c.(bc_token_total_supply) c.(bc_real_token_reserves)))
            (f_of_Z c.(bc_token_total_supply)).

Definition is_graduated (c : BondingCurveState) : bool :=
  c.(bc_complete) || ((c.(bc_virtual_token_reserves) =? 0) && (c.(bc_virtual_sol_reserves) =? 0)).

Inductive CurveRefusal : Type := Graduated | EmptyReserves.

Definition curve_refusal (c : BondingCurveState) : option CurveRefusal :=
  if is_graduated c then Some Graduated
  else if (c.(bc_virtual_token_reserves) =? 0) || (c.(bc_virtual_sol_reserves) =? 0)
       then Some EmptyReserves else None.

(** ** The [Global] account *)

Definition GLOBAL_OFF_INITIALIZED : nat := 8.
Definition GLOBAL_OFF_AUTHORITY : nat := 9.
Definition GLOBAL_OFF_FEE_RECIPIENT : nat := 41.
Definition GLOBAL_OFF_INITIAL_VIRTUAL_TOKEN_RESERVES : nat := 73.
Definition GLOBAL_OFF_INITIAL_VIRTUAL_SOL_RESERVES : nat := 81.
Definition GLOBAL_OFF_INITIAL_REAL_TOKEN_RESERVES : nat := 89.
Definition GLOBAL_OFF_TOKEN_TOTAL_SUPPLY : nat := 97.
Definition GLOBAL_OFF_FEE_BASIS_POINTS : nat := 105.
Definition GLOBAL_OFF_WITHDRAW_AUTHORITY : nat := 113.
Definition GLOBAL_OFF_ENABLE_MIGRATE : nat := 145.
Definition GLOBAL_OFF_POOL_MIGRATION_FEE : nat := 146.
Definition GLOBAL_OFF_CREATOR_FEE_BASIS_POINTS : nat := 154.
Definition GLOBAL_OFF_FEE_RECIPIENTS : nat := 162.
Definition GLOBAL_FEE_RECIPIENTS_LEN : nat := 7.
Definition GLOBAL_OFF_CREATE_V2_ENABLED : nat := 450.
Definition GLOBAL_OFF_MAYHEM_MODE_ENABLED : nat := 515.
Definition GLOBAL_OFF_IS_CASHBACK_ENABLED : nat := 740.
Definition GLOBAL_OFF_BUYBACK_BASIS_POINTS : nat := 997.
Definition GLOBAL_OFF_INITIAL_VIRTUAL_QUOTE_RESERVES : nat := 1005.
Definition GLOBAL_OFF_IS_HOLDER_REWARD_ENABLED : nat := 1086.

(** [initialized] is always true and [heuristic] always false in a parsed
    account; they are left out. *)
Record GlobalState : Type := mkGlobalState {
  gl_authority : Z;
  gl_fee_recipient : Z;
  gl_initial_virtual_token_reserves : Z;
  gl_initial_virtual_sol_reserves : Z;
  gl_initial_real_token_reserves : Z;
  gl_token_total_supply : Z;
  gl_fee_basis_points : Z;
  gl_withdraw_authority : Z;
  gl_enable_migrate : bool;
  gl_pool_migration_fee : Z;
  gl_creator_fee_basis_points : Z;
  gl_fee_recipients : list Z;
  gl_create_v2_enabled : option bool;
  gl_mayhem_mode_enabled : option bool;
  gl_is_cashback_enabled : option bool;
  gl_buyback_basis_points : option Z;
  gl_initial_virtual_quote_reserves : option Z;
  gl_is_holder_reward_enabled : option bool;
  gl_raw_len : nat;
}.

Definition strict_flag (data : list Z) (off : nat) : BotResult (option bool) :=
  match data !! off with
  | None => Ok None
  | Some 0 => Ok (Some false)
  | Some 1 => Ok (Some true)
  | Some _ => Err Solana
  end.

(** An indexing that the length check before it makes safe. *)
Definition byte_at (data : list Z) (off : nat) : BotResult Z :=
  match data !! off with Some b => Ok b | None => Panic end.

Definition global_sane (data : list Z) : bool :=
  let u := read_u64 data in
  (0 <? u GLOBAL_OFF_INITIAL_VIRTUAL_SOL_RESERVES)
  && (u GLOBAL_OFF_INITIAL_VIRTUAL_SOL_RESERVES <? 10000 * LAMPORTS_PER_SOL)
  && (0 <? u GLOBAL_OFF_INITIAL_VIRTUAL_TOKEN_RESERVES)
  && (0 <? u GLOBAL_OFF_INITIAL_REAL_TOKEN_RESERVES)
  && (0 <? u GLOBAL_OFF_TOKEN_TOTAL_SUPPLY)
  && (u GLOBAL_OFF_FEE_BASIS_POINTS <? BPS_DENOM)
  && (u GLOBAL_OFF_CREATOR_FEE_BASIS_POINTS <? BPS_DENOM).

Definition recipients_of (data : list Z) : BotResult (list Z) :=
  if (GLOBAL_OFF_FEE_RECIPIENTS + 32 * GLOBAL_FEE_RECIPIENTS_LEN <=? length data)%nat
  then Ok (map (fun i => read_pubkey data (GLOBAL_OFF_FEE_RECIPIENTS + 32 * i)%nat)
             (seq 0 GLOBAL_FEE_RECIPIENTS_LEN))
  else if (length data =? GLOBAL_OFF_FEE_RECIPIENTS)%nat then Ok []
  else Err Solana.

Definition GlobalState_parse (data : list Z) : BotResult GlobalState :=
  reject_if (length data <? GLOBAL_OFF_FEE_RECIPIENTS)%nat Solana ;;
  reject_if (negb (bool_decide (take 8 data = PUMP_ACC_DISC_GLOBAL))) Solana ;;
  initialized ← byte_at data GLOBAL_OFF_INITIALIZED;
  migrate ← byte_at data GLOBAL_OFF_ENABLE_MIGRATE;
  reject_if (negb (initialized =? 1) || (1 <? migrate)) Solana ;;
  let authority := read_pubkey data GLOBAL_OFF_AUTHORITY in
  let fee_recipient := read_pubkey data GLOBAL_OFF_FEE_RECIPIENT in
  reject_if ((authority =? 0) || (fee_recipient =? 0)) Solana ;;
  reject_if (negb (global_sane data)) Solana ;;
  fee_recipients ← recipients_of data;
  create_v2 ← strict_flag data GLOBAL_OFF_CREATE_V2_ENABLED;
  mayhem ← strict_flag data GLOBAL_OFF_MAYHEM_MODE_ENABLED;
  cashback ← strict_flag data GLOBAL_OFF_IS_CASHBACK_ENABLED;
  holder ← strict_flag data GLOBAL_OFF_IS_HOLDER_REWARD_ENABLED;
  Ok (mkGlobalState authority fee_recipient
        (read_u64 data GLOBAL_OFF_INITIAL_VIRTUAL_TOKEN_RESERVES)
        (read_u64 data GLOBAL_OFF_INITIAL_VIRTUAL_SOL_RESERVES)
        (read_u64 data GLOBAL_OFF_INITIAL_REAL_TOKEN_RESERVES)
        (read_u64 data GLOBAL_OFF_TOKEN_TOTAL_SUPPLY) (read_u64 data GLOBAL_OFF_FEE_BASIS_POINTS)
        (read_pubkey data GLOBAL_OFF_WITHDRAW_AUTHORITY) (migrate =? 1)
        (read_u64 data GLOBAL_OFF_POOL_MIGRATION_FEE)
        (read_u64 data GLOBAL_OFF_CREATOR_FEE_BASIS_POINTS) fee_recipients create_v2 mayhem cashback
        (optional_u64 data GLOBAL_OFF_BUYBACK_BASIS_POINTS)
        (optional_u64 data GLOBAL_OFF_INITIAL_VIRTUAL_QUOTE_RESERVES) holder (length data)).

(** * Plans *)

Definition plan_buy (c : BondingCurveState) (sol_in : Z) (slippage_pct : f64) (fee_bps : Z)
    : BotResult (Z * Z) :=
  reject_if (sol_in =? 0) InvalidArgument ;;
  reject_if c.(bc_complete) Solana ;;
  gross ← ok_or (checked_mul u64_max sol_in fee_bps) Other;
  let sol_for_curve := saturating_sub sol_in (gross / BPS_DENOM) in
  reject_if (sol_for_curve =? 0) InvalidArgument ;;
  tokens_out ← ok_or (tokens_for_sol sol_for_curve c) Solana;
  reject_if (tokens_out =? 0) Solana ;;
  reject_if (c.(bc_real_token_reserves) <? tokens_out) Solana ;;
  curve_cost ← ok_or (buy_cost tokens_out c) Solana;
  let with_fee := saturating_add u64_max curve_cost (((curve_cost * fee_bps) mod 2 ^ 64) / BPS_DENOM) in
  Ok (tokens_out, apply_pct_u64 with_fee slippage_pct).

Definition plan_sell (c : BondingCurveState) (tokens_in : Z) (slippage_pct : f64)
    : BotResult (Z * Z) :=
  reject_if (tokens_in =? 0) InvalidArgument ;;
  expected ← ok_or (sol_for_tokens tokens_in c) Solana;
  Ok (tokens_in, minus_pct_u64 expected slippage_pct).

(** * The quotes are exact *)

Lemma buy_cost_Some t vs vt c :
  0 <= t -> 0 <= vs -> 0 <= vt <= u64_max -> pump_get_buy_cost t vs vt = Some c ->
  c <= u64_max /\ (t = 0 /\ c = 0 \/ 0 < t < vt /\ c = cdiv (vs * t) (vt - t)).
Proof.
  intros Ht Hvs Hvt. unfold pump_get_buy_cost. destruct (Z.eqb_spec t 0) as [->|Ht0].
  { intros [= <-]. split; [mlia|by left]. }
  destruct (Z.leb_spec vt t); [done|].
  destruct (checked_mul _ _ _) as [n|] eqn:Hn; [|done]. apply checked_mul_Some in Hn as [_ ->].
  cbn [mbind option_bind]. rewrite checked_sub_fits by lia. cbn [mbind option_bind].
  destruct (Z.eqb_spec (vt - t) 0); [lia|].
  rewrite (cdiv_div_mod (vs * t) (vt - t)) by lia.
  destruct ((vs * t) mod (vt - t) =? 0); cbn [negb]; cbv zeta;
    match goal with |- context[u64_max <? ?x] => destruct (Z.ltb_spec u64_max x) end; [done| |done|];
    intros [= <-]; (split; [lia|right; split; lia]).
Qed.

Lemma tokens_for_sol_Some s vs vt t :
  0 <= s -> 0 <= vs -> 0 <= vt -> pump_get_tokens_for_sol s vs vt = Some t ->
  (s = 0 /\ t = 0) \/ (0 < s /\ t = vt * s / (vs + s)).
Proof.
  intros Hs Hvs Hvt. unfold pump_get_tokens_for_sol. destruct (Z.eqb_spec s 0) as [->|Hs0].
  { intros [= <-]. by left. }
  destruct (checked_mul _ _ _) as [n|] eqn:Hn; [|done]. apply checked_mul_Some in Hn as [_ ->].
  destruct (checked_add _ _ _) as [d|] eqn:Hd; [|done]. apply checked_add_Some in Hd as [_ ->].
  cbn [mbind option_bind]. destruct (Z.eqb_spec (vs + s) 0); [lia|]. cbv zeta.
  destruct (Z.ltb_spec u64_max (vt * s / (vs + s))); [done|]. intros [= <-]. right. lia.
Qed.

(** On [u64] reserves the tokens for an amount can always be computed. *)
Lemma tokens_for_sol_total s vs vt :
  in_u64 s -> in_u64 vs -> in_u64 vt -> 0 < s -> exists t, pump_get_tokens_for_sol s vs vt = Some t.
Proof.
  intros Hs Hvs Hvt Hp. unfold pump_get_tokens_for_sol. destruct (Z.eqb_spec s 0); [lia|].
  rewrite checked_mul_fits by (unfold_bounds; nia). cbn [mbind option_bind].
  rewrite checked_add_fits by mlia. cbn [mbind option_bind].
  destruct (Z.eqb_spec (vs + s) 0); [mlia|]. cbv zeta.
  destruct (Z.ltb_spec u64_max (vt * s / (vs + s))) as [Hlt|]; [|by eexists]. exfalso.
  assert (vt * s / (vs + s) <= vt); [|mlia].
  apply Z.div_le_upper_bound; [mlia|]. unfold_bounds. nia.
Qed.

Lemma sol_for_tokens_Some t vs vt s :
  0 <= t -> 0 <= vs -> 0 <= vt -> pump_get_sol_for_tokens t vs vt = Some s ->
  (t = 0 /\ s = 0) \/ (0 < t /\ s = vs * t / (vt + t)).
Proof.
  intros Ht Hvs Hvt. unfold pump_get_sol_for_tokens. destruct (Z.eqb_spec t 0) as [->|Ht0].
  { intros [= <-]. by left. }
  destruct (checked_mul _ _ _) as [n|] eqn:Hn; [|done]. apply checked_mul_Some in Hn as [_ ->].
  destruct (checked_add _ _ _) as [d|] eqn:Hd; [|done]. apply checked_add_Some in Hd as [_ ->].
  cbn [mbind option_bind]. cbv zeta.
  destruct (Z.ltb_spec u64_max (vs * t / (vt + t))); [done|]. intros [= <-]. right. lia.
Qed.

(** The two quotes of a buy agree: an amount buys [t] tokens or more exactly
    when the cost of [t] tokens is within the amount. *)
Theorem curve_quotes_dual vs vt s t cost tokens
    (Hvs : 0 < vs <= u64_max) (Hvt : in_u64 vt) (Hs : 0 <= s) (Ht : 0 <= t)
    (Hcost : pump_get_buy_cost t vs vt = Some cost)
    (Htokens : pump_get_tokens_for_sol s vs vt = Some tokens) :
  cost <= s <-> t <= tokens.
Proof.
  apply buy_cost_Some in Hcost as [_ [[-> ->]|[Hlt ->]]]; [| |mlia..].
  - apply tokens_for_sol_Some in Htokens as [[-> ->]|[Hp ->]]; [lia| |mlia..].
    split; intros _; [|done]. apply Z.div_pos; mlia.
  - rewrite cdiv_le_iff by lia.
    apply tokens_for_sol_Some in Htokens as [[-> ->]|[Hp ->]]; [nia| |mlia..].
    rewrite div_le_iff by lia. nia.
Qed.

Lemma curve_quotes_dual_witness :
  31 <= 1000000000 <-> 1073000 <= 34612903225806.
Proof.
  apply (curve_quotes_dual 30000000000 1073000000000000 1000000000 1073000 31 34612903225806);
    split_and?; by vm_compute.
Defined.

(** A trade on the curve moves its reserves; nobody gains on the way out. *)
Lemma buy_then_sell_loses vs vt t cost back :
  0 < vs <= u64_max -> in_u64 vt -> 0 <= t ->
  pump_get_buy_cost t vs vt = Some cost ->
  pump_get_sol_for_tokens t (vs + cost) (vt - t) = Some back ->
  back <= cost /\ vs * vt <= (vs + cost) * (vt - t).
Proof.
  intros Hvs Hvt Ht Hc Hb.
  apply buy_cost_Some in Hc as [_ [[-> ->]|[Hlt Hc]]]; [| |mlia..].
  - apply sol_for_tokens_Some in Hb as [[_ ->]|[? _]]; mlia.
  - pose proof (cdiv_bounds (vs * t) (vt - t) ltac:(lia)) as Hcb. rewrite <- Hc in Hcb.
    assert (0 <= cost) by nia.
    apply sol_for_tokens_Some in Hb as [[? _]|[_ ->]]; [lia| |nia..].
    split; [|nia]. replace (vt - t + t) with vt by lia. apply Z.div_le_upper_bound; nia.
Qed.

Lemma sell_then_buy_loses vs vt t out cost :
  0 <= vs <= u64_max -> 0 < vt -> vt + t <= u64_max -> 0 <= t ->
  pump_get_sol_for_tokens t vs vt = Some out ->
  pump_get_buy_cost t (vs - out) (vt + t) = Some cost ->
  out <= cost /\ vs * vt <= (vs - out) * (vt + t).
Proof.
  intros Hvs Hvt Hu Ht Ho Hc.
  apply sol_for_tokens_Some in Ho as [[-> ->]|[Hp ->]]; [| |mlia..].
  - apply buy_cost_Some in Hc as [_ [[_ ->]|[? _]]]; mlia.
  - pose proof (Z.mul_div_le (vs * t) (vt + t) ltac:(lia)).
    assert (0 <= vs * t / (vt + t)) by (apply Z.div_pos; nia).
    assert (vs * t / (vt + t) <= vs) by (apply Z.div_le_upper_bound; nia).
    apply buy_cost_Some in Hc as [_ [[? _]|[_ ->]]]; [lia| |mlia..].
    replace (vt + t - t) with vt by lia. split; [|nia].
    pose proof (cdiv_bounds ((vs - vs * t / (vt + t)) * t) vt ltac:(lia)). nia.
Qed.

(** * The plan of a buy *)

Definition curve_wf (c : BondingCurveState) : Prop :=
  in_u64 c.(bc_virtual_token_reserves) /\ in_u64 c.(bc_virtual_sol_reserves)
  /\ in_u64 c.(bc_real_token_reserves).

(** The fee on what the tokens cost is at most the fee on the budget. *)
Lemma budget_covers sol_in fee_bps cost :
  0 <= sol_in -> 0 <= fee_bps -> 0 <= cost -> cost <= sol_in - sol_in * fee_bps / BPS_DENOM ->
  cost <= sol_in /\ cost + cost * fee_bps / BPS_DENOM <= sol_in.
Proof.
  intros Hs Hf Hc Hle. unfold BPS_DENOM in *.
  assert (0 <= sol_in * fee_bps / 10000) by (apply Z.div_pos; nia).
  assert (cost * fee_bps / 10000 <= sol_in * fee_bps / 10000) by (apply Z.div_le_mono; nia). lia.
Qed.

(** A planned buy fits its budget.  The tokens it asks for are on the curve,
    they are as many as the budget less the fee buys, what they cost with the
    fee is within the budget, computed without overflow, and the ceiling the
    transaction carries is that cost with the slippage on top. *)
Theorem plan_buy_within_budget c sol_in slippage_pct fee_bps tokens max_cost
    (Hc : curve_wf c) (Hv : 0 < c.(bc_virtual_sol_reserves)) (Hs : in_u64 sol_in)
    (Hf : in_u64 fee_bps)
    (Hp : plan_buy c sol_in slippage_pct fee_bps = Ok (tokens, max_cost)) :
  exists cost,
    buy_cost tokens c = Some cost
    /\ 0 < tokens <= c.(bc_real_token_reserves)
    /\ cost + cost * fee_bps / BPS_DENOM <= sol_in
    /\ in_u64 (cost * fee_bps)
    /\ max_cost = apply_pct_u64 (cost + cost * fee_bps / BPS_DENOM) slippage_pct
    /\ (forall more cost', tokens < more -> buy_cost more c = Some cost' ->
          sol_in - sol_in * fee_bps / BPS_DENOM < cost').
Proof.
  destruct Hc as (Hvt & Hvs & Hrt). unfold plan_buy in Hp. inv_ok. bool_to_prop.
  match goal with H : buy_cost tokens c = Some ?x |- _ => rename H into Hcost; exists x; rename x into cost end.
  match goal with H : tokens_for_sol ?s c = _ |- _ => rename H into Htok; remember s as budget eqn:Hb end.
  assert (Hpos : 0 < budget) by (unfold saturating_sub in *; lia).
  assert (Hb' : budget = sol_in - sol_in * fee_bps / BPS_DENOM) by (unfold saturating_sub in *; lia).
  clear Hb. rename Hb' into Hb.
  assert (Ht : 0 < tokens).
  { destruct (tokens_for_sol_Some budget (bc_virtual_sol_reserves c) (bc_virtual_token_reserves c) tokens ltac:(lia) ltac:(mlia) ltac:(mlia) Htok) as [[? ->]|[_ ->]];
      [lia|]. assert (0 <= bc_virtual_token_reserves c * budget / (bc_virtual_sol_reserves c + budget));
      [apply Z.div_pos; unfold_bounds; nia|lia]. }
  assert (Hle : cost <= budget)
    by (eapply (curve_quotes_dual _ _ budget tokens); [|exact Hvt| | |exact Hcost|exact Htok|]; mlia).
  pose proof (buy_cost_Some tokens (bc_virtual_sol_reserves c) (bc_virtual_token_reserves c) cost
    ltac:(lia) ltac:(mlia) ltac:(mlia) Hcost) as [Hu Hc].
  assert (0 <= cost).
  { destruct Hc as [[? ->]|[? ->]]; [lia|].
    pose proof (cdiv_bounds (bc_virtual_sol_reserves c * tokens) (bc_virtual_token_reserves c - tokens) ltac:(lia)). nia. }
  destruct (budget_covers sol_in fee_bps cost ltac:(mlia) ltac:(mlia) ltac:(done) ltac:(lia)) as [Hcs Hfits].
  assert (Hprod : in_u64 (cost * fee_bps)) by (unfold_bounds; nia).
  split_and!; [exact Hcost|lia|lia|exact Hfits|exact Hprod| |].
  - rewrite Z.mod_small by (change (2 ^ 64) with (u64_max + 1); mlia). f_equal.
    unfold saturating_add. mlia.
  - intros more cost' Hmore Hcost'. rewrite <- Hb. apply Z.nle_gt. intros Hfit.
    apply Z.lt_nge in Hmore. apply Hmore.
    eapply (curve_quotes_dual _ _ budget more); [|exact Hvt| | |exact Hcost'|exact Htok|]; mlia.
Qed.

(** The fresh curve of the program, in its raw units. *)
Definition fresh_curve : BondingCurveState :=
  mkBondingCurveState 1073000000000000 30000000000 793100000000000 0 1000000000000000 false 7
    None None None None None None 151.

Lemma plan_buy_within_budget_witness :
  plan_buy fresh_curve 1000000000 (f_of_Z 20) 100 = Ok (34277831558567, 1199880000)
  /\ exists cost, buy_cost 34277831558567 fresh_curve = Some cost
       /\ cost + cost * 100 / BPS_DENOM <= 1000000000.
Proof.
  assert (Hp : plan_buy fresh_curve 1000000000 (f_of_Z 20) 100 = Ok (34277831558567, 1199880000))
    by (vm_compute; reflexivity).
  assert (Hw : curve_wf fresh_curve) by (unfold curve_wf; cbn; mlia).
  assert (Hs : in_u64 1000000000) by mlia. assert (Hf : in_u64 100) by mlia.
  split; [exact Hp|].
  destruct (plan_buy_within_budget fresh_curve 1000000000 (f_of_Z 20) 100 34277831558567 1199880000
    Hw eq_refl Hs Hf Hp) as (cost & Hc & _ & Hfits & _).
  exists cost. exact (conj Hc Hfits).
Defined.

(** * Accounts that were read *)

Lemma slice_Some off n data b :
  slice off n data = Some b -> (off + n <= length data)%nat /\ b = take n (drop off data) /\ length b = n.
Proof.
  unfold slice. destruct (Nat.leb_spec (off + n) (length data)); [|done]. intros [= <-].
  split_and!; [done|done|]. rewrite length_take, length_drop. lia.
Qed.

Lemma read_u64_range data off : Forall in_u8 data -> in_u64 (read_u64 data off).
Proof.
  intros Hd. unfold read_u64. destruct (slice off 8 data) as [b|] eqn:Hb; [|mlia].
  apply slice_Some in Hb as (_ & -> & Hl).
  pose proof (from_le_range (take 8 (drop off data)) ltac:(by apply Forall_take, Forall_drop)) as Hr.
  rewrite Hl in Hr. change (2 ^ (8 * Z.of_nat 8)) with (u64_max + 1) in Hr. mlia.
Qed.

(** Reading a curve never panics, and what it accepts is an account of the
    program with figures in range whose quote mint is never the zero key: a
    version that does not carry a field yields none of it. *)
Theorem curve_parse_sound data (Hd : Forall in_u8 data) :
  match BondingCurveState_parse data with
  | Ok c =>
      curve_wf c /\ take 8 data = PUMP_ACC_DISC_BONDING_CURVE /\ c.(bc_raw_len) = length data
      /\ (BONDING_CURVE_MIN_LEN <= length data)%nat
      /\ c.(bc_quote_mint) <> Some 0 /\ quote_mint_or_wsol c <> 0
      /\ (c.(bc_quote_mint) <> None -> (BC_OFF_QUOTE_MINT + 32 <= length data)%nat)
      /\ (c.(bc_creator_fee_bps) <> None <-> (BC_OFF_CREATOR_FEE_BPS + 8 <= length data)%nat)
      /\ (c.(bc_is_holder_reward) <> None <-> is_v2 c = true)
  | Err _ => (length data < BONDING_CURVE_MIN_LEN)%nat \/ take 8 data <> PUMP_ACC_DISC_BONDING_CURVE
  | Panic => False
  end.
Proof.
  unfold BondingCurveState_parse. destruct (Nat.ltb_spec (length data) BONDING_CURVE_MIN_LEN); [by left|].
  cbn [reject_if mbind outcome_bind]. case_bool_decide as Hdisc; cbn [negb reject_if mbind outcome_bind];
    [|by right].
  unfold flag_at at 1. destruct (data !! BC_OFF_COMPLETE) as [b|] eqn:Hb; cbn [fmap option_fmap option_map].
  2:{ apply lookup_ge_None in Hb. unfold BC_OFF_COMPLETE, BONDING_CURVE_MIN_LEN in *. lia. }
  unfold curve_wf, quote_mint_or_wsol, is_v2.
  cbn [bc_virtual_token_reserves bc_virtual_sol_reserves bc_real_token_reserves bc_raw_len bc_quote_mint
    bc_creator_fee_bps bc_is_holder_reward].
  split_and!; try done; try by apply read_u64_range.
  - destruct (slice _ _ _); cbn; [|done]. destruct (Z.eqb_spec (read_pubkey data BC_OFF_QUOTE_MINT) 0);
      congruence.
  - destruct (slice _ _ _); cbn; [|done].
    destruct (read_pubkey data BC_OFF_QUOTE_MINT =? 0) eqn:Hz; [done|]. rewrite Hz. by apply Z.eqb_neq.
  - destruct (slice _ _ _) eqn:Hs; [|done]. by apply slice_Some in Hs as [].
  - unfold optional_u64, slice. by destruct (Nat.leb_spec (BC_OFF_CREATOR_FEE_BPS + 8) (length data)) as [|?%Nat.lt_nge].
  - unfold flag_at. rewrite Nat.leb_le. unfold BONDING_CURVE_V2_LEN.
    destruct (data !! BC_OFF_IS_HOLDER_REWARD) eqn:Hh.
    + by apply lookup_lt_Some in Hh.
    + apply lookup_ge_None, Nat.le_ngt in Hh. by split.
Qed.

Definition demo_curve_bytes : list Z :=
  PUMP_ACC_DISC_BONDING_CURVE ++ concat (replicate 5 (le_bytes 8 1000)) ++ [0] ++ replicate 32 7
  ++ [0; 1] ++ replicate 32 0 ++ le_bytes 8 30 ++ [0; 0].

Definition demo_curve : BondingCurveState :=
  mkBondingCurveState 1000 1000 1000 1000 1000 false
    0x0707070707070707070707070707070707070707070707070707070707070707 (Some false) (Some true) None
    (Some 30) (Some false) (Some false) 125.

Lemma curve_parse_sound_witness :
  BondingCurveState_parse demo_curve_bytes = Ok demo_curve /\ quote_mint_or_wsol demo_curve <> 0.
Proof.
  assert (Hd : Forall in_u8 demo_curve_bytes)
    by (vm_compute; repeat (constructor; [split; discriminate|]); constructor).
  assert (Hp : BondingCurveState_parse demo_curve_bytes = Ok demo_curve) by (vm_compute; reflexivity).
  pose proof (curve_parse_sound demo_curve_bytes Hd) as Hs. rewrite Hp in Hs.
  destruct Hs as (_ & _ & _ & _ & _ & Hq & _). exact (conj Hp Hq).
Defined.

(** * The product with a fee *)

(** A swap never takes the whole reserve, and the product never falls. *)
Lemma constant_product_out_safe x ri ro fn fd :
  in_u64 x -> in_u64 ri -> in_u64 ro -> in_u64 fd -> 0 <= fn <= fee_den fd ->
  let out := constant_product_out x ri ro fn fd in
  0 <= out /\ (0 < ro -> out < ro) /\ ri * ro <= (ri + x) * (ro - out).
Proof.
  intros Hx Hri Hro Hfd Hfn out. unfold out, constant_product_out.
  assert (Hden : 0 < fee_den fd <= u64_max) by (unfold fee_den, BPS_DENOM; destruct (Z.eqb_spec fd 0); mlia).
  destruct (_ || _) eqn:Hz; [bool_to_prop; unfold_bounds; nia|]. bool_to_prop. cbv zeta.
  unfold u128_wrap, saturating_mul. rewrite (Z.mod_small (fee_den fd - fn)) by (change (2 ^ 128) with (u128_max + 1); mlia).
  set (k := fee_den fd - fn). assert (Hk : 0 <= k <= fee_den fd) by (subst k; lia).
  rewrite (Z.min_r u128_max) by (unfold_bounds; nia).
  set (a := x * k / fee_den fd).
  assert (Ha : 0 <= a <= x).
  { split; [apply Z.div_pos; unfold_bounds; nia|apply Z.div_le_upper_bound; unfold_bounds; nia]. }
  rewrite (Z.min_r u128_max) by (unfold_bounds; nia).
  rewrite (Z.mod_small (ri + a)) by (change (2 ^ 128) with (u128_max + 1); mlia).
  destruct (Z.eqb_spec (ri + a) 0); [mlia|].
  pose proof (Z.mul_div_le (a * ro) (ri + a) ltac:(mlia)).
  assert (0 <= a * ro / (ri + a)) by (apply Z.div_pos; mlia || nia).
  assert (a * ro / (ri + a) < ro) by (apply Z.div_lt_upper_bound; unfold_bounds; nia).
  rewrite Z.min_r by mlia. split_and!; unfold_bounds; nia.
Qed.

(** The inverse is not one: the input it asks for buys less than was wanted,
    and on large reserves the product wraps and it asks for far too little. *)
Theorem constant_product_in_falls_short :
  constant_product_in 5 1000 1000 25 10000 = 6
  /\ constant_product_out 6 1000 1000 25 10000 = 4
  /\ constant_product_in 900000000000000000 100000000000000000 1000000000000000000 25 10000
     = 219985229231201076
  /\ constant_product_out 219985229231201076 100000000000000000 1000000000000000000 25 10000
     = 686947527107106636.
Proof. split_and!; by vm_compute. Qed.

(** A percentage is taken in floating point: above two to the 53 even zero per
    cent changes the amount. *)
Theorem apply_pct_not_exact : apply_pct_u64 9007199254740993 fzero = 9007199254740992.
Proof. by vm_compute. Qed.

(** A fully extended current account, of 125 bytes, still asks to be extended. *)
Theorem v2_account_asks_extension :
  let c := mkBondingCurveState 1 1 1 0 1 false 7 (Some false) (Some true) None (Some 30) (Some false)
             (Some false) BONDING_CURVE_V2_LEN in
  is_v2 c = true /\ needs_extend c = true.
Proof. by split. Qed.
