(* ===== verification/PumpLayout.v ===== *)
(** The accounts of a pump.fun trade: derived addresses and the trade context
    of [crates/solana-kit/src/pump.rs], the account layouts of [layout.rs] and
    the instructions built from them.  Address derivation and the text form of a
    key belong to the SDK: they are the class [SdkKeys] with its laws.  The
    replies of the RPC node are arguments; HashMap order is [HashOrder]. *)
From stdpp Require Import prelude countable gmap list strings.
From Stdlib Require Import ZArith Lia.
From S2P Require Import Prelude.
From S2P Require Import BotCore.
From S2P Require Import ByteReader.
From S2P Require Import Text.
From S2P Require Import RpcPool.
From S2P Require Import PumpCurve.

#[local] Open Scope Z_scope.

Class SdkKeys : Type := {
  find_program_address : list (list Z) -> Z -> Z;
  associated_token_address : Z -> Z -> Z -> Z;    (* owner, mint, token program *)
  key_text : Z -> text;
  key_of_text : text -> option Z;
}.

(** [Pubkey::try_from] reads what [to_string] wrote. *)
Class SdkKeysLaws `{SdkKeys} : Prop :=
  key_text_parse : forall k, key_of_text (key_text k) = Some k.

(** * Layouts ([layout.rs]) *)

Inductive Slot : Type :=
  | Named (name : text) (writable signer : bool)
  | FixedKey (pubkey : text) (writable signer : bool).

Definition slot_name (s : Slot) : text := match s with Named n _ _ | FixedKey n _ _ => n end.
Definition slot_writable (s : Slot) : bool := match s with Named _ w _ | FixedKey _ w _ => w end.
Definition slot_signer (s : Slot) : bool := match s with Named _ _ g | FixedKey _ _ g => g end.

Record AccountLayout : Type := mkAccountLayout {
  al_program_id : text;
  al_instruction : text;
  al_slots : list Slot;
  al_learned_from : option text;
  al_learned_at : option text;
  al_trusted : bool;
}.

Definition with_slots (slots : list Slot) (l : AccountLayout) : AccountLayout :=
  mkAccountLayout l.(al_program_id) l.(al_instruction) slots l.(al_learned_from)
    l.(al_learned_at) l.(al_trusted).

Record LayoutStore : Type := mkLayoutStore { layouts : gmap text AccountLayout }.

Section Layouts.
Context `{SdkKeys}.

(** [Slot::resolve]. *)
Definition slot_resolve (derived : gmap text Z) (s : Slot) : option AccountMeta :=
  match s with
  | Named n w g => (fun k => mkAccountMeta k g w) <$> derived !! n
  | FixedKey p w g => (fun k => mkAccountMeta k g w) <$> key_of_text p
  end.

(** [AccountLayout::new]. *)
Definition AccountLayout_new (program_id : Z) (instruction : text) (slots : list Slot) : AccountLayout :=
  mkAccountLayout (key_text program_id) instruction slots None None false.

(** The accounts, or the names of the slots that are missing. *)
Definition resolve_slots (derived : gmap text Z) (slots : list Slot) : list AccountMeta * list text :=
  fold_left (fun acc s => match slot_resolve derived s with
                          | Some m => (acc.1 ++ [m], acc.2)
                          | None => (acc.1, acc.2 ++ [slot_name s])
                          end) slots ([], []).

Definition layout_build (l : AccountLayout) (derived : gmap text Z) : BotResult (list AccountMeta) :=
  let r := resolve_slots derived l.(al_slots) in
  match r.2 with [] => Ok r.1 | _ => Err Solana end.

Definition push_fixed (k : Z) (w g : bool) (l : AccountLayout) : AccountLayout :=
  with_slots (l.(al_slots) ++ [FixedKey (key_text k) w g]) l.

Definition push_named (n : text) (w g : bool) (l : AccountLayout) : AccountLayout :=
  with_slots (l.(al_slots) ++ [Named n w g]) l.

Definition learned_slot (known : gmap Z text) (m : AccountMeta) : Slot :=
  match known !! m.(am_pubkey) with
  | Some n => Named n m.(am_is_writable) m.(am_is_signer)
  | None => FixedKey (key_text m.(am_pubkey)) m.(am_is_writable) m.(am_is_signer)
  end.

Definition learn (now : text) (accounts : list AccountMeta) (known : gmap Z text)
    (signature : option text) (l : AccountLayout) : AccountLayout :=
  mkAccountLayout l.(al_program_id) l.(al_instruction) (map (learned_slot known) accounts)
    signature (Some now) true.

Definition store_key (program_id : Z) (instruction : text) : text :=
  key_text program_id ++ lit ":" ++ instruction.

Definition store_get (program_id : Z) (instruction : text) (s : LayoutStore) : option AccountLayout :=
  s.(layouts) !! store_key program_id instruction.

Definition store_insert (l : AccountLayout) (s : LayoutStore) : LayoutStore :=
  mkLayoutStore (<[store_key (default 0 (key_of_text l.(al_program_id))) l.(al_instruction) := l]>
                   s.(layouts)).

(** ** What is learned can be replayed *)

Lemma resolve_slots_all derived slots ms acc :
  Forall2 (fun s m => slot_resolve derived s = Some m) slots ms ->
  fold_left (fun acc s => match slot_resolve derived s with
                          | Some m => (acc.1 ++ [m], acc.2)
                          | None => (acc.1, acc.2 ++ [slot_name s])
                          end) slots acc = (acc.1 ++ ms, acc.2).
Proof.
  intros Hs. revert acc. induction Hs as [|s m slots ms Hm _ IH]; intros [a b]; cbn [fold_left].
  - by rewrite app_nil_r.
  - rewrite Hm, IH. cbn. by rewrite <- (assoc_L (++)).
Qed.

Lemma layout_build_all l derived ms :
  Forall2 (fun s m => slot_resolve derived s = Some m) l.(al_slots) ms ->
  layout_build l derived = Ok ms.
Proof. intros Hs. unfold layout_build, resolve_slots. by rewrite (resolve_slots_all _ _ _ _ Hs). Qed.

(** A build that succeeds resolved every slot, in order. *)
Lemma resolve_slots_missing derived slots acc :
  (fold_left (fun acc s => match slot_resolve derived s with
                           | Some m => (acc.1 ++ [m], acc.2)
                           | None => (acc.1, acc.2 ++ [slot_name s])
                           end) slots acc).2 = [] ->
  acc.2 = [] /\ exists ms, Forall2 (fun s m => slot_resolve derived s = Some m) slots ms.
Proof.
  revert acc. induction slots as [|s slots IH]; intros acc; cbn [fold_left].
  { intros Ha. split; [done|]. by exists []. }
  intros Hf. apply IH in Hf as [Ha [ms Hms]]. destruct (slot_resolve derived s) as [m|] eqn:Hm.
  - split; [exact Ha|]. exists (m :: ms). by constructor.
  - cbn in Ha. by apply app_nil in Ha as [_ ?].
Qed.

Lemma layout_build_iff l derived ms :
  layout_build l derived = Ok ms
  <-> Forall2 (fun s m => slot_resolve derived s = Some m) l.(al_slots) ms.
Proof.
  split; [|apply layout_build_all]. unfold layout_build. intros Hb.
  destruct (resolve_slots derived (al_slots l)).2 eqn:He; [|done].
  destruct (resolve_slots_missing derived _ ([], []) He) as [_ [ms' Hms]].
  unfold resolve_slots in Hb. rewrite (resolve_slots_all _ _ _ _ Hms) in Hb. cbn in Hb.
  by injection Hb as <-.
Qed.
End Layouts.

(** * Derived addresses ([pump.rs]) *)

Definition PUMP_PROGRAM_ID : Z := 0x156e0f693665acf44db1568bf175baa5189cb97f5d2ff3b655d2bb6fd6d18b0.
Definition PUMP_FEES_PROGRAM_ID : Z := 0xc35ffa9055a8e568da8f7bc075615274cf1c92ca41f40009c516aa414c27c70.
Definition PUMP_GLOBAL : Z := 0x3a865e69ee0f5480cabcf66357e4dc2f18d58d45c1ea7489fb3723d9793c72a6.
Definition TOKEN_PROGRAM : Z := 0x6ddf6e1d765a193d9cbe146ceeb79ac1cb485ed5f5b37913a8cf5857eff00a9.
Definition ASSOCIATED_TOKEN_PROGRAM : Z := 0x8c97258f4e2489f1bb3d1029148e0d830b5a1399daff1084048e7bd8dbe9f859.

(** The eight interchangeable recipients; which one is random. *)
Definition BREAKING_FEE_RECIPIENTS : list Z :=
  [0x439e6510c03d65fad931e89d04be0bb70d51971f51c415fb344c07db419f2122;
   0x2235516a917134c67588c493820ae155ee96665577ac1b718da47ddcf2a050e;
   0xe6a7e22068bb88640aa57f909308c61fef711a0163f5a755c070bc860d1f6367;
   0x207cecda5bcc6cb1eaf0f16d68404566b18d56d2481acb317032656e90551c78;
   0x449641f84958dc73a76a85d8756f55c02cdaca89ba1932790c368ab157e92d73;
   0xc54b96b5c931941e46ea4be2e0e31127744fc6b74cfb455efeaf8bd571792ced;
   0x44fc1f78f94a33d0909c5e6b5fb021570ad8dbad8de8fdb3d20ed1cd99eb8e4e;
   0x8770157eebeb678a655db99b37f6b1326c7657db90cfb8a87abef8c7b6f2c869].

Definition seed (s : string) : list Z := lit s.

Definition key_bytes (k : Z) : list Z := pubkey_to_bytes k.

Section Derived.
Context `{SdkKeys}.

Definition pda (seeds : list (list Z)) : Z := find_program_address seeds PUMP_PROGRAM_ID.

Definition bonding_curve_pda (mint : Z) : Z := pda [seed "bonding-curve"; key_bytes mint].
Definition bonding_curve_v2_pda (mint : Z) : Z := pda [seed "bonding-curve-v2"; key_bytes mint].
Definition creator_vault_pda (creator : Z) : Z := pda [seed "creator-vault"; key_bytes creator].
Definition event_authority_pda : Z := pda [seed "__event_authority"].
Definition global_volume_accumulator_pda : Z := pda [seed "global_volume_accumulator"].
Definition user_volume_accumulator_pda (user : Z) : Z :=
  pda [seed "user_volume_accumulator"; key_bytes user].
Definition fee_config_pda : Z :=
  find_program_address [seed "fee_config"; key_bytes PUMP_PROGRAM_ID] PUMP_FEES_PROGRAM_ID.
Definition sharing_config_pda (mint : Z) : Z := pda [seed "sharing-config"; key_bytes mint].
Definition mint_authority_pda : Z := pda [seed "mint-authority"].
Definition associated_bonding_curve (mint token_program : Z) : Z :=
  associated_token_address (bonding_curve_pda mint) mint token_program.
Definition associated_user (mint user token_program : Z) : Z :=
  associated_token_address user mint token_program.
End Derived.

(** * The trade context *)

Record PumpContext : Type := mkPumpContext {
  px_mint : Z;
  px_user : Z;
  px_token_program : Z;
  px_global : Z;
  px_fee_recipient : Z;
  px_bonding_curve : Z;
  px_bonding_curve_v2 : Z;
  px_associated_bonding_curve : Z;
  px_associated_user : Z;
  px_creator : Z;
  px_creator_vault : Z;
  px_event_authority : Z;
  px_global_volume_accumulator : Z;
  px_user_volume_accumulator : Z;
  px_fee_config : Z;
  px_fee_program : Z;
  px_trailing_fee_recipient : Z;
  px_global_state : GlobalState;
  px_quote_mint : Z;
  px_quote_token_program : Z;
  px_associated_token_program : Z;
  px_buyback_fee_recipient : Z;
  px_associated_quote_fee_recipient : Z;
  px_associated_quote_buyback_fee_recipient : Z;
  px_associated_base_bonding_curve : Z;
  px_associated_quote_bonding_curve : Z;
  px_associated_base_user : Z;
  px_associated_quote_user : Z;
  px_associated_creator_vault : Z;
  px_associated_user_volume_accumulator : Z;
  px_sharing_config : Z;
  px_base_mint : Z;
  px_base_token_program : Z;
  px_curve : BondingCurveState;
  px_user_ata_exists : bool;
}.

Definition named_list (c : PumpContext) : list (text * Z) :=
  [(lit "global", c.(px_global));
   (lit "fee_recipient", c.(px_fee_recipient));
   (lit "mint", c.(px_mint));
   (lit "bonding_curve", c.(px_bonding_curve));
   (lit "bonding_curve_v2", c.(px_bonding_curve_v2));
   (lit "associated_bonding_curve", c.(px_associated_bonding_curve));
   (lit "associated_user", c.(px_associated_user));
   (lit "user", c.(px_user));
   (lit "system_program", SYSTEM_PROGRAM);
   (lit "token_program", c.(px_token_program));
   (lit "creator", c.(px_creator));
   (lit "creator_vault", c.(px_creator_vault));
   (lit "event_authority", c.(px_event_authority));
   (lit "program", PUMP_PROGRAM_ID);
   (lit "global_volume_accumulator", c.(px_global_volume_accumulator));
   (lit "user_volume_accumulator", c.(px_user_volume_accumulator));
   (lit "fee_config", c.(px_fee_config));
   (lit "fee_program", c.(px_fee_program));
   (lit "trailing_fee_recipient", c.(px_trailing_fee_recipient));
   (lit "base_mint", c.(px_base_mint));
   (lit "quote_mint", c.(px_quote_mint));
   (lit "base_token_program", c.(px_base_token_program));
   (lit "quote_token_program", c.(px_quote_token_program));
   (lit "associated_token_program", c.(px_associated_token_program));
   (lit "buyback_fee_recipient", c.(px_buyback_fee_recipient));
   (lit "associated_quote_fee_recipient", c.(px_associated_quote_fee_recipient));
   (lit "associated_quote_buyback_fee_recipient", c.(px_associated_quote_buyback_fee_recipient));
   (lit "associated_base_bonding_curve", c.(px_associated_base_bonding_curve));
   (lit "associated_quote_bonding_curve", c.(px_associated_quote_bonding_curve));
   (lit "associated_base_user", c.(px_associated_base_user));
   (lit "associated_quote_user", c.(px_associated_quote_user));
   (lit "associated_creator_vault", c.(px_associated_creator_vault));
   (lit "associated_user_volume_accumulator", c.(px_associated_user_volume_accumulator));
   (lit "sharing_config", c.(px_sharing_config));
   (lit "account", c.(px_bonding_curve))].

Definition named_accounts (c : PumpContext) : gmap text Z := list_to_map (named_list c).

(** [reverse_names]: of two names of one key, the one that comes later in the
    order of the map stays. *)
Definition reverse_names `{HashOrder} (c : PumpContext) : gmap Z text :=
  fold_left (fun m kv => <[kv.2 := kv.1]> m) (hash_iter (named_accounts c)) ∅.

Record ChainAccount : Type := mkChainAccount { ca_owner : Z; ca_data : list Z }.

(** What the node and its account cache answer while a context is loaded, and
    the recipient the random choice falls on. *)
Record ChainReplies : Type := mkChainReplies {
  rp_cached_global : option ChainAccount;
  rp_curve_account : BotResult (option ChainAccount);
  rp_both_accounts : BotResult (list (option ChainAccount));
  rp_token_program_of : Z -> BotResult Z;
  rp_account_exists : Z -> BotResult bool;
  rp_choice : nat;
}.

Section Load.
Context `{SdkKeys}.

(** The global account from the cache or both in one call; the second result is
    what goes into the cache. *)
Definition fetch_accounts (r : ChainReplies)
    : BotResult (list (option ChainAccount)) * option ChainAccount :=
  match r.(rp_cached_global) with
  | Some g => (c ← r.(rp_curve_account); Ok [Some g; c], None)
  | None => (r.(rp_both_accounts),
             match r.(rp_both_accounts) with Ok (g :: _) => g | _ => None end)
  end.

Definition pick_breaking_fee_recipient (choice : nat) : Z :=
  nth (choice mod length BREAKING_FEE_RECIPIENTS) BREAKING_FEE_RECIPIENTS 0.

Definition owned_account (accounts : list (option ChainAccount)) (i : nat) : BotResult ChainAccount :=
  a ← ok_or (accounts !! i ≫= id) NotFound;
  reject_if (negb (a.(ca_owner) =? PUMP_PROGRAM_ID)) Solana ;;
  Ok a.

(** [PumpContext::load_inner] past the fetch. *)
Definition load_inner (r : ChainReplies) (mint user : Z) (fee_recipient_override : option Z)
    (strict : bool) : BotResult PumpContext :=
  let bonding_curve := bonding_curve_pda mint in
  accounts ← (fetch_accounts r).1;
  global_account ← owned_account accounts 0;
  curve_account ← owned_account accounts 1;
  global_state ← GlobalState_parse global_account.(ca_data);
  curve ← BondingCurveState_parse curve_account.(ca_data);
  reject_if ((curve.(bc_creator) =? 0) || (curve.(bc_token_total_supply) =? 0)) Solana ;;
  reject_if (strict && match curve_refusal curve with Some _ => true | None => false end) Solana ;;
  token_program ← r.(rp_token_program_of) mint;
  let user_ata := associated_user mint user token_program in
  user_ata_exists ← r.(rp_account_exists) user_ata;
  let quote_mint := quote_mint_or_wsol curve in
  quote_token_program ← (if quote_mint =? WSOL_MINT then Ok TOKEN_PROGRAM
                         else r.(rp_token_program_of) quote_mint);
  reject_if (quote_mint =? mint) Solana ;;
  let fee_recipient := default global_state.(gl_fee_recipient) fee_recipient_override in
  reject_if (fee_recipient =? 0) Solana ;;
  let buyback := default fee_recipient
    (snd <$> list_find (fun k => k <> 0) global_state.(gl_fee_recipients)) in
  let creator_vault := creator_vault_pda curve.(bc_creator) in
  let user_volume := user_volume_accumulator_pda user in
  let quote_ata := fun owner => associated_token_address owner quote_mint quote_token_program in
  Ok (mkPumpContext mint user token_program PUMP_GLOBAL fee_recipient bonding_curve
        (bonding_curve_v2_pda mint) (associated_bonding_curve mint token_program) user_ata
        curve.(bc_creator) creator_vault event_authority_pda global_volume_accumulator_pda
        user_volume fee_config_pda PUMP_FEES_PROGRAM_ID
        (pick_breaking_fee_recipient r.(rp_choice)) global_state quote_mint quote_token_program
        ASSOCIATED_TOKEN_PROGRAM buyback (quote_ata fee_recipient) (quote_ata buyback)
        (associated_token_address bonding_curve mint token_program) (quote_ata bonding_curve)
        (associated_token_address user mint token_program) (quote_ata user)
        (quote_ata creator_vault) (quote_ata user_volume) (sharing_config_pda mint) mint
        token_program curve user_ata_exists).

Definition load (r : ChainReplies) (mint user : Z) (fee_recipient_override : option Z) :=
  load_inner r mint user fee_recipient_override true.
Definition load_observed (r : ChainReplies) (mint user : Z) (fee_recipient_override : option Z) :=
  load_inner r mint user fee_recipient_override false.

(** * Default layouts *)

(** The layout of named slots. *)
Definition named_layout (instruction : string) (slots : list (string * bool * bool)) : AccountLayout :=
  fold_left (fun l s => push_named (lit s.1.1) s.1.2 s.2 l) slots
    (AccountLayout_new PUMP_PROGRAM_ID (lit instruction) []).

Definition default_buy_layout : AccountLayout :=
  named_layout "buy"
    [("global", false, false); ("fee_recipient", true, false); ("mint", false, false);
     ("bonding_curve", true, false); ("associated_bonding_curve", true, false);
     ("associated_user", true, false); ("user", true, true); ("system_program", false, false);
     ("token_program", false, false); ("creator_vault", true, false);
     ("event_authority", false, false); ("program", false, false);
     ("global_volume_accumulator", false, false); ("user_volume_accumulator", true, false);
     ("fee_config", false, false); ("fee_program", false, false)]%string.

Definition default_sell_layout : AccountLayout :=
  named_layout "sell"
    [("global", false, false); ("fee_recipient", true, false); ("mint", false, false);
     ("bonding_curve", true, false); ("associated_bonding_curve", true, false);
     ("associated_user", true, false); ("user", true, true); ("system_program", false, false);
     ("creator_vault", true, false); ("token_program", false, false);
     ("event_authority", false, false); ("program", false, false); ("fee_config", false, false);
     ("fee_program", false, false)]%string.

Definition default_buy_v2_layout : AccountLayout :=
  named_layout "buy_v2"
    [("global", false, false); ("base_mint", false, false); ("quote_mint", false, false);
     ("base_token_program", false, false); ("quote_token_program", false, false);
     ("associated_token_program", false, false); ("fee_recipient", true, false);
     ("associated_quote_fee_recipient", true, false); ("buyback_fee_recipient", true, false);
     ("associated_quote_buyback_fee_recipient", true, false); ("bonding_curve", true, false);
     ("associated_base_bonding_curve", true, false);
     ("associated_quote_bonding_curve", true, false); ("user", true, true);
     ("associated_base_user", true, false); ("associated_quote_user", true, false);
     ("creator_vault", true, false); ("associated_creator_vault", true, false);
     ("sharing_config", false, false); ("global_volume_accumulator", false, false);
     ("user_volume_accumulator", true, false);
     ("associated_user_volume_accumulator", true, false); ("fee_config", false, false);
     ("fee_program", false, false); ("system_program", false, false);
     ("event_authority", false, false); ("program", false, false)]%string.

Definition is_named (n : text) (s : Slot) : Prop := match s with Named m _ _ => m = n | _ => False end.
#[export] Instance is_named_dec n s : Decision (is_named n s).
Proof. destruct s; cbn; apply _. Defined.

(** Drops the first slot of that name. *)
Definition remove_first (n : text) (slots : list Slot) : list Slot :=
  match list_find (is_named n) slots with Some (i, _) => delete i slots | None => slots end.

Definition default_sell_v2_layout : AccountLayout :=
  let l := default_buy_v2_layout in
  mkAccountLayout l.(al_program_id) (lit "sell_v2")
    (remove_first (lit "global_volume_accumulator") l.(al_slots)) l.(al_learned_from)
    l.(al_learned_at) l.(al_trusted).

(** The four trailing shapes. *)
Definition trailing_variants (base : AccountLayout) : list AccountLayout :=
  let b := push_named (lit "bonding_curve_v2") false false base in
  [base; b; push_named (lit "trailing_fee_recipient") true false b;
   push_named (lit "trailing_fee_recipient") true false base].

Definition buy_layout_variants : list AccountLayout := trailing_variants default_buy_layout.
Definition sell_layout_variants : list AccountLayout := trailing_variants default_sell_layout.

Definition extend_account_layout : AccountLayout :=
  named_layout "extend_account"
    [("account", true, false); ("user", true, true); ("system_program", false, false);
     ("event_authority", false, false); ("program", false, false)]%string.

(** * Instructions *)

Record BuildOptions : Type := mkBuildOptions {
  bo_extra_accounts : list text;
  bo_append_bonding_curve_v2 : bool;
  bo_append_trailing_fee_recipient : bool;
  bo_variant_extra_accounts : bool;
  bo_exact_sol_in : bool;
  bo_track_volume : bool;
}.

Definition BuildOptions_default : BuildOptions := mkBuildOptions [] true true false false false.

Definition keep_unless (strip : bool) (n : text) (slots : list Slot) : list Slot :=
  if strip then filter (fun s => ~ is_named n s) slots else slots.

(** An extra account that does not parse is skipped. *)
Definition push_extra (l : AccountLayout) (extra : text) : AccountLayout :=
  match key_of_text (trim extra) with Some k => push_fixed k false false l | None => l end.

Definition effective_layout (store : LayoutStore) (dflt : AccountLayout) (opts : BuildOptions)
    : AccountLayout :=
  let derived :=
    let slots := keep_unless (negb opts.(bo_append_bonding_curve_v2)) (lit "bonding_curve_v2")
                   dflt.(al_slots) in
    let slots := keep_unless (negb opts.(bo_append_trailing_fee_recipient))
                   (lit "trailing_fee_recipient") slots in
    fold_left push_extra opts.(bo_extra_accounts) (with_slots slots dflt) in
  match store_get PUMP_PROGRAM_ID dflt.(al_instruction) store with
  | Some learned => if learned.(al_trusted) then learned else derived
  | None => derived
  end.

Definition PUMP_DISC_BUY : list Z := [102; 6; 61; 18; 1; 218; 235; 234].
Definition PUMP_DISC_SELL : list Z := [51; 230; 133; 164; 1; 127; 131; 173].
Definition PUMP_DISC_BUY_EXACT_SOL_IN : list Z := [56; 252; 116; 8; 158; 223; 205; 95].
Definition PUMP_DISC_EXTEND_ACCOUNT : list Z := [234; 102; 194; 203; 150; 72; 62; 229].

Definition buy_data (opts : BuildOptions) (amount max_sol_cost : Z) : list Z :=
  (if opts.(bo_exact_sol_in) then PUMP_DISC_BUY_EXACT_SOL_IN else PUMP_DISC_BUY)
  ++ le_bytes 8 amount ++ le_bytes 8 max_sol_cost
  ++ (if opts.(bo_exact_sol_in) then [] else [if opts.(bo_track_volume) then 1 else 0]).

Definition build_buy_ix (c : PumpContext) (store : LayoutStore) (opts : BuildOptions)
    (amount max_sol_cost : Z) : BotResult Instruction :=
  accounts ← layout_build (effective_layout store default_buy_layout opts) (named_accounts c);
  Ok (mkInstruction PUMP_PROGRAM_ID accounts (buy_data opts amount max_sol_cost)).

Definition sell_data (amount min_sol_output : Z) : list Z :=
  PUMP_DISC_SELL ++ le_bytes 8 amount ++ le_bytes 8 min_sol_output.

Definition build_sell_ix (c : PumpContext) (store : LayoutStore) (opts : BuildOptions)
    (amount min_sol_output : Z) : BotResult Instruction :=
  accounts ← layout_build (effective_layout store default_sell_layout opts) (named_accounts c);
  Ok (mkInstruction PUMP_PROGRAM_ID accounts (sell_data amount min_sol_output)).

Definition build_extend_account_ix (c : PumpContext) : Instruction :=
  mkInstruction PUMP_PROGRAM_ID
    [mkAccountMeta c.(px_bonding_curve) false true; mkAccountMeta c.(px_user) true true;
     mkAccountMeta SYSTEM_PROGRAM false false; mkAccountMeta c.(px_event_authority) false false;
     mkAccountMeta PUMP_PROGRAM_ID false false]
    PUMP_DISC_EXTEND_ACCOUNT.
End Load.

(** * What an instruction carries *)

Section Correct.
Context `{SdkKeys}.

(** No learned layout that is trusted. *)
Definition nothing_learned (store : LayoutStore) (instruction : text) : Prop :=
  match store_get PUMP_PROGRAM_ID instruction store with
  | Some l => l.(al_trusted) = false
  | None => True
  end.

Lemma effective_layout_default store dflt opts :
  nothing_learned store dflt.(al_instruction) ->
  opts.(bo_extra_accounts) = [] ->
  Forall (fun s => ~ is_named (lit "bonding_curve_v2") s
                   /\ ~ is_named (lit "trailing_fee_recipient") s) dflt.(al_slots) ->
  effective_layout store dflt opts = dflt.
Proof.
  unfold nothing_learned, effective_layout. intros Hs -> Hn. cbn [fold_left].
  assert (Hk : forall n b, Forall (fun s => ~ is_named n s) dflt.(al_slots) ->
            keep_unless b n dflt.(al_slots) = dflt.(al_slots)).
  { intros n b Hf. unfold keep_unless. destruct b; [|done]. induction Hf as [|s l Hh _ IH]; [done|].
    rewrite filter_cons_True by done. f_equal. apply IH. by inversion Hn. }
  rewrite !Hk by (eapply Forall_impl; [exact Hn|]; by intros s [? ?]).
  assert (Hw : with_slots dflt.(al_slots) dflt = dflt) by (by destruct dflt). rewrite Hw.
  destruct (store_get _ _ _) as [l|]; [by rewrite Hs|done].
Qed.

(** Unless a trusted layout was learned, a buy carries exactly the sixteen
    accounts of the program's interface, in order and with their flags, and data
    that reads back as the tokens asked for and the lamports they may cost;
    neither the curve's quirks nor the switches that are said to drop trailing
    accounts change that. *)
Theorem buy_instruction_exact c store opts amount max_cost
    (Hstore : nothing_learned store (lit "buy")) (Hextra : opts.(bo_extra_accounts) = [])
    (Hamount : in_u64 amount) (Hmax : in_u64 max_cost) :
  let ro k := mkAccountMeta k false false in
  let rw k := mkAccountMeta k false true in
  build_buy_ix c store opts amount max_cost
  = Ok (mkInstruction PUMP_PROGRAM_ID
      [ro c.(px_global); rw c.(px_fee_recipient); ro c.(px_mint); rw c.(px_bonding_curve);
       rw c.(px_associated_bonding_curve); rw c.(px_associated_user);
       mkAccountMeta c.(px_user) true true; ro SYSTEM_PROGRAM; ro c.(px_token_program);
       rw c.(px_creator_vault); ro c.(px_event_authority); ro PUMP_PROGRAM_ID;
       ro c.(px_global_volume_accumulator); rw c.(px_user_volume_accumulator);
       ro c.(px_fee_config); ro c.(px_fee_program)]
      (buy_data opts amount max_cost))
  /\ read_u64 (buy_data opts amount max_cost) 8 = amount
  /\ read_u64 (buy_data opts amount max_cost) 16 = max_cost.
Proof.
  intros ro rw. split.
  - unfold build_buy_ix. rewrite effective_layout_default; [|exact Hstore|exact Hextra|].
    + assert (Hb : layout_build default_buy_layout (named_accounts c) = Ok
        [ro c.(px_global); rw c.(px_fee_recipient); ro c.(px_mint); rw c.(px_bonding_curve);
         rw c.(px_associated_bonding_curve); rw c.(px_associated_user);
         mkAccountMeta c.(px_user) true true; ro SYSTEM_PROGRAM; ro c.(px_token_program);
         rw c.(px_creator_vault); ro c.(px_event_authority); ro PUMP_PROGRAM_ID;
         ro c.(px_global_volume_accumulator); rw c.(px_user_volume_accumulator);
         ro c.(px_fee_config); ro c.(px_fee_program)]).
      { apply layout_build_iff. destruct c. repeat constructor. }
      by rewrite Hb.
    + apply (bool_decide_unpack _). by vm_compute.
  - assert (Hd : exists tag rest, buy_data opts amount max_cost
              = tag ++ le_bytes 8 amount ++ le_bytes 8 max_cost ++ rest /\ length tag = 8%nat).
    { unfold buy_data. by destruct (bo_exact_sol_in opts); eexists _, _. }
    destruct Hd as (tag & rest & -> & Ht). unfold read_u64, slice.
    rewrite !length_app, !length_le_bytes, Ht. cbn [Nat.add Nat.leb].
    rewrite (drop_app_length' tag _ 8) by done.
    rewrite (take_app_length' (le_bytes 8 amount)) by (by rewrite length_le_bytes).
    rewrite (drop_app_ge tag _ 16) by lia. rewrite Ht. cbn [Nat.sub].
    rewrite (drop_app_length' (le_bytes 8 amount)) by (by rewrite length_le_bytes).
    rewrite (take_app_length' (le_bytes 8 max_cost)) by (by rewrite length_le_bytes).
    rewrite !from_le_fits by (change (2 ^ (8 * Z.of_nat 8)) with (u64_max + 1); mlia). done.
Qed.

(** What was learned is replayed: the layout learned from the accounts of a
    transaction, however the names of its keys were ordered, builds those very
    accounts again for the same trade. *)
Theorem learned_layout_replays `{HashOrder, !HashOrderLaws, !SdkKeysLaws} now signature c metas l :
  layout_build (learn now metas (reverse_names c) signature l) (named_accounts c) = Ok metas.
Proof.
  apply layout_build_iff. cbn [learn al_slots].
  assert (Hrev : forall k n, reverse_names c !! k = Some n -> named_accounts c !! n = Some k).
  { unfold reverse_names. intros k n.
    assert (Hgen : forall kvs m0, (forall k n, m0 !! k = Some n -> named_accounts c !! n = Some k) ->
              (forall kv, kv ∈ kvs -> named_accounts c !! kv.1 = Some kv.2) ->
              fold_left (fun (m : gmap Z text) kv => <[kv.2 := kv.1]> m) kvs m0 !! k = Some n ->
              named_accounts c !! n = Some k).
    { induction kvs as [|[a b] kvs IH]; intros m0 Hm0 Hin; cbn [fold_left]; [apply Hm0|].
      apply IH; [|intros; apply Hin; by constructor]. intros k' n'. cbn.
      destruct (decide (b = k')) as [->|]; [|rewrite lookup_insert_ne by done; apply Hm0].
      rewrite lookup_insert, decide_True by done. intros [= <-]. apply (Hin (a, k')). constructor. }
    apply Hgen; [done|]. intros [a b] Hab. apply elem_of_map_to_list.
    by rewrite <- (hash_iter_perm (named_accounts c)). }
  induction metas as [|m metas IH]; cbn [map]; constructor; [|exact IH].
  destruct m as [k g w]. unfold learned_slot. cbn [am_pubkey am_is_writable am_is_signer].
  destruct (reverse_names c !! k) as [n|] eqn:Hk; unfold slot_resolve;
    [by rewrite (Hrev _ _ Hk)|by rewrite key_text_parse].
Qed.

(** A trade is only ever planned on a live curve: a context that is loaded
    for trading has a curve that is neither complete nor without reserves, read
    from an account of the program, and pays a recipient that exists. *)
Theorem load_only_live r mint user recipient c (Hload : load r mint user recipient = Ok c) :
  c.(px_curve).(bc_complete) = false
  /\ c.(px_curve).(bc_virtual_token_reserves) <> 0 /\ c.(px_curve).(bc_virtual_sol_reserves) <> 0
  /\ c.(px_mint) = mint /\ c.(px_user) = user /\ c.(px_quote_mint) <> mint
  /\ c.(px_fee_recipient) <> 0
  /\ r.(rp_token_program_of) mint = Ok c.(px_token_program)
  /\ (exists a, (fetch_accounts r).1 = Ok a /\ exists x, a !! 1%nat = Some (Some x)
        /\ x.(ca_owner) = PUMP_PROGRAM_ID /\ BondingCurveState_parse x.(ca_data) = Ok c.(px_curve)).
Proof.
  unfold load, load_inner in Hload. cbn [andb] in Hload. cbv zeta in Hload. inv_ok. bool_to_prop. cbn.
  match goal with Hr : (match curve_refusal ?cv with _ => _ end) = false |- _ =>
    unfold curve_refusal, is_graduated in Hr; destruct (bc_complete cv) eqn:Hcm; [done|]; cbn [orb] in Hr;
    destruct (Z.eqb_spec (bc_virtual_token_reserves cv) 0), (Z.eqb_spec (bc_virtual_sol_reserves cv) 0); try done
  end.
  split_and!; try done.
  match goal with Ho : owned_account _ 1 = Ok ?x |- _ => unfold owned_account in Ho; inv_ok; bool_to_prop end.
  eexists; split; [done|]. eexists; split_and!; [|done|done].
  match goal with Hl : _ ≫= id = Some _ |- _ => apply bind_Some in Hl as (o & Ho & Hid) end.
  cbn in Hid. by rewrite Ho, Hid.
Qed.
End Correct.

(** * A concrete trade *)

Definition demo_keys : SdkKeys := {|
  find_program_address := fun seeds p => from_le_bytes (concat seeds) + p;
  associated_token_address := fun owner mint program => owner + 2 * mint + 3 * program;
  key_text := fun k => [k];
  key_of_text := fun t => head t;
|}.

Lemma demo_keys_laws : @SdkKeysLaws demo_keys.
Proof. by intros k. Qed.

(** The oldest account of the program that is still read. *)
Definition demo_global_bytes : list Z :=
  PUMP_ACC_DISC_GLOBAL ++ [1] ++ replicate 32 9 ++ replicate 32 5
  ++ le_bytes 8 1073000000000000 ++ le_bytes 8 30000000000 ++ le_bytes 8 793100000000000
  ++ le_bytes 8 1000000000000000 ++ le_bytes 8 100 ++ replicate 32 9 ++ [1] ++ le_bytes 8 0
  ++ le_bytes 8 30.

(** A node that answers for a mint of the given token program. *)
Definition demo_replies (token_program : Z) : ChainReplies :=
  mkChainReplies (Some (mkChainAccount PUMP_PROGRAM_ID demo_global_bytes))
    (Ok (Some (mkChainAccount PUMP_PROGRAM_ID demo_curve_bytes))) (Err Solana)
    (fun _ => Ok token_program) (fun _ => Ok false) 0.

Definition demo_context (mint token_program : Z) : PumpContext :=
  match load (H := demo_keys) (demo_replies token_program) mint 42 None with
  | Ok c => c
  | _ => mkPumpContext 0 0 0 0 0 0 0 0 0 0 0 0 0 0 0 0 0
           (mkGlobalState 0 0 0 0 0 0 0 0 false 0 0 [] None None None None None None 0) 0 0 0 0 0 0 0 0 0 0
           0 0 0 0 0 demo_curve false
  end.

Lemma load_only_live_witness :
  load (H := demo_keys) (demo_replies TOKEN_PROGRAM) 77 42 None = Ok (demo_context 77 TOKEN_PROGRAM)
  /\ (demo_context 77 TOKEN_PROGRAM).(px_curve).(bc_complete) = false.
Proof.
  assert (Hl : load (H := demo_keys) (demo_replies TOKEN_PROGRAM) 77 42 None
               = Ok (demo_context 77 TOKEN_PROGRAM)) by (vm_compute; reflexivity).
  split; [exact Hl|].
  exact (proj1 (load_only_live (H := demo_keys) (demo_replies TOKEN_PROGRAM) 77 42 None
                  (demo_context 77 TOKEN_PROGRAM) Hl)).
Defined.

Lemma buy_instruction_exact_witness :
  read_u64 (buy_data BuildOptions_default 34277831558567 1199880000) 16 = 1199880000.
Proof.
  refine (proj2 (proj2 (buy_instruction_exact (H := demo_keys) (demo_context 77 TOKEN_PROGRAM)
    (mkLayoutStore ∅) BuildOptions_default 34277831558567 1199880000 I eq_refl _ _))); mlia.
Defined.

Lemma learned_layout_replays_witness :
  let c := demo_context 77 TOKEN_PROGRAM in
  let metas := [mkAccountMeta c.(px_mint) false false; mkAccountMeta 4242 false true] in
  layout_build (H := demo_keys)
    (learn (H := demo_keys) [] metas (reverse_names (H := map_order) c) None
       (default_buy_layout (H := demo_keys)))
    (named_accounts c) = Ok metas.
Proof.
  intros c metas.
  exact (learned_layout_replays (H := demo_keys) (H0 := map_order) (H1 := map_order_laws)
           (H2 := demo_keys_laws) [] None c metas (default_buy_layout (H := demo_keys))).
Defined.

(** A layout does not keep working for other mints: two keys that coincide when
    it is learned may be told apart by the next mint.  Learned from a trade in a
    plain token, where the token program is also the quote's, the slot of the
    token program can be named after the quote's, and a trade in a Token-2022
    mint is then built with the wrong program. *)
Theorem learned_layout_misnames :
  let c := demo_context 77 TOKEN_PROGRAM in
  let next := demo_context 78 (TOKEN_PROGRAM + 1) in
  exists order : HashOrder, @HashOrderLaws order
    /\ layout_build (H := demo_keys)
         (learn (H := demo_keys) [] [mkAccountMeta c.(px_token_program) false false]
            (reverse_names (H := order) c) None (default_buy_layout (H := demo_keys)))
         (named_accounts next)
       = Ok [mkAccountMeta TOKEN_PROGRAM false false]
    /\ next.(px_token_program) = TOKEN_PROGRAM + 1.
Proof.
  intros c next.
  first [exists map_order; split_and!; [exact map_order_laws|vm_compute; reflexivity|vm_compute; reflexivity]
        |exists (fun _ _ _ _ m => reverse (map_to_list m)); split_and!;
           [intros K ? ? V m; apply reverse_Permutation|vm_compute; reflexivity|vm_compute; reflexivity]].
Qed.
