(* ===== verification/CopyStore.v ===== *)
(** The memory of the copy engine ([crates/module-copy/src/recovery.rs] and the
    rows of [core/src/db/copy.rs]): leaders, their lifecycle events, the journal
    of processed leader trades and the links between our positions and the trades
    they mirror.  [CopyStore] is the trait, [MemoryCopyStore] the store the
    engine runs with when none is injected, which the durable one has to agree
    with.  The human detail of a journal row is left out. *)
From stdpp Require Import prelude gmap list sorting strings.
From Stdlib Require Import ZArith Lia.
From S2P Require Import Prelude.
From S2P Require Import Text.
From S2P Require Import Float64.
From S2P Require Import Models.
From S2P Require Import AppState.
From S2P Require Import AppStateCorrect.
From S2P Require Import Ledger.
From S2P Require Import LedgerJournal.
From S2P Require Import CopyLeader.
From S2P Require Import CopyEvent.

#[local] Open Scope Z_scope.

(** * Rows *)

Definition LeaderEvent_as_str (e : LeaderEvent) : text :=
  match e with
  | EvFollowed => lit "followed"
  | EvPaused => lit "paused"
  | EvResumed => lit "resumed"
  | EvUnfollowed => lit "unfollowed"
  | EvRuleChanged => lit "rule_changed"
  end.

Record LeaderEventRecord : Type := mkLeaderEventRecord {
  le_id : Z;                      (* i64 *)
  le_address : text;
  le_event : text;
  le_reason : option text;
  le_replica_id : text;
  le_ts : Z;
}.

(** [LeaderTransition::record]. *)
Definition transition_record (replica_id : text) (t : LeaderTransition) : LeaderEventRecord :=
  mkLeaderEventRecord 0 t.(t_address) (LeaderEvent_as_str t.(t_event)) t.(t_reason) replica_id
    t.(t_at).

Record CopyLinkRecord : Type := mkCopyLinkRecord {
  cl_position_id : text;
  cl_leader : text;
  cl_mint : text;
  cl_entry_event_id : text;
  cl_entry_signature : text;
  cl_intent_id : option text;
  cl_leader_token_amount : f64;
  cl_follower_qty : f64;
  cl_status : text;
  cl_opened_at : Z;
  cl_closed_at : option Z;
  cl_exit_event_id : option text;
  cl_last_reconciled_at : option Z;
  cl_note : option text;
  cl_updated_at : Z;
}.

Definition OPEN : text := lit "open".
Definition CLOSED : text := lit "closed".
Definition ORPHANED : text := lit "orphaned".

Definition link_is_open (l : CopyLinkRecord) : bool := bool_decide (l.(cl_status) = OPEN).

Definition link_for (now : Z) (position_id leader mint entry_event_id entry_signature : text)
    (intent_id : option text) (leader_token_amount follower_qty : f64) : CopyLinkRecord :=
  mkCopyLinkRecord position_id leader mint entry_event_id entry_signature intent_id
    leader_token_amount follower_qty OPEN now None None None None now.

(** * The trait *)

Class CopyStore (S : Type) : Type := {
  upsert_leader : LeaderRecord -> S -> bool * S;
  append_leader_event : LeaderEventRecord -> S -> bool * S;
  load_leaders : S -> option (list LeaderRecord);
  record_event : CopyEventRecord -> S -> bool * S;
  events_since : Z -> nat -> S -> option (list CopyEventRecord);
  upsert_link : CopyLinkRecord -> S -> bool * S;
  open_links : S -> option (list CopyLinkRecord);
  close_link : Z -> text -> text -> option text -> option text -> S -> bool * S;
}.

(** * The store in memory *)

Record MemoryCopyStore : Type := mkMemoryCopyStore {
  mc_leaders : gmap text LeaderRecord;
  mc_leader_events : list LeaderEventRecord;
  mc_events : gmap text CopyEventRecord;
  mc_links : gmap text CopyLinkRecord;
}.

Definition MemoryCopyStore_new : MemoryCopyStore := mkMemoryCopyStore ∅ [] ∅ ∅.

Definition MEMORY_EVENT_CAP : Z := 10000.

Definition set_mc_leaders (m : gmap text LeaderRecord) (s : MemoryCopyStore) : MemoryCopyStore :=
  mkMemoryCopyStore m s.(mc_leader_events) s.(mc_events) s.(mc_links).
Definition set_mc_events (m : gmap text CopyEventRecord) (s : MemoryCopyStore) : MemoryCopyStore :=
  mkMemoryCopyStore s.(mc_leaders) s.(mc_leader_events) m s.(mc_links).
Definition set_mc_links (m : gmap text CopyLinkRecord) (s : MemoryCopyStore) : MemoryCopyStore :=
  mkMemoryCopyStore s.(mc_leaders) s.(mc_leader_events) s.(mc_events) m.

(** [Option::or]. *)
Definition or_else {A} (a b : option A) : option A := match a with Some _ => a | None => b end.

Definition merge_leader (cur rec : LeaderRecord) : LeaderRecord :=
  {| rec_address := rec.(rec_address);
     rec_label := rec.(rec_label);
     rec_status := rec.(rec_status);
     rec_source := rec.(rec_source);
     rec_followed_at := Z.min cur.(rec_followed_at) rec.(rec_followed_at);
     rec_status_since := rec.(rec_status_since);
     rec_events_seen := Z.max cur.(rec_events_seen) rec.(rec_events_seen);
     rec_mirrored := Z.max cur.(rec_mirrored) rec.(rec_mirrored);
     rec_rejected := Z.max cur.(rec_rejected) rec.(rec_rejected);
     rec_last_event_at := or_else rec.(rec_last_event_at) cur.(rec_last_event_at);
     rec_last_slot := match cur.(rec_last_slot), rec.(rec_last_slot) with
                      | Some a, Some b => Some (Z.max a b)
                      | a, b => or_else a b
                      end;
     rec_updated_at := rec.(rec_updated_at) |}.

Definition memory_upsert_leader (rec : LeaderRecord) (s : MemoryCopyStore) : bool * MemoryCopyStore :=
  let row := match s.(mc_leaders) !! rec.(rec_address) with
             | Some cur => merge_leader cur rec
             | None => rec
             end in
  (true, set_mc_leaders (<[rec.(rec_address) := row]> s.(mc_leaders)) s).

(** The identifier is the position in the list; [as i64] keeps it. *)
Definition memory_append_leader_event (rec : LeaderEventRecord) (s : MemoryCopyStore)
    : bool * MemoryCopyStore :=
  let id := Z.of_nat (length s.(mc_leader_events)) + 1 in
  (true, mkMemoryCopyStore s.(mc_leaders)
     (s.(mc_leader_events)
        ++ [mkLeaderEventRecord id rec.(le_address) rec.(le_event) rec.(le_reason)
              rec.(le_replica_id) rec.(le_ts)])
     s.(mc_events) s.(mc_links)).

(** Rows in the order of a time, then of a name. *)
Definition stamped_le {A} (at_ : A -> Z) (name : A -> text) (a b : A) : Prop :=
  at_ a < at_ b \/ (at_ a = at_ b /\ text_leb (name a) (name b) = true).

#[export] Instance stamped_le_dec {A} at_ (name : A -> text) a b : Decision (stamped_le at_ name a b).
Proof. unfold stamped_le. apply _. Defined.

#[export] Instance stamped_le_total {A} at_ (name : A -> text) : Total (stamped_le at_ name).
Proof.
  intros a b. unfold stamped_le. destruct (Z.lt_trichotomy (at_ a) (at_ b)) as [?|[?|?]]; [lia| |lia].
  destruct (text_leb_total (name a) (name b)); [left|right]; auto with lia.
Qed.

#[export] Instance stamped_le_trans {A} at_ (name : A -> text) : Transitive (stamped_le at_ name).
Proof.
  intros a b c [?|[? Hab]] [?|[? Hbc]]; try (left; lia).
  right. split; [lia|]. by eapply text_leb_trans.
Qed.

Definition event_le : CopyEventRecord -> CopyEventRecord -> Prop :=
  stamped_le cr_observed_at cr_event_id.
Definition link_le : CopyLinkRecord -> CopyLinkRecord -> Prop :=
  stamped_le cl_opened_at cl_position_id.
Definition leader_row_le : LeaderRecord -> LeaderRecord -> Prop :=
  stamped_le rec_followed_at rec_address.

Definition merge_event (cur rec : CopyEventRecord) : CopyEventRecord :=
  mkCopyEventRecord rec.(cr_event_id) rec.(cr_leader) rec.(cr_signature) rec.(cr_slot) rec.(cr_mint)
    rec.(cr_side) rec.(cr_venue) rec.(cr_token_amount) rec.(cr_sol_amount) rec.(cr_source)
    rec.(cr_source_sequence) rec.(cr_event_at) rec.(cr_observed_at) rec.(cr_stage)
    rec.(cr_reject_reason) (or_else rec.(cr_intent_id) cur.(cr_intent_id))
    (or_else rec.(cr_position_id) cur.(cr_position_id)) cur.(cr_created_at) rec.(cr_updated_at).

Definition merge_link (cur rec : CopyLinkRecord) : CopyLinkRecord :=
  mkCopyLinkRecord rec.(cl_position_id) rec.(cl_leader) rec.(cl_mint) rec.(cl_entry_event_id)
    rec.(cl_entry_signature) (or_else rec.(cl_intent_id) cur.(cl_intent_id))
    rec.(cl_leader_token_amount) rec.(cl_follower_qty) rec.(cl_status) cur.(cl_opened_at)
    rec.(cl_closed_at) (or_else rec.(cl_exit_event_id) cur.(cl_exit_event_id))
    rec.(cl_last_reconciled_at) rec.(cl_note) rec.(cl_updated_at).

Definition shut_link (now : Z) (status : text) (exit_event_id note : option text)
    (l : CopyLinkRecord) : CopyLinkRecord :=
  mkCopyLinkRecord l.(cl_position_id) l.(cl_leader) l.(cl_mint) l.(cl_entry_event_id)
    l.(cl_entry_signature) l.(cl_intent_id) l.(cl_leader_token_amount) l.(cl_follower_qty)
    status l.(cl_opened_at) (Some now) (or_else exit_event_id l.(cl_exit_event_id))
    l.(cl_last_reconciled_at) (or_else note l.(cl_note)) now.

Definition memory_upsert_link (rec : CopyLinkRecord) (s : MemoryCopyStore) : bool * MemoryCopyStore :=
  let row := match s.(mc_links) !! rec.(cl_position_id) with
             | Some cur => merge_link cur rec
             | None => rec
             end in
  (true, set_mc_links (<[rec.(cl_position_id) := row]> s.(mc_links)) s).

Definition memory_close_link (now : Z) (position_id status : text)
    (exit_event_id note : option text) (s : MemoryCopyStore) : bool * MemoryCopyStore :=
  match s.(mc_links) !! position_id with
  | Some l => if link_is_open l
              then (true, set_mc_links (<[position_id := shut_link now status exit_event_id note l]>
                                          s.(mc_links)) s)
              else (false, s)
  | None => (false, s)
  end.

Section Memory.
Context `{HashOrder}.

(** [Iterator::min_by]: the first of the least ones. *)
Definition oldest_event (l : list CopyEventRecord) : option CopyEventRecord :=
  match l with
  | [] => None
  | e :: l => Some (fold_left (fun best x => if x.(cr_observed_at) <? best.(cr_observed_at)
                                             then x else best) l e)
  end.

(** The journal with room for one more row. *)
Definition make_room (m : gmap text CopyEventRecord) : gmap text CopyEventRecord :=
  if MEMORY_EVENT_CAP <=? Z.of_nat (size m)
  then match oldest_event (map snd (hash_iter m)) with
       | Some e => delete e.(cr_event_id) m
       | None => m
       end
  else m.

Definition memory_record_event (rec : CopyEventRecord) (s : MemoryCopyStore)
    : bool * MemoryCopyStore :=
  let m := s.(mc_events) in
  match m !! rec.(cr_event_id) with
  | Some cur => (true, set_mc_events (<[rec.(cr_event_id) := merge_event cur rec]> m) s)
  | None =>
      (true, set_mc_events (<[rec.(cr_event_id) := rec]> (make_room m)) s)
  end.

Definition memory_events_since (since : Z) (limit : nat) (s : MemoryCopyStore)
    : option (list CopyEventRecord) :=
  Some (take (Nat.max limit 1)
          (merge_sort event_le
             (filter (fun e => since <= e.(cr_observed_at)) (map snd (hash_iter s.(mc_events)))))).

Definition memory_open_links (s : MemoryCopyStore) : option (list CopyLinkRecord) :=
  Some (merge_sort link_le (filter (fun l => link_is_open l = true) (map snd (hash_iter s.(mc_links))))).

Definition memory_load_leaders (s : MemoryCopyStore) : option (list LeaderRecord) :=
  Some (merge_sort leader_row_le (map snd (hash_iter s.(mc_leaders)))).

#[export] Instance MemoryCopyStore_store : CopyStore MemoryCopyStore := {
  upsert_leader := memory_upsert_leader;
  append_leader_event := memory_append_leader_event;
  load_leaders := memory_load_leaders;
  record_event := memory_record_event;
  events_since := memory_events_since;
  upsert_link := memory_upsert_link;
  open_links := memory_open_links;
  close_link := memory_close_link;
}.
End Memory.

(** * What a store that answers promises *)

(** [link_of] and [event_of] are the rows it holds. *)
Class CopyStoreLaws (S : Type) `{CopyStore S} (good : S -> Prop)
    (link_of : text -> S -> option CopyLinkRecord)
    (event_of : text -> S -> option CopyEventRecord) : Prop := {
  law_upsert_leader r s :
    good s ->
    good (upsert_leader r s).2
    /\ (forall k, link_of k (upsert_leader r s).2 = link_of k s)
    /\ forall k, event_of k (upsert_leader r s).2 = event_of k s;
  law_append_leader_event r s :
    good s ->
    good (append_leader_event r s).2
    /\ (forall k, link_of k (append_leader_event r s).2 = link_of k s)
    /\ forall k, event_of k (append_leader_event r s).2 = event_of k s;
  law_keyed k l s : good s -> link_of k s = Some l -> l.(cl_position_id) = k;
  law_open_links s ls :
    good s -> open_links s = Some ls ->
    NoDup (map cl_position_id ls)
    /\ forall l, l ∈ ls <-> link_of l.(cl_position_id) s = Some l /\ link_is_open l = true;
  law_upsert_link l s s' :
    good s -> upsert_link l s = (true, s') ->
    good s'
    /\ (forall k, link_of k s' = if decide (k = l.(cl_position_id))
                                 then Some (match link_of k s with
                                            | Some cur => merge_link cur l
                                            | None => l
                                            end)
                                 else link_of k s)
    /\ forall k, event_of k s' = event_of k s;
  law_close_link now id status ev note s :
    good s ->
    good (close_link now id status ev note s).2
    /\ (forall k, link_of k (close_link now id status ev note s).2
          = if decide (k = id)
            then (fun l => if link_is_open l then shut_link now status ev note l else l) <$> link_of k s
            else link_of k s)
    /\ (forall k, event_of k (close_link now id status ev note s).2 = event_of k s);
  law_record_event e s s' :
    good s -> record_event e s = (true, s') ->
    good s'
    /\ event_of e.(cr_event_id) s'
       = Some (match event_of e.(cr_event_id) s with Some cur => merge_event cur e | None => e end)
    /\ (forall k x, k <> e.(cr_event_id) -> event_of k s' = Some x -> event_of k s = Some x)
    /\ forall k, link_of k s' = link_of k s;
  law_events_since since limit s es :
    good s -> events_since since limit s = Some es ->
    StronglySorted event_le es
    /\ forall e, e ∈ es -> event_of e.(cr_event_id) s = Some e /\ since <= e.(cr_observed_at);
}.

(** A store whose backend is there. *)
Class StoreAnswers (S : Type) `{CopyStore S} : Prop := {
  answered_record_event e s : (record_event e s).1 = true;
  answered_open_links s : exists ls, open_links s = Some ls;
  answered_upsert_link l s : (upsert_link l s).1 = true;
}.

(** ** The store in memory keeps them *)

(** Every row sits under its own name, and the journal is bounded. *)
Record memory_good (s : MemoryCopyStore) : Prop := mkMemoryGood {
  mg_links k l : s.(mc_links) !! k = Some l -> l.(cl_position_id) = k;
  mg_events k e : s.(mc_events) !! k = Some e -> e.(cr_event_id) = k;
  mg_leaders k r : s.(mc_leaders) !! k = Some r -> r.(rec_address) = k;
  mg_size : Z.of_nat (size s.(mc_events)) <= MEMORY_EVENT_CAP;
}.

Definition memory_link_of (k : text) (s : MemoryCopyStore) : option CopyLinkRecord := s.(mc_links) !! k.
Definition memory_event_of (k : text) (s : MemoryCopyStore) : option CopyEventRecord := s.(mc_events) !! k.

Lemma memory_good_new : memory_good MemoryCopyStore_new.
Proof. by split; cbn. Qed.

Section MemoryLaws.
Context `{HashOrderLaws}.

(** Rows that know their name are listed once. *)
Lemma NoDup_names {V} (name : V -> text) (m : gmap text V) :
  (forall k v, m !! k = Some v -> name v = k) -> NoDup (map name (map snd (hash_iter m))).
Proof.
  intros Hn. rewrite map_map.
  assert (Heq : map (fun kv => name kv.2) (hash_iter m) = (hash_iter m).*1).
  { apply map_ext_in. intros [k v] Hkv%list_elem_of_In. rewrite (hash_iter_perm m) in Hkv.
    apply elem_of_map_to_list in Hkv. by apply Hn. }
  rewrite Heq. assert (Hp : (hash_iter m).*1 ≡ₚ (map_to_list m).*1) by (by rewrite hash_iter_perm).
  rewrite Hp. apply NoDup_fst_map_to_list.
Qed.

Lemma NoDup_filter_names {V} (name : V -> text) (P : V -> Prop) `{forall v, Decision (P v)} l :
  NoDup (map name l) -> NoDup (map name (filter P l)).
Proof.
  induction l as [|v l IH]; [done|]. rewrite filter_cons. cbn [map]. intros [Hv Hl]%NoDup_cons.
  case_decide; [|auto]. cbn [map]. apply NoDup_cons. split; [|auto]. intros Hin. apply Hv.
  apply list_elem_of_fmap in Hin as (w & Hw & Hin). apply list_elem_of_filter in Hin as [_ Hin].
  apply list_elem_of_fmap. by exists w.
Qed.

Lemma memory_open_links_exact s ls :
  memory_good s -> memory_open_links s = Some ls ->
  NoDup (map cl_position_id ls)
  /\ forall l, l ∈ ls <-> memory_link_of l.(cl_position_id) s = Some l /\ link_is_open l = true.
Proof.
  intros [Hk _ _ _] [= <-]. split.
  - assert (Hp : map cl_position_id (merge_sort link_le (filter (fun l => link_is_open l = true)
                    (map snd (hash_iter (mc_links s)))))
            ≡ₚ map cl_position_id (filter (fun l => link_is_open l = true) (map snd (hash_iter (mc_links s)))))
      by (apply Permutation_map, merge_sort_Permutation).
    rewrite Hp. by apply NoDup_filter_names, NoDup_names.
  - intros l. rewrite merge_sort_Permutation, list_elem_of_filter, elem_of_values. unfold memory_link_of.
    split.
    + intros [Ho [k Hl]]. by rewrite (Hk k l Hl).
    + intros [Hl Ho]. split; [done|]. by eexists.
Qed.

Lemma room_subseteq m : make_room m ⊆ m.
Proof. unfold make_room. case_match; [|done]. case_match; [|done]. apply delete_subseteq. Qed.

Lemma oldest_event_In l e : oldest_event l = Some e -> e ∈ l.
Proof.
  destruct l as [|z l]; [done|]. intros [= <-]. revert z.
  induction l as [|x l IH]; intros z; cbn; [by left|].
  destruct (cr_observed_at x <? cr_observed_at z).
  - right. apply IH.
  - specialize (IH z). apply elem_of_cons in IH as [->|?]; [by left|by do 2 right].
Qed.

Lemma room_size m :
  (forall k e, m !! k = Some e -> e.(cr_event_id) = k) ->
  Z.of_nat (size m) <= MEMORY_EVENT_CAP -> Z.of_nat (size (make_room m)) + 1 <= MEMORY_EVENT_CAP.
Proof.
  intros Hk Hs. unfold make_room. destruct (Z.leb_spec MEMORY_EVENT_CAP (Z.of_nat (size m))); [|lia].
  destruct (oldest_event _) as [o|] eqn:Ho.
  - apply oldest_event_In, elem_of_values in Ho as [k Ho]. rewrite (Hk k o Ho).
    rewrite map_size_delete_Some by done.
    destruct (size m) eqn:Hz; [|cbn; lia].
    apply map_size_empty_iff in Hz. by rewrite Hz, lookup_empty in Ho.
  - destruct (map snd (hash_iter m)) as [|z l] eqn:Hl; [|done].
    assert (Hz : size m = 0%nat).
    { apply map_size_empty_iff, map_empty. intros k. destruct (m !! k) as [x|] eqn:Hx; [|done].
      assert (Hin : x ∈ map snd (hash_iter m)) by (apply elem_of_values; by exists k).
      rewrite Hl in Hin. by apply not_elem_of_nil in Hin. }
    unfold MEMORY_EVENT_CAP in *. lia.
Qed.

Lemma memory_record_event_exact e s :
  memory_good s ->
  let s' := (memory_record_event e s).2 in
  memory_good s'
  /\ memory_event_of e.(cr_event_id) s'
     = Some (match memory_event_of e.(cr_event_id) s with Some cur => merge_event cur e | None => e end)
  /\ (forall k x, k <> e.(cr_event_id) -> memory_event_of k s' = Some x -> memory_event_of k s = Some x)
  /\ forall k, memory_link_of k s' = memory_link_of k s.
Proof.
  intros [Hl He Hr Hs]. unfold memory_record_event, memory_event_of, memory_link_of.
  destruct (mc_events s !! cr_event_id e) as [cur|] eqn:Hcur; cbn.
  - split_and!; [split; cbn; try done| | |done].
    + intros k x. rewrite lookup_insert_Some. intros [[<- <-]|[_ Hx]]; [done|by apply He].
    + by rewrite map_size_insert_Some by done.
    + by rewrite lookup_insert_eq.
    + intros k x Hk. by rewrite lookup_insert_ne.
  - pose proof (room_size _ He Hs) as Hroom.
    assert (Hsub : forall k x, make_room (mc_events s) !! k = Some x -> mc_events s !! k = Some x)
      by (intros k x Hx; eapply lookup_weaken; [done|apply room_subseteq]).
    split_and!; [split; cbn; try done| | |done].
    + intros k x. rewrite lookup_insert_Some. intros [[<- <-]|[_ Hx]]; [done|]. by apply He, Hsub.
    + rewrite map_size_insert. case_match; unfold id; lia.
    + by rewrite lookup_insert_eq.
    + intros k x Hk. rewrite lookup_insert_ne by done. apply Hsub.
Qed.

#[export] Instance MemoryCopyStore_laws :
  CopyStoreLaws MemoryCopyStore memory_good memory_link_of memory_event_of.
Proof.
  split.
  - intros r s [Hl He Hr Hs]. split_and!; [split; cbn; try done|done|done].
    intros k x. rewrite lookup_insert_Some. intros [[<- <-]|[_ Hx]]; [by case_match|by apply Hr].
  - intros r s [Hl He Hr Hs]. done.
  - intros k l s [Hl _ _ _]. apply Hl.
  - apply memory_open_links_exact.
  - intros l s s' [Hl He Hr Hs] [= <-]. split_and!; [split; cbn; try done| |done].
    + intros k x. rewrite lookup_insert_Some. intros [[<- <-]|[_ Hx]]; [by case_match|by apply Hl].
    + intros k. unfold memory_link_of. cbn. rewrite lookup_insert. by repeat case_decide; subst.
  - intros now id status ev note s [Hl He Hr Hs]. cbn. unfold memory_close_link.
    destruct (mc_links s !! id) as [l|] eqn:Hid; [destruct (link_is_open l) eqn:Ho|]; cbn.
    + split_and!; [split; cbn; try done| |done].
      * intros k x. rewrite lookup_insert_Some. intros [[<- <-]|[_ Hx]]; [|by apply Hl].
        cbn. by apply Hl.
      * intros k. unfold memory_link_of. cbn. rewrite lookup_insert.
        repeat case_decide; subst; try done. by rewrite Hid; cbn; rewrite Ho.
    + split_and!; try done. intros k. unfold memory_link_of. case_decide; [|done]. subst.
      by rewrite Hid; cbn; rewrite Ho.
    + split_and!; try done. intros k. unfold memory_link_of. case_decide; [|done]. subst. by rewrite Hid.
  - intros e s s' Hg Hr. change (memory_record_event e s = (true, s')) in Hr.
    assert (s' = (memory_record_event e s).2) as -> by (by rewrite Hr).
    by apply memory_record_event_exact.
  - intros since limit s es [Hl He Hr Hs] [= <-]. split.
    + eapply StronglySorted_app_1_l. rewrite take_drop. apply StronglySorted_merge_sort; apply _.
    + intros e Hin. apply elem_of_take in Hin as (i & Hi & _). apply list_elem_of_lookup_2 in Hi.
      rewrite merge_sort_Permutation, list_elem_of_filter, elem_of_values in Hi.
      destruct Hi as [Hsince [k Hk]]. unfold memory_event_of. by rewrite (He k e Hk).
Qed.

#[export] Instance MemoryCopyStore_answers : StoreAnswers MemoryCopyStore.
Proof.
  split; [|by intros s; eexists|done].
  intros e s. cbn. unfold memory_record_event. by case_match.
Qed.
End MemoryLaws.
