(* ===== verification/CopyRecovery.v ===== *)
(** What the copy engine does with its memory
    ([crates/module-copy/src/recovery.rs], [reconcile.rs]): the plan of a
    restart, and the comparison of links, positions and what the leaders did
    since.  Both are pure.  The numbers inside a finding's human detail are left
    out. *)
From stdpp Require Import prelude countable gmap list sorting strings pretty.
From Stdlib Require Import ZArith Lia SpecFloat.
From S2P Require Import Prelude.
From S2P Require Import BotCore.
From S2P Require Import Text.
From S2P Require Import Float64.
From S2P Require Import Models.
From S2P Require Import CopyLeader.
From S2P Require Import LedgerEvent.
From S2P Require Import Ledger.
From S2P Require Import LedgerJournal.
From S2P Require Import ExecLedger.
From S2P Require Import AppState.
From S2P Require Import Risk.
From S2P Require Import CopyEvent.
From S2P Require Import CopyStore.

#[local] Open Scope Z_scope.

(** * The identity of a copy order and its write-ahead journal
    ([crates/module-copy/src/intent.rs], [IntentRecord] of
    [core/src/db/repo.rs] and [with_intent] of [core/src/recovery.rs]).  The
    journal is a service: its three calls are the record [IntentSink]. *)

(** * Numbers as text *)

(** [a / b] to the nearest integer, ties to even. *)
Definition div_half_even (a b : Z) : Z :=
  let q := a / b in
  match Z.compare (2 * (a mod b)) b with
  | Lt => q
  | Gt => q + 1
  | Eq => if Z.even q then q else q + 1
  end.

(** [m * 2^e] in units of [10^-digits]. *)
Definition scaled_units (digits m e : Z) : Z :=
  let n := m * 10 ^ digits in
  if 0 <=? e then n * 2 ^ e else div_half_even n (2 ^ (- e)).

Definition zeros (n : nat) : text := repeat 48 n.

(** [n] with a point before its last [digits] digits. *)
Definition point_text (digits : nat) (n : Z) : text :=
  let s := lit (pretty n) in
  let s := zeros (S digits - length s) ++ s in
  take (length s - digits) s ++ lit "." ++ drop (length s - digits) s.

(** [format!("{:.d}", x)] for a positive [d]. *)
Definition format_fixed (digits : nat) (x : f64) : text :=
  match x with
  | S754_nan => lit "NaN"
  | S754_infinity s => (if s then lit "-" else []) ++ lit "inf"
  | S754_zero s => (if s then lit "-" else []) ++ point_text digits 0
  | S754_finite s m e =>
      (if s then lit "-" else []) ++ point_text digits (scaled_units (Z.of_nat digits) (Zpos m) e)
  end.

(** [timestamp_millis]. *)
Definition timestamp_millis (t : Z) : Z := t / MILLISECOND.

(** * Identities *)

Inductive EntryRoute : Type := EntryCurve | EntryJupiter.
Inductive ExitRoute : Type := ExitCurve | ExitJupiter.

Definition EntryRoute_as_str (r : EntryRoute) : text :=
  match r with EntryCurve => lit "curve" | EntryJupiter => lit "jupiter" end.
Definition ExitRoute_as_str (r : ExitRoute) : text :=
  match r with ExitCurve => lit "curve" | ExitJupiter => lit "jupiter" end.

Definition entry_label (mint : text) (r : EntryRoute) : text :=
  match r with
  | EntryCurve => lit "copy-" ++ take 8 mint
  | EntryJupiter => lit "copy-jup-" ++ take 8 mint
  end.

Definition is_entry_label (label : text) : bool :=
  starts_with (lit "copy-") label && negb (starts_with (lit "copy-exit") label).

Definition exit_label (mint : text) (r : ExitRoute) : text :=
  match r with
  | ExitCurve => lit "copy-exit-" ++ mint
  | ExitJupiter => lit "copy-exit-jup-" ++ mint
  end.

Definition is_exit_label (label : text) : bool := starts_with (lit "copy-exit") label.

Section Ids.
Context {libs : LedgerLibs}.

Definition entry_intent_id (leader signature mint : text) (route : EntryRoute) : text :=
  intent_id [lit "copy"; signature; leader; lit "buy"; EntryRoute_as_str route; mint].

Definition entry_intent_id_for (e : LeaderTradeEvent) (route : EntryRoute) : text :=
  entry_intent_id e.(e_leader) e.(e_signature) e.(e_mint) route.

Definition exit_intent_id (p : Position) (sell_raw : Z) (route : ExitRoute) : text :=
  intent_id [lit "copy"; p.(p_id); p.(p_symbol);
             lit (pretty (timestamp_millis p.(p_opened_at))); lit "sell"; ExitRoute_as_str route;
             lit (pretty sell_raw); format_fixed 9 p.(p_qty)].
End Ids.

(** * The journal *)

Record IntentRecord : Type := mkIntentRecord {
  ir_intent_id : text;
  ir_module : text;
  ir_symbol : text;
  ir_wallet : text;
  ir_side : text;
  ir_qty : text;
  ir_status : text;
  ir_signature : option text;
  ir_created_at : Z;
}.

(** [journal_record], which [copy_intent] calls. *)
Definition copy_intent (now : Z) (wallet symbol side qty : text) (s : AppState)
    : IntentRecord * AppState :=
  let r := next_id (lit "intent") s in
  (mkIntentRecord r.1 (lit "copy") symbol wallet side qty (lit "pending") None now, r.2).

Record IntentSink (S : Type) : Type := mkIntentSink {
  sink_record : IntentRecord -> S -> S;
  sink_link : text -> text -> S -> S;
  sink_abandon : text -> S -> S;
}.
Arguments sink_record {S} _ _ _.
Arguments sink_link {S} _ _ _ _.
Arguments sink_abandon {S} _ _ _.

(** How the journal entry of an attempt ends. *)
Definition close_intent {S A E} (k : IntentSink S) (id : text) (signature_of : A -> option text)
    (out : A + E) : S -> S :=
  match out with
  | inl v => match signature_of v with
             | Some sig => if is_empty sig then sink_abandon k id else sink_link k id sig
             | None => sink_abandon k id
             end
  | inr _ => sink_abandon k id
  end.

Definition with_intent {S A E} (sink : option (IntentSink S)) (rec : IntentRecord)
    (run : St S (A + E)) (signature_of : A -> option text) : St S (A + E) :=
  match sink with
  | None => run
  | Some k =>
      modify (sink_record k rec) ;;
      out ← run;
      modify (close_intent k rec.(ir_intent_id) signature_of out) ;;
      mret out
  end.

(** * Facts *)

Lemma starts_with_app p s : starts_with p (p ++ s) = true.
Proof.
  unfold starts_with. induction p as [|c p IH]; [done|]. cbn. by rewrite Z.eqb_refl.
Qed.

Lemma exit_is_exit_label mint r : is_exit_label (exit_label mint r) = true.
Proof. by destruct r. Qed.

Lemma exit_not_entry_label mint r : is_entry_label (exit_label mint r) = false.
Proof. by destruct r. Qed.

(** The journal never changes what a broadcast returns. *)
Lemma with_intent_result {S A E} sink rec (run : St S (A + E)) sig s :
  (with_intent sink rec run sig s).1
  = (run (match sink with Some k => sink_record k rec s | None => s end)).1.
Proof. by destruct sink. Qed.

Lemma hoare_with_intent {S A E} (P : S -> Prop) (Q : A + E -> S -> Prop) sink rec
    (run : St S (A + E)) sig :
  (forall k s, sink = Some k -> P s -> P (sink_record k rec s)) ->
  (forall k out s, sink = Some k -> Q out s -> Q out (close_intent k rec.(ir_intent_id) sig out s)) ->
  hoare P run Q -> hoare P (with_intent sink rec run sig) Q.
Proof.
  intros Hrec Hclose Hrun. destruct sink as [k|]; [|exact Hrun]. cbn.
  eapply hoare_seq; [eapply hoare_pre; [|apply hoare_modify]; cbn; intros s; by apply Hrec|].
  eapply hoare_bind; [exact Hrun|]. intros out.
  eapply hoare_seq; [eapply hoare_pre; [|apply hoare_modify]; cbn; intros s; by apply Hclose|].
  by apply hoare_done.
Qed.

Example format_quarter : format_fixed 1 (f_lit 1 4) = lit "0.2".
Proof. reflexivity. Qed.
Example format_tokens : format_fixed 9 (f_lit 1234567 1000) = lit "1234.567000000".
Proof. by vm_compute. Qed.

Lemma starts_with_shared p q s : starts_with (p ++ q) (p ++ s) = starts_with q s.
Proof.
  unfold starts_with. induction p as [|c p IH]; [done|]. cbn. by rewrite Z.eqb_refl.
Qed.

Lemma starts_with_take p n s : (length p <= n)%nat -> starts_with p (take n s) = starts_with p s.
Proof.
  unfold starts_with. revert n s. induction p as [|c p IH]; intros n s Hn; [done|].
  destruct n as [|n]; [cbn in Hn; lia|]. destruct s as [|d s]; [done|]. cbn.
  destruct (c =? d); [|done]. apply IH. cbn in Hn. lia.
Qed.

(** The label of a curve entry is taken for an exit's exactly when the mint
    starts with [exit]; the label of a routed one never is. *)
Lemma entry_label_recognised mint r :
  is_entry_label (entry_label mint r)
  = negb (match r with EntryCurve => starts_with (lit "exit") mint | EntryJupiter => false end).
Proof.
  destruct r; [|reflexivity]. unfold is_entry_label, entry_label. rewrite starts_with_app. cbn [andb].
  f_equal. change (lit "copy-exit") with (lit "copy-" ++ lit "exit").
  rewrite starts_with_shared. apply starts_with_take. cbn. lia.
Qed.

(** * What both look at *)

Inductive EntryFate : Type := Held | FateUnknown | FateFailed.

#[export] Instance EntryFate_eq_dec : EqDecision EntryFate.
Proof. solve_decision. Defined.

Definition entry_fate (st : option ExecutionState) : EntryFate :=
  match st with
  | None | Some ExConfirmed | Some ExReconciled => Held
  | Some ExFailed | Some ExExpired => FateFailed
  | Some _ => FateUnknown
  end.

(** [HashMap<&str, &ExecutionRecord>] by signature: the last record wins. *)
Definition index_signature (m : gmap text ExecutionRecord) (r : ExecutionRecord)
    : gmap text ExecutionRecord :=
  match r.(x_signature) with Some s => <[s := r]> m | None => m end.

Definition by_signature_of (ledger : list ExecutionRecord) : gmap text ExecutionRecord :=
  fold_left index_signature ledger ∅.

(** [entry_signature], when it is not empty. *)
Definition signature_of (p : Position) : option text :=
  s ← p.(p_entry_signature); if is_empty s then None else Some s.

(** The leader a position was copied from, when it is not empty. *)
Definition leader_of (p : Position) : option text :=
  w ← p.(p_copied_wallet); if is_empty w then None else Some w.

Definition fate_of (ledger : list ExecutionRecord) (sig : text) : EntryFate :=
  entry_fate (x_state <$> by_signature_of ledger !! sig).

Definition held_position (p : Position) : bool := still_held p.(p_status).

Definition linked_to (links : list CopyLinkRecord) (id : text) : bool :=
  bool_decide (id ∈ map cl_position_id links).

Definition position_by_id (id : text) (ps : list Position) : option Position :=
  snd <$> list_find (fun p => p.(p_id) = id) ps.

#[global] Arguments position_by_id : simpl never.
#[global] Arguments linked_to : simpl never.

Definition PositionStatus_debug (s : PositionStatus) : text :=
  match s with
  | PosOpen => lit "Open"
  | PosClosing => lit "Closing"
  | PosClosed => lit "Closed"
  | StoppedOut => lit "StoppedOut"
  | PosFailed => lit "Failed"
  end.

Definition closed_note (p : Position) : text :=
  lit "position " ++ p.(p_id) ++ lit " is " ++ PositionStatus_debug p.(p_status).
Definition missing_note : text := lit "position not found in the book".

(** * The plan of a restart *)

Inductive RecoveryAction : Type :=
  | SeedDedup (keys : list text)
  | SeedCursor (leader : text) (slot : Z) (signature : text)
  | HoldAmbiguous (intent_id : text) (position_id : option text) (mint : text)
  | CleanupFailedEntry (position_id signature : text)
  | RestoreLink (link : CopyLinkRecord)
  | RaCloseLink (position_id status note : text).

Definition RecoveryAction_as_str (a : RecoveryAction) : text :=
  match a with
  | SeedDedup _ => lit "seed_dedup"
  | SeedCursor _ _ _ => lit "seed_cursor"
  | HoldAmbiguous _ _ _ => lit "hold_ambiguous"
  | CleanupFailedEntry _ _ => lit "cleanup_failed_entry"
  | RestoreLink _ => lit "restore_link"
  | RaCloseLink _ _ _ => lit "close_link"
  end.

Record RecoveryInputs : Type := mkRecoveryInputs {
  ri_journal : list CopyEventRecord;
  ri_links : list CopyLinkRecord;
  ri_positions : list Position;
  ri_ledger : list ExecutionRecord;
}.

(** [RecoveryPlan::count]. *)
Definition plan_count (label : text) (plan : list RecoveryAction) : nat :=
  length (filter (fun a => RecoveryAction_as_str a = label) plan).

Definition journal_keys (journal : list CopyEventRecord) : list text :=
  map (fun e => key_from_parts e.(cr_signature) e.(cr_leader) e.(cr_mint) e.(cr_side)) journal.

Definition plan_dedup (journal : list CopyEventRecord) : list RecoveryAction :=
  match journal_keys journal with [] => [] | keys => [SeedDedup keys] end.

(** The newest journaled slot of each leader. *)
Definition newest_step (m : gmap text (Z * text)) (e : CopyEventRecord) : gmap text (Z * text) :=
  if e.(cr_slot) =? 0 then m
  else
    let cur := default (0, []) (m !! e.(cr_leader)) in
    <[e.(cr_leader) := if cur.1 <? e.(cr_slot) then (e.(cr_slot), e.(cr_signature)) else cur]> m.

Definition newest_slots (journal : list CopyEventRecord) : gmap text (Z * text) :=
  fold_left newest_step journal ∅.

Definition text_le (a b : text) : Prop := text_leb a b = true.
#[export] Instance text_le_dec a b : Decision (text_le a b).
Proof. unfold text_le. apply _. Defined.

Definition plan_cursors (journal : list CopyEventRecord) : list RecoveryAction :=
  let m := newest_slots journal in
  omap (fun l => (fun c => SeedCursor l c.1 c.2) <$> m !! l)
    (merge_sort text_le (elements (dom m))).

(** Copy entries the ledger still has in flight. *)
Definition in_flight (r : ExecutionRecord) : bool :=
  bool_decide (r.(x_module) = lit "copy") && is_entry_label r.(x_label) && is_live r.(x_state).

Definition booked_for (held : list Position) (r : ExecutionRecord) : option text :=
  sig ← r.(x_signature);
  (fun x => p_id x.2) <$> list_find (fun p => p.(p_entry_signature) = Some sig) held.

Definition plan_holds (ledger : list ExecutionRecord) (held : list Position) : list RecoveryAction :=
  map (fun r => HoldAmbiguous r.(x_intent_id) (booked_for held r) r.(x_symbol))
    (filter (fun r => in_flight r = true) ledger).

Definition plan_cleanup (ledger : list ExecutionRecord) (p : Position) : option RecoveryAction :=
  sig ← signature_of p;
  if decide (fate_of ledger sig = FateFailed) then Some (CleanupFailedEntry p.(p_id) sig) else None.

Definition restored_note : text := lit "restored from position book after restart".

Definition with_restored (opened_at : Z) (l : CopyLinkRecord) : CopyLinkRecord :=
  mkCopyLinkRecord l.(cl_position_id) l.(cl_leader) l.(cl_mint) l.(cl_entry_event_id)
    l.(cl_entry_signature) l.(cl_intent_id) l.(cl_leader_token_amount) l.(cl_follower_qty)
    l.(cl_status) opened_at l.(cl_closed_at) l.(cl_exit_event_id) l.(cl_last_reconciled_at)
    (Some restored_note) l.(cl_updated_at).

Definition entry_event_of (journal : list CopyEventRecord) (id : text) : text :=
  match list_find (fun e => e.(cr_position_id) = Some id) journal with
  | Some (_, e) => e.(cr_event_id)
  | None => lit "recovered:" ++ id
  end.

Definition plan_restore (now : Z) (i : RecoveryInputs) (p : Position) : option RecoveryAction :=
  if linked_to i.(ri_links) p.(p_id) then None
  else
    leader ← leader_of p;
    Some (RestoreLink (with_restored p.(p_opened_at)
      (link_for now p.(p_id) leader p.(p_symbol) (entry_event_of i.(ri_journal) p.(p_id))
         (default [] p.(p_entry_signature)) None fzero p.(p_qty)))).

Definition plan_close (positions : list Position) (l : CopyLinkRecord) : option RecoveryAction :=
  if negb (link_is_open l) then None
  else
    match position_by_id l.(cl_position_id) positions with
    | Some p => if held_position p then None
                else Some (RaCloseLink l.(cl_position_id) CLOSED (closed_note p))
    | None => Some (RaCloseLink l.(cl_position_id) ORPHANED missing_note)
    end.

Definition plan_recovery (now : Z) (i : RecoveryInputs) : list RecoveryAction :=
  let held := filter (fun p => held_position p = true) i.(ri_positions) in
  plan_dedup i.(ri_journal) ++ plan_cursors i.(ri_journal)
  ++ plan_holds i.(ri_ledger) held ++ omap (plan_cleanup i.(ri_ledger)) held
  ++ omap (plan_restore now i) held ++ omap (plan_close i.(ri_positions)) i.(ri_links).

(** * Reconciliation *)

Inductive FindingKind : Type :=
  | LeaderExitedWeHold | LeaderRemovedWeHold | LinkWithoutPosition | FkQuantityMismatch
  | OrphanPosition | AmbiguousEntry.

#[export] Instance FindingKind_eq_dec : EqDecision FindingKind.
Proof. solve_decision. Defined.

Definition FindingKind_as_str (k : FindingKind) : text :=
  match k with
  | LeaderExitedWeHold => lit "leader_exited_we_hold"
  | LeaderRemovedWeHold => lit "leader_removed_we_hold"
  | LinkWithoutPosition => lit "link_without_position"
  | FkQuantityMismatch => lit "quantity_mismatch"
  | OrphanPosition => lit "orphan_position"
  | AmbiguousEntry => lit "ambiguous_entry"
  end.

Inductive ReconAction : Type :=
  | Flag
  | MirrorExit (position_id : text) (fraction : f64)
  | CloseLink (position_id status : text)
  | UpdateLink (position_id : text) (follower_qty : f64).

Definition ReconAction_as_str (a : ReconAction) : text :=
  match a with
  | Flag => lit "flag"
  | MirrorExit _ _ => lit "mirror_exit"
  | CloseLink _ _ => lit "close_link"
  | UpdateLink _ _ => lit "update_link"
  end.

Record Finding : Type := mkFinding {
  fi_kind : FindingKind;
  fi_leader : text;
  fi_mint : text;
  fi_position_id : option text;
  fi_detail : text;
  fi_action : ReconAction;
}.

Record ReconInputs : Type := mkReconInputs {
  rn_links : list CopyLinkRecord;
  rn_positions : list Position;
  rn_activity : list CopyEventRecord;
  rn_leader_status : gmap text LeaderStatus;
  rn_ledger : list ExecutionRecord;
  rn_auto_exit : bool;
}.

Record ReconReport : Type := mkReconReport {
  rr_findings : list Finding;
  rr_links_checked : nat;
  rr_positions_checked : nat;
  rr_at : Z;
}.

(** [ReconReport::count], [is_clean]. *)
Definition report_count (k : FindingKind) (r : ReconReport) : nat :=
  length (filter (fun f => f.(fi_kind) = k) r.(rr_findings)).
Definition is_clean (r : ReconReport) : bool :=
  match r.(rr_findings) with [] => true | _ => false end.

Definition QTY_TOLERANCE : f64 := f_lit 1 1000000000.

(** The leader's trades in the mint of a link, after it was opened. *)
Definition since_link (l : CopyLinkRecord) (e : CopyEventRecord) : bool :=
  bool_decide (e.(cr_leader) = l.(cl_leader)) && bool_decide (e.(cr_mint) = l.(cl_mint))
  && (l.(cl_opened_at) <? e.(cr_observed_at))
  && negb (bool_decide (e.(cr_event_id) = l.(cl_entry_event_id))).

(** The newest buy and the newest sell; of two at one time the first stays. *)
Definition newer (at_ : Z) (cur : option Z) : bool :=
  match cur with Some t => t <? at_ | None => true end.

Definition activity_step (acc : option Z * option Z) (e : CopyEventRecord) : option Z * option Z :=
  let at_ := e.(cr_observed_at) in
  if decide (e.(cr_side) = lit "buy")
  then (if newer at_ acc.1 then Some at_ else acc.1, acc.2)
  else if decide (e.(cr_side) = lit "sell")
  then (acc.1, if newer at_ acc.2 then Some at_ else acc.2)
  else acc.

Definition activity_of (l : CopyLinkRecord) (activity : list CopyEventRecord)
    : option Z * option Z :=
  fold_left activity_step (filter (fun e => since_link l e = true) activity) (None, None).

(** The leader sold and did not buy again. *)
Definition leader_is_out (a : option Z * option Z) : bool :=
  match a.2 with
  | Some sold => negb (match a.1 with Some bought => sold <? bought | None => false end)
  | None => false
  end.

(** [HashMap<&str, &Position>]: the last position of that id. *)
Definition last_position_by_id (id : text) (ps : list Position) : option Position :=
  position_by_id id (reverse ps).

Definition qty_differs (l : CopyLinkRecord) (p : Position) : bool :=
  let diff := fabs (fsub l.(cl_follower_qty) p.(p_qty)) in
  let scale := fmax (fmax (fabs l.(cl_follower_qty)) (fabs p.(p_qty))) (f_lit 1 1000000000000) in
  fltb QTY_TOLERANCE (fdiv diff scale).

Definition exited_detail : text := lit "leader sold".
Definition removed_detail : text := lit "leader unfollowed".
Definition mismatch_detail : text := lit "quantity changed".
Definition orphan_detail : text := lit "copy position without a link or a copied_wallet".
Definition live_detail (sig : text) : text :=
  lit "entry " ++ sig ++ lit " is still live in the execution ledger".

Definition exit_finding (i : ReconInputs) (l : CopyLinkRecord) (p : Position) : list Finding :=
  if leader_is_out (activity_of l i.(rn_activity)) then
    [mkFinding LeaderExitedWeHold l.(cl_leader) l.(cl_mint) (Some p.(p_id)) exited_detail
       (if i.(rn_auto_exit) then MirrorExit p.(p_id) fone else Flag)]
  else [].

Definition removed_finding (i : ReconInputs) (l : CopyLinkRecord) (p : Position) : list Finding :=
  if decide (i.(rn_leader_status) !! l.(cl_leader) = Some Removed) then
    [mkFinding LeaderRemovedWeHold l.(cl_leader) l.(cl_mint) (Some p.(p_id)) removed_detail Flag]
  else [].

Definition qty_finding (l : CopyLinkRecord) (p : Position) : list Finding :=
  if qty_differs l p then
    [mkFinding FkQuantityMismatch l.(cl_leader) l.(cl_mint) (Some p.(p_id)) mismatch_detail
       (UpdateLink p.(p_id) p.(p_qty))]
  else [].

Definition stale_link (l : CopyLinkRecord) (status detail : text) : Finding :=
  mkFinding LinkWithoutPosition l.(cl_leader) l.(cl_mint) (Some l.(cl_position_id)) detail
    (CloseLink l.(cl_position_id) status).

Definition link_findings (i : ReconInputs) (l : CopyLinkRecord) : list Finding :=
  match last_position_by_id l.(cl_position_id) i.(rn_positions) with
  | Some p => if held_position p
              then exit_finding i l p ++ removed_finding i l p ++ qty_finding l p
              else [stale_link l CLOSED (closed_note p)]
  | None => [stale_link l ORPHANED missing_note]
  end.

Definition position_findings (i : ReconInputs) (open_ : list CopyLinkRecord) (p : Position)
    : list Finding :=
  (if negb (linked_to open_ p.(p_id)) && is_empty (default [] p.(p_copied_wallet)) then
     [mkFinding OrphanPosition [] p.(p_symbol) (Some p.(p_id)) orphan_detail Flag]
   else [])
  ++ match signature_of p with
     | Some sig =>
         if decide (fate_of i.(rn_ledger) sig = FateUnknown) then
           [mkFinding AmbiguousEntry (default [] p.(p_copied_wallet)) p.(p_symbol) (Some p.(p_id))
              (live_detail sig) Flag]
         else []
     | None => []
     end.

Definition reconcile (now : Z) (i : ReconInputs) : ReconReport :=
  let open_ := filter (fun l => link_is_open l = true) i.(rn_links) in
  let held := filter (fun p => held_position p = true) i.(rn_positions) in
  mkReconReport (concat (map (link_findings i) open_) ++ concat (map (position_findings i open_) held))
    (length open_) (length held) now.

(** * What the restart plan and the reconciliation guarantee: every position and
    every link gets exactly the action its evidence asks for, and a position is
    only sold on a sale of its leader that no purchase followed. *)

(** * The newest trade on each side *)

Definition on_side (side : string) (e : CopyEventRecord) : Prop := e.(cr_side) = lit side.

Definition newest_of (P : CopyEventRecord -> Prop) (l : list CopyEventRecord) (o : option Z) : Prop :=
  match o with
  | Some t => (exists e, e ∈ l /\ P e /\ e.(cr_observed_at) = t)
              /\ forall e, e ∈ l -> P e -> e.(cr_observed_at) <= t
  | None => forall e, e ∈ l -> ~ P e
  end.

Lemma newest_of_skip P l e o : ~ P e -> newest_of P l o -> newest_of P (l ++ [e]) o.
Proof.
  intros He. destruct o as [t|]; cbn.
  - intros [(x & Hx & HP & Ht) Hmax]. split.
    + exists x. split; [apply elem_of_app; by left|done].
    + intros y [Hy| ->%list_elem_of_singleton]%elem_of_app HPy; [by apply Hmax|done].
  - intros Hno y [Hy| ->%list_elem_of_singleton]%elem_of_app; [by apply Hno|done].
Qed.

Lemma newest_of_take P l e o :
  P e -> newest_of P l o ->
  newest_of P (l ++ [e]) (if newer e.(cr_observed_at) o then Some e.(cr_observed_at) else o).
Proof.
  intros He Ho. assert (Hin : e ∈ l ++ [e]) by (apply elem_of_app; right; by left).
  destruct o as [t|]; cbn in *.
  - destruct Ho as [(x & Hx & HP & Ht) Hmax].
    destruct (Z.ltb_spec t (cr_observed_at e)); cbn; split; try (exists e; done).
    + intros y [Hy| ->%list_elem_of_singleton]%elem_of_app HPy; [|done]. specialize (Hmax y Hy HPy). lia.
    + exists x. split; [apply elem_of_app; by left|done].
    + intros y [Hy| ->%list_elem_of_singleton]%elem_of_app HPy; [by apply Hmax|lia].
  - split; [by exists e|].
    intros y [Hy| ->%list_elem_of_singleton]%elem_of_app HPy; [by destruct (Ho y Hy)|done].
Qed.

Lemma activity_newest l :
  let a := fold_left activity_step l (None, None) in
  newest_of (on_side "buy") l a.1 /\ newest_of (on_side "sell") l a.2.
Proof.
  induction l as [|e l IH] using rev_ind; [by split; intros ? ?%not_elem_of_nil|].
  rewrite fold_left_app. cbn [fold_left]. destruct IH as [Hb Hs].
  set (a := fold_left activity_step l (None, None)) in *. unfold activity_step.
  case_decide as Hbuy; [|case_decide as Hsell]; cbn.
  - split; [by apply newest_of_take|]. apply newest_of_skip; [|done].
    unfold on_side. rewrite Hbuy. done.
  - split; [by apply newest_of_skip|by apply newest_of_take].
  - split; by apply newest_of_skip.
Qed.

(** The leader is out: a sale after the link was opened, and no purchase after
    it. *)
Definition sold_out (l : CopyLinkRecord) (activity : list CopyEventRecord) : Prop :=
  exists e, e ∈ activity /\ since_link l e = true /\ on_side "sell" e
    /\ forall b, b ∈ activity -> since_link l b = true -> on_side "buy" b ->
         b.(cr_observed_at) <= e.(cr_observed_at).

Lemma leader_is_out_spec l activity :
  leader_is_out (activity_of l activity) = true <-> sold_out l activity.
Proof.
  unfold activity_of, sold_out, leader_is_out.
  set (f := filter (fun e => since_link l e = true) activity).
  assert (Hf : forall e, e ∈ f <-> since_link l e = true /\ e ∈ activity)
    by (intros e; unfold f; by rewrite list_elem_of_filter).
  destruct (activity_newest f) as [Hb Hs].
  destruct (fold_left activity_step f (None, None)) as [b s]. cbn in *.
  destruct s as [t|]; cbn in *.
  - destruct Hs as [(e & [Hle Hea]%Hf & Hse & Het) Hmax]. split.
    + intros Hout. exists e. split_and!; [done..|]. intros x Hx Hlx Hbx.
      destruct b as [tb|]; cbn in Hb; [|by destruct (Hb x); [by apply Hf|]].
      destruct Hb as [_ Hbm]. specialize (Hbm x ltac:(by apply Hf) Hbx).
      apply negb_true_iff, Z.ltb_ge in Hout. lia.
    + intros (e' & He'a & Hle' & Hse' & Hall). destruct b as [tb|]; [|done]. cbn in Hb.
      destruct Hb as [(x & [Hlx Hxa]%Hf & Hbx & <-) _]. apply negb_true_iff, Z.ltb_ge.
      specialize (Hall x Hxa Hlx Hbx). specialize (Hmax e' ltac:(by apply Hf) Hse'). lia.
  - split; [done|]. intros (e & Hea & Hle & Hse & _). by destruct (Hs e); [apply Hf|].
Qed.

(** * Reconciliation *)

Lemma elem_of_concat_map {A B} (f : A -> list B) l y :
  y ∈ concat (map f l) <-> exists x, x ∈ l /\ y ∈ f x.
Proof.
  rewrite list_elem_of_In, in_concat. setoid_rewrite in_map_iff. split.
  - intros (? & (x & <- & Hx) & Hy). exists x. by rewrite !list_elem_of_In.
  - intros (x & Hx & Hy). exists (f x). rewrite <- list_elem_of_In. split; [|done].
    exists x. by rewrite <- list_elem_of_In.
Qed.

Lemma position_by_id_Some id ps p : position_by_id id ps = Some p -> p ∈ ps /\ p.(p_id) = id.
Proof.
  unfold position_by_id. intros ([i x] & Hx & ->)%fmap_Some.
  apply list_find_Some in Hx as (Hi & Hid & _). split; [by eapply list_elem_of_lookup_2|done].
Qed.

(** The positions it sells.  With automatic exits, and only then, a position is
    sold in full, and it is sold exactly when it is held, its link is open, and
    its leader sold the mint after the link was opened without buying it
    afterwards. *)
Theorem reconcile_sells_exactly now i id fraction :
  (exists f, f ∈ (reconcile now i).(rr_findings) /\ f.(fi_action) = MirrorExit id fraction)
  <-> i.(rn_auto_exit) = true /\ fraction = fone
      /\ exists l p, l ∈ i.(rn_links) /\ link_is_open l = true
           /\ last_position_by_id l.(cl_position_id) i.(rn_positions) = Some p
           /\ p.(p_id) = id /\ held_position p = true /\ sold_out l i.(rn_activity).
Proof.
  unfold reconcile. cbn [rr_findings]. split.
  - intros (f & Hf & Ha). apply elem_of_app in Hf as [Hf|Hf].
    + apply elem_of_concat_map in Hf as (l & [Hopen Hl]%list_elem_of_filter & Hfs).
      unfold link_findings in Hfs.
      destruct (last_position_by_id _ _) as [p|] eqn:Hp;
        [|by apply list_elem_of_singleton in Hfs as ->].
      destruct (held_position p) eqn:Hheld; [|by apply list_elem_of_singleton in Hfs as ->].
      apply elem_of_app in Hfs as [Hfs|[Hfs|Hfs]%elem_of_app].
      * unfold exit_finding in Hfs. destruct (leader_is_out _) eqn:Hout; [|by apply not_elem_of_nil in Hfs].
        apply list_elem_of_singleton in Hfs as ->. cbn in Ha.
        destruct (rn_auto_exit i); [|done]. injection Ha as <- <-.
        split_and!; [done..|]. exists l, p. apply leader_is_out_spec in Hout. by split_and!.
      * unfold removed_finding in Hfs. case_decide; [|by apply not_elem_of_nil in Hfs].
        by apply list_elem_of_singleton in Hfs as ->.
      * unfold qty_finding in Hfs. destruct (qty_differs l p); [|by apply not_elem_of_nil in Hfs].
        by apply list_elem_of_singleton in Hfs as ->.
    + apply elem_of_concat_map in Hf as (p & _ & Hfs). unfold position_findings in Hfs.
      apply elem_of_app in Hfs as [Hfs|Hfs].
      * case_match; [|by apply not_elem_of_nil in Hfs]. by apply list_elem_of_singleton in Hfs as ->.
      * case_match; [|by apply not_elem_of_nil in Hfs]. case_decide; [|by apply not_elem_of_nil in Hfs].
        by apply list_elem_of_singleton in Hfs as ->.
  - intros (Hauto & -> & l & p & Hl & Hopen & Hp & <- & Hheld & Hout).
    apply leader_is_out_spec in Hout. eexists. split.
    + apply elem_of_app. left. apply elem_of_concat_map. exists l. split; [by apply list_elem_of_filter|].
      unfold link_findings. rewrite Hp, Hheld. apply elem_of_app. left.
      unfold exit_finding. rewrite Hout. by left.
    + cbn. by rewrite Hauto.
Qed.

(** * The plan *)

(** The actions on positions and links. *)
Definition about_link (a : RecoveryAction) : bool :=
  match a with CleanupFailedEntry _ _ | RestoreLink _ | RaCloseLink _ _ _ => true | _ => false end.

Definition held_of (i : RecoveryInputs) : list Position :=
  filter (fun p => held_position p = true) i.(ri_positions).

Lemma elem_of_held i p : p ∈ held_of i <-> p ∈ i.(ri_positions) /\ held_position p = true.
Proof. unfold held_of. rewrite list_elem_of_filter. tauto. Qed.

Lemma plan_other journal ledger held a :
  a ∈ plan_dedup journal \/ a ∈ plan_cursors journal \/ a ∈ plan_holds ledger held -> about_link a = false.
Proof.
  intros [Ha|[Ha|Ha]].
  - unfold plan_dedup in Ha. destruct (journal_keys journal); [by apply not_elem_of_nil in Ha|].
    by apply list_elem_of_singleton in Ha as ->.
  - apply list_elem_of_omap in Ha as (l & _ & (c & _ & ->)%fmap_Some). done.
  - apply list_elem_of_fmap in Ha as (r & -> & _). done.
Qed.

Lemma plan_link_actions now i a :
  about_link a = true ->
  a ∈ plan_recovery now i
  <-> a ∈ omap (plan_cleanup i.(ri_ledger)) (held_of i)
      \/ a ∈ omap (plan_restore now i) (held_of i)
      \/ a ∈ omap (plan_close i.(ri_positions)) i.(ri_links).
Proof.
  intros Ha. unfold plan_recovery. rewrite !elem_of_app. fold (held_of i). split.
  - intros [Hx|[Hx|[Hx|Hx]]]; [..|exact Hx];
      assert (about_link a = false) by (apply (plan_other (ri_journal i) (ri_ledger i) (held_of i)); tauto); congruence.
  - tauto.
Qed.

Lemma cleanup_is ledger p a :
  plan_cleanup ledger p = Some a <->
  exists sig, signature_of p = Some sig /\ fate_of ledger sig = FateFailed
              /\ a = CleanupFailedEntry p.(p_id) sig.
Proof.
  unfold plan_cleanup. destruct (signature_of p) as [sig|]; cbn; [|split; [done|by intros (? & ? & _)]].
  case_decide; (split; [|intros (? & [= <-] & ? & ->)]); try done.
  intros [= <-]. by exists sig.
Qed.

Lemma restore_is now i p a :
  plan_restore now i p = Some a <->
  linked_to i.(ri_links) p.(p_id) = false
  /\ exists leader, leader_of p = Some leader
       /\ a = RestoreLink (with_restored p.(p_opened_at)
                (link_for now p.(p_id) leader p.(p_symbol) (entry_event_of i.(ri_journal) p.(p_id))
                   (default [] p.(p_entry_signature)) None fzero p.(p_qty))).
Proof.
  unfold plan_restore. destruct (linked_to _ _); [split; [done|by intros [? _]]|].
  destruct (leader_of p) as [leader|]; cbn; [|split; [done|by intros (_ & ? & ? & _)]].
  split; [intros [= <-]; split; [done|by exists leader]|by intros (_ & ? & [= <-] & ->)].
Qed.

Lemma close_is positions l a :
  plan_close positions l = Some a <->
  link_is_open l = true
  /\ match position_by_id l.(cl_position_id) positions with
     | Some p => held_position p = false /\ a = RaCloseLink l.(cl_position_id) CLOSED (closed_note p)
     | None => a = RaCloseLink l.(cl_position_id) ORPHANED missing_note
     end.
Proof.
  unfold plan_close. destruct (link_is_open l); cbn; [|split; [done|by intros [? _]]].
  destruct (position_by_id _ _) as [p|]; [destruct (held_position p)|]; naive_solver.
Qed.

Section Exact.
Context (now : Z) (i : RecoveryInputs).

Lemma plan_cleanup_exact x sig :
  CleanupFailedEntry x sig ∈ plan_recovery now i <->
  exists p, p ∈ held_of i /\ p.(p_id) = x /\ signature_of p = Some sig
            /\ fate_of i.(ri_ledger) sig = FateFailed.
Proof.
  rewrite plan_link_actions by done. rewrite !list_elem_of_omap. split.
  - intros [(p & Hp & (s & Hs & Hf & [= -> ->])%cleanup_is)
           |[(p & _ & (_ & ? & _ & [=])%restore_is)|(l & _ & [_ Hl]%close_is)]]; [by exists p|].
    by destruct (position_by_id _ _); [destruct Hl|].
  - intros (p & Hp & <- & Hs & Hf). left. exists p. split; [done|]. apply cleanup_is. by exists sig.
Qed.

Lemma plan_restore_exact l :
  RestoreLink l ∈ plan_recovery now i <->
  exists p leader, p ∈ held_of i /\ linked_to i.(ri_links) p.(p_id) = false
    /\ leader_of p = Some leader
    /\ l = with_restored p.(p_opened_at)
             (link_for now p.(p_id) leader p.(p_symbol) (entry_event_of i.(ri_journal) p.(p_id))
                (default [] p.(p_entry_signature)) None fzero p.(p_qty)).
Proof.
  rewrite plan_link_actions by done. rewrite !list_elem_of_omap. split.
  - intros [(p & Hp & (s & _ & _ & [=])%cleanup_is)
           |[(p & Hp & (Hl & leader & Hw & [= ->])%restore_is)|(x & _ & [_ Hl]%close_is)]];
      [by exists p, leader|].
    by destruct (position_by_id _ _); [destruct Hl|].
  - intros (p & leader & Hp & Hl & Hw & ->). right; left. exists p. split; [done|].
    apply restore_is. split; [done|]. by exists leader.
Qed.

Lemma plan_close_exact x status note :
  RaCloseLink x status note ∈ plan_recovery now i <->
  exists l, l ∈ i.(ri_links) /\ l.(cl_position_id) = x /\ link_is_open l = true
    /\ match position_by_id x i.(ri_positions) with
       | Some p => held_position p = false /\ status = CLOSED /\ note = closed_note p
       | None => status = ORPHANED /\ note = missing_note
       end.
Proof.
  rewrite plan_link_actions by done. rewrite !list_elem_of_omap. split.
  - intros [(p & Hp & (s & _ & _ & [=])%cleanup_is)
           |[(p & _ & (_ & ? & _ & [=])%restore_is)|(l & Hl & [Ho Ha]%close_is)]].
    exists l. destruct (position_by_id (cl_position_id l) _) as [p|] eqn:Hp.
    + destruct Ha as [Hh [= -> -> ->]]. rewrite Hp. done.
    + injection Ha as -> -> ->. rewrite Hp. done.
  - intros (l & Hl & <- & Ho & Ha). right; right. exists l. split; [done|]. apply close_is.
    split; [done|]. destruct (position_by_id _ _); [by destruct Ha as (? & -> & ->)|by destruct Ha as [-> ->]].
Qed.
End Exact.
