(* ===== verification/CopyBot.v ===== *)
(** The part of the copy bot that needs no network
    ([crates/module-copy/src/lib.rs], [event.rs], [event_dedup.rs]): its state,
    the claim of an event, the terminal bookkeeping, the reconciliation of the
    leaders with the configuration and the recovery after a restart.  An
    operation reads the clock once.  Metrics, audit events and logs are left
    out.  The deduplication is the one of the shared state without a durable
    backend; [Dedup] is the facade in front of it. *)
From stdpp Require Import prelude countable gmap list sorting strings.
From Stdlib Require Import ZArith Lia.
From S2P Require Import Prelude.
From S2P Require Import Text.
From S2P Require Import Float64.
From S2P Require Import Models.
From S2P Require Import BotConfig.
From S2P Require Import BotCore.
From S2P Require Import LedgerEvent.
From S2P Require Import ExecLedger.
From S2P Require Import AppState.
From S2P Require Import CopyLeader.
From S2P Require Import CopyEvent.
From S2P Require Import CopyPolicy.
From S2P Require Import CopyOrdering.
From S2P Require Import CopyStore.
From S2P Require Import CopyRecovery.

#[local] Open Scope Z_scope.

(** The state of [CopyBot] without its executor and its services. *)
Record CopyCore (S : Type) : Type := mkCopyCore {
  k_app : AppState;
  k_leaders : LeaderRegistry;
  k_ordering : OrderingTracker;
  k_sequence : Z;                        (* u64 *)
  k_store : S;
}.
Arguments mkCopyCore {S}.
Arguments k_app {S}. Arguments k_leaders {S}. Arguments k_ordering {S}.
Arguments k_sequence {S}. Arguments k_store {S}.

Section Core.
Context {S : Type} `{CopyStore S} `{HashOrder} {libs : LedgerLibs}.

Notation Core := (CopyCore S).

(** ** Acting on one part *)

Definition on_app {A} (f : AppState -> A * AppState) : St Core A :=
  zoom k_app (fun a k => mkCopyCore a k.(k_leaders) k.(k_ordering) k.(k_sequence) k.(k_store)) f.

Definition change_app (f : AppState -> AppState) : St Core unit := on_app (fun s => (tt, f s)).

(** A registry operation: its clock shows [now]. *)
Definition on_leaders {A} (f : (nat -> Z) -> Op A) (now : Z) : St Core A :=
  zoom k_leaders (fun r k => mkCopyCore k.(k_app) r k.(k_ordering) k.(k_sequence) k.(k_store))
    (fun r => let x := f (fun _ => now) (mkWorld r O) in (x.1, x.2.(reg))).

Definition on_ordering {A} (f : OrderingTracker -> A * OrderingTracker) : St Core A :=
  zoom k_ordering (fun t k => mkCopyCore k.(k_app) k.(k_leaders) t k.(k_sequence) k.(k_store)) f.

Definition on_store {A} (f : S -> A * S) : St Core A :=
  zoom k_store (fun s k => mkCopyCore k.(k_app) k.(k_leaders) k.(k_ordering) k.(k_sequence) s) f.

(** ** Events *)

Definition next_sequence : St Core Z := fun k =>
  let n := saturating_add u64_max k.(k_sequence) 1 in
  (n, mkCopyCore k.(k_app) k.(k_leaders) k.(k_ordering) n k.(k_store)).

Definition event_from_trade (t : WalletTrade) (feed : text) : St Core LeaderTradeEvent :=
  n ← next_sequence; mret (from_wallet_trade t (EventSource_from_feed feed) n).

(** [event_dedup::claim]: whether the event is fresh. *)
Definition claim_event (e : LeaderTradeEvent) : St Core bool :=
  on_app (mark_copy_event_seen (dedup_key e)).

(** [event_dedup::seed]: how many keys were new. *)
Fixpoint seed_keys (keys : list text) : St Core nat :=
  match keys with
  | [] => mret O
  | key :: keys =>
      fresh ← on_app (mark_copy_event_seen key);
      n ← seed_keys keys;
      mret (if fresh : bool then Datatypes.S n else n)
  end.

(** ** Bookkeeping *)

Definition persist_leader (now : Z) (address : text) : St Core unit :=
  l ← gets (fun k => get k.(k_leaders) address);
  match l with
  | Some l => on_store (upsert_leader (Leader_record now l)) ;; mret tt
  | None => mret tt
  end.

(** The rejection that is neither counted nor journaled: the first delivery
    already is. *)
Definition is_duplicate_rejection (r : option Rejection) : bool :=
  match r with Some r => bool_decide (r.(rj_reason) = RrDuplicateEvent) | None => false end.

(** [finish]; [ruled] says whether the leader was resolved. *)
Definition finish (now : Z) (e : LeaderTradeEvent) (ruled : bool) (o : CopyOutcome)
    : St Core CopyOutcome :=
  (if ruled && negb (is_duplicate_rejection o.(co_rejection)) then
     match o.(co_rejection) with
     | Some r => on_leaders (fun _ => note_rejected e.(e_leader) (RejectReason_as_str r.(rj_reason))) now
     | None => mret tt
     end ;;
     on_store (record_event (journal_record now e o)) ;;
     persist_leader now e.(e_leader)
   else mret tt) ;;
  mret o.

Definition finish_rejected (now : Z) (e : LeaderTradeEvent) (ruled : bool) (reason : RejectReason)
    (stage : CopyStage) : St Core CopyOutcome :=
  finish now e ruled (outcome_rejected e.(e_event_id) (mkRejection reason stage)).

(** ** Leaders and the configuration *)

Definition sync_transition (now : Z) (replica_id : text) (t : LeaderTransition) : St Core unit :=
  (if decide (t.(t_event) = EvUnfollowed)
   then on_ordering (fun o => (tt, ordering_forget t.(t_address) o)) else mret tt) ;;
  on_store (append_leader_event (transition_record replica_id t)) ;;
  persist_leader now t.(t_address).

Fixpoint sync_transitions (now : Z) (replica_id : text) (ts : list LeaderTransition) : St Core unit :=
  match ts with
  | [] => mret tt
  | t :: ts => sync_transition now replica_id t ;; sync_transitions now replica_id ts
  end.

Definition sync_leaders (now : Z) (replica_id : text) (cfg : CopyConfig)
    : St Core (list LeaderTransition) :=
  ts ← on_leaders (fun clock => sync_from_config clock cfg.(cc_wallets)) now;
  on_ordering (fun o => (tt, set_strict cfg.(cc_strict_ordering) o)) ;;
  sync_transitions now replica_id ts ;;
  mret ts.

(** ** Restart *)

Definition copy_positions (s : AppState) : list Position :=
  filter (fun p => p.(p_source) = SrcCopy) (all_positions s).

(** The entry of a mirrored position: its signature, its latency, its leader. *)
Definition with_entry (signature : option text) (latency_ms : Z) (leader : text) (p : Position)
    : Position :=
  {| p_id := p.(p_id); p_opened_at := p.(p_opened_at); p_updated_at := p.(p_updated_at);
     p_closed_at := p.(p_closed_at); p_source := p.(p_source); p_venue := p.(p_venue);
     p_mode := p.(p_mode); p_status := p.(p_status); p_symbol := p.(p_symbol);
     p_symbol_display := p.(p_symbol_display); p_quote_symbol := p.(p_quote_symbol);
     p_qty := p.(p_qty); p_avg_entry := p.(p_avg_entry); p_cost_basis := p.(p_cost_basis);
     p_realized_quote := p.(p_realized_quote); p_realized_pnl_quote := p.(p_realized_pnl_quote);
     p_realized_at := p.(p_realized_at); p_last_mark := p.(p_last_mark);
     p_stop_loss := p.(p_stop_loss); p_take_profit := p.(p_take_profit);
     p_trailing_stop := p.(p_trailing_stop); p_trailing_high_water := p.(p_trailing_high_water);
     p_max_hold_secs := p.(p_max_hold_secs); p_entry_signature := signature;
     p_exit_signature := p.(p_exit_signature); p_entry_latency_ms := Some latency_ms;
     p_copied_wallet := Some leader; p_market_id := p.(p_market_id);
     p_outcome := p.(p_outcome); p_reason_closed := p.(p_reason_closed) |}.

(** [p.qty = 0.0; p.cost_basis = 0.0]. *)
Definition emptied (p : Position) : Position :=
  {| p_id := p.(p_id); p_opened_at := p.(p_opened_at); p_updated_at := p.(p_updated_at);
     p_closed_at := p.(p_closed_at); p_source := p.(p_source); p_venue := p.(p_venue);
     p_mode := p.(p_mode); p_status := p.(p_status); p_symbol := p.(p_symbol);
     p_symbol_display := p.(p_symbol_display); p_quote_symbol := p.(p_quote_symbol);
     p_qty := fzero; p_avg_entry := p.(p_avg_entry); p_cost_basis := fzero;
     p_realized_quote := p.(p_realized_quote); p_realized_pnl_quote := p.(p_realized_pnl_quote);
     p_realized_at := p.(p_realized_at); p_last_mark := p.(p_last_mark);
     p_stop_loss := p.(p_stop_loss); p_take_profit := p.(p_take_profit);
     p_trailing_stop := p.(p_trailing_stop); p_trailing_high_water := p.(p_trailing_high_water);
     p_max_hold_secs := p.(p_max_hold_secs); p_entry_signature := p.(p_entry_signature);
     p_exit_signature := p.(p_exit_signature); p_entry_latency_ms := p.(p_entry_latency_ms);
     p_copied_wallet := p.(p_copied_wallet); p_market_id := p.(p_market_id);
     p_outcome := p.(p_outcome); p_reason_closed := p.(p_reason_closed) |}.

Definition never_landed : text := lit "entry never landed (execution ledger: failed/expired)".
Definition cleaned_note : text := lit "entry never landed; cleaned up at restart".

Definition apply_recovery (now : Z) (a : RecoveryAction) : St Core unit :=
  match a with
  | SeedDedup keys => seed_keys keys ;; mret tt
  | SeedCursor leader slot signature => on_ordering (fun t => (tt, seed leader slot signature t))
  | HoldAmbiguous _ _ _ => mret tt
  | CleanupFailedEntry id _ =>
      on_app (with_position now id emptied) ;;
      on_app (close_position now id PosFailed never_landed) ;;
      on_store (close_link now id CLOSED None (Some cleaned_note)) ;;
      mret tt
  | RestoreLink l => on_store (upsert_link l) ;; mret tt
  | RaCloseLink id status note => on_store (close_link now id status None (Some note)) ;; mret tt
  end.

Fixpoint apply_plan (now : Z) (plan : list RecoveryAction) : St Core unit :=
  match plan with
  | [] => mret tt
  | a :: plan => apply_recovery now a ;; apply_plan now plan
  end.

(** The copy entries among the newest 5000 records of the ledger. *)
Definition copy_ledger (l : ExecutionLedger) : list ExecutionRecord :=
  filter (fun r => r.(x_module) = lit "copy") (list_recent 5000 l).

Definition HOUR : Z := 3600 * 1000000000.

(** The journal of the last hours; a store that does not answer gives none. *)
Definition journal_of (now hours : Z) (s : S) : list CopyEventRecord :=
  if 0 <? hours then default [] (events_since (now - hours * HOUR) 10000 s) else [].

Definition recovery_inputs (now hours : Z) (ledger : ExecutionLedger) (k : Core) : RecoveryInputs :=
  mkRecoveryInputs (journal_of now (Z.max hours 0) k.(k_store))
    (default [] (open_links k.(k_store))) (copy_positions k.(k_app)) (copy_ledger ledger).

Definition recover_after_restart (now : Z) (cfg : CopyConfig) (ledger : ExecutionLedger)
    : St Core (list RecoveryAction) :=
  rows ← gets (fun k => load_leaders k.(k_store));
  match rows with
  | Some rows => on_leaders (fun _ => restore rows) now ;; mret tt
  | None => mret tt
  end ;;
  i ← gets (recovery_inputs now cfg.(cc_recovery_lookback_hours) ledger);
  let plan := plan_recovery now i in
  apply_plan now plan ;;
  mret plan.

(** ** Reconciliation inputs *)

Definition leader_statuses (r : LeaderRegistry) : gmap text LeaderStatus :=
  fold_left (fun m l => <[l.(l_address) := l.(l_status)]> m) (all r) ∅.

Definition recon_inputs (now : Z) (cfg : CopyConfig) (ledger : ExecutionLedger) (k : Core)
    : ReconInputs :=
  mkReconInputs (default [] (open_links k.(k_store))) (copy_positions k.(k_app))
    (default [] (events_since (now - Z.max cfg.(cc_recovery_lookback_hours) 1 * HOUR) 10000 k.(k_store)))
    (leader_statuses k.(k_leaders)) (copy_ledger ledger)
    (cfg.(cc_reconcile_auto_exit) && cfg.(cc_mirror_exits)).
End Core.
