(* ===== verification/CopyBotCorrect.v ===== *)
(** A restart of the copy engine settles its memory: what it does to positions
    and links is done after one pass, but for the links it restores to positions
    it has just closed; and a trade that was decided before the restart is not
    decided again. *)
From stdpp Require Import prelude countable gmap list sorting strings.
From Stdlib Require Import ZArith Lia.
From S2P Require Import Prelude.
From S2P Require Import Text.
From S2P Require Import Float64.
From S2P Require Import Models.
From S2P Require Import BotConfig.
From S2P Require Import BotCore.
From S2P Require Import LedgerEvent.
From S2P Require Import ExecLedger.
From S2P Require Import AppState.
From S2P Require Import AppStateCorrect.
From S2P Require Import CopyLeader.
From S2P Require Import CopyEvent.
From S2P Require Import CopyPolicy.
From S2P Require Import CopyOrdering.
From S2P Require Import CopyStore.
From S2P Require Import CopyRecovery.
From S2P Require Import CopyBot.

#[local] Open Scope Z_scope.

(** * What one action does *)

(** Whether a link is open after an action; [id] names its position. *)
Definition act_open (id : text) (b : bool) (a : RecoveryAction) : bool :=
  match a with
  | CleanupFailedEntry x _ => if decide (x = id) then false else b
  | RestoreLink l => if decide (l.(cl_position_id) = id) then true else b
  | RaCloseLink x _ _ => if decide (x = id) then false else b
  | _ => b
  end.

Definition cleaned (now : Z) (p : Position) : Position :=
  Position_close now PosFailed never_landed (with_updated_at now (emptied p)).

Definition act_position (now : Z) (id : text) (o : option Position) (a : RecoveryAction)
    : option Position :=
  match a with
  | CleanupFailedEntry x _ => if decide (x = id) then cleaned now <$> o else o
  | _ => o
  end.

(** The actions a plan can hold. *)
Definition planned (a : RecoveryAction) : Prop :=
  match a with
  | RestoreLink l => link_is_open l = true
  | RaCloseLink _ status _ => status = CLOSED \/ status = ORPHANED
  | _ => True
  end.

(** The position an action is about. *)
Definition target (a : RecoveryAction) : option text :=
  match a with
  | CleanupFailedEntry x _ | RaCloseLink x _ _ => Some x
  | RestoreLink l => Some l.(cl_position_id)
  | _ => None
  end.

Definition restores (a : RecoveryAction) : Prop :=
  match a with RestoreLink _ => True | _ => False end.
Definition shuts (a : RecoveryAction) : Prop :=
  match a with CleanupFailedEntry _ _ | RaCloseLink _ _ _ => True | _ => False end.

Lemma fold_other id l b :
  Forall (fun a => about_link a = false) l -> fold_left (act_open id) l b = b.
Proof. induction 1 as [|a l Ha _ IH] in b |- *; [done|]. cbn. rewrite IH. by destruct a. Qed.

Lemma fold_shuts id l b :
  Forall shuts l ->
  fold_left (act_open id) l b = true <-> b = true /\ forall a, a ∈ l -> target a <> Some id.
Proof.
  intros Hl. induction Hl as [|a l Ha _ IH] in b |- *; cbn.
  { split; [intros ->; split; [done|by intros ? ?%not_elem_of_nil]|by intros [? _]]. }
  rewrite IH. split.
  - intros [Hb Hall]. destruct a as [| | |x sg| |x st n]; try done; cbn in Hb;
      case_decide as Hx; try done;
      (split; [done|]; intros y [->|Hy]%elem_of_cons; [cbn; congruence|by apply Hall]).
  - intros [-> Hall]. split; [|intros y Hy; apply Hall; by right].
    assert (Ht : target a <> Some id) by (apply Hall; by left).
    destruct a as [| | |x sg| |x st n]; try done; cbn in *; by rewrite decide_False by congruence.
Qed.

Lemma fold_restores id l b :
  Forall restores l ->
  fold_left (act_open id) l b = true <-> b = true \/ exists a, a ∈ l /\ target a = Some id.
Proof.
  intros Hl. induction Hl as [|a l Ha _ IH] in b |- *; cbn.
  { split; [by left|]. by intros [?|(? & ?%not_elem_of_nil & _)]. }
  rewrite IH. destruct a as [| | | |lk|]; try done. cbn. case_decide as Hx.
  - split; [|by left]. intros _. right. exists (RestoreLink lk). split; [by left|]. cbn. by rewrite Hx.
  - split; (intros [?|(y & Hy & Hty)]; [by left|right]).
    + exists y. split; [by right|done].
    + apply elem_of_cons in Hy as [->|Hy]; [cbn in Hty; congruence|by exists y].
Qed.

(** What a position is after a list of actions. *)
Lemma fold_position now id l o :
  exists f, fold_left (act_position now id) l o = f <$> o
    /\ (forall p, p_source (f p) = p_source p /\ p_id (f p) = p_id p)
    /\ ((forall sig, CleanupFailedEntry id sig ∉ l) -> forall p, f p = p)
    /\ (forall sig, CleanupFailedEntry id sig ∈ l -> forall p, p_status (f p) = PosFailed).
Proof.
  induction l as [|a l IH] using rev_ind.
  { exists (fun p => p). split_and!; try done; [by destruct o|]. by intros ? ?%not_elem_of_nil. }
  destruct IH as (f & Hf & Hk & Hno & Hyes). rewrite fold_left_app. cbn [fold_left]. rewrite Hf.
  assert (Hother : (forall sig, a <> CleanupFailedEntry id sig) ->
            act_position now id (f <$> o) a = f <$> o).
  { intros Ha. destruct a as [| | |x sg| |]; try done. cbn. case_decide; [|done]. subst. by destruct (Ha sg). }
  assert (Hcase : (exists sg, a = CleanupFailedEntry id sg) \/ forall sg, a <> CleanupFailedEntry id sg).
  { destruct a as [| | |x sg| |]; try by right. destruct (decide (x = id)) as [->|]; [left; by exists sg|].
    right. congruence. }
  destruct Hcase as [[sg ->]|Ha].
  - exists (fun p => cleaned now (f p)). split_and!.
    + cbn. rewrite decide_True by done. by destruct o.
    + intros p. apply Hk.
    + intros Hn. destruct (Hn sg). apply elem_of_app. right. by left.
    + done.
  - exists f.
    split_and!; [by apply Hother|done| |].
    + intros Hn. apply Hno. intros sig Hin. apply (Hn sig), elem_of_app. by left.
    + intros sig [Hin|Hin%list_elem_of_singleton]%elem_of_app; [by apply (Hyes sig)|].
      by destruct (Ha sig).
Qed.

Definition positions_keyed (s : AppState) : Prop :=
  forall id p, s.(st_positions) !! id = Some p -> p.(p_id) = id.

(** Reading the positions past one assignment. *)
Lemma positions_seen key s :
  (mark_copy_event_seen key s).2.(st_positions) = s.(st_positions).
Proof. by destruct s. Qed.

Lemma positions_set m o s : (set_positions m o s).(st_positions) = m.
Proof. by destruct s. Qed.

Lemma positions_exit m s : (set_last_exit_at m s).(st_positions) = s.(st_positions).
Proof. by destruct s. Qed.

Lemma config_set m o s : (set_positions m o s).(st_config) = s.(st_config).
Proof. by destruct s. Qed.

Lemma cleanup_positions `{HashOrder} now x id s :
  (close_position now x PosFailed never_landed (with_position now x emptied s).2).2.(st_positions) !! id
  = act_position now id (s.(st_positions) !! id) (CleanupFailedEntry x []).
Proof.
  unfold with_position. cbn. destruct (st_positions s !! x) as [p|] eqn:Hx; cbn; unfold close_position.
  - rewrite positions_set, lookup_insert_eq. cbn.
    rewrite positions_exit, positions_set, insert_insert_eq, lookup_insert.
    case_decide as Hid; [subst; by rewrite Hx|done].
  - rewrite Hx. cbn. case_decide as Hid; [subst; by rewrite Hx|done].
Qed.

Section Restart.
Context {S : Type} `{CopyStore S} `{HashOrder} `{!HashOrderLaws} {libs : LedgerLibs}.
Context {good : S -> Prop} {link_of : text -> S -> option CopyLinkRecord}
  {event_of : text -> S -> option CopyEventRecord}
  `{!CopyStoreLaws S good link_of event_of} `{!StoreAnswers S}.

Definition open_at (id : text) (s : S) : bool :=
  match link_of id s with Some l => link_is_open l | None => false end.

Lemma seed_keys_frame keys (k : CopyCore S) :
  (seed_keys keys k).2.(k_store) = k.(k_store)
  /\ (seed_keys keys k).2.(k_app).(st_positions) = k.(k_app).(st_positions).
Proof.
  revert k. induction keys as [|key keys IH]; intros k; [done|].
  set (k' := (on_app (mark_copy_event_seen key) k).2).
  change (seed_keys (key :: keys) k).2 with (seed_keys keys k').2.
  destruct (IH k') as [-> ->]. split; [done|apply positions_seen].
Qed.

Lemma close_open now x status ev note id s :
  good s -> status = CLOSED \/ status = ORPHANED ->
  good (close_link now x status ev note s).2
  /\ open_at id (close_link now x status ev note s).2
     = if decide (x = id) then false else open_at id s.
Proof.
  intros Hg Hst. destruct (law_close_link now x status ev note s Hg) as (Hg' & Hl & _).
  split; [done|]. unfold open_at. rewrite Hl.
  destruct (decide (id = x)) as [->|Hne]; [rewrite decide_True by done|by rewrite decide_False].
  destruct (link_of x s) as [l|]; [|done]. cbn. destruct (link_is_open l) eqn:Ho; [|done].
  by destruct Hst as [-> | ->].
Qed.

Lemma upsert_open l id s :
  good s -> link_is_open l = true ->
  good (upsert_link l s).2
  /\ open_at id (upsert_link l s).2 = if decide (l.(cl_position_id) = id) then true else open_at id s.
Proof.
  intros Hg Ho. pose proof (answered_upsert_link l s) as Ha.
  destruct (upsert_link l s) as [b s'] eqn:Hu. cbn in Ha. subst b.
  destruct (law_upsert_link l s s' Hg Hu) as (Hg' & Hl & _). split; [done|].
  unfold open_at. cbn. rewrite Hl.
  destruct (decide (id = cl_position_id l)) as [->|Hne];
    [rewrite decide_True by done|by rewrite decide_False].
  by destruct (link_of (cl_position_id l) s).
Qed.

Lemma apply_recovery_effect now a (k : CopyCore S) :
  good k.(k_store) -> planned a ->
  let k' := (apply_recovery now a k).2 in
  good k'.(k_store)
  /\ (forall id, open_at id k'.(k_store) = act_open id (open_at id k.(k_store)) a)
  /\ forall id, k'.(k_app).(st_positions) !! id
                = act_position now id (k.(k_app).(st_positions) !! id) a.
Proof.
  intros Hg Hp. destruct a as [keys|leader slot sg|iid pid mint|x sg|l|x status note]; cbn zeta.
  - change (apply_recovery now (SeedDedup keys) k).2 with (seed_keys keys k).2.
    destruct (seed_keys_frame keys k) as [-> ->]. done.
  - done.
  - done.
  - split; [by apply close_open; auto|]. split.
    { intros id. by apply close_open; auto. }
    intros id. exact (cleanup_positions now x id _).
  - split_and!; [exact (proj1 (upsert_open l [] _ Hg Hp))
                |intros id; exact (proj2 (upsert_open l id _ Hg Hp))|done].
  - split_and!; [exact (proj1 (close_open now x status None (Some note) [] _ Hg Hp))
                |intros id; exact (proj2 (close_open now x status None (Some note) id _ Hg Hp))|done].
Qed.

Lemma apply_plan_effect now plan (k : CopyCore S) :
  good k.(k_store) -> Forall planned plan ->
  let k' := (apply_plan now plan k).2 in
  good k'.(k_store)
  /\ (forall id, open_at id k'.(k_store) = fold_left (act_open id) plan (open_at id k.(k_store)))
  /\ forall id, k'.(k_app).(st_positions) !! id
                = fold_left (act_position now id) plan (k.(k_app).(st_positions) !! id).
Proof.
  revert k. induction plan as [|a plan IH]; intros k Hg Hp; [done|].
  apply Forall_cons in Hp as [Ha Hp].
  destruct (apply_recovery_effect now a k Hg Ha) as (Hg' & Ho & Hps). cbn.
  change (apply_plan now (a :: plan) k) with (apply_plan now plan (apply_recovery now a k).2).
  destruct (IH _ Hg' Hp) as (Hg2 & Ho2 & Hps2). split_and!; [done| |].
  - intros id. by rewrite Ho2, Ho.
  - intros id. by rewrite Hps2, Hps.
Qed.

(** ** The plan as a whole *)

Lemma plan_planned now i : Forall planned (plan_recovery now i).
Proof.
  apply Forall_forall. intros a Ha. destruct a as [| | | |l|x st note]; try done.
  - by apply plan_restore_exact in Ha as (? & ? & _ & _ & _ & ->).
  - apply plan_close_exact in Ha as (l & _ & _ & _ & Ha).
    destruct (position_by_id _ _); [left|right]; apply Ha.
Qed.

Lemma fold_plan now i id b :
  fold_left (act_open id) (plan_recovery now i) b
  = fold_left (act_open id) (omap (plan_close i.(ri_positions)) i.(ri_links))
      (fold_left (act_open id) (omap (plan_restore now i) (held_of i))
        (fold_left (act_open id) (omap (plan_cleanup i.(ri_ledger)) (held_of i)) b)).
Proof.
  unfold plan_recovery. fold (held_of i). rewrite !fold_left_app.
  rewrite (fold_other id (plan_dedup _)), (fold_other id (plan_cursors _)), (fold_other id (plan_holds _ _));
    [done|..]; apply Forall_forall; intros a Ha;
    apply (plan_other i.(ri_journal) i.(ri_ledger) (held_of i)); tauto.
Qed.

(** The actions on one position, by kind. *)
Lemma cleanup_targets now i id :
  (forall a, a ∈ omap (plan_cleanup i.(ri_ledger)) (held_of i) -> target a <> Some id)
  <-> forall sig, CleanupFailedEntry id sig ∉ plan_recovery now i.
Proof.
  split.
  - intros Hall sig (p & Hp & Hid & Hs & Hf)%plan_cleanup_exact.
    apply (Hall (CleanupFailedEntry p.(p_id) sig)); [|cbn; by rewrite Hid].
    apply list_elem_of_omap. exists p. split; [done|]. apply cleanup_is. by exists sig.
  - intros Hall a (p & Hp & (sig & Hs & Hf & ->)%cleanup_is)%list_elem_of_omap [= <-].
    apply (Hall sig), plan_cleanup_exact. by exists p.
Qed.

Lemma restore_targets now i id :
  (exists a, a ∈ omap (plan_restore now i) (held_of i) /\ target a = Some id)
  <-> exists l, RestoreLink l ∈ plan_recovery now i /\ l.(cl_position_id) = id.
Proof.
  split.
  - intros (a & (p & Hp & (Hl & leader & Hw & ->)%restore_is)%list_elem_of_omap & [= Ht]).
    eexists. split; [apply plan_restore_exact; by exists p, leader|exact Ht].
  - intros (l & (p & leader & Hp & Hl & Hw & Heq)%plan_restore_exact & Hid). exists (RestoreLink l).
    split; [|cbn; by rewrite Hid]. apply list_elem_of_omap. exists p. split; [done|].
    apply restore_is. split; [done|]. exists leader. by rewrite Heq.
Qed.

Lemma close_targets now i id :
  (forall a, a ∈ omap (plan_close i.(ri_positions)) i.(ri_links) -> target a <> Some id)
  <-> forall st note, RaCloseLink id st note ∉ plan_recovery now i.
Proof.
  split.
  - intros Hall st note (l & Hl & Hid & Ho & Ha)%plan_close_exact.
    apply (Hall (RaCloseLink id st note)); [|done].
    apply list_elem_of_omap. exists l. split; [done|]. apply close_is. split; [done|].
    rewrite Hid. by destruct (position_by_id id _); [destruct Ha as (? & -> & ->)|destruct Ha as [-> ->]].
  - intros Hall a (l & Hl & [Ho Ha]%close_is)%list_elem_of_omap Ht.
    assert (exists st note, a = RaCloseLink (cl_position_id l) st note) as (st & note & ->).
    { by destruct (position_by_id _ _); [destruct Ha as [_ ->]|subst]; do 2 eexists. }
    injection Ht as <-. apply (Hall st note), plan_close_exact. exists l. split_and!; [done..|].
    destruct (position_by_id _ _); [destruct Ha as [? [= -> ->]]|injection Ha as -> ->]; done.
Qed.

(** The order of the plan decides which links are open in the end. *)
Lemma plan_open now i id b :
  fold_left (act_open id) (plan_recovery now i) b = true <->
  (((b = true /\ forall sig, CleanupFailedEntry id sig ∉ plan_recovery now i)
    \/ exists l, RestoreLink l ∈ plan_recovery now i /\ l.(cl_position_id) = id)
   /\ forall st note, RaCloseLink id st note ∉ plan_recovery now i).
Proof.
  rewrite fold_plan, fold_shuts, fold_restores, fold_shuts.
  - by rewrite (cleanup_targets now), restore_targets, (close_targets now).
  - apply Forall_forall. intros a (p & _ & (? & _ & _ & ->)%cleanup_is)%list_elem_of_omap. done.
  - apply Forall_forall. intros a (p & _ & (_ & ? & _ & ->)%restore_is)%list_elem_of_omap. done.
  - apply Forall_forall. intros a (p & _ & [_ Ha]%close_is)%list_elem_of_omap.
    destruct (position_by_id _ _); [by destruct Ha as [_ ->]|by subst].
Qed.

(** ** One pass *)

Lemma elem_of_copy_positions s p :
  p ∈ copy_positions s <-> p.(p_source) = SrcCopy /\ exists id, s.(st_positions) !! id = Some p.
Proof. unfold copy_positions. by rewrite list_elem_of_filter, elem_of_all_positions. Qed.

Lemma find_copy_position s id :
  positions_keyed s ->
  match position_by_id id (copy_positions s) with
  | Some p => s.(st_positions) !! id = Some p /\ p.(p_source) = SrcCopy
  | None => forall p, s.(st_positions) !! id = Some p -> p.(p_source) <> SrcCopy
  end.
Proof.
  intros Hk. destruct (position_by_id id _) as [p|] eqn:Hp.
  - apply position_by_id_Some in Hp as [[Hsrc [x Hx]]%elem_of_copy_positions <-].
    rewrite <- (Hk x p Hx) in Hx. done.
  - intros p Hx Hsrc. unfold position_by_id in Hp. apply fmap_None, list_find_None in Hp.
    rewrite Forall_forall in Hp. apply (Hp p); [|by apply Hk].
    apply elem_of_copy_positions. split; [done|by exists id].
Qed.

(** Positions and links as the planner sees them. *)
Lemma recover_parts now cfg ledger (k : CopyCore S) :
  exists k0, k0.(k_app) = k.(k_app) /\ k0.(k_store) = k.(k_store)
    /\ recover_after_restart now cfg ledger k
       = (plan_recovery now (recovery_inputs now cfg.(cc_recovery_lookback_hours) ledger k),
          (apply_plan now (plan_recovery now
             (recovery_inputs now cfg.(cc_recovery_lookback_hours) ledger k)) k0).2).
Proof.
  exists (match load_leaders k.(k_store) with
          | Some rows => (on_leaders (fun _ => restore rows) now k).2
          | None => k
          end).
  unfold recover_after_restart, gets, mbind, St_bind. cbn.
  by destruct (load_leaders (k_store k)).
Qed.

Lemma linked_open now hours ledger (k : CopyCore S) id :
  good k.(k_store) ->
  linked_to (recovery_inputs now hours ledger k).(ri_links) id = open_at id k.(k_store).
Proof.
  intros Hg. cbn. destruct (answered_open_links k.(k_store)) as [ls Hls].
  rewrite Hls. cbn. destruct (law_open_links _ _ Hg Hls) as [_ Hin]. unfold linked_to, open_at.
  apply eq_true_iff_eq. rewrite bool_decide_eq_true, list_elem_of_fmap. split.
  - intros (l & -> & [Hl Ho]%Hin). by rewrite Hl.
  - destruct (link_of id (k_store k)) as [l|] eqn:Hl; [|done]. intros Ho.
    pose proof (law_keyed _ _ _ Hg Hl) as <-. exists l. split; [done|]. by apply Hin.
Qed.

Lemma held_in_book now hours ledger (k : CopyCore S) p :
  positions_keyed k.(k_app) ->
  p ∈ held_of (recovery_inputs now hours ledger k) <->
  k.(k_app).(st_positions) !! p.(p_id) = Some p /\ p.(p_source) = SrcCopy /\ held_position p = true.
Proof.
  intros Hk. rewrite elem_of_held. cbn. rewrite elem_of_copy_positions. split.
  - intros [[Hsrc [x Hx]] Hh]. rewrite <- (Hk x p Hx) in Hx. done.
  - intros (Hx & Hsrc & Hh). split; [|done]. split; [done|by eexists].
Qed.

Section Twice.
Context (now now' : Z) (cfg : CopyConfig) (ledger : ExecutionLedger) (k : CopyCore S).
Hypothesis Hgood : good k.(k_store).
Hypothesis Hkeyed : positions_keyed k.(k_app).

Let plan := (recover_after_restart now cfg ledger k).1.
Let k1 := (recover_after_restart now cfg ledger k).2.
Let inputs := recovery_inputs now cfg.(cc_recovery_lookback_hours) ledger k.

Lemma first_plan : plan = plan_recovery now inputs.
Proof. unfold plan. destruct (recover_parts now cfg ledger k) as (k0 & _ & _ & ->). done. Qed.

Lemma after_first :
  good k1.(k_store)
  /\ (forall id, open_at id k1.(k_store) = fold_left (act_open id) plan (open_at id k.(k_store)))
  /\ forall id, k1.(k_app).(st_positions) !! id
                = fold_left (act_position now id) plan (k.(k_app).(st_positions) !! id).
Proof.
  rewrite first_plan. unfold k1, inputs.
  destruct (recover_parts now cfg ledger k) as (k0 & Ha & Hs & ->). cbn [snd]. rewrite <- Ha, <- Hs.
  apply apply_plan_effect; [by rewrite Hs|apply plan_planned].
Qed.

Lemma book_after id :
  exists f, k1.(k_app).(st_positions) !! id = f <$> k.(k_app).(st_positions) !! id
    /\ (forall p, p_source (f p) = p_source p /\ p_id (f p) = p_id p)
    /\ ((forall sig, CleanupFailedEntry id sig ∉ plan) -> forall p, f p = p)
    /\ (forall sig, CleanupFailedEntry id sig ∈ plan -> forall p, p_status (f p) = PosFailed).
Proof.
  destruct after_first as (_ & _ & Hps).
  destruct (fold_position now id plan (k.(k_app).(st_positions) !! id)) as (f & Hf & ?).
  exists f. by rewrite Hps.
Qed.

Lemma keyed_after : positions_keyed k1.(k_app).
Proof.
  intros id p Hp. destruct (book_after id) as (f & Hf & Hk & _). rewrite Hf in Hp.
  apply fmap_Some in Hp as (q & Hq & ->). destruct (Hk q) as [_ ->]. by apply Hkeyed.
Qed.

(** A position that is still held was held before and not cleaned up. *)
Lemma held_after p id :
  k1.(k_app).(st_positions) !! id = Some p -> held_position p = true ->
  k.(k_app).(st_positions) !! id = Some p /\ forall sig, CleanupFailedEntry id sig ∉ plan.
Proof.
  intros Hp Hh. destruct (book_after id) as (f & Hf & _ & Hno & Hyes). rewrite Hf in Hp.
  apply fmap_Some in Hp as (q & Hq & ->).
  assert (Hc : forall sig, CleanupFailedEntry id sig ∉ plan).
  { intros sig Hin. specialize (Hyes sig Hin q). unfold held_position in Hh. by rewrite Hyes in Hh. }
  split; [by rewrite (Hno Hc)|done].
Qed.

(** A held position is never closed by the first pass. *)
Lemma held_not_closed p id st note :
  k.(k_app).(st_positions) !! id = Some p -> held_position p = true -> p.(p_source) = SrcCopy ->
  RaCloseLink id st note ∉ plan.
Proof.
  rewrite first_plan. intros Hp Hh Hsrc (l & _ & _ & _ & Hm)%plan_close_exact.
  pose proof (find_copy_position k.(k_app) id Hkeyed) as Hfind.
  unfold inputs in Hm. cbn in Hm.
  destruct (position_by_id id (copy_positions (k_app k))) as [q|]; [|by apply (Hfind p)].
  destruct Hfind as [Hq _], Hm as [Hm _]. congruence.
Qed.

(** A held position with a leader has an open link after the first pass. *)
Lemma held_linked p :
  k1.(k_app).(st_positions) !! p.(p_id) = Some p -> held_position p = true ->
  p.(p_source) = SrcCopy -> is_Some (leader_of p) -> open_at p.(p_id) k1.(k_store) = true.
Proof.
  intros Hp Hh Hsrc [leader Hw]. destruct (held_after p _ Hp Hh) as [Hp0 Hc].
  destruct after_first as (_ & Ho & _). rewrite Ho, first_plan. apply plan_open. rewrite <- first_plan.
  split; [|intros st note; by eapply held_not_closed].
  destruct (open_at (p_id p) (k_store k)) eqn:Hlink; [by left|right].
  eexists. rewrite first_plan. split; [apply plan_restore_exact; exists p, leader|].
  - unfold inputs. rewrite linked_open by done. split_and!; try done. by apply held_in_book.
  - done.
Qed.

Lemma second_plan : (recover_after_restart now' cfg ledger k1).1
  = plan_recovery now' (recovery_inputs now' cfg.(cc_recovery_lookback_hours) ledger k1).
Proof. destruct (recover_parts now' cfg ledger k1) as (k0 & _ & _ & ->). done. Qed.

(** A link that is open after the first pass belongs to a position that was
    held before it. *)
Lemma open_after id :
  open_at id k1.(k_store) = true ->
  (exists p, k.(k_app).(st_positions) !! id = Some p /\ held_position p = true /\ p.(p_source) = SrcCopy)
  /\ ((forall sig, CleanupFailedEntry id sig ∉ plan)
      \/ exists l, RestoreLink l ∈ plan /\ l.(cl_position_id) = id).
Proof.
  destruct after_first as (_ & Ho & _). intros Hop. rewrite Ho, first_plan in Hop.
  apply plan_open in Hop as [Hop Hnc].
  rewrite <- first_plan in Hop, Hnc. split; [|destruct Hop as [[_ Hc]|Hr]; [by left|by right]].
  destruct Hop as [[Hop _]|(lr & Hr & Hid)].
  - pose proof (find_copy_position k.(k_app) id Hkeyed) as Hfind.
    unfold open_at in Hop. destruct (link_of id (k_store k)) as [l0|] eqn:Hl0; [|done].
    pose proof (law_keyed _ _ _ Hgood Hl0) as Hid0.
    destruct (answered_open_links k.(k_store)) as [ls0 Hls0].
    assert (Hl0in : l0 ∈ inputs.(ri_links)).
    { cbn. rewrite Hls0. apply (law_open_links _ _ Hgood Hls0). by rewrite Hid0. }
    destruct (position_by_id id (copy_positions (k_app k))) as [p|] eqn:Hp.
    + destruct (held_position p) eqn:Hh; [exists p; by destruct Hfind|]. exfalso.
      apply (Hnc CLOSED (closed_note p)). rewrite first_plan. apply plan_close_exact.
      exists l0. cbn. by rewrite Hp.
    + exfalso. apply (Hnc ORPHANED missing_note). rewrite first_plan. apply plan_close_exact.
      exists l0. cbn. by rewrite Hp.
  - rewrite first_plan in Hr. apply plan_restore_exact in Hr as (p & leader & Hp & _ & _ & ->).
    cbn in Hid. apply held_in_book in Hp as (Hp & Hsrc & Hh); [|done]. exists p. by rewrite <- Hid.
Qed.

(** Of a position in the book, whether it was cleaned up is decided by its
    signature. *)
Lemma cleaned_signature id p :
  k.(k_app).(st_positions) !! id = Some p ->
  (forall sig, CleanupFailedEntry id sig ∉ plan) \/ exists sig, CleanupFailedEntry id sig ∈ plan.
Proof.
  intros Hp. rewrite first_plan.
  assert (Hown : forall sig, CleanupFailedEntry id sig ∈ plan_recovery now inputs -> signature_of p = Some sig).
  { intros sig (q & Hq & <- & Hs & _)%plan_cleanup_exact.
    apply held_in_book in Hq as (Hq & _); [|done]. congruence. }
  destruct (signature_of p) as [sig|] eqn:Hs; [|left; intros sig Hin; by specialize (Hown sig Hin)].
  destruct (decide (p.(p_source) = SrcCopy /\ held_position p = true
                    /\ fate_of inputs.(ri_ledger) sig = FateFailed)) as [(Hsrc & Hh & Hf)|Hn].
  - right. exists sig. apply plan_cleanup_exact. pose proof (Hkeyed _ _ Hp) as Hid.
    exists p. split_and!; try done. apply held_in_book; [done|]. by rewrite Hid.
  - left. intros sig' Hin. pose proof (Hown sig' Hin) as [= ->]. apply Hn.
    apply plan_cleanup_exact in Hin as (q & Hq & Hid & _ & Hf).
    apply held_in_book in Hq as (Hq & Hsrc & Hh); [|done].
    rewrite Hid, Hp in Hq. by injection Hq as ->.
Qed.

(** One pass settles positions and links.  A second pass over what the first one
    left, with the ledger unchanged, cleans up no entry, restores no link and
    closes none, but for the links of positions that the first pass both cleaned
    up and gave a link again. *)
Theorem recovery_settles a :
  a ∈ (recover_after_restart now' cfg ledger k1).1 -> about_link a = true ->
  exists id sig l note, a = RaCloseLink id CLOSED note
    /\ CleanupFailedEntry id sig ∈ plan /\ RestoreLink l ∈ plan /\ l.(cl_position_id) = id.
Proof.
  rewrite second_plan. intros Ha Hab. destruct after_first as (Hg1 & _ & _).
  pose proof keyed_after as Hk1. destruct a as [| | |x sig|l|x st note]; try done.
  - apply plan_cleanup_exact in Ha as (p & Hp & <- & Hs & Hf).
    apply held_in_book in Hp as (Hp & Hsrc & Hh); [|done].
    destruct (held_after p _ Hp Hh) as [Hp0 Hc]. destruct (Hc sig).
    rewrite first_plan. apply plan_cleanup_exact. exists p. split_and!; try done. by apply held_in_book.
  - apply plan_restore_exact in Ha as (p & leader & Hp & Hl & Hw & _).
    apply held_in_book in Hp as (Hp & Hsrc & Hh); [|done].
    rewrite linked_open in Hl by done. by rewrite (held_linked p) in Hl.
  - apply plan_close_exact in Ha as (l & Hl & Hid & Hopen & Hm). cbn in Hl, Hm.
    destruct (answered_open_links k1.(k_store)) as [ls Hls]. rewrite Hls in Hl.
    apply (law_open_links _ _ Hg1 Hls) in Hl as [Hl _]. rewrite Hid in Hl.
    destruct (open_after x) as [(p & Hp & Hh & Hsrc) Hr]; [unfold open_at; by rewrite Hl|].
    destruct (book_after x) as (f & Hf & Hk & Hno & _). rewrite Hp in Hf. cbn in Hf.
    pose proof (find_copy_position k1.(k_app) x Hk1) as Hfind.
    destruct (position_by_id x (copy_positions (k_app k1))) as [q|].
    2:{ destruct (Hfind _ Hf). by destruct (Hk p) as [-> _]. }
    destruct Hfind as [Hq _], Hm as (Hqh & -> & ->). rewrite Hf in Hq. injection Hq as Hfq.
    destruct (cleaned_signature x p Hp) as [Hc|[sig Hs]]; [rewrite (Hno Hc) in Hfq; congruence|].
    destruct Hr as [Hc|(lr & Hlr & Hlid)]; [by destruct (Hc sig)|].
    by exists x, sig, lr, (closed_note q).
Qed.
End Twice.

(** * Decided trades stay decided *)

Definition seen_of (k : CopyCore S) : BoundedSet := k.(k_app).(st_seen_copy_events).
Definition dedup_cap (k : CopyCore S) : Z := k.(k_app).(st_config).(cf_max_dedup_entries).

Lemma seen_set s b :
  (set_seen_copy_events b s).(st_seen_copy_events) = b
  /\ (set_seen_copy_events b s).(st_config) = s.(st_config).
Proof. by destruct s. Qed.

(** Keys that fit are all kept. *)
Lemma seed_keys_kept keys (k : CopyCore S) :
  Z.of_nat (length (seen_of k).(bs_order) + length keys) <= Z.max (dedup_cap k) 1 ->
  forall key, bounded_contains key (seen_of (seed_keys keys k).2)
              = bounded_contains key (seen_of k) || bool_decide (key ∈ keys).
Proof.
  revert k. induction keys as [|x keys IH]; intros k Hlen key; [by rewrite orb_false_r|].
  set (k' := (on_app (mark_copy_event_seen x) k).2).
  change (seed_keys (x :: keys) k).2 with (seed_keys keys k').2.
  assert (Hs : seen_of k' = (bounded_insert x (dedup_cap k) (seen_of k)).2
               /\ dedup_cap k' = dedup_cap k).
  { split; [exact (proj1 (seen_set _ _))|].
    exact (f_equal cf_max_dedup_entries (proj2 (seen_set k.(k_app)
      (bounded_insert x (dedup_cap k) (seen_of k)).2))). }
  clearbody k'. destruct Hs as [Hs Hc]. cbn [length] in Hlen. unfold bounded_insert in Hs.
  destruct (decide (x ∈ bs_set (seen_of k))) as [Hx|Hx]; cbn in Hs.
  - rewrite IH, Hs; [|rewrite Hc, Hs; lia]. unfold bounded_contains.
    rewrite (bool_decide_ext (key ∈ x :: keys) (key = x \/ key ∈ keys)) by apply elem_of_cons.
    rewrite bool_decide_or. case_bool_decide as Hk; [done|]. cbn.
    by rewrite (bool_decide_eq_false_2 (key = x)) by (by intros ->).
  - assert (Hz : (length (bs_order (seen_of k) ++ [x]) - Z.to_nat (Z.max (dedup_cap k) 1) = 0)%nat)
      by (rewrite length_app; cbn; lia).
    rewrite Hz in Hs. cbn in Hs.
    rewrite IH, Hs; [|rewrite Hc, Hs; cbn; rewrite length_app; cbn; lia].
    unfold bounded_contains. cbn.
    rewrite (bool_decide_ext (key ∈ x :: keys) (key = x \/ key ∈ keys)) by apply elem_of_cons.
    rewrite (bool_decide_ext (key ∈ {[x]} ∪ _) (key = x \/ key ∈ bs_set (seen_of k)))
      by (rewrite elem_of_union, elem_of_singleton; done).
    rewrite !bool_decide_or. by destruct (bool_decide (key = x)), (bool_decide (key ∈ bs_set _)).
Qed.

Definition seeds (a : RecoveryAction) : bool := match a with SeedDedup _ => true | _ => false end.

Lemma seen_close now x st reason s :
  (close_position now x st reason s).2.(st_seen_copy_events) = s.(st_seen_copy_events).
Proof. unfold close_position. destruct (st_positions s !! x); [|done]. by destruct s. Qed.

Lemma seen_with now x f s :
  (with_position now x f s).2.(st_seen_copy_events) = s.(st_seen_copy_events).
Proof. unfold with_position. destruct (st_positions s !! x); [|done]. by destruct s. Qed.

Lemma apply_keeps_seen now a (k : CopyCore S) :
  seeds a = false -> seen_of (apply_recovery now a k).2 = seen_of k.
Proof.
  intros Ha. destruct a as [| | |x sg|l|x st n]; try done.
  change ((close_position now x PosFailed never_landed (with_position now x emptied k.(k_app)).2).2.(st_seen_copy_events)
          = seen_of k). by rewrite seen_close, seen_with.
Qed.

Lemma plan_keeps_seen now plan (k : CopyCore S) :
  Forall (fun a => seeds a = false) plan -> seen_of (apply_plan now plan k).2 = seen_of k.
Proof.
  intros Hp. induction Hp as [|a plan Ha _ IH] in k |- *; [done|].
  change (apply_plan now (a :: plan) k) with (apply_plan now plan (apply_recovery now a k).2).
  by rewrite IH, apply_keeps_seen.
Qed.

Lemma plan_tail now i :
  exists rest, plan_recovery now i = plan_dedup i.(ri_journal) ++ rest
               /\ Forall (fun a => seeds a = false) rest.
Proof.
  eexists. split; [reflexivity|]. apply Forall_forall. intros a Ha.
  rewrite !elem_of_app in Ha. fold (held_of i) in Ha. destruct Ha as [Ha|[Ha|[Ha|[Ha|Ha]]]].
  - by apply list_elem_of_omap in Ha as (l & _ & (c & _ & ->)%fmap_Some).
  - by apply list_elem_of_fmap in Ha as (r & -> & _).
  - by apply list_elem_of_omap in Ha as (p & _ & (? & _ & _ & ->)%cleanup_is).
  - by apply list_elem_of_omap in Ha as (p & _ & (_ & ? & _ & ->)%restore_is).
  - apply list_elem_of_omap in Ha as (l & _ & [_ Hl]%close_is).
    destruct (position_by_id _ _); [by destruct Hl as [_ ->]|by subst].
Qed.

(** A row of the journal that says what the event says. *)
Definition journals (r : CopyEventRecord) (e : LeaderTradeEvent) : Prop :=
  r.(cr_signature) = e.(e_signature) /\ r.(cr_leader) = e.(e_leader) /\ r.(cr_mint) = e.(e_mint)
  /\ r.(cr_side) = side_str e.

Lemma journal_record_journals now e o : journals (journal_record now e o) e.
Proof. done. Qed.

Lemma journals_key r e :
  journals r e ->
  key_from_parts r.(cr_signature) r.(cr_leader) r.(cr_mint) r.(cr_side) = dedup_key e.
Proof.
  intros (-> & -> & -> & ->). unfold key_from_parts, dedup_key.
  assert (Hs : trim (side_str e) = side_str e) by (unfold side_str; by destruct (e_side e)). by rewrite Hs.
Qed.

(** A trade that the journal of the last hours names was decided before the
    restart, and the engine does not decide it again: in a new process, with room
    for the journal in the membership set, the first delivery after the recovery
    is a duplicate. *)
Theorem restart_blocks_redelivery now cfg ledger (k : CopyCore S) r e
  (Hnew : seen_of k = BoundedSet_default)
  (Hfits : Z.of_nat (length (journal_of now (Z.max cfg.(cc_recovery_lookback_hours) 0) k.(k_store)))
           <= Z.max (dedup_cap k) 1)
  (Hr : r ∈ journal_of now (Z.max cfg.(cc_recovery_lookback_hours) 0) k.(k_store))
  (He : journals r e) :
  (claim_event e (recover_after_restart now cfg ledger k).2).1 = false.
Proof.
  destruct (recover_parts now cfg ledger k) as (k0 & Ha & Hs & ->). cbn [snd].
  set (i := recovery_inputs now (cc_recovery_lookback_hours cfg) ledger k).
  destruct (plan_tail now i) as (rest & -> & Hrest). fold (ri_journal i) in *.
  assert (Hkey : dedup_key e ∈ journal_keys i.(ri_journal)).
  { rewrite <- (journals_key r e He). unfold journal_keys.
    apply list_elem_of_fmap. exists r. split; [done|exact Hr]. }
  unfold plan_dedup. destruct (journal_keys (ri_journal i)) as [|x keys] eqn:Hk;
    [by apply not_elem_of_nil in Hkey|]. cbn [app].
  set (k1 := (apply_recovery now (SeedDedup (x :: keys)) k0).2).
  change (apply_plan now (SeedDedup (x :: keys) :: rest) k0) with (apply_plan now rest k1).
  assert (Hseen : bounded_contains (dedup_key e) (seen_of k1) = true).
  { change (seen_of k1) with (seen_of (seed_keys (x :: keys) k0).2). rewrite seed_keys_kept.
    - by rewrite (bool_decide_eq_true_2 _ Hkey), orb_true_r.
    - assert (Hlen : length (x :: keys) = length i.(ri_journal))
        by (rewrite <- Hk; unfold journal_keys; apply length_map).
      unfold seen_of, dedup_cap in *. rewrite Ha, Hnew, Hlen. exact Hfits. }
  assert (Hend : bounded_contains (dedup_key e) (seen_of (apply_plan now rest k1).2) = true)
    by (by rewrite plan_keeps_seen).
  unfold bounded_contains in Hend. apply bool_decide_eq_true in Hend.
  unfold claim_event, on_app, zoom, mark_copy_event_seen, bounded_insert. cbn.
  by rewrite decide_True.
Qed.
End Restart.

(** * Bookkeeping *)

Section Bookkeeping.
Context {S : Type} `{CopyStore S}.
Context {good : S -> Prop} {link_of : text -> S -> option CopyLinkRecord}
  {event_of : text -> S -> option CopyEventRecord}
  `{!CopyStoreLaws S good link_of event_of} `{!StoreAnswers S}.

Lemma persist_effect now address (k : CopyCore S) :
  good k.(k_store) ->
  let k' := (persist_leader now address k).2 in
  good k'.(k_store) /\ (forall id, event_of id k'.(k_store) = event_of id k.(k_store))
  /\ (forall id, link_of id k'.(k_store) = link_of id k.(k_store))
  /\ k'.(k_app) = k.(k_app) /\ k'.(k_ordering) = k.(k_ordering).
Proof.
  intros Hg. unfold persist_leader, gets, mbind, St_bind. cbn.
  destruct (get (k_leaders k) address) as [l|]; [|done]. cbn.
  by destruct (law_upsert_leader (Leader_record now l) _ Hg) as (? & ? & ?).
Qed.

(** The journal row of an event after a decision on it. *)
Definition decided (e : LeaderTradeEvent) (o : CopyOutcome) (s : S) : Prop :=
  exists row, event_of e.(e_event_id) s = Some row
    /\ row.(cr_stage) = CopyStage_as_str o.(co_stage)
    /\ row.(cr_reject_reason) = (fun r => RejectReason_as_str r.(rj_reason)) <$> o.(co_rejection)
    /\ journals row e.

Lemma finish_state now e o (k : CopyCore S) :
  is_duplicate_rejection o.(co_rejection) = false ->
  exists k1, k1.(k_store) = k.(k_store) /\ k1.(k_app) = k.(k_app) /\ k1.(k_ordering) = k.(k_ordering)
    /\ (finish now e true o k).2
       = (persist_leader now e.(e_leader) (on_store (record_event (journal_record now e o)) k1).2).2.
Proof.
  intros Hd. unfold finish. rewrite Hd.
  exists (match o.(co_rejection) with
          | Some r => (on_leaders (fun _ => note_rejected e.(e_leader)
                         (RejectReason_as_str r.(rj_reason))) now k).2
          | None => k
          end).
  by destruct (co_rejection o).
Qed.

Lemma finish_journals now e o (k : CopyCore S) :
  good k.(k_store) -> is_duplicate_rejection o.(co_rejection) = false ->
  let r := finish now e true o k in
  r.1 = o /\ good r.2.(k_store) /\ decided e o r.2.(k_store)
  /\ (forall id, link_of id r.2.(k_store) = link_of id k.(k_store))
  /\ r.2.(k_app) = k.(k_app) /\ r.2.(k_ordering) = k.(k_ordering).
Proof.
  intros Hg Hd. split; [done|].
  destruct (finish_state now e o k Hd) as (k1 & Hs1 & Ha1 & Ho1 & ->). rewrite <- Hs1 in Hg.
  set (k2 := (on_store (record_event (journal_record now e o)) k1).2).
  pose proof (answered_record_event (journal_record now e o) (k_store k1)) as Hans.
  destruct (record_event (journal_record now e o) (k_store k1)) as [b s'] eqn:Hrec.
  cbn in Hans. subst b. destruct (law_record_event _ _ _ Hg Hrec) as (Hg' & He & _ & Hl).
  assert (Hk2 : k2 = mkCopyCore k1.(k_app) k1.(k_leaders) k1.(k_ordering) k1.(k_sequence) s')
    by (unfold k2, on_store, zoom; by rewrite Hrec).
  destruct (persist_effect now (e_leader e) k2) as (Hg3 & He3 & Hl3 & Ha3 & Ho3);
    [by rewrite Hk2|].
  split_and!; [done| | |by rewrite Ha3, Hk2|by rewrite Ho3, Hk2].
  - eexists. rewrite He3, Hk2. cbn [k_store]. split; [exact He|]. by case_match.
  - intros id. by rewrite Hl3, Hk2, <- Hs1.
Qed.

(** A repeated delivery, and a stranger's trade, leave nothing behind. *)
Lemma finish_silent now e ruled o (k : CopyCore S) :
  ruled && negb (is_duplicate_rejection o.(co_rejection)) = false -> finish now e ruled o k = (o, k).
Proof. intros Hd. unfold finish. by rewrite Hd. Qed.
End Bookkeeping.

(** * Concrete memories *)

Definition demo_mirror (id signature leader : text) : Position :=
  with_entry (Some signature) 40 leader
    (apply_buy 5 (f_of_Z 100) (f_lit 1 1000) (f_lit 1 10)
       (Position_new 5 id SrcCopy PumpFun Live (lit "MINT") (lit "MINT") (lit "SOL"))).

Definition demo_entry (signature : text) (st : ExecutionState) : ExecutionRecord :=
  mkExecutionRecord (lit "int_1") (lit "copy") (lit "copy-MINT") (lit "me") (lit "MINT") st 1
    (Some signature) None None 0 None None 5 6.

Definition demo_exec (rs : list ExecutionRecord) : ExecutionLedger :=
  mkExecutionLedger (list_to_map (map (fun r => (r.(x_intent_id), r)) rs)) ∅ [] 64 [].

Definition demo_core (ps : list Position) (s : MemoryCopyStore) : CopyCore MemoryCopyStore :=
  mkCopyCore (foldr upsert_position demo_replica ps) LeaderRegistry_new (OrderingTracker_new false) 0 s.

(** A restart with an entry that never landed and no link to its position. *)
Definition demo_failed : CopyCore MemoryCopyStore :=
  demo_core [demo_mirror (lit "p-1") (lit "S1") (lit "whale")] MemoryCopyStore_new.
Definition demo_failed_ledger : ExecutionLedger := demo_exec [demo_entry (lit "S1") ExFailed].
Definition demo_restart := recover_after_restart 50 CopyConfig_default demo_failed_ledger demo_failed.

Definition link_is_open_at (id : text) (s : MemoryCopyStore) : bool :=
  match s.(mc_links) !! id with Some l => link_is_open l | None => false end.

(** The recovery restores a link to a position that it has just closed as one
    that never landed, and leaves that link open. *)
Theorem cleanup_leaves_link_open :
  map RecoveryAction_as_str demo_restart.1 = [lit "cleanup_failed_entry"; lit "restore_link"]
  /\ (p_status <$> demo_restart.2.(k_app).(st_positions) !! lit "p-1") = Some PosFailed
  /\ link_is_open_at (lit "p-1") demo_restart.2.(k_store) = true.
Proof. split_and!; by vm_compute. Qed.

Lemma demo_failed_keyed : positions_keyed demo_failed.(k_app).
Proof.
  intros id p Hp. cbn in Hp. apply lookup_singleton_Some in Hp as [<- <-]. reflexivity.
Qed.

Lemma recovery_settles_witness :
  exists id sig l note,
    (recover_after_restart 60 CopyConfig_default demo_failed_ledger demo_restart.2).1
      = [RaCloseLink id CLOSED note]
    /\ CleanupFailedEntry id sig ∈ demo_restart.1 /\ RestoreLink l ∈ demo_restart.1
    /\ l.(cl_position_id) = id.
Proof.
  assert (Hplan : (recover_after_restart 60 CopyConfig_default demo_failed_ledger demo_restart.2).1
    = [RaCloseLink (lit "p-1") CLOSED (lit "position p-1 is Failed")]) by (vm_compute; reflexivity).
  destruct (recovery_settles 50 60 CopyConfig_default demo_failed_ledger demo_failed
    memory_good_new demo_failed_keyed
    (RaCloseLink (lit "p-1") CLOSED (lit "position p-1 is Failed")))
    as (id & sig & l & note & Ha & Hc & Hr & Hl).
  - unfold demo_restart in Hplan. rewrite Hplan. left.
  - reflexivity.
  - exists id, sig, l, note. split; [rewrite Hplan, Ha; reflexivity|].
    split; [exact Hc|split; [exact Hr|exact Hl]].
Defined.

(** A trade journaled before the restart. *)
Definition demo_trade : LeaderTradeEvent :=
  mkLeaderTradeEvent (lit "cev_1") (lit "whale") (lit "SIG") 90 (Some 3) Long (lit "MINT") None
    PumpFun (f_of_Z 100) fone fzero None PumpPortal 1 4.

Definition demo_row : CopyEventRecord :=
  journal_record 5 demo_trade (outcome_rejected (lit "cev_1") (mkRejection RrStaleEvent CsPolicyPassed)).

Definition demo_journaled : CopyCore MemoryCopyStore :=
  demo_core [] (record_event demo_row MemoryCopyStore_new).2.

Lemma restart_blocks_redelivery_witness :
  (claim_event demo_trade demo_journaled).1 = true
  /\ (claim_event demo_trade
        (recover_after_restart 50 CopyConfig_default (demo_exec []) demo_journaled).2).1 = false.
Proof.
  assert (Hj : journal_of 50 24 demo_journaled.(k_store) = [demo_row]) by (vm_compute; reflexivity).
  split; [vm_compute; reflexivity|].
  apply (restart_blocks_redelivery 50 CopyConfig_default (demo_exec []) demo_journaled demo_row demo_trade).
  - reflexivity.
  - change (Z.max (cc_recovery_lookback_hours CopyConfig_default) 0) with 24. rewrite Hj.
    vm_compute. discriminate.
  - change (Z.max (cc_recovery_lookback_hours CopyConfig_default) 0) with 24. rewrite Hj. left.
  - apply journal_record_journals.
Defined.

(** ** A partial exit, mirrored and then completed *)

Definition demo_link : CopyLinkRecord :=
  link_for 5 (lit "p-1") (lit "whale") (lit "MINT") (lit "cev_1") (lit "SIG") None (f_of_Z 100)
    (f_of_Z 100).

(** The leader sold a tenth, and that sale was mirrored. *)
Definition demo_partial : CopyEventRecord :=
  journal_record 9
    (mkLeaderTradeEvent (lit "cev_2") (lit "whale") (lit "SIG2") 95 (Some 8) Short (lit "MINT") None
       PumpFun (f_of_Z 10) (f_lit 1 10) fzero None PumpPortal 2 8)
    (mkCopyOutcome (lit "cev_2") CsExitMirrored None None (Some (lit "p-1")) None None None).

(** The reconciliation does not look at what became of the leader's sale: a
    partial exit that was mirrored as one makes it sell the rest. *)
Theorem mirrored_partial_exit_sold_in_full :
  demo_partial.(cr_stage) = CopyStage_as_str CsExitMirrored
  /\ map fi_action (reconcile 10
       (mkReconInputs [demo_link] [demo_mirror (lit "p-1") (lit "S1") (lit "whale")] [demo_partial]
          ∅ [] true)).(rr_findings)
     = [MirrorExit (lit "p-1") fone].
Proof. split; by vm_compute. Qed.
