(* ===== verification/CopyEngine.v ===== *)
(** The staged pipeline of the copy bot ([crates/module-copy/src/event.rs],
    [mirror.rs], [exit.rs], [lib.rs]): from a leader's trade to the order that
    mirrors it and the books it leaves.  Every stage is here in the code's order
    with its early returns.  The clock is read once per stage.  The queries that
    only read the chain, and the Jupiter service, are the class [Market]; the
    executor is the one of [Executor].  Metrics, latency marks, audit events,
    published events and the detail text of a rejection are left out, and an
    error of the executor loses its text.  The configuration and the learned
    layouts do not change while one event is processed. *)
From stdpp Require Import prelude countable gmap list strings pretty.
From Stdlib Require Import ZArith Lia.
From S2P Require Import Prelude.
From S2P Require Import BotCore.
From S2P Require Import Text.
From S2P Require Import Float64.
From S2P Require Import Models.
From S2P Require Import BotConfig.
From S2P Require Import FeePolicy.
From S2P Require Import LedgerEvent.
From S2P Require Import Ledger.
From S2P Require Import ExecLedger.
From S2P Require Import AppState.
From S2P Require Import Ownership.
From S2P Require Import GlobalRisk.
From S2P Require Import Risk.
From S2P Require Import RpcPool.
From S2P Require Import Executor.
From S2P Require Import PumpCurve.
From S2P Require Import PumpLayout.
From S2P Require Import CopyLeader.
From S2P Require Import CopyEvent.
From S2P Require Import CopyPolicy.
From S2P Require Import CopyOrdering.
From S2P Require Import CopyStore.
From S2P Require Import CopyRecovery.
From S2P Require Import CopyBot.

#[local] Open Scope Z_scope.

(** * Services *)

Record QuoteRequest : Type := mkQuoteRequest {
  qr_input_mint : Z;
  qr_output_mint : Z;
  qr_amount : Z;
  qr_slippage_bps : Z;
}.

(** A swap transaction of the service, signed by the wallet. *)
Record SwapTx : Type := mkSwapTx {
  sw_signature : text;
  sw_size : Z;
  sw_account_count : Z;
  sw_last_valid : option Z;
}.

Class Market (W : Type) : Type := {
  market_balance : Z -> W -> BotResult Z * W;
  market_accounts : Z -> Z -> W -> ChainReplies * W;           (* mint, user *)
  market_account_data : Z -> W -> BotResult (option (list Z)) * W;
  market_quote : QuoteRequest -> W -> BotResult Z * W;         (* [out_amount_u64] *)
  market_swap : QuoteRequest -> text -> Z -> W -> BotResult SwapTx * W;
}.

(** * Configuration and surroundings *)

(** The sections of the configuration that the shared state does not hold. *)
Record CopySettings : Type := mkCopySettings {
  cs_copy : CopyConfig;
  cs_execution : ExecutionConfig;
  cs_pump_extra_accounts : list text;
  cs_pump_append_bonding_curve_v2 : bool;
  cs_use_jupiter_fallback : bool;
}.

(** What a bot is built with; [ce_stamp] is the tenant's metadata for a module
    and an intent, [ce_balance] the cached balance of the dashboard. *)
Record CopyEnv (K : Type) : Type := mkCopyEnv {
  ce_wallet : text;
  ce_wallet_key : Z;
  ce_replica_id : text;
  ce_ownership : option OwnershipRegistry;
  ce_intents : option (IntentSink K);
  ce_stamp : option (text -> option text -> text);
  ce_layouts : LayoutStore;
  ce_tenant : option OrganizationId;
  ce_oracle : option GlobalRiskOracle;
  ce_balance : f64;
}.
Arguments mkCopyEnv {K}. Arguments ce_wallet {K}. Arguments ce_wallet_key {K}.
Arguments ce_replica_id {K}. Arguments ce_ownership {K}. Arguments ce_intents {K}.
Arguments ce_stamp {K}. Arguments ce_layouts {K}. Arguments ce_tenant {K}.
Arguments ce_oracle {K}. Arguments ce_balance {K}.

(** The [execution] section: its gate is the one the shared state reads. *)
Definition execution_section (s : AppState) (c : ExecutionConfig) : ExecutionConfig :=
  mkExecutionConfig s.(st_config).(cf_mode) s.(st_config).(cf_allow_live_trading) c.(xc_use_jito)
    c.(xc_jito_block_engine_url) c.(xc_jito_tip_lamports) c.(xc_jito_race)
    c.(xc_jito_dynamic_tip_percentile) c.(xc_priority_fee_micro_lamports)
    c.(xc_compute_unit_limit) c.(xc_confirm_timeout_ms) c.(xc_confirm_poll_ms)
    c.(xc_send_retries) c.(xc_simulate_first) c.(xc_abort_on_simulation_failure)
    c.(xc_broadcast_fanout) c.(xc_fee_mode) c.(xc_fee_min_micro_lamports)
    c.(xc_fee_max_micro_lamports) c.(xc_fee_emergency_max_micro_lamports) c.(xc_fee_percentile)
    c.(xc_fee_escalation_pct) c.(xc_fee_oracle_ttl_ms) c.(xc_max_blockhash_age_ms).

(** [strategy_label] of [global_risk/engine.rs] for the copy module. *)
Definition copy_strategy (leader : option text) : text :=
  match leader with
  | Some l => if is_empty l then BotModule_as_str Copy else lit "copy:" ++ l
  | None => BotModule_as_str Copy
  end.

(** [mirror::short]. *)
Definition short_address (s : text) : text := take 8 s.

(** [RejectReason::from_risk_code] is in [CopyEvent]; the levels of a position
    opened at [price]. *)
Definition default_levels (c : RiskConfig) (price : f64) (p : Position) : Position :=
  if fltb fzero price
  then with_exit_levels (Some (fmul price (fsub fone c.(rc_default_stop_loss_pct))))
         (Some (fmul price (fadd fone c.(rc_default_take_profit_pct))))
         p.(p_trailing_stop) p.(p_max_hold_secs) p
  else p.

Definition bps_of_pct (pct : f64) : Z := f_round_u64 (fmul pct (f_of_Z 100)).

Definition with_exit_signature (signature : option text) (p : Position) : Position :=
  {| p_id := p.(p_id); p_opened_at := p.(p_opened_at); p_updated_at := p.(p_updated_at);
     p_closed_at := p.(p_closed_at); p_source := p.(p_source); p_venue := p.(p_venue);
     p_mode := p.(p_mode); p_status := p.(p_status); p_symbol := p.(p_symbol);
     p_symbol_display := p.(p_symbol_display); p_quote_symbol := p.(p_quote_symbol);
     p_qty := p.(p_qty); p_avg_entry := p.(p_avg_entry); p_cost_basis := p.(p_cost_basis);
     p_realized_quote := p.(p_realized_quote); p_realized_pnl_quote := p.(p_realized_pnl_quote);
     p_realized_at := p.(p_realized_at); p_last_mark := p.(p_last_mark);
     p_stop_loss := p.(p_stop_loss); p_take_profit := p.(p_take_profit);
     p_trailing_stop := p.(p_trailing_stop); p_trailing_high_water := p.(p_trailing_high_water);
     p_max_hold_secs := p.(p_max_hold_secs); p_entry_signature := p.(p_entry_signature);
     p_exit_signature := signature; p_entry_latency_ms := p.(p_entry_latency_ms);
     p_copied_wallet := p.(p_copied_wallet); p_market_id := p.(p_market_id);
     p_outcome := p.(p_outcome); p_reason_closed := p.(p_reason_closed) |}.

(** * The bot *)

Record CopyBot (S W LSt RSt CSt K : Type) : Type := mkCopyBot {
  b_core : CopyCore S;
  b_exec : Exec W;
  b_executor : Executor;
  b_global : GlobalRiskEngine LSt RSt;
  b_claims : CSt;
  b_intents : K;
}.
Arguments mkCopyBot {S W LSt RSt CSt K}.
Arguments b_core {S W LSt RSt CSt K}. Arguments b_exec {S W LSt RSt CSt K}.
Arguments b_executor {S W LSt RSt CSt K}. Arguments b_global {S W LSt RSt CSt K}.
Arguments b_claims {S W LSt RSt CSt K}. Arguments b_intents {S W LSt RSt CSt K}.

(** What a buy reports back to the pipeline. *)
Record BuyReport : Type := mkBuyReport {
  br_intent_id : text;
  br_signature : option text;
  br_filled : bool;
  br_ambiguous : bool;
  br_position_id : option text;
  br_status : ExecStatus;
  br_cost_sol : f64;
  br_qty : f64;
}.

Definition status_filled (s : ExecStatus) : bool :=
  match s with EsConfirmed | EsSent | EsSendUnknown | EsPaperFilled => true | _ => false end.

Definition nonempty (s : text) : option text := if is_empty s then None else Some s.

Section Engine.
Context {S W LSt RSt CSt K : Type} `{CopyStore S} `{Network W} `{Market W} `{LedgerStore LSt}
  `{RiskStore RSt} `{ClaimStore CSt} `{HashOrder} {libs : LedgerLibs} `{SdkKeys}.
Context (sanitize : text -> text) (digest_hex : list Z -> text).
Context (env : CopyEnv K) (cfg : CopySettings).

Abbreviation Bot := (CopyBot S W LSt RSt CSt K).

(** ** Acting on one part *)

Definition on_core {A} (m : St (CopyCore S) A) : St Bot A :=
  zoom b_core (fun k b => mkCopyBot k b.(b_exec) b.(b_executor) b.(b_global) b.(b_claims) b.(b_intents)) m.

Definition on_exec {A} (m : St (Exec W) A) : St Bot A :=
  zoom b_exec (fun x b => mkCopyBot b.(b_core) x b.(b_executor) b.(b_global) b.(b_claims) b.(b_intents)) m.

Definition on_global {A} (f : GlobalRiskEngine LSt RSt -> A * GlobalRiskEngine LSt RSt) : St Bot A :=
  zoom b_global (fun g b => mkCopyBot b.(b_core) b.(b_exec) b.(b_executor) g b.(b_claims) b.(b_intents)) f.

Definition on_claims {A} (f : CSt -> A * CSt) : St Bot A :=
  zoom b_claims (fun c b => mkCopyBot b.(b_core) b.(b_exec) b.(b_executor) b.(b_global) c b.(b_intents)) f.

Definition set_executor (e : Executor) (b : Bot) : Bot :=
  mkCopyBot b.(b_core) b.(b_exec) e b.(b_global) b.(b_claims) b.(b_intents).

Definition clock : St Bot Z := gets (fun b => exec_now b.(b_exec)).
Definition the_state : St Bot AppState := gets (fun b => b.(b_core).(k_app)).

(** An operation of the shared state at the current instant. *)
Definition state_op {A} (f : Z -> AppState -> A * AppState) : St Bot A :=
  now ← clock; on_core (on_app (f now)).
Definition state_do (f : Z -> AppState -> AppState) : St Bot unit :=
  state_op (fun now s => (tt, f now s)).

(** A query of the market: nothing leaves. *)
Definition ask {A} (f : W -> A * W) : St Bot A := on_exec (on_wire (on_net f)).

(** A broadcast, with the journal of the intents beside it. *)
Definition on_broadcast {A} (m : St (K * Exec W) A) : St Bot A :=
  zoom (fun b => (b.(b_intents), b.(b_exec)))
    (fun p b => mkCopyBot b.(b_core) p.2 b.(b_executor) b.(b_global) b.(b_claims) p.1) m.

(** The sink acts on its part of the pair. *)
Definition sink_beside {X} (k : IntentSink K) : IntentSink (K * X) :=
  mkIntentSink _ (fun r p => (k.(sink_record) r p.1, p.2))
    (fun id sig p => (k.(sink_link) id sig p.1, p.2)) (fun id p => (k.(sink_abandon) id p.1, p.2)).

Definition beside {X A} (m : St X A) : St (K * X) A := zoom snd (fun x p => (p.1, x)) m.

(** ** Results *)

(** [m?] followed by [k]. *)
Definition attempt {A B} (m : St Bot (BotResult A)) (k : A -> St Bot (BotResult B))
    : St Bot (BotResult B) :=
  r ← m;
  match r with
  | Ok a => k a
  | Err e => mret (Err e)
  | Panic => mret Panic
  end.

Definition lift {A} (r : BotResult A) : St Bot (BotResult A) := mret r.

Definition executed {A} (r : A + text) : BotResult A :=
  match r with inl a => Ok a | inr _ => Err Other end.

(** ** Policy and balance *)

(** [CopyBot::refresh_policy]. *)
Definition refresh_policy : St Bot unit :=
  s ← the_state;
  let x := execution_section s cfg.(cs_execution) in
  modify (fun b =>
    let e := b.(b_executor) in
    set_executor (mkExecutor e.(ex_wallet) e.(ex_origin) (exec_policy_from_config x)
                    (fee_policy_of x) e.(ex_guard) e.(ex_dynamic_tip)) b).

(** [CopyBot::available_sol]. *)
Definition available_sol : St Bot (BotResult f64) :=
  s ← the_state;
  if bool_decide (execution_mode s = Paper) && fltb fzero env.(ce_balance)
  then mret (Ok env.(ce_balance))
  else
    r ← ask (market_balance env.(ce_wallet_key));
    mret (match r with Ok l => Ok (lamports_to_sol l) | Err e => Err e | Panic => Panic end).

(** [tenant_stamp], on a request nothing is attached to. *)
Definition tenant_stamp (r : TxRequest) : TxRequest :=
  match r.(tr_tenant), env.(ce_stamp) with
  | None, Some stamp =>
      mkTxRequest r.(tr_instructions) r.(tr_compute_unit_limit) r.(tr_priority_fee_micro_lamports)
        r.(tr_jito_tip_lamports) r.(tr_wrap_sol_lamports) r.(tr_unwrap_sol)
        r.(tr_post_unwrap_instructions) r.(tr_lookup_tables) r.(tr_blockhash) r.(tr_extra_signers)
        r.(tr_label) r.(tr_intent_id) r.(tr_module) r.(tr_symbol)
        (Some (stamp r.(tr_module) r.(tr_intent_id)))
  | _, _ => r
  end.

Definition tenant_stamp_built (b : BuiltTx) : BuiltTx :=
  match b.(bt_tenant), env.(ce_stamp) with
  | None, Some stamp =>
      mkBuiltTx b.(bt_signature) b.(bt_size) b.(bt_account_count) b.(bt_blockhash)
        b.(bt_last_valid_block_height) b.(bt_label) b.(bt_instructions) b.(bt_intent_id)
        b.(bt_module) b.(bt_symbol) (Some (stamp b.(bt_module) (Some b.(bt_intent_id))))
  | _, _ => b
  end.

(** ** Orders *)

Definition build_options : BuildOptions :=
  mkBuildOptions cfg.(cs_pump_extra_accounts) cfg.(cs_pump_append_bonding_curve_v2) true false false
    false.

(** The request of a curve trade: one instruction, priced, identified and
    attributed to the copy module; a Jito tip when bundles are on. *)
Definition curve_request (label intent_id symbol : text) (ix : Instruction) : TxRequest :=
  let x := cfg.(cs_execution) in
  mkTxRequest [ix] x.(xc_compute_unit_limit) x.(xc_priority_fee_micro_lamports)
    (if x.(xc_use_jito) then x.(xc_jito_tip_lamports) else 0) 0 false [] [] None [] label
    (Some intent_id) (lit "copy") symbol None.

(** [with_intent_id] and [attributed] on a transaction signed elsewhere. *)
Definition identified (intent_id symbol : text) (b : BuiltTx) : BuiltTx :=
  mkBuiltTx b.(bt_signature) b.(bt_size) b.(bt_account_count) b.(bt_blockhash)
    b.(bt_last_valid_block_height) b.(bt_label) b.(bt_instructions) intent_id (lit "copy") symbol
    b.(bt_tenant).

(** [copy_intent] for a buy; for a sale only when there is a journal. *)
Definition new_intent (symbol side qty : text) : St Bot IntentRecord :=
  state_op (fun now => copy_intent now env.(ce_wallet) symbol side qty).

Definition exit_intent (symbol qty : text) : St Bot (option IntentRecord) :=
  match env.(ce_intents) with
  | Some _ => rec ← new_intent symbol (lit "sell") qty; mret (Some rec)
  | None => mret None
  end.

(** A broadcast inside the intent journal. *)
Definition journaled (rec : option IntentRecord) (run : St (Exec W) (ExecutionResult + text))
    : St Bot (BotResult ExecutionResult) :=
  r ← on_broadcast (match rec with
                    | Some rec => with_intent (sink_beside <$> env.(ce_intents)) rec (beside run)
                                    broadcast_signature
                    | None => beside run
                    end);
  mret (executed r).

(** [Executor::run] and [send_prebuilt] of the bot's executor. *)
Definition run_request (rec : option IntentRecord) (req : TxRequest) : St Bot (BotResult ExecutionResult) :=
  e ← gets (fun b => b.(b_executor));
  journaled rec (Executor.run sanitize digest_hex e (tenant_stamp req)).

Definition run_prebuilt (rec : option IntentRecord) (b : BuiltTx) : St Bot (BotResult ExecutionResult) :=
  e ← gets (fun b => b.(b_executor));
  journaled rec (send_prebuilt sanitize e (tenant_stamp_built b)).

(** [permit.fence], [permit.finish]. *)
Definition fence_permit (p : Permit) : St Bot (BotResult unit) :=
  now ← clock; gets (fun b => permit_fence now p b.(b_claims)).

Definition finish_permit (ambiguous : bool) (p : Permit) : St Bot Permit :=
  now ← clock; on_claims (permit_finish now ambiguous p).

(** [Permit::acquire]. *)
Definition acquire_permit (execution_id kind strategy symbol : text) : St Bot (BotResult Permit) :=
  now ← clock;
  on_claims (permit_acquire now env.(ce_ownership)
               (request execution_id kind (lit "copy") strategy symbol)).

(** [PumpContext::load] for the bot's wallet. *)
Definition load_context (mint : Z) : St Bot (BotResult PumpContext) :=
  r ← ask (market_accounts mint env.(ce_wallet_key));
  mret (PumpLayout.load r mint env.(ce_wallet_key) None).

Definition mint_key (symbol : text) : St Bot (BotResult Z) :=
  mret (ok_or (key_of_text symbol) InvalidArgument).

(** A result of an executor that built nothing: a paper fill of a quote, a
    simulation that passed. *)
Definition quoted_result (label id : text) (status : ExecStatus) (state : ExecutionState)
    (simulated : bool) : ExecutionResult :=
  mkExecutionResult [] status label 0 [] None simulated 1 id state None 0.

(** ** Booking a buy *)

(** [GlobalLedger::submit]. *)
Definition submit_event (e : AccountingEvent) : St Bot unit :=
  now ← clock;
  on_global (fun g =>
    let r := Ledger.submit env.(ce_replica_id) now e g.(ge_ledger) g.(ge_ledger_store) in
    (tt, mkGlobalRiskEngine g.(ge_config) r.2.1 r.2.2 g.(ge_switches) g.(ge_store)
           g.(ge_portfolio_ready) g.(ge_replica_id) g.(ge_seq) g.(ge_recent) g.(ge_entries))).

Definition with_event_position (id : text) (e : AccountingEvent) : AccountingEvent :=
  {| ev_kind := e.(ev_kind); ev_module := e.(ev_module); ev_venue := e.(ev_venue);
     ev_wallet := e.(ev_wallet); ev_strategy := e.(ev_strategy); ev_asset := e.(ev_asset);
     ev_quote_asset := e.(ev_quote_asset); ev_side := e.(ev_side); ev_quantity := e.(ev_quantity);
     ev_price := e.(ev_price); ev_quote_amount := e.(ev_quote_amount); ev_fee := e.(ev_fee);
     ev_mode := e.(ev_mode); ev_reference_id := e.(ev_reference_id);
     ev_correlation_id := e.(ev_correlation_id); ev_position_id := Some id;
     ev_trade_id := e.(ev_trade_id); ev_counterparty_wallet := e.(ev_counterparty_wallet);
     ev_ts := e.(ev_ts); ev_detail := e.(ev_detail) |}.

Definition display_of (e : LeaderTradeEvent) : text := default (short_address e.(e_mint)) e.(e_symbol).

Definition buy_note (e : LeaderTradeEvent) (rule : CopyWallet) : text :=
  lit "copy " ++ default (short_address e.(e_leader)) rule.(cw_label)
  ++ lit " (whale " ++ format_fixed 4 e.(e_sol_amount) ++ lit " SOL)".

Definition buy_trade (now : Z) (id : text) (e : LeaderTradeEvent) (rule : CopyWallet) (venue : Venue)
    (mode : ExecutionMode) (cost qty price : f64) (signature : option text) (latency_ms : Z) : Trade :=
  mkTrade id now SrcCopy venue mode Long e.(e_mint) (display_of e) cost qty (lit "SOL") price
    e.(e_fee_sol) (bps_of_pct (default cfg.(cs_copy).(cc_slippage_pct) rule.(cw_slippage_pct)))
    signature None (Some (buy_note e rule)) (Some latency_ms).

Definition mirrored_position (now : Z) (id : text) (e : LeaderTradeEvent) (venue : Venue)
    (mode : ExecutionMode) (cost qty price : f64) (signature : option text) (latency_ms : Z)
    (risk : RiskConfig) (d : RiskDecision) : Position :=
  apply_to d
    (default_levels risk price
      (with_entry signature latency_ms e.(e_leader)
        (apply_buy now qty price cost
          (Position_new now id SrcCopy venue mode e.(e_mint) (display_of e) (lit "SOL"))))).

(** [CopyBot::record_buy]. *)
Definition record_buy (e : LeaderTradeEvent) (rule : CopyWallet) (venue : Venue)
    (r : ExecutionResult) (amount_raw sol_in : Z) (latency_ms : Z) (d : RiskDecision)
    (ambiguous : bool) : St Bot (BotResult BuyReport) :=
  s ← the_state;
  state_do (fun now => inc_orders_sent now Copy) ;;
  let signature := nonempty r.(r_signature) in
  if negb (status_filled r.(r_status)) then
    state_do (fun now => inc_orders_failed now Copy) ;;
    state_do (fun now => record_error now Copy (default (lit "copy order did not fill") r.(r_error))) ;;
    mret (Ok (mkBuyReport r.(r_intent_id) signature false false None r.(r_status) fzero fzero))
  else
    let mode := execution_mode s in
    let qty := from_raw_amount amount_raw 6 in
    let cost := lamports_to_sol sol_in in
    let price := if fltb fzero qty then fdiv cost qty else fzero in
    now ← clock;
    trade_id ← state_op (fun _ => next_id (lit "t"));
    let trade := buy_trade now trade_id e rule venue mode cost qty price signature latency_ms in
    let booking := fill_event_for_trade trade env.(ce_wallet) (copy_strategy (Some e.(e_leader)))
                     None (Some r.(r_intent_id)) in
    state_do (fun now => record_trade now trade) ;;
    pos_id ← state_op (fun _ => next_id (lit "p"));
    now ← clock;
    let p := mirrored_position now pos_id e venue mode cost qty price signature latency_ms
               s.(st_config).(cf_risk) d in
    state_do (fun _ => upsert_position p) ;;
    submit_event (with_event_position pos_id booking) ;;
    state_do (fun now => mark_copied now e.(e_leader) e.(e_mint)) ;;
    mret (Ok (mkBuyReport r.(r_intent_id) signature true ambiguous (Some pos_id) r.(r_status)
                cost qty)).

Definition elapsed_ms (from_ until : Z) : Z := Z.max ((until - from_) / MILLISECOND) 0.

(** ** Buying *)

(** [CopyBot::buy_on_curve]. *)
Definition buy_on_curve (e : LeaderTradeEvent) (rule : CopyWallet) (ctx : PumpContext)
    (sized_sol slippage_pct : f64) (d : RiskDecision) (permit : Permit) : St Bot (BotResult BuyReport) :=
  let sol_in := sol_to_lamports sized_sol in
  attempt (lift (reject_if (sol_in =? 0) InvalidArgument)) (fun _ =>
  attempt (lift (plan_buy ctx.(px_curve) sol_in slippage_pct ctx.(px_global_state).(gl_fee_basis_points)))
    (fun plan =>
  attempt (lift (reject_if (plan.1 =? 0) Solana)) (fun _ =>
  attempt (lift (build_buy_ix ctx env.(ce_layouts) build_options plan.1 plan.2)) (fun ix =>
  let req := curve_request (entry_label e.(e_mint) EntryCurve) (entry_intent_id_for e EntryCurve)
               e.(e_mint) ix in
  refresh_policy ;;
  attempt (fence_permit permit) (fun _ =>
  started ← clock;
  rec ← new_intent e.(e_mint) (lit "buy") (lit (pretty plan.1));
  attempt (run_request (Some rec) req) (fun r =>
  finished ← clock;
  let ambiguous := status_is_ambiguous r.(r_status) in
  finish_permit ambiguous permit ;;
  record_buy e rule PumpFun r plan.1 sol_in (elapsed_ms started finished) d ambiguous)))))).

(** The transaction of a swap, ready for the executor. *)
Definition swap_built (label intent_id symbol : text) (b : Blockhash) (t : SwapTx) : BotResult BuiltTx :=
  built ← ok_or (from_signed label t.(sw_signature) t.(sw_size) t.(sw_account_count)
                   b.(bh_blockhash) (option_or t.(sw_last_valid) (Some b.(bh_last_valid_block_height))))
            Solana;
  Ok (identified intent_id symbol built).

Definition the_origin : St Bot nat := gets (fun b => b.(b_executor).(ex_origin)).

(** [latest_blockhash(true)] and [build_swap]. *)
Definition fetch_blockhash_now : St Bot (BotResult Blockhash) :=
  i ← the_origin;
  r ← on_exec (on_wire (latest_blockhash sanitize i true));
  mret (executed r).

Definition build_swap (q : QuoteRequest) (b : Blockhash) : St Bot (BotResult SwapTx) :=
  ask (market_swap q b.(bh_blockhash) cfg.(cs_execution).(xc_priority_fee_micro_lamports)).

(** A simulation that is refused fails the order. *)
Definition simulate_swap (label intent_id symbol : text) (b : Blockhash) (t : SwapTx)
    : St Bot (BotResult unit) :=
  i ← the_origin;
  r ← on_exec (on_wire (rpc_simulate sanitize i
         (mkBuiltTx t.(sw_signature) t.(sw_size) t.(sw_account_count) b.(bh_blockhash)
            t.(sw_last_valid) label [] intent_id (lit "copy") symbol None)));
  mret (match r with
        | inl sim => reject_if (match sim.(sm_error) with Some _ => true | None => false end) Solana
        | inr _ => Err Other
        end).

Definition broadcast_allowed : St Bot (BotResult unit) :=
  s ← the_state;
  mret (match may_broadcast s with Ok tt => Ok tt | _ => Err Unauthorized end).

(** The live branch of [buy_via_jupiter]. *)
Definition swap_live (e : LeaderTradeEvent) (mint lamports : Z) (b : Blockhash) (t : SwapTx)
    (permit : Permit) : St Bot (BotResult ExecutionResult) :=
  attempt broadcast_allowed (fun _ =>
  refresh_policy ;;
  attempt (fence_permit permit) (fun _ =>
  attempt (lift (swap_built (entry_label e.(e_mint) EntryJupiter) (entry_intent_id_for e EntryJupiter)
                   e.(e_mint) b t)) (fun built =>
  rec ← new_intent (key_text mint) (lit "buy") (lit (pretty lamports));
  run_prebuilt (Some rec) built))).

(** What became of the swap, by mode. *)
Definition swap_result (e : LeaderTradeEvent) (mint lamports : Z) (q : QuoteRequest)
    (mode : ExecutionMode) (permit : Permit) : St Bot (BotResult ExecutionResult) :=
  let label := entry_label e.(e_mint) EntryJupiter in
  let id := entry_intent_id_for e EntryJupiter in
  match mode with
  | Paper => mret (Ok (quoted_result label id EsPaperFilled ExConfirmed true))
  | _ =>
      attempt fetch_blockhash_now (fun b =>
      attempt (build_swap q b) (fun t =>
      match mode with
      | Simulate =>
          attempt (simulate_swap label id e.(e_mint) b t) (fun _ =>
          mret (Ok (quoted_result label id EsSent ExValidated false)))
      | _ => swap_live e mint lamports b t permit
      end))
  end.

(** [CopyBot::buy_via_jupiter]. *)
Definition buy_via_jupiter (e : LeaderTradeEvent) (rule : CopyWallet) (mint : Z)
    (sized_sol : f64) (slippage_bps : Z) (d : RiskDecision) (permit : Permit)
    : St Bot (BotResult BuyReport) :=
  let lamports := sol_to_lamports sized_sol in
  attempt (lift (reject_if (lamports =? 0) InvalidArgument)) (fun _ =>
  let q := mkQuoteRequest WSOL_MINT mint lamports slippage_bps in
  attempt (ask (market_quote q)) (fun out =>
  attempt (lift (reject_if (out =? 0) Solana)) (fun _ =>
  s ← the_state;
  let mode := execution_mode s in
  started ← clock;
  attempt (swap_result e mint lamports q mode permit) (fun r =>
  finished ← clock;
  let ambiguous := bool_decide (mode = Live) && status_is_ambiguous r.(r_status) in
  finish_permit ambiguous permit ;;
  record_buy e rule Jupiter r out lamports (elapsed_ms started finished) d ambiguous)))).

(** [CopyBot::buy]. *)
Definition buy (e : LeaderTradeEvent) (rule : CopyWallet) (sized_sol slippage_pct : f64)
    (slippage_bps : Z) (d : RiskDecision) (permit : Permit) : St Bot (BotResult BuyReport) :=
  attempt (mint_key e.(e_mint)) (fun mint =>
  attempt (load_context mint) (fun ctx =>
  if negb ctx.(px_curve).(bc_complete)
  then buy_on_curve e rule ctx sized_sol slippage_pct d permit
  else buy_via_jupiter e rule mint sized_sol slippage_bps d permit)).

(** ** Selling *)

(** What a route answers: the proceeds booked, the signature, the venue, the
    status. *)
Definition Proceeds : Type := f64 * option text * Venue * ExecStatus.

(** [sell_on_curve]; the label is made from the key. *)
Definition sell_on_curve (ctx : PumpContext) (sell_raw : Z) (rec : option IntentRecord) (intent_id : text)
    : St Bot (BotResult Proceeds) :=
  attempt (lift (plan_sell ctx.(px_curve) sell_raw cfg.(cs_copy).(cc_slippage_pct))) (fun plan =>
  attempt (lift (build_sell_ix ctx env.(ce_layouts) build_options plan.1 plan.2)) (fun ix =>
  let symbol := key_text ctx.(px_mint) in
  attempt (run_request rec (curve_request (exit_label symbol ExitCurve) intent_id symbol ix)) (fun r =>
  mret (Ok (lamports_to_sol plan.2, nonempty r.(r_signature), PumpFun, r.(r_status)))))).

Definition sell_live (mint : Z) (b : Blockhash) (t : SwapTx) (rec : option IntentRecord) (intent_id : text)
    : St Bot (BotResult ExecutionResult) :=
  attempt broadcast_allowed (fun _ =>
  attempt (lift (swap_built (exit_label (key_text mint) ExitJupiter) intent_id (key_text mint) b t))
    (fun built =>
  run_prebuilt rec built)).

(** The executor's verdict when a transaction went through it. *)
Definition sell_outcome (mint : Z) (q : QuoteRequest) (mode : ExecutionMode) (rec : option IntentRecord)
    (intent_id : text) : St Bot (BotResult (option ExecutionResult)) :=
  match mode with
  | Paper => mret (Ok None)
  | _ =>
      attempt fetch_blockhash_now (fun b =>
      attempt (build_swap q b) (fun t =>
      match mode with
      | Simulate =>
          attempt (simulate_swap (exit_label (key_text mint) ExitJupiter) intent_id (key_text mint) b t)
            (fun _ => mret (Ok None))
      | _ => attempt (sell_live mint b t rec intent_id) (fun r => mret (Ok (Some r)))
      end))
  end.

(** [sell_via_jupiter]. *)
Definition sell_via_jupiter (mint sell_raw : Z) (rec : option IntentRecord) (intent_id : text)
    : St Bot (BotResult Proceeds) :=
  let q := mkQuoteRequest mint WSOL_MINT sell_raw (bps_of_pct cfg.(cs_copy).(cc_slippage_pct)) in
  attempt (ask (market_quote q)) (fun out =>
  s ← the_state;
  let mode := execution_mode s in
  attempt (sell_outcome mint q mode rec intent_id) (fun o =>
  let verdict := match mode, o with
                 | Paper, _ => (None, EsPaperFilled)
                 | _, Some r => (nonempty r.(r_signature), r.(r_status))
                 | _, None => (None, EsSent)
                 end in
  mret (Ok (lamports_to_sol out, verdict.1, Jupiter, verdict.2)))).

(** ** Selling a position *)

Definition closing_status (rule : option ExitRule) : PositionStatus :=
  match rule with
  | Some ExitKillSwitch | Some StopLoss | Some TrailingStop => StoppedOut
  | _ => PosClosed
  end.

Definition exit_trade (now : Z) (id : text) (p : Position) (venue : Venue) (mode : ExecutionMode)
    (sold quote price : f64) (signature : option text) (rule : option ExitRule) (reason : text) : Trade :=
  mkTrade id now SrcCopy venue mode Short p.(p_symbol) p.(p_symbol_display) sold quote (lit "SOL")
    price fzero (bps_of_pct cfg.(cs_copy).(cc_slippage_pct)) signature (Some p.(p_id))
    (Some (lit "copy exit " ++ from_option ExitRule_as_str (lit "mirror") rule ++ lit " " ++ reason))
    None.

(** [with_position] around [apply_sell]: the realized result. *)
Definition apply_sale (id : text) (sold price quote : f64) (signature : option text) : St Bot f64 :=
  state_op (fun now s =>
    (from_option (fun p => (apply_sell now sold price quote p).1) fzero (s.(st_positions) !! id),
     (with_position now id
        (fun p => with_exit_signature signature (apply_sell now sold price quote p).2) s).2)).

(** The books of a sale: trade, position, realized result, global ledger, and
    the close of a position that is sold out. *)
Definition book_sale (p : Position) (sold fraction : f64) (proceeds : Proceeds) (intent_id : text)
    (rule : option ExitRule) (reason : text) : St Bot unit :=
  let '(quote, signature, venue, _) := proceeds in
  let price := if fltb fzero sold then fdiv quote sold else p.(p_last_mark) in
  trade_id ← state_op (fun _ => next_id (lit "t"));
  now ← clock;
  s ← the_state;
  let trade := exit_trade now trade_id p venue (execution_mode s) sold quote price signature rule reason in
  let booking := fill_event_for_trade trade env.(ce_wallet) (copy_strategy p.(p_copied_wallet)) None
                   (Some intent_id) in
  state_do (fun now => record_trade now trade) ;;
  realized ← apply_sale p.(p_id) sold price quote signature;
  state_do (fun now => book_pnl env.(ce_tenant) env.(ce_oracle) now Copy realized) ;;
  submit_event booking ;;
  if fleb (fsub p.(p_qty) sold) F64_EPSILON || fleb fone fraction
  then state_op (fun now => close_position now p.(p_id) (closing_status rule) reason) ;; mret tt
  else mret tt.

Definition exit_route (ctx : PumpContext) : BotResult ExitRoute :=
  if negb ctx.(px_curve).(bc_complete) then Ok ExitCurve
  else if cfg.(cs_use_jupiter_fallback) then Ok ExitJupiter
  else Err Solana.

(** From the position to the verdict of its route, with the identity of the
    order. *)
Definition sell_order (p : Position) (sell_raw : Z) (permit : Permit)
    : St Bot (BotResult (Proceeds * text)) :=
  attempt (mint_key p.(p_symbol)) (fun mint =>
  attempt (load_context mint) (fun ctx =>
  attempt (lift (exit_route ctx)) (fun route =>
  let id := exit_intent_id p sell_raw route in
  attempt (fence_permit permit) (fun _ =>
  rec ← exit_intent p.(p_symbol) (lit (pretty sell_raw));
  attempt (match route with
           | ExitCurve => sell_on_curve ctx sell_raw rec id
           | ExitJupiter => sell_via_jupiter mint sell_raw rec id
           end) (fun r => mret (Ok (r, id))))))).

(** [exit::sell_position], with the permit it leaves. *)
Definition sell_position (p : Position) (fraction : f64) (reason : text) (rule : option ExitRule)
    (permit : Permit) : St Bot (BotResult unit * Permit) :=
  let fraction := clamp01 fraction in
  let sold := fmul p.(p_qty) fraction in
  let sell_raw := to_raw_amount sold 6 in
  if fleb fraction fzero || fleb p.(p_qty) fzero || (sell_raw =? 0) then
    permit ← finish_permit false permit; mret (Ok tt, permit)
  else
    r ← sell_order p sell_raw permit;
    match r with
    | Ok (proceeds, id) =>
        permit ← finish_permit (status_is_ambiguous proceeds.2) permit;
        if status_filled proceeds.2 then
          state_do (fun now => inc_orders_sent now Copy) ;;
          book_sale p sold fraction proceeds id rule reason ;;
          mret (Ok tt, permit)
        else
          state_do (fun now => inc_orders_failed now Copy) ;;
          mret (Err Solana, permit)
    | Err e => mret (Err e, permit)
    | Panic => mret (Panic, permit)
    end.

(** ** The end of an event *)

Definition reject (e : LeaderTradeEvent) (ruled : bool) (reason : RejectReason) (stage : CopyStage)
    : St Bot CopyOutcome :=
  now ← clock; on_core (finish_rejected now e ruled reason stage).

Definition conclude_event (e : LeaderTradeEvent) (o : CopyOutcome) : St Bot CopyOutcome :=
  now ← clock; on_core (finish now e true o).

(** ** Mirroring an exit *)

Definition exit_outcome (e : LeaderTradeEvent) (p : Position) : CopyOutcome :=
  mkCopyOutcome e.(e_event_id) CsExitMirrored None None (Some p.(p_id)) None None None.

Definition mirrored_note : text := lit "leader exit mirrored".
Definition whale_exit : text := lit "whale exit (mirror)".

(** [CopyBot::mirror_exit]. *)
Definition mirror_exit (e : LeaderTradeEvent) (plan : ExitPlan) (p : Position) : St Bot CopyOutcome :=
  r ← acquire_permit (lit "exit:" ++ p.(p_id) ++ lit ":mirror_exit") (lit "exit") (lit "mirror_exit")
        p.(p_symbol);
  match r with
  | Ok permit =>
      if negb (proceed permit) then reject e true RrOwnershipLost CsPolicyPassed
      else
        r ← sell_position p plan.(xp_fraction) whale_exit None permit;
        match r.1 with
        | Ok _ =>
            s ← the_state;
            now ← clock;
            (if is_none (find_open Copy e.(e_mint) s)
             then on_core (on_store (close_link now p.(p_id) CLOSED (Some e.(e_event_id))
                                       (Some mirrored_note))) ;; mret tt
             else mret tt) ;;
            conclude_event e (exit_outcome e p)
        | _ =>
            finish_permit false r.2 ;;
            reject e true RrExecutionFailed CsSubmitted
        end
  | _ => reject e true RrOwnershipUnavailable CsPolicyPassed
  end.

(** ** Mirroring an entry *)

Definition link_of_buy (now : Z) (e : LeaderTradeEvent) (r : BuyReport) (pos_id : text)
    : CopyLinkRecord :=
  link_for now pos_id e.(e_leader) e.(e_mint) e.(e_event_id) e.(e_signature) (Some r.(br_intent_id))
    e.(e_token_amount) r.(br_qty).

Definition opened_outcome (e : LeaderTradeEvent) (requested sized : f64) (r : BuyReport) : CopyOutcome :=
  mkCopyOutcome e.(e_event_id) (if r.(br_ambiguous) then CsAmbiguous else CsFilled) None
    (Some r.(br_intent_id)) r.(br_position_id) (Some requested) (Some sized) r.(br_signature).

(** A fill that is reported: the link, the leader's count, the outcome. *)
Definition entered (e : LeaderTradeEvent) (requested sized : f64) (r : BuyReport) : St Bot CopyOutcome :=
  now ← clock;
  match r.(br_position_id) with
  | Some id => on_core (on_store (upsert_link (link_of_buy now e r id))) ;; mret tt
  | None => mret tt
  end ;;
  on_core (on_leaders (fun _ => note_mirrored e.(e_leader)) now) ;;
  conclude_event e (opened_outcome e requested sized r).

(** An order that did not fill names what it had. *)
Definition with_order (r : BuyReport) (o : CopyOutcome) : CopyOutcome :=
  mkCopyOutcome o.(co_event_id) o.(co_stage) o.(co_rejection) (Some r.(br_intent_id))
    o.(co_position_id) o.(co_requested_sol) o.(co_sized_sol) r.(br_signature).

(** Step 10. *)
Definition execute_entry (e : LeaderTradeEvent) (rule : CopyWallet) (plan : EntryPlan)
    (requested : f64) (d : RiskDecision) (permit : Permit) : St Bot CopyOutcome :=
  let sized := d.(rd_sized_quote) in
  r ← buy e rule sized plan.(en_slippage_pct) (bps_of_pct plan.(en_slippage_pct)) d permit;
  match r with
  | Ok report =>
      if negb report.(br_filled) then
        state_do (fun now => note_failed_entry now e.(e_mint)) ;;
        o ← reject e true RrExecutionFailed CsSubmitted;
        mret (with_order report o)
      else entered e requested sized report
  | _ =>
      finish_permit false permit ;;
      state_do (fun now => note_failed_entry now e.(e_mint)) ;;
      reject e true RrExecutionFailed CsSubmitted
  end.

(** Step 9. *)
Definition claim_entry (e : LeaderTradeEvent) (rule : CopyWallet) (plan : EntryPlan)
    (requested : f64) (d : RiskDecision) : St Bot CopyOutcome :=
  r ← acquire_permit (lit "copy:" ++ e.(e_leader) ++ lit ":" ++ e.(e_mint)) (lit "entry") (lit "mirror")
        e.(e_mint);
  match r with
  | Ok permit =>
      if negb (proceed permit) then reject e true RrOwnershipLost CsRiskApproved
      else execute_entry e rule plan requested d permit
  | _ => reject e true RrOwnershipUnavailable CsRiskApproved
  end.

Definition entry_request (e : LeaderTradeEvent) (plan : EntryPlan) (requested available : f64)
    : EntryRequest :=
  mkEntryRequest Copy e.(e_venue) e.(e_mint) requested available (bps_of_pct plan.(en_slippage_pct))
    None None None env.(ce_wallet) (copy_strategy (Some e.(e_leader))).

Definition risk_decision (r : EntryRequest) : St Bot RiskDecision :=
  now ← clock;
  s ← the_state;
  execs ← gets (fun b => ExecLedger.open b.(b_exec).(xs_ledger));
  on_global (fun g => check_entry env.(ce_tenant) env.(ce_oracle) now execs r s g).

(** The decision goes out of scope: its reservation is released. *)
Definition drop_decision (d : RiskDecision) : St Bot unit :=
  on_global (fun g => (tt, drop_lease d.(rd_reservation) g)).

(** Step 8. *)
Definition gate_entry (e : LeaderTradeEvent) (rule : CopyWallet) (plan : EntryPlan)
    (requested available : f64) : St Bot CopyOutcome :=
  d ← risk_decision (entry_request e plan requested available);
  o ← (if negb (allowed d) then
         state_do (fun now => inc_risk_rejected now Copy) ;;
         reject e true (from_risk_code d.(rd_code)) CsSized
       else
         state_do (fun now => inc_signals now Copy) ;;
         claim_entry e rule plan requested d);
  drop_decision d ;;
  mret o.

Definition copy_risk (e : LeaderTradeEvent) (rule : CopyWallet) (requested : f64)
    : St Bot (outcome RiskCode unit) :=
  now ← clock;
  s ← the_state;
  mret (check_copy_coded env.(ce_tenant) env.(ce_oracle) now (to_wallet_trade e)
          s.(st_config).(cf_risk) requested
          (Some (rule.(cw_max_exposure_sol), rule.(cw_max_open_positions))) s).

Definition sizing_reason (err : SizingError) : RejectReason :=
  match err with SeDust _ _ => RrDustSize | _ => RrZeroSize end.

(** Steps 6 and 7. *)
Definition enter (e : LeaderTradeEvent) (rule : CopyWallet) (plan : EntryPlan) : St Bot CopyOutcome :=
  available ← available_sol;
  match available with
  | Ok available =>
      match size_mirror rule cfg.(cs_copy) e.(e_sol_amount) (Some available) with
      | inr err => reject e true (sizing_reason err) CsPolicyPassed
      | inl size =>
          let requested := size.(sd_requested_sol) in
          v ← copy_risk e rule requested;
          match v with
          | Ok _ => gate_entry e rule plan requested available
          | refused => reject e true (from_risk_code (Some (rejected_as refused))) CsSized
          end
      end
  | _ => reject e true RrBalanceUnavailable CsPolicyPassed
  end.

(** ** The pipeline *)

Definition policy_context (now : Z) (mint : text) (s : AppState) : PolicyContext :=
  let held := find_open Copy mint s in
  mkPolicyContext now (bool_decide (mint ∈ s.(st_blocked_symbols)))
    (match find_open Sniper mint s with Some _ => true | None => false end)
    (match held with Some _ => true | None => false end) (from_option p_qty fzero held).

(** Step 5. *)
Definition decide_event (e : LeaderTradeEvent) (rule : CopyWallet) (status : LeaderStatus)
    : St Bot CopyOutcome :=
  now ← clock;
  s ← the_state;
  match CopyPolicy.evaluate e (Some (rule, status)) cfg.(cs_copy) (policy_context now e.(e_mint) s) with
  | Skip r => reject e true r.(rj_reason) r.(rj_stage)
  | Exit plan =>
      match find_open Copy e.(e_mint) s with
      | Some p => mirror_exit e plan p
      | None => reject e true RrNoPositionToExit CsPolicyPassed
      end
  | Enter plan => enter e rule plan
  end.

(** Steps 3 and 4. *)
Definition claim_and_order (e : LeaderTradeEvent) (rule : CopyWallet) (status : LeaderStatus)
    : St Bot CopyOutcome :=
  fresh ← on_core (claim_event e);
  if negb fresh then reject e true RrDuplicateEvent CsLeaderResolved
  else
    report ← on_core (on_ordering (observe e));
    if report.(CopyOrdering.or_reject) then reject e true RrOutOfOrder CsDeduplicated
    else decide_event e rule status.

(** [CopyBot::process_event]. *)
Definition process_event (e : LeaderTradeEvent) : St Bot CopyOutcome :=
  now ← clock;
  match event_validate now e with
  | Ok _ =>
      leader ← gets (fun b => rule_for b.(b_core).(k_leaders) e.(e_leader));
      match leader with
      | Some (rule, status) =>
          on_core (on_leaders (fun _ => note_event e.(e_leader) e.(e_slot) e.(e_observed_at)) now) ;;
          claim_and_order e rule status
      | None => reject e false RrLeaderUnknown CsValidated
      end
  | _ => reject e false RrInvalidEvent CsReceived
  end.

(** [CopyBot::mirror_trade]: whether it failed. *)
Definition mirror_trade (t : WalletTrade) : St Bot (BotResult unit) :=
  e ← on_core (event_from_trade t cfg.(cs_copy).(cc_feed));
  o ← process_event e;
  mret (if decide (o.(co_stage) = CsFailed) then Err Solana else Ok tt).

(** ** Reconciliation *)

Definition leader_exited : text := lit "leader exited (reconciliation)".

(** [CopyBot::reconcile_exit]. *)
Definition reconcile_exit (position_id detail : text) (fraction : f64) : St Bot unit :=
  s ← the_state;
  match snd <$> list_find (fun p => p.(p_id) = position_id) (open_positions_for Copy s) with
  | None => mret tt
  | Some p =>
      r ← acquire_permit (lit "exit:" ++ p.(p_id) ++ lit ":recon_exit") (lit "exit") (lit "recon_exit")
            p.(p_symbol);
      match r with
      | Ok permit =>
          if negb (proceed permit) then mret tt
          else
            r ← sell_position p fraction leader_exited None permit;
            match r.1 with
            | Ok _ =>
                s ← the_state;
                now ← clock;
                if is_none (find_open Copy p.(p_symbol) s)
                then on_core (on_store (close_link now p.(p_id) CLOSED None (Some detail))) ;; mret tt
                else mret tt
            | _ =>
                finish_permit false r.2 ;;
                state_do (fun now => record_error now Copy (lit "recon exit " ++ p.(p_symbol)))
            end
      | _ => mret tt
      end
  end.

Definition requantified (now : Z) (qty : f64) (l : CopyLinkRecord) : CopyLinkRecord :=
  mkCopyLinkRecord l.(cl_position_id) l.(cl_leader) l.(cl_mint) l.(cl_entry_event_id)
    l.(cl_entry_signature) l.(cl_intent_id) l.(cl_leader_token_amount) qty l.(cl_status)
    l.(cl_opened_at) l.(cl_closed_at) l.(cl_exit_event_id) (Some now) l.(cl_note) now.

Definition act_on_finding (f : Finding) : St Bot unit :=
  now ← clock;
  match f.(fi_action) with
  | Flag => mret tt
  | CloseLink id status =>
      on_core (on_store (close_link now id status None (Some f.(fi_detail)))) ;; mret tt
  | UpdateLink id qty =>
      links ← gets (fun b => default [] (open_links b.(b_core).(k_store)));
      match snd <$> list_find (fun l => l.(cl_position_id) = id) links with
      | Some l => on_core (on_store (upsert_link (requantified now qty l))) ;; mret tt
      | None => mret tt
      end
  | MirrorExit id fraction => reconcile_exit id f.(fi_detail) fraction
  end.

Fixpoint act_on_findings (fs : list Finding) : St Bot unit :=
  match fs with
  | [] => mret tt
  | f :: fs => act_on_finding f ;; act_on_findings fs
  end.

(** [CopyBot::reconcile_once]; the exposure gauges are left out. *)
Definition reconcile_once : St Bot ReconReport :=
  now ← clock;
  i ← gets (fun b => recon_inputs now cfg.(cs_copy) b.(b_exec).(xs_ledger) b.(b_core));
  let report := reconcile now i in
  act_on_findings report.(rr_findings) ;;
  mret report.

(** ** The sweeper *)

Definition MARK_REFERENCE_RAW : Z := 1000000.

(** [mark_price_sol]: the spot of a curve that is live, else a quote for one
    token. *)
Definition mark_price_sol (symbol : text) : St Bot (BotResult f64) :=
  attempt (mint_key symbol) (fun mint =>
  a ← ask (market_account_data (bonding_curve_pda mint));
  let spot := match a with
              | Ok (Some data) =>
                  match BondingCurveState_parse data with
                  | Ok c => if negb c.(bc_complete)
                            then Some (pump_spot_price_sol c.(bc_virtual_sol_reserves)
                                         c.(bc_virtual_token_reserves))
                            else None
                  | _ => None
                  end
              | _ => None
              end in
  match spot with
  | Some price => mret (Ok price)
  | None =>
      attempt (ask (market_quote (mkQuoteRequest mint WSOL_MINT MARK_REFERENCE_RAW 50)))
        (fun out => mret (Ok (lamports_to_sol out)))
  end).

Definition marked (now : Z) (mark : f64) (p : Position) : Position :=
  {| p_id := p.(p_id); p_opened_at := p.(p_opened_at); p_updated_at := now;
     p_closed_at := p.(p_closed_at); p_source := p.(p_source); p_venue := p.(p_venue);
     p_mode := p.(p_mode); p_status := p.(p_status); p_symbol := p.(p_symbol);
     p_symbol_display := p.(p_symbol_display); p_quote_symbol := p.(p_quote_symbol);
     p_qty := p.(p_qty); p_avg_entry := p.(p_avg_entry); p_cost_basis := p.(p_cost_basis);
     p_realized_quote := p.(p_realized_quote); p_realized_pnl_quote := p.(p_realized_pnl_quote);
     p_realized_at := p.(p_realized_at); p_last_mark := mark;
     p_stop_loss := p.(p_stop_loss); p_take_profit := p.(p_take_profit);
     p_trailing_stop := p.(p_trailing_stop);
     p_trailing_high_water :=
       Some (match p.(p_trailing_high_water) with Some h => fmax h mark | None => mark end);
     p_max_hold_secs := p.(p_max_hold_secs); p_entry_signature := p.(p_entry_signature);
     p_exit_signature := p.(p_exit_signature); p_entry_latency_ms := p.(p_entry_latency_ms);
     p_copied_wallet := p.(p_copied_wallet); p_market_id := p.(p_market_id);
     p_outcome := p.(p_outcome); p_reason_closed := p.(p_reason_closed) |}.

(** The position with a fresh mark, written back whole. *)
Definition refresh_mark (p : Position) : St Bot Position :=
  r ← mark_price_sol p.(p_symbol);
  match r with
  | Ok mark =>
      if is_finite mark && fltb fzero mark then
        now ← clock;
        let p := marked now mark p in
        state_do (fun _ => upsert_position p) ;;
        state_do (fun now => set_unrealized now Copy (unrealised p)) ;;
        mret p
      else mret p
  | _ => mret p
  end.

(** [reason] is the wording of the decision. *)
Definition sweep_position (reason : Position -> ExitDecision -> text) (kill : bool) (p : Position)
    : St Bot unit :=
  p ← (if kill then mret p else refresh_mark p);
  now ← clock;
  s ← the_state;
  let d := check_exit now p p.(p_last_mark) s in
  if negb (should_exit d) then mret tt
  else
    let rule := from_option ExitRule_as_str (lit "manual") d.(xd_rule) in
    r ← acquire_permit (lit "exit:" ++ p.(p_id) ++ lit ":" ++ rule) (lit "exit") rule p.(p_symbol);
    match r with
    | Ok permit =>
        if negb (proceed permit) then mret tt
        else
          r ← sell_position p d.(xd_fraction) (reason p d) d.(xd_rule) permit;
          match r.1 with
          | Ok _ => mret tt
          | _ =>
              finish_permit false r.2 ;;
              state_do (fun now => record_error now Copy (lit "exit " ++ p.(p_symbol)))
          end
    | _ => mret tt
    end.

Fixpoint sweep_positions (reason : Position -> ExitDecision -> text) (kill : bool) (ps : list Position)
    : St Bot unit :=
  match ps with
  | [] => mret tt
  | p :: ps => sweep_position reason kill p ;; sweep_positions reason kill ps
  end.

(** [ExitSweeper::sweep_once], over the state the sweeper shares with the bot;
    its executor is its own. *)
Definition sweep_once (reason : Position -> ExitDecision -> text) : St Bot unit :=
  s ← the_state;
  match open_positions_for Copy s with
  | [] => mret tt
  | ps => refresh_policy ;; sweep_positions reason (kill_switch s) ps
  end.

(** ** The loop *)

(** What wakes the loop of [CopyBot::run]. *)
Inductive Wake : Type :=
  | WakeTrade (t : WalletTrade)
  | WakeTick.

Definition beat : St Bot unit := state_do (fun now => heartbeat now Copy).

(** One turn; the switch of the module is the one in the state. *)
Definition run_turn (w : Wake) : St Bot unit :=
  s ← the_state;
  now ← clock;
  match w with
  | WakeTick =>
      (if cfg.(cs_copy).(cc_enabled) && (0 <? cfg.(cs_copy).(cc_reconcile_interval_secs)) then
         on_core (sync_leaders now env.(ce_replica_id) cfg.(cs_copy)) ;;
         reconcile_once ;;
         mret tt
       else mret tt) ;;
      beat
  | WakeTrade t =>
      if negb cfg.(cs_copy).(cc_enabled) || kill_switch s || negb (is_enabled Copy s) then mret tt
      else
        on_core (sync_leaders now env.(ce_replica_id) cfg.(cs_copy)) ;;
        e ← on_core (event_from_trade t cfg.(cs_copy).(cc_feed));
        o ← process_event e;
        (if decide (o.(co_stage) = CsFailed)
         then state_do (fun now => record_error now Copy (t.(wt_mint) ++ lit ": "))
         else mret tt) ;;
        beat
  end.

Fixpoint run_turns (ws : list Wake) : St Bot unit :=
  match ws with
  | [] => mret tt
  | w :: ws => run_turn w ;; run_turns ws
  end.

(** [CopyBot::run]: recovery before anything can act, then the turns, until the
    feed closes. *)
Definition run_bot (ws : list Wake) : St Bot unit :=
  state_do (fun now => set_running now Copy true true) ;;
  state_do (fun _ => set_detail Copy (lit "starting")) ;;
  beat ;;
  now ← clock;
  on_core (sync_leaders now env.(ce_replica_id) cfg.(cs_copy)) ;;
  l ← gets (fun b => b.(b_exec).(xs_ledger));
  plan ← on_core (recover_after_restart now cfg.(cs_copy) l);
  match plan with
  | [] => mret tt
  | _ => state_do (fun _ => set_detail Copy
           (lit "recovered (" ++ lit (pretty (Z.of_nat (length plan))) ++ lit " actions)"))
  end ;;
  run_turns ws ;;
  state_do (fun now => set_running now Copy false false).
End Engine.
