(* ===== verification/CopyEngineFrame.v ===== *)
(** What the copy engine leaves alone.  Every stage of the pipeline acts on the
    shared state through the operations of [AppState] and on the network through
    the executor; so a figure of the state that those operations keep, and a
    relation that the executor keeps, hold across every stage, every event and
    the whole run.  The class [StateFrame] is the promise about a figure, the
    section [Frame] carries it through the engine once for all relations. *)
From stdpp Require Import prelude countable gmap list strings pretty.
From Stdlib Require Import ZArith Lia.
From S2P Require Import Prelude.
From S2P Require Import BotCore.
From S2P Require Import Text.
From S2P Require Import Float64.
From S2P Require Import Models.
From S2P Require Import BotConfig.
From S2P Require Import FeePolicy.
From S2P Require Import LedgerEvent.
From S2P Require Import Ledger.
From S2P Require Import ExecLedger.
From S2P Require Import AppState.
From S2P Require Import Ownership.
From S2P Require Import GlobalRisk.
From S2P Require Import Risk.
From S2P Require Import RpcPool.
From S2P Require Import Executor.
From S2P Require Import RpcPoolCorrect.
From S2P Require Import ExecutorCorrect.
From S2P Require Import PumpCurve.
From S2P Require Import PumpLayout.
From S2P Require Import CopyLeader.
From S2P Require Import CopyEvent.
From S2P Require Import CopyPolicy.
From S2P Require Import CopyOrdering.
From S2P Require Import CopyStore.
From S2P Require Import CopyRecovery.
From S2P Require Import CopyBot.
From S2P Require Import CopyEngine.

#[local] Open Scope Z_scope.

(** * Figures of the shared state *)

(** A figure that the fields the trading path writes do not enter. *)
Class StateFrame {X : Type} (g : AppState -> X) : Prop := {
  frame_modules m s : g (set_modules m s) = g s;
  frame_trades l s : g (set_trades l s) = g s;
  frame_daily d s : g (set_daily d s) = g s;
  frame_realized m s : g (set_realized_pnl m s) = g s;
  frame_module_pnl m s : g (set_daily_module_pnl m s) = g s;
  frame_positions m o s : g (set_positions m o s) = g s;
  frame_last_exit m s : g (set_last_exit_at m s) = g s;
  frame_last_copy m s : g (set_last_copy_at m s) = g s;
  frame_last_failed m s : g (set_last_failed_entry_at m s) = g s;
  frame_counter n s : g (set_counter n s) = g s;
  frame_flags a b s : g (set_flags a b s) = g s;
  frame_switch m on c s : with_enabled m on s.(st_config) = c -> g (set_config c s) = g s;
}.

(** One that the claim of an event keeps as well. *)
Class ClaimFrame {X : Type} (g : AppState -> X) : Prop := {
  claim_frame :: StateFrame g;
  frame_seen b s : g (set_seen_copy_events b s) = g s;
}.

(** The gate of live trading. *)
Definition live_gate (s : AppState) : ExecutionMode * bool :=
  (s.(st_config).(cf_mode), s.(st_config).(cf_allow_live_trading)).

#[export] Instance live_gate_frame : ClaimFrame live_gate.
Proof.
  split; [split|]; intros; try (by destruct s). subst c. destruct s as [c]. unfold live_gate. cbn.
  by destruct m, c.
Qed.

#[export] Instance seen_frame : StateFrame st_seen_copy_events.
Proof. split; intros; by destruct s. Qed.

(** The record of claimed events, with its bound. *)
Definition claim_record (s : AppState) : BoundedSet * Z := (s.(st_seen_copy_events), s.(st_config).(cf_max_dedup_entries)).

#[export] Instance record_frame : StateFrame claim_record.
Proof.
  split; intros; try (by destruct s). subst c. destruct s as [c]. unfold claim_record. cbn. by destruct m, c.
Qed.

#[export] Instance unit_frame : ClaimFrame (fun _ => tt).
Proof. split; [split|]; done. Qed.

Section StateOps.
Context `{HashOrder} {libs : LedgerLibs} {X : Type} (g : AppState -> X) `{!StateFrame g}.

Ltac frame := repeat first [rewrite frame_modules | rewrite frame_trades | rewrite frame_daily
  | rewrite frame_realized | rewrite frame_module_pnl | rewrite frame_positions
  | rewrite frame_last_exit | rewrite frame_last_copy | rewrite frame_last_failed
  | rewrite frame_counter | rewrite frame_flags].

Lemma frame_bump now m f s : g (bump now m f s) = g s.
Proof. unfold bump, update_module. by frame. Qed.

Lemma frame_running now m r c s : g (set_running now m r c s) = g s.
Proof. unfold set_running, update_module. by frame. Qed.

Lemma frame_heartbeat now m s : g (heartbeat now m s) = g s.
Proof. unfold heartbeat, update_module. by frame. Qed.

Lemma frame_detail m d s : g (set_detail m d s) = g s.
Proof. unfold set_detail, update_module. by frame. Qed.

Lemma frame_set_enabled now m on s : g (set_enabled now m on s).2 = g s.
Proof.
  unfold set_enabled, publish_flag. case_match; cbn; frame;
    (rewrite (frame_switch m on); [by frame|by destruct s]).
Qed.

Lemma frame_error now m err s : g (record_error now m err s) = g s.
Proof. unfold record_error, update_module. case_match; [rewrite frame_set_enabled|]; by frame. Qed.

Lemma frame_trade now t s : g (record_trade now t s) = g s.
Proof. unfold record_trade. rewrite frame_bump. by frame. Qed.

Lemma frame_with now id f s : g (with_position now id f s).2 = g s.
Proof. unfold with_position. case_match; cbn; by frame. Qed.

Lemma frame_close now id st why s : g (close_position now id st why s).2 = g s.
Proof. unfold close_position. case_match; cbn; by frame. Qed.

Lemma frame_disable now s : g (disable_trading now s) = g s.
Proof.
  unfold disable_trading. generalize BotModule_TRADING. intros l.
  induction l as [|m l IH] in s |- *; [done|]. cbn [fold_left]. by rewrite IH, frame_set_enabled.
Qed.

Lemma frame_tripped now s : g (mark_loss_limit_tripped now s).2 = g s.
Proof. unfold mark_loss_limit_tripped. destruct (dl_loss_limit_tripped _); cbn [snd]; by frame. Qed.

Lemma frame_add_realized now m x s : g (add_realized now m x s) = g s.
Proof. unfold add_realized. rewrite frame_bump. by frame. Qed.

Lemma frame_pnl tenant oracle now m x s : g (book_pnl tenant oracle now m x s) = g s.
Proof.
  unfold book_pnl. destruct (is_some tenant); [apply frame_add_realized|]. cbv zeta.
  destruct (fleb _ fzero); [apply frame_add_realized|].
  destruct (effective_realized _ _); [|apply frame_add_realized].
  destruct (_ && _); [|apply frame_add_realized].
  destruct (mark_loss_limit_tripped now (add_realized now m x s)).1; rewrite ?frame_disable;
    by rewrite frame_tripped, frame_add_realized.
Qed.
End StateOps.

(** * The bookkeeping of the bot *)

Section Core.
Context {S : Type} `{CopyStore S} `{HashOrder} {libs : LedgerLibs} {X : Type} (g : AppState -> X).

Definition core_keeps {A} (m : St (CopyCore S) A) : Prop :=
  keeps (fun k k' => g k'.(k_app) = g k.(k_app)) m.

#[local] Instance core_preorder : PreOrder (fun k k' : CopyCore S => g k'.(k_app) = g k.(k_app)).
Proof. split; [by intros k|]. intros a b c H1 H2. by rewrite H2. Qed.

Lemma core_bind {A B} (m : St (CopyCore S) A) (k : A -> St (CopyCore S) B) :
  core_keeps m -> (forall a, core_keeps (k a)) -> core_keeps (m ≫= k).
Proof. apply keeps_bind, _. Qed.

Lemma core_ret {A} (a : A) : core_keeps (mret a).
Proof. apply keeps_ret, _. Qed.

Lemma core_gets {A} (f : CopyCore S -> A) : core_keeps (gets f).
Proof. apply keeps_gets, _. Qed.

Lemma core_app {A} (f : AppState -> A * AppState) : (forall s, g (f s).2 = g s) -> core_keeps (on_app f).
Proof. intros Hf k. apply Hf. Qed.

Lemma core_leaders {A} (f : (nat -> Z) -> Op A) now : core_keeps (on_leaders f now).
Proof. done. Qed.

Lemma core_ordering {A} (f : OrderingTracker -> A * OrderingTracker) : core_keeps (on_ordering f).
Proof. done. Qed.

Lemma core_store {A} (f : S -> A * S) : core_keeps (on_store f).
Proof. done. Qed.

Lemma core_sequence : core_keeps next_sequence.
Proof. done. Qed.

Ltac core_step :=
  match goal with
  | |- core_keeps (mbind _ _) => apply core_bind; [|intros ?]
  | |- core_keeps (mret _) => apply core_ret
  | |- core_keeps (gets _) => apply core_gets
  | |- core_keeps (on_leaders _ _) => apply core_leaders
  | |- core_keeps (on_ordering _) => apply core_ordering
  | |- core_keeps (on_store _) => apply core_store
  | |- core_keeps next_sequence => apply core_sequence
  | |- core_keeps (on_app _) => apply core_app; intros ?
  | |- core_keeps (let _ := _ in _) => cbv zeta
  | |- core_keeps (match ?x with _ => _ end) => destruct x
  end.
Ltac core := repeat core_step.

Lemma core_persist now address : core_keeps (persist_leader now address).
Proof. unfold persist_leader. core. Qed.

Lemma core_finish now e ruled o : core_keeps (finish now e ruled o).
Proof. unfold finish. core. all: apply core_persist. Qed.

Lemma core_reject now e ruled reason stage : core_keeps (finish_rejected now e ruled reason stage).
Proof. apply core_finish. Qed.

Lemma core_event t feed : core_keeps (event_from_trade t feed).
Proof. unfold event_from_trade. core. Qed.

Lemma core_sync now replica cfg : core_keeps (sync_leaders now replica cfg).
Proof.
  unfold sync_leaders. core. match goal with |- core_keeps (sync_transitions _ _ ?l) => induction l as [|t l IH] end;
    cbn [sync_transitions]; core; [|done]. unfold sync_transition. core; apply core_persist.
Qed.

Context `{!ClaimFrame g}.

Lemma frame_mark key s : g (mark_copy_event_seen key s).2 = g s.
Proof. apply frame_seen. Qed.

Lemma core_claim e : core_keeps (claim_event e).
Proof. unfold claim_event. core. apply frame_mark. Qed.

Lemma core_recovery now a : core_keeps (apply_recovery now a).
Proof.
  destruct a; cbn [apply_recovery]; core.
  - induction keys as [|key keys IH]; cbn [seed_keys]; core; [apply frame_mark|done].
  - apply (frame_with g).
  - apply (frame_close g).
Qed.

Lemma core_restart now cfg l : core_keeps (recover_after_restart now cfg l).
Proof.
  unfold recover_after_restart. core. match goal with |- core_keeps (apply_plan _ ?l) => induction l as [|x l' IH] end;
    cbn [apply_plan]; core; [apply core_recovery|done].
Qed.
End Core.

(** * The engine *)

Section Frame.
Context {S W LSt RSt CSt K : Type} `{CopyStore S} `{Network W} `{Market W} `{LedgerStore LSt}
  `{RiskStore RSt} `{ClaimStore CSt} `{HashOrder} {libs : LedgerLibs} `{SdkKeys}.
Context (sanitize : text -> text) (digest_hex : list Z -> text).
Context (env : CopyEnv K) (cfg : CopySettings).

Abbreviation Bot := (CopyBot S W LSt RSt CSt K).

(** A relation that the parts the engine does not decide about do not break:
    [g] is the figure of the shared state it may look at. *)
Class EngineFrame {X : Type} (g : AppState -> X) (R : Bot -> Bot -> Prop) : Prop := {
  ef_preorder :: PreOrder R;
  ef_state :: StateFrame g;
  ef_core {A} (m : St (CopyCore S) A) : core_keeps g m -> keeps R (on_core m);
  ef_global {A} (f : GlobalRiskEngine LSt RSt -> A * GlobalRiskEngine LSt RSt) : keeps R (on_global f);
  ef_claims {A} (f : CSt -> A * CSt) : keeps R (on_claims f);
  ef_wire {A} (m : St (Wire W) A) : silent m -> keeps R (on_exec (on_wire m));
  ef_policy : keeps R (refresh_policy cfg);
  ef_run rec req : keeps R (run_request sanitize digest_hex env rec req);
  ef_prebuilt rec b : keeps R (run_prebuilt sanitize env rec b);
}.

Section Stages.
Context {X : Type} (g : AppState -> X) (R : Bot -> Bot -> Prop) `{!EngineFrame g R}.

Lemma keeps_attempt {A B} (m : St Bot (BotResult A)) (k : A -> St Bot (BotResult B)) :
  keeps R m -> (forall a, keeps R (k a)) -> keeps R (attempt m k).
Proof.
  intros Hm Hk. apply keeps_bind; [apply _|done|]. intros [a|x|]; [apply Hk|by apply keeps_ret, _..].
Qed.

Lemma keeps_state {A} (f : Z -> AppState -> A * AppState) :
  (forall now s, g (f now s).2 = g s) -> keeps R (state_op f).
Proof.
  intros Hf. apply keeps_bind; [apply _|by apply keeps_gets, _|]. intros now.
  apply ef_core, core_app. apply Hf.
Qed.

Lemma keeps_ask {A} (f : W -> A * W) : keeps R (ask f).
Proof. apply ef_wire, silent_on_net. Qed.

Lemma keeps_latest i : keeps R (on_exec (on_wire (latest_blockhash sanitize i true))).
Proof. apply ef_wire, silent_latest. Qed.

Lemma keeps_simulate i b : keeps R (on_exec (on_wire (rpc_simulate sanitize i b))).
Proof. apply ef_wire, (silent_retry _ (SimulateTransaction b)). Qed.

Create HintDb engine discriminated.
#[local] Hint Resolve keeps_ask keeps_latest keeps_simulate ef_global ef_claims ef_policy ef_run ef_prebuilt
  core_reject core_finish core_event core_sync : engine.

Ltac keep_step :=
  match goal with
  | |- keeps R (mbind _ _) => apply keeps_bind; [apply _| |intros ?]
  | |- keeps R (mret _) => apply keeps_ret, _
  | |- keeps R (lift _) => apply keeps_ret, _
  | |- keeps R (gets _) => apply keeps_gets, _
  | |- keeps R clock => apply keeps_gets, _
  | |- keeps R the_state => apply keeps_gets, _
  | |- keeps R the_origin => apply keeps_gets, _
  | |- keeps R (attempt _ _) => apply keeps_attempt; [|intros ?]
  | |- keeps R (on_core (on_store _)) => apply ef_core, core_store
  | |- keeps R (on_core (on_leaders _ _)) => apply ef_core, core_leaders
  | |- keeps R (on_core (on_ordering _)) => apply ef_core, core_ordering
  | |- keeps R (on_core _) => apply ef_core; solve [eauto with engine]
  | |- keeps R (state_do _) => apply keeps_state; intros ? ?; cbn [snd]
  | |- keeps R (state_op _) => apply keeps_state; intros ? ?; cbn [snd]
  | |- keeps R (let _ := _ in _) => cbv zeta
  | |- keeps R (match ?x with _ => _ end) => destruct x
  | |- keeps R _ => solve [eauto with engine]
  | |- g _ = g _ =>
      first [apply (frame_bump g) | apply (frame_heartbeat g) | apply (frame_running g)
            | apply (frame_detail g) | apply (frame_error g) | apply (frame_counter (g := g))
            | apply (frame_trade g) | apply (frame_positions (g := g))
            | apply (frame_last_copy (g := g)) | apply (frame_last_failed (g := g))
            | apply (frame_pnl g) | apply (frame_with g) | apply (frame_close g)]
  end.
Ltac keep := repeat keep_step.

Lemma keeps_intent symbol side qty : keeps R (new_intent env symbol side qty).
Proof. unfold new_intent. keep. Qed.

Lemma keeps_exit_intent symbol qty : keeps R (exit_intent env symbol qty).
Proof. unfold exit_intent. keep. apply keeps_intent. Qed.

Lemma keeps_submit e : keeps R (submit_event env e).
Proof. unfold submit_event. keep. Qed.

Lemma keeps_finish ambiguous p : keeps R (finish_permit ambiguous p).
Proof. unfold finish_permit. keep. Qed.

Lemma keeps_acquire id kind strategy symbol : keeps R (acquire_permit env id kind strategy symbol).
Proof. unfold acquire_permit. keep. Qed.

Lemma keeps_fence p : keeps R (fence_permit p).
Proof. unfold fence_permit. keep. Qed.

Lemma keeps_allowed : keeps R broadcast_allowed.
Proof. unfold broadcast_allowed. keep. Qed.

Lemma keeps_reject e ruled reason stage : keeps R (reject e ruled reason stage).
Proof. unfold reject. keep. Qed.

Lemma keeps_conclude e o : keeps R (conclude_event e o).
Proof. unfold conclude_event. keep. Qed.

#[local] Hint Resolve keeps_intent keeps_exit_intent keeps_submit keeps_finish keeps_acquire keeps_fence
  keeps_allowed keeps_reject keeps_conclude : engine.

Lemma keeps_record_buy e rule venue r amount sol_in ms d ambiguous :
  keeps R (record_buy env cfg e rule venue r amount sol_in ms d ambiguous).
Proof. unfold record_buy. keep. Qed.

Lemma keeps_mint symbol : keeps R (mint_key symbol).
Proof. unfold mint_key. keep. Qed.

Lemma keeps_load mint : keeps R (load_context env mint).
Proof. unfold load_context. keep. Qed.

Lemma keeps_blockhash : keeps R (fetch_blockhash_now sanitize).
Proof. unfold fetch_blockhash_now. keep. Qed.

Lemma keeps_swap q b : keeps R (build_swap cfg q b).
Proof. unfold build_swap. keep. Qed.

Lemma keeps_simulated label id symbol b t : keeps R (simulate_swap sanitize label id symbol b t).
Proof. unfold simulate_swap. keep. Qed.

#[local] Hint Resolve keeps_record_buy keeps_mint keeps_load keeps_blockhash keeps_swap keeps_simulated : engine.

(** ** Buying *)

Lemma keeps_buy_on_curve e rule ctx sized pct d p :
  keeps R (buy_on_curve sanitize digest_hex env cfg e rule ctx sized pct d p).
Proof. unfold buy_on_curve. keep. Qed.

Lemma keeps_swap_result e mint lamports q mode p :
  keeps R (swap_result sanitize env cfg e mint lamports q mode p).
Proof. unfold swap_result, swap_live. keep. Qed.

#[local] Hint Resolve keeps_buy_on_curve keeps_swap_result : engine.

Lemma keeps_buy e rule sized pct bps d p :
  keeps R (buy sanitize digest_hex env cfg e rule sized pct bps d p).
Proof. unfold buy, buy_via_jupiter. keep. Qed.

(** ** Selling *)

Lemma keeps_sell_outcome mint q mode rec id :
  keeps R (sell_outcome sanitize env cfg mint q mode rec id).
Proof. unfold sell_outcome, sell_live. keep. Qed.

#[local] Hint Resolve keeps_buy keeps_sell_outcome : engine.

Lemma keeps_sell_order p raw permit : keeps R (sell_order sanitize digest_hex env cfg p raw permit).
Proof. unfold sell_order, sell_on_curve, sell_via_jupiter. keep. Qed.

Lemma keeps_sale id sold price quote signature : keeps R (apply_sale id sold price quote signature).
Proof. unfold apply_sale. keep. Qed.

#[local] Hint Resolve keeps_sell_order keeps_sale : engine.

Lemma keeps_book_sale p sold fraction proceeds id rule reason :
  keeps R (book_sale env cfg p sold fraction proceeds id rule reason).
Proof. unfold book_sale. keep. Qed.

#[local] Hint Resolve keeps_book_sale : engine.

Lemma keeps_sell p fraction reason rule permit :
  keeps R (sell_position sanitize digest_hex env cfg p fraction reason rule permit).
Proof. unfold sell_position. keep. Qed.

#[local] Hint Resolve keeps_sell : engine.

(** ** The pipeline *)

Lemma keeps_mirror_exit e plan p : keeps R (mirror_exit sanitize digest_hex env cfg e plan p).
Proof. unfold mirror_exit. keep. Qed.

Lemma keeps_execute e rule plan requested d p :
  keeps R (execute_entry sanitize digest_hex env cfg e rule plan requested d p).
Proof. unfold execute_entry, entered. keep. Qed.

Lemma keeps_available : keeps R (available_sol env).
Proof. unfold available_sol. keep. Qed.

#[local] Hint Resolve keeps_mirror_exit keeps_execute keeps_available : engine.

Lemma keeps_enter e rule plan : keeps R (enter sanitize digest_hex env cfg e rule plan).
Proof. unfold enter, copy_risk, gate_entry, risk_decision, drop_decision, claim_entry. keep. Qed.

#[local] Hint Resolve keeps_enter : engine.

Lemma keeps_decide e rule status : keeps R (decide_event sanitize digest_hex env cfg e rule status).
Proof. unfold decide_event. keep. Qed.

#[local] Hint Resolve keeps_decide : engine.

(** ** Reconciliation and sweeper *)

Lemma keeps_reconcile_exit id detail fraction :
  keeps R (reconcile_exit sanitize digest_hex env cfg id detail fraction).
Proof. unfold reconcile_exit. keep. Qed.

#[local] Hint Resolve keeps_reconcile_exit : engine.

Lemma keeps_findings fs : keeps R (act_on_findings sanitize digest_hex env cfg fs).
Proof. induction fs as [|f fs IH]; cbn [act_on_findings]; [|unfold act_on_finding at 1]; keep. Qed.

#[local] Hint Resolve keeps_findings : engine.

Lemma keeps_reconcile : keeps R (reconcile_once sanitize digest_hex env cfg).
Proof. unfold reconcile_once. keep. Qed.

Lemma keeps_sweep reason kill ps : keeps R (sweep_positions sanitize digest_hex env cfg reason kill ps).
Proof.
  induction ps as [|p ps IH]; cbn [sweep_positions];
    [|unfold sweep_position at 1, refresh_mark, mark_price_sol]; keep.
Qed.

#[local] Hint Resolve keeps_reconcile keeps_sweep : engine.

Lemma keeps_sweep_once reason : keeps R (sweep_once sanitize digest_hex env cfg reason).
Proof. unfold sweep_once. keep. Qed.

(** A turn without a trade. *)
Lemma keeps_tick : keeps R (run_turn sanitize digest_hex env cfg WakeTick).
Proof. unfold run_turn, beat. keep. Qed.

(** ** The run *)

Context `{!ClaimFrame g}.

Lemma keeps_process e : keeps R (process_event sanitize digest_hex env cfg e).
Proof.
  unfold process_event, claim_and_order. keep. by apply ef_core, (core_claim g).
Qed.

#[local] Hint Resolve keeps_process : engine.

Lemma keeps_turns ws : keeps R (run_turns sanitize digest_hex env cfg ws).
Proof.
  induction ws as [|w ws IH]; cbn [run_turns]; [|unfold run_turn at 1, beat]; keep.
Qed.

#[local] Hint Resolve keeps_turns : engine.

(** The whole life of a bot. *)
Lemma keeps_run ws : keeps R (run_bot sanitize digest_hex env cfg ws).
Proof. unfold run_bot, beat. keep. by apply ef_core, (core_restart g). Qed.
End Stages.
End Frame.
