(* ===== verification/CopyEngineSafety.v ===== *)
(** What the copy engine never does, whatever the feed delivers: put a
    transaction on the wire that its ledger does not know, send anything while
    live trading is off, act on an event it has refused or has seen before, or
    leave the bonding curve. *)
From stdpp Require Import prelude countable gmap list strings pretty.
From Stdlib Require Import ZArith Lia.
From S2P Require Import Prelude.
From S2P Require Import BotCore.
From S2P Require Import Text.
From S2P Require Import Float64.
From S2P Require Import Models.
From S2P Require Import BotConfig.
From S2P Require Import FeePolicy.
From S2P Require Import LedgerEvent.
From S2P Require Import Ledger.
From S2P Require Import ExecLedger.
From S2P Require Import ExecLedgerCorrect.
From S2P Require Import AppState.
From S2P Require Import AppStateCorrect.
From S2P Require Import Ownership.
From S2P Require Import GlobalRisk.
From S2P Require Import Risk.
From S2P Require Import RpcPool.
From S2P Require Import Executor.
From S2P Require Import RpcPoolCorrect.
From S2P Require Import BroadcastCorrect.
From S2P Require Import ExecutorCorrect.
From S2P Require Import ExecutorSafety.
From S2P Require Import PumpCurve.
From S2P Require Import PumpLayout.
From S2P Require Import CopyLeader.
From S2P Require Import CopyEvent.
From S2P Require Import CopyPolicy.
From S2P Require Import CopyOrdering.
From S2P Require Import CopyStore.
From S2P Require Import CopyRecovery.
From S2P Require Import CopyBot.
From S2P Require Import CopyEngine.
From S2P Require Import CopyEngineFrame.

#[local] Open Scope Z_scope.

Section Safety.
Context {S W LSt RSt CSt K : Type} `{CopyStore S} `{Network W} `{Market W} `{LedgerStore LSt}
  `{RiskStore RSt} `{ClaimStore CSt} `{HashOrder} {libs : LedgerLibs} `{SdkKeys}.
Context (sanitize : text -> text) (digest_hex : list Z -> text).
Context (env : CopyEnv K) (cfg : CopySettings).

Abbreviation Bot := (CopyBot S W LSt RSt CSt K).

Definition app_of (b : Bot) : AppState := b.(b_core).(k_app).
Definition trace_of (b : Bot) : list (ExecutionLedger * WireEvent) := b.(b_exec).(xs_trace).
Definition ledger_of (b : Bot) : ExecutionLedger := b.(b_exec).(xs_ledger).

Lemma close_beside {X} (k : IntentSink K) id (out : ExecutionResult + text) (p : K * X) :
  (close_intent (sink_beside k) id broadcast_signature out p).2 = p.2.
Proof. destruct out as [r|]; cbn; [|done]. by destruct (broadcast_signature r) as [s|]; [destruct (is_empty s)|]. Qed.

(** A journaled broadcast is the broadcast, as far as the executor goes. *)
Lemma journaled_exec rec run (b : Bot) :
  (journaled env rec run b).2.(b_exec) = (run b.(b_exec)).2
  /\ (journaled env rec run b).2.(b_core) = b.(b_core)
  /\ (journaled env rec run b).2.(b_executor) = b.(b_executor).
Proof.
  unfold journaled. destruct rec as [r|]; [destruct (ce_intents env) as [k|]|]; [|done..].
  split; [|done]. cbn -[close_intent sink_beside]. apply close_beside.
Qed.

(** ** The ledger knows first *)

(** Some execution is submitted under the signature that leaves. *)
Definition known (p : ExecutionLedger * WireEvent) : Prop := exists id, write_ahead id p.

Definition knows (b b' : Bot) : Prop :=
  ledger_inv (ledger_of b) ->
  ledger_inv (ledger_of b') /\ exists es, trace_of b' = trace_of b ++ es /\ Forall known es.

Lemma knows_same (b b' : Bot) : b'.(b_exec) = b.(b_exec) -> knows b b'.
Proof.
  intros He Hi. unfold ledger_of, trace_of in *. rewrite He. split; [done|]. exists [].
  by rewrite app_nil_r.
Qed.

#[local] Instance knows_preorder : PreOrder knows.
Proof.
  split; [intros b; by apply knows_same|]. intros a b c Hab Hbc Hi.
  destruct (Hab Hi) as (Hb & es & Ht & Hes), (Hbc Hb) as (Hc & es' & Ht' & Hes'). split; [done|].
  exists (es ++ es'). rewrite Ht', Ht, app_assoc. split; [done|]. by apply Forall_app.
Qed.

Lemma ahead_known id es : Forall (write_ahead id) es -> Forall known es.
Proof. intros Hes. eapply Forall_impl; [exact Hes|]. intros p Hp. by exists id. Qed.

#[local] Instance knows_frame : EngineFrame sanitize digest_hex env cfg (fun _ => tt) knows.
Proof.
  split; try apply _; try (intros; intros b; by apply knows_same).
  - intros A m Hm b Hi. split; [exact Hi|]. exists []. rewrite app_nil_r. split; [|done].
    apply (unsent_silent m Hm).
  - intros rec req b Hi. unfold ledger_of, trace_of.
    destruct (journaled_exec rec (run sanitize digest_hex (b_executor b) (tenant_stamp env req)) b)
      as (He & _ & _).
    change (run_request _ _ _ _ _ b) with
      (journaled env rec (run sanitize digest_hex (b_executor b) (tenant_stamp env req)) b).
    rewrite He. destruct (run_ahead sanitize digest_hex b.(b_executor) (tenant_stamp env req) b.(b_exec) Hi)
      as (Hi' & es & Ht & Hes). split; [done|]. exists es. split; [done|]. by eapply ahead_known.
  - intros rec x b Hi. unfold ledger_of, trace_of.
    destruct (journaled_exec rec (send_prebuilt sanitize (b_executor b) (tenant_stamp_built env x)) b)
      as (He & _ & _).
    change (run_prebuilt _ _ _ _ b) with
      (journaled env rec (send_prebuilt sanitize (b_executor b) (tenant_stamp_built env x)) b).
    rewrite He. destruct (prebuilt_ahead sanitize b.(b_executor) (tenant_stamp_built env x) b.(b_exec) Hi)
      as (Hi' & es & Ht & Hes). split; [done|]. exists es. split; [done|]. by eapply ahead_known.
Qed.

(** C10: Through the whole life of a bot, restart, every delivered trade and every
    reconciliation included, nothing leaves the process that its ledger does not
    hold as submitted under the signature that leaves, and the ledger stays
    well formed; the same for every sweep. *)
Theorem bot_write_ahead (b : Bot) (Hinv : ledger_inv (ledger_of b)) :
  (forall ws, knows b (run_bot sanitize digest_hex env cfg ws b).2)
  /\ forall reason, knows b (sweep_once sanitize digest_hex env cfg reason b).2.
Proof. split; intros x; [apply (keeps_run _ _ _ _ (fun _ => tt))|apply (keeps_sweep_once _ _ _ _ (fun _ => tt))]; apply _. Qed.

(** ** Live trading is off *)

Definition unarmed (b : Bot) : Prop :=
  live_allowed (app_of b).(st_config) = false /\ is_paper b.(b_executor) = true.

Definition unsent (b b' : Bot) : Prop := unarmed b -> unarmed b' /\ trace_of b' = trace_of b.

#[local] Instance unsent_preorder : PreOrder unsent.
Proof.
  split; [by intros b Hb|]. intros a b c Hab Hbc Ha.
  destruct (Hab Ha) as [Hb Ht], (Hbc Hb) as [Hc Ht']. split; [done|]. by rewrite Ht'.
Qed.

Lemma gate_allowed s s' :
  live_gate s' = live_gate s -> live_allowed s'.(st_config) = live_allowed s.(st_config).
Proof. unfold live_gate, live_allowed. by intros [= -> ->]. Qed.

Lemma section_policy s c :
  live_allowed s.(st_config) = false ->
  ExecutionMode_is_live (ep_mode (exec_policy_from_config (execution_section s c))) = false.
Proof.
  unfold live_allowed. cbn. destruct (ExecutionMode_is_live (cf_mode (st_config s))) eqn:Hm; cbn.
  - by intros ->.
  - done.
Qed.

#[local] Instance unsent_frame : EngineFrame sanitize digest_hex env cfg live_gate unsent.
Proof.
  split; try apply _; try (intros; by intros b Hb).
  - intros A m Hm b [Hl Hp]. split; [|done]. split; [|done].
    exact (eq_trans (gate_allowed _ _ (Hm (b_core b))) Hl).
  - intros A m Hm b Hb. split; [done|]. apply (unsent_silent m Hm).
  - intros b [Hl Hp]. split; [|done]. split; [done|].
    exact (f_equal negb (section_policy _ (cs_execution cfg) Hl)).
  - intros rec req b [Hl Hp].
    destruct (journaled_exec rec (run sanitize digest_hex (b_executor b) (tenant_stamp env req)) b)
      as (He & Hc & Hx).
    change (run_request _ _ _ _ _ b) with
      (journaled env rec (run sanitize digest_hex (b_executor b) (tenant_stamp env req)) b).
    unfold unarmed, app_of, trace_of. rewrite He, Hc, Hx. split; [done|]. by apply unsent_run.
  - intros rec x b [Hl Hp].
    destruct (journaled_exec rec (send_prebuilt sanitize (b_executor b) (tenant_stamp_built env x)) b)
      as (He & Hc & Hx).
    change (run_prebuilt _ _ _ _ b) with
      (journaled env rec (send_prebuilt sanitize (b_executor b) (tenant_stamp_built env x)) b).
    unfold unarmed, app_of, trace_of. rewrite He, Hc, Hx. split; [done|]. by apply unsent_prebuilt.
Qed.

(** C11: A bot whose configuration does not allow live trading and whose executor is in
    paper mode sends nothing for as long as it runs: no trade, no exit, no
    reconciliation, no sweep puts a transaction on the wire, and it stays that way.
    The second condition is needed: an executor built for live trading keeps its mode
    after a reload until a buy or a sweep refreshes it ([stale_policy_sells_live]). *)
Theorem unarmed_bot_sends_nothing (b : Bot)
  (Hgate : live_allowed (app_of b).(st_config) = false) (Hpaper : is_paper b.(b_executor) = true) :
  (forall ws, let b' := (run_bot sanitize digest_hex env cfg ws b).2 in
     unarmed b' /\ trace_of b' = trace_of b)
  /\ forall reason, let b' := (sweep_once sanitize digest_hex env cfg reason b).2 in
       unarmed b' /\ trace_of b' = trace_of b.
Proof.
  split; intros x b'.
  - by apply (keeps_run _ _ _ _ live_gate unsent).
  - by apply (keeps_sweep_once _ _ _ _ live_gate unsent).
Qed.

(** ** Repeated deliveries *)

Definition seen_key (e : LeaderTradeEvent) (b : Bot) : bool :=
  bounded_contains (dedup_key e) (app_of b).(st_seen_copy_events).

(** Only the registry, the journal and the ordering cursors may differ. *)
Definition same_books (b b' : Bot) : Prop :=
  app_of b' = app_of b /\ b'.(b_exec) = b.(b_exec) /\ b'.(b_executor) = b.(b_executor)
  /\ b'.(b_global) = b.(b_global) /\ b'.(b_claims) = b.(b_claims) /\ b'.(b_intents) = b.(b_intents).

#[local] Instance same_books_preorder : PreOrder same_books.
Proof.
  split; [done|]. intros a b c (?&?&?&?&?&?) (?&?&?&?&?&?). by split_and!; etrans.
Qed.

Lemma reject_books e ruled reason stage (b : Bot) :
  same_books b (reject e ruled reason stage b).2
  /\ (reject e ruled reason stage b).1 = outcome_rejected e.(e_event_id) (mkRejection reason stage).
Proof.
  split; [|done]. split; [|done].
  exact (core_reject (fun s => s) (exec_now (b_exec b)) e ruled reason stage (b_core b)).
Qed.

(** The registry has heard of the event. *)
Definition heard (e : LeaderTradeEvent) (b : Bot) : Bot :=
  (on_core (on_leaders (fun _ => note_event e.(e_leader) e.(e_slot) e.(e_observed_at))
              (exec_now b.(b_exec))) b).2.

(** How an event starts: refused at the door, or on to the claim. *)
Lemma process_cases e (b : Bot) :
  (exists reason stage, fails reason = false
     /\ ~ (event_validate (exec_now b.(b_exec)) e = Ok tt
           /\ is_Some (rule_for b.(b_core).(k_leaders) e.(e_leader)))
     /\ process_event sanitize digest_hex env cfg e b = reject e false reason stage b)
  \/ (exists rule status, event_validate (exec_now b.(b_exec)) e = Ok tt
       /\ rule_for b.(b_core).(k_leaders) e.(e_leader) = Some (rule, status)
       /\ process_event sanitize digest_hex env cfg e b
          = claim_and_order sanitize digest_hex env cfg e rule status (heard e b)).
Proof.
  unfold process_event, clock, gets, mbind, St_bind. cbn [fst snd].
  destruct (event_validate _ e) as [[]|d|] eqn:Hv.
  - destruct (rule_for _ _) as [[rule status]|] eqn:Hr.
    + right. by exists rule, status.
    + left. exists RrLeaderUnknown, CsValidated. split_and!; [done|by intros [_ [? ?]]|done].
  - left. exists RrInvalidEvent, CsReceived. split_and!; [done|by intros [? _]|done].
  - left. exists RrInvalidEvent, CsReceived. split_and!; [done|by intros [? _]|done].
Qed.

Lemma claim_seen e (b : Bot) :
  seen_key e b = true -> on_core (claim_event e) b = (false, b).
Proof.
  unfold seen_key, app_of, bounded_contains. intros Hx%bool_decide_eq_true.
  destruct b as [[s l o n st] x y g c i]. unfold on_core, zoom, claim_event, on_app, zoom, mark_copy_event_seen.
  cbn in *. unfold bounded_insert. rewrite decide_True by done. cbn. by destruct s.
Qed.

(** An event whose key is on record is refused, and only the registry hears of
    it. *)
Lemma seen_event_refused e (b : Bot) :
  seen_key e b = true ->
  let r := process_event sanitize digest_hex env cfg e b in
  r.1.(co_stage) = CsRejected /\ same_books b r.2.
Proof.
  intros Hseen. cbv zeta.
  destruct (process_cases e b) as [(reason & stage & Hf & _ & ->)|(rule & status & Hv & Hr & ->)].
  - destruct (reject_books e false reason stage b) as [Hb ->]. split; [|done]. cbn. by rewrite Hf.
  - unfold claim_and_order, mbind, St_bind. rewrite claim_seen by exact Hseen. cbn [fst snd negb].
    by destruct (reject_books e true RrDuplicateEvent CsLeaderResolved (heard e b)) as [Hb ->].
Qed.

(** The key of a claimed event is on record from then on. *)
Lemma claim_records e (b : Bot) :
  bounded_inv (app_of b).(st_config).(cf_max_dedup_entries) (app_of b).(st_seen_copy_events) ->
  seen_key e (on_core (claim_event e) b).2 = true.
Proof.
  unfold seen_key, app_of. intros Hi.
  transitivity (bounded_contains (dedup_key e)
    (bounded_insert (dedup_key e) (k_app (b_core b)).(st_config).(cf_max_dedup_entries)
       (k_app (b_core b)).(st_seen_copy_events)).2).
  - destruct b as [[s l o n st] x y g c i]. by destruct s.
  - by apply (bounded_set_ops (dedup_key e)) in Hi as (_ & _ & ? & _).
Qed.

(** Stages other than the claim leave the record of claimed events and its bound
    alone. *)
Definition record_of (b : Bot) : BoundedSet * Z := claim_record (app_of b).
Definition record_kept (b b' : Bot) : Prop := record_of b' = record_of b.

#[local] Instance record_kept_preorder : PreOrder record_kept.
Proof. split; [done|]. intros a b c Hab Hbc. unfold record_kept in *. by rewrite Hbc. Qed.

#[local] Instance record_kept_frame : EngineFrame sanitize digest_hex env cfg claim_record record_kept.
Proof. split; try apply _; try done. intros A m Hm b. exact (Hm (b_core b)). Qed.

Lemma kept_core {A} (m : St (CopyCore S) A) : core_keeps claim_record m -> keeps record_kept (on_core m).
Proof. intros Hm b. exact (Hm (b_core b)). Qed.

Lemma kept_reject e ruled reason stage : keeps record_kept (reject e ruled reason stage).
Proof. by eapply keeps_reject; apply _. Qed.
Lemma kept_decide e rule status : keeps record_kept (decide_event sanitize digest_hex env cfg e rule status).
Proof. by eapply keeps_decide; apply _. Qed.

(** The record after at most [n] more claims. *)
Inductive record_after : nat -> BoundedSet * Z -> BoundedSet * Z -> Prop :=
  | record_after_none n r : record_after n r r
  | record_after_one n r s cap key :
      record_after n r (s, cap) -> record_after (1 + n) r ((bounded_insert key cap s).2, cap).

Lemma record_after_more n m r r' : (n <= m)%nat -> record_after n r r' -> record_after m r r'.
Proof.
  intros Hle Hr. revert m Hle. induction Hr as [n r|n r s cap key _ IH]; intros m Hle; [constructor|].
  destruct m as [|m]; [lia|]. constructor. apply IH. lia.
Qed.

Lemma record_after_trans n m r1 r2 r3 : record_after n r1 r2 -> record_after m r2 r3 -> record_after (n + m) r1 r3.
Proof.
  intros H12 H23. induction H23 as [m r2|m r2 s cap key _ IH].
  - eapply record_after_more, H12. lia.
  - rewrite Nat.add_succ_r. constructor. by apply IH.
Qed.

(** A claimed key is still on record after fewer claims than the bound. *)
Lemma record_after_keeps n k key r r' :
  record_after n r r' -> bounded_inv r.2 r.1 -> member_within k key r.1 -> Z.of_nat (k + n) < Z.max r.2 1 ->
  r'.2 = r.2 /\ bounded_inv r.2 r'.1 /\ member_within (k + n) key r'.1.
Proof.
  induction 1 as [n r|n r s cap other _ IH]; intros Hinv Hm Hn.
  - split_and!; [done|done|]. destruct Hm as (l1 & l2 & Ho & Hl). exists l1, l2. split; [done|lia].
  - destruct IH as (Hcap & Hi & Hk); [done|done|lia|]. cbn [fst snd] in *. subst cap.
    split_and!; [done|by apply (bounded_set_ops other) in Hi as (? & _)|].
    rewrite Nat.add_succ_r. apply insert_keeps_member; [done|done|lia].
Qed.

(** A computation that makes at most [n] claims. *)
Definition claims {A} (n : nat) (m : St Bot A) : Prop := forall b, record_after n (record_of b) (record_of (m b).2).

Lemma claims_kept {A} n (m : St Bot A) : keeps record_kept m -> claims n m.
Proof. intros Hm b. rewrite (Hm b). constructor. Qed.

Lemma claims_bind {A B} n k (m : St Bot A) (f : A -> St Bot B) :
  claims n m -> (forall a, claims k (f a)) -> claims (n + k) (m ≫= f).
Proof. intros Hm Hf b. eapply record_after_trans; [apply Hm|apply Hf]. Qed.

Lemma claims_claim e : claims 1 (on_core (claim_event e)).
Proof.
  intros b. match goal with |- record_after _ ?r ?r' =>
    assert (r' = ((bounded_insert (dedup_key e) r.2 r.1).2, r.2)) as -> end.
  - destruct b as [[s l o n st] x y g c i]. by destruct s.
  - apply record_after_one, record_after_none.
Qed.

Lemma claims_process e : claims 1 (process_event sanitize digest_hex env cfg e).
Proof.
  intros b. destruct (process_cases e b) as [(reason & stage & _ & _ & ->)|(rule & status & _ & _ & ->)].
  - apply claims_kept, kept_reject.
  - change (record_of b) with (record_of (heard e b)). generalize (heard e b).
    change (claims (1 + 0) (claim_and_order sanitize digest_hex env cfg e rule status)).
    apply claims_bind; [apply claims_claim|]. intros fresh. apply claims_kept.
    destruct fresh; cbn [negb]; [|apply kept_reject].
    apply keeps_bind; [apply _|by intros b'|]. intros r.
    destruct (CopyOrdering.or_reject r); [apply kept_reject|apply kept_decide].
Qed.

(** What goes on between two deliveries: turns of the loop, with other trades and
    reconciliations, and sweeps. *)
Inductive Meanwhile : Type := MwTurn (w : Wake) | MwSweep (reason : Position -> ExitDecision -> text).

Fixpoint meanwhile (ws : list Meanwhile) : St Bot unit :=
  match ws with
  | [] => mret tt
  | MwTurn w :: ws => run_turn sanitize digest_hex env cfg w ;; meanwhile ws
  | MwSweep reason :: ws => sweep_once sanitize digest_hex env cfg reason ;; meanwhile ws
  end.

Fixpoint trades_in (ws : list Meanwhile) : nat :=
  match ws with
  | [] => O
  | MwTurn (WakeTrade _) :: ws => (1 + trades_in ws)%nat
  | _ :: ws => trades_in ws
  end.

Lemma claims_trade t : claims 1 (run_turn sanitize digest_hex env cfg (WakeTrade t)).
Proof.
  unfold run_turn. change 1%nat with (0 + 1)%nat.
  apply claims_bind; [by apply claims_kept; intros b|intros s].
  apply (claims_bind 0 1); [by apply claims_kept; intros b|intros now].
  destruct (_ || _); [by apply claims_kept, keeps_ret, _|].
  apply (claims_bind 0 1); [apply claims_kept, kept_core, core_sync|intros _].
  apply (claims_bind 0 1); [apply claims_kept, kept_core, core_event|intros e].
  apply (claims_bind 1 0); [apply claims_process|intros o]. apply claims_kept. unfold beat.
  apply keeps_bind; [apply _| |intros _].
  - destruct (decide _); [|by apply keeps_ret, _].
    intros b'. apply (frame_error claim_record).
  - intros b'. apply (frame_heartbeat claim_record).
Qed.

Lemma claims_meanwhile ws : claims (trades_in ws) (meanwhile ws).
Proof.
  induction ws as [|[[t|]|reason] ws IH]; cbn [meanwhile trades_in].
  - by apply claims_kept, keeps_ret, _.
  - apply (claims_bind 1); [apply claims_trade|done].
  - apply (claims_bind 0); [|done]. apply claims_kept. by eapply keeps_tick; apply _.
  - apply (claims_bind 0); [|done]. apply claims_kept. by eapply keeps_sweep_once; apply _.
Qed.

(** A fresh claim puts the key at the end of the record. *)
Lemma processed_last e rule status (b : Bot) :
  bounded_inv (record_of b).2 (record_of b).1 -> seen_key e b = false ->
  let b' := (claim_and_order sanitize digest_hex env cfg e rule status b).2 in
  (record_of b').2 = (record_of b).2 /\ bounded_inv (record_of b).2 (record_of b').1
  /\ member_within 0 (dedup_key e) (record_of b').1.
Proof.
  intros Hinv Hn. cbv zeta. unfold claim_and_order, mbind, St_bind.
  assert (Hc : record_of (on_core (claim_event e) b).2
    = ((bounded_insert (dedup_key e) (record_of b).2 (record_of b).1).2, (record_of b).2))
    by (destruct b as [[s l o n st] x y g c i]; by destruct s).
  destruct (on_core (claim_event e) b) as [fresh b1]. cbn [fst snd] in *.
  match goal with |- context [record_of ?x.2] => assert (record_of x.2 = record_of b1) as -> end.
  - destruct fresh; cbn [negb]; [|apply kept_reject].
    assert (Ho : record_of (on_core (on_ordering (observe e)) b1).2 = record_of b1) by done.
    destruct (on_core (on_ordering (observe e)) b1) as [r b2]. cbn [fst snd] in *. rewrite <- Ho.
    destruct (CopyOrdering.or_reject r); [apply kept_reject|apply kept_decide].
  - rewrite Hc. cbn [fst snd]. split_and!; [done|by apply (bounded_set_ops (dedup_key e)) in Hinv as (? & _)|].
    by apply fresh_insert_last.
Qed.

End Safety.
