(* ===== verification/CopyEngineOutcome.v ===== *)
(** What the outcome of an event stands for.  An event that is refused has
    traded nothing; one that opened a position has passed every gate of the
    pipeline, in the state the gate was asked in; and whatever the code says of
    graduated tokens, only the bonding curve is ever traded. *)
From stdpp Require Import prelude countable gmap list strings pretty.
From Stdlib Require Import ZArith Lia.
From S2P Require Import Prelude.
From S2P Require Import BotCore.
From S2P Require Import Text.
From S2P Require Import Float64.
From S2P Require Import Models.
From S2P Require Import BotConfig.
From S2P Require Import CopyLeader.
From S2P Require Import Ownership.
From S2P Require Import LedgerEvent.
From S2P Require Import Ledger.
From S2P Require Import ExecLedger.
From S2P Require Import ExecLedgerCorrect.
From S2P Require Import AppState.
From S2P Require Import AppStateCorrect.
From S2P Require Import GlobalRisk.
From S2P Require Import GlobalRiskCorrect.
From S2P Require Import Risk.
From S2P Require Import CopyEvent.
From S2P Require Import FeePolicy.
From S2P Require Import RpcPool.
From S2P Require Import Executor.
From S2P Require Import RpcPoolCorrect.
From S2P Require Import ExecutorCorrect.
From S2P Require Import ExecutorSafety.
From S2P Require Import CopyPolicy.
From S2P Require Import CopyOrdering.
From S2P Require Import PumpCurve.
From S2P Require Import PumpLayout.
From S2P Require Import CopyStore.
From S2P Require Import CopyRecovery.
From S2P Require Import CopyBot.
From S2P Require Import CopyBotCorrect.
From S2P Require Import CopyEngine.
From S2P Require Import CopyEngineFrame.
From S2P Require Import CopyEngineSafety.

#[local] Open Scope Z_scope.

Section Outcome.
Context {S W LSt RSt CSt K : Type} `{CopyStore S} `{Network W} `{Market W} `{LedgerStore LSt}
  `{RiskStore RSt} `{ClaimStore CSt} `{HashOrder} {libs : LedgerLibs} `{SdkKeys}.
Context (sanitize : text -> text) (digest_hex : list Z -> text).
Context (env : CopyEnv K) (cfg : CopySettings).

Abbreviation Bot := (CopyBot S W LSt RSt CSt K).

(** ** The routes *)

(** The buy and the order of a sale, with no route but the curve. *)
Definition curve_buy (e : LeaderTradeEvent) (rule : CopyWallet) (sized pct : f64) (d : RiskDecision)
    (permit : Permit) : St Bot (BotResult BuyReport) :=
  attempt (mint_key e.(e_mint)) (fun mint =>
  attempt (load_context env mint) (fun ctx =>
  buy_on_curve sanitize digest_hex env cfg e rule ctx sized pct d permit)).

Definition curve_sale (p : Position) (sell_raw : Z) (permit : Permit)
    : St Bot (BotResult (Proceeds * text)) :=
  attempt (mint_key p.(p_symbol)) (fun mint =>
  attempt (load_context env mint) (fun ctx =>
  let id := exit_intent_id p sell_raw ExitCurve in
  attempt (fence_permit permit) (fun _ =>
  rec ← exit_intent env p.(p_symbol) (lit (pretty sell_raw));
  attempt (sell_on_curve sanitize digest_hex env cfg ctx sell_raw rec id) (fun r => mret (Ok (r, id)))))).

Lemma loaded_is_live mint (b : Bot) ctx :
  (load_context env mint b).1 = Ok ctx -> ctx.(px_curve).(bc_complete) = false.
Proof. intros Hl. by destruct (load_only_live _ _ _ _ _ Hl) as [? _]. Qed.

Lemma attempt_ext {A B} (m : St Bot (BotResult A)) (k k' : A -> St Bot (BotResult B)) b :
  (forall a, (m b).1 = Ok a -> k a (m b).2 = k' a (m b).2) -> attempt m k b = attempt m k' b.
Proof. intros Hk. unfold attempt, mbind, St_bind. destruct (m b) as [[a|x|] b']; [by apply Hk|done..]. Qed.

Lemma buy_curve e rule sized pct bps d permit (b : Bot) :
  buy sanitize digest_hex env cfg e rule sized pct bps d permit b = curve_buy e rule sized pct d permit b.
Proof.
  apply attempt_ext; intros mint _. apply attempt_ext; intros ctx Hl%loaded_is_live. by rewrite Hl.
Qed.

(** Only the bonding curve is ever traded.  The loader refuses the context of a
    token that has graduated, so the branches of the buy and of the sale that
    go to the aggregator are never taken: with or without them, and whatever
    the fallback is set to, the code behaves the same on every input, error
    results included. *)
Theorem only_the_curve_trades (b : Bot) :
  (forall e rule sized pct bps d permit,
     buy sanitize digest_hex env cfg e rule sized pct bps d permit b
     = curve_buy e rule sized pct d permit b)
  /\ forall p sell_raw permit,
       sell_order sanitize digest_hex env cfg p sell_raw permit b = curve_sale p sell_raw permit b.
Proof.
  split; [intros; apply buy_curve|]. intros p raw permit.
  apply attempt_ext; intros mint _. apply attempt_ext; intros ctx Hl%loaded_is_live.
  unfold exit_route. by rewrite Hl.
Qed.
(** ** Refused events *)

(** What a trade would show: the positions, the trades, the results of the
    day, the wire, the ledger, the intents; and the executor is the one it was. *)
Definition app_books (s : AppState) : gmap text Position * list Trade * DailyStats :=
  (s.(st_positions), s.(st_trades), s.(st_daily)).

Definition untraded (b b' : Bot) : Prop :=
  app_books (app_of b') = app_books (app_of b) /\ trace_of b' = trace_of b
  /\ ledger_of b' = ledger_of b /\ b'.(b_executor) = b.(b_executor) /\ b'.(b_intents) = b.(b_intents).

#[local] Instance untraded_preorder : PreOrder untraded.
Proof.
  split; [done|]. intros a b c (?&?&?&?&?) (G1&G2&G3&G4&G5). unfold untraded.
  by rewrite G1, G2, G3, G4, G5.
Qed.

(** A stage that trades only in an event it does not refuse. *)
Definition refuses_clean (m : St Bot CopyOutcome) : Prop :=
  forall b, (m b).1.(co_stage) = CsRejected -> untraded b (m b).2.

Lemma clean_keeps (m : St Bot CopyOutcome) : keeps untraded m -> refuses_clean m.
Proof. by intros Hm b _. Qed.

Lemma clean_bind {A} (m : St Bot A) (k : A -> St Bot CopyOutcome) :
  keeps untraded m -> (forall a, refuses_clean (k a)) -> refuses_clean (m ≫= k).
Proof. intros Hm Hk b Hs. etrans; [apply Hm|by apply Hk]. Qed.

(** Past the order no event is refused. *)
Definition never_refuses (m : St Bot CopyOutcome) : Prop := forall b, (m b).1.(co_stage) <> CsRejected.

Lemma never_clean m : never_refuses m -> refuses_clean m.
Proof. intros Hm b Hs. by destruct (Hm b). Qed.

Lemma never_bind {A} (m : St Bot A) (k : A -> St Bot CopyOutcome) :
  (forall a, never_refuses (k a)) -> never_refuses (m ≫= k).
Proof. intros Hk b. apply Hk. Qed.

Lemma never_failed e ruled reason stage : fails reason = true -> never_refuses (reject e ruled reason stage).
Proof. intros Hf b. by destruct (reject_books e ruled reason stage b) as [_ ->]; cbn; rewrite Hf. Qed.

Lemma never_conclude e o : o.(co_stage) <> CsRejected -> never_refuses (conclude_event e o).
Proof. by intros Ho b. Qed.

Lemma never_execute e rule plan requested d permit :
  never_refuses (execute_entry sanitize digest_hex env cfg e rule plan requested d permit).
Proof.
  apply never_bind. intros [r|x|].
  - destruct (br_filled r); cbn [negb].
    + do 3 (apply never_bind; intros ?). apply never_conclude. cbn. by destruct (br_ambiguous r).
    + apply never_bind; intros ?. intros b'.
      exact (never_failed e true RrExecutionFailed CsSubmitted eq_refl b').
  - do 2 (apply never_bind; intros ?). by apply never_failed.
  - do 2 (apply never_bind; intros ?). by apply never_failed.
Qed.

Lemma never_mirrored e plan p permit :
  never_refuses (r ← sell_position sanitize digest_hex env cfg p plan.(xp_fraction) whale_exit None permit;
    match r.1 with
    | Ok _ =>
        s ← the_state;
        now ← clock;
        (if is_none (find_open Copy e.(e_mint) s)
         then on_core (on_store (close_link now p.(p_id) CLOSED (Some e.(e_event_id))
                                   (Some mirrored_note))) ;; mret tt
         else mret tt) ;;
        conclude_event e (exit_outcome e p)
    | _ =>
        finish_permit false r.2 ;;
        reject e true RrExecutionFailed CsSubmitted
    end).
Proof.
  apply never_bind. intros [[u|x|] p']; cbn [fst snd].
  - do 3 (apply never_bind; intros ?). by apply never_conclude.
  - apply never_bind; intros ?. by apply never_failed.
  - apply never_bind; intros ?. by apply never_failed.
Qed.

(** The stages before an order is placed. *)
Lemma untraded_core {A} (m : St (CopyCore S) A) : core_keeps app_books m -> keeps untraded (on_core m).
Proof. intros Hm b. split; [exact (Hm (b_core b))|done]. Qed.

Lemma untraded_wire {A} (m : St (Wire W) A) : silent m -> keeps untraded (on_exec (on_wire m)).
Proof. intros Hm b. split_and!; try done. exact (unsent_silent m Hm (b_exec b)). Qed.

Lemma untraded_count (f : Z -> AppState -> AppState) :
  (forall now s, app_books (f now s) = app_books s) -> keeps untraded (state_do f).
Proof. intros Hf b. split; [apply Hf|done]. Qed.

Lemma books_bump now m f s : app_books (bump now m f s) = app_books s.
Proof. by destruct s. Qed.

Lemma untraded_reject e ruled reason stage : keeps untraded (reject e ruled reason stage).
Proof.
  intros b. destruct (reject_books e ruled reason stage b) as [(Ha & Hx & He & _ & _ & Hi) _].
  unfold untraded, trace_of, ledger_of. by rewrite Ha, Hx, He, Hi.
Qed.

Lemma untraded_claims {A} (f : CSt -> A * CSt) : keeps untraded (on_claims f).
Proof. by intros b. Qed.

Lemma untraded_global {A} (f : GlobalRiskEngine LSt RSt -> A * GlobalRiskEngine LSt RSt) :
  keeps untraded (on_global f).
Proof. by intros b. Qed.

Lemma untraded_available : keeps untraded (available_sol env).
Proof.
  unfold available_sol. apply keeps_bind; [apply _|by apply keeps_gets, _|]. intros s.
  destruct (_ && _); [by apply keeps_ret, _|].
  apply keeps_bind; [apply _|apply untraded_wire, silent_on_net|]. intros r. by apply keeps_ret, _.
Qed.

Ltac clean_step :=
  match goal with
  | |- refuses_clean (mbind _ _) => apply clean_bind; [|intros ?]
  | |- refuses_clean (reject _ _ _ _) => apply clean_keeps, untraded_reject
  | |- refuses_clean (mret _) => apply clean_keeps, keeps_ret, _
  | |- refuses_clean (match ?x with _ => _ end) => destruct x
  | |- refuses_clean (let _ := _ in _) => cbv zeta
  | |- keeps untraded (mbind _ _) => apply keeps_bind; [apply _| |intros ?]
  | |- keeps untraded (mret _) => apply keeps_ret, _
  | |- keeps untraded (gets _) => apply keeps_gets, _
  | |- keeps untraded clock => apply keeps_gets, _
  | |- keeps untraded the_state => apply keeps_gets, _
  | |- keeps untraded (on_claims _) => apply untraded_claims
  | |- keeps untraded (on_global _) => apply untraded_global
  | |- keeps untraded (state_do _) => apply untraded_count; intros; apply books_bump
  | |- keeps untraded (on_core _) => apply untraded_core
  | |- core_keeps _ (on_leaders _ _) => apply core_leaders
  | |- core_keeps _ (on_ordering _) => apply core_ordering
  end.
Ltac clean := repeat clean_step.

Lemma untraded_acquire id kind strategy symbol : keeps untraded (acquire_permit env id kind strategy symbol).
Proof. unfold acquire_permit. clean. Qed.

Lemma clean_mirror_exit e plan p : refuses_clean (mirror_exit sanitize digest_hex env cfg e plan p).
Proof.
  unfold mirror_exit. apply clean_bind; [apply untraded_acquire|]. intros [permit|x|]; [|clean..].
  destruct (negb (proceed permit)); [clean|]. apply never_clean, never_mirrored.
Qed.

Lemma clean_claim_entry e rule plan requested d :
  refuses_clean (claim_entry sanitize digest_hex env cfg e rule plan requested d).
Proof.
  unfold claim_entry. apply clean_bind; [apply untraded_acquire|]. intros [permit|x|]; [|clean..].
  destruct (negb (proceed permit)); [clean|]. apply never_clean, never_execute.
Qed.

(** The reservation is given back after the verdict. *)
Lemma clean_drop (m : St Bot CopyOutcome) d :
  refuses_clean m -> refuses_clean (o ← m; drop_decision d ;; mret o).
Proof. intros Hm b Hs. exact (Hm b Hs). Qed.

Lemma clean_enter e rule plan : refuses_clean (enter sanitize digest_hex env cfg e rule plan).
Proof.
  unfold enter, copy_risk, gate_entry, risk_decision. apply clean_bind; [apply untraded_available|].
  intros [available|x|]; [|clean..]. destruct (size_mirror _ _ _ _); [|clean]. cbv zeta.
  apply clean_bind; [clean|]. intros [u|c|]; [|clean..]. apply clean_bind; [clean|]. intros d.
  apply clean_drop. destruct (negb (allowed d)); clean. apply clean_claim_entry.
Qed.

(** C12: An event that is refused, by whichever gate and in whatever state, has
    traded nothing: no position, no trade and no result of the day has changed,
    no execution is on record and nothing is on the wire that was not before,
    no intent was journaled and the executor is the one it was. *)
Theorem refused_event_trades_nothing e : refuses_clean (process_event sanitize digest_hex env cfg e).
Proof.
  unfold process_event, claim_and_order, decide_event. clean.
  all: first [apply clean_mirror_exit|apply clean_enter|idtac].
  unfold claim_event. apply core_app. by intros [].
Qed.
(** ** Opened positions *)

Definition held (b : Bot) : gmap text Position := (app_of b).(st_positions).
Definition held_kept (b b' : Bot) : Prop := held b' = held b.

#[local] Instance held_kept_preorder : PreOrder held_kept.
Proof. split; [done|]. intros a b c Hab Hbc. unfold held_kept in *. by rewrite Hbc. Qed.

Lemma held_state {A} (f : Z -> AppState -> A * AppState) :
  (forall now s, (f now s).2.(st_positions) = s.(st_positions)) -> keeps held_kept (state_op f).
Proof. intros Hf b. apply (Hf (exec_now (b_exec b))). Qed.

Lemma held_run rec req : keeps held_kept (run_request sanitize digest_hex env rec req).
Proof.
  intros b. unfold held_kept, held, app_of.
  destruct (journaled_exec env rec (run sanitize digest_hex (b_executor b) (tenant_stamp env req)) b)
    as (_ & Hc & _).
  change (run_request _ _ _ _ _ b) with
    (journaled env rec (run sanitize digest_hex (b_executor b) (tenant_stamp env req)) b).
  by rewrite Hc.
Qed.

Lemma held_attempt {A B} (m : St Bot (BotResult A)) (k : A -> St Bot (BotResult B)) b b0 y :
  (attempt m k b).1 = Ok y -> keeps held_kept m -> held b = held b0 ->
  exists a b1, (m b).1 = Ok a /\ attempt m k b = k a b1 /\ held b1 = held b0.
Proof.
  unfold attempt, mbind, St_bind. intros Hy Hm Hb. specialize (Hm b).
  destruct (m b) as [[a|x|] b1]; cbn in *; [|done..]. exists a, b1. split_and!; [done..|by rewrite Hm].
Qed.

(** A reported fill sets one position, the leader's mint under the id that is
    reported, and leaves the others. *)
Definition opened_one (e : LeaderTradeEvent) (r : BuyReport) (before after : gmap text Position) : Prop :=
  exists id p, r.(br_position_id) = Some id /\ after = <[id := p]> before
    /\ p.(p_id) = id /\ p.(p_symbol) = e.(e_mint) /\ p.(p_copied_wallet) = Some e.(e_leader)
    /\ p.(p_source) = SrcCopy.

Lemma held_next_id prefix : keeps held_kept (state_op (fun _ => next_id prefix)).
Proof. apply held_state. by intros now []. Qed.

Lemma held_trade t : keeps held_kept (state_do (fun now => record_trade now t)).
Proof. apply held_state. by intros now []. Qed.

Lemma held_bump (f : Z -> AppState -> AppState) :
  (forall now s, exists g, f now s = bump now Copy g s) -> keeps held_kept (state_do f).
Proof. intros Hf. apply held_state. intros now s. cbn. destruct (Hf now s) as [g ->]. by destruct s. Qed.

Lemma apply_buy_names now qty price spent p :
  let p' := apply_buy now qty price spent p in
  p'.(p_id) = p.(p_id) /\ p'.(p_symbol) = p.(p_symbol) /\ p'.(p_source) = p.(p_source).
Proof. unfold apply_buy. destruct (fill_refused _ _ _ _); [done|]. cbv zeta. by destruct (_ || _). Qed.

Lemma mirrored_fields now id e venue mode cost qty price sg ms risk d :
  let p := mirrored_position now id e venue mode cost qty price sg ms risk d in
  p.(p_id) = id /\ p.(p_symbol) = e.(e_mint) /\ p.(p_copied_wallet) = Some e.(e_leader)
  /\ p.(p_source) = SrcCopy.
Proof.
  destruct (apply_buy_names now qty price cost (Position_new now id SrcCopy venue mode e.(e_mint)
    (display_of e) (lit "SOL"))) as (Hi & Hs & Hk).
  unfold mirrored_position, default_levels. revert Hi Hs Hk.
  generalize (apply_buy now qty price cost (Position_new now id SrcCopy venue mode e.(e_mint)
    (display_of e) (lit "SOL"))). by destruct (fltb fzero price).
Qed.

Lemma held_copied leader mint : keeps held_kept (state_do (fun now => mark_copied now leader mint)).
Proof. apply held_state. by intros now []. Qed.

Lemma held_submit e : keeps held_kept (submit_event env e).
Proof. by intros b. Qed.

Lemma held_gets {A} (f : Bot -> A) : keeps held_kept (gets f).
Proof. by intros b. Qed.

Lemma held_hoare {A} h (m : St Bot A) :
  keeps held_kept m -> hoare (fun b => held b = h) m (fun _ b => held b = h).
Proof. intros Hm b <-. apply Hm. Qed.

Lemma held_upsert h p :
  hoare (fun b => held b = h) (state_do (fun _ => upsert_position p))
    (fun _ b => held b = <[p.(p_id) := p]> h).
Proof.
  intros b <-. by destruct b as [[[] l o n st] x y g c i].
Qed.

Ltac held_step :=
  first [exact (held_gets _) | apply held_trade | apply held_next_id | apply held_submit
        | apply held_copied | apply held_bump; by eexists].

Lemma record_buy_opens e rule venue x amount sol_in ms d ambiguous b r :
  (record_buy env cfg e rule venue x amount sol_in ms d ambiguous b).1 = Ok r -> r.(br_filled) = true ->
  opened_one e r (held b) (held (record_buy env cfg e rule venue x amount sol_in ms d ambiguous b).2)
  /\ r.(br_ambiguous) = ambiguous.
Proof.
  unfold record_buy. destruct (status_filled _); cbn [negb]; [|by intros [= <-]].
  intros [= <-] _. split; [|done].
  match goal with |- opened_one _ _ _ (held (?m b).2) =>
    assert (hoare (fun b' => held b' = held b) m (fun r b' => exists now id cost price risk mode sg,
      let p := mirrored_position now id e venue mode cost (from_raw_amount amount 6) price sg ms risk d in
      r = Ok (mkBuyReport x.(r_intent_id) (nonempty x.(r_signature)) true ambiguous (Some id)
                x.(r_status) (lamports_to_sol sol_in) (from_raw_amount amount 6))
      /\ held b' = <[p.(p_id) := p]> (held b))) as Hm end.
  { do 7 (eapply hoare_skip; [apply held_hoare; held_step|intros ?]).
    cbv zeta. eapply hoare_seq; [apply held_upsert|].
    do 2 (eapply hoare_seq; [apply held_hoare; held_step|]).
    apply hoare_done. intros b' Hb. do 7 eexists. split; [reflexivity|exact Hb]. }
  destruct (Hm b eq_refl) as (now & id & cost & price & risk & mode & sg & Hr & Hb). clear Hm.
  destruct (mirrored_fields now id e venue mode cost (from_raw_amount amount 6) price sg ms risk d)
    as (Hi & Hs & Hw & Hk). rewrite Hi in Hb.
  exists id. eexists. split_and!; [|exact Hb|done..].
  injection Hr as Hid. exact (f_equal Some Hid).
Qed.

(** The stages of a buy before its booking leave the positions alone. *)
Lemma held_exec {A} (m : St (Exec W) A) : keeps held_kept (on_exec m).
Proof. by intros b. Qed.

Lemma held_intent symbol side qty : keeps held_kept (new_intent env symbol side qty).
Proof. apply held_state. by intros now []. Qed.

Lemma held_load mint : keeps held_kept (load_context env mint).
Proof. by intros b. Qed.

Lemma held_fence p : keeps held_kept (fence_permit p).
Proof. by intros b. Qed.

Lemma held_finish ambiguous p : keeps held_kept (finish_permit ambiguous p).
Proof. by intros b. Qed.

Lemma held_lift {A} (r : BotResult A) : keeps held_kept (lift r).
Proof. by intros b. Qed.

(** A computation whose reported fill opens one position, and nothing else. *)
Definition opens_one (e : LeaderTradeEvent) (m : St Bot (BotResult BuyReport)) : Prop :=
  forall b r, (m b).1 = Ok r -> r.(br_filled) = true -> opened_one e r (held b) (held (m b).2).

Lemma opens_bind e {A} (m : St Bot A) (k : A -> St Bot (BotResult BuyReport)) :
  keeps held_kept m -> (forall a, opens_one e (k a)) -> opens_one e (m ≫= k).
Proof.
  intros Hm Hk b r Hr Hf. pose proof (Hk (m b).1 (m b).2 r Hr Hf) as Ho. by rewrite (Hm b) in Ho.
Qed.

Lemma opens_attempt e {A} (m : St Bot (BotResult A)) (k : A -> St Bot (BotResult BuyReport)) :
  keeps held_kept m -> (forall a, opens_one e (k a)) -> opens_one e (attempt m k).
Proof.
  intros Hm Hk. apply opens_bind; [done|]. by intros [a|x|]; [apply Hk|intros b r..].
Qed.

Lemma curve_buy_opens e rule ctx sized pct d permit :
  opens_one e (buy_on_curve sanitize digest_hex env cfg e rule ctx sized pct d permit).
Proof.
  unfold buy_on_curve. cbv zeta. do 4 (apply opens_attempt; [apply held_lift|intros ?]).
  apply opens_bind; [by intros b|intros _]. apply opens_attempt; [apply held_fence|intros _].
  apply opens_bind; [by intros b|intros started].
  apply opens_bind; [apply held_intent|intros rec]. apply opens_attempt; [apply held_run|intros x].
  apply opens_bind; [by intros b|intros finished].
  apply opens_bind; [apply held_finish|intros p']. intros b r Hr Hf.
  exact (proj1 (record_buy_opens _ _ _ _ _ _ _ _ _ _ _ Hr Hf)).
Qed.

Lemma buy_opens e rule sized pct bps d permit :
  opens_one e (buy sanitize digest_hex env cfg e rule sized pct bps d permit).
Proof.
  intros b. rewrite buy_curve. revert b. change (opens_one e (curve_buy e rule sized pct d permit)).
  do 2 (apply opens_attempt; [by intros b|intros ?]). apply curve_buy_opens.
Qed.

(** ** The gates of an entry *)

Definition opened (o : CopyOutcome) : Prop := opened_exposure o.(co_stage) = true.

Definition entered_position (e : LeaderTradeEvent) (o : CopyOutcome) (b b' : Bot) : Prop :=
  exists id p, o.(co_position_id) = Some id /\ held b' = <[id := p]> (held b)
    /\ p.(p_id) = id /\ p.(p_symbol) = e.(e_mint) /\ p.(p_copied_wallet) = Some e.(e_leader)
    /\ p.(p_source) = SrcCopy.

Lemma refused_not_opened e ruled reason stage (b : Bot) : ~ opened (reject e ruled reason stage b).1.
Proof.
  destruct (reject_books e ruled reason stage b) as [_ ->]. unfold opened. cbn. by destruct (fails reason).
Qed.

Lemma held_reject e ruled reason stage : keeps held_kept (reject e ruled reason stage).
Proof.
  intros b. destruct (reject_books e ruled reason stage b) as [[Ha _] _].
  unfold held_kept, held. by rewrite Ha.
Qed.

Lemma held_core {A} (m : St (CopyCore S) A) : core_keeps st_positions m -> keeps held_kept (on_core m).
Proof. intros Hm b. exact (Hm (b_core b)). Qed.

Lemma after_bind {A B} (m : St Bot A) (k : A -> St Bot B) b : (m ≫= k) b = k (m b).1 (m b).2.
Proof. done. Qed.

Lemma entered_result e requested sized r (b : Bot) :
  let x := entered e requested sized r b in
  x.1 = opened_outcome e requested sized r /\ held x.2 = held b.
Proof.
  split; [by unfold entered; destruct (br_position_id r)|]. revert b.
  change (keeps held_kept (entered e requested sized r)).
  unfold entered. apply keeps_bind; [apply _|by intros b|intros now].
  apply keeps_bind; [apply _|by destruct (br_position_id r)|intros _].
  apply keeps_bind; [apply _|by intros b|intros _].
  apply keeps_bind; [apply _|by intros b|intros now']. apply held_core, core_finish.
Qed.

Lemma execute_opened e rule plan requested d permit (b : Bot) :
  let x := execute_entry sanitize digest_hex env cfg e rule plan requested d permit b in
  opened x.1 -> entered_position e x.1 b x.2.
Proof.
  unfold execute_entry. cbv zeta. rewrite after_bind.
  pose proof (buy_opens e rule (rd_sized_quote d) (en_slippage_pct plan) (bps_of_pct (en_slippage_pct plan))
                d permit b) as Hbuy.
  destruct (buy _ _ _ _ _ _ _ _ _ _ _ b) as [[r|x|] b1]; cbn [fst snd] in *.
  - specialize (Hbuy r eq_refl). destruct (br_filled r); cbn [negb]; intros Ho.
    + destruct (entered_result e requested (rd_sized_quote d) r b1) as [Ho' Hh]. rewrite Ho'.
      destruct Hbuy as (id & p & Hid & Hp & Hn); [done|]. exists id, p. by rewrite Hh.
    + by destruct (refused_not_opened e true RrExecutionFailed CsSubmitted
        (state_do (fun now => note_failed_entry now (e_mint e)) b1).2).
  - intros Ho. by apply refused_not_opened in Ho.
  - intros Ho. by apply refused_not_opened in Ho.
Qed.

(** The state in which the policy is asked: the event is claimed and its place
    in the leader's order is noted. *)
Definition ordered (e : LeaderTradeEvent) (b : Bot) : Bot :=
  (on_core (on_ordering (observe e)) (on_core (claim_event e) (heard e b)).2).2.

(** The gates of an entry after the policy, each in the state it is asked in. *)
Inductive entry_gates (e : LeaderTradeEvent) (rule : CopyWallet) (plan : EntryPlan) (b : Bot) : Prop :=
  | gates_passed (available : f64) (size : SizeDecision) (permit : Permit) :
      let asked := (available_sol env b).2 in
      (available_sol env b).1 = Ok available ->
      size_mirror rule cfg.(cs_copy) e.(e_sol_amount) (Some available) = inl size ->
      (copy_risk env e rule size.(sd_requested_sol) asked).1 = Ok tt ->
      allowed (risk_decision env (entry_request env e plan size.(sd_requested_sol) available) asked).1 = true ->
      (permit_acquire (exec_now asked.(b_exec)) env.(ce_ownership)
         (request (lit "copy:" ++ e.(e_leader) ++ lit ":" ++ e.(e_mint)) (lit "entry") (lit "copy")
            (lit "mirror") e.(e_mint)) b.(b_claims)).1 = Ok permit ->
      proceed permit = true ->
      entry_gates e rule plan b.

Lemma claim_opened e rule plan requested d (b : Bot) :
  let x := claim_entry sanitize digest_hex env cfg e rule plan requested d b in
  opened x.1 ->
  (exists permit, (permit_acquire (exec_now b.(b_exec)) env.(ce_ownership)
     (request (lit "copy:" ++ e.(e_leader) ++ lit ":" ++ e.(e_mint)) (lit "entry") (lit "copy")
        (lit "mirror") e.(e_mint)) b.(b_claims)).1 = Ok permit /\ proceed permit = true)
  /\ entered_position e x.1 b x.2.
Proof.
  unfold claim_entry. cbv zeta. rewrite after_bind.
  assert (Ha : forall i k s y, (acquire_permit env i k s y b).1 =
    (permit_acquire (exec_now (b_exec b)) (ce_ownership env) (request i k (lit "copy") s y) (b_claims b)).1
    /\ held (acquire_permit env i k s y b).2 = held b) by done.
  specialize (Ha (lit "copy:" ++ e_leader e ++ lit ":" ++ e_mint e) (lit "entry") (lit "mirror") (e_mint e)).
  destruct (acquire_permit _ _ _ _ _ b) as [[permit|x|] b1]; cbn [fst snd] in *; destruct Ha as [Ha Hh];
    [|intros Ho; by apply refused_not_opened in Ho..].
  destruct (proceed permit) eqn:Hp; cbn [negb]; [|intros Ho; by apply refused_not_opened in Ho].
  intros Ho. split; [by exists permit|].
  apply execute_opened in Ho as (id & p & Hid & Hpos & Hn). exists id, p. by rewrite <- Hh.
Qed.

Lemma gate_opened e rule plan requested available (b : Bot) :
  let x := gate_entry sanitize digest_hex env cfg e rule plan requested available b in
  opened x.1 ->
  allowed (risk_decision env (entry_request env e plan requested available) b).1 = true
  /\ (exists permit, (permit_acquire (exec_now b.(b_exec)) env.(ce_ownership)
       (request (lit "copy:" ++ e.(e_leader) ++ lit ":" ++ e.(e_mint)) (lit "entry") (lit "copy")
          (lit "mirror") e.(e_mint)) b.(b_claims)).1 = Ok permit /\ proceed permit = true)
  /\ entered_position e x.1 b x.2.
Proof.
  unfold gate_entry. cbv zeta. rewrite after_bind.
  set (b1 := (risk_decision _ _ b).2). set (d := (risk_decision _ _ b).1).
  destruct (allowed d); cbn [negb].
  2:{ intros Ho. destruct (refused_not_opened e true (from_risk_code (rd_code d)) CsSized
        (state_do (fun now => inc_risk_rejected now Copy) b1).2 Ho). }
  set (b2 := (state_do (fun now => inc_signals now Copy) b1).2).
  assert (Hh : held b2 = held b).
  { exact (held_bump (fun now => inc_signals now Copy) (fun now s => ex_intro _ _ eq_refl) b1). }
  intros Ho. pose proof (claim_opened e rule plan requested d b2 Ho) as [Hp (id & p & Hid & Hpos & Hn)].
  split; [done|]. split; [exact Hp|]. exists id, p. split; [exact Hid|]. split; [|exact Hn].
  rewrite <- Hh. exact Hpos.
Qed.

Lemma enter_opened e rule plan (b : Bot) :
  let x := enter sanitize digest_hex env cfg e rule plan b in
  opened x.1 -> entry_gates e rule plan b /\ entered_position e x.1 b x.2.
Proof.
  unfold enter. cbv zeta. rewrite after_bind.
  assert (Hk : untraded b (available_sol env b).2 /\ b_claims (available_sol env b).2 = b_claims b).
  { split; [apply untraded_available|]. unfold available_sol. rewrite !after_bind. by destruct (_ && _). }
  destruct Hk as [[Hk _] Hc].
  destruct ((available_sol env b).1) as [available|x|] eqn:Hav;
    [|intros Ho; by apply refused_not_opened in Ho..].
  destruct (size_mirror _ _ _ _) as [size|err] eqn:Hsz; [|intros Ho; by apply refused_not_opened in Ho].
  set (b1 := (available_sol env b).2) in *. cbv zeta. rewrite !after_bind.
  change (copy_risk env e rule (sd_requested_sol size) b1).2 with b1.
  destruct ((copy_risk env e rule (sd_requested_sol size) b1).1) as [[]|c|] eqn:Hcr;
    [|intros Ho; by apply refused_not_opened in Ho..].
  intros Ho. pose proof (gate_opened e rule plan _ available b1 Ho)
    as (Hd & (permit & Hp & Hm) & (id & p & Hid & Hpos & Hn)). rewrite Hc in Hp.
  split; [by eapply gates_passed|]. exists id, p. split; [exact Hid|]. split; [|exact Hn].
  rewrite Hpos. f_equal. exact (f_equal (fun x => x.1.1) Hk).
Qed.

Lemma mirror_exit_not_opened e plan p (b : Bot) :
  ~ opened (mirror_exit sanitize digest_hex env cfg e plan p b).1.
Proof.
  unfold mirror_exit. rewrite after_bind.
  destruct ((acquire_permit _ _ _ _ _ b).1) as [permit|x|]; [|apply refused_not_opened..].
  destruct (negb (proceed permit)); [apply refused_not_opened|]. rewrite after_bind.
  set (r := sell_position _ _ _ _ _ _ _ _ _ _). destruct (r.1.1); rewrite !after_bind;
    [|apply refused_not_opened..]. done.
Qed.

Lemma held_ordered e (b : Bot) : held (ordered e b) = held b.
Proof. by destruct b as [[[] l o n st] x y g c i]. Qed.

(** C8: A position is opened only through every gate.  When the outcome of an
    event says a fill, known or ambiguous, the event was valid, came from a
    followed leader, had not been claimed before, was in order, was accepted by
    the policy as an entry, had a size within the balance, passed the copy
    limits and the risk engine, and was this replica's to execute: each gate
    asked in the state it then found.  And the positions are those before with
    one entry set, the leader's mint, under the id the outcome reports; that id is
    not always a new one ([restart_reuses_position_id]). *)
Theorem opened_position_passed_the_gates e (b : Bot)
  (Hopened : opened (process_event sanitize digest_hex env cfg e b).1) :
  let x := process_event sanitize digest_hex env cfg e b in
  let b1 := ordered e b in
  event_validate (exec_now b.(b_exec)) e = Ok tt
  /\ seen_key e b = false
  /\ CopyOrdering.or_reject (observe e b.(b_core).(k_ordering)).1 = false
  /\ (exists rule status plan,
        rule_for b.(b_core).(k_leaders) e.(e_leader) = Some (rule, status)
        /\ CopyPolicy.evaluate e (Some (rule, status)) cfg.(cs_copy)
             (policy_context (exec_now b1.(b_exec)) e.(e_mint) (app_of b1)) = Enter plan
        /\ entry_gates e rule plan b1)
  /\ entered_position e x.1 b x.2.
Proof.
  cbv zeta. revert Hopened.
  destruct (process_cases sanitize digest_hex env cfg e b)
    as [(reason & stage & _ & _ & ->)|(rule & status & Hv & Hr & ->)];
    [intros Ho; by apply refused_not_opened in Ho|].
  unfold claim_and_order. rewrite after_bind.
  destruct (on_core (claim_event e) (heard e b)).1 eqn:Hfresh; cbn [negb];
    [|intros Ho; by apply refused_not_opened in Ho].
  rewrite after_bind. set (b1 := (on_core (on_ordering (observe e)) _).2).
  change b1 with (ordered e b). clear b1. set (b1 := ordered e b).
  destruct (CopyOrdering.or_reject _) eqn:Hord; [intros Ho; by apply refused_not_opened in Ho|].
  unfold decide_event. rewrite !after_bind.
  change (clock b1).2 with b1. change (the_state b1).2 with b1. change (the_state b1).1 with (app_of b1).
  destruct (CopyPolicy.evaluate _ _ _ _) as [plan|plan|r] eqn:Hpol;
    [|destruct (find_open _ _ _) as [p|]; intros Ho;
      [by apply mirror_exit_not_opened in Ho|by apply refused_not_opened in Ho]
     |intros Ho; by apply refused_not_opened in Ho].
  intros Ho. pose proof (enter_opened e rule plan b1 Ho) as [Hg He].
  assert (Hheld : held b1 = held b) by apply held_ordered.
  split; [exact Hv|]. split; [|split; [done|]].
  { destruct (seen_key e b) eqn:Hseen; [|done].
    rewrite (claim_seen e (heard e b) Hseen) in Hfresh. done. }
  split.
  - exists rule, status, plan. by split.
  - destruct He as (id & p & Hid & Hpos & Hn). exists id, p. by rewrite <- Hheld.
Qed.
End Outcome.

(** * A copy bot on a scripted network: the runs that show the theorems about the
    engine are about something, and the runs in which the engine does what its
    comments do not say. *)

#[local] Existing Instance demo_keys.

(** Ten SOL, a live curve for every mint, and quotes at par. *)
#[local] Instance demo_market : Market Demo := {|
  market_balance _ w := (Ok 10000000000, w);
  market_accounts _ _ w := (demo_replies TOKEN_PROGRAM, w);
  market_account_data _ w := (Ok (Some demo_curve_bytes), w);
  market_quote q w := (Ok q.(qr_amount), w);
  market_swap _ _ _ w := (Err Solana, w);
|}.

Definition demo_whale : CopyWallet :=
  mkCopyWallet (lit "whale") None None fone (f_of_Z 5) fzero false None 60 false fzero 0.

Definition demo_settings (x : ExecutionConfig) : CopySettings :=
  mkCopySettings
    (mkCopyConfig true [demo_whale] (lit "pumpportal") 2000 25 (f_of_Z 20) true true false None true
       true true true 30 false fzero fzero fzero 60 false 24) x [] false false.

Definition demo_env : CopyEnv unit :=
  mkCopyEnv (lit "me") 42 (lit "r1") None None None (mkLayoutStore ∅) None None (f_of_Z 10).

Abbreviation DemoBot := (CopyBot MemoryCopyStore Demo MemoryLedgerStore MemoryRiskStore MemoryClaimStore unit).

Definition demo_bot (net : Demo) (s : AppState) (x : Executor) : DemoBot :=
  (on_core (sync_leaders 2 (lit "r1") (demo_settings ExecutionConfig_default).(cs_copy))
    (mkCopyBot (mkCopyCore s LeaderRegistry_new (OrderingTracker_new false) 0 MemoryCopyStore_new)
       (ExecutorSafety.demo_exec 0 net) x (demo_engine (f_of_Z 100) 0) MemoryClaimStore_new tt)).2.

Definition landed : Demo := mkDemo 10 0 0 [] [inl (TvSeen 7 None [] 5000)] [].

Definition demo_live_bot : DemoBot := demo_bot landed demo_replica (demo_executor BmRpc 2).

Definition demo_process := process_event (fun t => t) (fun _ => []) demo_env (demo_settings ExecutionConfig_default).


Definition demo_sweep (b : DemoBot) : DemoBot :=
  (sweep_once (fun t => t) (fun _ => []) demo_env (demo_settings ExecutionConfig_default)
     (fun _ _ => lit "sweep") b).2.

Definition sent_events (b : DemoBot) : list WireEvent := map snd (trace_of b).
Definition status_of (id : text) (b : DemoBot) : option PositionStatus :=
  p_status <$> CopyEngineOutcome.held b !! id.

Lemma demo_entry_fills :
  let r := demo_process demo_trade demo_live_bot in
  opened r.1 /\ sent_events r.2 = [Left (lit "sig0") 0 None].
Proof. split; by vm_compute. Qed.

(** ** Witnesses *)

Lemma demo_bot_ledger_inv : ledger_inv (ledger_of demo_live_bot).
Proof. exact (exec_ledger_inv_new 64). Qed.

Definition demo_wallet_trade : WalletTrade := to_wallet_trade demo_trade.

Lemma bot_write_ahead_witness :
  let b' := (run_bot (fun t => t) (fun _ => []) demo_env (demo_settings ExecutionConfig_default)
               [WakeTick; WakeTrade demo_wallet_trade] demo_live_bot).2 in
  ledger_inv (ledger_of b') /\ sent_events b' = [Left (lit "sig0") 0 None].
Proof.
  cbv zeta. split; [|by vm_compute].
  exact (proj1 (proj1 (bot_write_ahead (fun t => t) (fun _ => []) demo_env
    (demo_settings ExecutionConfig_default) demo_live_bot demo_bot_ledger_inv) _ demo_bot_ledger_inv)).
Defined.

Definition demo_config_in (mode : ExecutionMode) : BotConfig :=
  mkBotConfig RiskConfig_default GlobalRiskConfig_default mode true true true true false None true 1000 4096.

Definition demo_paper_executor : Executor :=
  mkExecutor (lit "wallet") 0
    (mkExecPolicy Paper BmRpc true true (30 * SECS) (400 * MILLIS) 2 (Some (lit "url")) 0 false)
    (mkFeePolicy false 0 5000000 20000000 75 50 (2000 * MILLIS) (20000 * MILLIS)) None None.

Definition demo_paper_bot : DemoBot :=
  demo_bot landed (set_config (demo_config_in Paper) demo_replica) demo_paper_executor.

Lemma unarmed_bot_sends_nothing_witness :
  let b' := (run_bot (fun t => t) (fun _ => []) demo_env (demo_settings ExecutionConfig_default)
               [WakeTick; WakeTrade demo_wallet_trade] demo_paper_bot).2 in
  trace_of b' = [] /\ size (CopyEngineOutcome.held b') = 1%nat.
Proof.
  cbv zeta. split; [|by vm_compute].
  exact (proj2 (proj1 (unarmed_bot_sends_nothing (fun t => t) (fun _ => []) demo_env
    (demo_settings ExecutionConfig_default) demo_paper_bot eq_refl eq_refl)
    [WakeTick; WakeTrade demo_wallet_trade])).
Defined.

Lemma demo_seen_inv :
  bounded_inv (app_of demo_live_bot).(st_config).(cf_max_dedup_entries)
    (app_of demo_live_bot).(st_seen_copy_events).
Proof. split; vm_compute; [by apply NoDup_nil|done|done]. Qed.


Lemma opened_position_passed_the_gates_witness :
  opened (demo_process demo_trade demo_live_bot).1
  /\ event_validate (exec_now demo_live_bot.(b_exec)) demo_trade = Ok tt.
Proof.
  assert (Ho : opened (demo_process demo_trade demo_live_bot).1) by (vm_compute; reflexivity).
  split; [exact Ho|].
  exact (proj1 (opened_position_passed_the_gates (fun t => t) (fun _ => []) demo_env
    (demo_settings ExecutionConfig_default) demo_trade demo_live_bot Ho)).
Defined.

(** ** What the comments do not say *)

Definition demo_exit : LeaderTradeEvent :=
  mkLeaderTradeEvent (lit "cev_2") (lit "whale") (lit "SIG2") 95 (Some 8) Short (lit "MINT") None
    PumpFun (f_of_Z 100) fone fzero None PumpPortal 2 8.

Definition demo_held : AppState :=
  upsert_position (demo_mirror (lit "p-1") (lit "S1") (lit "whale")) demo_replica.

(** A bot that traded live, set to paper by a reload. *)
Definition demo_stale : DemoBot :=
  demo_bot landed (set_config (demo_config_in Paper) demo_held) (demo_executor BmRpc 2).

(** The executor takes its mode from the configuration only when a buy or a sweep
    refreshes it: right after a reload to paper, a leader's exit is still sold
    on the chain, and booked as a paper trade. *)
Theorem stale_policy_sells_live :
  let r := demo_process demo_exit demo_stale in
  execution_mode (app_of demo_stale) = Paper
  /\ r.1.(co_stage) = CsExitMirrored
  /\ sent_events r.2 = [Left (lit "sig0") 0 None]
  /\ t_mode <$> (app_of r.2).(st_trades) = [Paper].
Proof. split_and!; by vm_compute. Qed.

(** Under the kill switch the mode reads [Simulate]; the sale that flattens a
    position on the curve is broadcast all the same, and booked as simulated. *)
Theorem kill_switch_sale_booked_as_simulated :
  let b := demo_bot landed (set_kill_flag true demo_held) (demo_executor BmRpc 2) in
  let b' := demo_sweep b in
  execution_mode (app_of b) = Simulate
  /\ sent_events b' = [Left (lit "sig0") 0 None]
  /\ t_mode <$> (app_of b').(st_trades) = [Simulate]
  /\ status_of (lit "p-1") b' = Some StoppedOut.
Proof. split_and!; by vm_compute. Qed.

Definition demo_unlucky : DemoBot :=
  demo_bot (mkDemo 10 0 0 (replicate 6 late_hash) [] []) demo_replica (demo_executor BmRpc 1).

(** An order that failed before anything was accepted is not tried again when
    the trade is delivered again: the claim of the failed attempt stands. *)
Theorem failed_entry_not_retried :
  let r := demo_process demo_trade demo_unlucky in
  let r' := demo_process demo_trade r.2 in
  r.1.(co_stage) = CsFailed
  /\ r'.1.(co_rejection) = Some (mkRejection RrDuplicateEvent CsLeaderResolved)
  /\ size (CopyEngineOutcome.held r'.2) = O.
Proof. split_and!; by vm_compute. Qed.

(** The sweeper writes back the position it listed, mark and all: when the
    position was closed in between, it is open again. *)
Theorem stale_sweep_reopens :
  let p := demo_mirror (lit "p-1") (lit "S1") (lit "whale") in
  let b := demo_bot landed (close_position 9 (lit "p-1") PosClosed (lit "sold") demo_held).2
             (demo_executor BmRpc 2) in
  status_of (lit "p-1") b = Some PosClosed
  /\ status_of (lit "p-1") (refresh_mark p b).2 = Some PosOpen.
Proof. split_and!; by vm_compute. Qed.

(** A position of the sniper, restored after a restart. *)
Definition demo_restored : Position :=
  apply_buy 5 (f_of_Z 100) (f_lit 1 1000) (f_lit 1 10)
    (Position_new 5 (lit "p-3") SrcSniper PumpFun Live (lit "OTHER") (lit "OTHER") (lit "SOL")).

(** The counter of identifiers starts again with the process and restored positions do
    not advance it: the first copied entry is booked under the id of the restored
    position, which is gone, open as it was. *)
Theorem restart_reuses_position_id :
  let b := demo_bot landed (restore_positions [demo_restored] demo_replica).2 (demo_executor BmRpc 2) in
  let r := demo_process demo_trade b in
  p_symbol <$> CopyEngineOutcome.held b !! lit "p-3" = Some (lit "OTHER")
  /\ opened r.1 /\ r.1.(co_position_id) = Some (lit "p-3")
  /\ p_symbol <$> CopyEngineOutcome.held r.2 !! lit "p-3" = Some (lit "MINT")
  /\ size (CopyEngineOutcome.held r.2) = 1%nat.
Proof. split_and!; by vm_compute. Qed.
