(* ===== verification/SniperSlippage.v ===== *)
(** The slippage engine of the sniper ([crates/module-sniper/src/slippage.rs]):
    one pure function from the configured tolerances, the reserve and the size of
    the trade to the tolerance an entry asks for. *)
From stdpp Require Import prelude list strings countable gmap.
From Stdlib Require Import ZArith Lia.
From S2P Require Import Prelude.
From S2P Require Import BotCore.
From S2P Require Import Text.
From S2P Require Import Float64.
From S2P Require Import PumpCurve.

#[local] Open Scope Z_scope.

(** * The [sniper] section of the configuration ([crates/core/src/config.rs]). *)

(** A rung of the take-profit ladder. *)
Record TpLevelConfig : Type := mkTpLevelConfig { tc_trigger_multiple : f64; tc_sell_fraction : f64 }.

Record BreakEvenRuleConfig : Type := mkBreakEvenRuleConfig { bc_activation_multiple : f64; bc_rule_buffer : f64 }.

Record AdvancedExitConfig : Type := mkAdvancedExitConfig {
  ax_ladder : list TpLevelConfig;
  ax_break_even : option BreakEvenRuleConfig;
  ax_dev_sell_ttl_secs : Z;
}.

Definition AdvancedExitConfig_default : AdvancedExitConfig := mkAdvancedExitConfig [] None 0.

Record SniperConfig : Type := mkSniperConfig {
  sn_enabled : bool;
  sn_buy_sol : f64;
  sn_slippage_pct : f64;
  sn_use_pumpportal : bool;
  sn_pumpportal_ws_url : text;
  sn_pumpportal_api_key : option text;
  sn_use_log_subscription : bool;
  sn_use_transaction_subscribe : bool;
  sn_trade_pumpswap : bool;
  sn_trade_raydium : bool;
  sn_trade_raydium_cpmm : bool;
  sn_trade_raydium_launchlab : bool;
  sn_use_jupiter_fallback : bool;
  sn_take_profit_pct : option f64;
  sn_stop_loss_pct : option f64;
  sn_trailing_stop_pct : option f64;
  sn_max_hold_secs : option Z;
  sn_take_profit_sell_fraction : f64;
  sn_monitor_positions : bool;
  sn_pump_extra_accounts : list text;
  sn_pump_append_bonding_curve_v2 : bool;
  sn_pump_learn_account_layout : bool;
  sn_pump_layout_file : text;
  sn_max_entry_latency_ms : Z;
  sn_max_launch_age_secs : Z;
  sn_creator_denylist : list text;
  sn_keyword_denylist : list text;
  sn_slippage_mode : text;
  sn_pumpswap_slippage_pct : option f64;
  sn_raydium_slippage_pct : option f64;
  sn_raydium_cpmm_slippage_pct : option f64;
  sn_raydium_launchlab_slippage_pct : option f64;
  sn_slippage_overrides_bps : gmap text Z;
  sn_max_price_impact_bps : Z;
  sn_max_entry_fee_lamports : Z;
  sn_min_liquidity_sol : f64;
  sn_require_mint_authority_revoked : bool;
  sn_require_freeze_authority_revoked : bool;
  sn_simulate_sell : bool;
  sn_require_sell_probe : bool;
  sn_max_creator_initial_buy_sol : f64;
  sn_min_pool_supply_fraction : f64;
  sn_max_top_holder_pct : f64;
  sn_max_bundler_ratio : f64;
  sn_max_snapshot_age_ms : Z;
  sn_strict_gates : bool;
  sn_stale_position_exit_secs : Z;
  sn_exit_retry_backoff_secs : Z;
  sn_failed_entry_cleanup : bool;
  sn_advanced_exit : option AdvancedExitConfig;
  sn_record_launch_dataset : bool;
  sn_launch_dataset_dir : text;
  sn_launch_dataset_id : text;
  sn_launch_dataset_chunk_max_records : Z;
  sn_launch_dataset_chunk_max_bytes : Z;
  sn_launch_dataset_channel_capacity : Z;
}.

Definition SniperConfig_default : SniperConfig :=
  {|
     sn_enabled := false;
     sn_buy_sol := f_lit 1 100;
     sn_slippage_pct := f_of_Z 15;
     sn_use_pumpportal := true;
     sn_pumpportal_ws_url := lit "wss://pumpportal.fun/api/data";
     sn_pumpportal_api_key := None;
     sn_use_log_subscription := true;
     sn_use_transaction_subscribe := false;
     sn_trade_pumpswap := true;
     sn_trade_raydium := true;
     sn_trade_raydium_cpmm := false;
     sn_trade_raydium_launchlab := false;
     sn_use_jupiter_fallback := true;
     sn_take_profit_pct := Some (fone);
     sn_stop_loss_pct := Some (f_lit 3 10);
     sn_trailing_stop_pct := Some (f_lit 25 100);
     sn_max_hold_secs := Some 3600;
     sn_take_profit_sell_fraction := fone;
     sn_monitor_positions := true;
     sn_pump_extra_accounts := [];
     sn_pump_append_bonding_curve_v2 := true;
     sn_pump_learn_account_layout := true;
     sn_pump_layout_file := lit "data/pump_account_layout.json";
     sn_max_entry_latency_ms := 1000;
     sn_max_launch_age_secs := 30;
     sn_creator_denylist := [];
     sn_keyword_denylist := [lit "rug"; lit "scam"; lit "honeypot"; lit "test"];
     sn_slippage_mode := lit "fixed";
     sn_pumpswap_slippage_pct := None;
     sn_raydium_slippage_pct := None;
     sn_raydium_cpmm_slippage_pct := None;
     sn_raydium_launchlab_slippage_pct := None;
     sn_slippage_overrides_bps := ∅;
     sn_max_price_impact_bps := 2500;
     sn_max_entry_fee_lamports := 0;
     sn_min_liquidity_sol := fzero;
     sn_require_mint_authority_revoked := false;
     sn_require_freeze_authority_revoked := true;
     sn_simulate_sell := true;
     sn_require_sell_probe := false;
     sn_max_creator_initial_buy_sol := fzero;
     sn_min_pool_supply_fraction := fzero;
     sn_max_top_holder_pct := fzero;
     sn_max_bundler_ratio := fzero;
     sn_max_snapshot_age_ms := 2000;
     sn_strict_gates := false;
     sn_stale_position_exit_secs := 0;
     sn_exit_retry_backoff_secs := 10;
     sn_failed_entry_cleanup := true;
     sn_advanced_exit := None;
     sn_record_launch_dataset := false;
     sn_launch_dataset_dir := [];
     sn_launch_dataset_id := [];
     sn_launch_dataset_chunk_max_records := 1000;
     sn_launch_dataset_chunk_max_bytes := 4194304;
     sn_launch_dataset_channel_capacity := 1024
  |}.

(** [s.trim().to_ascii_lowercase().replace('-', "_")]. *)
Definition dashes_to_bars (s : text) : text := map (fun c => if c =? 45 then 95 else c) s.

Definition slippage_mode_normalized (c : SniperConfig) : text :=
  dashes_to_bars (map ascii_lower (trim c.(sn_slippage_mode))).

Inductive SlippageMode : Type := SmFixed | SmLiquidityAware | SmPriceImpact.

#[export] Instance SlippageMode_eq_dec : EqDecision SlippageMode.
Proof. solve_decision. Defined.

Definition SlippageMode_as_str (m : SlippageMode) : text :=
  match m with
  | SmFixed => lit "fixed"
  | SmLiquidityAware => lit "liquidity_aware"
  | SmPriceImpact => lit "price_impact"
  end.


Definition SlippageMode_parse (s : text) : option SlippageMode :=
  let s := dashes_to_bars (map ascii_lower (trim s)) in
  if decide (s = lit "fixed") then Some SmFixed
  else if decide (s = lit "liquidity_aware") then Some SmLiquidityAware
  else if decide (s = lit "price_impact") then Some SmPriceImpact
  else None.

Inductive SlippageSource : Type := SsStrategy | SsProtocol | SsToken.

Record SlippageInputs : Type := mkSlippageInputs {
  si_mode : SlippageMode;
  si_strategy_bps : Z;
  si_protocol_bps : option Z;
  si_token_bps : option Z;
  si_hard_max_bps : Z;
  si_quote_reserve_lamports : Z;
  si_trade_lamports : Z;
}.

Record SlippageDecision : Type := mkSlippageDecision {
  sl_bps : Z;
  sl_price_impact_bps : Z;
  sl_mode : SlippageMode;
  sl_source : SlippageSource;
  sl_clamped : bool;
}.

Inductive SlippageError : Type :=
  | ZeroLiquidity
  | ImpactExceedsHardMax (price_impact_bps hard_max_bps : Z)
  | ZeroTrade.

Definition price_impact_bps (trade_in reserve_in : Z) : Z :=
  if trade_in =? 0 then 0
  else if reserve_in =? 0 then BPS_DENOM
  else Z.min (trade_in * BPS_DENOM / (reserve_in + trade_in)) BPS_DENOM.

Definition pct_to_bps (pct : f64) : Z :=
  if negb (is_finite pct) || fleb pct fzero then 0
  else Z.min (f_round_u64 (fmul pct (f_of_Z 100))) BPS_DENOM.

Definition bps_to_pct (bps : Z) : f64 := fdiv (f_of_Z (Z.min bps BPS_DENOM)) (f_of_Z 100).

(** The base tolerance and where it comes from. *)
Definition base_tolerance (i : SlippageInputs) : Z * SlippageSource :=
  let '(b, s) := match i.(si_token_bps), i.(si_protocol_bps) with
                 | Some t, _ => (t, SsToken)
                 | None, Some p => (p, SsProtocol)
                 | None, None => (i.(si_strategy_bps), SsStrategy)
                 end in
  (Z.min b BPS_DENOM, s).

Definition wanted_bps (m : SlippageMode) (base impact : Z) : Z :=
  match m with
  | SmLiquidityAware => Z.max base (saturating_mul u64_max impact 2)
  | _ => saturating_add u64_max impact base
  end.

Definition decide_slippage (i : SlippageInputs) : SlippageDecision + SlippageError :=
  let hard_max := Z.min i.(si_hard_max_bps) BPS_DENOM in
  let '(base, source) := base_tolerance i in
  let impact := price_impact_bps i.(si_trade_lamports) i.(si_quote_reserve_lamports) in
  match i.(si_mode) with
  | SmFixed => inl (mkSlippageDecision base impact SmFixed source false)
  | mode =>
      if i.(si_trade_lamports) =? 0 then inr ZeroTrade
      else if i.(si_quote_reserve_lamports) =? 0 then inr ZeroLiquidity
      else if hard_max <? impact then inr (ImpactExceedsHardMax impact hard_max)
      else
        let wanted := wanted_bps mode base impact in
        inl (mkSlippageDecision (Z.min wanted hard_max) impact mode source (hard_max <? wanted))
  end.

(** * What the tolerance is good for *)

(** Tokens for [trade] at the spot price, before and after the tolerance. *)
Definition spot_out (base_reserve quote_reserve trade : Z) : Z := trade * base_reserve / quote_reserve.
Definition min_out (expected bps : Z) : Z := expected * (BPS_DENOM - bps) / BPS_DENOM.

(** What the pool pays: the curve without a fee. *)
Definition pool_out (base_reserve quote_reserve trade : Z) : Z :=
  constant_product_out trade quote_reserve base_reserve 0 0.

Record inputs_ok (i : SlippageInputs) : Prop := mkInputsOk {
  io_strategy : in_u64 i.(si_strategy_bps);
  io_protocol : forall b, i.(si_protocol_bps) = Some b -> in_u64 b;
  io_token : forall b, i.(si_token_bps) = Some b -> in_u64 b;
  io_hard : in_u64 i.(si_hard_max_bps);
  io_quote : in_u64 i.(si_quote_reserve_lamports);
  io_trade : in_u64 i.(si_trade_lamports);
}.

Lemma price_impact_range trade reserve :
  0 <= trade -> 0 <= reserve -> 0 <= price_impact_bps trade reserve <= BPS_DENOM.
Proof.
  intros Ht Hr. unfold price_impact_bps, BPS_DENOM.
  destruct (Z.eqb_spec trade 0); [lia|]. destruct (Z.eqb_spec reserve 0); [lia|].
  split; [|apply Z.le_min_r]. apply Z.min_glb; [apply Z.div_pos; nia|lia].
Qed.

(** The figure is the loss of the pool against the spot price, rounded down. *)
Lemma price_impact_exact trade reserve :
  0 < trade -> 0 < reserve ->
  let i := price_impact_bps trade reserve in
  i * (reserve + trade) <= trade * BPS_DENOM < (i + 1) * (reserve + trade).
Proof.
  intros Ht Hr i. unfold i, price_impact_bps.
  rewrite (proj2 (Z.eqb_neq _ _)), (proj2 (Z.eqb_neq _ _)) by lia.
  pose proof (Z.mul_div_le (trade * BPS_DENOM) (reserve + trade) ltac:(lia)).
  pose proof (Z.mul_succ_div_gt (trade * BPS_DENOM) (reserve + trade) ltac:(lia)).
  rewrite Z.min_l; [lia|]. apply Z.div_le_upper_bound; [lia|]. unfold BPS_DENOM. nia.
Qed.

Lemma base_range i : inputs_ok i -> 0 <= (base_tolerance i).1 <= BPS_DENOM.
Proof.
  intros [H1 H2 H3 _ _ _]. unfold base_tolerance, BPS_DENOM.
  destruct (si_token_bps i) as [t|]; [pose proof (H3 t eq_refl)|];
    [|destruct (si_protocol_bps i) as [p|]; [pose proof (H2 p eq_refl)|]]; cbn [fst]; mlia.
Qed.

(** What the pool pays is at least the spot amount less a tolerance that covers
    its impact. *)
Lemma tolerance_covers base quote trade bps :
  0 <= base -> 0 < quote -> 0 < trade -> in_u64 base -> in_u64 quote -> in_u64 trade -> bps <= BPS_DENOM ->
  trade * BPS_DENOM <= bps * (quote + trade) ->
  min_out (spot_out base quote trade) bps <= pool_out base quote trade.
Proof.
  intros Hb Hq Ht Hib Hiq Hit Hle Hcov. unfold pool_out, constant_product_out, fee_den.
  destruct (Z.eqb_spec trade 0); [lia|]. destruct (Z.eqb_spec quote 0); [lia|]. cbn [orb].
  destruct (Z.eqb_spec base 0) as [->|]; cbn [orb].
  { unfold min_out, spot_out. by rewrite Z.mul_0_r, Zdiv_0_l. }
  rewrite Z.eqb_refl. cbv zeta. unfold u128_wrap, saturating_mul.
  rewrite Z.sub_0_r. change (BPS_DENOM mod 2 ^ 128) with BPS_DENOM.
  rewrite (Z.min_r u128_max (trade * BPS_DENOM)) by (unfold BPS_DENOM; mlia). rewrite Z.div_mul by (unfold BPS_DENOM; lia).
  rewrite (Z.min_r u128_max (trade * base)) by (unfold_bounds; nia).
  rewrite (Z.mod_small (quote + trade)) by (change (2 ^ 128) with (u128_max + 1); mlia).
  rewrite (proj2 (Z.eqb_neq _ _)) by lia.
  assert (Hcap : trade * base / (quote + trade) <= u64_max).
  { apply Z.div_le_upper_bound; [lia|]. unfold_bounds. nia. }
  rewrite Z.min_r by exact Hcap. apply Z.div_le_lower_bound; [lia|].
  unfold min_out, spot_out.
  pose proof (Z.mul_div_le (trade * base) quote Hq) as H. set (s := trade * base / quote) in *.
  assert (0 <= s) by (apply Z.div_pos; nia).
  pose proof (Z.mul_div_le (s * (BPS_DENOM - bps)) BPS_DENOM ltac:(unfold BPS_DENOM; lia)) as Hm.
  set (m := s * (BPS_DENOM - bps) / BPS_DENOM) in *.
  assert (H1 : (quote + trade) * (BPS_DENOM - bps) <= BPS_DENOM * quote) by nia.
  pose proof (Z.mul_le_mono_nonneg_l _ _ s ltac:(lia) H1) as H2.
  pose proof (Z.mul_le_mono_nonneg_l _ _ (quote + trade) ltac:(lia) Hm) as H3.
  enough (BPS_DENOM * ((quote + trade) * m) <= BPS_DENOM * (trade * base)) by (unfold BPS_DENOM in *; lia).
  etrans; [|apply Z.mul_le_mono_nonneg_l; [unfold BPS_DENOM; lia|exact H]].
  lia.
Qed.

(** The decision, on every branch: the fixed mode hands the base on; an
    adaptive mode refuses a trade of nothing, a pool of nothing and an impact
    over the hard maximum, and otherwise answers at least the impact, at least
    the base, never more than the hard maximum, and says when it was cut. *)
Theorem slippage_decision_exact i (Hok : inputs_ok i) :
  let hard := Z.min i.(si_hard_max_bps) BPS_DENOM in
  let base := (base_tolerance i).1 in
  let impact := price_impact_bps i.(si_trade_lamports) i.(si_quote_reserve_lamports) in
  match decide_slippage i with
  | inl d =>
      d.(sl_price_impact_bps) = impact /\ d.(sl_mode) = i.(si_mode)
      /\ d.(sl_source) = (base_tolerance i).2 /\ 0 <= d.(sl_bps) <= BPS_DENOM
      /\ (i.(si_mode) = SmFixed -> d.(sl_bps) = base /\ d.(sl_clamped) = false)
      /\ (i.(si_mode) <> SmFixed ->
            0 < i.(si_trade_lamports) /\ 0 < i.(si_quote_reserve_lamports)
            /\ impact <= d.(sl_bps) <= hard
            /\ (d.(sl_clamped) = true -> d.(sl_bps) = hard)
            /\ (d.(sl_clamped) = false -> base <= d.(sl_bps)))
  | inr ZeroTrade => i.(si_mode) <> SmFixed /\ i.(si_trade_lamports) = 0
  | inr ZeroLiquidity => i.(si_mode) <> SmFixed /\ i.(si_quote_reserve_lamports) = 0
  | inr (ImpactExceedsHardMax p h) => i.(si_mode) <> SmFixed /\ p = impact /\ h = hard /\ hard < impact
  end.
Proof.
  pose proof (base_range i Hok) as Hb. destruct Hok as [_ _ _ Hh Hq Ht].
  pose proof (price_impact_range (si_trade_lamports i) (si_quote_reserve_lamports i)
    ltac:(mlia) ltac:(mlia)) as Hi.
  unfold decide_slippage. cbv zeta. destruct (base_tolerance i) as [base source]. cbn [fst snd] in *.
  set (impact := price_impact_bps _ _) in *. set (hard := Z.min _ BPS_DENOM).
  assert (Hhard : 0 <= hard <= BPS_DENOM) by (unfold hard, BPS_DENOM; mlia).
  destruct (si_mode i); cbn [sl_bps sl_price_impact_bps sl_mode sl_source sl_clamped].
  { by split_and!; try lia. }
  all: destruct (Z.eqb_spec (si_trade_lamports i) 0); [done|].
  all: destruct (Z.eqb_spec (si_quote_reserve_lamports i) 0); [done|].
  all: destruct (Z.ltb_spec hard impact); [by split_and!|].
  all: cbn [sl_bps sl_price_impact_bps sl_mode sl_source sl_clamped].
  all: unfold wanted_bps, saturating_mul, saturating_add, BPS_DENOM in *.
  all: split_and!; try done; try (unfold_bounds; lia); intros _.
  all: split_and!; try (unfold_bounds; lia).
  all: intros Hc; first [apply Z.ltb_lt in Hc|apply Z.ltb_ge in Hc]; unfold_bounds; lia.
Qed.

(** An adaptive tolerance is enough: when the base is not zero and the hard
    maximum did not cut it, the pool itself, without its fee, pays at least the
    spot amount less the tolerance. *)
Theorem adaptive_tolerance_fills i d base_reserve (Hok : inputs_ok i)
    (Hd : decide_slippage i = inl d) (Hmode : i.(si_mode) <> SmFixed)
    (Hbase : 0 < (base_tolerance i).1) (Hcut : d.(sl_clamped) = false) (Hres : in_u64 base_reserve) :
  min_out (spot_out base_reserve i.(si_quote_reserve_lamports) i.(si_trade_lamports)) d.(sl_bps)
  <= pool_out base_reserve i.(si_quote_reserve_lamports) i.(si_trade_lamports).
Proof.
  pose proof (base_range i Hok) as Hb. destruct Hok as [_ _ _ Hh Hq Ht].
  unfold decide_slippage in Hd. destruct (base_tolerance i) as [base source]. cbn [fst] in *.
  destruct (Z.eq_dec (si_trade_lamports i) 0) as [Hz|Hz].
  { rewrite Hz in Hd. cbn [Z.eqb] in Hd. destruct (si_mode i); [done|discriminate..]. }
  destruct (Z.eq_dec (si_quote_reserve_lamports i) 0) as [Hz'|Hz'].
  { rewrite Hz', (proj2 (Z.eqb_neq _ _) Hz) in Hd. cbn [Z.eqb] in Hd. destruct (si_mode i); [done|discriminate..]. }
  rewrite (proj2 (Z.eqb_neq _ _) Hz), (proj2 (Z.eqb_neq _ _) Hz') in Hd.
  set (q := si_quote_reserve_lamports i) in *. set (t := si_trade_lamports i) in *.
  pose proof (price_impact_exact t q ltac:(mlia) ltac:(mlia)) as He.
  pose proof (price_impact_range t q ltac:(mlia) ltac:(mlia)) as Hr.
  set (impact := price_impact_bps t q) in *.
  assert (Hbps : d.(sl_bps) <= BPS_DENOM /\ (impact + 1 <= d.(sl_bps) \/ impact = 0 /\ 1 <= d.(sl_bps))).
  { unfold wanted_bps, saturating_mul, saturating_add, BPS_DENOM in *.
    destruct (si_mode i); [done|..];
      (destruct (Z.ltb_spec (Z.min (si_hard_max_bps i) 10000) impact); [discriminate|]);
      injection Hd as <-; cbn [sl_bps sl_clamped] in *; apply Z.ltb_ge in Hcut; unfold_bounds; lia. }
  destruct Hbps as [Hle Hge]. apply tolerance_covers; try mlia.
  assert (H1 : (impact + 1) * (q + t) <= d.(sl_bps) * (q + t)) by (apply Z.mul_le_mono_nonneg_r; mlia).
  cbv zeta in He. destruct He as [_ He]. etrans; [apply Z.lt_le_incl, He|exact H1].
Qed.

(** A thin pool: a tenth of the reserve, no tolerance of its own. *)
Definition demo_slippage (mode : SlippageMode) (strategy hard : Z) : SlippageInputs :=
  mkSlippageInputs mode strategy None None hard 30000000000 3000000000.

Lemma demo_slippage_ok mode strategy hard :
  in_u64 strategy -> in_u64 hard -> inputs_ok (demo_slippage mode strategy hard).
Proof.
  intros Hs Hh. split; cbn [si_protocol_bps si_token_bps demo_slippage]; try done; unfold in_u64, u64_max; cbn; lia.
Qed.

Lemma slippage_decision_exact_witness :
  exists d, decide_slippage (demo_slippage SmLiquidityAware 500 2500) = inl d
    /\ d.(sl_price_impact_bps) = 909 /\ d.(sl_bps) = 1818.
Proof.
  eexists. split; [reflexivity|].
  pose proof (slippage_decision_exact (demo_slippage SmLiquidityAware 500 2500)
    (demo_slippage_ok SmLiquidityAware 500 2500 ltac:(mlia) ltac:(mlia))) as (Hi & _).
  split; [exact Hi|reflexivity].
Defined.

Lemma adaptive_tolerance_fills_witness :
  decide_slippage (demo_slippage SmPriceImpact 100 2500)
    = inl (mkSlippageDecision 1009 909 SmPriceImpact SsStrategy false)
  /\ min_out (spot_out 1073000000000 30000000000 3000000000) 1009
     <= pool_out 1073000000000 30000000000 3000000000.
Proof.
  split; [reflexivity|].
  apply (adaptive_tolerance_fills (demo_slippage SmPriceImpact 100 2500)
    (mkSlippageDecision 1009 909 SmPriceImpact SsStrategy false) 1073000000000);
    try reflexivity; try done; try mlia.
Defined.

(** The impact is rounded down, so a tolerance that is cut exactly to it does
    not cover the move of the trade: the pool pays less than the minimum. *)
Theorem clamped_tolerance_falls_short :
  decide_slippage (demo_slippage SmPriceImpact 100 909)
    = inl (mkSlippageDecision 909 909 SmPriceImpact SsStrategy true)
  /\ pool_out 1073000000000 30000000000 3000000000
     < min_out (spot_out 1073000000000 30000000000 3000000000) 909.
Proof. split; reflexivity. Qed.
