(* ===== verification/SniperEvent.v ===== *)
(** A launch as the sniper sees it ([crates/module-sniper/src/event.rs]): the
    protocol, the event with its identity and ages, its validation, and the
    tracker of the order of a source.  Times are nanoseconds.  The text form of a
    key is the class [SdkKeys]; the base58 decoder is an argument. *)
From stdpp Require Import prelude countable gmap list strings pretty.
From Stdlib Require Import ZArith Lia.
From S2P Require Import Prelude.
From S2P Require Import Text.
From S2P Require Import Float64.
From S2P Require Import Models.
From S2P Require Import Ownership.
From S2P Require Import LedgerEvent.
From S2P Require Import PumpLayout.
From S2P Require Import Risk.
From S2P Require Import AppState.

#[local] Open Scope Z_scope.

(** * Protocols *)

Inductive LaunchProtocol : Type :=
  | LpPumpFun | LpPumpSwap | LpRaydiumAmmV4 | LpRaydiumCpmm | LpRaydiumLaunchLab.

#[export] Instance LaunchProtocol_eq_dec : EqDecision LaunchProtocol.
Proof. solve_decision. Defined.

Definition LaunchProtocol_as_str (p : LaunchProtocol) : text :=
  match p with
  | LpPumpFun => lit "pump_fun"
  | LpPumpSwap => lit "pump_swap"
  | LpRaydiumAmmV4 => lit "raydium_amm_v4"
  | LpRaydiumCpmm => lit "raydium_cpmm"
  | LpRaydiumLaunchLab => lit "raydium_launchlab"
  end.

Definition LaunchProtocol_venue (p : LaunchProtocol) : Venue :=
  match p with
  | LpPumpFun => PumpFun
  | LpPumpSwap => PumpSwap
  | LpRaydiumAmmV4 => RaydiumAmmV4
  | LpRaydiumCpmm => RaydiumCpmm
  | LpRaydiumLaunchLab => RaydiumLaunchLab
  end.

Definition requires_pool (p : LaunchProtocol) : bool := negb (bool_decide (p = LpPumpFun)).

Inductive LaunchDefect : Type :=
  | LdEmptyEventId | LdInvalidMint (m : text) | LdInvalidCreator (c : text) | LdInvalidPool (p : text)
  | LdMissingPool | LdBaseMintMismatch | LdInvalidQuoteMint (q : text) | LdInvalidSignature (s : text)
  | LdZeroSlot | LdNonFiniteLiquidity | LdNonFinitePrice | LdObservedInFuture
  | LdEventAfterObservation | LdEmptyRawHash | LdEventIdMismatch.

(** * The event *)

Record FirstSlotBuy : Type := mkFirstSlotBuy { fb_buyer : Z; fb_funder : Z }.

Record LaunchEvent : Type := mkLaunchEvent {
  le_event_id : text;
  le_protocol : LaunchProtocol;
  le_source : LaunchFeed;
  le_slot : option Z;
  le_signature : option text;
  le_mint : text;
  le_creator : text;
  le_pool : option text;
  le_base_mint : text;
  le_quote_mint : text;
  le_liquidity_quote_lamports : option Z;
  le_liquidity_base_raw : option Z;
  le_initial_price_sol : option f64;
  le_base_decimals : option Z;
  le_event_ts : option Z;
  le_source_ts : option Z;
  le_observed_at : Z;
  le_source_seq : Z;
  le_raw_hash : text;
  le_first_slot_buys : list FirstSlotBuy;
  le_launch : TokenLaunch;
}.

Definition with_event_id (id : text) (e : LaunchEvent) : LaunchEvent :=
  mkLaunchEvent id e.(le_protocol) e.(le_source) e.(le_slot) e.(le_signature) e.(le_mint)
    e.(le_creator) e.(le_pool) e.(le_base_mint) e.(le_quote_mint) e.(le_liquidity_quote_lamports)
    e.(le_liquidity_base_raw) e.(le_initial_price_sol) e.(le_base_decimals) e.(le_event_ts)
    e.(le_source_ts) e.(le_observed_at) e.(le_source_seq) e.(le_raw_hash) e.(le_first_slot_buys)
    e.(le_launch).

Definition MAX_CLOCK_SKEW_SECS : Z := 5.
Definition SIGNATURE_LEN : Z := 64.
Definition LAUNCH_MILLISECOND : Z := 1000000.

(** [now.signed_duration_since(t).num_milliseconds().max(0) as u64]. *)
Definition span_since_ms (t now : Z) : Z := Z.max (Z.quot (now - t) LAUNCH_MILLISECOND) 0.

(** The strongest reference to the chain, with its kind. *)
Definition launch_reference (e : LaunchEvent) : text :=
  let seq := lit "seq:" ++ LaunchFeed_display e.(le_source) ++ lit ":" ++ lit (pretty e.(le_source_seq)) in
  let by_slot := match e.(le_slot) with
                 | Some slot => if 0 <? slot then lit "slot:" ++ lit (pretty slot) else seq
                 | None => seq
                 end in
  match e.(le_signature) with
  | Some sig => if negb (is_empty sig) then lit "sig:" ++ sig else by_slot
  | None => by_slot
  end.

Definition launch_payload (e : LaunchEvent) : text :=
  lit "launch|" ++ LaunchProtocol_as_str e.(le_protocol) ++ lit "|" ++ e.(le_mint) ++ lit "|"
    ++ default [] e.(le_pool) ++ lit "|" ++ launch_reference e.

Definition launch_dedup_key (e : LaunchEvent) : text :=
  match e.(le_protocol) with
  | LpPumpFun => e.(le_mint)
  | other => LaunchProtocol_as_str other ++ lit ":" ++ e.(le_mint)
  end.

Definition effective_ts (e : LaunchEvent) : Z :=
  default e.(le_observed_at) (match e.(le_event_ts) with Some t => Some t | None => e.(le_source_ts) end).

Definition launch_age_ms (now : Z) (e : LaunchEvent) : Z := span_since_ms (effective_ts e) now.

Definition held_ms (now : Z) (e : LaunchEvent) : Z := span_since_ms e.(le_observed_at) now.

Definition launch_is_stale (now max_age_secs : Z) (e : LaunchEvent) : bool :=
  if max_age_secs <=? 0 then false
  else saturating_mul u64_max max_age_secs 1000 <? launch_age_ms now e.

Section Event.
Context {libs : LedgerLibs} `{SdkKeys} (bs58_decode : text -> option (list Z)) (WSOL : Z).

Definition launch_event_id (e : LaunchEvent) : text :=
  lit "evt_" ++ take 32 (sha256_hex (launch_payload e)).

(** [LaunchEvent::from_token_launch]. *)
Definition from_token_launch (bonding_curve : Z -> Z) (l : TokenLaunch) (source_seq : Z)
    (raw_hash : text) : LaunchEvent :=
  let e := mkLaunchEvent [] LpPumpFun l.(tl_feed) l.(tl_slot) l.(tl_signature) l.(tl_mint)
             l.(tl_creator) ((fun m => key_text (bonding_curve m)) <$> key_of_text l.(tl_mint))
             l.(tl_mint) (key_text WSOL) None None None (Some 6) None None l.(tl_observed_at) source_seq
             raw_hash [] l in
  with_event_id (launch_event_id e) e.

Definition is_key (s : text) : bool := match key_of_text s with Some _ => true | None => false end.

Definition mint_pubkey (e : LaunchEvent) : option Z := key_of_text e.(le_mint).
Definition pool_pubkey (e : LaunchEvent) : option Z := p ← e.(le_pool); key_of_text p.
Definition creator_pubkey (e : LaunchEvent) : option Z := key_of_text e.(le_creator).

Definition bs58_len (s : text) : option Z := (fun v => Z.of_nat (length v)) <$> bs58_decode s.

Definition signature_ok (sig : text) : bool :=
  negb (is_empty sig) && bool_decide (bs58_len sig = Some SIGNATURE_LEN).

Definition price_ok (p : f64) : bool := is_finite p && negb (fltb p fzero).

Definition validate_shape (now : Z) (e : LaunchEvent) : outcome LaunchDefect unit :=
  let skew := MAX_CLOCK_SKEW_SECS * SECOND in
  reject_if (is_empty (trim e.(le_event_id))) LdEmptyEventId ;;
  reject_if (negb (is_key e.(le_mint))) (LdInvalidMint e.(le_mint)) ;;
  reject_if (negb (is_empty e.(le_creator)) && negb (is_key e.(le_creator)))
    (LdInvalidCreator e.(le_creator)) ;;
  match e.(le_pool) with
  | Some p => reject_if (negb (is_key p)) (LdInvalidPool p)
  | None => reject_if (requires_pool e.(le_protocol)) LdMissingPool
  end ;;
  reject_if (negb (bool_decide (e.(le_base_mint) = e.(le_mint)))) LdBaseMintMismatch ;;
  reject_if (negb (is_key e.(le_quote_mint))) (LdInvalidQuoteMint e.(le_quote_mint)) ;;
  match e.(le_signature) with
  | Some sig => reject_if (negb (signature_ok sig)) (LdInvalidSignature sig)
  | None => Ok tt
  end ;;
  reject_if (bool_decide (e.(le_slot) = Some 0)) LdZeroSlot ;;
  match e.(le_initial_price_sol) with
  | Some p => reject_if (negb (price_ok p)) LdNonFinitePrice
  | None => Ok tt
  end ;;
  reject_if (negb (is_finite e.(le_launch).(tl_market_cap_sol))
             || negb (is_finite e.(le_launch).(tl_initial_buy_sol))) LdNonFiniteLiquidity ;;
  reject_if (now + skew <? e.(le_observed_at)) LdObservedInFuture ;;
  match e.(le_event_ts) with
  | Some ts => reject_if (e.(le_observed_at) + skew <? ts) LdEventAfterObservation
  | None => Ok tt
  end ;;
  reject_if (is_empty (trim e.(le_raw_hash))) LdEmptyRawHash ;;
  reject_if (negb (bool_decide (e.(le_event_id) = launch_event_id e))) LdEventIdMismatch.

(** [LaunchEvent::consistent_with]. *)
Definition agree {A} `{EqDecision A} (a b : option A) : bool :=
  match a, b with Some x, Some y => bool_decide (x = y) | _, _ => true end.

Definition consistent_with (a b : LaunchEvent) : bool :=
  if negb (bool_decide (a.(le_event_id) = b.(le_event_id))) then true
  else agree a.(le_signature) b.(le_signature) && agree a.(le_slot) b.(le_slot)
       && bool_decide (a.(le_mint) = b.(le_mint)) && bool_decide (a.(le_protocol) = b.(le_protocol)).
End Event.

(** * Order of a source *)

Record SequenceTracker : Type := mkSequenceTracker {
  sq_next_seq : Z;
  sq_highest_slot : option Z;
  sq_out_of_order : Z;
}.

Definition SequenceTracker_default : SequenceTracker := mkSequenceTracker 0 None 0.

(** The counters are [u64]; they wrap in a release build. *)
Definition next_seq (t : SequenceTracker) : Z * SequenceTracker :=
  let n := (t.(sq_next_seq) + 1) mod (u64_max + 1) in
  (n, mkSequenceTracker n t.(sq_highest_slot) t.(sq_out_of_order)).

Definition note_slot (slot : option Z) (t : SequenceTracker) : bool * SequenceTracker :=
  match slot with
  | Some s =>
      if negb (0 <? s) then (false, t)
      else
        match t.(sq_highest_slot) with
        | Some h =>
            if s <? h
            then (true, mkSequenceTracker t.(sq_next_seq) (Some h) ((t.(sq_out_of_order) + 1) mod (u64_max + 1)))
            else (false, mkSequenceTracker t.(sq_next_seq) (Some s) t.(sq_out_of_order))
        | None => (false, mkSequenceTracker t.(sq_next_seq) (Some s) t.(sq_out_of_order))
        end
  | None => (false, t)
  end.

Fixpoint note_slots (slots : list (option Z)) (t : SequenceTracker) : list bool * SequenceTracker :=
  match slots with
  | [] => ([], t)
  | s :: slots => let r := note_slot s t in
                  let rs := note_slots slots r.2 in
                  (r.1 :: rs.1, rs.2)
  end.

(** * What a valid event is *)

Record launch_valid {libs : LedgerLibs} `{SdkKeys} (bs58_decode : text -> option (list Z)) (now : Z)
    (e : LaunchEvent) : Prop := mkLaunchValid {
  lv_id : e.(le_event_id) = launch_event_id e;
  lv_mint : is_Some (key_of_text e.(le_mint));
  lv_creator : e.(le_creator) = [] \/ is_Some (key_of_text e.(le_creator));
  lv_pool : match e.(le_pool) with
            | Some p => is_Some (key_of_text p)
            | None => e.(le_protocol) = LpPumpFun
            end;
  lv_base : e.(le_base_mint) = e.(le_mint);
  lv_quote : is_Some (key_of_text e.(le_quote_mint));
  lv_signature : forall sig, e.(le_signature) = Some sig ->
    sig <> [] /\ exists bytes, bs58_decode sig = Some bytes /\ Z.of_nat (length bytes) = SIGNATURE_LEN;
  lv_slot : e.(le_slot) <> Some 0;
  lv_price : forall p, e.(le_initial_price_sol) = Some p -> is_finite p = true /\ fltb p fzero = false;
  lv_amounts : is_finite e.(le_launch).(tl_market_cap_sol) = true
               /\ is_finite e.(le_launch).(tl_initial_buy_sol) = true;
  lv_observed : e.(le_observed_at) <= now + MAX_CLOCK_SKEW_SECS * SECOND;
  lv_event_ts : forall ts, e.(le_event_ts) = Some ts ->
    ts <= e.(le_observed_at) + MAX_CLOCK_SKEW_SECS * SECOND;
  lv_raw : trim e.(le_raw_hash) <> [];
}.

(** Base58 has neither a colon nor a bar. *)
Class SdkKeysPlain `{SdkKeys} : Prop :=
  key_text_plain : forall s, is_Some (key_of_text s) -> (58 ∉ s) /\ (124 ∉ s).

Lemma trim_start_nonempty s : (exists c, c ∈ s /\ is_whitespace c = false) -> trim_start s <> [].
Proof.
  induction s as [|d s IH]; intros (c & Hc & Hw); [by apply not_elem_of_nil in Hc|]. cbn.
  destruct (is_whitespace d) eqn:Hd; [|done]. apply elem_of_cons in Hc as [->|Hc]; [congruence|eauto].
Qed.

Lemma trim_end_nonempty s : (exists c, c ∈ s /\ is_whitespace c = false) -> trim_end s <> [].
Proof.
  intros (c & Hc & Hw) Hn. apply (trim_start_nonempty (reverse s)).
  - exists c. by rewrite elem_of_reverse.
  - unfold trim_end in Hn. by rewrite <- (reverse_involutive (trim_start _)), Hn.
Qed.

Lemma trim_nonempty c s : is_whitespace c = false -> trim (c :: s) <> [].
Proof.
  intros Hc. unfold trim. cbn [trim_start]. rewrite Hc. apply trim_end_nonempty.
  exists c. by split; [left|].
Qed.

Section Valid.
Context {libs : LedgerLibs} `{SdkKeys} (bs58_decode : text -> option (list Z)).

Lemma is_key_true s : is_key s = true <-> is_Some (key_of_text s).
Proof. unfold is_key, is_Some. destruct (key_of_text s); split; eauto; [done|by intros []]. Qed.

Lemma signature_ok_true sig :
  signature_ok bs58_decode sig = true
  <-> sig <> [] /\ exists bytes, bs58_decode sig = Some bytes /\ Z.of_nat (length bytes) = SIGNATURE_LEN.
Proof.
  unfold signature_ok, bs58_len. rewrite andb_true_iff, negb_true_iff, is_empty_false, bool_decide_eq_true.
  destruct (bs58_decode sig) as [v|]; cbn; split; intros [? Hs]; split; try done.
  - injection Hs as Hs. eauto.
  - destruct Hs as (? & [= <-] & Hs). by f_equal.
  - by destruct Hs as (? & ? & _).
Qed.

Lemma event_id_nonempty e : is_empty (trim (launch_event_id e)) = false.
Proof. apply is_empty_false. unfold launch_event_id. by apply trim_nonempty. Qed.

(** Validation accepts exactly the well-formed events. *)
Theorem validate_shape_exact now e :
  validate_shape bs58_decode now e = Ok tt <-> launch_valid bs58_decode now e.
Proof.
  unfold validate_shape. cbv zeta. split.
  - intros Hv. inv_ok. bool_to_prop. split; try done.
    + by apply is_key_true.
    + destruct (is_empty (le_creator e)) eqn:Hc.
      * left. by destruct (le_creator e).
      * right. apply is_key_true. by destruct (is_key (le_creator e)).
    + destruct (le_pool e).
      * inv_ok. apply is_key_true. by bool_to_prop.
      * inv_ok. unfold requires_pool in *. by bool_to_prop.
    + by apply is_key_true.
    + intros sig Hs. rewrite Hs in *. inv_ok. apply signature_ok_true. by bool_to_prop.
    + intros p Hp. rewrite Hp in *. inv_ok. unfold price_ok in *. by bool_to_prop.
    + intros ts Hts. rewrite Hts in *. inv_ok. by bool_to_prop.
    + by apply is_empty_false.
  - intros [Hid Hm Hc Hp Hb Hq Hs Hsl Hpr [Ha1 Ha2] Ho He Hr].
    rewrite Hid at 1. rewrite event_id_nonempty. cbn [reject_if mbind].
    apply is_key_true in Hm, Hq. rewrite Hm, Hq.
    assert (Hc' : negb (is_empty (le_creator e)) && negb (is_key (le_creator e)) = false).
    { destruct Hc as [->|Hc]; [done|]. apply is_key_true in Hc. rewrite Hc. apply andb_false_r. }
    rewrite Hc'. rewrite (bool_decide_eq_true_2 _ Hb), (bool_decide_eq_false_2 _ Hsl), Ha1, Ha2.
    rewrite (proj2 (is_empty_false _) Hr), (bool_decide_eq_true_2 _ Hid).
    rewrite (proj2 (Z.ltb_ge _ _) Ho).
    assert (Hp' : match le_pool e with
                  | Some p => reject_if (negb (is_key p)) (LdInvalidPool p)
                  | None => reject_if (requires_pool (le_protocol e)) LdMissingPool
                  end = Ok tt).
    { destruct (le_pool e); [apply is_key_true in Hp; by rewrite Hp|].
      unfold requires_pool. by rewrite (bool_decide_eq_true_2 _ Hp). }
    rewrite Hp'. cbn [negb orb reject_if mbind outcome_bind].
    destruct (le_signature e) as [sig|]; [rewrite (proj2 (signature_ok_true sig) (Hs sig eq_refl))|];
      (destruct (le_initial_price_sol e) as [p|];
         [destruct (Hpr p eq_refl) as [H1 H2]; unfold price_ok; rewrite H1, H2|]);
      (destruct (le_event_ts e) as [ts|]; [rewrite (proj2 (Z.ltb_ge _ _) (He ts eq_refl))|]); done.
Qed.
End Valid.

(** * Identities *)

(** A text that ends at its first [sep]. *)
Lemma app_sep_inj (sep : Z) (a b u v : text) :
  sep ∉ a -> sep ∉ b -> a ++ sep :: u = b ++ sep :: v -> a = b /\ u = v.
Proof.
  revert b. induction a as [|x a IH]; intros [|y b] Ha Hb Heq; cbn in Heq; simplify_eq.
  - done.
  - by destruct Hb; left.
  - by destruct Ha; left.
  - destruct (IH b) as [-> ->]; [set_solver..|done|done].
Qed.

Lemma protocol_plain p : (58 ∉ LaunchProtocol_as_str p) /\ (124 ∉ LaunchProtocol_as_str p).
Proof. split; apply (bool_decide_unpack _); by destruct p. Qed.

Lemma protocol_str_inj p q : LaunchProtocol_as_str p = LaunchProtocol_as_str q -> p = q.
Proof. by destruct p, q. Qed.

Section Identity.
Context {libs : LedgerLibs} `{SdkKeys} `{!SdkKeysPlain} (bs58_decode : text -> option (list Z)).

(** One launch, one decision: two valid events with the same deduplication key
    are launches of the same mint on the same protocol. *)
Theorem dedup_key_names_the_launch now1 now2 a b
    (Ha : launch_valid bs58_decode now1 a) (Hb : launch_valid bs58_decode now2 b)
    (Hkey : launch_dedup_key a = launch_dedup_key b) :
  a.(le_mint) = b.(le_mint) /\ a.(le_protocol) = b.(le_protocol).
Proof.
  destruct (key_text_plain _ (lv_mint _ _ _ Ha)) as [Hca _].
  destruct (key_text_plain _ (lv_mint _ _ _ Hb)) as [Hcb _].
  assert (Hfree : forall p (m : text), 58 ∈ LaunchProtocol_as_str p ++ lit ":" ++ m)
    by (intros p m; rewrite !elem_of_app; right; left; by left).
  assert (Hsep : forall p q (u v : text), LaunchProtocol_as_str p ++ lit ":" ++ u
      = LaunchProtocol_as_str q ++ lit ":" ++ v -> u = v /\ p = q).
  { intros p q u v Heq. change (lit ":" ++ u) with (58 :: u) in Heq.
    change (lit ":" ++ v) with (58 :: v) in Heq.
    destruct (app_sep_inj _ _ _ _ _ (proj1 (protocol_plain p)) (proj1 (protocol_plain q)) Heq)
      as [Hp ->].
    split; [done|by apply protocol_str_inj]. }
  unfold launch_dedup_key in Hkey.
  destruct (le_protocol a), (le_protocol b);
    try (by split); try (by apply (Hsep _ _ _ _ Hkey));
    first [destruct Hca; rewrite Hkey; apply Hfree | destruct Hcb; rewrite <- Hkey; apply Hfree].
Qed.

Lemma pool_plain now e : launch_valid bs58_decode now e -> 124 ∉ default [] e.(le_pool).
Proof.
  intros Hv. pose proof (lv_pool _ _ _ Hv) as Hp. destruct (le_pool e); cbn; [|by apply not_elem_of_nil].
  by apply (key_text_plain _ Hp).
Qed.

Lemma payload_inj now1 now2 a b :
  launch_valid bs58_decode now1 a -> launch_valid bs58_decode now2 b ->
  launch_payload a = launch_payload b ->
  a.(le_protocol) = b.(le_protocol) /\ a.(le_mint) = b.(le_mint)
  /\ default [] a.(le_pool) = default [] b.(le_pool) /\ launch_reference a = launch_reference b.
Proof.
  intros Ha Hb. unfold launch_payload. change (lit "|") with [124]. intros Heq%app_inv_head.
  apply app_sep_inj in Heq as [Hp Heq]; [|apply protocol_plain..].
  apply app_sep_inj in Heq as [Hm Heq];
    [|apply key_text_plain, (lv_mint _ _ _ Ha)|apply key_text_plain, (lv_mint _ _ _ Hb)].
  apply app_sep_inj in Heq as [Hpool Hr]; [|by eapply pool_plain..].
  split_and!; [by apply protocol_str_inj|done..].
Qed.

(** The reference says what kind it is. *)
Lemma reference_signature now1 now2 a b sa sb :
  launch_valid bs58_decode now1 a -> launch_valid bs58_decode now2 b ->
  a.(le_signature) = Some sa -> b.(le_signature) = Some sb ->
  launch_reference a = launch_reference b -> sa = sb.
Proof.
  intros Ha Hb Hsa Hsb. unfold launch_reference. rewrite Hsa, Hsb.
  destruct (lv_signature _ _ _ Ha _ Hsa) as [Hna _]. destruct (lv_signature _ _ _ Hb _ Hsb) as [Hnb _].
  rewrite (proj2 (is_empty_false _) Hna), (proj2 (is_empty_false _) Hnb). by intros ?%app_inv_head.
Qed.

(** When the digest tells the two payloads apart, an event id names the launch:
    two valid events with the same id agree on protocol, mint, pool and on the
    reference to the chain, and when both know their signature it is the same. *)
Theorem event_id_names_the_launch now1 now2 a b
    (Ha : launch_valid bs58_decode now1 a) (Hb : launch_valid bs58_decode now2 b)
    (Hdigest : take 32 (sha256_hex (launch_payload a)) = take 32 (sha256_hex (launch_payload b)) ->
               launch_payload a = launch_payload b)
    (Hid : a.(le_event_id) = b.(le_event_id)) :
  a.(le_protocol) = b.(le_protocol) /\ a.(le_mint) = b.(le_mint)
  /\ default [] a.(le_pool) = default [] b.(le_pool) /\ launch_reference a = launch_reference b
  /\ agree a.(le_signature) b.(le_signature) = true
  /\ launch_dedup_key a = launch_dedup_key b.
Proof.
  rewrite (lv_id _ _ _ Ha), (lv_id _ _ _ Hb) in Hid. apply app_inv_head in Hid.
  destruct (payload_inj now1 now2 a b Ha Hb (Hdigest Hid)) as (Hp & Hm & Hpool & Hr).
  split_and!; try done.
  - unfold agree. destruct (le_signature a) as [sa|] eqn:Hsa; [|done].
    destruct (le_signature b) as [sb|] eqn:Hsb; [|done].
    apply bool_decide_eq_true_2. by apply (reference_signature now1 now2 a b).
  - unfold launch_dedup_key. by rewrite Hp, Hm.
Qed.

(** The door for launches that come as a record: what it builds is valid at the
    instant of the observation, when the record itself names keys, a well-formed
    signature and finite amounts. *)
Theorem manual_launch_valid `{!SdkKeysLaws} WSOL bonding_curve (l : TokenLaunch) seq raw
    (Hmint : is_Some (key_of_text l.(tl_mint)))
    (Hcreator : l.(tl_creator) = [] \/ is_Some (key_of_text l.(tl_creator)))
    (Hsig : forall sig, l.(tl_signature) = Some sig ->
       sig <> [] /\ exists bytes, bs58_decode sig = Some bytes /\ Z.of_nat (length bytes) = SIGNATURE_LEN)
    (Hslot : l.(tl_slot) <> Some 0)
    (Hcap : is_finite l.(tl_market_cap_sol) = true) (Hbuy : is_finite l.(tl_initial_buy_sol) = true)
    (Hraw : trim raw <> []) :
  let e := from_token_launch WSOL bonding_curve l seq raw in
  launch_valid bs58_decode l.(tl_observed_at) e /\ launch_age_ms l.(tl_observed_at) e = 0
  /\ launch_dedup_key e = l.(tl_mint).
Proof.
  intros e. destruct Hmint as [k Hk].
  split_and!; [|unfold launch_age_ms, span_since_ms, effective_ts; cbn; by rewrite Z.sub_diag|done].
  split; cbn; try done.
  - rewrite Hk. cbn. rewrite key_text_parse. by eexists.
  - rewrite key_text_parse. by eexists.
  - unfold MAX_CLOCK_SKEW_SECS, SECOND. lia.
Qed.
End Identity.

(** * The tracker *)

Definition positive_slot (o : option Z) (s : Z) : Prop := o = Some s /\ 0 < s.

Record tracks (t : SequenceTracker) (seen : list (option Z)) : Prop := mkTracks {
  tk_highest : forall h, t.(sq_highest_slot) = Some h ->
    (exists o, o ∈ seen /\ positive_slot o h) /\ forall o s, o ∈ seen -> positive_slot o s -> s <= h;
  tk_none : t.(sq_highest_slot) = None -> forall o s, o ∈ seen -> ~ positive_slot o s;
}.

Lemma tracks_new : tracks SequenceTracker_default [].
Proof. split; cbn; [done|]. intros _ o s Ho. by apply not_elem_of_nil in Ho. Qed.

(** One slot: it regressed exactly when a newer one was seen. *)
Lemma note_slot_step t seen o :
  tracks t seen ->
  ((note_slot o t).1 = true <-> exists s o' s', positive_slot o s /\ o' ∈ seen /\ positive_slot o' s' /\ s < s')
  /\ tracks (note_slot o t).2 (seen ++ [o]).
Proof.
  intros [Hh Hn].
  assert (Hin : forall o', o' ∈ seen ++ [o] <-> o' ∈ seen \/ o' = o)
    by (intros; by rewrite elem_of_app, list_elem_of_singleton).
  assert (Hskip : (forall s, ~ positive_slot o s) -> tracks t (seen ++ [o])).
  { intros Ho. split.
    - intros h Ht. destruct (Hh h Ht) as [(o' & Ho' & Hp) Hmax]. split.
      + exists o'. by rewrite Hin; eauto.
      + intros o1 s1 [H1| ->]%Hin Hs1; [by apply (Hmax o1)|by apply Ho in Hs1].
    - intros Ht o1 s1 [H1| ->]%Hin Hs1; [by apply (Hn Ht o1 s1)|by apply Ho in Hs1]. }
  unfold note_slot. destruct o as [s|]; [|split; [split; [done|by intros (? & ? & ? & [[=] _] & _)]
                                                |apply Hskip; by intros ? [[=] _]]].
  destruct (Z.ltb_spec 0 s) as [Hs|Hs]; cbn [negb].
  2:{ split; [split; [done|intros (? & ? & ? & [[= <-] ?] & _); lia]|apply Hskip; intros ? [[= <-] ?]; lia]. }
  destruct (sq_highest_slot t) as [h|] eqn:Ht.
  - destruct (Hh h eq_refl) as [(oh & Hoh & Hph) Hmax].
    destruct (Z.ltb_spec s h) as [Hlt|Hge]; cbn [fst snd].
    + split; [split; [|done]; intros _; exists s, oh, h; by split_and!|].
      split; cbn; [|done]. intros h' [= <-]. split.
      * exists oh. rewrite Hin. eauto.
      * intros o1 s1 [H1| ->]%Hin Hp1; [by apply (Hmax o1)|]. destruct Hp1 as [[= <-] _]. lia.
    + split; [split; [done|]|].
      * intros (s0 & o' & s' & [[= <-] _] & Ho' & Hp' & Hlt). specialize (Hmax o' s' Ho' Hp'). lia.
      * split; cbn; [|done]. intros h' [= <-]. split.
        { exists (Some s). split; [rewrite Hin; by right|done]. }
        intros o1 s1 [H1| ->]%Hin Hp1; [specialize (Hmax o1 s1 H1 Hp1); lia|]. destruct Hp1 as [[= <-] _]. lia.
  - cbn [fst snd]. split; [split; [done|]|].
    + intros (s0 & o' & s' & _ & Ho' & Hp' & _). by destruct (Hn eq_refl o' s' Ho').
    + split; cbn; [|done]. intros h' [= <-]. split.
      { exists (Some s). split; [rewrite Hin; by right|done]. }
      intros o1 s1 [H1| ->]%Hin Hp1; [by destruct (Hn eq_refl o1 s1)|]. destruct Hp1 as [[= <-] _]. lia.
Qed.

(** A run of notifications: each is reported exactly when an earlier one carried
    a newer slot, and the tracker holds the newest slot of the run. *)
Theorem slots_tracked slots :
  let r := note_slots slots SequenceTracker_default in
  tracks r.2 slots
  /\ forall i, r.1 !! i = Some true
       <-> exists o s j o' s', slots !! i = Some o /\ positive_slot o s
             /\ (j < i)%nat /\ slots !! j = Some o' /\ positive_slot o' s' /\ s < s'.
Proof.
  cut (forall seen t, tracks t seen ->
    let r := note_slots slots t in
    tracks r.2 (seen ++ slots)
    /\ forall i, r.1 !! i = Some true
         <-> exists o s o' s', slots !! i = Some o /\ positive_slot o s
               /\ o' ∈ seen ++ take i slots /\ positive_slot o' s' /\ s < s').
  { intros Hgen. destruct (Hgen [] _ tracks_new) as [Ht Hi]. split; [done|]. intros i. rewrite Hi.
    split.
    - intros (o & s & o' & s' & Ho & Hp & [j Hj]%list_elem_of_lookup & Hp' & Hlt).
      cbn in Hj. pose proof (lookup_lt_Some _ _ _ Hj) as Hl. rewrite length_take in Hl.
      rewrite lookup_take_lt in Hj by lia. exists o, s, j, o', s'. split_and!; try done. lia.
    - intros (o & s & j & o' & s' & Ho & Hp & Hj & Ho' & Hp' & Hlt). exists o, s, o', s'.
      split_and!; try done. cbn. apply list_elem_of_lookup. exists j. by rewrite lookup_take_lt. }
  induction slots as [|o slots IH]; intros seen t Ht.
  { cbn. rewrite app_nil_r. split; [done|]. intros i. split; [done|by intros (? & ? & ? & ? & ? & _)]. }
  cbn [note_slots]. destruct (note_slot_step t seen o Ht) as [Hr Ht'].
  destruct (IH _ _ Ht') as [Hend Hi]. cbn [fst snd]. split.
  { by rewrite <- app_assoc in Hend. }
  intros [|i]; cbn.
  - rewrite app_nil_r. split.
    + intros [= Hb]. apply Hr in Hb as (s & o' & s' & ?). exists o, s, o', s'. naive_solver.
    + intros (o1 & s & o' & s' & [= <-] & ?). f_equal. apply Hr. naive_solver.
  - rewrite Hi. by setoid_rewrite <- (assoc_L (++) seen [o]).
Qed.

(** * A concrete launch *)

(** Keys are odd scalar values, so a key has neither separator. *)
Definition sniper_keys : SdkKeys := {|
  find_program_address := fun seeds p => Z.of_nat (length (concat seeds)) + p;
  associated_token_address := fun owner mint program => owner + 2 * mint + 3 * program;
  key_text := fun k => [2 * k + 1];
  key_of_text := fun t => match t with [c] => if Z.odd c then Some (c / 2) else None | _ => None end;
|}.

Lemma sniper_keys_laws : @SdkKeysLaws sniper_keys.
Proof.
  intros k. cbn. rewrite Z.add_comm, Z.odd_add_mul_2. cbn. f_equal.
  rewrite Z.mul_comm, Z.div_add by lia. reflexivity.
Qed.

Lemma sniper_keys_plain : @SdkKeysPlain sniper_keys.
Proof.
  intros s [k Hk]. destruct s as [|c [|]]; [done| |done]. cbn in Hk.
  destruct (Z.odd c) eqn:Hc; [|done].
  split; intros Hx%list_elem_of_singleton; subst c; discriminate Hc.
Qed.

Definition demo_launch : TokenLaunch :=
  mkTokenLaunch [2001] (lit "Demo") (lit "DEMO") None [41] [] (f_lit 1 2) (f_of_Z 30) None None (Some 77)
    (Some (lit "sig")) None (100 * SECOND) LfPumpPortal None.

(** A signature decodes to 64 bytes. *)
Definition demo_bs58 (s : text) : option (list Z) := if is_empty s then None else Some (repeat 7 64).

Definition demo_event : LaunchEvent :=
  @from_token_launch _ sniper_keys 9 (fun m => m + 3) demo_launch 1 (lit "abcd").

Lemma demo_signature sig :
  Some (lit "sig") = Some sig ->
  sig <> [] /\ exists bytes, demo_bs58 sig = Some bytes /\ Z.of_nat (length bytes) = SIGNATURE_LEN.
Proof. intros [= <-]. split; [done|]. by exists (repeat 7 64). Qed.

Lemma manual_launch_valid_witness :
  @launch_valid _ sniper_keys demo_bs58 (100 * SECOND) demo_event
  /\ launch_age_ms (100 * SECOND) demo_event = 0 /\ launch_dedup_key demo_event = [2001].
Proof.
  apply (@manual_launch_valid _ sniper_keys demo_bs58 sniper_keys_laws 9 (fun m => m + 3) demo_launch 1
    (lit "abcd")).
  - by eexists.
  - right. by eexists.
  - exact demo_signature.
  - done.
  - done.
  - done.
  - done.
Defined.

Lemma demo_event_valid : @launch_valid _ sniper_keys demo_bs58 (100 * SECOND) demo_event.
Proof. apply (@validate_shape_exact _ sniper_keys). vm_compute. reflexivity. Qed.

Lemma dedup_key_names_the_launch_witness :
  demo_event.(le_mint) = demo_event.(le_mint) /\ demo_event.(le_protocol) = demo_event.(le_protocol).
Proof.
  apply (@dedup_key_names_the_launch _ sniper_keys sniper_keys_plain demo_bs58 (100 * SECOND) (100 * SECOND)
    demo_event demo_event demo_event_valid demo_event_valid). reflexivity.
Defined.

(** The same launch from the other feed: a second observation, later. *)
Definition demo_event_again : LaunchEvent :=
  @from_token_launch _ sniper_keys 9 (fun m => m + 3)
    (mkTokenLaunch [2001] (lit "Demo") (lit "DEMO") None [41] [] (f_lit 1 2) (f_of_Z 30) None None (Some 77)
       (Some (lit "sig")) None (101 * SECOND) LfSolanaLogs None) 9 (lit "ef").

Lemma event_id_names_the_launch_witness :
  demo_event.(le_event_id) = demo_event_again.(le_event_id)
  /\ demo_event.(le_protocol) = demo_event_again.(le_protocol)
  /\ demo_event.(le_mint) = demo_event_again.(le_mint)
  /\ default [] demo_event.(le_pool) = default [] demo_event_again.(le_pool)
  /\ launch_reference demo_event = launch_reference demo_event_again
  /\ agree demo_event.(le_signature) demo_event_again.(le_signature) = true
  /\ launch_dedup_key demo_event = launch_dedup_key demo_event_again.
Proof.
  split; [vm_compute; reflexivity|].
  apply (@event_id_names_the_launch _ sniper_keys sniper_keys_plain demo_bs58 (100 * SECOND) (101 * SECOND)
    demo_event demo_event_again demo_event_valid).
  - apply (@validate_shape_exact _ sniper_keys). vm_compute. reflexivity.
  - intros _. vm_compute. reflexivity.
  - vm_compute. reflexivity.
Defined.

(** A slot alone is not a signature: the same creation, reported by one feed with
    its signature and by another with its slot, has two event ids; the
    deduplication key is what meets. *)
Definition demo_event_slot_only : LaunchEvent :=
  @from_token_launch _ sniper_keys 9 (fun m => m + 3)
    (mkTokenLaunch [2001] (lit "Demo") (lit "DEMO") None [41] [] (f_lit 1 2) (f_of_Z 30) None None (Some 77)
       None None (101 * SECOND) LfSolanaLogs None) 9 (lit "ef").

Theorem feeds_meet_in_the_key_only :
  demo_event.(le_event_id) <> demo_event_slot_only.(le_event_id)
  /\ launch_dedup_key demo_event = launch_dedup_key demo_event_slot_only
  /\ validate_shape (libs := demo_risk_libs) (H := sniper_keys) demo_bs58 (101 * SECOND) demo_event_slot_only = Ok tt.
Proof. split_and!; vm_compute; congruence. Qed.
