(* ===== verification/SniperPipeline.v ===== *)
(** The vocabulary of the sniper's pipeline ([crates/module-sniper/src/pipeline.rs]):
    reasons, stages and the lifecycle of a launch, the choice of the route, the
    fee budget and the first checks.  The detail text of a refusal is left out,
    metrics too.  Times are nanoseconds. *)
From stdpp Require Import prelude countable gmap list strings.
From Stdlib Require Import ZArith Lia.
From S2P Require Import Prelude.
From S2P Require Import Text.
From S2P Require Import Float64.
From S2P Require Import Models.
From S2P Require Import Ownership.
From S2P Require Import LedgerEvent.
From S2P Require Import FeePolicy.
From S2P Require Import PumpLayout.
From S2P Require Import Risk.
From S2P Require Import AppState.
From S2P Require Import SniperSlippage.
From S2P Require Import SniperEvent.

#[local] Open Scope Z_scope.

(** * Reasons *)

Inductive SnipeReason : Type :=
  | SrInvalidEvent | SrStaleEvent | SrDuplicateEvent | SrInsufficientLiquidity | SrSlippageLimit
  | SrPriceImpactLimit | SrFeeLimit | SrExposureLimit | SrRiskRejected | SrExecutionUnavailable
  | SrKillSwitch | SrStrategyDisabled | SrInvalidRoute | SrInvalidState | SrTokenStateInvalid
  | SrPoolNotReady | SrConcentrationLimit | SrSymbolGated | SrOwnershipLost | SrHoneypotRisk.

#[export] Instance SnipeReason_eq_dec : EqDecision SnipeReason.
Proof. solve_decision. Defined.

Definition SnipeReason_as_str (r : SnipeReason) : text :=
  match r with
  | SrInvalidEvent => lit "INVALID_EVENT"
  | SrStaleEvent => lit "STALE_EVENT"
  | SrDuplicateEvent => lit "DUPLICATE_EVENT"
  | SrInsufficientLiquidity => lit "INSUFFICIENT_LIQUIDITY"
  | SrSlippageLimit => lit "SLIPPAGE_LIMIT"
  | SrPriceImpactLimit => lit "PRICE_IMPACT_LIMIT"
  | SrFeeLimit => lit "FEE_LIMIT"
  | SrExposureLimit => lit "EXPOSURE_LIMIT"
  | SrRiskRejected => lit "RISK_REJECTED"
  | SrExecutionUnavailable => lit "EXECUTION_UNAVAILABLE"
  | SrKillSwitch => lit "KILL_SWITCH"
  | SrStrategyDisabled => lit "STRATEGY_DISABLED"
  | SrInvalidRoute => lit "INVALID_ROUTE"
  | SrInvalidState => lit "INVALID_STATE"
  | SrTokenStateInvalid => lit "TOKEN_STATE_INVALID"
  | SrPoolNotReady => lit "POOL_NOT_READY"
  | SrConcentrationLimit => lit "CONCENTRATION_LIMIT"
  | SrSymbolGated => lit "SYMBOL_GATED"
  | SrOwnershipLost => lit "OWNERSHIP_LOST"
  | SrHoneypotRisk => lit "HONEYPOT_RISK"
  end.

Definition SnipeReason_ALL : list SnipeReason :=
  [SrInvalidEvent; SrStaleEvent; SrDuplicateEvent; SrInsufficientLiquidity; SrSlippageLimit;
   SrPriceImpactLimit; SrFeeLimit; SrExposureLimit; SrRiskRejected; SrExecutionUnavailable;
   SrKillSwitch; SrStrategyDisabled; SrInvalidRoute; SrInvalidState; SrTokenStateInvalid;
   SrPoolNotReady; SrConcentrationLimit; SrSymbolGated; SrOwnershipLost; SrHoneypotRisk].

(** [RejectReason::from_risk_code]. *)
Definition snipe_reason_of (code : option RiskCode) : SnipeReason :=
  match code with
  | Some (RcKillSwitch | RcGlobalKillSwitch) => SrKillSwitch
  | Some (RcModuleDisabled | RcSniperEmergencyDisabled) => SrStrategyDisabled
  | Some RcSlippageCap => SrSlippageLimit
  | Some c => if code_is_exposure_limit c then SrExposureLimit else SrRiskRejected
  | None => SrRiskRejected
  end.

(** * Stages *)

Inductive SniperStage : Type :=
  | SsDetected | SsValidated | SsRiskApproved | SsExecutionReady | SsSubmitted | SsConfirmed
  | SsRejected | SsFailed.

#[export] Instance SniperStage_eq_dec : EqDecision SniperStage.
Proof. solve_decision. Defined.

Definition SniperStage_as_str (s : SniperStage) : text :=
  match s with
  | SsDetected => lit "DETECTED"
  | SsValidated => lit "VALIDATED"
  | SsRiskApproved => lit "RISK_APPROVED"
  | SsExecutionReady => lit "EXECUTION_READY"
  | SsSubmitted => lit "SUBMITTED"
  | SsConfirmed => lit "CONFIRMED"
  | SsRejected => lit "REJECTED"
  | SsFailed => lit "FAILED"
  end.

Definition SniperStage_ALL : list SniperStage :=
  [SsDetected; SsValidated; SsRiskApproved; SsExecutionReady; SsSubmitted; SsConfirmed; SsRejected;
   SsFailed].

Definition snipe_terminal (s : SniperStage) : bool :=
  match s with SsConfirmed | SsRejected | SsFailed => true | _ => false end.

Definition can_transition_to (s next : SniperStage) : bool :=
  match s, next with
  | SsDetected, SsValidated | SsValidated, SsRiskApproved | SsRiskApproved, SsExecutionReady
  | SsExecutionReady, SsSubmitted | SsSubmitted, SsConfirmed
  | (SsDetected | SsValidated | SsRiskApproved | SsExecutionReady), SsRejected
  | (SsExecutionReady | SsSubmitted), SsFailed => true
  | _, _ => false
  end.

Record SnipeRejection : Type := mkSnipeRejection { sj_reason : SnipeReason; sj_stage : SniperStage }.

(** * Latency *)

Record LatencyTimeline : Type := mkLatencyTimeline {
  lt_event_at : option Z;
  lt_observed_at : option Z;
  lt_detected_at : option Z;
  lt_validated_at : option Z;
  lt_risk_at : option Z;
  lt_built_at : option Z;
  lt_submitted_at : option Z;
  lt_confirmed_at : option Z;
}.

Definition span_ms (from_ to_ : option Z) : option Z :=
  to ← to_; from ← from_; Some (span_since_ms from to).

Definition detection_ms (t : LatencyTimeline) : option Z := span_ms t.(lt_event_at) t.(lt_observed_at).
Definition validation_ms (t : LatencyTimeline) : option Z := span_ms t.(lt_detected_at) t.(lt_validated_at).
Definition risk_ms (t : LatencyTimeline) : option Z := span_ms t.(lt_validated_at) t.(lt_risk_at).
Definition build_ms (t : LatencyTimeline) : option Z := span_ms t.(lt_risk_at) t.(lt_built_at).
Definition submission_ms (t : LatencyTimeline) : option Z := span_ms t.(lt_built_at) t.(lt_submitted_at).
Definition confirmation_ms (t : LatencyTimeline) : option Z :=
  span_ms t.(lt_submitted_at) t.(lt_confirmed_at).

Definition last_mark (t : LatencyTimeline) : option Z :=
  option_or (option_or (option_or (option_or (option_or t.(lt_confirmed_at) t.(lt_submitted_at))
    t.(lt_built_at)) t.(lt_risk_at)) t.(lt_validated_at)) t.(lt_detected_at).

Definition total_ms (t : LatencyTimeline) : option Z := span_ms t.(lt_observed_at) (last_mark t).

(** * The lifecycle *)

Record Lifecycle : Type := mkLifecycle {
  lc_event_id : text;
  lc_protocol : LaunchProtocol;
  lc_stage : SniperStage;
  lc_history : list (SniperStage * Z);
  lc_timeline : LatencyTimeline;
  lc_rejection : option SnipeRejection;
}.

Definition Lifecycle_start (event_id : text) (protocol : LaunchProtocol) (event_at observed_at now : Z)
    : Lifecycle :=
  mkLifecycle event_id protocol SsDetected [(SsDetected, now)]
    (mkLatencyTimeline (Some event_at) (Some observed_at) (Some now) None None None None None) None.

(** The mark of the stage that is entered. *)
Definition marked_at (next : SniperStage) (now : Z) (t : LatencyTimeline) : LatencyTimeline :=
  let '(mkLatencyTimeline ev ob de va ri bu su co) := t in
  match next with
  | SsValidated => mkLatencyTimeline ev ob de (Some now) ri bu su co
  | SsRiskApproved => mkLatencyTimeline ev ob de va (Some now) bu su co
  | SsExecutionReady => mkLatencyTimeline ev ob de va ri (Some now) su co
  | SsSubmitted => mkLatencyTimeline ev ob de va ri bu (Some now) co
  | SsConfirmed => mkLatencyTimeline ev ob de va ri bu su (Some now)
  | SsDetected | SsRejected | SsFailed => t
  end.

Definition entered_stage (next : SniperStage) (now : Z) (l : Lifecycle) : Lifecycle :=
  mkLifecycle l.(lc_event_id) l.(lc_protocol) next (l.(lc_history) ++ [(next, now)])
    l.(lc_timeline) l.(lc_rejection).

Definition lc_advance (next : SniperStage) (now : Z) (l : Lifecycle)
    : (unit + SnipeRejection) * Lifecycle :=
  if negb (can_transition_to l.(lc_stage) next)
  then (inr (mkSnipeRejection SrInvalidState l.(lc_stage)), l)
  else
    let l' := entered_stage next now l in
    (inl tt, mkLifecycle l'.(lc_event_id) l'.(lc_protocol) l'.(lc_stage) l'.(lc_history)
               (marked_at next now l'.(lc_timeline)) l'.(lc_rejection)).

Definition with_rejection (r : SnipeRejection) (l : Lifecycle) : Lifecycle :=
  mkLifecycle l.(lc_event_id) l.(lc_protocol) l.(lc_stage) l.(lc_history) l.(lc_timeline) (Some r).

Definition lc_reject (reason : SnipeReason) (now : Z) (l : Lifecycle) : SnipeRejection * Lifecycle :=
  let r := mkSnipeRejection reason l.(lc_stage) in
  let l' := if can_transition_to l.(lc_stage) SsRejected then entered_stage SsRejected now l
            else if can_transition_to l.(lc_stage) SsFailed then entered_stage SsFailed now l
            else l in
  (r, with_rejection r l').

Definition lc_fail (now : Z) (l : Lifecycle) : SnipeRejection * Lifecycle :=
  let r := mkSnipeRejection SrExecutionUnavailable l.(lc_stage) in
  let l' := if can_transition_to l.(lc_stage) SsFailed then entered_stage SsFailed now l else l in
  (r, with_rejection r l').

Fixpoint join_text (sep : text) (l : list text) : text :=
  match l with
  | [] => []
  | [x] => x
  | x :: l => x ++ sep ++ join_text sep l
  end.

Definition lc_path (l : Lifecycle) : text :=
  join_text (lit ">") (map (fun h => SniperStage_as_str h.1) l.(lc_history)).

(** * Routes *)

Inductive SnipeRoute : Type :=
  | SnPumpCurve | SnPumpSwapDirect | SnRaydiumV4Direct | SnRaydiumCpmmDirect
  | SnRaydiumLaunchLabDirect | SnJupiter.

#[export] Instance SnipeRoute_eq_dec : EqDecision SnipeRoute.
Proof. solve_decision. Defined.

Definition SnipeRoute_as_str (r : SnipeRoute) : text :=
  match r with
  | SnPumpCurve => lit "curve"
  | SnPumpSwapDirect => lit "pumpswap"
  | SnRaydiumV4Direct => lit "raydium"
  | SnRaydiumCpmmDirect => lit "raydium_cpmm"
  | SnRaydiumLaunchLabDirect => lit "raydium_launchlab"
  | SnJupiter => lit "jupiter"
  end.

Definition SnipeRoute_venue (r : SnipeRoute) : Venue :=
  match r with
  | SnPumpCurve => PumpFun
  | SnPumpSwapDirect => PumpSwap
  | SnRaydiumV4Direct => RaydiumAmmV4
  | SnRaydiumCpmmDirect => RaydiumCpmm
  | SnRaydiumLaunchLabDirect => RaydiumLaunchLab
  | SnJupiter => Jupiter
  end.

Definition protocol_routable (p : LaunchProtocol) (c : SniperConfig) : bool :=
  match p with
  | LpPumpFun => true
  | LpPumpSwap => c.(sn_trade_pumpswap) || c.(sn_use_jupiter_fallback)
  | LpRaydiumAmmV4 => c.(sn_trade_raydium) || c.(sn_use_jupiter_fallback)
  | LpRaydiumCpmm => c.(sn_trade_raydium_cpmm) || c.(sn_use_jupiter_fallback)
  | LpRaydiumLaunchLab => c.(sn_trade_raydium_launchlab) || c.(sn_use_jupiter_fallback)
  end.

(** Direct when it is on, else the aggregator when that is on. *)
Definition direct_or (direct : bool) (r : SnipeRoute) (c : SniperConfig) : option SnipeRoute :=
  if direct then Some r else if c.(sn_use_jupiter_fallback) then Some SnJupiter else None.

Definition select_route (p : LaunchProtocol) (c : SniperConfig) (curve_complete : bool) : option SnipeRoute :=
  match p with
  | LpPumpFun =>
      if negb curve_complete then Some SnPumpCurve
      else direct_or c.(sn_trade_pumpswap) SnPumpSwapDirect c
  | LpPumpSwap => direct_or c.(sn_trade_pumpswap) SnPumpSwapDirect c
  | LpRaydiumAmmV4 => direct_or c.(sn_trade_raydium) SnRaydiumV4Direct c
  | LpRaydiumCpmm => direct_or c.(sn_trade_raydium_cpmm) SnRaydiumCpmmDirect c
  | LpRaydiumLaunchLab => direct_or c.(sn_trade_raydium_launchlab) SnRaydiumLaunchLabDirect c
  end.

(** * The fee budget *)

Record FeeEstimate : Type := mkFeeEstimate {
  fe_priority_micro_lamports : Z;
  fe_compute_units : Z;
  fe_base_lamports : Z;
  fe_priority_lamports : Z;
  fe_tip_lamports : Z;
  fe_total_lamports : Z;
}.

Definition LAMPORTS_PER_SIGNATURE : Z := 5000.
Definition MAX_TRANSACTION_COMPUTE_UNITS : Z := 1400000.

Definition route_compute_units (r : SnipeRoute) (x : ExecutionConfig) : Z :=
  match r with
  | SnJupiter => MAX_TRANSACTION_COMPUTE_UNITS
  | _ => x.(xc_compute_unit_limit)
  end.

(** Micro-lamports per unit for so many units, in lamports rounded up. *)
Definition priority_lamports (micro units : Z) : Z := Z.min u64_max (cdiv (micro * units) 1000000).

Definition estimate_entry_fee (p : FeePolicy) (x : ExecutionConfig) (r : SnipeRoute) (attempts : Z)
    : FeeEstimate :=
  let micro := max_payable p x.(xc_priority_fee_micro_lamports) attempts in
  let units := route_compute_units r x in
  let priority := priority_lamports micro units in
  let tip := if x.(xc_use_jito) then x.(xc_jito_tip_lamports) else 0 in
  mkFeeEstimate micro units LAMPORTS_PER_SIGNATURE priority tip
    (saturating_add u64_max (saturating_add u64_max LAMPORTS_PER_SIGNATURE priority) tip).

Definition check_fee_budget (p : FeePolicy) (x : ExecutionConfig) (r : SnipeRoute)
    (attempts max_entry_fee_lamports : Z) : FeeEstimate + SnipeReason :=
  if would_refuse p x.(xc_priority_fee_micro_lamports) then inr SrFeeLimit
  else
    let e := estimate_entry_fee p x r attempts in
    if (0 <? max_entry_fee_lamports) && (max_entry_fee_lamports <? e.(fe_total_lamports))
    then inr SrFeeLimit
    else inl e.

(** * The first checks *)

Record PrecheckContext : Type := mkPrecheckContext {
  pk_kill_switch : bool;
  pk_module_enabled : bool;
  pk_emergency_disable : bool;
  pk_symbol_gated : bool;
}.

Section Precheck.
Context {libs : LedgerLibs} `{SdkKeys} (bs58_decode : text -> option (list Z)).

Definition precheck (e : LaunchEvent) (c : SniperConfig) (x : PrecheckContext) (now : Z)
    : outcome SnipeReason unit :=
  match validate_shape bs58_decode now e with
  | Ok _ => Ok tt
  | _ => Err SrInvalidEvent
  end ;;
  reject_if (negb (protocol_routable e.(le_protocol) c)) SrInvalidRoute ;;
  reject_if x.(pk_kill_switch) SrKillSwitch ;;
  reject_if (negb x.(pk_module_enabled)) SrStrategyDisabled ;;
  reject_if x.(pk_emergency_disable) SrStrategyDisabled ;;
  reject_if (launch_is_stale now c.(sn_max_launch_age_secs) e) SrStaleEvent ;;
  reject_if x.(pk_symbol_gated) SrSymbolGated.
End Precheck.

(** * The lifecycle is a path *)

Inductive lc_step : Lifecycle -> Lifecycle -> Prop :=
  | step_advance next now l : lc_step l (lc_advance next now l).2
  | step_reject reason now l : lc_step l (lc_reject reason now l).2
  | step_fail now l : lc_step l (lc_fail now l).2.

Definition lc_reach (l : Lifecycle) : Prop :=
  exists id p ev ob now, rtc lc_step (Lifecycle_start id p ev ob now) l.

(** How far a stage is. *)
Definition stage_rank (s : SniperStage) : nat :=
  match s with
  | SsDetected => 0 | SsValidated => 1 | SsRiskApproved => 2 | SsExecutionReady => 3
  | SsSubmitted => 4 | SsConfirmed | SsRejected | SsFailed => 5
  end.

(** A history that starts when the launch was detected and takes only steps of
    the table; the last entry comes first here. *)
Inductive history_path : list (SniperStage * Z) -> Prop :=
  | path_start now : history_path [(SsDetected, now)]
  | path_step s t next now h :
      history_path ((s, t) :: h) -> can_transition_to s next = true ->
      history_path ((next, now) :: (s, t) :: h).

Definition mark_of (s : SniperStage) (t : LatencyTimeline) : option Z :=
  match s with
  | SsDetected => t.(lt_detected_at)
  | SsValidated => t.(lt_validated_at)
  | SsRiskApproved => t.(lt_risk_at)
  | SsExecutionReady => t.(lt_built_at)
  | SsSubmitted => t.(lt_submitted_at)
  | SsConfirmed => t.(lt_confirmed_at)
  | SsRejected | SsFailed => None
  end.

Record lc_inv (l : Lifecycle) : Prop := mkLcInv {
  li_path : history_path (reverse l.(lc_history));
  li_last : exists t h, reverse l.(lc_history) = (l.(lc_stage), t) :: h;
  li_marks : forall s t, s <> SsRejected -> s <> SsFailed ->
    (s, t) ∈ l.(lc_history) <-> mark_of s l.(lc_timeline) = Some t;
}.

Lemma transition_rank s n : can_transition_to s n = true -> (stage_rank s < stage_rank n)%nat.
Proof. by destruct s, n; cbn; try lia. Qed.

Lemma path_rank h : history_path h ->
  forall s t h', h = (s, t) :: h' -> forall s' t', (s', t') ∈ h' -> (stage_rank s' < stage_rank s)%nat.
Proof.
  induction 1 as [now|s t next now h Hp IH Hs]; intros s1 t1 h1 [= <- <- <-] s' t' Hin.
  - by apply not_elem_of_nil in Hin.
  - apply transition_rank in Hs. apply elem_of_cons in Hin as [[= -> ->]|Hin]; [done|].
    specialize (IH s t h eq_refl s' t' Hin). lia.
Qed.

Lemma path_length h : history_path h ->
  forall s t h', h = (s, t) :: h' -> (length h <= S (stage_rank s))%nat.
Proof.
  induction 1 as [now|s t next now h Hp IH Hs]; intros s1 t1 h1 [= <- <- <-]; [cbn; lia|].
  apply transition_rank in Hs. specialize (IH s t h eq_refl). cbn [length] in *. lia.
Qed.

Lemma lc_inv_start id p ev ob now : lc_inv (Lifecycle_start id p ev ob now).
Proof.
  split; cbn; [constructor|by eexists _, _|].
  intros s t Hr Hf. rewrite list_elem_of_singleton. destruct s; cbn; split; intros Heq; simplify_eq; done.
Qed.

(** Entering a stage the table allows. *)
Lemma lc_inv_enter next now l :
  lc_inv l -> can_transition_to l.(lc_stage) next = true ->
  forall rj, lc_inv (mkLifecycle l.(lc_event_id) l.(lc_protocol) next (l.(lc_history) ++ [(next, now)])
            (marked_at next now l.(lc_timeline)) rj).
Proof.
  intros [Hp (t0 & h0 & Hl) Hm] Hs rj.
  assert (Hfresh : forall t, (next, t) ∉ lc_history l).
  { intros t Hin. rewrite <- (reverse_involutive (lc_history l)), elem_of_reverse, Hl in Hin.
    pose proof (transition_rank _ _ Hs).
    apply elem_of_cons in Hin as [[= Heq _]|Hin]; [rewrite <- Heq in *; lia|].
    pose proof (path_rank _ Hp _ _ _ Hl _ _ Hin). lia. }
  split; cbn [lc_history lc_stage lc_timeline lc_rejection]; try done.
  - rewrite reverse_snoc, Hl. constructor; [by rewrite <- Hl|done].
  - rewrite reverse_snoc. by eexists _, _.
  - intros s t Hr Hf. rewrite elem_of_app, list_elem_of_singleton, (Hm s t Hr Hf).
    destruct (decide (s = next)) as [->|Hne].
    + assert (Hnone : mark_of next (lc_timeline l) <> Some t) by (rewrite <- (Hm next t Hr Hf); apply Hfresh).
      assert (Hmark : mark_of next (marked_at next now (lc_timeline l)) = Some now \/ next = SsDetected)
        by (destruct (lc_timeline l), next; auto; done).
      destruct Hmark as [->| ->]; [|by destruct (lc_stage l)].
      split; [intros [Hc|[= ->]]; [by destruct Hnone|done]|intros [= ->]; by right].
    + assert (Hsame : mark_of s (marked_at next now (lc_timeline l)) = mark_of s (lc_timeline l))
        by (destruct (lc_timeline l), s, next; done).
      rewrite Hsame. split; [intros [Hc|[= -> ->]]; [done|by destruct Hne]|by left].
Qed.

Lemma lc_inv_same l l' :
  l.(lc_stage) = l'.(lc_stage) -> l.(lc_history) = l'.(lc_history) -> l.(lc_timeline) = l'.(lc_timeline) ->
  lc_inv l -> lc_inv l'.
Proof. intros Hs Hh Ht [H1 H2 H3]. split; by rewrite <- ?Hs, <- ?Hh, <- ?Ht. Qed.

Lemma lc_inv_close next now r l :
  lc_inv l -> can_transition_to l.(lc_stage) next = true -> next = SsRejected \/ next = SsFailed ->
  lc_inv (with_rejection r (entered_stage next now l)).
Proof.
  intros Hi Ht Hn. eapply lc_inv_same, (lc_inv_enter next now l Hi Ht (Some r)); try done.
  cbn. destruct Hn as [->| ->]; by destruct (lc_timeline l).
Qed.

Lemma lc_step_inv l l' : lc_inv l -> lc_step l l' -> lc_inv l'.
Proof.
  intros Hi Hs. destruct Hs as [next now l|reason now l|now l].
  - unfold lc_advance. destruct (can_transition_to _ _) eqn:Ht; cbn [negb fst snd]; [|done].
    by apply (lc_inv_enter next now l Hi Ht).
  - unfold lc_reject. cbn [snd].
    destruct (can_transition_to _ SsRejected) eqn:H1; [apply lc_inv_close; auto|].
    destruct (can_transition_to _ SsFailed) eqn:H2; [apply lc_inv_close; auto|].
    by eapply lc_inv_same, Hi.
  - unfold lc_fail. cbn [snd].
    destruct (can_transition_to _ SsFailed) eqn:H2; [apply lc_inv_close; auto|].
    by eapply lc_inv_same, Hi.
Qed.

(** The order of a snipe that goes through, and every course one can take: as far as
    any stage of it, refused before a transaction was submitted, or failed once one
    was built. *)
Definition SNIPE_ORDER : list SniperStage :=
  [SsDetected; SsValidated; SsRiskApproved; SsExecutionReady; SsSubmitted; SsConfirmed].

Definition snipe_course (stages : list SniperStage) : Prop :=
  exists k : nat,
    ((1 <= k <= 6)%nat /\ stages = take k SNIPE_ORDER)
    \/ ((1 <= k <= 4)%nat /\ stages = take k SNIPE_ORDER ++ [SsRejected])
    \/ ((4 <= k <= 5)%nat /\ stages = take k SNIPE_ORDER ++ [SsFailed]).

Definition lc_stages (l : Lifecycle) : list SniperStage := map fst l.(lc_history).

Ltac course_case k := destruct k as [|[|[|[|[|[|[|k]]]]]]]; try lia.

Lemma snipe_course_step stages s next :
  snipe_course stages -> last stages = Some s -> can_transition_to s next = true -> snipe_course (stages ++ [next]).
Proof.
  intros (k & [[Hk ->]|[[Hk ->]|[Hk ->]]]) Hl Ht; [|rewrite last_snoc in Hl; injection Hl as <-; by destruct next..].
  course_case k; cbn in Hl; injection Hl as <-; destruct next; try discriminate Ht.
  all: first [ by exists 2%nat; left; split; [lia|] | by exists 3%nat; left; split; [lia|]
             | by exists 4%nat; left; split; [lia|] | by exists 5%nat; left; split; [lia|]
             | by exists 6%nat; left; split; [lia|] | by exists 1%nat; right; left; split; [lia|]
             | by exists 2%nat; right; left; split; [lia|] | by exists 3%nat; right; left; split; [lia|]
             | by exists 4%nat; right; left; split; [lia|] | by exists 4%nat; right; right; split; [lia|]
             | by exists 5%nat; right; right; split; [lia|] ].
Qed.

(** A course and where it stands. *)
Definition lc_course (l : Lifecycle) : Prop :=
  snipe_course (lc_stages l) /\ last (lc_stages l) = Some l.(lc_stage).

Lemma lc_course_enter next now l tl rj :
  lc_course l -> can_transition_to l.(lc_stage) next = true ->
  lc_course (mkLifecycle l.(lc_event_id) l.(lc_protocol) next (l.(lc_history) ++ [(next, now)]) tl rj).
Proof.
  intros [Hc Hl] Ht. unfold lc_course, lc_stages. cbn [lc_history lc_stage]. rewrite map_app. cbn [map fst].
  split; [by eapply snipe_course_step|by rewrite last_snoc].
Qed.

Lemma lc_step_course l l' : lc_course l -> lc_step l l' -> lc_course l'.
Proof.
  intros Hc Hs. destruct Hs as [next now l|reason now l|now l].
  - unfold lc_advance. destruct (can_transition_to _ _) eqn:Ht; cbn [negb snd]; [|done].
    by apply (lc_course_enter next now l).
  - unfold lc_reject. cbn [snd].
    destruct (can_transition_to _ SsRejected) eqn:H1; [by apply (lc_course_enter SsRejected now l)|].
    destruct (can_transition_to _ SsFailed) eqn:H2; [by apply (lc_course_enter SsFailed now l)|done].
  - unfold lc_fail. cbn [snd].
    destruct (can_transition_to _ SsFailed) eqn:H2; [by apply (lc_course_enter SsFailed now l)|done].
Qed.

Lemma lc_reach_ok l : lc_reach l -> lc_inv l /\ lc_course l.
Proof.
  intros (id & p & ev & ob & now & Hr).
  eapply (rtc_ind_r (fun l => lc_inv l /\ lc_course l)); [|intros y z _ Hs [Hi Hc]|exact Hr].
  - split; [apply lc_inv_start|]. split; [exists 1%nat; left; split; [lia|done]|done].
  - split; [by eapply lc_step_inv|by eapply lc_step_course].
Qed.

(** A lifecycle that is taken from stage to stage. *)
Definition lc_taken (nexts : list SniperStage) (l : Lifecycle) : Lifecycle :=
  foldl (fun l next => (lc_advance next 0 l).2) l nexts.

Lemma lc_taken_steps nexts l : rtc lc_step l (lc_taken nexts l).
Proof. revert l. induction nexts as [|next nexts IH]; intros l; [done|]. eapply rtc_l; [by constructor|apply IH]. Qed.

Lemma snipe_course_taken stages : snipe_course stages -> exists l, lc_reach l /\ lc_stages l = stages.
Proof.
  intros Hc. exists (lc_taken (tail stages) (Lifecycle_start [] LpPumpFun 0 0 0)). split.
  - exists [], LpPumpFun, 0, 0, 0. apply lc_taken_steps.
  - destruct Hc as (k & [[Hk ->]|[[Hk ->]|[Hk ->]]]); course_case k; reflexivity.
Qed.

(** C20: The courses a snipe can take are exactly these: any beginning of detected,
    validated, risk-approved, execution-ready, submitted, confirmed, in that order
    and with none left out; such a beginning and then refused, when nothing was
    submitted; or such a beginning and then failed, when a transaction was built and
    not confirmed.  The history is the course, six entries at most, and ends where
    the lifecycle stands; a stage of the order is in the history at an instant
    exactly when the timeline's mark of that stage is that instant. *)
Theorem lifecycle_is_a_path :
  (forall l, lc_reach l ->
    snipe_course (lc_stages l) /\ last (lc_stages l) = Some l.(lc_stage)
    /\ (length l.(lc_history) <= 6)%nat
    /\ forall s t, s ∈ SNIPE_ORDER -> (s, t) ∈ l.(lc_history) <-> mark_of s l.(lc_timeline) = Some t)
  /\ (forall stages, snipe_course stages -> exists l, lc_reach l /\ lc_stages l = stages).
Proof.
  split; [|by apply snipe_course_taken]. intros l Hl. apply lc_reach_ok in Hl as [[Hp (t & h & Hh) Hm] [Hc Hlast]].
  split_and!; [done|done| |].
  - pose proof (path_length _ Hp _ _ _ Hh) as Hlen. rewrite length_reverse in Hlen.
    destruct (lc_stage l); cbn in Hlen; lia.
  - intros s t' Hs. apply Hm; intros ->; by repeat (apply elem_of_cons in Hs as [Hs|Hs]; [done|]);
      apply not_elem_of_nil in Hs.
Qed.

(** A refusal ends the lifecycle, wherever it was; nothing leaves its end. *)
Theorem refusal_terminates l reason now (Hopen : snipe_terminal l.(lc_stage) = false) :
  let l' := (lc_reject reason now l).2 in
  snipe_terminal l'.(lc_stage) = true
  /\ l'.(lc_rejection) = Some (mkSnipeRejection reason l.(lc_stage))
  /\ (l'.(lc_stage) = SsRejected <-> (stage_rank l.(lc_stage) < stage_rank SsSubmitted)%nat)
  /\ forall l'', lc_step l' l'' -> l''.(lc_stage) = l'.(lc_stage) /\ l''.(lc_history) = l'.(lc_history).
Proof.
  intros l'.
  assert (Hend : forall k k', snipe_terminal k.(lc_stage) = true -> lc_step k k' ->
    k'.(lc_stage) = k.(lc_stage) /\ k'.(lc_history) = k.(lc_history)).
  { intros k k' Hk Hs. assert (Hno : forall n, can_transition_to k.(lc_stage) n = false)
      by (intros n; destruct (lc_stage k), n; done).
    destruct Hs as [n t k|r t k|t k]; unfold lc_advance, lc_reject, lc_fail; by rewrite !Hno. }
  assert (Ht : snipe_terminal l'.(lc_stage) = true)
    by (unfold l', lc_reject; destruct (lc_stage l); done).
  split_and!; [done|done| |intros l''; by apply Hend].
  unfold l', lc_reject. destruct (lc_stage l); cbn; try discriminate Hopen; split; (done || lia).
Qed.

(** Two steps, then a refusal. *)
Definition demo_lifecycle : Lifecycle :=
  let l := Lifecycle_start (lit "evt") LpPumpFun 90 100 110 in
  (lc_reject SrKillSwitch 140 (lc_advance SsRiskApproved 130 (lc_advance SsValidated 120 l).2).2).2.

Lemma lifecycle_is_a_path_witness :
  lc_path demo_lifecycle = lit "DETECTED>VALIDATED>RISK_APPROVED>REJECTED"
  /\ snipe_course (lc_stages demo_lifecycle).
Proof.
  split; [reflexivity|]. apply lifecycle_is_a_path.
  exists (lit "evt"), LpPumpFun, 90, 100, 110.
  eapply rtc_l; [apply (step_advance SsValidated 120)|].
  eapply rtc_l; [apply (step_advance SsRiskApproved 130)|].
  eapply rtc_l; [apply (step_reject SrKillSwitch 140)|]. apply rtc_refl.
Defined.

Lemma refusal_terminates_witness :
  let l := (lc_advance SsValidated 120 (Lifecycle_start (lit "evt") LpPumpFun 90 100 110)).2 in
  snipe_terminal l.(lc_stage) = false
  /\ snipe_terminal (lc_reject SrKillSwitch 140 l).2.(lc_stage) = true.
Proof.
  split; [reflexivity|].
  apply (refusal_terminates (lc_advance SsValidated 120 (Lifecycle_start (lit "evt") LpPumpFun 90 100 110)).2
    SrKillSwitch 140 eq_refl).
Defined.

(** [fail] before a transaction was built records its rejection and leaves the
    lifecycle where it was. *)
Theorem early_failure_leaves_it_open :
  let l := (lc_fail 120 (Lifecycle_start (lit "evt") LpPumpFun 90 100 110)).2 in
  l.(lc_stage) = SsDetected /\ l.(lc_rejection) <> None.
Proof. by split. Qed.

(** * The route *)

(** The switch behind a direct route. *)
Definition route_switch (r : SnipeRoute) (c : SniperConfig) : bool :=
  match r with
  | SnPumpCurve => true
  | SnPumpSwapDirect => c.(sn_trade_pumpswap)
  | SnRaydiumV4Direct => c.(sn_trade_raydium)
  | SnRaydiumCpmmDirect => c.(sn_trade_raydium_cpmm)
  | SnRaydiumLaunchLabDirect => c.(sn_trade_raydium_launchlab)
  | SnJupiter => c.(sn_use_jupiter_fallback)
  end.

(** The choice of the route: a chosen route is switched on, the curve is chosen
    exactly for a pump.fun launch whose curve is open, the aggregator only when
    nothing direct is on, and there is no route exactly when the static check
    already said so or the curve of a pump.fun launch is complete with neither
    the pool nor the aggregator on. *)
Theorem route_choice_exact p c complete :
  match select_route p c complete with
  | Some r =>
      protocol_routable p c = true /\ route_switch r c = true
      /\ (r = SnPumpCurve <-> p = LpPumpFun /\ complete = false)
      /\ (r <> SnPumpCurve -> r <> SnJupiter ->
            SnipeRoute_venue r = if decide (p = LpPumpFun) then PumpSwap else LaunchProtocol_venue p)
  | None =>
      protocol_routable p c = false
      \/ p = LpPumpFun /\ complete = true /\ c.(sn_trade_pumpswap) = false
         /\ c.(sn_use_jupiter_fallback) = false
  end.
Proof.
  unfold select_route, direct_or, protocol_routable.
  destruct p, complete; cbn [negb];
    repeat match goal with |- context [if ?b then _ else _] => lazymatch b with
      | decide _ => fail | _ => destruct b eqn:? end end;
    cbn [route_switch orb SnipeRoute_venue LaunchProtocol_venue]; split_and?; naive_solver.
Qed.

(** * The fee budget *)

Lemma priority_lamports_mono a b units : 0 <= units -> a <= b -> priority_lamports a units <= priority_lamports b units.
Proof.
  intros Hu Hab. unfold priority_lamports. apply Z.min_le_compat_l.
  apply cdiv_le_iff; [lia|]. pose proof (cdiv_bounds (b * units) 1000000 ltac:(lia)). nia.
Qed.

(** What one attempt pays at the fee the engine decided. *)
Definition attempt_cost (x : ExecutionConfig) (route : SnipeRoute) (d : FeeDecision) : Z :=
  LAMPORTS_PER_SIGNATURE + priority_lamports d.(fd_fee) (route_compute_units route x)
  + (if x.(xc_use_jito) then x.(xc_jito_tip_lamports) else 0).

(** The budget holds at submission: when the check let an entry through, every
    attempt the engine may make, whatever the oracle quotes, is not refused by
    the fee policy and costs at most the estimate, and the estimate is within
    the operator's limit. *)
Theorem entry_fee_within_budget x route attempts limit e
    (Hmin : in_u64 x.(xc_fee_min_micro_lamports)) (Hmax : in_u64 x.(xc_fee_max_micro_lamports))
    (Hesc : 0 <= x.(xc_fee_escalation_pct)) (Hreq : in_u64 x.(xc_priority_fee_micro_lamports))
    (Hunits : 0 <= x.(xc_compute_unit_limit)) (Htip : in_u64 x.(xc_jito_tip_lamports))
    (Hlimit : 0 < limit < u64_max)
    (Hchk : check_fee_budget (fee_policy_of x) x route attempts limit = inl e) :
  e.(fe_total_lamports) <= limit
  /\ forall attempt oracle, 1 <= attempt <= attempts ->
       let d := decide_fee (fee_policy_of x) x.(xc_priority_fee_micro_lamports) oracle attempt in
       d.(fd_refused) = false /\ attempt_cost x route d <= e.(fe_total_lamports).
Proof.
  unfold check_fee_budget in Hchk.
  destruct (would_refuse _ _) eqn:Hw; [discriminate|].
  destruct ((0 <? limit) && _) eqn:Hb; [discriminate|]. injection Hchk as <-.
  rewrite (proj2 (Z.ltb_lt _ _)) in Hb by lia. apply Z.ltb_ge in Hb. split; [exact Hb|].
  intros attempt oracle Hat d.
  destruct (fee_within_limits x _ oracle attempt attempts Hmin Hmax Hesc Hreq Hat) as (Hr & _ & Href & Hpay).
  fold d in Hr, Href, Hpay. split.
  - unfold would_refuse in Hw. bool_to_prop. destruct (fd_refused d); [|done]. lia.
  - pose proof (fee_policy_of_ok x Hmin Hmax Hesc) as [Hp0 _ _ _ _].
    assert (Hcu : 0 <= route_compute_units route x)
      by (destruct route; cbn [route_compute_units]; unfold MAX_TRANSACTION_COMPUTE_UNITS; lia).
    pose proof (priority_lamports_mono _ _ _ Hcu Hpay) as Hm.
    revert Hb. unfold estimate_entry_fee, attempt_cost. cbn [fe_total_lamports].
    set (big := priority_lamports (max_payable _ _ _) _) in *. set (tip := if xc_use_jito x then _ else 0).
    assert (0 <= tip) by (unfold tip; destruct (xc_use_jito x); mlia).
    assert (0 <= big).
    { unfold big, priority_lamports. apply Z.min_glb; [mlia|].
      apply cdiv_nonneg; [|lia]. apply Z.mul_nonneg_nonneg; lia. }
    unfold saturating_add. intros Hb. lia.
Qed.

Lemma entry_fee_within_budget_witness :
  check_fee_budget (fee_policy_of ExecutionConfig_default) ExecutionConfig_default SnPumpCurve 3 3000000
    = inl (mkFeeEstimate 562500 400000 5000 225000 0 230000)
  /\ attempt_cost ExecutionConfig_default SnPumpCurve
       (decide_fee (fee_policy_of ExecutionConfig_default) 250000 (Some 9000000) 3) <= 230000.
Proof.
  split; [vm_compute; reflexivity|].
  refine (proj2 (proj2 (entry_fee_within_budget ExecutionConfig_default SnPumpCurve 3 3000000
    (mkFeeEstimate 562500 400000 5000 225000 0 230000) _ _ _ _ _ _ _ _) 3 (Some 9000000) _));
    first [vm_compute; reflexivity | cbn; mlia | lia].
Defined.

(** * The first checks *)

Section PrecheckFacts.
Context {libs : LedgerLibs} `{SdkKeys} (bs58_decode : text -> option (list Z)).

Lemma launch_fresh now max_age e :
  launch_is_stale now max_age e = false
  <-> max_age <= 0 \/ launch_age_ms now e <= saturating_mul u64_max max_age 1000.
Proof.
  unfold launch_is_stale. destruct (Z.leb_spec max_age 0); [naive_solver lia|].
  rewrite Z.ltb_ge. naive_solver lia.
Qed.

(** The first checks let a launch through exactly when it is well formed, has a
    route, nothing is stopped, it is young enough and its symbol is not gated. *)
Theorem precheck_exact e c x now :
  precheck bs58_decode e c x now = Ok tt
  <-> launch_valid bs58_decode now e /\ protocol_routable e.(le_protocol) c = true
      /\ x.(pk_kill_switch) = false /\ x.(pk_module_enabled) = true /\ x.(pk_emergency_disable) = false
      /\ (c.(sn_max_launch_age_secs) <= 0
          \/ launch_age_ms now e <= saturating_mul u64_max c.(sn_max_launch_age_secs) 1000)
      /\ x.(pk_symbol_gated) = false.
Proof.
  unfold precheck. rewrite <- validate_shape_exact, <- launch_fresh.
  destruct (validate_shape bs58_decode now e) as [[]|d|].
  2,3: split; [intros Hp; by inv_ok|by intros [Hv _]].
  split.
  - intros Hp. inv_ok. bool_to_prop. by split_and!.
  - by intros (_ & -> & -> & -> & -> & -> & ->).
Qed.
End PrecheckFacts.
