(* ===== verification/SniperGates.v ===== *)
(** The safety gates of the sniper ([crates/module-sniper/src/gates.rs]): thirteen
    checks of one market snapshot, each of which passes, fails or is skipped for
    want of its datum.  The detail text of a gate is left out. *)
From stdpp Require Import prelude countable gmap list strings.
From Stdlib Require Import ZArith Lia SpecFloat.
From S2P Require Import Prelude.
From S2P Require Import Text.
From S2P Require Import Float64.
From S2P Require Import Ownership.
From S2P Require Import SniperSlippage.
From S2P Require Import SniperEvent.
From S2P Require Import SniperPipeline.

#[local] Open Scope Z_scope.

Definition MAX_SANE_DECIMALS : Z := 12.

(** The verdict of the simulated sale ([token_safety.rs]). *)
Inductive SellProbeOutcome : Type := SpSellable | SpNotSellable | SpUnknown.

Record TokenHolder : Type := mkTokenHolder {
  th_address : text;
  th_pct_of_supply : f64;
  th_is_infrastructure : bool;
}.

Record BundlingSignal : Type := mkBundlingSignal { bn_first_slot_buyers : Z; bn_bundled_wallets : Z }.

Record MarketSnapshot : Type := mkMarketSnapshot {
  ms_protocol : LaunchProtocol;
  ms_pool : option text;
  ms_quote_reserve_lamports : Z;
  ms_pricing_quote_reserve_lamports : Z;
  ms_base_reserve_raw : Z;
  ms_base_decimals : Z;                       (* u8 *)
  ms_total_supply_raw : option Z;
  ms_fee_bps : Z;
  ms_tradable : bool;
  ms_tradable_detail : text;
  ms_pool_open_time : option Z;               (* unix seconds *)
  ms_mint_authority_revoked : option bool;
  ms_freeze_authority_revoked : option bool;
  ms_sell_probe : option SellProbeOutcome;
  ms_creator_initial_buy_sol : option f64;
  ms_top_holders : option (list TokenHolder);
  ms_bundling : option BundlingSignal;
  ms_spot_price_sol : f64;
  ms_fetched_at : Z;
}.

Definition snapshot_age_ms (now : Z) (s : MarketSnapshot) : Z := span_since_ms s.(ms_fetched_at) now.

Definition pool_supply_fraction (s : MarketSnapshot) : option f64 :=
  supply ← s.(ms_total_supply_raw);
  if supply =? 0 then None else Some (fdiv (f_of_Z s.(ms_base_reserve_raw)) (f_of_Z supply)).

(** * Outcomes *)

Inductive GateOutcome : Type := GatePass | GateFail | GateSkip.

#[export] Instance GateOutcome_eq_dec : EqDecision GateOutcome.
Proof. solve_decision. Defined.

Definition GateOutcome_as_str (o : GateOutcome) : text :=
  match o with GatePass => lit "pass" | GateFail => lit "fail" | GateSkip => lit "skip" end.

Definition pass_if (b : bool) : GateOutcome := if b then GatePass else GateFail.

Definition GATE_POOL_STATE : text := lit "pool_state".
Definition GATE_POOL_OPEN_TIME : text := lit "pool_open_time".
Definition GATE_MINT_AUTHORITY : text := lit "mint_authority".
Definition GATE_FREEZE_AUTHORITY : text := lit "freeze_authority".
Definition GATE_SELL_SIMULATION : text := lit "sell_simulation".
Definition GATE_MIN_LIQUIDITY : text := lit "min_liquidity".
Definition GATE_PRICE_SANE : text := lit "price_sane".
Definition GATE_DECIMALS_SANE : text := lit "decimals_sane".
Definition GATE_CREATOR_CONCENTRATION : text := lit "creator_concentration".
Definition GATE_HOLDER_CONCENTRATION : text := lit "holder_concentration".
Definition GATE_BUNDLER_DETECTION : text := lit "bundler_detection".
Definition GATE_POOL_SUPPLY_FRACTION : text := lit "pool_supply_fraction".
Definition GATE_SNAPSHOT_FRESHNESS : text := lit "snapshot_freshness".

Definition ALL_GATES : list text :=
  [GATE_POOL_STATE; GATE_POOL_OPEN_TIME; GATE_MINT_AUTHORITY; GATE_FREEZE_AUTHORITY;
   GATE_SELL_SIMULATION; GATE_MIN_LIQUIDITY; GATE_PRICE_SANE; GATE_DECIMALS_SANE;
   GATE_CREATOR_CONCENTRATION; GATE_HOLDER_CONCENTRATION; GATE_BUNDLER_DETECTION;
   GATE_POOL_SUPPLY_FRACTION; GATE_SNAPSHOT_FRESHNESS].

Definition reason_for_gate (g : text) : SnipeReason :=
  if decide (g ∈ [GATE_POOL_STATE; GATE_POOL_OPEN_TIME]) then SrPoolNotReady
  else if decide (g ∈ [GATE_MINT_AUTHORITY; GATE_FREEZE_AUTHORITY; GATE_DECIMALS_SANE])
  then SrTokenStateInvalid
  else if decide (g = GATE_SELL_SIMULATION) then SrHoneypotRisk
  else if decide (g ∈ [GATE_MIN_LIQUIDITY; GATE_PRICE_SANE]) then SrInsufficientLiquidity
  else if decide (g ∈ [GATE_CREATOR_CONCENTRATION; GATE_HOLDER_CONCENTRATION;
                       GATE_BUNDLER_DETECTION; GATE_POOL_SUPPLY_FRACTION])
  then SrConcentrationLimit
  else if decide (g = GATE_SNAPSHOT_FRESHNESS) then SrStaleEvent
  else SrInvalidState.

(** * The report *)

Definition GateReport : Type := list (text * GateOutcome).

Definition gate_fails (strict : bool) (o : GateOutcome) : bool :=
  match o with GateFail => true | GateSkip => strict | GatePass => false end.

Fixpoint first_failure (strict : bool) (r : GateReport) : option text :=
  match r with
  | [] => None
  | (g, o) :: r => if gate_fails strict o then Some g else first_failure strict r
  end.

Definition gates_passed (strict : bool) (r : GateReport) : bool :=
  match first_failure strict r with None => true | Some _ => false end.

Definition gates_skipped (r : GateReport) : list text :=
  map fst (filter (fun x => x.2 = GateSkip) r).

Definition gate_summary (r : GateReport) : text :=
  join_text (lit ",") (map (fun x => x.1 ++ lit "=" ++ GateOutcome_as_str x.2) r).

(** * The gates *)

Definition open_time_gate (s : MarketSnapshot) (now : Z) : GateOutcome :=
  match s.(ms_pool_open_time) with
  | Some t => pass_if (negb ((i64_max <? t) || (now / SECOND <? t)))
  | None => if decide (s.(ms_protocol) = LpRaydiumAmmV4) then GateSkip else GatePass
  end.

Definition authority_gate (required : bool) (revoked : option bool) : GateOutcome :=
  if negb required then GatePass
  else match revoked with Some b => pass_if b | None => GateSkip end.

Definition sell_gate (s : MarketSnapshot) (c : SniperConfig) : GateOutcome :=
  if negb c.(sn_simulate_sell) then GatePass
  else
    match s.(ms_sell_probe) with
    | Some SpSellable => GatePass
    | Some SpNotSellable => GateFail
    | Some SpUnknown | None => if c.(sn_require_sell_probe) then GateFail else GateSkip
    end.

Definition liquidity_gate (s : MarketSnapshot) (c : SniperConfig) : GateOutcome :=
  let min_lamports := sol_to_lamports (fmax c.(sn_min_liquidity_sol) fzero) in
  if s.(ms_pricing_quote_reserve_lamports) =? 0 then GateFail
  else pass_if (negb ((0 <? min_lamports) && (s.(ms_quote_reserve_lamports) <? min_lamports))).

Definition price_gate (s : MarketSnapshot) : GateOutcome :=
  pass_if (is_finite s.(ms_spot_price_sol) && fltb fzero s.(ms_spot_price_sol)).

Definition creator_gate (s : MarketSnapshot) (c : SniperConfig) : GateOutcome :=
  if fleb c.(sn_max_creator_initial_buy_sol) fzero then GatePass
  else match s.(ms_creator_initial_buy_sol) with
       | Some buy => pass_if (negb (fltb c.(sn_max_creator_initial_buy_sol) buy))
       | None => GateSkip
       end.

(** [max_by] with [partial_cmp(..).unwrap_or(Equal)]: the first is kept only when
    it is greater. *)
Definition keep_greater (a b : TokenHolder) : TokenHolder :=
  if fltb b.(th_pct_of_supply) a.(th_pct_of_supply) then a else b.

Definition worst_holder (hs : list TokenHolder) : option TokenHolder :=
  match filter (fun h => h.(th_is_infrastructure) = false) hs with
  | [] => None
  | h :: hs => Some (fold_left keep_greater hs h)
  end.

Definition holder_gate (s : MarketSnapshot) (c : SniperConfig) : GateOutcome :=
  if fleb c.(sn_max_top_holder_pct) fzero then GatePass
  else match s.(ms_top_holders) with
       | Some hs => match worst_holder hs with
                    | Some h => pass_if (negb (fltb c.(sn_max_top_holder_pct) h.(th_pct_of_supply)))
                    | None => GatePass
                    end
       | None => GateFail
       end.

Definition bundler_ratio (b : BundlingSignal) : f64 :=
  fdiv (f_of_Z (Z.min b.(bn_bundled_wallets) b.(bn_first_slot_buyers))) (f_of_Z b.(bn_first_slot_buyers)).

Definition bundler_gate (s : MarketSnapshot) (c : SniperConfig) : GateOutcome :=
  if fleb c.(sn_max_bundler_ratio) fzero then GatePass
  else match s.(ms_bundling) with
       | Some b => if 0 <? b.(bn_first_slot_buyers)
                   then pass_if (negb (fleb c.(sn_max_bundler_ratio) (bundler_ratio b)))
                   else GateFail
       | None => GateFail
       end.

Definition supply_gate (s : MarketSnapshot) (c : SniperConfig) : GateOutcome :=
  if fleb c.(sn_min_pool_supply_fraction) fzero then GatePass
  else match pool_supply_fraction s with
       | Some f => pass_if (negb (fltb f c.(sn_min_pool_supply_fraction)))
       | None => GateSkip
       end.

(** [gates::evaluate]. *)
Definition evaluate_gates (s : MarketSnapshot) (c : SniperConfig) (now : Z) : GateReport :=
  [(GATE_POOL_STATE, pass_if s.(ms_tradable));
   (GATE_POOL_OPEN_TIME, open_time_gate s now);
   (GATE_MINT_AUTHORITY, authority_gate c.(sn_require_mint_authority_revoked) s.(ms_mint_authority_revoked));
   (GATE_FREEZE_AUTHORITY,
      authority_gate c.(sn_require_freeze_authority_revoked) s.(ms_freeze_authority_revoked));
   (GATE_SELL_SIMULATION, sell_gate s c);
   (GATE_MIN_LIQUIDITY, liquidity_gate s c);
   (GATE_PRICE_SANE, price_gate s);
   (GATE_DECIMALS_SANE, pass_if (s.(ms_base_decimals) <=? MAX_SANE_DECIMALS));
   (GATE_CREATOR_CONCENTRATION, creator_gate s c);
   (GATE_HOLDER_CONCENTRATION, holder_gate s c);
   (GATE_BUNDLER_DETECTION, bundler_gate s c);
   (GATE_POOL_SUPPLY_FRACTION, supply_gate s c);
   (GATE_SNAPSHOT_FRESHNESS, pass_if (snapshot_age_ms now s <=? c.(sn_max_snapshot_age_ms)))].

(** * What a passed report says *)

Record market_acceptable (strict : bool) (s : MarketSnapshot) (c : SniperConfig) (now : Z) : Prop :=
  mkMarketAcceptable {
  ma_tradable : s.(ms_tradable) = true;
  ma_open : forall t, s.(ms_pool_open_time) = Some t -> t <= i64_max /\ t <= now / SECOND;
  ma_open_known : strict = true -> s.(ms_protocol) = LpRaydiumAmmV4 -> s.(ms_pool_open_time) <> None;
  ma_mint : c.(sn_require_mint_authority_revoked) = true ->
    s.(ms_mint_authority_revoked) = Some true \/ s.(ms_mint_authority_revoked) = None /\ strict = false;
  ma_freeze : c.(sn_require_freeze_authority_revoked) = true ->
    s.(ms_freeze_authority_revoked) = Some true \/ s.(ms_freeze_authority_revoked) = None /\ strict = false;
  ma_sell : c.(sn_simulate_sell) = true ->
    s.(ms_sell_probe) = Some SpSellable
    \/ s.(ms_sell_probe) <> Some SpNotSellable /\ c.(sn_require_sell_probe) = false /\ strict = false;
  ma_priced : s.(ms_pricing_quote_reserve_lamports) <> 0;
  ma_liquidity : let least := sol_to_lamports (fmax c.(sn_min_liquidity_sol) fzero) in
    0 < least -> least <= s.(ms_quote_reserve_lamports);
  ma_price : is_finite s.(ms_spot_price_sol) = true /\ fltb fzero s.(ms_spot_price_sol) = true;
  ma_decimals : s.(ms_base_decimals) <= MAX_SANE_DECIMALS;
  ma_creator : fleb c.(sn_max_creator_initial_buy_sol) fzero = false ->
    match s.(ms_creator_initial_buy_sol) with
    | Some buy => fltb c.(sn_max_creator_initial_buy_sol) buy = false
    | None => strict = false
    end;
  ma_holders : fleb c.(sn_max_top_holder_pct) fzero = false ->
    exists hs, s.(ms_top_holders) = Some hs
      /\ forall h, worst_holder hs = Some h -> fltb c.(sn_max_top_holder_pct) h.(th_pct_of_supply) = false;
  ma_bundler : fleb c.(sn_max_bundler_ratio) fzero = false ->
    exists b, s.(ms_bundling) = Some b /\ 0 < b.(bn_first_slot_buyers)
      /\ fleb c.(sn_max_bundler_ratio) (bundler_ratio b) = false;
  ma_supply : fleb c.(sn_min_pool_supply_fraction) fzero = false ->
    match pool_supply_fraction s with
    | Some f => fltb f c.(sn_min_pool_supply_fraction) = false
    | None => strict = false
    end;
  ma_fresh : snapshot_age_ms now s <= c.(sn_max_snapshot_age_ms);
}.

Lemma gates_passed_cons strict g o r :
  gates_passed strict ((g, o) :: r) = negb (gate_fails strict o) && gates_passed strict r.
Proof. unfold gates_passed. cbn. by destruct (gate_fails strict o). Qed.

Lemma pass_if_ok strict b : negb (gate_fails strict (pass_if b)) = b.
Proof. by destruct b. Qed.

Lemma authority_ok strict required revoked :
  negb (gate_fails strict (authority_gate required revoked)) = true
  <-> (required = true -> revoked = Some true \/ revoked = None /\ strict = false).
Proof. destruct required, revoked as [[]|], strict; cbn; naive_solver. Qed.

Lemma open_time_ok strict s now :
  negb (gate_fails strict (open_time_gate s now)) = true
  <-> (forall t, s.(ms_pool_open_time) = Some t -> t <= i64_max /\ t <= now / SECOND)
      /\ (strict = true -> s.(ms_protocol) = LpRaydiumAmmV4 -> s.(ms_pool_open_time) <> None).
Proof.
  unfold open_time_gate. destruct (ms_pool_open_time s) as [t|].
  - rewrite pass_if_ok, negb_true_iff, orb_false_iff, !Z.ltb_ge. naive_solver.
  - destruct (decide (ms_protocol s = LpRaydiumAmmV4)), strict; naive_solver.
Qed.

Lemma sell_ok strict s c :
  negb (gate_fails strict (sell_gate s c)) = true
  <-> (c.(sn_simulate_sell) = true -> s.(ms_sell_probe) = Some SpSellable
       \/ s.(ms_sell_probe) <> Some SpNotSellable /\ c.(sn_require_sell_probe) = false /\ strict = false).
Proof.
  unfold sell_gate. destruct (sn_simulate_sell c), (ms_sell_probe s) as [[]|], (sn_require_sell_probe c), strict;
    cbn; naive_solver.
Qed.

Lemma liquidity_ok strict s c :
  negb (gate_fails strict (liquidity_gate s c)) = true
  <-> s.(ms_pricing_quote_reserve_lamports) <> 0
      /\ (let least := sol_to_lamports (fmax c.(sn_min_liquidity_sol) fzero) in
          0 < least -> least <= s.(ms_quote_reserve_lamports)).
Proof.
  unfold liquidity_gate. cbv zeta. set (least := sol_to_lamports _).
  destruct (Z.eqb_spec (ms_pricing_quote_reserve_lamports s) 0); [naive_solver|].
  rewrite pass_if_ok, negb_true_iff, andb_false_iff, !Z.ltb_ge. intuition lia.
Qed.

(** A threshold that is off, or a datum on the right side of it. *)
Lemma threshold_ok {A} strict (off : bool) (d : option A) (good : A -> bool) :
  negb (gate_fails strict (if off then GatePass
                           else match d with Some x => pass_if (good x) | None => GateSkip end)) = true
  <-> (off = false -> match d with Some x => good x = true | None => strict = false end).
Proof. destruct off, d; cbn; rewrite ?pass_if_ok; destruct strict; naive_solver. Qed.

Lemma creator_ok strict s c :
  negb (gate_fails strict (creator_gate s c)) = true
  <-> (fleb c.(sn_max_creator_initial_buy_sol) fzero = false ->
       match s.(ms_creator_initial_buy_sol) with
       | Some buy => fltb c.(sn_max_creator_initial_buy_sol) buy = false
       | None => strict = false
       end).
Proof.
  unfold creator_gate. rewrite threshold_ok. destruct (ms_creator_initial_buy_sol s); [|done].
  by rewrite negb_true_iff.
Qed.

Lemma supply_ok strict s c :
  negb (gate_fails strict (supply_gate s c)) = true
  <-> (fleb c.(sn_min_pool_supply_fraction) fzero = false ->
       match pool_supply_fraction s with
       | Some f => fltb f c.(sn_min_pool_supply_fraction) = false
       | None => strict = false
       end).
Proof.
  unfold supply_gate. rewrite threshold_ok. destruct (pool_supply_fraction s); [|done].
  by rewrite negb_true_iff.
Qed.

Lemma holder_ok strict s c :
  negb (gate_fails strict (holder_gate s c)) = true
  <-> (fleb c.(sn_max_top_holder_pct) fzero = false ->
       exists hs, s.(ms_top_holders) = Some hs
         /\ forall h, worst_holder hs = Some h -> fltb c.(sn_max_top_holder_pct) h.(th_pct_of_supply) = false).
Proof.
  unfold holder_gate. destruct (fleb _ _); [naive_solver|].
  destruct (ms_top_holders s) as [hs|]; [|naive_solver].
  destruct (worst_holder hs) eqn:Hw; [rewrite pass_if_ok, negb_true_iff|]; naive_solver.
Qed.

Lemma bundler_ok strict s c :
  negb (gate_fails strict (bundler_gate s c)) = true
  <-> (fleb c.(sn_max_bundler_ratio) fzero = false ->
       exists b, s.(ms_bundling) = Some b /\ 0 < b.(bn_first_slot_buyers)
         /\ fleb c.(sn_max_bundler_ratio) (bundler_ratio b) = false).
Proof.
  unfold bundler_gate. destruct (fleb (sn_max_bundler_ratio c) fzero); [naive_solver|].
  destruct (ms_bundling s) as [b|]; [|naive_solver].
  destruct (Z.ltb_spec 0 (bn_first_slot_buyers b)); [rewrite pass_if_ok, negb_true_iff|]; naive_solver lia.
Qed.

(** A report is passed exactly when the market is acceptable: every datum that
    is known is within its limit, and what is unknown is required neither by the
    strict mode nor by a gate that insists on it. *)
Theorem gates_passed_exact strict s c now :
  gates_passed strict (evaluate_gates s c now) = true <-> market_acceptable strict s c now.
Proof.
  unfold evaluate_gates. rewrite !gates_passed_cons, !pass_if_ok.
  change (gates_passed strict []) with true.
  rewrite !andb_true_iff, open_time_ok, !authority_ok, sell_ok, liquidity_ok, creator_ok, holder_ok,
    bundler_ok, supply_ok, !Z.leb_le.
  unfold price_gate. rewrite pass_if_ok, andb_true_iff.
  split.
  - intros (? & (? & ?) & ? & ? & ? & (? & ?) & (? & ?) & ? & ? & ? & ? & ? & ? & _). by split.
  - intros [? ? ? ? ? ? ? ? [? ?] ? ? ? ? ? ?]. split_and!; done.
Qed.

(** The strict mode refuses at least what the lenient one refuses, and a refusal
    names one of the gates, with a reason of its own. *)
Theorem failing_gate_named strict s c now g
    (Hfail : first_failure strict (evaluate_gates s c now) = Some g) :
  g ∈ ALL_GATES /\ reason_for_gate g <> SrInvalidState
  /\ gates_passed true (evaluate_gates s c now) = false
  /\ map fst (evaluate_gates s c now) = ALL_GATES.
Proof.
  assert (Hin : forall r, first_failure strict r = Some g ->
    g ∈ map fst r /\ gates_passed true r = false).
  { unfold gates_passed. induction r as [|[g' o] r IH]; [done|]. cbn.
    destruct o, strict; cbn; intros Hf; try (destruct (IH Hf) as [? Hp]; split; [by right|done]);
      injection Hf as ->; (split; [by left|done]). }
  destruct (Hin _ Hfail) as [Hg Hp]. change (map fst (evaluate_gates s c now)) with ALL_GATES in *.
  split_and!; [done| |done|done].
  clear Hfail Hin Hp. revert g Hg. apply Forall_forall. repeat constructor; discriminate.
Qed.

(** ** The holders *)

Lemma keep_greater_pct a b :
  is_nan a.(th_pct_of_supply) = false -> is_nan b.(th_pct_of_supply) = false ->
  let m := keep_greater a b in
  is_nan m.(th_pct_of_supply) = false /\ fleb a.(th_pct_of_supply) m.(th_pct_of_supply) = true
  /\ fleb b.(th_pct_of_supply) m.(th_pct_of_supply) = true.
Proof.
  intros Ha Hb m. unfold m, keep_greater. destruct (fltb _ _) eqn:Hlt.
  - split_and!; [done|by apply fleb_refl|by apply fltb_leb].
  - split_and!; [done|by apply fltb_false|by apply fleb_refl].
Qed.

Lemma fold_greatest hs : forall h,
  is_nan h.(th_pct_of_supply) = false -> Forall (fun k => is_nan k.(th_pct_of_supply) = false) hs ->
  let m := fold_left keep_greater hs h in
  m ∈ h :: hs /\ fleb h.(th_pct_of_supply) m.(th_pct_of_supply) = true
  /\ forall k, k ∈ hs -> fleb k.(th_pct_of_supply) m.(th_pct_of_supply) = true.
Proof.
  induction hs as [|k hs IH]; intros h Hh Hall; cbn [fold_left].
  { split_and!; [by left|by apply fleb_refl|]. intros k Hk. by apply not_elem_of_nil in Hk. }
  inversion_clear Hall as [|? ? Hk Hall'].
  destruct (keep_greater_pct h k Hh Hk) as (Hm & H1 & H2).
  destruct (IH _ Hm Hall') as (Hin & Hle & Hr). split_and!.
  - apply elem_of_cons in Hin as [->|Hin]; [|by right; right].
    unfold keep_greater. destruct (fltb _ _); [by left|by right; left].
  - by eapply fleb_trans.
  - intros k' [->|Hk']%elem_of_cons; [by eapply fleb_trans|by apply Hr].
Qed.

(** When every share in the table is a number, the gate passes exactly when no
    holder outside the infrastructure has more than the limit. *)
Theorem holder_gate_exact s c hs
    (Hon : fleb c.(sn_max_top_holder_pct) fzero = false) (Htable : s.(ms_top_holders) = Some hs)
    (Hnum : forall h, h ∈ hs -> h.(th_is_infrastructure) = false -> is_nan h.(th_pct_of_supply) = false) :
  holder_gate s c = GatePass
  <-> forall h, h ∈ hs -> h.(th_is_infrastructure) = false ->
      fltb c.(sn_max_top_holder_pct) h.(th_pct_of_supply) = false.
Proof.
  unfold holder_gate, worst_holder. rewrite Hon, Htable.
  assert (Hf : forall h, h ∈ filter (fun h => h.(th_is_infrastructure) = false) hs
    <-> h.(th_is_infrastructure) = false /\ h ∈ hs) by (intros h; by rewrite list_elem_of_filter).
  destruct (filter _ hs) as [|h0 tl].
  { split; [|done]. intros _ h Hin Hi. assert (h ∈ []) as [] %not_elem_of_nil by (by apply Hf). }
  assert (Hnum' : forall h, h ∈ h0 :: tl -> is_nan h.(th_pct_of_supply) = false)
    by (intros h [? ?]%Hf; by apply Hnum).
  destruct (fold_greatest tl h0) as (Hin & Hle & Hr).
  { by apply Hnum'; left. }
  { apply Forall_forall. intros k Hk. apply Hnum'. by right. }
  set (m := fold_left keep_greater tl h0) in *.
  split.
  - intros Hp h Hh Hi. destruct (fltb _ m.(th_pct_of_supply)) eqn:Hm; [done|].
    apply not_true_is_false. intros Hlt.
    assert (Hhm : fleb h.(th_pct_of_supply) m.(th_pct_of_supply) = true).
    { assert (Hc : h ∈ h0 :: tl) by (by apply Hf).
      apply elem_of_cons in Hc as [->|Hc]; [done|by apply Hr]. }
    by rewrite (fltb_leb_trans _ _ _ Hlt Hhm) in Hm.
  - intros Hall. apply Hf in Hin as [Hi Hin]. by rewrite (Hall m Hin Hi).
Qed.

(** * Concrete snapshots *)

Definition demo_snapshot (holders : list TokenHolder) : MarketSnapshot :=
  mkMarketSnapshot LpPumpFun None 5000000000 35000000000 900000000000000 6 (Some 1000000000000000) 100 true []
    None (Some true) (Some true) (Some SpSellable) (Some (f_lit 1 2)) (Some holders) None (f_lit 1 1000000)
    (100 * SECOND).

(** The default section with a limit of twenty percent for one holder. *)
Definition holder_config : SniperConfig :=
  {| sn_enabled := true; sn_buy_sol := f_lit 1 100; sn_slippage_pct := f_of_Z 15;
     sn_use_pumpportal := true; sn_pumpportal_ws_url := []; sn_pumpportal_api_key := None;
     sn_use_log_subscription := true; sn_use_transaction_subscribe := false; sn_trade_pumpswap := true;
     sn_trade_raydium := true; sn_trade_raydium_cpmm := false; sn_trade_raydium_launchlab := false;
     sn_use_jupiter_fallback := true; sn_take_profit_pct := Some fone; sn_stop_loss_pct := Some (f_lit 3 10);
     sn_trailing_stop_pct := Some (f_lit 1 4); sn_max_hold_secs := Some 3600;
     sn_take_profit_sell_fraction := fone; sn_monitor_positions := true; sn_pump_extra_accounts := [];
     sn_pump_append_bonding_curve_v2 := true; sn_pump_learn_account_layout := false;
     sn_pump_layout_file := []; sn_max_entry_latency_ms := 1000; sn_max_launch_age_secs := 30;
     sn_creator_denylist := []; sn_keyword_denylist := []; sn_slippage_mode := lit "fixed";
     sn_pumpswap_slippage_pct := None; sn_raydium_slippage_pct := None; sn_raydium_cpmm_slippage_pct := None;
     sn_raydium_launchlab_slippage_pct := None; sn_slippage_overrides_bps := ∅;
     sn_max_price_impact_bps := 2500; sn_max_entry_fee_lamports := 0; sn_min_liquidity_sol := fone;
     sn_require_mint_authority_revoked := true; sn_require_freeze_authority_revoked := true;
     sn_simulate_sell := true; sn_require_sell_probe := true; sn_max_creator_initial_buy_sol := fone;
     sn_min_pool_supply_fraction := f_lit 1 2; sn_max_top_holder_pct := f_of_Z 20;
     sn_max_bundler_ratio := fzero; sn_max_snapshot_age_ms := 2000; sn_strict_gates := true;
     sn_stale_position_exit_secs := 60; sn_exit_retry_backoff_secs := 10; sn_failed_entry_cleanup := true;
     sn_advanced_exit := None; sn_record_launch_dataset := false; sn_launch_dataset_dir := [];
     sn_launch_dataset_id := []; sn_launch_dataset_chunk_max_records := 1000;
     sn_launch_dataset_chunk_max_bytes := 4194304; sn_launch_dataset_channel_capacity := 1024 |}.

Definition holder_of (address : string) (pct : f64) : TokenHolder := mkTokenHolder (lit address) pct false.

(** A table that passes everything, and one with a holder over the limit. *)
Lemma demo_market_passes :
  gates_passed true (evaluate_gates (demo_snapshot [holder_of "a" (f_of_Z 7); holder_of "b" (f_of_Z 3)])
                       holder_config (101 * SECOND)) = true.
Proof. vm_compute. reflexivity. Qed.

Lemma failing_gate_named_witness :
  first_failure false (evaluate_gates (demo_snapshot [holder_of "a" (f_of_Z 70)]) holder_config (101 * SECOND))
    = Some GATE_HOLDER_CONCENTRATION
  /\ reason_for_gate GATE_HOLDER_CONCENTRATION <> SrInvalidState.
Proof.
  split; [vm_compute; reflexivity|].
  apply (failing_gate_named false (demo_snapshot [holder_of "a" (f_of_Z 70)]) holder_config (101 * SECOND)
    GATE_HOLDER_CONCENTRATION). vm_compute. reflexivity.
Defined.

Lemma holder_gate_exact_witness :
  fleb holder_config.(sn_max_top_holder_pct) fzero = false
  /\ (holder_gate (demo_snapshot [holder_of "a" (f_of_Z 7)]) holder_config = GatePass
      <-> forall h, h ∈ [holder_of "a" (f_of_Z 7)] -> h.(th_is_infrastructure) = false ->
          fltb holder_config.(sn_max_top_holder_pct) h.(th_pct_of_supply) = false).
Proof.
  split; [vm_compute; reflexivity|].
  apply (holder_gate_exact (demo_snapshot [holder_of "a" (f_of_Z 7)]) holder_config [holder_of "a" (f_of_Z 7)]).
  - vm_compute. reflexivity.
  - reflexivity.
  - intros h ->%list_elem_of_singleton _. vm_compute. reflexivity.
Defined.

(** A share that is not a number hides the holders before it: ninety percent in
    one hand pass a limit of twenty. *)
Theorem nan_share_hides_whale :
  holder_gate (demo_snapshot [holder_of "whale" (f_of_Z 90); holder_of "odd" SpecFloat.S754_nan; holder_of "b" (f_of_Z 3)])
    holder_config = GatePass
  /\ holder_gate (demo_snapshot [holder_of "whale" (f_of_Z 90); holder_of "b" (f_of_Z 3)]) holder_config
     = GateFail.
Proof. split; vm_compute; reflexivity. Qed.
