(* ===== verification/SniperExits.v ===== *)
(** When the sniper leaves a position ([crates/module-sniper/src/exit_policy.rs]
    and the deciding part of [exit.rs]): the advanced policy with its ladder, its
    break-even stop and its dev-sell trigger, the tracker of failed marks and
    sales, and the pass of the sweeper over the open positions.  What the pass
    asks for is the class [ExitWorld]: the ledger state of an entry, a mark, a
    claim, and the sale, which may change the books.  Reason texts are left out,
    times are nanoseconds, keys are [Z]. *)
From stdpp Require Import prelude countable gmap list strings sorting.
From Stdlib Require Import ZArith Lia.
From S2P Require Import Prelude.
From S2P Require Import BotCore.
From S2P Require Import Text.
From S2P Require Import Float64.
From S2P Require Import Models.
From S2P Require Import BotConfig.
From S2P Require Import Ownership.
From S2P Require Import ExecLedger.
From S2P Require Import AppState.
From S2P Require Import Risk.
From S2P Require Import SniperSlippage.

#[local] Open Scope Z_scope.

(** * The advanced policy *)

Record TpLevel : Type := mkTpLevel { tp_trigger_multiple : f64; tp_sell_fraction : f64 }.

Record BreakEvenConfig : Type := mkBreakEvenConfig { be_activation_multiple : f64; be_buffer : f64 }.

Record ExitPolicyConfig : Type := mkExitPolicyConfig {
  ep_ladder : list TpLevel;
  ep_break_even : option BreakEvenConfig;
  ep_dev_sell_ttl_secs : Z;
}.

Definition ExitPolicyConfig_default : ExitPolicyConfig := mkExitPolicyConfig [] None 0.

Definition level_usable (l : TpLevel) : bool :=
  is_finite l.(tp_trigger_multiple) && fltb fone l.(tp_trigger_multiple)
  && is_finite l.(tp_sell_fraction) && fltb fzero l.(tp_sell_fraction).

Definition level_clamped (l : TpLevel) : TpLevel :=
  mkTpLevel l.(tp_trigger_multiple) (fclamp l.(tp_sell_fraction) fzero fone).

(** [sort_by] is stable. *)
Fixpoint insert_level (x : TpLevel) (l : list TpLevel) : list TpLevel :=
  match l with
  | [] => [x]
  | y :: l' => if fltb y.(tp_trigger_multiple) x.(tp_trigger_multiple) then y :: insert_level x l'
               else x :: l
  end.

Definition sort_levels (l : list TpLevel) : list TpLevel := foldr insert_level [] l.

Definition break_even_normalized (b : BreakEvenConfig) : option BreakEvenConfig :=
  if negb (is_finite b.(be_activation_multiple)) || fleb b.(be_activation_multiple) fone then None
  else if negb (is_finite b.(be_buffer)) || fltb b.(be_buffer) fzero
  then Some (mkBreakEvenConfig b.(be_activation_multiple) fzero)
  else Some b.

(** [ExitPolicyConfig::normalized]. *)
Definition policy_normalized (c : ExitPolicyConfig) : ExitPolicyConfig :=
  mkExitPolicyConfig
    (sort_levels (map level_clamped (filter (fun l => level_usable l = true) c.(ep_ladder))))
    (b ← c.(ep_break_even); break_even_normalized b) c.(ep_dev_sell_ttl_secs).

Inductive AdvancedKind : Type := AkDevSell | AkBreakEven | AkLadderTp.

#[export] Instance AdvancedKind_eq_dec : EqDecision AdvancedKind.
Proof. solve_decision. Defined.

Record AdvancedExit : Type := mkAdvancedExit { ae_kind : AdvancedKind; ae_fraction : f64 }.

Record LadderState : Type := mkLadderState { ls_next_level : nat; ls_break_even_armed : bool }.

Definition LadderState_default : LadderState := mkLadderState O false.

Record ExitPolicyEngine : Type := mkExitPolicyEngine {
  pe_config : ExitPolicyConfig;
  pe_ladders : gmap text LadderState;
  pe_dev_sells : gmap Z Z;
}.

Definition ExitPolicyEngine_new (c : ExitPolicyConfig) : ExitPolicyEngine :=
  mkExitPolicyEngine (policy_normalized c) ∅ ∅.

Definition observe_dev_sell (mint at_ : Z) (e : ExitPolicyEngine) : ExitPolicyEngine :=
  mkExitPolicyEngine e.(pe_config) e.(pe_ladders)
    (<[mint := Z.max at_ (default at_ (e.(pe_dev_sells) !! mint))]> e.(pe_dev_sells)).

(** [to_std] refuses a negative span. *)
Definition within_ttl (now ts ttl_secs : Z) : bool :=
  (0 <=? now - ts) && (now - ts <=? ttl_secs * SECOND).

Definition policy_retain (live : list text) (now : Z) (e : ExitPolicyEngine) : ExitPolicyEngine :=
  let ttl := e.(pe_config).(ep_dev_sell_ttl_secs) in
  mkExitPolicyEngine e.(pe_config) (filter (fun kv => kv.1 ∈ live) e.(pe_ladders))
    (if 0 <? ttl then filter (fun kv => within_ttl now kv.2 ttl = true) e.(pe_dev_sells) else ∅).

Definition dev_sell_firing (mint now : Z) (e : ExitPolicyEngine) : bool :=
  let ttl := e.(pe_config).(ep_dev_sell_ttl_secs) in
  if ttl =? 0 then false
  else match e.(pe_dev_sells) !! mint with Some ts => within_ttl now ts ttl | None => false end.

Definition positive_price (p : f64) : bool := is_finite p && fltb fzero p.

(** The break-even stop: whether it is armed now, and whether it fires. *)
Definition break_even_step (c : ExitPolicyConfig) (avg_entry mark high_water : f64) (s : LadderState)
    : bool * LadderState :=
  match c.(ep_break_even) with
  | Some be =>
      let armed := s.(ls_break_even_armed)
                   || fleb (fmul avg_entry be.(be_activation_multiple)) high_water in
      (armed && fleb mark (fmul avg_entry (fadd fone be.(be_buffer))),
       mkLadderState s.(ls_next_level) armed)
  | None => (false, s)
  end.

Definition ladder_step (c : ExitPolicyConfig) (avg_entry mark : f64) (s : LadderState)
    : option AdvancedExit * LadderState :=
  match c.(ep_ladder) !! s.(ls_next_level) with
  | Some level =>
      if fleb (fmul avg_entry level.(tp_trigger_multiple)) mark
      then (Some (mkAdvancedExit AkLadderTp level.(tp_sell_fraction)),
            mkLadderState (S s.(ls_next_level)) s.(ls_break_even_armed))
      else (None, s)
  | None => (None, s)
  end.

Definition put_ladder (id : text) (s : LadderState) (e : ExitPolicyEngine) : ExitPolicyEngine :=
  mkExitPolicyEngine e.(pe_config) (<[id := s]> e.(pe_ladders)) e.(pe_dev_sells).

(** [ExitPolicyEngine::evaluate]. *)
Definition evaluate_policy (id : text) (mint : option Z) (avg_entry mark high_water : f64) (now : Z)
    (e : ExitPolicyEngine) : option AdvancedExit * ExitPolicyEngine :=
  if negb (positive_price mark && positive_price avg_entry) then (None, e)
  else if from_option (fun m => dev_sell_firing m now e) false mint
  then (Some (mkAdvancedExit AkDevSell fone), e)
  else
    let s := default LadderState_default (e.(pe_ladders) !! id) in
    let '(fires, s) := break_even_step e.(pe_config) avg_entry mark high_water s in
    if fires then (Some (mkAdvancedExit AkBreakEven fone), put_ladder id s e)
    else
      let '(x, s) := ladder_step e.(pe_config) avg_entry mark s in
      (x, put_ladder id s e).

(** [engine_from_config]. *)
Definition policy_of_config (c : AdvancedExitConfig) : ExitPolicyConfig :=
  mkExitPolicyConfig
    (map (fun l => mkTpLevel l.(tc_trigger_multiple) l.(tc_sell_fraction)) c.(ax_ladder))
    ((fun b => mkBreakEvenConfig b.(bc_activation_multiple) b.(bc_rule_buffer)) <$> c.(ax_break_even))
    c.(ax_dev_sell_ttl_secs).

Definition engine_from_config (c : option AdvancedExitConfig) : ExitPolicyEngine :=
  ExitPolicyEngine_new (from_option policy_of_config ExitPolicyConfig_default c).

(** * The tracker *)

Record ExitTracker : Type := mkExitTracker {
  et_mark_failed_since : gmap text Z;
  et_last_exit_failure : gmap text Z;
}.

Definition ExitTracker_default : ExitTracker := mkExitTracker ∅ ∅.

Definition mark_ok (id : text) (t : ExitTracker) : ExitTracker :=
  mkExitTracker (delete id t.(et_mark_failed_since)) t.(et_last_exit_failure).

Definition mark_failed (id : text) (now : Z) (t : ExitTracker) : Z * ExitTracker :=
  let since := default now (t.(et_mark_failed_since) !! id) in
  (Z.max (num_seconds (now - since)) 0,
   mkExitTracker (<[id := since]> t.(et_mark_failed_since)) t.(et_last_exit_failure)).

Definition unpriceable_secs (id : text) (now : Z) (t : ExitTracker) : Z :=
  match t.(et_mark_failed_since) !! id with
  | Some s => Z.max (num_seconds (now - s)) 0
  | None => 0
  end.

Definition exit_failed (id : text) (now : Z) (t : ExitTracker) : ExitTracker :=
  mkExitTracker t.(et_mark_failed_since) (<[id := now]> t.(et_last_exit_failure)).

Definition exit_done (id : text) (t : ExitTracker) : ExitTracker :=
  mkExitTracker (delete id t.(et_mark_failed_since)) (delete id t.(et_last_exit_failure)).

(** [backoff_secs as i64] wraps. *)
Definition in_backoff (id : text) (now backoff_secs : Z) (t : ExitTracker) : bool :=
  if backoff_secs =? 0 then false
  else match t.(et_last_exit_failure) !! id with
       | Some at_ => num_seconds (now - at_) <? wrap_i64 backoff_secs
       | None => false
       end.

Definition tracker_retain (live : list text) (t : ExitTracker) : ExitTracker :=
  mkExitTracker (filter (fun kv => kv.1 ∈ live) t.(et_mark_failed_since))
    (filter (fun kv => kv.1 ∈ live) t.(et_last_exit_failure)).

(** * What the ledger says of an entry *)

Inductive EntryFate : Type := FateHeld | FateUnknown | FateFailed.

#[export] Instance EntryFate_eq_dec : EqDecision EntryFate.
Proof. solve_decision. Defined.

Definition entry_fate (st : option ExecutionState) : EntryFate :=
  match st with
  | None | Some (ExConfirmed | ExReconciled) => FateHeld
  | Some (ExFailed | ExExpired) => FateFailed
  | Some _ => FateUnknown
  end.

(** * The sweeper *)

Class ExitWorld (W : Type) : Type := {
  world_now : W -> Z;
  world_mint : text -> option Z;
  world_entry_state : text -> W -> option ExecutionState;
  world_mark : Position -> W -> BotResult f64 * W;
  world_claim : text -> text -> W -> BotResult bool * W;
  world_release : text -> text -> W -> W;
  world_sell : Position -> f64 -> option ExitRule -> AppState * W -> BotResult unit * (AppState * W);
}.

Record Sweeper (W : Type) : Type := mkSweeper {
  sw_app : AppState;
  sw_tracker : ExitTracker;
  sw_policy : ExitPolicyEngine;
  sw_world : W;
}.
Arguments mkSweeper {W}. Arguments sw_app {W}. Arguments sw_tracker {W}. Arguments sw_policy {W}.
Arguments sw_world {W}.

Definition with_mark (mark : f64) (p : Position) : Position :=
  {| p_id := p.(p_id); p_opened_at := p.(p_opened_at); p_updated_at := p.(p_updated_at);
     p_closed_at := p.(p_closed_at); p_source := p.(p_source); p_venue := p.(p_venue);
     p_mode := p.(p_mode); p_status := p.(p_status); p_symbol := p.(p_symbol);
     p_symbol_display := p.(p_symbol_display); p_quote_symbol := p.(p_quote_symbol);
     p_qty := p.(p_qty); p_avg_entry := p.(p_avg_entry); p_cost_basis := p.(p_cost_basis);
     p_realized_quote := p.(p_realized_quote); p_realized_pnl_quote := p.(p_realized_pnl_quote);
     p_realized_at := p.(p_realized_at); p_last_mark := mark;
     p_stop_loss := p.(p_stop_loss); p_take_profit := p.(p_take_profit);
     p_trailing_stop := p.(p_trailing_stop);
     p_trailing_high_water := Some (from_option (fun high => fmax high mark) mark p.(p_trailing_high_water));
     p_max_hold_secs := p.(p_max_hold_secs); p_entry_signature := p.(p_entry_signature);
     p_exit_signature := p.(p_exit_signature); p_entry_latency_ms := p.(p_entry_latency_ms);
     p_copied_wallet := p.(p_copied_wallet); p_market_id := p.(p_market_id);
     p_outcome := p.(p_outcome); p_reason_closed := p.(p_reason_closed) |}.

Definition with_no_tokens (p : Position) : Position :=
  {| p_id := p.(p_id); p_opened_at := p.(p_opened_at); p_updated_at := p.(p_updated_at);
     p_closed_at := p.(p_closed_at); p_source := p.(p_source); p_venue := p.(p_venue);
     p_mode := p.(p_mode); p_status := p.(p_status); p_symbol := p.(p_symbol);
     p_symbol_display := p.(p_symbol_display); p_quote_symbol := p.(p_quote_symbol);
     p_qty := fzero; p_avg_entry := p.(p_avg_entry); p_cost_basis := fzero;
     p_realized_quote := p.(p_realized_quote); p_realized_pnl_quote := p.(p_realized_pnl_quote);
     p_realized_at := p.(p_realized_at); p_last_mark := p.(p_last_mark);
     p_stop_loss := p.(p_stop_loss); p_take_profit := p.(p_take_profit);
     p_trailing_stop := p.(p_trailing_stop); p_trailing_high_water := p.(p_trailing_high_water);
     p_max_hold_secs := p.(p_max_hold_secs); p_entry_signature := p.(p_entry_signature);
     p_exit_signature := p.(p_exit_signature); p_entry_latency_ms := p.(p_entry_latency_ms);
     p_copied_wallet := p.(p_copied_wallet); p_market_id := p.(p_market_id);
     p_outcome := p.(p_outcome); p_reason_closed := p.(p_reason_closed) |}.

(** The decision: the price rules, then the stale position, then the policy. *)
Definition stale_rule (sn : SniperConfig) (id : text) (now : Z) (t : ExitTracker) : bool :=
  (0 <? sn.(sn_stale_position_exit_secs)) && (sn.(sn_stale_position_exit_secs) <=? unpriceable_secs id now t).

Definition exit_decision (sn : SniperConfig) (mint : option Z) (now : Z) (p : Position) (s : AppState)
    (t : ExitTracker) (e : ExitPolicyEngine) : ExitDecision * ExitPolicyEngine :=
  let d := check_exit now p p.(p_last_mark) s in
  let d := if negb (should_exit d) && stale_rule sn p.(p_id) now t then forced StalePosition else d in
  if should_exit d then (d, e)
  else
    let r := evaluate_policy p.(p_id) mint p.(p_avg_entry) p.(p_last_mark)
               (default p.(p_avg_entry) p.(p_trailing_high_water)) now e in
    (match r.1 with Some a => exit_with Manual a.(ae_fraction) | None => d end, r.2).

Definition sale_fraction (sn : SniperConfig) (d : ExitDecision) : f64 :=
  if decide (d.(xd_rule) = Some TakeProfit) then fclamp sn.(sn_take_profit_sell_fraction) fzero fone
  else d.(xd_fraction).

Definition never_landed : text := lit "entry never landed (execution ledger: failed/expired)".

(** What became of one position in a pass. *)
Inductive SweepResult : Type :=
  | SwCleaned | SwHeldAmbiguous | SwBackoff | SwGone | SwHeld | SwClaimUnavailable | SwClaimLost
  | SwSold (fraction : f64) (rule : option ExitRule)
  | SwSaleFailed (fraction : f64) (rule : option ExitRule).

Section Sweep.
Context {W : Type} `{ExitWorld W} `{HashOrder} (sn : SniperConfig).

Abbreviation Sw := (Sweeper W).

Definition on_world {A} (f : W -> A * W) : St Sw A :=
  zoom sw_world (fun w s => mkSweeper s.(sw_app) s.(sw_tracker) s.(sw_policy) w) f.
Definition on_books {A} (f : AppState -> A * AppState) : St Sw A :=
  zoom sw_app (fun a s => mkSweeper a s.(sw_tracker) s.(sw_policy) s.(sw_world)) f.
Definition on_tracker {A} (f : ExitTracker -> A * ExitTracker) : St Sw A :=
  zoom sw_tracker (fun t s => mkSweeper s.(sw_app) t s.(sw_policy) s.(sw_world)) f.
Definition on_policy {A} (f : ExitPolicyEngine -> A * ExitPolicyEngine) : St Sw A :=
  zoom sw_policy (fun p s => mkSweeper s.(sw_app) s.(sw_tracker) p s.(sw_world)) f.
Definition on_sale {A} (f : AppState * W -> A * (AppState * W)) : St Sw A :=
  zoom (fun s => (s.(sw_app), s.(sw_world)))
    (fun p s => mkSweeper p.1 s.(sw_tracker) s.(sw_policy) p.2) f.

Definition do_ {T} (f : T -> T) : T -> unit * T := fun t => (tt, f t).

Definition clock : St Sw Z := gets (fun s => world_now s.(sw_world)).

(** Steps 1 and 2. *)
Definition fate_of (p : Position) (s : Sw) : EntryFate :=
  match p.(p_entry_signature) with
  | Some sig => if is_empty sig then FateHeld else entry_fate (world_entry_state sig s.(sw_world))
  | None => FateHeld
  end.

Definition cleanup_failed_entry (p : Position) : St Sw unit :=
  now ← clock;
  on_books (fun s => (tt, (with_position now p.(p_id) with_no_tokens s).2)) ;;
  now ← clock;
  on_books (fun s => (tt, (close_position now p.(p_id) PosFailed never_landed s).2)).

(** Step 3: the position with its mark, or nothing when it is gone. *)
Definition refresh_sniper_mark (now : Z) (p : Position) : St Sw (option Position) :=
  r ← on_world (world_mark p);
  match r with
  | Ok mark =>
      if positive_price mark then
        on_tracker (do_ (mark_ok p.(p_id))) ;;
        at_ ← clock;
        u ← on_books (with_position at_ p.(p_id) (fun q =>
              if PositionStatus_is_terminal q.(p_status) then q else with_mark mark q));
        match u with
        | Some q =>
            if PositionStatus_is_terminal q.(p_status) then mret None
            else
              at_ ← clock;
              on_books (do_ (set_unrealized at_ Sniper (unrealised q))) ;;
              mret (Some q)
        | None => mret None
        end
      else on_tracker (mark_failed p.(p_id) now) ;; mret (Some p)
  | _ => on_tracker (mark_failed p.(p_id) now) ;; mret (Some p)
  end.

(** The sale, under a claim of its own. *)
Definition sell_decided (p : Position) (d : ExitDecision) : St Sw SweepResult :=
  let rule := from_option ExitRule_as_str (lit "manual") d.(xd_rule) in
  let key := lit "exit:" ++ p.(p_id) ++ lit ":" ++ rule in
  let fraction := sale_fraction sn d in
  c ← on_world (world_claim key rule);
  match c with
  | Ok true =>
      r ← on_sale (world_sell p fraction d.(xd_rule));
      match r with
      | Ok _ => on_tracker (do_ (exit_done p.(p_id))) ;; mret (SwSold fraction d.(xd_rule))
      | _ =>
          on_world (do_ (world_release key rule)) ;;
          at_ ← clock;
          on_tracker (do_ (exit_failed p.(p_id) at_)) ;;
          on_books (do_ (record_error at_ Sniper (lit "exit " ++ p.(p_symbol)))) ;;
          mret (SwSaleFailed fraction d.(xd_rule))
      end
  | Ok false => mret SwClaimLost
  | _ => mret SwClaimUnavailable
  end.

(** Steps 4 and 5. *)
Definition decide_and_sell (now : Z) (p : Position) : St Sw SweepResult :=
  d ← (fun s => let r := exit_decision sn (world_mint p.(p_symbol)) now p s.(sw_app) s.(sw_tracker) s.(sw_policy) in
                (r.1, mkSweeper s.(sw_app) s.(sw_tracker) r.2 s.(sw_world)));
  if negb (should_exit d) then mret SwHeld else sell_decided p d.

Definition sweep_open_position (kill : bool) (p : Position) : St Sw SweepResult :=
  now ← clock;
  fate ← gets (fate_of p);
  if bool_decide (fate = FateFailed) && sn.(sn_failed_entry_cleanup) then
    cleanup_failed_entry p ;; mret SwCleaned
  else if bool_decide (fate = FateUnknown) && negb kill then mret SwHeldAmbiguous
  else
    t ← gets sw_tracker;
    if negb kill && in_backoff p.(p_id) now sn.(sn_exit_retry_backoff_secs) t then mret SwBackoff
    else
      p ← (if kill then mret (Some p) else refresh_sniper_mark now p);
      match p with
      | Some p => decide_and_sell now p
      | None => mret SwGone
      end.

Fixpoint sweep_open_positions (kill : bool) (ps : list Position) : St Sw (list SweepResult) :=
  match ps with
  | [] => mret []
  | p :: ps => r ← sweep_open_position kill p; rs ← sweep_open_positions kill ps; mret (r :: rs)
  end.

(** [sweep_once]; [signals] is what the dev-sell channel holds. *)
Definition sniper_sweep_once (signals : list (Z * Z)) : St Sw (list SweepResult) :=
  ps ← gets (fun s => open_positions_for Sniper s.(sw_app));
  let live := map p_id ps in
  on_tracker (do_ (tracker_retain live)) ;;
  on_policy (do_ (fun e => fold_left (fun e s => observe_dev_sell s.1 s.2 e) signals e)) ;;
  now ← clock;
  on_policy (do_ (policy_retain live now)) ;;
  kill ← gets (fun s => kill_switch s.(sw_app));
  sweep_open_positions kill ps.
End Sweep.

(** * The policy is what it says *)

Definition level_ok (l : TpLevel) : Prop :=
  is_finite l.(tp_trigger_multiple) = true /\ fltb fone l.(tp_trigger_multiple) = true
  /\ is_finite l.(tp_sell_fraction) = true /\ fltb fzero l.(tp_sell_fraction) = true
  /\ fleb l.(tp_sell_fraction) fone = true.

Definition break_even_ok (b : BreakEvenConfig) : Prop :=
  is_finite b.(be_activation_multiple) = true /\ fltb fone b.(be_activation_multiple) = true
  /\ is_finite b.(be_buffer) = true /\ fltb b.(be_buffer) fzero = false.

Definition trigger_le (a b : TpLevel) : Prop :=
  fleb a.(tp_trigger_multiple) b.(tp_trigger_multiple) = true.

Record exit_policy_ok (c : ExitPolicyConfig) : Prop := mkExitPolicyOk {
  ok_levels : Forall level_ok c.(ep_ladder);
  ok_sorted : StronglySorted trigger_le c.(ep_ladder);
  ok_break_even : forall b, c.(ep_break_even) = Some b -> break_even_ok b;
}.

Lemma insert_level_perm x l : insert_level x l ≡ₚ x :: l.
Proof.
  induction l as [|y l IH]; [done|]. cbn. destruct (fltb _ _); [|done]. rewrite IH. apply Permutation_swap.
Qed.

Lemma sort_levels_perm l : sort_levels l ≡ₚ l.
Proof. induction l as [|x l IH]; [done|]. cbn. by rewrite insert_level_perm, IH. Qed.

Lemma trigger_le_of_not_lt a b :
  level_ok a -> level_ok b -> fltb b.(tp_trigger_multiple) a.(tp_trigger_multiple) = false -> trigger_le a b.
Proof. intros (Ha & _) (Hb & _) Hn. apply fltb_false; auto using finite_not_nan. Qed.

Lemma insert_level_sorted x l :
  level_ok x -> Forall level_ok l -> StronglySorted trigger_le l -> StronglySorted trigger_le (insert_level x l).
Proof.
  intros Hx Hl Hs. induction Hs as [|y l Hs IH Hy]; cbn; [repeat constructor|].
  inversion_clear Hl as [|? ? Hyok Hlok].
  destruct (fltb _ _) eqn:Hlt.
  - constructor; [by apply IH|]. rewrite insert_level_perm. constructor; [by apply fltb_leb|done].
  - assert (Hle : trigger_le x y) by (by apply trigger_le_of_not_lt).
    constructor; [by constructor|]. constructor; [done|].
    eapply Forall_impl; [exact Hy|]. intros z Hz. by eapply fleb_trans.
Qed.

Lemma sort_levels_sorted l : Forall level_ok l -> StronglySorted trigger_le (sort_levels l).
Proof.
  induction 1 as [|x l Hx Hl IH]; [constructor|]. cbn. apply insert_level_sorted; [done| |done].
  by rewrite sort_levels_perm.
Qed.

(** Sorting what is sorted changes nothing: equal triggers keep their order. *)
Lemma sort_levels_id l : StronglySorted trigger_le l -> sort_levels l = l.
Proof.
  induction 1 as [|x l Hs IH Hx]; [done|]. cbn. fold (sort_levels l). rewrite IH. destruct l as [|y l]; [done|]. cbn.
  apply Forall_cons_1 in Hx as [Hxy _]. unfold trigger_le in Hxy.
  destruct (fltb _ _) eqn:Hlt; [|done]. pose proof (fltb_leb_trans _ _ _ Hlt Hxy) as Hc.
  by rewrite fltb_irrefl in Hc.
Qed.

Lemma fltb_asym a b : fltb a b = true -> fltb b a = false.
Proof.
  intros Hab. apply not_true_is_false. intros Hba.
  pose proof (fltb_leb_trans _ _ _ Hab (fltb_leb _ _ Hba)) as Hc. by rewrite fltb_irrefl in Hc.
Qed.

Lemma level_clamped_ok l : level_usable l = true -> level_ok (level_clamped l).
Proof.
  unfold level_usable, level_ok, level_clamped. intros Hu. bool_to_prop. cbn [tp_trigger_multiple tp_sell_fraction].
  assert (Hnl : fltb (tp_sell_fraction l) fzero = false) by (by apply fltb_asym).
  unfold fclamp. rewrite Hnl. destruct (fltb fone (tp_sell_fraction l)) eqn:Hgt.
  - by split_and!.
  - split_and!; try done. apply fltb_false; [done|by apply finite_not_nan|done].
Qed.

Lemma level_ok_usable l : level_ok l -> level_usable l = true /\ level_clamped l = l.
Proof.
  intros (H1 & H2 & H3 & H4 & H5). unfold level_usable. rewrite H1, H2, H3, H4. split; [done|].
  destruct l as [tm sf]. unfold level_clamped, fclamp. cbn [tp_trigger_multiple tp_sell_fraction] in *. f_equal.
  rewrite (fltb_asym fzero sf H4). destruct (fltb fone sf) eqn:Hgt; [|done].
  pose proof (fltb_leb_trans _ _ _ Hgt H5) as Hc. by rewrite fltb_irrefl in Hc.
Qed.

Lemma break_even_normalized_ok b b' : break_even_normalized b = Some b' -> break_even_ok b'.
Proof.
  unfold break_even_normalized, break_even_ok.
  destruct (negb (is_finite (be_activation_multiple b)) || _) eqn:Ha; [discriminate|].
  apply orb_false_iff in Ha as [Ha1 Ha2]. apply negb_false_iff in Ha1.
  apply fleb_false in Ha2; [|by apply finite_not_nan|done].
  destruct (negb (is_finite (be_buffer b)) || _) eqn:Hb; intros [= <-]; cbn; [by split_and!|].
  apply orb_false_iff in Hb as [Hb1 Hb2]. apply negb_false_iff in Hb1. by split_and!.
Qed.

Lemma break_even_ok_id b : break_even_ok b -> break_even_normalized b = Some b.
Proof.
  intros (H1 & H2 & H3 & H4). unfold break_even_normalized. rewrite H1, H3, H4.
  destruct (fleb _ fone) eqn:Hle; [|done]. pose proof (fltb_leb_trans _ _ _ H2 Hle) as Hc.
  by rewrite fltb_irrefl in Hc.
Qed.

Lemma policy_normalized_ok c : exit_policy_ok (policy_normalized c).
Proof.
  assert (Hl : Forall level_ok (map level_clamped (filter (fun l => level_usable l = true) c.(ep_ladder)))).
  { apply Forall_map, Forall_forall. intros l [Hu _]%list_elem_of_filter. by apply level_clamped_ok. }
  split; cbn.
  - by rewrite sort_levels_perm.
  - by apply sort_levels_sorted.
  - intros b Hb. destruct (ep_break_even c) as [b0|]; [|done]. by eapply break_even_normalized_ok.
Qed.

(** Normalizing leaves a policy in order: every rung above the entry and sells a
    part of the position, rungs ascend, the break-even stop is well formed;
    exactly the degenerate rungs are gone; and it does nothing a second time. *)
Theorem policy_normalization c :
  exit_policy_ok (policy_normalized c)
  /\ (policy_normalized c).(ep_ladder)
       ≡ₚ map level_clamped (filter (fun l => level_usable l = true) c.(ep_ladder))
  /\ (exit_policy_ok c -> policy_normalized c = c)
  /\ policy_normalized (policy_normalized c) = policy_normalized c.
Proof.
  assert (Hid : forall c, exit_policy_ok c -> policy_normalized c = c).
  { intros [ladder be ttl] [Hl Hs Hb]. unfold policy_normalized. cbn in *. f_equal.
    - assert (Heq : map level_clamped (filter (fun l => level_usable l = true) ladder) = ladder).
      { clear Hs. induction Hl as [|l ladder Hl _ IH]; [done|].
        destruct (level_ok_usable l Hl) as [Hu Hc]. rewrite filter_cons_True by done. cbn. by rewrite Hc, IH. }
      rewrite Heq. by apply sort_levels_id.
    - destruct be as [b|]; [|done]. by apply break_even_ok_id, Hb. }
  pose proof (policy_normalized_ok c) as Hok.
  split_and!; [done|apply sort_levels_perm|apply Hid|by apply Hid].
Qed.

(** ** Runs of the engine *)

Inductive PolicyCall : Type :=
  | PcEvaluate (id : text) (mint : option Z) (avg_entry mark high_water : f64) (now : Z)
  | PcDevSell (mint at_ : Z)
  | PcRetain (live : list text) (now : Z).

Definition policy_call (c : PolicyCall) (e : ExitPolicyEngine) : option AdvancedExit * ExitPolicyEngine :=
  match c with
  | PcEvaluate id mint avg mark hwm now => evaluate_policy id mint avg mark hwm now e
  | PcDevSell mint at_ => (None, observe_dev_sell mint at_ e)
  | PcRetain live now => (None, policy_retain live now e)
  end.

Fixpoint policy_run (cs : list PolicyCall) (e : ExitPolicyEngine)
    : list (PolicyCall * option AdvancedExit) * ExitPolicyEngine :=
  match cs with
  | [] => ([], e)
  | c :: cs => let r := policy_call c e in
               let rs := policy_run cs r.2 in
               ((c, r.1) :: rs.1, rs.2)
  end.

(** The position is held throughout. *)
Definition call_keeps (id : text) (c : PolicyCall) : Prop :=
  match c with PcRetain live _ => id ∈ live | _ => True end.

(** What the ladder sold of a position: entry, mark and fraction. *)
Definition ladder_sale (id : text) (x : PolicyCall * option AdvancedExit) : option (f64 * f64 * f64) :=
  match x with
  | (PcEvaluate id' _ avg mark _ _, Some a) =>
      if bool_decide (id' = id) && bool_decide (a.(ae_kind) = AkLadderTp)
      then Some (avg, mark, a.(ae_fraction)) else None
  | _ => None
  end.

Definition ladder_of (id : text) (e : ExitPolicyEngine) : LadderState :=
  default LadderState_default (e.(pe_ladders) !! id).

Definition sold_at (sale : f64 * f64 * f64) (l : TpLevel) : Prop :=
  sale.2 = l.(tp_sell_fraction) /\ fleb (fmul sale.1.1 l.(tp_trigger_multiple)) sale.1.2 = true.

Lemma ladder_of_put id id' s e :
  ladder_of id (put_ladder id' s e) = if decide (id' = id) then s else ladder_of id e.
Proof.
  unfold ladder_of, put_ladder. cbn [pe_ladders]. destruct (decide (id' = id)) as [->|Hne].
  - by rewrite lookup_insert_eq.
  - by rewrite lookup_insert_ne.
Qed.

Lemma break_even_step_spec c avg mark hwm s :
  let r := break_even_step c avg mark hwm s in
  r.2.(ls_next_level) = s.(ls_next_level)
  /\ (s.(ls_break_even_armed) = true -> r.2.(ls_break_even_armed) = true).
Proof.
  unfold break_even_step. destruct (ep_break_even c); cbn; [|done]. split; [done|]. by intros ->.
Qed.

(** One evaluation moves the cursor of its position by the rung it sells. *)
Lemma evaluate_policy_step id' mint avg mark hwm now e id :
  let r := evaluate_policy id' mint avg mark hwm now e in
  r.2.(pe_config) = e.(pe_config)
  /\ (if decide (id' = id) then
        match ladder_sale id (PcEvaluate id' mint avg mark hwm now, r.1) with
        | Some sale => exists l, e.(pe_config).(ep_ladder) !! (ladder_of id e).(ls_next_level) = Some l
            /\ sold_at sale l /\ (ladder_of id r.2).(ls_next_level) = S (ladder_of id e).(ls_next_level)
        | None => (ladder_of id r.2).(ls_next_level) = (ladder_of id e).(ls_next_level)
        end
      else ladder_sale id (PcEvaluate id' mint avg mark hwm now, r.1) = None
           /\ ladder_of id r.2 = ladder_of id e)
  /\ ((ladder_of id e).(ls_break_even_armed) = true -> (ladder_of id r.2).(ls_break_even_armed) = true).
Proof.
  unfold evaluate_policy, ladder_sale.
  destruct (negb (_ && _)); [cbn; destruct (decide (id' = id)); by split_and!|].
  destruct (from_option _ false mint).
  { cbn. rewrite andb_false_r. destruct (decide (id' = id)); by split_and!. }
  fold (ladder_of id' e). pose proof (break_even_step_spec (pe_config e) avg mark hwm (ladder_of id' e)) as Hb.
  destruct (break_even_step _ avg mark hwm (ladder_of id' e)) as [fires s]. cbn zeta in Hb. cbn [snd] in Hb.
  destruct Hb as [Hnext Harm]. destruct fires; cbn zeta.
  { cbn [fst snd ae_kind]. rewrite ladder_of_put, (bool_decide_eq_false_2 (AkBreakEven = AkLadderTp)), andb_false_r by done.
    split; [done|]. destruct (decide (id' = id)) as [->|]; by split. }
  unfold ladder_step. destruct (_ !! ls_next_level s) as [l|] eqn:Hl;
    [destruct (fleb _ mark) eqn:Hm|]; cbn [fst snd ae_kind ae_fraction]; rewrite ladder_of_put;
    (split; [done|]); destruct (decide (id' = id)) as [->|Hne];
    rewrite ?(bool_decide_eq_true_2 (id = id)), ?(bool_decide_eq_false_2 (id' = id)) by done; cbn [andb]; try by split.
  rewrite bool_decide_eq_true_2 by done. split; [|done].
  exists l. rewrite <- Hnext. by split_and!.
Qed.

Lemma ladder_of_retain live now e id : id ∈ live -> ladder_of id (policy_retain live now e) = ladder_of id e.
Proof.
  intros Hin. unfold ladder_of, policy_retain. cbn [pe_ladders]. f_equal.
  destruct (pe_ladders e !! id) as [s|] eqn:Hs.
  - by apply map_lookup_filter_Some_2.
  - by apply map_lookup_filter_None_2; left.
Qed.

(** The cursor counts the rungs sold. *)
Lemma ladder_run_gen id cs : forall e,
  Forall (call_keeps id) cs ->
  let r := policy_run cs e in
  let sales := omap (ladder_sale id) r.1 in
  let n := (ladder_of id e).(ls_next_level) in
  r.2.(pe_config) = e.(pe_config)
  /\ (ladder_of id r.2).(ls_next_level) = (n + length sales)%nat
  /\ Forall2 sold_at sales (take (length sales) (drop n e.(pe_config).(ep_ladder))).
Proof.
  induction cs as [|c cs IH]; intros e Hk; cbn [policy_run].
  { cbn. split_and!; [done|lia|]. constructor. }
  inversion_clear Hk as [|? ? Hc Hk']. cbv zeta. cbn [fst snd omap list_omap].
  destruct (IH (policy_call c e).2 Hk') as (Hcfg & Hn & Hf). clear IH.
  set (rest := omap (ladder_sale id) (policy_run cs (policy_call c e).2).1) in *.
  assert (Hsame : (policy_call c e).2.(pe_config) = e.(pe_config) ->
    ladder_sale id (c, (policy_call c e).1) = None ->
    (ladder_of id (policy_call c e).2).(ls_next_level) = (ladder_of id e).(ls_next_level) ->
    let sales := match ladder_sale id (c, (policy_call c e).1) with Some y => y :: rest | None => rest end in
    pe_config (policy_run cs (policy_call c e).2).2 = e.(pe_config)
    /\ (ladder_of id (policy_run cs (policy_call c e).2).2).(ls_next_level)
       = ((ladder_of id e).(ls_next_level) + length sales)%nat
    /\ Forall2 sold_at sales
         (take (length sales) (drop (ladder_of id e).(ls_next_level) e.(pe_config).(ep_ladder)))).
  { intros H1 H2 H3. rewrite H2. cbv zeta. rewrite H1, H3 in *. by split_and!. }
  destruct c as [id' mint avg mark hwm now|mint at_|live now]; cbn [policy_call fst snd] in *.
  - destruct (evaluate_policy_step id' mint avg mark hwm now e id) as (Hcfg' & Hstep & _).
    set (r := evaluate_policy id' mint avg mark hwm now e) in *.
    destruct (decide (id' = id)) as [Heq|Hne].
    + destruct (ladder_sale id _) as [sale|] eqn:Hsale; [|by apply Hsame].
      destruct Hstep as (l & Hl & Hsold & Hnext). rewrite Hcfg', Hnext in *. cbn [length].
      split_and!; [done|lia|]. rewrite (drop_S _ l) by done. cbn [take]. by constructor.
    + destruct Hstep as [Hnone Hladder]. apply Hsame; [done|done|by rewrite Hladder].
  - by apply Hsame.
  - apply Hsame; [done|done|]. by rewrite ladder_of_retain.
Qed.

(** C19: In one life of the engine, and as long as the position is among the open ones at
    every clean-up, the ladder's decisions for it name the rungs in order, each at
    most once and only at a mark that reaches it, whatever is evaluated, observed and
    dropped around it.  These are decisions: the cursor moves before the sale is
    made ([failed_rung_is_lost]), and a new engine starts at the first rung again
    ([restart_sells_rung_again]). *)
Theorem ladder_sells_in_order cfg id cs
    (Hk : Forall (call_keeps id) cs) :
  let r := policy_run cs (ExitPolicyEngine_new cfg) in
  let sales := omap (ladder_sale id) r.1 in
  let ladder := (policy_normalized cfg).(ep_ladder) in
  (length sales <= length ladder)%nat
  /\ Forall2 sold_at sales (take (length sales) ladder)
  /\ (ladder_of id r.2).(ls_next_level) = length sales.
Proof.
  intros r sales ladder. destruct (ladder_run_gen id cs (ExitPolicyEngine_new cfg) Hk) as (_ & Hn & Hf).
  fold r sales in Hn, Hf. cbn [ExitPolicyEngine_new pe_config] in Hf. change (drop _ _) with ladder in Hf.
  split_and!; [|done|done].
  pose proof (Forall2_length _ _ _ Hf) as Hl. rewrite length_take in Hl. lia.
Qed.

Lemma armed_kept id cs : forall e,
  Forall (call_keeps id) cs -> (ladder_of id e).(ls_break_even_armed) = true ->
  (ladder_of id (policy_run cs e).2).(ls_break_even_armed) = true.
Proof.
  induction cs as [|c cs IH]; intros e Hk Ha; [done|]. inversion_clear Hk as [|? ? Hc Hk']. cbn.
  apply IH; [done|]. destruct c as [id' mint avg mark hwm now|mint at_|live now]; cbn [policy_call snd].
  - by apply (evaluate_policy_step id' mint avg mark hwm now e id).
  - done.
  - by rewrite ladder_of_retain.
Qed.

(** Once the high water has passed the activation multiple, the break-even stop
    stays armed while the position is open: the next evaluation with a mark at or
    below the stop leaves the position whole, whatever the high water says then. *)
Theorem break_even_cannot_disarm cfg be id cs0 cs mint mint' avg mark hwm now mark' hwm' now'
    (Hbe : (policy_normalized cfg).(ep_break_even) = Some be)
    (Hk : Forall (call_keeps id) cs)
    (Hprice : positive_price avg = true) (Hmark : positive_price mark = true)
    (Hmark' : positive_price mark' = true)
    (Hhigh : fleb (fmul avg be.(be_activation_multiple)) hwm = true)
    (Hstop : fleb mark' (fmul avg (fadd fone be.(be_buffer))) = true) :
  let e0 := (policy_run cs0 (ExitPolicyEngine_new cfg)).2 in
  let first := evaluate_policy id mint avg mark hwm now e0 in
  from_option (fun m => dev_sell_firing m now e0) false mint = false ->
  exists k, (evaluate_policy id mint' avg mark' hwm' now' (policy_run cs first.2).2).1
            = Some (mkAdvancedExit k fone) /\ k <> AkLadderTp.
Proof.
  intros e0 first Hdev.
  assert (Hcfg : forall l e, (policy_run l e).2.(pe_config) = e.(pe_config)).
  { induction l as [|c l IH]; intros e; [done|]. cbn. rewrite IH. destruct c; [|done..].
    by destruct (evaluate_policy_step id0 mint0 avg_entry mark0 high_water now0 e id). }
  assert (H0 : e0.(pe_config) = policy_normalized cfg) by apply Hcfg.
  assert (H1 : first.2.(pe_config) = policy_normalized cfg).
  { rewrite <- H0. by destruct (evaluate_policy_step id mint avg mark hwm now e0 id). }
  assert (Harmed : (ladder_of id first.2).(ls_break_even_armed) = true).
  { unfold first, evaluate_policy. rewrite Hprice, Hmark, Hdev, H0. cbn [negb andb].
    unfold break_even_step at 1. rewrite Hbe, Hhigh, orb_true_r. cbn [andb].
    destruct (fleb mark _); cbn [snd]; [by rewrite ladder_of_put, decide_True|].
    unfold ladder_step. cbn [ls_next_level ls_break_even_armed].
    destruct (_ !! _) as [l|]; [destruct (fleb _ mark)|]; cbn [snd]; by rewrite ladder_of_put, decide_True. }
  pose proof (armed_kept id cs first.2 Hk Harmed) as Ha. set (e := (policy_run cs first.2).2) in *.
  assert (He : e.(pe_config) = policy_normalized cfg) by (unfold e; by rewrite Hcfg).
  unfold evaluate_policy. rewrite Hprice, Hmark'. cbn [negb andb].
  destruct (from_option _ false mint'); [by exists AkDevSell|].
  fold (ladder_of id e). unfold break_even_step. rewrite He, Hbe, Ha. cbn [orb andb]. rewrite Hstop.
  by exists AkBreakEven.
Qed.

(** ** No policy *)

Record inert (e : ExitPolicyEngine) : Prop := mkInert {
  in_config : e.(pe_config) = ExitPolicyConfig_default;
}.

Lemma inert_silent id mint avg mark hwm now e :
  inert e -> (evaluate_policy id mint avg mark hwm now e).1 = None.
Proof.
  intros [Hc]. unfold evaluate_policy. destruct (negb _); [done|].
  assert (Hd : from_option (fun m => dev_sell_firing m now e) false mint = false)
    by (destruct mint; cbn; [|done]; unfold dev_sell_firing; by rewrite Hc).
  rewrite Hd, Hc. reflexivity.
Qed.

Lemma inert_run cs e : inert e -> inert (policy_run cs e).2.
Proof.
  revert e. induction cs as [|c cs IH]; intros e He; [done|]. cbn. apply IH. destruct He as [Hc].
  split. rewrite <- Hc. destruct c as [id mint avg mark hwm now| |]; [|done..].
  by destruct (evaluate_policy_step id mint avg mark hwm now e id).
Qed.

(** A deployment without the advanced block and without the stale rule decides
    as the price rules alone do, whatever happened before. *)
Theorem unconfigured_sweep_is_classic sn mint now p s t cs
    (Hadv : sn.(sn_advanced_exit) = None) (Hstale : sn.(sn_stale_position_exit_secs) <= 0) :
  let e := (policy_run cs (engine_from_config sn.(sn_advanced_exit))).2 in
  (exit_decision sn mint now p s t e).1 = check_exit now p p.(p_last_mark) s.
Proof.
  intros e. assert (He : inert e) by (unfold e; rewrite Hadv; by apply inert_run).
  unfold exit_decision, stale_rule. rewrite (proj2 (Z.ltb_ge 0 _) Hstale). cbn [andb]. rewrite andb_false_r.
  destruct (should_exit _); [done|]. cbn [fst]. by rewrite inert_silent.
Qed.

(** * What a pass does to a position *)

Section SweepFacts.
Context {W : Type} `{ExitWorld W} `{HashOrder} (sn : SniperConfig).

Abbreviation Sw := (Sweeper W).

Definition tried_to_sell (r : SweepResult) : option (f64 * option ExitRule) :=
  match r with SwSold f rule | SwSaleFailed f rule => Some (f, rule) | _ => None end.

(** What calls for a sale, rule by rule, in the figures of the position, of the
    configuration, of the tracker and of the policy. *)
Definition advanced_due (mint : option Z) (now : Z) (p : Position) (e : ExitPolicyEngine) (fraction : f64) : Prop :=
  let mark := p.(p_last_mark) in let avg := p.(p_avg_entry) in
  let ttl := e.(pe_config).(ep_dev_sell_ttl_secs) in
  (exists m at_, mint = Some m /\ e.(pe_dev_sells) !! m = Some at_ /\ ttl <> 0
     /\ 0 <= now - at_ <= ttl * SECOND /\ fraction = fone)
  \/ (exists be, e.(pe_config).(ep_break_even) = Some be
     /\ ((ladder_of p.(p_id) e).(ls_break_even_armed) = true
         \/ fleb (fmul avg be.(be_activation_multiple)) (default avg p.(p_trailing_high_water)) = true)
     /\ fleb mark (fmul avg (fadd fone be.(be_buffer))) = true /\ fraction = fone)
  \/ (exists level, e.(pe_config).(ep_ladder) !! (ladder_of p.(p_id) e).(ls_next_level) = Some level
     /\ fleb (fmul avg level.(tp_trigger_multiple)) mark = true
     /\ fraction = fclamp level.(tp_sell_fraction) fzero fone).

Definition either {A} (own general : option A) (x : A) : Prop := own = Some x \/ own = None /\ general = Some x.

Definition price_due (now : Z) (p : Position) (c : RiskConfig) (rule : ExitRule) : Prop :=
  let mark := p.(p_last_mark) in let avg := p.(p_avg_entry) in
  fleb p.(p_qty) fzero = false /\ is_finite mark = true /\ fltb fzero mark = true
  /\ match rule with
     | StopLoss =>
         let stop := default (fmul avg (fsub fone c.(rc_default_stop_loss_pct))) p.(p_stop_loss) in
         fltb fzero stop = true /\ fleb mark stop = true
     | TakeProfit =>
         let target := default (fmul avg (fadd fone c.(rc_default_take_profit_pct))) p.(p_take_profit) in
         fltb fzero target = true /\ fleb target mark = true
     | TrailingStop =>
         let high := fmax (default avg p.(p_trailing_high_water)) mark in
         exists pct, either p.(p_trailing_stop) c.(rc_trailing_stop_pct) pct
           /\ fltb avg high = true /\ fleb mark (fmul high (fsub fone pct)) = true
     | MaxHoldTime =>
         exists secs, either p.(p_max_hold_secs) c.(rc_max_hold_secs) secs
           /\ secs <= num_seconds (now - p.(p_opened_at))
     | _ => False
     end.

Definition rule_due (mint : option Z) (now : Z) (p : Position) (s : AppState) (t : ExitTracker)
    (e : ExitPolicyEngine) (rule : ExitRule) (fraction : f64) : Prop :=
  match rule with
  | ExitKillSwitch => kill_switch s = true /\ fraction = fone
  | StopLoss | TrailingStop | MaxHoldTime => price_due now p s.(st_config).(cf_risk) rule /\ fraction = fone
  | TakeProfit =>
      price_due now p s.(st_config).(cf_risk) rule
      /\ fraction = fclamp sn.(sn_take_profit_sell_fraction) fzero fone
  | StalePosition =>
      0 < sn.(sn_stale_position_exit_secs) /\ fraction = fone
      /\ exists since, t.(et_mark_failed_since) !! p.(p_id) = Some since
           /\ sn.(sn_stale_position_exit_secs) <= num_seconds (now - since)
  | Manual =>
      positive_price p.(p_last_mark) = true /\ positive_price p.(p_avg_entry) = true
      /\ advanced_due mint now p e fraction
  | MirrorExit => False
  end.

Lemma option_or_either {A} (own general : option A) x : option_or own general = Some x -> either own general x.
Proof. unfold either. destruct own; cbn; naive_solver. Qed.

(** The price rules. *)
Lemma check_exit_due now p s rule :
  (check_exit now p p.(p_last_mark) s).(xd_rule) = Some rule ->
  (check_exit now p p.(p_last_mark) s).(xd_fraction) = fone
  /\ (rule = ExitKillSwitch /\ kill_switch s = true \/ price_due now p s.(st_config).(cf_risk) rule).
Proof.
  unfold check_exit, price_due. destruct (kill_switch s) eqn:Hk; [intros [= <-]; split; [reflexivity|by left]|].
  destruct (fleb (p_qty p) fzero) eqn:Hq; [done|].
  destruct (negb (is_finite _ && _)) eqn:Hm; [done|]. apply negb_false_iff, andb_true_iff in Hm as [Hf Hp].
  destruct (stop_hit _ _ _) eqn:Hs.
  { intros [= <-]. split; [reflexivity|]. right. unfold stop_hit, stop_level in Hs. bool_to_prop. by split_and!. }
  destruct (profit_hit _ _ _) eqn:Ht.
  { intros [= <-]. split; [reflexivity|]. right. unfold profit_hit, profit_level in Ht. bool_to_prop. by split_and!. }
  destruct (trail_hit _ _ _) eqn:Hr.
  { intros [= <-]. split; [reflexivity|]. right. unfold trail_hit, high_water in Hr.
    destruct (option_or _ _) as [pct|] eqn:Hpct; [|done]. bool_to_prop. split_and!; [done..|].
    exists pct. split; [by apply option_or_either|by split]. }
  destruct (hold_expired _ _ _) eqn:Hh; [|done].
  intros [= <-]. split; [reflexivity|]. right. unfold hold_expired, age_secs in Hh.
  destruct (option_or _ _) as [secs|] eqn:Hsecs; [|done]. apply Z.leb_le in Hh. split_and!; [done..|].
  exists secs. split; [by apply option_or_either|done].
Qed.

(** The policy. *)
Lemma evaluate_policy_due mint now p e a :
  (evaluate_policy p.(p_id) mint p.(p_avg_entry) p.(p_last_mark)
     (default p.(p_avg_entry) p.(p_trailing_high_water)) now e).1 = Some a ->
  positive_price p.(p_last_mark) = true /\ positive_price p.(p_avg_entry) = true
  /\ advanced_due mint now p e (fclamp a.(ae_fraction) fzero fone).
Proof.
  unfold evaluate_policy. destruct (negb _) eqn:Hp; [done|]. apply negb_false_iff, andb_true_iff in Hp as [Hm Ha].
  intros H1. split_and!; [done..|]. revert H1. unfold advanced_due. fold (ladder_of p.(p_id) e).
  destruct (from_option _ false mint) eqn:Hd.
  { intros [= <-]. left. destruct mint as [m|]; [|done]. cbn [from_option] in Hd. unfold dev_sell_firing in Hd.
    destruct (_ =? 0) eqn:Httl; [done|]. apply Z.eqb_neq in Httl.
    destruct (pe_dev_sells e !! m) as [at_|] eqn:Hat; [|done]. unfold within_ttl in Hd. bool_to_prop.
    exists m, at_. split_and!; [done..|lia|lia|reflexivity]. }
  unfold break_even_step. set (s := ladder_of _ e).
  assert (Hladder : forall s', s'.(ls_next_level) = s.(ls_next_level) ->
    (ladder_step (pe_config e) (p_avg_entry p) (p_last_mark p) s').1 = Some a ->
    exists level, e.(pe_config).(ep_ladder) !! s.(ls_next_level) = Some level
      /\ fleb (fmul (p_avg_entry p) level.(tp_trigger_multiple)) (p_last_mark p) = true
      /\ fclamp a.(ae_fraction) fzero fone = fclamp level.(tp_sell_fraction) fzero fone).
  { intros s' Hs'. unfold ladder_step. rewrite Hs'. destruct (_ !! _) as [level|] eqn:Hl; [|done].
    destruct (fleb _ _) eqn:Hle; [|done]. intros [= <-]. by exists level. }
  destruct (ep_break_even (pe_config e)) as [be|] eqn:Hbe.
  - destruct (_ && _) eqn:Hfire.
    + intros [= <-]. right. left. exists be. bool_to_prop. split_and!; [done| |done|reflexivity].
      by apply orb_true_iff.
    + destruct (ladder_step _ _ _ _) as [x s'] eqn:Hstep. intros Hx. right. right. eapply Hladder; [|by rewrite Hstep].
      done.
  - destruct (ladder_step _ _ _ _) as [x s'] eqn:Hstep. intros Hx. right. right. eapply Hladder; [|by rewrite Hstep].
    done.
Qed.

Lemma exit_decision_due mint now p s t e rule :
  let d := (exit_decision sn mint now p s t e).1 in
  d.(xd_rule) = Some rule -> rule_due mint now p s t e rule (sale_fraction sn d).
Proof.
  intros d. unfold d, exit_decision. set (c := check_exit now p (p_last_mark p) s).
  destruct (should_exit c) eqn:Hc.
  - cbn [negb andb]. rewrite Hc. cbn [fst]. intros Hr. destruct (check_exit_due now p s rule Hr) as [Hf Hdue].
    fold c in Hf, Hr. unfold sale_fraction. rewrite Hr, Hf.
    destruct Hdue as [[-> Hk]|Hdue]; [by split|].
    destruct rule; try (by destruct Hdue as (_ & _ & _ & [])); by split.
  - cbn [negb andb]. destruct (stale_rule _ _ _ _) eqn:Hs.
    + cbn [should_exit forced exit_with xd_rule is_some fst]. intros [= <-]. unfold stale_rule in Hs.
      apply andb_true_iff in Hs as [H1%Z.ltb_lt H2%Z.leb_le]. split; [done|]. split; [reflexivity|].
      unfold unpriceable_secs in H2. destruct (_ !! _) as [since|]; [|lia]. exists since. split; [done|lia].
    + rewrite Hc. cbn [fst]. destruct (evaluate_policy _ _ _ _ _ _ _).1 as [a|] eqn:Ha.
      * cbn [exit_with xd_rule]. intros [= <-]. by apply evaluate_policy_due.
      * intros Hr. unfold should_exit in Hc. by rewrite Hr in Hc.
Qed.

(** The mark a decision is taken on is the one just read, when one could be read. *)
Lemma refreshed_position now p (sw sw' : Sw) q :
  refresh_sniper_mark now p sw = (Some q, sw') ->
  match (world_mark p sw.(sw_world)).1 with
  | Ok mark => if positive_price mark then q.(p_last_mark) = mark /\ PositionStatus_is_terminal q.(p_status) = false
               else q = p
  | _ => q = p
  end.
Proof.
  unfold refresh_sniper_mark, mbind, St_bind, on_world, zoom. cbn [fst snd].
  destruct (world_mark p _) as [[mark| |] w]; cbn [fst snd]; [|by intros [= <- _]..].
  destruct (positive_price mark); [|by intros [= <- _]].
  unfold on_tracker, on_books, clock, gets, zoom, with_position. cbn [fst snd sw_app sw_world].
  destruct (st_positions _ !! _) as [q0|]; [|done]. cbn [fst snd].
  destruct (PositionStatus_is_terminal (p_status q0)) eqn:Hend.
  - change (p_status (with_updated_at ?n q0)) with (p_status q0). rewrite Hend. done.
  - change (p_status (with_updated_at ?n (with_mark mark q0))) with (p_status q0). rewrite Hend.
    intros [= <- _]. by split.
Qed.

Lemma sell_decided_tried p d (sw : Sw) f rule :
  tried_to_sell (sell_decided sn p d sw).1 = Some (f, rule) -> f = sale_fraction sn d /\ rule = d.(xd_rule).
Proof.
  unfold sell_decided, mbind, St_bind. cbn [fst snd].
  destruct (on_world _ sw) as [[[]| |] sw1]; cbn [fst snd]; try done.
  destruct (on_sale _ sw1) as [[] sw2]; cbn [fst snd mret St_ret tried_to_sell]; by intros [= <- <-].
Qed.

Lemma decide_and_sell_due now q (sw : Sw) f rule :
  tried_to_sell (decide_and_sell sn now q sw).1 = Some (f, rule) ->
  exists rl, rule = Some rl
    /\ rule_due (world_mint q.(p_symbol)) now q sw.(sw_app) sw.(sw_tracker) sw.(sw_policy) rl f.
Proof.
  unfold decide_and_sell, mbind, St_bind. cbn zeta. cbn [fst snd].
  set (d := exit_decision _ _ _ _ _ _ _). destruct (should_exit d.1) eqn:Hd; cbn [negb]; [|done].
  intros [-> ->]%sell_decided_tried. unfold should_exit in Hd. destruct (xd_rule d.1) as [rl|] eqn:Hrl; [|done].
  exists rl. split; [done|]. by apply exit_decision_due.
Qed.

Lemma fate_settled p (sw : Sw) sig st (kill : bool) :
  p.(p_entry_signature) = Some sig -> sig <> [] -> world_entry_state sig sw.(sw_world) = Some st ->
  (fate_of p sw = FateUnknown -> kill = true) ->
  (fate_of p sw = FateFailed -> sn.(sn_failed_entry_cleanup) = false) ->
  st ∈ [ExConfirmed; ExReconciled]
  \/ (st ∈ [ExFailed; ExExpired] /\ sn.(sn_failed_entry_cleanup) = false)
  \/ (st ∈ [ExCreated; ExValidated; ExSubmitted; ExPending] /\ kill = true).
Proof.
  intros Hsig Hne Hst. unfold fate_of. rewrite Hsig, Hst. destruct sig as [|c sig]; [done|]. cbn [is_empty].
  unfold entry_fate. intros Hunknown Hfailed. destruct st; set_solver.
Qed.

(** C18: A sale is tried only when it is due.  The entry is not in doubt (unless the kill
    switch is on) nor known to have failed (unless the cleanup of failed entries is
    off), no backoff is running (unless the kill switch is on); and the rule that is
    reported holds, in figures, of the position as it was just marked: the mark is at
    or below the stop, at or above the target, below the high water by the trailing
    share; the position is as old as the hold limit; no price was readable for the
    configured seconds; the developer sold within the configured time, the armed
    break-even stop or the next rung of the ladder is reached; or the kill switch is
    on.  The part sold is the one that rule is configured with. *)
Theorem sweep_sells_only_when_due kill p (sw : Sw) f rule
    (Htried : tried_to_sell (sweep_open_position sn kill p sw).1 = Some (f, rule)) :
  let now := world_now sw.(sw_world) in
  (forall sig st, p.(p_entry_signature) = Some sig -> sig <> [] -> world_entry_state sig sw.(sw_world) = Some st ->
     st ∈ [ExConfirmed; ExReconciled]
     \/ (st ∈ [ExFailed; ExExpired] /\ sn.(sn_failed_entry_cleanup) = false)
     \/ (st ∈ [ExCreated; ExValidated; ExSubmitted; ExPending] /\ kill = true))
  /\ (forall failed, kill = false -> sw.(sw_tracker).(et_last_exit_failure) !! p.(p_id) = Some failed ->
       sn.(sn_exit_retry_backoff_secs) = 0 \/ wrap_i64 sn.(sn_exit_retry_backoff_secs) <= num_seconds (now - failed))
  /\ exists q sw' rl,
       (if kill then q = p /\ sw' = sw
        else refresh_sniper_mark now p sw = (Some q, sw')
             /\ match (world_mark p sw.(sw_world)).1 with
                | Ok mark => if positive_price mark
                             then q.(p_last_mark) = mark /\ PositionStatus_is_terminal q.(p_status) = false
                             else q = p
                | _ => q = p
                end)
       /\ rule = Some rl
       /\ rule_due (world_mint q.(p_symbol)) now q sw'.(sw_app) sw'.(sw_tracker) sw'.(sw_policy) rl f.
Proof.
  cbv zeta. unfold sweep_open_position, clock, gets, mbind, St_bind in Htried. cbn [fst snd] in Htried.
  set (now := world_now (sw_world sw)) in *. set (fate := fate_of p sw) in *.
  set (bo := in_backoff p.(p_id) now sn.(sn_exit_retry_backoff_secs) sw.(sw_tracker)) in *.
  destruct (bool_decide (fate = FateFailed) && sn_failed_entry_cleanup sn) eqn:Hcl; [done|].
  destruct (bool_decide (fate = FateUnknown) && negb kill) eqn:Hun; [done|].
  fold bo in Htried. destruct (negb kill && bo) eqn:Hbo; [done|].
  split_and!.
  - intros sig st Hsig Hne Hst. apply (fate_settled p sw sig st kill Hsig Hne Hst).
    + intros Heq. rewrite (bool_decide_eq_true_2 _ Heq) in Hun. by destruct kill.
    + intros Heq. rewrite (bool_decide_eq_true_2 _ Heq) in Hcl. exact Hcl.
  - intros failed -> Hfail. unfold bo, in_backoff in Hbo. cbn [negb andb] in Hbo. rewrite Hfail in Hbo.
    destruct (Z.eqb_spec (sn_exit_retry_backoff_secs sn) 0); [by left|]. right. by apply Z.ltb_ge in Hbo.
  - destruct kill.
    + exists p, sw. cbn in Htried. apply decide_and_sell_due in Htried as (rl & -> & Hdue). by exists rl.
    + destruct (refresh_sniper_mark now p sw) as [[q|] sw'] eqn:Hr; cbn [fst snd] in Htried; [|discriminate Htried].
      apply decide_and_sell_due in Htried as (rl & -> & Hdue). exists q, sw', rl. split; [|by split].
      split; [done|]. by eapply refreshed_position.
Qed.

Lemma cleanup_books p (sw : Sw) :
  let now := world_now sw.(sw_world) in
  cleanup_failed_entry p sw
  = (tt, mkSweeper (close_position now p.(p_id) PosFailed never_landed
                      (with_position now p.(p_id) with_no_tokens sw.(sw_app)).2).2
           sw.(sw_tracker) sw.(sw_policy) sw.(sw_world)).
Proof. reflexivity. Qed.

(** A position whose entry never landed is closed without a sale and without a
    result: the world is left alone, the position has no tokens and no cost, the
    realized figures stay. *)
Theorem failed_entry_closed_without_sale kill p (sw : Sw) q
    (Hfate : fate_of p sw = FateFailed) (Hclean : sn.(sn_failed_entry_cleanup) = true)
    (Hheld : sw.(sw_app).(st_positions) !! p.(p_id) = Some q) :
  let r := sweep_open_position sn kill p sw in
  r.1 = SwCleaned /\ r.2.(sw_world) = sw.(sw_world) /\ r.2.(sw_tracker) = sw.(sw_tracker)
  /\ r.2.(sw_policy) = sw.(sw_policy)
  /\ r.2.(sw_app).(st_realized_pnl) = sw.(sw_app).(st_realized_pnl)
  /\ r.2.(sw_app).(st_daily) = sw.(sw_app).(st_daily)
  /\ r.2.(sw_app).(st_daily_module_pnl) = sw.(sw_app).(st_daily_module_pnl)
  /\ exists q', r.2.(sw_app).(st_positions) !! p.(p_id) = Some q'
       /\ q'.(p_status) = PosFailed /\ q'.(p_qty) = fzero /\ q'.(p_cost_basis) = fzero
       /\ q'.(p_realized_pnl_quote) = q.(p_realized_pnl_quote).
Proof.
  intros r. unfold r, sweep_open_position, clock, gets, mbind, St_bind. cbn [fst snd].
  rewrite Hfate, bool_decide_eq_true_2, Hclean by done. cbn [andb].
  rewrite cleanup_books. unfold with_position. rewrite Hheld. cbn [snd].
  destruct sw as [app t e w]. cbn [sw_app sw_world] in *. destruct app. cbn in Hheld.
  unfold close_position. cbn. rewrite lookup_insert_eq.
  split_and!; try done. eexists. split; [cbn; by rewrite lookup_insert_eq|]. by split_and!.
Qed.
End SweepFacts.

(** * Concrete positions *)

(** A scripted surrounding: the instant, the mark, and what the next claims and
    sales answer. *)
Record ExitScript : Type := mkExitScript {
  es_now : Z;
  es_entry : option ExecutionState;
  es_mark : BotResult f64;
  es_claims : list (BotResult bool);
  es_sales : list (BotResult unit);
}.

Definition pop {A} (d : A) (l : list A) : A * list A := match l with [] => (d, []) | x :: l => (x, l) end.

#[local] Instance script_world : ExitWorld ExitScript := {|
  world_now := es_now;
  world_mint := fun _ => Some 7;
  world_entry_state := fun _ s => s.(es_entry);
  world_mark := fun _ s => (s.(es_mark), s);
  world_claim := fun _ _ s =>
    let r := pop (Ok true) s.(es_claims) in
    (r.1, mkExitScript s.(es_now) s.(es_entry) s.(es_mark) r.2 s.(es_sales));
  world_release := fun _ _ s => s;
  world_sell := fun _ _ _ b =>
    let r := pop (Ok tt) b.2.(es_sales) in
    (r.1, (b.1, mkExitScript b.2.(es_now) b.2.(es_entry) b.2.(es_mark) b.2.(es_claims) r.2));
|}.

Definition ladder_config : AdvancedExitConfig :=
  mkAdvancedExitConfig [mkTpLevelConfig (f_of_Z 2) (f_lit 1 2); mkTpLevelConfig (f_of_Z 4) fone]
    (Some (mkBreakEvenRuleConfig (f_lit 3 2) (f_lit 1 100))) 60.

(** A position bought at a thousandth, with its own far levels. *)
Definition held_position : Position :=
  with_exit_levels (Some (f_lit 1 10000)) (Some (f_of_Z 1)) None None demo_position.

Definition held_state : AppState := upsert_position held_position demo_replica.

Definition demo_sweeper (now : Z) (entry : option ExecutionState) (mark : f64)
    (claims : list (BotResult bool)) (sales : list (BotResult unit)) (e : ExitPolicyEngine) : Sweeper ExitScript :=
  mkSweeper held_state ExitTracker_default e (mkExitScript now entry (Ok mark) claims sales).

Definition sniper_section : SniperConfig := SniperConfig_default.

Definition later (s : Sweeper ExitScript) (now : Z) : Sweeper ExitScript :=
  mkSweeper s.(sw_app) s.(sw_tracker) s.(sw_policy)
    (mkExitScript now s.(sw_world).(es_entry) s.(sw_world).(es_mark) s.(sw_world).(es_claims)
       s.(sw_world).(es_sales)).

Definition fresh_engine : ExitPolicyEngine := engine_from_config (Some ladder_config).

(** Two passes, a minute apart, at three times the entry. *)
Definition two_passes (claims : list (BotResult bool)) (sales : list (BotResult unit))
    : list SweepResult * list SweepResult :=
  let r := sniper_sweep_once sniper_section [] (demo_sweeper (10 * SECOND) None (f_lit 3 1000) claims sales fresh_engine) in
  (r.1, (sniper_sweep_once sniper_section [] (later r.2 (70 * SECOND))).1).

(** A rung whose sale fails is spent: the next pass holds. *)
Theorem failed_rung_is_lost :
  two_passes [] [Err Solana]
  = ([SwSaleFailed (f_lit 1 2) (Some Manual)], [SwHeld]).
Proof. vm_compute. reflexivity. Qed.

(** So is one whose claim could not be taken, although the sweeper is to retry on
    the next tick. *)
Theorem unclaimed_rung_is_lost :
  two_passes [Err OwnershipUnavailable] [] = ([SwClaimUnavailable], [SwHeld]).
Proof. vm_compute. reflexivity. Qed.

(** An engine that starts again sells the same rung again. *)
Theorem restart_sells_rung_again :
  let s := demo_sweeper (10 * SECOND) None (f_lit 3 1000) [] [] fresh_engine in
  let r := sniper_sweep_once sniper_section [] s in
  let restarted := mkSweeper r.2.(sw_app) ExitTracker_default fresh_engine r.2.(sw_world) in
  r.1 = [SwSold (f_lit 1 2) (Some Manual)]
  /\ (sniper_sweep_once sniper_section [] (later restarted (70 * SECOND))).1 = [SwSold (f_lit 1 2) (Some Manual)].
Proof. vm_compute. split; reflexivity. Qed.

Lemma sweep_sells_only_when_due_witness :
  let s := demo_sweeper (10 * SECOND) None (f_lit 3 1000) [] [] fresh_engine in
  tried_to_sell (sweep_open_position sniper_section false held_position s).1 = Some (f_lit 1 2, Some Manual)
  /\ exists q (sw' : Sweeper ExitScript) rl, Some Manual = Some rl
       /\ rule_due sniper_section (world_mint q.(p_symbol)) (10 * SECOND) q sw'.(sw_app) sw'.(sw_tracker) sw'.(sw_policy)
            rl (f_lit 1 2).
Proof.
  intros s. split; [vm_compute; reflexivity|].
  destruct (sweep_sells_only_when_due sniper_section false held_position s (f_lit 1 2) (Some Manual))
    as (_ & _ & q & sw' & rl & _ & Hrule); [vm_compute; reflexivity|]. by exists q, sw', rl.
Defined.

(** A position bought by a transaction that expired. *)
Definition signed_position : Position :=
  {| p_id := lit "p-1"; p_opened_at := 5; p_updated_at := 5; p_closed_at := None; p_source := SrcSniper;
     p_venue := PumpFun; p_mode := Live; p_status := PosOpen; p_symbol := lit "MINT";
     p_symbol_display := lit "MINT"; p_quote_symbol := lit "SOL"; p_qty := f_of_Z 100;
     p_avg_entry := f_lit 1 1000; p_cost_basis := f_lit 1 10; p_realized_quote := fzero;
     p_realized_pnl_quote := None; p_realized_at := None; p_last_mark := f_lit 1 1000; p_stop_loss := None;
     p_take_profit := None; p_trailing_stop := None; p_trailing_high_water := None; p_max_hold_secs := None;
     p_entry_signature := Some (lit "sig"); p_exit_signature := None; p_entry_latency_ms := None;
     p_copied_wallet := None; p_market_id := None; p_outcome := None; p_reason_closed := None |}.

Lemma failed_entry_closed_without_sale_witness :
  let s := mkSweeper (upsert_position signed_position demo_replica) ExitTracker_default fresh_engine
             (mkExitScript (10 * SECOND) (Some ExExpired) (Ok fone) [] []) in
  let r := sweep_open_position sniper_section false signed_position s in
  fate_of signed_position s = FateFailed /\ r.1 = SwCleaned
  /\ exists q', r.2.(sw_app).(st_positions) !! lit "p-1" = Some q' /\ q'.(p_status) = PosFailed.
Proof.
  intros s r. split; [reflexivity|].
  destruct (failed_entry_closed_without_sale sniper_section false signed_position s signed_position)
    as (Hr & _ & _ & _ & _ & _ & _ & q' & Hq & Hs & _); [reflexivity|reflexivity|vm_compute; reflexivity|].
  split; [exact Hr|]. by exists q'.
Defined.

Lemma unconfigured_sweep_is_classic_witness :
  sniper_section.(sn_advanced_exit) = None /\ sniper_section.(sn_stale_position_exit_secs) <= 0
  /\ (exit_decision sniper_section (Some 7) (10 * SECOND) held_position held_state ExitTracker_default
        (engine_from_config None)).1
     = check_exit (10 * SECOND) held_position held_position.(p_last_mark) held_state.
Proof.
  split_and!; [reflexivity|done|].
  apply (unconfigured_sweep_is_classic sniper_section (Some 7) (10 * SECOND) held_position held_state
    ExitTracker_default [] eq_refl). done.
Defined.

Definition demo_policy : ExitPolicyConfig := policy_of_config ladder_config.

Definition ladder_calls : list PolicyCall :=
  [PcEvaluate (lit "p-1") (Some 7) (f_lit 1 1000) (f_lit 5 1000) (f_lit 5 1000) SECOND;
   PcRetain [lit "p-1"] (2 * SECOND);
   PcEvaluate (lit "p-1") (Some 7) (f_lit 1 1000) (f_lit 5 1000) (f_lit 5 1000) (3 * SECOND);
   PcEvaluate (lit "p-1") (Some 7) (f_lit 1 1000) (f_lit 5 1000) (f_lit 5 1000) (4 * SECOND)].

Lemma ladder_calls_keep : Forall (call_keeps (lit "p-1")) ladder_calls.
Proof. repeat constructor. Qed.

Lemma ladder_sells_in_order_witness :
  let sales := omap (ladder_sale (lit "p-1")) (policy_run ladder_calls (ExitPolicyEngine_new demo_policy)).1 in
  map snd sales = [f_lit 1 2; fone] /\ (length sales <= length (policy_normalized demo_policy).(ep_ladder))%nat.
Proof.
  split; [vm_compute; reflexivity|].
  apply (ladder_sells_in_order demo_policy (lit "p-1") ladder_calls ladder_calls_keep).
Defined.

Lemma break_even_cannot_disarm_witness :
  exists k,
    (evaluate_policy (lit "p-1") (Some 7) (f_lit 1 1000) (f_lit 1 1000) (f_lit 1 1000) (9 * SECOND)
       (policy_run [PcRetain [lit "p-1"] (2 * SECOND)]
          (evaluate_policy (lit "p-1") (Some 7) (f_lit 1 1000) (f_lit 18 10000) (f_lit 18 10000) SECOND
             (ExitPolicyEngine_new demo_policy)).2).2).1 = Some (mkAdvancedExit k fone) /\ k <> AkLadderTp.
Proof.
  apply (break_even_cannot_disarm demo_policy (mkBreakEvenConfig (f_lit 3 2) (f_lit 1 100)) (lit "p-1") []
    [PcRetain [lit "p-1"] (2 * SECOND)] (Some 7) (Some 7) (f_lit 1 1000) (f_lit 18 10000) (f_lit 18 10000) SECOND
    (f_lit 1 1000) (f_lit 1 1000) (9 * SECOND)); try (vm_compute; reflexivity).
  repeat constructor.
Defined.
