(* ===== verification/LimitOrders.v ===== *)
(** Limit and trigger orders ([crates/module-sniper/src/limit_orders.rs]): the
    order, its trigger, the pass of the scheduler against the interface of the
    store (the class [LimitOrderStore]), and the store in memory. *)
From stdpp Require Import prelude countable gmap list strings pretty.
From Stdlib Require Import ZArith Lia SpecFloat.
From S2P Require Import Prelude.
From S2P Require Import BotCore.
From S2P Require Import Text.
From S2P Require Import Float64.

#[local] Open Scope Z_scope.

Inductive LimitSide : Type := LoBuy | LoSell.
Inductive TriggerKind : Type := AtOrBelow | AtOrAbove.
Inductive OrderStatus : Type := LoActive | LoTriggered | LoCancelled | LoExpired.

#[export] Instance LimitSide_eq_dec : EqDecision LimitSide.
Proof. solve_decision. Defined.
#[export] Instance OrderStatus_eq_dec : EqDecision OrderStatus.
Proof. solve_decision. Defined.

Definition LimitSide_as_str (s : LimitSide) : text :=
  match s with LoBuy => lit "buy" | LoSell => lit "sell" end.

Definition order_open (s : OrderStatus) : bool := match s with LoActive => true | _ => false end.

Record LimitOrder : Type := mkLimitOrder {
  lo_id : text;
  lo_organization_id : text;
  lo_mint : text;
  lo_side : LimitSide;
  lo_trigger : TriggerKind;
  lo_price_sol : f64;
  lo_amount : f64;
  lo_status : OrderStatus;
  lo_created_at : Z;
  lo_expires_at : option Z;
}.

Definition with_order_status (st : OrderStatus) (o : LimitOrder) : LimitOrder :=
  mkLimitOrder o.(lo_id) o.(lo_organization_id) o.(lo_mint) o.(lo_side) o.(lo_trigger) o.(lo_price_sol)
    o.(lo_amount) st o.(lo_created_at) o.(lo_expires_at).

Definition with_order_id (id : text) (o : LimitOrder) : LimitOrder :=
  mkLimitOrder id o.(lo_organization_id) o.(lo_mint) o.(lo_side) o.(lo_trigger) o.(lo_price_sol)
    o.(lo_amount) o.(lo_status) o.(lo_created_at) o.(lo_expires_at).

Definition positive_finite (v : f64) : bool := is_finite v && negb (fleb v fzero).

Definition order_validate (o : LimitOrder) : BotResult unit :=
  reject_if (is_empty (trim o.(lo_mint))) InvalidArgument ;;
  reject_if (negb (positive_finite o.(lo_price_sol))) InvalidArgument ;;
  reject_if (negb (positive_finite o.(lo_amount))) InvalidArgument ;;
  reject_if (bool_decide (o.(lo_side) = LoSell) && fltb fone o.(lo_amount)) InvalidArgument.

Record TriggeredOrder : Type := mkTriggeredOrder { tg_order : LimitOrder; tg_fired_at_price_sol : f64 }.

(** [limit_orders::evaluate]. *)
Definition trigger_fires (o : LimitOrder) (mark : f64) : bool :=
  if negb (is_finite mark) || fleb mark fzero then false
  else match o.(lo_trigger) with
       | AtOrBelow => fleb mark o.(lo_price_sol)
       | AtOrAbove => fleb o.(lo_price_sol) mark
       end.

Definition order_expired (now : Z) (o : LimitOrder) : bool :=
  match o.(lo_expires_at) with Some t => t <=? now | None => false end.

Class LimitOrderStore (S : Type) : Type := {
  lo_insert : LimitOrder -> St S (BotResult text);
  lo_list_active : text -> S -> BotResult (list LimitOrder);
  lo_set_status : text -> text -> OrderStatus -> St S (BotResult unit);
}.

(** ** The pass *)

Section Pass.
Context {S : Type} `{LimitOrderStore S} (organization_id : text) (now : Z) (mark_for : text -> option f64).

(** The loop over the orders; [acc] is what has fired, last first. *)
Fixpoint run_orders (acc : list TriggeredOrder) (os : list LimitOrder)
    : St S (BotResult (list TriggeredOrder)) :=
  match os with
  | [] => mret (Ok (reverse acc))
  | o :: os =>
      if order_expired now o then
        r ← lo_set_status organization_id o.(lo_id) LoExpired;
        match r with Ok _ => run_orders acc os | Err e => mret (Err e) | Panic => mret Panic end
      else
        match mark_for o.(lo_mint) with
        | None => run_orders acc os
        | Some mark =>
            if trigger_fires o mark then
              r ← lo_set_status organization_id o.(lo_id) LoTriggered;
              match r with
              | Ok _ => run_orders (mkTriggeredOrder (with_order_status LoTriggered o) mark :: acc) os
              | Err e => mret (Err e)
              | Panic => mret Panic
              end
            else run_orders acc os
        end
  end.

(** [limit_orders::run_once]. *)
Definition run_orders_once : St S (BotResult (list TriggeredOrder)) :=
  os ← gets (lo_list_active organization_id);
  match os with Ok os => run_orders [] os | Err e => mret (Err e) | Panic => mret Panic end.
End Pass.

(** ** The store in memory *)

Abbreviation InMemoryOrders := (gmap text (list LimitOrder)).

Definition memory_insert_order (o : LimitOrder) : St InMemoryOrders (BotResult text) := fun s =>
  match order_validate o with
  | Ok _ =>
      let os := default [] (s !! o.(lo_organization_id)) in
      if is_empty o.(lo_id) then
        let id := lit "lo-" ++ lit (pretty (Z.of_nat (length os) + 1)) ++ lit "-" ++ o.(lo_mint) in
        (Ok id, <[o.(lo_organization_id) := os ++ [with_order_id id o]]> s)
      else if existsb (fun x => bool_decide (x.(lo_id) = o.(lo_id))) os
      then (Err InvalidArgument, <[o.(lo_organization_id) := os]> s)
      else (Ok o.(lo_id), <[o.(lo_organization_id) := os ++ [o]]> s)
  | Err e => (Err e, s)
  | Panic => (Panic, s)
  end.

Definition memory_list_active (org : text) (s : InMemoryOrders) : BotResult (list LimitOrder) :=
  Ok (filter (fun o => order_open o.(lo_status) = true) (default [] (s !! org))).

(** The first order with the id. *)
Fixpoint set_order_status (id : text) (st : OrderStatus) (os : list LimitOrder) : option (list LimitOrder) :=
  match os with
  | [] => None
  | o :: os => if decide (o.(lo_id) = id) then Some (with_order_status st o :: os)
               else cons o <$> set_order_status id st os
  end.

Definition memory_set_status (org id : text) (st : OrderStatus) : St InMemoryOrders (BotResult unit) := fun s =>
  match s !! org with
  | None => (Err InvalidArgument, s)
  | Some os => match set_order_status id st os with
               | Some os => (Ok tt, <[org := os]> s)
               | None => (Err InvalidArgument, s)
               end
  end.

#[export] Instance memory_orders : LimitOrderStore InMemoryOrders := {|
  lo_insert := memory_insert_order;
  lo_list_active := memory_list_active;
  lo_set_status := memory_set_status;
|}.

(** * What a pass does *)

(** The fate of one order in a pass. *)
Definition order_verdict (now : Z) (mark_for : text -> option f64) (o : LimitOrder) : OrderStatus :=
  if negb (order_open o.(lo_status)) then o.(lo_status)
  else if order_expired now o then LoExpired
  else match mark_for o.(lo_mint) with
       | Some mark => if trigger_fires o mark then LoTriggered else LoActive
       | None => LoActive
       end.

Definition after_pass (now : Z) (mark_for : text -> option f64) (o : LimitOrder) : LimitOrder :=
  with_order_status (order_verdict now mark_for o) o.

(** An order that fires, with the mark that fired it. *)
Definition fired (now : Z) (mark_for : text -> option f64) (o : LimitOrder) : option TriggeredOrder :=
  if order_open o.(lo_status) && negb (order_expired now o) then
    mark ← mark_for o.(lo_mint);
    if trigger_fires o mark then Some (mkTriggeredOrder (with_order_status LoTriggered o) mark) else None
  else None.

Definition ids_distinct (os : list LimitOrder) : Prop := NoDup (map lo_id os).

Lemma with_order_status_same o : with_order_status o.(lo_status) o = o.
Proof. by destruct o. Qed.

Lemma set_status_at pre o post st :
  o.(lo_id) ∉ map lo_id pre ->
  set_order_status o.(lo_id) st (pre ++ o :: post) = Some (pre ++ with_order_status st o :: post).
Proof.
  induction pre as [|x pre IH]; cbn; intros Hn; [by rewrite decide_True|].
  apply not_elem_of_cons in Hn as [Hx Hn]. rewrite decide_False by done. by rewrite IH.
Qed.

Lemma memory_set_at (org : text) (s : InMemoryOrders) pre o post st :
  s !! org = Some (pre ++ o :: post) -> o.(lo_id) ∉ map lo_id pre ->
  memory_set_status org o.(lo_id) st s = (Ok tt, <[org := pre ++ with_order_status st o :: post]> s).
Proof. intros Hs Hn. unfold memory_set_status. by rewrite Hs, set_status_at. Qed.

(** The orders before the cursor are settled, those after it still as listed. *)
Lemma run_orders_spec (org : text) now mark_for post : forall pre acc (s : InMemoryOrders),
  s !! org = Some (pre ++ post) -> ids_distinct (pre ++ post) ->
  run_orders org now mark_for acc (filter (fun o => order_open o.(lo_status) = true) post) s
  = (Ok (reverse acc ++ omap (fired now mark_for) post), <[org := pre ++ map (after_pass now mark_for) post]> s).
Proof.
  induction post as [|o post IH]; intros pre acc s Hs Hd.
  { rewrite app_nil_r in Hs. change (map _ []) with (@nil LimitOrder). rewrite app_nil_r.
    pose proof (insert_id (M := gmap text) s org pre Hs) as Hi.
    cbn [filter list_filter run_orders omap list_omap]. rewrite app_nil_r. f_equal. symmetry. exact Hi. }
  assert (Hfresh : o.(lo_id) ∉ map lo_id pre).
  { unfold ids_distinct in Hd. rewrite map_app in Hd. apply NoDup_app in Hd as (_ & Hd & _).
    intros Hin. apply (Hd _ Hin). by left. }
  assert (Hmove : forall st acc', let s' := <[org := pre ++ with_order_status st o :: post]> s in
    run_orders org now mark_for acc' (filter (fun o => order_open o.(lo_status) = true) post) s'
    = (Ok (reverse acc' ++ omap (fired now mark_for) post),
       <[org := pre ++ with_order_status st o :: map (after_pass now mark_for) post]> s)).
  { intros st acc' s'. rewrite (IH (pre ++ [with_order_status st o]) acc' s').
    - unfold s'. rewrite insert_insert_eq. by rewrite <- app_assoc.
    - unfold s'. by rewrite lookup_insert_eq, <- app_assoc.
    - unfold ids_distinct in *. rewrite !map_app in *. cbn in *. by rewrite <- app_assoc. }
  assert (Hkeep : forall acc',
    run_orders org now mark_for acc' (filter (fun o => order_open o.(lo_status) = true) post) s
    = (Ok (reverse acc' ++ omap (fired now mark_for) post),
       <[org := pre ++ o :: map (after_pass now mark_for) post]> s)).
  { intros acc'. specialize (Hmove o.(lo_status) acc'). rewrite with_order_status_same in Hmove.
    cbv zeta in Hmove. by rewrite insert_id in Hmove by done. }
  cbn [omap list_omap map]. unfold fired at 1, after_pass at 1, order_verdict.
  destruct (order_open o.(lo_status)) eqn:Hopen; cbn [negb andb].
  2:{ rewrite filter_cons_False by (by rewrite Hopen). rewrite with_order_status_same, Hkeep. done. }
  rewrite filter_cons_True by done. cbn [run_orders].
  assert (Hact : o.(lo_status) = LoActive) by (by destruct (lo_status o)).
  destruct (order_expired now o); cbn [negb].
  { unfold mbind at 1, St_bind. change (lo_set_status (LimitOrderStore := memory_orders)) with memory_set_status.
    rewrite (memory_set_at org s pre o post) by done. cbn [fst snd]. apply Hmove. }
  destruct (mark_for o.(lo_mint)) as [mark|]; cbn [mbind option_bind].
  2:{ rewrite <- Hact, with_order_status_same. apply Hkeep. }
  destruct (trigger_fires o mark).
  - unfold mbind at 1, St_bind. change (lo_set_status (LimitOrderStore := memory_orders)) with memory_set_status.
    rewrite (memory_set_at org s pre o post) by done. cbn [fst snd]. rewrite Hmove, reverse_cons, <- app_assoc.
    reflexivity.
  - rewrite <- Hact, with_order_status_same. apply Hkeep.
Qed.

(** A pass over a tenant whose ids are distinct: the orders that fire are exactly
    the open, unexpired ones whose mark has reached the trigger; each order gets
    its verdict, nobody else's orders are touched. *)
Theorem pass_exact (org : text) (now : Z) (mark_for : text -> option f64) (s : InMemoryOrders) os
    (Hs : s !! org = Some os) (Hd : ids_distinct os) :
  run_orders_once org now mark_for s
  = (Ok (omap (fired now mark_for) os), <[org := map (after_pass now mark_for) os]> s).
Proof.
  change (run_orders_once org now mark_for s) with
    (run_orders org now mark_for [] (filter (fun o => order_open o.(lo_status) = true) (default [] (s !! org))) s).
  rewrite Hs. exact (run_orders_spec org now mark_for os [] [] s Hs Hd).
Qed.

(** ** Passes over time *)

Fixpoint run_passes (org : text) (ps : list (Z * (text -> option f64))) : St InMemoryOrders (list TriggeredOrder) :=
  match ps with
  | [] => mret []
  | (now, marks) :: ps =>
      r ← run_orders_once org now marks;
      rest ← run_passes org ps;
      mret (match r with Ok l => l | _ => [] end ++ rest)
  end.

Lemma after_pass_id now marks o : (after_pass now marks o).(lo_id) = o.(lo_id).
Proof. done. Qed.

Lemma ids_after_pass now marks os : map lo_id (map (after_pass now marks) os) = map lo_id os.
Proof. rewrite map_map. by apply map_ext. Qed.

Lemma fired_open now marks o x : fired now marks o = Some x ->
  order_open o.(lo_status) = true /\ x.(tg_order).(lo_id) = o.(lo_id)
  /\ (after_pass now marks o).(lo_status) = LoTriggered.
Proof.
  unfold fired, after_pass, order_verdict. destruct (order_open _); [|done]. cbn [andb negb].
  destruct (order_expired now o); [done|]. cbn [negb].
  destruct (marks (lo_mint o)) as [m|]; [|done]. cbn. destruct (trigger_fires o m); [|done]. by intros [= <-].
Qed.

(** What firing takes: an open order, a pass at which it has not expired and whose
    mark, finite and above zero, has reached its price from the side it asks for. *)
Definition due_in (ps : list (Z * (text -> option f64))) (x : TriggeredOrder) (o : LimitOrder) : Prop :=
  let mark := x.(tg_fired_at_price_sol) in
  o.(lo_status) = LoActive /\ x.(tg_order) = with_order_status LoTriggered o
  /\ is_finite mark = true /\ fleb mark fzero = false
  /\ (match o.(lo_trigger) with
      | AtOrBelow => fleb mark o.(lo_price_sol)
      | AtOrAbove => fleb o.(lo_price_sol) mark
      end) = true
  /\ exists now marks, (now, marks) ∈ ps /\ marks o.(lo_mint) = Some mark
       /\ forall t, o.(lo_expires_at) = Some t -> now < t.

Lemma fired_due now marks ps o x : (now, marks) ∈ ps -> fired now marks o = Some x -> due_in ps x o.
Proof.
  intros Hps. unfold fired, trigger_fires, order_expired.
  destruct (order_open _) eqn:Ho; [|done]. assert (Hact : o.(lo_status) = LoActive) by (by destruct (lo_status o)).
  destruct (match lo_expires_at o with Some t => t <=? now | None => false end) eqn:Hexp; [done|]. cbn [andb negb].
  destruct (marks (lo_mint o)) as [mark|] eqn:Hm; cbn [mbind option_bind]; [|done].
  destruct (negb (is_finite mark) || fleb mark fzero) eqn:Hp; [done|].
  apply orb_false_iff in Hp as [Hf%negb_false_iff Hz].
  destruct (match lo_trigger o with AtOrBelow => _ | AtOrAbove => _ end) eqn:Htr; [|done]. intros [= <-].
  split_and!; try done. exists now, marks. split_and!; [done..|].
  intros t Ht. rewrite Ht in Hexp. by apply Z.leb_gt in Hexp.
Qed.

Lemma due_later p ps x o : due_in ps x o -> due_in (p :: ps) x o.
Proof.
  intros (H1 & H2 & H3 & H4 & H5 & now & marks & Hin & H6). split_and!; [done..|].
  exists now, marks. split; [by apply list_elem_of_further|done].
Qed.

(** An order that is still open after a pass is the one it was. *)
Lemma after_pass_open now marks o :
  order_open (after_pass now marks o).(lo_status) = true -> after_pass now marks o = o.
Proof.
  intros Ho. assert (Hact : (after_pass now marks o).(lo_status) = LoActive)
    by (by destruct (lo_status (after_pass now marks o))).
  unfold after_pass in *. cbn [lo_status with_order_status] in Hact. rewrite Hact.
  assert (Hs : o.(lo_status) = LoActive); [|rewrite <- Hs; apply with_order_status_same].
  unfold order_verdict in Hact. destruct (order_open (lo_status o)) eqn:H1; cbn [negb] in Hact; [|done].
  by destruct (lo_status o).
Qed.

(** What fires in later passes was open at the start. *)
Lemma passes_fire_open (org : text) (ps : list (Z * (text -> option f64))) : forall (s : InMemoryOrders) os,
  s !! org = Some os -> ids_distinct os ->
  let r := run_passes org ps s in
  NoDup (map (fun x => x.(tg_order).(lo_id)) r.1)
  /\ forall x, x ∈ r.1 -> exists o, o ∈ os /\ due_in ps x o.
Proof.
  induction ps as [|[now marks] ps IH]; intros s os Hs Hd.
  { cbn. split; [constructor|]. intros x Hx. by apply not_elem_of_nil in Hx. }
  cbn [run_passes]. unfold mbind, St_bind. cbn [fst snd]. rewrite (pass_exact org now marks s os Hs Hd). cbn [fst snd].
  destruct (IH (<[org := map (after_pass now marks) os]> s) (map (after_pass now marks) os)) as [Hnd Hin].
  { by rewrite lookup_insert_eq. }
  { unfold ids_distinct. by rewrite ids_after_pass. }
  set (rest := run_passes org ps _) in *.
  assert (Hfirst : forall x, x ∈ omap (fired now marks) os ->
    exists o, o ∈ os /\ fired now marks o = Some x) by (intros x Hx; by apply list_elem_of_omap in Hx).
  cbn [mret St_ret fst]. rewrite map_app. split.
  - apply NoDup_app. split_and!; [| |done].
    + clear - Hd. unfold ids_distinct in Hd. induction os as [|o os IH]; [constructor|].
      cbn in Hd. apply NoDup_cons in Hd as [Hn Hd]. cbn [omap list_omap].
      destruct (fired now marks o) as [x|] eqn:Hx; [|by apply IH]. cbn. constructor; [|by apply IH].
      destruct (fired_open _ _ _ _ Hx) as (_ & -> & _). intros Hin.
      apply list_elem_of_fmap in Hin as (y & Hid & Hy). apply list_elem_of_omap in Hy as (o' & Ho' & Hf).
      destruct (fired_open _ _ _ _ Hf) as (_ & Hid' & _). apply Hn. rewrite Hid, Hid'. by apply list_elem_of_fmap_2.
    + intros id Hid Hrest. apply list_elem_of_fmap in Hid as (x & -> & Hx).
      apply list_elem_of_fmap in Hrest as (y & Hxy & Hy).
      destruct (Hfirst x Hx) as (o & Ho & Hfo). destruct (fired_open _ _ _ _ Hfo) as (_ & Hxo & Htr).
      destruct (Hin y Hy) as (o' & Ho' & Hopen & Hid' & _). apply list_elem_of_fmap in Ho' as (o2 & -> & Ho2).
      rewrite Hid' in Hxy. change (_ = (with_order_status _ (after_pass now marks o2)).(lo_id)) with
        (x.(tg_order).(lo_id) = o2.(lo_id)) in Hxy.
      assert (Heq : o2 = o).
      { apply list_elem_of_lookup in Ho as [i Hi]. apply list_elem_of_lookup in Ho2 as [j Hj].
        assert (j = i).
        { eapply (NoDup_lookup _ j i _ Hd); rewrite list_lookup_fmap; [by rewrite Hj|rewrite Hi; cbn; congruence]. }
        congruence. }
      rewrite Heq, Htr in Hopen. done.
  - intros x [Hx|Hx]%elem_of_app.
    + destruct (Hfirst x Hx) as (o & Ho & Hf). exists o. split; [done|].
      eapply fired_due, Hf. apply list_elem_of_here.
    + destruct (Hin x Hx) as (o & Ho & Hdue). apply list_elem_of_fmap in Ho as (o2 & -> & Ho2).
      exists o2. split; [done|]. apply due_later.
      rewrite <- (after_pass_open now marks o2); [done|]. by destruct Hdue as [-> _].
Qed.

(** C21: In a tenant's list whose identifiers are distinct, an order fires at most once over
    any sequence of passes, and only an order that was open when they started, in a
    pass at which it has not expired and at a mark that has reached its price.  The
    store in memory does not keep identifiers distinct by itself
    ([assigned_id_collides]). *)
Theorem order_fires_once (org : text) (ps : list (Z * (text -> option f64))) (s : InMemoryOrders) os
    (Hs : s !! org = Some os) (Hd : ids_distinct os) :
  let r := run_passes org ps s in
  NoDup (map (fun x => x.(tg_order).(lo_id)) r.1)
  /\ forall x, x ∈ r.1 -> exists o, o ∈ os /\ due_in ps x o.
Proof. by apply passes_fire_open. Qed.

(** * Runs of the store in memory *)

Definition lo_org : text := lit "t".
Definition lo_buy (id : text) : LimitOrder :=
  mkLimitOrder id lo_org (lit "M") LoBuy AtOrBelow fone fone LoActive 0 None.
Definition lo_mark (m : text) : option f64 := if decide (m = lit "M") then Some fone else None.

Lemma pass_exact_witness :
  let os := [lo_buy (lit "a"); with_order_status LoCancelled (lo_buy (lit "b"))] in
  run_orders_once lo_org 5 lo_mark (<[lo_org := os]> ∅)
  = (Ok [mkTriggeredOrder (with_order_status LoTriggered (lo_buy (lit "a"))) fone],
     <[lo_org := map (after_pass 5 lo_mark) os]> (<[lo_org := os]> ∅)).
Proof.
  cbv zeta. rewrite (pass_exact lo_org 5 lo_mark _ [lo_buy (lit "a"); with_order_status LoCancelled (lo_buy (lit "b"))]);
    [reflexivity| by rewrite lookup_insert_eq |].
  apply (bool_decide_eq_true_1 (NoDup [lit "a"; lit "b"])). reflexivity.
Defined.

Lemma order_fires_once_witness :
  let r := run_passes lo_org [(5, lo_mark); (6, lo_mark)] (<[lo_org := [lo_buy (lit "a")]]> ∅) in
  map (fun x => x.(tg_order).(lo_id)) r.1 = [lit "a"] /\ NoDup (map (fun x => x.(tg_order).(lo_id)) r.1).
Proof.
  split; [vm_compute; reflexivity|].
  apply (order_fires_once lo_org [(5, lo_mark); (6, lo_mark)] (<[lo_org := [lo_buy (lit "a")]]> ∅) [lo_buy (lit "a")]).
  - by rewrite lookup_insert_eq.
  - apply (bool_decide_eq_true_1 (NoDup [lit "a"])). reflexivity.
Defined.

(** The identifier the store makes up is not compared with those it holds: an
    order placed as lo-2-M and then one without an identifier share lo-2-M, the
    status is set on the first of them only, and the second, still active, fires
    on every pass. *)
Theorem assigned_id_collides :
  let s := (memory_insert_order (lo_buy []) (memory_insert_order (lo_buy (lit "lo-2-M")) ∅).2) in
  s.1 = Ok (lit "lo-2-M")
  /\ map (fun x => x.(tg_order).(lo_id)) (run_passes lo_org [(5, lo_mark); (6, lo_mark); (7, lo_mark)] s.2).1
     = [lit "lo-2-M"; lit "lo-2-M"; lit "lo-2-M"; lit "lo-2-M"].
Proof. vm_compute. done. Qed.
