(* ===== verification/Plans.v ===== *)
(** Plans, subscriptions and entitlements ([crates/core/src/billing/plan.rs],
    [subscription.rs], [entitlement.rs], [usage_policy.rs]): what a plan grants,
    when a subscription grants it, and the one answer to what a tenant may do.
    Identifiers are the number of their UUID; a fresh one is a parameter. *)
From stdpp Require Import prelude countable gmap list strings.
From Stdlib Require Import ZArith Lia SpecFloat.
From S2P Require Import Prelude.
From S2P Require Import Text.
From S2P Require Import Float64.

#[local] Open Scope Z_scope.

(** * Plans *)

Inductive PlanCode : Type := PcStarter | PcPro | PcBusiness | PcEnterprise.
Inductive PlanStatus : Type := PlActive | PlDeprecated | PlPrivate.

#[export] Instance PlanCode_eq_dec : EqDecision PlanCode.
Proof. solve_decision. Defined.
#[export] Instance PlanStatus_eq_dec : EqDecision PlanStatus.
Proof. solve_decision. Defined.

Definition PlanCode_ALL : list PlanCode := [PcStarter; PcPro; PcBusiness; PcEnterprise].

Definition PlanCode_as_str (c : PlanCode) : text :=
  match c with
  | PcStarter => lit "starter"
  | PcPro => lit "pro"
  | PcBusiness => lit "business"
  | PcEnterprise => lit "enterprise"
  end.

Definition PlanCode_parse (s : text) : option PlanCode :=
  snd <$> list_find (fun c => PlanCode_as_str c = map ascii_lower (trim s)) PlanCode_ALL.

Definition PlanStatus_ALL : list PlanStatus := [PlActive; PlDeprecated; PlPrivate].

Definition PlanStatus_as_str (s : PlanStatus) : text :=
  match s with
  | PlActive => lit "active"
  | PlDeprecated => lit "deprecated"
  | PlPrivate => lit "private"
  end.

Definition PlanStatus_parse (s : text) : option PlanStatus :=
  snd <$> list_find (fun c => PlanStatus_as_str c = trim s) PlanStatus_ALL.

Definition is_subscribable (s : PlanStatus) : bool :=
  match s with PlActive | PlPrivate => true | PlDeprecated => false end.

Inductive FeatureLimit : Type := FlDisabled | FlUnlimited | FlLimited (max : f64).

Definition limit_enabled (l : FeatureLimit) : bool := match l with FlDisabled => false | _ => true end.

Definition limit_ceiling (l : FeatureLimit) : option f64 :=
  match l with FlLimited v => Some v | _ => None end.

(** [FeatureLimit::allows]. *)
Definition limit_allows (l : FeatureLimit) (current requested : f64) : bool :=
  match l with
  | FlDisabled => false
  | FlUnlimited => true
  | FlLimited max => fleb (fadd current requested) max
  end.

Record Plan : Type := mkPlan {
  pl_id : Z;
  pl_code : PlanCode;
  pl_name : text;
  pl_status : PlanStatus;
  pl_limits : gmap text FeatureLimit;
  pl_description : text;
  pl_created_at : Z;
  pl_updated_at : Z;
}.

Definition Plan_new (id : Z) (code : PlanCode) (name : text) (now : Z) : Plan :=
  mkPlan id code name PlActive ∅ [] now now.

Definition with_limit (feature : text) (l : FeatureLimit) (p : Plan) : Plan :=
  mkPlan p.(pl_id) p.(pl_code) p.(pl_name) p.(pl_status) (<[feature := l]> p.(pl_limits))
    p.(pl_description) p.(pl_created_at) p.(pl_updated_at).

Definition plan_limit_for (p : Plan) (feature : text) : FeatureLimit :=
  default FlDisabled (p.(pl_limits) !! feature).

Definition MODULE_SNIPER : text := lit "module.sniper".
Definition MODULE_COPY : text := lit "module.copy".
Definition MODULE_POLYMARKET : text := lit "module.polymarket".
Definition LIVE_TRADING : text := lit "feature.live_trading".
Definition API_KEYS : text := lit "feature.api_keys".
Definition EXPORTS : text := lit "feature.exports".
Definition MAX_MEMBERS : text := lit "limit.max_members".
Definition MAX_API_KEYS : text := lit "limit.max_api_keys".
Definition MAX_ACTIVE_MODULES : text := lit "limit.max_active_modules".
Definition MONTHLY_ORDERS : text := lit "limit.monthly_orders".

Definition features_ALL : list text :=
  [MODULE_SNIPER; MODULE_COPY; MODULE_POLYMARKET; LIVE_TRADING; API_KEYS; EXPORTS; MAX_MEMBERS;
   MAX_API_KEYS; MAX_ACTIVE_MODULES; MONTHLY_ORDERS].

(** The builder calls of the catalogue, one limit per shipped feature in order. *)
Definition with_limits (ls : list FeatureLimit) (p : Plan) : Plan :=
  foldl (fun p fl => with_limit fl.1 fl.2 p) p (zip features_ALL ls).

Definition upto (n : Z) : FeatureLimit := FlLimited (f_of_Z n).

Definition starter_limits : list FeatureLimit :=
  [upto 1; FlDisabled; FlDisabled; FlDisabled; upto 1; FlDisabled; upto 2; upto 1; upto 1; upto 1000].
Definition pro_limits : list FeatureLimit :=
  [FlUnlimited; FlUnlimited; FlDisabled; FlUnlimited; FlUnlimited; FlUnlimited; upto 5; upto 5; upto 2; upto 25000].
Definition business_limits : list FeatureLimit :=
  [FlUnlimited; FlUnlimited; FlUnlimited; FlUnlimited; FlUnlimited; FlUnlimited; upto 25; upto 25; upto 3;
   upto 250000].
Definition enterprise_limits : list FeatureLimit := replicate 10 FlUnlimited.

Definition with_plan_status (s : PlanStatus) (p : Plan) : Plan :=
  mkPlan p.(pl_id) p.(pl_code) p.(pl_name) s p.(pl_limits) p.(pl_description) p.(pl_created_at)
    p.(pl_updated_at).

Definition default_catalogue (fresh : PlanCode -> Z) (now : Z) : list Plan :=
  [with_limits starter_limits (Plan_new (fresh PcStarter) PcStarter (lit "Starter") now);
   with_limits pro_limits (Plan_new (fresh PcPro) PcPro (lit "Pro") now);
   with_limits business_limits (Plan_new (fresh PcBusiness) PcBusiness (lit "Business") now);
   with_plan_status PlPrivate
     (with_limits enterprise_limits (Plan_new (fresh PcEnterprise) PcEnterprise (lit "Enterprise") now))].

(** * Subscriptions *)

Inductive BillingProvider : Type := BpManual | BpStripe | BpPaddle.
Inductive SubscriptionStatus : Type :=
  | SubTrialing | SubActive | SubPastDue | SubPaused | SubCanceled | SubExpired.

#[export] Instance BillingProvider_eq_dec : EqDecision BillingProvider.
Proof. solve_decision. Defined.
#[export] Instance SubscriptionStatus_eq_dec : EqDecision SubscriptionStatus.
Proof. solve_decision. Defined.

Definition BillingProvider_ALL : list BillingProvider := [BpManual; BpStripe; BpPaddle].

Definition BillingProvider_as_str (p : BillingProvider) : text :=
  match p with BpManual => lit "manual" | BpStripe => lit "stripe" | BpPaddle => lit "paddle" end.

Definition BillingProvider_parse (s : text) : option BillingProvider :=
  snd <$> list_find (fun p => BillingProvider_as_str p = trim s) BillingProvider_ALL.

Definition is_implemented (p : BillingProvider) : bool := bool_decide (p = BpManual).

Definition SubscriptionStatus_ALL : list SubscriptionStatus :=
  [SubTrialing; SubActive; SubPastDue; SubPaused; SubCanceled; SubExpired].

Definition SubscriptionStatus_as_str (s : SubscriptionStatus) : text :=
  match s with
  | SubTrialing => lit "trialing"
  | SubActive => lit "active"
  | SubPastDue => lit "past_due"
  | SubPaused => lit "paused"
  | SubCanceled => lit "canceled"
  | SubExpired => lit "expired"
  end.

Definition SubscriptionStatus_parse (s : text) : option SubscriptionStatus :=
  snd <$> list_find (fun x => SubscriptionStatus_as_str x = trim s) SubscriptionStatus_ALL.

Definition grants_entitlements (s : SubscriptionStatus) : bool :=
  match s with SubTrialing | SubActive | SubPastDue => true | _ => false end.

Definition sub_is_terminal (s : SubscriptionStatus) : bool := bool_decide (s = SubExpired).

Record Subscription : Type := mkSubscription {
  su_id : Z;
  su_organization_id : Z;
  su_plan_id : Z;
  su_provider : BillingProvider;
  su_provider_ref : option text;
  su_status : SubscriptionStatus;
  su_current_period_start : Z;
  su_current_period_end : option Z;
  su_cancel_at_period_end : bool;
  su_canceled_at : option Z;
  su_created_at : Z;
  su_updated_at : Z;
}.

Definition Subscription_manual (id organization_id plan_id now : Z) : Subscription :=
  mkSubscription id organization_id plan_id BpManual None SubActive now None false None now now.

Definition is_effective (now : Z) (s : Subscription) : bool :=
  grants_entitlements s.(su_status)
  && match s.(su_current_period_end) with Some end_ => now <? end_ | None => true end.

Definition sub_cancel (at_period_end : bool) (now : Z) (s : Subscription) : Subscription :=
  mkSubscription s.(su_id) s.(su_organization_id) s.(su_plan_id) s.(su_provider) s.(su_provider_ref)
    (if at_period_end then s.(su_status) else SubCanceled) s.(su_current_period_start)
    (if at_period_end then s.(su_current_period_end) else Some now) at_period_end (Some now)
    s.(su_created_at) now.

Definition sub_renew (period_end : option Z) (now : Z) (s : Subscription) : Subscription :=
  mkSubscription s.(su_id) s.(su_organization_id) s.(su_plan_id) s.(su_provider) s.(su_provider_ref)
    (if decide (s.(su_status) = SubPastDue) then SubActive else s.(su_status)) now period_end
    s.(su_cancel_at_period_end) s.(su_canceled_at) s.(su_created_at) now.

(** * Entitlements *)

Inductive EntitlementSource : Type := EsPlan | EsTrial | EsOverride.

#[export] Instance EntitlementSource_eq_dec : EqDecision EntitlementSource.
Proof. solve_decision. Defined.

Definition EntitlementSource_ALL : list EntitlementSource := [EsPlan; EsTrial; EsOverride].

Definition EntitlementSource_as_str (s : EntitlementSource) : text :=
  match s with EsPlan => lit "plan" | EsTrial => lit "trial" | EsOverride => lit "override" end.

Definition EntitlementSource_parse (s : text) : option EntitlementSource :=
  snd <$> list_find (fun x => EntitlementSource_as_str x = trim s) EntitlementSource_ALL.

Definition precedence (s : EntitlementSource) : Z :=
  match s with EsPlan => 0 | EsTrial => 1 | EsOverride => 2 end.

Record Entitlement : Type := mkEntitlement {
  en_id : Z;
  en_organization_id : Z;
  en_feature : text;
  en_limit_value : option f64;
  en_source : EntitlementSource;
  en_enabled : bool;
  en_starts_at : Z;
  en_ends_at : option Z;
  en_created_at : Z;
  en_updated_at : Z;
}.

Definition Entitlement_new (id organization_id : Z) (feature : text) (limit_value : option f64)
    (source : EntitlementSource) (now : Z) : Entitlement :=
  mkEntitlement id organization_id feature limit_value source true now None now now.

Definition row_enabled (b : bool) (e : Entitlement) : Entitlement :=
  mkEntitlement e.(en_id) e.(en_organization_id) e.(en_feature) e.(en_limit_value) e.(en_source) b
    e.(en_starts_at) e.(en_ends_at) e.(en_created_at) e.(en_updated_at).

Definition row_active (now : Z) (e : Entitlement) : bool :=
  if now <? e.(en_starts_at) then false
  else match e.(en_ends_at) with Some end_ => now <? end_ | None => true end.

Definition as_limit (e : Entitlement) : FeatureLimit :=
  if negb e.(en_enabled) then FlDisabled
  else match e.(en_limit_value) with Some v => FlLimited v | None => FlUnlimited end.

Inductive EntitlementDenyReason : Type := NotEntitled | LimitExceeded | NoActiveSubscription.

Definition EntitlementDenyReason_as_str (r : EntitlementDenyReason) : text :=
  match r with
  | NotEntitled => lit "not_entitled"
  | LimitExceeded => lit "limit_exceeded"
  | NoActiveSubscription => lit "no_active_subscription"
  end.

Inductive EntitlementVerdict : Type := EvAllow (l : FeatureLimit) | EvDeny (r : EntitlementDenyReason).

Definition verdict_allowed (v : EntitlementVerdict) : bool :=
  match v with EvAllow _ => true | EvDeny _ => false end.

Record EntitlementSet : Type := mkEntitlementSet {
  es_effective : gmap text Entitlement;
  es_subscription_effective : bool;
}.

(** The base rows of a plan; [fresh] numbers them. *)
Definition plan_row (fresh : text -> Z) (organization now : Z) (feature : text) (l : FeatureLimit)
    : Entitlement :=
  row_enabled (limit_enabled l)
    (Entitlement_new (fresh feature) organization feature (limit_ceiling l) EsPlan now).

Definition plan_rows (fresh : text -> Z) (plan : option Plan) (sub : option Subscription) (now : Z)
    : gmap text Entitlement :=
  match plan, sub with
  | Some p, Some s => map_imap (fun f l => Some (plan_row fresh s.(su_organization_id) now f l)) p.(pl_limits)
  | _, _ => ∅
  end.

(** One stored row laid over what is there. *)
Definition layer_row (subscription_effective : bool) (now : Z) (eff : gmap text Entitlement)
    (row : Entitlement) : gmap text Entitlement :=
  if negb (row_active now row) then eff
  else if bool_decide (row.(en_source) = EsPlan) && negb subscription_effective then eff
  else
    match eff !! row.(en_feature) with
    | Some existing =>
        if precedence row.(en_source) <? precedence existing.(en_source) then eff
        else <[row.(en_feature) := row]> eff
    | None => <[row.(en_feature) := row]> eff
    end.

(** [EntitlementSet::resolve]. *)
Definition resolve_entitlements (fresh : text -> Z) (plan : option Plan) (sub : option Subscription)
    (stored : list Entitlement) (now : Z) : EntitlementSet :=
  let se := from_option (is_effective now) false sub in
  mkEntitlementSet (foldl (layer_row se now) (if se then plan_rows fresh plan sub now else ∅) stored) se.

Definition limit_for (s : EntitlementSet) (feature : text) : FeatureLimit :=
  from_option as_limit FlDisabled (s.(es_effective) !! feature).

Definition is_present {A} (o : option A) : bool := match o with Some _ => true | None => false end.

(** [EntitlementSet::check]. *)
Definition check_entitlement (s : EntitlementSet) (feature : text) (current requested : f64)
    : EntitlementVerdict :=
  let l := limit_for s feature in
  if negb (limit_enabled l) then
    EvDeny (if is_present (s.(es_effective) !! feature) || s.(es_subscription_effective)
            then NotEntitled else NoActiveSubscription)
  else if limit_allows l current requested then EvAllow l
  else EvDeny LimitExceeded.

Definition entitlement_allows (s : EntitlementSet) (feature : text) : bool :=
  verdict_allowed (check_entitlement s feature fzero fzero).

(** * The usage policy *)

Inductive UsageState : Type := WithinAllowance | SoftLimitExceeded | HardLimitExceeded | UsageSuspended.

Record UsagePolicyDecision : Type := mkUsagePolicyDecision {
  ud_state : UsageState;
  ud_limit : option f64;
  ud_current : f64;
  ud_allowance_remaining : option f64;
  ud_allows : bool;
}.

Record UsageThresholds : Type := mkUsageThresholds { ut_soft_ratio : f64; ut_hard_ratio : f64 }.

Definition UsageThresholds_default : UsageThresholds := mkUsageThresholds (f_lit 4 5) fone.

Definition usage_ratio (current max : f64) : f64 :=
  if f64_eq max fzero then S754_infinity false else fdiv current max.

Definition usage_state (current max : f64) (t : UsageThresholds) : UsageState :=
  let ratio := usage_ratio current max in
  if fleb t.(ut_hard_ratio) ratio then
    if fltb max current then UsageSuspended
    else if fleb t.(ut_hard_ratio) ratio then HardLimitExceeded
    else SoftLimitExceeded
  else if fleb t.(ut_soft_ratio) ratio then SoftLimitExceeded
  else WithinAllowance.

Definition usage_allows (s : UsageState) : bool :=
  match s with WithinAllowance | SoftLimitExceeded => true | HardLimitExceeded | UsageSuspended => false end.

(** [usage_policy::evaluate_feature]. *)
Definition evaluate_feature (plan : Plan) (feature : text) (current : f64) (t : UsageThresholds)
    : UsagePolicyDecision :=
  match plan_limit_for plan feature with
  | FlDisabled => mkUsagePolicyDecision UsageSuspended None current (Some fzero) false
  | FlUnlimited => mkUsagePolicyDecision WithinAllowance None current None true
  | FlLimited max =>
      let s := usage_state current max t in
      mkUsagePolicyDecision s (Some max) current (Some (fmax (fsub max current) fzero)) (usage_allows s)
  end.

(** * What a tenant may do *)

(** A row that takes part: active, and not derived from a plan whose
    subscription has lapsed. *)
Definition row_candidate (se : bool) (now : Z) (f : text) (e : Entitlement) : Prop :=
  e.(en_feature) = f /\ row_active now e = true /\ (e.(en_source) = EsPlan -> se = true).

#[local] Instance row_candidate_dec se now f e : Decision (row_candidate se now f e).
Proof. unfold row_candidate. apply _. Defined.

(** The later of two rows wins unless the earlier one takes precedence. *)
Definition stronger (best : option Entitlement) (row : Entitlement) : option Entitlement :=
  match best with
  | Some b => if precedence row.(en_source) <? precedence b.(en_source) then Some b else Some row
  | None => Some row
  end.

Lemma layer_row_lookup se now eff row f :
  layer_row se now eff row !! f
  = if decide (row_candidate se now f row) then stronger (eff !! f) row else eff !! f.
Proof.
  unfold layer_row. destruct (decide (row_candidate se now f row)) as [(Hf & Ha & Hok)|Hno].
  - rewrite Ha. cbn [negb].
    replace (bool_decide (en_source row = EsPlan) && negb se) with false.
    2:{ case_bool_decide as Hs; [by rewrite Hok|done]. }
    rewrite <- Hf. unfold stronger. destruct (eff !! en_feature row) as [b|] eqn:Hb.
    + destruct (_ <? _); [by rewrite Hb|by rewrite lookup_insert_eq].
    + by rewrite lookup_insert_eq.
  - destruct (row_active now row) eqn:Ha; [|done]. cbn [negb].
    destruct (bool_decide (en_source row = EsPlan) && negb se) eqn:Hp; [done|].
    assert (Hf : en_feature row <> f).
    { intros Hf. apply Hno. split_and!; [done|done|]. intros Hs.
      rewrite bool_decide_eq_true_2 in Hp by done. by destruct se. }
    destruct (eff !! en_feature row) as [b|]; [destruct (_ <? _)|]; try done; by rewrite lookup_insert_ne.
Qed.

Lemma layers_lookup se now f rows : forall eff,
  foldl (layer_row se now) eff rows !! f
  = foldl stronger (eff !! f) (filter (row_candidate se now f) rows).
Proof.
  induction rows as [|row rows IH]; intros eff; [done|]. cbn [foldl]. rewrite IH, layer_row_lookup.
  destruct (decide (row_candidate se now f row)) as [Hc|Hc];
    [rewrite filter_cons_True by done|rewrite filter_cons_False by done]; done.
Qed.

(** The last of the rows that nothing outranks. *)
Definition winner (base : option Entitlement) (rows : list Entitlement) (w : Entitlement) : Prop :=
  (base = Some w /\ Forall (fun e => precedence e.(en_source) < precedence w.(en_source)) rows)
  \/ exists pre post, rows = pre ++ w :: post
     /\ Forall (fun e => precedence e.(en_source) <= precedence w.(en_source)) pre
     /\ Forall (fun e => precedence e.(en_source) < precedence w.(en_source)) post
     /\ (forall b, base = Some b -> precedence b.(en_source) <= precedence w.(en_source)).

Lemma stronger_winner base rows :
  match foldl stronger base rows with
  | Some w => winner base rows w
  | None => base = None /\ rows = []
  end.
Proof.
  induction rows as [|row rows IH] using rev_ind.
  { cbn. destruct base as [b|]; [|done]. left. by split. }
  rewrite foldl_snoc. destruct (foldl stronger base rows) as [w|]; cbn [stronger].
  - destruct (Z.ltb_spec (precedence (en_source row)) (precedence (en_source w))) as [Hlt|Hge].
    + destruct IH as [[Hb Hall]|(pre & post & -> & Hpre & Hpost & Hb)].
      * left. split; [done|]. apply Forall_app. by split; [|constructor].
      * right. exists pre, (post ++ [row]). split_and!; [by rewrite <- app_assoc|done| |done].
        apply Forall_app. by split; [|constructor].
    + right. exists rows, []. split_and!; [done| |constructor|].
      * destruct IH as [[Hb Hall]|(pre & post & -> & Hpre & Hpost & Hb)].
        -- eapply Forall_impl; [exact Hall|]. cbn. lia.
        -- apply Forall_app. split; [eapply Forall_impl; [exact Hpre|]; cbn; lia|].
           constructor; [lia|]. eapply Forall_impl; [exact Hpost|]. cbn. lia.
      * intros b Hbase. destruct IH as [[Hb Hall]|(pre & post & -> & Hpre & Hpost & Hb)].
        -- assert (b = w) by congruence. subst. lia.
        -- specialize (Hb b Hbase). lia.
  - destruct IH as [-> ->]. right. exists [], []. by split_and!; [done|constructor|constructor|].
Qed.

Definition plan_base (fresh : text -> Z) (plan : option Plan) (sub : option Subscription) (now : Z) (f : text)
    : option Entitlement :=
  match plan, sub with
  | Some p, Some s => if is_effective now s
                      then plan_row fresh s.(su_organization_id) now f <$> (p.(pl_limits) !! f) else None
  | _, _ => None
  end.

Lemma base_lookup fresh plan sub now f :
  (if from_option (is_effective now) false sub then plan_rows fresh plan sub now else ∅) !! f
  = plan_base fresh plan sub now f.
Proof.
  destruct sub as [s|]; cbn; [|by destruct plan]. unfold plan_rows, plan_base.
  destruct plan as [p|]; cbn; destruct (is_effective now s); cbn; try by rewrite lookup_empty.
  rewrite map_lookup_imap. by destruct (pl_limits p !! f).
Qed.

(** Entitlements resolve to one row per feature: among the plan's row, present
    while the subscription is effective, and the stored rows in force, the last
    of those with the highest precedence; and to none exactly when there are none. *)
Theorem resolution_exact fresh plan sub stored now f :
  let se := from_option (is_effective now) false sub in
  let rows := filter (row_candidate se now f) stored in
  let base := plan_base fresh plan sub now f in
  match es_effective (resolve_entitlements fresh plan sub stored now) !! f with
  | Some w => winner base rows w
  | None => base = None /\ rows = []
  end.
Proof.
  cbv zeta. unfold resolve_entitlements. cbn [es_effective]. rewrite layers_lookup, base_lookup.
  apply stronger_winner.
Qed.

(** The verdict on a feature: allowed exactly when the row that won is enabled and
    leaves room; refused for want of a subscription exactly when nothing, not even
    a plan, speaks of it. *)
Theorem check_exact fresh plan sub stored now f current requested :
  let s := resolve_entitlements fresh plan sub stored now in
  match check_entitlement s f current requested with
  | EvAllow l => exists w, s.(es_effective) !! f = Some w /\ l = as_limit w
                 /\ w.(en_enabled) = true
                 /\ (forall max, w.(en_limit_value) = Some max -> fleb (fadd current requested) max = true)
  | EvDeny NoActiveSubscription =>
      from_option (is_effective now) false sub = false
      /\ plan_base fresh plan sub now f = None /\ filter (row_candidate false now f) stored = []
  | EvDeny NotEntitled =>
      forall w, s.(es_effective) !! f = Some w -> w.(en_enabled) = false
  | EvDeny LimitExceeded => exists w max, s.(es_effective) !! f = Some w
                 /\ w.(en_enabled) = true /\ w.(en_limit_value) = Some max
                 /\ fleb (fadd current requested) max = false
  end.
Proof.
  cbv zeta. pose proof (layers_lookup (from_option (is_effective now) false sub) now f stored) as Hl.
  unfold check_entitlement, limit_for.
  destruct (es_effective _ !! f) as [w|] eqn:Hw; cbn [from_option is_present orb].
  - unfold as_limit. destruct (en_enabled w) eqn:He; cbn [negb limit_enabled].
    2:{ intros w'. by intros [= <-]. }
    destruct (en_limit_value w) as [max|] eqn:Hm; cbn [limit_enabled negb limit_allows].
    + destruct (fleb _ max) eqn:Hle.
      * exists w. unfold as_limit. rewrite He, Hm. split_and!; [done..|]. by intros m [= <-].
      * by exists w, max.
    + exists w. unfold as_limit. rewrite He, Hm. split_and!; [done..|]. by intros m [=].
  - cbn [limit_enabled negb]. cbn [es_subscription_effective resolve_entitlements].
    destruct (from_option (is_effective now) false sub) eqn:Hse; [by intros w [=]|].
    unfold resolve_entitlements in Hw. cbn [es_effective] in Hw. rewrite Hse, Hl in Hw.
    pose proof (stronger_winner ((∅ : gmap text Entitlement) !! f) (filter (row_candidate false now f) stored)) as H.
    rewrite Hw in H. split_and!; [done| |apply H].
    unfold plan_base. destruct plan, sub as [s|]; try done. cbn in Hse. by rewrite Hse.
Qed.

(** While the subscription is not effective no plan grants anything: what is left
    are trials and overrides in force, and an override always has the last word. *)
Theorem lapsed_subscription_grants_by_exception fresh plan sub stored now f w
    (Hsub : from_option (is_effective now) false sub = false)
    (Hw : es_effective (resolve_entitlements fresh plan sub stored now) !! f = Some w) :
  w ∈ stored /\ w.(en_feature) = f /\ row_active now w = true /\ w.(en_source) <> EsPlan
  /\ forall o, o ∈ stored -> o.(en_feature) = f -> row_active now o = true ->
       o.(en_source) = EsOverride -> w.(en_source) = EsOverride.
Proof.
  unfold resolve_entitlements in Hw. cbn [es_effective] in Hw. rewrite Hsub, layers_lookup, lookup_empty in Hw.
  pose proof (stronger_winner None (filter (row_candidate false now f) stored)) as H. rewrite Hw in H.
  destruct H as [[? _]|(pre & post & Hrows & Hpre & Hpost & _)]; [done|].
  assert (Hin : w ∈ filter (row_candidate false now f) stored) by (rewrite Hrows; set_solver).
  apply list_elem_of_filter in Hin as [(Hf & Ha & Hp) Hin].
  split_and!; [done..| |].
  - intros Hs. by specialize (Hp Hs).
  - intros o Ho Hof Hoa Hos.
    assert (Hoc : o ∈ filter (row_candidate false now f) stored).
    { apply list_elem_of_filter. split; [|done]. split_and!; [done..|]. by rewrite Hos. }
    rewrite Hrows in Hoc. apply elem_of_app in Hoc as [Hoc|Hoc]; [|apply elem_of_cons in Hoc as [->|Hoc]; [done|]].
    + rewrite Forall_forall in Hpre. specialize (Hpre o Hoc). rewrite Hos in Hpre.
      by destruct (en_source w).
    + rewrite Forall_forall in Hpost. specialize (Hpost o Hoc). rewrite Hos in Hpost.
      by destruct (en_source w).
Qed.

(** ** The tiers *)

Definition limit_le (a b : FeatureLimit) : bool :=
  match a, b with
  | FlDisabled, _ | _, FlUnlimited => true
  | FlLimited x, FlLimited y => fleb x y
  | _, _ => false
  end.

Lemma limit_le_allows a b c r : limit_le a b = true -> limit_allows a c r = true -> limit_allows b c r = true.
Proof. destruct a, b; cbn; try done. intros ??. by eapply fleb_trans. Qed.

Definition limits_of (p : Plan) : list FeatureLimit := map (plan_limit_for p) features_ALL.

(** The catalogue has one plan per tier, it speaks of exactly the shipped features,
    and a higher tier allows whatever a lower one does. *)
Theorem catalogue_grows fresh now i j p q f current requested
    (Hij : (i <= j)%nat)
    (Hp : default_catalogue fresh now !! i = Some p) (Hq : default_catalogue fresh now !! j = Some q)
    (Hf : f ∈ features_ALL)
    (Hok : limit_allows (plan_limit_for p f) current requested = true) :
  limit_allows (plan_limit_for q f) current requested = true.
Proof.
  eapply limit_le_allows; [|exact Hok]. clear Hok.
  assert (Hall : forallb (fun pq => limit_le pq.1 pq.2) (zip (limits_of p) (limits_of q)) = true).
  { unfold default_catalogue in Hp, Hq.
    destruct i as [|[|[|[|i]]]]; cbn [lookup list_lookup] in Hp; try done; injection Hp as <-;
      destruct j as [|[|[|[|j]]]]; cbn [lookup list_lookup] in Hq; try done; try lia; injection Hq as <-;
      vm_compute; reflexivity. }
  unfold limits_of in Hall. rewrite forallb_forall in Hall.
  apply list_elem_of_lookup in Hf as [k Hk].
  apply (Hall (plan_limit_for p f, plan_limit_for q f)).
  apply list_elem_of_In, (list_elem_of_lookup_2 _ k). rewrite lookup_zip_with, !list_lookup_fmap, Hk. done.
Qed.

(** ** The life of a subscription *)

(** An immediate cancellation ends access at once and for good: no renewal of any
    length brings it back. A cancellation at the period end leaves access as it was,
    up to the end of the period. *)
Theorem cancellation_ends_access s now (renewals : list (option Z * Z)) t :
  is_effective t (foldl (fun s r => sub_renew r.1 r.2 s) (sub_cancel false now s) renewals) = false
  /\ is_effective t (sub_cancel true now s) = is_effective t s
  /\ (forall end_, s.(su_current_period_end) = Some end_ -> end_ <= t -> is_effective t (sub_cancel true now s) = false).
Proof.
  split_and!; [|done|].
  - enough (Hst : su_status (foldl (fun s r => sub_renew r.1 r.2 s) (sub_cancel false now s) renewals) = SubCanceled)
      by (unfold is_effective; by rewrite Hst).
    induction renewals as [|r renewals IH] using rev_ind; [done|].
    rewrite foldl_snoc. cbn [sub_renew su_status]. by rewrite IH.
  - intros end_ He Ht. unfold is_effective. cbn [sub_cancel su_current_period_end su_status]. rewrite He.
    destruct (Z.ltb_spec t end_); [lia|]. apply andb_false_r.
Qed.

(** ** What the code does beside its comments *)

Definition demo_entitlement (source : EntitlementSource) (enabled : bool) : Entitlement :=
  row_enabled enabled (Entitlement_new 1 7 MODULE_SNIPER None source 0).

(** Two rows of one source are settled by their order, not by precedence. *)
Theorem tie_is_settled_by_order :
  let r := fun rows => entitlement_allows (resolve_entitlements (fun _ => 0) None None rows 5) MODULE_SNIPER in
  r [demo_entitlement EsOverride true; demo_entitlement EsOverride false] = false
  /\ r [demo_entitlement EsOverride false; demo_entitlement EsOverride true] = true.
Proof. vm_compute. done. Qed.

(** An expired subscription that is cancelled is no longer expired. *)
Theorem expired_is_left s now (Hs : sub_is_terminal s.(su_status) = true) :
  sub_is_terminal (sub_cancel false now s).(su_status) = false.
Proof. done. Qed.

(** A subscription without a period end that is cancelled at the period end never ends. *)
Theorem open_ended_cancellation_never_ends id org plan now t :
  is_effective t (sub_cancel true now (Subscription_manual id org plan now)) = true.
Proof. done. Qed.

(** The usage policy and the entitlement check disagree on a limit that is not a
    number, and on a limit that is met exactly. *)
Theorem usage_policy_disagrees :
  let p := fun l => with_limit MAX_MEMBERS l (Plan_new 0 PcPro (lit "Pro") 0) in
  let usage := fun l c => ud_allows (evaluate_feature (p l) MAX_MEMBERS c UsageThresholds_default) in
  let check := fun l c => limit_allows (plan_limit_for (p l) MAX_MEMBERS) c fzero in
  (usage (FlLimited S754_nan) (f_of_Z 9) = true /\ check (FlLimited S754_nan) (f_of_Z 9) = false)
  /\ (usage (upto 5) (f_of_Z 5) = false /\ check (upto 5) (f_of_Z 5) = true).
Proof. vm_compute. done. Qed.

Lemma lapsed_subscription_grants_by_exception_witness :
  let w := demo_entitlement EsOverride true in
  es_effective (resolve_entitlements (fun _ => 0) None None [demo_entitlement EsTrial false; w] 5) !! MODULE_SNIPER = Some w
  /\ w.(en_source) <> EsPlan.
Proof.
  split; [reflexivity|].
  apply (lapsed_subscription_grants_by_exception (fun _ => 0) None None
           [demo_entitlement EsTrial false; demo_entitlement EsOverride true] 5 MODULE_SNIPER); reflexivity.
Defined.

Lemma catalogue_grows_witness :
  limit_allows (plan_limit_for (with_limits business_limits (Plan_new 2 PcBusiness (lit "Business") 0)) MAX_MEMBERS)
    (f_of_Z 1) (f_of_Z 1) = true.
Proof.
  apply (catalogue_grows (fun _ => 2) 0 0 2 (with_limits starter_limits (Plan_new 2 PcStarter (lit "Starter") 0)) _
           MAX_MEMBERS); [lia|reflexivity|reflexivity| |vm_compute; reflexivity].
  apply (bool_decide_eq_true_1 (MAX_MEMBERS ∈ features_ALL)). vm_compute. reflexivity.
Defined.
