(* ===== verification/Payments.v ===== *)
(** Money owed and received ([crates/core/src/billing/payment.rs], [invoice.rs],
    [checkout.rs], [dunning.rs], [billing_state.rs], [provider.rs],
    [provider_events.rs], [reconciliation.rs]): the state machines of a payment, an
    invoice, a checkout and a failed payment, the billing state of a tenant, and
    what is done when the payment provider reports something else.  Refusals are
    values; their texts are left out. *)
From stdpp Require Import prelude countable gmap list strings.
From Stdlib Require Import ZArith Lia SpecFloat.
From S2P Require Import Prelude.
From S2P Require Import Text.
From S2P Require Import Float64.
From S2P Require Import Ownership.
From S2P Require Import ExecLedger.
From S2P Require Import Plans.

#[local] Open Scope Z_scope.

(** * Payments *)

Inductive PaymentStatus : Type :=
  | PyPending | PyRequiresAction | PyAuthorized | PySucceeded | PyFailed | PyCanceled | PyRefunded
  | PyPartiallyRefunded.

#[export] Instance PaymentStatus_eq_dec : EqDecision PaymentStatus.
Proof. solve_decision. Defined.

Definition PaymentStatus_ALL : list PaymentStatus :=
  [PyPending; PyRequiresAction; PyAuthorized; PySucceeded; PyFailed; PyCanceled; PyRefunded;
   PyPartiallyRefunded].

Definition PaymentStatus_as_str (s : PaymentStatus) : text :=
  match s with
  | PyPending => lit "pending"
  | PyRequiresAction => lit "requires_action"
  | PyAuthorized => lit "authorized"
  | PySucceeded => lit "succeeded"
  | PyFailed => lit "failed"
  | PyCanceled => lit "canceled"
  | PyRefunded => lit "refunded"
  | PyPartiallyRefunded => lit "partially_refunded"
  end.

Definition PaymentStatus_parse (s : text) : option PaymentStatus :=
  snd <$> list_find (fun x => PaymentStatus_as_str x = trim s) PaymentStatus_ALL.

Inductive PayFailure : Type := PfRetryable | PfPermanent | PfRequiresAction.

#[export] Instance PayFailure_eq_dec : EqDecision PayFailure.
Proof. solve_decision. Defined.

Definition permanent_codes : list text :=
  [lit "card_declined"; lit "insufficient_funds"; lit "incorrect_cvc"; lit "expired_card";
   lit "processing_error"].
Definition action_codes : list text :=
  [lit "requires_action"; lit "requires_source_action"; lit "authentication_required"].
Definition retryable_codes : list text :=
  [lit "rate_limit"; lit "timeout"; lit "api_connection_error"; lit "api_error";
   lit "idempotency_key_in_use"].

Definition classify_failure (code : text) : PayFailure :=
  let lower := map ascii_lower (trim code) in
  if decide (lower ∈ permanent_codes) then PfPermanent
  else if decide (lower ∈ action_codes) then PfRequiresAction
  else if decide (lower ∈ retryable_codes) then PfRetryable
  else if contains (lit "timeout") lower || contains (lit "rate") lower || contains (lit "network") lower
  then PfRetryable
  else PfPermanent.

Record PaymentTransaction : Type := mkPaymentTransaction {
  py_id : Z;
  py_organization_id : Z;
  py_subscription_id : option Z;
  py_checkout_session_id : option Z;
  py_invoice_id : option Z;
  py_provider : BillingProvider;
  py_provider_payment_id : option text;
  py_idempotency_key : text;
  py_amount_cents : Z;
  py_currency : text;
  py_status : PaymentStatus;
  py_failure_code : option text;
  py_failure_message : option text;
  py_retryable : bool;
  py_created_at : Z;
  py_updated_at : Z;
  py_succeeded_at : option Z;
  py_failed_at : option Z;
}.

Definition PaymentTransaction_new (id organization_id : Z) (provider : BillingProvider)
    (idempotency_key : text) (amount_cents : Z) (currency : text) (now : Z) : PaymentTransaction :=
  mkPaymentTransaction id organization_id None None None provider None idempotency_key amount_cents
    (map ascii_lower currency) PyPending None None false now now None None.

(** [payment::can_transition]. *)
Definition payment_can_transition (from to : PaymentStatus) : bool :=
  if decide (from = to) then false
  else
    match from, to with
    | PyPending, (PyRequiresAction | PyAuthorized | PySucceeded | PyFailed | PyCanceled)
    | PyRequiresAction, (PySucceeded | PyFailed | PyCanceled | PyAuthorized)
    | PyAuthorized, (PySucceeded | PyFailed | PyCanceled)
    | PySucceeded, (PyRefunded | PyPartiallyRefunded)
    | PyPartiallyRefunded, PyRefunded => true
    | _, _ => false
    end.

Definition payment_moved (to : PaymentStatus) (now : Z) (retryable : bool) (succeeded failed : option Z)
    (p : PaymentTransaction) : PaymentTransaction :=
  mkPaymentTransaction p.(py_id) p.(py_organization_id) p.(py_subscription_id) p.(py_checkout_session_id)
    p.(py_invoice_id) p.(py_provider) p.(py_provider_payment_id) p.(py_idempotency_key)
    p.(py_amount_cents) p.(py_currency) to p.(py_failure_code) p.(py_failure_message) retryable
    p.(py_created_at) now succeeded failed.

(** [PaymentTransaction::transition_to]: the payment as it is now, and whether it moved. *)
Definition payment_transition (to : PaymentStatus) (now : Z) (p : PaymentTransaction)
    : bool * PaymentTransaction :=
  if negb (payment_can_transition p.(py_status) to) then (false, p)
  else
    (true,
     match to with
     | PySucceeded | PyAuthorized => payment_moved to now false (Some now) None p
     | PyFailed | PyCanceled =>
         payment_moved to now
           (match p.(py_failure_code) with
            | Some code => bool_decide (classify_failure code = PfRetryable)
            | None => p.(py_retryable)
            end) p.(py_succeeded_at) (Some now) p
     | PyRefunded | PyPartiallyRefunded => payment_moved to now false p.(py_succeeded_at) p.(py_failed_at) p
     | _ => payment_moved to now p.(py_retryable) p.(py_succeeded_at) p.(py_failed_at) p
     end).

(** * Invoices *)

Inductive InvoiceStatus : Type :=
  | InDraft | InOpen | InPaid | InVoid | InUncollectible | InRefunded.

#[export] Instance InvoiceStatus_eq_dec : EqDecision InvoiceStatus.
Proof. solve_decision. Defined.

Definition InvoiceStatus_ALL : list InvoiceStatus :=
  [InDraft; InOpen; InPaid; InVoid; InUncollectible; InRefunded].

Definition InvoiceStatus_as_str (s : InvoiceStatus) : text :=
  match s with
  | InDraft => lit "draft"
  | InOpen => lit "open"
  | InPaid => lit "paid"
  | InVoid => lit "void"
  | InUncollectible => lit "uncollectible"
  | InRefunded => lit "refunded"
  end.

Definition InvoiceStatus_parse (s : text) : option InvoiceStatus :=
  snd <$> list_find (fun x => InvoiceStatus_as_str x = trim s) InvoiceStatus_ALL.

Definition invoice_is_terminal (s : InvoiceStatus) : bool :=
  match s with InPaid | InVoid | InRefunded | InUncollectible => true | _ => false end.
Definition is_collectible (s : InvoiceStatus) : bool :=
  match s with InOpen | InDraft => true | _ => false end.

Record Invoice : Type := mkInvoice {
  iv_id : Z;
  iv_organization_id : Z;
  iv_subscription_id : option Z;
  iv_payment_transaction_id : option Z;
  iv_provider : BillingProvider;
  iv_provider_invoice_id : option text;
  iv_invoice_number : option text;
  iv_status : InvoiceStatus;
  iv_amount_cents : Z;
  iv_amount_paid_cents : Z;
  iv_amount_due_cents : Z;
  iv_currency : text;
  iv_period_start : option Z;
  iv_period_end : option Z;
  iv_due_date : option Z;
  iv_paid_at : option Z;
  iv_hosted_url : option text;
  iv_pdf_url : option text;
  iv_created_at : Z;
  iv_updated_at : Z;
}.

Definition Invoice_new (id organization_id : Z) (provider : BillingProvider) (amount_cents : Z)
    (currency : text) (now : Z) : Invoice :=
  mkInvoice id organization_id None None provider None None InDraft amount_cents 0 amount_cents
    (map ascii_lower currency) None None None None None None now now.

(** [invoice::validate_transition]. *)
Definition validate_transition (from to : InvoiceStatus) : bool :=
  if decide (from = to) then false
  else
    match from, to with
    | InDraft, (InOpen | InVoid | InPaid)
    | InOpen, (InPaid | InVoid | InUncollectible)
    | InPaid, InRefunded
    | InUncollectible, InVoid => true
    | _, _ => false
    end.

Definition invoice_moved (to : InvoiceStatus) (now paid due : Z) (paid_at : option Z) (i : Invoice) : Invoice :=
  mkInvoice i.(iv_id) i.(iv_organization_id) i.(iv_subscription_id) i.(iv_payment_transaction_id)
    i.(iv_provider) i.(iv_provider_invoice_id) i.(iv_invoice_number) to i.(iv_amount_cents) paid due
    i.(iv_currency) i.(iv_period_start) i.(iv_period_end) i.(iv_due_date) paid_at i.(iv_hosted_url)
    i.(iv_pdf_url) i.(iv_created_at) now.

(** [Invoice::transition_to]. *)
Definition invoice_transition (to : InvoiceStatus) (now : Z) (i : Invoice) : bool * Invoice :=
  if negb (validate_transition i.(iv_status) to) then (false, i)
  else
    (true,
     match to with
     | InPaid => invoice_moved to now i.(iv_amount_cents) 0 (Some now) i
     | InRefunded => invoice_moved to now 0 0 i.(iv_paid_at) i
     | _ => invoice_moved to now i.(iv_amount_paid_cents) i.(iv_amount_due_cents) i.(iv_paid_at) i
     end).

Inductive InvoiceDefect : Type := NegativeAmount | NegativeComponent | BadCurrency | EmptyPeriod.

(** [currency.len()] counts bytes; the currencies the code makes are ASCII. *)
Definition invoice_validate (i : Invoice) : outcome InvoiceDefect unit :=
  reject_if (i.(iv_amount_cents) <? 0) NegativeAmount ;;
  reject_if ((i.(iv_amount_paid_cents) <? 0) || (i.(iv_amount_due_cents) <? 0)) NegativeComponent ;;
  reject_if (negb (length i.(iv_currency) =? 3)%nat) BadCurrency ;;
  match i.(iv_period_start), i.(iv_period_end) with
  | Some s, Some e => reject_if (e <=? s) EmptyPeriod
  | _, _ => Ok tt
  end.

(** * Checkouts *)

Inductive CheckoutStatus : Type := CkPending | CkOpen | CkCompleted | CkExpired | CkCanceled.

#[export] Instance CheckoutStatus_eq_dec : EqDecision CheckoutStatus.
Proof. solve_decision. Defined.

(** [checkout_transitions::can_transition]. *)
Definition checkout_can_transition (from to : CheckoutStatus) : bool :=
  match from, to with
  | CkPending, (CkOpen | CkExpired | CkCanceled) | CkOpen, (CkCompleted | CkExpired | CkCanceled) => true
  | _, _ => false
  end.

Record CheckoutRecord : Type := mkCheckoutRecord {
  ck_id : Z;
  ck_organization_id : Z;
  ck_plan_code : PlanCode;
  ck_provider : BillingProvider;
  ck_provider_session_id : option text;
  ck_idempotency_key : text;
  ck_status : CheckoutStatus;
  ck_checkout_url : option text;
  ck_success_url : option text;
  ck_cancel_url : option text;
  ck_expires_at : option Z;
  ck_created_at : Z;
  ck_updated_at : Z;
}.

Definition checkout_is_expired (now : Z) (c : CheckoutRecord) : bool :=
  match c.(ck_expires_at) with Some t => t <=? now | None => false end.

Definition checkout_transition (to : CheckoutStatus) (now : Z) (c : CheckoutRecord) : bool * CheckoutRecord :=
  if negb (checkout_can_transition c.(ck_status) to) then (false, c)
  else
    (true,
     mkCheckoutRecord c.(ck_id) c.(ck_organization_id) c.(ck_plan_code) c.(ck_provider)
       c.(ck_provider_session_id) c.(ck_idempotency_key) to c.(ck_checkout_url) c.(ck_success_url)
       c.(ck_cancel_url) c.(ck_expires_at) c.(ck_created_at) now).

(** * Dunning *)

Inductive DunningState : Type :=
  | DnCurrent | DnPaymentFailed | DnRetryPending | DnGracePeriod | DnBillingSuspended | DnRecovered
  | DnManuallyResolved.

#[export] Instance DunningState_eq_dec : EqDecision DunningState.
Proof. solve_decision. Defined.

Definition DunningState_ALL : list DunningState :=
  [DnCurrent; DnPaymentFailed; DnRetryPending; DnGracePeriod; DnBillingSuspended; DnRecovered;
   DnManuallyResolved].

Definition DunningState_as_str (s : DunningState) : text :=
  match s with
  | DnCurrent => lit "current"
  | DnPaymentFailed => lit "payment_failed"
  | DnRetryPending => lit "retry_pending"
  | DnGracePeriod => lit "grace_period"
  | DnBillingSuspended => lit "billing_suspended"
  | DnRecovered => lit "recovered"
  | DnManuallyResolved => lit "manually_resolved"
  end.

Definition DunningState_parse (s : text) : option DunningState :=
  snd <$> list_find (fun x => DunningState_as_str x = trim s) DunningState_ALL.

Record GracePeriod : Type := mkGracePeriod { gp_until : Z; gp_reason : text }.

#[export] Instance GracePeriod_eq_dec : EqDecision GracePeriod.
Proof. solve_decision. Defined.

Record DunningRecord : Type := mkDunningRecord {
  dn_state : DunningState;
  dn_attempt : Z;                          (* u32 *)
  dn_max_attempts : Z;
  dn_last_failure_at : option Z;
  dn_next_retry_at : option Z;
  dn_grace : option GracePeriod;
  dn_failure_reason : text;
  dn_updated_at : Z;
}.

Definition DunningRecord_new (now : Z) : DunningRecord :=
  mkDunningRecord DnCurrent 0 3 None None None [] now.

(** [DunningRecord::can_transition_to]. *)
Definition dunning_can_transition (from to : DunningState) : bool :=
  if decide (from = to) then false
  else
    match from, to with
    | DnCurrent, (DnPaymentFailed | DnManuallyResolved)
    | DnPaymentFailed, (DnRetryPending | DnGracePeriod | DnBillingSuspended)
    | DnRetryPending, (DnGracePeriod | DnPaymentFailed | DnBillingSuspended)
    | DnGracePeriod, (DnBillingSuspended | DnRecovered | DnManuallyResolved)
    | DnBillingSuspended, (DnRecovered | DnManuallyResolved)
    | (DnRecovered | DnManuallyResolved), DnCurrent => true
    | _, _ => false
    end.

Inductive DunningRefusal : Type := IllegalTransition | NoEvidence | NoEvidenceMarker.

Definition DUNNING_HOUR : Z := 3600 * SECOND.
Definition DUNNING_DAY : Z := 24 * DUNNING_HOUR.

Definition evidence_markers : list text :=
  [lit "provider:"; lit "evt_"; lit "pi_"; lit "payment_succeeded"].

Definition evidence (reason : text) : bool := existsb (fun m => contains m reason) evidence_markers.

(** [DunningRecord::transition]. *)
Definition dunning_transition (to : DunningState) (now : Z) (reason : text) (r : DunningRecord)
    : outcome DunningRefusal unit * DunningRecord :=
  if negb (dunning_can_transition r.(dn_state) to) then (Err IllegalTransition, r)
  else if bool_decide (to = DnRecovered) && is_empty (trim reason) then (Err NoEvidence, r)
  else if bool_decide (to = DnRecovered) && negb (evidence reason) then (Err NoEvidenceMarker, r)
  else
    (Ok tt,
     match to with
     | DnPaymentFailed =>
         mkDunningRecord to ((r.(dn_attempt) + 1) mod 2 ^ 32) r.(dn_max_attempts) (Some now)
           (Some (now + 4 * DUNNING_HOUR)) r.(dn_grace) reason now
     | DnRetryPending =>
         mkDunningRecord to r.(dn_attempt) r.(dn_max_attempts) r.(dn_last_failure_at)
           (Some (now + 12 * DUNNING_HOUR)) r.(dn_grace) reason now
     | DnGracePeriod =>
         mkDunningRecord to r.(dn_attempt) r.(dn_max_attempts) r.(dn_last_failure_at) r.(dn_next_retry_at)
           (Some (mkGracePeriod (now + 7 * DUNNING_DAY) reason)) reason now
     | DnBillingSuspended =>
         mkDunningRecord to r.(dn_attempt) r.(dn_max_attempts) r.(dn_last_failure_at) r.(dn_next_retry_at)
           r.(dn_grace) reason now
     | DnRecovered | DnManuallyResolved =>
         mkDunningRecord to 0 r.(dn_max_attempts) r.(dn_last_failure_at) None None reason now
     | DnCurrent => mkDunningRecord to 0 r.(dn_max_attempts) r.(dn_last_failure_at) None None [] now
     end).

Definition is_retry_due (now : Z) (r : DunningRecord) : bool :=
  bool_decide (r.(dn_state) = DnRetryPending)
  && match r.(dn_next_retry_at) with Some t => t <=? now | None => false end.

Definition is_grace_active (now : Z) (r : DunningRecord) : bool :=
  bool_decide (r.(dn_state) = DnGracePeriod)
  && match r.(dn_grace) with Some g => now <? g.(gp_until) | None => false end.

(** * The billing state of a tenant *)

Inductive SuspensionReason : Type :=
  | SrPaymentFailed | SrDunningExceeded | SrManual | SrLimitExceeded (feature : text) | SrNone.

#[export] Instance SuspensionReason_eq_dec : EqDecision SuspensionReason.
Proof. solve_decision. Defined.

Definition SuspensionReason_as_str (r : SuspensionReason) : text :=
  match r with
  | SrPaymentFailed => lit "payment_failed"
  | SrDunningExceeded => lit "dunning_exceeded"
  | SrManual => lit "manual"
  | SrLimitExceeded _ => lit "limit_exceeded"
  | SrNone => lit "none"
  end.

Definition no_suspension (r : SuspensionReason) : bool := match r with SrNone => true | _ => false end.

(** [BillingProviderKind] of [provider_config.rs]. *)
Inductive BillingProviderKind : Type := BkManual | BkStripe | BkPaddle | BkTest.

Record UsageSummary : Type := mkUsageSummary {
  us_period : text;
  us_total_requests : f64;
  us_total_trades : f64;
  us_api_calls : f64;
}.

Definition UsageSummary_new (period : text) : UsageSummary := mkUsageSummary period fzero fzero fzero.

Record BillingState : Type := mkBillingState {
  bs_organization_id : Z;
  bs_plan_code : PlanCode;
  bs_plan_status : PlanStatus;
  bs_plan_version : Z;
  bs_subscription_status : SubscriptionStatus;
  bs_billing_provider : BillingProviderKind;
  bs_provider_ref : option text;
  bs_payment_status : option text;
  bs_invoice_status : option text;
  bs_entitlements_active : bool;
  bs_usage : UsageSummary;
  bs_dunning : DunningState;
  bs_grace : option GracePeriod;
  bs_suspension : SuspensionReason;
  bs_as_of : Z;
}.

(** [month] is the calendar's format of an instant. *)
Definition BillingState_new (month : Z -> text) (organization_id : Z) (plan_code : PlanCode)
    (plan_status : PlanStatus) (now : Z) : BillingState :=
  mkBillingState organization_id plan_code plan_status 1 SubActive BkManual None None None true
    (UsageSummary_new (month now)) DnCurrent None SrNone now.

(** [BillingState::is_suspended]; [&&] binds tighter than [||]. *)
Definition state_suspended (b : BillingState) : bool :=
  negb (no_suspension b.(bs_suspension))
  || bool_decide (b.(bs_dunning) = DnBillingSuspended)
  || (bool_decide (b.(bs_subscription_status) = SubPastDue)
      && bool_decide (b.(bs_suspension) = SrDunningExceeded \/ b.(bs_suspension) = SrPaymentFailed)).

Inductive BillingViolation : Type :=
  | VioNoReason | VioUnexpectedReason | VioEntitledAfterEnd | VioUsagePeriod.

#[export] Instance BillingViolation_eq_dec : EqDecision BillingViolation.
Proof. solve_decision. Defined.

Definition flag {A} (b : bool) (v : A) : list A := if b then [v] else [].

(** The length of the period is in bytes; the periods the code makes are ASCII. *)
Definition validate_consistency (b : BillingState) : list BillingViolation :=
  flag (state_suspended b && no_suspension b.(bs_suspension)
        && negb (bool_decide (b.(bs_dunning) = DnBillingSuspended))) VioNoReason
  ++ flag (negb (state_suspended b) && negb (no_suspension b.(bs_suspension))) VioUnexpectedReason
  ++ flag (bool_decide (b.(bs_subscription_status) = SubExpired \/ b.(bs_subscription_status) = SubCanceled)
           && b.(bs_entitlements_active) && bool_decide (b.(bs_grace) = None)) VioEntitledAfterEnd
  ++ flag (negb (length b.(bs_usage).(us_period) =? 7)%nat
           || negb (bool_decide (b.(bs_usage).(us_period) !! 4%nat = Some 45))) VioUsagePeriod.

(** * Reconciliation with the payment provider *)

Inductive ProviderEventKind : Type :=
  | PePaymentSucceeded | PePaymentFailed | PeSubscriptionCreated | PeSubscriptionUpdated
  | PeSubscriptionCanceled | PeInvoiceCreated | PeInvoicePaid | PeInvoiceFailed | PeRefundCreated
  | PeUnknown.

#[export] Instance ProviderEventKind_eq_dec : EqDecision ProviderEventKind.
Proof. solve_decision. Defined.

Definition ProviderEventKind_as_str (k : ProviderEventKind) : text :=
  match k with
  | PePaymentSucceeded => lit "payment_succeeded"
  | PePaymentFailed => lit "payment_failed"
  | PeSubscriptionCreated => lit "subscription_created"
  | PeSubscriptionUpdated => lit "subscription_updated"
  | PeSubscriptionCanceled => lit "subscription_canceled"
  | PeInvoiceCreated => lit "invoice_created"
  | PeInvoicePaid => lit "invoice_paid"
  | PeInvoiceFailed => lit "invoice_failed"
  | PeRefundCreated => lit "refund_created"
  | PeUnknown => lit "unknown"
  end.

(** The names each kind goes by. *)
Definition event_names : list (list text * ProviderEventKind) :=
  [([lit "payment_succeeded"; lit "payment.succeeded"; lit "charge.succeeded"], PePaymentSucceeded);
   ([lit "payment_failed"; lit "payment.failed"; lit "charge.failed"], PePaymentFailed);
   ([lit "subscription_created"; lit "subscription.created"], PeSubscriptionCreated);
   ([lit "subscription_updated"; lit "subscription.updated"; lit "subscription.renewed"], PeSubscriptionUpdated);
   ([lit "subscription_canceled"; lit "subscription.canceled"; lit "subscription.cancelled";
     lit "customer.subscription.deleted"], PeSubscriptionCanceled);
   ([lit "invoice_created"; lit "invoice.created"], PeInvoiceCreated);
   ([lit "invoice_paid"; lit "invoice.paid"; lit "invoice.payment_succeeded"], PeInvoicePaid);
   ([lit "invoice_failed"; lit "invoice.payment_failed"], PeInvoiceFailed);
   ([lit "refund_created"; lit "refund.created"; lit "charge.refunded"; lit "payment.refunded"], PeRefundCreated)].

Definition ProviderEventKind_parse (s : text) : ProviderEventKind :=
  let n := map ascii_lower (trim s) in
  default PeUnknown ((fun r : nat * (list text * ProviderEventKind) => r.2.2) <$>
    list_find (fun r : list text * ProviderEventKind => n ∈ r.1) event_names).

Record InternalBillingSnapshot : Type := mkInternalBillingSnapshot {
  ib_organization_id : Z;
  ib_subscription_status : option SubscriptionStatus;
  ib_subscription_provider : option BillingProvider;
  ib_last_payment_status : option PaymentStatus;
  ib_last_invoice_status : option InvoiceStatus;
  ib_last_invoice_id : option Z;
  ib_entitlement_active : bool;
  ib_as_of : Z;
}.

Record ProviderBillingSnapshot : Type := mkProviderBillingSnapshot {
  pb_provider : BillingProvider;
  pb_provider_customer_id : option text;
  pb_event_kind : ProviderEventKind;
  pb_event_id : text;
  pb_subscription_status_hint : option text;
  pb_invoice_status_hint : option text;
  pb_payment_status_hint : option text;
  pb_amount_cents : option Z;
  pb_currency : option text;
  pb_event_timestamp : Z;
}.

Inductive ReconciliationAction : Type := RaNoOp | RaUpdateInternal | RaSuspend | RaRestore | RaInvestigate.

#[export] Instance ReconciliationAction_eq_dec : EqDecision ReconciliationAction.
Proof. solve_decision. Defined.

Definition past_due_or_paused (s : option SubscriptionStatus) : bool :=
  match s with Some (SubPastDue | SubPaused) => true | _ => false end.

(** The provider reports money received. *)
Definition reconcile_paid (i : InternalBillingSnapshot) (p : ProviderBillingSnapshot) : ReconciliationAction :=
  match i.(ib_last_payment_status) with
  | Some (PySucceeded | PyAuthorized) =>
      if past_due_or_paused i.(ib_subscription_status) then RaRestore else RaNoOp
  | _ =>
      match i.(ib_last_invoice_status), p.(pb_amount_cents) with
      | Some inv, Some _ => if is_collectible inv then RaUpdateInternal else RaRestore
      | _, _ => if i.(ib_entitlement_active) then RaNoOp else RaRestore
      end
  end.

(** The provider reports a failure. *)
Definition reconcile_failed (i : InternalBillingSnapshot) : ReconciliationAction :=
  match i.(ib_subscription_status), i.(ib_entitlement_active) with
  | Some (SubActive | SubTrialing), _ | _, true => RaSuspend
  | _, _ => if decide (i.(ib_last_payment_status) = Some PyFailed) then RaNoOp else RaUpdateInternal
  end.

(** [billing::reconciliation::reconcile]. *)
Definition reconcile_billing (i : InternalBillingSnapshot) (p : ProviderBillingSnapshot) : ReconciliationAction :=
  match p.(pb_event_kind) with
  | PePaymentSucceeded | PeInvoicePaid => reconcile_paid i p
  | PePaymentFailed | PeInvoiceFailed => reconcile_failed i
  | PeSubscriptionCanceled =>
      match i.(ib_subscription_status) with
      | Some (SubCanceled | SubExpired) => RaNoOp
      | _ => RaUpdateInternal
      end
  | PeSubscriptionCreated | PeSubscriptionUpdated =>
      if past_due_or_paused i.(ib_subscription_status) && negb (is_present p.(pb_payment_status_hint))
         && bool_decide (p.(pb_event_kind) = PeSubscriptionCreated)
      then RaInvestigate else RaUpdateInternal
  | PeRefundCreated => RaUpdateInternal
  | PeInvoiceCreated | PeUnknown => RaNoOp
  end.

(** * A payment settles once *)

(** How far a payment has come; every transition goes further. *)
Definition payment_rank (s : PaymentStatus) : nat :=
  match s with
  | PyPending => 0 | PyRequiresAction => 1 | PyAuthorized => 2 | PySucceeded => 3
  | PyPartiallyRefunded => 4 | PyRefunded | PyFailed | PyCanceled => 5
  end.

Lemma payment_step_up from to : payment_can_transition from to = true -> (payment_rank from < payment_rank to)%nat.
Proof. destruct from, to; cbn; intros; try done; lia. Qed.

(** The transitions asked for, one after the other, and those that were made. *)
Fixpoint payment_run (asks : list (PaymentStatus * Z)) (p : PaymentTransaction)
    : list PaymentStatus * PaymentTransaction :=
  match asks with
  | [] => ([], p)
  | (to, now) :: asks =>
      let '(moved, p) := payment_transition to now p in
      let '(made, p) := payment_run asks p in
      (if moved then to :: made else made, p)
  end.

Lemma payment_transition_status to now p :
  (payment_transition to now p).1 = payment_can_transition p.(py_status) to
  /\ (payment_transition to now p).2.(py_status)
     = (if payment_can_transition p.(py_status) to then to else p.(py_status)).
Proof.
  unfold payment_transition. destruct (payment_can_transition _ _); cbn [negb fst snd]; [|done].
  split; [done|]. by destruct to.
Qed.

Lemma payment_run_ranks asks : forall p,
  let r := payment_run asks p in
  (payment_rank p.(py_status) + length r.1 <= payment_rank r.2.(py_status))%nat
  /\ Forall (fun s => payment_rank p.(py_status) < payment_rank s)%nat r.1
  /\ NoDup r.1.
Proof.
  induction asks as [|[to now] asks IH]; intros p; cbn [payment_run].
  { cbn. split_and!; [lia|constructor|constructor]. }
  pose proof (payment_transition_status to now p) as [Hm Hs].
  destruct (payment_transition to now p) as [moved p1]. cbn [fst snd] in Hm, Hs. subst moved.
  specialize (IH p1). destruct (payment_run asks p1) as [made p2]. cbn [fst snd] in *. destruct IH as (Hl & Hr & Hn).
  destruct (payment_can_transition (py_status p) to) eqn:Hc; rewrite Hs in *; [|done].
  apply payment_step_up in Hc. cbn [length]. split_and!; [lia| |].
  - constructor; [done|]. eapply Forall_impl; [exact Hr|]. cbn. lia.
  - constructor; [|done]. intros Hin. rewrite Forall_forall in Hr. specialize (Hr to Hin). lia.
Qed.

(** What each status says of the money. *)
Definition payment_ok (p : PaymentTransaction) : Prop :=
  match p.(py_status) with
  | PyPending | PyRequiresAction => p.(py_succeeded_at) = None /\ p.(py_failed_at) = None
  | PyAuthorized | PySucceeded | PyRefunded | PyPartiallyRefunded =>
      is_Some p.(py_succeeded_at) /\ p.(py_failed_at) = None /\ p.(py_retryable) = false
  | PyFailed | PyCanceled => is_Some p.(py_failed_at)
  end.

Lemma payment_transition_ok to now p : payment_ok p -> payment_ok (payment_transition to now p).2.
Proof.
  unfold payment_transition. destruct (payment_can_transition (py_status p) to) eqn:Hc; cbn [negb snd]; [|done].
  unfold payment_ok at 1. destruct (py_status p), to; try done; cbn; naive_solver.
Qed.

Lemma last_cons_default (x d : PaymentStatus) l : List.last (x :: l) d = List.last l x.
Proof. revert x d. induction l as [|y l IH]; intros x d; [done|]. transitivity (List.last (y :: l) d); [done|]. by rewrite !IH. Qed.

(** A list of moves the table allows, from a status on. *)
Fixpoint legal_moves (s : PaymentStatus) (moves : list PaymentStatus) : Prop :=
  match moves with
  | [] => True
  | to :: moves => payment_can_transition s to = true /\ legal_moves to moves
  end.

Definition pays_back (s : PaymentStatus) : Prop := s = PyPartiallyRefunded \/ s = PyRefunded.
Definition payment_final (s : PaymentStatus) : Prop := s = PyFailed \/ s = PyCanceled \/ s = PyRefunded.

Lemma payment_run_legal asks : forall p,
  let r := payment_run asks p in
  legal_moves p.(py_status) r.1 /\ r.2.(py_status) = List.last r.1 p.(py_status).
Proof.
  induction asks as [|[to now] asks IH]; intros p; cbn [payment_run]; [done|].
  pose proof (payment_transition_status to now p) as [Hm Hs].
  destruct (payment_transition to now p) as [moved p1]. cbn [fst snd] in Hm, Hs. subst moved.
  specialize (IH p1). destruct (payment_run asks p1) as [made p2]. cbn [fst snd] in *. rewrite Hs in IH.
  destruct (payment_can_transition (py_status p) to) eqn:Hc; [|done]. destruct IH as [Hl Hq]. split; [by split|].
  rewrite Hq. by rewrite last_cons_default.
Qed.

Lemma legal_moves_after s pre to post : legal_moves s (pre ++ to :: post) -> legal_moves to post.
Proof. revert s. induction pre as [|x pre IH]; intros s; cbn; [by intros [_ H]|]. intros [_ H]. by eapply IH. Qed.

Lemma legal_final s moves : payment_final s -> legal_moves s moves -> moves = [].
Proof. destruct moves as [|to moves]; [done|]. intros Hf [Hc _]. exfalso. destruct Hf as [-> |[-> | ->]]; by destruct to. Qed.

Lemma legal_after_received s moves :
  s = PySucceeded \/ pays_back s -> legal_moves s moves -> Forall pays_back moves.
Proof.
  revert s. induction moves as [|to moves IH]; intros s Hs; [constructor|]. intros [Hc Hl].
  assert (Ht : pays_back to) by (destruct Hs as [-> |[-> | ->]]; destruct to; try done; unfold pays_back; auto).
  constructor; [done|]. apply (IH to); auto.
Qed.

Lemma payment_transition_keeps to now p :
  let q := (payment_transition to now p).2 in
  q.(py_amount_cents) = p.(py_amount_cents) /\ q.(py_organization_id) = p.(py_organization_id)
  /\ q.(py_idempotency_key) = p.(py_idempotency_key)
  /\ (payment_can_transition p.(py_status) to = false -> q = p).
Proof. unfold payment_transition. destruct (payment_can_transition _ _); cbn [negb]; [|done]. by destruct to. Qed.

Lemma payment_run_keeps asks : forall p, payment_ok p ->
  let q := (payment_run asks p).2 in
  payment_ok q /\ q.(py_amount_cents) = p.(py_amount_cents) /\ q.(py_organization_id) = p.(py_organization_id)
  /\ q.(py_idempotency_key) = p.(py_idempotency_key) /\ (payment_final p.(py_status) -> q = p).
Proof.
  induction asks as [|[to now] asks IH]; intros p Hp; [done|]. cbn [payment_run].
  pose proof (payment_transition_ok to now p Hp) as Hok.
  pose proof (payment_transition_keeps to now p) as (H1 & H2 & H3 & Hsame).
  destruct (payment_transition to now p) as [moved p1]. cbn [snd] in *.
  specialize (IH p1 Hok). destruct (payment_run asks p1) as [made p2]. cbn [snd] in *.
  destruct IH as (Ho & K1 & K2 & K3 & Hf). split_and!; [done|congruence..|].
  intros Hfin. rewrite Hsame in Hf by (destruct Hfin as [-> |[-> | ->]]; by destruct to). by apply Hf.
Qed.

(** A refund has the receipt of the money before it. *)
Lemma legal_refund s pre to post :
  pays_back to -> legal_moves s (pre ++ to :: post) ->
  PySucceeded ∈ pre \/ s = PySucceeded \/ s = PyPartiallyRefunded.
Proof.
  intros Ht. revert s. induction pre as [|x pre IH]; intros s; cbn; intros [Hc Hl].
  { right. destruct Ht as [-> | ->]; destruct s; try done; auto. }
  destruct (IH x Hl) as [Hin|[-> | ->]].
  - left. by apply list_elem_of_further.
  - left. apply list_elem_of_here.
  - right. left. by destruct s.
Qed.

(** C22: Whatever is asked of a payment and in whatever order, it makes at most five
    moves and never the same one twice; its amount and owner do not change; before
    every move that pays money back, in part or in whole, there is the move that
    received it (or the payment was received to begin with: being authorized is not
    enough), once the money is received nothing but refunds follows, and nothing at
    all follows a failure, a cancellation or a full refund. *)
Theorem payment_settles_once asks p (Hnew : payment_ok p) :
  let r := payment_run asks p in
  NoDup r.1 /\ (length r.1 <= 5)%nat
  /\ r.2.(py_amount_cents) = p.(py_amount_cents) /\ r.2.(py_organization_id) = p.(py_organization_id)
  /\ r.2.(py_idempotency_key) = p.(py_idempotency_key)
  /\ payment_ok r.2 /\ r.2.(py_status) = List.last r.1 p.(py_status)
  /\ (payment_final p.(py_status) -> r.2 = p)
  /\ (forall before to after, r.1 = before ++ to :: after ->
        (to = PyPartiallyRefunded \/ to = PyRefunded ->
          PySucceeded ∈ before \/ p.(py_status) = PySucceeded \/ p.(py_status) = PyPartiallyRefunded)
        /\ (to = PySucceeded -> Forall pays_back after)
        /\ (payment_final to -> after = [])).
Proof.
  cbv zeta. pose proof (payment_run_ranks asks p) as (Hl & _ & Hn).
  pose proof (payment_run_legal asks p) as [Hlegal Hlast]. cbv zeta in Hlegal, Hlast.
  assert (H5 : forall s, (payment_rank s <= 5)%nat) by (intros []; cbn; lia).
  specialize (H5 (payment_run asks p).2.(py_status)).
  pose proof (payment_run_keeps asks p Hnew) as (Hok & H1 & H2 & H3 & Hf).
  split_and!; [done|lia|done..|].
  intros before to after Hr. rewrite Hr in Hlegal. split_and!.
  - intros Hto. by eapply legal_refund.
  - intros ->. apply legal_moves_after in Hlegal. by eapply legal_after_received; [left|].
  - intros Hto. apply legal_moves_after in Hlegal. by eapply legal_final.
Qed.

(** * Invoices add up *)

Definition invoice_ok (i : Invoice) : Prop :=
  match i.(iv_status) with
  | InDraft | InOpen | InVoid | InUncollectible =>
      i.(iv_amount_paid_cents) = 0 /\ i.(iv_amount_due_cents) = i.(iv_amount_cents) /\ i.(iv_paid_at) = None
  | InPaid =>
      i.(iv_amount_paid_cents) = i.(iv_amount_cents) /\ i.(iv_amount_due_cents) = 0 /\ is_Some i.(iv_paid_at)
  | InRefunded =>
      i.(iv_amount_paid_cents) = 0 /\ i.(iv_amount_due_cents) = 0 /\ is_Some i.(iv_paid_at)
  end.

Definition invoice_run (asks : list (InvoiceStatus * Z)) (i : Invoice) : Invoice :=
  foldl (fun i a => (invoice_transition a.1 a.2 i).2) i asks.

Lemma invoice_transition_ok to now i : invoice_ok i -> invoice_ok (invoice_transition to now i).2.
Proof.
  unfold invoice_transition. destruct (validate_transition (iv_status i) to) eqn:Hc; cbn [negb snd]; [|done].
  unfold invoice_ok at 1. destruct (iv_status i), to; try done; cbn; naive_solver.
Qed.

(** Every invoice the code can produce adds up: what is paid and what is due make
    the amount, except after a refund, when both are nothing; it is refunded only
    after it was paid. *)
Theorem invoice_adds_up id org provider amount currency now asks :
  let i := invoice_run asks (Invoice_new id org provider amount currency now) in
  i.(iv_amount_cents) = amount /\ invoice_ok i
  /\ (i.(iv_status) <> InRefunded -> i.(iv_amount_paid_cents) + i.(iv_amount_due_cents) = amount).
Proof.
  cbv zeta. set (i0 := Invoice_new id org provider amount currency now).
  assert (H : forall asks, (invoice_run asks i0).(iv_amount_cents) = amount /\ invoice_ok (invoice_run asks i0)).
  { clear asks. intros asks. induction asks as [|a asks IH] using rev_ind; [done|].
    unfold invoice_run in *. rewrite foldl_snoc. set (i := foldl _ i0 asks) in *. destruct IH as [Ha Hok].
    split; [|by apply invoice_transition_ok]. unfold invoice_transition.
    destruct (negb _); [done|]. by destruct (a.1). }
  specialize (H asks) as [Ha Hok]. split_and!; [done..|]. intros Hr. unfold invoice_ok in Hok. rewrite <- Ha.
  destruct (iv_status (invoice_run asks i0)); try done; lia.
Qed.

(** * Dunning *)

Inductive dunning_reach : DunningRecord -> Prop :=
  | dunning_start now : dunning_reach (DunningRecord_new now)
  | dunning_step to now reason r : dunning_reach r -> dunning_reach (dunning_transition to now reason r).2.

(** What a state of the record says. *)
Definition dunning_ok (r : DunningRecord) : Prop :=
  match r.(dn_state) with
  | DnCurrent => r.(dn_attempt) = 0 /\ r.(dn_next_retry_at) = None /\ r.(dn_grace) = None
                 /\ r.(dn_failure_reason) = []
  | DnPaymentFailed => r.(dn_last_failure_at) = Some r.(dn_updated_at)
                 /\ r.(dn_next_retry_at) = Some (r.(dn_updated_at) + 4 * DUNNING_HOUR)
  | DnRetryPending => is_Some r.(dn_last_failure_at)
                 /\ r.(dn_next_retry_at) = Some (r.(dn_updated_at) + 12 * DUNNING_HOUR)
  | DnGracePeriod => is_Some r.(dn_last_failure_at)
                 /\ r.(dn_grace) = Some (mkGracePeriod (r.(dn_updated_at) + 7 * DUNNING_DAY) r.(dn_failure_reason))
  | DnBillingSuspended => is_Some r.(dn_last_failure_at)
  | DnRecovered => is_Some r.(dn_last_failure_at) /\ evidence r.(dn_failure_reason) = true
                 /\ r.(dn_attempt) = 0 /\ r.(dn_next_retry_at) = None /\ r.(dn_grace) = None
  | DnManuallyResolved => r.(dn_attempt) = 0 /\ r.(dn_next_retry_at) = None /\ r.(dn_grace) = None
  end.

#[local] Arguments evidence : simpl never.

Lemma dunning_reach_ok r : dunning_reach r -> dunning_ok r /\ 0 <= r.(dn_attempt) < 2 ^ 32.
Proof.
  induction 1 as [now|to now reason r _ [IH Ha]]; [done|].
  unfold dunning_transition. destruct (dunning_can_transition (dn_state r) to) eqn:Hc; cbn [negb]; [|by split].
  destruct (bool_decide (to = DnRecovered) && is_empty (trim reason)); [by split|].
  destruct (bool_decide (to = DnRecovered) && negb (evidence reason)) eqn:Hev; [by split|].
  cbn [snd]. split.
  - unfold dunning_ok in *. destruct (dn_state r), to; try done; cbn in *; destruct_and?; split_and?; try done;
      try (by eexists);
      by destruct (evidence reason).
  - pose proof (Z.mod_pos_bound (dn_attempt r + 1) (2 ^ 32)). destruct to; cbn; lia.
Qed.

(** Dunning never invents a success: whatever a record went through, it is
    suspended, in grace or waiting for a retry only after a payment failed, it is
    recovered only after that and on a text that names the provider's evidence, and
    what it promises for the next step is counted from the step it made. *)
Theorem dunning_invents_nothing r (Hr : dunning_reach r) :
  dunning_ok r
  /\ (r.(dn_state) = DnRecovered -> is_Some r.(dn_last_failure_at) /\ evidence r.(dn_failure_reason) = true)
  /\ (r.(dn_state) ∈ [DnPaymentFailed; DnRetryPending; DnGracePeriod; DnBillingSuspended] ->
      is_Some r.(dn_last_failure_at))
  /\ (forall now, is_grace_active now r = true <->
        r.(dn_state) = DnGracePeriod /\ now < r.(dn_updated_at) + 7 * DUNNING_DAY)
  /\ (forall now, is_retry_due now r = true <->
        r.(dn_state) = DnRetryPending /\ r.(dn_updated_at) + 12 * DUNNING_HOUR <= now).
Proof.
  apply dunning_reach_ok in Hr as [Hok _]. split; [done|]. unfold dunning_ok in Hok.
  split; [intros Hs; rewrite Hs in Hok; naive_solver|]. split.
  - intros Hs. repeat (apply elem_of_cons in Hs as [Hs|Hs]; [rewrite Hs in Hok; naive_solver|]).
    by apply not_elem_of_nil in Hs.
  - split; intros now; unfold is_grace_active, is_retry_due.
    + case_bool_decide as Hs; [|naive_solver]. rewrite Hs in Hok. destruct Hok as [_ ->]. cbn.
      rewrite Z.ltb_lt. naive_solver.
    + case_bool_decide as Hs; [|naive_solver]. rewrite Hs in Hok. destruct Hok as [_ ->]. cbn.
      rewrite Z.leb_le. naive_solver.
Qed.

(** A payment that succeeds while a retry is pending cannot be recorded as
    recovered: the record has to go through grace or suspension first. *)
Theorem retry_success_cannot_recover r now reason (Hs : r.(dn_state) = DnRetryPending) :
  dunning_transition DnRecovered now reason r = (Err IllegalTransition, r).
Proof. unfold dunning_transition. by rewrite Hs. Qed.

Definition failed_again (now : Z) (r : DunningRecord) : DunningRecord :=
  (dunning_transition DnPaymentFailed now [] (dunning_transition DnRetryPending now [] r).2).2.

(** The limit on attempts limits nothing: a payment can fail and be retried any
    number of times. *)
Theorem attempts_are_not_limited n now (Hn : Z.of_nat n + 1 < 2 ^ 32) :
  let r := Nat.iter n (failed_again now) (dunning_transition DnPaymentFailed now [] (DunningRecord_new now)).2 in
  r.(dn_state) = DnPaymentFailed /\ r.(dn_attempt) = Z.of_nat n + 1 /\ r.(dn_max_attempts) = 3.
Proof.
  cbv zeta. induction n as [|n IH]; [done|].
  destruct IH as (Hs & Ha & Hm); [lia|].
  rewrite Nat.iter_succ. set (r := Nat.iter n _ _) in *.
  assert (Hret : dunning_transition DnRetryPending now [] r
    = (Ok tt, mkDunningRecord DnRetryPending r.(dn_attempt) r.(dn_max_attempts) r.(dn_last_failure_at)
               (Some (now + 12 * DUNNING_HOUR)) r.(dn_grace) [] now))
    by (unfold dunning_transition; by rewrite Hs).
  unfold failed_again. rewrite Hret. cbn [snd].
  match goal with |- (dunning_transition _ _ _ ?q).2.(dn_state) = _ /\ _ =>
    change ((dunning_transition DnPaymentFailed now [] q).2.(dn_state)) with DnPaymentFailed;
    change ((dunning_transition DnPaymentFailed now [] q).2.(dn_attempt)) with ((r.(dn_attempt) + 1) mod 2 ^ 32);
    change ((dunning_transition DnPaymentFailed now [] q).2.(dn_max_attempts)) with r.(dn_max_attempts) end.
  rewrite Ha, Hm, Z.mod_small by lia. split_and!; [done|lia|done].
Qed.

(** * The billing state *)

Lemma elem_of_flag (c : bool) (v w : BillingViolation) : v ∈ flag c w <-> c = true /\ v = w.
Proof. destruct c; cbn; [rewrite list_elem_of_singleton; naive_solver|]. split; [by intros ?%not_elem_of_nil|by intros [? _]]. Qed.

(** Two of the four consistency rules can never report anything: being suspended is
    having a reason, or a dunning that is suspended. *)
Theorem suspension_rules_never_fire b :
  (VioNoReason ∉ validate_consistency b) /\ (VioUnexpectedReason ∉ validate_consistency b).
Proof.
  unfold validate_consistency. rewrite !elem_of_app, !elem_of_flag. unfold state_suspended.
  assert (Hp : no_suspension (bs_suspension b) = true ->
    bool_decide (bs_suspension b = SrDunningExceeded \/ bs_suspension b = SrPaymentFailed) = false).
  { intros Hn. apply bool_decide_eq_false_2. by destruct (bs_suspension b), 1. }
  destruct (no_suspension (bs_suspension b)); [rewrite Hp by done; rewrite andb_false_r|]; cbn [negb orb andb];
    rewrite ?orb_false_r, ?andb_true_r; split; intros H;
    repeat match goal with
    | H : _ \/ _ |- _ => destruct H
    | H : _ /\ _ |- _ => destruct H
    end; try done; by destruct (bool_decide (bs_dunning b = DnBillingSuspended)).
Qed.

(** * Reconciliation *)

(** What each action means. *)
Definition action_due (i : InternalBillingSnapshot) (p : ProviderBillingSnapshot) (a : ReconciliationAction) : Prop :=
  match a with
  | RaRestore =>
      (p.(pb_event_kind) = PePaymentSucceeded \/ p.(pb_event_kind) = PeInvoicePaid)
      /\ (past_due_or_paused i.(ib_subscription_status) = true
          \/ i.(ib_last_payment_status) <> Some PySucceeded /\ i.(ib_last_payment_status) <> Some PyAuthorized)
  | RaSuspend =>
      (p.(pb_event_kind) = PePaymentFailed \/ p.(pb_event_kind) = PeInvoiceFailed)
      /\ (i.(ib_subscription_status) = Some SubActive \/ i.(ib_subscription_status) = Some SubTrialing
          \/ i.(ib_entitlement_active) = true)
  | RaInvestigate =>
      p.(pb_event_kind) = PeSubscriptionCreated /\ p.(pb_payment_status_hint) = None
      /\ past_due_or_paused i.(ib_subscription_status) = true
  | RaUpdateInternal | RaNoOp =>
      p.(pb_event_kind) = PePaymentSucceeded \/ p.(pb_event_kind) = PeInvoicePaid ->
      i.(ib_last_payment_status) = Some PySucceeded \/ i.(ib_last_payment_status) = Some PyAuthorized
      \/ i.(ib_entitlement_active) = true \/ is_Some i.(ib_last_invoice_status)
  end.

Lemma reconcile_paid_due i p :
  p.(pb_event_kind) = PePaymentSucceeded \/ p.(pb_event_kind) = PeInvoicePaid -> action_due i p (reconcile_paid i p).
Proof.
  intros Hk. unfold reconcile_paid.
  destruct (ib_last_payment_status i) as [[]|] eqn:Hpay.
  all: try (unfold action_due; destruct (past_due_or_paused _) eqn:Hp; rewrite ?Hpay, ?Hp; by eauto).
  all: destruct (ib_last_invoice_status i) as [inv|] eqn:Hinv, (pb_amount_cents p);
    [destruct (is_collectible inv)|destruct (ib_entitlement_active i) eqn:He..];
    unfold action_due; rewrite ?Hpay, ?Hinv, ?He; try (by eauto 6); (split; [done|by right]).
Qed.

Lemma reconcile_failed_due i p :
  p.(pb_event_kind) = PePaymentFailed \/ p.(pb_event_kind) = PeInvoiceFailed -> action_due i p (reconcile_failed i).
Proof.
  intros Hk. assert (Hn : ~ (p.(pb_event_kind) = PePaymentSucceeded \/ p.(pb_event_kind) = PeInvoicePaid))
    by (destruct Hk as [-> | ->]; naive_solver).
  unfold reconcile_failed, action_due.
  destruct (ib_subscription_status i) as [[]|] eqn:Hs, (ib_entitlement_active i) eqn:He;
    try destruct (decide _); rewrite ?Hs, ?He; try done; eauto 6.
Qed.

(** Reconciliation restores access only on money the provider reports, takes it away
    only on a failure the provider reports while the tenant still has access, asks
    for a person only when a subscription appears without evidence of payment, and
    leaves reported money aside only when it is known already or an invoice or the
    tenant's access accounts for it. *)
Theorem reconciliation_exact i p : action_due i p (reconcile_billing i p).
Proof.
  unfold reconcile_billing. destruct (pb_event_kind p) eqn:Hk.
  1,7: apply reconcile_paid_due; naive_solver.
  1,6: apply reconcile_failed_due; naive_solver.
  all: try by (unfold action_due; rewrite Hk; naive_solver).
  - unfold action_due. rewrite Hk. destruct (past_due_or_paused _) eqn:Hp, (pb_payment_status_hint p) eqn:Hh; cbn; naive_solver.
  - unfold action_due. rewrite Hk. destruct (past_due_or_paused _), (pb_payment_status_hint p); cbn; naive_solver.
  - unfold action_due. rewrite Hk. destruct (ib_subscription_status i) as [[]|]; naive_solver.
Qed.

(** The amount and the currency the provider reports are not compared with anything. *)
Theorem reported_amount_is_ignored i p a c
    (Ha : is_present p.(pb_amount_cents) = is_present a) :
  reconcile_billing i (mkProviderBillingSnapshot p.(pb_provider) p.(pb_provider_customer_id) p.(pb_event_kind)
    p.(pb_event_id) p.(pb_subscription_status_hint) p.(pb_invoice_status_hint) p.(pb_payment_status_hint) a c
    p.(pb_event_timestamp)) = reconcile_billing i p.
Proof.
  unfold reconcile_billing, reconcile_paid. cbn [pb_event_kind pb_amount_cents pb_payment_status_hint].
  by destruct (pb_amount_cents p), a.
Qed.

Definition demo_snapshot_of (sub : SubscriptionStatus) (pay : PaymentStatus) (inv : InvoiceStatus)
    : InternalBillingSnapshot :=
  mkInternalBillingSnapshot 7 (Some sub) None (Some pay) (Some inv) None false 0.

Definition demo_report (k : ProviderEventKind) : ProviderBillingSnapshot :=
  mkProviderBillingSnapshot BpStripe None k (lit "evt_1") None None None (Some 5000) None 0.

(** A success that is delivered again after the refund restores access, and one that
    pays the open invoice of a tenant who is past due does not. *)
Theorem late_success_restores :
  reconcile_billing (demo_snapshot_of SubCanceled PyRefunded InRefunded) (demo_report PePaymentSucceeded) = RaRestore
  /\ reconcile_billing (demo_snapshot_of SubPastDue PyFailed InOpen) (demo_report PePaymentSucceeded) = RaUpdateInternal.
Proof. done. Qed.

Definition demo_payment : PaymentTransaction :=
  PaymentTransaction_new 1 7 BpStripe (lit "k") 5000 (lit "USD") 0.

(** A payment that was authorized and then failed carries the time it succeeded. *)
Theorem failed_authorization_keeps_success :
  let p := (payment_run [(PyAuthorized, 1); (PyFailed, 2)] demo_payment).2 in
  p.(py_status) = PyFailed /\ p.(py_succeeded_at) = Some 1 /\ p.(py_failed_at) = Some 2.
Proof. done. Qed.

(** A void invoice still has its amount due. *)
Theorem void_invoice_is_due :
  let i := invoice_run [(InOpen, 1); (InVoid, 2)] (Invoice_new 1 7 BpStripe 5000 (lit "USD") 0) in
  i.(iv_status) = InVoid /\ i.(iv_amount_due_cents) = 5000.
Proof. done. Qed.

Lemma payment_settles_once_witness :
  let r := payment_run [(PySucceeded, 1); (PySucceeded, 2); (PyPartiallyRefunded, 3); (PyPending, 4); (PyRefunded, 5)]
             demo_payment in
  r.1 = [PySucceeded; PyPartiallyRefunded; PyRefunded] /\ NoDup r.1.
Proof.
  split; [reflexivity|].
  apply (payment_settles_once
           [(PySucceeded, 1); (PySucceeded, 2); (PyPartiallyRefunded, 3); (PyPending, 4); (PyRefunded, 5)] demo_payment).
  split; reflexivity.
Defined.

Lemma dunning_invents_nothing_witness :
  let r := (dunning_transition DnRecovered 9 (lit "provider: evt_7")
             (dunning_transition DnBillingSuspended 8 [] (dunning_transition DnPaymentFailed 5 [] (DunningRecord_new 1)).2).2).2 in
  r.(dn_state) = DnRecovered /\ evidence r.(dn_failure_reason) = true.
Proof.
  split; [reflexivity|].
  apply (dunning_invents_nothing
    (dunning_transition DnRecovered 9 (lit "provider: evt_7")
      (dunning_transition DnBillingSuspended 8 [] (dunning_transition DnPaymentFailed 5 [] (DunningRecord_new 1)).2).2).2).
  - repeat constructor.
  - reflexivity.
Defined.
