(* ===== verification/PlatformFee.v ===== *)
(** What trading costs and what is metered ([crates/core/src/billing/platform_fee.rs],
    [pricing.rs], [usage.rs]): the fee of a trade in micro-units and its entry in the
    ledger, the registry of prices, and the ledger of usage.  SHA-256 is in
    [LedgerLibs]; the calendar month of an instant is a parameter. *)
From stdpp Require Import prelude countable gmap list strings.
From Stdlib Require Import ZArith Lia SpecFloat.
From S2P Require Import Prelude.
From S2P Require Import Text.
From S2P Require Import Float64.
From S2P Require Import LedgerEvent.
From S2P Require Import Plans.

#[local] Open Scope Z_scope.

(** * The platform fee *)

Definition BPS_DENOMINATOR : Z := 10000.
Definition MAX_PLATFORM_FEE_BPS : Z := 500.

Definition DEFAULT_FEE_BPS : list (PlanCode * Z) :=
  [(PcStarter, 30); (PcPro, 20); (PcBusiness, 10); (PcEnterprise, 5)].

Inductive PlatformFeeError : Type := RateTooHigh | MinimumExceedsCap | NegativeNotional.

Record PlatformFeePolicy : Type := mkPlatformFeePolicy {
  pf_fee_bps : Z;                      (* u16 *)
  pf_cap_micros : option Z;            (* i64 *)
  pf_minimum_micros : Z;               (* i64 *)
}.

Definition PlatformFeePolicy_new (fee_bps : Z) (cap : option Z) (minimum : Z)
    : outcome PlatformFeeError PlatformFeePolicy :=
  reject_if (MAX_PLATFORM_FEE_BPS <? fee_bps) RateTooHigh ;;
  reject_if (minimum <? 0) NegativeNotional ;;
  match cap with
  | Some c => reject_if (c <? 0) NegativeNotional ;; reject_if (c <? minimum) MinimumExceedsCap
  | None => Ok tt
  end ;;
  Ok (mkPlatformFeePolicy fee_bps cap minimum).

Definition fee_default_for (plan : PlanCode) : PlatformFeePolicy :=
  mkPlatformFeePolicy
    (default 0 ((fun x : nat * (PlanCode * Z) => x.2.2) <$> list_find (fun x => x.1 = plan) DEFAULT_FEE_BPS)) None 0.

(** The product, half a unit and the division, each checked; [i64::MAX] when one overflows. *)
Definition raw_fee (notional bps : Z) : Z :=
  default i64_max
    (v ← checked_mul i64_max notional bps;
     w ← checked_add i64_max v (BPS_DENOMINATOR / 2);
     Some (w / BPS_DENOMINATOR)).

Definition compute_platform_fee (notional : Z) (p : PlatformFeePolicy) : Z :=
  if (notional <=? 0) || (p.(pf_fee_bps) =? 0) then 0
  else
    let fee := from_option (Z.min (raw_fee notional p.(pf_fee_bps))) (raw_fee notional p.(pf_fee_bps)) p.(pf_cap_micros) in
    if fee <? p.(pf_minimum_micros) then p.(pf_minimum_micros) else fee.

Definition micros_to_units (micros : Z) : f64 :=
  fdiv (f_of_Z (Z.max 0 (Z.min micros (2 ^ 53)))) (f_of_Z 1000000).

Record PlatformFeeCharge : Type := mkPlatformFeeCharge {
  pc_charge_id : text;
  pc_organization_id : text;
  pc_venue : text;
  pc_asset : text;
  pc_notional_micros : Z;
  pc_fee_micros : Z;
  pc_policy : PlatformFeePolicy;
  pc_tenant_wallet : text;
  pc_platform_wallet : text;
}.

Definition assess (charge_id organization_id venue asset : text) (notional : Z) (policy : PlatformFeePolicy)
    (tenant_wallet platform_wallet : text) : outcome PlatformFeeError PlatformFeeCharge :=
  reject_if (notional <? 0) NegativeNotional ;;
  Ok (mkPlatformFeeCharge charge_id organization_id venue asset notional
        (compute_platform_fee notional policy) policy tenant_wallet platform_wallet).

Definition fee_posting (c : PlatformFeeCharge) (seq : Z) (account : Account) (wallet : text) (side : EntrySide)
    : Posting :=
  {| po_event_id := c.(pc_charge_id); po_seq := seq; po_account := account; po_wallet := wallet;
     po_asset := c.(pc_asset); po_side := side; po_amount := micros_to_units c.(pc_fee_micros);
     po_quantity := fzero; po_base_asset := None |}.

(** [PlatformFeeCharge::entry]. *)
Definition charge_entry (c : PlatformFeeCharge) : Entry :=
  if fleb (micros_to_units c.(pc_fee_micros)) fzero then []
  else [fee_posting c 0 Fees c.(pc_tenant_wallet) Debit; fee_posting c 1 Cash c.(pc_tenant_wallet) Credit].

Definition platform_revenue_posting (c : PlatformFeeCharge) : option Posting :=
  if fleb (micros_to_units c.(pc_fee_micros)) fzero then None
  else Some (fee_posting c 0 Cash c.(pc_platform_wallet) Debit).

(** * Prices *)

Inductive BillingInterval : Type := IvMonth | IvYear.

Definition BillingInterval_as_str (i : BillingInterval) : text :=
  match i with IvMonth => lit "month" | IvYear => lit "year" end.

Definition BillingInterval_parse (s : text) : option BillingInterval :=
  let n := map ascii_lower (trim s) in
  if decide (n = lit "month" \/ n = lit "monthly") then Some IvMonth
  else if decide (n = lit "year" \/ n = lit "yearly" \/ n = lit "annual") then Some IvYear
  else None.

Record PriceSnapshot : Type := mkPriceSnapshot {
  pr_id : Z;
  pr_plan_code : PlanCode;
  pr_version : Z;                      (* u32 *)
  pr_currency : text;
  pr_amount_cents : Z;
  pr_interval : BillingInterval;
  pr_entitlements : gmap text FeatureLimit;
  pr_effective_from : Z;
  pr_effective_until : option Z;
  pr_created_at : Z;
}.

Inductive PriceError : Type :=
  | PeBadCurrency | PeNegativeAmount | PeZeroVersion | PeVersionExists | PeNotSequential | PeFirstVersion.

Definition ascii_alphabetic (c : Z) : bool := ((65 <=? c) && (c <=? 90)) || ((97 <=? c) && (c <=? 122)).

(** A letter is one byte, so the length in bytes is the number of characters
    whenever the second test can pass. *)
Definition currency_ok (s : text) : bool := (length s =? 3)%nat && forallb ascii_alphabetic s.

Definition PriceSnapshot_new (id : Z) (plan : PlanCode) (version : Z) (currency : text) (amount : Z)
    (interval : BillingInterval) (now : Z) : outcome PriceError PriceSnapshot :=
  let c := map ascii_lower (trim currency) in
  reject_if (negb (currency_ok c)) PeBadCurrency ;;
  reject_if (amount <? 0) PeNegativeAmount ;;
  reject_if (version =? 0) PeZeroVersion ;;
  Ok (mkPriceSnapshot id plan version c amount interval ∅ now None now).

Definition is_effective_at (at_ : Z) (s : PriceSnapshot) : bool :=
  (s.(pr_effective_from) <=? at_)
  && match s.(pr_effective_until) with Some u => at_ <? u | None => true end.

#[export] Instance PlanCode_countable : Countable PlanCode.
Proof.
  refine (inj_countable' (fun c => match c with PcStarter => 0 | PcPro => 1 | PcBusiness => 2 | PcEnterprise => 3 end)
    (fun n => match n with 0 => PcStarter | 1 => PcPro | 2 => PcBusiness | _ => PcEnterprise end) _).
  by intros [].
Defined.

Record PriceRegistry : Type := mkPriceRegistry {
  rg_snapshots : gmap (PlanCode * Z) PriceSnapshot;
  rg_latest : gmap PlanCode Z;
}.

Definition PriceRegistry_new : PriceRegistry := mkPriceRegistry ∅ ∅.

Definition price_key (s : PriceSnapshot) : PlanCode * Z := (s.(pr_plan_code), s.(pr_version)).

Definition price_put (s : PriceSnapshot) (r : PriceRegistry) : PriceRegistry :=
  mkPriceRegistry (<[price_key s := s]> r.(rg_snapshots)) (<[s.(pr_plan_code) := s.(pr_version)]> r.(rg_latest)).

(** [PriceRegistry::upsert]. *)
Definition price_upsert (s : PriceSnapshot) (r : PriceRegistry) : outcome PriceError unit * PriceRegistry :=
  if is_present (r.(rg_snapshots) !! price_key s) then (Err PeVersionExists, r)
  else
    match r.(rg_latest) !! s.(pr_plan_code) with
    | Some v => if negb (s.(pr_version) =? (v + 1) mod 2 ^ 32) then (Err PeNotSequential, r)
                else (Ok tt, price_put s r)
    | None => if negb (s.(pr_version) =? 1) then (Err PeFirstVersion, r) else (Ok tt, price_put s r)
    end.

Definition latest_for (c : PlanCode) (r : PriceRegistry) : option PriceSnapshot :=
  v ← r.(rg_latest) !! c; r.(rg_snapshots) !! (c, v).

(** [resolve_checkout_price]: the error is that no price is registered. *)
Definition resolve_checkout_price (c : PlanCode) (r : PriceRegistry) : option PriceSnapshot := latest_for c r.

(** * Usage *)

Inductive UsageMetric : Type :=
  | UmOrdersSubmitted | UmFillsBooked | UmApiRequests | UmModuleRuntimeSeconds | UmExportRows | UmActiveMembers.

#[export] Instance UsageMetric_eq_dec : EqDecision UsageMetric.
Proof. solve_decision. Defined.

Definition UsageMetric_as_str (m : UsageMetric) : text :=
  match m with
  | UmOrdersSubmitted => lit "orders_submitted"
  | UmFillsBooked => lit "fills_booked"
  | UmApiRequests => lit "api_requests"
  | UmModuleRuntimeSeconds => lit "module_runtime_seconds"
  | UmExportRows => lit "export_rows"
  | UmActiveMembers => lit "active_members"
  end.

Definition is_cumulative (m : UsageMetric) : bool := match m with UmActiveMembers => false | _ => true end.

Inductive UsageSource : Type := UsSniper | UsCopy | UsPolymarket | UsApi | UsSystem.

Record UsageEvent : Type := mkUsageEvent {
  ue_id : Z;
  ue_organization_id : Z;
  ue_metric : UsageMetric;
  ue_quantity : f64;
  ue_source : UsageSource;
  ue_idempotency_key : text;
  ue_detail : text;
  ue_occurred_at : Z;
  ue_recorded_at : Z;
}.

Definition usage_payload (m : UsageMetric) (subject : text) : text :=
  lit "usage-v1|" ++ UsageMetric_as_str m ++ lit "|" ++ trim subject.

Definition usage_key_for {libs : LedgerLibs} (m : UsageMetric) (subject : text) : text :=
  lit "use_" ++ take 32 (sha256_hex (usage_payload m subject)).

Inductive UsageDefect : Type := EmptyKey | QuantityNotFinite | NegativeQuantity.

Definition usage_validate (e : UsageEvent) : outcome UsageDefect unit :=
  reject_if (is_empty (trim e.(ue_idempotency_key))) EmptyKey ;;
  reject_if (negb (is_finite e.(ue_quantity))) QuantityNotFinite ;;
  reject_if (fltb e.(ue_quantity) fzero) NegativeQuantity.

Inductive UsageOutcome : Type := UoRecorded | UoDuplicate | UoRejected (d : UsageDefect).

Record UsageLedger : Type := mkUsageLedger { ul_seen : gset (Z * text); ul_events : list UsageEvent }.

Definition UsageLedger_new : UsageLedger := mkUsageLedger ∅ [].

Definition usage_key (e : UsageEvent) : Z * text := (e.(ue_organization_id), e.(ue_idempotency_key)).

(** [UsageLedger::record]. *)
Definition usage_record (e : UsageEvent) (l : UsageLedger) : UsageOutcome * UsageLedger :=
  match usage_validate e with
  | Err d => (UoRejected d, l)
  | _ =>
      if decide (usage_key e ∈ l.(ul_seen)) then (UoDuplicate, l)
      else (UoRecorded, mkUsageLedger ({[usage_key e]} ∪ l.(ul_seen)) (l.(ul_events) ++ [e]))
  end.

(** [UsageLedger::total]; [sum_start] is what the standard library's sum of floats
    starts from, a zero. *)
Definition usage_total (period : Z -> text) (sum_start : f64) (organization : Z) (m : UsageMetric) (p : text)
    (l : UsageLedger) : f64 :=
  foldl (fun acc e => fadd acc e.(ue_quantity)) sum_start
    (filter (fun e => e.(ue_organization_id) = organization /\ e.(ue_metric) = m /\ period e.(ue_occurred_at) = p)
       l.(ul_events)).

Definition events_of (organization : Z) (l : UsageLedger) : list UsageEvent :=
  filter (fun e => e.(ue_organization_id) = organization) l.(ul_events).

(** * The fee of a trade *)

Definition fee_policy_ok (p : PlatformFeePolicy) : Prop :=
  0 <= p.(pf_fee_bps) <= MAX_PLATFORM_FEE_BPS /\ 0 <= p.(pf_minimum_micros)
  /\ (forall c, p.(pf_cap_micros) = Some c -> p.(pf_minimum_micros) <= c).

Lemma policy_new_ok bps cap minimum p : 0 <= bps ->
  PlatformFeePolicy_new bps cap minimum = Ok p -> fee_policy_ok p.
Proof.
  intros Hb. unfold PlatformFeePolicy_new, reject_if.
  destruct (Z.ltb_spec MAX_PLATFORM_FEE_BPS bps); [done|]. destruct (Z.ltb_spec minimum 0); [done|].
  destruct cap as [c|]; cbn.
  - destruct (Z.ltb_spec c 0); [done|]. destruct (Z.ltb_spec c minimum); [done|]. cbn. intros [= <-].
    split_and!; cbn; [lia..|]. intros ? [= <-]. lia.
  - intros [= <-]. split_and!; cbn; [lia..|done].
Qed.

Lemma raw_fee_cases n bps : 0 <= n * bps ->
  (n * bps + 5000 <= i64_max /\ raw_fee n bps = (n * bps + 5000) / 10000)
  \/ (i64_max < n * bps + 5000 /\ raw_fee n bps = i64_max).
Proof.
  intros H0. unfold raw_fee. destruct (checked_mul i64_max n bps) as [v|] eqn:Hm; cbn.
  - apply checked_mul_Some in Hm as [Hv ->]. change (BPS_DENOMINATOR / 2) with 5000.
    destruct (checked_add i64_max (n * bps) 5000) as [w|] eqn:Hw; cbn.
    + apply checked_add_Some in Hw as [Hw ->]. by left.
    + right. split; [|done]. destruct (Z.le_gt_cases (n * bps + 5000) i64_max) as [Hle|]; [|done].
      pose proof (proj2 (checked_add_Some i64_max (n * bps) 5000 _) (conj Hle eq_refl)). congruence.
  - right. split; [|done]. destruct (Z.le_gt_cases (n * bps) i64_max) as [Hle|]; [|lia].
    pose proof (proj2 (checked_mul_Some i64_max n bps _) (conj Hle eq_refl)). congruence.
Qed.

Lemma raw_fee_mono n m bps : 0 <= bps -> 0 <= n <= m -> raw_fee n bps <= raw_fee m bps.
Proof.
  intros Hb Hnm. assert (n * bps <= m * bps) by nia.
  destruct (raw_fee_cases n bps) as [[H1 ->]|[H1 ->]]; [nia| |];
    destruct (raw_fee_cases m bps) as [[H2 ->]|[H2 ->]]; try nia; try lia.
  - apply Z.div_le_mono; lia.
  - apply Z.div_le_upper_bound; unfold i64_max in *; lia.
Qed.

(** The fee of a trade under a policy that was accepted: nothing when nothing is
    traded or the rate is zero; otherwise between the minimum and the cap, within
    half a micro of the exact rate where neither binds and nothing overflows, never
    above the notional there, and never smaller for a larger trade. *)
Theorem platform_fee_exact p n (Hp : fee_policy_ok p) :
  let fee := compute_platform_fee n p in
  let exact := n * p.(pf_fee_bps) in
  (n <= 0 \/ p.(pf_fee_bps) = 0 -> fee = 0)
  /\ (0 < n -> p.(pf_fee_bps) <> 0 ->
      p.(pf_minimum_micros) <= fee
      /\ (forall c, p.(pf_cap_micros) = Some c -> fee <= c)
      /\ (exact + 5000 <= i64_max -> p.(pf_minimum_micros) < fee ->
          (forall c, p.(pf_cap_micros) = Some c -> fee < c) ->
          2 * Z.abs (10000 * fee - exact) <= 10000 /\ fee <= n))
  /\ (forall m, n <= m -> fee <= compute_platform_fee m p).
Proof.
  destruct Hp as ([Hb0 Hb] & Hm & Hc). cbv zeta. unfold MAX_PLATFORM_FEE_BPS in Hb. unfold compute_platform_fee.
  split_and!.
  - intros [Hn|Hn]; [by rewrite (proj2 (Z.leb_le n 0) Hn)|rewrite Hn, orb_true_r; done].
  - intros Hn Hbps. rewrite (proj2 (Z.leb_gt n 0)) by lia. rewrite (proj2 (Z.eqb_neq _ _) Hbps). cbn [orb].
    set (raw := raw_fee n (pf_fee_bps p)). set (fee := from_option (Z.min raw) raw (pf_cap_micros p)).
    assert (Hcap : forall c, pf_cap_micros p = Some c -> fee <= c /\ pf_minimum_micros p <= c /\ (fee < c -> fee = raw)).
    { intros c Hcc. unfold fee. rewrite Hcc. cbn. specialize (Hc c Hcc). lia. }
    assert (Hnone : pf_cap_micros p = None -> fee = raw) by (intros H; unfold fee; by rewrite H).
    destruct (Z.ltb_spec fee (pf_minimum_micros p)); split_and!; try lia.
    + intros c Hcc. apply (Hcap c Hcc).
    + intros c Hcc. apply (Hcap c Hcc).
    + intros Hov Hmin Hlt. assert (fee = raw) as ->.
      { destruct (pf_cap_micros p) as [c|]; [|by apply Hnone]. apply (Hcap c); [done|by apply Hlt]. }
      unfold raw. destruct (raw_fee_cases n (pf_fee_bps p)) as [[_ ->]|[? _]]; [nia| |lia].
      pose proof (Z.div_mod (n * pf_fee_bps p + 5000) 10000). pose proof (Z.mod_pos_bound (n * pf_fee_bps p + 5000) 10000).
      split; [lia|]. apply Z.div_le_upper_bound; nia.
  - intros m Hnm. destruct (Z.eqb_spec (pf_fee_bps p) 0); [by rewrite !orb_true_r|]. rewrite !orb_false_r.
    destruct (Z.leb_spec n 0), (Z.leb_spec m 0); try lia.
    + set (fee := from_option _ _ _). destruct (Z.ltb_spec fee (pf_minimum_micros p)); lia.
    + pose proof (raw_fee_mono n m (pf_fee_bps p) Hb0 ltac:(lia)).
      destruct (pf_cap_micros p) as [c|]; cbn; repeat case_match; lia.
Qed.

(** The entry of a charge balances to the last bit, touches the tenant's book only,
    and is empty exactly when the operator's book gets nothing. *)
Theorem charge_entry_balanced c :
  (totals (charge_entry c)).1 = (totals (charge_entry c)).2
  /\ (charge_entry c = [] <-> platform_revenue_posting c = None)
  /\ (c.(pc_fee_micros) <= 0 -> charge_entry c = [])
  /\ Forall (fun l => l.(po_wallet) = c.(pc_tenant_wallet) /\ l.(po_event_id) = c.(pc_charge_id)
              /\ l.(po_asset) = c.(pc_asset)) (charge_entry c).
Proof.
  unfold charge_entry, platform_revenue_posting. split_and!.
  - by destruct (fleb _ _).
  - by destruct (fleb _ _).
  - intros Hf. unfold micros_to_units. rewrite Z.max_l by lia. done.
  - destruct (fleb _ _); repeat constructor.
Qed.

(** * Prices keep their history *)

(** The numbers a registry accepts: those the constructor lets through. *)
Definition version_ok (s : PriceSnapshot) : Prop := 1 <= s.(pr_version) < 2 ^ 32.

Definition price_upserts (ss : list PriceSnapshot) (r : PriceRegistry) : PriceRegistry :=
  foldl (fun r s => (price_upsert s r).2) r ss.

Record registry_ok (r : PriceRegistry) : Prop := {
  ro_keys : forall k s, r.(rg_snapshots) !! k = Some s -> price_key s = k;
  ro_latest : forall c n, r.(rg_latest) !! c = Some n ->
    1 <= n < 2 ^ 32 /\ forall v, is_Some (r.(rg_snapshots) !! (c, v)) <-> 1 <= v <= n;
  ro_none : forall c v, r.(rg_latest) !! c = None -> r.(rg_snapshots) !! (c, v) = None;
}.

Lemma registry_new_ok : registry_ok PriceRegistry_new.
Proof. split; intros *; cbn; rewrite ?lookup_empty; try done. Qed.

Lemma price_put_ok s r n :
  registry_ok r -> version_ok s -> r.(rg_snapshots) !! price_key s = None ->
  default 0 (r.(rg_latest) !! s.(pr_plan_code)) = n -> s.(pr_version) = n + 1 ->
  registry_ok (price_put s r).
Proof.
  intros [Hk Hl Hn] Hv Hfresh Hd Hver. split.
  - intros k s'. cbn. destruct (decide (price_key s = k)) as [<-|Hne].
    + rewrite lookup_insert_eq. by intros [= <-].
    + rewrite lookup_insert_ne by done. apply Hk.
  - intros c m. cbn. destruct (decide (pr_plan_code s = c)) as [<-|Hne].
    + rewrite lookup_insert_eq. intros [= <-]. split; [done|]. intros v.
      destruct (decide (v = pr_version s)) as [->|Hvv].
      * unfold price_key at 1. rewrite lookup_insert_eq. split; [intros _; unfold version_ok in Hv; lia|by eexists].
      * rewrite lookup_insert_ne by (unfold price_key; congruence).
        destruct (rg_latest r !! pr_plan_code s) as [k|] eqn:Hlat; cbn in Hd; subst n.
        -- destruct (Hl _ _ Hlat) as [_ H]. rewrite H. lia.
        -- rewrite (Hn _ _ Hlat). split; [by intros []|lia].
    + rewrite lookup_insert_ne by done. intros Hc. destruct (Hl _ _ Hc) as [Hm H]. split; [done|]. intros v.
      rewrite lookup_insert_ne by (unfold price_key; congruence). apply H.
  - intros c v. cbn. destruct (decide (pr_plan_code s = c)) as [<-|Hne]; [by rewrite lookup_insert_eq|].
    rewrite lookup_insert_ne by done. intros Hc. rewrite lookup_insert_ne by (unfold price_key; congruence). by apply Hn.
Qed.

Lemma price_upsert_ok s r : registry_ok r -> version_ok s -> registry_ok (price_upsert s r).2.
Proof.
  intros Hr Hv. unfold price_upsert. destruct (rg_snapshots r !! price_key s) as [s'|] eqn:Hf; cbn [is_present]; [done|].
  destruct (rg_latest r !! pr_plan_code s) as [n|] eqn:Hl.
  - destruct (Z.eqb_spec (pr_version s) ((n + 1) mod 2 ^ 32)) as [He|]; cbn [negb snd]; [|done].
    apply (price_put_ok s r n); [done..|by rewrite Hl|].
    pose proof (proj1 (ro_latest r Hr _ _ Hl)). unfold version_ok in Hv.
    destruct (Z.eq_dec (n + 1) (2 ^ 32)) as [Hw|Hw]; [rewrite Hw, Z.mod_same in He by lia; lia|].
    rewrite Z.mod_small in He by lia. done.
  - destruct (Z.eqb_spec (pr_version s) 1) as [He|]; cbn [negb snd]; [|done].
    apply (price_put_ok s r 0); [done..|by rewrite Hl|lia].
Qed.

Lemma price_upsert_keeps s r k p : r.(rg_snapshots) !! k = Some p -> (price_upsert s r).2.(rg_snapshots) !! k = Some p.
Proof.
  intros Hp. unfold price_upsert. destruct (rg_snapshots r !! price_key s) as [s'|] eqn:Hf; cbn [is_present]; [done|].
  assert (Hput : (price_put s r).(rg_snapshots) !! k = Some p).
  { cbn. rewrite lookup_insert_ne; [done|]. intros <-. congruence. }
  destruct (rg_latest r !! _); destruct (negb _); done.
Qed.

(** A price that was registered is never changed or removed by what is registered
    later; the versions of a plan run from one without gaps; and a checkout gets the
    newest of them. *)
Theorem prices_keep_history ss later c
    (Hss : Forall version_ok ss) :
  let r := price_upserts ss PriceRegistry_new in
  (forall k p, r.(rg_snapshots) !! k = Some p ->
     (price_upserts later r).(rg_snapshots) !! k = Some p)
  /\ match resolve_checkout_price c r with
     | Some p => p.(pr_plan_code) = c /\ forall v, is_Some (r.(rg_snapshots) !! (c, v)) <-> 1 <= v <= p.(pr_version)
     | None => forall v, r.(rg_snapshots) !! (c, v) = None
     end.
Proof.
  cbv zeta. split.
  - intros k p. generalize (price_upserts ss PriceRegistry_new). unfold price_upserts.
    induction later as [|s later IH]; intros r Hp; [done|]. cbn [foldl]. by apply IH, price_upsert_keeps.
  - assert (Hr : registry_ok (price_upserts ss PriceRegistry_new)).
    { induction ss as [|s ss IH] using rev_ind; [apply registry_new_ok|].
      unfold price_upserts. rewrite foldl_snoc. apply Forall_app in Hss as [Hss Hs].
      apply price_upsert_ok; [by apply IH|by apply Forall_inv in Hs]. }
    destruct Hr as [Hk Hl Hn]. unfold resolve_checkout_price, latest_for.
    destruct (rg_latest _ !! c) as [n|] eqn:Hlat; cbn; [|intros v; by apply Hn].
    destruct (Hl c n Hlat) as [Hb H]. destruct (rg_snapshots _ !! (c, n)) as [p|] eqn:Hp.
    + specialize (Hk _ _ Hp). unfold price_key in Hk. injection Hk as Hc Hv. by rewrite Hv.
    + exfalso. assert (Hin : 1 <= n <= n) by lia. apply H in Hin. rewrite Hp in Hin. by destruct Hin.
Qed.

(** * Usage is counted once *)

Definition usage_records (es : list UsageEvent) (l : UsageLedger) : UsageLedger :=
  foldl (fun l e => (usage_record e l).2) l es.

Definition usage_valid (e : UsageEvent) : bool := match usage_validate e with Ok _ => true | _ => false end.

(** The first valid event of each tenant and key, in order. *)
Fixpoint first_of_each (seen : gset (Z * text)) (es : list UsageEvent) : list UsageEvent :=
  match es with
  | [] => []
  | e :: es =>
      if usage_valid e && negb (bool_decide (usage_key e ∈ seen))
      then e :: first_of_each ({[usage_key e]} ∪ seen) es
      else first_of_each seen es
  end.

Lemma usage_record_eq e l :
  (usage_record e l).2
  = if usage_valid e && negb (bool_decide (usage_key e ∈ l.(ul_seen)))
    then mkUsageLedger ({[usage_key e]} ∪ l.(ul_seen)) (l.(ul_events) ++ [e]) else l.
Proof.
  unfold usage_record, usage_valid.
  assert (Hnp : usage_validate e <> Panic).
  { unfold usage_validate, reject_if. by repeat (destruct (_ : bool); cbn; try done). }
  destruct (usage_validate e) as [|d|]; [|done|done]. cbn [andb].
  destruct (decide _) as [Hd|Hd]; [rewrite bool_decide_eq_true_2 by done|rewrite bool_decide_eq_false_2 by done]; done.
Qed.

Lemma usage_records_eq es : forall l,
  (usage_records es l).(ul_events) = l.(ul_events) ++ first_of_each l.(ul_seen) es.
Proof.
  induction es as [|e es IH]; intros l; cbn; [by rewrite app_nil_r|].
  unfold usage_records in *. cbn [foldl]. rewrite IH, usage_record_eq.
  destruct (usage_valid e && _); cbn [ul_events ul_seen]; [by rewrite <- app_assoc|done].
Qed.

Lemma first_of_each_spec es : forall seen,
  NoDup (map usage_key (first_of_each seen es))
  /\ (forall e, e ∈ first_of_each seen es -> e ∈ es /\ usage_valid e = true /\ usage_key e ∉ seen)
  /\ (forall e, e ∈ es -> usage_valid e = true -> usage_key e ∉ seen ->
        exists e', e' ∈ first_of_each seen es /\ usage_key e' = usage_key e).
Proof.
  induction es as [|e es IH]; intros seen.
  { cbn. split_and!; [constructor|by intros e ?%not_elem_of_nil|by intros e ?%not_elem_of_nil]. }
  cbn [first_of_each]. destruct (usage_valid e && negb (bool_decide (usage_key e ∈ seen))) eqn:Hc.
  - apply andb_true_iff in Hc as [Hv Hn]. apply negb_true_iff, bool_decide_eq_false in Hn.
    destruct (IH ({[usage_key e]} ∪ seen)) as (Hd & Hs & Hc). split_and!.
    + cbn. constructor; [|done]. intros Hin. apply list_elem_of_fmap in Hin as (x & Hx & Hin).
      apply Hs in Hin as (_ & _ & Hin). apply Hin. rewrite <- Hx. set_solver.
    + intros x [->|Hx]%elem_of_cons; [split_and!; [by left|done|done]|].
      apply Hs in Hx as (? & ? & Hx). split_and!; [by right|done|set_solver].
    + intros x Hx Hxv Hxn. destruct (decide (usage_key x = usage_key e)) as [He|He]; [exists e; split; [by left|done]|].
      apply elem_of_cons in Hx as [->|Hx]; [done|].
      destruct (Hc x Hx Hxv) as (e' & Hin & Hk); [set_solver|]. exists e'. split; [by right|done].
  - destruct (IH seen) as (Hd & Hs & Hall). split_and!; [done| |].
    + intros x Hx. apply Hs in Hx as (? & ? & ?). by split_and!; [right| |].
    + intros x [->|Hx]%elem_of_cons Hxv Hxn; [|by apply Hall].
      rewrite Hxv, bool_decide_eq_false_2 in Hc; done.
Qed.

(** C23: Usage is counted once: whatever is reported, in whatever order and however often,
    the ledger holds one event for each tenant and key that was validly reported, the
    first of them, and reporting any of it again changes nothing. *)
Theorem usage_counted_once es retried (Hr : forall e, e ∈ retried -> e ∈ es) :
  let l := usage_records es UsageLedger_new in
  NoDup (map usage_key l.(ul_events))
  /\ (forall e, e ∈ l.(ul_events) -> e ∈ es /\ usage_valid e = true)
  /\ (forall e, e ∈ es -> usage_valid e = true ->
        exists e', e' ∈ l.(ul_events) /\ usage_key e' = usage_key e)
  /\ (usage_records retried l).(ul_events) = l.(ul_events)
  /\ (forall org, events_of org l = first_of_each ∅ (filter (fun e => e.(ue_organization_id) = org) es)).
Proof.
  cbv zeta. pose proof (usage_records_eq es UsageLedger_new) as He. cbn in He.
  destruct (first_of_each_spec es ∅) as (Hd & Hs & Hall). rewrite He. split_and!; [done| | | |].
  - intros e Hin. by apply Hs in Hin as (? & ? & _).
  - intros e Hin Hv. apply Hall; [done..|]. apply not_elem_of_empty.
  - assert (Hseen : forall es l, (forall k, k ∈ map usage_key l.(ul_events) -> k ∈ l.(ul_seen)) ->
      forall k, k ∈ map usage_key (usage_records es l).(ul_events) -> k ∈ (usage_records es l).(ul_seen)).
    { clear. intros es. induction es as [|e es IH]; intros l Hl; [done|]. cbn. apply IH.
      rewrite usage_record_eq. destruct (usage_valid e && _); [|done]. cbn. intros k.
      rewrite map_app, elem_of_app. intros [Hk|Hk]; [apply elem_of_union_r; by apply Hl|].
      apply list_elem_of_singleton in Hk as ->. set_solver. }
    set (l := usage_records es UsageLedger_new) in *.
    assert (Hnone : first_of_each l.(ul_seen) retried = []).
    { destruct (first_of_each_spec retried l.(ul_seen)) as (_ & Hs' & _).
      destruct (first_of_each l.(ul_seen) retried) as [|x xs]; [done|].
      destruct (Hs' x) as (Hx & Hxv & Hxn); [by left|]. exfalso. apply Hxn.
      destruct (Hall x (Hr x Hx) Hxv) as (e' & He' & Hk); [apply not_elem_of_empty|].
      apply (Hseen es UsageLedger_new); [by intros k ?%not_elem_of_nil|]. fold l. rewrite He, <- Hk.
      by apply list_elem_of_fmap_2. }
    by rewrite usage_records_eq, Hnone, app_nil_r, He.
  - intros org. unfold events_of. rewrite He. clear. 
    assert (H : forall seen seen' : gset (Z * text),
      (forall k, k.1 = org -> k ∈ seen <-> k ∈ seen') ->
      filter (fun e => ue_organization_id e = org) (first_of_each seen es)
      = first_of_each seen' (filter (fun e => ue_organization_id e = org) es)).
    { induction es as [|e es IH]; intros seen seen' Hss; [done|]. cbn [first_of_each].
      destruct (decide (ue_organization_id e = org)) as [Ho|Ho].
      - rewrite (filter_cons_True _ e es) by done. cbn [first_of_each].
        rewrite (bool_decide_ext (usage_key e ∈ seen) (usage_key e ∈ seen')) by (by apply Hss).
        destruct (usage_valid e && _); [|by apply IH].
        rewrite filter_cons_True by done. f_equal. apply IH. set_solver.
      - rewrite (filter_cons_False _ e es) by done.
        destruct (usage_valid e && _); [|by apply IH].
        rewrite filter_cons_False by done. apply IH. intros k Hk. rewrite <- Hss by done.
        assert (k <> usage_key e) by (intros ->; done). set_solver. }
    by apply H.
Qed.

(** Two facts that are metered under one key are of one metric and one subject, up to
    the digest. *)
Theorem usage_key_names_the_fact m n s t
    (He : usage_payload m s = usage_payload n t) : m = n /\ trim s = trim t.
Proof.
  unfold usage_payload in He. apply (app_inv_head (lit "usage-v1|")) in He.
  revert He. generalize (trim s) (trim t). intros a b He.
  destruct m, n; (split; [try done|]); try (vm_compute in He; discriminate He).
  all: by apply app_inv_head, app_inv_head in He.
Qed.

(** A price whose window has closed is still the one a checkout gets. *)
Theorem expired_price_is_sold :
  let s := mkPriceSnapshot 1 PcPro 1 (lit "usd") 4900 IvMonth ∅ 0 (Some 10) 0 in
  let r := price_upserts [s] PriceRegistry_new in
  resolve_checkout_price PcPro r = Some s /\ is_effective_at 20 s = false.
Proof. done. Qed.

Lemma platform_fee_exact_witness :
  compute_platform_fee 1000000 (mkPlatformFeePolicy 25 (Some 5000) 10) = 2500
  /\ 10 <= compute_platform_fee 1000000 (mkPlatformFeePolicy 25 (Some 5000) 10).
Proof.
  split; [reflexivity|].
  assert (Hp : fee_policy_ok (mkPlatformFeePolicy 25 (Some 5000) 10)).
  { unfold fee_policy_ok, MAX_PLATFORM_FEE_BPS; cbn; split_and!; try lia. intros c [= <-]. lia. }
  destruct (platform_fee_exact (mkPlatformFeePolicy 25 (Some 5000) 10) 1000000 Hp) as (_ & H & _).
  exact (proj1 (H ltac:(lia) ltac:(done))).
Defined.

Definition demo_price (v amount : Z) : PriceSnapshot :=
  mkPriceSnapshot v PcPro v (lit "usd") amount IvMonth ∅ 0 None 0.

Lemma prices_keep_history_witness :
  let r := price_upserts [demo_price 1 100; demo_price 3 200; demo_price 2 300] PriceRegistry_new in
  resolve_checkout_price PcPro r = Some (demo_price 2 300)
  /\ (price_upserts [demo_price 1 999] r).(rg_snapshots) !! (PcPro, 1) = Some (demo_price 1 100).
Proof.
  split; [reflexivity|].
  apply (prices_keep_history [demo_price 1 100; demo_price 3 200; demo_price 2 300] [demo_price 1 999] PcPro);
    [|reflexivity].
  repeat constructor; cbn; lia.
Defined.

Definition demo_usage (key : text) (q : f64) : UsageEvent :=
  mkUsageEvent 1 7 UmOrdersSubmitted q UsSniper key [] 0 0.

Lemma usage_counted_once_witness :
  let es := [demo_usage (lit "a") fone; demo_usage (lit "b") fone; demo_usage (lit "a") fzero] in
  length (usage_records es UsageLedger_new).(ul_events) = 2%nat
  /\ NoDup (map usage_key (usage_records es UsageLedger_new).(ul_events)).
Proof.
  split; [reflexivity|].
  apply (usage_counted_once [demo_usage (lit "a") fone; demo_usage (lit "b") fone; demo_usage (lit "a") fzero] []).
  by intros e ?%not_elem_of_nil.
Defined.

Lemma usage_key_names_the_fact_witness :
  usage_payload UmApiRequests (lit " x") = usage_payload UmApiRequests (lit "x ") /\ trim (lit " x") = trim (lit "x ").
Proof.
  split; [reflexivity|].
  apply (usage_key_names_the_fact UmApiRequests UmApiRequests (lit " x") (lit "x ")). reflexivity.
Defined.
