(* ===== verification/Authorization.v ===== *)
(** Who may do what in the control plane ([crates/core/src/membership/],
    [tenant/model.rs], [tenant/policy.rs], [authorization/], [auth.rs]): the
    permissions and the roles that carry them, the status of an organization, the
    context a request acts in, and the one decision that combines them with the
    plan of [Plans].  Identifiers are the number of their UUID; the texts of the
    refusals are left out. *)
From stdpp Require Import prelude countable gmap list sorting strings.
From Stdlib Require Import ZArith Lia SpecFloat.
From S2P Require Import Prelude.
From S2P Require Import Text.
From S2P Require Import Float64.
From S2P Require Import LedgerEvent.
From S2P Require Import Plans.

#[local] Open Scope Z_scope.

(** * Permissions *)

Inductive Permission : Type :=
  | TenantRead | TenantUpdate | UsersRead | UsersInvite | UsersRemove | UsersManage | WalletRead
  | WalletManage | BotRead | BotConfigure | BotStart | BotStop | OrderRead | OrderManage | RiskRead
  | RiskManage | LedgerRead | ReconciliationRead | BillingRead | BillingManage | ApiKeyRead
  | ApiKeyCreate | ApiKeyWrite | ApiKeyRevoke | AuditRead | ExportCreate.

#[export] Instance Permission_eq_dec : EqDecision Permission.
Proof. solve_decision. Defined.

Definition Permission_ALL : list Permission :=
  [TenantRead; TenantUpdate; UsersRead; UsersInvite; UsersRemove; UsersManage; WalletRead;
   WalletManage; BotRead; BotConfigure; BotStart; BotStop; OrderRead; OrderManage; RiskRead;
   RiskManage; LedgerRead; ReconciliationRead; BillingRead; BillingManage; ApiKeyRead;
   ApiKeyCreate; ApiKeyWrite; ApiKeyRevoke; AuditRead; ExportCreate].

Definition Permission_as_str (p : Permission) : text :=
  match p with
  | TenantRead => lit "tenant.read"
  | TenantUpdate => lit "tenant.update"
  | UsersRead => lit "users.read"
  | UsersInvite => lit "users.invite"
  | UsersRemove => lit "users.remove"
  | UsersManage => lit "users.manage"
  | WalletRead => lit "wallet.read"
  | WalletManage => lit "wallet.manage"
  | BotRead => lit "bot.read"
  | BotConfigure => lit "bot.configure"
  | BotStart => lit "bot.start"
  | BotStop => lit "bot.stop"
  | OrderRead => lit "order.read"
  | OrderManage => lit "order.manage"
  | RiskRead => lit "risk.read"
  | RiskManage => lit "risk.manage"
  | LedgerRead => lit "ledger.read"
  | ReconciliationRead => lit "reconciliation.read"
  | BillingRead => lit "billing.read"
  | BillingManage => lit "billing.manage"
  | ApiKeyRead => lit "api_key.read"
  | ApiKeyCreate => lit "api_key.create"
  | ApiKeyWrite => lit "api_key.write"
  | ApiKeyRevoke => lit "api_key.revoke"
  | AuditRead => lit "audit.read"
  | ExportCreate => lit "export.create"
  end.

Definition Permission_parse (s : text) : option Permission :=
  snd <$> list_find (fun p => Permission_as_str p = trim s) Permission_ALL.

Definition is_read_only (p : Permission) : bool :=
  match p with
  | TenantRead | UsersRead | WalletRead | BotRead | OrderRead | RiskRead | LedgerRead
  | ReconciliationRead | BillingRead | ApiKeyRead | AuditRead => true
  | _ => false
  end.

Definition is_money_affecting (p : Permission) : bool :=
  match p with WalletManage | BotStart | OrderManage | RiskManage => true | _ => false end.

(** The derived order: the position of the constructor. *)
Definition permission_rank (p : Permission) : nat :=
  match list_find (eq p) Permission_ALL with Some (i, _) => i | None => 0 end.

Definition permission_le (p q : Permission) : Prop := (permission_rank p <= permission_rank q)%nat.

#[export] Instance permission_le_dec : RelDecision permission_le.
Proof. intros p q. unfold permission_le. apply _. Defined.

(** [Vec::dedup]: runs of equal elements become one. *)
Fixpoint dedup_runs (l : list Permission) : list Permission :=
  match l with
  | [] => []
  | p :: l' => match l' with
               | q :: _ => if decide (p = q) then dedup_runs l' else p :: dedup_runs l'
               | [] => [p]
               end
  end.

Definition PermissionSet : Type := list Permission.

Definition PermissionSet_from_iter (items : list Permission) : PermissionSet :=
  dedup_runs (merge_sort permission_le items).

Definition PermissionSet_all : PermissionSet := PermissionSet_from_iter Permission_ALL.

(** The set is sorted, so the binary search of the source finds what is there. *)
Definition set_contains (s : PermissionSet) (p : Permission) : bool := bool_decide (p ∈ s).

Definition set_contains_all (s : PermissionSet) (required : list Permission) : bool :=
  forallb (set_contains s) required.

Definition set_intersect (s other : PermissionSet) : PermissionSet :=
  PermissionSet_from_iter (filter (fun p => set_contains other p) s).

Definition set_parse_list (items : list text) : PermissionSet :=
  PermissionSet_from_iter (omap Permission_parse items).

(** * Roles *)

(** The deployment roles of [auth.rs]. *)
Inductive Role : Type := RoReadonly | RoOperator | RoOwner.

Definition role_rank (r : Role) : Z := match r with RoReadonly => 0 | RoOperator => 1 | RoOwner => 2 end.

Definition satisfies (r required : Role) : bool := role_rank required <=? role_rank r.

Definition Role_parse (s : text) : option Role :=
  let n := map ascii_lower (trim s) in
  if decide (n ∈ [lit "readonly"; lit "read"; lit "viewer"]) then Some RoReadonly
  else if decide (n ∈ [lit "operator"; lit "op"]) then Some RoOperator
  else if decide (n ∈ [lit "owner"; lit "admin"]) then Some RoOwner
  else None.

Inductive MembershipRole : Type :=
  | PlatformAdmin | OrgOwner | OrgAdmin | Trader | SecurityAdmin | BillingAdmin | Auditor | Viewer.

#[export] Instance MembershipRole_eq_dec : EqDecision MembershipRole.
Proof. solve_decision. Defined.

Definition MembershipRole_ALL : list MembershipRole :=
  [PlatformAdmin; OrgOwner; OrgAdmin; Trader; SecurityAdmin; BillingAdmin; Auditor; Viewer].

Definition MembershipRole_as_str (r : MembershipRole) : text :=
  match r with
  | PlatformAdmin => lit "platform_admin"
  | OrgOwner => lit "org_owner"
  | OrgAdmin => lit "org_admin"
  | Trader => lit "trader"
  | SecurityAdmin => lit "security_admin"
  | BillingAdmin => lit "billing_admin"
  | Auditor => lit "auditor"
  | Viewer => lit "viewer"
  end.

Definition MembershipRole_parse (s : text) : option MembershipRole :=
  snd <$> list_find (fun r => MembershipRole_as_str r = map ascii_lower (trim s)) MembershipRole_ALL.

(** [MembershipRole::permissions]. *)
Definition role_permissions (r : MembershipRole) : PermissionSet :=
  match r with
  | PlatformAdmin | OrgOwner => PermissionSet_all
  | OrgAdmin =>
      PermissionSet_from_iter
        [TenantRead; TenantUpdate; UsersRead; UsersInvite; UsersRemove; UsersManage; WalletRead;
         WalletManage; BotRead; BotConfigure; BotStart; BotStop; OrderRead; OrderManage; RiskRead;
         RiskManage; LedgerRead; ReconciliationRead; BillingRead; ApiKeyRead; ApiKeyCreate;
         ApiKeyWrite; ApiKeyRevoke; AuditRead; ExportCreate]
  | Trader =>
      PermissionSet_from_iter
        [TenantRead; WalletRead; BotRead; BotConfigure; BotStart; BotStop; OrderRead; OrderManage;
         RiskRead; RiskManage; LedgerRead; ReconciliationRead; ExportCreate]
  | SecurityAdmin =>
      PermissionSet_from_iter
        [TenantRead; UsersRead; UsersInvite; UsersRemove; UsersManage; WalletRead; BotRead; BotStop;
         OrderRead; RiskRead; LedgerRead; ReconciliationRead; ApiKeyRead; ApiKeyCreate; ApiKeyWrite;
         ApiKeyRevoke; AuditRead; ExportCreate]
  | BillingAdmin => PermissionSet_from_iter [TenantRead; BillingRead; BillingManage; UsersRead]
  | Auditor =>
      PermissionSet_from_iter
        [TenantRead; UsersRead; WalletRead; BotRead; OrderRead; RiskRead; LedgerRead;
         ReconciliationRead; BillingRead; AuditRead; ExportCreate]
  | Viewer =>
      PermissionSet_from_iter [TenantRead; BotRead; OrderRead; RiskRead; LedgerRead; ReconciliationRead]
  end.

Definition role_grants (r : MembershipRole) (p : Permission) : bool := set_contains (role_permissions r) p.

(** [MembershipRole::is_platform_scope]. *)
Definition role_is_platform (r : MembershipRole) : bool := bool_decide (r = PlatformAdmin).

Definition can_administer_access (r : MembershipRole) : bool :=
  role_grants r UsersInvite || role_grants r ApiKeyCreate.

Definition to_legacy (r : MembershipRole) : Role :=
  match r with
  | PlatformAdmin | OrgOwner => RoOwner
  | OrgAdmin | Trader => RoOperator
  | SecurityAdmin => RoOperator
  | BillingAdmin | Auditor | Viewer => RoReadonly
  end.

Definition from_legacy (r : Role) : MembershipRole :=
  match r with RoOwner => OrgOwner | RoOperator => Trader | RoReadonly => Viewer end.

Inductive MembershipStatus : Type := MsActive | MsSuspended | MsRemoved.

Record Membership : Type := mkMembership {
  mb_id : Z;
  mb_organization_id : Z;
  mb_user_id : Z;
  mb_role : MembershipRole;
  mb_status : MembershipStatus;
  mb_invited_by : option Z;
  mb_created_at : Z;
  mb_updated_at : Z;
}.

Definition Membership_new (id organization_id user_id : Z) (role : MembershipRole)
    (invited_by : option Z) (now : Z) : Membership :=
  mkMembership id organization_id user_id role MsActive invited_by now now.

Definition member_active (s : MembershipStatus) : bool := match s with MsActive => true | _ => false end.

(** [Membership::permissions]. *)
Definition member_permissions (m : Membership) : PermissionSet :=
  if member_active m.(mb_status) then role_permissions m.(mb_role) else [].

(** * Organizations and what they may do *)

Inductive OrganizationStatus : Type := OsActive | OsTrialing | OsPastDue | OsSuspended | OsClosed.

Record Organization : Type := mkOrganization {
  og_id : Z;
  og_slug : text;
  og_name : text;
  og_status : OrganizationStatus;
  og_created_by : option Z;
  og_created_at : Z;
  og_updated_at : Z;
  og_suspended_at : option Z;
  og_suspend_reason : text;
}.

Definition Organization_new (id : Z) (slug name : text) (created_by : option Z) (now : Z) : Organization :=
  mkOrganization id slug name OsActive created_by now now None [].

Inductive TenantAction : Type := TaRead | TaManage | TaTrade | TaReduceRisk | TaBilling.
Inductive TenantDenyReason : Type := TdSuspended | TdClosed | TdPastDue | TdCrossTenant.
Inductive TenantVerdict : Type := TvAllow | TvDeny (r : TenantDenyReason).

#[export] Instance TenantDenyReason_eq_dec : EqDecision TenantDenyReason.
Proof. solve_decision. Defined.
#[export] Instance TenantVerdict_eq_dec : EqDecision TenantVerdict.
Proof. solve_decision. Defined.

(** [policy::check_status]. *)
Definition check_status (s : OrganizationStatus) (a : TenantAction) : TenantVerdict :=
  match s with
  | OsActive | OsTrialing => TvAllow
  | OsPastDue =>
      match a with TaRead | TaReduceRisk | TaBilling => TvAllow | TaManage | TaTrade => TvDeny TdPastDue end
  | OsSuspended =>
      match a with TaRead | TaReduceRisk | TaBilling => TvAllow | TaManage | TaTrade => TvDeny TdSuspended end
  | OsClosed => TvDeny TdClosed
  end.

Definition check_ownership (acting resource_owner : Z) : TenantVerdict :=
  if decide (acting = resource_owner) then TvAllow else TvDeny TdCrossTenant.

Definition check_resource (org : Organization) (resource_owner : Z) (a : TenantAction) : TenantVerdict :=
  match check_ownership org.(og_id) resource_owner with
  | TvAllow => check_status org.(og_status) a
  | deny => deny
  end.

(** * The context of a request *)

Inductive Principal : Type :=
  | UserSession (session_id : text) | ApiKey (key_id key_prefix : text) | LegacyDeploymentKey (label : text).

Record AuthorizationContext : Type := mkAuthorizationContext {
  ac_principal : Principal;
  ac_user_id : option Z;
  ac_organization_id : Z;
  ac_organization_status : OrganizationStatus;
  ac_role : MembershipRole;
  ac_permissions : PermissionSet;
  ac_platform_admin : bool;
  ac_issued_at : Z;
}.

Definition narrowed (granted : PermissionSet) (scopes : option PermissionSet) : PermissionSet :=
  match scopes with Some s => set_intersect granted s | None => granted end.

Definition from_membership (principal : Principal) (org : Organization) (m : Membership)
    (scopes : option PermissionSet) (platform_admin : bool) (now : Z) : AuthorizationContext :=
  mkAuthorizationContext principal (Some m.(mb_user_id)) org.(og_id) org.(og_status) m.(mb_role)
    (narrowed (member_permissions m) scopes) platform_admin now.

Definition from_platform_admin (principal : Principal) (org : Organization) (user_id now : Z)
    : AuthorizationContext :=
  mkAuthorizationContext principal (Some user_id) org.(og_id) org.(og_status) PlatformAdmin
    (role_permissions PlatformAdmin) true now.

Definition from_api_key (principal : Principal) (org : Organization) (role : MembershipRole)
    (scopes : option PermissionSet) (created_by : option Z) (now : Z) : AuthorizationContext :=
  mkAuthorizationContext principal created_by org.(og_id) org.(og_status) role
    (narrowed (role_permissions role) scopes) false now.

(** [AuthorizationContext::has]. *)
Definition ctx_has (c : AuthorizationContext) (p : Permission) : bool := set_contains c.(ac_permissions) p.

(** [AuthorizationContext::is_platform_scope] and [owns]. *)
Definition ctx_platform (c : AuthorizationContext) : bool := c.(ac_platform_admin) && role_is_platform c.(ac_role).

Definition owns (c : AuthorizationContext) (resource_owner : Z) : bool :=
  bool_decide (c.(ac_organization_id) = resource_owner) || ctx_platform c.

(** * The decision *)

Inductive DecisionKind : Type :=
  | DAllow | DenyUnauthenticated | DenyTenant | DenyRole | DenyPermission | DenyResource | DenySuspended
  | DenyEntitlement | DenyUnavailable.

#[export] Instance DecisionKind_eq_dec : EqDecision DecisionKind.
Proof. solve_decision. Defined.

(** [Decision::deny]: an allowance handed in as a denial fails closed. *)
Definition deny (k : DecisionKind) : DecisionKind := match k with DAllow => DenyUnavailable | _ => k end.

Definition http_status (k : DecisionKind) : Z :=
  match k with
  | DAllow => 200
  | DenyUnauthenticated => 401
  | DenyEntitlement => 402
  | DenyUnavailable => 503
  | _ => 403
  end.

Definition is_security_relevant (k : DecisionKind) : bool :=
  match k with DenyResource | DenyRole | DenyPermission | DenyTenant => true | _ => false end.

Record AccessRequest : Type := mkAccessRequest {
  aq_permission : Permission;
  aq_action : TenantAction;
  aq_resource_owner : option Z;
  aq_feature : option text;
  aq_current_usage : f64;
  aq_requested_usage : f64;
}.

(** [AccessRequest::read], [manage], [trade], [reduce_risk] and [billing]. *)
Definition request_for (a : TenantAction) (p : Permission) : AccessRequest :=
  mkAccessRequest p a None None fzero fzero.

Definition on_resource (owner : Z) (r : AccessRequest) : AccessRequest :=
  mkAccessRequest r.(aq_permission) r.(aq_action) (Some owner) r.(aq_feature) r.(aq_current_usage)
    r.(aq_requested_usage).

Definition requiring (feature : text) (r : AccessRequest) : AccessRequest :=
  mkAccessRequest r.(aq_permission) r.(aq_action) r.(aq_resource_owner) (Some feature) r.(aq_current_usage)
    r.(aq_requested_usage).

Definition consuming (feature : text) (current requested : f64) (r : AccessRequest) : AccessRequest :=
  mkAccessRequest r.(aq_permission) r.(aq_action) r.(aq_resource_owner) (Some feature) current requested.

(** [authorization::authorize]. *)
Definition authorize (context : option AuthorizationContext) (r : AccessRequest)
    (entitlements : option EntitlementSet) : DecisionKind :=
  match context with
  | None => deny DenyUnauthenticated
  | Some c =>
      if match r.(aq_resource_owner) with Some o => negb (owns c o) | None => false end then deny DenyResource
      else
        match check_status c.(ac_organization_status) r.(aq_action) with
        | TvDeny _ => deny DenySuspended
        | TvAllow =>
            if negb (ctx_has c r.(aq_permission)) then deny DenyPermission
            else
              match r.(aq_feature), entitlements with
              | Some f, Some s =>
                  match check_entitlement s f r.(aq_current_usage) r.(aq_requested_usage) with
                  | EvAllow _ => DAllow
                  | EvDeny _ => deny DenyEntitlement
                  end
              | _, _ => DAllow
              end
        end
  end.

(** * Deployment keys and the rate limiter ([auth.rs]) *)

Record KeyPrincipal : Type := mkKeyPrincipal { kp_label : text; kp_role : Role; kp_hash : text }.

(** [Authenticator]: a map of the registered keys by the hash of the plaintext. *)
Definition authenticate {libs : LedgerLibs} (presented : text) (a : gmap text KeyPrincipal) : option KeyPrincipal :=
  if is_empty (trim presented) then None else a !! sha256_hex presented.

Definition add_key {libs : LedgerLibs} (label plaintext : text) (role : Role) (a : gmap text KeyPrincipal)
    : gmap text KeyPrincipal :=
  let hash := sha256_hex plaintext in <[hash := mkKeyPrincipal label role hash]> a.

Definition revoke_hash (hash : text) (a : gmap text KeyPrincipal) : bool * gmap text KeyPrincipal :=
  (is_present (a !! hash), delete hash a).

(** Times of the limiter are in nanoseconds of the monotonic clock. *)
Record Bucket : Type := mkBucket { bk_tokens : f64; bk_updated : Z; bk_last_seen : Z }.

Record RateLimiter : Type := mkRateLimiter {
  rl_rpm : Z;                              (* u32 *)
  rl_buckets : gmap text Bucket;
  rl_max_buckets : Z;
}.

Definition RateLimiter_new (rpm : Z) : RateLimiter := mkRateLimiter rpm ∅ 10000.

Inductive RateVerdict : Type := RvAllowed | RvLimited (retry_after_secs : Z).

Definition NANOS_PER_SEC : Z := 1000000000.
Definition SWEEP_NANOS : Z := 600 * NANOS_PER_SEC.

(** [Instant::duration_since] is zero when the clock reads less. *)
Definition elapsed_nanos (now t : Z) : Z := Z.max 0 (now - t).

(** [Duration::as_secs_f64]. *)
Definition as_secs_f64 (nanos : Z) : f64 :=
  fadd (f_of_Z (nanos / NANOS_PER_SEC)) (fdiv (f_of_Z (nanos mod NANOS_PER_SEC)) (f_of_Z NANOS_PER_SEC)).

Definition refill_per_sec (rpm : Z) : f64 := fdiv (f_of_Z rpm) (f_of_Z 60).

Definition refilled (rpm now : Z) (b : Bucket) : f64 :=
  fmin (fadd b.(bk_tokens) (fmul (as_secs_f64 (elapsed_nanos now b.(bk_updated))) (refill_per_sec rpm)))
    (f_of_Z rpm).

(** [v.ceil().max(1.0) as u64]. *)
Definition ceil_secs (v : f64) : Z :=
  match v with
  | S754_finite false m e =>
      Z.min u64_max (Z.max 1 (if 0 <=? e then Z.pos m * 2 ^ e else cdiv (Z.pos m) (2 ^ (- e))))
  | S754_infinity false => u64_max
  | _ => 1
  end.

(** An unknown key meets a full table. *)
Definition table_full (cap : Z) (key : text) (m : gmap text Bucket) : bool :=
  negb (is_present (m !! key)) && (cap <=? Z.of_nat (size m)).

Definition recently_seen (now : Z) (m : gmap text Bucket) : gmap text Bucket :=
  filter (fun kb : text * Bucket => elapsed_nanos now kb.2.(bk_last_seen) < SWEEP_NANOS) m.

Definition put_bucket (key : text) (b : Bucket) (m : gmap text Bucket) (l : RateLimiter) : RateLimiter :=
  mkRateLimiter l.(rl_rpm) (<[key := b]> m) l.(rl_max_buckets).

(** [RateLimiter::check]. *)
Definition limiter_check (key : text) (now : Z) (l : RateLimiter) : RateVerdict * RateLimiter :=
  if l.(rl_rpm) =? 0 then (RvAllowed, l)
  else
    let crowded := table_full l.(rl_max_buckets) key l.(rl_buckets) in
    let m := if crowded then recently_seen now l.(rl_buckets) else l.(rl_buckets) in
    if crowded && (l.(rl_max_buckets) <=? Z.of_nat (size m))
    then (RvLimited 60, mkRateLimiter l.(rl_rpm) m l.(rl_max_buckets))
    else
      let tokens := refilled l.(rl_rpm) now (default (mkBucket (f_of_Z l.(rl_rpm)) now now) (m !! key)) in
      if fleb fone tokens
      then (RvAllowed, put_bucket key (mkBucket (fsub tokens fone) now now) m l)
      else (RvLimited (ceil_secs (fdiv (fsub fone tokens) (refill_per_sec l.(rl_rpm)))),
            put_bucket key (mkBucket tokens now now) m l).

(** * Permission sets are canonical *)

Lemma permission_rank_inj p q : permission_rank p = permission_rank q -> p = q.
Proof. destruct p, q; vm_compute; intros H; first [reflexivity | discriminate H]. Qed.

Lemma elem_of_dedup_runs p l : p ∈ dedup_runs l <-> p ∈ l.
Proof.
  induction l as [|q l IH]; [done|]. cbn [dedup_runs]. destruct l as [|r l]; [done|].
  destruct (decide (q = r)) as [->|]; rewrite ?elem_of_cons, IH; set_solver.
Qed.

Lemma elem_of_permission_set p items : p ∈ PermissionSet_from_iter items <-> p ∈ items.
Proof. unfold PermissionSet_from_iter. by rewrite elem_of_dedup_runs, merge_sort_Permutation. Qed.

Definition permission_lt (p q : Permission) : Prop := (permission_rank p < permission_rank q)%nat.

Lemma dedup_runs_sorted l : StronglySorted permission_le l -> StronglySorted permission_lt (dedup_runs l).
Proof.
  induction 1 as [|p l Hl IH Hp]; [constructor|]. cbn [dedup_runs]. destruct l as [|q l].
  { repeat constructor. }
  destruct (decide (p = q)) as [|Hne]; [done|]. constructor; [done|].
  apply Forall_forall. intros r Hr. rewrite elem_of_dedup_runs in Hr.
  assert (permission_lt p q) as Hpq.
  { apply Forall_cons_1 in Hp as [Hpq _]. unfold permission_le, permission_lt in *.
    destruct (Nat.eq_dec (permission_rank p) (permission_rank q)) as [He|]; [|lia].
    by apply permission_rank_inj in He. }
  inversion Hl as [|? ? _ Hq]; subst. apply elem_of_cons in Hr as [->|Hr]; [done|].
  rewrite Forall_forall in Hq. specialize (Hq r Hr). unfold permission_lt, permission_le in *. lia.
Qed.

Lemma permission_set_sorted items : StronglySorted permission_lt (PermissionSet_from_iter items).
Proof.
  apply dedup_runs_sorted, StronglySorted_merge_sort.
  - intros p q r. unfold permission_le. lia.
  - intros p q. unfold permission_le. lia.
Qed.

Lemma permission_lt_ext l : forall k,
  StronglySorted permission_lt l -> StronglySorted permission_lt k -> (forall p, p ∈ l <-> p ∈ k) -> l = k.
Proof.
  assert (Hne : forall p q (m : list Permission), Forall (permission_lt q) m -> p ∈ m -> (permission_rank q < permission_rank p)%nat).
  { intros p q m Hm Hp. rewrite Forall_forall in Hm. by apply Hm. }
  induction l as [|p l IH]; intros [|q k] Hl Hk Hiff.
  - done.
  - specialize (Hiff q). set_solver.
  - specialize (Hiff p). set_solver.
  - inversion Hl as [|? ? Hl' Hp]; inversion Hk as [|? ? Hk' Hq]; subst.
    assert (p = q) as ->.
    { destruct (decide (p = q)) as [|Hpq]; [done|exfalso].
      assert (p ∈ k) as H1 by (pose proof (proj1 (Hiff p) ltac:(set_solver)); set_solver).
      assert (q ∈ l) as H2 by (pose proof (proj2 (Hiff q) ltac:(set_solver)); set_solver).
      pose proof (Hne _ _ _ Hq H1); pose proof (Hne _ _ _ Hp H2); lia. }
    f_equal. apply IH; [done..|]. intros r. split; intros Hr.
    + pose proof (Hne _ _ _ Hp Hr). pose proof (proj1 (Hiff r) ltac:(set_solver)) as [->|]%elem_of_cons; [lia|done].
    + pose proof (Hne _ _ _ Hq Hr). pose proof (proj2 (Hiff r) ltac:(set_solver)) as [->|]%elem_of_cons; [lia|done].
Qed.

(** A set has what was put in, sorted and without duplicates, whatever the order it was
    given in: two sets of the same members are one value. *)
Theorem permission_sets_canonical a b :
  (forall p, set_contains (PermissionSet_from_iter a) p = bool_decide (p ∈ a))
  /\ StronglySorted permission_lt (PermissionSet_from_iter a)
  /\ ((forall p, p ∈ a <-> p ∈ b) <-> PermissionSet_from_iter a = PermissionSet_from_iter b).
Proof.
  split_and!.
  - intros p. unfold set_contains. apply bool_decide_ext, elem_of_permission_set.
  - apply permission_set_sorted.
  - split.
    + intros Hiff. apply permission_lt_ext; [apply permission_set_sorted..|]. intros p. by rewrite !elem_of_permission_set.
    + intros Heq p. rewrite <- (elem_of_permission_set p a), Heq. apply elem_of_permission_set.
Qed.

(** The names of permissions and roles are read back as what they name, with white space
    around them; the names of roles in capitals too. *)
Theorem vocabulary_round_trips :
  (forall p, Permission_parse (Permission_as_str p) = Some p)
  /\ (forall s p, Permission_parse s = Some p -> trim s = Permission_as_str p)
  /\ (forall r, MembershipRole_parse (MembershipRole_as_str r) = Some r)
  /\ (forall s r, MembershipRole_parse s = Some r -> map ascii_lower (trim s) = MembershipRole_as_str r).
Proof.
  split_and!; [by intros []| |by intros []|].
  - intros s p. unfold Permission_parse. destruct (list_find _ _) as [[i q]|] eqn:Hf; [|done].
    apply list_find_Some in Hf as (_ & Hq & _). by intros [= <-].
  - intros s r. unfold MembershipRole_parse. destruct (list_find _ _) as [[i q]|] eqn:Hf; [|done].
    apply list_find_Some in Hf as (_ & Hq & _). by intros [= <-].
Qed.

(** * Roles separate duties *)

(** Who holds what: starting a module, managing orders, risk or wallets takes an
    operational role; billing is managed by the owner and the billing administrator
    alone, keys and members by none that trades but the owner and the administrator;
    an auditor or a viewer changes nothing. *)
Theorem duties_are_separated r p (Hg : role_grants r p = true) :
  (is_money_affecting p = true -> r ∈ [PlatformAdmin; OrgOwner; OrgAdmin; Trader])
  /\ (p = BillingManage -> r ∈ [PlatformAdmin; OrgOwner; BillingAdmin])
  /\ (p ∈ [UsersInvite; UsersRemove; UsersManage; ApiKeyCreate; ApiKeyWrite; ApiKeyRevoke] ->
      r ∈ [PlatformAdmin; OrgOwner; OrgAdmin; SecurityAdmin])
  /\ (p = AuditRead -> r ∉ [Trader; BillingAdmin; Viewer])
  /\ (r = Auditor -> is_read_only p = true \/ p = ExportCreate)
  /\ (r = Viewer -> is_read_only p = true)
  /\ (is_read_only p = true -> is_money_affecting p = false).
Proof.
  revert Hg. destruct r, p; vm_compute; intros Hg; try discriminate Hg; clear Hg;
    split_and!; intros; try discriminate; try set_solver; auto.
Qed.

(** The gates of a request, in the order they run; the first that fails names the refusal. *)
Definition resource_gate (c : AuthorizationContext) (r : AccessRequest) : Prop :=
  forall o, r.(aq_resource_owner) = Some o -> c.(ac_organization_id) = o \/ ctx_platform c = true.
Definition tenant_gate (c : AuthorizationContext) (r : AccessRequest) : Prop :=
  check_status c.(ac_organization_status) r.(aq_action) = TvAllow.
Definition permission_gate (c : AuthorizationContext) (r : AccessRequest) : Prop :=
  r.(aq_permission) ∈ c.(ac_permissions).
Definition plan_gate (r : AccessRequest) (e : option EntitlementSet) : Prop :=
  forall f s, r.(aq_feature) = Some f -> e = Some s ->
    verdict_allowed (check_entitlement s f r.(aq_current_usage) r.(aq_requested_usage)) = true.

Lemma resource_gate_spec c r :
  resource_gate c r <-> match r.(aq_resource_owner) with Some o => negb (owns c o) | None => false end = false.
Proof.
  unfold resource_gate, owns. destruct (aq_resource_owner r) as [o|]; [|split; [done|intros _ o [=]]].
  rewrite negb_false_iff, orb_true_iff, bool_decide_eq_true. split; [by auto|]. by intros H ? [= <-].
Qed.

Lemma plan_gate_spec r e :
  plan_gate r e <-> match r.(aq_feature), e with
    | Some f, Some s => verdict_allowed (check_entitlement s f r.(aq_current_usage) r.(aq_requested_usage)) = true
    | _, _ => True end.
Proof.
  unfold plan_gate. destruct (aq_feature r) as [f|], e as [s|]; split; try (by intros _ ? ?); try done.
  - by auto.
  - by intros H ? ? [= <-] [= <-].
Qed.

(** Every decision, exactly: a request passes when it is authenticated and passes the
    four gates, and a refusal names the first gate it fails. *)
Theorem authorize_exact c r e :
  authorize None r e = DenyUnauthenticated
  /\ (authorize (Some c) r e = DAllow
      <-> resource_gate c r /\ tenant_gate c r /\ permission_gate c r /\ plan_gate r e)
  /\ (authorize (Some c) r e = DenyResource <-> ~ resource_gate c r)
  /\ (authorize (Some c) r e = DenySuspended <-> resource_gate c r /\ ~ tenant_gate c r)
  /\ (authorize (Some c) r e = DenyPermission
      <-> resource_gate c r /\ tenant_gate c r /\ ~ permission_gate c r)
  /\ (authorize (Some c) r e = DenyEntitlement
      <-> resource_gate c r /\ tenant_gate c r /\ permission_gate c r /\ ~ plan_gate r e).
Proof.
  split; [done|]. rewrite (resource_gate_spec c r). unfold authorize.
  destruct (match aq_resource_owner r with Some o => _ | None => false end); cbn [deny].
  { split_and!; split; (done || by intros [? _] || by intros _ ?). }
  unfold tenant_gate, permission_gate. destruct (check_status _ _) as [|td]; cbn [deny].
  2: { split_and!; split; (done || by intros (_ & ? & _) || by intros [] || by intros _; split). }
  unfold ctx_has, set_contains. destruct (decide (aq_permission r ∈ ac_permissions c)) as [Hp|Hp];
    [rewrite bool_decide_eq_true_2 by done | rewrite bool_decide_eq_false_2 by done]; cbn [negb deny].
  2: { split_and!; split; (done || by intros (_ & _ & ? & _) || by intros [_ ?] || by intros [] || by intros _). }
  rewrite plan_gate_spec.
  destruct (aq_feature r) as [f|], e as [s|]; try (split_and!; split; intros; tauto || done).
  destruct (check_entitlement _ _ _ _); cbn; split_and!; naive_solver.
Qed.

(** * Tenants are isolated *)

(** C17: What a caller answers for in another tenant: the answer is the same refusal, 403 and
    worth an audit, whatever the role, the scopes, the state of the tenants, the plan and
    the action; only a platform administrator whose user record says so reaches it, and
    never with a key. *)
Theorem other_tenants_are_out_of_reach p org m role scopes flag by_ now r e owner
    (Ho : r.(aq_resource_owner) = Some owner) (Hne : owner <> org.(og_id)) :
  authorize (Some (from_api_key p org role scopes by_ now)) r e = DenyResource
  /\ (authorize (Some (from_membership p org m scopes flag now)) r e = DenyResource
      <-> ~ (flag = true /\ m.(mb_role) = PlatformAdmin))
  /\ http_status DenyResource = 403 /\ is_security_relevant DenyResource = true.
Proof.
  assert (Hg : forall c, c.(ac_organization_id) = org.(og_id) -> resource_gate c r <-> ctx_platform c = true).
  { intros c Hc. unfold resource_gate. rewrite Ho, Hc. split; [|by intros; right].
    intros H. by destruct (H owner eq_refl). }
  pose proof (fun c => proj1 (proj2 (proj2 (authorize_exact c r e)))) as Hx.
  split_and!; [| |done|done].
  - by rewrite Hx, Hg.
  - rewrite Hx, Hg by done. unfold ctx_platform, role_is_platform. cbn.
    by rewrite andb_true_iff, bool_decide_eq_true.
Qed.

Lemma elem_of_intersect p s t : p ∈ set_intersect s t <-> p ∈ s /\ p ∈ t.
Proof.
  unfold set_intersect, set_contains. rewrite elem_of_permission_set, list_elem_of_filter.
  split; [intros [H ?]; split; [done|by apply bool_decide_unpack in H] | intros [? ?]; split; [by apply bool_decide_pack|done]].
Qed.

(** Scopes take power away and never add it: what a scoped credential may do, the same
    credential without scopes may do, and the scopes name it. *)
Theorem scopes_only_narrow p org m role by_ flag now s r e :
  (authorize (Some (from_membership p org m (Some s) flag now)) r e = DAllow
   <-> authorize (Some (from_membership p org m None flag now)) r e = DAllow /\ r.(aq_permission) ∈ s)
  /\ (authorize (Some (from_api_key p org role (Some s) by_ now)) r e = DAllow
      <-> authorize (Some (from_api_key p org role None by_ now)) r e = DAllow /\ r.(aq_permission) ∈ s).
Proof.
  pose proof (fun c => proj1 (proj2 (authorize_exact c r e))) as Hx. rewrite !Hx. clear Hx.
  unfold resource_gate, tenant_gate, permission_gate, ctx_platform. cbn.
  rewrite !elem_of_intersect. tauto.
Qed.

(** A member who is suspended or removed is allowed nothing, whatever the role. *)
Theorem inactive_members_are_powerless p org m scopes flag now r e (Hm : m.(mb_status) <> MsActive) :
  authorize (Some (from_membership p org m scopes flag now)) r e <> DAllow.
Proof.
  intros (_ & _ & Hp & _)%authorize_exact. unfold permission_gate in Hp. cbn in Hp.
  unfold member_permissions in Hp. destruct (mb_status m); cbn in Hp; [done|..];
    destruct scopes; cbn in Hp; try rewrite elem_of_intersect in Hp; set_solver.
Qed.

(** The state of a tenant: a closed one does nothing; any other reads, pays and reduces its
    risk; only an active or a trial tenant trades or manages. *)
Theorem tenant_matrix s a :
  (check_status s a = TvAllow <->
     s <> OsClosed /\ (a = TaRead \/ a = TaReduceRisk \/ a = TaBilling \/ s = OsActive \/ s = OsTrialing))
  /\ (forall c r e, c.(ac_organization_status) = OsClosed -> authorize (Some c) r e <> DAllow).
Proof.
  split.
  - destruct s, a; cbn; split; intros; try done; intuition (congruence || auto).
  - intros c r e Hc (_ & Ht & _)%authorize_exact. unfold tenant_gate in Ht. by rewrite Hc in Ht.
Qed.

(** The constructor takes the membership, but does not compare its organization with the
    one it builds the context for: the membership in one tenant gives its role in another. *)
Theorem foreign_membership_is_accepted p org m now q r
    (Hne : m.(mb_organization_id) <> org.(og_id)) (Hm : m.(mb_status) = MsActive)
    (Hr : m.(mb_role) = OrgOwner) (Hs : org.(og_status) = OsActive)
    (Hq : r = on_resource org.(og_id) (request_for q WalletManage)) :
  authorize (Some (from_membership p org m None false now)) r None = DAllow.
Proof.
  subst r. apply authorize_exact. unfold resource_gate, tenant_gate, permission_gate, plan_gate. cbn.
  unfold member_permissions. rewrite Hs, Hr, Hm. cbn [member_active]. split_and!.
  - intros o [= <-]. by left.
  - done.
  - apply elem_of_permission_set. set_solver.
  - done.
Qed.

(** Through the deployment role a security administrator becomes a trader, who starts
    modules and moves orders. *)
Theorem security_admin_becomes_operator :
  role_grants SecurityAdmin BotStart = false /\ to_legacy SecurityAdmin = RoOperator
  /\ satisfies (to_legacy SecurityAdmin) RoOperator = true
  /\ role_grants (from_legacy (to_legacy SecurityAdmin)) BotStart = true.
Proof. by vm_compute. Qed.

(** * Keys and the rate limiter *)

Section keys.
Context {libs : LedgerLibs}.

(** A key that was registered answers with the label and role it was given last, until its
    hash is revoked; nothing else changes for a key with another hash. *)
Theorem keys_rotate label k role a other
    (Hk : is_empty (trim k) = false) (Hne : sha256_hex other <> sha256_hex k) :
  authenticate k (add_key label k role a) = Some (mkKeyPrincipal label role (sha256_hex k))
  /\ authenticate other (add_key label k role a) = authenticate other a
  /\ authenticate k (revoke_hash (sha256_hex k) a).2 = None
  /\ authenticate other (revoke_hash (sha256_hex k) a).2 = authenticate other a
  /\ ((revoke_hash (sha256_hex k) a).1 = true <-> authenticate k a <> None).
Proof.
  unfold authenticate, add_key, revoke_hash. cbn. rewrite Hk. split_and!.
  - by rewrite lookup_insert_eq.
  - by rewrite lookup_insert_ne.
  - by rewrite lookup_delete_eq.
  - by rewrite lookup_delete_ne.
  - unfold is_present. by destruct (a !! _).
Qed.
End keys.

(** The requests asked of a limiter, one after the other. *)
Fixpoint limiter_run (asks : list (text * Z)) (l : RateLimiter) : list RateVerdict * RateLimiter :=
  match asks with
  | [] => ([], l)
  | (key, now) :: asks =>
      let '(v, l) := limiter_check key now l in
      let '(vs, l) := limiter_run asks l in (v :: vs, l)
  end.

Definition limiter_ok (l : RateLimiter) : Prop := Z.of_nat (size l.(rl_buckets)) <= l.(rl_max_buckets).

Lemma recently_seen_size now m : (size (recently_seen now m) <= size m)%nat.
Proof. unfold recently_seen. rewrite <- !size_dom. apply subseteq_size, dom_filter_subseteq. Qed.

Lemma size_put cap key b m : table_full cap key m = false -> Z.of_nat (size m) <= cap ->
  Z.of_nat (size (<[key := b]> m)) <= cap.
Proof.
  unfold table_full, is_present. destruct (m !! key) eqn:Hk; cbn; intros Hf Hs.
  - rewrite map_size_insert, Hk; done.
  - rewrite map_size_insert, Hk. apply Z.leb_gt in Hf. lia.
Qed.

Lemma limiter_check_ok key now l : limiter_ok l ->
  limiter_ok (limiter_check key now l).2
  /\ (limiter_check key now l).2.(rl_rpm) = l.(rl_rpm)
  /\ (limiter_check key now l).2.(rl_max_buckets) = l.(rl_max_buckets).
Proof.
  unfold limiter_ok, limiter_check. intros Hl. destruct (rl_rpm l =? 0); [done|].
  set (m := if table_full _ _ _ then _ else _).
  assert (Hm : Z.of_nat (size m) <= rl_max_buckets l).
  { subst m. pose proof (recently_seen_size now (rl_buckets l)). destruct (table_full _ _ _); lia. }
  assert (Hroom : table_full (rl_max_buckets l) key (rl_buckets l) && (rl_max_buckets l <=? Z.of_nat (size m)) = false ->
                  table_full (rl_max_buckets l) key m = false).
  { subst m. destruct (table_full _ key (rl_buckets l)) eqn:Hf; cbn; [|done].
    intros H. unfold table_full. by rewrite H, andb_false_r. }
  destruct (table_full _ key (rl_buckets l) && _) eqn:Hc; cbn; [done|].
  specialize (Hroom eq_refl). case_match; cbn; (split; [by apply size_put|done]).
Qed.

Lemma limiter_run_ok asks : forall l, limiter_ok l ->
  limiter_ok (limiter_run asks l).2
  /\ (limiter_run asks l).2.(rl_max_buckets) = l.(rl_max_buckets)
  /\ (l.(rl_rpm) = 0 -> Forall (eq RvAllowed) (limiter_run asks l).1).
Proof.
  induction asks as [|[key now] asks IH]; intros l Hl; cbn [limiter_run]; [by repeat constructor|].
  pose proof (limiter_check_ok key now l Hl) as (H1 & Hr & Hx).
  assert (H0 : l.(rl_rpm) = 0 -> (limiter_check key now l).1 = RvAllowed).
  { intros H0. unfold limiter_check. by rewrite H0. }
  destruct (limiter_check key now l) as [v l1]. cbn in *.
  specialize (IH l1 H1) as (I1 & I2 & I3). destruct (limiter_run asks l1) as [vs l2]. cbn in *.
  split_and!; [done|congruence|]. intros Hz. constructor; [by rewrite H0|]. apply I3. congruence.
Qed.

(** The table of buckets never outgrows its bound, whatever the keys that knock; a limit of
    zero refuses nobody; and a new key that meets a table full of keys seen within ten
    minutes is turned away without a bucket. *)
Theorem limiter_bounded rpm asks key now :
  let r := limiter_run asks (RateLimiter_new rpm) in
  Z.of_nat (size r.2.(rl_buckets)) <= 10000
  /\ (rpm = 0 -> Forall (eq RvAllowed) r.1)
  /\ (r.2.(rl_rpm) <> 0 -> r.2.(rl_buckets) !! key = None ->
      10000 <= Z.of_nat (size (recently_seen now r.2.(rl_buckets))) ->
      (limiter_check key now r.2).1 = RvLimited 60
      /\ (limiter_check key now r.2).2.(rl_buckets) !! key = None).
Proof.
  cbv zeta. destruct (limiter_run_ok asks (RateLimiter_new rpm)) as (Hs & Hm & Hz); [done|].
  destruct (limiter_run asks (RateLimiter_new rpm)) as [vs l]. cbn in *. unfold limiter_ok in Hs.
  rewrite Hm in Hs. cbn in Hs. split_and!; [done|done|]. intros Hr Hk Hf.
  assert (Hfull : table_full (rl_max_buckets l) key (rl_buckets l) = true).
  { unfold table_full. rewrite Hk, Hm. cbn. apply Z.leb_le.
    pose proof (recently_seen_size now (rl_buckets l)). cbn. lia. }
  unfold limiter_check. rewrite (proj2 (Z.eqb_neq _ _) Hr), Hfull, Hm. cbn.
  rewrite (proj2 (Z.leb_le 10000 _) Hf). cbn. split; [done|].
  unfold recently_seen. by rewrite map_lookup_filter, Hk.
Qed.

(** * Witnesses *)

Definition demo_org (id : Z) (s : OrganizationStatus) : Organization :=
  mkOrganization id (lit "acme") (lit "Acme") s None 0 0 None [].
Definition demo_member (org : Z) (role : MembershipRole) (s : MembershipStatus) : Membership :=
  mkMembership 1 org 7 role s None 0 0.

Lemma duties_are_separated_witness :
  role_grants Trader BotStart = true /\ Trader ∈ [PlatformAdmin; OrgOwner; OrgAdmin; Trader].
Proof.
  split; [by vm_compute|]. destruct (duties_are_separated Trader BotStart) as [H _]; [by vm_compute|].
  by apply H.
Defined.

Lemma other_tenants_are_out_of_reach_witness :
  authorize (Some (from_api_key (LegacyDeploymentKey []) (demo_org 1 OsActive) PlatformAdmin None None 0))
    (on_resource 2 (request_for TaRead BotRead)) None = DenyResource.
Proof.
  refine (proj1 (other_tenants_are_out_of_reach (LegacyDeploymentKey []) (demo_org 1 OsActive)
           (demo_member 1 OrgOwner MsActive) PlatformAdmin None true None 0
           (on_resource 2 (request_for TaRead BotRead)) None 2 eq_refl _)).
  cbn. lia.
Defined.

Lemma inactive_members_are_powerless_witness :
  authorize (Some (from_membership (LegacyDeploymentKey []) (demo_org 1 OsActive)
                     (demo_member 1 OrgOwner MsSuspended) None true 0)) (request_for TaRead BotRead) None <> DAllow.
Proof.
  apply (inactive_members_are_powerless (LegacyDeploymentKey []) (demo_org 1 OsActive)
           (demo_member 1 OrgOwner MsSuspended) None true 0 (request_for TaRead BotRead) None). done.
Defined.

Lemma foreign_membership_is_accepted_witness :
  authorize (Some (from_membership (LegacyDeploymentKey []) (demo_org 1 OsActive)
                     (demo_member 2 OrgOwner MsActive) None false 0))
    (on_resource 1 (request_for TaManage WalletManage)) None = DAllow.
Proof.
  apply (foreign_membership_is_accepted (LegacyDeploymentKey []) (demo_org 1 OsActive)
           (demo_member 2 OrgOwner MsActive) 0 TaManage (on_resource 1 (request_for TaManage WalletManage))); done.
Defined.

Definition plain_libs : LedgerLibs :=
  {| sha256_hex := fun t => t; format_day := fun _ => []; datetime_max := 0 |}.

Lemma keys_rotate_witness :
  authenticate (libs := plain_libs) (lit "k") (add_key (libs := plain_libs) (lit "ops") (lit "k") RoOperator ∅)
  = Some (mkKeyPrincipal (lit "ops") RoOperator (lit "k")).
Proof.
  apply (keys_rotate (libs := plain_libs) (lit "ops") (lit "k") RoOperator ∅ (lit "j")); [reflexivity|discriminate].
Defined.
