(* ===== verification/TenantRuntime.v ===== *)
(** The runtimes of the tenants ([crates/server/src/runtime_registry/],
    [crates/core/src/tenant/runtime_generation.rs]): which process executes for a tenant,
    its lease, the token it is fenced by, and the reaper.  The store is the one in memory;
    the PostgreSQL store states the same contract in SQL.  Identifiers are the number of
    their UUID, a fresh one is a parameter; times and durations are in nanoseconds. *)
From stdpp Require Import prelude countable gmap list relations strings.
From Stdlib Require Import ZArith Lia.
From S2P Require Import Prelude.
From S2P Require Import Text.
From S2P Require Import Ownership.
From S2P Require Import Plans.

#[local] Open Scope Z_scope.

(** * Generations *)

Definition FIRST_GENERATION : Z := 1.

(** [RuntimeGeneration::from_raw] of a [u64], and [from_i64]. *)
Definition generation_from_raw (raw : Z) : option Z := if FIRST_GENERATION <=? raw then Some raw else None.
Definition generation_from_i64 (v : Z) : option Z := if v <? 0 then None else generation_from_raw v.
Definition generation_to_i64 (g : Z) : option Z := if g <=? i64_max then Some g else None.

Definition generation_next (g : Z) : option Z :=
  n ← checked_add u64_max g 1; m ← generation_from_raw n; if is_present (generation_to_i64 m) then Some m else None.

(** [raw as i64]. *)
Definition raw_as_i64 (g : Z) : Z := if g <=? i64_max then g else g - 2 ^ 64.

Inductive FenceOrdering : Type := FoStale | FoCurrent | FoAhead.

Definition compare_for_fence (claimed current : Z) : FenceOrdering :=
  match claimed ?= current with Lt => FoStale | Eq => FoCurrent | Gt => FoAhead end.

Definition fence_authorizes (o : FenceOrdering) : bool := match o with FoCurrent => true | _ => false end.

(** * Runtimes and their lease *)

Inductive RuntimeStatus : Type := RtProvisioning | RtActive | RtDraining | RtStopped | RtRetired.

#[export] Instance RuntimeStatus_eq_dec : EqDecision RuntimeStatus.
Proof. solve_decision. Defined.

Definition runtime_live (s : RuntimeStatus) : bool := match s with RtProvisioning | RtActive => true | _ => false end.
Definition runtime_terminal (s : RuntimeStatus) : bool := match s with RtStopped | RtRetired => true | _ => false end.

Record TenantRuntimeRecord : Type := mkTenantRuntimeRecord {
  rt_runtime_id : Z;
  rt_organization_id : Z;
  rt_generation : Z;
  rt_status : RuntimeStatus;
  rt_worker_id : text;
  rt_started_at : Z;
  rt_heartbeat_at : Z;
  rt_lease_expires_at : option Z;
  rt_stopped_at : option Z;
}.

#[export] Instance TenantRuntimeRecord_eq_dec : EqDecision TenantRuntimeRecord.
Proof. solve_decision. Defined.

Definition new_active (organization_id runtime_id generation : Z) (worker_id : text) (now : Z) : TenantRuntimeRecord :=
  mkTenantRuntimeRecord runtime_id organization_id generation RtActive worker_id now now None None.

Definition is_heartbeat_fresh (now max_age : Z) (r : TenantRuntimeRecord) : bool :=
  now - r.(rt_heartbeat_at) <=? max_age.

Definition is_lease_live (now : Z) (r : TenantRuntimeRecord) : bool :=
  match r.(rt_lease_expires_at) with Some t => now <? t | None => true end.

Record FenceToken : Type := mkFenceToken { ft_organization_id : Z; ft_runtime_id : Z; ft_generation : Z }.

Definition runtime_token (r : TenantRuntimeRecord) : FenceToken :=
  mkFenceToken r.(rt_organization_id) r.(rt_runtime_id) r.(rt_generation).

Record LeasePolicy : Type := mkLeasePolicy {
  lp_heartbeat_interval : Z;
  lp_stale_after : Z;
  lp_lease_length : Z;
}.

Definition LeasePolicy_default : LeasePolicy := mkLeasePolicy (15 * SECOND) (90 * SECOND) (120 * SECOND).

Inductive LeaseVerdict : Type := LvLive | LvNotLiveStatus (s : RuntimeStatus) | LvHeartbeatStale | LvLeaseExpired.

Definition lease_is_live (v : LeaseVerdict) : bool := match v with LvLive => true | _ => false end.

(** [lease::evaluate]. *)
Definition evaluate_lease (policy : LeasePolicy) (now : Z) (r : TenantRuntimeRecord) : LeaseVerdict :=
  if negb (runtime_live r.(rt_status)) then LvNotLiveStatus r.(rt_status)
  else if negb (is_heartbeat_fresh now policy.(lp_stale_after) r) then LvHeartbeatStale
  else if negb (is_lease_live now r) then LvLeaseExpired
  else LvLive.

(** * The store ([MemoryRuntimeStore]) *)

Definition live_of (organization : Z) (r : TenantRuntimeRecord) : Prop :=
  r.(rt_organization_id) = organization /\ runtime_live r.(rt_status) = true.

#[export] Instance live_of_dec o r : Decision (live_of o r).
Proof. unfold live_of. apply _. Defined.

(** [insert]: refused when the tenant has another live runtime. *)
Definition runtime_insert (r : TenantRuntimeRecord) (rows : list TenantRuntimeRecord)
    : outcome unit unit * list TenantRuntimeRecord :=
  if existsb (fun x => bool_decide (x.(rt_organization_id) = r.(rt_organization_id))
                       && runtime_live x.(rt_status) && runtime_live r.(rt_status)
                       && negb (bool_decide (x.(rt_runtime_id) = r.(rt_runtime_id)))) rows
  then (Err tt, rows) else (Ok tt, rows ++ [r]).

(** [Iterator::max_by_key]: of equal keys the last. *)
Definition newer_runtime (best : option TenantRuntimeRecord) (r : TenantRuntimeRecord) : option TenantRuntimeRecord :=
  match best with
  | Some b => if b.(rt_generation) <=? r.(rt_generation) then Some r else best
  | None => Some r
  end.

Definition live_for (organization : Z) (rows : list TenantRuntimeRecord) : option TenantRuntimeRecord :=
  foldl newer_runtime None (filter (live_of organization) rows).

(** One row of the vector changed in place: the first with the identifier. *)
Fixpoint update_runtime (id : Z) (f : TenantRuntimeRecord -> TenantRuntimeRecord) (rows : list TenantRuntimeRecord)
    : list TenantRuntimeRecord :=
  match rows with
  | [] => []
  | r :: rows => if decide (r.(rt_runtime_id) = id) then f r :: rows else r :: update_runtime id f rows
  end.

Definition runtime_get (id : Z) (rows : list TenantRuntimeRecord) : option TenantRuntimeRecord :=
  snd <$> list_find (fun r => r.(rt_runtime_id) = id) rows.

Definition with_heartbeat (now : Z) (r : TenantRuntimeRecord) : TenantRuntimeRecord :=
  mkTenantRuntimeRecord r.(rt_runtime_id) r.(rt_organization_id) r.(rt_generation) r.(rt_status) r.(rt_worker_id)
    r.(rt_started_at) now r.(rt_lease_expires_at) r.(rt_stopped_at).

Definition with_runtime_status (s : RuntimeStatus) (stopped : option Z) (r : TenantRuntimeRecord)
    : TenantRuntimeRecord :=
  mkTenantRuntimeRecord r.(rt_runtime_id) r.(rt_organization_id) r.(rt_generation) s r.(rt_worker_id)
    r.(rt_started_at) r.(rt_heartbeat_at) r.(rt_lease_expires_at) stopped.

Definition runtime_heartbeat (id now : Z) (rows : list TenantRuntimeRecord) : bool * list TenantRuntimeRecord :=
  match runtime_get id rows with
  | Some r => if runtime_live r.(rt_status) then (true, update_runtime id (with_heartbeat now) rows) else (false, rows)
  | None => (false, rows)
  end.

(** Terminal statuses stick. *)
Definition restatus (s : RuntimeStatus) (now : Z) (r : TenantRuntimeRecord) : TenantRuntimeRecord :=
  if runtime_terminal r.(rt_status) then r
  else with_runtime_status s (if runtime_terminal s then Some now else r.(rt_stopped_at)) r.

Definition runtime_set_status (id : Z) (s : RuntimeStatus) (now : Z) (rows : list TenantRuntimeRecord)
    : list TenantRuntimeRecord := update_runtime id (restatus s now) rows.

Definition max_of (zs : list Z) : option Z := foldl (fun m z => Some (from_option (Z.max z) z m)) None zs.

Definition generations_of (organization : Z) (rows : list TenantRuntimeRecord) : list Z :=
  map rt_generation (filter (fun r => r.(rt_organization_id) = organization) rows).

Definition max_generation (organization : Z) (rows : list TenantRuntimeRecord) : option Z :=
  max_of (generations_of organization rows).

(** [RuntimeStore::next_generation]. *)
Definition next_generation_of (organization : Z) (rows : list TenantRuntimeRecord) : Z :=
  match max_generation organization rows with
  | None => FIRST_GENERATION
  | Some m => default FIRST_GENERATION (generation_next m)
  end.

Definition stop_live (organization now : Z) (r : TenantRuntimeRecord) : TenantRuntimeRecord :=
  if decide (live_of organization r) then with_runtime_status RtStopped (Some now) r else r.

(** The generation a rotation gives. *)
Definition rotated_generation (organization : Z) (rows : list TenantRuntimeRecord) : Z :=
  default FIRST_GENERATION
    (g ← generation_from_i64 (default 0 (max_of (map raw_as_i64 (generations_of organization rows))));
     generation_next g).

Definition runtime_rotate (organization new_id : Z) (worker : text) (now : Z) (rows : list TenantRuntimeRecord)
    : TenantRuntimeRecord * list TenantRuntimeRecord :=
  let rows := map (stop_live organization now) rows in
  let r := new_active organization new_id (rotated_generation organization rows) worker now in
  (r, rows ++ [r]).

Definition stale_since (cutoff : Z) (rows : list TenantRuntimeRecord) : list TenantRuntimeRecord :=
  filter (fun r => runtime_live r.(rt_status) = true /\ r.(rt_heartbeat_at) < cutoff) rows.

(** * The service *)

Definition current_runtime (policy : LeasePolicy) (now organization : Z) (rows : list TenantRuntimeRecord)
    : option TenantRuntimeRecord :=
  match live_for organization rows with
  | Some r => if lease_is_live (evaluate_lease policy now r) then Some r else None
  | None => None
  end.

Inductive EnsureOutcome : Type := EnRegistered (r : TenantRuntimeRecord) | EnRotated (r : TenantRuntimeRecord).

Definition ensured (o : EnsureOutcome) : TenantRuntimeRecord := match o with EnRegistered r | EnRotated r => r end.

(** [RuntimeRegistryService::ensure_active]. *)
Definition ensure_active (policy : LeasePolicy) (organization new_id : Z) (worker : text) (now : Z)
    (rows : list TenantRuntimeRecord) : outcome unit EnsureOutcome * list TenantRuntimeRecord :=
  match live_for organization rows with
  | None =>
      let r := new_active organization new_id (next_generation_of organization rows) worker now in
      match runtime_insert r rows with
      | (Ok _, rows) => (Ok (EnRegistered r), rows)
      | (_, rows) => (Err tt, rows)
      end
  | Some x =>
      if bool_decide (x.(rt_worker_id) = worker) || negb (is_heartbeat_fresh now policy.(lp_stale_after) x)
      then let '(r, rows) := runtime_rotate organization new_id worker now rows in (Ok (EnRotated r), rows)
      else (Err tt, rows)
  end.

Definition drain (id now : Z) (rows : list TenantRuntimeRecord) : list TenantRuntimeRecord :=
  runtime_set_status id RtDraining now rows.
Definition stop_runtime (id now : Z) (rows : list TenantRuntimeRecord) : list TenantRuntimeRecord :=
  runtime_set_status id RtStopped now rows.

Inductive FenceVerdict : Type :=
  | FvCurrent (r : TenantRuntimeRecord)
  | FvSuperseded (claimed : FenceToken) (current : Z)
  | FvStaleGeneration (claimed current : Z)
  | FvNoLiveRuntime (organization : Z)
  | FvNotLeaseLive (v : LeaseVerdict).

(** [fencing::verify_with_policy]. *)
Definition verify_fence (policy : LeasePolicy) (now : Z) (claimed : FenceToken) (rows : list TenantRuntimeRecord)
    : FenceVerdict :=
  match live_for claimed.(ft_organization_id) rows with
  | None => FvNoLiveRuntime claimed.(ft_organization_id)
  | Some c =>
      let lease := evaluate_lease policy now c in
      if negb (lease_is_live lease) then FvNotLeaseLive lease
      else if decide (c.(rt_runtime_id) <> claimed.(ft_runtime_id)) then FvSuperseded claimed c.(rt_runtime_id)
      else if decide (c.(rt_generation) <> claimed.(ft_generation))
      then FvStaleGeneration claimed.(ft_generation) c.(rt_generation)
      else FvCurrent c
  end.

Definition is_current (v : FenceVerdict) : bool := match v with FvCurrent _ => true | _ => false end.

(** [reap_stale]: the store in memory never refuses the status. *)
Definition reap_stale (policy : LeasePolicy) (now : Z) (rows : list TenantRuntimeRecord)
    : list TenantRuntimeRecord * list TenantRuntimeRecord :=
  let stale := stale_since (now - policy.(lp_stale_after)) rows in
  (stale, foldl (fun rows r => stop_runtime r.(rt_runtime_id) now rows) rows stale).

Record ReaperReport : Type := mkReaperReport { rr_swept : nat; rr_reaped : nat; rr_failed : nat; rr_at : Z }.

(** [reaper::reap_once_at]. *)
Definition reap_once (policy : LeasePolicy) (now : Z) (rows : list TenantRuntimeRecord)
    : ReaperReport * list TenantRuntimeRecord :=
  match stale_since (now - policy.(lp_stale_after)) rows with
  | [] => (mkReaperReport 0 0 0 now, rows)
  | stale =>
      let '(reaped, rows') := reap_stale policy now rows in
      let failed := filter (fun r => r.(rt_runtime_id) ∉ map rt_runtime_id reaped) stale in
      (mkReaperReport (length stale) (length reaped) (length failed) now, rows')
  end.

(** * One live runtime for a tenant *)

(** The identifiers differ, and so do the generations of a tenant; its live runtime is
    alone and has the highest of them. *)
Record runtimes_ok (rows : list TenantRuntimeRecord) : Prop := {
  ro_ids : NoDup (map rt_runtime_id rows);
  ro_range : forall r, r ∈ rows -> 1 <= r.(rt_generation) <= i64_max;
  ro_newest : forall r x, r ∈ rows -> x ∈ rows -> r.(rt_organization_id) = x.(rt_organization_id) ->
    runtime_live r.(rt_status) = true ->
    x = r \/ (x.(rt_generation) < r.(rt_generation) /\ runtime_live x.(rt_status) = false);
}.

(** No tenant has used up the generations of an [i64]. *)
Definition generations_left (rows : list TenantRuntimeRecord) : Prop :=
  forall r, r ∈ rows -> r.(rt_generation) < i64_max.

(** What the service does to the store; a new identifier is one that no row has. *)
Inductive registry_step (policy : LeasePolicy) : list TenantRuntimeRecord -> list TenantRuntimeRecord -> Prop :=
  | rs_ensure organization id worker now rows :
      id ∉ map rt_runtime_id rows -> generations_left rows ->
      registry_step policy rows (ensure_active policy organization id worker now rows).2
  | rs_rotate organization id worker now rows :
      id ∉ map rt_runtime_id rows -> generations_left rows ->
      registry_step policy rows (runtime_rotate organization id worker now rows).2
  | rs_heartbeat id now rows : registry_step policy rows (runtime_heartbeat id now rows).2
  | rs_drain id now rows : registry_step policy rows (drain id now rows)
  | rs_stop id now rows : registry_step policy rows (stop_runtime id now rows)
  | rs_reap now rows : registry_step policy rows (reap_once policy now rows).2.

(** A row stays the same runtime, and what is not live stays so. *)
Definition row_kept (r r' : TenantRuntimeRecord) : Prop :=
  r'.(rt_runtime_id) = r.(rt_runtime_id) /\ r'.(rt_organization_id) = r.(rt_organization_id)
  /\ r'.(rt_generation) = r.(rt_generation)
  /\ (runtime_live r'.(rt_status) = true -> runtime_live r.(rt_status) = true).

Lemma row_kept_refl r : row_kept r r.
Proof. by repeat split. Qed.

Lemma row_kept_trans a b c : row_kept a b -> row_kept b c -> row_kept a c.
Proof. unfold row_kept. intros (? & ? & ? & ?) (? & ? & ? & ?). repeat split; (congruence || auto). Qed.

Lemma rows_kept_refl rows : Forall2 row_kept rows rows.
Proof. induction rows; constructor; [apply row_kept_refl|done]. Qed.

Lemma rows_kept_trans a b : Forall2 row_kept a b -> forall c, Forall2 row_kept b c -> Forall2 row_kept a c.
Proof.
  induction 1; inversion 1; subst; constructor; eauto using row_kept_trans.
Qed.

Lemma update_kept id f rows : (forall r, row_kept r (f r)) -> Forall2 row_kept rows (update_runtime id f rows).
Proof.
  intros Hf. induction rows as [|r rows IH]; cbn; [constructor|].
  case_decide; (constructor; [done || apply row_kept_refl|done || apply rows_kept_refl]).
Qed.

Lemma restatus_kept s now r : runtime_live s = false -> row_kept r (restatus s now r).
Proof.
  intros Hs. unfold restatus, row_kept. destruct (runtime_terminal (rt_status r)); [done|]. cbn.
  repeat split. by rewrite Hs.
Qed.

Lemma stop_live_kept organization now r : row_kept r (stop_live organization now r).
Proof. unfold stop_live. case_decide; [by repeat split|apply row_kept_refl]. Qed.

Lemma stops_kept now ids : forall rows,
  Forall2 row_kept rows (foldl (fun rows r => stop_runtime r.(rt_runtime_id) now rows) rows ids).
Proof.
  induction ids as [|i ids IH]; intros rows; cbn; [apply rows_kept_refl|].
  eapply rows_kept_trans; [|apply IH].
  apply update_kept. intros. by apply restatus_kept.
Qed.

Lemma reap_once_rows policy now rows : (reap_once policy now rows).2 = (reap_stale policy now rows).2.
Proof. unfold reap_once, reap_stale. by destruct (stale_since _ _). Qed.

Lemma kept_ids rows rows' : Forall2 row_kept rows rows' -> map rt_runtime_id rows' = map rt_runtime_id rows.
Proof. induction 1 as [|? ? ? ? (He & _) ? IH]; cbn; congruence. Qed.

Lemma kept_elem rows rows' r' : Forall2 row_kept rows rows' -> r' ∈ rows' -> exists r, r ∈ rows /\ row_kept r r'.
Proof.
  intros H (i & Hi)%list_elem_of_lookup. destruct (Forall2_lookup_r _ _ _ _ _ H Hi) as (r & Hr & Hk).
  exists r. split; [by eapply list_elem_of_lookup_2|done].
Qed.

Lemma id_unique rows r x : NoDup (map rt_runtime_id rows) -> r ∈ rows -> x ∈ rows ->
  r.(rt_runtime_id) = x.(rt_runtime_id) -> r = x.
Proof.
  intros Hn (i & Hi)%list_elem_of_lookup (j & Hj)%list_elem_of_lookup He.
  assert (i = j) as ->; [|congruence].
  apply (NoDup_lookup _ i j (rt_runtime_id x) Hn); rewrite list_lookup_fmap, ?Hi, ?Hj; cbn; congruence.
Qed.

Lemma kept_ok rows rows' : Forall2 row_kept rows rows' -> runtimes_ok rows -> runtimes_ok rows'.
Proof.
  intros Hk [Hi Hr Hn]. assert (Hi' : NoDup (map rt_runtime_id rows')) by by rewrite (kept_ids _ _ Hk).
  split; [done| |].
  - intros r' (r & Hin & _ & _ & -> & _)%(kept_elem _ _ _ Hk). by apply Hr.
  - intros r' x' Hr' Hx' Ho Hl.
    destruct (kept_elem _ _ _ Hk Hr') as (r & Hrin & Hrid & Hro & Hrg & Hrl).
    destruct (kept_elem _ _ _ Hk Hx') as (x & Hxin & Hxid & Hxo & Hxg & Hxl).
    destruct (Hn r x Hrin Hxin ltac:(congruence) (Hrl Hl)) as [->|[Hg Hnl]].
    + left. apply (id_unique rows'); [done..|congruence].
    + right. split; [congruence|]. destruct (runtime_live (rt_status x')) eqn:He; [|done]. by rewrite Hxl in Hnl.
Qed.

Lemma max_of_spec zs : match max_of zs with
  | None => zs = []
  | Some m => m ∈ zs /\ Forall (fun z => z <= m) zs
  end.
Proof.
  induction zs as [|z zs IH] using rev_ind; [done|]. unfold max_of in *. rewrite foldl_app. cbn.
  destruct (foldl _ None zs) as [m|]; cbn.
  - destruct IH as [Hm Hall]. split.
    + destruct (Z.max_spec z m) as [[_ ->]|[_ ->]]; set_solver.
    + apply Forall_app. split; [|repeat constructor; lia]. eapply Forall_impl; [exact Hall|]. cbn. lia.
  - subst zs. cbn. split; [set_solver|repeat constructor; lia].
Qed.

Lemma elem_of_generations o rows g :
  g ∈ generations_of o rows <-> exists r, r ∈ rows /\ r.(rt_organization_id) = o /\ r.(rt_generation) = g.
Proof. unfold generations_of. rewrite list_elem_of_fmap. setoid_rewrite list_elem_of_filter. naive_solver. Qed.

Lemma generation_next_small g : 1 <= g < i64_max -> generation_next g = Some (g + 1).
Proof.
  intros Hg. unfold generation_next. rewrite checked_add_fits by (unfold u64_max, i64_max in *; lia). cbn.
  unfold generation_from_raw, FIRST_GENERATION, generation_to_i64.
  rewrite (proj2 (Z.leb_le 1 _)) by lia. cbn. by rewrite (proj2 (Z.leb_le _ i64_max)) by lia.
Qed.

(** The next generation is above every one the tenant has had. *)
Lemma next_generation_spec o rows : (forall r, r ∈ rows -> 1 <= r.(rt_generation) < i64_max) ->
  1 <= next_generation_of o rows <= i64_max
  /\ (forall r, r ∈ rows -> r.(rt_organization_id) = o -> r.(rt_generation) < next_generation_of o rows).
Proof.
  intros Hr. unfold next_generation_of, max_generation. pose proof (max_of_spec (generations_of o rows)) as Hm.
  destruct (max_of _) as [m|].
  - destruct Hm as [Hin Hall]. apply elem_of_generations in Hin as (x & Hx & _ & <-).
    specialize (Hr x Hx). rewrite generation_next_small by lia. cbn. split; [lia|].
    intros r Hin Ho. rewrite Forall_forall in Hall.
    specialize (Hall (rt_generation r) ltac:(apply elem_of_generations; eauto)). lia.
  - split; [unfold FIRST_GENERATION, i64_max; lia|]. intros r Hin Ho.
    assert (rt_generation r ∈ generations_of o rows) as Hg by (apply elem_of_generations; eauto).
    rewrite Hm in Hg. by apply not_elem_of_nil in Hg.
Qed.

Lemma rotated_generation_eq o rows : (forall r, r ∈ rows -> 1 <= r.(rt_generation) < i64_max) ->
  rotated_generation o rows = next_generation_of o rows.
Proof.
  intros Hr. unfold rotated_generation, next_generation_of, max_generation.
  assert (map raw_as_i64 (generations_of o rows) = generations_of o rows) as ->.
  { rewrite <- (list_fmap_id (generations_of o rows)) at 2. apply list_fmap_ext. intros i g Hg%list_elem_of_lookup_2.
    apply elem_of_generations in Hg as (r & Hin & _ & <-). unfold raw_as_i64.
    specialize (Hr r Hin). by rewrite (proj2 (Z.leb_le _ i64_max)) by lia. }
  pose proof (max_of_spec (generations_of o rows)) as Hm. destruct (max_of _) as [m|]; [|done].
  destruct Hm as [(x & Hx & _ & <-)%elem_of_generations _]. specialize (Hr x Hx). cbn.
  unfold generation_from_i64, generation_from_raw, FIRST_GENERATION.
  rewrite (proj2 (Z.ltb_ge _ 0)), (proj2 (Z.leb_le 1 _)) by lia. done.
Qed.

Lemma newest_spec rs : match foldl newer_runtime None rs with
  | None => rs = []
  | Some r => r ∈ rs
  end.
Proof.
  induction rs as [|r rs IH] using rev_ind; [done|]. rewrite foldl_app. cbn.
  destruct (foldl _ None rs) as [b|]; cbn; [|set_solver]. destruct (_ <=? _); set_solver.
Qed.

Lemma live_for_spec o rows : match live_for o rows with
  | None => forall r, r ∈ rows -> ~ live_of o r
  | Some r => r ∈ rows /\ live_of o r
  end.
Proof.
  unfold live_for. pose proof (newest_spec (filter (live_of o) rows)) as H. destruct (foldl _ _ _) as [r|].
  - by apply list_elem_of_filter in H as [? ?].
  - intros r Hr Hl. assert (r ∈ filter (live_of o) rows) as Hf by by apply list_elem_of_filter.
    rewrite H in Hf. by apply not_elem_of_nil in Hf.
Qed.

Lemma append_ok rows r : runtimes_ok rows -> r.(rt_runtime_id) ∉ map rt_runtime_id rows ->
  1 <= r.(rt_generation) <= i64_max ->
  (forall x, x ∈ rows -> x.(rt_organization_id) = r.(rt_organization_id) ->
     x.(rt_generation) < r.(rt_generation) /\ runtime_live x.(rt_status) = false) ->
  runtimes_ok (rows ++ [r]).
Proof.
  intros [Hi Hr Hn] Hid Hg Hold. split.
  - rewrite map_app. apply NoDup_app. split_and!; [done| |apply NoDup_singleton]. set_solver.
  - intros x [Hx| ->%list_elem_of_singleton]%elem_of_app; [by apply Hr|done].
  - intros a x [Ha| ->%list_elem_of_singleton]%elem_of_app [Hx| ->%list_elem_of_singleton]%elem_of_app Ho Hl.
    + by apply Hn.
    + destruct (Hold a Ha Ho) as [_ Hd]. congruence.
    + right. by apply Hold.
    + by left.
Qed.

(** The vector after a step: the rows there were, kept, and at most a new one. *)
Definition grown (rows rows' : list TenantRuntimeRecord) : Prop :=
  exists kept new, Forall2 row_kept rows kept /\ rows' = kept ++ new
    /\ Forall (fun r => r.(rt_runtime_id) ∉ map rt_runtime_id rows) new.

Lemma kept_grown rows rows' : Forall2 row_kept rows rows' -> grown rows rows'.
Proof. intros H. exists rows', []. by rewrite app_nil_r. Qed.

Lemma kept_range rows rows' : Forall2 row_kept rows rows' ->
  (forall r, r ∈ rows -> 1 <= r.(rt_generation) < i64_max) -> forall r, r ∈ rows' -> 1 <= r.(rt_generation) < i64_max.
Proof. intros Hk H r' (r & Hr & _ & _ & -> & _)%(kept_elem _ _ _ Hk). by apply H. Qed.

Lemma stop_live_rows o now rows : Forall2 row_kept rows (map (stop_live o now) rows).
Proof. induction rows; cbn; constructor; [apply stop_live_kept|done]. Qed.

Lemma stopped_not_live o now rows r : r ∈ map (stop_live o now) rows -> ~ live_of o r.
Proof.
  intros (x & -> & _)%list_elem_of_fmap. unfold stop_live. case_decide as Hd; [|done]. by intros [_ [=]].
Qed.

Section rotation.
Context (rows : list TenantRuntimeRecord) (Hok : runtimes_ok rows) (Hleft : generations_left rows).

Lemma small_range r : r ∈ rows -> 1 <= r.(rt_generation) < i64_max.
Proof. intros Hr. pose proof (ro_range _ Hok r Hr). specialize (Hleft r Hr). lia. Qed.

Lemma rotate_grows o id worker now : id ∉ map rt_runtime_id rows ->
  let r := runtime_rotate o id worker now rows in
  runtimes_ok r.2 /\ grown rows r.2 /\ r.1 ∈ r.2 /\ r.1 = new_active o id r.1.(rt_generation) worker now
  /\ (forall x, x ∈ rows -> x.(rt_organization_id) = o -> x.(rt_generation) < r.1.(rt_generation)).
Proof.
  intros Hid. unfold runtime_rotate. cbn [fst snd]. set (kept := map (stop_live o now) rows).
  pose proof (stop_live_rows o now rows : Forall2 row_kept rows kept) as Hk.
  assert (Hs : forall r, r ∈ kept -> 1 <= r.(rt_generation) < i64_max) by by eapply kept_range; [|apply small_range].
  rewrite (rotated_generation_eq o kept Hs). destruct (next_generation_spec o kept Hs) as [Hg Hnew].
  set (g := next_generation_of o kept) in *. split_and!.
  - apply append_ok; cbn; [by eapply kept_ok|by rewrite (kept_ids _ _ Hk)|done|].
    intros x Hx Ho. split; [by apply Hnew|]. destruct (runtime_live (rt_status x)) eqn:Hl; [|done].
    by destruct (stopped_not_live o now rows x Hx).
  - exists kept, [new_active o id g worker now]. split_and!; [done|done|by repeat constructor].
  - set_solver.
  - done.
  - cbn. intros x Hx Ho. destruct (proj1 (list_elem_of_lookup rows x) Hx) as [i Hi].
    destruct (Forall2_lookup_l _ _ _ _ _ Hk Hi) as (y & Hy & _ & Hyo & <- & _).
    apply Hnew; [by eapply list_elem_of_lookup_2|congruence].
Qed.

Lemma ensure_grows policy o id worker now : id ∉ map rt_runtime_id rows ->
  let r := ensure_active policy o id worker now rows in
  runtimes_ok r.2 /\ grown rows r.2
  /\ match r.1 with
     | Ok e => ensured e ∈ r.2 /\ ensured e = new_active o id (ensured e).(rt_generation) worker now
         /\ (forall x, x ∈ rows -> x.(rt_organization_id) = o -> x.(rt_generation) < (ensured e).(rt_generation))
     | _ => r.2 = rows
     end.
Proof.
  intros Hid. unfold ensure_active. pose proof (live_for_spec o rows) as Hl. destruct (live_for o rows) as [x|].
  - destruct (_ || _).
    + pose proof (rotate_grows o id worker now Hid) as H. destruct (runtime_rotate _ _ _ _ _) as [r rows'].
      cbn [fst snd ensured] in *. destruct H as (? & ? & ? & ? & ?). by split_and!.
    + cbn. split_and!; [done|apply kept_grown, rows_kept_refl|done].
  - set (r := new_active _ _ _ _ _). destruct (next_generation_spec o rows small_range) as [Hg Hnew].
    assert (Hfree : forall y, y ∈ rows -> y.(rt_organization_id) = o -> runtime_live y.(rt_status) = false).
    { intros y Hy Ho. destruct (runtime_live (rt_status y)) eqn:He; [|done]. by destruct (Hl y Hy). }
    unfold runtime_insert. assert (existsb _ rows = false) as ->.
    { apply not_true_is_false. intros (y & Hy & Hb)%existsb_exists.
      apply list_elem_of_In in Hy. rewrite !andb_true_iff, bool_decide_eq_true in Hb. destruct Hb as [[[Ho He] _] _].
      by rewrite (Hfree y Hy Ho) in He. }
    cbn [fst snd ensured]. split_and!; [| |set_solver|done|done].
    + apply append_ok; [done..|]. intros y Hy Ho. split; [by apply Hnew|by apply Hfree].
    + exists rows, [r]. split_and!; [apply rows_kept_refl|done|by repeat constructor].
Qed.
End rotation.

Lemma registry_step_ok policy rows rows' : registry_step policy rows rows' -> runtimes_ok rows ->
  runtimes_ok rows' /\ grown rows rows'.
Proof.
  assert (Hkeep : forall rows rows', Forall2 row_kept rows rows' -> runtimes_ok rows -> runtimes_ok rows' /\ grown rows rows')
    by (intros ? ? ? ?; split; [by eapply kept_ok|by apply kept_grown]).
  destruct 1 as [o id worker now rows Hid Hl|o id worker now rows Hid Hl|id now rows|id now rows|id now rows|now rows];
    intros Hok.
  - pose proof (ensure_grows rows Hok Hl policy o id worker now Hid) as (? & ? & _). done.
  - pose proof (rotate_grows rows Hok Hl o id worker now Hid) as (? & ? & _). done.
  - apply Hkeep; [|done]. unfold runtime_heartbeat. destruct (runtime_get id rows) as [r|]; [|apply rows_kept_refl].
    destruct (runtime_live _); [|apply rows_kept_refl]. apply update_kept. by repeat split.
  - apply Hkeep; [|done]. apply update_kept. intros. by apply restatus_kept.
  - apply Hkeep; [|done]. apply update_kept. intros. by apply restatus_kept.
  - apply Hkeep; [|done]. rewrite reap_once_rows. apply stops_kept.
Qed.

Lemma registry_empty_ok : runtimes_ok [].
Proof. split; [constructor|by intros r ?%not_elem_of_nil|by intros r x ?%not_elem_of_nil]. Qed.

Lemma registry_run_ok policy rows rows' : rtc (registry_step policy) rows rows' -> runtimes_ok rows -> runtimes_ok rows'.
Proof. induction 1 as [|x y z Hs _ IH]; [done|]. intros Hx. apply IH. by apply (registry_step_ok policy x y). Qed.

Lemma live_for_unique o rows r : runtimes_ok rows -> r ∈ rows -> live_of o r -> live_for o rows = Some r.
Proof.
  intros Hok Hr [Ho Hl]. pose proof (live_for_spec o rows) as H. destruct (live_for o rows) as [x|].
  - destruct H as [Hx [Hxo Hxl]]. destruct (ro_newest _ Hok r x Hr Hx ltac:(congruence) Hl) as [->|[_ Hd]]; [done|congruence].
  - by destruct (H r Hr).
Qed.

Lemma evaluate_live policy now r : evaluate_lease policy now r = LvLive -> runtime_live r.(rt_status) = true.
Proof. unfold evaluate_lease. by destruct (runtime_live _). Qed.

Lemma fence_iff policy now tok rows r : runtimes_ok rows ->
  verify_fence policy now tok rows = FvCurrent r
  <-> r ∈ rows /\ runtime_token r = tok /\ evaluate_lease policy now r = LvLive.
Proof.
  intros Hok. destruct tok as [o id g]. unfold verify_fence, runtime_token. cbn. split.
  - pose proof (live_for_spec o rows) as Hf. destruct (live_for o rows) as [c|]; [|done].
    destruct (lease_is_live _) eqn:He; cbn; [|done].
    destruct (decide (_ <> _)) as [|Hi]; [done|]. destruct (decide (_ <> _)) as [|Hg]; [done|].
    intros [= <-]. destruct Hf as [Hc [Ho _]]. apply dec_stable in Hi, Hg. split_and!; [done|congruence|].
    by destruct (evaluate_lease policy now c).
  - intros (Hr & [= <- <- <-] & He). rewrite (live_for_unique _ _ r Hok Hr) by by split; [|apply (evaluate_live policy now)].
    rewrite He. cbn. by rewrite !decide_False by (intros ?; done).
Qed.

(** What the fence answers: a token is current exactly when a row of the tenant carries it
    that is live, with a fresh heartbeat and a lease that has not run out; and the runtime
    the service names for a tenant is the tenant's and passes the fence. *)
Theorem fence_exact policy now tok rows r (Hok : runtimes_ok rows) :
  (verify_fence policy now tok rows = FvCurrent r
   <-> r ∈ rows /\ runtime_token r = tok /\ evaluate_lease policy now r = LvLive)
  /\ (forall o, current_runtime policy now o rows = Some r ->
      r.(rt_organization_id) = o /\ verify_fence policy now (runtime_token r) rows = FvCurrent r).
Proof.
  split; [by apply fence_iff|]. intros o. unfold current_runtime. pose proof (live_for_spec o rows) as Hf.
  destruct (live_for o rows) as [c|]; [|done]. destruct (lease_is_live _) eqn:He; [|done]. intros [= ->].
  destruct Hf as [Hc [Ho _]]. split; [done|]. apply fence_iff; [done|]. split_and!; [done|done|].
  by destruct (evaluate_lease policy now r).
Qed.

(** However the registry came to be, a tenant has at most one live runtime, and it holds the
    highest generation the tenant was given. *)
Theorem one_live_runtime policy rows r x (Hrun : rtc (registry_step policy) [] rows)
    (Hr : r ∈ rows) (Hx : x ∈ rows) (Ho : r.(rt_organization_id) = x.(rt_organization_id))
    (Hl : runtime_live r.(rt_status) = true) :
  (runtime_live x.(rt_status) = true -> x = r) /\ (x <> r -> x.(rt_generation) < r.(rt_generation)).
Proof.
  pose proof (registry_run_ok _ _ _ Hrun registry_empty_ok) as Hok.
  destruct (ro_newest _ Hok r x Hr Hx Ho Hl) as [->|[Hg Hd]]; [done|]. split; [congruence|done].
Qed.

(** A runtime that has left the live set. *)
Definition gone_runtime (id : Z) (rows : list TenantRuntimeRecord) : Prop :=
  exists r, r ∈ rows /\ r.(rt_runtime_id) = id /\ runtime_live r.(rt_status) = false.

Lemma gone_grown id rows rows' : gone_runtime id rows -> grown rows rows' -> gone_runtime id rows'.
Proof.
  intros (r & Hr & Hid & Hd) (kept & new & Hk & -> & _). apply list_elem_of_lookup in Hr as [i Hi].
  destruct (Forall2_lookup_l _ _ _ _ _ Hk Hi) as (y & Hy & Hyi & _ & _ & Hyl). exists y.
  split_and!; [apply elem_of_app; left; by eapply list_elem_of_lookup_2|congruence|].
  destruct (runtime_live (rt_status y)); [|done]. by rewrite Hyl in Hd.
Qed.

Lemma gone_run policy id rows rows' : rtc (registry_step policy) rows rows' -> runtimes_ok rows -> gone_runtime id rows ->
  gone_runtime id rows' /\ runtimes_ok rows'.
Proof.
  induction 1 as [|x y z Hs _ IH]; [done|]. intros Hx Hg.
  destruct (registry_step_ok policy x y Hs Hx) as [Hy Hgr]. apply IH; [done|by eapply gone_grown].
Qed.

Lemma gone_not_current policy now tok rows : runtimes_ok rows -> gone_runtime tok.(ft_runtime_id) rows ->
  is_current (verify_fence policy now tok rows) = false.
Proof.
  intros Hok (r & Hr & Hid & Hd). destruct (verify_fence policy now tok rows) as [c| | | |] eqn:Hv; try done.
  unfold verify_fence in Hv. pose proof (live_for_spec (ft_organization_id tok) rows) as Hf.
  destruct (live_for _ rows) as [x|]; [|done]. destruct (negb _); [done|].
  destruct (decide (_ <> _)) as [|Hi]; [done|]. apply dec_stable in Hi.
  destruct Hf as [Hx [_ Hl]]. assert (x = r) as -> by (eapply id_unique; [apply Hok|done..|congruence]). congruence.
Qed.

(** C16: Once a runtime has left the live set (superseded, stopped, drained or reaped) its token is
    never current again and its heartbeat is refused, whatever happens later. *)
Theorem superseded_runtime_is_fenced_out policy rows rows' r now
    (Hstart : rtc (registry_step policy) [] rows) (Hr : r ∈ rows) (Hd : runtime_live r.(rt_status) = false)
    (Hrun : rtc (registry_step policy) rows rows') :
  is_current (verify_fence policy now (runtime_token r) rows') = false
  /\ runtime_heartbeat r.(rt_runtime_id) now rows' = (false, rows').
Proof.
  pose proof (registry_run_ok _ _ _ Hstart registry_empty_ok) as Hok.
  destruct (gone_run policy (rt_runtime_id r) rows rows' Hrun Hok) as [Hg Hok']; [by exists r|].
  split; [by apply gone_not_current|]. destruct Hg as (x & Hx & Hid & Hdx).
  unfold runtime_heartbeat, runtime_get. destruct (list_find _ rows') as [[i y]|] eqn:Hf; cbn; [|done].
  apply list_find_Some in Hf as (Hy & Hyid & _). apply list_elem_of_lookup_2 in Hy.
  assert (y = x) as -> by (eapply id_unique; [apply Hok'|done..|congruence]). by rewrite Hdx.
Qed.

(** Taking over a tenant: refused when another worker's runtime has a fresh heartbeat, and only
    then; otherwise the new runtime is the tenant's live one, above every generation before it,
    and no earlier token of the tenant is current. *)
Theorem takeover_exact policy o id worker now rows
    (Hstart : rtc (registry_step policy) [] rows) (Hid : id ∉ map rt_runtime_id rows) (Hleft : generations_left rows) :
  let r := ensure_active policy o id worker now rows in
  (is_ok r.1 = false <->
     exists x, x ∈ rows /\ live_of o x /\ x.(rt_worker_id) <> worker
       /\ is_heartbeat_fresh now policy.(lp_stale_after) x = true)
  /\ (is_ok r.1 = false -> r.2 = rows)
  /\ (forall e, r.1 = Ok e ->
      live_for o r.2 = Some (ensured e)
      /\ forall x t, x ∈ rows -> x.(rt_organization_id) = o ->
           x.(rt_generation) < (ensured e).(rt_generation)
           /\ is_current (verify_fence policy t (runtime_token x) r.2) = false).
Proof.
  cbv zeta. pose proof (registry_run_ok _ _ _ Hstart registry_empty_ok) as Hok.
  pose proof (ensure_grows rows Hok Hleft policy o id worker now Hid) as (Hok' & Hgr & Hout).
  split_and!.
  - clear -Hok Hid Hleft. unfold ensure_active. pose proof (live_for_spec o rows) as Hl.
    destruct (live_for o rows) as [x|].
    + destruct Hl as [Hx Hxl]. destruct (bool_decide _ || _) eqn:Hc.
      * destruct (runtime_rotate _ _ _ _ _). cbn. split; [done|]. intros (y & Hy & Hyl & Hw & Hf).
        assert (y = x) as ->.
        { pose proof (live_for_unique _ _ _ Hok Hx Hxl) as Hu. rewrite (live_for_unique _ _ _ Hok Hy Hyl) in Hu. congruence. }
        rewrite Hf, orb_false_r, bool_decide_eq_true in Hc. done.
      * cbn. split; [intros _|done]. apply orb_false_iff in Hc as [Hw Hf].
        apply bool_decide_eq_false in Hw. apply negb_false_iff in Hf. by exists x.
    + destruct (runtime_insert _ rows) as [[]] eqn:Hi; cbn; split; try done;
        try (intros (x & Hx & Hxl & _); by destruct (Hl x Hx)).
      all: intros _; exfalso; revert Hi; unfold runtime_insert.
      all: assert (existsb _ rows = false) as ->; [|done].
      all: apply not_true_is_false; intros (y & Hy & Hb)%existsb_exists; apply list_elem_of_In in Hy.
      all: rewrite !andb_true_iff, bool_decide_eq_true in Hb; destruct Hb as [[[Ho He] _] _].
      all: by destruct (Hl y Hy).
  - intros Hf. destruct (ensure_active _ _ _ _ _ _) as [[] rows']; cbn in *; done.
  - intros e He. rewrite He in Hout. destruct Hout as (Hin & Heq & Hnew).
    assert (Hel : live_of o (ensured e)) by (rewrite Heq; by split).
    split; [by apply live_for_unique|]. intros x t Hx Hxo. split; [by apply Hnew|].
    apply not_true_is_false. intros Hc. destruct (verify_fence _ _ _ _) as [c| | | |] eqn:Hv; try done.
    apply fence_iff in Hv as (Hcin & [= Hco _ Hcg] & Hlv); [|done]. pose proof (Hnew x Hx Hxo) as Hlt.
    apply evaluate_live in Hlv as Hcl. destruct (ro_newest _ Hok' c (ensured e) Hcin Hin ltac:(destruct Hel; congruence) Hcl) as [Hec|[_ Hd]].
    + rewrite Hec in Hlt. lia.
    + destruct Hel. congruence.
Qed.

(** * The reaper *)

Lemma update_map id f rows : NoDup (map rt_runtime_id rows) ->
  update_runtime id f rows = map (fun r => if decide (r.(rt_runtime_id) = id) then f r else r) rows.
Proof.
  induction rows as [|r rows IH]; [done|]. cbn. intros [Hni Hn]%NoDup_cons. case_decide as Hid.
  - f_equal. rewrite <- (list_fmap_id rows) at 1. apply list_fmap_ext. intros i x Hx. cbn.
    rewrite decide_False; [done|]. intros He. apply Hni. rewrite Hid, <- He.
    apply list_elem_of_fmap. exists x. split; [done|by eapply list_elem_of_lookup_2].
  - by rewrite IH.
Qed.

Lemma restatus_stopped_twice t r : restatus RtStopped t (restatus RtStopped t r) = restatus RtStopped t r.
Proof. unfold restatus. destruct (runtime_terminal (rt_status r)) eqn:H; by rewrite ?H. Qed.

Lemma stops_map now ids : forall rows, NoDup (map rt_runtime_id rows) ->
  foldl (fun rows r => stop_runtime r.(rt_runtime_id) now rows) rows ids
  = map (fun r => if decide (r.(rt_runtime_id) ∈ map rt_runtime_id ids) then restatus RtStopped now r else r) rows.
Proof.
  induction ids as [|d ids IH]; intros rows Hn; cbn [foldl].
  - rewrite <- (list_fmap_id rows) at 1. apply list_fmap_ext. intros i x _. cbn. by rewrite decide_False by set_solver.
  - assert (Hk : Forall2 row_kept rows (stop_runtime (rt_runtime_id d) now rows))
      by (apply update_kept; intros; by apply restatus_kept).
    rewrite IH by by rewrite (kept_ids _ _ Hk). unfold stop_runtime, runtime_set_status. rewrite update_map by done.
    rewrite map_map. apply list_fmap_ext. intros i x _. cbn [map]. clear.
    destruct (decide (rt_runtime_id x = rt_runtime_id d)) as [He|He].
    + assert (rt_runtime_id (restatus RtStopped now x) = rt_runtime_id x) as ->
        by (unfold restatus; by destruct (runtime_terminal _)).
      rewrite restatus_stopped_twice. rewrite (decide_True (P := _ ∈ _ :: _)) by set_solver. by case_decide.
    + destruct (decide (rt_runtime_id x ∈ map rt_runtime_id ids)); [rewrite decide_True by set_solver; done|].
      rewrite decide_False by set_solver. done.
Qed.

Definition stale_runtime (policy : LeasePolicy) (now : Z) (r : TenantRuntimeRecord) : bool :=
  runtime_live r.(rt_status) && negb (is_heartbeat_fresh now policy.(lp_stale_after) r).

Lemma elem_of_stale policy now rows r :
  r ∈ stale_since (now - policy.(lp_stale_after)) rows <-> r ∈ rows /\ stale_runtime policy now r = true.
Proof.
  unfold stale_since, stale_runtime, is_heartbeat_fresh. rewrite list_elem_of_filter, andb_true_iff, negb_true_iff, Z.leb_gt.
  split; intros [? ?]; split; try done; [split; [tauto|lia]|split; [tauto|lia]].
Qed.

Lemma reaper_rows policy now rows (Hok : runtimes_ok rows) :
  (reap_once policy now rows).2
  = map (fun x => if stale_runtime policy now x then with_runtime_status RtStopped (Some now) x else x) rows.
Proof.
  rewrite reap_once_rows. unfold reap_stale. cbn [snd]. rewrite stops_map by apply Hok.
  apply list_fmap_ext. intros i x Hx%list_elem_of_lookup_2.
  assert (rt_runtime_id x ∈ map rt_runtime_id (stale_since (now - lp_stale_after policy) rows)
          <-> stale_runtime policy now x = true) as Hiff.
  { rewrite list_elem_of_fmap. split.
    - intros (y & He & [Hy Hs]%elem_of_stale). by rewrite (id_unique rows x y (ro_ids _ Hok) Hx Hy He).
    - intros Hs. exists x. split; [done|]. by apply elem_of_stale. }
  destruct (stale_runtime policy now x) eqn:Hs.
  - rewrite decide_True by tauto. unfold restatus. unfold stale_runtime in Hs.
    destruct (rt_status x); try discriminate Hs; done.
  - rewrite decide_False; [done|]. rewrite Hiff. discriminate.
Qed.

Lemma reaper_report policy now rows :
  (reap_once policy now rows).1
  = mkReaperReport (length (stale_since (now - lp_stale_after policy) rows))
      (length (stale_since (now - lp_stale_after policy) rows)) 0 now.
Proof.
  unfold reap_once, reap_stale. destruct (stale_since _ rows) as [|a l] eqn:He; [done|].
  rewrite filter_none; [done|]. intros x Hx Hni. apply Hni, list_elem_of_fmap. by exists x.
Qed.

(** One pass of the reaper stops exactly the live runtimes whose heartbeat is too old and
    touches no other row; its report balances, and a second pass at that time finds nothing. *)
Theorem reaper_exact policy now rows (Hok : runtimes_ok rows) :
  let r := reap_once policy now rows in
  r.2 = map (fun x => if stale_runtime policy now x then with_runtime_status RtStopped (Some now) x else x) rows
  /\ r.1.(rr_swept) = length (filter (fun x => stale_runtime policy now x = true) rows)
  /\ r.1.(rr_swept) = (r.1.(rr_reaped) + r.1.(rr_failed))%nat /\ r.1.(rr_failed) = 0%nat
  /\ reap_once policy now r.2 = (mkReaperReport 0 0 0 now, r.2).
Proof.
  cbv zeta. rewrite reaper_report. cbn. split_and!; [by apply reaper_rows| |lia|done|].
  - f_equal. unfold stale_since. apply list_filter_iff. intros x.
    unfold stale_runtime, is_heartbeat_fresh. rewrite andb_true_iff, negb_true_iff, Z.leb_gt. intuition lia.
  - assert (Hnone : stale_since (now - lp_stale_after policy) (reap_once policy now rows).2 = []).
    { apply elem_of_nil_inv. intros x [Hx Hs]%elem_of_stale. rewrite reaper_rows in Hx by done.
      apply list_elem_of_fmap in Hx as (y & -> & _). destruct (stale_runtime policy now y) eqn:Hy; [done|congruence]. }
    unfold reap_once at 1. by rewrite Hnone.
Qed.

(** A runtime whose heartbeat is fresh but whose lease has run out executes nothing, yet no
    other worker may take over and the reaper leaves it. *)
Theorem expired_lease_is_not_reaped policy now rows r t id worker (Hok : runtimes_ok rows) (Hr : r ∈ rows)
    (Hl : runtime_live r.(rt_status) = true) (Hf : is_heartbeat_fresh now policy.(lp_stale_after) r = true)
    (Ht : r.(rt_lease_expires_at) = Some t) (Hexp : t <= now) (Hw : r.(rt_worker_id) <> worker) :
  verify_fence policy now (runtime_token r) rows = FvNotLeaseLive LvLeaseExpired
  /\ r ∈ (reap_once policy now rows).2
  /\ ensure_active policy r.(rt_organization_id) id worker now rows = (Err tt, rows).
Proof.
  assert (Hlf : live_for (rt_organization_id r) rows = Some r) by (apply live_for_unique; done).
  split_and!.
  - unfold verify_fence, runtime_token. cbn. rewrite Hlf. unfold evaluate_lease, is_lease_live.
    rewrite Hl, Hf, Ht, (proj2 (Z.ltb_ge now t)) by lia. done.
  - rewrite reaper_rows by done. apply list_elem_of_fmap. exists r. split; [|done].
    unfold stale_runtime. by rewrite Hl, Hf.
  - unfold ensure_active. rewrite Hlf, Hf. by rewrite bool_decide_eq_false_2.
Qed.

(** * Witnesses *)

Definition demo_start : list TenantRuntimeRecord :=
  (ensure_active LeasePolicy_default 1 10 (lit "a") 0 []).2.
Definition demo_rotated : list TenantRuntimeRecord := (runtime_rotate 1 11 (lit "b") 5 demo_start).2.
Definition demo_runtime_a : TenantRuntimeRecord := with_runtime_status RtStopped (Some 5) (new_active 1 10 1 (lit "a") 0).
Definition demo_runtime_b : TenantRuntimeRecord := new_active 1 11 2 (lit "b") 5.

Lemma demo_rows_eq : demo_rotated = [demo_runtime_a; demo_runtime_b].
Proof. reflexivity. Qed.

Lemma demo_reached : rtc (registry_step LeasePolicy_default) [] demo_rotated.
Proof.
  eapply rtc_l; [apply (rs_ensure _ 1 10 (lit "a") 0); [apply not_elem_of_nil|by intros r ?%not_elem_of_nil]|].
  apply rtc_once. apply (rs_rotate _ 1 11 (lit "b") 5).
  - cbn. set_solver.
  - intros r ->%list_elem_of_singleton. by vm_compute.
Qed.

Lemma fence_exact_witness :
  runtimes_ok demo_rotated
  /\ verify_fence LeasePolicy_default 6 (runtime_token demo_runtime_b) demo_rotated = FvCurrent demo_runtime_b.
Proof.
  pose proof (registry_run_ok _ _ _ demo_reached registry_empty_ok) as Hok. split; [done|].
  apply (fence_exact LeasePolicy_default 6 (runtime_token demo_runtime_b) demo_rotated demo_runtime_b Hok).
  rewrite demo_rows_eq. split_and!; [set_solver|done|done].
Defined.

Lemma one_live_runtime_witness : demo_runtime_a.(rt_generation) < demo_runtime_b.(rt_generation).
Proof.
  apply (one_live_runtime LeasePolicy_default demo_rotated demo_runtime_b demo_runtime_a demo_reached);
    rewrite ?demo_rows_eq; [set_solver|set_solver|done|done|done].
Defined.

Lemma superseded_runtime_is_fenced_out_witness :
  is_current (verify_fence LeasePolicy_default 6 (runtime_token demo_runtime_a) demo_rotated) = false
  /\ runtime_heartbeat 10 6 demo_rotated = (false, demo_rotated).
Proof.
  apply (superseded_runtime_is_fenced_out LeasePolicy_default demo_rotated demo_rotated demo_runtime_a 6 demo_reached);
    rewrite ?demo_rows_eq; [set_solver|done|done].
Defined.

Lemma takeover_exact_witness :
  is_ok (ensure_active LeasePolicy_default 1 12 (lit "c") 6 demo_rotated).1 = false
  /\ (ensure_active LeasePolicy_default 1 12 (lit "c") 6 demo_rotated).2 = demo_rotated.
Proof.
  split; [done|]. apply (takeover_exact LeasePolicy_default 1 12 (lit "c") 6 demo_rotated demo_reached).
  - rewrite demo_rows_eq. cbn. set_solver.
  - rewrite demo_rows_eq. intros r [->|[->|[]%not_elem_of_nil]%elem_of_cons]%elem_of_cons; by vm_compute.
  - done.
Defined.

Lemma reaper_exact_witness :
  (reap_once LeasePolicy_default (200 * SECOND) demo_rotated).1 = mkReaperReport 1 1 0 (200 * SECOND)
  /\ (reap_once LeasePolicy_default (200 * SECOND) demo_rotated).1.(rr_failed) = 0%nat.
Proof.
  split; [reflexivity|]. apply (reaper_exact LeasePolicy_default (200 * SECOND) demo_rotated).
  exact (registry_run_ok _ _ _ demo_reached registry_empty_ok).
Defined.

Definition demo_leased : TenantRuntimeRecord :=
  mkTenantRuntimeRecord 10 1 1 RtActive (lit "a") 0 0 (Some 1) None.

Lemma expired_lease_is_not_reaped_witness :
  verify_fence LeasePolicy_default 5 (runtime_token demo_leased) [demo_leased] = FvNotLeaseLive LvLeaseExpired.
Proof.
  refine (proj1 (expired_lease_is_not_reaped LeasePolicy_default 5 [demo_leased] demo_leased 1 11 (lit "b")
    _ _ eq_refl eq_refl eq_refl _ _)); [|set_solver|lia|discriminate].
  split; [apply NoDup_singleton| |].
  - intros r ->%list_elem_of_singleton. by vm_compute.
  - intros r x ->%list_elem_of_singleton ->%list_elem_of_singleton. by left.
Defined.
