(* ===== verification/TenantGateway.v ===== *)
(** The gate every execution of a tenant passes ([crates/server/src/tenant/],
    [tenant_config/], [crates/core/src/execution/], [crates/core/src/tenant/]): the
    tenant's configuration and the limits that are in force, the bindings of wallets and
    signers, the guards in their order, and the proof that is issued when all of them
    pass.  The stores may change between two reads of one admission, so each read is
    answered by a world of its own ([GatewayReads]). *)
From stdpp Require Import prelude countable gmap list relations strings pretty.
From Stdlib Require Import ZArith Lia SpecFloat.
From Stdlib Require Ascii String.
From S2P Require Import Prelude.
From S2P Require Import Text.
From S2P Require Import Float64.
From S2P Require Import Models.
From S2P Require Import LedgerEvent.
From S2P Require Import Plans.
From S2P Require Import Authorization.
From S2P Require Import TenantRuntime.

#[local] Open Scope Z_scope.

(** * Modules of a tenant ([tenant_module_state.rs], [module_kind.rs]) *)

Inductive ModuleDisableReason : Type := MdOperator | MdPlan | MdDegraded.
Inductive ModuleEnablement : Type := MeEnabled | MeDisabled (r : ModuleDisableReason).

#[export] Instance ModuleDisableReason_eq_dec : EqDecision ModuleDisableReason.
Proof. solve_decision. Defined.
#[export] Instance ModuleEnablement_eq_dec : EqDecision ModuleEnablement.
Proof. solve_decision. Defined.

Definition ModuleDisableReason_as_str (r : ModuleDisableReason) : text :=
  match r with MdOperator => lit "operator" | MdPlan => lit "plan" | MdDegraded => lit "degraded" end.

(** The rows of the table, in the order they were first set. *)
Definition TenantModuleSet : Type := list (BotModule * ModuleEnablement).

Fixpoint module_set (m : BotModule) (e : ModuleEnablement) (s : TenantModuleSet) : TenantModuleSet :=
  match s with
  | [] => [(m, e)]
  | (m', e') :: s => if decide (m' = m) then (m, e) :: s else (m', e') :: module_set m e s
  end.

Definition TenantModuleSet_new (rows : list (BotModule * ModuleEnablement)) : TenantModuleSet :=
  foldl (fun s row => module_set row.1 row.2 s) [] rows.

Definition deployment_default : TenantModuleSet :=
  TenantModuleSet_new (map (fun m => (m, MeEnabled)) BotModule_ALL).

Definition module_state_of (m : BotModule) (s : TenantModuleSet) : option ModuleEnablement :=
  snd ∘ snd <$> list_find (fun row => row.1 = m) s.

(** [TenantModuleSet::check]: what was never configured is disabled. *)
Definition module_check (m : BotModule) (s : TenantModuleSet) : ModuleEnablement :=
  match module_state_of m s with Some e => e | None => MeDisabled MdOperator end.

Definition feature_key (m : BotModule) : option text :=
  match m with
  | Sniper => Some MODULE_SNIPER
  | Copy => Some MODULE_COPY
  | Polymarket => Some MODULE_POLYMARKET
  | Telegram | Contract => None
  end.

(** * The configuration of a tenant and the one in force *)

Record TenantRiskLimits : Type := mkTenantRiskLimits {
  tr_max_position_usd : option f64;
  tr_daily_loss_usd_cap : option f64;
  tr_max_slippage_bps : option Z;       (* u32 *)
}.

Inductive SignerProvider : Type := SpCustody | SpLocal | SpExternal.

#[export] Instance SignerProvider_eq_dec : EqDecision SignerProvider.
Proof. solve_decision. Defined.

Definition SignerProvider_as_str (p : SignerProvider) : text :=
  match p with SpCustody => lit "custody" | SpLocal => lit "local" | SpExternal => lit "external" end.

Record SignerBinding : Type := mkSignerBinding { sb_provider : SignerProvider; sb_key_ref : text }.

Record TenantConfigModel : Type := mkTenantConfigModel {
  tc_modules : TenantModuleSet;
  tc_risk : TenantRiskLimits;
  tc_allowed_modes : list ExecutionMode;
  tc_preferred_wallet_label : option text;
  tc_preferred_signer : option SignerBinding;
}.

Definition TenantConfigModel_default : TenantConfigModel :=
  mkTenantConfigModel deployment_default (mkTenantRiskLimits None None None) [Paper] None None.

Definition deployment_legacy (global_modes : list ExecutionMode) : TenantConfigModel :=
  mkTenantConfigModel deployment_default (mkTenantRiskLimits None None None)
    (match global_modes with [] => [Paper] | _ => global_modes end) None None.

Record GlobalSafetyBounds : Type := mkGlobalSafetyBounds {
  gb_max_position_usd : f64;
  gb_daily_loss_usd_cap : f64;
  gb_max_slippage_bps : Z;
  gb_allowed_modes : list ExecutionMode;
}.

Definition platform_defaults : GlobalSafetyBounds :=
  mkGlobalSafetyBounds (f_of_Z 100000) (f_of_Z 50000) 2000 [Paper; Simulate].

Record RuntimeOverrides : Type := mkRuntimeOverrides {
  ov_max_position_usd : option f64;
  ov_daily_loss_usd_cap : option f64;
  ov_degraded_modules : list BotModule;
  ov_refused_modes : list ExecutionMode;
}.

Definition RuntimeOverrides_default : RuntimeOverrides := mkRuntimeOverrides None None [] [].

Record OperationConstraints : Type := mkOperationConstraints {
  oc_max_position_usd : option f64;
  oc_max_slippage_bps : option Z;
}.

Record EffectiveTenantConfig : Type := mkEffectiveTenantConfig {
  ef_modules : TenantModuleSet;
  ef_risk : TenantRiskLimits;
  ef_allowed_modes : list ExecutionMode;
}.

Definition mode_allowed (m : ExecutionMode) (e : EffectiveTenantConfig) : bool := bool_decide (m ∈ e.(ef_allowed_modes)).

(** A limit that can be one: finite and above zero. *)
Definition limit_usable (v : f64) : bool := is_finite v && negb (fleb v fzero).

(** [tightest_f64]: zero when a layer is unusable. *)
Fixpoint tightest_from (tightest : option f64) (bounds : list (option f64)) : option f64 :=
  match bounds with
  | [] => tightest
  | None :: bounds => tightest_from tightest bounds
  | Some b :: bounds =>
      if negb (limit_usable b) then Some fzero
      else tightest_from (Some (match tightest with Some c => if fltb c b then c else b | None => b end)) bounds
  end.

Definition tightest_f64 (bounds : list (option f64)) : option f64 := tightest_from None bounds.

(** [candidates.iter().flatten().reduce(u32::min)]. *)
Definition least_of (zs : list (option Z)) : option Z :=
  foldl (fun m z => match z with None => m | Some z => Some (from_option (fun m => Z.min m z) z m) end) None zs.

(** [tenant_config::resolve]. *)
Definition resolve_config (bounds : GlobalSafetyBounds) (tenant : option TenantConfigModel)
    (runtime : option RuntimeOverrides) (operation : option OperationConstraints) : EffectiveTenantConfig :=
  let t := default TenantConfigModel_default tenant in
  let modules :=
    match runtime with
    | Some r => foldl (fun s m => module_set m (MeDisabled MdDegraded) s) t.(tc_modules) r.(ov_degraded_modules)
    | None => t.(tc_modules)
    end in
  let risk :=
    mkTenantRiskLimits
      (tightest_f64 [Some bounds.(gb_max_position_usd); t.(tc_risk).(tr_max_position_usd);
                     runtime ≫= ov_max_position_usd; operation ≫= oc_max_position_usd])
      (tightest_f64 [Some bounds.(gb_daily_loss_usd_cap); t.(tc_risk).(tr_daily_loss_usd_cap);
                     runtime ≫= ov_daily_loss_usd_cap])
      (least_of [Some bounds.(gb_max_slippage_bps); t.(tc_risk).(tr_max_slippage_bps);
                 operation ≫= oc_max_slippage_bps]) in
  let allowed := filter (fun m => m ∈ t.(tc_allowed_modes)) bounds.(gb_allowed_modes) in
  let allowed := match runtime with Some r => filter (fun m => m ∉ r.(ov_refused_modes)) allowed | None => allowed end in
  mkEffectiveTenantConfig modules risk allowed.

(** * References to wallets and signers *)

Definition ascii_alphanumeric (c : Z) : bool :=
  ((48 <=? c) && (c <=? 57)) || ((65 <=? c) && (c <=? 90)) || ((97 <=? c) && (c <=? 122)).

Definition MIN_ADDRESS_LEN : nat := 8.
Definition MAX_ADDRESS_LEN : nat := 100.
Definition MAX_KEY_REF_LEN : nat := 128.

(** The characters allowed are one byte each, so lengths are in characters. *)
Definition valid_public_address (value : text) : bool :=
  let v := trim value in
  (MIN_ADDRESS_LEN <=? length v)%nat && (length v <=? MAX_ADDRESS_LEN)%nat
  && forallb (fun c => ascii_alphanumeric c || bool_decide (c ∈ lit ":_-")) v.

Record TenantWalletRef : Type := mkTenantWalletRef {
  tw_organization_id : Z;
  tw_address : text;
  tw_label : option text;
}.

(** [TenantWalletRef::new]; the nil identifier is no tenant. *)
Definition TenantWalletRef_new (organization : Z) (address : text) : option TenantWalletRef :=
  if (organization =? 0) || negb (valid_public_address address) then None
  else Some (mkTenantWalletRef organization address None).

(** The length of a label is in bytes of its UTF-8 form, [bytes]. *)
Definition with_wallet_label (bytes : text -> Z) (label : text) (w : TenantWalletRef) : TenantWalletRef :=
  if negb (is_empty (trim label)) && (bytes label <=? 64)
  then mkTenantWalletRef w.(tw_organization_id) w.(tw_address) (Some label) else w.

Record TenantSignerRef : Type := mkTenantSignerRef {
  ts_organization_id : Z;
  ts_provider : SignerProvider;
  ts_key_ref : text;
  ts_active : bool;
}.

Definition TenantSignerRef_new (organization : Z) (provider : SignerProvider) (key_ref : text)
    : option TenantSignerRef :=
  let k := trim key_ref in
  if (organization =? 0) || is_empty k || (MAX_KEY_REF_LEN <? length k)%nat
     || negb (forallb (fun c => ascii_alphanumeric c || bool_decide (c ∈ lit ":-_./")) k)
  then None else Some (mkTenantSignerRef organization provider k true).

Definition revoke_signer (s : TenantSignerRef) : TenantSignerRef :=
  mkTenantSignerRef s.(ts_organization_id) s.(ts_provider) s.(ts_key_ref) false.

(** * The bindings ([MemoryTenantBindingRegistry]) *)

Record WalletBinding : Type := mkWalletBinding {
  wb_organization_id : Z;
  wb_label : text;
  wb_address : text;
  wb_active : bool;
  wb_created_at : Z;
}.

Record SignerBindingRow : Type := mkSignerBindingRow {
  sr_organization_id : Z;
  sr_provider : SignerProvider;
  sr_key_ref : text;
  sr_active : bool;
  sr_created_at : Z;
}.

Record Bindings : Type := mkBindings {
  bd_wallets : gmap (Z * text) WalletBinding;
  bd_signers : gmap (Z * text) SignerBindingRow;
}.

Definition signer_key (p : SignerProvider) (key_ref : text) : text := SignerProvider_as_str p ++ lit "/" ++ key_ref.

Definition put_wallet (b : WalletBinding) (r : Bindings) : Bindings :=
  mkBindings (<[(b.(wb_organization_id), b.(wb_label)) := b]> r.(bd_wallets)) r.(bd_signers).
Definition put_signer (b : SignerBindingRow) (r : Bindings) : Bindings :=
  mkBindings r.(bd_wallets) (<[(b.(sr_organization_id), signer_key b.(sr_provider) b.(sr_key_ref)) := b]> r.(bd_signers)).
Definition find_wallet (organization : Z) (label : text) (r : Bindings) : option WalletBinding :=
  r.(bd_wallets) !! (organization, label).
Definition find_signer (organization : Z) (p : SignerProvider) (key_ref : text) (r : Bindings) : option SignerBindingRow :=
  r.(bd_signers) !! (organization, signer_key p key_ref).

(** * The proof of an admission ([crates/core/src/execution/]) *)

(** The text of a UUID, 36 characters of its own for each. *)
Class UuidText : Type := { uuid_text : Z -> text }.
Class UuidTextLaws `{UuidText} : Prop := {
  uuid_text_inj : forall a b, uuid_text a = uuid_text b -> a = b;
  uuid_text_length : forall a, length (uuid_text a) = 36%nat;
}.

Record ExecutionScope : Type := mkExecutionScope {
  xs_organization_id : Z;
  xs_runtime_id : Z;
  xs_generation : Z;
  xs_module : BotModule;
  xs_mode : ExecutionMode;
}.

#[export] Instance ExecutionScope_eq_dec : EqDecision ExecutionScope.
Proof. solve_decision. Defined.

Definition ExecutionScope_new (organization runtime generation : Z) (m : BotModule) (mode : ExecutionMode)
    : option ExecutionScope :=
  if organization =? 0 then None
  else if runtime =? 0 then None
  else Some (mkExecutionScope organization runtime generation m mode).

Definition describe `{UuidText} (s : ExecutionScope) : text :=
  lit "org=" ++ uuid_text s.(xs_organization_id) ++ lit " runtime=" ++ uuid_text s.(xs_runtime_id)
  ++ lit " gen-" ++ lit (pretty s.(xs_generation)) ++ lit " module=" ++ BotModule_as_str s.(xs_module)
  ++ lit " mode=" ++ ExecutionMode_as_str s.(xs_mode).

Definition AUTHORITY_CHECK_ORDER : list text :=
  [lit "authenticated_principal"; lit "tenant_context"; lit "tenant_lifecycle"; lit "runtime_exists";
   lit "runtime_active"; lit "runtime_generation"; lit "module_entitlement"; lit "tenant_config";
   lit "wallet_binding"; lit "signer_binding"; lit "risk_permission"].

Inductive AuthorityError : Type :=
  | OutOfOrder (attempted requires : text) | UnknownCheck (name : text) | MissingChecks (names : list text).

(** The recorded checks with the instants they passed at. *)
Definition AuthorityChecklist : Type := list (text * Z).

Definition recorded (name : text) (c : AuthorityChecklist) : bool := bool_decide (name ∈ map fst c).

(** [AuthorityChecklist::record]. *)
Definition record_check (name : text) (at_ : Z) (c : AuthorityChecklist) : outcome AuthorityError AuthorityChecklist :=
  match list_find (eq name) AUTHORITY_CHECK_ORDER with
  | None => Err (UnknownCheck name)
  | Some (i, _) =>
      match i with
      | O => Ok (if recorded name c then c else c ++ [(name, at_)])
      | S j =>
          let requires := default [] (AUTHORITY_CHECK_ORDER !! j) in
          if negb (recorded requires c) then Err (OutOfOrder name requires)
          else Ok (if recorded name c then c else c ++ [(name, at_)])
      end
  end.

Definition is_complete (c : AuthorityChecklist) : bool :=
  (length c =? length AUTHORITY_CHECK_ORDER)%nat
  && forallb (fun p => bool_decide (p.1.1 = p.2)) (zip c AUTHORITY_CHECK_ORDER).

Record ExecutionAuthority : Type := mkExecutionAuthority {
  xa_fingerprint : text;
  xa_granted_at : Z;
  xa_checks : AuthorityChecklist;
}.

Section proof.
Context `{UuidText} {libs : LedgerLibs}.

Definition fingerprint_of (s : ExecutionScope) : text := sha256_hex (describe s).

Definition finish_checks (scope : ExecutionScope) (at_ : Z) (c : AuthorityChecklist)
    : outcome AuthorityError ExecutionAuthority :=
  if negb (is_complete c)
  then Err (MissingChecks (filter (fun name => recorded name c = false) AUTHORITY_CHECK_ORDER))
  else Ok (mkExecutionAuthority (fingerprint_of scope) at_ c).

Definition authority_authorizes (a : ExecutionAuthority) (s : ExecutionScope) : bool :=
  bool_decide (a.(xa_fingerprint) = fingerprint_of s).
End proof.

Record ExecutionTrace : Type := mkExecutionTrace {
  xt_trace_id : Z;
  xt_correlation_id : text;
  xt_origin : text;
  xt_started_at : Z;
}.

Record TenantExecutionContext : Type := mkTenantExecutionContext {
  xc_scope : ExecutionScope;
  xc_authority : ExecutionAuthority;
  xc_wallet : TenantWalletRef;
  xc_signer : TenantSignerRef;
  xc_trace : ExecutionTrace;
}.

Inductive ContextError : Type := BadScope | AuthorityMismatch | WalletMismatch | SignerMismatch | SignerRevoked.

(** [TenantExecutionContext::issue]. *)
Definition issue_context `{UuidText} {libs : LedgerLibs} (organization runtime generation : Z) (m : BotModule)
    (mode : ExecutionMode) (a : ExecutionAuthority) (w : TenantWalletRef) (s : TenantSignerRef) (t : ExecutionTrace)
    : outcome ContextError TenantExecutionContext :=
  scope ← ok_or (ExecutionScope_new organization runtime generation m mode) BadScope;
  reject_if (negb (authority_authorizes a scope)) AuthorityMismatch ;;
  reject_if (negb (bool_decide (w.(tw_organization_id) = organization))) WalletMismatch ;;
  reject_if (negb (bool_decide (s.(ts_organization_id) = organization))) SignerMismatch ;;
  reject_if (negb s.(ts_active)) SignerRevoked ;;
  Ok (mkTenantExecutionContext scope a w s t).

Definition verify_against (organization runtime generation : Z) (c : TenantExecutionContext) : bool :=
  bool_decide (c.(xc_scope).(xs_organization_id) = organization)
  && bool_decide (c.(xc_scope).(xs_runtime_id) = runtime)
  && bool_decide (c.(xc_scope).(xs_generation) = generation).

(** * The guards *)

Inductive DenyReason : Type :=
  | DrTenantState (state : text)
  | DrEntitlementModule (m reason : text)
  | DrEntitlementLiveTrading
  | DrModuleDisabled (m reason : text)
  | DrModeNotAllowed (mode : text)
  | DrWalletNotBound (label : text)
  | DrSignerNotBound (key_ref : text)
  | DrWalletInactive (label : text)
  | DrSignerInactive (key_ref : text)
  | DrPositionSizeExceeds (requested cap : f64)
  | DrSlippageExceeds (requested cap : Z)
  | DrRiskValuesInvalid
  | DrFenceFailed (verdict : text)
  | DrContextIssue (reason : text)
  | DrDependencyError (source : text).

Definition deny_retryable (d : DenyReason) : bool :=
  match d with DrFenceFailed _ | DrDependencyError _ => true | _ => false end.

(** A guard allows with a note, or denies. *)
Definition Guard : Type := outcome DenyReason text.

Record TenantExecutionRequest : Type := mkTenantExecutionRequest {
  tq_organization_id : Z;
  tq_module : BotModule;
  tq_mode : ExecutionMode;
  tq_wallet_label : text;
  tq_signer : SignerBinding;
  tq_size_usd : option f64;
  tq_slippage_bps : option Z;           (* u32 *)
  tq_origin : text;
}.

(** [tenant_guard::check]. *)
Definition tenant_guard (o : Organization) : Guard :=
  match o.(og_status) with
  | OsActive | OsTrialing => Ok (lit "tenant_active")
  | OsPastDue => Err (DrTenantState (lit "past_due"))
  | OsSuspended => Err (DrTenantState (lit "suspended"))
  | OsClosed => Err (DrTenantState (lit "closed"))
  end.

Definition FenceVerdict_as_str (v : FenceVerdict) : text :=
  match v with
  | FvCurrent _ => lit "current"
  | FvSuperseded _ _ => lit "superseded"
  | FvStaleGeneration _ _ => lit "stale_generation"
  | FvNoLiveRuntime _ => lit "no_live_runtime"
  | FvNotLeaseLive _ => lit "not_lease_live"
  end.

(** [fence_guard::check]. *)
Definition fence_guard (policy : LeasePolicy) (now : Z) (tok : FenceToken)
    (rows : outcome unit (list TenantRuntimeRecord)) : Guard :=
  match rows with
  | Ok rows =>
      match verify_fence policy now tok rows with
      | FvCurrent _ => Ok (lit "fence_current")
      | v => Err (DrFenceFailed (FenceVerdict_as_str v))
      end
  | _ => Err (DrDependencyError (lit "runtime_registry"))
  end.

(** [TenantEntitlementView::check_module] in [entitlement_guard::check_module]. *)
Definition entitlement_module_guard (s : EntitlementSet) (m : BotModule) : Guard :=
  match feature_key m with
  | Some f =>
      match limit_for s f with
      | FlDisabled => Err (DrEntitlementModule (BotModule_as_str m) (lit "module_not_in_plan"))
      | _ => Ok (lit "module_entitled")
      end
  | None => Err (DrEntitlementModule (BotModule_as_str m) (lit "not_plan_gated"))
  end.

Definition live_trading_allowed (s : EntitlementSet) : bool :=
  match limit_for s LIVE_TRADING with FlDisabled => false | _ => true end.

(** [entitlement_guard::check_mode]. *)
Definition entitlement_mode_guard (s : EntitlementSet) (mode : ExecutionMode) : Guard :=
  if bool_decide (mode = Live) && negb (live_trading_allowed s) then Err DrEntitlementLiveTrading
  else Ok (lit "mode_entitled").

(** [module_guard::check]. *)
Definition module_guard (e : EffectiveTenantConfig) (m : BotModule) : Guard :=
  match module_check m e.(ef_modules) with
  | MeEnabled => Ok (lit "module_enabled")
  | MeDisabled r => Err (DrModuleDisabled (BotModule_as_str m) (ModuleDisableReason_as_str r))
  end.

(** [ModuleControlStore::effective_state] of the override that was read, and its arm in the gateway. *)
Definition control_guard (override : outcome unit (option bool)) (m : BotModule) : Guard :=
  match override with
  | Ok (Some false) => Err (DrModuleDisabled (BotModule_as_str m) (lit "tenant_control"))
  | Ok _ => Ok (lit "tenant_module_control_enabled")
  | _ => Err (DrDependencyError (lit "module_control_store"))
  end.

(** [mode_guard::check]. *)
Definition mode_guard (e : EffectiveTenantConfig) (mode : ExecutionMode) : Guard :=
  if mode_allowed mode e then Ok (lit "mode_allowed") else Err (DrModeNotAllowed (ExecutionMode_as_str mode)).

(** [binding_guard::wallet] and [signer] of the row that was read. *)
Definition wallet_guard (row : outcome unit (option WalletBinding)) (label : text) : Guard :=
  match row with
  | Ok (Some b) => if b.(wb_active) then Ok (lit "wallet_bound") else Err (DrWalletInactive label)
  | Ok None => Err (DrWalletNotBound label)
  | _ => Err (DrDependencyError (lit "binding_registry"))
  end.

Definition signer_guard (row : outcome unit (option SignerBindingRow)) (key_ref : text) : Guard :=
  match row with
  | Ok (Some b) => if b.(sr_active) then Ok (lit "signer_bound") else Err (DrSignerInactive key_ref)
  | Ok None => Err (DrSignerNotBound key_ref)
  | _ => Err (DrDependencyError (lit "binding_registry"))
  end.

Definition limit_invalid (l : option f64) : bool := match l with Some v => negb (limit_usable v) | None => false end.

(** [risk_guard::check]. *)
Definition risk_guard (e : EffectiveTenantConfig) (size : option f64) (slippage : option Z) : Guard :=
  let r := e.(ef_risk) in
  reject_if (limit_invalid r.(tr_max_position_usd) || limit_invalid r.(tr_daily_loss_usd_cap)
             || bool_decide (r.(tr_max_slippage_bps) = Some 0)) DrRiskValuesInvalid ;;
  match size with
  | Some s =>
      reject_if (negb (limit_usable s)) DrRiskValuesInvalid ;;
      match r.(tr_max_position_usd) with
      | Some cap => reject_if (fltb cap s) (DrPositionSizeExceeds s cap)
      | None => Ok tt
      end
  | None => Ok tt
  end ;;
  match slippage with
  | Some bps =>
      reject_if (bps =? 0) DrRiskValuesInvalid ;;
      match r.(tr_max_slippage_bps) with
      | Some cap => reject_if (cap <? bps) (DrSlippageExceeds bps cap)
      | None => Ok tt
      end
  | None => Ok tt
  end ;;
  Ok (lit "risk_within_limits").

(** * The gateway ([gateway.rs]) *)

(** What the stores hold, and the clock, at one moment. *)
Record GatewayWorld : Type := mkGatewayWorld {
  w_now : Z;
  w_rows : outcome unit (list TenantRuntimeRecord);
  w_plan : Z -> outcome unit EntitlementSet;
  w_config : Z -> outcome unit TenantConfigModel;
  w_control : Z -> BotModule -> outcome unit (option bool);
  w_bindings : outcome unit Bindings;
}.

(** The worlds of the eight reads of one admission, in their order. *)
Record GatewayReads : Type := mkGatewayReads {
  rd_current : GatewayWorld;
  rd_fence : GatewayWorld;
  rd_plan : GatewayWorld;
  rd_config : GatewayWorld;
  rd_control : GatewayWorld;
  rd_wallet : GatewayWorld;
  rd_signer : GatewayWorld;
  rd_again : GatewayWorld;
}.

(** Nothing changes while an admission runs. *)
Definition still (w : GatewayWorld) : GatewayReads := mkGatewayReads w w w w w w w w.

Record ExecutionInputs : Type := mkExecutionInputs {
  xi_policy : LeasePolicy;
  xi_bounds : GlobalSafetyBounds;
  xi_overrides : RuntimeOverrides;
}.

Definition wallet_row (w : GatewayWorld) (r : TenantExecutionRequest) : outcome unit (option WalletBinding) :=
  b ← w.(w_bindings); Ok (find_wallet r.(tq_organization_id) r.(tq_wallet_label) b).
Definition signer_row (w : GatewayWorld) (r : TenantExecutionRequest) : outcome unit (option SignerBindingRow) :=
  b ← w.(w_bindings);
  Ok (find_signer r.(tq_organization_id) r.(tq_signer).(sb_provider) r.(tq_signer).(sb_key_ref) b).

(** [binding_guard::check]. *)
Definition binding_guard (rd : GatewayReads) (r : TenantExecutionRequest) : Guard :=
  wallet_guard (wallet_row rd.(rd_wallet) r) r.(tq_wallet_label) ;;
  signer_guard (signer_row rd.(rd_signer) r) r.(tq_signer).(sb_key_ref).

(** An answer of a store; a failure denies. *)
Definition answer {A} (source : string) (m : outcome unit A) : outcome DenyReason A :=
  match m with Ok a => Ok a | _ => Err (DrDependencyError (lit source)) end.

Definition or_issue {A} (reason : string) (o : option A) : outcome DenyReason A :=
  ok_or o (DrContextIssue (lit reason)).

(** [let _ = record(..)]: a refused record leaves the checklist as it was. *)
Definition record_quiet (now : Z) (c : AuthorityChecklist) (name : string) : AuthorityChecklist :=
  match record_check (lit name) now c with Ok c' => c' | _ => c end.

Definition record_or_deny (now : Z) (name : string) (c : AuthorityChecklist) : outcome DenyReason AuthorityChecklist :=
  match record_check (lit name) now c with Ok c' => Ok c' | _ => Err (DrContextIssue (lit "authority checklist")) end.

Definition to_option {E A} (m : outcome E A) : option A := match m with Ok a => Some a | _ => None end.

(** What an admission gives: the notes, the context and the runtime it is bound to. *)
Definition Admission : Type := list text * TenantExecutionContext * TenantRuntimeRecord.

Section gateway.
Context `{UuidText} {libs : LedgerLibs} (bytes : text -> Z).
Context (inputs : ExecutionInputs) (rd : GatewayReads) (trace : ExecutionTrace).

(** The runtime of the tenant and its fence. *)
Definition gateway_runtime (organization : Z) : outcome DenyReason (TenantRuntimeRecord * text) :=
  rows ← answer "runtime_registry" rd.(rd_current).(w_rows);
  runtime ← ok_or (current_runtime inputs.(xi_policy) rd.(rd_current).(w_now) organization rows)
              (DrFenceFailed (lit "no_live_runtime"));
  reject_if (negb (runtime_live runtime.(rt_status))) (DrFenceFailed (lit "no_live_runtime")) ;;
  note ← fence_guard inputs.(xi_policy) rd.(rd_fence).(w_now)
           (mkFenceToken organization runtime.(rt_runtime_id) runtime.(rt_generation)) rd.(rd_fence).(w_rows);
  Ok (runtime, note).

(** The plan, the configuration and the tenant's own switch. *)
Definition gateway_policy (r : TenantExecutionRequest) : outcome DenyReason (EffectiveTenantConfig * list text) :=
  plan ← answer "entitlement_provider" (rd.(rd_plan).(w_plan) r.(tq_organization_id));
  n1 ← entitlement_module_guard plan r.(tq_module);
  n2 ← entitlement_mode_guard plan r.(tq_mode);
  config ← answer "config_cache" (rd.(rd_config).(w_config) r.(tq_organization_id));
  let effective := resolve_config inputs.(xi_bounds) (Some config) (Some inputs.(xi_overrides)) None in
  n3 ← module_guard effective r.(tq_module);
  n4 ← control_guard (rd.(rd_control).(w_control) r.(tq_organization_id) r.(tq_module)) r.(tq_module);
  n5 ← mode_guard effective r.(tq_mode);
  Ok (effective, [n1; n2; n3; n4; n5]).

(** The context is issued over the wallet row, which is read again. *)
Definition gateway_issue (now : Z) (r : TenantExecutionRequest) (runtime : TenantRuntimeRecord)
    (checklist : AuthorityChecklist) : outcome DenyReason TenantExecutionContext :=
  row ← ok_or (to_option (wallet_row rd.(rd_again) r) ≫= id) (DrDependencyError (lit "binding_registry"));
  wallet ← or_issue "wallet address rejected" (TenantWalletRef_new r.(tq_organization_id) row.(wb_address));
  signer ← or_issue "signer reference rejected"
             (TenantSignerRef_new r.(tq_organization_id) r.(tq_signer).(sb_provider) r.(tq_signer).(sb_key_ref));
  scope ← or_issue "scope construction"
            (ExecutionScope_new r.(tq_organization_id) runtime.(rt_runtime_id) runtime.(rt_generation)
               r.(tq_module) r.(tq_mode));
  authority ← or_issue "authority incomplete" (to_option (finish_checks scope now checklist));
  or_issue "context issuance"
    (to_option (issue_context r.(tq_organization_id) runtime.(rt_runtime_id) runtime.(rt_generation)
       r.(tq_module) r.(tq_mode) authority (with_wallet_label bytes r.(tq_wallet_label) wallet) signer trace)).

(** [TenantExecutionGateway::authorize]; [now] is the one instant of its checklist. *)
Definition gateway_authorize (now : Z) (principal : text) (r : TenantExecutionRequest) (org : Organization)
    : outcome DenyReason Admission :=
  reject_if (is_empty (trim principal)) (DrContextIssue (lit "missing principal")) ;;
  c ← record_or_deny now "authenticated_principal" [];
  reject_if (negb (bool_decide (org.(og_id) = r.(tq_organization_id))))
    (DrContextIssue (lit "request tenant does not match the resolved organization")) ;;
  c ← record_or_deny now "tenant_context" c;
  n0 ← tenant_guard org;
  let c := record_quiet now c "tenant_lifecycle" in
  '(runtime, n1) ← gateway_runtime r.(tq_organization_id);
  let c := foldl (record_quiet now) c ["runtime_exists"; "runtime_active"; "runtime_generation"]%string in
  '(effective, ns) ← gateway_policy r;
  let c := foldl (record_quiet now) c ["module_entitlement"; "tenant_config"]%string in
  n2 ← binding_guard rd r;
  let c := foldl (record_quiet now) c ["wallet_binding"; "signer_binding"]%string in
  n3 ← risk_guard effective r.(tq_size_usd) r.(tq_slippage_bps);
  let c := record_quiet now c "risk_permission" in
  context ← gateway_issue now r runtime c;
  Ok ([n0; n1] ++ ns ++ [n2; n3], context, runtime).

(** [context_guard::check] and [authorize_in_context]. *)
Definition context_guard (principal : text) (r : TenantExecutionRequest) (org : Organization) : Guard :=
  reject_if (is_empty (trim principal)) (DrContextIssue (lit "missing principal")) ;;
  reject_if (negb (bool_decide (org.(og_id) = r.(tq_organization_id))))
    (DrContextIssue (lit "request tenant does not match the resolved organization")) ;;
  tenant_guard org.

Definition authorize_in_context (now : Z) (principal : text) (r : TenantExecutionRequest) (org : Organization)
    : outcome DenyReason Admission :=
  context_guard principal r org ;; gateway_authorize now principal r org.
End gateway.

(** * The authority of an admission *)

(** Every check of the mandated order, recorded at one instant. *)
Definition all_checks (now : Z) : AuthorityChecklist := map (fun n => (n, now)) AUTHORITY_CHECK_ORDER.

(** The checklist is a prefix of the mandated order. *)
Definition in_order (c : AuthorityChecklist) : Prop := map fst c `prefix_of` AUTHORITY_CHECK_ORDER.

Lemma order_nodup : NoDup AUTHORITY_CHECK_ORDER.
Proof. apply (bool_decide_unpack _). by vm_compute. Qed.

(** The records asked of a checklist, those that fail left out. *)
Definition records_asked (asks : list (text * Z)) (c : AuthorityChecklist) : AuthorityChecklist :=
  foldl (fun c a => match record_check a.1 a.2 c with Ok c' => c' | _ => c end) c asks.

Lemma prefix_at (l : list text) k i : l = take k AUTHORITY_CHECK_ORDER -> (k <= 11)%nat ->
  forall x, AUTHORITY_CHECK_ORDER !! i = Some x -> x ∈ l <-> (i < k)%nat.
Proof.
  intros -> Hk x Hx. split.
  - intros (j & Hj)%list_elem_of_lookup. apply lookup_take_Some in Hj as [Hj Hlt].
    by rewrite (NoDup_lookup _ _ _ _ order_nodup Hx Hj).
  - intros Hi. apply list_elem_of_lookup. exists i. by rewrite lookup_take_lt.
Qed.

Lemma in_order_take c : in_order c <-> map fst c = take (length c) AUTHORITY_CHECK_ORDER.
Proof.
  unfold in_order. split.
  - intros [k Hk]. rewrite Hk, take_app_length'; [done|]. by rewrite length_map.
  - intros H. exists (drop (length c) AUTHORITY_CHECK_ORDER). by rewrite H, take_drop.
Qed.

Lemma record_in_order name at_ c c' : record_check name at_ c = Ok c' -> in_order c -> in_order c'.
Proof.
  intros Hr Hc. pose proof (proj1 (in_order_take c) Hc) as Htake.
  assert (Hlen : (length c <= 11)%nat) by (apply prefix_length in Hc; by rewrite length_map in Hc).
  unfold record_check in Hr. destruct (list_find _ _) as [[i x]|] eqn:Hf; [|done].
  apply list_find_Some in Hf as (Hi & <- & _).
  pose proof (fun j y => prefix_at _ _ j Htake Hlen y) as Hat.
  assert (Hb : recorded name c = bool_decide (i < length c)%nat) by (apply bool_decide_ext; by apply Hat).
  assert (Happ : recorded name c = false -> (i <= length c)%nat -> in_order (c ++ [(name, at_)])).
  { rewrite Hb. intros Hn%bool_decide_eq_false Hle. assert (i = length c) as -> by lia.
    apply in_order_take. rewrite map_app, length_app. cbn. rewrite Htake, Nat.add_1_r. symmetry. by apply take_S_r. }
  destruct i as [|j]; cbv beta iota zeta in Hr.
  - destruct (recorded name c); simplify_eq; [done|]. apply Happ; [done|lia].
  - destruct (recorded (default [] (AUTHORITY_CHECK_ORDER !! j)) c) eqn:Hreq; cbn [negb] in Hr; [|done].
    destruct (recorded name c); simplify_eq; [done|]. apply Happ; [done|].
    destruct (AUTHORITY_CHECK_ORDER !! j) as [y|] eqn:Hy; cbn [default] in Hreq.
    + apply bool_decide_eq_true, (Hat j y Hy) in Hreq. lia.
    + apply lookup_ge_None in Hy. apply lookup_lt_Some in Hi. change (length AUTHORITY_CHECK_ORDER) with 11%nat in *. lia.
Qed.

Lemma complete_iff c : is_complete c = true <-> map fst c = AUTHORITY_CHECK_ORDER.
Proof.
  unfold is_complete. generalize AUTHORITY_CHECK_ORDER. induction c as [|[n t] c IH]; intros [|m l]; try done.
  cbn. rewrite andb_true_iff, andb_true_iff, bool_decide_eq_true. specialize (IH l). rewrite andb_true_iff in IH.
  split; [intros (? & -> & ?); f_equal; tauto | intros [= -> Hl]; tauto].
Qed.

Lemma finish_Ok `{UuidText} {libs : LedgerLibs} scope at_ c a :
  finish_checks scope at_ c = Ok a <-> is_complete c = true /\ a = mkExecutionAuthority (fingerprint_of scope) at_ c.
Proof.
  unfold finish_checks. destruct (is_complete c); cbv beta iota delta [negb]; split.
  - intros [= <-]. by split.
  - intros [_ ->]. reflexivity.
  - intros Hf. discriminate Hf.
  - intros [Hf _]. discriminate Hf.
Qed.

(** Whatever is asked of a checklist and in whatever order, what it has recorded is a prefix
    of the mandated order; an authority is issued exactly when all eleven checks are there. *)
Theorem authority_needs_every_check `{UuidText} {libs : LedgerLibs} asks scope at_ :
  let c := records_asked asks [] in
  in_order c
  /\ (forall a, finish_checks scope at_ c = Ok a <->
        map fst c = AUTHORITY_CHECK_ORDER /\ a = mkExecutionAuthority (fingerprint_of scope) at_ c)
  /\ (length c = 11%nat -> is_ok (finish_checks scope at_ c) = true).
Proof.
  cbv zeta. assert (Ho : in_order (records_asked asks [])).
  { unfold records_asked. assert (in_order []) as H0 by apply prefix_nil. revert H0. generalize (@nil (text * Z)).
    induction asks as [|[n t] asks IH]; intros c Hc; [done|]. cbn [foldl fst snd]. apply IH.
    destruct (record_check n t c) eqn:Hr; [by eapply record_in_order|done..]. }
  split; [done|]. assert (Hf : forall a, finish_checks scope at_ (records_asked asks []) = Ok a <->
        map fst (records_asked asks []) = AUTHORITY_CHECK_ORDER
        /\ a = mkExecutionAuthority (fingerprint_of scope) at_ (records_asked asks [])).
  { intros a. rewrite finish_Ok, complete_iff. reflexivity. }
  split; [done|]. intros Hl. apply in_order_take in Ho. rewrite Hl in Ho.
  rewrite (proj2 (Hf _) (conj Ho eq_refl)). reflexivity.
Qed.

Lemma lit_inj a b : lit a = lit b -> a = b.
Proof.
  unfold lit. intros H. rewrite <- (String.string_of_list_ascii_of_string a), <- (String.string_of_list_ascii_of_string b).
  f_equal. revert H. generalize (String.list_ascii_of_string a) (String.list_ascii_of_string b). clear.
  induction l as [|c l IH]; intros [|d k] [=]; [done|]. f_equal; [|by apply IH].
  rewrite <- (Ascii.ascii_N_embedding c), <- (Ascii.ascii_N_embedding d). f_equal. by apply (inj Z.of_N).
Qed.

Definition scope_suffix (m : BotModule) (d : ExecutionMode) : text :=
  lit " module=" ++ BotModule_as_str m ++ lit " mode=" ++ ExecutionMode_as_str d.

Lemma scope_suffixes m d m' d' : scope_suffix m d `suffix_of` scope_suffix m' d' -> m = m' /\ d = d'.
Proof.
  destruct m, d, m', d'; intros H; apply (bool_decide_pack _) in H; vm_compute in H; first [destruct H; fail | clear H; by split].
Qed.

Lemma scope_suffix_inj m d m' d' (x y : text) :
  x ++ scope_suffix m d = y ++ scope_suffix m' d' -> m = m' /\ d = d'.
Proof.
  intros H. destruct (suffix_weak_total (scope_suffix m d) (scope_suffix m' d') (x ++ scope_suffix m d)) as [Hs|Hs].
  - by exists x.
  - by exists y.
  - by apply scope_suffixes.
  - apply scope_suffixes in Hs as [-> ->]. done.
Qed.

(** The text an authority is the digest of names its scope: organization, runtime,
    generation, module and mode. *)
Theorem describe_names_the_scope `{UuidTextLaws} (s t : ExecutionScope)
    (Hs : 0 <= s.(xs_generation)) (Ht : 0 <= t.(xs_generation)) (He : describe s = describe t) : s = t.
Proof.
  destruct s as [o r g m d], t as [o' r' g' m' d']. cbn [xs_generation] in *. unfold describe in He.
  cbn [xs_organization_id xs_runtime_id xs_generation xs_module xs_mode] in He.
  apply app_inv_head, app_inj_1 in He as [Ho%uuid_text_inj He]; [|by rewrite !uuid_text_length].
  apply app_inv_head, app_inj_1 in He as [Hr%uuid_text_inj He]; [|by rewrite !uuid_text_length].
  apply app_inv_head in He. destruct (scope_suffix_inj m d m' d' _ _ He) as [-> ->].
  apply app_inv_tail, lit_inj, (inj pretty) in He. congruence.
Qed.

(** * Limits only tighten *)

Lemma tightest_from_spec bounds : forall t v, tightest_from t bounds = Some v ->
  (v = fzero /\ exists b, Some b ∈ bounds /\ limit_usable b = false)
  \/ (Forall (fun o => match o with Some b => limit_usable b = true | None => True end) bounds
      /\ ((forall c, t = Some c -> is_nan c = false) ->
          (t = Some v \/ Some v ∈ bounds)
          /\ (forall b, Some b ∈ bounds -> fleb v b = true) /\ (forall c, t = Some c -> fleb v c = true))).
Proof.
  induction bounds as [|[b|] bounds IH]; intros t v; cbn [tightest_from].
  - intros ->. right. split; [constructor|]. intros Hn. split_and!; [by left|by intros b ?%not_elem_of_nil|].
    intros c [= <-]. by apply fleb_refl, Hn.
  - destruct (limit_usable b) eqn:Hb; cbn [negb].
    2: { intros [= <-]. left. split; [done|]. exists b. split; [set_solver|done]. }
    assert (Hbn : is_nan b = false).
    { unfold limit_usable in Hb. apply andb_true_iff in Hb as [Hb _]. by apply finite_not_nan. }
    intros [[-> (x & Hx & Hu)]|[Hall Hlow]]%IH.
    { left. split; [done|]. exists x. split; [set_solver|done]. }
    right. split; [by constructor|]. intros Hn.
    set (c0 := match t with Some c => if fltb c b then c else b | None => b end) in *.
    assert (Hc0 : is_nan c0 = false /\ fleb c0 b = true /\ (forall c, t = Some c -> fleb c0 c = true)
                  /\ (Some c0 = Some b \/ t = Some c0)).
    { subst c0. destruct t as [c|]; [specialize (Hn c eq_refl)|split_and!; by auto using fleb_refl].
      destruct (fltb c b) eqn:Hcb.
      - split_and!; [done|by apply fltb_leb|intros ? [= <-]; by apply fleb_refl|by right].
      - split_and!; [done|by apply fleb_refl| |by left]. intros ? [= <-].
        by apply fltb_false. }
    destruct Hc0 as (Hcn & Hcb & Hct & Hin).
    destruct Hlow as (Hsrc & Hle & Hself); [by intros ? [= <-]|]. specialize (Hself c0 eq_refl). split_and!.
    + destruct Hsrc as [[= ->]|Hv]; [|right; set_solver]. destruct Hin as [[= ->]| ->]; [right; set_solver|by left].
    + intros x [[= ->]|Hx]%elem_of_cons; [by eapply fleb_trans|by apply Hle].
    + intros c Hc. eapply fleb_trans; [done|by apply Hct].
  - intros [[-> (x & Hx & Hu)]|[Hall Hlow]]%IH.
    { left. split; [done|]. exists x. split; [set_solver|done]. }
    right. split; [by constructor|]. intros Hn. destruct (Hlow Hn) as (Hsrc & Hle & Hself).
    split_and!; [destruct Hsrc; [by left|right; set_solver]| |done].
    intros x [[=]|Hx]%elem_of_cons. by apply Hle.
Qed.

(** A limit in force: below every layer that sets one and one of them, or the zero that
    stands for an unusable layer. *)
Definition in_force (layers : list (option f64)) (limit : option f64) : Prop :=
  exists v, limit = Some v
  /\ ((v = fzero /\ exists b, Some b ∈ layers /\ limit_usable b = false)
      \/ (limit_usable v = true /\ Some v ∈ layers /\ forall b, Some b ∈ layers -> fleb v b = true)).

Lemma usable_number v : limit_usable v = true -> is_nan v = false.
Proof. unfold limit_usable. intros [H _]%andb_true_iff. by apply finite_not_nan. Qed.

Lemma tightest_some bounds : forall c, exists v, tightest_from (Some c) bounds = Some v.
Proof.
  induction bounds as [|[b|] bounds IH]; intros c; cbn [tightest_from]; [by eexists| |apply IH].
  destruct (negb (limit_usable b)); [by eexists|apply IH].
Qed.

Lemma tightest_in_force b bounds : in_force (Some b :: bounds) (tightest_f64 (Some b :: bounds)).
Proof.
  assert (exists v, tightest_f64 (Some b :: bounds) = Some v) as [v Hv].
  { unfold tightest_f64. cbn [tightest_from]. destruct (negb (limit_usable b)); [by eexists|apply tightest_some]. }
  exists v. split; [done|]. destruct (tightest_from_spec _ _ _ Hv) as [?|[Hall Hlow]]; [by left|right].
  destruct Hlow as ([?|Hin] & Hle & _); [done|done|]. rewrite Forall_forall in Hall. by specialize (Hall _ Hin).
Qed.

Lemma least_spec zs : forall m,
  let least := foldl (fun m z => match z with None => m | Some z => Some (from_option (fun m => Z.min m z) z m) end) m zs in
  match least with
  | None => m = None /\ forall z, Some z ∉ zs
  | Some v => (m = Some v \/ Some v ∈ zs) /\ (forall c, m = Some c -> v <= c) /\ forall z, Some z ∈ zs -> v <= z
  end.
Proof.
  induction zs as [|[z|] zs IH]; intros m; cbv zeta; cbn [foldl].
  - destruct m; [|split; [done|set_solver]]. split_and!; [by left|by intros ? [= ->]|set_solver].
  - specialize (IH (Some (from_option (fun m => Z.min m z) z m))). cbv zeta in IH. destruct (foldl _ _ zs) as [v|].
    + destruct IH as (Hin & Hle & Hall). specialize (Hle _ eq_refl). split_and!.
      * destruct Hin as [[= Hv]|Hv]; [|right; set_solver]. destruct m as [c|]; cbn in *; [|right; set_solver].
        destruct (Z.min_spec c z) as [[_ He]|[_ He]]; rewrite He in Hv; subst; [by left|right; set_solver].
      * intros c ->. cbn in Hle. lia.
      * intros x [[= ->]|Hx]%elem_of_cons; [|by apply Hall]. destruct m; cbn in Hle; lia.
    + by destruct IH.
  - specialize (IH m). cbv zeta in IH. destruct (foldl _ _ zs) as [v|].
    + destruct IH as (Hin & Hle & Hall). split_and!; [destruct Hin; [by left|right; set_solver]|done|].
      intros x [[=]|Hx]%elem_of_cons. by apply Hall.
    + destruct IH as [-> Hn]. split; [done|]. intros x [[=]|Hx]%elem_of_cons. by destruct (Hn x).
Qed.

Lemma least_in_force b zs :
  exists v, least_of (Some b :: zs) = Some v /\ Some v ∈ Some b :: zs /\ forall z, Some z ∈ Some b :: zs -> v <= z.
Proof.
  pose proof (least_spec (Some b :: zs) None) as Hl. cbv zeta in Hl. fold (least_of (Some b :: zs)) in Hl.
  destruct (least_of _) as [v|]; [|destruct Hl as [_ Hl]; destruct (Hl b); by left].
  exists v. destruct Hl as ([?|?] & _ & ?); [done|]. by split_and!.
Qed.

Lemma module_check_set m e x s : module_check x (module_set m e s) = if decide (m = x) then e else module_check x s.
Proof.
  unfold module_check, module_state_of. induction s as [|[m' e'] s IH]; cbn [module_set list_find].
  - cbn [fst]. destruct (decide (m = x)); reflexivity.
  - destruct (decide (m' = m)) as [->|Hm]; cbn [list_find fst].
    + destruct (decide (m = x)); reflexivity.
    + destruct (decide (m' = x)) as [->|Hx].
      * destruct (decide (m = x)); [congruence|reflexivity].
      * destruct (list_find _ (module_set m e s)) as [[??]|], (list_find _ s) as [[??]|]; cbn in *; exact IH.
Qed.

Lemma degraded_check x ms : forall s,
  module_check x (foldl (fun s m => module_set m (MeDisabled MdDegraded) s) s ms)
  = if decide (x ∈ ms) then MeDisabled MdDegraded else module_check x s.
Proof.
  induction ms as [|m ms IH]; intros s; cbn [foldl].
  - by destruct (decide (x ∈ [])) as [?%not_elem_of_nil|].
  - rewrite IH, module_check_set. destruct (decide (m = x)) as [->|Hm].
    + destruct (decide (x ∈ ms)), (decide (x ∈ x :: ms)); try done; set_solver.
    + destruct (decide (x ∈ ms)), (decide (x ∈ m :: ms)); try done; set_solver.
Qed.

(** The layers of a resolution. *)
Definition position_layers (b : GlobalSafetyBounds) (t : TenantConfigModel) (r : option RuntimeOverrides)
    (o : option OperationConstraints) : list (option f64) :=
  [Some b.(gb_max_position_usd); t.(tc_risk).(tr_max_position_usd); r ≫= ov_max_position_usd; o ≫= oc_max_position_usd].
Definition loss_layers (b : GlobalSafetyBounds) (t : TenantConfigModel) (r : option RuntimeOverrides) : list (option f64) :=
  [Some b.(gb_daily_loss_usd_cap); t.(tc_risk).(tr_daily_loss_usd_cap); r ≫= ov_daily_loss_usd_cap].
Definition slippage_layers (b : GlobalSafetyBounds) (t : TenantConfigModel) (o : option OperationConstraints)
    : list (option Z) :=
  [Some b.(gb_max_slippage_bps); t.(tc_risk).(tr_max_slippage_bps); o ≫= oc_max_slippage_bps].

(** What a resolution puts in force: every limit is the tightest of its layers (zero when a
    layer is no limit at all), a mode is allowed exactly when the platform and the tenant allow
    it and the runtime does not refuse it, and a module is enabled exactly when the tenant has
    it enabled and the runtime has not degraded it. *)
Theorem limits_only_tighten bounds tenant runtime operation :
  let e := resolve_config bounds tenant runtime operation in
  let t := default TenantConfigModel_default tenant in
  in_force (position_layers bounds t runtime operation) e.(ef_risk).(tr_max_position_usd)
  /\ in_force (loss_layers bounds t runtime) e.(ef_risk).(tr_daily_loss_usd_cap)
  /\ (exists v, e.(ef_risk).(tr_max_slippage_bps) = Some v /\ Some v ∈ slippage_layers bounds t operation
        /\ forall z, Some z ∈ slippage_layers bounds t operation -> v <= z)
  /\ (forall m, mode_allowed m e = true <->
        m ∈ bounds.(gb_allowed_modes) /\ m ∈ t.(tc_allowed_modes)
        /\ forall r, runtime = Some r -> m ∉ r.(ov_refused_modes))
  /\ (forall m, module_check m e.(ef_modules) = MeEnabled <->
        module_check m t.(tc_modules) = MeEnabled /\ forall r, runtime = Some r -> m ∉ r.(ov_degraded_modules)).
Proof.
  cbv zeta. unfold resolve_config. cbn [ef_risk ef_allowed_modes ef_modules tr_max_position_usd tr_daily_loss_usd_cap tr_max_slippage_bps].
  set (t := default _ _). split_and!.
  - apply tightest_in_force.
  - apply tightest_in_force.
  - apply least_in_force.
  - intros m. unfold mode_allowed. cbn [ef_allowed_modes]. rewrite bool_decide_eq_true. destruct runtime as [r|].
    + rewrite !list_elem_of_filter. split; [|naive_solver]. intros (? & ? & ?). split_and!; [done..|]. by intros ? [= <-].
    + rewrite list_elem_of_filter. split; [|naive_solver]. intros (? & ?). by split_and!.
  - intros m. destruct runtime as [r|]; [|naive_solver]. rewrite degraded_check. destruct (decide _); split; try done.
    + intros [_ Hr]. by destruct (Hr r).
    + intros ?. split; [done|]. by intros ? [= <-].
    + by intros [? _].
Qed.

(** * The gateway admits exactly what every stage allows *)

Definition module_in_plan (plan : EntitlementSet) (m : BotModule) : Prop :=
  exists f, feature_key m = Some f /\ limit_for plan f <> FlDisabled.

Definition within_size (r : TenantRiskLimits) (size : option f64) : Prop :=
  forall s, size = Some s -> limit_usable s = true /\ forall cap, r.(tr_max_position_usd) = Some cap -> fltb cap s = false.

Definition within_slippage (r : TenantRiskLimits) (slippage : option Z) : Prop :=
  forall bps, slippage = Some bps -> bps <> 0 /\ forall cap, r.(tr_max_slippage_bps) = Some cap -> bps <= cap.

(** The limits can be limits, and what is asked for is within them. *)
Definition within_limits (r : TenantRiskLimits) (size : option f64) (slippage : option Z) : Prop :=
  limit_invalid r.(tr_max_position_usd) = false /\ limit_invalid r.(tr_daily_loss_usd_cap) = false
  /\ r.(tr_max_slippage_bps) <> Some 0 /\ within_size r size /\ within_slippage r slippage.

Lemma tenant_guard_Ok o n :
  tenant_guard o = Ok n <-> n = lit "tenant_active" /\ (o.(og_status) = OsActive \/ o.(og_status) = OsTrialing).
Proof. unfold tenant_guard. destruct o.(og_status); split; try naive_solver congruence. Qed.

Lemma fence_guard_Ok policy now tok rows n :
  fence_guard policy now tok rows = Ok n <->
  n = lit "fence_current" /\ exists rs x, rows = Ok rs /\ verify_fence policy now tok rs = FvCurrent x.
Proof.
  unfold fence_guard. destruct rows as [rs|e|]; [|split; [done|by intros (_ & ? & ? & ? & _)]..].
  destruct (verify_fence policy now tok rs) as [x| | | |] eqn:Hv; split; intros Hn;
    try discriminate Hn; try (destruct Hn as (_ & ? & ? & [= <-] & Hx); congruence).
  - injection Hn as <-. split; [reflexivity|]. by exists rs, x.
  - destruct Hn as [-> _]. reflexivity.
Qed.

Lemma module_plan_Ok plan m n :
  entitlement_module_guard plan m = Ok n <-> n = lit "module_entitled" /\ module_in_plan plan m.
Proof.
  unfold entitlement_module_guard, module_in_plan. destruct (feature_key m) as [f|].
  - destruct (limit_for plan f) eqn:Hl; split; intros Hn; try discriminate Hn;
      first [ injection Hn as <-; split; [reflexivity|]; exists f; split; [reflexivity|congruence]
            | destruct Hn as (_ & ? & [= <-] & ?); congruence
            | destruct Hn as [Hn _]; rewrite Hn; reflexivity ].
  - split; [intros Hn; discriminate Hn|intros (_ & f & [=] & _)].
Qed.

Lemma mode_plan_Ok plan mode n :
  entitlement_mode_guard plan mode = Ok n <->
  n = lit "mode_entitled" /\ (mode = Live -> limit_for plan LIVE_TRADING <> FlDisabled).
Proof.
  unfold entitlement_mode_guard, live_trading_allowed.
  destruct (bool_decide_reflect (mode = Live)), (limit_for plan LIVE_TRADING);
    cbn [negb andb]; split; intros Hn; try discriminate Hn;
    try (injection Hn as <-; split; [reflexivity|done]);
    try (destruct Hn as [-> Hn]; try reflexivity; by destruct Hn).
Qed.

Lemma module_guard_Ok e m n :
  module_guard e m = Ok n <-> n = lit "module_enabled" /\ module_check m e.(ef_modules) = MeEnabled.
Proof.
  unfold module_guard. destruct (module_check m _); split; intros Hn; try discriminate Hn.
  - by injection Hn as <-.
  - destruct Hn as [-> _]. reflexivity.
  - by destruct Hn as [_ [=]].
Qed.

Lemma control_guard_Ok o m n :
  control_guard o m = Ok n <->
  n = lit "tenant_module_control_enabled" /\ exists c, o = Ok c /\ c <> Some false.
Proof.
  unfold control_guard. destruct o as [[[]|]| |]; split; intros Hn; try discriminate Hn;
    try (injection Hn as <-; split; [reflexivity|]; by eexists);
    try (destruct Hn as [-> (c & [= <-] & Hc)]; first [reflexivity|by destruct Hc]).
Qed.

Lemma mode_guard_Ok e mode n :
  mode_guard e mode = Ok n <-> n = lit "mode_allowed" /\ mode_allowed mode e = true.
Proof.
  unfold mode_guard. destruct (mode_allowed mode e); split; intros Hn; try discriminate Hn.
  - by injection Hn as <-.
  - destruct Hn as [-> _]. reflexivity.
  - by destruct Hn as [_ [=]].
Qed.

Lemma wallet_guard_Ok row label n :
  wallet_guard row label = Ok n <-> n = lit "wallet_bound" /\ exists b, row = Ok (Some b) /\ b.(wb_active) = true.
Proof.
  unfold wallet_guard. destruct row as [[b|]|e|]; try (split; [intros Hn; discriminate Hn|by intros (_ & ? & [=] & _)]).
  destruct (wb_active b) eqn:Ha; split; intros Hn; try discriminate Hn.
  - injection Hn as <-. split; [reflexivity|]. by exists b.
  - destruct Hn as [-> _]. reflexivity.
  - destruct Hn as (_ & ? & [= <-] & ?). congruence.
Qed.

Lemma signer_guard_Ok row key n :
  signer_guard row key = Ok n <-> n = lit "signer_bound" /\ exists b, row = Ok (Some b) /\ b.(sr_active) = true.
Proof.
  unfold signer_guard. destruct row as [[b|]|e|]; try (split; [intros Hn; discriminate Hn|by intros (_ & ? & [=] & _)]).
  destruct (sr_active b) eqn:Ha; split; intros Hn; try discriminate Hn.
  - injection Hn as <-. split; [reflexivity|]. by exists b.
  - destruct Hn as [-> _]. reflexivity.
  - destruct Hn as (_ & ? & [= <-] & ?). congruence.
Qed.

Lemma risk_guard_Ok e size slippage n :
  risk_guard e size slippage = Ok n <-> n = lit "risk_within_limits" /\ within_limits e.(ef_risk) size slippage.
Proof.
  unfold risk_guard, within_limits. cbv zeta. split.
  - intros ([] & Hinv & ([] & Hs & ([] & Hp & Hn)%outcome_bind_Ok)%outcome_bind_Ok)%outcome_bind_Ok.
    injection Hn as <-. split; [reflexivity|].
    apply reject_if_Ok, orb_false_iff in Hinv as [[? ?]%orb_false_iff Hz%bool_decide_eq_false].
    split_and!; [done..| |].
    + intros s ->. inv_ok. split; [by apply negb_false_iff|]. intros cap Hc. rewrite Hc in *. by inv_ok.
    + intros bps ->. inv_ok. split; [lia|]. intros cap Hc. rewrite Hc in *. inv_ok. lia.
  - intros (-> & Hp & Hd & Hz & Hs & Hb). apply outcome_bind_Ok. exists tt. split; [|apply outcome_bind_Ok; exists tt;
      split; [|apply outcome_bind_Ok; exists tt; split; [|reflexivity]]].
    + rewrite Hp, Hd, bool_decide_eq_false_2; done.
    + destruct size as [s|]; [|done]. destruct (Hs s eq_refl) as [-> Hcap]. cbn [negb reject_if].
      apply outcome_bind_Ok. exists tt. split; [done|].
      destruct (tr_max_position_usd _) as [cap|]; [|done]. by rewrite (Hcap cap eq_refl).
    + destruct slippage as [bps|]; [|done]. destruct (Hb bps eq_refl) as [Hne Hcap].
      apply outcome_bind_Ok. exists tt. split; [apply reject_if_Ok; lia|].
      destruct (tr_max_slippage_bps _) as [cap|]; [|done]. apply reject_if_Ok. specialize (Hcap cap eq_refl). lia.
Qed.

Section stages.
Context (inputs : ExecutionInputs) (rd : GatewayReads).

(** The tenant has a live runtime, and its token is still current when it is verified. *)
Definition runtime_stands (organization : Z) (rt : TenantRuntimeRecord) : Prop :=
  exists rows rows' x,
    rd.(rd_current).(w_rows) = Ok rows
    /\ current_runtime inputs.(xi_policy) rd.(rd_current).(w_now) organization rows = Some rt
    /\ rd.(rd_fence).(w_rows) = Ok rows'
    /\ verify_fence inputs.(xi_policy) rd.(rd_fence).(w_now)
         (mkFenceToken organization rt.(rt_runtime_id) rt.(rt_generation)) rows' = FvCurrent x.

(** The plan has the module (and live trading for a live request), the configuration that is
    in force enables the module and allows the mode, and the tenant has not switched it off. *)
Definition policy_allows (r : TenantExecutionRequest) (e : EffectiveTenantConfig) : Prop :=
  exists plan config control,
    rd.(rd_plan).(w_plan) r.(tq_organization_id) = Ok plan
    /\ module_in_plan plan r.(tq_module)
    /\ (r.(tq_mode) = Live -> limit_for plan LIVE_TRADING <> FlDisabled)
    /\ rd.(rd_config).(w_config) r.(tq_organization_id) = Ok config
    /\ e = resolve_config inputs.(xi_bounds) (Some config) (Some inputs.(xi_overrides)) None
    /\ module_check r.(tq_module) e.(ef_modules) = MeEnabled
    /\ rd.(rd_control).(w_control) r.(tq_organization_id) r.(tq_module) = Ok control /\ control <> Some false
    /\ mode_allowed r.(tq_mode) e = true.

(** The wallet and the signer are bound and active when they are checked. *)
Definition bindings_stand (r : TenantExecutionRequest) : Prop :=
  (exists w, wallet_row rd.(rd_wallet) r = Ok (Some w) /\ w.(wb_active) = true)
  /\ (exists s, signer_row rd.(rd_signer) r = Ok (Some s) /\ s.(sr_active) = true).

(** The wallet is still there when it is read again, and the references can be made. *)
Definition issuable (r : TenantExecutionRequest) (rt : TenantRuntimeRecord) (row : WalletBinding)
    (s : TenantSignerRef) : Prop :=
  wallet_row rd.(rd_again) r = Ok (Some row)
  /\ valid_public_address row.(wb_address) = true
  /\ TenantSignerRef_new r.(tq_organization_id) r.(tq_signer).(sb_provider) r.(tq_signer).(sb_key_ref) = Some s
  /\ r.(tq_organization_id) <> 0 /\ rt.(rt_runtime_id) <> 0.

Lemma current_is_live policy now o rows rt : current_runtime policy now o rows = Some rt ->
  rt.(rt_organization_id) = o /\ runtime_live rt.(rt_status) = true.
Proof.
  unfold current_runtime. pose proof (live_for_spec o rows) as Hl. destruct (live_for o rows) as [x|]; [|done].
  destruct (lease_is_live _); [|done]. intros [= <-]. apply Hl.
Qed.

Lemma gateway_runtime_Ok o rt n :
  gateway_runtime inputs rd o = Ok (rt, n) <-> n = lit "fence_current" /\ runtime_stands o rt.
Proof.
  unfold gateway_runtime, runtime_stands. split.
  - intros (rows & Hr & (x & Hx%ok_or_Ok & ([] & Hl & (n' & Hf & Hn)%outcome_bind_Ok)%outcome_bind_Ok)%outcome_bind_Ok)%outcome_bind_Ok.
    injection Hn as -> ->. apply fence_guard_Ok in Hf as (-> & rows' & y & Hr' & Hv). split; [reflexivity|].
    exists rows, rows', y. unfold answer in Hr. destruct (w_rows _) eqn:Hw in Hr; simplify_eq. by split_and!.
  - intros (-> & rows & rows' & x & Hr & Hc & Hr' & Hv). rewrite Hr. unfold answer.
    apply outcome_bind_Ok. exists rows. split; [reflexivity|]. rewrite Hc. apply outcome_bind_Ok. exists rt. split; [reflexivity|].
    destruct (current_is_live _ _ _ _ _ Hc) as [_ ->]. apply outcome_bind_Ok. exists tt. split; [reflexivity|].
    apply outcome_bind_Ok. exists (lit "fence_current"). split; [|reflexivity]. apply fence_guard_Ok.
    split; [reflexivity|]. by exists rows', x.
Qed.

Lemma answer_Ok {A} source (m : outcome unit A) a : answer source m = Ok a <-> m = Ok a.
Proof. unfold answer. destruct m; split; congruence. Qed.

Definition policy_notes : list text :=
  [lit "module_entitled"; lit "mode_entitled"; lit "module_enabled"; lit "tenant_module_control_enabled"; lit "mode_allowed"].

Lemma gateway_policy_Ok r e ns :
  gateway_policy inputs rd r = Ok (e, ns) <-> ns = policy_notes /\ policy_allows r e.
Proof.
  unfold gateway_policy, policy_allows, policy_notes. cbv zeta. split.
  - intros (plan & Hp%answer_Ok & (n1 & H1 & (n2 & H2 & (config & Hc%answer_Ok & (n3 & H3 & (n4 & H4 &
      (n5 & H5 & Hn)%outcome_bind_Ok)%outcome_bind_Ok)%outcome_bind_Ok)%outcome_bind_Ok)%outcome_bind_Ok)%outcome_bind_Ok)%outcome_bind_Ok.
    injection Hn as <- <-. apply module_plan_Ok in H1 as [-> ?]. apply mode_plan_Ok in H2 as [-> ?].
    apply module_guard_Ok in H3 as [-> ?]. apply control_guard_Ok in H4 as (-> & control & ? & ?).
    apply mode_guard_Ok in H5 as [-> ?]. split; [reflexivity|]. exists plan, config, control. by split_and!.
  - intros (-> & plan & config & control & Hp & Hm & Hl & Hc & He & Hen & Hk & Hkc & Hd). rewrite He in Hen, Hd |- *.
    apply outcome_bind_Ok. exists plan. split; [by apply answer_Ok|].
    apply outcome_bind_Ok. exists (lit "module_entitled"). split; [by apply module_plan_Ok|].
    apply outcome_bind_Ok. exists (lit "mode_entitled"). split; [by apply mode_plan_Ok|].
    apply outcome_bind_Ok. exists config. split; [by apply answer_Ok|].
    apply outcome_bind_Ok. exists (lit "module_enabled"). split; [by apply module_guard_Ok|].
    apply outcome_bind_Ok. exists (lit "tenant_module_control_enabled"). split; [apply control_guard_Ok; split; [reflexivity|by exists control]|].
    apply outcome_bind_Ok. exists (lit "mode_allowed"). split; [by apply mode_guard_Ok|reflexivity].
Qed.

Lemma binding_guard_Ok r n : binding_guard rd r = Ok n <-> n = lit "signer_bound" /\ bindings_stand r.
Proof.
  unfold binding_guard, bindings_stand. split.
  - intros (n1 & [_ Hw]%wallet_guard_Ok & [-> Hs]%signer_guard_Ok)%outcome_bind_Ok. by split_and!.
  - intros (-> & Hw & Hs). apply outcome_bind_Ok. exists (lit "wallet_bound").
    split; [by apply wallet_guard_Ok|by apply signer_guard_Ok].
Qed.
End stages.

(** The first [k] checks of the mandated order. *)
Definition firsts (k : nat) (now : Z) : AuthorityChecklist := take k (all_checks now).

Lemma record_principal now : record_or_deny now "authenticated_principal" [] = Ok (firsts 1 now).
Proof. vm_compute. reflexivity. Qed.
Lemma record_tenant now : record_or_deny now "tenant_context" (firsts 1 now) = Ok (firsts 2 now).
Proof. vm_compute. reflexivity. Qed.
Lemma record_lifecycle now : record_quiet now (firsts 2 now) "tenant_lifecycle" = firsts 3 now.
Proof. vm_compute. reflexivity. Qed.
Lemma record_runtime now :
  foldl (record_quiet now) (firsts 3 now) ["runtime_exists"; "runtime_active"; "runtime_generation"]%string = firsts 6 now.
Proof. vm_compute. reflexivity. Qed.
Lemma record_policy now :
  foldl (record_quiet now) (firsts 6 now) ["module_entitlement"; "tenant_config"]%string = firsts 8 now.
Proof. vm_compute. reflexivity. Qed.
Lemma record_bindings now :
  foldl (record_quiet now) (firsts 8 now) ["wallet_binding"; "signer_binding"]%string = firsts 10 now.
Proof. vm_compute. reflexivity. Qed.
Lemma record_risk now : record_quiet now (firsts 10 now) "risk_permission" = all_checks now.
Proof. vm_compute. reflexivity. Qed.

Lemma all_complete now : is_complete (all_checks now) = true.
Proof. vm_compute. reflexivity. Qed.

Section admission.
Context `{UuidText} {libs : LedgerLibs} (bytes : text -> Z).
Context (inputs : ExecutionInputs) (rd : GatewayReads) (trace : ExecutionTrace).

Definition scope_of (r : TenantExecutionRequest) (rt : TenantRuntimeRecord) : ExecutionScope :=
  mkExecutionScope r.(tq_organization_id) rt.(rt_runtime_id) rt.(rt_generation) r.(tq_module) r.(tq_mode).

(** The context of an admission. *)
Definition context_of (now : Z) (r : TenantExecutionRequest) (rt : TenantRuntimeRecord) (row : WalletBinding)
    (s : TenantSignerRef) : TenantExecutionContext :=
  mkTenantExecutionContext (scope_of r rt)
    (mkExecutionAuthority (fingerprint_of (scope_of r rt)) now (all_checks now))
    (with_wallet_label bytes r.(tq_wallet_label) (mkTenantWalletRef r.(tq_organization_id) row.(wb_address) None))
    s trace.

Lemma signer_of_tenant o p k s : TenantSignerRef_new o p k = Some s ->
  s = mkTenantSignerRef o p (trim k) true.
Proof. unfold TenantSignerRef_new. cbv zeta. destruct (_ || _); [done|]. by intros [= <-]. Qed.

Lemma labelled_tenant label w : (with_wallet_label bytes label w).(tw_organization_id) = w.(tw_organization_id).
Proof. unfold with_wallet_label. by destruct (_ && _). Qed.

Lemma scope_new r rt : r.(tq_organization_id) <> 0 -> rt.(rt_runtime_id) <> 0 ->
  ExecutionScope_new r.(tq_organization_id) rt.(rt_runtime_id) rt.(rt_generation) r.(tq_module) r.(tq_mode)
  = Some (scope_of r rt).
Proof. intros Ho Hr. unfold ExecutionScope_new. by rewrite (proj2 (Z.eqb_neq _ _) Ho), (proj2 (Z.eqb_neq _ _) Hr). Qed.

Lemma issue_context_Ok now r rt w s : r.(tq_organization_id) <> 0 -> rt.(rt_runtime_id) <> 0 ->
  w.(tw_organization_id) = r.(tq_organization_id) -> s.(ts_organization_id) = r.(tq_organization_id) ->
  s.(ts_active) = true ->
  let a := mkExecutionAuthority (fingerprint_of (scope_of r rt)) now (all_checks now) in
  issue_context r.(tq_organization_id) rt.(rt_runtime_id) rt.(rt_generation) r.(tq_module) r.(tq_mode) a w s trace
  = Ok (mkTenantExecutionContext (scope_of r rt) a w s trace).
Proof.
  intros Ho Hr Hw Hs Ha. cbv zeta. unfold issue_context. rewrite scope_new, Hw, Hs, Ha by done.
  apply outcome_bind_Ok. exists (scope_of r rt). split; [reflexivity|]. unfold authority_authorizes. cbn [xa_fingerprint].
  rewrite !bool_decide_true by reflexivity. reflexivity.
Qed.

Lemma gateway_issue_Ok now r rt ctx :
  gateway_issue bytes rd trace now r rt (all_checks now) = Ok ctx <->
  exists row s, issuable rd r rt row s /\ ctx = context_of now r rt row s.
Proof.
  unfold gateway_issue, issuable, or_issue. split.
  - intros (row & Hrow%ok_or_Ok & (w & Hw%ok_or_Ok & (s & Hs%ok_or_Ok & (sc & Hsc%ok_or_Ok &
      (a & Ha%ok_or_Ok & Hc%ok_or_Ok)%outcome_bind_Ok)%outcome_bind_Ok)%outcome_bind_Ok)%outcome_bind_Ok)%outcome_bind_Ok.
    destruct (wallet_row (rd_again rd) r) as [[row'|]| |] eqn:Hr; try discriminate Hrow. injection Hrow as <-.
    assert (Hids : r.(tq_organization_id) <> 0 /\ rt.(rt_runtime_id) <> 0).
    { unfold ExecutionScope_new in Hsc. destruct (Z.eqb_spec (tq_organization_id r) 0); [done|].
      by destruct (Z.eqb_spec (rt_runtime_id rt) 0). }
    destruct Hids as [Ho Hrt]. rewrite scope_new in Hsc by done. injection Hsc as <-.
    destruct (finish_checks _ _ _) as [a'| |] eqn:Hf in Ha; try discriminate Ha. injection Ha as ->.
    apply finish_Ok in Hf as [_ ->]. unfold TenantWalletRef_new in Hw.
    destruct (_ || _) eqn:Hv in Hw; [done|]. injection Hw as <-. apply orb_false_iff in Hv as [_ Hv%negb_false_iff].
    rewrite issue_context_Ok in Hc; [|done|done|apply labelled_tenant|by rewrite (signer_of_tenant _ _ _ _ Hs)..].
    injection Hc as <-. exists row', s. by split_and!.
  - intros (row & s & (Hrow & Hv & Hs & Ho & Hrt) & ->). rewrite Hrow.
    apply outcome_bind_Ok. exists row. split; [reflexivity|].
    apply outcome_bind_Ok. exists (mkTenantWalletRef r.(tq_organization_id) row.(wb_address) None). split.
    { unfold TenantWalletRef_new. by rewrite Hv, (proj2 (Z.eqb_neq _ _) Ho). }
    apply outcome_bind_Ok. exists s. split; [by rewrite Hs|].
    apply outcome_bind_Ok. exists (scope_of r rt). split; [by rewrite scope_new|].
    apply outcome_bind_Ok. exists (mkExecutionAuthority (fingerprint_of (scope_of r rt)) now (all_checks now)). split.
    { rewrite (proj2 (finish_Ok _ _ _ _) (conj (all_complete now) eq_refl)). reflexivity. }
    rewrite issue_context_Ok; [reflexivity|done|done|apply labelled_tenant|by rewrite (signer_of_tenant _ _ _ _ Hs)..].
Qed.

(** What every stage of the gateway asks. *)
Record admissible (principal : text) (r : TenantExecutionRequest) (org : Organization) (rt : TenantRuntimeRecord)
    (e : EffectiveTenantConfig) (row : WalletBinding) (s : TenantSignerRef) : Prop := mkAdmissible {
  ad_principal : trim principal <> [];
  ad_tenant : org.(og_id) = r.(tq_organization_id);
  ad_status : org.(og_status) = OsActive \/ org.(og_status) = OsTrialing;
  ad_runtime : runtime_stands inputs rd r.(tq_organization_id) rt;
  ad_policy : policy_allows inputs rd r e;
  ad_bound : bindings_stand rd r;
  ad_limits : within_limits e.(ef_risk) r.(tq_size_usd) r.(tq_slippage_bps);
  ad_issuable : issuable rd r rt row s;
}.

Definition admission_notes : list text :=
  [lit "tenant_active"; lit "fence_current"] ++ policy_notes ++ [lit "signer_bound"; lit "risk_within_limits"].

Lemma gateway_Ok now principal r org notes ctx rt :
  gateway_authorize bytes inputs rd trace now principal r org = Ok (notes, ctx, rt) <->
  exists e row s, admissible principal r org rt e row s /\ notes = admission_notes /\ ctx = context_of now r rt row s.
Proof.
  unfold gateway_authorize. rewrite record_principal. split.
  - intros ([] & Hp%reject_if_Ok & (c & Hc & ([] & Ht%reject_if_Ok & (c' & Hc' & (n0 & Hn0 & ([rt' n1] & Hrt &
      ([e ns] & Hpol & (n2 & Hb & (n3 & Hrisk & (ctx' & Hi & Hn)%outcome_bind_Ok)%outcome_bind_Ok)%outcome_bind_Ok)%outcome_bind_Ok)%outcome_bind_Ok)%outcome_bind_Ok)%outcome_bind_Ok)%outcome_bind_Ok)%outcome_bind_Ok)%outcome_bind_Ok.
    injection Hc as <-. rewrite record_tenant in Hc'. injection Hc' as <-.
    rewrite record_lifecycle, record_runtime, record_policy, record_bindings, record_risk in Hi.
    injection Hn as <- -> ->. apply tenant_guard_Ok in Hn0 as [-> ?]. apply gateway_runtime_Ok in Hrt as [-> ?].
    apply gateway_policy_Ok in Hpol as [-> ?]. apply binding_guard_Ok in Hb as [-> ?].
    apply risk_guard_Ok in Hrisk as [-> ?]. apply gateway_issue_Ok in Hi as (row & s & ? & ->).
    exists e, row, s. split; [|split; reflexivity]. apply negb_false_iff, bool_decide_eq_true in Ht.
    apply is_empty_false in Hp. by constructor.
  - intros (e & row & s & [Hp Ht Hst Hrt Hpol Hb Hl Hi] & -> & ->).
    apply outcome_bind_Ok. exists tt. split; [by apply reject_if_Ok, is_empty_false|].
    apply outcome_bind_Ok. exists (firsts 1 now). split; [reflexivity|].
    apply outcome_bind_Ok. exists tt. split; [apply reject_if_Ok; by rewrite bool_decide_true|].
    apply outcome_bind_Ok. exists (firsts 2 now). split; [apply record_tenant|].
    apply outcome_bind_Ok. exists (lit "tenant_active"). split; [by apply tenant_guard_Ok|].
    apply outcome_bind_Ok. exists (rt, lit "fence_current"). split; [by apply gateway_runtime_Ok|].
    apply outcome_bind_Ok. exists (e, policy_notes). split; [by apply gateway_policy_Ok|].
    apply outcome_bind_Ok. exists (lit "signer_bound"). split; [by apply binding_guard_Ok|].
    apply outcome_bind_Ok. exists (lit "risk_within_limits"). split; [by apply risk_guard_Ok|].
    rewrite record_lifecycle, record_runtime, record_policy, record_bindings, record_risk.
    apply outcome_bind_Ok. exists (context_of now r rt row s). split; [|reflexivity].
    apply gateway_issue_Ok. by exists row, s.
Qed.
End admission.

(** Nothing the gateway calls panics. *)
Lemma bind_not_panic {E A B} (m : outcome E A) (k : A -> outcome E B) :
  m <> Panic -> (forall a, k a <> Panic) -> (m ≫= k) <> Panic.
Proof. destruct m; cbn; auto. Qed.

Lemma ok_or_not_panic {E A} (o : option A) (e : E) : ok_or o e <> Panic.
Proof. by destruct o. Qed.
Lemma reject_not_panic {E} b (e : E) : reject_if b e <> Panic.
Proof. by destruct b. Qed.
Lemma answer_not_panic {A} source (m : outcome unit A) : answer source m <> Panic.
Proof. by destruct m. Qed.
Lemma record_not_panic now name c : record_or_deny now name c <> Panic.
Proof. unfold record_or_deny. by destruct (record_check _ _ _). Qed.
Lemma tenant_guard_returns o : tenant_guard o <> Panic.
Proof. unfold tenant_guard. by destruct (og_status o). Qed.
Lemma fence_guard_returns policy now tok rows : fence_guard policy now tok rows <> Panic.
Proof. unfold fence_guard. destruct rows; [|done..]. by destruct (verify_fence _ _ _ _). Qed.
Lemma plan_guard_returns s m : entitlement_module_guard s m <> Panic.
Proof. unfold entitlement_module_guard. destruct (feature_key m); [|done]. by destruct (limit_for _ _). Qed.
Lemma plan_mode_returns s m : entitlement_mode_guard s m <> Panic.
Proof. unfold entitlement_mode_guard. by destruct (_ && _). Qed.
Lemma module_guard_returns e m : module_guard e m <> Panic.
Proof. unfold module_guard. by destruct (module_check _ _). Qed.
Lemma control_guard_returns o m : control_guard o m <> Panic.
Proof. unfold control_guard. by destruct o as [[[]|]| |]. Qed.
Lemma mode_guard_returns e m : mode_guard e m <> Panic.
Proof. unfold mode_guard. by destruct (mode_allowed _ _). Qed.
Lemma wallet_guard_returns row l : wallet_guard row l <> Panic.
Proof. unfold wallet_guard. destruct row as [[b|]| |]; try done. by destruct (wb_active b). Qed.
Lemma signer_guard_returns row k : signer_guard row k <> Panic.
Proof. unfold signer_guard. destruct row as [[b|]| |]; try done. by destruct (sr_active b). Qed.
Lemma risk_guard_returns e s b : risk_guard e s b <> Panic.
Proof.
  unfold risk_guard. cbv zeta. repeat (apply bind_not_panic; [|intros _]); try done.
  - apply reject_not_panic.
  - destruct s; [|done]. apply bind_not_panic; [apply reject_not_panic|intros _].
    destruct (tr_max_position_usd _); [apply reject_not_panic|done].
  - destruct b; [|done]. apply bind_not_panic; [apply reject_not_panic|intros _].
    destruct (tr_max_slippage_bps _); [apply reject_not_panic|done].
Qed.

Create HintDb returns.
#[local] Hint Resolve ok_or_not_panic reject_not_panic answer_not_panic record_not_panic tenant_guard_returns
  fence_guard_returns plan_guard_returns plan_mode_returns module_guard_returns control_guard_returns
  mode_guard_returns wallet_guard_returns signer_guard_returns risk_guard_returns : returns.

#[local] Ltac returns := repeat (apply bind_not_panic; [solve [auto with returns]|intros]); try discriminate; auto with returns.

Lemma gateway_returns `{UuidText} {libs : LedgerLibs} bytes inputs rd trace now principal r org :
  gateway_authorize bytes inputs rd trace now principal r org <> Panic.
Proof.
  unfold gateway_authorize. do 4 (apply bind_not_panic; [solve [auto with returns]|intros]).
  apply bind_not_panic; [solve [auto with returns]|intros n0]. cbv zeta.
  apply bind_not_panic; [unfold gateway_runtime; returns|intros [rt n1]].
  apply bind_not_panic; [unfold gateway_policy; returns|intros [e ns]].
  apply bind_not_panic; [unfold binding_guard; returns|intros n2].
  apply bind_not_panic; [solve [auto with returns]|intros n3].
  apply bind_not_panic; [unfold gateway_issue, or_issue; returns|discriminate].
Qed.

(** A resolution with a tenant's configuration, as the admissions use it. *)
Lemma resolution_limits bounds config overrides :
  let e := resolve_config bounds (Some config) (Some overrides) None in
  in_force (position_layers bounds config (Some overrides) None) e.(ef_risk).(tr_max_position_usd)
  /\ (exists v, e.(ef_risk).(tr_max_slippage_bps) = Some v
        /\ forall z, Some z ∈ slippage_layers bounds config None -> v <= z)
  /\ (forall m, mode_allowed m e = true -> m ∈ bounds.(gb_allowed_modes) /\ m ∈ config.(tc_allowed_modes))
  /\ (forall m, module_check m e.(ef_modules) = MeEnabled -> module_check m config.(tc_modules) = MeEnabled).
Proof.
  cbv zeta. unfold resolve_config. cbn [default ef_risk ef_allowed_modes ef_modules tr_max_position_usd tr_max_slippage_bps].
  split_and!.
  - apply tightest_in_force.
  - destruct (least_in_force bounds.(gb_max_slippage_bps)
      [config.(tc_risk).(tr_max_slippage_bps); None]) as (v & Hv & _ & Hle). by exists v.
  - intros m. unfold mode_allowed. cbn [ef_allowed_modes]. rewrite bool_decide_eq_true, !list_elem_of_filter. naive_solver.
  - intros m. rewrite degraded_check. by destruct (decide _).
Qed.

(** ** Who put what *)

(** The bindings are what was put, one after the other. *)
Inductive BindingPut : Type := PutWallet (b : WalletBinding) | PutSigner (b : SignerBindingRow).

Definition bindings_after (puts : list BindingPut) : Bindings :=
  foldl (fun r p => match p with PutWallet b => put_wallet b r | PutSigner b => put_signer b r end)
    (mkBindings ∅ ∅) puts.

(** The last one an organization put under a label, and for a key. *)
Definition last_wallet (o : Z) (label : text) (puts : list BindingPut) : option WalletBinding :=
  last (omap (fun p => match p with
                       | PutWallet b => if decide (b.(wb_organization_id) = o /\ b.(wb_label) = label) then Some b else None
                       | PutSigner _ => None
                       end) puts).
Definition last_signer (o : Z) (provider : SignerProvider) (key_ref : text) (puts : list BindingPut) : option SignerBindingRow :=
  last (omap (fun p => match p with
                       | PutSigner b =>
                           if decide (b.(sr_organization_id) = o /\ b.(sr_provider) = provider /\ b.(sr_key_ref) = key_ref)
                           then Some b else None
                       | PutWallet _ => None
                       end) puts).

Lemma signer_key_inj p k q j : signer_key p k = signer_key q j -> p = q /\ k = j.
Proof. unfold signer_key. destruct p, q; cbn; intros H; simplify_eq; done. Qed.

Lemma find_wallet_last o label puts : find_wallet o label (bindings_after puts) = last_wallet o label puts.
Proof.
  unfold find_wallet, bindings_after, last_wallet. induction puts as [|p puts IH] using rev_ind; [done|].
  rewrite foldl_snoc, omap_app. cbn [omap list_omap]. destruct p as [b|b]; [|by rewrite app_nil_r].
  cbn [bd_wallets put_wallet]. destruct (decide _) as [[-> ->]|Hne].
  - by rewrite lookup_insert_eq, last_snoc.
  - rewrite app_nil_r, lookup_insert_ne; [done|]. intros [=]. by destruct Hne.
Qed.

Lemma find_signer_last o p k puts : find_signer o p k (bindings_after puts) = last_signer o p k puts.
Proof.
  unfold find_signer, bindings_after, last_signer. induction puts as [|x puts IH] using rev_ind; [done|].
  rewrite foldl_snoc, omap_app. cbn [omap list_omap]. destruct x as [b|b]; [by rewrite app_nil_r|].
  cbn [bd_signers put_signer]. destruct (decide _) as [(-> & -> & ->)|Hne].
  - by rewrite lookup_insert_eq, last_snoc.
  - rewrite app_nil_r, lookup_insert_ne; [done|]. intros [= Ho Hk]. apply signer_key_inj in Hk as [? ?]. by destruct Hne.
Qed.

Lemma wallet_row_last w r b puts : w.(w_bindings) = Ok (bindings_after puts) ->
  wallet_row w r = Ok (Some b) -> last_wallet r.(tq_organization_id) r.(tq_wallet_label) puts = Some b.
Proof. unfold wallet_row. intros ->. cbn. rewrite find_wallet_last. by intros [= ->]. Qed.

Lemma signer_row_last w r b puts : w.(w_bindings) = Ok (bindings_after puts) ->
  signer_row w r = Ok (Some b) ->
  last_signer r.(tq_organization_id) r.(tq_signer).(sb_provider) r.(tq_signer).(sb_key_ref) puts = Some b.
Proof. unfold signer_row. intros ->. cbn. rewrite find_signer_last. by intros [= ->]. Qed.

Section theorems.
Context `{UuidText} {libs : LedgerLibs} (bytes : text -> Z).
Context (inputs : ExecutionInputs) (trace : ExecutionTrace).

(** C13: The gateway issues a context exactly when every stage of the chain allows the request on
    what the stores answered it; otherwise it denies with a reason, and it never panics. *)
Theorem gateway_exact rd now principal r org :
  let answer := gateway_authorize bytes inputs rd trace now principal r org in
  (forall rt, (exists notes ctx, answer = Ok (notes, ctx, rt)) <->
     exists e row s, admissible inputs rd principal r org rt e row s)
  /\ ((forall rt e row s, ~ admissible inputs rd principal r org rt e row s) <-> exists reason, answer = Err reason).
Proof.
  cbv zeta. assert (Hok : forall rt, (exists notes ctx,
      gateway_authorize bytes inputs rd trace now principal r org = Ok (notes, ctx, rt)) <->
      exists e row s, admissible inputs rd principal r org rt e row s).
  { intros rt. setoid_rewrite gateway_Ok. split.
    - intros (notes & ctx & e & row & s & Ha & _). by exists e, row, s.
    - intros (e & row & s & Ha). exists admission_notes, (context_of bytes trace now r rt row s). by exists e, row, s. }
  split; [done|]. split.
  - intros Hn. destruct (gateway_authorize _ _ _ _ _ _ _ _) as [[[notes ctx] rt]|reason|] eqn:Hg; [|by exists reason|].
    + destruct (proj1 (Hok rt)) as (e & row & s & Ha); [by exists notes, ctx|]. by destruct (Hn rt e row s).
    + by apply gateway_returns in Hg.
  - intros [reason Hr] rt e row s Ha. destruct (proj2 (Hok rt)) as (notes & ctx & Hg); [by exists e, row, s|]. congruence.
Qed.

(** C14: An admission binds one tenant, the one that asked.  The scope, the runtime (live when
    it was read), the wallet and the signer are of its organization; on the read of the
    wallet, the binding that was last put by that organization under the label asked for is
    active, and so is, on the read of the signer, the one it last put for that provider and
    key; the address of the context is the one of the wallet it last put under that label,
    as read again; what other organizations put does not matter.  The authority holds the
    eleven checks in their order and authorizes this scope.  (The wallet is not checked
    again on the second read, [wallet_is_read_again_unchecked], and the key of the context
    is the one asked for without its blanks, [context_names_another_key].) *)
Theorem admission_binds_one_tenant rd now principal r org notes ctx rt
    (Hg : gateway_authorize bytes inputs rd trace now principal r org = Ok (notes, ctx, rt)) :
  let o := org.(og_id) in
  let provider := r.(tq_signer).(sb_provider) in let key_ref := r.(tq_signer).(sb_key_ref) in
  o = r.(tq_organization_id) /\ o <> 0
  /\ verify_against o rt.(rt_runtime_id) rt.(rt_generation) ctx = true
  /\ rt.(rt_organization_id) = o /\ runtime_live rt.(rt_status) = true
  /\ ctx.(xc_wallet).(tw_organization_id) = o
  /\ ctx.(xc_signer) = mkTenantSignerRef o provider (trim key_ref) true
  /\ (forall puts, rd.(rd_wallet).(w_bindings) = Ok (bindings_after puts) ->
        exists b, last_wallet o r.(tq_wallet_label) puts = Some b /\ b.(wb_active) = true)
  /\ (forall puts, rd.(rd_signer).(w_bindings) = Ok (bindings_after puts) ->
        exists b, last_signer o provider key_ref puts = Some b /\ b.(sr_active) = true)
  /\ (forall puts, rd.(rd_again).(w_bindings) = Ok (bindings_after puts) ->
        exists b, last_wallet o r.(tq_wallet_label) puts = Some b /\ ctx.(xc_wallet).(tw_address) = b.(wb_address))
  /\ map fst ctx.(xc_authority).(xa_checks) = AUTHORITY_CHECK_ORDER
  /\ authority_authorizes ctx.(xc_authority) ctx.(xc_scope) = true.
Proof.
  cbv zeta. apply gateway_Ok in Hg as (e & row & s & [Hp Ht Hst Hrt Hpol [(w & Hw & Hwa) (k & Hk & Hka)] Hl Hi] & -> & ->).
  rewrite Ht. destruct Hi as (Hagain & _ & Hs & Ho & Hr). destruct Hrt as (rows & rows' & x & _ & Hc & _ & _).
  apply current_is_live in Hc as [Hro Hrl]. split_and!; try done.
  - unfold verify_against, context_of, scope_of. cbn [xc_scope xs_organization_id xs_runtime_id xs_generation].
    rewrite !bool_decide_true by reflexivity. reflexivity.
  - unfold context_of. cbn [xc_wallet]. apply labelled_tenant.
  - by apply signer_of_tenant in Hs.
  - intros puts Hb. exists w. split; [|done]. by apply (wallet_row_last _ _ _ _ Hb).
  - intros puts Hb. exists k. split; [|done]. by apply (signer_row_last _ _ _ _ Hb).
  - intros puts Hb. exists row. split; [by apply (wallet_row_last _ _ _ _ Hb)|].
    unfold context_of. cbn [xc_wallet]. unfold with_wallet_label. by destruct (_ && _).
  - unfold authority_authorizes. by apply bool_decide_eq_true.
Qed.

(** C15: An admitted request is inside the platform's own bounds and the tenant's, whatever the
    tenant has configured. *)
Theorem admission_within_bounds rd now principal r org notes ctx rt
    (Hg : gateway_authorize bytes inputs rd trace now principal r org = Ok (notes, ctx, rt)) :
  let b := inputs.(xi_bounds) in
  exists config, rd.(rd_config).(w_config) r.(tq_organization_id) = Ok config
  /\ r.(tq_mode) ∈ b.(gb_allowed_modes) /\ r.(tq_mode) ∈ config.(tc_allowed_modes)
  /\ module_check r.(tq_module) config.(tc_modules) = MeEnabled
  /\ (forall size, r.(tq_size_usd) = Some size -> limit_usable size = true
        /\ fleb size b.(gb_max_position_usd) = true
        /\ forall cap, config.(tc_risk).(tr_max_position_usd) = Some cap -> fleb size cap = true)
  /\ (forall bps, r.(tq_slippage_bps) = Some bps -> bps <> 0 /\ bps <= b.(gb_max_slippage_bps)
        /\ forall cap, config.(tc_risk).(tr_max_slippage_bps) = Some cap -> bps <= cap).
Proof.
  cbv zeta. apply gateway_Ok in Hg as (e & row & s & [_ _ _ _ Hpol _ Hl _] & _ & _).
  destruct Hpol as (plan & config & control & _ & _ & _ & Hc & He & Hen & _ & _ & Hmode). exists config.
  pose proof (resolution_limits inputs.(xi_bounds) config inputs.(xi_overrides)) as (Hpos & Hslip & Hmodes & Hmods).
  rewrite <- He in Hpos, Hslip, Hmodes, Hmods. apply Hmodes in Hmode as [Hm1 Hm2]. apply Hmods in Hen.
  destruct Hl as (Hv & _ & _ & Hsize & Hbps). destruct Hpos as (v & Hpv & Hcase). rewrite Hpv in Hv.
  apply negb_false_iff in Hv. destruct Hcase as [[-> _]|(Huv & _ & Hle)]; [by vm_compute in Hv|].
  destruct Hslip as (w & Hw & Hall). split_and!; try done.
  - intros size Hs. destruct (Hsize size Hs) as [Hu Hcap]. specialize (Hcap v Hpv).
    assert (Hsv : fleb size v = true) by (apply fltb_false; auto using usable_number).
    split_and!; [done| |]; intros; eapply fleb_trans; try exact Hsv; apply Hle; set_solver.
  - intros bps Hb. destruct (Hbps bps Hb) as [Hne Hcap]. specialize (Hcap w Hw).
    split_and!; [done| |]; intros; (etrans; [exact Hcap|]); apply Hall; set_solver.
Qed.

(** The typed entry path decides as the other one does: its own guard refuses nothing that
    the chain would not refuse for the same reason. *)
Theorem in_context_is_authorize rd now principal r org :
  authorize_in_context bytes inputs rd trace now principal r org
  = gateway_authorize bytes inputs rd trace now principal r org.
Proof.
  unfold authorize_in_context, context_guard. destruct (is_empty (trim principal)) eqn:Hp.
  { unfold gateway_authorize. rewrite Hp. reflexivity. }
  destruct (bool_decide (og_id org = tq_organization_id r)) eqn:Ho.
  2: { unfold gateway_authorize. rewrite Hp, record_principal, Ho. reflexivity. }
  destruct (tenant_guard org) as [n|d|] eqn:Ht; [reflexivity|..];
    unfold gateway_authorize; rewrite Hp, record_principal, Ho; cbn [mbind outcome_bind reject_if negb];
    rewrite record_tenant, Ht; reflexivity.
Qed.
End theorems.

(** * What the order of the reads allows *)

Definition again_at (w : GatewayWorld) (rd : GatewayReads) : GatewayReads :=
  mkGatewayReads rd.(rd_current) rd.(rd_fence) rd.(rd_plan) rd.(rd_config) rd.(rd_control) rd.(rd_wallet) rd.(rd_signer) w.

(** The registry of runtimes as the reads after the fence would find it. *)
Definition with_rows (rows : outcome unit (list TenantRuntimeRecord)) (w : GatewayWorld) : GatewayWorld :=
  mkGatewayWorld w.(w_now) rows w.(w_plan) w.(w_config) w.(w_control) w.(w_bindings).
Definition later_rows (rows : outcome unit (list TenantRuntimeRecord)) (rd : GatewayReads) : GatewayReads :=
  mkGatewayReads rd.(rd_current) rd.(rd_fence) (with_rows rows rd.(rd_plan)) (with_rows rows rd.(rd_config))
    (with_rows rows rd.(rd_control)) (with_rows rows rd.(rd_wallet)) (with_rows rows rd.(rd_signer))
    (with_rows rows rd.(rd_again)).

(** The wallet is checked on one read and used from another: a binding that was deactivated and
    re-pointed in between is the one the context is issued over. *)
Theorem wallet_is_read_again_unchecked `{UuidText} {libs : LedgerLibs} bytes inputs trace rd now principal r org notes
    ctx rt w row
    (Hg : gateway_authorize bytes inputs rd trace now principal r org = Ok (notes, ctx, rt))
    (Hrow : wallet_row w r = Ok (Some row)) (Hoff : row.(wb_active) = false)
    (Hv : valid_public_address row.(wb_address) = true) :
  exists ctx', gateway_authorize bytes inputs (again_at w rd) trace now principal r org = Ok (notes, ctx', rt)
  /\ ctx'.(xc_wallet).(tw_address) = row.(wb_address).
Proof.
  apply gateway_Ok in Hg as (e & row0 & s & [Hp Ht Hst Hrt Hpol Hb Hl Hi] & -> & ->).
  exists (context_of bytes trace now r rt row s). split.
  - apply gateway_Ok. exists e, row, s. split; [|done]. destruct Hi as (_ & _ & Hs & Ho & Hr). by constructor.
  - unfold context_of, with_wallet_label. cbn [xc_wallet]. by destruct (_ && _).
Qed.

(** The fence is verified before the plan, the configuration and the bindings are read: what
    the registry of runtimes says after that does not matter, a runtime superseded meanwhile
    still gets its context. *)
Theorem fence_is_not_verified_again `{UuidText} {libs : LedgerLibs} bytes inputs trace rd now principal r org rows :
  gateway_authorize bytes inputs (later_rows rows rd) trace now principal r org
  = gateway_authorize bytes inputs rd trace now principal r org.
Proof. reflexivity. Qed.

(** * An admission *)

Definition demo_uuid : UuidText := {| uuid_text := fun z => z :: replicate 35 0 |}.
Lemma demo_uuid_laws : UuidTextLaws (H := demo_uuid).
Proof. split; [by intros a b [= ->]|done]. Qed.

Definition demo_plan : EntitlementSet :=
  resolve_entitlements (fun _ => 0) None None [Entitlement_new 1 1 MODULE_SNIPER None EsOverride 0] 5.

Definition demo_wallet : WalletBinding := mkWalletBinding 1 (lit "main") (lit "Wallet111111") true 0.
Definition demo_repointed : WalletBinding := mkWalletBinding 1 (lit "main") (lit "Other2222222") false 4.

(** The key is registered with a blank before it; the same key without it has been revoked. *)
Definition demo_bindings (w : WalletBinding) : Bindings :=
  put_signer (mkSignerBindingRow 1 SpLocal (lit "hot") false 0)
    (put_signer (mkSignerBindingRow 1 SpLocal (lit " hot") true 0) (put_wallet w (mkBindings ∅ ∅))).

Definition demo_world (w : WalletBinding) : GatewayWorld :=
  mkGatewayWorld 5 (Ok demo_rotated) (fun _ => Ok demo_plan) (fun _ => Ok TenantConfigModel_default)
    (fun _ _ => Ok None) (Ok (demo_bindings w)).

Definition demo_inputs : ExecutionInputs := mkExecutionInputs LeasePolicy_default platform_defaults RuntimeOverrides_default.
Definition demo_execution_request : TenantExecutionRequest :=
  mkTenantExecutionRequest 1 Sniper Paper (lit "main") (mkSignerBinding SpLocal (lit " hot"))
    (Some (f_of_Z 100)) (Some 500) (lit "api").
Definition demo_active_org : Organization := Organization_new 1 (lit "acme") (lit "Acme") None 0.
Definition demo_trace : ExecutionTrace := mkExecutionTrace 1 (lit "c") (lit "api") 5.
Definition demo_bytes (t : text) : Z := Z.of_nat (length t).

Definition demo_tenant_context : TenantExecutionContext :=
  context_of (H := demo_uuid) (libs := plain_libs) demo_bytes demo_trace 5 demo_execution_request demo_runtime_b demo_wallet
    (mkTenantSignerRef 1 SpLocal (lit "hot") true).

Lemma demo_admission :
  gateway_authorize (H := demo_uuid) (libs := plain_libs) demo_bytes demo_inputs (still (demo_world demo_wallet))
    demo_trace 5 (lit "user") demo_execution_request demo_active_org = Ok (admission_notes, demo_tenant_context, demo_runtime_b).
Proof. vm_compute. reflexivity. Qed.

(** The key that is checked is the one asked for, the key of the context is that one trimmed:
    here the context names a key whose binding is revoked. *)
Theorem context_names_another_key :
  exists notes ctx rt,
    gateway_authorize (H := demo_uuid) (libs := plain_libs) demo_bytes demo_inputs (still (demo_world demo_wallet))
      demo_trace 5 (lit "user") demo_execution_request demo_active_org = Ok (notes, ctx, rt)
    /\ (exists b, find_signer 1 ctx.(xc_signer).(ts_provider) ctx.(xc_signer).(ts_key_ref) (demo_bindings demo_wallet) = Some b
          /\ b.(sr_active) = false)
    /\ ctx.(xc_signer).(ts_key_ref) <> demo_execution_request.(tq_signer).(sb_key_ref).
Proof.
  exists admission_notes, demo_tenant_context, demo_runtime_b. split; [exact demo_admission|]. split; [|by vm_compute].
  exists (mkSignerBindingRow 1 SpLocal (lit "hot") false 0). split; vm_compute; reflexivity.
Qed.

Lemma admission_binds_one_tenant_witness :
  let puts := [PutWallet demo_wallet; PutSigner (mkSignerBindingRow 1 SpLocal (lit " hot") true 0);
               PutSigner (mkSignerBindingRow 1 SpLocal (lit "hot") false 0)] in
  demo_bindings demo_wallet = bindings_after puts
  /\ exists b, last_wallet 1 (lit "main") puts = Some b /\ demo_tenant_context.(xc_wallet).(tw_address) = b.(wb_address).
Proof.
  split; [reflexivity|].
  destruct (admission_binds_one_tenant demo_bytes demo_inputs demo_trace _ _ _ _ _ _ _ _ demo_admission)
    as (_ & _ & _ & _ & _ & _ & _ & _ & _ & Hagain & _).
  apply Hagain. reflexivity.
Defined.

Lemma admission_within_bounds_witness :
  fleb (f_of_Z 100) (f_of_Z 100000) = true.
Proof.
  destruct (admission_within_bounds demo_bytes demo_inputs demo_trace _ _ _ _ _ _ _ _ demo_admission)
    as (config & _ & _ & _ & _ & Hs & _). by destruct (Hs (f_of_Z 100) eq_refl) as (_ & Hle & _).
Defined.

Lemma wallet_is_read_again_unchecked_witness :
  exists ctx', gateway_authorize (H := demo_uuid) (libs := plain_libs) demo_bytes demo_inputs
    (again_at (demo_world demo_repointed) (still (demo_world demo_wallet))) demo_trace 5 (lit "user") demo_execution_request demo_active_org
    = Ok (admission_notes, ctx', demo_runtime_b)
  /\ ctx'.(xc_wallet).(tw_address) = lit "Other2222222".
Proof.
  apply (wallet_is_read_again_unchecked demo_bytes demo_inputs demo_trace (still (demo_world demo_wallet)) 5 (lit "user")
           demo_execution_request demo_active_org admission_notes demo_tenant_context demo_runtime_b (demo_world demo_repointed) demo_repointed
           demo_admission); vm_compute; reflexivity.
Defined.

Lemma describe_names_the_scope_witness :
  scope_of demo_execution_request demo_runtime_b = mkExecutionScope 1 11 2 Sniper Paper.
Proof.
  apply (describe_names_the_scope (H := demo_uuid) (H0 := demo_uuid_laws)); [by vm_compute|by vm_compute|reflexivity].
Defined.
